(* ===== verification/_CoqProject ===== *)
-Q . S2P
Prelude.v
Vbi.v
PyStr.v
Primitives.v
Enums.v
Properties.v
Topics.v
Matcher.v
Types.v
Frame.v
Ack.v
Publish.v
Handshake.v
Subscription.v
Buffer.v
PacketIds.v
Reconnect.v
Settings.v
Store.v
StoreIn.v
Json.v
Sqlite.v
SqliteLaws.v
SqliteOut.v
SqliteIn.v
SqliteRows.v
SqliteBatch.v
SqliteShared.v
EngineState.v
Outbound.v
Inbound.v
Engine.v
Wp.v
Accounting.v
InboundBooks.v
OutboundInv.v
OutboundAcks.v
OutboundPublish.v
OutboundReplay.v
OutboundPurge.v
OutboundTheorems.v
OutboundWire.v
InboundInv.v
InboundHandlers.v
InboundLife.v
Frames.v
EngineInv.v
EngineTheorems.v
EngineRules.v
InboundTheorems.v
Faults.v
SqliteRestart.v
WritePump.v
WriterInv.v
WriterTheorems.v
Async.v
Stream.v
WsFrame.v
WsCodec.v
WebSocket.v
WsReader.v
WsWire.v
WsHandshake.v
WsConnect.v
Push.v
PushTheorems.v
Tasks.v
Delivery.v
DeliveryTheorems.v
Lane.v
LaneTheorems.v
EffectPump.v
EffectTheorems.v
Receipts.v
ReceiptsTheorems.v
Auth.v
AuthTheorems.v
Lifecycle.v
LifecycleTheorems.v
