(* ===== verification/Prelude.v ===== *)
(** * MQTTium: the verified core of an MQTT 3.1.1 / 5 client

    The program ([src/src/mqttium]) is a client in layers.  Bytes arrive in the
    incremental decoder, which cuts them into packets; [ProtocolEngine] takes one
    packet or one request of the application at a time, changes its two sessions
    and the in-flight store, and appends effects (bytes to send, messages to
    deliver, receipts to settle) to one ordered list; the asyncio front end takes
    that list and performs it.  The engine touches no socket, timer or task, so
    all of it is modelled: this development translates the codec, the packets, the
    topic matcher, the protocol package, both stores and the transports, and of the
    front end the parts that carry what passes between engine, transport and
    application: the effect pump applies the effects in order, the write pump carries
    bytes to the transport, the delivery lane hands messages to the bounded queue
    that the application reads.  It proves what they promise to each other and to the
    application.

    ** Conventions

    A Python exception is a value: [res A] is [Ok a] or [Raise e], and [exn] has
    the exception classes the code tells apart.  [let!] and [raise! _ when _]
    (scope of this file) read like the source's early exits.  A [str] is a list
    of code points, [bytes] a list of integers in 0..255, an [int] a [Z], a [dict]
    an association list in insertion order ([dget], [dset], [ddel]) or a [gmap]
    where the order is never seen, a [set] a [gset].  Objects that the code shares
    and mutates (stored messages, matcher entries) live in a heap and are referred
    to by location.  A method of the engine or of a session is a state and
    exception computation [M S A] (EngineState): it returns a result and the state
    it leaves, also when it raises, so a handler that fails half way leaves the
    half it did.  [set.pop] and the random draw of the back-off are arguments.

    ** Files and the source they translate

    - Prelude, PyStr: exceptions, dictionaries, byte slices, Python text and UTF-8.
    - Vbi, Primitives, Enums, Properties, Topics, Types: [codec/vbi.py],
      [codec/primitives.py], [enums.py] with [codec/packet_validation.py],
      [codec/properties.py], [topics.py], [types.py].
    - Frame, Ack, Publish, Handshake, Subscription: the packet modules under
      [packets/], and the table of codecs [_bindings.py] binds.
    - Buffer: [codec/buffer.py], the receive slab and its framing.
    - Matcher: [dispatch/matcher.py].
    - PacketIds, Reconnect, Settings: [protocol/packet_ids.py],
      [protocol/flow_control.py], [protocol/reconnect.py], [protocol/config.py],
      [protocol/negotiated.py].
    - Store, StoreIn: [persistence/memory.py].  [OutStore] and [InStore] are the
      two halves of the [InflightStore] protocol; [OutStoreLaws] and
      [InStoreLaws] are what they promise.  The sessions are proved against the
      laws; the memory store has them, and so does any store with them whose
      calls fail on demand.
    - Json, Sqlite: [persistence/sqlite.py].  Json has the text form of properties
      with the part of [json] and [base64] it uses; Sqlite has the tables, the
      transaction of a connection and every method of [SqliteInflightStore].  A
      call of the library may find nothing special, fail with or without SQLite
      rolling the transaction back, or come after a commit of another connection:
      the [world] of a connection lists what its calls will meet.  SqliteLaws,
      SqliteOut and SqliteIn prove the store laws; SqliteRows, SqliteBatch,
      SqliteShared and SqliteRestart what rows of any file, batches, other
      connections and a restart may do.
    - EngineState, Outbound, Inbound, Engine: [protocol/effects.py],
      [protocol/outbound.py], [protocol/inbound.py], [protocol/engine.py], one
      definition per method, with the names of the source.
    - Wp: the proof rules of the monad ([wp m Q R e]).  Frames: what each half of
      the engine leaves alone.
    - Accounting, OutboundInv, OutboundAcks, OutboundPublish, OutboundReplay,
      OutboundPurge, OutboundTheorems, OutboundWire: the outbound session.
    - InboundBooks, InboundInv, InboundHandlers, InboundLife, InboundTheorems: the
      inbound session.
    - EngineInv, EngineTheorems, EngineRules: the engine.
    - Faults: runs with a failing store that leave a session in a bad state.
    - WritePump, WriterInv, WriterTheorems: [api/_writer.py].  The pump is one
      object that its methods, its writer task and the tasks of the producers
      change in turn; between two awaits a task runs alone.  [step_label] is one
      such stretch and a run is a list of labels, so the interleavings are the
      lists.  [allowed] says which labels may come next: what the event loop does
      (a woken task runs once, a cancelled one raises), and how the client uses
      the pump (it connects after the previous writer ended and every waiter was
      told; it discards with no batch in flight).
    - Async: coroutines as resumptions.  A coroutine runs on the state of its
      object until it ends ([Fin]) or waits ([Susp]); what others do meanwhile
      changes the state it goes on with.  [holds] are the rules of rely and
      guarantee that prove a coroutine right among others; [runs] (Stream) plays a
      coroutine by itself on a list of arrivals.
    - Stream: [transport/_stream.py], on a model of the asyncio [StreamWriter].
    - WsFrame, WebSocket, WsHandshake: [transport/websocket.py], its frames, the
      coroutines of its class and the opening handshake with the SHA-1 it needs.
      WsCodec, WsReader, WsWire and WsConnect have the theorems.
    - Push, PushTheorems: [transport/_push.py], the receive call-backs and the
      reader on the decoder they share.
    - Tasks: an [asyncio.Event] as a flag and a count of settings, by which a task
      that waits knows that it was woken.  The objects of [api/] below are shared by
      many tasks; each definition runs one task from one await to its next one, and
      an inductive step relation takes these stretches in any order.
    - Delivery, DeliveryTheorems: [api/_delivery.py], the bounded queue, the
      iterators and producers that wait for it, the callbacks.
    - Lane, LaneTheorems: [api/_delivery_lane.py], the deliveries of each ingress lot.
    - EffectPump, EffectTheorems: [api/_effects.py], the ordered lane between engine
      and client, its flusher tasks and the callers of [drain].
    - Receipts, ReceiptsTheorems: [api/models.py] and the part of
      [api/async_client.py] that registers and settles publications and parks the
      producers that find no room.
    - Auth, AuthTheorems: [api/_auth.py], the task that hands AUTH challenges to the
      application.
    - Lifecycle, LifecycleTheorems: [api/_lifecycle.py], the supervisor of the
      [on_connect] and [on_disconnect] hooks, which holds reconnection back.

    ** What the theorems show

    - Codec: every encoder and decoder pair inverts on valid input; decoders
      accept exactly the well-formed input and raise only protocol errors on any
      bytes; a broker written independently reads back what CONNECT and SUBSCRIBE
      say; the fast PUBLISH paths, the cached encodings, the in-place DUP bit and
      the computed frame sizes agree with the plain definitions.
    - Buffer: what the decoder delivers depends on the bytes received and not on
      how they were cut, through growth, compaction and retirement of the slab.
    - Matcher, PacketIds, Reconnect, Settings: refinement of a list scan and of a
      finite set; bounds of the back-off; what a CONNACK establishes.
    - Outbound and inbound sessions: in every reachable state, failing stores
      included, the counters, the identifier pool, the send window, the queue, the
      Receive Maximum slots and the exchange tokens agree with the stored rows; a
      publication is admitted completely or not at all; QoS 2 is received exactly
      once; manual acknowledgements leave in arrival order; a restart rebuilds
      the books; a resumed session stops sending only when its window is full.
    - SQLite store: it keeps the laws of a store whose calls may fail; a batch is
      committed whole or not at all; a conditional transition settles the row it
      read or none, whatever others commit; what was stored survives the process
      and an engine over the reopened file has the books of the one that stopped;
      any file is read safely.  Properties are stored exactly, except values the
      file format cannot hold (real numbers, names out of Latin-1, a single entry
      named like the byte marker), which are refused when read.
    - Engine: the connection moves only as the protocol allows, every packet error
      is reported once, requests and challenges are answered once.
    - Write pump: in every interleaving of its tasks, what reached the transport
      and what is still pending are, in order, what was accepted; the queue keeps
      its bounds, except for the one entry larger than the bound and the PUBREL
      and control bytes the code forces through; with a writer that keeps being
      scheduled, every waiting producer is served or told the connection is gone.
    - WebSocket: a frame is parsed exactly as RFC 6455 writes it; what a writer
      sends among readers and closers leaves whole, in order and within the bounds
      of a frame; what the peer sends, cut anywhere, is delivered whole and in
      order and its pings are answered; the handshake agrees with what a server
      answers and loses no byte.
    - Receiving into the decoder: no wakeup is lost, the socket is never left
      paused over an incomplete packet, what the decoder holds is bounded.
    - Effect pump: packets leave in the order the engine emitted them and no effect is
      applied twice, through failures, teardowns and reconnects; a caller that waits
      has work ahead of it and someone to do it, and gets the failure that is its own.
    - Delivery lane and queue: an acknowledged message is delivered once and in order
      or still held, through interrupted lots, reconnects and new streams; the queue
      keeps its bounds; whoever waits for room or for a message is woken; a callback
      that raises stops neither the others nor the reader.
    - Receipts: every publication has one outcome and its receipt or batch reports that
      one, first in first out per identifier; a batch counts its publications; producers
      that wait for room are woken in turn.
    - Authentication and lifecycle: challenges are answered in turn, on their own
      connection; hooks are called for the connection of the moment only, and
      reconnection is never held back for good.

    ** Fuel

    The loops that are not structural carry a bound computed from the state: the
    bytes left to decode, the length of the queue, the identifiers of a page, the
    messages a replay cursor holds.  The bound is never reached:
    [Buffer.decoder_delivers], [OutboundTheorems.resume_work_conserving] and
    [InboundTheorems.replay_terminates] show that the loop ends by itself.
    A coroutine that waits in a loop takes its fuel as an argument:
    [WsReader.ws_delivers] and [WsConnect.ws_connect] hold for any fuel above the
    number of arrivals and frames, and a wakeup ends the loop of [Push.receive]
    ([PushTheorems.push_no_stall]).

    ** Not modelled

    - Of [api/]: [async_client.py] but for publishing and the steps its pumps need;
      the tasks, futures and locks of connecting and reconnecting.  What the client does with an effect, and how a
      callback ends, are arguments; both are taken not to call back into the pump or
      the queue that calls them (the guard [draining_inline] is then never met).
    - Of [api/_delivery.py]: telling asynchronous callbacks from others and awaiting
      them, and the call-back [before_yield].  Of [api/_effects.py]: settling the
      receipt of a discarded terminal effect, the CONNACK future and the disconnect
      cause, which belong to the client, and the read-only [counters].
    - Of [api/_writer.py]: the texts of refusals and the handler [on_failure],
      which belongs to the client.
    - Of [transport/]: opening sockets and TLS ([tcp.py], [unix.py]), the inside
      of asyncio and [urlparse], whose result is an argument, and the call-back
      [before_wait] of the push reader, which belongs to the client.
    - Of [persistence/sqlite.py]: creating the file with private permissions
      ([_prepare_private_path]) and the lock that threads of one process share. *)

From Stdlib Require Export ZArith Lia.
From stdpp Require Export base numbers list strings gmap.

#[export] Set Default Proof Using "Type".

(** ** Python values, exceptions and results *)

(** Bytes are lists of 8-bit integers, Python [str] values are lists of code
    points; both are lists of [Z]. *)
Abbreviation bytes := (list Z).
Abbreviation pystr := (list Z).

(** The values an MQTT 5 property may hold once [_freeze_property_value] has
    owned it ([bool] is an [int] in Python). *)
Inductive pyval :=
  | VNone
  | VInt (z : Z)
  | VStr (s : pystr)
  | VBytes (b : bytes)
  | VTuple (l : list pyval).

(** [Properties.values]: an insertion-ordered mapping from names to values. *)
Abbreviation propmap := (list (string * pyval)).

(** The exceptions the modelled code raises: the classes of [errors.py] it
    uses and the builtin ones.  Messages are not modelled. *)
Inductive exn :=
  | MalformedPacketError
  | ProtocolError
  | PublishRejectedError (packet : string) (reason_code : Z) (properties : option propmap)
  | PacketTooLargeError
  | MandatoryResponseTooLargeError
  | SessionReplayError
  | FlowControlError
  | NotConnectedError
  | SessionDiscardedError
  | ValueError
  | OverflowError
  | TypeError
  | IndexError
  | KeyError
  | UnicodeError
  | StructError
  | AssertionError
  | RuntimeError
  | StoreError
  | StaleConnectionEffect
  | MessageDeliveryError
  | CancelledError
  | DependencyCancelledError
  | OSError
  | ConnectionError
  | TimeoutError
  | MQTTError
  | MQTTTimeoutError
  | BrokerDisconnectError
  | PublishBatchError
  | QueueFull
  | InvalidStateError.

(** Subclass tests, as [except] clauses perform them. *)
Definition is_protocol_error (e : exn) : bool :=
  match e with
  | ProtocolError | PublishRejectedError _ _ _ | PacketTooLargeError
  | MandatoryResponseTooLargeError => true
  | _ => false
  end.

Definition is_packet_too_large (e : exn) : bool :=
  match e with
  | PacketTooLargeError | MandatoryResponseTooLargeError => true
  | _ => false
  end.

Definition is_mqtt_error (e : exn) : bool :=
  match e with
  | MalformedPacketError | SessionReplayError | FlowControlError
  | NotConnectedError | SessionDiscardedError | MessageDeliveryError | DependencyCancelledError
  | MQTTError | MQTTTimeoutError | BrokerDisconnectError | PublishBatchError => true
  | _ => is_protocol_error e
  end.

Inductive res (A : Type) :=
  | Ok (a : A)
  | Raise (e : exn).
Arguments Ok {A} _.
Arguments Raise {A} _.

Definition rbind {A B} (m : res A) (k : A → res B) : res B :=
  match m with Ok a => k a | Raise e => Raise e end.

(** [try: m except e: h e]. *)
Definition rcatch {A} (m : res A) (h : exn → res A) : res A :=
  match m with Ok a => Ok a | Raise e => h e end.

Declare Scope py_scope.
Delimit Scope py_scope with py.
Notation "'let!' x := m 'in' k" := (rbind m (λ x, k))
  (at level 10, x name, m at level 100, k at level 200) : py_scope.
Notation "'let!' ' p := m 'in' k" := (rbind m (λ x, match x with p => k end))
  (at level 10, p strict pattern, m at level 100, k at level 200) : py_scope.
(** [raise e if c]: an early raise guarding the rest of a body. *)
Notation "'raise!' e 'when' c ; k" := (if c then Raise e else k)
  (at level 10, e at level 9, c at level 100, k at level 200) : py_scope.
Open Scope py_scope.
Open Scope Z_scope.

Definition is_ok {A} (r : res A) : bool := match r with Ok _ => true | Raise _ => false end.

Lemma rbind_Ok_inv {A B} (m : res A) (k : A → res B) b :
  rbind m k = Ok b → ∃ a, m = Ok a ∧ k a = Ok b.
Proof. destruct m; simpl; intros; [eauto | done]. Qed.

Lemma rbind_Raise_inv {A B} (m : res A) (k : A → res B) e :
  rbind m k = Raise e → m = Raise e ∨ ∃ a, m = Ok a ∧ k a = Raise e.
Proof. destruct m; simpl; intros; [eauto | left; congruence]. Qed.

(** The errors a computation can raise all satisfy [P]. *)
Definition raises_only {A} (P : exn → Prop) (m : res A) : Prop :=
  ∀ e, m = Raise e → P e.

Lemma raises_only_Ok {A} P (a : A) : raises_only P (Ok a).
Proof. by intros e. Qed.

Lemma raises_only_Raise {A} (P : exn → Prop) e : P e → raises_only P (@Raise A e).
Proof. intros ? e' [= <-]. done. Qed.

Lemma raises_only_bind {A B} P (m : res A) (k : A → res B) :
  raises_only P m → (∀ a, m = Ok a → raises_only P (k a)) → raises_only P (rbind m k).
Proof. destruct m; simpl; unfold raises_only; eauto. intros H _ e' [= <-]. auto. Qed.

Lemma raises_only_weaken {A} (P Q : exn → Prop) (m : res A) :
  (∀ e, P e → Q e) → raises_only P m → raises_only Q m.
Proof. unfold raises_only; eauto. Qed.

Create HintDb pyraise.
#[export] Hint Resolve raises_only_Ok raises_only_Raise : pyraise.

(** Invert a successful chain of [let!] bindings. *)
Ltac res_inv :=
  repeat match goal with
  | H : rbind ?m ?k = Ok _ |- _ =>
      let a := fresh "v" in let Ha := fresh "Hv" in
      apply rbind_Ok_inv in H as (a & Ha & H)
  | H : context [let '(_, _) := ?x in _] |- _ => is_var x; destruct x
  | H : Ok _ = Ok _ |- _ => injection H; clear H; intros; subst
  | H : Raise _ = Ok _ |- _ => discriminate H
  | H : Ok _ = Raise _ |- _ => discriminate H
  | H : (if ?c then Raise _ else _) = Ok _ |- _ =>
      let E := fresh "E" in destruct c eqn:E; [discriminate H |]
  | H : (if ?c then _ else Raise _) = Ok _ |- _ =>
      let E := fresh "E" in destruct c eqn:E; [| discriminate H]
  end.

(** Turn boolean comparisons in the context into propositions [lia] reads. *)
Ltac bools :=
  repeat match goal with
  | H : _ && _ = true |- _ => apply andb_prop in H as [? ?]
  | H : _ || _ = false |- _ => apply orb_false_elim in H as [? ?]
  | H : negb _ = true |- _ => apply negb_true_iff in H
  | H : negb _ = false |- _ => apply negb_false_iff in H
  | H : (_ <? _) = true |- _ => apply Z.ltb_lt in H
  | H : (_ <? _) = false |- _ => apply Z.ltb_ge in H
  | H : (_ <=? _) = true |- _ => apply Z.leb_le in H
  | H : (_ <=? _) = false |- _ => apply Z.leb_gt in H
  | H : (_ =? _) = true |- _ => apply Z.eqb_eq in H
  | H : (_ =? _) = false |- _ => apply Z.eqb_neq in H
  | H : bool_decide _ = true |- _ => apply bool_decide_eq_true in H
  | H : bool_decide _ = false |- _ => apply bool_decide_eq_false in H
  end.

(** Split on the innermost boolean test of the goal. *)
Ltac case_if :=
  match goal with
  | |- context [if ?c then _ else _] =>
      lazymatch c with context [if _ then _ else _] => fail | _ => idtac end;
      let E := fresh "E" in destruct c eqn:E
  end.

(** Equality of results or tuples, component by component. *)
Ltac tup :=
  repeat match goal with
  | |- Ok _ = Ok _ => f_equal
  | |- Some _ = Some _ => f_equal
  | |- (_, _) = (_, _) => f_equal
  end.

Ltac case_ifs_in H :=
  repeat match type of H with
  | context [if ?c then _ else _] =>
      lazymatch c with context [if _ then _ else _] => fail | _ => idtac end;
      let E := fresh "E" in destruct c eqn:E; bools
  end.

(** ** Lengths, indexing and slicing *)

Definition len {A} (l : list A) : Z := Z.of_nat (length l).

Lemma len_nonneg {A} (l : list A) : 0 ≤ len l.
Proof. unfold len; lia. Qed.
Lemma len_nil {A} : len (@nil A) = 0.
Proof. done. Qed.
Lemma len_cons {A} (x : A) l : len (x :: l) = 1 + len l.
Proof. unfold len; simpl; lia. Qed.
Lemma len_app {A} (l k : list A) : len (l ++ k) = len l + len k.
Proof. unfold len; rewrite length_app; lia. Qed.
Lemma len_0_nil {A} (l : list A) : len l = 0 → l = [].
Proof. destruct l; unfold len; simpl; [done | lia]. Qed.

Create Rewrite HintDb pylen.
#[export] Hint Rewrite @len_nil @len_cons @len_app : pylen.

(** Normalise every [len] and close an arithmetic goal about lengths. *)
Ltac len_lia :=
  autorewrite with pylen in *;
  repeat match goal with
  | |- context [len ?l] =>
      lazymatch goal with _ : 0 ≤ len l |- _ => fail | _ => pose proof (len_nonneg l) end
  | _ : context [len ?l] |- _ =>
      lazymatch goal with _ : 0 ≤ len l |- _ => fail | _ => pose proof (len_nonneg l) end
  end; lia.

(** [buf[i]] for a non-negative index: out of range raises [IndexError]. *)
Definition idx (b : bytes) (i : Z) : res Z :=
  match b !! Z.to_nat i with Some x => Ok x | None => Raise IndexError end.

(** [buf[i:j]] for non-negative bounds, clamped to the length. *)
Definition slice {A} (b : list A) (i j : Z) : list A :=
  take (Z.to_nat j - Z.to_nat i) (drop (Z.to_nat i) b).

Lemma to_nat_len {A} (l : list A) : Z.to_nat (len l) = length l.
Proof. unfold len; lia. Qed.

Lemma idx_app_r (p q : bytes) i : 0 ≤ i → idx (p ++ q) (len p + i) = idx q i.
Proof.
  intros. unfold idx. rewrite lookup_app_r by (unfold len in *; lia).
  by replace (Z.to_nat (len p + i) - length p)%nat with (Z.to_nat i) by (unfold len; lia).
Qed.

Lemma idx_mid (p q : bytes) x : idx (p ++ x :: q) (len p) = Ok x.
Proof. replace (len p) with (len p + 0) by lia. by rewrite idx_app_r by lia. Qed.

Lemma idx_app_l (p q : bytes) i : 0 ≤ i < len p → idx (p ++ q) i = idx p i.
Proof. intros. unfold idx. rewrite lookup_app_l; [done |]. unfold len in *; lia. Qed.

Lemma idx_Ok (b : bytes) i : 0 ≤ i < len b → ∃ x, idx b i = Ok x ∧ x ∈ b.
Proof.
  intros [? ?]. unfold idx.
  destruct (lookup_lt_is_Some_2 b (Z.to_nat i)) as [x Hx]; [unfold len in *; lia |].
  rewrite Hx. eexists; split; [done |]. by apply list_elem_of_lookup_2 in Hx.
Qed.

Lemma idx_inv (b : bytes) i x : 0 ≤ i → idx b i = Ok x → i < len b ∧ x ∈ b.
Proof.
  unfold idx. intros ?. destruct (b !! Z.to_nat i) eqn:E; [intros [= ->] | done].
  split; [| by apply list_elem_of_lookup_2 in E].
  apply lookup_lt_Some in E. unfold len; lia.
Qed.

(** A successful read at [i] splits the buffer around its byte. *)
Lemma idx_split (b : bytes) i x :
  0 ≤ i → idx b i = Ok x → ∃ p q, b = p ++ x :: q ∧ len p = i.
Proof.
  unfold idx. intros ?. destruct (b !! Z.to_nat i) eqn:E; [intros [= ->] | done].
  exists (take (Z.to_nat i) b), (drop (S (Z.to_nat i)) b). split.
  - by rewrite take_drop_middle.
  - apply lookup_lt_Some in E. unfold len. rewrite length_take. lia.
Qed.

Lemma slice_mid {A} (p m q : list A) :
  slice (p ++ m ++ q) (len p) (len p + len m) = m.
Proof.
  unfold slice. rewrite to_nat_len.
  replace (Z.to_nat (len p + len m) - length p)%nat with (length m) by (unfold len; lia).
  by rewrite drop_app_length, take_app_length.
Qed.

Lemma slice_all {A} (l : list A) : slice l 0 (len l) = l.
Proof. unfold slice. rewrite to_nat_len. simpl. rewrite Nat.sub_0_r. by rewrite take_ge. Qed.

Lemma slice_tail {A} (p q : list A) : slice (p ++ q) (len p) (len (p ++ q)) = q.
Proof. pose proof (slice_mid p q []) as H. by rewrite app_nil_r, <- len_app in H. Qed.

Lemma len_slice {A} (l : list A) i j :
  0 ≤ i ≤ j → j ≤ len l → len (slice l i j) = j - i.
Proof. intros. unfold slice, len in *. rewrite length_take, length_drop. lia. Qed.

(** The three-way split of a list at two in-range offsets. *)
Lemma slice_split {A} (l : list A) i j :
  0 ≤ i ≤ j → j ≤ len l →
  ∃ p q, l = p ++ slice l i j ++ q ∧ len p = i ∧ len q = len l - j.
Proof.
  intros. exists (take (Z.to_nat i) l), (drop (Z.to_nat j) l). split_and!.
  - unfold slice. rewrite <- (take_drop (Z.to_nat i) l) at 1. f_equal.
    rewrite <- (take_drop (Z.to_nat j - Z.to_nat i) (drop (Z.to_nat i) l)) at 1. f_equal.
    rewrite drop_drop. f_equal. lia.
  - unfold len in *. rewrite length_take. lia.
  - unfold len in *. rewrite length_drop. lia.
Qed.

Lemma slice_elem_of {A} (l : list A) i j x : x ∈ slice l i j → x ∈ l.
Proof.
  unfold slice. intros H%elem_of_take. destruct H as (n & H & _).
  rewrite lookup_drop in H. by apply list_elem_of_lookup_2 in H.
Qed.

(** Every element of a byte string is an 8-bit integer. *)
Definition byte_ok (b : Z) : Prop := 0 ≤ b < 256.
Abbreviation bytes_ok := (Forall byte_ok).

#[export] Instance byte_ok_dec b : Decision (byte_ok b).
Proof. unfold byte_ok. apply _. Defined.

(** Equality of lists of integers as a boolean test. *)
Abbreviation zlist_eqb l k := (bool_decide ((l : list Z) = k)).

(** Membership of an integer in a literal collection. *)
Definition zin (z : Z) (l : list Z) : bool := existsb (Z.eqb z) l.

Lemma zin_spec z l : zin z l = true ↔ z ∈ l.
Proof.
  unfold zin. rewrite existsb_exists. setoid_rewrite <- list_elem_of_In.
  split; [intros (x & ? & ->%Z.eqb_eq); done | intros; exists z; split; [done | apply Z.eqb_refl]].
Qed.

(** ** Bits *)

(** Disjoint low and high parts: [(hi << n) | lo = hi * 2^n + lo]. *)
Lemma land_lo_hi lo hi n : 0 ≤ n → 0 ≤ lo < 2 ^ n → Z.land lo (hi * 2 ^ n) = 0.
Proof.
  intros Hn Hlo. apply Z.bits_inj'. intros m Hm. rewrite Z.land_spec, Z.bits_0.
  destruct (decide (m < n)).
  - by rewrite (Z.mul_pow2_bits_low hi n m), andb_false_r.
  - assert (Z.testbit lo m = false) as ->; [| done].
    apply Z.testbit_false; [lia |]. rewrite Z.div_small; [done |].
    split; [lia |]. apply Z.lt_le_trans with (2 ^ n); [lia |]. apply Z.pow_le_mono_r; lia.
Qed.

Lemma lor_lo_hi lo hi n : 0 ≤ n → 0 ≤ lo < 2 ^ n → Z.lor lo (hi * 2 ^ n) = lo + hi * 2 ^ n.
Proof. intros. symmetry. apply Z.add_nocarry_lor. by apply land_lo_hi. Qed.

Lemma shiftl_lor hi lo n : 0 ≤ n → 0 ≤ lo < 2 ^ n → Z.lor (Z.shiftl hi n) lo = hi * 2 ^ n + lo.
Proof. intros. rewrite Z.shiftl_mul_pow2, Z.lor_comm, lor_lo_hi by done. lia. Qed.

(** A boolean statement about one byte holds for all when it holds for the 256
    values. *)
Lemma byte_forall (P : Z → bool) :
  forallb P (seqZ 0 256) = true → ∀ b, byte_ok b → P b = true.
Proof.
  intros H b [??]. rewrite forallb_forall in H. apply H.
  apply list_elem_of_In, elem_of_seqZ. lia.
Qed.

(** ** Insertion-ordered dictionaries

    A Python [dict] as an association list in insertion order: storing under a
    present key keeps its position, a new key goes last. *)
Section odict.
Context {K V : Type} `{!EqDecision K}.
Implicit Types (d : list (K * V)) (k : K) (v : V).

Fixpoint dget k d : option V :=
  match d with
  | [] => None
  | (k', v) :: d => if decide (k = k') then Some v else dget k d
  end.

Fixpoint dset k v d : list (K * V) :=
  match d with
  | [] => [(k, v)]
  | (k', v') :: d => if decide (k = k') then (k', v) :: d else (k', v') :: dset k v d
  end.

Fixpoint ddel k d : list (K * V) :=
  match d with
  | [] => []
  | (k', v') :: d => if decide (k = k') then d else (k', v') :: ddel k d
  end.

Definition dmem k d : bool := match dget k d with Some _ => true | None => false end.
Definition dkeys d : list K := fst <$> d.

Lemma dget_dset k k' v d : dget k (dset k' v d) = if decide (k = k') then Some v else dget k d.
Proof.
  induction d as [|[k1 v1] d IH]; simpl; [done |].
  destruct (decide (k' = k1)) as [->|]; simpl; [by case_decide |].
  rewrite IH. repeat case_decide; congruence.
Qed.
Lemma dget_dset_eq k v d : dget k (dset k v d) = Some v.
Proof. rewrite dget_dset. by case_decide. Qed.
Lemma dget_dset_ne k k' v d : k ≠ k' → dget k (dset k' v d) = dget k d.
Proof. intros. rewrite dget_dset. by case_decide. Qed.

Lemma dget_None k d : dget k d = None ↔ k ∉ dkeys d.
Proof.
  unfold dkeys. induction d as [|[k1 v1] d IH]; simpl; [split; [intros _; apply not_elem_of_nil | done] |].
  rewrite not_elem_of_cons. case_decide; [subst; split; [done | tauto] |]. rewrite IH. tauto.
Qed.
Lemma dget_Some_key k d v : dget k d = Some v → k ∈ dkeys d.
Proof. intros H. destruct (decide (k ∈ dkeys d)) as [|Hn%dget_None]; [done | congruence]. Qed.

Lemma dget_Some_elem k d v : dget k d = Some v → (k, v) ∈ d.
Proof.
  induction d as [|[k1 v1] d IH]; simpl; [done |]. case_decide; intros; simplify_eq; [by left | right; auto].
Qed.
Lemma dget_elem_NoDup k d v : NoDup (dkeys d) → (k, v) ∈ d → dget k d = Some v.
Proof.
  unfold dkeys. induction d as [|[k1 v1] d IH]; simpl; [by intros _ ?%not_elem_of_nil |].
  rewrite NoDup_cons. intros [Hn Hd] [[= <- <-]|Hin]%elem_of_cons; [by case_decide |].
  case_decide; [| auto]. subst. destruct Hn. apply list_elem_of_fmap. by exists (k1, v).
Qed.

Lemma dset_new k v d : k ∉ dkeys d → dset k v d = d ++ [(k, v)].
Proof.
  unfold dkeys. induction d as [|[k1 v1] d IH]; simpl; [done |]. rewrite not_elem_of_cons.
  intros [??]. case_decide; [done |]. by rewrite IH.
Qed.
Lemma dset_not_nil k v d : dset k v d ≠ [].
Proof. destruct d as [|[]]; simpl; [done |]. case_decide; done. Qed.
Lemma dkeys_dset_old k v d : k ∈ dkeys d → dkeys (dset k v d) = dkeys d.
Proof.
  unfold dkeys. induction d as [|[k1 v1] d IH]; simpl; [by intros ?%not_elem_of_nil |].
  intros Hin. case_decide; simpl; [done |]. apply elem_of_cons in Hin as [?|?]; [done |]. f_equal. by apply IH.
Qed.
Lemma dkeys_dset_new k v d : k ∉ dkeys d → dkeys (dset k v d) = dkeys d ++ [k].
Proof. intros. rewrite dset_new by done. unfold dkeys. by rewrite fmap_app. Qed.
Lemma NoDup_dset k v d : NoDup (dkeys d) → NoDup (dkeys (dset k v d)).
Proof.
  intros Hd. destruct (decide (k ∈ dkeys d)); [by rewrite dkeys_dset_old |].
  rewrite dkeys_dset_new by done. apply NoDup_app. split_and!; [done | | apply NoDup_singleton].
  intros ? ? ->%list_elem_of_singleton. done.
Qed.

Lemma ddel_sub k d : ddel k d `sublist_of` d.
Proof. induction d as [|[k1 v1] d IH]; simpl; [done |]. case_decide; by constructor. Qed.
Lemma NoDup_ddel k d : NoDup (dkeys d) → NoDup (dkeys (ddel k d)).
Proof. intros H. eapply sublist_NoDup; [exact H |]. apply fmap_sublist, ddel_sub. Qed.

Lemma dget_ddel k k' d :
  NoDup (dkeys d) → dget k (ddel k' d) = if decide (k = k') then None else dget k d.
Proof.
  unfold dkeys. induction d as [|[k1 v1] d IH]; simpl; [by case_decide |]. rewrite NoDup_cons. intros [Hn Hd].
  destruct (decide (k' = k1)) as [->|]; simpl.
  - case_decide; [subst; by apply dget_None | done].
  - rewrite IH by done. repeat case_decide; congruence.
Qed.
Lemma dmem_spec k d : dmem k d = true ↔ k ∈ dkeys d.
Proof.
  unfold dmem. destruct (dget k d) eqn:E; [split; [intros _; by eapply dget_Some_key | done] |].
  apply dget_None in E. done.
Qed.
End odict.

(** Filtering with a test that always succeeds. *)
Lemma filter_all {A} (P : A → Prop) `{!∀ x, Decision (P x)} (l : list A) : (∀ x, x ∈ l → P x) → filter P l = l.
Proof.
  induction l as [| x l IH]; intros Hl; [done |]. rewrite filter_cons_True by (apply Hl; left).
  f_equal. apply IH. intros y Hy. apply Hl. by right.
Qed.
