(* ===== verification/Vbi.v ===== *)
(** * Variable Byte Integers ([src/mqttium/codec/vbi.py]) *)

From S2P Require Import Prelude.

Definition MAX_VBI : Z := 268_435_455.

(** The digit loop shared by [encode_vbi] and [append_vbi].  Four iterations
    suffice for every value the callers let through ([MAX_VBI] has four base-128
    digits); the loop is given that fuel and stops at the first zero quotient. *)
Fixpoint vbi_digits (fuel : nat) (value : Z) : bytes :=
  match fuel with
  | O => []
  | S fuel =>
      let digit := value mod 128 in
      let value := value / 128 in
      let digit := if value >? 0 then Z.lor digit 0x80 else digit in
      if value =? 0 then [digit] else digit :: vbi_digits fuel value
  end.

(** [_VBI_ONE]: the table of single-byte encodings. *)
Definition VBI_ONE : list bytes := (λ i, [Z.of_nat i]) <$> seq 0 128.

Definition encode_vbi (value : Z) : res bytes :=
  if value <? 128 then
    raise! ValueError when value <? 0;
    match VBI_ONE !! Z.to_nat value with Some b => Ok b | None => Raise IndexError end
  else
    raise! ValueError when value >? MAX_VBI;
    Ok (vbi_digits 4 value).

Definition append_vbi (buf : bytes) (value : Z) : res bytes :=
  raise! ValueError when negb ((0 <=? value) && (value <=? MAX_VBI));
  Ok (buf ++ vbi_digits 4 value).

Definition vbi_len (value : Z) : res Z :=
  raise! ValueError when negb ((0 <=? value) && (value <=? MAX_VBI));
  if value <? 128 then Ok 1
  else if value <? 16_384 then Ok 2
  else if value <? 2_097_152 then Ok 3
  else Ok 4.

(** The continuation loop of [decode_vbi]; [encoded_bytes] reaches 5 after at
    most four rounds, so five units of fuel always reach a [return] or
    [raise].  The tag of an exhausted fuel is never observed. *)
Fixpoint decode_vbi_loop (fuel : nat) (buffer : bytes) (length : Z)
    (multiplier value pos encoded_bytes : Z) : res (Z * Z * Z) :=
  match fuel with
  | O => Raise RuntimeError
  | S fuel =>
      raise! MalformedPacketError when pos >=? length;
      let encoded_bytes := encoded_bytes + 1 in
      raise! MalformedPacketError when encoded_bytes >? 4;
      let! byte := idx buffer pos in
      let pos := pos + 1 in
      let value := value + Z.land byte 0x7F * multiplier in
      if Z.land byte 0x80 =? 0 then Ok (value, pos, encoded_bytes)
      else decode_vbi_loop fuel buffer length (multiplier * 128) value pos encoded_bytes
  end.

Definition decode_vbi (buffer : bytes) (offset : Z) (end_ : option Z) : res (Z * Z) :=
  let length := match end_ with None => len buffer | Some e => e end in
  raise! MalformedPacketError when offset >=? length;
  let! first := idx buffer offset in
  if first <? 128 then Ok (first, offset + 1)
  else
    let! '(value, pos, encoded_bytes) :=
      decode_vbi_loop 5 buffer length 128 (Z.land first 0x7F) (offset + 1) 1 in
    let! n := vbi_len value in
    raise! MalformedPacketError when negb (encoded_bytes =? n);
    Ok (value, pos).

(** ** Digits *)

Lemma lor_0x80 d : 0 ≤ d < 128 → Z.lor d 0x80 = d + 128.
Proof. intros. by apply (lor_lo_hi d 1 7). Qed.

Lemma land_0x7F b : Z.land b 0x7F = b mod 128.
Proof. change 0x7F with (Z.ones 7). by rewrite Z.land_ones by lia. Qed.

Lemma land_0x80 b : byte_ok b → (Z.land b 0x80 =? 0) = (b <? 128).
Proof.
  intros Hb. apply eqb_prop.
  by apply (byte_forall (λ b, Bool.eqb (Z.land b 0x80 =? 0) (b <? 128))).
Qed.

(** The value of a digit string, least significant digit first. *)
Fixpoint vbi_value (ds : bytes) : Z :=
  match ds with [] => 0 | d :: ds => d mod 128 + 128 * vbi_value ds end.

(** The shape of an encoding: every byte but the last has the continuation bit,
    and the last digit is non-zero unless it is the only one. *)
Inductive vbi_shape : bytes → Prop :=
  | vbi_shape_last d : 0 ≤ d < 128 → vbi_shape [d]
  | vbi_shape_last2 c d : 128 ≤ c < 256 → 0 < d < 128 → vbi_shape [c; d]
  | vbi_shape_cons c c' ds : 128 ≤ c < 256 → 128 ≤ c' → vbi_shape (c' :: ds) →
      vbi_shape (c :: c' :: ds).

Lemma vbi_digits_step n v :
  0 ≤ v → vbi_digits (S n) v =
    if v <? 128 then [v] else (v mod 128 + 128) :: vbi_digits n (v / 128).
Proof.
  intros. simpl. rewrite Z.gtb_ltb. destruct (v <? 128) eqn:E; bools.
  - rewrite Z.div_small, Z.mod_small by lia. done.
  - assert (0 < v / 128) by (apply Z.div_str_pos; lia).
    rewrite (proj2 (Z.ltb_lt _ _)), (proj2 (Z.eqb_neq _ _)) by lia.
    rewrite lor_0x80; [done |]. apply Z.mod_pos_bound; lia.
Qed.

#[global] Arguments vbi_digits : simpl never.

(** The digit loop needs no more fuel than it is given. *)
Lemma vbi_digits_spec n v :
  0 ≤ v < 128 ^ Z.of_nat (S n) →
  vbi_shape (vbi_digits (S n) v) ∧ vbi_value (vbi_digits (S n) v) = v ∧
  len (vbi_digits (S n) v) ≤ Z.of_nat (S n) ∧
  (128 ≤ v → ∃ c ds, vbi_digits (S n) v = c :: ds ∧ 128 ≤ c).
Proof.
  revert v. induction n as [|n IH]; intros v Hv; rewrite vbi_digits_step by lia.
  - rewrite (proj2 (Z.ltb_lt v 128)) by (simpl in *; lia).
    simpl. rewrite Z.mod_small by (simpl in *; lia).
    split_and!; [apply vbi_shape_last; simpl in *; lia | lia | done | simpl in *; lia].
  - destruct (v <? 128) eqn:E; bools.
    + simpl. rewrite Z.mod_small by lia. split_and!; [apply vbi_shape_last; lia | lia | len_lia | lia].
    + pose proof (Z.mod_pos_bound v 128). pose proof (Z.div_mod v 128).
      assert (0 < v / 128) by (apply Z.div_str_pos; lia).
      destruct (IH (v / 128)) as (Hs & Hval & Hl & Hc).
      { split; [lia |]. apply Z.div_lt_upper_bound; [lia |].
        rewrite Nat2Z.inj_succ, Z.pow_succ_r in Hv by lia. lia. }
      rewrite vbi_digits_step in * by lia.
      split_and!.
      * destruct (v / 128 <? 128) eqn:E'; bools; [apply vbi_shape_last2; lia |].
        apply vbi_shape_cons; [lia | | done]. pose proof (Z.mod_pos_bound (v / 128) 128); lia.
      * simpl in Hval |- *. rewrite Hval.
        rewrite <- Z.add_mod_idemp_r by lia. change (128 mod 128) with 0.
        rewrite Z.add_0_r, Z.mod_mod by lia. lia.
      * rewrite len_cons. lia.
      * intros _. eexists _, _. split; [done | lia].
Qed.

Lemma vbi_digits_4 v :
  0 ≤ v ≤ MAX_VBI →
  vbi_shape (vbi_digits 4 v) ∧ vbi_value (vbi_digits 4 v) = v ∧ len (vbi_digits 4 v) ≤ 4.
Proof. intros. destruct (vbi_digits_spec 3 v) as (?&?&?&?); [unfold MAX_VBI in *; simpl; lia | auto]. Qed.

(** The table lookup and the digit loop agree, so both encoders produce the
    digits of the value. *)
Lemma encode_vbi_digits v :
  encode_vbi v = if (0 <=? v) && (v <=? MAX_VBI) then Ok (vbi_digits 4 v) else Raise ValueError.
Proof.
  unfold encode_vbi, MAX_VBI. destruct (v <? 128) eqn:E; bools.
  - destruct (v <? 0) eqn:E0; bools.
    + rewrite (proj2 (Z.leb_gt 0 v)) by lia. done.
    + rewrite (proj2 (Z.leb_le 0 v)), (proj2 (Z.leb_le v _)) by lia. simpl.
      unfold VBI_ONE. rewrite list_lookup_fmap, lookup_seq_lt by lia. simpl fmap.
      rewrite vbi_digits_step by lia. rewrite (proj2 (Z.ltb_lt v 128)) by lia.
      rewrite Z2Nat.id by lia. done.
  - rewrite Z.gtb_ltb. rewrite (proj2 (Z.leb_le 0 v)) by lia. simpl.
    destruct (_ <? v) eqn:E1; bools; [rewrite (proj2 (Z.leb_gt v _)) | rewrite (proj2 (Z.leb_le v _))];
      done || lia.
Qed.

Lemma append_vbi_encode buf v b :
  append_vbi buf v = Ok b → ∃ d, encode_vbi v = Ok d ∧ b = buf ++ d.
Proof.
  unfold append_vbi. rewrite encode_vbi_digits. destruct (_ && _); simpl; [| done].
  intros [= <-]. eauto.
Qed.

Lemma vbi_value_bounds ds : vbi_shape ds →
  0 ≤ vbi_value ds ∧
  (len ds = 1 → vbi_value ds < 128) ∧
  (2 ≤ len ds → 128 ^ (len ds - 1) ≤ vbi_value ds < 128 ^ len ds).
Proof.
  induction 1 as [d Hd | c d Hc Hd | c c' ds Hc Hc' Hs IH].
  - simpl. rewrite Z.mod_small by lia. change (len [d]) with 1. lia.
  - simpl. rewrite (Z.mod_small d) by lia. pose proof (Z.mod_pos_bound c 128).
    change (len [c; d]) with 2. change (128 ^ (2 - 1)) with 128. change (128 ^ 2) with 16384.
    split_and!; lia.
  - assert (vbi_value (c :: c' :: ds) = c mod 128 + 128 * vbi_value (c' :: ds)) as -> by done.
    destruct IH as (IH0 & IH1 & IH2). pose proof (Z.mod_pos_bound c 128).
    rewrite (len_cons c). pose proof (len_nonneg ds).
    split_and!; [lia | rewrite len_cons; lia |]. intros _.
    destruct (decide (len ds = 0)) as [->%len_0_nil|].
    { inversion Hs; subst; lia. }
    destruct IH2 as [IHa IHb]; [rewrite len_cons; lia |].
    replace (1 + len (c' :: ds) - 1) with (Z.succ (len (c' :: ds) - 1)) by lia.
    replace (1 + len (c' :: ds)) with (Z.succ (len (c' :: ds))) by lia.
    rewrite !Z.pow_succ_r by (rewrite len_cons; lia). lia.
Qed.

Lemma vbi_len_shape ds : vbi_shape ds → len ds ≤ 4 → vbi_len (vbi_value ds) = Ok (len ds).
Proof.
  intros Hs Hl. destruct (vbi_value_bounds ds Hs) as (H0 & H1 & H2).
  unfold vbi_len, MAX_VBI.
  assert (len ds = 1 ∨ len ds = 2 ∨ len ds = 3 ∨ len ds = 4) as Hc.
  { inversion Hs; subst; len_lia. }
  assert (vbi_value ds ≤ 268435455).
  { destruct Hc as [E|[E|[E|E]]]; rewrite E in *; simpl in *; lia. }
  rewrite (proj2 (Z.leb_le 0 _)), (proj2 (Z.leb_le _ _)) by lia. simpl.
  destruct Hc as [E|[E|[E|E]]]; rewrite E in *; simpl in *;
    repeat case_if; bools; try done; lia.
Qed.

(** ** Decoding *)

(** A digit string in the sense of the decoder's loop: continuation bytes, then
    one byte without the continuation bit. *)
Inductive vbi_cont : bytes → Prop :=
  | vbi_cont_last d : 0 ≤ d < 128 → vbi_cont [d]
  | vbi_cont_cons c ds : 128 ≤ c < 256 → vbi_cont ds → vbi_cont (c :: ds).

Lemma vbi_shape_cont ds : vbi_shape ds → vbi_cont ds.
Proof. induction 1; eauto using vbi_cont; constructor; auto; constructor; lia. Qed.

Lemma vbi_cont_bytes ds : vbi_cont ds → bytes_ok ds.
Proof. unfold byte_ok. induction 1; constructor; try done; lia. Qed.

Lemma vbi_value_cons c ds : vbi_value (c :: ds) = c mod 128 + 128 * vbi_value ds.
Proof. done. Qed.

Lemma vbi_value_nonneg ds : 0 ≤ vbi_value ds.
Proof. induction ds as [|c ds IH]; [done |]. rewrite vbi_value_cons. pose proof (Z.mod_pos_bound c 128). lia. Qed.

(** Encoding the value of a canonical digit string gives the string back. *)
Lemma vbi_digits_shape n ds :
  vbi_shape ds → len ds ≤ Z.of_nat n → vbi_digits n (vbi_value ds) = ds.
Proof.
  intros Hs. revert n. induction Hs as [d Hd | c d Hc Hd | c c' ds Hc Hc' Hs IH]; intros [|n] Hn;
    try len_lia; rewrite vbi_digits_step by apply vbi_value_nonneg; rewrite !vbi_value_cons.
  - simpl. rewrite Z.mod_small by lia.
    rewrite (proj2 (Z.ltb_lt _ _)) by lia. f_equal; lia.
  - simpl. rewrite (Z.mod_small d) by lia.
    assert (c mod 128 = c - 128) as E by (symmetry; apply Z.mod_unique with 1; lia). rewrite E.
    rewrite (proj2 (Z.ltb_ge _ _)) by lia.
    replace (c - 128 + 128 * (d + 128 * 0)) with (d * 128 + (c - 128)) by lia.
    rewrite Z.div_add_l, Z.div_small by lia.
    replace ((d * 128 + (c - 128)) mod 128) with (c - 128) by (apply Z.mod_unique with d; lia).
    destruct n; [len_lia |]. rewrite vbi_digits_step by lia.
    rewrite (proj2 (Z.ltb_lt _ _)) by lia. repeat f_equal; lia.
  - rewrite <- vbi_value_cons.
    assert (c mod 128 = c - 128) as E by (symmetry; apply Z.mod_unique with 1; lia).
    rewrite E. destruct (vbi_value_bounds _ Hs) as (_ & _ & Hb).
    assert (1 ≤ vbi_value (c' :: ds)).
    { destruct ds; [inversion Hs; lia |]. destruct Hb as [Hb _]; [len_lia |].
      assert (0 < 128 ^ (len (c' :: z :: ds) - 1)) by (apply Z.pow_pos_nonneg; len_lia). lia. }
    rewrite (proj2 (Z.ltb_ge _ _)) by lia.
    replace (c - 128 + 128 * vbi_value (c' :: ds)) with (vbi_value (c' :: ds) * 128 + (c - 128)) by lia.
    replace ((vbi_value (c' :: ds) * 128 + (c - 128)) mod 128) with (c - 128)
      by (apply Z.mod_unique with (vbi_value (c' :: ds)); lia).
    rewrite Z.div_add_l, (Z.div_small (c - 128)), Z.add_0_r, IH by (len_lia || lia).
    f_equal; lia.
Qed.

(** The length test of the decoder singles out the canonical strings. *)
Lemma vbi_cont_canonical ds :
  vbi_cont ds → len ds ≤ 4 → vbi_len (vbi_value ds) = Ok (len ds) → vbi_shape ds.
Proof.
  intros Hc Hl Hlen. unfold vbi_len in Hlen. res_inv.
  assert (Hcase : vbi_shape ds ∨ (2 ≤ len ds ∧ vbi_value ds < 128 ^ (len ds - 1))).
  { clear - Hc. induction Hc as [d Hd | c ds Hc Hds IH]; [left; by constructor |].
    destruct IH as [IH | [IH1 IH2]].
    - inversion IH; subst.
      + destruct (decide (d = 0)) as [->|]; [right | left; apply vbi_shape_last2; lia].
        change (len [c; 0]) with 2. change (128 ^ (2 - 1)) with 128.
        change (vbi_value [c; 0]) with (c mod 128 + 0). pose proof (Z.mod_pos_bound c 128). lia.
      + left. apply vbi_shape_cons; [lia | lia | done].
      + left. apply vbi_shape_cons; [lia | lia | done].
    - right. rewrite vbi_value_cons, len_cons. pose proof (Z.mod_pos_bound c 128).
      replace (1 + len ds - 1) with (Z.succ (len ds - 1)) by lia.
      rewrite Z.pow_succ_r by lia. lia. }
  destruct Hcase as [?|[H2 Hv]]; [done | exfalso].
  assert (len ds = 2 ∨ len ds = 3 ∨ len ds = 4) as [E'|[E'|E']] by lia; rewrite E' in *;
    [change (128 ^ (2 - 1)) with 128 in Hv | change (128 ^ (3 - 1)) with 16384 in Hv
    | change (128 ^ (4 - 1)) with 2097152 in Hv];
    case_ifs_in Hlen; simplify_eq; lia.
Qed.

Lemma decode_vbi_loop_ok ds : vbi_cont ds → ∀ fuel pre post length mult value n,
  len ds ≤ Z.of_nat fuel → n + len ds ≤ 4 → len pre + len ds ≤ length →
  decode_vbi_loop fuel (pre ++ ds ++ post) length mult value (len pre) n =
    Ok (value + mult * vbi_value ds, len pre + len ds, n + len ds).
Proof.
  induction 1 as [d Hd | c ds Hc Hds IH]; intros [|fuel] pre post length mult value n Hf Hn Hl;
    try (exfalso; len_lia); simpl; rewrite !Z.geb_leb, !Z.gtb_ltb;
    rewrite (proj2 (Z.leb_gt _ _)), (proj2 (Z.ltb_ge _ _)) by len_lia; rewrite idx_mid; simpl;
    rewrite land_0x7F, land_0x80 by (unfold byte_ok; lia).
  - rewrite (proj2 (Z.ltb_lt _ _)) by lia. change (len [d]) with 1. simpl. tup; ring.
  - rewrite (proj2 (Z.ltb_ge _ _)) by lia.
    specialize (IH fuel (pre ++ [c]) post length (mult * 128) (value + c mod 128 * mult) (n + 1)).
    rewrite <- app_assoc in IH. simpl in IH. rewrite len_app in IH. change (len [c]) with 1 in IH.
    rewrite IH by len_lia. rewrite len_cons. tup; ring.
Qed.

(** What a successful run of the loop has consumed. *)
Lemma decode_vbi_loop_inv fuel : ∀ buffer length mult value pos n v p m,
  bytes_ok buffer → 0 ≤ pos → length ≤ len buffer →
  decode_vbi_loop fuel buffer length mult value pos n = Ok (v, p, m) →
  ∃ ds pre post, buffer = pre ++ ds ++ post ∧ len pre = pos ∧ vbi_cont ds ∧
    p = pos + len ds ∧ p ≤ length ∧ m = n + len ds ∧ m ≤ 4 ∧ v = value + mult * vbi_value ds.
Proof.
  induction fuel as [|fuel IH]; [done |]. intros buffer length mult value pos n v p m Hb Hp Hl H.
  simpl in H. rewrite Z.geb_leb, Z.gtb_ltb in H. res_inv. bools.
  pose proof Hv as Hs. apply idx_split in Hs as (pre & q & -> & Hpre); [| done].
  assert (byte_ok v0) as Hb0 by (rewrite Forall_app, Forall_cons in Hb; tauto).
  rewrite land_0x7F, land_0x80 in H by done. destruct Hb0. destruct (v0 <? 128) eqn:E1; bools.
  - res_inv. exists [v0], pre, q. simpl. change (len [v0]) with 1. split_and!; try done; try lia.
    by constructor.
  - apply IH in H as (ds & pre' & post & Heq & Hpre' & Hds & -> & Hple & -> & Hm & ->); [| done | lia | done].
    exists (v0 :: ds), pre, post. rewrite len_cons. split_and!; try done; try lia.
    + assert (pre' = pre ++ [v0]) as ->.
      { apply (f_equal (take (Datatypes.length pre'))) in Heq. rewrite take_app_length in Heq.
        rewrite <- Heq. replace (Datatypes.length pre') with (Datatypes.length pre + 1)%nat by (unfold len in *; lia).
        by rewrite take_app_add. }
      rewrite <- app_assoc in Heq. done.
    + by constructor.
    + rewrite vbi_value_cons. lia.
Qed.

#[global] Arguments decode_vbi_loop : simpl never.

Definition vbi_end (buffer : bytes) (end_ : option Z) : Z :=
  match end_ with None => len buffer | Some e => e end.

(** Decoding an encoding found at [len pre], whatever precedes and follows it. *)
Lemma decode_encode_vbi v d pre post end_ :
  encode_vbi v = Ok d → len pre + len d ≤ vbi_end (pre ++ d ++ post) end_ →
  decode_vbi (pre ++ d ++ post) (len pre) end_ = Ok (v, len pre + len d).
Proof.
  rewrite encode_vbi_digits. destruct (_ && _) eqn:E; [bools; intros [= <-] | done].
  destruct (vbi_digits_4 v) as (Hs & Hval & Hl4); [lia |]. unfold decode_vbi. fold (vbi_end (pre ++ vbi_digits 4 v ++ post) end_).
  intros Hl. rewrite Z.geb_leb.
  assert (Hpos : 0 < len (vbi_digits 4 v)) by (inversion Hs; len_lia).
  rewrite (proj2 (Z.leb_gt _ _)) by lia.
  transitivity (Ok (vbi_value (vbi_digits 4 v), len pre + len (vbi_digits 4 v)));
    [| by rewrite Hval]. clear Hval. pose proof (vbi_len_shape _ Hs Hl4) as Hvl.
  apply vbi_shape_cont in Hs. revert Hs Hvl Hl Hpos Hl4. generalize (vbi_digits 4 v).
  intros ds Hds Hvl Hl Hpos Hl4. inversion Hds as [d Hd Heq | c ds' Hc Hds' Heq]; subst ds.
  - change ([d] ++ post) with (d :: post). rewrite idx_mid. simpl. rewrite (proj2 (Z.ltb_lt d 128)) by lia.
    rewrite Z.mod_small by lia. change (len [d]) with 1. tup; lia.
  - rewrite <- app_comm_cons in *. rewrite idx_mid. cbn [rbind].
    rewrite (proj2 (Z.ltb_ge c 128)) by lia.
    pose proof (decode_vbi_loop_ok ds' Hds' 5 (pre ++ [c]) post
                  (vbi_end (pre ++ c :: ds' ++ post) end_) 128 (Z.land c 127) 1) as Hloop.
    rewrite <- app_assoc, len_app in Hloop. change (len [c]) with 1 in Hloop.
    change ([c] ++ ds' ++ post) with (c :: ds' ++ post) in Hloop.
    rewrite Hloop by len_lia. cbn [rbind]. rewrite land_0x7F, <- vbi_value_cons, Hvl. simpl.
    rewrite len_cons, Z.eqb_refl. simpl. tup; lia.
Qed.

(** Everything the decoder accepts is the encoding of what it returns. *)
Lemma decode_vbi_sound buffer offset end_ v p :
  bytes_ok buffer → 0 ≤ offset → vbi_end buffer end_ ≤ len buffer →
  decode_vbi buffer offset end_ = Ok (v, p) →
  ∃ pre d post, buffer = pre ++ d ++ post ∧ len pre = offset ∧ encode_vbi v = Ok d ∧
    p = offset + len d ∧ offset < p ≤ vbi_end buffer end_ ∧ 0 ≤ v ≤ MAX_VBI.
Proof.
  intros Hb Ho Hl H. unfold decode_vbi in H. fold (vbi_end buffer end_) in H. rewrite Z.geb_leb in H.
  res_inv. bools. pose proof Hv as Hs. apply idx_split in Hs as (pre & q & -> & Hpre); [| done].
  assert (byte_ok v0) as [??] by (rewrite Forall_app, Forall_cons in Hb; tauto).
  assert (Henc : ∀ ds, vbi_shape ds → len ds ≤ 4 → encode_vbi (vbi_value ds) = Ok ds ∧ 0 ≤ vbi_value ds ≤ MAX_VBI).
  { intros ds Hds Hl4. pose proof (vbi_len_shape ds Hds Hl4) as Hvl. unfold vbi_len in Hvl. res_inv. bools.
    rewrite encode_vbi_digits, (proj2 (Z.leb_le 0 _)), (proj2 (Z.leb_le _ _)) by lia. simpl.
    rewrite vbi_digits_shape by done. split; [done | lia]. }
  destruct (v0 <? 128) eqn:E0; bools.
  - res_inv. destruct (Henc [v]) as [He Hr]; [by constructor | done |].
    simpl in He, Hr. rewrite Z.mod_small, Z.add_0_r in He by lia.
    exists pre, [v], q. change (len [v]) with 1. split_and!; try done; try lia.
    rewrite Z.mod_small in Hr by lia. lia.
  - apply rbind_Ok_inv in H as ([[v' p'] m] & Hloop & H).
    apply decode_vbi_loop_inv in Hloop; [| done | lia | done]. res_inv.
    destruct Hloop as (ds & pre' & post & Heq & Hpre' & Hds & -> & Hple & -> & Hm & ->).
    rewrite land_0x7F, <- vbi_value_cons in *. bools.
    assert (Hsh : vbi_shape (v0 :: ds)).
    { apply vbi_cont_canonical; [by constructor | len_lia |]. rewrite Hv0, len_cons. f_equal; lia. }
    destruct (Henc _ Hsh) as [He Hr]; [len_lia |].
    exists pre, (v0 :: ds), post. rewrite len_cons. pose proof (len_nonneg ds).
    split_and!; try done; try lia.
    assert (pre' = pre ++ [v0]) as ->; [| by rewrite <- app_assoc in Heq].
    apply (f_equal (take (length pre'))) in Heq. rewrite take_app_length in Heq. rewrite <- Heq.
    replace (length pre') with (length pre + 1)%nat by (unfold len in *; lia).
    by rewrite take_app_add.
Qed.

Lemma vbi_value_lt ds : vbi_value ds < 128 ^ len ds.
Proof.
  induction ds as [|c ds IH]; [done |]. rewrite vbi_value_cons, len_cons.
  pose proof (Z.mod_pos_bound c 128). rewrite Z.add_1_l, Z.pow_succ_r by apply len_nonneg. lia.
Qed.

(** Arbitrary input makes the decoder raise [MalformedPacketError] only: the
    [IndexError] and [ValueError] paths of its callees are unreachable, and the
    fuel of the loop is never exhausted. *)
Lemma decode_vbi_loop_raises fuel : ∀ buffer length mult value pos n,
  0 ≤ pos → n ≤ 4 → length ≤ len buffer → 5 ≤ n + Z.of_nat fuel →
  raises_only (λ e, e = MalformedPacketError) (decode_vbi_loop fuel buffer length mult value pos n).
Proof.
  induction fuel as [|fuel IH]; intros buffer length mult value pos n Hp Hn Hl Hf; [lia |].
  unfold decode_vbi_loop; fold decode_vbi_loop. rewrite Z.geb_leb, Z.gtb_ltb.
  case_if; [auto with pyraise | case_if; [auto with pyraise |]]. bools.
  destruct (idx_Ok buffer pos) as (x & -> & _); [lia |]. cbn [rbind].
  case_if; [auto with pyraise |]. apply IH; lia.
Qed.

Lemma decode_vbi_raises buffer offset end_ :
  bytes_ok buffer → 0 ≤ offset → vbi_end buffer end_ ≤ len buffer →
  raises_only (λ e, e = MalformedPacketError) (decode_vbi buffer offset end_).
Proof.
  intros Hb Ho Hl. unfold decode_vbi. fold (vbi_end buffer end_). rewrite Z.geb_leb.
  case_if; [auto with pyraise |]. bools.
  destruct (idx_Ok buffer offset) as (x & -> & Hx); [lia |]. cbn [rbind].
  case_if; [auto with pyraise |]. bools.
  apply raises_only_bind; [apply decode_vbi_loop_raises; lia |].
  intros [[v p] m] Hloop. apply decode_vbi_loop_inv in Hloop; [| done | lia | done].
  destruct Hloop as (ds & pre' & post & _ & _ & Hds & -> & _ & -> & Hm & ->).
  rewrite land_0x7F, <- vbi_value_cons.
  pose proof (vbi_value_lt (x :: ds)) as Hlt. rewrite len_cons in Hlt.
  assert (128 ^ (1 + len ds) ≤ 128 ^ 4) by (apply Z.pow_le_mono_r; lia).
  change (128 ^ 4) with 268435456 in *. pose proof (vbi_value_nonneg (x :: ds)).
  unfold vbi_len, MAX_VBI. rewrite (proj2 (Z.leb_le 0 _)), (proj2 (Z.leb_le _ _)) by lia. simpl.
  repeat case_if; cbn [rbind]; case_if; auto with pyraise.
Qed.

(** The decoder is exactly the inverse of the encoder.  On any byte buffer,
    [decode_vbi] returns [(v, p)] if and only if the bytes from the offset up to
    [p] are the encoding of [v] and lie inside the announced extent: what
    [encode_vbi] wrote is read back whatever surrounds it, and no non-canonical
    or over-long form is accepted. *)
Theorem decode_vbi_iff buffer offset end_ v p :
  bytes_ok buffer → 0 ≤ offset → vbi_end buffer end_ ≤ len buffer →
  decode_vbi buffer offset end_ = Ok (v, p) ↔
    offset ≤ p ≤ vbi_end buffer end_ ∧ encode_vbi v = Ok (slice buffer offset p).
Proof.
  intros Hb Ho Hl. split.
  - intros (pre & d & post & -> & <- & He & -> & Hp & _)%decode_vbi_sound; try done.
    rewrite slice_mid. split; [lia | done].
  - intros [Hp He]. destruct (slice_split buffer offset p) as (pre & post & Heq & Hpre & Hpost); [lia.. |].
    assert (Hlen : len (slice buffer offset p) = p - offset) by (apply len_slice; lia).
    revert He Hlen Heq. generalize (slice buffer offset p). intros d He Hlen Heq.
    rewrite Heq, <- Hpre. rewrite (decode_encode_vbi v); [| done | rewrite <- Heq; lia]. tup; lia.
Qed.

Lemma decode_vbi_iff_witness :
  decode_vbi [0x30; 0xC1; 0x02; 7] 1 None = Ok (321, 3) ↔
    1 ≤ 3 ≤ vbi_end [0x30; 0xC1; 0x02; 7] None ∧
    encode_vbi 321 = Ok (slice [0x30; 0xC1; 0x02; 7] 1 3).
Proof.
  apply decode_vbi_iff; [repeat constructor; done | done | done].
Defined.
