(* ===== verification/PyStr.v ===== *)
(** * Python text: code points, strict UTF-8 and the [str] methods the code uses

    A Python [str] is a sequence of code points (surrogates included), modelled
    as a list of [Z].  [utf8_encode] and [utf8_decode] are CPython's strict
    codec, [None] standing for [UnicodeEncodeError] / [UnicodeDecodeError]. *)

From S2P Require Import Prelude.
From Stdlib Require Import Ascii.

(** A string literal of the source (ASCII in every case). *)
Definition lit (s : string) : pystr :=
  (λ c, Z.of_N (Ascii.N_of_ascii c)) <$> String.list_ascii_of_string s.

Definition isascii (s : pystr) : bool := forallb (λ c, (0 <=? c) && (c <? 128)) s.

(** ["/" in s] and the like for a one-character needle. *)
Abbreviation chr_in := zin.

Definition startswith (s prefix : pystr) : bool :=
  bool_decide (take (length prefix) s = prefix).

(** [s.split(sep)] for a one-character separator; never empty. *)
Fixpoint split_chr (sep : Z) (s : pystr) : list pystr :=
  match s with
  | [] => [[]]
  | c :: s =>
      if c =? sep then [] :: split_chr sep s
      else match split_chr sep s with
           | [] => [[c]]
           | w :: ws => (c :: w) :: ws
           end
  end.

(** [s.split(sep, n)]: at most [n] splits, the rest kept in the last piece. *)
Fixpoint split_max (sep : Z) (n : nat) (s : pystr) : list pystr :=
  match n with
  | O => [s]
  | S n =>
      (fix go s :=
         match s with
         | [] => [[]]
         | c :: s' =>
             if c =? sep then [] :: split_max sep n s'
             else match go s' with
                  | [] => [[c]]
                  | w :: ws => (c :: w) :: ws
                  end
         end) s
  end.

(** ["/".join(levels)]. *)
Fixpoint join_chr (sep : Z) (ws : list pystr) : pystr :=
  match ws with
  | [] => []
  | [w] => w
  | w :: ws => w ++ sep :: join_chr sep ws
  end.

(** ** Strict UTF-8 *)

Definition is_surrogate (c : Z) : bool := (0xD800 <=? c) && (c <=? 0xDFFF).

Definition utf8_encode_chr (c : Z) : option bytes :=
  if c <? 0 then None
  else if c <? 0x80 then Some [c]
  else if c <? 0x800 then Some [0xC0 + c / 64; 0x80 + c mod 64]
  else if is_surrogate c then None
  else if c <? 0x10000 then Some [0xE0 + c / 4096; 0x80 + c / 64 mod 64; 0x80 + c mod 64]
  else if c <=? 0x10FFFF then
    Some [0xF0 + c / 262144; 0x80 + c / 4096 mod 64; 0x80 + c / 64 mod 64; 0x80 + c mod 64]
  else None.

Fixpoint utf8_encode (s : pystr) : option bytes :=
  match s with
  | [] => Some []
  | c :: s =>
      match utf8_encode_chr c, utf8_encode s with
      | Some b, Some bs => Some (b ++ bs)
      | _, _ => None
      end
  end.

Definition is_cont (b : Z) : bool := (0x80 <=? b) && (b <=? 0xBF).

Fixpoint utf8_decode (b : bytes) : option pystr :=
  match b with
  | [] => Some []
  | b0 :: r0 =>
      if (0 <=? b0) && (b0 <? 0x80) then cons b0 <$> utf8_decode r0
      else if (0xC2 <=? b0) && (b0 <=? 0xDF) then
        match r0 with
        | b1 :: r1 =>
            if is_cont b1 then cons ((b0 - 0xC0) * 64 + (b1 - 0x80)) <$> utf8_decode r1 else None
        | _ => None
        end
      else if (0xE0 <=? b0) && (b0 <=? 0xEF) then
        match r0 with
        | b1 :: b2 :: r2 =>
            let c := (b0 - 0xE0) * 4096 + (b1 - 0x80) * 64 + (b2 - 0x80) in
            if is_cont b1 && is_cont b2 && (0x800 <=? c) && negb (is_surrogate c)
            then cons c <$> utf8_decode r2 else None
        | _ => None
        end
      else if (0xF0 <=? b0) && (b0 <=? 0xF4) then
        match r0 with
        | b1 :: b2 :: b3 :: r3 =>
            let c := (b0 - 0xF0) * 262144 + (b1 - 0x80) * 4096 + (b2 - 0x80) * 64 + (b3 - 0x80) in
            if is_cont b1 && is_cont b2 && is_cont b3 && (0x10000 <=? c) && (c <=? 0x10FFFF)
            then cons c <$> utf8_decode r3 else None
        | _ => None
        end
      else None
  end.

(** ** Facts *)

(** Decide every comparison of the goal by arithmetic. *)
Ltac zcase :=
  repeat match goal with
  | |- context [?a <? ?b] =>
      first [ rewrite (proj2 (Z.ltb_lt a b)) by lia | rewrite (proj2 (Z.ltb_ge a b)) by lia ]
  | |- context [?a <=? ?b] =>
      first [ rewrite (proj2 (Z.leb_le a b)) by lia | rewrite (proj2 (Z.leb_gt a b)) by lia ]
  | |- context [?a =? ?b] =>
      first [ rewrite (proj2 (Z.eqb_eq a b)) by lia | rewrite (proj2 (Z.eqb_neq a b)) by lia ]
  end.

Lemma utf8_decode_chr c b rest :
  utf8_encode_chr c = Some b → utf8_decode (b ++ rest) = cons c <$> utf8_decode rest.
Proof.
  unfold utf8_encode_chr, is_surrogate. intros H. case_ifs_in H; simplify_eq.
  - simpl. zcase. done.
  - simpl. pose proof (Z.div_mod c 64). pose proof (Z.mod_pos_bound c 64).
    unfold is_cont. zcase. simpl. f_equal. f_equal. lia.
  - pose proof (Z.div_mod c 64). pose proof (Z.mod_pos_bound c 64).
    pose proof (Z.div_mod (c / 64) 64). pose proof (Z.mod_pos_bound (c / 64) 64).
    rewrite Z.div_div in * by lia. change (64 * 64) with 4096 in *.
    simpl. unfold is_cont, is_surrogate.
    replace ((224 + c / 4096 - 224) * 4096 + (128 + c / 64 mod 64 - 128) * 64 + (128 + c mod 64 - 128))
      with c by lia.
    zcase. simpl. destruct ((55296 <=? c) && (c <=? 57343)); done.
  - pose proof (Z.div_mod c 64). pose proof (Z.mod_pos_bound c 64).
    pose proof (Z.div_mod (c / 64) 64). pose proof (Z.mod_pos_bound (c / 64) 64).
    rewrite Z.div_div in * by lia. change (64 * 64) with 4096 in *.
    pose proof (Z.div_mod (c / 4096) 64). pose proof (Z.mod_pos_bound (c / 4096) 64).
    rewrite Z.div_div in * by lia. change (4096 * 64) with 262144 in *.
    simpl. unfold is_cont.
    replace ((240 + c / 262144 - 240) * 262144 + (128 + c / 4096 mod 64 - 128) * 4096 +
      (128 + c / 64 mod 64 - 128) * 64 + (128 + c mod 64 - 128)) with c by lia.
    zcase. done.
Qed.

(** What the strict encoder produces, the strict decoder reads back. *)
Lemma utf8_decode_encode s b : utf8_encode s = Some b → utf8_decode b = Some s.
Proof.
  revert b. induction s as [|c s IH]; intros b H; simpl in H; [by simplify_eq |].
  destruct (utf8_encode_chr c) eqn:Hc; [| done]. destruct (utf8_encode s) eqn:Hs; [| done].
  simplify_eq. rewrite (utf8_decode_chr c), (IH _ eq_refl) by done. done.
Qed.

(** Conversely, strict decoding only accepts what the encoder produces. *)
Lemma utf8_encode_chr_2 b0 b1 :
  0xC2 ≤ b0 ≤ 0xDF → is_cont b1 = true →
  utf8_encode_chr ((b0 - 0xC0) * 64 + (b1 - 0x80)) = Some [b0; b1].
Proof.
  unfold is_cont. intros ? ?. bools. set (c := (b0 - 0xC0) * 64 + (b1 - 0x80)).
  assert (c / 64 = b0 - 0xC0) by (symmetry; apply Z.div_unique with (b1 - 0x80); lia).
  assert (c mod 64 = b1 - 0x80) by (symmetry; apply Z.mod_unique with (b0 - 0xC0); lia).
  unfold utf8_encode_chr. zcase. do 2 f_equal; [lia |]. f_equal. lia.
Qed.

Lemma utf8_encode_chr_3 b0 b1 b2 c :
  0xE0 ≤ b0 ≤ 0xEF → is_cont b1 = true → is_cont b2 = true →
  c = (b0 - 0xE0) * 4096 + (b1 - 0x80) * 64 + (b2 - 0x80) →
  0x800 ≤ c → is_surrogate c = false → utf8_encode_chr c = Some [b0; b1; b2].
Proof.
  unfold is_cont. intros ? ? ? Hc ? Hs. bools.
  assert (c mod 64 = b2 - 0x80)
    by (symmetry; apply Z.mod_unique with ((b0 - 0xE0) * 64 + (b1 - 0x80)); lia).
  assert (E : c / 64 = (b0 - 0xE0) * 64 + (b1 - 0x80))
    by (symmetry; apply Z.div_unique with (b2 - 0x80); lia).
  assert (c / 64 mod 64 = b1 - 0x80) by (symmetry; apply Z.mod_unique with (b0 - 0xE0); lia).
  assert (c / 4096 = b0 - 0xE0)
    by (symmetry; apply Z.div_unique with ((b1 - 0x80) * 64 + (b2 - 0x80)); lia).
  unfold utf8_encode_chr. rewrite Hs. zcase. f_equal. f_equal; [lia |]. f_equal; [lia |]. f_equal; lia.
Qed.

Lemma utf8_encode_chr_4 b0 b1 b2 b3 c :
  0xF0 ≤ b0 ≤ 0xF4 → is_cont b1 = true → is_cont b2 = true → is_cont b3 = true →
  c = (b0 - 0xF0) * 262144 + (b1 - 0x80) * 4096 + (b2 - 0x80) * 64 + (b3 - 0x80) →
  0x10000 ≤ c ≤ 0x10FFFF → utf8_encode_chr c = Some [b0; b1; b2; b3].
Proof.
  unfold is_cont. intros ? ? ? ? Hc ?. bools.
  assert (c mod 64 = b3 - 0x80)
    by (symmetry; apply Z.mod_unique with ((b0 - 0xF0) * 4096 + (b1 - 0x80) * 64 + (b2 - 0x80)); lia).
  assert (E : c / 64 = (b0 - 0xF0) * 4096 + (b1 - 0x80) * 64 + (b2 - 0x80))
    by (symmetry; apply Z.div_unique with (b3 - 0x80); lia).
  assert (c / 64 mod 64 = b2 - 0x80)
    by (symmetry; apply Z.mod_unique with ((b0 - 0xF0) * 64 + (b1 - 0x80)); lia).
  assert (E2 : c / 4096 = (b0 - 0xF0) * 64 + (b1 - 0x80))
    by (symmetry; apply Z.div_unique with ((b2 - 0x80) * 64 + (b3 - 0x80)); lia).
  assert (c / 4096 mod 64 = b1 - 0x80) by (symmetry; apply Z.mod_unique with (b0 - 0xF0); lia).
  assert (c / 262144 = b0 - 0xF0)
    by (symmetry; apply Z.div_unique with ((b1 - 0x80) * 4096 + (b2 - 0x80) * 64 + (b3 - 0x80)); lia).
  assert (is_surrogate c = false) as Hs by (unfold is_surrogate; zcase; done).
  unfold utf8_encode_chr. rewrite Hs. zcase.
  f_equal. f_equal; [lia |]. f_equal; [lia |]. f_equal; [lia |]. f_equal; lia.
Qed.

Lemma utf8_encode_cons c b s bs :
  utf8_encode_chr c = Some b → utf8_encode s = Some bs → utf8_encode (c :: s) = Some (b ++ bs).
Proof. intros Hc Hs. simpl. by rewrite Hc, Hs. Qed.

Lemma utf8_encode_decode b s : utf8_decode b = Some s → utf8_encode s = Some b.
Proof.
  remember (length b) as n eqn:Hn. revert b s Hn.
  induction (lt_wf n) as [n _ IH]. intros b s -> H.
  destruct b as [|b0 r0]; simpl in H; [by simplify_eq |].
  destruct ((0 <=? b0) && (b0 <? 128)) eqn:E0; bools.
  { apply fmap_Some in H as (s' & Hs' & ->). apply (utf8_encode_cons b0 [b0]).
    - unfold utf8_encode_chr. zcase. done.
    - eapply IH; [| done | done]. simpl; lia. }
  destruct ((194 <=? b0) && (b0 <=? 223)) eqn:E1; bools.
  { destruct r0 as [|b1 r1]; [done |]. destruct (is_cont b1) eqn:C1; [| done].
    apply fmap_Some in H as (s' & Hs' & ->). apply (utf8_encode_cons _ [b0; b1]).
    - apply utf8_encode_chr_2; [lia | done].
    - eapply IH; [| done | done]. simpl; lia. }
  destruct ((224 <=? b0) && (b0 <=? 239)) eqn:E2; bools.
  { destruct r0 as [|b1 [|b2 r2]]; [done.. |].
    destruct (_ && _ && _ && _) eqn:C; [| done]. bools.
    apply fmap_Some in H as (s' & Hs' & ->). apply (utf8_encode_cons _ [b0; b1; b2]).
    - apply utf8_encode_chr_3; done || lia.
    - eapply IH; [| done | done]. simpl; lia. }
  destruct ((240 <=? b0) && (b0 <=? 244)) eqn:E3; bools; [| done].
  destruct r0 as [|b1 [|b2 [|b3 r3]]]; [done.. |].
  destruct (_ && _ && _ && _ && _) eqn:C; [| done]. bools.
  apply fmap_Some in H as (s' & Hs' & ->). apply (utf8_encode_cons _ [b0; b1; b2; b3]).
  - apply utf8_encode_chr_4; done || lia.
  - eapply IH; [| done | done]. simpl; lia.
Qed.

Lemma utf8_encode_bytes s b : utf8_encode s = Some b → bytes_ok b.
Proof.
  revert b. induction s as [|c s IH]; intros b H; simpl in H; [by simplify_eq |].
  destruct (utf8_encode_chr c) eqn:Hc; [| done]. destruct (utf8_encode s); [| done]. simplify_eq.
  apply Forall_app. split; [| by apply IH]. unfold utf8_encode_chr in Hc. case_ifs_in Hc; simplify_eq;
    repeat (apply Forall_cons; split); try apply Forall_nil_2; unfold byte_ok;
    pose proof (Z.mod_pos_bound c 64); pose proof (Z.mod_pos_bound (c / 64) 64);
    pose proof (Z.mod_pos_bound (c / 4096) 64); Z.to_euclidean_division_equations; lia.
Qed.

(** An ASCII string is its own encoding. *)
Lemma utf8_encode_ascii s : isascii s = true → utf8_encode s = Some s.
Proof.
  induction s as [|c s IH]; [done |]. simpl. intros H. bools.
  rewrite IH by done. unfold utf8_encode_chr. zcase. done.
Qed.

(** ** Splitting on a separator *)

Lemma split_chr_cons sep s : ∃ w ws, split_chr sep s = w :: ws.
Proof.
  induction s as [|c s (w & ws & IH)]; simpl; [eauto |].
  destruct (c =? sep); [eauto |]. rewrite IH. eauto.
Qed.

Lemma join_split_chr sep s : join_chr sep (split_chr sep s) = s.
Proof.
  induction s as [|c s IH]; [done |]. simpl. destruct (c =? sep) eqn:E; bools.
  - destruct (split_chr_cons sep s) as (w & ws & Hw). rewrite Hw in *. subst c. simpl in *. by rewrite IH.
  - destruct (split_chr_cons sep s) as (w & ws & Hw). rewrite Hw in *. destruct ws; simpl in *; by rewrite IH.
Qed.

Lemma split_chr_no_sep sep s : Forall (λ w, chr_in sep w = false) (split_chr sep s).
Proof.
  induction s as [|c s IH]; [by repeat constructor |]. simpl. destruct (c =? sep) eqn:E.
  - by constructor.
  - destruct (split_chr_cons sep s) as (w & ws & Hw). rewrite Hw in *.
    inversion IH; subst. constructor; [| done]. unfold chr_in, zin in *. simpl.
    rewrite Z.eqb_sym, E. done.
Qed.

Lemma split_chr_app sep w s :
  chr_in sep w = false → split_chr sep (w ++ sep :: s) = w :: split_chr sep s.
Proof.
  induction w as [|c w IH]; simpl; intros H.
  - by rewrite Z.eqb_refl.
  - unfold zin in *. simpl in H. apply orb_false_iff in H as [H1 H2].
    rewrite Z.eqb_sym, H1, IH by done. done.
Qed.

Lemma split_chr_single sep w : chr_in sep w = false → split_chr sep w = [w].
Proof.
  induction w as [|c w IH]; [done |]. unfold zin in *. simpl.
  intros [H1 H2]%orb_false_iff. rewrite Z.eqb_sym, H1, IH by done. done.
Qed.

Lemma startswith_spec s p : startswith s p = true ↔ ∃ r, s = p ++ r.
Proof.
  unfold startswith. rewrite bool_decide_eq_true. split.
  - intros H. exists (drop (length p) s). by rewrite <- H at 1; rewrite take_drop.
  - intros [r ->]. by rewrite take_app_length.
Qed.

Lemma split_max_S sep n w s :
  chr_in sep w = false → split_max sep (S n) (w ++ sep :: s) = w :: split_max sep n s.
Proof.
  induction w as [|c w IH]; intros H; [simpl; by rewrite Z.eqb_refl |].
  unfold zin in H. simpl in H. apply orb_false_iff in H as [H1 H2]. specialize (IH H2).
  simpl in *. rewrite Z.eqb_sym, H1, IH. done.
Qed.

(** A separator that occurs splits the string at its first occurrence. *)
Lemma chr_in_split sep s : chr_in sep s = true → ∃ w r, s = w ++ sep :: r ∧ chr_in sep w = false.
Proof.
  induction s as [|c s IH]; [done |]. unfold zin in *. simpl. destruct (sep =? c) eqn:E; simpl; intros H.
  - bools. subst. by exists [], s.
  - destruct (IH H) as (w & r & -> & Hw). exists (c :: w), r. split; [done |]. simpl. by rewrite E.
Qed.

Lemma zin_app z l k : zin z (l ++ k) = zin z l || zin z k.
Proof. apply existsb_app. Qed.

Lemma split_join_chr sep ws :
  ws ≠ [] → Forall (λ w, chr_in sep w = false) ws → split_chr sep (join_chr sep ws) = ws.
Proof.
  intros Hne Hall. induction Hall as [|w ws Hw Hall IH]; [done |].
  destruct ws as [|w' ws]; [by apply split_chr_single |].
  change (join_chr sep (w :: w' :: ws)) with (w ++ sep :: join_chr sep (w' :: ws)).
  rewrite split_chr_app by done. by rewrite IH.
Qed.

(** ** [int(value)]

    On text Python strips white space, then reads an optional sign and decimal
    digits, single underscores being allowed between digits.  Only ASCII white
    space and digits are read here. *)
Definition is_space (c : Z) : bool := ((9 <=? c) && (c <=? 13)) || ((28 <=? c) && (c <=? 32)).
Definition is_digit (c : Z) : bool := (48 <=? c) && (c <=? 57).

Fixpoint drop_spaces (s : list Z) : list Z :=
  match s with
  | c :: s' => if is_space c then drop_spaces s' else s
  | [] => []
  end.

Fixpoint read_digits (acc : Z) (s : list Z) : option Z :=
  match s with
  | [] => Some acc
  | 95 :: d :: s => if is_digit d then read_digits (acc * 10 + (d - 48)) s else None
  | d :: s => if is_digit d then read_digits (acc * 10 + (d - 48)) s else None
  end.

Definition read_unsigned (s : list Z) : option Z :=
  match s with
  | d :: s => if is_digit d then read_digits (d - 48) s else None
  | [] => None
  end.

Definition int_text (s : list Z) : res Z :=
  let s := rev (drop_spaces (rev (drop_spaces s))) in
  match (match s with
         | 45 :: s => Z.opp <$> read_unsigned s
         | 43 :: s => read_unsigned s
         | s => read_unsigned s
         end) with
  | Some z => Ok z
  | None => Raise ValueError
  end.

Definition py_int (v : pyval) : res Z :=
  match v with
  | VInt z => Ok z
  | VStr s | VBytes s => int_text s
  | VNone | VTuple _ => Raise TypeError
  end.

Example int_text_ex : (int_text (lit " -1_0 "), int_text (lit "1__0")) = (Ok (-10), Raise ValueError).
Proof. reflexivity. Qed.

(** [bool(value)]. *)
Definition py_bool (v : pyval) : bool :=
  match v with
  | VNone => false
  | VInt z => negb (z =? 0)
  | VStr s | VBytes s => match s with [] => false | _ => true end
  | VTuple l => match l with [] => false | _ => true end
  end.
