(* ===== verification/Primitives.v ===== *)
(** * Binary primitives ([src/mqttium/codec/primitives.py]) *)

From S2P Require Import Prelude PyStr.

(** [struct.Struct("!H")] and [("!I")] refuse a value outside their range. *)
Definition pack_u16 (value : Z) : res bytes :=
  raise! StructError when negb ((0 <=? value) && (value <=? 65535));
  Ok [value / 256; value mod 256].

Definition unpack_u16 (buffer : bytes) (offset : Z) : res (Z * Z) :=
  raise! MalformedPacketError when offset + 2 >? len buffer;
  let! b0 := idx buffer offset in
  let! b1 := idx buffer (offset + 1) in
  Ok (b0 * 256 + b1, offset + 2).

Definition pack_u32 (value : Z) : res bytes :=
  raise! StructError when negb ((0 <=? value) && (value <=? 0xFFFFFFFF));
  Ok [value / 16777216; value / 65536 mod 256; value / 256 mod 256; value mod 256].

Definition unpack_u32 (buffer : bytes) (offset : Z) : res (Z * Z) :=
  raise! MalformedPacketError when offset + 4 >? len buffer;
  let! b0 := idx buffer offset in
  let! b1 := idx buffer (offset + 1) in
  let! b2 := idx buffer (offset + 2) in
  let! b3 := idx buffer (offset + 3) in
  Ok (b0 * 16777216 + b1 * 65536 + b2 * 256 + b3, offset + 4).

(** [_validate_mqtt_utf8]: no null character; the error class is the caller's. *)
Definition _validate_mqtt_utf8 (text : pystr) (error_type : exn) : res unit :=
  raise! error_type when chr_in 0 text;
  Ok tt.

Definition validate_utf8 (value : pyval) : res Z :=
  match value with
  | VStr value =>
      let! _ := _validate_mqtt_utf8 value ProtocolError in
      if isascii value then
        let n := len value in
        raise! ProtocolError when n >? 65535;
        Ok n
      else
        match utf8_encode value with
        | None => Raise ProtocolError
        | Some data =>
            raise! ProtocolError when len data >? 65535;
            Ok (len data)
        end
  | _ => Raise ProtocolError
  end.

Definition encode_utf8 (value : pyval) : res bytes :=
  match value with
  | VStr value =>
      match utf8_encode value with
      | None => Raise ProtocolError
      | Some data =>
          let! _ := _validate_mqtt_utf8 value ProtocolError in
          raise! ProtocolError when len data >? 65535;
          Ok data
      end
  | _ => Raise ProtocolError
  end.

Definition pack_utf8 (value : pyval) : res bytes :=
  let! data := encode_utf8 value in
  let! n := pack_u16 (len data) in
  Ok (n ++ data).

Definition append_utf8 (buf : bytes) (value : pyval) : res bytes :=
  let! data := encode_utf8 value in
  let! n := pack_u16 (len data) in
  Ok ((buf ++ n) ++ data).

Definition unpack_utf8 (buffer : bytes) (offset : Z) : res (pystr * Z) :=
  let pos := offset + 2 in
  raise! MalformedPacketError when pos >? len buffer;
  let! hi := idx buffer offset in
  let! lo := idx buffer (offset + 1) in
  let end_ := pos + Z.lor (Z.shiftl hi 8) lo in
  raise! MalformedPacketError when end_ >? len buffer;
  match utf8_decode (slice buffer pos end_) with
  | None => Raise MalformedPacketError
  | Some text =>
      let! _ := _validate_mqtt_utf8 text MalformedPacketError in
      Ok (text, end_)
  end.

Definition pack_binary (value : bytes) : res bytes :=
  raise! ValueError when len value >? 65535;
  let! n := pack_u16 (len value) in
  Ok (n ++ value).

Definition unpack_binary (buffer : bytes) (offset : Z) : res (bytes * Z) :=
  let! '(length, pos) := unpack_u16 buffer offset in
  let end_ := pos + length in
  raise! MalformedPacketError when end_ >? len buffer;
  Ok (slice buffer pos end_, end_).

(** ** Reading at an offset

    A decoder [dec] inverts the encoding [enc] when it reads [v] exactly where
    the bytes of [v] lie.  [decodes] packages the four facts every value codec
    is shown to satisfy: it reads back what was written whatever surrounds it,
    accepts nothing else, stays inside the buffer and raises
    [MalformedPacketError] only. *)
Record decodes {A} (dec : bytes → Z → res (A * Z)) (enc : A → res bytes) : Prop := {
  dec_complete : ∀ v d pre post,
    enc v = Ok d → dec (pre ++ d ++ post) (len pre) = Ok (v, len pre + len d);
  dec_sound : ∀ b o v p,
    bytes_ok b → 0 ≤ o → dec b o = Ok (v, p) →
    ∃ pre d post, b = pre ++ d ++ post ∧ len pre = o ∧ enc v = Ok d ∧ p = o + len d ∧ 0 < len d;
  dec_raises : ∀ b o,
    bytes_ok b → 0 ≤ o → raises_only (λ e, e = MalformedPacketError) (dec b o);
}.

Lemma dec_bounds {A} dec (enc : A → res bytes) b o v p :
  decodes dec enc → bytes_ok b → 0 ≤ o → dec b o = Ok (v, p) → o < p ≤ len b.
Proof. intros H Hb Ho (pre & d & post & -> & <- & _ & -> & ?)%H; [| done..]. len_lia. Qed.

(** Equivalently: the decoder's answers are the encodings present in the buffer. *)
Lemma decodes_iff {A} dec (enc : A → res bytes) b o v p :
  decodes dec enc → bytes_ok b → 0 ≤ o →
  dec b o = Ok (v, p) ↔ o ≤ p ≤ len b ∧ enc v = Ok (slice b o p).
Proof.
  intros H Hb Ho. split.
  - intros (pre & d & post & -> & <- & He & -> & Hp)%H; try done.
    rewrite slice_mid. split; [len_lia | done].
  - intros [Hp He]. destruct (slice_split b o p) as (pre & post & Heq & Hpre & _); [lia.. |].
    assert (Hlen : len (slice b o p) = p - o) by (apply len_slice; lia).
    revert He Hlen Heq. generalize (slice b o p). intros d He Hlen Heq.
    rewrite Heq, <- Hpre, (dec_complete _ _ H v d) by done. tup; lia.
Qed.

Lemma pack_u16_inv v d : pack_u16 v = Ok d → 0 ≤ v ≤ 65535 ∧ d = [v / 256; v mod 256] ∧ len d = 2.
Proof. unfold pack_u16. intros. res_inv. bools. split_and!; done || lia. Qed.

Lemma pack_u16_Ok v : 0 ≤ v ≤ 65535 → pack_u16 v = Ok [v / 256; v mod 256].
Proof. intros. unfold pack_u16. zcase. done. Qed.

Lemma u16_decodes : decodes unpack_u16 pack_u16.
Proof.
  split.
  - intros v d pre post (Hv & -> & _)%pack_u16_inv. unfold unpack_u16. rewrite Z.gtb_ltb.
    rewrite (proj2 (Z.ltb_ge _ _)) by len_lia. simpl. rewrite idx_mid. cbn [rbind].
    rewrite idx_app_r by lia. simpl.
    pose proof (Z.div_mod v 256). change (len [v / 256; v mod 256]) with 2. tup; lia.
  - intros b o v p Hb Ho H. unfold unpack_u16 in H. rewrite Z.gtb_ltb in H. res_inv. bools.
    apply idx_split in Hv as (pre & q & -> & <-); [| lia].
    rewrite idx_app_r in Hv0 by lia. destruct q as [|v2 q]; [done |].
    unfold idx in Hv0; simpl in Hv0. simplify_eq.
    apply Forall_app in Hb as [_ Hb]. inversion Hb as [|?? [??] Hb']; inversion Hb' as [|?? [??]]; subst.
    exists pre, [v0; v1], q. split_and!; [done | done | | done | done]. rewrite pack_u16_Ok by lia.
    do 2 f_equal; [symmetry; apply Z.div_unique with v1; lia |].
    f_equal. symmetry. apply Z.mod_unique with v0; lia.
  - intros b o Hb Ho. unfold unpack_u16. rewrite Z.gtb_ltb. case_if; [auto with pyraise |]. bools.
    destruct (idx_Ok b o) as (x & -> & _); [lia |]. destruct (idx_Ok b (o + 1)) as (y & -> & _); [lia |].
    cbn [rbind]. auto with pyraise.
Qed.

Lemma u32_decodes : decodes unpack_u32 pack_u32.
Proof.
  split.
  - intros v d pre post. unfold pack_u32, unpack_u32. intros H. res_inv. bools. rewrite Z.gtb_ltb.
    rewrite (proj2 (Z.ltb_ge _ _)) by len_lia. simpl. rewrite idx_mid. cbn [rbind].
    rewrite !idx_app_r by lia. simpl.
    pose proof (Z.div_mod v 256). pose proof (Z.div_mod (v / 256) 256). pose proof (Z.div_mod (v / 65536) 256).
    rewrite !Z.div_div in * by lia. change (256 * 256) with 65536 in *. change (65536 * 256) with 16777216 in *.
    tup; lia.
  - intros b o v p Hb Ho H. unfold unpack_u32 in H. rewrite Z.gtb_ltb in H. res_inv. bools.
    apply idx_split in Hv as (pre & q & -> & <-); [| lia].
    rewrite idx_app_r in Hv0, Hv1, Hv2 by lia. destruct q as [|w1 [|w2 [|w3 q]]]; try done.
    unfold idx in *; simpl in *. simplify_eq.
    apply Forall_app in Hb as [_ Hb]. rewrite !Forall_cons in Hb. destruct Hb as ([] & [] & [] & [] & _).
    exists pre, [v0; v1; v2; v3], q. split_and!; [done | done | | done | done].
    set (v := v0 * 16777216 + v1 * 65536 + v2 * 256 + v3).
    assert (E1 : v / 256 = v0 * 65536 + v1 * 256 + v2) by (symmetry; apply Z.div_unique with v3; lia).
    assert (E2 : v / 65536 = v0 * 256 + v1) by (symmetry; apply Z.div_unique with (v2 * 256 + v3); lia).
    unfold pack_u32. zcase. simpl. rewrite E1, E2.
    do 2 f_equal; [symmetry; apply Z.div_unique with (v1 * 65536 + v2 * 256 + v3); lia |].
    f_equal; [symmetry; apply Z.mod_unique with v0; lia |].
    f_equal; [symmetry; apply Z.mod_unique with (v0 * 256 + v1); lia |].
    f_equal. symmetry. apply Z.mod_unique with (v0 * 65536 + v1 * 256 + v2); lia.
  - intros b o Hb Ho. unfold unpack_u32. rewrite Z.gtb_ltb. case_if; [auto with pyraise |]. bools.
    destruct (idx_Ok b o) as (x & -> & _); [lia |]. destruct (idx_Ok b (o + 1)) as (y & -> & _); [lia |].
    destruct (idx_Ok b (o + 2)) as (z & -> & _); [lia |]. destruct (idx_Ok b (o + 3)) as (t & -> & _); [lia |].
    cbn [rbind]. auto with pyraise.
Qed.

(** The length-prefixed read shared by text and binary data. *)
Lemma read_prefixed pre d post :
  len d ≤ 65535 →
  unpack_u16 (pre ++ ([len d / 256; len d mod 256] ++ d) ++ post) (len pre) = Ok (len d, len pre + 2) ∧
  slice (pre ++ ([len d / 256; len d mod 256] ++ d) ++ post) (len pre + 2) (len pre + 2 + len d) = d.
Proof.
  intros Hl. rewrite <- !app_assoc. split.
  - rewrite (dec_complete _ _ u16_decodes (len d)); [done |].
    apply pack_u16_Ok. len_lia.
  - pose proof (slice_mid (pre ++ [len d / 256; len d mod 256]) d post) as H.
    rewrite <- app_assoc, len_app in H. exact H.
Qed.

(** Conversely, a length read at [o] with its data in range cuts the buffer. *)
Lemma cut_prefixed b o n q :
  bytes_ok b → 0 ≤ o → unpack_u16 b o = Ok (n, q) → q + n ≤ len b →
  ∃ pre v post, b = pre ++ ([n / 256; n mod 256] ++ v) ++ post ∧ len pre = o ∧ q = o + 2 ∧
    0 ≤ n ≤ 65535 ∧ len v = n ∧ slice b q (q + n) = v ∧ bytes_ok v.
Proof.
  intros Hb Ho Hn Hle.
  apply (dec_sound _ _ u16_decodes) in Hn as (pre & d & post & -> & <- & Hd & -> & _); [| done..].
  apply pack_u16_inv in Hd as (Hr & -> & Hd2). rewrite Hd2 in *.
  rewrite app_assoc in Hle, Hb |- *. set (h := pre ++ [n / 256; n mod 256]) in *.
  assert (Hh : len h = len pre + 2) by (unfold h; len_lia). rewrite <- Hh in *.
  destruct (slice_split (h ++ post) (len h) (len h + n)) as (pre' & q & Heq & Hpre' & _); [len_lia.. |].
  set (v := slice _ _ _) in *.
  assert (Hlv : len v = n) by (unfold v; rewrite len_slice by len_lia; lia).
  assert (pre' = h) as ->.
  { apply (f_equal (take (length pre'))) in Heq. rewrite take_app_length in Heq. rewrite <- Heq.
    by replace (length pre') with (length h) by (unfold len in *; lia); rewrite take_app_length. }
  exists pre, v, q. split_and!; try done; try lia.
  - rewrite Heq. unfold h. by rewrite <- !app_assoc.
  - rewrite Heq, !Forall_app in Hb. tauto.
Qed.

Lemma binary_decodes : decodes unpack_binary pack_binary.
Proof.
  split.
  - intros v d pre post H. unfold pack_binary in H. rewrite Z.gtb_ltb in H. res_inv. bools.
    apply pack_u16_inv in Hv as (_ & -> & _). destruct (read_prefixed pre v post) as [H1 H2]; [lia |].
    unfold unpack_binary. rewrite H1. cbn [rbind]. rewrite H2, Z.gtb_ltb.
    rewrite (proj2 (Z.ltb_ge _ _)) by len_lia. tup; len_lia.
  - intros b o v p Hb Ho H. unfold unpack_binary in H. apply rbind_Ok_inv in H as ([n q] & Hn & H).
    rewrite Z.gtb_ltb in H. res_inv. bools.
    apply cut_prefixed in Hn as (pre & v & post & -> & <- & -> & Hr & Hlv & Hsl & _); [| done..].
    rewrite Hsl. exists pre, ([n / 256; n mod 256] ++ v), post. split_and!; try done; [| len_lia..].
    unfold pack_binary. rewrite Hlv, Z.gtb_ltb. zcase. rewrite pack_u16_Ok by lia. done.
  - intros b o Hb Ho. unfold unpack_binary. apply raises_only_bind; [by apply u16_decodes |].
    intros [n q] _. case_if; auto with pyraise.
Qed.

(** ** MQTT text *)

(** The length validation computes is the length of the encoding, and both
    refuse the same strings with the same error. *)
Lemma validate_utf8_encode v :
  validate_utf8 v = rbind (encode_utf8 v) (λ data, Ok (len data)).
Proof.
  destruct v; try done. simpl. unfold _validate_mqtt_utf8.
  destruct (isascii s) eqn:Ha; [rewrite utf8_encode_ascii by done |].
  - destruct (chr_in 0 s); simpl; [done |]. by case_if.
  - destruct (utf8_encode s) eqn:He; destruct (chr_in 0 s); simpl; try done. by case_if.
Qed.

Lemma encode_utf8_inv v d :
  encode_utf8 v = Ok d →
  ∃ s, v = VStr s ∧ utf8_encode s = Some d ∧ utf8_decode d = Some s ∧ chr_in 0 s = false ∧
    len d ≤ 65535 ∧ bytes_ok d.
Proof.
  destruct v; try done. simpl. destruct (utf8_encode s) eqn:He; [| done].
  unfold _validate_mqtt_utf8. intros. res_inv. rewrite Z.gtb_ltb in *. bools.
  destruct (chr_in 0 s) eqn:Hz; [done |]. exists s. split_and!; try done.
  - by apply utf8_decode_encode.
  - by eapply utf8_encode_bytes.
Qed.

Lemma encode_utf8_Ok s d :
  utf8_decode d = Some s → chr_in 0 s = false → len d ≤ 65535 → encode_utf8 (VStr s) = Ok d.
Proof.
  intros Hd Hz Hl. simpl. rewrite (utf8_encode_decode d s) by done.
  unfold _validate_mqtt_utf8. rewrite Hz. simpl. rewrite Z.gtb_ltb. zcase. done.
Qed.

(** [encode_utf8] raises [ProtocolError] only. *)
Lemma encode_utf8_raises v : raises_only (λ e, e = ProtocolError) (encode_utf8 v).
Proof.
  destruct v; simpl; auto with pyraise. destruct (utf8_encode s); auto with pyraise.
  unfold _validate_mqtt_utf8. destruct (chr_in 0 s); cbn [rbind]; auto with pyraise.
  case_if; auto with pyraise.
Qed.

Lemma pack_utf8_inv v b :
  pack_utf8 v = Ok b → ∃ d, encode_utf8 v = Ok d ∧ b = [len d / 256; len d mod 256] ++ d ∧ len d ≤ 65535.
Proof.
  unfold pack_utf8. intros H. res_inv. apply pack_u16_inv in Hv0 as (? & -> & _). eexists; split_and!; done || lia.
Qed.

Lemma pack_utf8_Ok v d : encode_utf8 v = Ok d → pack_utf8 v = Ok ([len d / 256; len d mod 256] ++ d).
Proof.
  intros H. unfold pack_utf8. rewrite H. cbn [rbind]. apply encode_utf8_inv in H as (s & _ & _ & _ & _ & Hl & _).
  rewrite pack_u16_Ok by len_lia. done.
Qed.

Lemma pack_utf8_raises v : raises_only (λ e, e = ProtocolError) (pack_utf8 v).
Proof.
  apply raises_only_bind; [apply encode_utf8_raises |].
  intros d (s & _ & _ & _ & _ & Hl & _)%encode_utf8_inv. rewrite pack_u16_Ok by len_lia. cbn [rbind]. auto with pyraise.
Qed.

(** The inlined length read of [unpack_utf8] is [unpack_u16]. *)
Lemma unpack_utf8_u16 b o :
  bytes_ok b → 0 ≤ o →
  unpack_utf8 b o =
    let! '(n, pos) := unpack_u16 b o in
    raise! MalformedPacketError when pos + n >? len b;
    match utf8_decode (slice b pos (pos + n)) with
    | None => Raise MalformedPacketError
    | Some text => let! _ := _validate_mqtt_utf8 text MalformedPacketError in Ok (text, pos + n)
    end.
Proof.
  intros Hb Ho. unfold unpack_utf8, unpack_u16. case_if; [done |]. rewrite Z.gtb_ltb in *. bools.
  destruct (idx_Ok b o) as (x & -> & Hx); [lia |]. destruct (idx_Ok b (o + 1)) as (y & -> & Hy); [lia |].
  cbn [rbind]. rewrite Forall_forall in Hb. apply Hb in Hx, Hy. destruct Hx, Hy.
  rewrite shiftl_lor by lia. done.
Qed.

Lemma utf8_decodes : decodes unpack_utf8 (λ s, pack_utf8 (VStr s)).
Proof.
  split.
  - intros s b pre post (d & He & -> & Hl)%pack_utf8_inv.
    apply encode_utf8_inv in He as (s' & [= <-] & _ & Hd & Hz & _ & Hb).
    unfold unpack_utf8. rewrite !Z.gtb_ltb. pose proof (len_nonneg d).
    destruct (read_prefixed pre d post) as [_ H2]; [lia |].
    rewrite <- app_assoc in *. simpl in *.
    rewrite (proj2 (Z.ltb_ge _ _)) by len_lia. rewrite idx_mid. cbn [rbind].
    rewrite idx_app_r by lia. unfold idx; simpl.
    pose proof (Z.div_mod (len d) 256). pose proof (Z.mod_pos_bound (len d) 256).
    assert (Hn : Z.lor (Z.shiftl (len d / 256) 8) (len d mod 256) = len d) by (rewrite shiftl_lor by lia; simpl; lia).
    rewrite Hn, H2, Hd. unfold _validate_mqtt_utf8. rewrite Hz. cbn [rbind].
    rewrite Z.gtb_ltb. rewrite (proj2 (Z.ltb_ge _ _)) by len_lia. tup. len_lia.
  - intros b o s p Hb Ho H. rewrite unpack_utf8_u16 in H by done.
    apply rbind_Ok_inv in H as ([n q] & Hn & H). rewrite Z.gtb_ltb in H. res_inv. bools.
    apply cut_prefixed in Hn as (pre & v & post & -> & <- & -> & Hr & Hlv & Hsl & _); [| done..].
    rewrite Hsl in H. destruct (utf8_decode v) eqn:Hd; [| done]. unfold _validate_mqtt_utf8 in H. res_inv.
    destruct (chr_in 0 s) eqn:Hz; [done |].
    exists pre, ([len v / 256; len v mod 256] ++ v), post. split_and!; try done; [| len_lia..].
    apply pack_utf8_Ok, encode_utf8_Ok; done || lia.
  - intros b o Hb Ho. rewrite unpack_utf8_u16 by done.
    apply raises_only_bind; [by apply u16_decodes |]. intros [n q] _. case_if; [auto with pyraise |].
    destruct (utf8_decode _); auto with pyraise. unfold _validate_mqtt_utf8.
    case_if; cbn [rbind]; auto with pyraise.
Qed.

(** MQTT text survives the wire, and only well-formed text is accepted.
    On any byte buffer [unpack_utf8] returns [(s, p)] if and only if the bytes
    up to [p] are what [pack_utf8] produces for [s]: strict UTF-8 without
    surrogates, over-long forms or null characters, at most 65535 bytes. *)
Theorem unpack_utf8_iff b o s p :
  bytes_ok b → 0 ≤ o →
  unpack_utf8 b o = Ok (s, p) ↔ o ≤ p ≤ len b ∧ pack_utf8 (VStr s) = Ok (slice b o p).
Proof. apply (decodes_iff unpack_utf8 (λ s, pack_utf8 (VStr s))), utf8_decodes. Qed.

Lemma unpack_utf8_iff_witness :
  unpack_utf8 [9; 0; 3; 0xE2; 0x82; 0xAC; 5] 1 = Ok ([0x20AC], 6) ↔
    1 ≤ 6 ≤ len [9; 0; 3; 0xE2; 0x82; 0xAC; 5] ∧
    pack_utf8 (VStr [0x20AC]) = Ok (slice [9; 0; 3; 0xE2; 0x82; 0xAC; 5] 1 6).
Proof. apply unpack_utf8_iff; [repeat constructor; done | done]. Defined.
