(* ===== verification/Enums.v ===== *)
(** * Enumerations and fixed-header validation
    ([src/mqttium/enums.py], [src/mqttium/codec/packet_validation.py]) *)

From S2P Require Import Prelude PyStr.

Inductive MQTTProtocolVersion := MQTTv311 | MQTTv5.

Inductive PacketType :=
  | CONNECT | CONNACK | PUBLISH | PUBACK | PUBREC | PUBREL | PUBCOMP
  | SUBSCRIBE | SUBACK | UNSUBSCRIBE | UNSUBACK | PINGREQ | PINGRESP
  | DISCONNECT | AUTH.

Inductive QoS := AT_MOST_ONCE | AT_LEAST_ONCE | EXACTLY_ONCE.

Inductive OutboundQoSState := QUEUED | WAIT_PUBACK | WAIT_PUBREC | WAIT_PUBCOMP | DONE.

Module In.
Inductive InboundQoSState := WAIT_PUBREL | DONE | WAIT_PUBACK | WAIT_USER_ACK.
End In.

Inductive ConnectionState :=
  | NEW | CONNECTING | CONNECTED | DISCONNECTING | DISCONNECTED | RECONNECTING.

#[export] Instance MQTTProtocolVersion_dec : EqDecision MQTTProtocolVersion.
Proof. solve_decision. Defined.
#[export] Instance PacketType_dec : EqDecision PacketType.
Proof. solve_decision. Defined.
#[export] Instance QoS_dec : EqDecision QoS.
Proof. solve_decision. Defined.
#[export] Instance OutboundQoSState_dec : EqDecision OutboundQoSState.
Proof. solve_decision. Defined.
#[export] Instance InboundQoSState_dec : EqDecision In.InboundQoSState.
Proof. solve_decision. Defined.
#[export] Instance ConnectionState_dec : EqDecision ConnectionState.
Proof. solve_decision. Defined.

(** [int(packet_type)]. *)
Definition PacketType_int (t : PacketType) : Z :=
  match t with
  | CONNECT => 0x10 | CONNACK => 0x20 | PUBLISH => 0x30 | PUBACK => 0x40
  | PUBREC => 0x50 | PUBREL => 0x60 | PUBCOMP => 0x70 | SUBSCRIBE => 0x80
  | SUBACK => 0x90 | UNSUBSCRIBE => 0xA0 | UNSUBACK => 0xB0 | PINGREQ => 0xC0
  | PINGRESP => 0xD0 | DISCONNECT => 0xE0 | AUTH => 0xF0
  end.

Definition PACKET_TYPES_BY_NIBBLE : list (option PacketType) :=
  [ None; Some CONNECT; Some CONNACK; Some PUBLISH; Some PUBACK; Some PUBREC;
    Some PUBREL; Some PUBCOMP; Some SUBSCRIBE; Some SUBACK; Some UNSUBSCRIBE;
    Some UNSUBACK; Some PINGREQ; Some PINGRESP; Some DISCONNECT; Some AUTH ].

Definition PacketType_from_byte (byte : Z) : res PacketType :=
  match PACKET_TYPES_BY_NIBBLE !! Z.to_nat (Z.shiftr (Z.land byte 0xF0) 4) with
  | None => Raise IndexError
  | Some None => Raise MalformedPacketError
  | Some (Some t) => Ok t
  end.

Definition QoS_int (q : QoS) : Z :=
  match q with AT_MOST_ONCE => 0 | AT_LEAST_ONCE => 1 | EXACTLY_ONCE => 2 end.

(** [QoS(value)]: [ValueError] outside 0..2. *)
Definition QoS_of (value : Z) : res QoS :=
  if value =? 0 then Ok AT_MOST_ONCE
  else if value =? 1 then Ok AT_LEAST_ONCE
  else if value =? 2 then Ok EXACTLY_ONCE
  else Raise ValueError.

Lemma QoS_of_int q : QoS_of (QoS_int q) = Ok q.
Proof. by destruct q. Qed.

(** [RawPacket] of [codec/buffer.py]. *)
Record RawPacket := { packet_type : PacketType; flags : Z; remaining : bytes }.

Definition FIXED_FLAGS (t : PacketType) : option Z :=
  match t with
  | PUBLISH => None
  | PUBREL | SUBSCRIBE | UNSUBSCRIBE => Some 0x2
  | _ => Some 0x0
  end.

Definition validate_raw_packet (raw : RawPacket) : res unit :=
  if bool_decide (packet_type raw = PUBLISH) then
    let qos := Z.land (Z.shiftr (flags raw) 1) 0x03 in
    raise! MalformedPacketError when qos =? 3;
    Ok tt
  else
    match FIXED_FLAGS (packet_type raw) with
    | None => Raise MalformedPacketError
    | Some expected =>
        raise! MalformedPacketError when negb (flags raw =? expected);
        Ok tt
    end.

Definition require_nonzero_mid (mid : Z) : res unit :=
  raise! MalformedPacketError when mid =? 0;
  Ok tt.

Definition require_end (pos length : Z) : res unit :=
  raise! MalformedPacketError when negb (pos =? length);
  Ok tt.

Definition require_reason_code (reason : Z) (allowed : list Z) : res unit :=
  raise! MalformedPacketError when negb (zin reason allowed);
  Ok tt.

(** Reading a header byte back from the type and flags it packs. *)
Lemma from_byte_or t f :
  0 ≤ f < 16 → PacketType_from_byte (Z.lor (PacketType_int t) f) = Ok t ∧
               Z.land (Z.lor (PacketType_int t) f) 0x0F = f.
Proof.
  intros Hf.
  assert (f ∈ seqZ 0 16) as Hin by (apply elem_of_seqZ; lia). clear Hf. revert f Hin.
  rewrite <- Forall_forall. destruct t; repeat constructor.
Qed.

Lemma from_byte_raises b : byte_ok b → raises_only (λ e, e = MalformedPacketError) (PacketType_from_byte b).
Proof.
  intros Hb e H.
  pose proof (byte_forall (λ b, match PacketType_from_byte b with
     Ok _ => true | Raise MalformedPacketError => true | _ => false end) eq_refl b Hb) as Hc.
  simpl in Hc. rewrite H in Hc. by destruct e.
Qed.

Lemma validate_raw_packet_raises raw :
  raises_only (λ e, e = MalformedPacketError) (validate_raw_packet raw).
Proof.
  unfold validate_raw_packet. case_if; [case_if; auto with pyraise |].
  destruct (FIXED_FLAGS _); [case_if |]; auto with pyraise.
Qed.

Lemma require_end_raises p l : raises_only (λ e, e = MalformedPacketError) (require_end p l).
Proof. unfold require_end. case_if; auto with pyraise. Qed.
Lemma require_nonzero_mid_raises m : raises_only (λ e, e = MalformedPacketError) (require_nonzero_mid m).
Proof. unfold require_nonzero_mid. case_if; auto with pyraise. Qed.
Lemma require_reason_code_raises r a : raises_only (λ e, e = MalformedPacketError) (require_reason_code r a).
Proof. unfold require_reason_code. case_if; auto with pyraise. Qed.
