(* ===== verification/Properties.v ===== *)
(** * MQTT 5 properties ([src/mqttium/codec/properties.py], [Properties] of [types.py]) *)

From S2P Require Import Prelude PyStr Vbi Primitives.

Inductive PropType := BYTE | U16 | U32 | VBI | STRING | STRING_PAIR | BINARY.

(** The packet and context names of the allowed sets. *)
Inductive pctx :=
  | cCONNECT | cCONNACK | cPUBLISH | cPUBACK | cPUBREC | cPUBREL | cPUBCOMP
  | cSUBSCRIBE | cSUBACK | cUNSUBSCRIBE | cUNSUBACK | cDISCONNECT | cAUTH | cWILL.

#[export] Instance pctx_dec : EqDecision pctx.
Proof. solve_decision. Defined.

Definition ALL_PACKETS : list pctx :=
  [ cCONNECT; cCONNACK; cPUBLISH; cPUBACK; cPUBREC; cPUBREL; cPUBCOMP;
    cSUBSCRIBE; cSUBACK; cUNSUBSCRIBE; cUNSUBACK; cDISCONNECT; cAUTH; cWILL ].

Record PropertySpec := {
  p_id : Z;
  p_name : string;
  p_type : PropType;
  p_packets : list pctx;
  p_multiple : bool;
  p_nonzero : bool;
  p_zero_one : bool;
  p_topic_value : bool;
  p_subscribe_singleton : bool;
}.

(** A spec with the defaults of the dataclass. *)
Definition spec_of (id : Z) (name : string) (t : PropType) (packets : list pctx) : PropertySpec :=
  Build_PropertySpec id name t packets false false false false false.
Definition zero_one (s : PropertySpec) : PropertySpec :=
  Build_PropertySpec (p_id s) (p_name s) (p_type s) (p_packets s) (p_multiple s) (p_nonzero s)
    true (p_topic_value s) (p_subscribe_singleton s).
Definition nonzero (s : PropertySpec) : PropertySpec :=
  Build_PropertySpec (p_id s) (p_name s) (p_type s) (p_packets s) (p_multiple s) true
    (p_zero_one s) (p_topic_value s) (p_subscribe_singleton s).

Open Scope string_scope.

Definition SPECS : list PropertySpec := [
  zero_one (spec_of 0x01 "payload_format_indicator" BYTE [cPUBLISH; cWILL]);
  spec_of 0x02 "message_expiry_interval" U32 [cPUBLISH; cWILL];
  spec_of 0x03 "content_type" STRING [cPUBLISH; cWILL];
  Build_PropertySpec 0x08 "response_topic" STRING [cPUBLISH; cWILL] false false false true false;
  spec_of 0x09 "correlation_data" BINARY [cPUBLISH; cWILL];
  Build_PropertySpec 0x0B "subscription_identifier" VBI [cPUBLISH; cSUBSCRIBE] true true false false true;
  spec_of 0x11 "session_expiry_interval" U32 [cCONNECT; cCONNACK; cDISCONNECT];
  spec_of 0x12 "assigned_client_identifier" STRING [cCONNACK];
  spec_of 0x13 "server_keep_alive" U16 [cCONNACK];
  spec_of 0x15 "authentication_method" STRING [cCONNECT; cCONNACK; cAUTH];
  spec_of 0x16 "authentication_data" BINARY [cCONNECT; cCONNACK; cAUTH];
  zero_one (spec_of 0x17 "request_problem_information" BYTE [cCONNECT]);
  spec_of 0x18 "will_delay_interval" U32 [cWILL];
  zero_one (spec_of 0x19 "request_response_information" BYTE [cCONNECT]);
  spec_of 0x1A "response_information" STRING [cCONNACK];
  spec_of 0x1C "server_reference" STRING [cCONNACK; cDISCONNECT];
  spec_of 0x1F "reason_string" STRING
    [cCONNACK; cPUBACK; cPUBREC; cPUBREL; cPUBCOMP; cSUBACK; cUNSUBACK; cDISCONNECT; cAUTH];
  nonzero (spec_of 0x21 "receive_maximum" U16 [cCONNECT; cCONNACK]);
  spec_of 0x22 "topic_alias_maximum" U16 [cCONNECT; cCONNACK];
  nonzero (spec_of 0x23 "topic_alias" U16 [cPUBLISH]);
  zero_one (spec_of 0x24 "maximum_qos" BYTE [cCONNACK]);
  zero_one (spec_of 0x25 "retain_available" BYTE [cCONNACK]);
  Build_PropertySpec 0x26 "user_property" STRING_PAIR ALL_PACKETS true false false false false;
  nonzero (spec_of 0x27 "maximum_packet_size" U32 [cCONNECT; cCONNACK]);
  zero_one (spec_of 0x28 "wildcard_subscription_available" BYTE [cCONNACK]);
  zero_one (spec_of 0x29 "subscription_identifier_available" BYTE [cCONNACK]);
  zero_one (spec_of 0x2A "shared_subscription_available" BYTE [cCONNACK])
].

Close Scope string_scope.

Definition BY_ID (id : Z) : option PropertySpec := List.find (λ s, p_id s =? id) SPECS.
Definition BY_NAME (name : string) : option PropertySpec :=
  List.find (λ s, bool_decide (p_name s = name)) SPECS.

(** ** Value codecs *)

Definition _encode_byte (value : pyval) : res bytes :=
  match value with
  | VInt v => raise! ProtocolError when negb ((0 <=? v) && (v <=? 255)); Ok [v]
  | _ => Raise ProtocolError
  end.

Definition _encode_u16 (value : pyval) : res bytes :=
  match value with
  | VInt v => raise! ProtocolError when negb ((0 <=? v) && (v <=? 65535)); pack_u16 v
  | _ => Raise ProtocolError
  end.

Definition _encode_u32 (value : pyval) : res bytes :=
  match value with
  | VInt v => raise! ProtocolError when negb ((0 <=? v) && (v <=? 0xFFFFFFFF)); pack_u32 v
  | _ => Raise ProtocolError
  end.

Definition _encode_vbi_value (value : pyval) : res bytes :=
  match value with
  | VInt v => raise! ProtocolError when negb ((0 <=? v) && (v <=? 268_435_455)); encode_vbi v
  | _ => Raise ProtocolError
  end.

Definition _encode_string (value : pyval) : res bytes :=
  match value with
  | VStr _ => pack_utf8 value
  | _ => Raise ProtocolError
  end.

Definition _encode_string_pair (value : pyval) : res bytes :=
  match value with
  | VTuple [a; b] => let! x := pack_utf8 a in let! y := pack_utf8 b in Ok (x ++ y)
  | _ => Raise ProtocolError
  end.

Definition _encode_binary (value : pyval) : res bytes :=
  match value with
  | VBytes b =>
      rcatch (pack_binary b) (λ e, match e with ValueError => Raise ProtocolError | _ => Raise e end)
  | _ => Raise ProtocolError
  end.

Definition _decode_byte (buf : bytes) (offset : Z) : res (Z * Z) :=
  raise! MalformedPacketError when offset >=? len buf;
  let! b := idx buf offset in
  Ok (b, offset + 1).

Definition _decode_string_pair (buf : bytes) (offset : Z) : res ((pystr * pystr) * Z) :=
  let! '(key, pos) := unpack_utf8 buf offset in
  let! '(value, pos) := unpack_utf8 buf pos in
  Ok ((key, value), pos).

(** [_ENCODERS] and [_DECODERS]. *)
Definition spec_encode (t : PropType) : pyval → res bytes :=
  match t with
  | BYTE => _encode_byte
  | U16 => _encode_u16
  | U32 => _encode_u32
  | VBI => _encode_vbi_value
  | STRING => _encode_string
  | STRING_PAIR => _encode_string_pair
  | BINARY => _encode_binary
  end.

(** The decoded value tagged as the Python value it is. *)
Definition tag {A} (f : A → pyval) (r : res (A * Z)) : res (pyval * Z) :=
  let! '(v, p) := r in Ok (f v, p).

Definition spec_decode (t : PropType) (buf : bytes) (pos : Z) : res (pyval * Z) :=
  match t with
  | BYTE => tag VInt (_decode_byte buf pos)
  | U16 => tag VInt (unpack_u16 buf pos)
  | U32 => tag VInt (unpack_u32 buf pos)
  | VBI => tag VInt (decode_vbi buf pos None)
  | STRING => tag VStr (unpack_utf8 buf pos)
  | STRING_PAIR => tag (λ '(k, v), VTuple [VStr k; VStr v]) (_decode_string_pair buf pos)
  | BINARY => tag VBytes (unpack_binary buf pos)
  end.

Definition _validate_response_topic (value : pyval) (error_type : exn) : res unit :=
  match value with
  | VStr s =>
      raise! error_type when bool_decide (s = []);
      raise! error_type when chr_in 43 s || chr_in 35 s;
      Ok tt
  | _ => Ok tt
  end.

(** [item == 0] and [item in (0, 1)]. *)
Definition py_is_zero (v : pyval) : bool := match v with VInt z => z =? 0 | _ => false end.
Definition py_is_bit (v : pyval) : bool := match v with VInt z => (z =? 0) || (z =? 1) | _ => false end.

(** The per-value constraints both directions enforce, with their error class. *)
Definition check_item (spec : PropertySpec) (error_type : exn) (item : pyval) : res unit :=
  raise! error_type when p_nonzero spec && py_is_zero item;
  raise! error_type when p_zero_one spec && negb (py_is_bit item);
  if p_topic_value spec then _validate_response_topic item error_type else Ok tt.

Definition encode_item (spec : PropertySpec) (item : pyval) : res bytes :=
  let! _ := check_item spec ProtocolError item in
  let! d := spec_encode (p_type spec) item in
  Ok (p_id spec :: d).

Fixpoint encode_items (spec : PropertySpec) (items : list pyval) : res bytes :=
  match items with
  | [] => Ok []
  | item :: items =>
      let! d := encode_item spec item in
      let! rest := encode_items spec items in
      Ok (d ++ rest)
  end.

(** The list of wire values one mapping entry stands for. *)
Definition entry_values (spec : PropertySpec) (packet : pctx) (value : pyval) : res (list pyval) :=
  if p_multiple spec then
    if p_subscribe_singleton spec && bool_decide (packet = cSUBSCRIBE) then
      match value with
      | VTuple l => raise! ProtocolError when negb (len l =? 1); Ok l
      | _ => Ok [value]
      end
    else
      match value with VTuple l => Ok l | _ => Ok [value] end
  else
    match value with VTuple _ => Raise ProtocolError | _ => Ok [value] end.

Definition encode_entry (packet : pctx) (name : string) (value : pyval) : res bytes :=
  match BY_NAME name with
  | None => Raise ProtocolError
  | Some spec =>
      raise! ProtocolError when negb (bool_decide (packet ∈ p_packets spec));
      let! values := entry_values spec packet value in
      encode_items spec values
  end.

Fixpoint encode_body (packet : pctx) (props : propmap) : res bytes :=
  match props with
  | [] => Ok []
  | (name, value) :: props =>
      let! d := encode_entry packet name value in
      let! rest := encode_body packet props in
      Ok (d ++ rest)
  end.

Definition _encode_properties_uncached (props : propmap) (packet : pctx) : res bytes :=
  let! body := encode_body packet props in
  let! n := encode_vbi (len body) in
  Ok (n ++ body).

(** [Properties | None] in a call; the empty table encodes to one zero byte. *)
Definition encode_properties (props : option propmap) (packet : pctx) : res bytes :=
  match props with
  | None | Some [] => Ok [0]
  | Some values => _encode_properties_uncached values packet
  end.

Definition MAX_REPEATABLE_PROPERTIES : Z := 1024.

(** The update of [seen] for one decoded value. *)
Definition add_seen (spec : PropertySpec) (packet : pctx) (seen : propmap) (value : pyval) : res propmap :=
  if p_multiple spec then
    if p_subscribe_singleton spec && bool_decide (packet = cSUBSCRIBE) then
      raise! MalformedPacketError when dmem (p_name spec) seen;
      Ok (dset (p_name spec) value seen)
    else
      match dget (p_name spec) seen with
      | Some (VTuple l) => Ok (dset (p_name spec) (VTuple (l ++ [value])) seen)
      | Some _ => Raise TypeError
      | None => Ok (dset (p_name spec) (VTuple [value]) seen)
      end
  else
    raise! MalformedPacketError when dmem (p_name spec) seen;
    Ok (dset (p_name spec) value seen).

(** The decode loop.  Every round consumes at least the identifier byte, so the
    length of the table bounds the number of rounds. *)
Fixpoint decode_loop (fuel : nat) (buf : bytes) (packet : pctx) (end_ pos : Z)
    (seen : propmap) (repeated : Z) : res (propmap * Z) :=
  if pos <? end_ then
    match fuel with
    | O => Raise RuntimeError
    | S fuel =>
        let! prop_id := idx buf pos in
        let pos := pos + 1 in
        match BY_ID prop_id with
        | None => Raise MalformedPacketError
        | Some spec =>
            raise! MalformedPacketError when negb (bool_decide (packet ∈ p_packets spec));
            let repeated := if p_multiple spec then repeated + 1 else repeated in
            raise! ProtocolError when p_multiple spec && (repeated >? MAX_REPEATABLE_PROPERTIES);
            let! '(value, pos) := spec_decode (p_type spec) buf pos in
            let! _ := check_item spec MalformedPacketError value in
            let! seen := add_seen spec packet seen value in
            decode_loop fuel buf packet end_ pos seen repeated
        end
    end
  else Ok (seen, pos).

(** [Properties.__post_init__]: the single string pair shorthand of
    [user_property] becomes a one-element tuple of pairs. *)
Definition own_value (name : string) (value : pyval) : pyval :=
  match value with
  | VTuple [VStr a; VStr b] =>
      if bool_decide (name = "user_property"%string) then VTuple [value] else value
  | _ => value
  end.

Definition Properties_init (values : propmap) : propmap :=
  (λ '(name, value), (name, own_value name value)) <$> values.

Definition decode_properties (buf : bytes) (offset : Z) (packet : pctx) : res (propmap * Z) :=
  raise! MalformedPacketError when offset >=? len buf;
  let! first := idx buf offset in
  if first =? 0 then Ok ([], offset + 1)
  else
    let! '(props_len, pos) := decode_vbi buf offset None in
    let end_ := pos + props_len in
    raise! MalformedPacketError when end_ >? len buf;
    let! '(seen, pos) := decode_loop (Z.to_nat props_len) buf packet end_ pos [] 0 in
    raise! MalformedPacketError when negb (pos =? end_);
    Ok (Properties_init seen, end_).

(** ** Value codecs invert each other *)

Lemma byte_decodes : decodes _decode_byte (λ z, _encode_byte (VInt z)).
Proof.
  split.
  - intros v d pre post. simpl. intros H. res_inv. bools. unfold _decode_byte. rewrite Z.geb_leb.
    rewrite (proj2 (Z.leb_gt _ _)) by len_lia. simpl. rewrite idx_mid. done.
  - intros b o v p Hb Ho H. unfold _decode_byte in H. res_inv.
    apply idx_split in Hv as (pre & q & -> & <-); [| done].
    apply Forall_app in Hb as [_ Hb]. inversion Hb as [|?? [??]]; subst.
    exists pre, [v], q. simpl. zcase. done.
  - intros b o Hb Ho. unfold _decode_byte. rewrite Z.geb_leb. case_if; [auto with pyraise |]. bools.
    destruct (idx_Ok b o) as (x & -> & _); [lia |]. cbn [rbind]. auto with pyraise.
Qed.

Lemma vbi_decodes : decodes (λ b o, decode_vbi b o None) encode_vbi.
Proof.
  split.
  - intros v d pre post He. apply decode_encode_vbi; [done |]. simpl. len_lia.
  - intros b o v p Hb Ho (pre & d & post & ? & ? & ? & ? & ? & ?)%decode_vbi_sound; [| done | done | simpl; lia].
    exists pre, d, post. split_and!; done || lia.
  - intros b o Hb Ho. apply decode_vbi_raises; simpl; done || lia.
Qed.

(** Two codecs in sequence. *)
Lemma pair_decodes :
  decodes _decode_string_pair (λ '(a, b), _encode_string_pair (VTuple [VStr a; VStr b])).
Proof.
  split.
  - intros [a b] d pre post. simpl. intros H. res_inv. unfold _decode_string_pair.
    rewrite <- app_assoc, (dec_complete _ _ utf8_decodes a) by done. cbn [rbind].
    rewrite app_assoc, <- len_app, (dec_complete _ _ utf8_decodes b) by done. cbn [rbind].
    tup. len_lia.
  - intros b o [x y] p Hb Ho H. unfold _decode_string_pair in H.
    apply rbind_Ok_inv in H as ([k q] & Hk & H). apply rbind_Ok_inv in H as ([v q'] & Hv & H). simplify_eq.
    apply (dec_sound _ _ utf8_decodes) in Hk as (pre & d & post & -> & <- & Hd & -> & Hp); [| done..].
    apply (dec_sound _ _ utf8_decodes) in Hv as (pre' & d' & post' & Heq & Hpre' & Hd' & -> & Hp');
      [| done | len_lia].
    assert (pre' = pre ++ d) as ->.
    { rewrite app_assoc in Heq. apply (f_equal (take (length pre'))) in Heq.
      rewrite take_app_length in Heq. rewrite <- Heq.
      replace (length pre') with (length (pre ++ d)); [by rewrite take_app_length |].
      rewrite length_app. unfold len in *. lia. }
    exists pre, (d ++ d'), post'. simpl. rewrite Hd, Hd'. simpl. rewrite <- !app_assoc in *.
    split_and!; try done; len_lia.
  - intros b o Hb Ho. unfold _decode_string_pair.
    apply raises_only_bind; [by apply utf8_decodes |]. intros [k q] Hk.
    apply (dec_bounds _ _ _ _ _ _ utf8_decodes) in Hk; [| done..].
    apply raises_only_bind; [apply utf8_decodes; [done | lia] |]. intros [v q'] _. auto with pyraise.
Qed.

Lemma tag_decodes {A} (f : A → pyval) dec (enc : A → res bytes) (enc' : pyval → res bytes) :
  decodes dec enc → (∀ v d, enc' (f v) = Ok d ↔ enc v = Ok d) → (∀ w d, enc' w = Ok d → ∃ v, w = f v) →
  decodes (λ b o, tag f (dec b o)) enc'.
Proof.
  intros H Hf Hinv. split.
  - intros w d pre post He. destruct (Hinv _ _ He) as [v ->]. apply Hf in He.
    unfold tag. by rewrite (dec_complete _ _ H v d).
  - intros b o w p Hb Ho Hd. unfold tag in Hd. apply rbind_Ok_inv in Hd as ([v q] & Hd & [= <- <-]).
    apply H in Hd as (pre & d & post & ? & ? & ? & ? & ?); [| done..].
    exists pre, d, post. rewrite Hf. done.
  - intros b o Hb Ho. unfold tag. apply raises_only_bind; [by apply H |].
    intros [v q] _. auto with pyraise.
Qed.

Lemma spec_codec t : decodes (spec_decode t) (spec_encode t).
Proof.
  destruct t; simpl.
  - apply (tag_decodes _ _ _ _ byte_decodes); [done |]. intros [] d; try done; eauto.
  - apply (tag_decodes _ _ _ _ u16_decodes).
    + intros v d. simpl. unfold pack_u16. by case_if.
    + intros [] d; try done; eauto.
  - apply (tag_decodes _ _ _ _ u32_decodes).
    + intros v d. simpl. unfold pack_u32. by case_if.
    + intros [] d; try done; eauto.
  - apply (tag_decodes _ _ _ _ vbi_decodes).
    + intros v d. simpl. rewrite encode_vbi_digits. unfold MAX_VBI. by destruct (_ && _).
    + intros [] d; try done; eauto.
  - apply (tag_decodes _ _ _ _ utf8_decodes); [done |]. intros [] d; try done; eauto.
  - apply (tag_decodes _ _ _ _ pair_decodes); [by intros [] |].
    intros [| | | |[|a [|b []]]] d H; try done. simpl in H. res_inv.
    apply pack_utf8_inv in Hv as (? & (? & -> & _)%encode_utf8_inv & _).
    apply pack_utf8_inv in Hv0 as (? & (? & -> & _)%encode_utf8_inv & _). by eexists (_, _).
  - apply (tag_decodes _ _ _ _ binary_decodes).
    + intros v d. simpl. unfold pack_binary. case_if; [done |]. unfold pack_u16. by case_if.
    + intros [] d; try done; eauto.
Qed.

(** ** The specification table *)

Definition spec_ok (s : PropertySpec) : Prop :=
  BY_ID (p_id s) = Some s ∧ BY_NAME (p_name s) = Some s ∧ 0 < p_id s < 256 ∧
  (p_type s = STRING_PAIR → p_multiple s = true ∧ p_subscribe_singleton s = false) ∧
  (p_name s = "user_property"%string → p_type s = STRING_PAIR).

Lemma SPECS_ok : Forall spec_ok SPECS.
Proof. repeat (constructor; [split_and!; done || lia |]). constructor. Qed.

Lemma BY_ID_spec id s : BY_ID id = Some s → spec_ok s ∧ p_id s = id.
Proof.
  intros [Hin He]%find_some. apply Z.eqb_eq in He. split; [| done].
  pose proof SPECS_ok as H. rewrite Forall_forall in H. apply H. by apply list_elem_of_In.
Qed.

Lemma BY_NAME_spec n s : BY_NAME n = Some s → spec_ok s ∧ p_name s = n.
Proof.
  intros [Hin He]%find_some. apply bool_decide_eq_true in He. split; [| done].
  pose proof SPECS_ok as H. rewrite Forall_forall in H. apply H. by apply list_elem_of_In.
Qed.

(** Whether a decoded property accumulates its values in a list. *)
Definition repeats (s : PropertySpec) (packet : pctx) : bool :=
  p_multiple s && negb (p_subscribe_singleton s && bool_decide (packet = cSUBSCRIBE)).

Lemma check_item_Ok s e e' v : check_item s e v = Ok tt → check_item s e' v = Ok tt.
Proof.
  unfold check_item. case_if; [done |]. case_if; [done |]. case_if; [| done].
  unfold _validate_response_topic. destruct v; try done. case_if; [done |]. by case_if.
Qed.

Lemma check_item_raises s e v : raises_only (λ e', e' = e) (check_item s e v).
Proof.
  unfold check_item, _validate_response_topic.
  repeat case_if; auto with pyraise. destruct v; auto with pyraise. repeat case_if; auto with pyraise.
Qed.

Lemma encode_item_Ok s v d :
  check_item s MalformedPacketError v = Ok tt → spec_encode (p_type s) v = Ok d →
  encode_item s v = Ok (p_id s :: d).
Proof. intros Hc Hd. unfold encode_item. rewrite (check_item_Ok _ _ ProtocolError _ Hc). simpl. by rewrite Hd. Qed.

Lemma encode_item_inv s v b :
  encode_item s v = Ok b →
  ∃ d, b = p_id s :: d ∧ check_item s MalformedPacketError v = Ok tt ∧ spec_encode (p_type s) v = Ok d.
Proof.
  unfold encode_item. intros H. apply rbind_Ok_inv in H as ([] & Hc & H). res_inv.
  eexists; split_and!; try done. by eapply check_item_Ok.
Qed.

Lemma encode_items_app s l k :
  encode_items s (l ++ k) =
    let! x := encode_items s l in let! y := encode_items s k in Ok (x ++ y).
Proof.
  induction l as [|v l IH]; simpl.
  - by destruct (encode_items s k).
  - rewrite IH. destruct (encode_item s v); simpl; [| done].
    destruct (encode_items s l); simpl; [| done].
    destruct (encode_items s k); simpl; [by rewrite app_assoc | done].
Qed.

Lemma encode_body_app c p q :
  encode_body c (p ++ q) = let! x := encode_body c p in let! y := encode_body c q in Ok (x ++ y).
Proof.
  induction p as [|[n v] p IH]; simpl.
  - by destruct (encode_body c q).
  - rewrite IH. destruct (encode_entry c n v); simpl; [| done].
    destruct (encode_body c p); simpl; [| done].
    destruct (encode_body c q); simpl; [by rewrite app_assoc | done].
Qed.

(** Replacing the value of a present name changes the size by its entry's. *)
Lemma encode_body_replace c ps k v v' body d d' :
  encode_body c ps = Ok body → dget k ps = Some v →
  encode_entry c k v = Ok d → encode_entry c k v' = Ok d' →
  ∃ body', encode_body c (dset k v' ps) = Ok body' ∧ len body' + len d = len body + len d'.
Proof.
  revert body. induction ps as [|[k1 v1] ps IH]; intros body Hb Hg Hd Hd'; simpl in *; [done |].
  res_inv. destruct (decide (k = k1)) as [->|].
  - simplify_eq. rewrite Hd in Hv. simplify_eq. simpl. rewrite Hd', Hv0. simpl. eexists; split; [done |]. rewrite !len_app. lia.
  - destruct (IH _ Hv0 Hg Hd Hd') as (b' & Hb' & Hl). simpl. rewrite Hv, Hb'. simpl.
    eexists; split; [done |]. rewrite !len_app. lia.
Qed.

Definition is_tuple (v : pyval) : bool := match v with VTuple _ => true | _ => false end.

Lemma encode_entry_single s c v d :
  spec_ok s → c ∈ p_packets s → repeats s c = false → is_tuple v = false →
  encode_item s v = Ok d → encode_entry c (p_name s) v = Ok d.
Proof.
  intros (_ & Hn & _) Hc Hr Ht Hd. unfold encode_entry. rewrite Hn.
  rewrite bool_decide_true by done. simpl.
  assert (entry_values s c v = Ok [v]) as ->.
  { unfold entry_values, repeats in *. destruct (p_multiple s); simpl in Hr.
    - apply negb_false_iff in Hr. rewrite Hr. by destruct v.
    - by destruct v. }
  simpl. rewrite Hd. simpl. by rewrite app_nil_r.
Qed.

Lemma encode_entry_list s c l :
  spec_ok s → c ∈ p_packets s → repeats s c = true →
  encode_entry c (p_name s) (VTuple l) = encode_items s l.
Proof.
  intros (_ & Hn & _) Hc Hr. unfold encode_entry. rewrite Hn, bool_decide_true by done. simpl.
  unfold entry_values, repeats in *. destruct (p_multiple s); [| done]. simpl in Hr.
  apply negb_true_iff in Hr. by rewrite Hr.
Qed.

(** ** What decoding establishes *)

(** A decoded mapping: distinct names, each entry valid for the packet and in
    the shape the decoder gives it; repeated properties hold tuples. *)
Definition entry_shape (c : pctx) (e : string * pyval) : Prop :=
  ∃ s, spec_ok s ∧ p_name s = e.1 ∧ c ∈ p_packets s ∧
    if repeats s c then ∃ l d, e.2 = VTuple l ∧ encode_items s l = Ok d
    else is_tuple e.2 = false.

Lemma spec_value_not_tuple s c v d :
  spec_ok s → repeats s c = false → spec_encode (p_type s) v = Ok d → is_tuple v = false.
Proof.
  intros (_ & _ & _ & Hp & _) Hr Hd. destruct v as [| | | |l]; try done.
  destruct (p_type s) eqn:Ht; try done.
  destruct Hp as [Hm Hs]; [done |]. unfold repeats in Hr. by rewrite Hm, Hs in Hr.
Qed.

Lemma add_seen_spec s c seen v seen' body d :
  spec_ok s → c ∈ p_packets s → NoDup (dkeys seen) → Forall (entry_shape c) seen →
  encode_body c seen = Ok body → encode_item s v = Ok d →
  add_seen s c seen v = Ok seen' →
  NoDup (dkeys seen') ∧ Forall (entry_shape c) seen' ∧ seen' ≠ [] ∧
  ∃ body', encode_body c seen' = Ok body' ∧ len body' = len body + len d.
Proof.
  intros Hs Hc Hnd Hsh Hb Hd Ha.
  assert (Hnew : ∀ w dw, dmem (p_name s) seen = false → encode_entry c (p_name s) w = Ok dw →
    entry_shape c (p_name s, w) → len dw = len d → seen' = dset (p_name s) w seen →
    NoDup (dkeys seen') ∧ Forall (entry_shape c) seen' ∧ seen' ≠ [] ∧
    ∃ body', encode_body c seen' = Ok body' ∧ len body' = len body + len d).
  { intros w dw Hm Hw Hsw Hl ->.
    assert (p_name s ∉ dkeys seen) as Hni by (intros ?%dmem_spec; congruence).
    split; [by apply NoDup_dset |]. rewrite dset_new by done. split; [| split].
    - apply Forall_app; split; [done | by constructor].
    - by destruct seen.
    - rewrite encode_body_app, Hb. simpl. rewrite Hw. simpl. eexists; split; [done |].
      rewrite app_nil_r, len_app. lia. }
  assert (Hscalar : repeats s c = false → dmem (p_name s) seen = false →
    seen' = dset (p_name s) v seen →
    NoDup (dkeys seen') ∧ Forall (entry_shape c) seen' ∧ seen' ≠ [] ∧
    ∃ body', encode_body c seen' = Ok body' ∧ len body' = len body + len d).
  { intros Hr Hm ->. pose proof Hd as (d0 & -> & _ & He)%encode_item_inv.
    pose proof (spec_value_not_tuple _ _ _ _ Hs Hr He) as Ht.
    apply (Hnew v (p_id s :: d0)); try done.
    - by apply encode_entry_single.
    - exists s. rewrite Hr. done. }
  unfold add_seen in Ha. destruct (p_multiple s) eqn:Hm.
  2: { res_inv. apply Hscalar; try done. unfold repeats. by rewrite Hm. }
  destruct (_ && _) eqn:Hss.
  { res_inv. apply Hscalar; try done. unfold repeats. by rewrite Hm, Hss. }
  assert (Hr : repeats s c = true) by (unfold repeats; by rewrite Hm, Hss).
  destruct (dget (p_name s) seen) as [[| | | |l]|] eqn:Hg; try done; simplify_eq.
  - pose proof Hg as Hin%dget_Some_elem. rewrite Forall_forall in Hsh.
    destruct (Hsh _ Hin) as (s' & Hs' & Hn & Hc' & Hsh'). simpl in Hn.
    assert (s' = s) as -> by (destruct Hs as (_ & ? & _), Hs' as (_ & ? & _); congruence).
    rewrite Hr in Hsh'. destruct Hsh' as (l' & dl & [= <-] & Hl).
    assert (Hl' : encode_items s (l ++ [v]) = Ok (dl ++ d)).
    { rewrite encode_items_app, Hl. simpl. rewrite Hd. simpl. by rewrite app_nil_r. }
    destruct (encode_body_replace c seen (p_name s) (VTuple l) (VTuple (l ++ [v])) body dl (dl ++ d))
      as (body' & Hb' & Hlen); try done.
    { by rewrite encode_entry_list. }
    { by rewrite encode_entry_list. }
    split_and!.
    + by apply NoDup_dset.
    + apply Forall_forall. intros [k w] Hk.
      apply dget_elem_NoDup in Hk; [| by apply NoDup_dset]. rewrite dget_dset in Hk. case_decide.
      * simplify_eq. exists s. rewrite Hr. split_and!; eauto.
      * apply Hsh. by apply dget_Some_elem.
    + apply dset_not_nil.
    + exists body'. split; [done |]. rewrite len_app in Hlen. lia.
  - apply (Hnew (VTuple [v]) d); try done.
    + unfold dmem. by rewrite Hg.
    + rewrite encode_entry_list by done. simpl. rewrite Hd. simpl. by rewrite app_nil_r.
    + exists s. rewrite Hr. split_and!; try done. exists [v]. simpl. rewrite Hd. simpl. eauto.
Qed.

(** The loop invariant: [seen] is a decoded mapping whose encoding has [n] bytes. *)
Definition seen_inv (c : pctx) (seen : propmap) (n : Z) : Prop :=
  NoDup (dkeys seen) ∧ Forall (entry_shape c) seen ∧ ∃ body, encode_body c seen = Ok body ∧ len body = n.

(** One round of the loop, from the identifier byte to the updated mapping. *)
Lemma decode_round c buf pos s v p seen seen' n :
  bytes_ok buf → 0 ≤ pos → spec_ok s → c ∈ p_packets s →
  spec_decode (p_type s) buf (pos + 1) = Ok (v, p) →
  check_item s MalformedPacketError v = Ok tt → seen_inv c seen n →
  add_seen s c seen v = Ok seen' →
  seen_inv c seen' (n + (p - pos)) ∧ pos + 1 < p ∧ seen' ≠ [].
Proof.
  intros Hb Hp Hs Hc Hd Hck (Hnd & Hsh & body & Hbd & Hn) Ha.
  apply (dec_sound _ _ (spec_codec _)) in Hd as (pre & d & post & -> & Hpre & Hd & -> & Hpos); [| done | lia].
  destruct (add_seen_spec s c seen v seen' body (p_id s :: d)) as (? & ? & ? & body' & ? & Hl); try done.
  { by apply encode_item_Ok. }
  rewrite len_cons in Hl. split_and!; [split_and!; try done; exists body'; split; [done | lia] | lia | done].
Qed.

Lemma decode_loop_spec fuel : ∀ buf c end_ pos seen rep seen' p n,
  bytes_ok buf → 0 ≤ pos → seen_inv c seen n →
  decode_loop fuel buf c end_ pos seen rep = Ok (seen', p) →
  seen_inv c seen' (n + (p - pos)) ∧ pos ≤ p ∧ (pos < end_ → seen' ≠ []).
Proof.
  assert (Hbase : ∀ c (seen : propmap) n pos end_, seen_inv c seen n → (pos <? end_) = false →
    seen_inv c seen (n + (pos - pos)) ∧ pos ≤ pos ∧ (pos < end_ → seen ≠ [])).
  { intros c seen n pos end_ Hi E. bools. rewrite Z.sub_diag, Z.add_0_r. split_and!; [done | lia | lia]. }
  induction fuel as [|fuel IH]; intros buf c end_ pos seen rep seen' p n Hb Hp Hi H; simpl in H;
    (destruct (pos <? end_) eqn:E; [| res_inv; by apply Hbase]); [done |].
  apply rbind_Ok_inv in H as (id & Hid & H).
  destruct (BY_ID id) as [s|] eqn:Hs; [| done]. apply BY_ID_spec in Hs as [Hs _].
  destruct (negb _) eqn:Hc in H; [done |]. destruct (p_multiple s && _) eqn:Hm in H; [done |]. bools.
  apply rbind_Ok_inv in H as ([v q] & Hd & H). apply rbind_Ok_inv in H as ([] & Hck & H).
  apply rbind_Ok_inv in H as (seen1 & Ha & H).
  destruct (decode_round c buf pos s v q seen seen1 n) as (Hi1 & Hq & Hne1); try done.
  assert (Hq0 : 0 ≤ q) by lia. assert (Hne' : seen' ≠ []).
  { destruct (q <? end_) eqn:E'; bools.
    - apply (IH _ _ _ _ _ _ _ _ _ Hb Hq0 Hi1) in H as (_ & _ & H). by apply H.
    - destruct fuel; simpl in H; rewrite (proj2 (Z.ltb_ge q end_)) in H by lia; by simplify_eq. }
  apply (IH _ _ _ _ _ _ _ _ _ Hb Hq0 Hi1) in H as (Hi' & Hle & _).
  replace (n + (p - pos)) with (n + (q - pos) + (p - q)) by lia. split_and!; [done | lia | done].
Qed.

(** No input makes the loop run out of fuel or reach the builtin errors. *)
Lemma decode_loop_raises fuel : ∀ buf c end_ pos seen rep n,
  bytes_ok buf → 0 ≤ pos → end_ ≤ len buf → end_ - pos ≤ Z.of_nat fuel → seen_inv c seen n →
  raises_only (λ e, e = MalformedPacketError ∨ e = ProtocolError)
    (decode_loop fuel buf c end_ pos seen rep).
Proof.
  induction fuel as [|fuel IH]; intros buf c end_ pos seen rep n Hb Hp Hl Hf Hi; simpl;
    (destruct (pos <? end_) eqn:E; [bools | auto with pyraise]); [lia |].
  destruct (idx_Ok buf pos) as (id & -> & _); [lia |]. cbn [rbind].
  destruct (BY_ID id) as [s|] eqn:Hs; [| auto with pyraise]. apply BY_ID_spec in Hs as [Hs _].
  generalize (if p_multiple s then rep + 1 else rep). intros rep'.
  case_if; [auto with pyraise |]. case_if; [auto with pyraise |]. bools.
  apply raises_only_bind.
  { eapply raises_only_weaken; [| apply (dec_raises _ _ (spec_codec _)); [done | lia]]. auto. }
  intros [v q] Hd. apply raises_only_bind.
  { eapply raises_only_weaken; [| apply check_item_raises]. auto. }
  intros [] Hck. apply raises_only_bind.
  { intros e He. destruct Hi as (Hnd & Hsh & _). unfold add_seen in He. case_ifs_in He; simplify_eq; auto.
    destruct (dget (p_name s) seen) as [w|] eqn:Hg; [| done].
    apply dget_Some_elem in Hg. rewrite Forall_forall in Hsh.
    destruct (Hsh _ Hg) as (s' & Hs' & Hn & _ & Hw). simpl in Hn, Hw.
    assert (s' = s) as -> by (destruct Hs as (_ & ? & _), Hs' as (_ & ? & _); congruence).
    assert (repeats s c = true) as Hr by (unfold repeats; repeat match goal with H : _ = _ |- _ => rewrite H end; done).
    rewrite Hr in Hw. destruct Hw as (l & d & -> & _). done. }
  intros seen1 Ha. destruct (decode_round c buf pos s v q seen seen1 n) as (Hi1 & Hq & _); try done.
  eapply IH; try done; lia.
Qed.

Lemma seen_inv_nil c : seen_inv c [] 0.
Proof. split_and!; [constructor | constructor | by exists []]. Qed.

(** Owning a decoded mapping changes nothing: its repeated values are already
    tuples, and no decoded [user_property] has the shorthand shape. *)
Lemma own_value_shape c n v : entry_shape c (n, v) → own_value n v = v.
Proof.
  intros (s & (_ & _ & _ & _ & Hu) & Hn & _ & Hs). simpl in Hn, Hs. destruct v as [| | | |[|[] [|[] []]]]; try done.
  simpl. case_bool_decide; [| done]. subst n.
  destruct (repeats s c); [| done]. destruct Hs as (l & d & [= <-] & Hd). simpl in Hd. res_inv.
  apply encode_item_inv in Hv as (? & _ & _ & He). by rewrite Hu in He by done.
Qed.

Lemma Properties_init_id c ps : Forall (entry_shape c) ps → Properties_init ps = ps.
Proof.
  unfold Properties_init. induction 1 as [|[n v] ps Hs Hps IH]; [done |].
  simpl. f_equal; [| exact IH]. f_equal. by eapply own_value_shape.
Qed.

(** Shared analysis of a successful [decode_properties]. *)
Lemma decode_properties_inv b o c ps p :
  bytes_ok b → 0 ≤ o → decode_properties b o c = Ok (ps, p) →
  NoDup (dkeys ps) ∧ Forall (entry_shape c) ps ∧ o < p ≤ len b ∧
  ∃ d, encode_properties (Some ps) c = Ok d ∧ len d = p - o.
Proof.
  intros Hb Ho H. unfold decode_properties in H. rewrite Z.geb_leb in H.
  destruct (len b <=? o) eqn:E; [done |]. bools. apply rbind_Ok_inv in H as (f & Hf & H).
  destruct (f =? 0) eqn:E0; bools.
  { simplify_eq. split_and!; [constructor | constructor | lia | lia |]. exists [0]. split; [done |].
    change (len [0]) with 1. lia. }
  apply rbind_Ok_inv in H as ([n q] & Hn & H). rewrite Z.gtb_ltb in H.
  destruct (len b <? q + n) eqn:E1; [done |]. bools.
  apply rbind_Ok_inv in H as ([seen r] & Hl & H). res_inv. bools. subst.
  apply decode_vbi_sound in Hn as (pre & dn & post & -> & <- & He & -> & Hq & Hr); [| done | done | simpl; lia].
  assert (Hn0 : n ≠ 0).
  { intros ->. vm_compute in He. simplify_eq. rewrite <- app_comm_cons, idx_mid in Hf. by simplify_eq. }
  apply (decode_loop_spec _ _ _ _ _ _ _ _ _ 0) in Hl as ((Hnd & Hsh & body & Hbd & Hlen) & _ & Hne);
    [| done | lia | apply seen_inv_nil].
  rewrite (Properties_init_id c) by done. split_and!; [done | done | lia | lia |].
  destruct seen as [|e seen]; [exfalso; apply Hne; [lia | done] |].
  exists (dn ++ body). simpl. unfold _encode_properties_uncached. rewrite Hbd. cbn [rbind].
  replace (len body) with n by lia. rewrite He. cbn [rbind]. split; [done |]. len_lia.
Qed.

(** A property table accepted from the wire is valid for its packet and
    keeps its exact size.  Whatever bytes the peer sends, if
    [decode_properties] returns a table then its names are distinct, every
    entry is one [encode_properties] accepts for that packet kind, and
    re-encoding the table takes exactly the bytes that were consumed: the
    decode-time size the sessions charge to their byte budgets is the size the
    encoder would measure. *)
Theorem decode_properties_sound b o c ps p :
  bytes_ok b → 0 ≤ o → decode_properties b o c = Ok (ps, p) →
  NoDup (dkeys ps) ∧ o < p ≤ len b ∧
  ∃ d, encode_properties (Some ps) c = Ok d ∧ len d = p - o.
Proof. intros Hb Ho H. apply decode_properties_inv in H as (? & _ & ? & ?); done. Qed.

Lemma decode_properties_sound_witness :
  let b := [9; 14; 0x26; 0; 1; 97; 0; 1; 98; 0x0B; 5; 0x0B; 6; 0x23; 0; 7] in
  ∃ ps, decode_properties b 1 cPUBLISH = Ok (ps, 16) ∧
    ∃ d, encode_properties (Some ps) cPUBLISH = Ok d ∧ len d = 16 - 1.
Proof.
  intros b. eexists. split; [vm_compute; reflexivity |].
  eapply (decode_properties_sound b 1 cPUBLISH _ 16); [repeat constructor; done | done | vm_compute; reflexivity].
Defined.

(** Malformed tables and over-budget tables are the only failures. *)
Lemma decode_properties_raises b o c :
  bytes_ok b → 0 ≤ o →
  raises_only (λ e, e = MalformedPacketError ∨ e = ProtocolError) (decode_properties b o c).
Proof.
  intros Hb Ho. unfold decode_properties. rewrite Z.geb_leb.
  case_if; [auto with pyraise |]. bools. destruct (idx_Ok b o) as (f & -> & _); [lia |]. cbn [rbind].
  case_if; [auto with pyraise |]. apply raises_only_bind.
  { eapply raises_only_weaken; [| apply decode_vbi_raises; simpl; done || lia]. auto. }
  intros [n q] Hn. rewrite Z.gtb_ltb. case_if; [auto with pyraise |]. bools.
  apply decode_vbi_sound in Hn as (? & ? & ? & _ & _ & _ & _ & Hq & Hr); [| done | done | simpl; lia].
  apply raises_only_bind.
  { eapply decode_loop_raises; try done; try lia. apply seen_inv_nil. }
  intros [seen r] _. case_if; auto with pyraise.
Qed.

(** ** Round trip *)

(** The wire items of a mapping, in encoding order. *)
Fixpoint wire_items (c : pctx) (ps : propmap) : list (PropertySpec * pyval) :=
  match ps with
  | [] => []
  | (n, v) :: ps =>
      match BY_NAME n with
      | Some s => match entry_values s c v with Ok l => pair s <$> l | Raise _ => [] end
      | None => []
      end ++ wire_items c ps
  end.

(** How many values count against the repeat budget of the decoder. *)
Definition repeat_count (c : pctx) (ps : propmap) : Z :=
  len (filter (λ i, p_multiple (i.1) = true) (wire_items c ps)).

(** The form in which the decoder returns a mapping: repeatable properties as
    tuples, the SUBSCRIBE identifier as a scalar, empty entries absent. *)
Definition normal_entry (c : pctx) (e : string * pyval) : propmap :=
  match BY_NAME e.1 with
  | Some s =>
      match entry_values s c e.2 with
      | Ok [] | Raise _ => []
      | Ok l => if repeats s c then [(e.1, VTuple l)]
                else match l with [v] => [(e.1, v)] | _ => [] end
      end
  | None => []
  end.
Definition normalise (c : pctx) (ps : propmap) : propmap := ps ≫= normal_entry c.

Fixpoint items_bytes (its : list (PropertySpec * pyval)) : res bytes :=
  match its with
  | [] => Ok []
  | (s, v) :: its =>
      let! d := encode_item s v in
      let! rest := items_bytes its in
      Ok (d ++ rest)
  end.

Fixpoint add_all (c : pctx) (seen : propmap) (its : list (PropertySpec * pyval)) : res propmap :=
  match its with
  | [] => Ok seen
  | (s, v) :: its => let! seen := add_seen s c seen v in add_all c seen its
  end.

Lemma items_bytes_spec s l : items_bytes (pair s <$> l) = encode_items s l.
Proof. induction l as [|v l IH]; [done |]. simpl. by rewrite <- IH. Qed.

Lemma items_bytes_app i j :
  items_bytes (i ++ j) = let! x := items_bytes i in let! y := items_bytes j in Ok (x ++ y).
Proof.
  induction i as [|[s v] i IH]; simpl.
  - by destruct (items_bytes j).
  - rewrite IH. destruct (encode_item s v); simpl; [| done]. destruct (items_bytes i); simpl; [| done].
    destruct (items_bytes j); simpl; [by rewrite app_assoc | done].
Qed.

Lemma add_all_app c i j : ∀ seen, add_all c seen (i ++ j) = let! s := add_all c seen i in add_all c s j.
Proof. induction i as [|[s v] i IH]; intros seen; simpl; [done |]. destruct (add_seen s c seen v); simpl; auto. Qed.

(** An encoded mapping is the concatenation of its allowed wire items. *)
Lemma encode_body_items c ps body :
  encode_body c ps = Ok body →
  items_bytes (wire_items c ps) = Ok body ∧
  Forall (λ i, spec_ok (i.1) ∧ c ∈ p_packets (i.1)) (wire_items c ps).
Proof.
  revert body. induction ps as [|[n v] ps IH]; intros body H; simpl in H; [by simplify_eq |].
  apply rbind_Ok_inv in H as (d & Hd & H). apply rbind_Ok_inv in H as (rest & Hr & [= <-]).
  apply IH in Hr as [Hr1 Hr2]. simpl. unfold encode_entry in Hd.
  destruct (BY_NAME n) as [s|] eqn:Hn; [| done]. apply BY_NAME_spec in Hn as [Hs <-].
  apply rbind_Ok_inv in Hd || (destruct (negb _) eqn:Hc in Hd; [done |]).
  apply rbind_Ok_inv in Hd as (l & Hl & Hd). rewrite Hl. bools. split.
  - rewrite items_bytes_app, items_bytes_spec, Hd. simpl. by rewrite Hr1.
  - apply Forall_app; split; [| done]. apply Forall_fmap, Forall_true. intros w. by simpl.
Qed.

Lemma app_take_len {A} (p q p' q' : list A) : p ++ q = p' ++ q' → len p = len p' → p = p'.
Proof. intros H Hl. apply app_inj_1 in H as [? _]; [done | unfold len in *; lia]. Qed.

(** Decoding a run of wire items performs their additions in order. *)
Lemma decode_loop_items c its : ∀ fuel pre post body seen seen' rep,
  Forall (λ i, spec_ok (i.1) ∧ c ∈ p_packets (i.1)) its → items_bytes its = Ok body →
  rep + len (filter (λ i, p_multiple (i.1) = true) its) ≤ MAX_REPEATABLE_PROPERTIES →
  add_all c seen its = Ok seen' → len body ≤ Z.of_nat fuel →
  decode_loop fuel (pre ++ body ++ post) c (len pre + len body) (len pre) seen rep =
    Ok (seen', len pre + len body).
Proof.
  induction its as [|[s v] its IH]; intros fuel pre post body seen seen' rep Hits Hbytes Hrep Hadd Hfuel.
  - simpl in *. simplify_eq. change (len []) with 0. rewrite Z.add_0_r.
    destruct fuel; simpl; by rewrite Z.ltb_irrefl.
  - simpl in Hbytes. apply rbind_Ok_inv in Hbytes as (d & Hd & Hb). apply rbind_Ok_inv in Hb as (rest & Hr & [= <-]).
    inversion Hits as [|?? [Hs Hc] Hits']; subst. simpl in Hs, Hc.
    apply encode_item_inv in Hd as (e & -> & Hck & He).
    simpl in Hadd. apply rbind_Ok_inv in Hadd as (seen1 & Ha & Hadd).
    destruct fuel as [|fuel]; [exfalso; len_lia |].
    simpl. rewrite (proj2 (Z.ltb_lt _ _)) by len_lia.
    rewrite <- app_assoc. simpl. rewrite idx_mid. cbn [rbind].
    pose proof Hs as (-> & _). rewrite bool_decide_true by done. simpl negb. cbn match.
    destruct (p_multiple s && _) eqn:Hm.
    { exfalso. bools. rewrite H in H0. rewrite Z.gtb_ltb in H0. bools.
      rewrite filter_cons_True in Hrep by done. len_lia. }
    clear Hm. rewrite filter_cons in Hrep. simpl in Hrep.
    assert (Hdec : spec_decode (p_type s) (pre ++ p_id s :: e ++ rest ++ post) (len pre + 1) =
              Ok (v, len pre + 1 + len e)).
    { pose proof (dec_complete _ _ (spec_codec (p_type s)) v e (pre ++ [p_id s]) (rest ++ post) He) as Hx.
      rewrite len_app, <- !app_assoc in Hx. exact Hx. }
    rewrite Hdec. cbn [rbind]. rewrite Hck. cbn [rbind]. rewrite Ha. cbn [rbind].
    specialize (IH fuel (pre ++ p_id s :: e) post rest seen1 seen'
                  (if p_multiple s then rep + 1 else rep) Hits' Hr).
    rewrite <- app_assoc in IH. simpl in IH.
    replace (len (pre ++ p_id s :: e)) with (len pre + 1 + len e) in IH by len_lia.
    replace (len pre + len (p_id s :: e ++ rest)) with (len pre + 1 + len e + len rest) by len_lia.
    apply IH; [| done | len_lia].
    destruct (p_multiple s); case_decide; try done; len_lia.
Qed.

Lemma dset_snoc (k : string) (v w : pyval) (d : propmap) :
  k ∉ dkeys d → dset k w (d ++ [(k, v)]) = d ++ [(k, w)].
Proof.
  unfold dkeys. induction d as [|[k1 v1] d IH]; simpl; [by rewrite decide_True |].
  rewrite not_elem_of_cons. intros [??]. rewrite decide_False by done. f_equal. by apply IH.
Qed.

Lemma dget_snoc (k : string) (v : pyval) (d : propmap) : k ∉ dkeys d → dget k (d ++ [(k, v)]) = Some v.
Proof. intros. rewrite <- dset_new by done. apply dget_dset_eq. Qed.

Lemma add_seen_repeat s c seen v :
  repeats s c = true →
  add_seen s c seen v =
    match dget (p_name s) seen with
    | Some (VTuple l) => Ok (dset (p_name s) (VTuple (l ++ [v])) seen)
    | Some _ => Raise TypeError
    | None => Ok (dset (p_name s) (VTuple [v]) seen)
    end.
Proof.
  unfold repeats, add_seen. destruct (p_multiple s); [| done]. simpl. intros ->%negb_true_iff. done.
Qed.

Lemma add_all_repeat s c l : ∀ acc l0,
  repeats s c = true → p_name s ∉ dkeys acc →
  add_all c (acc ++ [(p_name s, VTuple l0)]) (pair s <$> l) = Ok (acc ++ [(p_name s, VTuple (l0 ++ l))]).
Proof.
  induction l as [|v l IH]; intros acc l0 Hr Hn; simpl; [by rewrite app_nil_r |].
  rewrite add_seen_repeat, dget_snoc by done. cbn [rbind]. rewrite dset_snoc by done.
  rewrite IH by done. by rewrite <- app_assoc.
Qed.

Lemma add_seen_once s c acc v :
  repeats s c = false → p_name s ∉ dkeys acc → add_seen s c acc v = Ok (acc ++ [(p_name s, v)]).
Proof.
  intros Hr Hn. assert (Hm : dmem (p_name s) acc = false).
  { destruct (dmem (p_name s) acc) eqn:E; [apply dmem_spec in E |]; done. }
  unfold repeats, add_seen in *. rewrite Hm, dset_new by done.
  destruct (p_multiple s); [| done]. simpl in Hr. apply negb_false_iff in Hr. by rewrite Hr.
Qed.

Lemma entry_values_once s c v l :
  repeats s c = false → entry_values s c v = Ok l → ∃ w, l = [w].
Proof.
  unfold repeats, entry_values. destruct (p_multiple s); simpl; intros Hr H.
  - apply negb_false_iff in Hr. rewrite Hr in H. destruct v; simplify_eq; eauto.
    res_inv. bools. destruct l as [|w [|]]; eauto; unfold len in *; simpl in *; lia.
  - destruct v; simplify_eq; eauto.
Qed.

Lemma dkeys_app {V} (d e : list (string * V)) : dkeys (d ++ e) = dkeys d ++ dkeys e.
Proof. unfold dkeys. by rewrite fmap_app. Qed.

(** Adding the items of one entry appends its normal form. *)
Lemma add_entry_items c s v l acc :
  spec_ok s → p_name s ∉ dkeys acc → entry_values s c v = Ok l →
  add_all c acc (pair s <$> l) = Ok (acc ++ normal_entry c (p_name s, v)).
Proof.
  intros (_ & Hn & _) Hni Hl. unfold normal_entry. simpl. rewrite Hn, Hl.
  destruct (repeats s c) eqn:Hr.
  - destruct l as [|w l]; simpl; [by rewrite app_nil_r |].
    rewrite add_seen_repeat, (proj2 (dget_None _ _)) by done. cbn [rbind]. rewrite dset_new by done.
    by rewrite add_all_repeat.
  - destruct (entry_values_once _ _ _ _ Hr Hl) as [w ->]. simpl. by rewrite add_seen_once.
Qed.

Lemma normal_entry_keys c e k : k ∈ dkeys (normal_entry c e) → k = e.1.
Proof.
  unfold normal_entry. destruct (BY_NAME _); [| by intros ?%not_elem_of_nil].
  destruct (entry_values _ _ _) as [[|w l]|]; try by intros ?%not_elem_of_nil.
  destruct (repeats _ _); [by intros ?%list_elem_of_singleton |].
  destruct l; [by intros ?%list_elem_of_singleton | by intros ?%not_elem_of_nil].
Qed.

Lemma add_all_normalise c ps : ∀ acc body,
  NoDup (dkeys ps) → (∀ k, k ∈ dkeys acc → k ∉ dkeys ps) → encode_body c ps = Ok body →
  add_all c acc (wire_items c ps) = Ok (acc ++ normalise c ps).
Proof.
  induction ps as [|[n v] ps IH]; intros acc body Hnd Hdis Hb; simpl.
  { by rewrite app_nil_r. }
  simpl in Hb. apply rbind_Ok_inv in Hb as (d & Hd & Hb). apply rbind_Ok_inv in Hb as (rest & Hr & _).
  unfold dkeys in Hnd, Hdis. simpl in Hnd, Hdis. apply NoDup_cons in Hnd as [Hni Hnd].
  unfold encode_entry in Hd. destruct (BY_NAME n) as [s|] eqn:Hn; [| done].
  pose proof Hn as [Hs <-]%BY_NAME_spec. destruct (negb _) eqn:Hc in Hd; [done |].
  apply rbind_Ok_inv in Hd as (l & Hl & Hd). rewrite Hl, add_all_app.
  assert (p_name s ∉ dkeys acc) by (intros Hin; apply (Hdis _ Hin); left).
  rewrite (add_entry_items c s v l) by done. cbn [rbind].
  rewrite (IH _ rest); [by rewrite <- app_assoc | done | | done].
  intros k. rewrite dkeys_app. intros [Hin|Hin]%elem_of_app.
  - intros ?. apply (Hdis _ Hin). by right.
  - apply normal_entry_keys in Hin as ->. done.
Qed.

(** The normal form is already owned. *)
Lemma Properties_init_normalise c ps body :
  encode_body c ps = Ok body → Properties_init (normalise c ps) = normalise c ps.
Proof.
  intros Hb. apply (Properties_init_id c). apply Forall_bind, Forall_forall. intros [n v] Hin.
  assert (∃ d, encode_entry c n v = Ok d) as [d Hd].
  { clear - Hb Hin. revert body Hb. induction ps as [|[n' v'] ps IH]; intros body Hb; [by apply not_elem_of_nil in Hin |].
    simpl in Hb. apply rbind_Ok_inv in Hb as (d & Hd & Hb). apply rbind_Ok_inv in Hb as (rest & Hr & _).
    apply elem_of_cons in Hin as [[= <- <-]|Hin]; eauto. }
  unfold encode_entry in Hd. unfold normal_entry. simpl. destruct (BY_NAME n) as [s|] eqn:Hn; [| done].
  pose proof Hn as [Hs <-]%BY_NAME_spec. destruct (negb _) eqn:Hc in Hd; [done |]. bools.
  apply rbind_Ok_inv in Hd as (l & Hl & Hd). rewrite Hl.
  destruct (repeats s c) eqn:Hr.
  - destruct l; [constructor |]. constructor; [| constructor]. exists s. rewrite Hr. simpl. split_and!; eauto.
  - destruct (entry_values_once _ _ _ _ Hr Hl) as [w ->]. constructor; [| constructor].
    simpl in Hd. res_inv. apply encode_item_inv in Hv as (? & _ & _ & He).
    exists s. rewrite Hr. split_and!; try done. by eapply spec_value_not_tuple.
Qed.

Lemma encode_vbi_pos n d : encode_vbi n = Ok d → n ≠ 0 → ∃ x r, d = x :: r ∧ x ≠ 0.
Proof.
  rewrite encode_vbi_digits. destruct (_ && _) eqn:E; [bools; intros [= <-] Hn | done].
  destruct (vbi_digits_4 n) as (Hs & Hv & _); [lia |].
  destruct (vbi_digits 4 n) as [|x r] eqn:Hd; [inversion Hs |]. eexists _, _; split; [done |].
  intros ->. inversion Hs; subst; [by apply Hn | lia | lia].
Qed.

(** Reading back an encoded table, in the decoder's normal form. *)
Lemma decode_encode_properties c ps d pre post :
  NoDup (dkeys ps) → repeat_count c ps ≤ MAX_REPEATABLE_PROPERTIES →
  encode_properties (Some ps) c = Ok d →
  decode_properties (pre ++ d ++ post) (len pre) c = Ok (normalise c ps, len pre + len d).
Proof.
  intros Hnd Hrep He.
  assert (∃ body n, encode_body c ps = Ok body ∧ encode_vbi (len body) = Ok n ∧ d = n ++ body)
    as (body & n & Hb & Hn & ->).
  { destruct ps as [|e ps]; [simpl in He; simplify_eq; by exists [], [0] |].
    simpl encode_properties in He. unfold _encode_properties_uncached in He. res_inv. eauto. }
  pose proof (dec_complete _ _ vbi_decodes (len body) n pre (body ++ post) Hn) as Hvbi. simpl in Hvbi.
  pose proof (add_all_normalise c ps [] body Hnd ltac:(intros k ?%not_elem_of_nil; done) Hb) as Hadd.
  apply encode_body_items in Hb as Hits. destruct Hits as [Hits Hall].
  unfold decode_properties. rewrite Z.geb_leb, <- app_assoc.
  destruct (decide (len body = 0)) as [H0|H0].
  - apply len_0_nil in H0 as ->. vm_compute in Hn. simplify_eq. simpl.
    rewrite (proj2 (Z.leb_gt _ _)) by len_lia. rewrite idx_mid. simpl.
    destruct (wire_items c ps) as [|[s v] its] eqn:Hw.
    + simpl in Hadd. injection Hadd as Hadd. by rewrite <- Hadd.
    + exfalso. simpl in Hits. res_inv. apply encode_item_inv in Hv as (? & -> & _). done.
  - destruct (encode_vbi_pos _ _ Hn H0) as (x & r & -> & Hx). simpl.
    rewrite (proj2 (Z.leb_gt _ _)) by len_lia. rewrite idx_mid. cbn [rbind].
    rewrite (proj2 (Z.eqb_neq x 0)) by done.
    simpl in Hvbi. rewrite Hvbi. cbn [rbind]. rewrite Z.gtb_ltb. rewrite (proj2 (Z.ltb_ge _ _)) by len_lia.
    pose proof (decode_loop_items c (wire_items c ps) (Z.to_nat (len body)) (pre ++ x :: r) post body [] _ 0
                  Hall Hits Hrep Hadd) as Hloop.
    rewrite <- app_assoc, len_app in Hloop. simpl in Hloop. rewrite Hloop by len_lia. cbn [rbind].
    rewrite Z.eqb_refl. simpl. rewrite (Properties_init_normalise c ps body) by done.
    tup. len_lia.
Qed.

(** C38: property tables round-trip.  A mapping that [encode_properties] accepts
    for a packet and that stays within the decoder's budget of 1024 repeatable
    values is read back, at any position of any buffer, as its normal form:
    the same entries in the same order, repeatable properties as tuples. *)
Theorem properties_roundtrip c ps d pre post :
  NoDup (dkeys ps) → repeat_count c ps ≤ MAX_REPEATABLE_PROPERTIES →
  encode_properties (Some ps) c = Ok d →
  decode_properties (pre ++ d ++ post) (len pre) c = Ok (normalise c ps, len pre + len d).
Proof. apply decode_encode_properties. Qed.

Definition sample_props : propmap :=
  [ ("content_type"%string, VStr [97; 98]);
    ("subscription_identifier"%string, VInt 300);
    ("user_property"%string, VTuple [VTuple [VStr [97]; VStr [98]]; VTuple [VStr [97]; VStr []]]);
    ("topic_alias"%string, VInt 7) ].

Lemma properties_roundtrip_witness :
  ∃ d, encode_properties (Some sample_props) cPUBLISH = Ok d ∧
    decode_properties ([1; 2] ++ d ++ [3]) 2 cPUBLISH = Ok (normalise cPUBLISH sample_props, 2 + len d).
Proof.
  eexists. split; [vm_compute; reflexivity |].
  apply (properties_roundtrip cPUBLISH sample_props _ [1; 2] [3]).
  - by apply (bool_decide_eq_true_1 (NoDup (dkeys sample_props))).
  - done.
  - vm_compute; reflexivity.
Defined.

(** ** The per-packet encode cache *)

(** [Properties]: the owned mapping and its lazily created cache. *)
Record Properties := { values : propmap; _encoded : option (list (pctx * bytes)) }.

Definition encode_properties_cached (props : Properties) (packet : pctx) : res bytes * Properties :=
  match values props with
  | [] => (Ok [0], props)
  | _ =>
      let cache := match _encoded props with None => [] | Some cache => cache end in
      match dget packet cache with
      | Some b => (Ok b, {| values := values props; _encoded := Some cache |})
      | None =>
          match _encode_properties_uncached (values props) packet with
          | Ok b => (Ok b, {| values := values props; _encoded := Some (dset packet b cache) |})
          | Raise e => (Raise e, {| values := values props; _encoded := Some cache |})
          end
      end
  end.

(** A cache is coherent when every entry is what the uncached encoder gives. *)
Definition coherent (props : Properties) : Prop :=
  ∀ cache c b, _encoded props = Some cache → dget c cache = Some b →
    _encode_properties_uncached (values props) c = Ok b.

(** Caching is invisible.  From a coherent cache (a fresh one is empty) the
    cached encoder answers exactly as the uncached one, errors included, and
    leaves the mapping unchanged and the cache coherent, so any sequence of
    encodings of one [Properties] value is that of the pure encoder. *)
Theorem encode_cache_coherent props c :
  coherent props →
  (encode_properties_cached props c).1 = encode_properties (Some (values props)) c ∧
  values (encode_properties_cached props c).2 = values props ∧
  coherent (encode_properties_cached props c).2.
Proof.
  intros Hc. unfold encode_properties_cached. destruct props as [vs enc]; simpl in *.
  destruct vs as [|e vs]; [done |]. cbn [encode_properties].
  set (cache := match enc with None => [] | Some cache => cache end).
  assert (Hcache : ∀ c b, dget c cache = Some b → _encode_properties_uncached (e :: vs) c = Ok b).
  { intros c' b. unfold cache. destruct enc as [l|]; [apply (Hc l); done | done]. }
  destruct (dget c cache) as [b|] eqn:Hg; simpl.
  - rewrite (Hcache c b) by done. split_and!; try done. intros l c' b' [= <-]. apply Hcache.
  - destruct (_encode_properties_uncached (e :: vs) c) as [b|ex] eqn:He; simpl; split_and!; try done;
      intros l c' b' [= <-]; [| apply Hcache].
    rewrite dget_dset. case_decide; [intros [= <-]; by subst | apply Hcache].
Qed.

Lemma encode_cache_coherent_witness :
  let props := {| values := sample_props; _encoded := None |} in
  (encode_properties_cached props cPUBLISH).1 = encode_properties (Some sample_props) cPUBLISH.
Proof. apply (encode_cache_coherent {| values := sample_props; _encoded := None |} cPUBLISH). by intros ? ? ?. Defined.
