(* ===== verification/Topics.v ===== *)
(** * Topic and filter validation ([src/mqttium/topics.py]) *)

From S2P Require Import Prelude PyStr Primitives.

Definition SLASH : Z := 47.
Definition PLUS : Z := 43.
Definition HASH : Z := 35.
Definition SHARE : pystr := lit "$share/".

Definition has_wildcard (s : pystr) : bool := chr_in PLUS s || chr_in HASH s.

(** [except ProtocolError as exc: raise ProtocolError(...)] keeps the class. *)
Definition _check_utf8_mqtt_topic (topic : pystr) : res Z :=
  rcatch (validate_utf8 (VStr topic)) (λ e, if is_protocol_error e then Raise ProtocolError else Raise e).

Definition validate_publish_topic (topic : pystr) (allow_empty : bool) : res Z :=
  match topic with
  | [] => if allow_empty then Ok 0 else Raise ProtocolError
  | _ =>
      let! size := _check_utf8_mqtt_topic topic in
      raise! ProtocolError when has_wildcard topic;
      Ok size
  end.

Definition encode_validated_publish_topic (topic : pystr) (allow_empty : bool) : res bytes :=
  raise! ProtocolError when bool_decide (topic = []) && negb allow_empty;
  let! encoded := rcatch (encode_utf8 (VStr topic))
                    (λ e, if is_protocol_error e then Raise ProtocolError else Raise e) in
  raise! ProtocolError when has_wildcard topic;
  Ok encoded.

Definition validate_received_publish_topic (topic : pystr) (utf8_validated : bool) : res unit :=
  match topic with
  | [] => Ok tt
  | _ =>
      let! _ := (if negb utf8_validated
                 then rcatch (_check_utf8_mqtt_topic topic)
                        (λ e, if is_protocol_error e then Raise MalformedPacketError else Raise e)
                 else Ok 0) in
      raise! MalformedPacketError when has_wildcard topic;
      Ok tt
  end.

(** The loop of [_validate_filter_levels]; [i] is the index of the first level. *)
Fixpoint filter_levels_loop (n i : Z) (levels : list pystr) : res unit :=
  match levels with
  | [] => Ok tt
  | level :: levels =>
      if bool_decide (level = [HASH]) then
        raise! ProtocolError when negb (i =? n - 1);
        filter_levels_loop n (i + 1) levels
      else
        raise! ProtocolError when chr_in HASH level;
        if bool_decide (level = [PLUS]) then filter_levels_loop n (i + 1) levels
        else
          raise! ProtocolError when chr_in PLUS level;
          filter_levels_loop n (i + 1) levels
  end.

Definition _validate_filter_levels (topic_filter : pystr) : res unit :=
  let levels := split_chr SLASH topic_filter in
  filter_levels_loop (len levels) 0 levels.

Definition validate_subscribe_filter (topic_filter : pystr) : res unit :=
  raise! ProtocolError when bool_decide (topic_filter = []);
  let! _ := _check_utf8_mqtt_topic topic_filter in
  if startswith topic_filter SHARE then
    let rest := slice topic_filter (len SHARE) (len topic_filter) in
    raise! ProtocolError when negb (chr_in SLASH rest);
    match split_max SLASH 1 rest with
    | [group; filter_] =>
        raise! ProtocolError when
          bool_decide (group = []) || existsb (λ c, chr_in c group) [SLASH; PLUS; HASH];
        raise! ProtocolError when bool_decide (filter_ = []);
        _validate_filter_levels filter_
    | _ => Raise ValueError
    end
  else _validate_filter_levels topic_filter.

(** ** The filter grammar of MQTT 4.7 *)

(** A level with no wildcard character. *)
Definition plain_level (w : pystr) : Prop := has_wildcard w = false.

(** Levels: plain or a lone ["+"] anywhere, a lone ["#"] in last position only. *)
Inductive filter_levels : list pystr → Prop :=
  | levels_last w : plain_level w ∨ w = [PLUS] ∨ w = [HASH] → filter_levels [w]
  | levels_more w ws : plain_level w ∨ w = [PLUS] → filter_levels ws → filter_levels (w :: ws).

(** A plain filter, or ["$share/<group>/<filter>"] with a wildcard-free,
    non-empty group and a non-empty filter. *)
Inductive filter_syntax : pystr → Prop :=
  | plain_filter ws :
      filter_levels ws → Forall (λ w, chr_in SLASH w = false) ws →
      startswith (join_chr SLASH ws) SHARE = false →
      filter_syntax (join_chr SLASH ws)
  | shared_filter group ws :
      group ≠ [] → chr_in SLASH group = false → plain_level group →
      filter_levels ws → Forall (λ w, chr_in SLASH w = false) ws → join_chr SLASH ws ≠ [] →
      filter_syntax (SHARE ++ group ++ SLASH :: join_chr SLASH ws).

Definition valid_filter (f : pystr) : Prop :=
  f ≠ [] ∧ is_ok (encode_utf8 (VStr f)) = true ∧ filter_syntax f.

Lemma check_topic_encode t :
  _check_utf8_mqtt_topic t = rbind (encode_utf8 (VStr t)) (λ d, Ok (len d)).
Proof.
  unfold _check_utf8_mqtt_topic. rewrite validate_utf8_encode.
  destruct (encode_utf8 (VStr t)) eqn:E; [done |].
  by apply (encode_utf8_raises (VStr t)) in E as ->.
Qed.

Lemma filter_levels_loop_iff n levels i :
  n = i + len levels → levels ≠ [] →
  filter_levels_loop n i levels = Ok tt ↔ filter_levels levels.
Proof.
  revert i. induction levels as [|w ws IH]; intros i Hn Hne; [done |]. clear Hne. cbn [filter_levels_loop].
  assert (Hstep : plain_level w ∨ w = [PLUS] → filter_levels_loop n (i + 1) ws = Ok tt ↔ filter_levels (w :: ws)).
  { intros Hw. destruct ws as [|w' ws].
    - split; [intros _; constructor; tauto | done].
    - rewrite IH by (len_lia || done). split; [intros; by constructor |].
      intros H. inversion H; subst; done. }
  unfold plain_level, has_wildcard in *.
  case_bool_decide as Hh; [| destruct (chr_in HASH w) eqn:Hc].
  - subst w. destruct ws as [|w' ws].
    + simpl. rewrite (proj2 (Z.eqb_eq i (n - 1))) by len_lia. simpl. split; [constructor; tauto | done].
    + rewrite (proj2 (Z.eqb_neq i (n - 1))) by len_lia. simpl. split; [done |].
      intros H. inversion H as [|? ? Hw]; subst. by destruct Hw as [Hw|Hw].
  - split; [done |]. intros H. exfalso.
    assert (∀ w, zin HASH w = true → zin PLUS w || zin HASH w = false ∨ w = [PLUS] → False) as Hno.
    { intros w0 Hz [H0| ->]; [| done]. apply orb_false_iff in H0 as [_ ?]. congruence. }
    inversion H as [? Hw | ? ? Hw]; subst; [destruct Hw as [Hw|[Hw|Hw]] | destruct Hw as [Hw|Hw]];
      eauto.
  - case_bool_decide as Hp; [apply Hstep; tauto |]. destruct (chr_in PLUS w) eqn:Hq; [| apply Hstep; tauto].
    split; [done |]. intros H. exfalso.
    inversion H as [? Hw | ? ? Hw]; subst; [destruct Hw as [Hw|[Hw|Hw]] | destruct Hw as [Hw|Hw]]; try done;
      unfold plain_level, has_wildcard in Hw; rewrite Hq in Hw; done.
Qed.

Lemma validate_filter_levels_iff f :
  _validate_filter_levels f = Ok tt ↔
  ∃ ws, f = join_chr SLASH ws ∧ filter_levels ws ∧ Forall (λ w, chr_in SLASH w = false) ws.
Proof.
  unfold _validate_filter_levels. destruct (split_chr_cons SLASH f) as (w & ws & Hw).
  rewrite filter_levels_loop_iff by (lia || by rewrite Hw). split.
  - intros H. exists (split_chr SLASH f). rewrite join_split_chr. split_and!; try done. apply split_chr_no_sep.
  - intros (ws' & -> & Hl & Hs). rewrite split_join_chr; [done | | done]. intros ->. inversion Hl.
Qed.

Lemma filter_levels_loop_raises n levels i :
  raises_only (λ e, e = ProtocolError) (filter_levels_loop n i levels).
Proof.
  revert i. induction levels as [|w ws IH]; intros i; cbn [filter_levels_loop]; auto with pyraise.
  repeat case_if; auto with pyraise.
Qed.

Lemma existsb_group group :
  existsb (λ c, chr_in c group) [SLASH; PLUS; HASH] = chr_in SLASH group || has_wildcard group.
Proof. cbn [existsb]. unfold has_wildcard. by rewrite orb_false_r. Qed.

Lemma split_at_slash g f g' f' :
  chr_in SLASH g = false → chr_in SLASH g' = false → g ++ SLASH :: f = g' ++ SLASH :: f' → g = g' ∧ f = f'.
Proof.
  intros Hg Hg' Heq. apply (f_equal (split_max SLASH 1)) in Heq.
  rewrite !split_max_S in Heq by done. by simplify_eq/=.
Qed.

(** The shared branch of the validator, against the shared form of the grammar. *)
Lemma validate_shared_iff rest :
  (raise! ProtocolError when negb (chr_in SLASH rest);
   match split_max SLASH 1 rest with
   | [group; filter_] =>
       raise! ProtocolError when
         bool_decide (group = []) || existsb (λ c, chr_in c group) [SLASH; PLUS; HASH];
       raise! ProtocolError when bool_decide (filter_ = []);
       _validate_filter_levels filter_
   | _ => Raise ValueError
   end) = Ok tt ↔ filter_syntax (SHARE ++ rest).
Proof.
  assert (Hinv : filter_syntax (SHARE ++ rest) → ∃ group ws,
    rest = group ++ SLASH :: join_chr SLASH ws ∧ group ≠ [] ∧ chr_in SLASH group = false ∧
    plain_level group ∧ filter_levels ws ∧ Forall (λ w, chr_in SLASH w = false) ws ∧ join_chr SLASH ws ≠ []).
  { intros H. remember (SHARE ++ rest) as f eqn:Hf. destruct H as [ws ? ? Hns | group ws].
    - exfalso. apply not_true_iff_false in Hns. apply Hns, startswith_spec. eauto.
    - apply app_inv_head in Hf. eauto 10. }
  destruct (chr_in SLASH rest) eqn:Hc; simpl negb; cbv iota.
  - apply chr_in_split in Hc as (group & fl & -> & Hg). rewrite split_max_S by done. cbn [split_max].
    rewrite existsb_group, Hg. simpl orb. split.
    + intros H. destruct (bool_decide (group = [])) eqn:Hg0; [done |]. bools.
      destruct (has_wildcard group) eqn:Hw; [done |]. simpl in H. case_bool_decide as Hf0; [done |].
      apply validate_filter_levels_iff in H as (ws & -> & ? & ?). by constructor.
    + intros (g & ws & Heq & ? & ? & Hpl & ? & ? & ?)%Hinv. apply split_at_slash in Heq as [-> ->]; try done.
      rewrite bool_decide_false by done. rewrite Hpl. simpl. rewrite bool_decide_false by done.
      apply validate_filter_levels_iff. eauto.
  - split; [done |]. intros (g & ws & -> & _)%Hinv. rewrite zin_app in Hc.
    by apply orb_false_iff in Hc as [_ [=]].
Qed.

Lemma validate_subscribe_filter_raises f :
  raises_only (λ e, e = ProtocolError) (validate_subscribe_filter f).
Proof.
  unfold validate_subscribe_filter. rewrite check_topic_encode. case_if; auto with pyraise.
  apply raises_only_bind; [apply raises_only_bind; [apply encode_utf8_raises | auto with pyraise] |].
  intros _ _. destruct (startswith f SHARE); [| apply filter_levels_loop_raises].
  generalize (slice f (len SHARE) (len f)) as rest. intros rest.
  destruct (chr_in SLASH rest) eqn:Hc; cbn [negb]; auto with pyraise.
  apply chr_in_split in Hc as (group & fl & -> & Hg). rewrite split_max_S by done. cbn [split_max].
  repeat case_if; auto with pyraise. apply filter_levels_loop_raises.
Qed.

(** C35: [validate_subscribe_filter] accepts exactly the filters of the MQTT
    grammar: non-empty, MQTT UTF-8, ["+"] and ["#"] alone in their level and
    ["#"] last, with ["$share/group/filter"] for shared subscriptions; anything
    else is refused with [ProtocolError]. *)
Theorem validate_subscribe_filter_iff f :
  (validate_subscribe_filter f = Ok tt ↔ valid_filter f) ∧
  (validate_subscribe_filter f = Raise ProtocolError ↔ ¬ valid_filter f).
Proof.
  assert (Hiff : validate_subscribe_filter f = Ok tt ↔ valid_filter f); [| split; [done |]].
  - unfold validate_subscribe_filter, valid_filter. rewrite check_topic_encode.
    case_bool_decide as Hne; [split; [done | tauto] |].
    destruct (encode_utf8 (VStr f)) as [d|e]; cbn [rbind]; [| split; [done | intros (? & [=] & _)]].
    destruct (startswith f SHARE) eqn:Hs.
    + apply startswith_spec in Hs as [rest ->]. rewrite slice_tail.
      rewrite validate_shared_iff. simpl. tauto.
    + rewrite validate_filter_levels_iff. split.
      * intros (ws & -> & ? & ?). split_and!; try done. by constructor.
      * intros (_ & _ & Hsyn). destruct Hsyn; [eauto |].
        exfalso. apply not_true_iff_false in Hs. apply Hs, startswith_spec. eauto.
  - rewrite <- Hiff. destruct (validate_subscribe_filter f) as [[]|e] eqn:E; [split; [done | tauto] |].
    by apply validate_subscribe_filter_raises in E as ->.
Qed.

(** The two outbound topic validators agree: one returns the byte length of
    what the other returns, and they refuse the same topics with
    [ProtocolError]; an accepted topic has no wildcard. *)
Theorem publish_topic_validators_agree topic allow_empty :
  validate_publish_topic topic allow_empty =
    (let! encoded := encode_validated_publish_topic topic allow_empty in Ok (len encoded)) ∧
  raises_only (λ e, e = ProtocolError) (encode_validated_publish_topic topic allow_empty) ∧
  (is_ok (encode_validated_publish_topic topic allow_empty) = true → has_wildcard topic = false).
Proof.
  unfold encode_validated_publish_topic, validate_publish_topic.
  destruct topic as [|c t]; [destruct allow_empty; simpl; split_and!; auto with pyraise |].
  rewrite check_topic_encode, bool_decide_false by done. cbn [andb].
  destruct (encode_utf8 _) as [d|e] eqn:E; cbn [rbind rcatch].
  - destruct (has_wildcard _); cbn [rbind]; split_and!; auto with pyraise; done.
  - apply encode_utf8_raises in E as ->. simpl. split_and!; auto with pyraise; done.
Qed.

(** A received topic is accepted exactly when an outbound one would be, the
    empty topic (an alias reuse) apart. *)
Lemma validate_received_publish_topic_spec topic :
  validate_received_publish_topic topic false = Ok tt ↔
  is_ok (encode_validated_publish_topic topic true) = true.
Proof.
  unfold encode_validated_publish_topic, validate_received_publish_topic.
  destruct topic as [|c t]; [done |]. rewrite check_topic_encode, andb_false_r.
  destruct (encode_utf8 _) as [d|e] eqn:E; cbn [rbind rcatch negb].
  - destruct (has_wildcard _); cbn [rbind]; done.
  - apply encode_utf8_raises in E as ->. simpl. done.
Qed.
