(* ===== verification/Matcher.v ===== *)
(** * Topic-filter matching ([src/mqttium/dispatch/matcher.py])

    The prefix tree of [TopicMatcher] with its exact-filter index, as the code
    builds, prunes and walks it, and its refinement of a linear scan over the
    registered filters.  An [_Entry] is a mutable list shared by the index and
    the tree: it lives in a heap, and both sides hold its location. *)

From Stdlib Require Import Sorted.
From S2P Require Import Prelude PyStr Topics.

Abbreviation loc := nat.

Definition DOLLAR : Z := 36.

(** ** Nodes *)

Inductive _Node := mkNode {
  children : list (pystr * _Node);
  plus : option _Node;
  hash : option _Node;
  wild : bool;
  entries : option (list loc) }.

Definition new_Node : _Node := mkNode [] None None false None.

Definition child (nd : _Node) (level : pystr) : option _Node :=
  if bool_decide (level = [PLUS]) then plus nd
  else if bool_decide (level = [HASH]) then hash nd
  else dget level (children nd).

(** The parent seen after its child at [level] is mutated in place. *)
Definition put_child (nd : _Node) (level : pystr) (c : _Node) : _Node :=
  if bool_decide (level = [PLUS]) then mkNode (children nd) (Some c) (hash nd) (wild nd) (entries nd)
  else if bool_decide (level = [HASH]) then mkNode (children nd) (plus nd) (Some c) (wild nd) (entries nd)
  else mkNode (dset level c (children nd)) (plus nd) (hash nd) (wild nd) (entries nd).

(** [add_child] creates the node [c] under [level]. *)
Definition add_child (nd : _Node) (level : pystr) (c : _Node) : _Node :=
  if bool_decide (level = [PLUS]) then mkNode (children nd) (Some c) (hash nd) true (entries nd)
  else if bool_decide (level = [HASH]) then mkNode (children nd) (plus nd) (Some c) true (entries nd)
  else mkNode (dset level c (children nd)) (plus nd) (hash nd) (wild nd) (entries nd).

Definition remove_child (nd : _Node) (level : pystr) : res _Node :=
  let some {A} (o : option A) := match o with Some _ => true | None => false end in
  if bool_decide (level = [PLUS]) then
    Ok (mkNode (children nd) None (hash nd) (some (hash nd)) (entries nd))
  else if bool_decide (level = [HASH]) then
    Ok (mkNode (children nd) (plus nd) None (some (plus nd)) (entries nd))
  else
    raise! KeyError when negb (dmem level (children nd));
    Ok (mkNode (ddel level (children nd)) (plus nd) (hash nd) (some (plus nd) || some (hash nd)) (entries nd)).

Definition is_empty (nd : _Node) : bool :=
  match entries nd, children nd, wild nd with None, [], false => true | _, _, _ => false end.

(** The descent of [__setitem__]: missing children are created, the entry is
    appended to the entries of the last node. *)
Fixpoint insert_path (levels : list pystr) (entry : loc) (nd : _Node) : _Node :=
  match levels with
  | [] =>
      mkNode (children nd) (plus nd) (hash nd) (wild nd)
        (match entries nd with None => Some [entry] | Some es => Some (es ++ [entry]) end)
  | level :: levels =>
      match child nd level with
      | None => add_child nd level (insert_path levels entry new_Node)
      | Some c => put_child nd level (insert_path levels entry c)
      end
  end.

(** [for position, candidate in enumerate(entries): if candidate is entry: ...]. *)
Fixpoint del_first (entry : loc) (es : list loc) : list loc :=
  match es with
  | [] => []
  | c :: es => if decide (c = entry) then es else c :: del_first entry es
  end.

(** The descent and the bottom-up pruning of [__delitem__]; the boolean says
    whether the pruning loop is still running (no [break] yet). *)
Fixpoint delete_path (levels : list pystr) (entry : loc) (nd : _Node) : res (_Node * bool) :=
  match levels with
  | [] =>
      match entries nd with
      | None => Raise AssertionError
      | Some es =>
          let es := del_first entry es in
          Ok (mkNode (children nd) (plus nd) (hash nd) (wild nd)
                (match es with [] => None | _ => Some es end), true)
      end
  | level :: levels =>
      match child nd level with
      | None => Raise AssertionError
      | Some c =>
          let! '(c, pruning) := delete_path levels entry c in
          if pruning && is_empty c then
            let! nd := remove_child nd level in
            Ok (nd, true)
          else Ok (put_child nd level c, false)
      end
  end.

(** Nodes of a tree; the walk below visits each at most once. *)
Fixpoint node_size (nd : _Node) : nat :=
  match nd with
  | mkNode cs p h _ _ =>
      S ((fix go (cs : list (pystr * _Node)) : nat :=
            match cs with [] => 0 | (_, c) :: cs => node_size c + go cs end) cs +
         match p with Some c => node_size c | None => 0 end +
         match h with Some c => node_size c | None => 0 end)%nat
  end.

(** The loops of [iter_match]: the current node, its level index, the stack of
    waiting ["+"] branches (top first) and the candidates so far.  A [break] of
    the inner loop continues with no current node. *)
Fixpoint walk (fuel : nat) (levels : list pystr) (node : option _Node) (index : nat)
    (pending : list (_Node * nat)) (candidates : list loc) : res (list loc) :=
  match fuel with
  | O => Raise RuntimeError
  | S fuel =>
      match node with
      | None =>
          match pending with
          | [] => Ok candidates
          | (n, i) :: pending => walk fuel levels (Some n) i pending candidates
          end
      | Some nd =>
          let own := match entries nd with Some es => es | None => [] end in
          let next pending candidates :=
            match levels !! index with
            | None => Raise IndexError
            | Some level => walk fuel levels (dget level (children nd)) (S index) pending candidates
            end in
          if wild nd then
            let candidates :=
              match hash nd with
              | Some h => match entries h with Some es => candidates ++ es | None => candidates end
              | None => candidates
              end in
            if decide (index = length levels) then walk fuel levels None index pending (candidates ++ own)
            else
              match plus nd with
              | Some p => next ((p, S index) :: pending) candidates
              | None => next pending candidates
              end
          else if decide (index = length levels) then walk fuel levels None index pending (candidates ++ own)
          else next pending candidates
      end
  end.

(** ** The matcher *)

Definition _compile (topic_filter : pystr) : res (option (list pystr)) :=
  if startswith topic_filter SHARE then
    match split_max SLASH 2 topic_filter !! 2%nat with
    | None => Raise IndexError
    | Some f => Ok (Some (split_chr SLASH f))
    end
  else
    let levels := split_chr SLASH topic_filter in
    Ok (if existsb (λ level, bool_decide (level = [PLUS]) || bool_decide (level = [HASH])) levels
        then Some levels else None).

Section matcher.
Context {V : Type}.

Record _Entry := { e_seq : Z; e_levels : option (list pystr); e_value : V }.

Record TopicMatcher := {
  heap : list _Entry;
  _entries : list (pystr * loc);
  _root : option _Node;
  _next_sequence : Z }.

Definition TopicMatcher_init : TopicMatcher :=
  {| heap := []; _entries := []; _root := None; _next_sequence := 0 |}.

Definition setitem (m : TopicMatcher) (topic_filter : pystr) (value : V) : res TopicMatcher :=
  match dget topic_filter (_entries m) with
  | Some current =>
      match heap m !! current with
      | None => Raise RuntimeError
      | Some e =>
          Ok {| heap := <[current := {| e_seq := e_seq e; e_levels := e_levels e; e_value := value |}]> (heap m);
                _entries := _entries m; _root := _root m; _next_sequence := _next_sequence m |}
      end
  | None =>
      let! levels := _compile topic_filter in
      let entry := length (heap m) in
      Ok {| heap := heap m ++ [{| e_seq := _next_sequence m; e_levels := levels; e_value := value |}];
            _entries := dset topic_filter entry (_entries m);
            _root := match levels with
                     | None => _root m
                     | Some levels =>
                         Some (insert_path levels entry
                                 (match _root m with Some nd => nd | None => new_Node end))
                     end;
            _next_sequence := _next_sequence m + 1 |}
  end.

Definition deref (m : TopicMatcher) (l : loc) : res _Entry :=
  match heap m !! l with Some e => Ok e | None => Raise RuntimeError end.

Definition getitem (m : TopicMatcher) (topic_filter : pystr) : res V :=
  match dget topic_filter (_entries m) with
  | None => Raise KeyError
  | Some l => let! e := deref m l in Ok (e_value e)
  end.

Definition delitem (m : TopicMatcher) (topic_filter : pystr) : res TopicMatcher :=
  match dget topic_filter (_entries m) with
  | None => Raise KeyError
  | Some entry =>
      let ents := ddel topic_filter (_entries m) in
      let! e := deref m entry in
      match e_levels e with
      | None => Ok {| heap := heap m; _entries := ents; _root := _root m; _next_sequence := _next_sequence m |}
      | Some levels =>
          match _root m with
          | None => Raise AssertionError
          | Some root =>
              let! '(root, _) := delete_path levels entry root in
              Ok {| heap := heap m; _entries := ents;
                    _root := if is_empty root then None else Some root;
                    _next_sequence := _next_sequence m |}
          end
      end
  end.

Definition matcher_bool (m : TopicMatcher) : bool :=
  match _entries m with [] => false | _ => true end.

Fixpoint derefs (m : TopicMatcher) (ls : list loc) : res (list _Entry) :=
  match ls with
  | [] => Ok []
  | l :: ls => let! e := deref m l in let! es := derefs m ls in Ok (e :: es)
  end.

Definition items (m : TopicMatcher) : res (list (pystr * V)) :=
  let! es := derefs m (snd <$> _entries m) in
  Ok (zip (fst <$> _entries m) (e_value <$> es)).

(** [candidates.sort(key=_SEQUENCE)]: a stable sort. *)
Fixpoint sort_insert (e : _Entry) (es : list _Entry) : list _Entry :=
  match es with
  | [] => [e]
  | x :: es => if e_seq e <=? e_seq x then e :: x :: es else x :: sort_insert e es
  end.

Definition sort_seq (es : list _Entry) : list _Entry := foldr sort_insert [] es.

Definition iter_match (m : TopicMatcher) (topic : pystr) : res (list V) :=
  let exact_entry := dget topic (_entries m) in
  let! exact :=
    match exact_entry with
    | None => Ok []
    | Some l => let! e := deref m l in
                Ok (match e_levels e with None => [l] | Some _ => [] end)
    end in
  match _root m with
  | None => let! es := derefs m exact in Ok (e_value <$> es)
  | Some root =>
      let levels := split_chr SLASH topic in
      let! candidates :=
        (if startswith topic [DOLLAR] then
           match levels !! O with
           | None => Raise IndexError
           | Some l0 =>
               walk (2 * node_size root + 1) levels (dget l0 (children root)) 1 [] exact
           end
         else walk (2 * node_size root + 1) levels (Some root) 0 [] exact) in
      let! es := derefs m candidates in
      Ok (e_value <$> (if len es >? 1 then sort_seq es else es))
  end.

End matcher.
Arguments _Entry : clear implicits.
Arguments TopicMatcher : clear implicits.

Example iter_match_ex :
  (let! m := setitem TopicMatcher_init (lit "a/+") 1 in
   let! m := setitem m (lit "a/b") 2 in
   let! m := setitem m (lit "$share/g/#") 3 in
   let! m := setitem m (lit "+/c") 4 in
   let! m := delitem m (lit "a/+") in
   let! m := setitem m (lit "a/+") 5 in
   iter_match m (lit "a/b")) = Ok [2; 3; 5].
Proof. vm_compute. reflexivity. Qed.

(** ** Trees as maps from paths to entries *)

Fixpoint tree_at (nd : _Node) (path : list pystr) : list loc :=
  match path with
  | [] => match entries nd with Some es => es | None => [] end
  | l :: path => match child nd l with Some c => tree_at c path | None => [] end
  end.

(** The shape every tree keeps: the cached [wild] flag is exact, literal
    children are literal, no entry list is empty, and no child is dead. *)
Inductive wf : _Node → Prop :=
  wf_intro nd :
    (wild nd = true ↔ is_Some (plus nd) ∨ is_Some (hash nd)) →
    NoDup (dkeys (children nd)) →
    [PLUS] ∉ dkeys (children nd) → [HASH] ∉ dkeys (children nd) →
    entries nd ≠ Some [] →
    (∀ l c, child nd l = Some c → is_empty c = false ∧ wf c) → wf nd.

Ltac node_cases :=
  unfold child, put_child, add_child, remove_child in *;
  repeat (case_bool_decide; simplify_eq/=; try done).

Lemma wf_new : wf new_Node.
Proof.
  constructor.
  - split; [intros [=] | by intros [[? [=]]|[? [=]]]].
  - constructor.
  - apply not_elem_of_nil.
  - apply not_elem_of_nil.
  - intros [=].
  - intros l c H. unfold child in H. simpl in H. by repeat case_bool_decide.
Qed.

Lemma child_put nd l c l' : child (put_child nd l c) l' = if decide (l' = l) then Some c else child nd l'.
Proof. node_cases; repeat case_decide; simplify_eq; try done; [by rewrite dget_dset_eq | by rewrite dget_dset_ne]. Qed.

Lemma child_add nd l c l' : child (add_child nd l c) l' = if decide (l' = l) then Some c else child nd l'.
Proof. node_cases; repeat case_decide; simplify_eq; try done; [by rewrite dget_dset_eq | by rewrite dget_dset_ne]. Qed.

Lemma remove_child_Ok nd l c :
  wf nd → child nd l = Some c →
  ∃ nd', remove_child nd l = Ok nd' ∧ entries nd' = entries nd ∧
    (∀ l', child nd' l' = if decide (l' = l) then None else child nd l').
Proof.
  intros [? ? Hnd] Hc. unfold remove_child. unfold child in Hc.
  destruct (bool_decide (l = [PLUS])) eqn:E1; [| destruct (bool_decide (l = [HASH])) eqn:E2]; bools.
  - eexists; split_and!; [done.. |]. intros l'. node_cases; by case_decide.
  - eexists; split_and!; [done.. |]. intros l'. node_cases; by case_decide.
  - apply dget_Some_key, dmem_spec in Hc. rewrite Hc. cbn [negb].
    eexists; split_and!; [done.. |]. intros l'. node_cases; case_decide; simplify_eq; try done;
      rewrite dget_ddel by done; by case_decide.
Qed.

Lemma entries_put nd l c : entries (put_child nd l c) = entries nd.
Proof. node_cases. Qed.
Lemma entries_add nd l c : entries (add_child nd l c) = entries nd.
Proof. node_cases. Qed.

Lemma is_empty_spec nd :
  wf nd → is_empty nd = true ↔ entries nd = None ∧ ∀ l, child nd l = None.
Proof.
  intros [nd0 Hw _ Hp Hh _ _]. unfold is_empty. split.
  - intros H. destruct (entries nd0), (children nd0) eqn:Hc, (wild nd0) eqn:Hwd; try done.
    split; [done |]. intros l. unfold child. rewrite Hc.
    assert (¬ (is_Some (plus nd0) ∨ is_Some (hash nd0))) as Hno by (rewrite <- Hw; done).
    destruct (plus nd0), (hash nd0); try (exfalso; apply Hno; eauto; fail).
    repeat case_bool_decide; done.
  - intros [-> Hc]. destruct (children nd0) as [|[k c] cs] eqn:Hcs.
    + destruct (wild nd0); [| done]. exfalso. destruct Hw as [Hw _]. destruct (Hw eq_refl) as [[x Hx]|[x Hx]].
      * specialize (Hc [PLUS]). unfold child in Hc. simpl in Hc. congruence.
      * specialize (Hc [HASH]). unfold child in Hc. simpl in Hc. congruence.
    + exfalso. specialize (Hc k). unfold child in Hc. rewrite Hcs in Hc.
      unfold dkeys in Hp, Hh. simpl in Hp, Hh. apply not_elem_of_cons in Hp as [? _], Hh as [? _].
      repeat case_bool_decide; simplify_eq. simpl in Hc. by case_decide.
Qed.

(** A node is characterised by its entries and its children; [wf] follows. *)
Lemma wf_put nd l c :
  wf nd → is_Some (child nd l) → wf c → is_empty c = false → wf (put_child nd l c) ∧ is_empty (put_child nd l c) = false.
Proof.
  intros Hwf [c0 Hc0] Hc He. pose proof (child_put nd l c) as Hch. pose proof (entries_put nd l c) as Hen.
  destruct Hwf as [nd Hw Hnd Hp Hh Hes Hall].
  assert (wf (put_child nd l c)) as Hwf.
  { constructor; [| | | | by rewrite Hen |].
    - node_cases; rewrite Hw, ?Hc0; split; intros _; eauto.
    - node_cases. by apply NoDup_dset.
    - node_cases. intros Hin. apply Hp. rewrite dkeys_dset_old in Hin; [done |]. by eapply dget_Some_key.
    - node_cases. intros Hin. apply Hh. rewrite dkeys_dset_old in Hin; [done |]. by eapply dget_Some_key.
    - intros l' c' H. rewrite Hch in H. case_decide; simplify_eq; eauto. }
  split; [done |]. apply not_true_iff_false. intros [_ H]%is_empty_spec; [| done].
  specialize (H l). rewrite Hch in H. by case_decide.
Qed.

Lemma wf_add nd l c :
  wf nd → wf c → is_empty c = false → wf (add_child nd l c) ∧ is_empty (add_child nd l c) = false.
Proof.
  intros Hwf Hc He. pose proof (child_add nd l c) as Hch. pose proof (entries_add nd l c) as Hen.
  destruct Hwf as [nd Hw Hnd Hp Hh Hes Hall].
  assert (wf (add_child nd l c)) as Hwf.
  { constructor; [| | | | by rewrite Hen |].
    - node_cases; rewrite ?Hw; split; eauto.
    - node_cases. by apply NoDup_dset.
    - node_cases. intros Hin. apply Hp. destruct (decide (l ∈ dkeys (children nd))); [by rewrite dkeys_dset_old in Hin |].
      rewrite dkeys_dset_new in Hin by done. apply elem_of_app in Hin as [?|?%list_elem_of_singleton]; [done | congruence].
    - node_cases. intros Hin. apply Hh. destruct (decide (l ∈ dkeys (children nd))); [by rewrite dkeys_dset_old in Hin |].
      rewrite dkeys_dset_new in Hin by done. apply elem_of_app in Hin as [?|?%list_elem_of_singleton]; [done | congruence].
    - intros l' c' H. rewrite Hch in H. case_decide; simplify_eq; eauto. }
  split; [done |]. apply not_true_iff_false. intros [_ H]%is_empty_spec; [| done].
  specialize (H l). rewrite Hch in H. by case_decide.
Qed.

Lemma wf_remove nd l c nd' : wf nd → child nd l = Some c → remove_child nd l = Ok nd' → wf nd'.
Proof.
  intros Hwf Hc Hr. destruct (remove_child_Ok nd l c Hwf Hc) as (nd1 & Hr1 & Hen & Hch).
  rewrite Hr in Hr1. injection Hr1 as <-. destruct Hwf as [nd Hw Hnd Hp Hh Hes Hall].
  constructor; [| | | | by rewrite Hen |].
  - unfold remove_child in Hr. case_ifs_in Hr; simplify_eq/=;
      destruct (plus nd), (hash nd); simpl; unfold is_Some; naive_solver.
  - unfold remove_child in Hr. case_ifs_in Hr; simplify_eq/=; try done; by apply NoDup_ddel.
  - unfold remove_child in Hr. case_ifs_in Hr; simplify_eq/=; try done;
      intros Hin; apply Hp; (eapply elem_of_sublist; [exact Hin | apply fmap_sublist, ddel_sub]).
  - unfold remove_child in Hr. case_ifs_in Hr; simplify_eq/=; try done;
      intros Hin; apply Hh; (eapply elem_of_sublist; [exact Hin | apply fmap_sublist, ddel_sub]).
  - intros l' c' H. rewrite Hch in H. case_decide; simplify_eq; eauto.
Qed.

Lemma wf_entries nd es :
  wf nd → es ≠ Some [] → wf (mkNode (children nd) (plus nd) (hash nd) (wild nd) es).
Proof. intros [nd0 ? ? ? ? ? Hall] ?. constructor; try done. Qed.

Lemma insert_path_wf ls e : ∀ nd, wf nd → wf (insert_path ls e nd) ∧ is_empty (insert_path ls e nd) = false.
Proof.
  induction ls as [|l ls IH]; intros nd Hwf; simpl.
  - split; [| unfold is_empty; simpl; by destruct (entries nd)].
    apply wf_entries; [done |]. destruct (entries nd) as [[]|]; done.
  - destruct (child nd l) as [c|] eqn:Hc.
    + assert (wf c) as Hwc by (destruct Hwf as [? _ _ _ _ _ Hall]; by destruct (Hall _ _ Hc)).
      destruct (IH c Hwc). apply wf_put; eauto.
    + destruct (IH _ wf_new). by apply wf_add.
Qed.

Lemma tree_at_new p : tree_at new_Node p = [].
Proof. destruct p; simpl; [done |]. unfold child. repeat case_bool_decide; done. Qed.

Lemma tree_at_insert ls e : ∀ nd p,
  tree_at (insert_path ls e nd) p = tree_at nd p ++ (if decide (p = ls) then [e] else []).
Proof.
  induction ls as [|l ls IH]; intros nd p; simpl.
  - destruct p as [|l' p]; simpl; [by destruct (entries nd) |]. unfold child; simpl. by rewrite app_nil_r.
  - destruct (child nd l) as [c|] eqn:Hc.
    + destruct p as [|l' p]; simpl; [by rewrite entries_put, app_nil_r |].
      rewrite child_put. destruct (decide (l' = l)) as [->|].
      * rewrite Hc, IH. repeat case_decide; simplify_eq; done.
      * case_decide; simplify_eq. by rewrite app_nil_r.
    + destruct p as [|l' p]; simpl; [by rewrite entries_add, app_nil_r |].
      rewrite child_add. destruct (decide (l' = l)) as [->|].
      * rewrite Hc, IH, tree_at_new. repeat case_decide; simplify_eq; done.
      * case_decide; simplify_eq. by rewrite app_nil_r.
Qed.

Lemma wf_child nd l c : wf nd → child nd l = Some c → is_empty c = false ∧ wf c.
Proof. intros [? _ _ _ _ _ Hall]. apply Hall. Qed.

Lemma tree_at_empty nd p : wf nd → is_empty nd = true → tree_at nd p = [].
Proof.
  intros Hwf [He Hc]%is_empty_spec; [| done]. destruct p; simpl; [by rewrite He | by rewrite Hc].
Qed.

(** Deleting an entry of a path removes that entry only, and keeps the shape. *)
Lemma delete_path_Ok ls e : ∀ nd, wf nd → e ∈ tree_at nd ls →
  ∃ nd' b, delete_path ls e nd = Ok (nd', b) ∧ wf nd' ∧ (b = false → is_empty nd' = false) ∧
    ∀ p, tree_at nd' p = if decide (p = ls) then del_first e (tree_at nd p) else tree_at nd p.
Proof.
  induction ls as [|l ls IH]; intros nd Hwf Hin; simpl in *.
  - destruct (entries nd) as [es|] eqn:He; [| by apply not_elem_of_nil in Hin].
    eexists _, true. split; [done |]. split_and!; [| done |].
    + apply wf_entries; [done |]. by destruct (del_first e es).
    + intros [|l p]; simpl; [| done]. rewrite He. by destruct (del_first e es).
  - destruct (child nd l) as [c|] eqn:Hc; [| by apply not_elem_of_nil in Hin].
    destruct (wf_child _ _ _ Hwf Hc) as [_ Hwc].
    destruct (IH c Hwc Hin) as (c' & b & -> & Hwc' & Hb & Hat). cbn [rbind].
    destruct (b && is_empty c') eqn:Hp; bools.
    + destruct (remove_child_Ok nd l c Hwf Hc) as (nd' & Hr & Hen & Hch). rewrite Hr. cbn [rbind].
      eexists _, true. split; [done |]. split_and!; [exact (wf_remove _ _ _ _ Hwf Hc Hr) | done |].
      intros [|l' p]; simpl; [by rewrite Hen |]. rewrite Hch. destruct (decide (l' = l)) as [->|].
      * rewrite Hc. specialize (Hat p). rewrite (tree_at_empty c') in Hat by done.
        rewrite Hat. repeat case_decide; simplify_eq; done.
      * by case_decide; simplify_eq.
    + assert (is_empty c' = false) by (destruct b; [by destruct (is_empty c') | auto]).
      destruct (wf_put nd l c') as [Hw He]; [done | eauto | done | done |].
      eexists _, false. split; [done |]. split_and!; [done | done |].
      intros [|l' p]; simpl; [by rewrite entries_put |]. rewrite child_put.
      destruct (decide (l' = l)) as [->|]; [| by case_decide; simplify_eq].
      rewrite Hc, Hat. repeat case_decide; simplify_eq; done.
Qed.

(** A well-formed non-empty tree holds an entry: nothing is kept alive in vain. *)
Lemma wf_live nd : wf nd → is_empty nd = false → ∃ p e, e ∈ tree_at nd p.
Proof.
  revert nd. fix IH 2. intros nd [nd0 Hw Hnd Hp Hh Hes Hall] He. clear nd. rename nd0 into nd.
  destruct (entries nd) as [[|e es]|] eqn:Hen; [done | |].
  { exists [], e. simpl. rewrite Hen. by left. }
  assert (∃ l c, child nd l = Some c) as (l & c & Hc).
  { unfold is_empty in He. rewrite Hen in He. destruct (children nd) as [|[k c] cs] eqn:Hcs.
    - destruct (wild nd) eqn:Hwd; [| done]. destruct (proj1 Hw eq_refl) as [[c Hc]|[c Hc]];
        [exists [PLUS], c | exists [HASH], c]; unfold child; simpl; done.
    - exists k, c. unfold child. rewrite Hcs. unfold dkeys in Hp, Hh. simpl in Hp, Hh.
      apply not_elem_of_cons in Hp as [? _], Hh as [? _]. repeat case_bool_decide; simplify_eq. simpl. by case_decide. }
  destruct (Hall l c Hc) as [Hne Hwc]. destruct (IH c Hwc Hne) as (p & e & Hin). exists (l :: p), e. simpl. by rewrite Hc.
Qed.

(** ** The walk *)

Definition opt_list {A B} (f : A → list B) (o : option A) : list B :=
  match o with Some a => f a | None => [] end.

Definition own (nd : _Node) : list loc := match entries nd with Some es => es | None => [] end.

(** The matches of a subtree for the remaining topic levels, by recursion. *)
Fixpoint tmatch (rem : list pystr) (nd : _Node) : list loc :=
  opt_list own (hash nd) ++
  match rem with
  | [] => own nd
  | t :: rem => opt_list (tmatch rem) (plus nd) ++ opt_list (tmatch rem) (dget t (children nd))
  end.

Definition pend_size (pending : list (_Node * nat)) : nat :=
  foldr (λ x n, 2 * node_size x.1 + 1 + n)%nat O pending.

Definition opt_size (node : option _Node) : nat := match node with Some n => node_size n | None => O end.

Lemma node_size_eq cs p h w es :
  node_size (mkNode cs p h w es) =
  S (foldr (λ x n, node_size x.2 + n)%nat O cs + opt_size p + opt_size h).
Proof. cbn [node_size]. f_equal. f_equal. f_equal. induction cs as [|[k c] cs IH]; simpl; [done |]. by rewrite IH. Qed.

Lemma node_size_children nd t :
  (opt_size (plus nd) + opt_size (dget t (children nd)) < node_size nd)%nat.
Proof.
  destruct nd as [cs p h w es]. rewrite node_size_eq. cbn [plus children].
  assert (opt_size (dget t cs) ≤ foldr (λ x n, node_size x.2 + n)%nat O cs)%nat as Hg; [| lia].
  induction cs as [|[k c] cs IH]; simpl; [lia |]. case_decide; simpl; lia.
Qed.

(** With fuel above the weight of what is left to visit, the loop returns the
    candidates so far and the matches of every waiting branch. *)
Lemma walk_ok fuel : ∀ levels node index pending cands,
  (2 * opt_size node + pend_size pending < fuel)%nat →
  (∀ n, node = Some n → (index ≤ length levels)%nat ∧ wf n) →
  Forall (λ x, (x.2 ≤ length levels)%nat ∧ wf x.1) pending →
  ∃ l, walk fuel levels node index pending cands = Ok l ∧
    l ≡ₚ cands ++ opt_list (tmatch (drop index levels)) node ++
         (pending ≫= λ x, tmatch (drop x.2 levels) x.1).
Proof.
  induction fuel as [|fuel IH]; intros levels node index pending cands Hfuel Hnode Hpend; [lia |].
  cbn [walk]. destruct node as [nd|].
  - destruct (Hnode nd eq_refl) as [Hi Hwf]. clear Hnode. simpl in Hfuel.
    pose proof (node_size_children nd []) as Hpos.
    assert (Hhash : (if wild nd then opt_list own (hash nd) else []) = opt_list own (hash nd) ∧
                    (wild nd = false → plus nd = None)).
    { destruct Hwf as [nd Hw _ _ _ _ _]. destruct (wild nd); [done |].
      destruct (plus nd), (hash nd); split; try done; exfalso; destruct Hw as [_ Hw];
        assert (false = true) as [=] by (apply Hw; eauto). }
    destruct Hhash as [Hhash Hplus].
    set (cands' := if wild nd then cands ++ opt_list own (hash nd) else cands).
    assert (Hend : index = length levels → ∃ l, walk fuel levels None index pending (cands' ++ own nd) = Ok l ∧
        l ≡ₚ cands ++ tmatch (drop index levels) nd ++ (pending ≫= λ x, tmatch (drop x.2 levels) x.1)).
    { intros ->. destruct (IH levels None (length levels) pending (cands' ++ own nd)) as (l & Hl & Hp);
        [simpl; lia | done | done |]. exists l. split; [done |]. rewrite Hp, drop_all. simpl. unfold cands'.
      rewrite <- Hhash. destruct (wild nd); simpl; by rewrite <- !app_assoc. }
    assert (Hnext : index ≠ length levels →
      ∃ l, match levels !! index with None => Raise IndexError
           | Some level => walk fuel levels (dget level (children nd)) (S index)
               (match plus nd with Some p => (p, S index) :: pending | None => pending end) cands' end = Ok l ∧
        l ≡ₚ cands ++ tmatch (drop index levels) nd ++ (pending ≫= λ x, tmatch (drop x.2 levels) x.1)).
    { intros Hne. destruct (lookup_lt_is_Some_2 levels index) as [t Ht]; [lia |]. rewrite Ht.
      pose proof (node_size_children nd t) as Hsz.
      edestruct (IH levels (dget t (children nd)) (S index)
                   (match plus nd with Some p => (p, S index) :: pending | None => pending end) cands')
        as (l & Hl & Hp).
      - destruct (plus nd); simpl in *; lia.
      - intros n Hn. split; [lia |]. destruct Hwf as [nd _ _ Hnp Hnh _ Hall].
        apply (Hall t). unfold child. apply dget_Some_key in Hn as Hk.
        repeat case_bool_decide; simplify_eq; done.
      - destruct (plus nd) as [p|] eqn:Hpl; [| done]. constructor; [| done]. simpl. split; [lia |].
        apply (wf_child nd [PLUS]); [done |]. unfold child. by rewrite bool_decide_true.
      - exists l. split; [done |]. rewrite Hp. rewrite (drop_S _ _ _ Ht). simpl. rewrite <- Hhash. unfold cands'.
        destruct (wild nd); [| rewrite Hplus by done; done].
        destruct (plus nd); simpl; solve_Permutation. }
    subst cands'. destruct (wild nd) eqn:Hw.
    + assert (match hash nd with Some h => match entries h with Some es => cands ++ es | None => cands end | None => cands end
              = cands ++ opt_list own (hash nd)) as ->.
      { destruct (hash nd) as [h|]; simpl; [unfold own; destruct (entries h) |]; by rewrite ?app_nil_r. }
      case_decide; [by apply Hend |]. destruct (plus nd); by apply Hnext.
    + case_decide; [by apply Hend |]. rewrite Hplus in Hnext by done. by apply Hnext.
  - destruct pending as [|[n i] pending]; simpl in *; [exists cands; by rewrite app_nil_r |].
    inversion Hpend as [|? ? [? ?] ?]; subst. simpl in *.
    destruct (IH levels (Some n) i pending cands) as (l & Hl & Hp); [simpl; lia | | done |].
    { intros n' [= <-]. done. }
    exists l. split; [done |]. rewrite Hp. done.
Qed.

(** ** The specification: matching one filter *)

(** MQTT 4.7 matching on levels: ["+"] matches one level, a final ["#"] the
    parent level and everything below it. *)
Fixpoint level_match (fl tl : list pystr) : bool :=
  match fl with
  | [] => match tl with [] => true | _ => false end
  | f :: fl =>
      if bool_decide (f = [HASH]) then match fl with [] => true | _ => false end
      else match tl with
           | [] => false
           | t :: tl => (bool_decide (f = [PLUS]) || bool_decide (f = t)) && level_match fl tl
           end
  end.

(** A leading wildcard never matches a topic beginning with ["$"]. *)
Definition path_match (fl : list pystr) (topic : pystr) : bool :=
  negb (startswith topic [DOLLAR] &&
        match fl with f :: _ => bool_decide (f = [PLUS]) || bool_decide (f = [HASH]) | [] => false end) &&
  level_match fl (split_chr SLASH topic).

(** Whether a registered filter matches a topic: shared and wildcard filters by
    levels, the others by equality. *)
Definition filter_match (topic_filter topic : pystr) : bool :=
  match _compile topic_filter with
  | Ok None => bool_decide (topic_filter = topic)
  | Ok (Some levels) => path_match levels topic
  | Raise _ => false
  end.

Lemma child_plus nd : child nd [PLUS] = plus nd.
Proof. unfold child. by rewrite bool_decide_true. Qed.
Lemma child_hash nd : child nd [HASH] = hash nd.
Proof. unfold child. by rewrite bool_decide_false, bool_decide_true. Qed.
Lemma child_lit nd t : t ≠ [PLUS] → t ≠ [HASH] → child nd t = dget t (children nd).
Proof. intros. unfold child. by rewrite !bool_decide_false. Qed.

Lemma literal_child nd t c :
  wf nd → dget t (children nd) = Some c → child nd t = Some c ∧ t ≠ [PLUS] ∧ t ≠ [HASH].
Proof.
  intros [nd0 _ _ Hp Hh _ _] Hc. apply dget_Some_key in Hc as Hk.
  assert (t ≠ [PLUS]) by (intros ->; done). assert (t ≠ [HASH]) by (intros ->; done).
  by rewrite child_lit.
Qed.

Lemma opt_elem {A B} (f : A → list B) o x : x ∈ opt_list f o ↔ ∃ a, o = Some a ∧ x ∈ f a.
Proof.
  destruct o as [a|]; simpl; [| split; [by intros ?%not_elem_of_nil | by intros (? & [=] & _)]].
  split; [eauto | by intros (? & [= <-] & ?)].
Qed.

Lemma tmatch_elem rem : ∀ nd l, wf nd →
  l ∈ tmatch rem nd ↔ ∃ p, l ∈ tree_at nd p ∧ level_match p rem = true.
Proof.
  induction rem as [|t rem IH]; intros nd l Hwf; cbn [tmatch]; rewrite ?elem_of_app, !opt_elem; split.
  - intros [(h & Hh & Hl)|Hl]; [exists [[HASH]] | by exists []]. cbn [tree_at]. rewrite child_hash, Hh. done.
  - intros ([|f p] & Hl & Hm); [by right | left]. simpl in Hm. case_bool_decide; [subst | done].
    destruct p; [| done]. cbn [tree_at] in Hl. rewrite child_hash in Hl.
    destruct (hash nd) as [h|]; [by exists h | by apply not_elem_of_nil in Hl].
  - intros [(h & Hh & Hl)|[(c & Hc & Hl)|(c & Hc & Hl)]].
    + exists [[HASH]]. cbn [tree_at]. rewrite child_hash, Hh. done.
    + rewrite <- child_plus in Hc. destruct (wf_child _ _ _ Hwf Hc) as [_ Hwc].
      apply IH in Hl as (p & Hl & Hm); [| done]. exists ([PLUS] :: p). cbn [tree_at]. by rewrite Hc.
    + apply literal_child in Hc as (Hc & Hp & Hh); [| done]. destruct (wf_child _ _ _ Hwf Hc) as [_ Hwc].
      apply IH in Hl as (p & Hl & Hm); [| done]. exists (t :: p). cbn [tree_at level_match]. rewrite Hc.
      split; [done |]. rewrite bool_decide_false by done. by rewrite (bool_decide_true (t = t)), orb_true_r.
  - intros ([|f p] & Hl & Hm); [done |]. cbn [level_match tree_at] in *.
    destruct (child nd f) as [c|] eqn:Hc; [| by apply not_elem_of_nil in Hl].
    destruct (wf_child _ _ _ Hwf Hc) as [_ Hwc].
    case_bool_decide as Hh; [subst; destruct p; [| done]; rewrite child_hash in Hc; eauto |].
    right. apply andb_prop in Hm as [Hm1 Hm2]. assert (l ∈ tmatch rem c) by (apply IH; eauto).
    case_bool_decide as Hp; [left; subst; rewrite child_plus in Hc; eauto |]. right. simpl in Hm1. bools. subst f.
    rewrite child_lit in Hc by done. eauto.
Qed.

(** Entries are stored once. *)
Definition entries_once (nd : _Node) : Prop :=
  (∀ p, NoDup (tree_at nd p)) ∧ ∀ p q l, l ∈ tree_at nd p → l ∈ tree_at nd q → p = q.

Lemma entries_once_child nd l c : child nd l = Some c → entries_once nd → entries_once c.
Proof.
  intros Hc [Hn Hu]. split.
  - intros p. specialize (Hn (l :: p)). simpl in Hn. by rewrite Hc in Hn.
  - intros p q e Hp Hq. assert (l :: p = l :: q) as [= <-]; [| done].
    apply (Hu _ _ e); simpl; by rewrite Hc.
Qed.

Lemma opt_NoDup {A B} (f : A → list B) o : (∀ a, o = Some a → NoDup (f a)) → NoDup (opt_list f o).
Proof. destruct o; simpl; [eauto | constructor]. Qed.

Lemma tmatch_NoDup rem : ∀ nd, wf nd → entries_once nd → NoDup (tmatch rem nd).
Proof.
  assert (Hhash : ∀ nd, entries_once nd → NoDup (opt_list own (hash nd))).
  { intros nd [Hn _]. apply opt_NoDup. intros h Hh. specialize (Hn [[HASH]]). simpl in Hn.
    by rewrite child_hash, Hh in Hn. }
  assert (Hin : ∀ nd l, l ∈ opt_list own (hash nd) → l ∈ tree_at nd [[HASH]]).
  { intros nd l (h & Hh & Hl)%opt_elem. cbn [tree_at]. by rewrite child_hash, Hh. }
  induction rem as [|t rem IH]; intros nd Hwf Ho; cbn [tmatch]; apply NoDup_app; split_and!; auto.
  - intros l Hl Hl'. apply Hin in Hl. destruct Ho as [_ Hu]. by specialize (Hu [[HASH]] [] l Hl Hl').
  - destruct Ho as [Hn _]. apply (Hn []).
  - intros l Hl Hl'. apply Hin in Hl. destruct Ho as [_ Hu]. rewrite elem_of_app, !opt_elem in Hl'.
    destruct Hl' as [(c & Hc & Hl')|(c & Hc & Hl')].
    + rewrite <- child_plus in Hc. apply tmatch_elem in Hl' as (p & Hl' & _); [| by eapply wf_child].
      specialize (Hu [[HASH]] ([PLUS] :: p) l Hl). cbn [tree_at] in Hu. rewrite Hc in Hu. by specialize (Hu Hl').
    + apply literal_child in Hc as (Hc & _ & Hh); [| done].
      apply tmatch_elem in Hl' as (p & Hl' & _); [| by eapply wf_child].
      specialize (Hu [[HASH]] (t :: p) l Hl). cbn [tree_at] in Hu. rewrite Hc in Hu.
      specialize (Hu Hl'). congruence.
  - apply NoDup_app. split_and!.
    + apply opt_NoDup. intros c Hc. rewrite <- child_plus in Hc. destruct (wf_child _ _ _ Hwf Hc).
      apply IH; [done | by eapply entries_once_child].
    + intros l (c & Hc & Hl)%opt_elem (c' & Hc' & Hl')%opt_elem. rewrite <- child_plus in Hc.
      apply literal_child in Hc' as (Hc' & Hp & _); [| done].
      apply tmatch_elem in Hl as (p & Hl & _); [| by eapply wf_child].
      apply tmatch_elem in Hl' as (q & Hl' & _); [| by eapply wf_child]. destruct Ho as [_ Hu].
      specialize (Hu ([PLUS] :: p) (t :: q) l). cbn [tree_at] in Hu. rewrite Hc, Hc' in Hu.
      specialize (Hu Hl Hl'). congruence.
    + apply opt_NoDup. intros c Hc. apply literal_child in Hc as (Hc & _); [| done].
      destruct (wf_child _ _ _ Hwf Hc). apply IH; [done | by eapply entries_once_child].
Qed.

Lemma split_dollar topic :
  startswith topic [DOLLAR] = true → ∃ w ws, split_chr SLASH topic = (DOLLAR :: w) :: ws.
Proof.
  intros [r ->]%startswith_spec. simpl. destruct (split_chr_cons SLASH r) as (w & ws & ->). eauto.
Qed.

(** The walk from the root finds the entries of the matching paths, once each. *)
Lemma root_walk root topic exact :
  wf root → entries_once root →
  ∃ l M, (if startswith topic [DOLLAR] then
            match split_chr SLASH topic !! O with
            | None => Raise IndexError
            | Some l0 => walk (2 * node_size root + 1) (split_chr SLASH topic) (dget l0 (children root)) 1 [] exact
            end
          else walk (2 * node_size root + 1) (split_chr SLASH topic) (Some root) 0 [] exact) = Ok l ∧
    l ≡ₚ exact ++ M ∧ NoDup M ∧ ∀ x, x ∈ M ↔ ∃ p, x ∈ tree_at root p ∧ path_match p topic = true.
Proof.
  intros Hwf Ho. unfold path_match. destruct (startswith topic [DOLLAR]) eqn:Hd.
  - destruct (split_dollar topic Hd) as (w & ws & ->). set (t := DOLLAR :: w). cbn [lookup list_lookup].
    pose proof (node_size_children root t) as Hsz.
    destruct (walk_ok (2 * node_size root + 1) (t :: ws) (dget t (children root)) 1 [] exact) as (l & Hl & Hp);
      [simpl; lia | | done |].
    { intros n Hn. split; [simpl; lia |]. apply literal_child in Hn as (Hn & _); [| done]. by eapply wf_child. }
    exists l, (opt_list (tmatch ws) (dget t (children root))). split; [done |].
    simpl in Hp. rewrite app_nil_r, drop_0 in Hp. split; [done |]. split.
    + apply opt_NoDup. intros c Hc. apply literal_child in Hc as (Hc & _); [| done].
      apply tmatch_NoDup; [by eapply wf_child | by eapply entries_once_child].
    + intros x. rewrite opt_elem. split.
      * intros (c & Hc & Hx). apply literal_child in Hc as (Hc & H1 & H2); [| done].
        apply tmatch_elem in Hx as (p & Hx & Hm); [| by eapply wf_child]. exists (t :: p). cbn [tree_at level_match].
        rewrite Hc, !bool_decide_false by done. rewrite (bool_decide_true (t = t)) by done. by rewrite Hm.
      * intros ([|f p] & Hx & Hm); [done |]. cbn [tree_at level_match] in *.
        destruct (bool_decide (f = [PLUS])) eqn:H1; [done |]. destruct (bool_decide (f = [HASH])) eqn:H2; [done |].
        simpl in Hm. bools. subst f. destruct (child root t) as [c|] eqn:Hc; [| by apply not_elem_of_nil in Hx].
        exists c. rewrite child_lit in Hc by done. split; [done |]. apply tmatch_elem; [| eauto].
        eapply (wf_child root t); [done |]. by rewrite child_lit.
  - destruct (walk_ok (2 * node_size root + 1) (split_chr SLASH topic) (Some root) 0 [] exact) as (l & Hl & Hp);
      [simpl; lia | | done |].
    { intros n [= <-]. split; [lia | done]. }
    exists l, (tmatch (split_chr SLASH topic) root). split; [done |]. simpl in Hp.
    rewrite app_nil_r, drop_0 in Hp. split; [done |]. split; [by apply tmatch_NoDup |].
    intros x. by apply tmatch_elem.
Qed.

(** ** Sorting by sequence *)

Section sorting.
Context {V : Type}.
Implicit Types (e : _Entry V) (es : list (_Entry V)).

Lemma sort_insert_perm e es : sort_insert e es ≡ₚ e :: es.
Proof. induction es as [|x es IH]; simpl; [done |]. case_if; [done |]. rewrite IH. constructor. Qed.
Lemma sort_seq_perm es : sort_seq es ≡ₚ es.
Proof. unfold sort_seq. induction es as [|x es IH]; simpl; [done |]. by rewrite sort_insert_perm, IH. Qed.

Lemma sort_insert_sorted e es :
  StronglySorted (λ a b, e_seq a ≤ e_seq b) es → StronglySorted (λ a b, e_seq a ≤ e_seq b) (sort_insert e es).
Proof.
  induction 1 as [|x es Hs IH Hx]; simpl; [by repeat constructor |]. case_if; bools.
  - constructor; [by constructor |]. constructor; [lia |].
    eapply Forall_impl; [exact Hx |]. simpl. intros. lia.
  - constructor; [done |]. rewrite sort_insert_perm. constructor; [lia | done].
Qed.

Lemma sort_seq_sorted es : StronglySorted (λ a b, e_seq a ≤ e_seq b) (sort_seq es).
Proof. unfold sort_seq. induction es; simpl; [constructor | by apply sort_insert_sorted]. Qed.

(** Sorting any arrangement of a strictly increasing list gives that list. *)
Lemma sorted_unique es es' :
  StronglySorted (λ a b, e_seq a ≤ e_seq b) es → StronglySorted (λ a b, e_seq a < e_seq b) es' →
  es ≡ₚ es' → es = es'.
Proof.
  intros Hs Hs'. revert es Hs. induction Hs' as [|x' es' Hs' IH Hx']; intros es Hs Hp.
  - by apply Permutation_nil_r in Hp.
  - destruct Hs as [|x es Hs Hx]; [by apply Permutation_nil_l in Hp |].
    assert (x = x') as ->.
    { assert (x ∈ x' :: es') as Hin by (rewrite <- Hp; by left).
      apply elem_of_cons in Hin as [|Hin]; [done |]. exfalso. rewrite Forall_forall in Hx'. specialize (Hx' _ Hin).
      assert (x' ∈ x :: es) as Hin' by (rewrite Hp; by left). simpl in Hx'.
      apply elem_of_cons in Hin' as [->|Hin']; [lia |]. rewrite Forall_forall in Hx. specialize (Hx _ Hin').
      simpl in Hx. lia. }
    f_equal. apply IH; [done |]. by apply Permutation_cons_inv in Hp.
Qed.
End sorting.

(** ** The refinement *)

Section refinement.
Context {V : Type}.
Implicit Types (m : TopicMatcher V).

Definition compiles_to (levels : list pystr) (x : pystr * loc) : Prop :=
  _compile x.1 = Ok (Some levels).

#[local] Instance compiles_to_dec levels x : Decision (compiles_to levels x).
Proof.
  unfold compiles_to. destruct (_compile x.1) as [[l|]|e]; [| by right | by right].
  destruct (decide (l = levels)); [left; by subst | right; congruence].
Defined.

Definition root_at m (p : list pystr) : list loc :=
  match _root m with Some nd => tree_at nd p | None => [] end.

(** The representation invariant: every index entry points to its object, whose
    sequence is its location; locations increase in registration order; the
    tree holds, at each path, the filters that compile to it, in order. *)
Record Inv m : Prop := {
  inv_keys : NoDup (dkeys (_entries m));
  inv_objs : Forall (λ x, ∃ e, heap m !! x.2 = Some e ∧ _compile x.1 = Ok (e_levels e) ∧
                               e_seq e = Z.of_nat x.2) (_entries m);
  inv_next : _next_sequence m = len (heap m);
  inv_order : StronglySorted lt (snd <$> _entries m);
  inv_root : ∀ nd, _root m = Some nd → wf nd ∧ is_empty nd = false;
  inv_tree : ∀ p, root_at m p = snd <$> filter (compiles_to p) (_entries m) }.

(** The values of the registered filters, in registration order. *)
Definition value_at m (l : loc) : option V := e_value <$> heap m !! l.
Definition abs m : list (pystr * V) :=
  omap (λ x, v ← value_at m x.2; Some (x.1, v)) (_entries m).

Lemma Inv_init : Inv (@TopicMatcher_init V).
Proof. constructor; simpl; try done; constructor. Qed.

Lemma inv_entry m f l : Inv m → (f, l) ∈ _entries m →
  ∃ e, heap m !! l = Some e ∧ _compile f = Ok (e_levels e) ∧ e_seq e = Z.of_nat l.
Proof. intros Hi Hin. pose proof (inv_objs _ Hi) as H. rewrite Forall_forall in H. apply (H _ Hin). Qed.

Lemma locs_NoDup m : Inv m → NoDup (snd <$> _entries m).
Proof.
  intros Hi. pose proof (inv_order _ Hi) as Ho. induction Ho as [|x l Ho IH Hx]; constructor; [| done].
  intros Hin. rewrite Forall_forall in Hx. specialize (Hx _ Hin). lia.
Qed.

Lemma inv_once m nd : Inv m → _root m = Some nd → entries_once nd.
Proof.
  intros Hi Hr. pose proof (inv_tree _ Hi) as Ht. unfold root_at in Ht. rewrite Hr in Ht. split.
  - intros p. rewrite Ht. eapply sublist_NoDup; [by apply locs_NoDup |]. apply fmap_sublist, sublist_filter.
  - intros p q l Hp Hq. rewrite Ht in Hp, Hq.
    apply list_elem_of_fmap in Hp as ([f1 l1] & -> & [H1 Hin1]%list_elem_of_filter).
    apply list_elem_of_fmap in Hq as ([f2 l2] & Heq & [H2 Hin2]%list_elem_of_filter). simpl in *. subst l2.
    destruct (inv_entry _ _ _ Hi Hin1) as (e1 & He1 & Hc1 & _).
    destruct (inv_entry _ _ _ Hi Hin2) as (e2 & He2 & Hc2 & _). unfold compiles_to in *. simpl in *. congruence.
Qed.

Definition valid (h : list (_Entry V)) (x : pystr * loc) : Prop := is_Some (h !! x.2).
Definition absl (h : list (_Entry V)) (es : list (pystr * loc)) : list (pystr * V) :=
  omap (λ x, v ← e_value <$> h !! x.2; Some (x.1, v)) es.

Arguments absl : simpl never.

Lemma absl_cons h f l e es : h !! l = Some e → absl h ((f, l) :: es) = (f, e_value e) :: absl h es.
Proof. intros H. unfold absl. simpl. by rewrite H. Qed.

Lemma absl_keys h es : Forall (valid h) es → dkeys (absl h es) = dkeys es.
Proof.
  unfold dkeys. induction 1 as [|[f l] es [e He] Hes IH]; [done |]. simpl in He.
  rewrite (absl_cons _ _ _ e) by done. rewrite !fmap_cons. by f_equal.
Qed.

Lemma absl_grow h k es : Forall (valid h) es → absl (h ++ k) es = absl h es.
Proof.
  induction 1 as [|[f l] es [e He] Hes IH]; [done |]. simpl in He.
  rewrite (absl_cons h _ _ e), (absl_cons _ _ _ e), IH by (done || by apply lookup_app_l_Some). done.
Qed.

Lemma absl_app h es es' : absl h (es ++ es') = absl h es ++ absl h es'.
Proof. apply omap_app. Qed.

Lemma absl_write h es f l e :
  Forall (valid h) es → NoDup (snd <$> es) → dget f es = Some l →
  absl (<[l := e]> h) es = dset f (e_value e) (absl h es).
Proof.
  intros Hv Hn Hg. induction Hv as [|[f' l'] es [e' He'] Hv IH]; [done |]. simpl in *.
  apply NoDup_cons in Hn as [Hl Hn]. rewrite (absl_cons h _ _ e') by done. simpl. case_decide; simplify_eq.
  - rewrite (absl_cons _ _ _ e) by (apply list_lookup_insert_eq; by eapply lookup_lt_Some).
    f_equal. clear IH. induction Hv as [|[f2 l2] es [e2 He2] Hv IH]; [done |]. simpl in *.
    apply not_elem_of_cons in Hl as [? ?]. apply NoDup_cons in Hn as [_ ?].
    rewrite (absl_cons h _ _ e2), (absl_cons _ _ _ e2), IH by (done || by rewrite list_lookup_insert_ne). done.
  - assert (l ≠ l') by (intros ->; apply Hl; apply dget_Some_elem in Hg; apply list_elem_of_fmap; by exists (f, l')).
    rewrite (absl_cons _ _ _ e') by (by rewrite list_lookup_insert_ne). by rewrite IH.
Qed.

Lemma absl_del h es f : Forall (valid h) es → absl h (ddel f es) = ddel f (absl h es).
Proof.
  induction 1 as [|[f' l'] es [e' He'] Hv IH]; [done |]. simpl in *.
  rewrite (absl_cons h _ _ e') by done. simpl. case_decide; [done |]. rewrite (absl_cons h _ _ e') by done. by rewrite IH.
Qed.

Lemma inv_valid m : Inv m → Forall (valid (heap m)) (_entries m).
Proof. intros Hi. eapply Forall_impl; [apply (inv_objs _ Hi) |]. intros x (e & He & _). by exists e. Qed.

Lemma abs_get m f : Inv m → dget f (abs m) = (l ← dget f (_entries m); value_at m l).
Proof.
  intros Hi. unfold abs. pose proof (inv_valid m Hi) as Hv. unfold value_at. change (dget f (absl (heap m) (_entries m)) = (l ← dget f (_entries m); e_value <$> heap m !! l)).
  induction Hv as [|[f' l'] es [e' He'] Hv IH]; [done |]. simpl in *.
  rewrite (absl_cons _ _ _ e') by done. simpl. case_decide; [simpl; by rewrite He' | done].
Qed.

Lemma sorted_snoc (l : list nat) n : StronglySorted lt l → Forall (λ x, x < n)%nat l → StronglySorted lt (l ++ [n]).
Proof.
  induction 1 as [|x l Hs IH Hx]; intros Hl; simpl; [by repeat constructor |]. inversion Hl; subst.
  constructor; [auto |]. apply Forall_app; split; [done | by repeat constructor].
Qed.

(** Replacing a value in place. *)
Lemma setitem_old m f v l :
  Inv m → dget f (_entries m) = Some l →
  ∃ m', setitem m f v = Ok m' ∧ Inv m' ∧ abs m' = dset f v (abs m).
Proof.
  intros Hi Hg. unfold setitem. rewrite Hg. pose proof (dget_Some_elem _ _ _ Hg) as Hin.
  destruct (inv_entry _ _ _ Hi Hin) as (e & He & Hc & Hs). rewrite He. eexists; split; [done |].
  pose proof (locs_NoDup m Hi) as Hnd. split.
  - destruct Hi as [? Hobj Hnext ? ? Ht]. constructor; simpl; try done.
    + eapply Forall_impl; [exact Hobj |]. intros [f' l'] (e' & He' & Hc' & Hs'). simpl in *.
      destruct (decide (l' = l)) as [->|]; [| exists e'; by rewrite list_lookup_insert_ne].
      eexists; split_and!; [apply list_lookup_insert_eq; by eapply lookup_lt_Some | |]; simpl; congruence.
    + rewrite Hnext. unfold len. by rewrite length_insert.
  - apply (absl_write (heap m) (_entries m) f l {| e_seq := e_seq e; e_levels := e_levels e; e_value := v |});
      [by apply inv_valid | done | done].
Qed.

(** Registering a new filter. *)
Lemma setitem_new m f v levels :
  Inv m → dget f (_entries m) = None → _compile f = Ok levels →
  ∃ m', setitem m f v = Ok m' ∧ Inv m' ∧ abs m' = dset f v (abs m).
Proof.
  intros Hi Hg Hcomp. unfold setitem. rewrite Hg, Hcomp. cbn [rbind]. eexists; split; [done |].
  apply dget_None in Hg as Hk. pose proof (inv_valid m Hi) as Hv. split.
  - destruct Hi as [Hnd Hobj Hnext Hord Hroot Ht]. rewrite dset_new by done. constructor; simpl.
    + rewrite <- (dset_new f (length (heap m))) by done. by apply NoDup_dset.
    + apply Forall_app; split.
      * eapply Forall_impl; [exact Hobj |]. intros x (e' & He' & Hc'). exists e'. split; [| done].
        by apply lookup_app_l_Some.
      * constructor; [| done]. eexists. split; [by apply list_lookup_middle |]. simpl. by rewrite Hnext.
    + rewrite Hnext. len_lia.
    + rewrite fmap_app. apply sorted_snoc; [done |]. apply Forall_fmap. eapply Forall_impl; [exact Hv |].
      intros x [e He]. simpl. by eapply lookup_lt_Some.
    + intros nd Hnd'. destruct levels as [ls|]; [| by apply Hroot]. simplify_eq.
      apply insert_path_wf. destruct (_root m) eqn:Hr; [by apply Hroot | apply wf_new].
    + intros p. rewrite filter_app, fmap_app, <- Ht. unfold root_at; simpl. rewrite filter_cons, filter_nil.
      destruct levels as [ls|].
      * rewrite tree_at_insert. f_equal; [destruct (_root m); [done | apply tree_at_new] |].
        unfold compiles_to; simpl. repeat case_decide; simplify_eq/=; try done; congruence.
      * rewrite decide_False by (unfold compiles_to; simpl; congruence). simpl. by rewrite app_nil_r.
  - unfold abs. simpl. rewrite dset_new by done.
    change (absl (heap m ++ [{| e_seq := _next_sequence m; e_levels := levels; e_value := v |}]) (_entries m ++ [(f, length (heap m))]) = dset f v (absl (heap m) (_entries m))).
    rewrite absl_app, absl_grow by done. rewrite dset_new by (by rewrite absl_keys). f_equal.
    unfold absl. simpl. by rewrite list_lookup_middle.
Qed.

Lemma sorted_sublist (l k : list nat) : l `sublist_of` k → StronglySorted lt k → StronglySorted lt l.
Proof.
  induction 1 as [|x l k Hs IH|x l k Hs IH]; intros Hk; [done | |]; inversion Hk as [|? ? Hk' Hx]; subst; [| auto].
  constructor; [auto |]. rewrite Forall_forall in *. intros y Hy. apply Hx. by eapply elem_of_sublist.
Qed.

Lemma filter_ddel_ne P `{!∀ x : pystr * loc, Decision (P x)} f l es :
  dget f es = Some l → ¬ P (f, l) → filter P (ddel f es) = filter P es.
Proof.
  intros Hg HP. induction es as [|[f' l'] es IH]; [done |]. simpl in *. case_decide; simplify_eq.
  - by rewrite filter_cons_False.
  - rewrite !filter_cons, IH by done. done.
Qed.

Lemma filter_ddel_eq P `{!∀ x : pystr * loc, Decision (P x)} f l es :
  dget f es = Some l → P (f, l) → NoDup (snd <$> es) →
  snd <$> filter P (ddel f es) = del_first l (snd <$> filter P es).
Proof.
  intros Hg HP. induction es as [|[f' l'] es IH]; [done |]. rewrite fmap_cons, NoDup_cons. simpl in *.
  intros [Hl Hn]. case_decide; simplify_eq.
  - rewrite filter_cons_True by done. simpl. by case_decide.
  - rewrite !filter_cons. case_decide; [| auto]. rewrite !fmap_cons. cbn [del_first snd].
    rewrite IH by done. case_decide; [| done]. subst. destruct Hl. apply dget_Some_elem in Hg. apply list_elem_of_fmap. by exists (f, l).
Qed.

Lemma root_at_at m nd p : _root m = Some nd → root_at m p = tree_at nd p.
Proof. unfold root_at. by intros ->. Qed.

Lemma delitem_old m f l :
  Inv m → dget f (_entries m) = Some l →
  ∃ m', delitem m f = Ok m' ∧ Inv m' ∧ abs m' = ddel f (abs m).
Proof.
  intros Hi Hg. unfold delitem, deref. rewrite Hg. pose proof (dget_Some_elem _ _ _ Hg) as Hin.
  destruct (inv_entry _ _ _ Hi Hin) as (e & He & Hc & Hs). rewrite He. cbn [rbind].
  pose proof (locs_NoDup m Hi) as Hnd. pose proof (inv_valid m Hi) as Hv.
  assert (Hinv : ∀ r, (∀ nd, r = Some nd → wf nd ∧ is_empty nd = false) →
    (∀ p, match r with Some nd => tree_at nd p | None => [] end = snd <$> filter (compiles_to p) (ddel f (_entries m))) →
    Inv {| heap := heap m; _entries := ddel f (_entries m); _root := r; _next_sequence := _next_sequence m |}).
  { intros r Hr Ht. destruct Hi as [? Hobj ? Hord ? ?]. constructor; simpl; try done.
    - by apply NoDup_ddel.
    - rewrite Forall_forall in *. intros x Hx. eapply Hobj, elem_of_sublist; [exact Hx | apply ddel_sub].
    - eapply sorted_sublist, Hord. apply fmap_sublist, ddel_sub. }
  pose proof (absl_del (heap m) (_entries m) f Hv) as Habs.
  destruct (e_levels e) as [ls|] eqn:Hlev.
  - assert (Hat : l ∈ root_at m ls).
    { rewrite (inv_tree _ Hi). apply list_elem_of_fmap. exists (f, l). split; [done |].
      apply list_elem_of_filter. split; [unfold compiles_to; simpl; congruence | done]. }
    destruct (_root m) as [nd|] eqn:Hr; [| unfold root_at in Hat; rewrite Hr in Hat; by apply not_elem_of_nil in Hat].
    rewrite (root_at_at _ nd) in Hat by done. destruct (inv_root _ Hi nd Hr) as [Hwf _].
    destruct (delete_path_Ok ls l nd Hwf Hat) as (nd' & b & -> & Hwf' & _ & Htree). cbn [rbind].
    eexists; split; [done |]. split; [| exact Habs]. apply Hinv.
    + intros nd0 H0. destruct (is_empty nd') eqn:Hem; simplify_eq. done.
    + intros p. trans (tree_at nd' p).
      { destruct (is_empty nd') eqn:Hem; [by rewrite tree_at_empty | done]. }
      rewrite Htree, <- (root_at_at m) by done. rewrite (inv_tree _ Hi). case_decide.
      * subst p. symmetry. apply filter_ddel_eq; [done | unfold compiles_to; simpl; congruence | done].
      * erewrite filter_ddel_ne; [done | done |]. unfold compiles_to; simpl. congruence.
  - eexists; split; [done |]. split; [| exact Habs]. apply Hinv; [apply (inv_root _ Hi) |].
    intros p. change (root_at m p = snd <$> filter (compiles_to p) (ddel f (_entries m))).
    rewrite (inv_tree _ Hi). erewrite filter_ddel_ne; [done | done |]. unfold compiles_to; simpl. congruence.
Qed.

(** *** Matching *)

Definition es_of m (ls : list loc) : list (_Entry V) := omap (λ l, heap m !! l) ls.

Lemma derefs_Ok m ls : Forall (λ l, is_Some (heap m !! l)) ls → derefs m ls = Ok (es_of m ls).
Proof.
  induction 1 as [|l ls [e He] Hls IH]; [done |]. simpl. unfold deref. rewrite He. cbn [rbind]. by rewrite IH.
Qed.

Definition matching m (topic : pystr) : list (pystr * loc) :=
  filter (λ x, filter_match x.1 topic = true) (_entries m).

Lemma es_of_sorted m (ents : list (pystr * loc)) :
  Forall (λ x, ∃ e, heap m !! x.2 = Some e ∧ e_seq e = Z.of_nat x.2) ents →
  StronglySorted lt (snd <$> ents) → StronglySorted (λ a b, e_seq a < e_seq b) (es_of m (snd <$> ents)).
Proof.
  induction 1 as [|[f l] ents (e & He & Hs) Hents IH]; simpl; [constructor |]. simpl in *.
  inversion 1 as [|? ? Hsort Hl]; subst. rewrite He. constructor; [auto |].
  apply Forall_forall. intros e' (l' & Hl' & He')%list_elem_of_omap. apply list_elem_of_fmap in Hl' as ([f' n] & -> & Hin).
  rewrite Forall_forall in Hl. specialize (Hl n). rewrite Forall_forall in Hents.
  destruct (Hents _ Hin) as (e1 & He1 & Hs1). simpl in *.
  assert (l < n)%nat by (apply Hl, list_elem_of_fmap; by exists (f', n)). simplify_eq. lia.
Qed.

Lemma es_of_values m topic :
  Inv m → e_value <$> es_of m (snd <$> matching m topic) =
          snd <$> filter (λ x, filter_match x.1 topic = true) (abs m).
Proof.
  intros Hi. unfold matching. change (abs m) with (absl (heap m) (_entries m)). pose proof (inv_valid m Hi) as Hv.
  induction Hv as [|[f l] es [e He] Hv IH]; [done |]. simpl in He. rewrite (absl_cons _ _ _ e) by done.
  rewrite !filter_cons. simpl. case_decide; [| done]. rewrite !fmap_cons. unfold es_of in *. cbn. rewrite He. cbn. f_equal. exact IH.
Qed.

(** The exact-index candidate and the tree candidates are together the
    locations of the matching filters. *)
Lemma candidates_perm m topic exact M :
  Inv m →
  (∀ l, l ∈ exact ↔ (topic, l) ∈ _entries m ∧ _compile topic = Ok None) → NoDup exact →
  NoDup M → (∀ x, x ∈ M ↔ ∃ p, x ∈ root_at m p ∧ path_match p topic = true) →
  exact ++ M ≡ₚ snd <$> matching m topic.
Proof.
  intros Hi Hex Hexn HMn HM.
  assert (Hroot : ∀ x p, x ∈ root_at m p ↔ ∃ f, (f, x) ∈ _entries m ∧ _compile f = Ok (Some p)).
  { intros x p. rewrite (inv_tree _ Hi). rewrite list_elem_of_fmap. setoid_rewrite list_elem_of_filter.
    unfold compiles_to. split; [intros ([f l] & -> & ? & ?); eauto | intros (f & ? & ?); by exists (f, x)]. }
  apply NoDup_Permutation.
  - apply NoDup_app. split_and!; try done. intros l [Hl Hc]%Hex (p & (f & Hf & Hp)%Hroot & _)%HM.
    destruct (inv_entry _ _ _ Hi Hl) as (e & He & ? & _). destruct (inv_entry _ _ _ Hi Hf) as (e' & He' & ? & _). congruence.
  - eapply sublist_NoDup; [by apply (locs_NoDup m) |]. apply fmap_sublist, sublist_filter.
  - intros x. rewrite elem_of_app, Hex, HM. setoid_rewrite Hroot. unfold matching. rewrite list_elem_of_fmap.
    setoid_rewrite list_elem_of_filter. unfold filter_match. split.
    + intros [[Hin Hc]|(p & (f & Hf & Hp) & Hm)].
      * exists (topic, x). simpl. rewrite Hc. by rewrite bool_decide_true.
      * exists (f, x). simpl. by rewrite Hp.
    + intros ([f l] & -> & Hm & Hin). simpl in *. destruct (_compile f) as [[ls|]|] eqn:Hc; [right; eauto 10 | | done].
      left. bools. by subst.
Qed.

Lemma iter_match_spec m topic :
  Inv m → iter_match m topic = Ok (snd <$> filter (λ x, filter_match x.1 topic = true) (abs m)).
Proof.
  intros Hi. unfold iter_match. rewrite <- es_of_values by done.
  set (exact := match dget topic (_entries m) with
                | Some l => match _compile topic with Ok None => [l] | _ => [] end | None => [] end).
  assert (match dget topic (_entries m) with
          | Some l => let! e := deref m l in Ok (match e_levels e with Some _ => [] | None => [l] end)
          | None => Ok [] end = Ok exact) as ->.
  { unfold exact. destruct (dget topic (_entries m)) as [l|] eqn:Hg; [| done].
    destruct (inv_entry _ _ _ Hi (dget_Some_elem _ _ _ Hg)) as (e & He & -> & _). unfold deref. rewrite He. simpl.
    by destruct (e_levels e). }
  cbn [rbind].
  assert (Hex : ∀ l, l ∈ exact ↔ (topic, l) ∈ _entries m ∧ _compile topic = Ok None).
  { intros l. unfold exact. destruct (dget topic (_entries m)) as [l'|] eqn:Hg.
    - apply dget_Some_elem in Hg as Hin'. destruct (_compile topic) as [[]|];
        rewrite ?list_elem_of_singleton; split; try (by intros ?%not_elem_of_nil); try (by intros [_ [=]]).
      + intros ->. done.
      + intros [Hin _]. apply (dget_elem_NoDup _ _ _ (inv_keys _ Hi)) in Hin. congruence.
    - split; [by intros ?%not_elem_of_nil |]. intros [Hin _].
      apply (dget_elem_NoDup _ _ _ (inv_keys _ Hi)) in Hin. congruence. }
  assert (Hexn : NoDup exact).
  { unfold exact. repeat case_match; constructor; try constructor; apply not_elem_of_nil. }
  assert (Hvalid : ∀ l, l ≡ₚ snd <$> matching m topic → derefs m l = Ok (es_of m l)).
  { intros l Hl. apply derefs_Ok. rewrite Hl. apply Forall_fmap, Forall_forall. intros x [_ Hx]%list_elem_of_filter.
    pose proof (inv_valid m Hi) as Hv. rewrite Forall_forall in Hv. apply (Hv _ Hx). }
  assert (Hsorted : StronglySorted (λ a b, e_seq a < e_seq b) (es_of m (snd <$> matching m topic))).
  { apply es_of_sorted.
    - apply Forall_forall. intros [f l] [_ Hx]%list_elem_of_filter.
      destruct (inv_entry _ _ _ Hi Hx) as (e & ? & _ & ?). by exists e.
    - eapply sorted_sublist, (inv_order _ Hi). apply fmap_sublist, sublist_filter. }
  destruct (_root m) as [root|] eqn:Hr.
  - destruct (inv_root _ Hi _ Hr) as [Hwf _].
    destruct (root_walk root topic exact Hwf (inv_once _ _ Hi Hr)) as (l & M & -> & Hl & HM & HMin). cbn [rbind].
    assert (l ≡ₚ snd <$> matching m topic) as Hp.
    { rewrite Hl. apply candidates_perm; try done. intros x. rewrite HMin.
      by setoid_rewrite (root_at_at _ _ _ Hr). }
    rewrite Hvalid by done. cbn [rbind]. f_equal. f_equal.
    assert (es_of m l ≡ₚ es_of m (snd <$> matching m topic)) as Hpe by (unfold es_of; by rewrite Hp).
    rewrite Z.gtb_ltb. case_if; bools.
    + apply sorted_unique; [apply sort_seq_sorted | done |]. by rewrite sort_seq_perm.
    + assert (length (es_of m l) ≤ 1)%nat as Hlen by (unfold len in *; lia).
      destruct (es_of m l) as [|e [|e2 es]]; [by apply Permutation_nil_l in Hpe | | simpl in Hlen; lia].
      by apply Permutation_singleton_l in Hpe as ->.
  - assert (exact ≡ₚ snd <$> matching m topic) as Hp.
    { rewrite <- (app_nil_r exact). apply candidates_perm; try done; [constructor |].
      intros x. split; [by intros ?%not_elem_of_nil |]. intros (p & Hx & _). unfold root_at in Hx. by rewrite Hr in Hx. }
    rewrite Hvalid by done. cbn [rbind]. f_equal. f_equal.
    assert (es_of m exact ≡ₚ es_of m (snd <$> matching m topic)) as Hpe by (unfold es_of; by rewrite Hp).
    assert (length (es_of m exact) ≤ 1)%nat as Hlen.
    { unfold es_of. unfold exact. repeat case_match; simpl; try case_match; simpl; lia. }
    destruct (es_of m exact) as [|e [|e2 es]]; [by apply Permutation_nil_l in Hpe | | simpl in Hlen; lia].
    by apply Permutation_singleton_l in Hpe as ->.
Qed.

Lemma items_spec m : Inv m → items m = Ok (abs m).
Proof.
  intros Hi. unfold items. pose proof (inv_valid m Hi) as Hv. rewrite derefs_Ok by (by apply Forall_fmap).
  cbn [rbind]. f_equal. change (abs m) with (absl (heap m) (_entries m)).
  induction Hv as [|[f l] es [e He] Hv IH]; [done |]. simpl in He. rewrite (absl_cons _ _ _ e) by done.
  unfold es_of in *. cbn. rewrite He. cbn. f_equal. exact IH.
Qed.

Lemma getitem_spec m f :
  Inv m → getitem m f = match dget f (abs m) with Some v => Ok v | None => Raise KeyError end.
Proof.
  intros Hi. rewrite abs_get by done. unfold getitem, deref, value_at.
  destruct (dget f (_entries m)) as [l|] eqn:Hg; [| done]. simpl.
  destruct (inv_entry _ _ _ Hi (dget_Some_elem _ _ _ Hg)) as (e & -> & _). done.
Qed.

(** Registrations and removals, as a client issues them; an operation that
    raises changes nothing. *)
Inductive mop := Set_ (f : pystr) (v : V) | Del_ (f : pystr).

Definition run_op m (op : mop) : TopicMatcher V :=
  match (match op with Set_ f v => setitem m f v | Del_ f => delitem m f end) with
  | Ok m' => m'
  | Raise _ => m
  end.

Definition spec_op (s : list (pystr * V)) (op : mop) : list (pystr * V) :=
  match op with
  | Set_ f v => if dmem f s || is_ok (_compile f) then dset f v s else s
  | Del_ f => ddel f s
  end.

Lemma ddel_absent {W} (f : pystr) (s : list (pystr * W)) : dget f s = None → ddel f s = s.
Proof. induction s as [|[k v] s IH]; simpl; [done |]. case_decide; [done |]. intros. by rewrite IH. Qed.

Lemma abs_mem m f : Inv m → dmem f (abs m) = dmem f (_entries m).
Proof.
  intros Hi. unfold dmem. rewrite abs_get by done. destruct (dget f (_entries m)) as [l|] eqn:Hg; [| done].
  destruct (inv_entry _ _ _ Hi (dget_Some_elem _ _ _ Hg)) as (e & He & _). simpl. unfold value_at. by rewrite He.
Qed.

Lemma run_op_spec m op : Inv m → Inv (run_op m op) ∧ abs (run_op m op) = spec_op (abs m) op.
Proof.
  intros Hi. unfold run_op, spec_op. destruct op as [f v|f].
  - rewrite abs_mem by done. unfold dmem. destruct (dget f (_entries m)) as [l|] eqn:Hg; simpl.
    + destruct (setitem_old m f v l Hi Hg) as (m' & -> & ? & ?). done.
    + destruct (_compile f) as [levels|e] eqn:Hc; simpl.
      * destruct (setitem_new m f v levels Hi Hg Hc) as (m' & -> & ? & ?). done.
      * unfold setitem. rewrite Hg, Hc. done.
  - destruct (dget f (_entries m)) as [l|] eqn:Hg.
    + destruct (delitem_old m f l Hi Hg) as (m' & -> & ? & ?). done.
    + unfold delitem. rewrite Hg. split; [done |]. symmetry. apply ddel_absent. rewrite abs_get by done. by rewrite Hg.
Qed.

Lemma run_ops_spec ops m :
  Inv m → Inv (foldl run_op m ops) ∧ abs (foldl run_op m ops) = foldl spec_op (abs m) ops.
Proof.
  revert m. induction ops as [|op ops IH]; intros m Hi; [done |]. simpl.
  destruct (run_op_spec m op Hi) as [Hi' <-]. by apply IH.
Qed.

(** C5: [TopicMatcher] refines a linear scan.  After any sequence of
    registrations and removals, the index, the prefix tree and the entry
    objects behave as an insertion-ordered dictionary: [items] lists it,
    [__getitem__] looks it up ([KeyError] when absent), and [iter_match]
    terminates and yields exactly the values whose filters match the topic
    under the MQTT rules, in registration order. *)
Theorem matcher_refines ops :
  let m := foldl run_op TopicMatcher_init ops in
  let s := foldl spec_op [] ops in
  items m = Ok s ∧
  (∀ f, getitem m f = match dget f s with Some v => Ok v | None => Raise KeyError end) ∧
  (∀ topic, iter_match m topic = Ok (snd <$> filter (λ x, filter_match x.1 topic = true) s)).
Proof.
  intros m s. destruct (run_ops_spec ops _ Inv_init) as [Hi Ha]. fold m s in Ha, Hi.
  change (foldl spec_op (abs TopicMatcher_init) ops) with s in Ha. rewrite <- Ha.
  split_and!; [by apply items_spec | intros; by apply getitem_spec | intros; by apply iter_match_spec].
Qed.

(** Pruning leaves nothing behind.  After any sequence of registrations and
    removals the prefix tree exists exactly when a wildcard or shared filter is
    registered, and no node of it is dead: each child kept is non-empty. *)
Theorem matcher_pruned ops :
  let m := foldl run_op TopicMatcher_init ops in
  (_root m = None ↔ Forall (λ x : pystr * V, _compile x.1 = Ok None) (foldl spec_op [] ops)) ∧
  (∀ nd, _root m = Some nd → wf nd ∧ is_empty nd = false).
Proof.
  intros m. destruct (run_ops_spec ops _ Inv_init) as [Hi Ha]. fold m in Ha, Hi.
  change (foldl spec_op (abs TopicMatcher_init) ops) with (foldl (@spec_op) [] ops) in Ha.
  split; [| apply (inv_root _ Hi)].
  assert (Forall (λ x, _compile x.1 = Ok None) (foldl spec_op [] ops) ↔
          Forall (λ f, _compile f = Ok None) (dkeys (_entries m))) as ->.
  { rewrite <- Ha. rewrite <- (absl_keys (heap m)) by (by apply inv_valid). unfold dkeys. by rewrite Forall_fmap. }
  split.
  - intros Hr. unfold dkeys. apply Forall_fmap, Forall_forall. intros [f l] Hin. simpl.
    destruct (inv_entry _ _ _ Hi Hin) as (e & He & Hc & _). rewrite Hc. destruct (e_levels e) as [p|]; [| done].
    pose proof (inv_tree _ Hi p) as Ht. unfold root_at in Ht. rewrite Hr in Ht. exfalso.
    assert (l ∈ snd <$> filter (compiles_to p) (_entries m)) as H; [| rewrite <- Ht in H; by apply not_elem_of_nil in H].
    apply list_elem_of_fmap. exists (f, l). split; [done |]. by apply list_elem_of_filter.
  - intros Hall. destruct (_root m) as [nd|] eqn:Hr; [| done]. exfalso.
    destruct (inv_root _ Hi _ Hr) as [Hwf Hne]. destruct (wf_live nd Hwf Hne) as (p & l & Hl).
    rewrite <- (root_at_at m) in Hl by done. rewrite (inv_tree _ Hi) in Hl.
    apply list_elem_of_fmap in Hl as ([f ?] & -> & [Hc Hin]%list_elem_of_filter).
    unfold dkeys in Hall. rewrite Forall_fmap, Forall_forall in Hall. specialize (Hall _ Hin).
    unfold compiles_to in Hc. simpl in *. congruence.
Qed.
End refinement.
