(* ===== verification/Types.v ===== *)
(** * Messages and session rows ([src/mqttium/types.py],
    [src/mqttium/transport/writes.py]) *)

From S2P Require Import Prelude PyStr Enums Properties.

(** A [Message] of the application; [_ack_token] identifies the inbound receipt
    an acknowledgement refers to (assigned by the inbound session). *)
Record Message := {
  m_topic : pystr;
  m_payload : bytes;
  m_qos : QoS;
  m_retain : bool;
  m_dup : bool;
  m_mid : option Z;
  m_properties : option propmap;
  m_ack_token : option Z }.

Definition _decoded_message (topic : pystr) (payload : bytes) (qos : QoS) (retain dup : bool)
    (mid : option Z) (properties : option propmap) : Message :=
  {| m_topic := topic; m_payload := payload; m_qos := qos; m_retain := retain; m_dup := dup;
     m_mid := mid; m_properties := properties; m_ack_token := None |}.

(** [WriteItem]: contiguous bytes, or a header and a shared payload. *)
Inductive WriteItem := Contiguous (b : bytes) | Segmented (header payload : bytes).

Definition SEGMENT_THRESHOLD : Z := 128 * 1024.

Definition item_size (item : WriteItem) : Z :=
  match item with Contiguous b => len b | Segmented h p => len h + len p end.

(** The bytes an item puts on the wire. *)
Definition item_bytes (item : WriteItem) : bytes :=
  match item with Contiguous b => b | Segmented h p => h ++ p end.

Lemma item_size_bytes item : item_size item = len (item_bytes item).
Proof. destruct item; simpl; [done | by rewrite len_app]. Qed.

Definition _properties_without_topic_alias (properties : option propmap) : option propmap :=
  match properties with
  | None => None
  | Some values =>
      match dget "topic_alias"%string values with
      | None | Some VNone => properties
      | Some _ => Some (Properties_init (ddel "topic_alias"%string values))
      end
  end.

(** ** Session rows *)

Record OutboundMessage := mkOut {
  o_mid : Z;
  o_topic : pystr;
  o_payload : bytes;
  o_qos : QoS;
  o_retain : bool;
  o_state : OutboundQoSState;
  o_dup : bool;
  o_properties : option propmap;
  o_encoded_publish : option WriteItem;
  o_encoded_pubrel : option bytes;
  o_logical_size : Z }.

(** Attribute assignments of an [OutboundMessage]. *)
Definition o_set_state (m : OutboundMessage) (st : OutboundQoSState) : OutboundMessage :=
  mkOut (o_mid m) (o_topic m) (o_payload m) (o_qos m) (o_retain m) st (o_dup m) (o_properties m)
    (o_encoded_publish m) (o_encoded_pubrel m) (o_logical_size m).
Definition o_set_dup (m : OutboundMessage) (dup : bool) : OutboundMessage :=
  mkOut (o_mid m) (o_topic m) (o_payload m) (o_qos m) (o_retain m) (o_state m) dup (o_properties m)
    (o_encoded_publish m) (o_encoded_pubrel m) (o_logical_size m).
Definition o_set_properties (m : OutboundMessage) (ps : option propmap) : OutboundMessage :=
  mkOut (o_mid m) (o_topic m) (o_payload m) (o_qos m) (o_retain m) (o_state m) (o_dup m) ps
    (o_encoded_publish m) (o_encoded_pubrel m) (o_logical_size m).
Definition o_set_encoded_publish (m : OutboundMessage) (w : option WriteItem) : OutboundMessage :=
  mkOut (o_mid m) (o_topic m) (o_payload m) (o_qos m) (o_retain m) (o_state m) (o_dup m) (o_properties m)
    w (o_encoded_pubrel m) (o_logical_size m).
Definition o_set_encoded_pubrel (m : OutboundMessage) (w : option bytes) : OutboundMessage :=
  mkOut (o_mid m) (o_topic m) (o_payload m) (o_qos m) (o_retain m) (o_state m) (o_dup m) (o_properties m)
    (o_encoded_publish m) w (o_logical_size m).
(** [topic = ""; payload = b""; properties = None; encoded_publish = None]. *)
Definition o_compact (m : OutboundMessage) : OutboundMessage :=
  mkOut (o_mid m) [] [] (o_qos m) (o_retain m) (o_state m) (o_dup m) None None
    (o_encoded_pubrel m) (o_logical_size m).

Record OutboundMessageSummary := mkSummary {
  s_mid : Z;
  s_topic : pystr;
  s_payload_size : Z;
  s_qos : QoS;
  s_retain : bool;
  s_state : OutboundQoSState;
  s_dup : bool;
  s_properties : option propmap;
  s_logical_size : Z }.

Definition from_message (m : OutboundMessage) : OutboundMessageSummary :=
  mkSummary (o_mid m) (o_topic m) (len (o_payload m)) (o_qos m) (o_retain m) (o_state m) (o_dup m)
    (o_properties m) (o_logical_size m).

Record OutboundRecordMeta := { om_mid : Z; om_state : OutboundQoSState; om_logical_size : Z }.

Record InboundMessage := mkIn {
  i_mid : Z;
  i_topic : pystr;
  i_payload : bytes;
  i_qos : QoS;
  i_retain : bool;
  i_state : In.InboundQoSState;
  i_delivered : bool;
  i_properties : option propmap;
  i_user_acked : bool;
  i_logical_size : Z }.

Definition i_set_state (m : InboundMessage) (st : In.InboundQoSState) (user_acked : bool) : InboundMessage :=
  mkIn (i_mid m) (i_topic m) (i_payload m) (i_qos m) (i_retain m) st (i_delivered m) (i_properties m)
    user_acked (i_logical_size m).
Definition i_set_properties (m : InboundMessage) (ps : option propmap) : InboundMessage :=
  mkIn (i_mid m) (i_topic m) (i_payload m) (i_qos m) (i_retain m) (i_state m) (i_delivered m) ps (i_user_acked m)
    (i_logical_size m).
Definition i_set_delivered (m : InboundMessage) : InboundMessage :=
  mkIn (i_mid m) (i_topic m) (i_payload m) (i_qos m) (i_retain m) (i_state m) true (i_properties m)
    (i_user_acked m) (i_logical_size m).

Record InboundRecordMeta := {
  im_mid : Z; im_state : In.InboundQoSState; im_user_acked : bool; im_delivered : bool; im_logical_size : Z }.
