(* ===== verification/Frame.v ===== *)
(** * Framing shared by every packet module
    ([src/mqttium/packets/_common.py]) *)

From S2P Require Import Prelude Vbi PyStr Primitives Enums Properties.

(** [bytes((...))] / [bytearray((...))]: [ValueError] outside 0..255. *)
Definition mk_bytes (l : list Z) : res bytes :=
  if forallb (λ b, (0 <=? b) && (b <? 256)) l then Ok l else Raise ValueError.

Definition encode_frame (packet_type : PacketType) (flags : Z) (remaining : bytes) : res bytes :=
  raise! ValueError when negb (Z.land flags 0xF0 =? 0);
  let! header := mk_bytes [Z.lor (PacketType_int packet_type) (Z.land flags 0x0F)] in
  let! header := append_vbi header (len remaining) in
  Ok (header ++ remaining).

Definition _require_outbound_mid (mid : Z) : res unit :=
  raise! ProtocolError when negb ((1 <=? mid) && (mid <=? 65535));
  Ok tt.

Definition _require_outbound_reason (reason : Z) (allowed : list Z) : res unit :=
  raise! ProtocolError when negb (zin reason allowed);
  Ok tt.

Definition validate_payload_format (payload : bytes) (properties : option propmap) : res unit :=
  match properties with
  | None => Ok tt
  | Some ps =>
      match dget "payload_format_indicator"%string ps with
      | Some (VInt 1) =>
          match utf8_decode payload with Some _ => Ok tt | None => Raise ProtocolError end
      | _ => Ok tt
      end
  end.

(** [properties and properties.values]. *)
Definition has_values (properties : option propmap) : bool :=
  match properties with Some (_ :: _) => true | _ => false end.

(** ** The wire form of a packet *)

(** [d] is the packet with first byte [hd] and remaining bytes [body]. *)
Definition framed (d : bytes) (hd : Z) (body : bytes) : Prop :=
  ∃ n, encode_vbi (len body) = Ok n ∧ d = hd :: n ++ body.

Lemma framed_intro hd h body : append_vbi [hd] (len body) = Ok h → framed (h ++ body) hd body.
Proof. intros (n & Hn & ->)%append_vbi_encode. exists n. by rewrite <- app_assoc. Qed.

Lemma framed_small hd body : len body < 128 → framed (hd :: len body :: body) hd body.
Proof.
  intros H. exists [len body]. split; [| done]. pose proof (len_nonneg body). unfold encode_vbi.
  rewrite (proj2 (Z.ltb_lt _ 128)), (proj2 (Z.ltb_ge _ 0)) by lia. unfold VBI_ONE.
  rewrite list_lookup_fmap, lookup_seq_lt by lia. simpl. by rewrite Z2Nat.id by lia.
Qed.

Lemma mk_bytes_inv l b : mk_bytes l = Ok b → b = l ∧ bytes_ok l.
Proof.
  unfold mk_bytes. destruct (forallb _ l) eqn:E; [intros [= <-] | done]. split; [done |].
  apply Forall_forall. intros x Hx%list_elem_of_In. rewrite forallb_forall in E. specialize (E x Hx). bools.
  unfold byte_ok. lia.
Qed.

Lemma mk_bytes_Ok l : bytes_ok l → mk_bytes l = Ok l.
Proof.
  intros H. unfold mk_bytes. rewrite (proj2 (forallb_forall _ _)); [done |].
  intros x Hx%list_elem_of_In. rewrite Forall_forall in H. specialize (H x Hx). unfold byte_ok in H.
  apply andb_true_intro. split; [apply Z.leb_le | apply Z.ltb_lt]; lia.
Qed.

Lemma encode_frame_inv t f r d :
  encode_frame t f r = Ok d → framed d (Z.lor (PacketType_int t) (Z.land f 0x0F)) r ∧ Z.land f 0xF0 = 0.
Proof.
  unfold encode_frame. intros H. res_inv. bools. apply mk_bytes_inv in Hv as [-> _].
  split; [by apply framed_intro | done].
Qed.

(** The two bytes of a packet identifier. *)
Lemma mid_hi mid : Z.shiftr mid 8 = mid / 256.
Proof. rewrite Z.shiftr_div_pow2 by lia. done. Qed.
Lemma mid_lo mid : Z.land mid 0xFF = mid mod 256.
Proof. change 0xFF with (Z.ones 8). rewrite Z.land_ones by lia. done. Qed.
Lemma mid_join hi lo : 0 ≤ lo < 256 → Z.lor (Z.shiftl hi 8) lo = hi * 256 + lo.
Proof. intros. by rewrite (shiftl_lor hi lo 8) by lia. Qed.
Lemma mid_split mid : 0 ≤ mid → Z.lor (Z.shiftl (mid / 256) 8) (mid mod 256) = mid.
Proof.
  intros. rewrite mid_join by (apply Z.mod_pos_bound; lia). pose proof (Z.div_mod mid 256). lia.
Qed.
Lemma mid_bytes mid : 0 ≤ mid ≤ 65535 → byte_ok (mid / 256) ∧ byte_ok (mid mod 256).
Proof.
  intros. unfold byte_ok. pose proof (Z.mod_pos_bound mid 256). pose proof (Z.div_pos mid 256).
  pose proof (Z.div_lt_upper_bound mid 256 256). lia.
Qed.

(** Concrete byte strings. *)
Ltac bytes_by_compute :=
  match goal with |- Forall byte_ok ?l => apply (bool_decide_eq_true_1 (Forall byte_ok l)); vm_compute; reflexivity end.
