(* ===== verification/Ack.v ===== *)
(** * Acknowledgements: PUBACK, PUBREC, PUBREL, PUBCOMP
    ([src/mqttium/packets/_ack.py], [src/mqttium/packets/acks.py])

    The source writes the four decoders of each version out in full; they differ
    in the packet's name, its reason codes and its property table only. *)

From S2P Require Import Prelude Vbi PyStr Primitives Enums Properties Frame.

Abbreviation ack_fields := (Z * Z * option propmap)%type.

Definition decode_ack_v311 (remaining : bytes) : res ack_fields :=
  let size := len remaining in
  raise! MalformedPacketError when negb (size =? 2);
  let! b0 := idx remaining 0 in
  let! b1 := idx remaining 1 in
  let mid := Z.lor (Z.shiftl b0 8) b1 in
  raise! MalformedPacketError when mid =? 0;
  Ok (mid, 0, None).

Definition decode_puback_v311 := decode_ack_v311.
Definition decode_pubrec_v311 := decode_ack_v311.
Definition decode_pubrel_v311 := decode_ack_v311.
Definition decode_pubcomp_v311 := decode_ack_v311.

Definition encode_ack_success (first_byte mid : Z) : res bytes :=
  mk_bytes [first_byte; 2; Z.shiftr mid 8; Z.land mid 0xFF].

Definition encode_puback_success := encode_ack_success 0x40.
Definition encode_pubrec_success := encode_ack_success 0x50.
Definition encode_pubrel_success := encode_ack_success 0x62.
Definition encode_pubcomp_success := encode_ack_success 0x70.

Definition _encode_ack_v311 (first_byte mid reason_code : Z) (properties : option propmap) : res bytes :=
  raise! ProtocolError when negb ((1 <=? mid) && (mid <=? 65535));
  raise! ProtocolError when negb (reason_code =? 0) || has_values properties;
  mk_bytes [first_byte; 2; Z.shiftr mid 8; Z.land mid 0xFF].

Definition encode_puback_v311 := _encode_ack_v311 0x40.
Definition encode_pubrec_v311 := _encode_ack_v311 0x50.
Definition encode_pubrel_v311 := _encode_ack_v311 0x62.
Definition encode_pubcomp_v311 := _encode_ack_v311 0x70.

Definition _PUBACK_REASONS : list Z := [0x00; 0x10; 0x80; 0x83; 0x87; 0x90; 0x91; 0x97; 0x99].
Definition _PUBREC_REASONS := _PUBACK_REASONS.
Definition _PUBREL_REASONS : list Z := [0x00; 0x92].
Definition _PUBCOMP_REASONS := _PUBREL_REASONS.

Definition decode_ack_v5 (packet : pctx) (allowed : list Z) (remaining : bytes) : res ack_fields :=
  let size := len remaining in
  raise! MalformedPacketError when size <? 2;
  let! b0 := idx remaining 0 in
  let! b1 := idx remaining 1 in
  let mid := Z.lor (Z.shiftl b0 8) b1 in
  raise! MalformedPacketError when mid =? 0;
  if size =? 2 then Ok (mid, 0, None)
  else
    let! reason := idx remaining 2 in
    raise! MalformedPacketError when negb (zin reason allowed);
    if size =? 3 then Ok (mid, reason, None)
    else
      let! '(properties, pos) := decode_properties remaining 3 packet in
      let! _ := require_end pos size in
      Ok (mid, reason, Some properties).

Definition decode_puback_v5 := decode_ack_v5 cPUBACK _PUBACK_REASONS.
Definition decode_pubrec_v5 := decode_ack_v5 cPUBREC _PUBREC_REASONS.
Definition decode_pubrel_v5 := decode_ack_v5 cPUBREL _PUBREL_REASONS.
Definition decode_pubcomp_v5 := decode_ack_v5 cPUBCOMP _PUBCOMP_REASONS.

Definition _encode_ack_v5 (first_byte : Z) (packet : pctx) (allowed : list Z)
    (mid reason_code : Z) (properties : option propmap) : res bytes :=
  raise! ProtocolError when negb ((1 <=? mid) && (mid <=? 65535));
  if (reason_code =? 0) && negb (has_values properties) then
    mk_bytes [first_byte; 2; Z.shiftr mid 8; Z.land mid 0xFF]
  else
    raise! ProtocolError when negb (zin reason_code allowed);
    if negb (has_values properties) then
      mk_bytes [first_byte; 3; Z.shiftr mid 8; Z.land mid 0xFF; reason_code]
    else
      let! body := mk_bytes [Z.shiftr mid 8; Z.land mid 0xFF; reason_code] in
      let! p := encode_properties properties packet in
      let body := body ++ p in
      let! header := mk_bytes [first_byte] in
      let! header := append_vbi header (len body) in
      Ok (header ++ body).

Definition encode_puback_v5 := _encode_ack_v5 0x40 cPUBACK _PUBACK_REASONS.
Definition encode_pubrec_v5 := _encode_ack_v5 0x50 cPUBREC _PUBREC_REASONS.
Definition encode_pubrel_v5 := _encode_ack_v5 0x62 cPUBREL _PUBREL_REASONS.
Definition encode_pubcomp_v5 := _encode_ack_v5 0x70 cPUBCOMP _PUBCOMP_REASONS.

(** ** The packet classes of [acks.py] *)

Inductive ack_kind := PubAck | PubRec | PubRel | PubComp.

Record AckPacket := { a_mid : Z; a_reason_code : Z; a_properties : option propmap }.

Definition ack_encode (k : ack_kind) (self : AckPacket) (protocol : MQTTProtocolVersion) : res bytes :=
  let apply f := f (a_mid self) (a_reason_code self) (a_properties self) in
  match protocol, k with
  | MQTTv5, PubAck => apply encode_puback_v5
  | MQTTv5, PubRec => apply encode_pubrec_v5
  | MQTTv5, PubRel => apply encode_pubrel_v5
  | MQTTv5, PubComp => apply encode_pubcomp_v5
  | MQTTv311, PubAck => apply encode_puback_v311
  | MQTTv311, PubRec => apply encode_pubrec_v311
  | MQTTv311, PubRel => apply encode_pubrel_v311
  | MQTTv311, PubComp => apply encode_pubcomp_v311
  end.

Definition ack_decode (k : ack_kind) (remaining : bytes) (protocol : MQTTProtocolVersion) : res AckPacket :=
  let! '(mid, reason, props) :=
    match protocol, k with
    | MQTTv5, PubAck => decode_puback_v5 remaining
    | MQTTv5, PubRec => decode_pubrec_v5 remaining
    | MQTTv5, PubRel => decode_pubrel_v5 remaining
    | MQTTv5, PubComp => decode_pubcomp_v5 remaining
    | MQTTv311, PubAck => decode_puback_v311 remaining
    | MQTTv311, PubRec => decode_pubrec_v311 remaining
    | MQTTv311, PubRel => decode_pubrel_v311 remaining
    | MQTTv311, PubComp => decode_pubcomp_v311 remaining
    end in
  Ok {| a_mid := mid; a_reason_code := reason; a_properties := props |}.

(** ** Round trips *)

Definition ack_ctx (k : ack_kind) : pctx :=
  match k with PubAck => cPUBACK | PubRec => cPUBREC | PubRel => cPUBREL | PubComp => cPUBCOMP end.
Definition ack_reasons (k : ack_kind) : list Z :=
  match k with PubAck | PubRec => _PUBACK_REASONS | PubRel | PubComp => _PUBREL_REASONS end.
Definition ack_byte (k : ack_kind) : Z :=
  match k with PubAck => 0x40 | PubRec => 0x50 | PubRel => 0x62 | PubComp => 0x70 end.

(** What the decoder gives back for the properties of an acknowledgement. *)
Definition ack_normal (c : pctx) (ps : option propmap) : option propmap :=
  match ps with Some (e :: ps) => Some (normalise c (e :: ps)) | _ => None end.

(** A property mapping a peer can decode: dictionary keys are distinct and
    repeatable values stay within the decoder's budget. *)
Definition sendable (c : pctx) (ps : option propmap) : Prop :=
  match ps with
  | None => True
  | Some ps => NoDup (dkeys ps) ∧ repeat_count c ps ≤ MAX_REPEATABLE_PROPERTIES
  end.

Lemma decode_ack_v311_bytes mid :
  1 ≤ mid ≤ 65535 → decode_ack_v311 [mid / 256; mid mod 256] = Ok (mid, 0, None).
Proof.
  intros H. unfold decode_ack_v311. change (len [mid / 256; mid mod 256]) with 2. simpl. rewrite mid_split by lia.
  rewrite (proj2 (Z.eqb_neq mid 0)) by lia. done.
Qed.

Lemma idx_0 x b : idx (x :: b) 0 = Ok x.
Proof. done. Qed.
Lemma idx_1 x y b : idx (x :: y :: b) 1 = Ok y.
Proof. done. Qed.
Lemma idx_2 x y z b : idx (x :: y :: z :: b) 2 = Ok z.
Proof. done. Qed.

Lemma decode_ack_v5_bytes c allowed mid reason (p : option bytes) ps :
  1 ≤ mid ≤ 65535 → zin reason allowed = true →
  match p with
  | None => ps = None
  | Some p => p ≠ [] ∧ ∃ m, ps = Some m ∧ decode_properties ([mid / 256; mid mod 256; reason] ++ p) 3 c = Ok (m, 3 + len p)
  end →
  decode_ack_v5 c allowed ([mid / 256; mid mod 256; reason] ++ match p with Some p => p | None => [] end) =
    Ok (mid, reason, ps).
Proof.
  intros Hm Hr Hp. unfold decode_ack_v5. simpl app. rewrite idx_0, idx_1, idx_2. cbn [rbind].
  rewrite mid_split by lia. rewrite !len_cons, (proj2 (Z.eqb_neq mid 0)), Hr by lia.
  destruct p as [p|]; simpl negb; cbv iota.
  - destruct Hp as (Hne & m & -> & Hd). simpl app in Hd.
    assert (0 < len p) by (destruct p; [done | len_lia]).
    rewrite (proj2 (Z.ltb_ge _ 2)), (proj2 (Z.eqb_neq _ 2)), (proj2 (Z.eqb_neq _ 3)), Hd by lia. cbn [rbind].
    unfold require_end. rewrite (proj2 (Z.eqb_eq (3 + len p) _)) by lia. done.
  - subst ps. done.
Qed.

Lemma has_values_spec ps : has_values ps = true → ∃ e l, ps = Some (e :: l).
Proof. destruct ps as [[|e l]|]; [done | eauto | done]. Qed.

Lemma encode_properties_nonempty ps c d : encode_properties (Some ps) c = Ok d → d ≠ [].
Proof.
  destruct ps as [|e ps]; simpl; [by intros [= <-] |]. unfold _encode_properties_uncached. intros H. res_inv.
  rewrite encode_vbi_digits in Hv0. destruct (_ && _) eqn:E; [| done]. bools. simplify_eq.
  destruct (vbi_digits_4 (len v)) as (Hs & _); [lia |]. by destruct Hs.
Qed.

(** [bytes_ok]-free head: an encoder's two identifier bytes. *)
Lemma mk_head first_byte n mid rest b :
  mk_bytes (first_byte :: n :: Z.shiftr mid 8 :: Z.land mid 0xFF :: rest) = Ok b →
  b = first_byte :: n :: [mid / 256; mid mod 256] ++ rest.
Proof. intros [-> _]%mk_bytes_inv. by rewrite mid_hi, mid_lo. Qed.

Lemma encode_ack_v5_inv fb c allowed mid reason ps d :
  zin 0 allowed = true → sendable c ps → _encode_ack_v5 fb c allowed mid reason ps = Ok d →
  ∃ body, framed d fb body ∧ decode_ack_v5 c allowed body = Ok (mid, reason, ack_normal c ps).
Proof.
  intros H0 Hs H. unfold _encode_ack_v5 in H. res_inv. bools.
  assert (Hn : has_values ps = false → ack_normal c ps = None) by (destruct ps as [[]|]; done).
  destruct ((reason =? 0) && negb (has_values ps)) eqn:E0.
  - bools. subst reason. apply mk_head in H as ->. exists [mid / 256; mid mod 256].
    split; [by apply (framed_small fb [mid / 256; mid mod 256]) |]. rewrite Hn by done.
    pose proof (decode_ack_v311_bytes mid ltac:(lia)) as Hd. unfold decode_ack_v311, decode_ack_v5 in *.
    change (len [mid / 256; mid mod 256]) with 2 in *. simpl in *. by rewrite mid_split in * by lia.
  - res_inv. bools. destruct (has_values ps) eqn:Hv; simpl negb in H; cbv iota in H.
    + res_inv. apply mk_bytes_inv in Hv0 as [-> _], Hv2 as [-> _]. rewrite mid_hi, mid_lo in *.
      eexists. split; [by apply framed_intro |]. apply has_values_spec in Hv as (e & l & ->).
      apply (decode_ack_v5_bytes c allowed mid reason (Some v0) _); [lia | done |].
      split; [by eapply encode_properties_nonempty |]. eexists; split; [done |]. destruct Hs as [Hs1 Hs2].
      pose proof (decode_encode_properties c (e :: l) v0 [mid / 256; mid mod 256; reason] [] Hs1 Hs2 Hv1) as Hd.
      by rewrite app_nil_r in Hd.
    + apply mk_head in H as ->. exists ([mid / 256; mid mod 256; reason] ++ []). split.
      * by apply (framed_small fb [mid / 256; mid mod 256; reason]).
      * rewrite Hn by done. apply (decode_ack_v5_bytes c allowed mid reason None); [lia | done | done].
Qed.

Lemma encode_ack_v311_inv fb mid reason ps d :
  _encode_ack_v311 fb mid reason ps = Ok d →
  ∃ body, framed d fb body ∧ decode_ack_v311 body = Ok (mid, reason, None) ∧ has_values ps = false.
Proof.
  intros H. unfold _encode_ack_v311 in H. res_inv. bools. subst reason. apply mk_head in H as ->.
  exists [mid / 256; mid mod 256]. split_and!; [by apply (framed_small fb [mid / 256; mid mod 256]) | | done].
  apply decode_ack_v311_bytes. lia.
Qed.

(** Acknowledgements round-trip.  Whatever [encode] produces for a
    PUBACK/PUBREC/PUBREL/PUBCOMP under either protocol version is one packet
    with the type's header byte whose remaining bytes [decode] reads back as the
    same identifier, reason code and properties (in normal form). *)
Theorem ack_roundtrip k p protocol d :
  sendable (ack_ctx k) (a_properties p) → ack_encode k p protocol = Ok d →
  ∃ body, framed d (ack_byte k) body ∧
    ack_decode k body protocol =
      Ok {| a_mid := a_mid p; a_reason_code := a_reason_code p;
            a_properties := ack_normal (ack_ctx k) (a_properties p) |}.
Proof.
  intros Hs H. destruct p as [mid reason ps]. unfold ack_encode, ack_decode in *. simpl in *. destruct protocol.
  - assert (_encode_ack_v311 (ack_byte k) mid reason ps = Ok d) as He by (by destruct k).
    apply encode_ack_v311_inv in He as (body & Hf & Hd & Hv). exists body. split; [done |].
    assert (ack_normal (ack_ctx k) ps = None) as -> by (destruct ps as [[]|]; done).
    destruct k; cbv [decode_puback_v311 decode_pubrec_v311 decode_pubrel_v311 decode_pubcomp_v311]; by rewrite Hd.
  - assert (_encode_ack_v5 (ack_byte k) (ack_ctx k) (ack_reasons k) mid reason ps = Ok d) as He by (by destruct k).
    apply encode_ack_v5_inv in He as (body & Hf & Hd); [| by destruct k | done]. exists body. split; [done |].
    destruct k; cbv [decode_puback_v5 decode_pubrec_v5 decode_pubrel_v5 decode_pubcomp_v5 ack_ctx ack_reasons
      _PUBREC_REASONS _PUBCOMP_REASONS] in *; by rewrite Hd.
Qed.

Lemma ack_roundtrip_witness :
  let p := {| a_mid := 513; a_reason_code := 0x92;
              a_properties := Some [("reason_string"%string, VStr [111; 107])] |} in
  ∃ body, framed [0x62; 9; 2; 1; 0x92; 5; 0x1F; 0; 2; 111; 107] 0x62 body ∧ ack_decode PubRel body MQTTv5 = Ok p.
Proof.
  apply (ack_roundtrip PubRel {| a_mid := 513; a_reason_code := 0x92;
           a_properties := Some [("reason_string"%string, VStr [111; 107])] |} MQTTv5).
  - split; [| done]. by apply (bool_decide_eq_true_1 (NoDup _)).
  - vm_compute. reflexivity.
Defined.

(** The validation-free success encoders send what the validating ones send. *)
Lemma ack_success_agrees k mid :
  1 ≤ mid ≤ 65535 →
  encode_ack_success (ack_byte k) mid =
    ack_encode k {| a_mid := mid; a_reason_code := 0; a_properties := None |} MQTTv311 ∧
  encode_ack_success (ack_byte k) mid =
    ack_encode k {| a_mid := mid; a_reason_code := 0; a_properties := None |} MQTTv5.
Proof.
  intros H. assert ((1 <=? mid) && (mid <=? 65535) = true) as Hm.
  { rewrite (proj2 (Z.leb_le 1 mid)), (proj2 (Z.leb_le mid _)) by lia. done. }
  destruct k; unfold ack_encode; simpl;
    cbv [encode_puback_v311 encode_pubrec_v311 encode_pubrel_v311 encode_pubcomp_v311
         encode_puback_v5 encode_pubrec_v5 encode_pubrel_v5 encode_pubcomp_v5 _encode_ack_v311 _encode_ack_v5];
    rewrite Hm; done.
Qed.

Lemma encode_ack_success_Ok fb mid :
  byte_ok fb → 0 ≤ mid ≤ 65535 →
  encode_ack_success fb mid = Ok [fb; 2; mid / 256; mid mod 256].
Proof.
  intros Hf Hm. unfold encode_ack_success. rewrite mid_hi, mid_lo. destruct (mid_bytes mid Hm).
  apply mk_bytes_Ok. repeat constructor; try done; unfold byte_ok in *; lia.
Qed.

(** ** Decoding what a peer sends *)

Lemma idx_byte b i x : bytes_ok b → 0 ≤ i → idx b i = Ok x → byte_ok x.
Proof. intros Hb Hi H. apply idx_inv in H as [_ Hin]; [| done]. rewrite Forall_forall in Hb. auto. Qed.

Lemma mid_range b0 b1 : byte_ok b0 → byte_ok b1 → 0 ≤ Z.lor (Z.shiftl b0 8) b1 ≤ 65535.
Proof. unfold byte_ok. intros. rewrite mid_join by lia. lia. Qed.

Lemma decode_ack_v5_inv c allowed b mid reason ps :
  bytes_ok b → zin 0 allowed = true → decode_ack_v5 c allowed b = Ok (mid, reason, ps) →
  1 ≤ mid ≤ 65535 ∧ zin reason allowed = true ∧ 2 ≤ len b.
Proof.
  intros Hb H0 H. unfold decode_ack_v5 in H. res_inv. bools.
  pose proof (idx_byte _ 0 _ Hb ltac:(lia) Hv). pose proof (idx_byte _ 1 _ Hb ltac:(lia) Hv0).
  pose proof (mid_range v v0 ltac:(done) ltac:(done)). case_ifs_in H; res_inv; bools; split_and!; try done; lia.
Qed.

Lemma decode_ack_v311_inv b mid reason ps :
  bytes_ok b → decode_ack_v311 b = Ok (mid, reason, ps) → 1 ≤ mid ≤ 65535 ∧ reason = 0 ∧ ps = None.
Proof.
  intros Hb H. unfold decode_ack_v311 in H. res_inv. bools.
  pose proof (idx_byte _ 0 _ Hb ltac:(lia) Hv). pose proof (idx_byte _ 1 _ Hb ltac:(lia) Hv0).
  pose proof (mid_range v v0 ltac:(done) ltac:(done)). split_and!; try done; lia.
Qed.

(** The errors decoding may raise: malformed or protocol errors only. *)
Definition wire_error (e : exn) : Prop := e = MalformedPacketError ∨ e = ProtocolError.

Lemma wire_malformed {A} (m : res A) :
  raises_only (λ e, e = MalformedPacketError) m → raises_only wire_error m.
Proof. apply raises_only_weaken. by left. Qed.

Lemma raise_malformed {A} : raises_only wire_error (@Raise A MalformedPacketError).
Proof. apply raises_only_Raise. by left. Qed.
#[export] Hint Resolve raise_malformed wire_malformed require_end_raises : pyraise.

Lemma idx_bind_raises {A} P b i (k : Z → res A) :
  0 ≤ i < len b → (∀ x, x ∈ b → raises_only P (k x)) → raises_only P (rbind (idx b i) k).
Proof. intros Hi Hk. destruct (idx_Ok b i Hi) as (x & -> & Hx). simpl. auto. Qed.

Lemma decode_ack_v311_raises b : raises_only wire_error (decode_ack_v311 b).
Proof.
  unfold decode_ack_v311. case_if; [auto with pyraise |]. bools.
  repeat (apply idx_bind_raises; [lia | intros ? _]). case_if; auto with pyraise.
Qed.

Lemma decode_ack_v5_raises c allowed b : bytes_ok b → raises_only wire_error (decode_ack_v5 c allowed b).
Proof.
  intros Hb. unfold decode_ack_v5. case_if; [auto with pyraise |]. bools.
  apply idx_bind_raises; [lia | intros ? _]. apply idx_bind_raises; [lia | intros ? _].
  case_if; [auto with pyraise |]. case_if; [auto with pyraise |]. bools.
  apply idx_bind_raises; [lia | intros ? _]. case_if; [auto with pyraise |]. case_if; [auto with pyraise |].
  apply raises_only_bind; [apply decode_properties_raises; [done | lia] |]. intros [ps p] _.
  apply raises_only_bind; [apply wire_malformed, require_end_raises | intros; auto with pyraise].
Qed.

Lemma ack_decode_raises k b protocol : bytes_ok b → raises_only wire_error (ack_decode k b protocol).
Proof.
  intros Hb. unfold ack_decode. apply raises_only_bind; [| intros [[] ?] _; auto with pyraise].
  destruct protocol, k; apply decode_ack_v311_raises || by apply decode_ack_v5_raises.
Qed.

(** Decoding an acknowledgement of any bytes is safe: it raises only
    [MalformedPacketError] or [ProtocolError] (never an indexing error), and
    what it returns has a packet identifier in 1..65535 and, under MQTT 5, a
    reason code of the packet's table. *)
Theorem ack_decode_safe k b protocol :
  bytes_ok b →
  raises_only wire_error (ack_decode k b protocol) ∧
  ∀ p, ack_decode k b protocol = Ok p →
    1 ≤ a_mid p ≤ 65535 ∧ zin (a_reason_code p) (ack_reasons k) = true.
Proof.
  intros Hb. split; [by apply ack_decode_raises |]. intros p H. unfold ack_decode in H.
  apply rbind_Ok_inv in H as ([[mid reason] ps] & H & [= <-]). simpl.
  destruct protocol.
  - assert (decode_ack_v311 b = Ok (mid, reason, ps)) as Hd by (by destruct k).
    apply decode_ack_v311_inv in Hd as (? & -> & _); [| done]. split; [done | by destruct k].
  - assert (decode_ack_v5 (ack_ctx k) (ack_reasons k) b = Ok (mid, reason, ps)) as Hd by (by destruct k).
    apply decode_ack_v5_inv in Hd as (? & ? & _); [done | done | by destruct k].
Qed.

Lemma ack_decode_safe_witness :
  ∃ p, ack_decode PubRec [0; 10; 0x97] MQTTv5 = Ok p ∧ 1 ≤ a_mid p ≤ 65535 ∧ zin (a_reason_code p) (ack_reasons PubRec) = true.
Proof.
  eexists. split; [vm_compute; reflexivity |].
  refine (proj2 (ack_decode_safe PubRec [0; 10; 0x97] MQTTv5 _) _ _); [bytes_by_compute | vm_compute; reflexivity].
Defined.
