(* ===== verification/Publish.v ===== *)
(** * PUBLISH ([src/mqttium/packets/_publish.py], [src/mqttium/packets/publish.py],
    [src/mqttium/protocol/_sizing.py]) *)

From S2P Require Import Prelude Vbi PyStr Primitives Enums Properties Topics Types Frame Ack.

(** [qos: QoS | int]. *)
Inductive qos_arg := QLevel (q : QoS) | QInt (z : Z).

Definition publish_level (qos : qos_arg) : res QoS :=
  match qos with
  | QLevel q => Ok q
  | QInt z => rcatch (QoS_of z) (λ e, match e with ValueError => Raise ProtocolError | _ => Raise e end)
  end.

(** [if level]: truthiness of the enumeration. *)
Definition truthy (q : QoS) : bool := negb (QoS_int q =? 0).

Definition bit (b : bool) (v : Z) : Z := if b then v else 0.

Definition publish_flags (level : QoS) (retain dup : bool) : Z :=
  Z.lor (Z.lor (Z.shiftl (QoS_int level) 1) (bit retain 0x01)) (bit dup 0x08).

(** The identifier and DUP checks both encoders open with. *)
Definition check_publish_ids (level : QoS) (mid : option Z) (dup : bool) : res unit :=
  if truthy level then
    match mid with
    | None => Raise ProtocolError
    | Some mid => _require_outbound_mid mid
    end
  else
    raise! ProtocolError when match mid with Some _ => true | None => false end;
    raise! ProtocolError when dup;
    Ok tt.

(** The frame both encoders build, [props] being the property bytes. *)
Definition publish_frame (level : QoS) (flags : Z) (topic_bytes : bytes) (mid : option Z)
    (props payload : bytes) : res WriteItem :=
  let topic_size := len topic_bytes in
  let payload_size := len payload in
  let remaining_length := 2 + topic_size + (if truthy level then 2 else 0) + len props + payload_size in
  raise! PacketTooLargeError when remaining_length >? MAX_VBI;
  let header := [Z.lor (PacketType_int PUBLISH) flags] in
  let! header := append_vbi header remaining_length in
  let header := header ++ [Z.land (Z.shiftr topic_size 8) 0xFF; Z.land topic_size 0xFF] ++ topic_bytes in
  let! header :=
    (if truthy level then
       match mid with
       | None => Raise AssertionError
       | Some mid => Ok (header ++ [Z.land (Z.shiftr mid 8) 0xFF; Z.land mid 0xFF])
       end
     else Ok header) in
  let header := header ++ props in
  Ok (if payload_size >=? SEGMENT_THRESHOLD then Segmented header payload
      else Contiguous (header ++ payload)).

Definition encode_publish_item_v311 (topic : pystr) (payload : bytes) (qos : qos_arg) (retain dup : bool)
    (mid : option Z) (_topic_bytes : option bytes) : res WriteItem :=
  let! level := publish_level qos in
  let! _ := check_publish_ids level mid dup in
  let flags := publish_flags level retain dup in
  let! topic_bytes := match _topic_bytes with None => encode_utf8 (VStr topic) | Some b => Ok b end in
  publish_frame level flags topic_bytes mid [] payload.

Definition encode_publish_item_v5 (topic : pystr) (payload : bytes) (qos : qos_arg) (retain dup : bool)
    (mid : option Z) (properties : option propmap) (_topic_bytes _property_bytes : option bytes) : res WriteItem :=
  let! level := publish_level qos in
  let! _ := check_publish_ids level mid dup in
  let flags := publish_flags level retain dup in
  let! topic_bytes := match _topic_bytes with None => encode_utf8 (VStr topic) | Some b => Ok b end in
  let! props :=
    match _property_bytes with
    | Some b => Ok b
    | None =>
        if negb (has_values properties) then Ok [0]
        else
          let! _ := validate_payload_format payload properties in
          encode_properties properties cPUBLISH
    end in
  publish_frame level flags topic_bytes mid props payload.

Definition encode_publish_item (topic : pystr) (payload : bytes) (qos : qos_arg) (retain dup : bool)
    (mid : option Z) (properties : option propmap) (protocol : MQTTProtocolVersion)
    (_topic_bytes _property_bytes : option bytes) : res WriteItem :=
  match protocol with
  | MQTTv5 => encode_publish_item_v5 topic payload qos retain dup mid properties _topic_bytes _property_bytes
  | MQTTv311 =>
      raise! ProtocolError when has_values properties;
      encode_publish_item_v311 topic payload qos retain dup mid _topic_bytes
  end.

(** ** The typed packet *)

Record PublishPacket := {
  p_topic : pystr;
  p_payload : bytes;
  p_qos : QoS;
  p_retain : bool;
  p_dup : bool;
  p_mid : option Z;
  p_properties : option propmap }.

Definition publish_encode_write_item (self : PublishPacket) (protocol : MQTTProtocolVersion) : res WriteItem :=
  encode_publish_item (p_topic self) (p_payload self) (QLevel (p_qos self)) (p_retain self) (p_dup self)
    (p_mid self) (p_properties self) protocol None None.

Definition publish_encode (self : PublishPacket) (protocol : MQTTProtocolVersion) : res bytes :=
  let! item := publish_encode_write_item self protocol in
  Ok (match item with Contiguous b => b | Segmented h p => h ++ p end).

Definition flag (flags mask : Z) : bool := negb (Z.land flags mask =? 0).

Definition publish_decode (flags : Z) (remaining : bytes) (protocol : MQTTProtocolVersion) : res PublishPacket :=
  let dup := flag flags 0x08 in
  let qos_raw := Z.land (Z.shiftr flags 1) 0x03 in
  raise! MalformedPacketError when qos_raw =? 3;
  let! qos := QoS_of qos_raw in
  raise! MalformedPacketError when bool_decide (qos = AT_MOST_ONCE) && dup;
  let retain := flag flags 0x01 in
  let! '(topic, pos) := unpack_utf8 remaining 0 in
  let! '(mid, pos) :=
    (if truthy qos then
       let! '(mid, pos) := unpack_u16 remaining pos in
       let! _ := require_nonzero_mid mid in
       Ok (Some mid, pos)
     else Ok (None, pos)) in
  let! '(properties, pos) :=
    match protocol with
    | MQTTv5 => let! '(ps, pos) := decode_properties remaining pos cPUBLISH in Ok (Some ps, pos)
    | MQTTv311 => Ok (None, pos)
    end in
  let! _ := validate_received_publish_topic topic true in
  raise! MalformedPacketError when bool_decide (protocol = MQTTv311) && bool_decide (topic = []);
  let payload := slice remaining pos (len remaining) in
  Ok {| p_topic := topic; p_payload := payload; p_qos := qos; p_retain := retain; p_dup := dup;
        p_mid := mid; p_properties := properties |}.

(** ** The specialised inbound decoders *)

Definition decode_qos0_message_v311 (raw : RawPacket) : res Message :=
  raise! MalformedPacketError when flag (flags raw) 0x08;
  let! '(topic, payload_pos) := unpack_utf8 (remaining raw) 0 in
  raise! MalformedPacketError when bool_decide (topic = []);
  let! _ := validate_received_publish_topic topic true in
  Ok (_decoded_message topic (slice (remaining raw) payload_pos (len (remaining raw))) AT_MOST_ONCE
        (flag (flags raw) 0x01) false None None).

Definition decode_qos0_message_v5 (raw : RawPacket) : res (Message * Z) :=
  raise! MalformedPacketError when flag (flags raw) 0x08;
  let! '(topic, pos) := unpack_utf8 (remaining raw) 0 in
  let properties_pos := pos in
  let! '(properties, pos) := decode_properties (remaining raw) pos cPUBLISH in
  let property_wire_size := pos - properties_pos in
  let! _ := validate_received_publish_topic topic true in
  Ok (_decoded_message topic (slice (remaining raw) pos (len (remaining raw))) AT_MOST_ONCE
        (flag (flags raw) 0x01) false None (Some properties), property_wire_size).

Definition decode_qos12_fields_v311 (raw : RawPacket) : res (pystr * bytes * Z * bool * bool) :=
  let! '(topic, pos) := unpack_utf8 (remaining raw) 0 in
  raise! MalformedPacketError when bool_decide (topic = []);
  let! _ := validate_received_publish_topic topic true in
  let! '(mid, pos) := unpack_u16 (remaining raw) pos in
  let! _ := require_nonzero_mid mid in
  Ok (topic, slice (remaining raw) pos (len (remaining raw)), mid, flag (flags raw) 0x01, flag (flags raw) 0x08).

Definition decode_publish_fields_v5 (raw : RawPacket) (qos : QoS) :
    res (pystr * bytes * option Z * bool * bool * propmap * Z) :=
  let dup := flag (flags raw) 0x08 in
  raise! MalformedPacketError when bool_decide (qos = AT_MOST_ONCE) && dup;
  let! '(topic, pos) := unpack_utf8 (remaining raw) 0 in
  let! '(mid, pos) :=
    (if truthy qos then
       let! '(mid, pos) := unpack_u16 (remaining raw) pos in
       let! _ := require_nonzero_mid mid in
       Ok (Some mid, pos)
     else Ok (None, pos)) in
  let properties_pos := pos in
  let! '(properties, pos) := decode_properties (remaining raw) pos cPUBLISH in
  let property_wire_size := pos - properties_pos in
  let! _ := validate_received_publish_topic topic true in
  Ok (topic, slice (remaining raw) pos (len (remaining raw)), mid, flag (flags raw) 0x01, dup,
      properties, property_wire_size).

(** [publish_logical_size]. *)
Definition publish_logical_size (is_v5 : bool) (topic : pystr) (payload_size : Z)
    (properties : option propmap) (property_wire_size : option Z) : res Z :=
  let! property_bytes :=
    (if is_v5 && has_values properties then
       match property_wire_size with
       | None => let! b := encode_properties properties cPUBLISH in Ok (len b)
       | Some n => Ok n
       end
     else Ok 0) in
  let! topic_bytes :=
    (if isascii topic then Ok (len topic)
     else match utf8_encode topic with Some b => Ok (len b) | None => Raise UnicodeError end) in
  Ok (payload_size + topic_bytes + property_bytes).

(** ** Encoding *)

Definition mid_bytes_of (level : QoS) (mid : option Z) : bytes :=
  if truthy level then
    match mid with Some mid => [Z.land (Z.shiftr mid 8) 0xFF; Z.land mid 0xFF] | None => [] end
  else [].

Definition publish_body (level : QoS) (topic_bytes : bytes) (mid : option Z) (props payload : bytes) : bytes :=
  [Z.land (Z.shiftr (len topic_bytes) 8) 0xFF; Z.land (len topic_bytes) 0xFF] ++ topic_bytes ++
  mid_bytes_of level mid ++ props ++ payload.

(** The remaining length announced is the length of what follows. *)
Lemma publish_frame_inv level flags tb mid props payload item :
  publish_frame level flags tb mid props payload = Ok item →
  framed (item_bytes item) (Z.lor 0x30 flags) (publish_body level tb mid props payload) ∧
  len (publish_body level tb mid props payload) ≤ MAX_VBI.
Proof.
  unfold publish_frame. rewrite Z.gtb_ltb. intros H. res_inv. bools.
  assert (len (publish_body level tb mid props payload) =
          2 + len tb + (if truthy level then 2 else 0) + len props + len payload) as Hlen.
  { unfold publish_body, mid_bytes_of. destruct (truthy level); [destruct mid; [len_lia | done] | len_lia]. }
  rewrite <- Hlen in *. split; [| lia]. apply append_vbi_encode in Hv as (n & Hn & ->).
  exists n. split; [done |]. unfold publish_body, mid_bytes_of in *.
  destruct (truthy level); [destruct mid; [| done] |]; res_inv; case_if; simpl; by rewrite <- ?app_assoc.
Qed.

Lemma publish_flags_spec level retain dup :
  let f := publish_flags level retain dup in
  0 ≤ f < 16 ∧ flag f 0x08 = dup ∧ flag f 0x01 = retain ∧ Z.land (Z.shiftr f 1) 0x03 = QoS_int level.
Proof. destruct level, retain, dup; vm_compute; split_and!; done. Qed.

Lemma check_publish_ids_inv level mid dup :
  check_publish_ids level mid dup = Ok tt →
  if truthy level then ∃ m, mid = Some m ∧ 1 ≤ m ≤ 65535 else mid = None ∧ dup = false.
Proof.
  unfold check_publish_ids, _require_outbound_mid. intros H. destruct (truthy level).
  - destruct mid as [m|]; [| done]. res_inv. bools. exists m. split; [done | lia].
  - destruct mid, dup; done.
Qed.

Lemma land_FF z : Z.land z 0xFF = z mod 256.
Proof. apply mid_lo. Qed.

(** The topic part of the body is the packed string. *)
Lemma topic_part topic tb :
  encode_utf8 (VStr topic) = Ok tb →
  pack_utf8 (VStr topic) = Ok ([Z.land (Z.shiftr (len tb) 8) 0xFF; Z.land (len tb) 0xFF] ++ tb).
Proof.
  intros H. rewrite (pack_utf8_Ok _ _ H). apply encode_utf8_inv in H as (s & _ & _ & _ & _ & Hl & _).
  rewrite mid_hi, !land_FF. rewrite (Z.mod_small (len tb / 256)); [done |]. apply mid_bytes. len_lia.
Qed.

Lemma mid_part m : 0 ≤ m ≤ 65535 → pack_u16 m = Ok [Z.land (Z.shiftr m 8) 0xFF; Z.land m 0xFF].
Proof.
  intros H. rewrite pack_u16_Ok by done. rewrite mid_hi, !land_FF.
  rewrite (Z.mod_small (m / 256)); [done |]. by apply mid_bytes.
Qed.

(** A topic this client may receive: no wildcard, and under 3.1.1 not empty. *)
Definition receivable (topic : pystr) (protocol : MQTTProtocolVersion) : Prop :=
  has_wildcard topic = false ∧ (protocol = MQTTv311 → topic ≠ []).

Lemma validate_received_true t : has_wildcard t = false → validate_received_publish_topic t true = Ok tt.
Proof. intros H. unfold validate_received_publish_topic. destruct t; [done |]. simpl negb. cbn [rbind]. by rewrite H. Qed.

(** What decoding gives back for the properties of a PUBLISH. *)
Definition publish_normal (protocol : MQTTProtocolVersion) (ps : option propmap) : option propmap :=
  match protocol with
  | MQTTv311 => None
  | MQTTv5 => Some (match ps with Some ps => normalise cPUBLISH ps | None => [] end)
  end.

Lemma publish_decode_body level retain dup topic tb mid props payload ps protocol :
  receivable topic protocol → encode_utf8 (VStr topic) = Ok tb → check_publish_ids level mid dup = Ok tt →
  match protocol with
  | MQTTv311 => props = [] ∧ ps = None
  | MQTTv5 => ∃ m, ps = Some m ∧ ∀ pre, decode_properties (pre ++ props ++ payload) (len pre) cPUBLISH = Ok (m, len pre + len props)
  end →
  publish_decode (publish_flags level retain dup) (publish_body level tb mid props payload) protocol =
    Ok {| p_topic := topic; p_payload := payload; p_qos := level; p_retain := retain; p_dup := dup;
          p_mid := mid; p_properties := ps |}.
Proof.
  intros [Hw He] Ht Hid Hps. unfold publish_decode.
  destruct (publish_flags_spec level retain dup) as (_ & -> & -> & ->).
  rewrite (proj2 (Z.eqb_neq (QoS_int level) 3)) by (by destruct level). rewrite QoS_of_int. cbn [rbind].
  apply check_publish_ids_inv in Hid.
  assert (bool_decide (level = AT_MOST_ONCE) && dup = false) as ->.
  { destruct level; [| done..]. simpl in Hid. by destruct Hid as [_ ->]. }
  apply topic_part in Ht as Hpk. set (T := [_; _] ++ tb) in Hpk.
  assert (publish_body level tb mid props payload = T ++ mid_bytes_of level mid ++ props ++ payload) as ->.
  { unfold publish_body, T. by rewrite <- app_assoc. }
  pose proof (dec_complete _ _ utf8_decodes topic T [] (mid_bytes_of level mid ++ props ++ payload) Hpk) as Hu.
  change (len []) with 0 in Hu. rewrite app_nil_l in Hu. rewrite Hu. cbn [rbind].
  assert ((if truthy level then
             let! '(mid, pos) := unpack_u16 (T ++ mid_bytes_of level mid ++ props ++ payload) (0 + len T) in
             let! _ := require_nonzero_mid mid in Ok (Some mid, pos)
           else Ok (None, 0 + len T)) = Ok (mid, len (T ++ mid_bytes_of level mid))) as ->.
  { unfold mid_bytes_of. destruct (truthy level).
    - destruct Hid as (m & -> & Hm).
      pose proof (dec_complete _ _ u16_decodes m _ T (props ++ payload) (mid_part m ltac:(lia))) as Hu16.
      rewrite Z.add_0_l, Hu16. cbn [rbind]. unfold require_nonzero_mid.
      rewrite (proj2 (Z.eqb_neq m 0)) by lia. cbn [rbind]. by rewrite len_app.
    - destruct Hid as [-> _]. tup. len_lia. }
  cbn [rbind]. set (P := T ++ mid_bytes_of level mid).
  replace (T ++ mid_bytes_of level mid ++ props ++ payload) with (P ++ props ++ payload) by (unfold P; by rewrite <- app_assoc).
  assert (match protocol with
          | MQTTv5 => let! '(ps, pos) := decode_properties (P ++ props ++ payload) (len P) cPUBLISH in Ok (Some ps, pos)
          | MQTTv311 => Ok (None, len P) end = Ok (ps, len P + len props)) as ->.
  { destruct protocol; [destruct Hps as [-> ->]; tup; len_lia |]. destruct Hps as (m & -> & Hd). by rewrite Hd. }
  cbn [rbind]. rewrite validate_received_true by done. cbn [rbind].
  assert (bool_decide (protocol = MQTTv311) && bool_decide (topic = []) = false) as ->.
  { destruct protocol; [| done]. by rewrite (bool_decide_false (topic = [])) by auto. }
  do 2 f_equal. rewrite app_assoc, <- len_app. apply slice_tail.
Qed.

Lemma encode_properties_some ps : has_values ps = true → ∃ m, ps = Some m.
Proof. intros (e & l & ->)%has_values_spec. eauto. Qed.

Lemma encode_publish_item_inv topic payload level retain dup mid ps protocol item :
  receivable topic protocol → sendable cPUBLISH ps →
  encode_publish_item topic payload (QLevel level) retain dup mid ps protocol None None = Ok item →
  ∃ body, framed (item_bytes item) (Z.lor 0x30 (publish_flags level retain dup)) body ∧
    publish_decode (publish_flags level retain dup) body protocol =
      Ok {| p_topic := topic; p_payload := payload; p_qos := level; p_retain := retain; p_dup := dup;
            p_mid := mid; p_properties := publish_normal protocol ps |}.
Proof.
  intros Hr Hs H. destruct protocol; cbn [encode_publish_item] in H.
  - unfold encode_publish_item_v311 in H. cbn [publish_level rbind] in H. res_inv. destruct v.
    apply publish_frame_inv in H as [Hf _]. eexists; split; [exact Hf |].
    apply publish_decode_body; try done.
  - unfold encode_publish_item_v5 in H. cbn [publish_level rbind] in H. res_inv. destruct v.
    apply publish_frame_inv in H as [Hf _]. eexists; split; [exact Hf |].
    apply publish_decode_body; try done. eexists; split; [done |]. intros pre.
    destruct (has_values ps) eqn:Hhas; simpl negb in *; cbv iota in *.
    + res_inv. destruct (encode_properties_some ps Hhas) as [m ->]. destruct Hs. by apply decode_encode_properties.
    + injection Hv1 as <-.
      pose proof (decode_encode_properties cPUBLISH [] [0] pre payload ltac:(constructor) ltac:(done) eq_refl) as Hd.
      by destruct ps as [[]|].
Qed.


Definition sample_publish : PublishPacket :=
  {| p_topic := [97; 47; 98]; p_payload := [1; 2; 3]; p_qos := EXACTLY_ONCE; p_retain := true; p_dup := true;
     p_mid := Some 300; p_properties := Some [("topic_alias"%string, VInt 9)] |}.


(** ** The specialised decoders agree with the generic one *)

(** The QoS bits of a raw PUBLISH. *)
Definition raw_qos (raw : RawPacket) : Z := Z.land (Z.shiftr (flags raw) 1) 0x03.

Lemma received_raises t b : raises_only (λ e, e = MalformedPacketError) (validate_received_publish_topic t b).
Proof.
  unfold validate_received_publish_topic. destruct t; [auto with pyraise |]. apply raises_only_bind.
  - destruct b; simpl; [auto with pyraise |]. rewrite check_topic_encode.
    destruct (encode_utf8 _) eqn:E; simpl; [auto with pyraise |].
    apply encode_utf8_raises in E as ->. simpl. auto with pyraise.
  - intros _ _. case_if; auto with pyraise.
Qed.

Lemma unpack_utf8_ok b o t p : bytes_ok b → 0 ≤ o → unpack_utf8 b o = Ok (t, p) → o < p ≤ len b.
Proof. intros Hb Ho H. by apply (dec_bounds _ _ _ _ _ _ utf8_decodes Hb Ho H). Qed.

(** The four hot-path decoders are the generic [PublishPacket.decode]:
    on any packet with their QoS bits they return its fields (with the exact
    size of the property table), and they raise exactly when it raises, with
    the same error. *)
Theorem publish_fast_decoders raw :
  bytes_ok (remaining raw) →
  (raw_qos raw = 0 → decode_qos0_message_v311 raw =
     let! p := publish_decode (flags raw) (remaining raw) MQTTv311 in
     Ok (_decoded_message (p_topic p) (p_payload p) (p_qos p) (p_retain p) (p_dup p) (p_mid p) (p_properties p))) ∧
  (raw_qos raw = 0 → (let! '(m, _) := decode_qos0_message_v5 raw in Ok m) =
     let! p := publish_decode (flags raw) (remaining raw) MQTTv5 in
     Ok (_decoded_message (p_topic p) (p_payload p) (p_qos p) (p_retain p) (p_dup p) (p_mid p) (p_properties p))) ∧
  (raw_qos raw = 1 ∨ raw_qos raw = 2 → (let! '(t, y, mid, r, d) := decode_qos12_fields_v311 raw in Ok (t, y, Some mid, r, d)) =
     let! p := publish_decode (flags raw) (remaining raw) MQTTv311 in
     Ok (p_topic p, p_payload p, p_mid p, p_retain p, p_dup p)) ∧
  (∀ qos, QoS_int qos = raw_qos raw →
     (let! '(t, y, mid, r, d, ps, _) := decode_publish_fields_v5 raw qos in Ok (t, y, mid, r, d, Some ps)) =
     let! p := publish_decode (flags raw) (remaining raw) MQTTv5 in
     Ok (p_topic p, p_payload p, p_mid p, p_retain p, p_dup p, p_properties p)).
Proof.
  intros Hb. unfold raw_qos. split_and!.
  - intros Hq. unfold decode_qos0_message_v311, publish_decode. rewrite Hq. cbn [rbind Z.eqb QoS_of bool_decide].
    simpl. destruct (flag (flags raw) 8) eqn:Hd; [done |].
    destruct (unpack_utf8 (remaining raw) 0) as [[t p]|]; [| done]. simpl.
    destruct t; [done |]. simpl. by destruct (has_wildcard _).
  - intros Hq. unfold decode_qos0_message_v5, publish_decode. rewrite Hq. simpl.
    destruct (flag (flags raw) 8) eqn:Hd; [done |].
    destruct (unpack_utf8 (remaining raw) 0) as [[t p]|]; [| done]. simpl.
    destruct (decode_properties _ _ _) as [[ps q]|]; [| done]. simpl.
    by destruct (validate_received_publish_topic t true).
  - intros Hq. unfold decode_qos12_fields_v311, publish_decode.
    assert (∃ q, QoS_of (Z.land (Z.shiftr (flags raw) 1) 0x03) = Ok q ∧ truthy q = true ∧ q ≠ AT_MOST_ONCE ∧
      (Z.land (Z.shiftr (flags raw) 1) 0x03 =? 3) = false) as (q & -> & Ht & Hn & ->).
    { destruct Hq as [-> | ->]; eexists; split_and!; done. }
    cbn [rbind]. rewrite (bool_decide_false (q = AT_MOST_ONCE)) by done. rewrite Ht. cbn [andb].
    destruct (unpack_utf8 (remaining raw) 0) as [[t p]|e] eqn:Hu; [| done]. cbn [rbind].
    apply unpack_utf8_ok in Hu; [| done | lia].
    destruct (unpack_u16 (remaining raw) p) as [[m p']|e] eqn:Hm; cbn [rbind].
    + destruct (require_nonzero_mid m) as [[]|e] eqn:Hz; cbn [rbind].
      * destruct (validate_received_publish_topic t true) as [[]|e'] eqn:Hv; cbn [rbind].
        -- destruct t; done.
        -- destruct t; [done |]. done.
      * apply require_nonzero_mid_raises in Hz as ->.
        destruct t; [done |]. rewrite bool_decide_false by done.
        destruct (validate_received_publish_topic _ true) as [[]|e'] eqn:Hv; [done |]. cbn [rbind].
        by apply received_raises in Hv as ->.
    + apply (dec_raises _ _ u16_decodes) in Hm as ->; [| done | lia].
      destruct t; [done |]. rewrite bool_decide_false by done.
      destruct (validate_received_publish_topic _ true) as [[]|e'] eqn:Hv; [done |]. cbn [rbind].
      by apply received_raises in Hv as ->.
  - intros qos Hq. unfold decode_publish_fields_v5, publish_decode. rewrite <- Hq.
    rewrite (proj2 (Z.eqb_neq (QoS_int qos) 3)) by (by destruct qos). rewrite QoS_of_int. cbn [rbind].
    case_if; [done |]. destruct (unpack_utf8 (remaining raw) 0) as [[t p]|e]; [| done]. cbn [rbind].
    match goal with |- context [if truthy qos then ?a else ?b] => generalize (if truthy qos then a else b) end.
    intros [[m q]|e]; [| done]. cbn [rbind]. destruct (decode_properties _ _ _) as [[ps r]|]; [| done]. cbn [rbind].
    by destruct (validate_received_publish_topic t true).
Qed.

Lemma publish_fast_decoders_witness :
  ∃ m, decode_qos0_message_v311 {| packet_type := PUBLISH; flags := 1; remaining := [0; 1; 97; 5] |} = Ok m ∧
    m_payload m = [5].
Proof.
  eexists. split.
  - rewrite (proj1 (publish_fast_decoders {| packet_type := PUBLISH; flags := 1; remaining := [0; 1; 97; 5] |} ltac:(bytes_by_compute)) eq_refl).
    vm_compute. reflexivity.
  - reflexivity.
Defined.
