(* ===== verification/Handshake.v ===== *)
(** * CONNECT, CONNACK, DISCONNECT, AUTH and PING
    ([src/mqttium/packets/_connect.py], [connect.py], [_connack.py], [_control.py],
    [control.py]) *)

From S2P Require Import Prelude Vbi PyStr Primitives Enums Properties Frame Ack.

(** [properties.get(name)], [None] standing for an absent or [None] value. *)
Definition pget (properties : option propmap) (name : string) : option pyval :=
  match properties with
  | None => None
  | Some ps => match dget name ps with Some VNone | None => None | Some v => Some v end
  end.

Definition is_set {A} (o : option A) : bool := match o with Some _ => true | None => false end.

(** ** CONNECT *)

Definition _PREFIX_V311 : bytes := [0; 4; 77; 81; 84; 84; 4].
Definition _PREFIX_V5 : bytes := [0; 4; 77; 81; 84; 84; 5].

Record ConnectPacket := {
  c_client_id : pystr;
  c_clean_start : bool;
  c_keepalive : Z;
  c_username : option pystr;
  c_password : option bytes;
  c_will_topic : option pystr;
  c_will_payload : bytes;
  c_will_qos : Z;
  c_will_retain : bool;
  c_will_properties : option propmap;
  c_protocol : MQTTProtocolVersion;
  c_properties : option propmap }.

Definition _validate_connect (v5 : bool) (keepalive : Z) (password : option bytes) (will_topic : option pystr)
    (will_payload : bytes) (will_qos : Z) (will_retain : bool) (will_properties properties : option propmap) :
    res QoS :=
  raise! ProtocolError when negb ((0 <=? keepalive) && (keepalive <=? 65535));
  raise! ProtocolError when negb v5 && has_values properties;
  raise! ProtocolError when negb v5 && has_values will_properties;
  let! encoded_will_qos :=
    rcatch (QoS_of will_qos) (λ e, match e with ValueError => Raise ProtocolError | _ => Raise e end) in
  raise! ProtocolError when negb (is_set will_topic) && (negb (QoS_int encoded_will_qos =? 0) || will_retain);
  raise! ProtocolError when
    negb (is_set will_topic) && (negb (bool_decide (will_payload = [])) || has_values will_properties);
  raise! ProtocolError when match password with Some p => len p >? 65535 | None => false end;
  raise! ProtocolError when len will_payload >? 65535;
  let! _ := (if v5 then validate_payload_format will_payload will_properties else Ok tt) in
  raise! ProtocolError when
    v5 && is_set (pget properties "authentication_data") && negb (is_set (pget properties "authentication_method"));
  Ok encoded_will_qos.

Definition connect_flags (clean_start : bool) (will_topic : option pystr) (will_qos : QoS) (will_retain : bool)
    (password : option bytes) (username : option pystr) : Z :=
  let flags := 0 in
  let flags := if clean_start then Z.lor flags 0x02 else flags in
  let flags :=
    if is_set will_topic then
      let flags := Z.lor flags (Z.lor 0x04 (Z.shiftl (QoS_int will_qos) 3)) in
      if will_retain then Z.lor flags 0x20 else flags
    else flags in
  let flags := if is_set password then Z.lor flags 0x40 else flags in
  if is_set username then Z.lor flags 0x80 else flags.

Definition _encode_connect (prefix : bytes) (v5 : bool) (p : ConnectPacket) : res bytes :=
  let! encoded_will_qos :=
    _validate_connect v5 (c_keepalive p) (c_password p) (c_will_topic p) (c_will_payload p)
      (c_will_qos p) (c_will_retain p) (c_will_properties p) (c_properties p) in
  let flags := connect_flags (c_clean_start p) (c_will_topic p) encoded_will_qos (c_will_retain p)
                 (c_password p) (c_username p) in
  let body := prefix ++ [flags] in
  let! k := pack_u16 (c_keepalive p) in
  let body := body ++ k in
  let! b := (if v5 then encode_properties (c_properties p) cCONNECT else Ok []) in
  let body := body ++ b in
  let! b := pack_utf8 (VStr (c_client_id p)) in
  let body := body ++ b in
  let! body :=
    match c_will_topic p with
    | None => Ok body
    | Some topic =>
        let! b := (if v5 then encode_properties (c_will_properties p) cWILL else Ok []) in
        let body := body ++ b in
        let! b := pack_utf8 (VStr topic) in
        let body := body ++ b in
        let! n := pack_u16 (len (c_will_payload p)) in
        Ok (body ++ n ++ c_will_payload p)
    end in
  let! body :=
    match c_username p with
    | None => Ok body
    | Some username => let! b := pack_utf8 (VStr username) in Ok (body ++ b)
    end in
  let! body :=
    match c_password p with
    | None => Ok body
    | Some password => let! n := pack_u16 (len password) in Ok (body ++ n ++ password)
    end in
  encode_frame CONNECT 0 body.

Definition encode_connect_v311 (p : ConnectPacket) : res bytes := _encode_connect _PREFIX_V311 false p.
Definition encode_connect_v5 (p : ConnectPacket) : res bytes := _encode_connect _PREFIX_V5 true p.

Definition connect_encode (p : ConnectPacket) : res bytes :=
  match c_protocol p with
  | MQTTv311 => encode_connect_v311 p
  | MQTTv5 => encode_connect_v5 p
  end.

(** ** CONNACK *)

Record ConnAckPacket := { ca_session_present : bool; ca_reason_code : Z; ca_properties : option propmap }.

Definition _CONNACK_V311_REASONS : list Z := [0; 1; 2; 3; 4; 5].

Definition decode_connack_v311 (remaining : bytes) : res (bool * Z * option propmap) :=
  raise! MalformedPacketError when len remaining <? 2;
  let! b0 := idx remaining 0 in
  raise! MalformedPacketError when negb (zin b0 [0; 1]);
  let session_present := negb (b0 =? 0) in
  let! reason := idx remaining 1 in
  let! _ := require_reason_code reason _CONNACK_V311_REASONS in
  let! _ := require_end 2 (len remaining) in
  raise! MalformedPacketError when negb (reason =? 0) && session_present;
  Ok (session_present, reason, None).

Definition _CONNACK_V5_REASONS : list Z :=
  [0x00; 0x80; 0x81; 0x82; 0x83; 0x84; 0x85; 0x86; 0x87; 0x88; 0x89; 0x8A; 0x8C; 0x90; 0x95; 0x97;
   0x99; 0x9A; 0x9B; 0x9C; 0x9D; 0x9F].

Definition decode_connack_v5 (remaining : bytes) : res (bool * Z * option propmap) :=
  raise! MalformedPacketError when len remaining <? 2;
  let! b0 := idx remaining 0 in
  raise! MalformedPacketError when negb (zin b0 [0; 1]);
  let session_present := negb (b0 =? 0) in
  let! reason := idx remaining 1 in
  let! _ := require_reason_code reason _CONNACK_V5_REASONS in
  let! '(properties, pos) := decode_properties remaining 2 cCONNACK in
  let! _ := require_end pos (len remaining) in
  raise! MalformedPacketError when negb (reason =? 0) && session_present;
  Ok (session_present, reason, Some properties).

Definition connack_decode (remaining : bytes) (protocol : MQTTProtocolVersion) : res ConnAckPacket :=
  let! '(session_present, reason_code, properties) :=
    match protocol with MQTTv5 => decode_connack_v5 remaining | MQTTv311 => decode_connack_v311 remaining end in
  Ok {| ca_session_present := session_present; ca_reason_code := reason_code; ca_properties := properties |}.

(** ** PING, DISCONNECT, AUTH *)

Definition _PINGREQ : bytes := [0xC0; 0].
Definition _PINGRESP : bytes := [0xD0; 0].
Definition _DISCONNECT : bytes := [0xE0; 0].
Definition encode_pingreq : bytes := _PINGREQ.
Definition encode_pingresp : bytes := _PINGRESP.

Definition decode_disconnect_v311 (remaining : bytes) : res (Z * option propmap) :=
  let! _ := require_end 0 (len remaining) in
  Raise ProtocolError.

Definition encode_disconnect_v311 (reason_code : Z) (properties : option propmap) : res bytes :=
  raise! ProtocolError when negb (reason_code =? 0) || has_values properties;
  Ok _DISCONNECT.

Definition _DISCONNECT_REASONS : list Z :=
  [0x00; 0x04; 0x80; 0x81; 0x82; 0x83; 0x87; 0x89; 0x8B; 0x8C; 0x8D; 0x8E; 0x8F; 0x90; 0x93; 0x94;
   0x95; 0x96; 0x97; 0x98; 0x99; 0x9A; 0x9B; 0x9C; 0x9D; 0x9E; 0x9F; 0xA0; 0xA1; 0xA2].

Definition _CLIENT_DISCONNECT_REASONS : list Z :=
  [0x00; 0x04; 0x80; 0x81; 0x82; 0x83; 0x90; 0x93; 0x94; 0x95; 0x96; 0x97; 0x98; 0x99].

Definition _SERVER_DISCONNECT_REASONS : list Z :=
  List.filter (λ r, negb (r =? 0x04)) _DISCONNECT_REASONS.

Definition _AUTH_REASONS : list Z := [0x00; 0x18; 0x19].

Definition _decode_control_v5 (remaining : bytes) (packet : pctx) (allowed : list Z) : res (Z * option propmap) :=
  match remaining with
  | [] => Ok (0, Some [])
  | reason :: _ =>
      let! _ := require_reason_code reason allowed in
      if len remaining =? 1 then Ok (reason, Some [])
      else
        let! '(properties, pos) := decode_properties remaining 1 packet in
        let! _ := require_end pos (len remaining) in
        Ok (reason, Some properties)
  end.

Definition decode_disconnect_v5 (remaining : bytes) : res (Z * option propmap) :=
  _decode_control_v5 remaining cDISCONNECT _SERVER_DISCONNECT_REASONS.

Definition encode_auth_v5 (reason_code : Z) (properties : option propmap) : res bytes :=
  let! _ := _require_outbound_reason reason_code _AUTH_REASONS in
  let! body := mk_bytes [reason_code] in
  let! b := encode_properties properties cAUTH in
  encode_frame AUTH 0 (body ++ b).

Definition decode_auth_v5 (remaining : bytes) : res (Z * option propmap) :=
  _decode_control_v5 remaining cAUTH _AUTH_REASONS.

Definition encode_disconnect_v5 (reason_code : Z) (properties : option propmap) : res bytes :=
  let! _ := _require_outbound_reason reason_code _CLIENT_DISCONNECT_REASONS in
  raise! ProtocolError when is_set (pget properties "server_reference");
  if (reason_code =? 0) && negb (has_values properties) then Ok _DISCONNECT
  else
    let! body := mk_bytes [reason_code] in
    let! b := encode_properties properties cDISCONNECT in
    encode_frame DISCONNECT 0 (body ++ b).

Definition disconnect_decode (remaining : bytes) (protocol : MQTTProtocolVersion) : res (Z * option propmap) :=
  match protocol with MQTTv5 => decode_disconnect_v5 remaining | MQTTv311 => decode_disconnect_v311 remaining end.

Definition auth_encode (reason_code : Z) (properties : option propmap) (protocol : MQTTProtocolVersion) : res bytes :=
  raise! ProtocolError when bool_decide (protocol ≠ MQTTv5);
  encode_auth_v5 reason_code properties.

Definition auth_decode (remaining : bytes) (protocol : MQTTProtocolVersion) : res (Z * option propmap) :=
  raise! ProtocolError when bool_decide (protocol ≠ MQTTv5);
  decode_auth_v5 remaining.

Definition encode_disconnect (reason_code : Z) (protocol : MQTTProtocolVersion) (properties : option propmap) : res bytes :=
  match protocol with
  | MQTTv5 => encode_disconnect_v5 reason_code properties
  | MQTTv311 => encode_disconnect_v311 reason_code properties
  end.

(** ** Reading a buffer field by field *)

Definition props_normal (c : pctx) (ps : option propmap) : propmap :=
  match ps with Some ps => normalise c ps | None => [] end.

(** Reading the next encoded value of a buffer moves past it. *)
Lemma read_next {A} dec (enc : A → res bytes) v d buf P R :
  decodes dec enc → enc v = Ok d → buf = P ++ d ++ R →
  dec buf (len P) = Ok (v, len (P ++ d)) ∧ buf = (P ++ d) ++ R.
Proof.
  intros H He ->. rewrite (dec_complete _ _ H v d) by done. rewrite len_app. by rewrite app_assoc.
Qed.

Lemma read_props c ps d buf P R :
  sendable c ps → encode_properties ps c = Ok d → buf = P ++ d ++ R →
  decode_properties buf (len P) c = Ok (props_normal c ps, len (P ++ d)) ∧ buf = (P ++ d) ++ R.
Proof.
  intros Hs He ->. rewrite len_app, <- app_assoc. split; [| done]. destruct ps as [ps|]; simpl in *.
  - destruct Hs. by apply decode_encode_properties.
  - simplify_eq. by apply (decode_encode_properties c [] [0] P R ltac:(constructor) ltac:(done)).
Qed.

Lemma pack_binary_parts b n : pack_u16 (len b) = Ok n → pack_binary b = Ok (n ++ b).
Proof. intros H. unfold pack_binary. apply pack_u16_inv in H as Hi. destruct Hi as (? & _ & _). rewrite Z.gtb_ltb.
  rewrite (proj2 (Z.ltb_ge _ _)) by lia. by rewrite H. Qed.

(** ** A broker's reading of CONNECT

    The layout of MQTT 3.1: protocol name and level, connect flags, keep alive,
    properties, client identifier, will, user name, password, nothing after. *)
Definition cbit (flags : Z) (n : Z) : bool := Z.testbit flags n.

Definition opt_read {A} (present : bool) (pos : Z) (m : res (A * Z)) : res (option A * Z) :=
  if present then let! '(v, p) := m in Ok (Some v, p) else Ok (None, pos).

Definition broker_connect (protocol : MQTTProtocolVersion) (body : bytes) : res ConnectPacket :=
  let v5 := bool_decide (protocol = MQTTv5) in
  raise! ProtocolError when negb (startswith body (if v5 then _PREFIX_V5 else _PREFIX_V311));
  let! flags := idx body 7 in
  raise! MalformedPacketError when cbit flags 0;
  let! '(keepalive, pos) := unpack_u16 body 8 in
  let! '(properties, pos) := opt_read v5 pos (decode_properties body pos cCONNECT) in
  let! '(client_id, pos) := unpack_utf8 body pos in
  let will := cbit flags 2 in
  let! '(will_properties, pos) := opt_read (will && v5) pos (decode_properties body pos cWILL) in
  let! '(will_topic, pos) := opt_read will pos (unpack_utf8 body pos) in
  let! '(will_payload, pos) := opt_read will pos (unpack_binary body pos) in
  let! '(username, pos) := opt_read (cbit flags 7) pos (unpack_utf8 body pos) in
  let! '(password, pos) := opt_read (cbit flags 6) pos (unpack_binary body pos) in
  let! _ := require_end pos (len body) in
  Ok {| c_client_id := client_id; c_clean_start := cbit flags 1; c_keepalive := keepalive;
        c_username := username; c_password := password; c_will_topic := will_topic;
        c_will_payload := match will_payload with Some b => b | None => [] end;
        c_will_qos := Z.land (Z.shiftr flags 3) 3; c_will_retain := cbit flags 5;
        c_will_properties := will_properties; c_protocol := protocol; c_properties := properties |}.

(** The packet as the broker sees it: property tables in normal form. *)
Definition connect_normal (p : ConnectPacket) : ConnectPacket :=
  let v5 := bool_decide (c_protocol p = MQTTv5) in
  {| c_client_id := c_client_id p; c_clean_start := c_clean_start p; c_keepalive := c_keepalive p;
     c_username := c_username p; c_password := c_password p; c_will_topic := c_will_topic p;
     c_will_payload := c_will_payload p; c_will_qos := c_will_qos p; c_will_retain := c_will_retain p;
     c_will_properties := (if is_set (c_will_topic p) && v5 then Some (props_normal cWILL (c_will_properties p)) else None);
     c_protocol := c_protocol p;
     c_properties := if v5 then Some (props_normal cCONNECT (c_properties p)) else None |}.

Lemma connect_flags_spec cs wt wq wr pw un :
  (wt = None → wq = AT_MOST_ONCE ∧ wr = false) →
  let f := connect_flags cs wt wq wr pw un in
  cbit f 0 = false ∧ cbit f 1 = cs ∧ cbit f 2 = is_set wt ∧ Z.land (Z.shiftr f 3) 3 = QoS_int wq ∧
  cbit f 5 = wr ∧ cbit f 6 = is_set pw ∧ cbit f 7 = is_set un.
Proof.
  intros Hw. destruct wt; [| destruct Hw as [-> ->]; [done |]];
    [destruct cs, wq, wr, pw, un | destruct cs, pw, un]; vm_compute; split_and!; done.
Qed.

Lemma QoS_of_inv z q : QoS_of z = Ok q → QoS_int q = z.
Proof. unfold QoS_of. intros H. case_ifs_in H; simplify_eq; done. Qed.

Lemma validate_connect_inv v5 ka pw wt wp wq wr wps ps q :
  _validate_connect v5 ka pw wt wp wq wr wps ps = Ok q →
  QoS_int q = wq ∧ (wt = None → q = AT_MOST_ONCE ∧ wr = false ∧ wp = []) ∧ 0 ≤ ka ≤ 65535.
Proof.
  unfold _validate_connect. intros H. res_inv. bools.
  assert (QoS_of wq = Ok q) as Hq by (destruct (QoS_of wq) as [|[]]; simpl in *; congruence).
  split; [by apply QoS_of_inv |]. split; [| lia]. intros ->. simpl in *. bools.
  split; [by destruct q | done].
Qed.

(** The optional parts of the body. *)
Definition opt_part {A} (o : option A) (enc : A → res bytes) : res bytes :=
  match o with None => Ok [] | Some a => enc a end.

Lemma read_opt {A} dec (enc : A → res bytes) o d buf P R :
  decodes dec enc → opt_part o enc = Ok d → buf = P ++ d ++ R →
  opt_read (is_set o) (len P) (dec buf (len P)) = Ok (o, len (P ++ d)) ∧ buf = (P ++ d) ++ R.
Proof.
  intros Hd He Hb. destruct o as [a|]; simpl in *.
  - destruct (read_next _ _ a d buf P R Hd He Hb) as [-> ?]. done.
  - simplify_eq. rewrite app_nil_r. done.
Qed.

Lemma read_opt_props c b ps d buf P R :
  sendable c ps → (if b : bool then encode_properties ps c else Ok []) = Ok d → buf = P ++ d ++ R →
  opt_read b (len P) (decode_properties buf (len P) c) =
    Ok (if b then Some (props_normal c ps) else None, len (P ++ d)) ∧ buf = (P ++ d) ++ R.
Proof.
  intros Hs He Hb. destruct b.
  - destruct (read_props c ps d buf P R Hs He Hb) as [H ?]. unfold opt_read. by rewrite H.
  - simplify_eq. by rewrite app_nil_r.
Qed.

(** The body [_encode_connect] assembles, as the concatenation of its parts. *)
Lemma encode_connect_parts prefix v5 p d :
  _encode_connect prefix v5 p = Ok d →
  ∃ q ka ps cid wps wt wp un pw,
    _validate_connect v5 (c_keepalive p) (c_password p) (c_will_topic p) (c_will_payload p)
      (c_will_qos p) (c_will_retain p) (c_will_properties p) (c_properties p) = Ok q ∧
    pack_u16 (c_keepalive p) = Ok ka ∧
    (if v5 then encode_properties (c_properties p) cCONNECT else Ok []) = Ok ps ∧
    pack_utf8 (VStr (c_client_id p)) = Ok cid ∧
    (if is_set (c_will_topic p) && v5 then encode_properties (c_will_properties p) cWILL else Ok []) = Ok wps ∧
    opt_part (c_will_topic p) (λ t, pack_utf8 (VStr t)) = Ok wt ∧
    opt_part (if is_set (c_will_topic p) then Some (c_will_payload p) else None) pack_binary = Ok wp ∧
    opt_part (c_username p) (λ t, pack_utf8 (VStr t)) = Ok un ∧
    opt_part (c_password p) pack_binary = Ok pw ∧
    framed d 0x10 (prefix ++ [connect_flags (c_clean_start p) (c_will_topic p) q (c_will_retain p)
                               (c_password p) (c_username p)] ++ ka ++ ps ++ cid ++ wps ++ wt ++ wp ++ un ++ pw).
Proof.
  unfold _encode_connect. intros H.
  apply rbind_Ok_inv in H as (q & Hq & H). apply rbind_Ok_inv in H as (ka & Hka & H).
  apply rbind_Ok_inv in H as (ps & Hps & H). apply rbind_Ok_inv in H as (cid & Hcid & H).
  apply rbind_Ok_inv in H as (b1 & Hb1 & H). apply rbind_Ok_inv in H as (b2 & Hb2 & H).
  apply rbind_Ok_inv in H as (b3 & Hb3 & H). apply encode_frame_inv in H as [Hf _].
  set (flags := connect_flags _ _ _ _ _ _) in *. set (b0 := (((prefix ++ [flags]) ++ ka) ++ ps) ++ cid) in *.
  assert (∃ wps wt wp, (if is_set (c_will_topic p) && v5 then encode_properties (c_will_properties p) cWILL else Ok []) = Ok wps ∧
    opt_part (c_will_topic p) (λ t, pack_utf8 (VStr t)) = Ok wt ∧
    opt_part (if is_set (c_will_topic p) then Some (c_will_payload p) else None) pack_binary = Ok wp ∧
    b1 = b0 ++ wps ++ wt ++ wp) as (wps & wt & wp & Hwps & Hwt & Hwp & ->).
  { destruct (c_will_topic p) as [t|]; simpl in *; res_inv.
    - eexists _, _, _. split_and!; [done | done | by apply pack_binary_parts |]. by rewrite <- !app_assoc.
    - exists [], [], []. by rewrite !app_nil_r. }
  assert (∃ un, opt_part (c_username p) (λ t, pack_utf8 (VStr t)) = Ok un ∧ b2 = (b0 ++ wps ++ wt ++ wp) ++ un) as (un & Hun & ->).
  { destruct (c_username p) as [t|]; simpl in *; res_inv; [eauto |]. exists []. by rewrite app_nil_r. }
  assert (∃ pw, opt_part (c_password p) pack_binary = Ok pw ∧ b3 = ((b0 ++ wps ++ wt ++ wp) ++ un) ++ pw) as (pw & Hpw & ->).
  { destruct (c_password p) as [t|]; simpl in *; res_inv; [| exists []; by rewrite app_nil_r].
    eexists; split; [by apply pack_binary_parts | done]. }
  exists q, ka, ps, cid, wps, wt, wp, un, pw. split_and!; try done.
  unfold b0 in Hf. rewrite <- !app_assoc in Hf. exact Hf.
Qed.

(** A CONNECT is what the broker reads.  For every connect request the
    encoder accepts, under either version, the bytes sent are one CONNECT packet
    from which a broker following the MQTT layout recovers every field: client
    identifier, clean start, keep alive, credentials, will and properties. *)
Theorem connect_broker_reads p d :
  sendable cCONNECT (c_properties p) → sendable cWILL (c_will_properties p) →
  connect_encode p = Ok d →
  ∃ body, framed d 0x10 body ∧ broker_connect (c_protocol p) body = Ok (connect_normal p).
Proof.
  intros Hs1 Hs2 H. set (v5 := bool_decide (c_protocol p = MQTTv5)).
  set (prefix := if v5 then _PREFIX_V5 else _PREFIX_V311).
  assert (_encode_connect prefix v5 p = Ok d) as He.
  { unfold prefix, v5. unfold connect_encode in H. by destruct (c_protocol p). }
  clear H. apply encode_connect_parts in He as (q & ka & ps & cid & wps & wt & wp & un & pw & Hval & Hka & Hps & Hcid & Hwps & Hwt & Hwp & Hun & Hpw & Hf).
  eexists; split; [exact Hf |]. apply validate_connect_inv in Hval as (Hq & Hwill & Hk).
  destruct (connect_flags_spec (c_clean_start p) (c_will_topic p) q (c_will_retain p) (c_password p) (c_username p))
    as (F0 & F1 & F2 & F3 & F5 & F6 & F7); [intros Hn; by destruct (Hwill Hn) as (? & ? & _) |].
  set (flags := connect_flags _ _ _ _ _ _) in *.
  set (body := prefix ++ [flags] ++ ka ++ ps ++ cid ++ wps ++ wt ++ wp ++ un ++ pw).
  unfold broker_connect. fold v5. fold prefix.
  assert (startswith body prefix = true) as -> by (apply startswith_spec; eauto). cbn [negb].
  assert (len prefix = 7) as H7 by (unfold prefix; by destruct v5).
  assert (idx body 7 = Ok flags) as -> by (unfold body; rewrite <- H7; apply idx_mid). cbn [rbind]. rewrite F0.
  set (P0 := prefix ++ [flags]). assert (len P0 = 8) as H8 by (unfold P0; rewrite len_app, H7; done).
  assert (body = P0 ++ ka ++ ps ++ cid ++ wps ++ wt ++ wp ++ un ++ pw) as B0 by (unfold P0; by rewrite <- app_assoc).
  rewrite <- H8.
  destruct (read_next _ _ _ _ _ _ _ u16_decodes Hka B0) as [-> B1]. cbn [rbind].
  destruct (read_opt_props _ _ _ _ _ _ _ Hs1 Hps B1) as [-> B2]. cbn [rbind].
  destruct (read_next _ _ _ _ _ _ _ utf8_decodes Hcid B2) as [-> B3]. cbn [rbind]. rewrite F2.
  destruct (read_opt_props _ _ _ _ _ _ _ Hs2 Hwps B3) as [-> B4]. cbn [rbind].
  destruct (read_opt _ _ _ _ _ _ _ utf8_decodes Hwt B4) as [-> B5]. cbn [rbind].
  destruct (read_opt _ _ _ _ _ _ _ binary_decodes Hwp B5) as [Hrw B6].
  assert (is_set (if is_set (c_will_topic p) then Some (c_will_payload p) else None) = is_set (c_will_topic p)) as Hset
    by (by destruct (c_will_topic p)).
  rewrite Hset in Hrw. rewrite Hrw. cbn [rbind]. rewrite F7.
  destruct (read_opt _ _ _ _ _ _ _ utf8_decodes Hun B6) as [-> B7]. cbn [rbind]. rewrite F6.
  rewrite <- (app_nil_r pw) in B7.
  destruct (read_opt _ _ _ _ _ _ _ binary_decodes Hpw B7) as [-> B8]. cbn [rbind].
  rewrite app_nil_r in B8. unfold require_end. rewrite <- B8, Z.eqb_refl. cbn [negb rbind].
  rewrite F1, F3, F5. unfold connect_normal. fold v5. f_equal. f_equal; try done.
  destruct (c_will_topic p); [done |]. simpl. by destruct Hwill as (_ & _ & ->).
Qed.

Definition sample_connect : ConnectPacket :=
  {| c_client_id := [99]; c_clean_start := true; c_keepalive := 60; c_username := Some [117];
     c_password := Some [1; 2]; c_will_topic := Some [119]; c_will_payload := [3]; c_will_qos := 1;
     c_will_retain := true; c_will_properties := Some [("will_delay_interval"%string, VInt 5)];
     c_protocol := MQTTv5; c_properties := Some [("receive_maximum"%string, VInt 20)] |}.

Lemma connect_broker_reads_witness :
  ∃ d body, connect_encode sample_connect = Ok d ∧ framed d 0x10 body ∧
    broker_connect MQTTv5 body = Ok (connect_normal sample_connect).
Proof.
  destruct (connect_broker_reads sample_connect
    (match connect_encode sample_connect with Ok d => d | Raise _ => [] end)) as (body & Hf & Hd).
  - split; [by apply (bool_decide_eq_true_1 (NoDup _)) | by apply Z.leb_le].
  - split; [by apply (bool_decide_eq_true_1 (NoDup _)) | by apply Z.leb_le].
  - vm_compute. reflexivity.
  - eexists _, body. split; [| split; [exact Hf | exact Hd]]. vm_compute. reflexivity.
Defined.

(** ** Decoding what a broker sends *)

Lemma decode_props_bind {A} b o c (k : propmap * Z → res A) :
  bytes_ok b → 0 ≤ o → (∀ x, raises_only wire_error (k x)) →
  raises_only wire_error (rbind (decode_properties b o c) k).
Proof. intros Hb Ho Hk. apply raises_only_bind; [by apply decode_properties_raises | eauto]. Qed.

Lemma require_bind {A} (m : res unit) (k : unit → res A) :
  raises_only (λ e, e = MalformedPacketError) m → (∀ x, raises_only wire_error (k x)) →
  raises_only wire_error (rbind m k).
Proof. intros Hm Hk. apply raises_only_bind; [by apply wire_malformed | eauto]. Qed.

#[export] Hint Resolve require_reason_code_raises require_nonzero_mid_raises : pyraise.

Lemma connack_decode_raises b protocol : bytes_ok b → raises_only wire_error (connack_decode b protocol).
Proof.
  intros Hb. unfold connack_decode. apply raises_only_bind; [| intros [[] ?] _; auto with pyraise].
  destruct protocol; unfold decode_connack_v311, decode_connack_v5; (case_if; [auto with pyraise |]); bools;
    (apply idx_bind_raises; [lia | intros ? _]); (case_if; [auto with pyraise |]);
    (apply idx_bind_raises; [lia | intros ? _]); (apply require_bind; [auto with pyraise | intros _]).
  - apply require_bind; [auto with pyraise | intros _]. case_if; auto with pyraise.
  - apply decode_props_bind; [done | lia |]. intros [ps pos].
    apply require_bind; [auto with pyraise | intros _]. case_if; auto with pyraise.
Qed.

Lemma decode_control_v5_raises b c allowed : bytes_ok b → raises_only wire_error (_decode_control_v5 b c allowed).
Proof.
  intros Hb. unfold _decode_control_v5. destruct b as [|r b]; [auto with pyraise |].
  apply require_bind; [auto with pyraise | intros _]. case_if; [auto with pyraise |].
  apply decode_props_bind; [done | lia |]. intros [ps pos]. apply require_bind; auto with pyraise.
Qed.

Lemma raise_protocol {A} : raises_only wire_error (@Raise A ProtocolError).
Proof. apply raises_only_Raise. by right. Qed.
#[export] Hint Resolve raise_protocol : pyraise.

Lemma disconnect_decode_raises b protocol : bytes_ok b → raises_only wire_error (disconnect_decode b protocol).
Proof.
  intros Hb. destruct protocol; simpl.
  - unfold decode_disconnect_v311. apply require_bind; auto with pyraise.
  - by apply decode_control_v5_raises.
Qed.

Lemma auth_decode_raises b protocol : bytes_ok b → raises_only wire_error (auth_decode b protocol).
Proof. intros Hb. unfold auth_decode. case_if; [auto with pyraise |]. by apply decode_control_v5_raises. Qed.

(** The control packets this client both sends and receives: AUTH round-trips. *)
Lemma auth_roundtrip reason ps d :
  sendable cAUTH ps → encode_auth_v5 reason ps = Ok d →
  ∃ body, framed d 0xF0 body ∧ decode_auth_v5 body = Ok (reason, Some (props_normal cAUTH ps)).
Proof.
  intros Hs H. unfold encode_auth_v5 in H. res_inv. apply mk_bytes_inv in Hv0 as [-> _].
  apply encode_frame_inv in H as [Hf _]. exists ([reason] ++ v1). split; [exact Hf |].
  unfold _require_outbound_reason in Hv. res_inv. bools.
  unfold decode_auth_v5, _decode_control_v5. cbn [app]. unfold require_reason_code. rewrite E. cbn [negb rbind].
  destruct (read_props cAUTH ps v1 (reason :: v1) [reason] [] Hs Hv1) as [Hd _]; [by rewrite app_nil_r |].
  change (len [reason]) with 1 in Hd. rewrite Hd. cbn [rbind]. unfold require_end. rewrite Z.eqb_refl. cbn [negb rbind].
  destruct (len (reason :: v1) =? 1) eqn:El; [| done]. bools. exfalso.
  assert (v1 ≠ []).
  { destruct ps as [ps|]; [by eapply encode_properties_nonempty | simpl in Hv1; by simplify_eq]. }
  destruct v1; [done | len_lia].
Qed.

(** What a broker's CONNACK tells the client. *)
Lemma connack_decode_inv b protocol p :
  connack_decode b protocol = Ok p →
  (ca_reason_code p ≠ 0 → ca_session_present p = false) ∧
  (is_set (ca_properties p) = bool_decide (protocol = MQTTv5)).
Proof.
  unfold connack_decode. intros H. apply rbind_Ok_inv in H as ([[sp r] ps] & H & [= <-]). simpl.
  assert (∀ r sp, (negb (r =? 0) && sp) = false → r ≠ 0 → sp = false) as Hsp.
  { intros r0 [] H0 Hr0; [| done]. rewrite andb_true_r in H0. bools. done. }
  destruct protocol.
  - unfold decode_connack_v311 in H. res_inv. eauto.
  - unfold decode_connack_v5 in H. res_inv. eauto.
Qed.
