(* ===== verification/Subscription.v ===== *)
(** * SUBSCRIBE, UNSUBSCRIBE, SUBACK, UNSUBACK and the codec table
    ([src/mqttium/packets/_subscribe.py], [_suback.py], [subscription.py],
    [_bindings.py]) *)

From S2P Require Import Prelude Vbi PyStr Primitives Enums Properties Topics Types Frame Ack Publish Handshake.

Record SubscribeOptions := {
  so_qos : Z;
  so_no_local : bool;
  so_retain_as_published : bool;
  so_retain_handling : Z }.

Definition int_of_bool (b : bool) : Z := if b then 1 else 0.

Definition encode_byte (self : SubscribeOptions) (protocol : MQTTProtocolVersion) : res Z :=
  let! qos := QoS_of (so_qos self) in
  match protocol with
  | MQTTv311 =>
      raise! ProtocolError when so_no_local self || so_retain_as_published self || negb (so_retain_handling self =? 0);
      Ok (QoS_int qos)
  | MQTTv5 =>
      raise! ValueError when negb (zin (so_retain_handling self) [0; 1; 2]);
      Ok (Z.lor (Z.lor (Z.lor (QoS_int qos) (Z.shiftl (int_of_bool (so_no_local self)) 2))
                   (Z.shiftl (int_of_bool (so_retain_as_published self)) 3))
            (Z.shiftl (Z.land (so_retain_handling self) 0x03) 4))
  end.

Record Subscription := { s_topic : pystr; s_options : SubscribeOptions }.

(** The loop over the filters of a SUBSCRIBE. *)
Fixpoint subscribe_entries (subscriptions : list Subscription) (protocol : MQTTProtocolVersion) (body : bytes) :
    res bytes :=
  match subscriptions with
  | [] => Ok body
  | s :: subscriptions =>
      let! t := pack_utf8 (VStr (s_topic s)) in
      let! o := encode_byte (s_options s) protocol in
      let! o := mk_bytes [o] in
      subscribe_entries subscriptions protocol (body ++ t ++ o)
  end.

Fixpoint topic_entries (topics : list pystr) (body : bytes) : res bytes :=
  match topics with
  | [] => Ok body
  | t :: topics => let! t := pack_utf8 (VStr t) in topic_entries topics (body ++ t)
  end.

Definition encode_subscribe_v311 (mid : Z) (subscriptions : list Subscription) : res bytes :=
  raise! ProtocolError when bool_decide (len subscriptions = 0);
  let! _ := _require_outbound_mid mid in
  let! body := pack_u16 mid in
  let! body := subscribe_entries subscriptions MQTTv311 body in
  encode_frame SUBSCRIBE 0x02 body.

Definition encode_unsubscribe_v311 (mid : Z) (topics : list pystr) : res bytes :=
  raise! ProtocolError when bool_decide (topics = []);
  let! _ := _require_outbound_mid mid in
  let! body := pack_u16 mid in
  let! body := topic_entries topics body in
  encode_frame UNSUBSCRIBE 0x02 body.

Definition encode_subscribe_v5 (mid : Z) (subscriptions : list Subscription) (properties : option propmap) : res bytes :=
  raise! ProtocolError when bool_decide (len subscriptions = 0);
  let! _ := _require_outbound_mid mid in
  let! body := pack_u16 mid in
  let! p := encode_properties properties cSUBSCRIBE in
  let! body := subscribe_entries subscriptions MQTTv5 (body ++ p) in
  encode_frame SUBSCRIBE 0x02 body.

Definition encode_unsubscribe_v5 (mid : Z) (topics : list pystr) (properties : option propmap) : res bytes :=
  raise! ProtocolError when bool_decide (topics = []);
  let! _ := _require_outbound_mid mid in
  let! body := pack_u16 mid in
  let! p := encode_properties properties cUNSUBSCRIBE in
  let! body := topic_entries topics (body ++ p) in
  encode_frame UNSUBSCRIBE 0x02 body.

Definition subscribe_encode (mid : Z) (subscriptions : list Subscription) (properties : option propmap)
    (protocol : MQTTProtocolVersion) : res bytes :=
  match protocol with
  | MQTTv5 => encode_subscribe_v5 mid subscriptions properties
  | MQTTv311 =>
      raise! ProtocolError when has_values properties;
      encode_subscribe_v311 mid subscriptions
  end.

Definition unsubscribe_encode (mid : Z) (topics : list pystr) (properties : option propmap)
    (protocol : MQTTProtocolVersion) : res bytes :=
  match protocol with
  | MQTTv5 => encode_unsubscribe_v5 mid topics properties
  | MQTTv311 =>
      raise! ProtocolError when has_values properties;
      encode_unsubscribe_v311 mid topics
  end.

(** ** SUBACK and UNSUBACK *)

Abbreviation suback_fields := (Z * list Z * option propmap)%type.

Definition _SUBACK_V311_REASONS : list Z := [0x00; 0x01; 0x02; 0x80].
Definition _SUBACK_V5_REASONS : list Z :=
  [0x00; 0x01; 0x02; 0x80; 0x83; 0x87; 0x8F; 0x91; 0x97; 0x9E; 0xA1; 0xA2].
Definition _UNSUBACK_REASONS : list Z := [0x00; 0x11; 0x80; 0x83; 0x87; 0x8F; 0x91].

Fixpoint require_reason_codes (reasons allowed : list Z) : res unit :=
  match reasons with
  | [] => Ok tt
  | r :: reasons => let! _ := require_reason_code r allowed in require_reason_codes reasons allowed
  end.

Definition decode_suback_v311 (remaining : bytes) : res suback_fields :=
  raise! MalformedPacketError when len remaining <? 3;
  let! '(mid, pos) := unpack_u16 remaining 0 in
  let! _ := require_nonzero_mid mid in
  let reason_codes := slice remaining pos (len remaining) in
  let! _ := require_reason_codes reason_codes _SUBACK_V311_REASONS in
  Ok (mid, reason_codes, None).

Definition decode_unsuback_v311 (remaining : bytes) : res suback_fields :=
  raise! MalformedPacketError when len remaining <? 2;
  let! '(mid, pos) := unpack_u16 remaining 0 in
  let! _ := require_nonzero_mid mid in
  let! _ := require_end pos (len remaining) in
  Ok (mid, [], None).

Definition decode_suback_v5 (remaining : bytes) : res suback_fields :=
  raise! MalformedPacketError when len remaining <? 3;
  let! '(mid, pos) := unpack_u16 remaining 0 in
  let! _ := require_nonzero_mid mid in
  let! '(properties, pos) := decode_properties remaining pos cSUBACK in
  raise! MalformedPacketError when pos >=? len remaining;
  let reason_codes := slice remaining pos (len remaining) in
  let! _ := require_reason_codes reason_codes _SUBACK_V5_REASONS in
  Ok (mid, reason_codes, Some properties).

Definition decode_unsuback_v5 (remaining : bytes) : res suback_fields :=
  raise! MalformedPacketError when len remaining <? 2;
  let! '(mid, pos) := unpack_u16 remaining 0 in
  let! _ := require_nonzero_mid mid in
  let! '(properties, pos) := decode_properties remaining pos cUNSUBACK in
  raise! MalformedPacketError when pos >=? len remaining;
  let reason_codes := slice remaining pos (len remaining) in
  let! _ := require_reason_codes reason_codes _UNSUBACK_REASONS in
  Ok (mid, reason_codes, Some properties).

Definition suback_decode (remaining : bytes) (protocol : MQTTProtocolVersion) : res suback_fields :=
  match protocol with MQTTv5 => decode_suback_v5 remaining | MQTTv311 => decode_suback_v311 remaining end.

Definition unsuback_decode (remaining : bytes) (protocol : MQTTProtocolVersion) : res suback_fields :=
  match protocol with MQTTv5 => decode_unsuback_v5 remaining | MQTTv311 => decode_unsuback_v311 remaining end.

(** ** The version-bound codec table *)

Definition _auth_requires_v5 (_remaining : bytes) : res (Z * option propmap) := Raise ProtocolError.

Record CodecBindings := {
  b_protocol : MQTTProtocolVersion;
  b_is_mqtt5 : bool;
  b_decode_puback : bytes → res ack_fields;
  b_decode_pubrec : bytes → res ack_fields;
  b_decode_pubrel : bytes → res ack_fields;
  b_decode_pubcomp : bytes → res ack_fields;
  b_encode_pubrel : Z → Z → option propmap → res bytes;
  b_decode_connack : bytes → res (bool * Z * option propmap);
  b_decode_suback : bytes → res suback_fields;
  b_decode_unsuback : bytes → res suback_fields;
  b_decode_disconnect : bytes → res (Z * option propmap);
  b_decode_auth : bytes → res (Z * option propmap);
  b_pingreq_frame : bytes;
  b_encode_disconnect : Z → option propmap → res bytes;
  b_encode_publish_item : pystr → bytes → qos_arg → bool → bool → option Z → option propmap →
                          option bytes → option bytes → res WriteItem;
  b_encode_subscribe : Z → list Subscription → option propmap → res bytes;
  b_encode_unsubscribe : Z → list pystr → option propmap → res bytes }.

Definition bind_codec (protocol : MQTTProtocolVersion) : CodecBindings :=
  match protocol with
  | MQTTv5 => {|
      b_protocol := protocol; b_is_mqtt5 := true;
      b_decode_puback := decode_puback_v5; b_decode_pubrec := decode_pubrec_v5;
      b_decode_pubrel := decode_pubrel_v5; b_decode_pubcomp := decode_pubcomp_v5;
      b_encode_pubrel := encode_pubrel_v5;
      b_decode_connack := decode_connack_v5; b_decode_suback := decode_suback_v5;
      b_decode_unsuback := decode_unsuback_v5; b_decode_disconnect := decode_disconnect_v5;
      b_decode_auth := decode_auth_v5; b_pingreq_frame := encode_pingreq;
      b_encode_disconnect := encode_disconnect_v5;
      b_encode_publish_item := encode_publish_item_v5;
      b_encode_subscribe := encode_subscribe_v5; b_encode_unsubscribe := encode_unsubscribe_v5 |}
  | MQTTv311 => {|
      b_protocol := protocol; b_is_mqtt5 := false;
      b_decode_puback := decode_puback_v311; b_decode_pubrec := decode_pubrec_v311;
      b_decode_pubrel := decode_pubrel_v311; b_decode_pubcomp := decode_pubcomp_v311;
      b_encode_pubrel := encode_pubrel_v311;
      b_decode_connack := decode_connack_v311; b_decode_suback := decode_suback_v311;
      b_decode_unsuback := decode_unsuback_v311; b_decode_disconnect := decode_disconnect_v311;
      b_decode_auth := _auth_requires_v5; b_pingreq_frame := encode_pingreq;
      b_encode_disconnect := encode_disconnect_v311;
      b_encode_publish_item := λ t y q r d m _ tb _, encode_publish_item_v311 t y q r d m tb;
      b_encode_subscribe := λ m s _, encode_subscribe_v311 m s;
      b_encode_unsubscribe := λ m t _, encode_unsubscribe_v311 m t |}
  end.

(** ** A broker's reading of SUBSCRIBE and UNSUBSCRIBE *)

Definition options_of_byte (b : Z) : SubscribeOptions :=
  {| so_qos := Z.land b 3; so_no_local := Z.testbit b 2; so_retain_as_published := Z.testbit b 3;
     so_retain_handling := Z.shiftr b 4 |}.

Fixpoint broker_filters (fuel : nat) (body : bytes) (pos : Z) : res (list Subscription) :=
  if pos =? len body then Ok []
  else
    match fuel with
    | O => Raise RuntimeError
    | S fuel =>
        let! '(topic, pos) := unpack_utf8 body pos in
        let! b := idx body pos in
        let! rest := broker_filters fuel body (pos + 1) in
        Ok ({| s_topic := topic; s_options := options_of_byte b |} :: rest)
    end.

Definition broker_subscribe (protocol : MQTTProtocolVersion) (body : bytes) :
    res (Z * list Subscription * option propmap) :=
  let! '(mid, pos) := unpack_u16 body 0 in
  let! '(ps, pos) := opt_read (bool_decide (protocol = MQTTv5)) pos (decode_properties body pos cSUBSCRIBE) in
  let! subs := broker_filters (length body) body pos in
  Ok (mid, subs, ps).

Fixpoint broker_topics (fuel : nat) (body : bytes) (pos : Z) : res (list pystr) :=
  if pos =? len body then Ok []
  else
    match fuel with
    | O => Raise RuntimeError
    | S fuel =>
        let! '(topic, pos) := unpack_utf8 body pos in
        let! rest := broker_topics fuel body pos in
        Ok (topic :: rest)
    end.

Definition broker_unsubscribe (protocol : MQTTProtocolVersion) (body : bytes) :
    res (Z * list pystr * option propmap) :=
  let! '(mid, pos) := unpack_u16 body 0 in
  let! '(ps, pos) := opt_read (bool_decide (protocol = MQTTv5)) pos (decode_properties body pos cUNSUBSCRIBE) in
  let! topics := broker_topics (length body) body pos in
  Ok (mid, topics, ps).

Lemma encode_byte_inv o protocol b :
  encode_byte o protocol = Ok b → options_of_byte b = o ∧ byte_ok b.
Proof.
  unfold encode_byte. intros H. apply rbind_Ok_inv in H as (q & Hq & H). apply QoS_of_inv in Hq.
  destruct o as [oq nl rap rh]. simpl in *. destruct protocol.
  - res_inv. bools. subst. destruct q; done.
  - res_inv. bools.
    assert (rh = 0 ∨ rh = 1 ∨ rh = 2) as [->|[->| ->]] by lia; destruct q, nl, rap; done.
Qed.

Lemma subscribe_entries_inv subs protocol : ∀ body body',
  subscribe_entries subs protocol body = Ok body' →
  ∃ rest, body' = body ++ rest ∧ (length subs ≤ length rest)%nat ∧
    ∀ fuel P, (length subs ≤ fuel)%nat → broker_filters fuel (P ++ rest) (len P) = Ok subs.
Proof.
  induction subs as [|s subs IH]; intros body body' H; cbn [subscribe_entries] in H.
  - simplify_eq. exists []. split_and!; [by rewrite app_nil_r | done |]. intros fuel P _. rewrite app_nil_r.
    destruct fuel; cbn [broker_filters]; by rewrite Z.eqb_refl.
  - apply rbind_Ok_inv in H as (t & Ht & H). apply rbind_Ok_inv in H as (o & Ho & H).
    apply rbind_Ok_inv in H as (o' & Ho' & H). apply mk_bytes_inv in Ho' as [-> _].
    apply IH in H as (rest & -> & Hlen & Hread). exists (t ++ [o] ++ rest). split_and!.
    + by rewrite <- !app_assoc.
    + simpl. rewrite length_app. simpl. lia.
    + intros [|fuel] P Hf; simpl in Hf; [lia |]. cbn [broker_filters].
      destruct (read_next _ _ _ _ (P ++ t ++ [o] ++ rest) P _ utf8_decodes Ht eq_refl) as [-> ->].
      rewrite (proj2 (Z.eqb_neq (len P) _)) by len_lia. cbn [rbind app]. rewrite idx_mid. cbn [rbind].
      replace (len (P ++ t) + 1) with (len ((P ++ t) ++ [o])) by len_lia.
      replace ((P ++ t) ++ o :: rest) with (((P ++ t) ++ [o]) ++ rest) by (by rewrite <- app_assoc).
      rewrite Hread by lia. cbn [rbind]. apply encode_byte_inv in Ho as [-> _]. by destruct s.
Qed.

Lemma topic_entries_inv topics : ∀ body body',
  topic_entries topics body = Ok body' →
  ∃ rest, body' = body ++ rest ∧ (length topics ≤ length rest)%nat ∧
    ∀ fuel P, (length topics ≤ fuel)%nat → broker_topics fuel (P ++ rest) (len P) = Ok topics.
Proof.
  induction topics as [|s topics IH]; intros body body' H; cbn [topic_entries] in H.
  - simplify_eq. exists []. split_and!; [by rewrite app_nil_r | done |]. intros fuel P _. rewrite app_nil_r.
    destruct fuel; cbn [broker_topics]; by rewrite Z.eqb_refl.
  - apply rbind_Ok_inv in H as (t & Ht & H). apply pack_utf8_inv in Ht as Hd. destruct Hd as (d & _ & Hd & _).
    apply IH in H as (rest & -> & Hlen & Hread). exists (t ++ rest). split_and!.
    + by rewrite <- !app_assoc.
    + rewrite Hd, length_app. simpl. lia.
    + intros [|fuel] P Hf; simpl in Hf; [lia |]. cbn [broker_topics].
      destruct (read_next _ _ _ _ (P ++ t ++ rest) P _ utf8_decodes Ht eq_refl) as [-> ->].
      rewrite (proj2 (Z.eqb_neq (len P) _)) by (subst t; len_lia). cbn [rbind]. by rewrite Hread by lia.
Qed.

(** A SUBSCRIBE or UNSUBSCRIBE is what the broker reads: for every request
    the encoders accept, under either version, a broker following the MQTT
    layout recovers the packet identifier, the filters with all their options in
    order, and the properties. *)
Theorem subscribe_broker_reads mid subs topics ps protocol d :
  (sendable cSUBSCRIBE ps → subscribe_encode mid subs ps protocol = Ok d →
   ∃ body, framed d 0x82 body ∧
     broker_subscribe protocol body =
       Ok (mid, subs, if bool_decide (protocol = MQTTv5) then Some (props_normal cSUBSCRIBE ps) else None)) ∧
  (sendable cUNSUBSCRIBE ps → unsubscribe_encode mid topics ps protocol = Ok d →
   ∃ body, framed d 0xA2 body ∧
     broker_unsubscribe protocol body =
       Ok (mid, topics, if bool_decide (protocol = MQTTv5) then Some (props_normal cUNSUBSCRIBE ps) else None)).
Proof.
  split; intros Hs H.
  - assert (∃ m p body, pack_u16 mid = Ok m ∧
      (if bool_decide (protocol = MQTTv5) then encode_properties ps cSUBSCRIBE else Ok []) = Ok p ∧
      subscribe_entries subs protocol (m ++ p) = Ok body ∧ framed d 0x82 body) as (m & p & body & Hm & Hp & He & Hf).
    { destruct protocol; simpl in *; [unfold encode_subscribe_v311 in H | unfold encode_subscribe_v5 in H]; res_inv;
        apply encode_frame_inv in H as [Hf _]; eexists _, _, _; split_and!; try done. by rewrite app_nil_r. }
    exists body. split; [done |]. apply subscribe_entries_inv in He as (rest & -> & Hlen & Hread).
    unfold broker_subscribe. rewrite <- app_assoc.
    destruct (read_next _ _ _ _ (m ++ p ++ rest) [] _ u16_decodes Hm eq_refl) as [Hu _].
    change (len []) with 0 in Hu. rewrite Hu. cbn [rbind]. rewrite app_nil_l.
    destruct (read_opt_props _ _ _ _ (m ++ p ++ rest) m rest Hs Hp eq_refl) as [-> _]. cbn [rbind].
    rewrite app_assoc, Hread; [done |]. rewrite !length_app. lia.
  - assert (∃ m p body, pack_u16 mid = Ok m ∧
      (if bool_decide (protocol = MQTTv5) then encode_properties ps cUNSUBSCRIBE else Ok []) = Ok p ∧
      topic_entries topics (m ++ p) = Ok body ∧ framed d 0xA2 body) as (m & p & body & Hm & Hp & He & Hf).
    { destruct protocol; simpl in *; [unfold encode_unsubscribe_v311 in H | unfold encode_unsubscribe_v5 in H]; res_inv;
        apply encode_frame_inv in H as [Hf _]; eexists _, _, _; split_and!; try done. by rewrite app_nil_r. }
    exists body. split; [done |]. apply topic_entries_inv in He as (rest & -> & Hlen & Hread).
    unfold broker_unsubscribe. rewrite <- app_assoc.
    destruct (read_next _ _ _ _ (m ++ p ++ rest) [] _ u16_decodes Hm eq_refl) as [Hu _].
    change (len []) with 0 in Hu. rewrite Hu. cbn [rbind]. rewrite app_nil_l.
    destruct (read_opt_props _ _ _ _ (m ++ p ++ rest) m rest Hs Hp eq_refl) as [-> _]. cbn [rbind].
    rewrite app_assoc, Hread; [done |]. rewrite !length_app. lia.
Qed.

Definition sample_subs : list Subscription :=
  [ {| s_topic := [97; 47; 43]; s_options := {| so_qos := 2; so_no_local := true; so_retain_as_published := false; so_retain_handling := 2 |} |};
    {| s_topic := [35]; s_options := {| so_qos := 0; so_no_local := false; so_retain_as_published := true; so_retain_handling := 1 |} |} ].

Lemma subscribe_broker_reads_witness :
  ∃ d body, subscribe_encode 7 sample_subs None MQTTv5 = Ok d ∧ framed d 0x82 body ∧
    broker_subscribe MQTTv5 body = Ok (7, sample_subs, Some []).
Proof.
  destruct (proj1 (subscribe_broker_reads 7 sample_subs [] None MQTTv5
    (match subscribe_encode 7 sample_subs None MQTTv5 with Ok d => d | Raise _ => [] end))) as (body & Hf & Hd).
  - exact I.
  - vm_compute. reflexivity.
  - eexists _, body. split; [| split; [exact Hf | exact Hd]]. vm_compute. reflexivity.
Defined.

(** ** Decoding is safe *)

Lemma require_reason_codes_raises l a : raises_only (λ e, e = MalformedPacketError) (require_reason_codes l a).
Proof.
  induction l as [|r l IH]; simpl; [auto with pyraise |]. apply raises_only_bind; [apply require_reason_code_raises | auto].
Qed.
#[export] Hint Resolve require_reason_codes_raises : pyraise.

Lemma u16_bind {A} b o (k : Z * Z → res A) :
  bytes_ok b → 0 ≤ o → (∀ m p, o < p → raises_only wire_error (k (m, p))) →
  raises_only wire_error (rbind (unpack_u16 b o) k).
Proof.
  intros Hb Ho Hk. apply raises_only_bind; [apply wire_malformed, (dec_raises _ _ u16_decodes); done |].
  intros [m p] Hm. apply Hk. by apply (dec_bounds _ _ _ _ _ _ u16_decodes Hb Ho) in Hm as [? _].
Qed.

Lemma utf8_bind {A} b o (k : pystr * Z → res A) :
  bytes_ok b → 0 ≤ o → (∀ m p, o < p → raises_only wire_error (k (m, p))) →
  raises_only wire_error (rbind (unpack_utf8 b o) k).
Proof.
  intros Hb Ho Hk. apply raises_only_bind; [apply wire_malformed, (dec_raises _ _ utf8_decodes); done |].
  intros [m p] Hm. apply Hk. by apply unpack_utf8_ok in Hm as [? _].
Qed.

Lemma suback_decode_raises b protocol : bytes_ok b → raises_only wire_error (suback_decode b protocol).
Proof.
  intros Hb. destruct protocol; simpl; unfold decode_suback_v311, decode_suback_v5; (case_if; [auto with pyraise |]);
    (apply u16_bind; [done | lia | intros m p Hp]); (apply require_bind; [auto with pyraise | intros _]).
  - apply require_bind; auto with pyraise.
  - apply decode_props_bind; [done | lia |]. intros [ps pos]. case_if; [auto with pyraise |].
    apply require_bind; auto with pyraise.
Qed.

Lemma unsuback_decode_raises b protocol : bytes_ok b → raises_only wire_error (unsuback_decode b protocol).
Proof.
  intros Hb. destruct protocol; simpl; unfold decode_unsuback_v311, decode_unsuback_v5; (case_if; [auto with pyraise |]);
    (apply u16_bind; [done | lia | intros m p Hp]); (apply require_bind; [auto with pyraise | intros _]).
  - apply require_bind; auto with pyraise.
  - apply decode_props_bind; [done | lia |]. intros [ps pos]. case_if; [auto with pyraise |].
    apply require_bind; auto with pyraise.
Qed.

Lemma publish_decode_raises flags b protocol : bytes_ok b → raises_only wire_error (publish_decode flags b protocol).
Proof.
  intros Hb. unfold publish_decode. case_if; [auto with pyraise |]. bools.
  assert (0 ≤ Z.land (Z.shiftr flags 1) 3 ≤ 3) as Hq.
  { rewrite (Z.land_ones _ 2 ltac:(lia) : Z.land _ 3 = _).
    pose proof (Z.mod_pos_bound (Z.shiftr flags 1) (2 ^ 2) ltac:(lia)). lia. }
  assert (∃ q, QoS_of (Z.land (Z.shiftr flags 1) 3) = Ok q) as [q ->].
  { unfold QoS_of. repeat case_if; eauto. bools. lia. }
  cbn [rbind]. case_if; [auto with pyraise |]. apply utf8_bind; [done | lia |]. intros t p Hp.
  apply raises_only_bind.
  { case_if; [| auto with pyraise]. apply u16_bind; [done | lia |]. intros m p' Hp'.
    apply require_bind; auto with pyraise. }
  intros [m p'] Hm.
  assert (0 ≤ p') as Hp'.
  { destruct (truthy q); [| simplify_eq; lia]. apply rbind_Ok_inv in Hm as ([m0 p0] & Hm0 & Hm).
    apply (dec_bounds _ _ _ _ _ _ u16_decodes Hb) in Hm0; [| lia]. res_inv. lia. }
  apply raises_only_bind.
  { destruct protocol; [auto with pyraise |]. apply decode_props_bind; [done | done |]. intros []. auto with pyraise. }
  intros [ps p''] _. apply require_bind; [apply received_raises |]. intros _. case_if; auto with pyraise.
Qed.

(** Decoding never escapes the library's errors.  Whatever bytes a broker
    sends, every decoder of the codec table bound for a protocol version, and
    the PUBLISH decoder, returns a value or raises [MalformedPacketError] or
    [ProtocolError]: no indexing, Unicode or struct error. *)
Theorem codec_decoders_safe protocol b :
  bytes_ok b →
  let codec := bind_codec protocol in
  raises_only wire_error (b_decode_puback codec b) ∧ raises_only wire_error (b_decode_pubrec codec b) ∧
  raises_only wire_error (b_decode_pubrel codec b) ∧ raises_only wire_error (b_decode_pubcomp codec b) ∧
  raises_only wire_error (b_decode_connack codec b) ∧ raises_only wire_error (b_decode_suback codec b) ∧
  raises_only wire_error (b_decode_unsuback codec b) ∧ raises_only wire_error (b_decode_disconnect codec b) ∧
  raises_only wire_error (b_decode_auth codec b) ∧
  ∀ flags, raises_only wire_error (publish_decode flags b protocol).
Proof.
  intros Hb codec.
  assert (raises_only wire_error (b_decode_connack codec b)).
  { pose proof (connack_decode_raises b protocol Hb) as H. unfold connack_decode in H.
    intros e He. apply H. unfold codec in He. destruct protocol; simpl in *; by rewrite He. }
  split_and!; try done; intros; [..| by apply publish_decode_raises]; unfold codec; destruct protocol; simpl;
    try apply decode_ack_v311_raises; try (by apply decode_ack_v5_raises); try (by apply decode_control_v5_raises);
    try (by apply (suback_decode_raises b MQTTv311)); try (by apply (suback_decode_raises b MQTTv5));
    try (by apply (unsuback_decode_raises b MQTTv311)); try (by apply (unsuback_decode_raises b MQTTv5));
    [by apply (disconnect_decode_raises b MQTTv311) | auto with pyraise].
Qed.

Lemma codec_decoders_safe_witness :
  raises_only wire_error (b_decode_suback (bind_codec MQTTv5) [0; 1; 0; 0x87]).
Proof. apply (codec_decoders_safe MQTTv5 [0; 1; 0; 0x87]). bytes_by_compute. Defined.
