(* ===== verification/Buffer.v ===== *)
(** * The incremental frame decoder ([src/mqttium/codec/buffer.py])

    The slab is modelled as the code keeps it: a byte array of [_capacity]
    bytes, of which [_start.._end] are live; compaction, growth, retirement and
    the receive window move and resize it.  A memoryview aliases the slab: what
    a receiver writes into a window is written into [_buf]. *)

From S2P Require Import Prelude Vbi PyStr Primitives Enums Properties Frame.

Definition DEFAULT_MAX_PACKET_SIZE : Z := 16 * 1024 * 1024.
Definition DEFAULT_CAPACITY : Z := 256 * 1024.
Definition _MIN_CAPACITY : Z := 16 * 1024.
Definition _INITIAL_WINDOW : Z := 64 * 1024.
Definition _PROMOTE_AFTER : Z := 4.
Definition _LARGE_FRAME : Z := DEFAULT_CAPACITY.
Definition _MIN_WINDOW : Z := 16 * 1024.
Definition RECEIVE_QUANTUM : Z := DEFAULT_CAPACITY.
Definition _OVERSIZE_RETENTION : Z := 64.

Record IncrementalDecoder := mkDecoder {
  _buf : bytes;
  _start : Z;
  _end : Z;
  _capacity : Z;
  _idle_drains : Z;
  _window_peak : Z;
  _drain_had_large_frame : bool;
  _offered : Z;
  _target_window : Z;
  _full_fills : Z;
  _max_packet_size : Z;
  _high_water : Z }.

(** Field assignments. *)
Definition set_slab (d : IncrementalDecoder) (buf : bytes) (start end_ cap : Z) : IncrementalDecoder :=
  mkDecoder buf start end_ cap (_idle_drains d) (_window_peak d) (_drain_had_large_frame d) (_offered d)
    (_target_window d) (_full_fills d) (_max_packet_size d) (_high_water d).
Definition set_offsets (d : IncrementalDecoder) (start end_ : Z) : IncrementalDecoder :=
  set_slab d (_buf d) start end_ (_capacity d).
Definition set_drains (d : IncrementalDecoder) (idle peak : Z) (large : bool) : IncrementalDecoder :=
  mkDecoder (_buf d) (_start d) (_end d) (_capacity d) idle peak large (_offered d)
    (_target_window d) (_full_fills d) (_max_packet_size d) (_high_water d).
Definition set_window (d : IncrementalDecoder) (offered target fills : Z) : IncrementalDecoder :=
  mkDecoder (_buf d) (_start d) (_end d) (_capacity d) (_idle_drains d) (_window_peak d)
    (_drain_had_large_frame d) offered target fills (_max_packet_size d) (_high_water d).
Definition set_peaks (d : IncrementalDecoder) (peak high : Z) : IncrementalDecoder :=
  mkDecoder (_buf d) (_start d) (_end d) (_capacity d) (_idle_drains d) peak
    (_drain_had_large_frame d) (_offered d) (_target_window d) (_full_fills d) (_max_packet_size d) high.

Definition decoder_init (max_packet_size : Z) : res IncrementalDecoder :=
  raise! ValueError when max_packet_size <? 1;
  Ok (mkDecoder [] 0 0 0 0 0 false 0 _INITIAL_WINDOW 0 max_packet_size 0).

Definition set_max_packet_size (d : IncrementalDecoder) (value : Z) : res IncrementalDecoder :=
  raise! ValueError when value <? 1;
  Ok (mkDecoder (_buf d) (_start d) (_end d) (_capacity d) (_idle_drains d) (_window_peak d)
        (_drain_had_large_frame d) (_offered d) (_target_window d) (_full_fills d) value (_high_water d)).

Definition buffered (d : IncrementalDecoder) : Z := _end d - _start d.

Definition next_header_byte (d : IncrementalDecoder) : res (option Z) :=
  if _start d <? _end d then let! b := idx (_buf d) (_start d) in Ok (Some b) else Ok None.

(** [view[pos:pos+len(data)] = data]. *)
Definition blit (buf : bytes) (pos : Z) (data : bytes) : bytes :=
  slice buf 0 pos ++ data ++ slice buf (pos + len data) (len buf).

Definition zeros (n : Z) : bytes := replicate (Z.to_nat n) 0.

Definition _reallocate (d : IncrementalDecoder) (capacity : Z) : IncrementalDecoder :=
  let live := _end d - _start d in
  let grown := zeros capacity in
  let grown := if live =? 0 then grown else blit grown 0 (slice (_buf d) (_start d) (_end d)) in
  set_slab d grown 0 live capacity.

Definition _ensure (d : IncrementalDecoder) (need : Z) (exact_total : option Z) : IncrementalDecoder :=
  if _capacity d - _end d >=? need then d
  else
    let live := _end d - _start d in
    if _capacity d - live >=? need then
      set_slab d (blit (_buf d) 0 (slice (_buf d) (_start d) (_end d))) 0 live (_capacity d)
    else
      let required := live + need in
      let capacity := Z.max (Z.max (_capacity d * 2) _MIN_CAPACITY) required in
      let capacity := match exact_total with
                      | None => capacity
                      | Some t => Z.max required (Z.min capacity t)
                      end in
      let ceiling := _max_packet_size d + RECEIVE_QUANTUM in
      let capacity := if (required <=? ceiling) && (ceiling <? capacity) then ceiling else capacity in
      _reallocate d capacity.

(** [while target < peak: target *= 2]; [target] starts positive, so the fuel
    given below (one unit per bit of the peak) always suffices. *)
Fixpoint double_until (fuel : nat) (target peak : Z) : Z :=
  match fuel with
  | O => target
  | S fuel => if target <? peak then double_until fuel (target * 2) peak else target
  end.

Definition _retire_oversize (d : IncrementalDecoder) : IncrementalDecoder :=
  if _drain_had_large_frame d then set_drains d 0 0 false
  else
    let idle := _idle_drains d + 1 in
    if idle <? _OVERSIZE_RETENTION then set_drains d idle (_window_peak d) (_drain_had_large_frame d)
    else
      let floor := _target_window d in
      let target := if _MIN_CAPACITY >? floor then _MIN_CAPACITY else floor in
      let target := double_until (Z.to_nat (Z.log2_up (_window_peak d)) + 1) target (_window_peak d) in
      let d := set_drains d 0 0 (_drain_had_large_frame d) in
      if target <? _capacity d then _reallocate d target else d.

Definition _reset (d : IncrementalDecoder) : IncrementalDecoder :=
  let d := set_offsets d 0 0 in
  if _capacity d >? _target_window d then _retire_oversize d else d.

Definition _known_frame_total (d : IncrementalDecoder) : res (option Z) :=
  if _end d - _start d <? 2 then Ok None
  else
    match decode_vbi (_buf d) (_start d + 1) (Some (_end d)) with
    | Raise MalformedPacketError => Ok None
    | Raise e => Raise e
    | Ok (remaining, rl_end) =>
        let total := (rl_end - _start d) + remaining in
        if (total <=? _end d - _start d) || (total >? _max_packet_size d) then Ok None
        else Ok (Some total)
    end.

(** Returns the decoder and the bounds of the view handed out. *)
Definition writable_window (d : IncrementalDecoder) (preferred : Z) : res (IncrementalDecoder * (Z * Z)) :=
  let want := _target_window d in
  let want := if preferred >? want then preferred else want in
  let! '(want, exact) :=
    (if _capacity d - _end d <? want then
       let! total := _known_frame_total d in
       match total with
       | Some total =>
           let remaining := total - (_end d - _start d) in
           Ok (if (0 <? remaining) && (remaining <? want) then remaining else want, Some total)
       | None => Ok (want, None)
       end
     else Ok (want, None)) in
  let d := _ensure d want exact in
  let end_ := _end d in
  let limit := end_ + want in
  let limit := if limit >? _capacity d then _capacity d else limit in
  Ok (set_window d (limit - end_) (_target_window d) (_full_fills d), (end_, limit)).

Definition commit (d : IncrementalDecoder) (nbytes : Z) : res IncrementalDecoder :=
  if nbytes <=? 0 then Ok d
  else
    let offered := _offered d in
    raise! ValueError when nbytes >? offered;
    let d :=
      if (nbytes =? offered) && (_target_window d <? RECEIVE_QUANTUM) then
        let fills := _full_fills d + 1 in
        if fills >=? _PROMOTE_AFTER then set_window d 0 (_target_window d * 2) 0
        else set_window d 0 (_target_window d) fills
      else set_window d 0 (_target_window d) 0 in
    let end_ := _end d + nbytes in
    let d := set_offsets d (_start d) end_ in
    let buffered := end_ - _start d in
    Ok (set_peaks d (if buffered >? _window_peak d then buffered else _window_peak d)
          (if buffered >? _high_water d then buffered else _high_water d)).

(** [all(buf[start + i] & 0x80 for i in range(1, available))]. *)
Definition all_continuation (buf : bytes) (start available : Z) : bool :=
  forallb (λ b, negb (Z.land b 0x80 =? 0)) (slice buf (start + 1) (start + available)).

Definition peek_packet_bounds (d : IncrementalDecoder) : res (option (Z * Z * Z)) :=
  let buf := _buf d in
  let start := _start d in
  let available := _end d - start in
  if available <? 2 then Ok None
  else
    let! header := idx buf start in
    let! first := idx buf (start + 1) in
    let! bounds :=
      (if first <? 0x80 then Ok (Some (first, start + 2))
       else
         let! second :=
           (if available >=? 3 then
              let! b := idx buf (start + 2) in Ok (if b <? 0x80 then Some b else None)
            else Ok None) in
         match second with
         | Some second =>
             let remaining_length := Z.lor (Z.land first 0x7F) (Z.shiftl second 7) in
             raise! MalformedPacketError when remaining_length <? 128;
             Ok (Some (remaining_length, start + 3))
         | None =>
             match decode_vbi buf (start + 1) (Some (_end d)) with
             | Ok r => Ok (Some r)
             | Raise MalformedPacketError =>
                 raise! MalformedPacketError when available >=? 5;
                 if all_continuation buf start available then Ok None else Raise MalformedPacketError
             | Raise e => Raise e
             end
         end) in
    match bounds with
    | None => Ok None
    | Some (remaining_length, rl_end) =>
        let fixed_header_len := rl_end - start in
        let total := fixed_header_len + remaining_length in
        raise! PacketTooLargeError when total >? _max_packet_size d;
        if available <? total then Ok None
        else Ok (Some (header, start + fixed_header_len, start + total))
    end.

Definition head_frame_ready (d : IncrementalDecoder) : res bool :=
  match peek_packet_bounds d with
  | Ok (Some _) => Ok true
  | Ok None => Ok false
  | Raise MalformedPacketError | Raise PacketTooLargeError => Ok true
  | Raise e => Raise e
  end.

Definition consume_peeked_packet (d : IncrementalDecoder) (body_end : Z) : res IncrementalDecoder :=
  raise! AssertionError when negb ((_start d <? body_end) && (body_end <=? _end d));
  let d := if body_end - _start d >? _LARGE_FRAME then set_drains d (_idle_drains d) (_window_peak d) true else d in
  let d := set_offsets d body_end (_end d) in
  Ok (if _start d =? _end d then _reset d else d).

(** [feed] of an owned byte string (other memoryview layouts are flattened to
    one first). *)
Definition feed (d : IncrementalDecoder) (data : bytes) : res IncrementalDecoder :=
  let nbytes := len data in
  if nbytes =? 0 then Ok d
  else
    let! d :=
      (if _capacity d - _end d <? nbytes then
         let! total := _known_frame_total d in
         Ok (_ensure d nbytes total)
       else Ok d) in
    let end_ := _end d in
    let d := set_slab d (blit (_buf d) end_ data) (_start d) (end_ + nbytes) (_capacity d) in
    let buffered := _end d - _start d in
    Ok (set_peaks d (if buffered >? _window_peak d then buffered else _window_peak d)
          (if buffered >? _high_water d then buffered else _high_water d)).

Definition clear (d : IncrementalDecoder) : IncrementalDecoder :=
  let d := set_offsets d 0 0 in
  let d := set_drains d 0 0 false in
  let d := set_window d 0 _INITIAL_WINDOW 0 in
  if _capacity d >? _INITIAL_WINDOW then _reallocate d _INITIAL_WINDOW else d.

Definition next_packet (d : IncrementalDecoder) : res (option RawPacket * IncrementalDecoder) :=
  let buf := _buf d in
  let start := _start d in
  let available := _end d - start in
  if available <? 2 then Ok (None, d)
  else
    let! header := idx buf start in
    let! bounds :=
      match decode_vbi buf (start + 1) (Some (_end d)) with
      | Ok r => Ok (Some r)
      | Raise MalformedPacketError =>
          raise! MalformedPacketError when available >=? 5;
          if all_continuation buf start available then Ok None else Raise MalformedPacketError
      | Raise e => Raise e
      end in
    match bounds with
    | None => Ok (None, d)
    | Some (remaining_length, rl_end) =>
        let fixed_header_len := rl_end - start in
        let total := fixed_header_len + remaining_length in
        raise! PacketTooLargeError when total >? _max_packet_size d;
        if available <? total then Ok (None, d)
        else
          let! packet_type := PacketType_from_byte header in
          let flags := Z.land header 0x0F in
          let body_start := start + fixed_header_len in
          let body_end := start + total in
          let body := slice buf body_start body_end in
          let d := set_offsets d body_end (_end d) in
          let d := if total >? _LARGE_FRAME then set_drains d (_idle_drains d) (_window_peak d) true else d in
          let d :=
            if body_end =? _end d then
              let d := set_offsets d 0 0 in
              if _capacity d >? _target_window d then _retire_oversize d else d
            else d in
          Ok (Some {| packet_type := packet_type; flags := flags; remaining := body |}, d)
    end.

(** The packets drained before an error are lost with the list; the decoder
    stays where the failing call left it. *)
Fixpoint drain_packets (limit : nat) (d : IncrementalDecoder) : res (list RawPacket) * IncrementalDecoder :=
  match limit with
  | O => (Ok [], d)
  | S limit =>
      match next_packet d with
      | Raise e => (Raise e, d)
      | Ok (None, d) => (Ok [], d)
      | Ok (Some packet, d) =>
          let '(packets, d) := drain_packets limit d in
          (let! packets := packets in Ok (packet :: packets), d)
      end
  end.

Example feed_drain_ex :
  (let! d := decoder_init 1000 in
   let! d := feed d [0xD0; 0; 0x40; 2; 0] in
   let '(ps, d) := drain_packets 10 d in
   let! d := feed d [9; 0xC0] in
   let '(qs, d) := drain_packets 10 d in
   Ok (ps, qs, buffered d)) =
  Ok (Ok [{| packet_type := PINGRESP; flags := 0; remaining := [] |}],
      Ok [{| packet_type := PUBACK; flags := 0; remaining := [0; 9] |}], 1).
Proof. vm_compute. reflexivity. Qed.

(** ** The slab as a byte queue *)

Definition live (d : IncrementalDecoder) : bytes := slice (_buf d) (_start d) (_end d).

(** The slab invariant: live bytes lie inside the capacity, and an outstanding
    window ends inside it. *)
Record slab (d : IncrementalDecoder) : Prop := {
  slab_cap : len (_buf d) = _capacity d;
  slab_bounds : 0 ≤ _start d ≤ _end d ∧ _end d ≤ _capacity d;
  slab_bytes : bytes_ok (_buf d);
  slab_target : 1 ≤ _target_window d;
  slab_offered : 0 ≤ _offered d;
  slab_max : 1 ≤ _max_packet_size d }.

Lemma len_live d : slab d → len (live d) = _end d - _start d.
Proof. intros [Hc [? ?] _ _ _ _]. unfold live. apply len_slice; lia. Qed.

Lemma slice_Forall {A} (P : A → Prop) l i j : Forall P l → Forall P (slice l i j).
Proof. intros H. apply Forall_forall. intros x Hx%slice_elem_of. rewrite Forall_forall in H. auto. Qed.

Lemma live_bytes d : slab d → bytes_ok (live d).
Proof. intros [_ _ H _ _ _]. by apply slice_Forall. Qed.

(** The slab around its live bytes. *)
Lemma slab_split d : slab d → ∃ P Q, _buf d = P ++ live d ++ Q ∧ len P = _start d ∧ len Q = _capacity d - _end d.
Proof.
  intros [Hc [? ?] _ _ _ _]. destruct (slice_split (_buf d) (_start d) (_end d)) as (P & Q & ? & ? & ?); [lia.. |].
  exists P, Q. split_and!; try done. lia.
Qed.

Lemma len_zeros n : 0 ≤ n → len (zeros n) = n.
Proof. intros. unfold len, zeros. rewrite length_replicate. lia. Qed.

Lemma zeros_ok n : bytes_ok (zeros n).
Proof. apply Forall_replicate. unfold byte_ok. lia. Qed.

Lemma blit_spec P M Q data :
  len data = len M → blit (P ++ M ++ Q) (len P) data = P ++ data ++ Q.
Proof.
  intros Hl. unfold blit. f_equal; [| f_equal].
  - pose proof (slice_mid [] P (M ++ Q)) as H. simpl in H. by rewrite len_nil, Z.add_0_l in H.
  - rewrite app_assoc, Hl, <- len_app. apply slice_tail.
Qed.

Lemma split_len {A} (l : list A) n : 0 ≤ n ≤ len l → ∃ a b, l = a ++ b ∧ len a = n.
Proof.
  intros H. exists (take (Z.to_nat n) l), (drop (Z.to_nat n) l). rewrite take_drop. split; [done |].
  unfold len in *. rewrite length_take. lia.
Qed.

Lemma blit_head (b data : bytes) : len data ≤ len b → ∃ R, blit b 0 data = data ++ R ∧ len (data ++ R) = len b.
Proof.
  intros Hl. destruct (split_len b (len data)) as (M & R & -> & Hm); [pose proof (len_nonneg data); lia |].
  exists R. pose proof (blit_spec [] M R data) as H. rewrite !app_nil_l, len_nil in H. rewrite H by done. split; [done | len_lia].
Qed.

Lemma slice_prefix {A} (l r : list A) : slice (l ++ r) 0 (len l) = l.
Proof. pose proof (slice_mid [] l r) as H. simpl in H. by rewrite len_nil, Z.add_0_l in H. Qed.

Lemma bytes_app (a b : bytes) : bytes_ok (a ++ b) ↔ bytes_ok a ∧ bytes_ok b.
Proof. apply Forall_app. Qed.

(** Moving the live bytes to the front of a slab of enough room. *)
Lemma front_slab d buf cap :
  slab d → bytes_ok buf → len buf = cap → buffered d ≤ cap →
  slab (set_slab d (blit buf 0 (live d)) 0 (buffered d) cap) ∧
  live (set_slab d (blit buf 0 (live d)) 0 (buffered d) cap) = live d.
Proof.
  intros Hs Hb Hl Hle. pose proof (len_live d Hs) as Hlen. unfold buffered in *.
  destruct (blit_head buf (live d)) as (R & HR & HlR); [lia |].
  assert (HR' : bytes_ok (blit buf 0 (live d))).
  { unfold blit. rewrite !bytes_app. split_and!; [by apply slice_Forall | by apply live_bytes | by apply slice_Forall]. }
  destruct Hs as [Hc [? ?] _ ? ? ?]. split.
  - constructor; simpl; try done; [by rewrite HR, HlR | lia].
  - unfold live at 1. simpl. rewrite HR, <- Hlen. apply slice_prefix.
Qed.

Lemma blit_nil b : blit b 0 [] = b.
Proof. unfold blit. change (0 + len []) with 0. change (slice b 0 0) with (@nil Z). simpl. apply slice_all. Qed.

Lemma reallocate_slab d cap :
  slab d → buffered d ≤ cap →
  slab (_reallocate d cap) ∧ live (_reallocate d cap) = live d ∧ _capacity (_reallocate d cap) = cap ∧
  _end (_reallocate d cap) = buffered d.
Proof.
  intros Hs Hle. pose proof (len_live d Hs) as Hlen. assert (0 ≤ buffered d) by (destruct Hs as [_ ? _ _ _]; unfold buffered; lia).
  unfold _reallocate. fold (live d). fold (buffered d). destruct (buffered d =? 0) eqn:E; bools.
  - destruct (front_slab d (zeros cap) cap) as [H1 H2]; [done | apply zeros_ok | apply len_zeros; lia | done |].
    assert (live d = []) as Hn by (apply len_0_nil; unfold buffered in *; lia).
    rewrite Hn in *. rewrite blit_nil in *. done.
  - destruct (front_slab d (zeros cap) cap) as [H1 H2]; [done | apply zeros_ok | apply len_zeros; lia | done |]. done.
Qed.

Lemma ensure_slab d need exact :
  slab d → 0 ≤ need →
  slab (_ensure d need exact) ∧ live (_ensure d need exact) = live d ∧
  need ≤ _capacity (_ensure d need exact) - _end (_ensure d need exact) ∧
  _max_packet_size (_ensure d need exact) = _max_packet_size d ∧
  _target_window (_ensure d need exact) = _target_window d.
Proof.
  intros Hs Hn. unfold _ensure. rewrite Z.geb_leb. case_if; bools; [done |]. rewrite Z.geb_leb. case_if; bools.
  - destruct (front_slab d (_buf d) (_capacity d)) as [H1 H2];
      [done | by destruct Hs | by destruct Hs | unfold buffered; lia |].
    done.
  - match goal with |- context [_reallocate d ?c] => set (cap := c) end.
    assert (buffered d + need ≤ cap).
    { unfold cap, buffered. case_if; bools; [lia |]. destruct exact; lia. }
    destruct (reallocate_slab d cap) as (H1 & H2 & H3 & H4); [done | lia |]. split_and!; try done. lia.
Qed.

Lemma double_until_ge fuel target peak :
  1 ≤ target → target ≤ double_until fuel target peak.
Proof.
  revert target. induction fuel as [|fuel IH]; intros target Ht; simpl; [lia |]. case_if; [| lia].
  specialize (IH (target * 2)). lia.
Qed.

(** The fuel of the doubling loop reaches the loop's exit. *)
Lemma double_until_done fuel target peak :
  1 ≤ target → peak ≤ target * 2 ^ Z.of_nat fuel → peak ≤ double_until fuel target peak.
Proof.
  revert target. induction fuel as [|fuel IH]; intros target Ht Hp; simpl; [lia |]. case_if; bools; [| lia].
  apply IH; [lia |]. rewrite Nat2Z.inj_succ, Z.pow_succ_r in Hp by lia. lia.
Qed.

Lemma retire_slab d :
  slab d → buffered d = 0 →
  slab (_retire_oversize d) ∧ live (_retire_oversize d) = [] ∧ _max_packet_size (_retire_oversize d) = _max_packet_size d.
Proof.
  intros Hs H0.
  assert (Hd : ∀ i p b, slab (set_drains d i p b) ∧ live (set_drains d i p b) = live d) by (intros; destruct Hs; done).
  assert (live d = []) as Hl by (apply len_0_nil; rewrite len_live by done; done). unfold _retire_oversize.
  rewrite <- Hl. destruct (_drain_had_large_frame d) eqn:Hlf; [destruct (Hd 0 0 false); done |].
  destruct (_idle_drains d + 1 <? _OVERSIZE_RETENTION); [destruct (Hd (_idle_drains d + 1) (_window_peak d) false); done |].
  match goal with |- context [double_until ?a ?b ?c] => set (cap := double_until a b c) end.
  assert (1 ≤ cap).
  { unfold cap. destruct Hs as [_ _ _ Ht _ _]. etransitivity; [| apply double_until_ge]; case_if; unfold _MIN_CAPACITY; lia. }
  destruct (Hd 0 0 false) as [Hs1 Hl1].
  destruct (cap <? _capacity (set_drains d 0 0 false)); [| done].
  destruct (reallocate_slab (set_drains d 0 0 false) cap) as (H1 & H2 & _); [done | unfold buffered in *; simpl; lia |].
  split_and!; [done | by rewrite H2 | done].
Qed.

Lemma rewind_slab d : slab d → slab (set_offsets d 0 0) ∧ buffered (set_offsets d 0 0) = 0.
Proof. intros []. split; [constructor; simpl; try done; lia | done]. Qed.

Lemma drop_slab d n : slab d → 0 ≤ n ≤ buffered d →
  slab (set_offsets d (_start d + n) (_end d)) ∧
  live (set_offsets d (_start d + n) (_end d)) = slice (live d) n (len (live d)).
Proof.
  intros Hs Hn. destruct (slab_split d Hs) as (P & Q & Hb & HP & HQ). pose proof (len_live d Hs) as Hlen.
  unfold buffered in Hn. destruct (split_len (live d) n) as (A & B & HAB & HA); [lia |].
  split; [destruct Hs as [? [? ?] ? ? ? ?]; constructor; simpl; try done; lia |].
  unfold live at 1. simpl. rewrite Hb, HAB, <- HA, slice_tail.
  assert (_end d = len (P ++ A) + len B) as ->. { rewrite HAB in Hlen. len_lia. }
  rewrite <- HP, <- len_app, <- app_assoc, app_assoc. apply slice_mid.
Qed.

(** ** Framing *)

(** [next_packet] on a byte queue: the packet and what follows it. *)
Definition frame_next (max : Z) (q : bytes) : res (option (RawPacket * bytes)) :=
  if len q <? 2 then Ok None
  else
    let! header := idx q 0 in
    let! bounds :=
      match decode_vbi q 1 None with
      | Ok r => Ok (Some r)
      | Raise MalformedPacketError =>
          raise! MalformedPacketError when len q >=? 5;
          if all_continuation q 0 (len q) then Ok None else Raise MalformedPacketError
      | Raise e => Raise e
      end in
    match bounds with
    | None => Ok None
    | Some (remaining_length, rl_end) =>
        let total := rl_end + remaining_length in
        raise! PacketTooLargeError when total >? max;
        if len q <? total then Ok None
        else
          let! packet_type := PacketType_from_byte header in
          Ok (Some ({| packet_type := packet_type; flags := Z.land header 0x0F; remaining := slice q rl_end total |},
                    slice q total (len q)))
    end.

Lemma decode_vbi_loop_shift fuel P L Q : ∀ mult value pos n,
  0 ≤ pos →
  decode_vbi_loop fuel (P ++ L ++ Q) (len P + len L) mult value (len P + pos) n =
  match decode_vbi_loop fuel L (len L) mult value pos n with
  | Ok (v, p, m) => Ok (v, len P + p, m)
  | Raise e => Raise e
  end.
Proof.
  induction fuel as [|fuel IH]; intros mult value pos n Hp; [done |].
  unfold decode_vbi_loop; fold decode_vbi_loop. rewrite !Z.geb_leb.
  destruct (len L <=? pos) eqn:E; bools.
  - rewrite (proj2 (Z.leb_le _ _)) by lia. done.
  - rewrite (proj2 (Z.leb_gt _ _)) by lia. destruct (n + 1 >? 4); [done |].
    rewrite idx_app_r, idx_app_l by lia. destruct (idx L pos) as [b|e]; [| done]. cbn [rbind].
    destruct (Z.land b 128 =? 0); [by rewrite Z.add_assoc |]. rewrite <- Z.add_assoc. apply IH. lia.
Qed.

Lemma decode_vbi_shift P L Q o :
  0 ≤ o →
  decode_vbi (P ++ L ++ Q) (len P + o) (Some (len P + len L)) =
  match decode_vbi L o None with Ok (v, p) => Ok (v, len P + p) | Raise e => Raise e end.
Proof.
  intros Ho. unfold decode_vbi. rewrite !Z.geb_leb. destruct (len L <=? o) eqn:E; bools.
  - rewrite (proj2 (Z.leb_le _ _)) by lia. done.
  - rewrite (proj2 (Z.leb_gt _ _)) by lia. rewrite idx_app_r, idx_app_l by lia.
    destruct (idx L o) as [b|e]; [| done]. cbn [rbind]. destruct (b <? 128); [by rewrite Z.add_assoc |].
    rewrite <- Z.add_assoc, decode_vbi_loop_shift by lia.
    destruct (decode_vbi_loop 5 L (len L) 128 (Z.land b 127) (o + 1) 1) as [[[v p] m]|e]; [| done]. cbn [rbind].
    destruct (vbi_len v) as [k|]; [| done]. cbn [rbind]. by destruct (negb _).
Qed.

Lemma slice_shift {A} (P L Q : list A) i j :
  0 ≤ i ≤ j → j ≤ len L → slice (P ++ L ++ Q) (len P + i) (len P + j) = slice L i j.
Proof.
  intros Hi Hj. destruct (slice_split L i j Hi Hj) as (A0 & C & HL & HA & HC).
  assert (len (slice L i j) = j - i) as Hm by (apply len_slice; lia).
  revert HL Hm. generalize (slice L i j). intros M -> Hm.
  replace (P ++ (A0 ++ M ++ C) ++ Q) with ((P ++ A0) ++ M ++ (C ++ Q)) by (by rewrite <- !app_assoc).
  rewrite <- HA. replace (len P + j) with (len (P ++ A0) + len M) by len_lia.
  rewrite <- len_app. apply slice_mid.
Qed.

Lemma idx_live d i : slab d → 0 ≤ i < len (live d) → idx (_buf d) (_start d + i) = idx (live d) i.
Proof.
  intros Hs Hi. destruct (slab_split d Hs) as (P & Q & -> & <- & _). by rewrite idx_app_r, idx_app_l by lia.
Qed.

Lemma vbi_live d o :
  slab d → 0 ≤ o →
  decode_vbi (_buf d) (_start d + o) (Some (_end d)) =
  match decode_vbi (live d) o None with Ok (v, p) => Ok (v, _start d + p) | Raise e => Raise e end.
Proof.
  intros Hs Ho. pose proof (len_live d Hs) as Hl. destruct (slab_split d Hs) as (P & Q & Hb & HP & _).
  rewrite Hb. replace (_end d) with (len P + len (live d)) by lia. rewrite <- HP. by apply decode_vbi_shift.
Qed.

Lemma slice_live d i j :
  slab d → 0 ≤ i ≤ j → j ≤ len (live d) → slice (_buf d) (_start d + i) (_start d + j) = slice (live d) i j.
Proof.
  intros Hs Hi Hj. destruct (slab_split d Hs) as (P & Q & Hb & HP & _). rewrite Hb at 1. rewrite <- HP.
  by apply slice_shift.
Qed.

Lemma all_continuation_live d :
  slab d → 1 ≤ len (live d) → all_continuation (_buf d) (_start d) (len (live d)) = all_continuation (live d) 0 (len (live d)).
Proof. intros Hs Hl. unfold all_continuation. rewrite slice_live by (done || lia). done. Qed.

Lemma idx_live_0 d : slab d → 0 < len (live d) → idx (_buf d) (_start d) = idx (live d) 0.
Proof. intros Hs Hl. rewrite <- (idx_live d 0) by (done || lia). by rewrite Z.add_0_r. Qed.

(** The bounds a header announces on a queue. *)
Lemma vbi_queue q v p :
  bytes_ok q → decode_vbi q 1 None = Ok (v, p) → 2 ≤ p ≤ len q ∧ 0 ≤ v ≤ MAX_VBI.
Proof. intros Hb (pre & d & post & _ & _ & _ & _ & Hp & Hv)%decode_vbi_sound; [| done | lia | simpl; lia]. simpl in Hp. lia. Qed.

(** Consuming [n] live bytes, rewinding the slab when nothing is left. *)
Lemma consume_slab d n large :
  slab d → 0 ≤ n ≤ buffered d →
  let d1 := set_offsets d (_start d + n) (_end d) in
  let d2 := if large : bool then set_drains d1 (_idle_drains d1) (_window_peak d1) true else d1 in
  let d3 := if _start d + n =? _end d2 then
              let d := set_offsets d2 0 0 in
              if _capacity d >? _target_window d then _retire_oversize d else d
            else d2 in
  slab d3 ∧ live d3 = slice (live d) n (len (live d)) ∧ _max_packet_size d3 = _max_packet_size d.
Proof.
  intros Hs Hn d1 d2 d3. destruct (drop_slab d n Hs Hn) as [Hs1 Hl1]. fold d1 in Hs1, Hl1.
  assert (slab d2 ∧ live d2 = live d1 ∧ _max_packet_size d2 = _max_packet_size d ∧ _end d2 = _end d ∧ _start d2 = _start d + n)
    as (Hs2 & Hl2 & Hm2 & He2 & Hst2).
  { unfold d2. destruct large; [| done]. split_and!; try done. by destruct Hs1. }
  unfold d3. destruct (_start d + n =? _end d2) eqn:E; [| by rewrite Hl2]. bools.
  assert (live d2 = []) as Hnil by (apply len_0_nil; rewrite len_live by done; lia).
  rewrite <- Hl1, <- Hl2, Hnil. destruct (rewind_slab d2 Hs2) as [Hs3 Hb3].
  assert (live (set_offsets d2 0 0) = []) by (apply len_0_nil; rewrite len_live by done; done).
  case_if; [| done]. destruct (retire_slab _ Hs3 Hb3) as (? & ? & ->). done.
Qed.

(** [next_packet] is the framing of the live bytes. *)
Lemma next_packet_spec d :
  slab d →
  match frame_next (_max_packet_size d) (live d) with
  | Raise e => next_packet d = Raise e
  | Ok None => next_packet d = Ok (None, d)
  | Ok (Some (p, rest)) =>
      ∃ d', next_packet d = Ok (Some p, d') ∧ slab d' ∧ live d' = rest ∧ _max_packet_size d' = _max_packet_size d
  end.
Proof.
  intros Hs. unfold next_packet, frame_next. rewrite <- (len_live d) by done. pose proof (live_bytes d Hs) as Hb.
  destruct (len (live d) <? 2) eqn:E2; [done |]. bools.
  rewrite idx_live_0 by (done || lia).
  destruct (idx_Ok (live d) 0) as (h & -> & Hh); [lia |]. cbn [rbind].
  rewrite vbi_live by (done || lia). rewrite all_continuation_live by (done || lia).
  destruct (decode_vbi (live d) 1 None) as [[v p]|e] eqn:Hv; cbn [rbind].
  - apply vbi_queue in Hv as [Hp Hv]; [| done]. replace (_start d + p - _start d) with p by lia.
    destruct (p + v >? _max_packet_size d); [done |]. destruct (len (live d) <? p + v) eqn:El; [done |]. bools.
    destruct (PacketType_from_byte h) as [t|e]; cbn [rbind]; [| done].
    rewrite slice_live by (done || lia). eexists. split; [reflexivity |].
    apply consume_slab; [done |]. unfold buffered. rewrite <- len_live by done. lia.
  - destruct e; try done. rewrite Z.geb_leb. destruct (5 <=? len (live d)); [done |]. cbn [rbind].
    destruct (all_continuation _ _ _); done.
Qed.

(** The two-byte fast path of [peek_packet_bounds] is the loop of [decode_vbi]. *)
Lemma decode_vbi_two q h b0 b1 :
  byte_ok b0 → byte_ok b1 → 128 ≤ b0 → b1 < 128 →
  decode_vbi (h :: b0 :: b1 :: q) 1 None =
  (raise! MalformedPacketError when Z.lor (Z.land b0 0x7F) (Z.shiftl b1 7) <? 128;
   Ok (Z.lor (Z.land b0 0x7F) (Z.shiftl b1 7), 3)).
Proof.
  intros H0 H1 Hb0 Hb1. unfold byte_ok in *. unfold decode_vbi. rewrite Z.geb_leb.
  rewrite (proj2 (Z.leb_gt _ _)) by len_lia. change (idx (h :: b0 :: b1 :: q) 1) with (Ok b0). cbn [rbind].
  rewrite (proj2 (Z.ltb_ge b0 128)) by lia. unfold decode_vbi_loop. rewrite Z.geb_leb.
  rewrite (proj2 (Z.leb_gt _ (1 + 1))) by len_lia. change (1 + 1 >? 4) with false. cbv iota.
  change (idx (h :: b0 :: b1 :: q) (1 + 1)) with (Ok b1). cbn [rbind].
  rewrite land_0x80, (proj2 (Z.ltb_lt b1 128)) by (unfold byte_ok; lia). cbn [rbind].
  rewrite !land_0x7F, (Z.mod_small b1) by lia.
  pose proof (Z.mod_pos_bound b0 128 ltac:(lia)).
  rewrite (Z.lor_comm (b0 mod 128)), (shiftl_lor b1 (b0 mod 128) 7) by lia. change (2 ^ 7) with 128.
  unfold vbi_len, MAX_VBI. rewrite (proj2 (Z.leb_le 0 _)), (proj2 (Z.leb_le _ 268435455)) by lia. cbn [andb negb].
  replace (b0 mod 128 + b1 * 128) with (b1 * 128 + b0 mod 128) by lia.
  destruct (b1 * 128 + b0 mod 128 <? 128) eqn:E; [done |]. bools.
  rewrite (proj2 (Z.ltb_lt _ 16384)) by lia. cbn [rbind]. done.
Qed.

Lemma live_cons2 (q : bytes) : 2 ≤ len q → ∃ a b r, q = a :: b :: r.
Proof. intros H. destruct q as [|a [|b r]]; try (exfalso; len_lia). eauto. Qed.

(** The length [peek_packet_bounds] reads, fast paths included, is the one
    [decode_vbi] reads. *)
Definition peek_length (q : bytes) : res (option (Z * Z)) :=
  match decode_vbi q 1 None with
  | Ok r => Ok (Some r)
  | Raise MalformedPacketError =>
      raise! MalformedPacketError when len q >=? 5;
      if all_continuation q 0 (len q) then Ok None else Raise MalformedPacketError
  | Raise e => Raise e
  end.

Lemma peek_length_fast h b0 r :
  bytes_ok (h :: b0 :: r) →
  (if b0 <? 0x80 then Ok (Some (b0, 2))
   else
     let! second :=
       (if len (h :: b0 :: r) >=? 3 then
          let! b := idx (h :: b0 :: r) 2 in Ok (if b <? 0x80 then Some b else None)
        else Ok None) in
     match second with
     | Some second =>
         let n := Z.lor (Z.land b0 0x7F) (Z.shiftl second 7) in
         raise! MalformedPacketError when n <? 128;
         Ok (Some (n, 3))
     | None => peek_length (h :: b0 :: r)
     end) = peek_length (h :: b0 :: r).
Proof.
  intros Hb. pose proof Hb as Hb'. rewrite !Forall_cons in Hb'. destruct Hb' as (_ & Hb0 & Hr).
  destruct (b0 <? 128) eqn:E0; bools.
  - unfold peek_length, decode_vbi. rewrite Z.geb_leb, (proj2 (Z.leb_gt _ 1)) by len_lia.
    change (idx (h :: b0 :: r) 1) with (Ok b0). cbn [rbind]. rewrite (proj2 (Z.ltb_lt b0 128)) by lia. done.
  - rewrite Z.geb_leb. destruct (3 <=? len (h :: b0 :: r)) eqn:E3; [| done]. bools.
    destruct r as [|b1 r]; [exfalso; len_lia |]. change (idx (h :: b0 :: b1 :: r) 2) with (Ok b1). cbn [rbind].
    destruct (b1 <? 128) eqn:E1; [| done]. bools. inversion Hr; subst.
    unfold peek_length. rewrite decode_vbi_two by (done || lia).
    set (n := Z.lor _ _). destruct (n <? 128); [| done]. rewrite Z.geb_leb. case_if; [done |].
    unfold all_continuation. change (0 + 1) with (len [h]). rewrite Z.add_0_l.
    change (h :: b0 :: b1 :: r) with ([h] ++ b0 :: b1 :: r). rewrite slice_tail. cbn [forallb].
    rewrite (land_0x80 b1), (proj2 (Z.ltb_lt b1 128)) by (done || lia). cbn [negb andb]. by rewrite andb_false_r.
Qed.

(** [peek_packet_bounds] announces the packet [next_packet] would return. *)
Lemma peek_spec d :
  slab d →
  match frame_next (_max_packet_size d) (live d) with
  | Ok None => peek_packet_bounds d = Ok None
  | Ok (Some (p, rest)) => ∃ h bs be, peek_packet_bounds d = Ok (Some (h, bs, be)) ∧
      PacketType_from_byte h = Ok (packet_type p) ∧ Z.land h 0x0F = flags p ∧
      slice (_buf d) bs be = remaining p ∧ _start d < be ≤ _end d ∧ rest = slice (live d) (be - _start d) (len (live d))
  | Raise e =>
      peek_packet_bounds d = Raise e ∨ ∃ h bs be, peek_packet_bounds d = Ok (Some (h, bs, be)) ∧ PacketType_from_byte h = Raise e
  end.
Proof.
  intros Hs. pose proof (live_bytes d Hs) as Hb. pose proof (len_live d Hs) as Hlen.
  unfold frame_next. fold (peek_length (live d)).
  assert (Hpeek : 2 ≤ len (live d) → peek_packet_bounds d =
    let! header := idx (live d) 0 in
    let! bounds := peek_length (live d) in
    match bounds with
    | None => Ok None
    | Some (n, rl) =>
        raise! PacketTooLargeError when rl + n >? _max_packet_size d;
        if len (live d) <? rl + n then Ok None else Ok (Some (header, _start d + rl, _start d + (rl + n)))
    end).
  { intros H2. unfold peek_packet_bounds. rewrite <- Hlen. rewrite (proj2 (Z.ltb_ge _ 2)) by lia.
    rewrite idx_live_0 by (done || lia). rewrite idx_live by (done || lia).
    rewrite vbi_live by (done || lia). rewrite all_continuation_live by (done || lia).
    destruct (live_cons2 (live d) H2) as (h & b0 & r & Hq).
    replace (peek_length (live d)) with (peek_length (h :: b0 :: r)) by (by rewrite Hq).
    rewrite <- (peek_length_fast h b0 r) by (by rewrite <- Hq).
    assert (idx (live d) 0 = Ok h) as -> by (by rewrite Hq). assert (idx (live d) 1 = Ok b0) as -> by (by rewrite Hq).
    cbn [rbind]. rewrite Hq. destruct (b0 <? 128).
    { cbn [rbind]. replace (_start d + 2 - _start d) with 2 by lia. done. }
    rewrite Z.geb_leb. destruct (3 <=? len (h :: b0 :: r)) eqn:E3.
    - bools. rewrite <- Hq. rewrite idx_live by (done || rewrite Hq; lia). rewrite Hq.
      destruct r as [|b1 r]; [exfalso; len_lia |]. change (idx (h :: b0 :: b1 :: r) 2) with (Ok b1). cbn [rbind].
      destruct (b1 <? 128).
      + destruct (_ <? 128); [done |]. cbn [rbind]. replace (_start d + 3 - _start d) with 3 by lia. done.
      + unfold peek_length. destruct (decode_vbi _ 1 None) as [[v p]|e]; cbn [rbind].
        * replace (_start d + p - _start d) with p by lia. done.
        * destruct e; try done. rewrite Z.geb_leb. destruct (5 <=? _); [done |]. by destruct (all_continuation _ _ _).
    - unfold peek_length. cbn [rbind]. destruct (decode_vbi _ 1 None) as [[v p]|e]; cbn [rbind].
      + replace (_start d + p - _start d) with p by lia. done.
      + destruct e; try done. rewrite Z.geb_leb. destruct (5 <=? _); [done |]. by destruct (all_continuation _ _ _). }
  destruct (len (live d) <? 2) eqn:E2; bools.
  { unfold peek_packet_bounds. rewrite <- Hlen. rewrite (proj2 (Z.ltb_lt _ 2)) by lia. done. }
  rewrite Hpeek by lia. destruct (idx_Ok (live d) 0) as (h & -> & _); [lia |]. cbn [rbind].
  assert (∀ v p, peek_length (live d) = Ok (Some (v, p)) → 2 ≤ p ≤ len (live d) ∧ 0 ≤ v) as Hrange.
  { intros v p. unfold peek_length. destruct (decode_vbi (live d) 1 None) as [[v' p']|e] eqn:Hv.
    - intros [= <- <-]. apply vbi_queue in Hv as [? [? _]]; done.
    - destruct e; try done. case_if; [done |]. by case_if. }
  destruct (peek_length (live d)) as [[[v p]|]|e]; [| done | by left]. cbn [rbind].
  destruct (Hrange v p eq_refl) as [Hp Hv]. destruct (p + v >? _max_packet_size d); [by left |].
  destruct (len (live d) <? p + v) eqn:El; [done |]. bools.
  destruct (PacketType_from_byte h) as [t|e] eqn:Ht; cbn [rbind]; [| right; eauto 10].
  eexists _, _, _. split; [reflexivity |]. simpl. rewrite slice_live by (done || lia).
  replace (_start d + (p + v) - _start d) with (p + v) by lia. split_and!; try done; lia.
Qed.

(** ** Feeding *)

Lemma known_frame_total_Ok d : slab d → ∃ o, _known_frame_total d = Ok o ∧
  ∀ t, o = Some t → buffered d < t ≤ _max_packet_size d.
Proof.
  intros Hs. unfold _known_frame_total. case_if; [by exists None |]. bools.
  rewrite vbi_live by (done || lia).
  destruct (decode_vbi (live d) 1 None) as [[v p]|e] eqn:Hv.
  - rewrite Z.gtb_ltb. case_if; [by exists None |]. bools. eexists; split; [done |]. intros t [= <-].
    unfold buffered. lia.
  - apply (decode_vbi_raises (live d) 1 None) in Hv as ->; [by exists None | by apply live_bytes | lia | simpl; lia].
Qed.

(** Writing after the live bytes, when there is room. *)
Lemma write_slab d data :
  slab d → bytes_ok data → len data ≤ _capacity d - _end d →
  let d' := set_slab d (blit (_buf d) (_end d) data) (_start d) (_end d + len data) (_capacity d) in
  slab d' ∧ live d' = live d ++ data.
Proof.
  intros Hs Hb Hroom d'. destruct (slab_split d Hs) as (P & Q & Hbuf & HP & HQ).
  pose proof (len_live d Hs) as Hlen. destruct (split_len Q (len data)) as (M & R & -> & HM);
    [pose proof (len_nonneg data); lia |].
  assert (blit (_buf d) (_end d) data = P ++ (live d ++ data) ++ R) as Hblit.
  { rewrite Hbuf. replace (_end d) with (len (P ++ live d)) by len_lia.
    replace (P ++ live d ++ M ++ R) with ((P ++ live d) ++ M ++ R) by (by rewrite <- app_assoc).
    rewrite blit_spec by done. by rewrite <- !app_assoc. }
  split.
  - pose proof Hs as [Hc [? ?] Hok ? ? ?]. constructor; unfold d'; simpl; try done.
    + rewrite Hblit. rewrite <- Hc, Hbuf. len_lia.
    + pose proof (len_nonneg data). lia.
    + rewrite Hblit. rewrite Hbuf in Hok. rewrite !bytes_app in *. naive_solver.
  - unfold live at 1. unfold d'. simpl. rewrite Hblit.
    replace (_end d + len data) with (len P + len (live d ++ data)) by len_lia. rewrite <- HP. apply slice_mid.
Qed.

Lemma set_peaks_slab d a b : slab d → slab (set_peaks d a b) ∧ live (set_peaks d a b) = live d.
Proof. by intros []. Qed.

Lemma feed_spec d data :
  slab d → bytes_ok data →
  ∃ d', feed d data = Ok d' ∧ slab d' ∧ live d' = live d ++ data ∧ _max_packet_size d' = _max_packet_size d.
Proof.
  intros Hs Hb. unfold feed. destruct (len data =? 0) eqn:E0; bools.
  { apply len_0_nil in E0 as ->. exists d. by rewrite app_nil_r. }
  assert (∃ d1, (if _capacity d - _end d <? len data
                 then let! total := _known_frame_total d in Ok (_ensure d (len data) total) else Ok d) = Ok d1 ∧
    slab d1 ∧ live d1 = live d ∧ len data ≤ _capacity d1 - _end d1 ∧ _max_packet_size d1 = _max_packet_size d)
    as (d1 & -> & Hs1 & Hl1 & Hr1 & Hm1).
  { case_if; bools; [| exists d; split_and!; done || lia].
    destruct (known_frame_total_Ok d Hs) as (o & -> & _). cbn [rbind]. eexists; split; [done |].
    destruct (ensure_slab d (len data) o) as (? & ? & ? & ? & _); [done | apply len_nonneg | done]. }
  cbn [rbind]. destruct (write_slab d1 data Hs1 Hb Hr1) as [Hs2 Hl2]. eexists; split; [reflexivity |].
  split_and!; [by apply set_peaks_slab | rewrite <- Hl1; exact Hl2 | exact Hm1].
Qed.

(** A receiver fills a window: [writable_window], a write of at most the window
    into the aliased slab, [commit]. *)
Definition receive_into (d : IncrementalDecoder) (preferred : Z) (data : bytes) : res IncrementalDecoder :=
  let! '(d, (lo, hi)) := writable_window d preferred in
  raise! ValueError when len data >? hi - lo;
  commit (set_slab d (blit (_buf d) lo data) (_start d) (_end d) (_capacity d)) (len data).

Lemma writable_window_spec d preferred :
  slab d →
  ∃ d' lo hi, writable_window d preferred = Ok (d', (lo, hi)) ∧ slab d' ∧ live d' = live d ∧
    lo = _end d' ∧ lo < hi ≤ _capacity d' ∧ _offered d' = hi - lo ∧ _max_packet_size d' = _max_packet_size d.
Proof.
  intros Hs. unfold writable_window. cbv zeta.
  set (want := if preferred >? _target_window d then preferred else _target_window d).
  assert (1 ≤ want) as Hw by (destruct Hs as [_ _ _ ? _ _]; unfold want; rewrite Z.gtb_ltb; case_if; bools; lia).
  assert (∃ w o, (if _capacity d - _end d <? want then
       let! total := _known_frame_total d in
       match total with
       | Some total =>
           Ok (if (0 <? total - (_end d - _start d)) && (total - (_end d - _start d) <? want)
               then total - (_end d - _start d) else want, Some total)
       | None => Ok (want, None)
       end else Ok (want, None)) = Ok (w, o) ∧ 1 ≤ w) as (w & o & -> & Hw1).
  { case_if; [| eauto]. destruct (known_frame_total_Ok d Hs) as ([t|] & -> & _); cbn [rbind]; [| eauto].
    eexists _, _. split; [done |]. case_if; bools; lia. }
  cbn [rbind]. destruct (ensure_slab d w o Hs ltac:(lia)) as (Hs1 & Hl1 & Hr1 & Hm1 & Ht1).
  set (d1 := _ensure d w o) in *. rewrite Z.gtb_ltb. rewrite (proj2 (Z.ltb_ge _ _)) by lia.
  eexists _, _, _. split; [reflexivity |]. simpl.
  destruct Hs1 as [? [? ?] ? ? ? ?]. split_and!; try done; try lia. constructor; simpl; done || lia.
Qed.

Lemma commit_spec d n :
  slab d → 0 < n ≤ _offered d → _end d + n ≤ _capacity d →
  ∃ d', commit d n = Ok d' ∧ slab d' ∧ _buf d' = _buf d ∧ _start d' = _start d ∧ _end d' = _end d + n ∧
    _max_packet_size d' = _max_packet_size d.
Proof.
  intros Hs Hn Hcap. unfold commit. rewrite (proj2 (Z.leb_gt n 0)) by lia.
  rewrite Z.gtb_ltb, (proj2 (Z.ltb_ge _ _)) by lia. eexists; split; [reflexivity |].
  match goal with |- context [set_peaks (set_offsets ?x _ _) _ _] => set (d1 := x) end.
  assert (slab d1 ∧ _buf d1 = _buf d ∧ _start d1 = _start d ∧ _end d1 = _end d ∧ _capacity d1 = _capacity d ∧
          _max_packet_size d1 = _max_packet_size d) as ([Hc [? ?] ? ? ? ?] & ? & ? & ? & ? & ?).
  { unfold d1. destruct Hs as [? ? ? Ht ? ?].
    destruct (_ && _); [destruct (_ >=? _) |]; (split; [| done]); constructor; simpl; done || lia. }
  simpl. split_and!; try done; try lia. constructor; simpl; try done; lia.
Qed.

Lemma receive_into_spec d preferred data :
  slab d → bytes_ok data → data ≠ [] →
  (∃ d', receive_into d preferred data = Ok d' ∧ slab d' ∧ live d' = live d ++ data ∧
         _max_packet_size d' = _max_packet_size d) ∨
  (receive_into d preferred data = Raise ValueError ∧
   ∃ d' lo hi, writable_window d preferred = Ok (d', (lo, hi)) ∧ hi - lo < len data).
Proof.
  intros Hs Hb Hne. unfold receive_into.
  destruct (writable_window_spec d preferred Hs) as (d1 & lo & hi & Hw & Hs1 & Hl1 & -> & Hh & Ho & Hm). rewrite Hw.
  cbn [rbind]. rewrite Z.gtb_ltb. destruct (hi - _end d1 <? len data) eqn:E; bools; [right; eauto 10 | left].
  assert (0 < len data) by (destruct data; [done | len_lia]).
  destruct (write_slab d1 data Hs1 Hb ltac:(lia)) as [Hs2 Hl2].
  set (dw := set_slab d1 (blit (_buf d1) (_end d1) data) (_start d1) (_end d1) (_capacity d1)).
  assert (slab dw) as Hsw by (destruct Hs2 as [? [? ?] ? ? ? ?], Hs1 as [? [? ?] ? ? ? ?]; constructor; simpl in *; done || lia).
  destruct (commit_spec dw (len data) Hsw) as (d2 & -> & Hs3 & Hb3 & Hst3 & He3 & Hm3);
    [simpl; lia | simpl; lia |].
  eexists; split; [done |]. split_and!; [done | | by rewrite Hm3].
  rewrite <- Hl1, <- Hl2. unfold live at 1. rewrite Hb3, Hst3, He3. done.
Qed.

Lemma clear_spec d : slab d → slab (clear d) ∧ live (clear d) = [] ∧ _max_packet_size (clear d) = _max_packet_size d.
Proof.
  intros Hs. unfold clear. destruct (rewind_slab d Hs) as [Hs1 _].
  set (d1 := set_window _ _ _ _). assert (slab d1) as Hs2 by (destruct Hs1; constructor; simpl; done || unfold _INITIAL_WINDOW; lia).
  assert (buffered d1 = 0) by done. assert (live d1 = []) as Hl by (apply len_0_nil; rewrite len_live by done; done).
  case_if; [| done]. destruct (reallocate_slab d1 _INITIAL_WINDOW Hs2) as (? & -> & _); [done |]. done.
Qed.

Lemma consume_peeked_spec d be :
  slab d → _start d < be ≤ _end d →
  ∃ d', consume_peeked_packet d be = Ok d' ∧ slab d' ∧
    live d' = slice (live d) (be - _start d) (len (live d)) ∧ _max_packet_size d' = _max_packet_size d.
Proof.
  intros Hs Hbe. unfold consume_peeked_packet.
  rewrite (proj2 (Z.ltb_lt _ _)), (proj2 (Z.leb_le _ _)) by lia. cbn [andb negb]. eexists; split; [reflexivity |].
  pose proof (consume_slab d (be - _start d) (be - _start d >? _LARGE_FRAME) Hs) as H.
  replace (_start d + (be - _start d)) with be in H by lia. unfold _reset.
  destruct (be - _start d >? _LARGE_FRAME); apply H; unfold buffered; lia.
Qed.

(** ** Streams *)

(** The packet a frame carries. *)
Definition carries (frame : bytes) (p : RawPacket) : Prop :=
  ∃ hd, framed frame hd (remaining p) ∧ PacketType_from_byte hd = Ok (packet_type p) ∧ flags p = Z.land hd 0x0F.

Lemma frame_next_Some max q p rest :
  bytes_ok q → frame_next max q = Ok (Some (p, rest)) →
  ∃ frame, q = frame ++ rest ∧ carries frame p ∧ 2 ≤ len frame ≤ max.
Proof.
  intros Hb H. unfold frame_next in H. destruct (len q <? 2) eqn:E2; [done |]. bools.
  apply rbind_Ok_inv in H as (h & Hh & H).
  destruct (decode_vbi q 1 None) as [[v e]|ex] eqn:Hv; [| destruct ex; try done; case_ifs_in H; done].
  cbn [rbind] in H. rewrite Z.gtb_ltb in H. case_ifs_in H; try done. apply rbind_Ok_inv in H as (t & Ht & H). simplify_eq.
  pose proof Hv as Hs. apply decode_vbi_sound in Hs as (pre & n & post & Hq & Hpre & Hn & -> & He & Hv0); [| done | lia | simpl; lia].
  simpl in He. destruct pre as [|h' [|]]; [len_lia | | len_lia].
  assert (h' = h) as -> by (rewrite Hq in Hh; by injection Hh).
  destruct (split_len post v) as (body & tail & -> & Hbody).
  { rewrite Hq in E0. len_lia. }
  assert (slice q (1 + len n) (1 + len n + v) = body) as Hsl.
  { rewrite Hq. replace ([h] ++ n ++ body ++ tail) with (([h] ++ n) ++ body ++ tail) by (by rewrite <- app_assoc).
    replace (1 + len n) with (len ([h] ++ n)) by len_lia. rewrite <- Hbody. apply slice_mid. }
  assert (slice q (1 + len n + v) (len q) = tail) as Htl.
  { rewrite Hq. replace ([h] ++ n ++ body ++ tail) with (([h] ++ n ++ body) ++ tail) by (by rewrite <- !app_assoc).
    replace (1 + len n + v) with (len ([h] ++ n ++ body)) by len_lia. apply slice_tail. }
  rewrite Hsl, Htl. exists ([h] ++ n ++ body). split_and!.
  - rewrite Hq. by rewrite <- !app_assoc.
  - exists h. simpl. split_and!; try done. exists n. rewrite Hbody. done.
  - len_lia.
  - len_lia.
Qed.

Lemma frame_next_frame max frame p rest :
  carries frame p → len frame ≤ max → frame_next max (frame ++ rest) = Ok (Some (p, rest)).
Proof.
  intros (hd & (n & Hn & ->) & Ht & Hf) Hmax. unfold frame_next.
  assert (Hpos : 1 ≤ len n).
  { rewrite encode_vbi_digits in Hn. destruct (_ && _) eqn:E; [| done]. bools. simplify_eq.
    destruct (vbi_digits_4 (len (remaining p)) ltac:(lia)) as (Hs & _ & _). inversion Hs; len_lia. }
  rewrite (proj2 (Z.ltb_ge _ 2)) by len_lia. change (idx ((hd :: n ++ remaining p) ++ rest) 0) with (Ok hd). cbn [rbind].
  assert (decode_vbi ((hd :: n ++ remaining p) ++ rest) 1 None = Ok (len (remaining p), 1 + len n)) as ->.
  { pose proof (decode_encode_vbi (len (remaining p)) n [hd] (remaining p ++ rest) None Hn) as H.
    change (len [hd]) with 1 in H. simpl app in *. rewrite <- app_assoc. apply H. simpl. len_lia. }
  cbn [rbind]. rewrite Z.gtb_ltb, (proj2 (Z.ltb_ge max _)) by len_lia. rewrite (proj2 (Z.ltb_ge _ _)) by len_lia.
  rewrite Ht. cbn [rbind]. do 3 f_equal.
  - destruct p as [t f r]. simpl in *. f_equal; [done |].
    replace (hd :: (n ++ r) ++ rest) with ((hd :: n) ++ r ++ rest) by (simpl; by rewrite <- app_assoc).
    replace (1 + len n) with (len (hd :: n)) by len_lia. apply slice_mid.
  - replace (1 + len n + len (remaining p)) with (len (hd :: n ++ remaining p)) by len_lia. apply slice_tail.
Qed.

(** Framing is exact.  On any byte queue, [next_packet]'s framing yields a
    packet and a rest if and only if the queue starts with that packet's frame
    (header byte, canonical remaining length, body of that length) of at most
    the maximum packet size, followed by that rest. *)
Theorem frame_next_iff max q p rest :
  bytes_ok q →
  frame_next max q = Ok (Some (p, rest)) ↔ ∃ frame, q = frame ++ rest ∧ carries frame p ∧ len frame ≤ max.
Proof.
  intros Hb. split.
  - intros (frame & ? & ? & ?)%frame_next_Some; [| done]. exists frame. split_and!; try done. lia.
  - intros (frame & -> & ? & ?). by apply frame_next_frame.
Qed.

Lemma frame_next_iff_witness :
  let p := {| packet_type := PUBACK; flags := 0; remaining := [0; 9] |} in
  frame_next 100 [0x40; 2; 0; 9; 0xC0] = Ok (Some (p, [0xC0])) ↔
    ∃ frame, [0x40; 2; 0; 9; 0xC0] = frame ++ [0xC0] ∧ carries frame p ∧ len frame ≤ 100.
Proof. apply (frame_next_iff 100 [0x40; 2; 0; 9; 0xC0]). bytes_by_compute. Defined.

(** More bytes never change a verdict already reached. *)
Lemma decode_vbi_loop_more fuel : ∀ b x mult value pos n,
  0 ≤ pos →
  (∃ i c, pos ≤ i < len b ∧ idx b i = Ok c ∧ Z.land c 0x80 = 0) ∨ 4 ≤ n + (len b - pos) →
  decode_vbi_loop fuel (b ++ x) (len (b ++ x)) mult value pos n = decode_vbi_loop fuel b (len b) mult value pos n.
Proof.
  induction fuel as [|fuel IH]; intros b x mult value pos n Hp Hc; [done |].
  unfold decode_vbi_loop; fold decode_vbi_loop. rewrite !Z.geb_leb, Z.gtb_ltb. pose proof (len_nonneg x).
  destruct (len b <=? pos) eqn:E; bools.
  - destruct Hc as [(i & c & ? & _)|Hc]; [lia |]. case_if; [done |]. rewrite (proj2 (Z.ltb_lt 4 _)) by lia. done.
  - rewrite (proj2 (Z.leb_gt _ pos)) by len_lia. case_if; [done |]. rewrite idx_app_l by lia.
    destruct (idx_Ok b pos) as (c0 & Hc0 & _); [lia |]. rewrite Hc0. cbn [rbind].
    destruct (Z.land c0 128 =? 0) eqn:Ez; [done |]. bools. apply IH; [lia |].
    destruct Hc as [(i & c & Hi & Hci & Hcz)|Hc]; [left | right; lia]. exists i, c. split_and!; try done; [| lia].
    destruct (decide (i = pos)) as [->|]; [congruence | lia].
Qed.

Lemma decode_vbi_more q x :
  2 ≤ len q → bytes_ok q → 5 ≤ len q ∨ all_continuation q 0 (len q) = false →
  decode_vbi (q ++ x) 1 None = decode_vbi q 1 None.
Proof.
  intros H2 Hb Hc. unfold decode_vbi. rewrite !Z.geb_leb. pose proof (len_nonneg x).
  rewrite (proj2 (Z.leb_gt _ 1)), (proj2 (Z.leb_gt (len q) 1)) by len_lia. rewrite idx_app_l by lia.
  destruct (idx_Ok q 1) as (b0 & Hb0 & Hin); [lia |]. rewrite Hb0. cbn [rbind].
  destruct (b0 <? 128) eqn:E; [done |]. bools. rewrite decode_vbi_loop_more; [done | lia |].
  destruct Hc as [Hc|Hc]; [right; lia | left].
  unfold all_continuation in Hc. rewrite Z.add_0_l in Hc. change (0 + 1) with 1 in Hc.
  assert (∃ c, c ∈ slice q 1 (len q) ∧ Z.land c 128 = 0) as (c & Hcin & Hcz).
  { apply not_true_iff_false in Hc. rewrite forallb_forall in Hc.
    destruct (decide (Exists (λ c, Z.land c 128 = 0) (slice q 1 (len q)))) as [He|He].
    - apply Exists_exists in He. naive_solver.
    - exfalso. apply Hc. intros c Hc'%list_elem_of_In. apply negb_true_iff, Z.eqb_neq. intros Hz. apply He.
      apply Exists_exists. eauto. }
  apply list_elem_of_lookup in Hcin as [i Hi]. unfold slice in Hi.
  apply lookup_take_Some in Hi as [Hi _]. rewrite lookup_drop in Hi.
  exists (Z.of_nat (Z.to_nat 1 + i)), c. split_and!.
  - destruct i; [| lia]. exfalso. rewrite Nat.add_0_r in Hi. unfold idx in Hb0. rewrite Hi in Hb0. simplify_eq.
    rewrite Forall_forall in Hb. specialize (Hb _ Hin). pose proof (land_0x80 b0 Hb) as Hl. rewrite Hcz in Hl.
    symmetry in Hl. change (0 =? 0) with true in Hl. apply Z.ltb_lt in Hl. lia.
  - apply lookup_lt_Some in Hi. unfold len. lia.
  - unfold idx. rewrite Nat2Z.id, Hi. done.
  - done.
Qed.

Lemma frame_next_Some_app max q p rest x :
  bytes_ok q → frame_next max q = Ok (Some (p, rest)) → frame_next max (q ++ x) = Ok (Some (p, rest ++ x)).
Proof.
  intros Hb (frame & -> & Hc & Hl)%frame_next_Some; [| done]. rewrite <- app_assoc. apply frame_next_frame; [done | lia].
Qed.

Lemma frame_next_Raise_app max q e x :
  bytes_ok q → frame_next max q = Raise e → frame_next max (q ++ x) = Raise e.
Proof.
  intros Hb H. unfold frame_next in *. destruct (len q <? 2) eqn:E2; [done |]. bools. pose proof (len_nonneg x).
  rewrite (proj2 (Z.ltb_ge _ 2)) by len_lia. rewrite idx_app_l by lia.
  destruct (idx_Ok q 0) as (h & Hh & _); [lia |]. rewrite Hh in *. cbn [rbind] in *.
  destruct (decode_vbi q 1 None) as [[v p]|ex] eqn:Hv; cbn [rbind] in H.
  - pose proof Hv as Hv'. apply decode_vbi_sound in Hv' as (pre & n & post & Hq & Hpre & Hn & Hp & He & Hv0);
      [| done | lia | simpl; lia]. simpl in He.
    assert (decode_vbi (q ++ x) 1 None = Ok (v, p)) as ->.
    { rewrite Hq, <- Hpre, <- !app_assoc, Hp, <- Hpre. apply decode_encode_vbi; [done |]. simpl. len_lia. }
    cbn [rbind]. destruct (p + v >? max); [done |]. destruct (len q <? p + v) eqn:El; [done |]. bools.
    rewrite (proj2 (Z.ltb_ge _ (p + v))) by len_lia. by destruct (PacketType_from_byte h).
  - apply (decode_vbi_raises q 1 None) in Hv as Hex; [| done | lia | simpl; lia]. subst ex. rewrite Z.geb_leb in H.
    assert (5 ≤ len q ∨ all_continuation q 0 (len q) = false) as Hc.
    { destruct (5 <=? len q) eqn:E5; bools; [by left |]. destruct (all_continuation _ _ _); [done | by right]. }
    assert (e = MalformedPacketError) as ->.
    { destruct (5 <=? len q); simpl in H; [congruence |]. destruct (all_continuation _ _ _); simpl in H; congruence. }
    rewrite decode_vbi_more, Hv by done. rewrite Z.geb_leb. destruct (5 <=? len (q ++ x)) eqn:E5; [done |]. bools.
    destruct Hc as [Hc|Hc]; [exfalso; len_lia |].
    assert (all_continuation (q ++ x) 0 (len (q ++ x)) = false) as ->; [| done].
    unfold all_continuation in *. rewrite !Z.add_0_l in *.
    destruct (split_len q 1) as (a & b & -> & Ha); [lia |]. rewrite <- app_assoc.
    rewrite <- Ha in Hc |- *. rewrite slice_tail in Hc |- *. by rewrite forallb_app, Hc.
Qed.

(** Cutting a queue into packets until it runs dry or fails. *)
Fixpoint parse (fuel : nat) (max : Z) (q : bytes) : list RawPacket * res bytes :=
  match fuel with
  | O => ([], Ok q)
  | S fuel =>
      match frame_next max q with
      | Raise e => ([], Raise e)
      | Ok None => ([], Ok q)
      | Ok (Some (p, rest)) => let '(ps, r) := parse fuel max rest in (p :: ps, r)
      end
  end.

(** [length q] rounds suffice: every packet takes two bytes at least. *)
Lemma parse_fuel max f : ∀ q g, bytes_ok q → (length q ≤ f)%nat → (length q ≤ g)%nat → parse f max q = parse g max q.
Proof.
  induction f as [|f IH]; intros q g Hb Hf Hg.
  - destruct q; [| simpl in Hf; lia]. destruct g; done.
  - destruct g as [|g]; [destruct q; [done | simpl in Hg; lia] |]. cbn [parse].
    destruct (frame_next max q) as [[[p rest]|]|e] eqn:H; [| done | done].
    apply frame_next_Some in H as (frame & -> & _ & Hl); [| done]. apply bytes_app in Hb as [_ Hb].
    rewrite length_app in *. unfold len in Hl. rewrite (IH rest g) by (done || lia). done.
Qed.

(** Bytes arriving: fed by a transport, or written into a window and committed. *)
Definition ingress (d : IncrementalDecoder) (data : bytes) (d' : IncrementalDecoder) : Prop :=
  feed d data = Ok d' ∨ (data ≠ [] ∧ ∃ preferred, receive_into d preferred data = Ok d').

(** Any interleaving of arrivals and of calls to [next_packet], up to an error. *)
Inductive session : IncrementalDecoder → list bytes → list RawPacket → res IncrementalDecoder → Prop :=
  | session_end d : session d [] [] (Ok d)
  | session_data d c cs d1 ps r : ingress d c d1 → session d1 cs ps r → session d (c :: cs) ps r
  | session_packet d cs p d1 ps r :
      next_packet d = Ok (Some p, d1) → session d1 cs ps r → session d cs (p :: ps) r
  | session_error d cs e : next_packet d = Raise e → session d cs [] (Raise e).

Lemma ingress_spec d data d' :
  slab d → bytes_ok data → ingress d data d' →
  slab d' ∧ live d' = live d ++ data ∧ _max_packet_size d' = _max_packet_size d.
Proof.
  intros Hs Hb [H|(Hne & pref & H)].
  - destruct (feed_spec d data Hs Hb) as (d1 & H1 & ?). congruence.
  - destruct (receive_into_spec d pref data Hs Hb Hne) as [(d1 & H1 & ?)|(H1 & _)]; congruence.
Qed.

Lemma next_packet_Some d p d1 :
  slab d → next_packet d = Ok (Some p, d1) →
  frame_next (_max_packet_size d) (live d) = Ok (Some (p, live d1)) ∧ slab d1 ∧ _max_packet_size d1 = _max_packet_size d.
Proof.
  intros Hs H. pose proof (next_packet_spec d Hs) as Hn.
  destruct (frame_next _ _) as [[[p' rest]|]|e]; [| congruence | congruence].
  destruct Hn as (d' & Hn & ? & <- & ?). rewrite H in Hn. simplify_eq. done.
Qed.

Lemma parse_step max q p rest :
  bytes_ok q → frame_next max q = Ok (Some (p, rest)) →
  parse (length q) max q = (p :: (parse (length rest) max rest).1, (parse (length rest) max rest).2).
Proof.
  intros Hb H. pose proof (frame_next_Some max q p rest Hb H) as (frame & Hq & _ & Hl). subst q.
  apply bytes_app in Hb as Hb'. destruct Hb' as [_ Hbr].
  rewrite (parse_fuel max _ _ (S (length rest + length frame))) by (done || rewrite length_app; lia).
  cbn [parse]. rewrite H. rewrite (parse_fuel max _ _ (length rest)) by (done || lia).
  by destruct (parse (length rest) max rest).
Qed.

Lemma session_parse d cs ps r :
  session d cs ps r → slab d → Forall bytes_ok cs →
  let q := live d ++ concat cs in
  match r with
  | Ok d' => slab d' ∧ (next_packet d' = Ok (None, d') → parse (length q) (_max_packet_size d) q = (ps, Ok (live d')))
  | Raise e => parse (length q) (_max_packet_size d) q = (ps, Raise e)
  end.
Proof.
  induction 1 as [d|d c cs d1 ps r Hin Hses IH|d cs p d1 ps r Hn Hses IH|d cs e Hn]; intros Hs Hcs q; subst q.
  - split; [done |]. intros Hn. simpl. rewrite app_nil_r. pose proof (next_packet_spec d Hs) as Hspec.
    destruct (live d) as [|x l] eqn:Hl; [done |]. rewrite <- Hl in *.
    replace (length (live d)) with (S (length l)) by (by rewrite Hl). cbn [parse].
    destruct (frame_next _ _) as [[[p rest]|]|e]; [| done | congruence].
    destruct Hspec as (d' & Hd' & _). congruence.
  - inversion Hcs; subst. destruct (ingress_spec d c d1) as (Hs1 & Hl1 & Hm1); [done.. |].
    simpl. rewrite app_assoc, <- Hl1, <- Hm1. by apply IH.
  - apply next_packet_Some in Hn as (Hf & Hs1 & Hm1); [| done].
    apply (frame_next_Some_app _ _ _ _ (concat cs)) in Hf; [| by apply live_bytes].
    rewrite (parse_step _ _ _ _ ltac:(apply bytes_app; split; [by apply live_bytes | by apply Forall_concat]) Hf).
    specialize (IH Hs1 Hcs). simpl in IH. rewrite Hm1 in IH. destruct r as [d'|e].
    + destruct IH as [? IH]. split; [done |]. intros Hnone. by rewrite (IH Hnone).
    + by rewrite IH.
  - pose proof (next_packet_spec d Hs) as Hspec. destruct (frame_next _ _) as [[[p rest]|]|e'] eqn:Hf.
    + destruct Hspec as (d' & Hd' & _). congruence.
    + congruence.
    + rewrite Hn in Hspec. simplify_eq. apply (frame_next_Raise_app _ _ _ (concat cs)) in Hf; [| by apply live_bytes].
      destruct (live d ++ concat cs) as [|x l] eqn:Hq; [by destruct (live d); simpl in * |].
      rewrite <- Hq in *. replace (length (live d ++ concat cs)) with (S (length l)) by (by rewrite Hq).
      cbn [parse]. by rewrite Hf.
Qed.

Lemma init_slab max d : decoder_init max = Ok d → slab d ∧ live d = [] ∧ _max_packet_size d = max.
Proof.
  unfold decoder_init. intros H. res_inv. bools. split_and!; [| done | done].
  constructor; simpl; try done; unfold _INITIAL_WINDOW; lia.
Qed.

(** C6: reception does not depend on how the stream is cut.  For any sequence
    of arriving chunks, fed or received through windows, and any interleaving
    with [next_packet], the packets returned are those of the concatenated
    stream, in order; when the decoder reports no more packets, what it still
    holds is the unread rest, and an error is the one the stream itself has. *)
Theorem decoder_fragmentation max d chunks packets r :
  decoder_init max = Ok d → Forall bytes_ok chunks → session d chunks packets r →
  match r with
  | Ok d' => next_packet d' = Ok (None, d') →
             parse (length (concat chunks)) max (concat chunks) = (packets, Ok (live d'))
  | Raise e => parse (length (concat chunks)) max (concat chunks) = (packets, Raise e)
  end.
Proof.
  intros (Hs & Hl & Hm)%init_slab Hc H. apply session_parse in H; [| done | done]. rewrite Hl, Hm in H. simpl in H.
  destruct r; [by destruct H | done].
Qed.

Lemma parse_frames max frames ps rest :
  Forall2 carries frames ps → Forall (λ f, len f ≤ max) frames → bytes_ok (concat frames ++ rest) →
  frame_next max rest = Ok None →
  parse (length (concat frames ++ rest)) max (concat frames ++ rest) = (ps, Ok rest).
Proof.
  intros H2 Hmax Hb Hrest. induction H2 as [|f p fs ps Hc H2 IH]; simpl in *.
  - destruct rest as [|x l]; [done |]. cbn [parse length]. by rewrite Hrest.
  - inversion Hmax; subst. rewrite <- app_assoc in *. apply bytes_app in Hb as Hb'. destruct Hb' as [_ Hb'].
    rewrite (parse_step max _ p (concat fs ++ rest)); [| done | by apply frame_next_frame]. by rewrite IH.
Qed.

(** What the peer framed is what is received.  A stream made of packet
    frames, none above the maximum, followed by an incomplete one, delivered in
    any chunks and any interleaving, yields exactly the framed packets. *)
Theorem decoder_delivers max d frames sent rest chunks packets d' :
  decoder_init max = Ok d → Forall bytes_ok chunks → Forall2 carries frames sent →
  Forall (λ f, len f ≤ max) frames → frame_next max rest = Ok None →
  concat chunks = concat frames ++ rest → session d chunks packets (Ok d') → next_packet d' = Ok (None, d') →
  packets = sent ∧ live d' = rest.
Proof.
  intros Hi Hc H2 Hmax Hrest Hcat Hses Hn.
  apply init_slab in Hi as (Hs & Hl & Hm). apply session_parse in Hses; [| done | done].
  rewrite Hl, Hm in Hses. simpl in Hses. destruct Hses as [_ Hp]. specialize (Hp Hn).
  assert (bytes_ok (concat chunks)) as Hb by (by apply Forall_concat).
  rewrite Hcat in *. rewrite (parse_frames max frames sent rest) in Hp by done. by simplify_eq.
Qed.

Definition sample_ack : RawPacket := {| packet_type := PUBACK; flags := 0; remaining := [0; 9] |}.

Lemma sample_session : ∃ d d', decoder_init 100 = Ok d ∧
  session d [[0x40; 2; 0]; [9; 0xC0]] [sample_ack] (Ok d') ∧ next_packet d' = Ok (None, d').
Proof.
  eexists _, _. split; [reflexivity |]. split.
  - eapply session_data; [left; vm_compute; reflexivity |].
    eapply session_data; [left; vm_compute; reflexivity |].
    eapply session_packet; [vm_compute; reflexivity |]. apply session_end.
  - vm_compute. reflexivity.
Qed.

Lemma decoder_fragmentation_witness :
  ∃ d', parse 5 100 [0x40; 2; 0; 9; 0xC0] = ([sample_ack], Ok (live d')).
Proof.
  destruct sample_session as (d & d' & Hi & Hs & Hn). exists d'.
  refine (decoder_fragmentation 100 d [[0x40; 2; 0]; [9; 0xC0]] _ (Ok d') Hi _ Hs Hn).
  repeat constructor; unfold byte_ok; lia.
Defined.

Lemma decoder_delivers_witness : ∃ d', live d' = [0xC0].
Proof.
  destruct sample_session as (d & d' & Hi & Hs & Hn). exists d'.
  refine (proj2 (decoder_delivers 100 d [[0x40; 2; 0; 9]] [sample_ack] [0xC0] [[0x40; 2; 0]; [9; 0xC0]] _ d' Hi _ _ _ _ _ Hs Hn)).
  - repeat constructor; unfold byte_ok; lia.
  - repeat constructor. exists 0x40. split_and!; try done. by exists [2].
  - repeat constructor; unfold len; simpl; lia.
  - reflexivity.
  - reflexivity.
Defined.
