(* ===== verification/PacketIds.v ===== *)
(** * Packet identifiers and the send quota
    ([src/mqttium/protocol/packet_ids.py], [src/mqttium/protocol/flow_control.py]) *)

From S2P Require Import Prelude.

Definition _MAX_ID : Z := 65_535.

Record PacketIdPool := mkPool {
  _free_count : Z;
  _free_one : Z;
  _free_many : option (gset Z);
  _reserved : option (gset Z);
  _next : Z }.

Definition pool_init : PacketIdPool := mkPool 0 0 None None 1.

Definition pool_clear (_ : PacketIdPool) : PacketIdPool := pool_init.

Definition set_len (s : option (gset Z)) : Z := match s with None => 0 | Some s => Z.of_nat (size s) end.

Definition pool_len (p : PacketIdPool) : Z := _next p - 1 - _free_count p + set_len (_reserved p).

Definition pool_available (p : PacketIdPool) : Z := _MAX_ID - pool_len p.

(** [None] for an emptied set, as [if not s: self._s = None] leaves it. *)
Definition keep (s : gset Z) : option (gset Z) := if decide (s = ∅) then None else Some s.

(** [while mid in reserved: reserved.remove(mid); mid += 1]: each round removes
    an element, so the size of the set is enough fuel. *)
Fixpoint absorb (fuel : nat) (mid : Z) (reserved : gset Z) : Z * gset Z :=
  match fuel with
  | O => (mid, reserved)
  | S fuel => if decide (mid ∈ reserved) then absorb fuel (mid + 1) (reserved ∖ {[mid]}) else (mid, reserved)
  end.

Section pool.
(** [set.pop()] removes an arbitrary element: any choice function will do. *)
Variable pop : gset Z → Z.

Definition allocate (p : PacketIdPool) : res Z * PacketIdPool :=
  if negb (_free_one p =? 0) then
    (Ok (_free_one p), mkPool (_free_count p - 1) 0 (_free_many p) (_reserved p) (_next p))
  else
    match (match _free_many p with Some free => if decide (free = ∅) then None else Some free | None => None end) with
    | Some free =>
        let mid := pop free in
        (Ok mid, mkPool (_free_count p - 1) (_free_one p) (keep (free ∖ {[mid]})) (_reserved p) (_next p))
    | None =>
        let mid := _next p in
        let '(mid, p) :=
          match _reserved p with
          | None => (mid, p)
          | Some reserved =>
              let '(mid, reserved) := absorb (size reserved) mid reserved in
              (mid, mkPool (_free_count p) (_free_one p) (_free_many p) (keep reserved) mid)
          end in
        if mid >? _MAX_ID then (Raise FlowControlError, p)
        else (Ok mid, mkPool (_free_count p) (_free_one p) (_free_many p) (_reserved p) (mid + 1))
    end.
End pool.

Definition reserve (p : PacketIdPool) (mid : Z) : res PacketIdPool :=
  raise! ValueError when (mid <? 1) || (mid >? _MAX_ID);
  let frontier := _next p in
  if mid <? frontier then
    if _free_one p =? mid then
      Ok (mkPool (_free_count p - 1) 0 (_free_many p) (_reserved p) (_next p))
    else
      match _free_many p with
      | Some free =>
          if decide (mid ∈ free) then
            Ok (mkPool (_free_count p - 1) (_free_one p) (keep (free ∖ {[mid]})) (_reserved p) (_next p))
          else Ok p
      | None => Ok p
      end
  else if mid =? frontier then
    let frontier := frontier + 1 in
    match _reserved p with
    | None => Ok (mkPool (_free_count p) (_free_one p) (_free_many p) None frontier)
    | Some reserved =>
        let reserved := reserved ∖ {[mid]} in
        let '(frontier, reserved) := absorb (size reserved) frontier reserved in
        Ok (mkPool (_free_count p) (_free_one p) (_free_many p) (keep reserved) frontier)
    end
  else
    Ok (mkPool (_free_count p) (_free_one p) (_free_many p)
          (Some (match _reserved p with None => {[mid]} | Some r => r ∪ {[mid]} end)) (_next p)).

Definition in_opt (mid : Z) (s : option (gset Z)) : bool :=
  match s with Some s => bool_decide (mid ∈ s) | None => false end.

Definition release (p : PacketIdPool) (mid : Z) : PacketIdPool :=
  if (mid <? 1) || (mid >? _MAX_ID) then p
  else
    let frontier := _next p in
    if mid <? frontier then
      if _free_one p =? mid then p
      else if in_opt mid (_free_many p) then p
      else
        let p1 :=
          if _free_one p =? 0 then mkPool (_free_count p) mid (_free_many p) (_reserved p) (_next p)
          else mkPool (_free_count p) (_free_one p)
                 (Some (match _free_many p with None => {[mid]} | Some f => f ∪ {[mid]} end))
                 (_reserved p) (_next p) in
        let free_count := _free_count p1 + 1 in
        let p2 := mkPool free_count (_free_one p1) (_free_many p1) (_reserved p1) (_next p1) in
        if (free_count =? frontier - 1) && bool_decide (_reserved p2 = None) then pool_clear p2 else p2
    else
      match _reserved p with
      | None => p
      | Some reserved =>
          if decide (mid ∈ reserved) then
            let reserved := reserved ∖ {[mid]} in
            if decide (reserved = ∅) then
              let p1 := mkPool (_free_count p) (_free_one p) (_free_many p) None (_next p) in
              if _free_count p1 =? frontier - 1 then pool_clear p1 else p1
            else mkPool (_free_count p) (_free_one p) (_free_many p) (Some reserved) (_next p)
          else p
      end.

Definition in_use (p : PacketIdPool) (mid : Z) : bool :=
  if (mid <? 1) || (mid >? _MAX_ID) then false
  else if mid <? _next p then
    if _free_one p =? mid then false else negb (in_opt mid (_free_many p))
  else in_opt mid (_reserved p).

(** ** The pool as a set of identifiers *)

Definition opt_set (s : option (gset Z)) : gset Z := match s with Some s => s | None => ∅ end.

(** The holes below the frontier. *)
Definition holes (p : PacketIdPool) : gset Z :=
  (if _free_one p =? 0 then ∅ else {[_free_one p]}) ∪ opt_set (_free_many p).

Definition below (n : Z) : gset Z := list_to_set (seqZ 1 (n - 1)).

(** The identifiers in use. *)
Definition used (p : PacketIdPool) : gset Z := (below (_next p) ∖ holes p) ∪ opt_set (_reserved p).

Record pool_ok (p : PacketIdPool) : Prop := {
  ok_next : 1 ≤ _next p ≤ 65536;
  ok_holes : ∀ m, m ∈ holes p → 1 ≤ m < _next p;
  ok_one : _free_one p ∉ opt_set (_free_many p);
  ok_many : _free_many p ≠ Some ∅;
  ok_count : _free_count p = Z.of_nat (size (holes p));
  ok_reserved : ∀ m, m ∈ opt_set (_reserved p) → _next p ≤ m ≤ 65535;
  ok_some : _reserved p ≠ Some ∅ }.

Lemma elem_of_below n m : m ∈ below n ↔ 1 ≤ m < n.
Proof. unfold below. rewrite elem_of_list_to_set, elem_of_seqZ. lia. Qed.

Lemma size_below n : 1 ≤ n → Z.of_nat (size (below n)) = n - 1.
Proof. intros. unfold below. rewrite size_list_to_set by apply NoDup_seqZ. rewrite length_seqZ. lia. Qed.

Lemma in_opt_spec m s : in_opt m s = true ↔ m ∈ opt_set s.
Proof. destruct s; simpl; [by rewrite bool_decide_eq_true | split; [done | set_solver]]. Qed.

Lemma opt_set_keep s : opt_set (keep s) = s.
Proof. unfold keep. case_decide; [by subst | done]. Qed.

Lemma keep_some s : keep s ≠ Some ∅.
Proof. unfold keep. case_decide; [done |]. by intros [= ->]. Qed.

Lemma used_range p m : pool_ok p → m ∈ used p → 1 ≤ m ≤ 65535.
Proof.
  intros [? ? ? ? ? Hr ?]. unfold used. rewrite elem_of_union, elem_of_difference, elem_of_below.
  intros [[? _]|?%Hr]; lia.
Qed.

(** [__len__] counts the identifiers in use. *)
Lemma pool_len_used p : pool_ok p → pool_len p = Z.of_nat (size (used p)).
Proof.
  intros [Hn Hh ? ? Hc Hr ?]. unfold pool_len, used.
  rewrite size_union by (intros m; rewrite elem_of_difference, elem_of_below; intros [? _] ?%Hr; lia).
  assert (holes p ⊆ below (_next p)) as Hsub by (intros m ?%Hh; by apply elem_of_below).
  pose proof (size_difference _ _ Hsub) as Hd. pose proof (subseteq_size _ _ Hsub). pose proof (size_below (_next p)).
  assert (set_len (_reserved p) = Z.of_nat (size (opt_set (_reserved p)))) as ->.
  { by destruct (_reserved p). }
  lia.
Qed.

Lemma in_use_used p m : pool_ok p → in_use p m = true ↔ m ∈ used p.
Proof.
  intros Hok. pose proof (used_range p m Hok) as Hrange. destruct Hok as [Hn Hh ? ? Hc Hr ?].
  unfold in_use, used. rewrite Z.gtb_ltb. unfold _MAX_ID.
  destruct ((m <? 1) || (65535 <? m)) eqn:E; [apply orb_true_iff in E; split; [done |]; intros ?%Hrange; destruct E; bools; lia |].
  bools. rewrite elem_of_union, elem_of_difference, elem_of_below. unfold holes. destruct (m <? _next p) eqn:E1; bools.
  - destruct (_free_one p =? m) eqn:E2; bools.
    + split; [done |]. intros [[_ Hno]|?%Hr]; [| lia]. exfalso. apply Hno.
      rewrite (proj2 (Z.eqb_neq _ 0)) by lia. set_solver.
    + rewrite negb_true_iff, <- not_true_iff_false, in_opt_spec. split.
      * intros Hno. left. split; [lia |]. intros [Hin|?]%elem_of_union; [| done]. destruct (_free_one p =? 0); set_solver.
      * intros [[_ Hno]|?%Hr]; [set_solver | lia].
  - rewrite in_opt_spec. split; [by right |]. intros [[? _]|?]; [lia | done].
Qed.

Lemma absorb_spec fuel : ∀ m R m' R',
  (size R ≤ fuel)%nat → absorb fuel m R = (m', R') →
  m ≤ m' ∧ m' ∉ R' ∧ (∀ x, x ∈ R' ↔ x ∈ R ∧ ¬ (m ≤ x < m')) ∧ (∀ x, m ≤ x < m' → x ∈ R).
Proof.
  induction fuel as [|fuel IH]; intros m R m' R' Hs H; simpl in H.
  - simplify_eq. assert (R' = ∅) as -> by (apply leibniz_equiv, size_empty_inv; lia).
    split_and!; [lia | set_solver | set_solver | intros; lia].
  - case_decide as Hin.
    2:{ simplify_eq. split_and!; [lia | done | | intros; lia]. intros x. split; [intros; split; [done | lia] | tauto]. }
    apply IH in H as (Hle & Hni & Hmem & Hrange).
    + split_and!; try done; try lia.
      * intros x. rewrite Hmem, elem_of_difference, elem_of_singleton. destruct (decide (x = m)); subst; split; naive_solver lia.
      * intros x Hx. destruct (decide (x = m)) as [->|]; [done |]. specialize (Hrange x). set_solver by lia.
    + rewrite size_difference by set_solver. rewrite size_singleton. lia.
Qed.

Lemma used_elem p m : m ∈ used p ↔ (1 ≤ m < _next p ∧ m ∉ holes p) ∨ m ∈ opt_set (_reserved p).
Proof. unfold used. rewrite elem_of_union, elem_of_difference, elem_of_below. tauto. Qed.

Lemma holes_elem p m : m ∈ holes p ↔ (_free_one p ≠ 0 ∧ m = _free_one p) ∨ m ∈ opt_set (_free_many p).
Proof.
  unfold holes. rewrite elem_of_union. destruct (_free_one p =? 0) eqn:E; bools.
  - rewrite E. set_solver.
  - rewrite elem_of_singleton. tauto.
Qed.

(** Removing a hole, whichever slot keeps it. *)
Lemma drop_one_hole p :
  pool_ok p → _free_one p ≠ 0 →
  let p' := mkPool (_free_count p - 1) 0 (_free_many p) (_reserved p) (_next p) in
  pool_ok p' ∧ (∀ m, m ∈ used p' ↔ m ∈ used p ∨ m = _free_one p) ∧ _free_one p ∉ used p ∧ 1 ≤ _free_one p < _next p.
Proof.
  intros Hok Hz p'. pose proof Hok as [Hn Hh Ho Hm Hc Hr Hs].
  assert (Hone : 1 ≤ _free_one p < _next p) by (apply Hh, holes_elem; tauto).
  assert (Hh' : ∀ m, m ∈ holes p ↔ m ∈ holes p' ∨ m = _free_one p) by (intros m; rewrite !holes_elem; simpl; tauto).
  assert (Hnot : _free_one p ∉ holes p') by (rewrite holes_elem; simpl; intros [[? _]|?]; done).
  assert (holes p = {[_free_one p]} ∪ holes p') as Heq by (apply set_eq; intros; rewrite Hh'; set_solver).
  split_and!; [| | | lia | lia].
  - constructor; try done.
    + intros m Hm'. apply Hh, Hh'. by left.
    + simpl. intros H0%(λ h, Hh 0 (proj2 (holes_elem p 0) (or_intror h))). lia.
    + simpl. rewrite Hc, Heq, size_union, size_singleton by set_solver. lia.
  - intros m. rewrite !used_elem. simpl. rewrite Hh'. destruct (decide (m = _free_one p)); [subst | tauto]. naive_solver lia.
  - rewrite used_elem. intros [[_ H]|H%Hr]; [apply H, Hh'; by right | lia].
Qed.

Lemma drop_many_hole p free m :
  pool_ok p → _free_many p = Some free → m ∈ free →
  let p' := mkPool (_free_count p - 1) (_free_one p) (keep (free ∖ {[m]})) (_reserved p) (_next p) in
  pool_ok p' ∧ (∀ x, x ∈ used p' ↔ x ∈ used p ∨ x = m) ∧ m ∉ used p ∧ 1 ≤ m < _next p.
Proof.
  intros Hok Hf Hin p'. pose proof Hok as [Hn Hh Ho Hm Hc Hr Hs]. rewrite Hf in Ho. simpl in Ho.
  assert (Hone : 1 ≤ m < _next p) by (apply Hh, holes_elem; rewrite Hf; by right).
  assert (Hh' : ∀ x, x ∈ holes p ↔ x ∈ holes p' ∨ x = m).
  { intros x. rewrite !holes_elem, Hf. simpl. rewrite opt_set_keep. set_unfold. destruct (decide (x = m)); naive_solver. }
  assert (Hnot : m ∉ holes p').
  { rewrite holes_elem; simpl. rewrite opt_set_keep. intros [[? ->]|?]; set_solver. }
  assert (holes p = {[m]} ∪ holes p') as Heq by (apply set_eq; intros; rewrite Hh'; set_solver).
  split_and!; [| | | lia | lia].
  - constructor; try done.
    + intros x Hx. apply Hh, Hh'. by left.
    + simpl. rewrite opt_set_keep. set_solver.
    + simpl. apply keep_some.
    + simpl. rewrite Hc, Heq, size_union, size_singleton by set_solver. lia.
  - intros x. rewrite !used_elem. simpl. rewrite Hh'. destruct (decide (x = m)); [subst | tauto]. naive_solver lia.
  - rewrite used_elem. intros [[_ H]|H%Hr]; [apply H, Hh'; by right | lia].
Qed.

(** Moving the frontier over reserved identifiers changes nothing. *)
Lemma absorb_ok p R m' R' :
  pool_ok p → _reserved p = Some R → absorb (size R) (_next p) R = (m', R') →
  let p' := mkPool (_free_count p) (_free_one p) (_free_many p) (keep R') m' in
  pool_ok p' ∧ (∀ x, x ∈ used p' ↔ x ∈ used p) ∧ m' ∉ R' ∧ _next p ≤ m'.
Proof.
  intros Hok HR Ha p'. pose proof Hok as [Hn Hh Ho Hm Hc Hr Hs]. rewrite HR in Hr. simpl in Hr.
  apply absorb_spec in Ha as (Hle & Hni & Hmem & Hrange); [| lia].
  assert (m' ≤ 65536).
  { destruct (decide (m' = _next p)); [lia |]. specialize (Hrange (m' - 1) ltac:(lia)). apply Hr in Hrange. lia. }
  split_and!; try done.
  - constructor; try done; simpl.
    + lia.
    + intros m Hm'. assert (1 ≤ m < _next p) by (by apply Hh). lia.
    + rewrite opt_set_keep. intros x [Hx Hnx]%Hmem. apply Hr in Hx as ?. lia.
    + apply keep_some.
  - intros x. rewrite !used_elem, HR. simpl. rewrite opt_set_keep, Hmem. change (holes p') with (holes p).
    split.
    + intros [[? ?]|[? _]]; [| tauto]. destruct (decide (x < _next p)); [left; split; [lia | done] | right; apply Hrange; lia].
    + intros [[? ?]|Hx]; [left; split; [lia | done] |]. apply Hr in Hx as ?.
      destruct (decide (x < m')); [left | right; split; [done | lia]]. split; [lia |]. intros Hh1%Hh. lia.
Qed.

(** ** The operations on the set *)

Section allocation.
Context (pop : gset Z → Z) (Hpop : ∀ s, s ≠ ∅ → pop s ∈ s).

Lemma allocate_spec p :
  pool_ok p →
  (∃ m p', allocate pop p = (Ok m, p') ∧ pool_ok p' ∧ 1 ≤ m ≤ 65535 ∧ m ∉ used p ∧
           ∀ x, x ∈ used p' ↔ x ∈ used p ∨ x = m) ∨
  (∃ p', allocate pop p = (Raise FlowControlError, p') ∧ pool_ok p' ∧ (∀ x, x ∈ used p' ↔ x ∈ used p) ∧
         ∀ m, 1 ≤ m ≤ 65535 → m ∈ used p).
Proof using Hpop.
  intros Hok. unfold allocate. pose proof Hok as [Hn Hh Ho Hm Hc Hr Hs].
  destruct (_free_one p =? 0) eqn:E0; simpl negb; cbv iota; bools.
  2:{ left. destruct (drop_one_hole p Hok E0) as (? & ? & ? & ?). eexists _, _. split; [reflexivity |]. split_and!; try done; lia. }
  destruct (_free_many p) as [free|] eqn:Hf.
  { rewrite decide_False by congruence. left.
    destruct (drop_many_hole p free (pop free) Hok Hf ltac:(apply Hpop; congruence)) as (? & ? & ? & ?).
    eexists _, _. split; [reflexivity |]. split_and!; try done; lia. }
  assert (holes p = ∅) as Hempty.
  { apply set_eq. intros x. rewrite holes_elem, Hf, E0. simpl. set_solver. }
  set (st := match _reserved p with Some _ => _ | None => _ end).
  assert (∃ m p1, st = (m, p1) ∧ pool_ok p1 ∧ (∀ x, x ∈ used p1 ↔ x ∈ used p) ∧ _next p1 = m ∧ m ∉ opt_set (_reserved p1) ∧
          holes p1 = ∅ ∧ _free_count p1 = _free_count p ∧ _free_one p1 = _free_one p ∧ _free_many p1 = None)
    as (m & p1 & -> & Hok1 & Hu1 & Hm1 & Hni & Hh1 & Hfc & Hfo & Hfm).
  { unfold st. destruct (_reserved p) as [R|] eqn:HR.
    - destruct (absorb (size R) (_next p) R) as [m' R'] eqn:Ha. destruct (absorb_ok p R m' R' Hok HR Ha) as (? & ? & ? & ?).
      eexists _, _. split; [reflexivity |]. rewrite Hf in *. split_and!; try done; [simpl; by rewrite opt_set_keep |].
      apply set_eq. intros x. rewrite holes_elem. simpl. rewrite E0. set_solver.
    - eexists _, _. split; [reflexivity |]. rewrite HR. done. }
  rewrite Z.gtb_ltb. unfold _MAX_ID. destruct (65535 <? m) eqn:Em; bools.
  - right. eexists. split; [reflexivity |]. split_and!; try done. intros x Hx. rewrite <- Hu1, used_elem, Hh1, Hm1. left. set_solver by lia.
  - left. eexists _, _. split; [reflexivity |].
    assert (1 ≤ m) by (destruct Hok1; lia). split_and!; try lia.
    + destruct Hok1 as [? Hh' Ho' ? Hc' Hr' ?]. constructor; simpl; try done; [lia | |].
      * intros x Hx. assert (x ∈ holes p1) as Hx' by done. apply Hh' in Hx'. lia.
      * intros x Hx. assert (x ≠ m) by congruence. apply Hr' in Hx. lia.
    + rewrite <- Hu1, used_elem. intros [[? _]|?]; [lia | done].
    + intros x. rewrite <- Hu1, !used_elem. simpl. change (holes (mkPool _ _ _ _ _)) with (holes p1). rewrite Hh1, Hm1.
      destruct (decide (x = m)); set_solver by lia.
Qed.
End allocation.

Lemma reserve_spec p m :
  pool_ok p → 1 ≤ m ≤ 65535 →
  ∃ p', reserve p m = Ok p' ∧ pool_ok p' ∧ ∀ x, x ∈ used p' ↔ x ∈ used p ∨ x = m.
Proof.
  intros Hok Hm. unfold reserve, _MAX_ID. rewrite Z.gtb_ltb, (proj2 (Z.ltb_ge m 1)), (proj2 (Z.ltb_ge 65535 m)) by lia. cbn [orb].
  pose proof Hok as [Hn Hh Ho Hmany Hc Hr Hs].
  assert (Hnoop : m ∈ used p → ∃ p', Ok p = Ok p' ∧ pool_ok p' ∧ ∀ x, x ∈ used p' ↔ x ∈ used p ∨ x = m).
  { intros Hin. exists p. split_and!; try done. intros x. split; [by left | by intros [?| ->]]. }
  destruct (m <? _next p) eqn:E; bools.
  { destruct (_free_one p =? m) eqn:E1; bools.
    - subst m. destruct (drop_one_hole p Hok ltac:(lia)) as (? & ? & _). eexists; split_and!; done.
    - destruct (_free_many p) as [free|] eqn:Hf; [case_decide |].
      + destruct (drop_many_hole p free m Hok Hf ltac:(done)) as (? & ? & _). eexists; split_and!; done.
      + apply Hnoop. rewrite used_elem, holes_elem, Hf. left. split; [lia |]. intros [[_ ?]|?]; [congruence | done].
      + apply Hnoop. rewrite used_elem, holes_elem, Hf. left. split; [lia |]. intros [[_ ?]|?]; [congruence | set_solver]. }
  destruct (m =? _next p) eqn:E1; bools.
  - subst m. set (R0 := opt_set (_reserved p) ∖ {[_next p]}).
    set (p0 := mkPool (_free_count p) (_free_one p) (_free_many p) (keep R0) (_next p + 1)).
    assert (pool_ok p0) as Hok0.
    { constructor; simpl; try done; [lia | | |].
      - intros x Hx. assert (x ∈ holes p) as Hx' by done. apply Hh in Hx'. lia.
      - rewrite opt_set_keep. unfold R0. intros x [Hx Hne]%elem_of_difference. apply Hr in Hx. set_solver by lia.
      - apply keep_some. }
    assert (Hu0 : ∀ x, x ∈ used p0 ↔ x ∈ used p ∨ x = _next p).
    { intros x. rewrite !used_elem. unfold p0; simpl. change (holes (mkPool _ _ _ _ _)) with (holes p). rewrite opt_set_keep.
      unfold R0. rewrite elem_of_difference, elem_of_singleton. specialize (Hh x). specialize (Hr x).
      destruct (decide (x = _next p)); naive_solver lia. }
    destruct (_reserved p) as [R|] eqn:HR; simpl in R0.
    + fold R0. destruct (absorb (size R0) (_next p + 1) R0) as [m' R'] eqn:Ha. eexists; split; [reflexivity |].
      destruct (decide (R0 = ∅)) as [HR0|HR0].
      * assert (m' = _next p + 1 ∧ R' = ∅) as [-> ->].
        { rewrite HR0, size_empty in Ha. simpl in Ha. by simplify_eq. }
        unfold p0 in *. rewrite HR0 in *. done.
      * assert (_reserved p0 = Some R0) as HR0' by (unfold p0; simpl; unfold keep; by rewrite decide_False).
        destruct (absorb_ok p0 R0 m' R' Hok0 HR0' Ha) as (? & Hu & _). split; [done |]. intros x.
        etransitivity; [apply Hu | apply Hu0].
    + eexists; split; [reflexivity |]. assert (R0 = ∅) as HR0 by (unfold R0; set_solver). unfold p0 in *. rewrite HR0 in *. done.
  - eexists; split; [reflexivity |]. set (R1 := match _reserved p with None => {[m]} | Some r => r ∪ {[m]} end).
    assert (HR1 : ∀ x, x ∈ R1 ↔ x ∈ opt_set (_reserved p) ∨ x = m) by (intros x; unfold R1; destruct (_reserved p); set_solver).
    split.
    + constructor; simpl; try done.
      * intros x [?%Hr| ->]%HR1; lia.
      * intros [= HR]. assert (m ∈ R1) as Hin by (apply HR1; by right). rewrite HR in Hin. set_solver.
    + intros x. rewrite !used_elem. simpl. rewrite HR1. change (holes (mkPool _ _ _ _ _)) with (holes p). tauto.
Qed.

Lemma pool_init_ok : pool_ok pool_init ∧ used pool_init = ∅.
Proof.
  assert (holes pool_init = ∅) as Hh by (apply set_eq; intros; rewrite holes_elem; simpl; set_solver).
  split; [| apply set_eq; intros; rewrite used_elem; simpl; set_solver by lia].
  constructor; try done.
Qed.

(** Releasing an identifier adds a hole. *)
Lemma add_hole p m :
  pool_ok p → 1 ≤ m < _next p → m ∉ holes p →
  let p1 :=
    if _free_one p =? 0 then mkPool (_free_count p) m (_free_many p) (_reserved p) (_next p)
    else mkPool (_free_count p) (_free_one p)
           (Some (match _free_many p with None => {[m]} | Some f => f ∪ {[m]} end)) (_reserved p) (_next p) in
  let p2 := mkPool (_free_count p1 + 1) (_free_one p1) (_free_many p1) (_reserved p1) (_next p1) in
  pool_ok p2 ∧ (∀ x, x ∈ used p2 ↔ x ∈ used p ∧ x ≠ m) ∧ _next p2 = _next p ∧ _reserved p2 = _reserved p ∧
  _free_count p2 = _free_count p + 1.
Proof.
  intros Hok Hm Hno p1 p2. pose proof Hok as [Hn Hh Ho Hmany Hc Hr Hs].
  assert (Hh' : ∀ x, x ∈ holes p2 ↔ x ∈ holes p ∨ x = m).
  { intros x. rewrite !holes_elem. unfold p2, p1. destruct (_free_one p =? 0) eqn:E; bools; simpl.
    - rewrite E. naive_solver lia.
    - destruct (_free_many p); set_solver. }
  assert (_next p2 = _next p ∧ _reserved p2 = _reserved p ∧ _free_count p2 = _free_count p + 1) as (Hn2 & Hr2 & Hc2)
    by (unfold p2, p1; by destruct (_free_one p =? 0)).
  assert (holes p2 = holes p ∪ {[m]}) as Heq by (apply set_eq; intros; rewrite Hh'; set_solver).
  split_and!; try done.
  - constructor; rewrite ?Hn2, ?Hr2; try done.
    + intros x [?%Hh| ->]%Hh'; lia.
    + rewrite holes_elem in Hno. unfold p2, p1. destruct (_free_one p =? 0) eqn:E; bools; simpl; [tauto |].
      destruct (_free_many p); set_solver.
    + unfold p2, p1. destruct (_free_one p =? 0); simpl; [done |]. destruct (_free_many p); intros [= H]; set_solver.
    + rewrite Hc2, Hc, Heq, size_union, size_singleton by set_solver. lia.
  - intros x. rewrite !used_elem, Hn2, Hr2, Hh'. split.
    + intros [[? ?]|Hx]; [naive_solver |]. split; [tauto |]. intros ->. apply Hr in Hx. lia.
    + naive_solver.
Qed.

(** When every identifier below the frontier is a hole, nothing is in use. *)
Lemma clear_used p :
  pool_ok p → _free_count p = _next p - 1 → _reserved p = None → used p = ∅.
Proof.
  intros Hok Hf HR. pose proof (pool_len_used p Hok) as Hl. unfold pool_len in Hl. rewrite HR in Hl. simpl in Hl.
  apply leibniz_equiv, size_empty_inv. lia.
Qed.

Lemma release_spec p m :
  pool_ok p → pool_ok (release p m) ∧ ∀ x, x ∈ used (release p m) ↔ x ∈ used p ∧ x ≠ m.
Proof.
  intros Hok. unfold release, _MAX_ID. rewrite Z.gtb_ltb. pose proof Hok as [Hn Hh Ho Hmany Hc Hr Hs].
  assert (Hnoop : m ∉ used p → pool_ok p ∧ ∀ x, x ∈ used p ↔ x ∈ used p ∧ x ≠ m).
  { intros Hno. split; [done |]. intros x. split; [intros; split; [done | congruence] | tauto]. }
  destruct pool_init_ok as [Hok0 Hu0].
  destruct ((m <? 1) || (65535 <? m)) eqn:E.
  { apply Hnoop. intros Hin%used_range; [| done]. apply orb_true_iff in E as [E|E]; bools; lia. }
  bools. destruct (m <? _next p) eqn:E1; bools.
  - destruct (decide (m ∈ holes p)) as [Hin|Hno].
    + assert (m ∉ used p) by (rewrite used_elem; intros [[_ ?]|?%Hr]; [done | lia]).
      destruct (_free_one p =? m) eqn:E2; [by apply Hnoop |]. bools. apply holes_elem in Hin as [[_ ->]|Hin]; [done |].
      rewrite (proj2 (in_opt_spec m _)) by done. by apply Hnoop.
    + rewrite holes_elem in Hno. destruct (_free_one p =? m) eqn:E2; [bools; exfalso; apply Hno; left; split; lia |].
      destruct (in_opt m (_free_many p)) eqn:E3; [apply in_opt_spec in E3; tauto |]. rewrite <- holes_elem in Hno.
      destruct (add_hole p m Hok ltac:(lia) Hno) as (Hok2 & Hu2 & Hn2 & Hr2 & Hc2). cbv zeta. set (p2 := mkPool _ _ _ _ _) in *.
      change (_free_count (if _free_one p =? 0 then _ else _) + 1) with (_free_count p2).
      destruct ((_free_count p2 =? _next p - 1) && bool_decide (_reserved p2 = None)) eqn:Eb; [| done].
      apply andb_prop in Eb as [Eb1 Eb2]. apply Z.eqb_eq in Eb1. apply bool_decide_eq_true in Eb2.
      unfold pool_clear. split; [done |]. intros x.
      rewrite <- Hu2, (clear_used p2 Hok2); [by rewrite Hu0 | | done]. congruence.
  - destruct (_reserved p) as [R|] eqn:HR.
    2:{ apply Hnoop. rewrite used_elem, HR. simpl. intros [[? _]|?]; [lia | set_solver]. }
    case_decide as Hin; [| apply Hnoop; rewrite used_elem, HR; simpl; intros [[? _]|?]; [lia | done]].
    set (p1 := mkPool (_free_count p) (_free_one p) (_free_many p) (keep (R ∖ {[m]})) (_next p)).
    assert (pool_ok p1) as Hok1.
    { constructor; simpl; try done; [| apply keep_some]. rewrite opt_set_keep. intros x Hx. apply Hr. set_solver. }
    assert (Hu1 : ∀ x, x ∈ used p1 ↔ x ∈ used p ∧ x ≠ m).
    { intros x. rewrite !used_elem, HR. simpl. change (holes p1) with (holes p). rewrite opt_set_keep.
      rewrite elem_of_difference, elem_of_singleton. destruct (decide (x = m)); naive_solver lia. }
    unfold keep in p1. destruct (decide (R ∖ {[m]} = ∅)) as [HR0|HR0]; simpl.
    + destruct (_free_count p =? _next p - 1) eqn:Ec; [| done]. bools. unfold pool_clear. split; [done |]. intros x.
      rewrite <- Hu1, (clear_used p1 Hok1 Ec eq_refl). by rewrite Hu0.
    + done.
Qed.

(** ** The pool refines a set *)

Inductive pool_op := Allocate | Reserve (m : Z) | Release (m : Z) | Clear.

(** One client operation and the identifier it hands out. *)
Definition pool_step (pop : gset Z → Z) (p : PacketIdPool) (op : pool_op) : PacketIdPool * option (res Z) :=
  match op with
  | Allocate => let '(r, p) := allocate pop p in (p, Some r)
  | Reserve m => (match reserve p m with Ok p' => p' | Raise _ => p end, None)
  | Release m => (release p m, None)
  | Clear => (pool_clear p, None)
  end.

(** C7: the packet-identifier pool is a set of identifiers.  Starting empty and
    after any sequence of allocations, reservations, releases and clears, with
    any choice made by [set.pop], the compact frontier-and-holes representation
    stays consistent: [in_use] is membership, [len] the number of identifiers in
    use, and each step changes the set as named; an allocation hands out a fresh
    identifier in 1..65535 and raises [FlowControlError] only when all are used. *)
Theorem pool_refines_set pop ops op :
  (∀ s, s ≠ ∅ → pop s ∈ s) →
  let p := foldl (λ p op, (pool_step pop p op).1) pool_init ops in
  let '(p', out) := pool_step pop p op in
  pool_ok p' ∧ pool_len p = Z.of_nat (size (used p)) ∧ (∀ m, in_use p m = true ↔ m ∈ used p) ∧
  match op with
  | Allocate =>
      match out with
      | Some (Ok m) => 1 ≤ m ≤ 65535 ∧ m ∉ used p ∧ used p' = used p ∪ {[m]}
      | Some (Raise e) => e = FlowControlError ∧ used p' = used p ∧ ∀ m, 1 ≤ m ≤ 65535 → m ∈ used p
      | None => False
      end
  | Reserve m => used p' = if decide (1 ≤ m ≤ 65535) then used p ∪ {[m]} else used p
  | Release m => used p' = used p ∖ {[m]}
  | Clear => used p' = ∅
  end.
Proof.
  intros Hpop. assert (Hstep : ∀ p op, pool_ok p → pool_ok (pool_step pop p op).1).
  { intros p [|m|m|] Hok; simpl.
    - destruct (allocate_spec pop Hpop p Hok) as [(m & p' & -> & ? & _)|(p' & -> & ? & _)]; done.
    - destruct (decide (1 ≤ m ≤ 65535)) as [Hm|Hm].
      + destruct (reserve_spec p m Hok Hm) as (p' & -> & ? & _). done.
      + unfold reserve, _MAX_ID. rewrite Z.gtb_ltb. case_if; [done |]. bools. lia.
    - by apply release_spec.
    - by apply pool_init_ok. }
  intros p. assert (pool_ok p) as Hok.
  { unfold p. generalize (proj1 pool_init_ok). generalize pool_init. induction ops as [|o ops IH]; intros q Hq; simpl; auto. }
  pose proof (Hstep p op Hok) as Hok'. destruct (pool_step pop p op) as [p' out] eqn:Hs. simpl in Hok'.
  split_and!; [done | by apply pool_len_used | intros; by apply in_use_used |].
  destruct op as [|m|m|]; simpl in Hs.
  - destruct (allocate_spec pop Hpop p Hok) as [(m & p1 & Ha & _ & ? & ? & Hu)|(p1 & Ha & _ & Hu & Hall)];
      rewrite Ha in Hs; simplify_eq.
    + split_and!; try done; try lia. apply set_eq. intros x. rewrite Hu. set_solver.
    + split_and!; try done. apply set_eq. intros x. by rewrite Hu.
  - simplify_eq. case_decide as Hm.
    + destruct (reserve_spec p m Hok Hm) as (p1 & -> & _ & Hu). apply set_eq. intros x. rewrite Hu. set_solver.
    + unfold reserve, _MAX_ID. rewrite Z.gtb_ltb. case_if; [done |]. bools. lia.
  - simplify_eq. destruct (release_spec p m Hok) as [_ Hu]. apply set_eq. intros x. rewrite Hu. set_solver.
  - simplify_eq. apply pool_init_ok.
Qed.

(** A concrete [set.pop]: the first element in the set's own order. *)
Definition pop_first (s : gset Z) : Z := match elements s with x :: _ => x | [] => 0 end.

Lemma pop_first_in s : s ≠ ∅ → pop_first s ∈ s.
Proof.
  intros Hs. unfold pop_first. destruct (elements s) as [|x l] eqn:He.
  - exfalso. apply Hs. by apply leibniz_equiv, elements_empty_inv.
  - apply elem_of_elements. rewrite He. left.
Qed.

Lemma pool_refines_set_witness :
  let p := foldl (λ p op, (pool_step pop_first p op).1) pool_init [Allocate; Reserve 3; Allocate; Allocate; Release 2; Release 1] in
  let '(p', out) := pool_step pop_first p Allocate in
  pool_ok p' ∧ out = Some (Ok 2).
Proof.
  pose proof (pool_refines_set pop_first [Allocate; Reserve 3; Allocate; Allocate; Release 2; Release 1] Allocate pop_first_in) as H.
  cbv zeta in *. destruct (pool_step _ _ Allocate) as [p' out] eqn:Hs. split; [apply H |]. vm_compute in Hs. by simplify_eq.
Defined.

(** ** The send quota *)

Module FlowControl.

Record t := mkFlow { _limit : Z; _holders : gset Z }.

Definition init (limit : Z) : t := mkFlow (Z.max 1 limit) ∅.
Definition set_limit (f : t) (value : Z) : t := mkFlow (Z.max 1 value) (_holders f).
Definition inflight (f : t) : Z := Z.of_nat (size (_holders f)).
Definition available (f : t) : Z := Z.max 0 (_limit f - inflight f).
Definition holds (f : t) (mid : Z) : bool := bool_decide (mid ∈ _holders f).

Definition try_acquire (f : t) (mid : Z) : res bool * t :=
  let count := inflight f in
  if count >=? _limit f then (Ok false, f)
  else
    let f' := mkFlow (_limit f) (_holders f ∪ {[mid]}) in
    if inflight f' =? count then (Raise AssertionError, f') else (Ok true, f').

Definition release (f : t) (mid : Z) : bool * t :=
  if holds f mid then (true, mkFlow (_limit f) (_holders f ∖ {[mid]})) else (false, f).

Definition reset (f : t) : t := mkFlow (_limit f) ∅.

Definition apply_broker_receive_maximum (f : t) (receive_maximum : Z) (local_outbound : option Z) : t :=
  let limit := Z.max 1 receive_maximum in
  let limit := match local_outbound with Some l => Z.max 1 (Z.min limit l) | None => limit end in
  mkFlow limit (_holders f).

(** A slot is granted exactly when one is free, to an exchange without one. *)
Lemma try_acquire_spec f mid :
  mid ∉ _holders f →
  try_acquire f mid =
    if decide (0 < available f) then (Ok true, mkFlow (_limit f) (_holders f ∪ {[mid]})) else (Ok false, f).
Proof.
  intros Hno. unfold try_acquire, available. rewrite Z.geb_leb. pose proof (Nat2Z.is_nonneg (size (_holders f))).
  unfold inflight in *. case_decide; destruct (_limit f <=? _) eqn:E; bools; try lia; [| done].
  rewrite (proj2 (Z.eqb_neq _ _)); [done |]. simpl. rewrite size_union, size_singleton by set_solver. lia.
Qed.

(** Releasing frees the slot the exchange owns and no other. *)
Lemma release_holders f mid :
  _holders (release f mid).2 = _holders f ∖ {[mid]} ∧ (release f mid).1 = holds f mid ∧ _limit (release f mid).2 = _limit f.
Proof.
  unfold release, holds. case_bool_decide; simpl; [done |]. split_and!; try done. set_solver.
Qed.

(** Acquiring keeps the window within its limit. *)
Lemma try_acquire_bound f mid :
  inflight f ≤ _limit f → mid ∉ _holders f → inflight (try_acquire f mid).2 ≤ _limit (try_acquire f mid).2.
Proof.
  intros Hb Hno. rewrite try_acquire_spec by done. unfold available. case_decide; simpl; [| done].
  unfold inflight in *. simpl. rewrite size_union, size_singleton by set_solver. lia.
Qed.

End FlowControl.
