(* ===== verification/Reconnect.v ===== *)
(** * Reconnection policy ([src/mqttium/protocol/reconnect.py])

    Delays are finite doubles (an [int] below 2^53 is one), hence rational
    numbers.  Python's rounded product is the parameter [fmul] (a product that
    overflows to infinity is any rational above every delay), and
    [random.uniform(0.5, 1.0)] is an argument of each call. *)

From Stdlib Require Import QArith Qminmax.
From S2P Require Import Prelude Enums.
Open Scope Z_scope.

Definition _V311_TERMINAL : list Z := [1; 2; 4; 5].
Definition _V5_TERMINAL : list Z :=
  [0x81; 0x82; 0x84; 0x85; 0x86; 0x87; 0x8A; 0x8C; 0x8E; 0x90; 0x95; 0x99; 0x9A; 0x9B; 0x9C; 0x9D].

Record ReconnectPolicy := {
  initial_delay : Q;
  multiplier : Q;
  max_delay : Q;
  max_retries : option Z;
  stable_after : Q;
  retry_refused : bool }.

Definition qlt (a b : Q) : bool := negb (Qle_bool b a).

(** [__post_init__] on finite values. *)
Definition ReconnectPolicy_check (p : ReconnectPolicy) : res unit :=
  raise! ValueError when qlt (initial_delay p) 0;
  raise! ValueError when qlt (multiplier p) 1;
  raise! ValueError when qlt (max_delay p) (initial_delay p);
  raise! ValueError when match max_retries p with Some n => n <? 0 | None => false end;
  raise! ValueError when qlt (stable_after p) 0;
  Ok tt.

Record _ReconnectState := mkRS { policy : option ReconnectPolicy; _attempt : Z; _current_delay : Q }.

Definition ReconnectState_init (policy : option ReconnectPolicy) : _ReconnectState :=
  mkRS policy 0 match policy with Some p => initial_delay p | None => 0%Q end.

Definition enabled (s : _ReconnectState) : bool := match policy s with Some _ => true | None => false end.

Definition reset (s : _ReconnectState) : _ReconnectState :=
  mkRS (policy s) 0 match policy s with Some p => initial_delay p | None => 0%Q end.

(** [min(a, b)] of Python: the first argument unless the second is smaller. *)
Definition py_min (a b : Q) : Q := if qlt b a then b else a.

Definition should_retry (s : _ReconnectState) (reason_code : option Z) (protocol : MQTTProtocolVersion)
    (refused : bool) : bool :=
  match policy s with
  | None => false
  | Some p =>
      if match max_retries p with Some n => _attempt s >=? n | None => false end then false
      else
        match reason_code with
        | None => true
        | Some rc =>
            if refused && retry_refused p then true
            else
              match protocol with
              | MQTTv5 => if zin rc _V5_TERMINAL then false else true
              | MQTTv311 => negb (zin rc _V311_TERMINAL)
              end
        end
  end.

Definition is_terminal_connack (reason_code : Z) (protocol : MQTTProtocolVersion) : bool :=
  match protocol with
  | MQTTv5 => zin reason_code _V5_TERMINAL
  | MQTTv311 => zin reason_code _V311_TERMINAL
  end.

Section delays.
Context (fmul : Q → Q → Q).

Definition next_delay (s : _ReconnectState) (uniform : Q) : res (Q * _ReconnectState) :=
  match policy s with
  | None => Raise AssertionError
  | Some p =>
      let base := py_min (_current_delay s) (max_delay p) in
      let delay := fmul uniform base in
      let current := py_min (fmul (_current_delay s) (multiplier p)) (max_delay p) in
      Ok (delay, mkRS (policy s) (_attempt s + 1) current)
  end.

(** A run of consecutive retries: each is allowed by [should_retry] without a
    broker reason, then waits [next_delay]. *)
Fixpoint retries (s : _ReconnectState) (uniforms : list Q) : res (list Q * _ReconnectState) :=
  match uniforms with
  | [] => Ok ([], s)
  | u :: us =>
      if should_retry s None MQTTv5 false then
        let! '(d, s) := next_delay s u in
        let! '(ds, s) := retries s us in
        Ok (d :: ds, s)
      else Ok ([], s)
  end.

(** The smallest normal double is [tiny / 2]. *)
Definition tiny : Q := 1 # (2 ^ 1021).

(** What rounding to the nearest double guarantees of a product: scaling by a
    factor of at most (at least) one does not increase (decrease) the value, and
    half of a normal number is exact. *)
Hypothesis fmul_shrinks : ∀ u x, (0 <= u)%Q → (u <= 1)%Q → (0 <= x)%Q → (fmul u x <= x)%Q.
Hypothesis fmul_grows : ∀ x m, (0 <= x)%Q → (1 <= m)%Q → (x <= fmul x m)%Q.
Hypothesis fmul_half : ∀ u x, (1 # 2 <= u)%Q → (tiny <= x)%Q → (x * (1 # 2) <= fmul u x)%Q.

Lemma qlt_spec a b : qlt a b = true ↔ (a < b)%Q.
Proof using.
  unfold qlt. rewrite negb_true_iff, <- not_true_iff_false, Qle_bool_iff.
  split; [apply Qnot_le_lt | apply Qlt_not_le].
Qed.

Lemma qlt_false a b : qlt a b = false ↔ (b <= a)%Q.
Proof using. unfold qlt. by rewrite negb_false_iff, Qle_bool_iff. Qed.

Lemma py_min_spec a b : (py_min a b <= a)%Q ∧ (py_min a b <= b)%Q ∧ (py_min a b = a ∨ py_min a b = b).
Proof using.
  unfold py_min. destruct (qlt b a) eqn:E.
  - apply qlt_spec in E. split_and!; [by apply Qlt_le_weak | apply Qle_refl | auto].
  - apply qlt_false in E. split_and!; [apply Qle_refl | done | auto].
Qed.

Lemma py_min_glb a b c : (c <= a)%Q → (c <= b)%Q → (c <= py_min a b)%Q.
Proof using. intros. by destruct (py_min_spec a b) as (_ & _ & [-> | ->]). Qed.

(** The retry progression keeps its current delay between the initial and the
    maximum one. *)
Definition rs_ok (s : _ReconnectState) : Prop :=
  0 ≤ _attempt s ∧
  ∀ p, policy s = Some p →
    (0 <= initial_delay p)%Q ∧ (1 <= multiplier p)%Q ∧
    (initial_delay p <= _current_delay s)%Q ∧ (_current_delay s <= max_delay p)%Q.

Lemma check_inv p :
  ReconnectPolicy_check p = Ok tt →
  (0 <= initial_delay p)%Q ∧ (1 <= multiplier p)%Q ∧ (initial_delay p <= max_delay p)%Q ∧
  (∀ n, max_retries p = Some n → 0 ≤ n).
Proof using.
  unfold ReconnectPolicy_check. intros H. res_inv.
  split_and!; try by apply qlt_false. intros n Hn. rewrite Hn in *. bools. done.
Qed.

Lemma init_ok p : ReconnectPolicy_check p = Ok tt → rs_ok (ReconnectState_init (Some p)).
Proof using.
  intros (?&?&?&_)%check_inv. split; [done |]. intros ? [= <-]. split_and!; done || apply Qle_refl.
Qed.

Lemma next_delay_ok s u :
  rs_ok s → (1 # 2 <= u)%Q → (u <= 1)%Q → ∀ p, policy s = Some p →
  ∃ d s', next_delay s u = Ok (d, s') ∧ rs_ok s' ∧ policy s' = policy s ∧ _attempt s' = _attempt s + 1 ∧
    (_current_delay s <= _current_delay s')%Q ∧
    (tiny <= _current_delay s → _current_delay s * (1 # 2) <= d)%Q ∧ (d <= _current_delay s)%Q.
Proof using fmul_shrinks fmul_grows fmul_half.
  intros [Ha Hs] Hu1 Hu2 p Hp. destruct (Hs p Hp) as (H1 & H2 & H3 & H4).
  assert (0 <= _current_delay s)%Q as H0 by (eapply Qle_trans; eassumption).
  assert (py_min (_current_delay s) (max_delay p) = _current_delay s) as Hmin.
  { unfold py_min. by rewrite (proj2 (qlt_false _ _)). }
  unfold next_delay. rewrite Hp, Hmin. do 2 eexists. split; [reflexivity |]. simpl.
  assert (_current_delay s <= py_min (fmul (_current_delay s) (multiplier p)) (max_delay p))%Q as Hg.
  { apply py_min_glb; [by apply fmul_grows | done]. }
  split_and!; try done; try lia.
  - split; [simpl; lia |]. intros p' [= <-]. simpl. split_and!; try done.
    + by eapply Qle_trans.
    + apply (py_min_spec _ (max_delay p)).
  - intros. by apply fmul_half.
  - apply fmul_shrinks; [| done..]. eapply Qle_trans; [| exact Hu1]. by compute.
Qed.

Lemma retries_ok us : ∀ s p,
  rs_ok s → policy s = Some p → Forall (λ u, (1 # 2 <= u)%Q ∧ (u <= 1)%Q) us →
  ∃ ds s', retries s us = Ok (ds, s') ∧
    Forall (λ d, (tiny <= initial_delay p → initial_delay p * (1 # 2) <= d)%Q ∧ (d <= max_delay p)%Q) ds ∧
    _attempt s' = _attempt s + len ds ∧ len ds ≤ len us ∧
    (∀ n, max_retries p = Some n → _attempt s ≤ n → _attempt s' ≤ n).
Proof using fmul_shrinks fmul_grows fmul_half.
  induction us as [| u us IH]; intros s p Hs Hp Hus.
  { do 2 eexists. split; [done |]. split_and!; [done | len_lia..]. }
  cbn [retries]. apply Forall_cons in Hus as [[Hu1 Hu2] Hus].
  destruct (should_retry s None MQTTv5 false) eqn:Hr.
  2:{ do 2 eexists. split; [done |]. split_and!; [done | len_lia..]. }
  destruct (next_delay_ok s u Hs Hu1 Hu2 p Hp) as (d & s1 & -> & Hs1 & Hp1 & Ha1 & _ & Hd1 & Hd2).
  cbn [rbind]. destruct (IH s1 p) as (ds & s2 & -> & Hds & Ha & Hl & Hm); [done | congruence | done |].
  cbn [rbind]. do 2 eexists. split; [done |].
  destruct Hs as [_ Hs]. destruct (Hs p Hp) as (H1 & H2 & H3 & H4). split_and!.
  - constructor; [| done]. split.
    + intros Ht. eapply Qle_trans; [| apply Hd1; by eapply Qle_trans]. apply Qmult_le_compat_r; [done | by compute].
    + by eapply Qle_trans.
  - len_lia.
  - len_lia.
  - intros n Hn Hle. apply (Hm n Hn). unfold should_retry in Hr. rewrite Hp, Hn in Hr.
    destruct (_attempt s >=? n) eqn:E; [done |]. lia.
Qed.

End delays.

(** Reconnection backs off within bounds.  For every accepted policy, a run
    of retries waits at least half the initial delay (when that is a normal
    double) and at most the maximum delay each time, counts each retry, and never makes more than
    [max_retries] of them. *)
Theorem backoff_bounded fmul p us :
  (∀ u x, (0 <= u)%Q → (u <= 1)%Q → (0 <= x)%Q → (fmul u x <= x)%Q) →
  (∀ x m, (0 <= x)%Q → (1 <= m)%Q → (x <= fmul x m)%Q) →
  (∀ u x, (1 # 2 <= u)%Q → (tiny <= x)%Q → (x * (1 # 2) <= fmul u x)%Q) →
  ReconnectPolicy_check p = Ok tt → Forall (λ u, (1 # 2 <= u)%Q ∧ (u <= 1)%Q) us →
  ∃ ds s, retries fmul (ReconnectState_init (Some p)) us = Ok (ds, s) ∧
    Forall (λ d, (tiny <= initial_delay p → initial_delay p * (1 # 2) <= d)%Q ∧ (d <= max_delay p)%Q) ds ∧
    _attempt s = len ds ∧ (∀ n, max_retries p = Some n → len ds ≤ n).
Proof.
  intros H1 H2 H3 Hp Hus.
  destruct (retries_ok fmul H1 H2 H3 us (ReconnectState_init (Some p)) p) as (ds & s & Hr & Hds & Ha & _ & Hm);
    [by apply init_ok | done | done |].
  exists ds, s. split_and!; [done..| |].
  - simpl in Ha. lia.
  - intros n Hn. specialize (Hm n Hn). simpl in Ha, Hm. apply check_inv in Hp as (_ & _ & _ & Hp).
    specialize (Hp n Hn). lia.
Qed.

Lemma backoff_bounded_witness :
  ∃ ds s, retries Qmult (ReconnectState_init (Some
      {| initial_delay := 1; multiplier := 2; max_delay := 3; max_retries := Some 2;
         stable_after := 30; retry_refused := false |})) [1 # 2; 1 # 1; 1 # 1]%Q = Ok (ds, s) ∧ len ds = 2.
Proof.
  set (p := {| initial_delay := 1; multiplier := 2; max_delay := 3; max_retries := Some 2;
         stable_after := 30; retry_refused := false |}).
  destruct (backoff_bounded Qmult p [1 # 2; 1 # 1; 1 # 1]%Q) as (ds & s & Hr & _ & _ & _).
  - intros u x _ Hu Hx. rewrite <- (Qmult_1_l x) at 2. by apply Qmult_le_compat_r.
  - intros x m Hx Hm. rewrite <- (Qmult_1_l x) at 1. rewrite (Qmult_comm x m). by apply Qmult_le_compat_r.
  - intros u x Hu Hx. rewrite Qmult_comm. apply Qmult_le_compat_r; [done |]. by apply (Qle_trans _ tiny).
  - vm_compute. done.
  - repeat constructor; by vm_compute.
  - exists ds, s. split; [done |]. vm_compute in Hr. injection Hr as <- _. done.
Defined.

(** What may be retried.  A client with a policy and retries left retries
    after a broker reason exactly when the reason is not terminal for its
    protocol version, or is a CONNACK refusal the policy covers; without a
    reason (a lost connection) it always does, and without a policy never. *)
Theorem should_retry_iff s rc protocol refused :
  (∀ p n, policy s = Some p → max_retries p = Some n → _attempt s < n) →
  should_retry s rc protocol refused = true ↔
  ∃ p, policy s = Some p ∧
    match rc with
    | None => True
    | Some rc => is_terminal_connack rc protocol = false ∨ (refused = true ∧ retry_refused p = true)
    end.
Proof.
  intros Hleft. unfold should_retry, is_terminal_connack. destruct (policy s) as [p |] eqn:Hp.
  2:{ split; [done | by intros (? & ? & _)]. }
  assert (match max_retries p with Some n => _attempt s >=? n | None => false end = false) as ->.
  { destruct (max_retries p) as [n |] eqn:Hn; [| done]. specialize (Hleft p n eq_refl Hn).
    rewrite Z.geb_leb. by apply Z.leb_gt. }
  split.
  - intros H. exists p. split; [done |]. destruct rc as [rc |]; [| done].
    destruct (refused && retry_refused p) eqn:Hc; [bools; by right |]. left.
    destruct protocol; by destruct (zin rc _).
  - intros (p' & [= <-] & H). destruct rc as [rc |]; [| done].
    destruct H as [H | [-> ->]]; [| done]. case_if; [done |]. destruct protocol; by rewrite H.
Qed.

Lemma should_retry_iff_witness :
  should_retry (ReconnectState_init (Some
      {| initial_delay := 1; multiplier := 2; max_delay := 60; max_retries := Some 3;
         stable_after := 30; retry_refused := false |})) (Some 0x88) MQTTv5 true = true.
Proof.
  apply should_retry_iff.
  - intros p n [= <-] [= <-]. simpl. lia.
  - eexists. split; [done |]. left. vm_compute. done.
Defined.
