(* ===== verification/Settings.v ===== *)
(** * Engine configuration and negotiated settings
    ([src/mqttium/protocol/config.py], [src/mqttium/protocol/negotiated.py]) *)

From S2P Require Import Prelude Vbi PyStr Primitives Enums Properties Types Frame Ack Handshake.

(** ** Configuration *)

Record EngineConfig := {
  client_id : pystr;
  protocol : MQTTProtocolVersion;
  clean_start : bool;
  keepalive : Z;
  username : option pystr;
  password : option bytes;
  max_inbound_inflight : Z;
  max_inbound_inflight_bytes : option Z;
  max_outbound_inflight : option Z;
  max_unacknowledged_messages : option Z;
  max_unacknowledged_bytes : option Z;
  connect_properties : option propmap;
  will : option Message;
  will_properties : option propmap;
  maximum_packet_size : option Z;
  topic_alias_maximum : Z;
  manual_ack : bool;
  accept_auth : bool }.

Definition outside (lo hi v : Z) : bool := negb ((lo <=? v) && (v <=? hi)).
Definition opt_test (p : Z → bool) (o : option Z) : bool := match o with Some v => p v | None => false end.

Definition _validate_bounds (c : EngineConfig) : res unit :=
  raise! ValueError when outside 1 65535 (max_inbound_inflight c);
  raise! ValueError when opt_test (outside 1 65535) (max_outbound_inflight c);
  raise! ValueError when opt_test (λ v, v <? 0) (max_unacknowledged_messages c);
  raise! ValueError when opt_test (λ v, v <? 0) (max_unacknowledged_bytes c);
  raise! ValueError when opt_test (λ v, v <? 0) (max_inbound_inflight_bytes c);
  raise! ValueError when opt_test (outside 2 268_435_460) (maximum_packet_size c);
  raise! ValueError when outside 0 65535 (topic_alias_maximum c);
  Ok tt.

Definition _refuse_mqtt5_options (c : EngineConfig) : res unit :=
  raise! ProtocolError when has_values (connect_properties c);
  raise! ProtocolError when has_values (will_properties c);
  raise! ProtocolError when negb (topic_alias_maximum c =? 0);
  raise! ProtocolError when accept_auth c;
  Ok tt.

Definition reserved_limits : list string :=
  ["receive_maximum"; "maximum_packet_size"; "topic_alias_maximum"]%string.

Definition EngineConfig_check (c : EngineConfig) : res unit :=
  raise! ValueError when outside 0 65535 (keepalive c);
  let! _ := _validate_bounds c in
  let! _ :=
    match protocol c with
    | MQTTv311 => _refuse_mqtt5_options c
    | MQTTv5 =>
        if has_values (will_properties c)
        then let! _ := encode_properties (will_properties c) cWILL in Ok tt
        else Ok tt
    end in
  match connect_properties c with
  | Some ps => raise! ProtocolError when existsb (λ k, dmem k ps) reserved_limits; Ok tt
  | None => Ok tt
  end.

(** ** Negotiated settings *)

Record NegotiatedSettings := mkNegotiated {
  n_receive_maximum : Z;
  n_maximum_packet_size : option Z;
  n_maximum_qos : Z;
  n_retain_available : bool;
  n_topic_alias_maximum : Z;
  n_server_keep_alive : option Z;
  n_assigned_client_identifier : option pystr;
  n_session_expiry_interval : option Z;
  n_wildcard_subscription_available : bool;
  n_shared_subscription_available : bool;
  n_subscription_identifier_available : bool;
  n_server_reference : option pystr;
  n_response_information : option pystr }.

(** [NegotiatedSettings()]: what an omitted property means. *)
Definition NegotiatedSettings_default : NegotiatedSettings :=
  mkNegotiated 65535 None 2 true 0 None None None true true true None None.

Definition dget_or (props : propmap) (name : string) (default : pyval) : pyval :=
  match dget name props with Some v => v | None => default end.

(** The CONNACK properties kept as they are: an integer or a text in every
    decoded table, [None] when absent. *)
Definition int_prop (v : option pyval) : option Z := match v with Some (VInt z) => Some z | _ => None end.
Definition text_prop (v : option pyval) : option pystr := match v with Some (VStr s) => Some s | _ => None end.

Definition _from_connack (properties : option propmap) (requested_session_expiry : option Z) :
    res NegotiatedSettings :=
  let props := match properties with Some ps => ps | None => [] end in
  let flag_prop name := py_bool (dget_or props name (VInt 1)) in
  let! receive_maximum := py_int (dget_or props "receive_maximum" (VInt 65535)) in
  let! maximum_qos := py_int (dget_or props "maximum_qos" (VInt 2)) in
  let! alias_maximum := py_int (dget_or props "topic_alias_maximum" (VInt 0)) in
  let! server_keep_alive :=
    match pget properties "server_keep_alive" with
    | Some v => let! z := py_int v in Ok (Some z)
    | None => Ok None
    end in
  Ok {| n_receive_maximum := receive_maximum;
        n_maximum_packet_size := int_prop (pget properties "maximum_packet_size");
        n_maximum_qos := maximum_qos;
        n_retain_available := flag_prop "retain_available"%string;
        n_topic_alias_maximum := alias_maximum;
        n_server_keep_alive := server_keep_alive;
        n_assigned_client_identifier :=
          match text_prop (pget properties "assigned_client_identifier") with Some [] => None | o => o end;
        n_session_expiry_interval :=
          (if dmem "session_expiry_interval"%string props
           then int_prop (pget properties "session_expiry_interval")
           else requested_session_expiry);
        n_wildcard_subscription_available := flag_prop "wildcard_subscription_available"%string;
        n_shared_subscription_available := flag_prop "shared_subscription_available"%string;
        n_subscription_identifier_available := flag_prop "subscription_identifier_available"%string;
        n_server_reference := text_prop (pget properties "server_reference");
        n_response_information := text_prop (pget properties "response_information") |}.

(** ** A decoded CONNACK negotiates values in range *)

(** What the rest of the engine relies on. *)
Record negotiated_ok (n : NegotiatedSettings) : Prop := {
  ok_receive_maximum : 1 ≤ n_receive_maximum n ≤ 65535;
  ok_packet_size : ∀ z, n_maximum_packet_size n = Some z → 1 ≤ z < 2 ^ 32;
  ok_qos : 0 ≤ n_maximum_qos n ≤ 2;
  ok_alias : 0 ≤ n_topic_alias_maximum n ≤ 65535;
  ok_keep_alive : ∀ z, n_server_keep_alive n = Some z → 0 ≤ z ≤ 65535;
  ok_client_id : n_assigned_client_identifier n ≠ Some [] }.

Lemma encode_body_entry c ps body name v :
  encode_body c ps = Ok body → dget name ps = Some v → ∃ d, encode_entry c name v = Ok d.
Proof.
  revert body. induction ps as [| [k w] ps IH]; intros body; simpl; [done |].
  intros H Hg. res_inv. case_decide; simplify_eq; eauto.
Qed.

Lemma encoded_entry c ps d name v :
  encode_properties (Some ps) c = Ok d → dget name ps = Some v → ∃ dv, encode_entry c name v = Ok dv.
Proof.
  unfold encode_properties. destruct ps as [| e ps]; [done |].
  unfold _encode_properties_uncached. intros H Hg. res_inv. by eapply encode_body_entry.
Qed.

Definition type_max (t : PropType) : option Z :=
  match t with BYTE => Some 255 | U16 => Some 65535 | U32 => Some 0xFFFFFFFF | _ => None end.

(** An integer property that encodes is an integer of its type's range, not
    zero and a bit where its specification says so. *)
Lemma int_entry c name s v d hi :
  BY_NAME name = Some s → p_multiple s = false → type_max (p_type s) = Some hi →
  encode_entry c name v = Ok d →
  ∃ z, v = VInt z ∧ 0 ≤ z ≤ hi ∧ (p_nonzero s = true → z ≠ 0) ∧ (p_zero_one s = true → z ≤ 1).
Proof.
  intros Hs Hm Ht H. unfold encode_entry, entry_values in H. rewrite Hs, Hm in H. res_inv.
  assert (v0 = [v]) as -> by (destruct v; by simplify_eq). simpl in H. res_inv.
  apply encode_item_inv in Hv0 as (b & _ & Hc & He).
  assert (∃ z, v = VInt z ∧ 0 ≤ z ≤ hi) as (z & -> & Hz).
  { destruct (p_type s); simpl in Ht; simplify_eq; destruct v; try done; simpl in He; res_inv; bools; eauto. }
  exists z. unfold check_item in Hc. simpl in Hc. res_inv. split_and!; try (done || lia).
  - intros Hn ->. by rewrite Hn in *.
  - intros Hz1. rewrite Hz1 in *. simpl in *. bools. lia.
Qed.

Lemma connack_int ps d name s hi v :
  encode_properties (Some ps) cCONNACK = Ok d → dget name ps = Some v →
  BY_NAME name = Some s → p_multiple s = false → type_max (p_type s) = Some hi →
  ∃ z, v = VInt z ∧ 0 ≤ z ≤ hi ∧ (p_nonzero s = true → z ≠ 0) ∧ (p_zero_one s = true → z ≤ 1).
Proof. intros He Hg. destruct (encoded_entry _ _ _ _ _ He Hg) as (dv & Hv). intros. by eapply int_entry. Qed.

(** Case analysis on an integer property of a decoded CONNACK table. *)
Ltac connack_case He name :=
  let v := fresh "v" in let E := fresh "E" in
  match type of He with encode_properties (Some ?ps) _ = _ =>
    destruct (dget name%string ps) as [v |] eqn:E;
    [ let z := fresh "z" in let H1 := fresh "Hr" in let H2 := fresh "Hn" in let H3 := fresh "Hb" in
      destruct (connack_int _ _ name%string _ _ _ He E eq_refl eq_refl eq_refl) as (z & -> & H1 & H2 & H3);
      simpl in H2, H3 | ] end.

Lemma from_connack_ok ps d requested :
  encode_properties (Some ps) cCONNACK = Ok d → ∃ n, _from_connack (Some ps) requested = Ok n ∧ negotiated_ok n.
Proof.
  intros He. unfold _from_connack, dget_or, pget.
  connack_case He "receive_maximum"; connack_case He "maximum_qos"; connack_case He "topic_alias_maximum";
    connack_case He "server_keep_alive"; connack_case He "maximum_packet_size";
    cbn [py_int rbind]; (eexists; split; [reflexivity |]); constructor; simpl; intros; simplify_eq; try lia;
    try (destruct (text_prop _) as [[] |]; done).
Qed.

(** Negotiation never meets a surprise.  Whatever bytes a broker sends, if
    they decode as a CONNACK then reading the negotiated settings succeeds, and
    the send quota, packet limit, QoS, alias and keep-alive values are in the
    ranges the engine relies on (a quota of at least one, no zero packet limit,
    no empty assigned identifier). *)
Theorem connack_negotiates b version p requested :
  bytes_ok b → connack_decode b version = Ok p →
  ∃ n, _from_connack (ca_properties p) requested = Ok n ∧ negotiated_ok n.
Proof.
  intros Hb H. unfold connack_decode in H. apply rbind_Ok_inv in H as ([[sp r] ps] & H & [= <-]). simpl.
  destruct version.
  - unfold decode_connack_v311 in H. res_inv. eexists. split; [reflexivity |].
    constructor; simpl; intros; simplify_eq; try lia; done.
  - unfold decode_connack_v5 in H. res_inv.
    match goal with Hd : decode_properties _ _ _ = Ok _ |- _ =>
      apply decode_properties_inv in Hd as (_ & _ & _ & d & He & _); [| done | lia] end.
    by apply (from_connack_ok _ d).
Qed.

Lemma connack_negotiates_witness :
  ∃ n, _from_connack (Some [("receive_maximum"%string, VInt 20); ("maximum_qos"%string, VInt 1)]) None = Ok n ∧
    negotiated_ok n.
Proof.
  apply (connack_negotiates [0; 0; 5; 0x21; 0; 20; 0x24; 1] MQTTv5
    {| ca_session_present := false; ca_reason_code := 0;
       ca_properties := Some [("receive_maximum"%string, VInt 20); ("maximum_qos"%string, VInt 1)] |}).
  - apply (bool_decide_unpack _). vm_compute. done.
  - vm_compute. done.
Defined.
