(* ===== verification/Store.v ===== *)
(** * The in-flight store ([src/mqttium/persistence/memory.py])

    [OutStore] is the outbound half of the [InflightStore] protocol and
    [OutStoreLaws] what it promises to the protocol sessions: a table of rows
    keyed by packet identifier, in insertion order, whose operations either do
    what they say or raise and change nothing.  [MemoryInflightStore] implements
    it with dictionaries of shared message objects; [with_faults] wraps any
    store into one whose calls fail on demand. *)

From S2P Require Import Prelude PyStr Enums Properties Types Handshake.

(** Message objects are mutable and shared between the store, the queues and
    the code that handles them: an object is a position of a heap. *)
Abbreviation loc := nat.
Record Heap := mkHeap { oh : list OutboundMessage; ih : list InboundMessage }.

(** Operations on the heap and the state of a store. *)
Definition sop (S A : Type) := Heap * S → res A * (Heap * S).

Class OutStore (S : Type) := {
  put_out : loc → sop S unit;
  get_out : Z → sop S (option loc);
  delete_out : Z → sop S bool;
  out_mids : sop S (list Z);
  out_page : list Z → sop S (list OutboundMessageSummary);
  out_meta : Z → sop S (option OutboundRecordMeta);
  complete_out : Z → OutboundQoSState → sop S (option OutboundRecordMeta);
  transition_out : Z → OutboundQoSState → OutboundQoSState → bool → sop S (option OutboundRecordMeta) }.

(** A replay generator: created but not started, suspended after a page with the
    objects it has not indexed yet (the memory store) or their identifiers and
    sizes (the SQLite store), or finished. *)
Inductive replay_gen :=
  | GNew (max_messages max_bytes : Z)
  | GAt (max_messages max_bytes : Z) (index : list loc)
  | GIndex (max_messages max_bytes : Z) (index : list (Z * Z))
  | GDone.

(** [in_replay_pages(max_messages, max_bytes)]: calling a generator function
    runs nothing. *)
Definition in_replay_pages (max_messages max_bytes : Z) : replay_gen := GNew max_messages max_bytes.

(** The inbound half.  [in_mids] and [in_index_page] are the two steps of
    [in_index_pages], [in_replay_next] is [next] on a replay generator. *)
Class InStore (S : Type) := {
  put_in : loc → sop S unit;
  get_in : Z → sop S (option loc);
  in_count : sop S Z;
  in_mids : sop S (list Z);
  in_index_page : list Z → sop S (list InboundRecordMeta);
  in_meta : Z → sop S (option InboundRecordMeta);
  in_replay_next : replay_gen → sop S (option (list loc) * replay_gen);
  mark_in_delivered : Z → sop S bool;
  transition_in : Z → In.InboundQoSState → In.InboundQoSState → option bool → sop S (option InboundRecordMeta);
  complete_in : Z → In.InboundQoSState → sop S (option InboundRecordMeta);
  clear_in : sop S unit }.

(** ** The memory store *)

Module Memory.

Record MemoryInflightStore := mkStore { _out : list (Z * loc); _in : list (Z * loc) }.

Definition init : MemoryInflightStore := mkStore [] [].

Definition set_out (s : MemoryInflightStore) (d : list (Z * loc)) : MemoryInflightStore := mkStore d (_in s).
Definition set_in (s : MemoryInflightStore) (d : list (Z * loc)) : MemoryInflightStore := mkStore (_out s) d.

Abbreviation op := (sop MemoryInflightStore).

(** [msg.attr = v] on the object at [l]. *)
Definition o_write (h : Heap) (l : loc) (m : OutboundMessage) : Heap := mkHeap (<[l := m]> (oh h)) (ih h).
Definition i_write (h : Heap) (l : loc) (m : InboundMessage) : Heap := mkHeap (oh h) (<[l := m]> (ih h)).

(** [self._out.get(mid)] with the object it refers to. *)
Definition o_find (mid : Z) (h : Heap) (s : MemoryInflightStore) : option (loc * OutboundMessage) :=
  l ← dget mid (_out s); m ← oh h !! l; Some (l, m).
Definition i_find (mid : Z) (h : Heap) (s : MemoryInflightStore) : option (loc * InboundMessage) :=
  l ← dget mid (_in s); m ← ih h !! l; Some (l, m).

Definition put_out (l : loc) : op unit := λ '(h, s),
  match oh h !! l with
  | None => (Raise TypeError, (h, s))
  | Some m =>
      if o_logical_size m <=? 0 then (Raise ValueError, (h, s))
      else (Ok tt, (h, set_out s (dset (o_mid m) l (_out s))))
  end.

Definition get_out (mid : Z) : op (option loc) := λ '(h, s), (Ok (fst <$> o_find mid h s), (h, s)).

Definition delete_out (mid : Z) : op bool := λ '(h, s),
  (Ok (match dget mid (_out s) with Some _ => true | None => false end), (h, set_out s (ddel mid (_out s)))).

(** The first step of [_pages]: the identifiers are read before any page. *)
Definition out_mids : op (list Z) := λ '(h, s), (Ok (dkeys (_out s)), (h, s)).

(** One page of [_pages]: the records still stored among the identifiers of the
    page.  (No row is added while pages are read, so the dictionary bound at
    the first page and the current one have the same rows.) *)
Definition out_page (mids : list Z) : op (list OutboundMessageSummary) := λ '(h, s),
  (Ok (omap (λ mid, from_message ∘ snd <$> o_find mid h s) mids), (h, s)).

Definition clear_out : op unit := λ '(h, s), (Ok tt, (h, set_out s [])).

Definition out_meta (mid : Z) : op (option OutboundRecordMeta) := λ '(h, s),
  (Ok match o_find mid h s with
      | None => None
      | Some (_, m) => Some {| om_mid := mid; om_state := o_state m; om_logical_size := o_logical_size m |}
      end, (h, s)).

Definition complete_out (mid : Z) (expected : OutboundQoSState) : op (option OutboundRecordMeta) := λ '(h, s),
  match o_find mid h s with
  | None => (Ok None, (h, s))
  | Some (_, m) =>
      if bool_decide (o_state m = expected) then
        let '(_, hs) := delete_out mid (h, s) in
        (Ok (Some {| om_mid := mid; om_state := expected; om_logical_size := o_logical_size m |}), hs)
      else (Ok None, (h, s))
  end.

Definition transition_out (mid : Z) (expected new : OutboundQoSState) (compact : bool) :
    op (option OutboundRecordMeta) := λ '(h, s),
  match o_find mid h s with
  | None => (Ok None, (h, s))
  | Some (l, m) =>
      if bool_decide (o_state m = expected) then
        let m := o_set_state m new in
        let m := if compact then o_compact m else m in
        (Ok (Some {| om_mid := mid; om_state := new; om_logical_size := o_logical_size m |}), (o_write h l m, s))
      else (Ok None, (h, s))
  end.

(** *** Inbound rows *)

Definition put_in (l : loc) : op unit := λ '(h, s),
  match ih h !! l with
  | None => (Raise TypeError, (h, s))
  | Some m =>
      if i_logical_size m <=? 0 then (Raise ValueError, (h, s))
      else (Ok tt, (h, set_in s (dset (i_mid m) l (_in s))))
  end.

Definition get_in (mid : Z) : op (option loc) := λ '(h, s), (Ok (fst <$> i_find mid h s), (h, s)).

Definition in_count : op Z := λ '(h, s), (Ok (len (_in s)), (h, s)).

Definition meta_of (mid : Z) (m : InboundMessage) : InboundRecordMeta :=
  {| im_mid := mid; im_state := i_state m; im_user_acked := i_user_acked m; im_delivered := i_delivered m;
     im_logical_size := i_logical_size m |}.

Definition in_meta (mid : Z) : op (option InboundRecordMeta) := λ '(h, s),
  (Ok (meta_of mid ∘ snd <$> i_find mid h s), (h, s)).

Definition in_mids : op (list Z) := λ '(h, s), (Ok (dkeys (_in s)), (h, s)).
Definition in_index_page (mids : list Z) : op (list InboundRecordMeta) := λ '(h, s),
  (Ok (omap (λ mid, meta_of mid ∘ snd <$> i_find mid h s) mids), (h, s)).

Definition mark_in_delivered (mid : Z) : op bool := λ '(h, s),
  match i_find mid h s with
  | None => (Ok false, (h, s))
  | Some (l, m) => if i_delivered m then (Ok false, (h, s)) else (Ok true, (i_write h l (i_set_delivered m), s))
  end.

Definition transition_in (mid : Z) (expected new : In.InboundQoSState) (user_acked : option bool) :
    op (option InboundRecordMeta) := λ '(h, s),
  match i_find mid h s with
  | None => (Ok None, (h, s))
  | Some (l, m) =>
      if bool_decide (i_state m = expected) then
        let m := i_set_state m new (match user_acked with Some b => b | None => i_user_acked m end) in
        (Ok (Some (meta_of mid m)), (i_write h l m, s))
      else (Ok None, (h, s))
  end.

Definition complete_in (mid : Z) (expected : In.InboundQoSState) : op (option InboundRecordMeta) := λ '(h, s),
  match i_find mid h s with
  | None => (Ok None, (h, s))
  | Some (_, m) =>
      if bool_decide (i_state m = expected) then (Ok (Some (meta_of mid m)), (h, set_in s (ddel mid (_in s))))
      else (Ok None, (h, s))
  end.

Definition clear_in : op unit := λ '(h, s), (Ok tt, (h, set_in s [])).

(** [hydrate_page()]. *)
Definition hydrate_page (mids : list Z) (h : Heap) (s : MemoryInflightStore) : list loc :=
  omap (λ mid, fst <$> i_find mid h s) mids.

(** The loop of [in_replay_pages] from the objects of [index] on, up to the next
    page it yields: the page and the objects left. *)
Fixpoint replay_next (max_messages max_bytes : Z) (h : Heap) (s : MemoryInflightStore) (index : list loc)
    (mids : list Z) (hydrated_bytes : Z) : option (list loc * list loc) :=
  match index with
  | [] =>
      match hydrate_page mids h s with
      | [] => None
      | page => Some (page, [])
      end
  | l :: index' =>
      match ih h !! l with
      | None => replay_next max_messages max_bytes h s index' mids hydrated_bytes
      | Some m =>
          let message_bytes := i_logical_size m in
          let add mids hydrated_bytes :=
            let mids := mids ++ [i_mid m] in
            let hydrated_bytes := hydrated_bytes + message_bytes in
            if (len mids >=? max_messages) || (hydrated_bytes >=? max_bytes) then
              match hydrate_page mids h s with
              | [] => replay_next max_messages max_bytes h s index' [] 0
              | page => Some (page, index')
              end
            else replay_next max_messages max_bytes h s index' mids hydrated_bytes in
          if negb (bool_decide (mids = [])) &&
             ((len mids >=? max_messages) || (hydrated_bytes + message_bytes >? max_bytes))
          then
            match hydrate_page mids h s with
            | [] => add [] 0
            | page => Some (page, index)
            end
          else add mids hydrated_bytes
      end
  end.

Definition replay_from (max_messages max_bytes : Z) (h : Heap) (s : MemoryInflightStore) (index : list loc) :
    option (list loc) * replay_gen :=
  match replay_next max_messages max_bytes h s index [] 0 with
  | Some (page, index) => (Some page, GAt max_messages max_bytes index)
  | None => (None, GDone)
  end.

Definition in_replay_next (g : replay_gen) : op (option (list loc) * replay_gen) := λ '(h, s),
  match g with
  | GNew max_messages max_bytes =>
      if max_messages <=? 0 then (Raise ValueError, (h, s))
      else if max_bytes <=? 0 then (Raise ValueError, (h, s))
      else (Ok (replay_from max_messages max_bytes h s (snd <$> _in s)), (h, s))
  | GAt max_messages max_bytes index => (Ok (replay_from max_messages max_bytes h s index), (h, s))
  | GIndex _ _ _ | GDone => (Ok (None, GDone), (h, s))
  end.

#[export] Instance out_store : OutStore MemoryInflightStore :=
  Build_OutStore MemoryInflightStore put_out get_out delete_out out_mids out_page out_meta complete_out
    transition_out.

#[export] Instance in_store : InStore MemoryInflightStore :=
  Build_InStore MemoryInflightStore put_in get_in in_count in_mids in_index_page in_meta in_replay_next
    mark_in_delivered transition_in complete_in clear_in.

End Memory.
Export (hints) Memory.

(** ** Injected faults *)

(** A store whose calls raise, before doing anything, where the list says so. *)
Definition guard_fault {S A : Type} (f : sop S A) : sop (S * list bool) A := λ '(h, (s, faults)),
  match faults with
  | true :: faults => (Raise StoreError, (h, (s, faults)))
  | _ => let '(r, (h, s)) := f (h, s) in (r, (h, (s, tail faults)))
  end.

#[export] Instance with_faults {S} `{OutStore S} : OutStore (S * list bool) := {|
  put_out l := guard_fault (put_out l); get_out mid := guard_fault (get_out mid);
  delete_out mid := guard_fault (delete_out mid); out_mids := guard_fault out_mids;
  out_page mids := guard_fault (out_page mids); out_meta mid := guard_fault (out_meta mid);
  complete_out mid st := guard_fault (complete_out mid st);
  transition_out mid e n c := guard_fault (transition_out mid e n c) |}.

#[export] Instance with_in_faults {S} `{InStore S} : InStore (S * list bool) := {|
  put_in l := guard_fault (put_in l); get_in mid := guard_fault (get_in mid); in_count := guard_fault in_count;
  in_mids := guard_fault in_mids; in_index_page mids := guard_fault (in_index_page mids);
  in_meta mid := guard_fault (in_meta mid); in_replay_next g := guard_fault (in_replay_next g);
  mark_in_delivered mid := guard_fault (mark_in_delivered mid);
  transition_in mid e n a := guard_fault (transition_in mid e n a);
  complete_in mid e := guard_fault (complete_in mid e); clear_in := guard_fault clear_in |}.

(** ** What a store promises *)

(** A row as the accounting sees it: the phase and the logical size. *)
Abbreviation row := (OutboundQoSState * Z)%type.
Definition o_row (m : OutboundMessage) : row := (o_state m, o_logical_size m).

(** Objects keep their identity: identifier and size never change, and the
    phase changes only for the identifiers in [ch]. *)
Definition heap_frame (ch : Z → Prop) (h h' : Heap) : Prop :=
  ∀ l m, oh h !! l = Some m → ∃ m', oh h' !! l = Some m' ∧ o_mid m' = o_mid m ∧
    o_logical_size m' = o_logical_size m ∧ (¬ ch (o_mid m) → o_state m' = o_state m).

Definition untouched (_ : Z) : Prop := False.

(** Allocation of a message object, and assignment to one. *)
Definition o_alloc (h : Heap) (m : OutboundMessage) : Heap := mkHeap (oh h ++ [m]) (ih h).
Definition i_alloc (h : Heap) (m : InboundMessage) : Heap := mkHeap (oh h) (ih h ++ [m]).

(** A Topic Alias kept with a message converts to an integer: admission read it
    that way before the message was built. *)
Definition sane (m : OutboundMessage) : Prop :=
  ∀ ps v, o_properties m = Some ps → ("topic_alias"%string, v) ∈ ps → v = VNone ∨ ∃ z, py_int v = Ok z.

Lemma sane_alias m v : sane m → pget (o_properties m) "topic_alias" = Some v → ∃ z, py_int v = Ok z.
Proof.
  intros Hm. unfold pget. destruct (o_properties m) as [ps |] eqn:E; [| done].
  destruct (dget _ ps) as [w |] eqn:Ew; [| done]. apply dget_Some_elem, (Hm ps w E) in Ew.
  destruct Ew as [-> | ?]; [done |]. by destruct w; intros [= <-].
Qed.

Lemma sane_strip m :
  sane m → sane (o_set_properties m (_properties_without_topic_alias (o_properties m))).
Proof.
  intros Hm ps v. simpl. unfold _properties_without_topic_alias. destruct (o_properties m) as [qs |] eqn:E; [| done].
  assert (Hqs : Some qs = Some ps → ("topic_alias"%string, v) ∈ ps → v = VNone ∨ ∃ z, py_int v = Ok z).
  { intros [= ->]. by apply Hm. }
  assert (Hdel : Some (Properties_init (ddel "topic_alias"%string qs)) = Some ps →
    ("topic_alias"%string, v) ∈ ps → v = VNone ∨ ∃ z, py_int v = Ok z).
  { intros [= <-]. unfold Properties_init. intros ([k w] & [= <- ->] & Hin)%list_elem_of_fmap.
    eapply elem_of_sublist in Hin; [| apply ddel_sub]. unfold own_value.
    apply (Hm qs w E) in Hin. by destruct w as [| | | | [| [] [| [] []]]]; simpl in *. }
  destruct (dget "topic_alias"%string qs) as [[] |]; auto.
Qed.

Class OutStoreLaws (S : Type) `{OutStore S} := {
  (** Whether the store never fails. *)
  reliable : Prop;
  store_ok : Heap → S → Prop;
  rows : Heap → S → list (Z * row);
  rows_NoDup h s : store_ok h s → NoDup (dkeys (rows h s));
  rows_size h s mid st n : store_ok h s → dget mid (rows h s) = Some (st, n) → 0 < n;
  sane_law h s l m : store_ok h s → oh h !! l = Some m → sane m;
  (** Allocating an object, or assigning to one attributes its row does not
      show (or the phase its row already has), leaves the table as it is. *)
  alloc_law h s m : store_ok h s → sane m → store_ok (o_alloc h m) s ∧ rows (o_alloc h m) s = rows h s;
  write_law h s l m m' : store_ok h s → oh h !! l = Some m → o_mid m' = o_mid m →
    o_logical_size m' = o_logical_size m → sane m' →
    o_state m' = o_state m ∨ (∃ n, dget (o_mid m) (rows h s) = Some (o_state m', n)) ∨
      dget (o_mid m) (rows h s) = None →
    store_ok (Memory.o_write h l m') s ∧ rows (Memory.o_write h l m') s = rows h s;
  put_law h s l m r h' s' : store_ok h s → oh h !! l = Some m → put_out l (h, s) = (r, (h', s')) →
    store_ok h' s' ∧ heap_frame untouched h h' ∧
    match r with
    | Ok _ => 0 < o_logical_size m ∧ rows h' s' = dset (o_mid m) (o_row m) (rows h s)
    | Raise e => (reliable → o_logical_size m ≤ 0) ∧ is_mqtt_error e = false ∧ rows h' s' = rows h s
    end;
  get_law h s mid r h' s' : store_ok h s → get_out mid (h, s) = (r, (h', s')) →
    store_ok h' s' ∧ heap_frame untouched h h' ∧ rows h' s' = rows h s ∧
    match r with
    | Ok (Some l) => ∃ m, oh h' !! l = Some m ∧ o_mid m = mid ∧ dget mid (rows h s) = Some (o_row m)
    | Ok None => dget mid (rows h s) = None
    | Raise e => ¬ reliable ∧ is_mqtt_error e = false
    end;
  delete_law h s mid r h' s' : store_ok h s → delete_out mid (h, s) = (r, (h', s')) →
    store_ok h' s' ∧ heap_frame untouched h h' ∧
    match r with
    | Ok b => b = dmem mid (rows h s) ∧ rows h' s' = ddel mid (rows h s)
    | Raise e => ¬ reliable ∧ is_mqtt_error e = false ∧ rows h' s' = rows h s
    end;
  mids_law h s r h' s' : store_ok h s → out_mids (h, s) = (r, (h', s')) →
    store_ok h' s' ∧ heap_frame untouched h h' ∧ rows h' s' = rows h s ∧
    match r with Ok mids => mids = dkeys (rows h s) | Raise e => ¬ reliable ∧ is_mqtt_error e = false end;
  page_law h s mids r h' s' : store_ok h s → out_page mids (h, s) = (r, (h', s')) →
    store_ok h' s' ∧ heap_frame untouched h h' ∧ rows h' s' = rows h s ∧
    match r with
    | Ok page => (λ m, (s_mid m, (s_state m, s_logical_size m))) <$> page =
                 omap (λ mid, pair mid <$> dget mid (rows h s)) mids
    | Raise e => ¬ reliable ∧ is_mqtt_error e = false
    end;
  meta_law h s mid r h' s' : store_ok h s → out_meta mid (h, s) = (r, (h', s')) →
    store_ok h' s' ∧ heap_frame untouched h h' ∧ rows h' s' = rows h s ∧
    match r with
    | Ok o => (λ x, (om_state x, om_logical_size x)) <$> o = dget mid (rows h s) ∧ ∀ x, o = Some x → om_mid x = mid
    | Raise e => ¬ reliable ∧ is_mqtt_error e = false
    end;
  complete_law h s mid st r h' s' : store_ok h s → complete_out mid st (h, s) = (r, (h', s')) →
    store_ok h' s' ∧ heap_frame untouched h h' ∧
    match r with
    | Ok (Some x) => dget mid (rows h s) = Some (st, om_logical_size x) ∧ rows h' s' = ddel mid (rows h s)
    | Ok None => (∀ n, dget mid (rows h s) ≠ Some (st, n)) ∧ rows h' s' = rows h s
    | Raise e => ¬ reliable ∧ is_mqtt_error e = false ∧ rows h' s' = rows h s
    end;
  transition_law h s mid st new c r h' s' : store_ok h s → transition_out mid st new c (h, s) = (r, (h', s')) →
    store_ok h' s' ∧
    match r with
    | Ok (Some x) => heap_frame (eq mid) h h' ∧ dget mid (rows h s) = Some (st, om_logical_size x) ∧
                     rows h' s' = dset mid (new, om_logical_size x) (rows h s)
    | Ok None => heap_frame untouched h h' ∧ (∀ n, dget mid (rows h s) ≠ Some (st, n)) ∧ rows h' s' = rows h s
    | Raise e => heap_frame untouched h h' ∧ ¬ reliable ∧ is_mqtt_error e = false ∧ rows h' s' = rows h s
    end }.

Lemma heap_frame_refl ch h : heap_frame ch h h.
Proof. intros l m Hl. exists m. done. Qed.

Lemma heap_frame_trans (ch ch' : Z → Prop) h1 h2 h3 :
  heap_frame ch h1 h2 → heap_frame ch' h2 h3 → heap_frame (λ m, ch m ∨ ch' m) h1 h3.
Proof.
  intros H12 H23 l m Hl. destruct (H12 l m Hl) as (m' & Hl' & E1 & E2 & E3).
  destruct (H23 l m' Hl') as (m'' & Hl'' & F1 & F2 & F3). exists m''. split_and!; try congruence.
  intros Hn. rewrite F3, E3; [done | tauto |]. rewrite E1. tauto.
Qed.

Lemma heap_frame_weaken (ch ch' : Z → Prop) h h' :
  (∀ m, ch m → ch' m) → heap_frame ch h h' → heap_frame ch' h h'.
Proof.
  intros Hc Hf l m Hl. destruct (Hf l m Hl) as (m' & ? & ? & ? & Hs). exists m'. split_and!; try done.
  intros Hn. apply Hs. auto.
Qed.

Lemma heap_frame_alloc h m : heap_frame untouched h (o_alloc h m).
Proof. intros l m' Hl. exists m'. split_and!; try done. simpl. by apply lookup_app_l_Some. Qed.

Lemma heap_frame_write ch h l m m' :
  oh h !! l = Some m → o_mid m' = o_mid m → o_logical_size m' = o_logical_size m →
  (¬ ch (o_mid m) → o_state m' = o_state m) → heap_frame ch h (Memory.o_write h l m').
Proof.
  intros Hl Hm Hs Hst k x Hk. simpl. destruct (decide (k = l)) as [-> | Hne].
  - exists m'. rewrite list_lookup_insert_eq by (by eapply lookup_lt_Some). simplify_eq. done.
  - exists x. rewrite list_lookup_insert_ne by done. done.
Qed.

(** ** Dictionaries seen through a partial map of their values *)
Section dmap.
Context {K V W : Type} `{!EqDecision K}.
Implicit Types (d : list (K * V)) (f g : V → option W).

Definition dmap f d : list (K * W) := omap (λ '(k, v), pair k <$> f v) d.
#[local] Arguments dmap : simpl never.
Definition dtotal f d : Prop := Forall (λ x, is_Some (f x.2)) d.

Lemma dmap_cons f k v w d : f v = Some w → dmap f ((k, v) :: d) = (k, w) :: dmap f d.
Proof. intros Hf. unfold dmap. simpl. by rewrite Hf. Qed.

Lemma dkeys_dmap f d : dtotal f d → dkeys (dmap f d) = dkeys d.
Proof.
  induction 1 as [| [k v] d [w Hw] Hd IH]; [done |]. rewrite (dmap_cons _ _ _ w) by done.
  simpl. by f_equal.
Qed.

Lemma dget_dmap f d k : dtotal f d → dget k (dmap f d) = dget k d ≫= f.
Proof.
  induction 1 as [| [k' v] d [w Hw] Hd IH]; [done |]. rewrite (dmap_cons _ _ _ w) by done. simpl.
  simpl in Hw. case_decide; [by rewrite <- Hw | done].
Qed.

Lemma dmap_dset f d k v w : dtotal f d → f v = Some w → dmap f (dset k v d) = dset k w (dmap f d).
Proof.
  intros Hd Hv. induction Hd as [| [k' v'] d [w' Hw] Hd IH]; [by apply (dmap_cons f k v w []) |].
  simpl. simpl in Hw. case_decide.
  - rewrite (dmap_cons _ _ _ w), (dmap_cons _ _ _ w') by done. simpl. by rewrite decide_True.
  - rewrite !(dmap_cons _ _ _ w') by done. simpl. rewrite decide_False by done. by rewrite IH.
Qed.

Lemma dmap_ddel f d k : dtotal f d → dmap f (ddel k d) = ddel k (dmap f d).
Proof.
  induction 1 as [| [k' v] d [w Hw] Hd IH]; [done |]. simpl in *. rewrite (dmap_cons _ _ _ w) by done. simpl.
  case_decide; [done |]. rewrite (dmap_cons _ _ _ w) by done. by rewrite IH.
Qed.

Lemma dmap_ext f g d : (∀ k v, (k, v) ∈ d → f v = g v) → dmap f d = dmap g d.
Proof.
  intros H. unfold dmap. apply list_omap_ext. apply Forall_Forall2_diag, Forall_forall.
  intros [k v] Hin. by rewrite (H k v).
Qed.

Lemma dtotal_dset f d k v : dtotal f d → is_Some (f v) → dtotal f (dset k v d).
Proof.
  intros Hd Hv. induction Hd as [| [k' v'] d Hx Hd IH]; simpl; [by repeat constructor |].
  case_decide; constructor; done.
Qed.

Lemma dtotal_ddel f d k : dtotal f d → dtotal f (ddel k d).
Proof. unfold dtotal. rewrite !Forall_forall. intros Hd x Hx. apply Hd. eapply elem_of_sublist; [done | apply ddel_sub]. Qed.

(** Changing what one value maps to is an assignment to its key. *)
Lemma dmap_update f g d k v w :
  NoDup (dkeys d) → dtotal f d → dget k d = Some v → g v = Some w →
  (∀ k' v', (k', v') ∈ d → k' ≠ k → g v' = f v') → dmap g d = dset k w (dmap f d).
Proof.
  intros Hn Hd Hg Hv. induction Hd as [| [k' v'] d [w' Hw] Hd IH]; [done |]. simpl in Hg, Hw. intros Hf.
  apply NoDup_cons in Hn as [Hk Hn]. case_decide.
  - simplify_eq. rewrite (dmap_cons g _ _ w), (dmap_cons f _ _ w') by done. simpl. rewrite decide_True by done.
    f_equal. apply dmap_ext. intros k v' Hin. apply (Hf k); [by right |]. intros ->. apply Hk.
    apply list_elem_of_fmap. by exists (k', v').
  - rewrite (dmap_cons f _ _ w'), (dmap_cons g _ _ w') by (done || (rewrite <- Hw; apply (Hf k'); [left | done])).
    simpl. rewrite decide_False by done. f_equal. apply IH; try done. intros. eapply Hf; [by right | done].
Qed.
End dmap.

(** ** The memory store keeps the promise *)

Module MemoryLaws.
Import Memory.
Implicit Types (h : Heap) (s : MemoryInflightStore).

Record ok h s : Prop := {
  ok_sane : Forall sane (oh h);
  ok_keys : NoDup (dkeys (_out s));
  ok_rows : ∀ mid l, (mid, l) ∈ _out s → ∃ m, oh h !! l = Some m ∧ o_mid m = mid ∧ 0 < o_logical_size m }.

Definition row_at h (l : loc) : option row := o_row <$> oh h !! l.
Definition table h s : list (Z * row) := dmap (row_at h) (_out s).

Lemma ok_total h s : ok h s → dtotal (row_at h) (_out s).
Proof.
  intros Hs. apply Forall_forall. intros [mid l] Hin. destruct (ok_rows _ _ Hs _ _ Hin) as (m & Hl & _).
  unfold row_at. simpl. rewrite Hl. eauto.
Qed.

Lemma table_keys h s : ok h s → dkeys (table h s) = dkeys (_out s).
Proof. intros Hs. by apply dkeys_dmap, ok_total. Qed.

Lemma table_get h s mid : ok h s → dget mid (table h s) = o_row ∘ snd <$> o_find mid h s.
Proof.
  intros Hs. unfold table. rewrite dget_dmap by (by apply ok_total). unfold o_find, row_at.
  destruct (dget mid (_out s)) as [l |]; [| done]. simpl. by destruct (oh h !! l).
Qed.

Lemma find_inv h s mid l m :
  ok h s → o_find mid h s = Some (l, m) →
  dget mid (_out s) = Some l ∧ oh h !! l = Some m ∧ o_mid m = mid ∧ 0 < o_logical_size m.
Proof.
  intros Hs H. unfold o_find in H. destruct (dget mid (_out s)) as [k |] eqn:E; [| done]. simpl in H.
  destruct (ok_rows _ _ Hs _ _ (dget_Some_elem _ _ _ E)) as (m' & Hl & ? & ?). rewrite Hl in H. by simplify_eq/=.
Qed.

Lemma dget_find h s mid l : ok h s → dget mid (_out s) = Some l → ∃ m, o_find mid h s = Some (l, m).
Proof.
  intros Hs Hg. unfold o_find. rewrite Hg. simpl.
  destruct (ok_rows _ _ Hs _ _ (dget_Some_elem _ _ _ Hg)) as (m & -> & _). eauto.
Qed.

(** Another heap in which every stored object has the same identity and phase. *)
Lemma same_rows h h' s :
  ok h s → Forall sane (oh h') → (∀ mid l m, (mid, l) ∈ _out s → oh h !! l = Some m →
    ∃ m', oh h' !! l = Some m' ∧ o_mid m' = o_mid m ∧ o_row m' = o_row m) →
  ok h' s ∧ table h' s = table h s.
Proof.
  intros Hs Hsane Hh. split.
  - constructor; [done | apply Hs |]. intros mid l Hin. destruct (ok_rows _ _ Hs _ _ Hin) as (m & Hl & ? & ?).
    destruct (Hh _ _ _ Hin Hl) as (m' & ? & ? & [= ??]). exists m'. split_and!; [done | congruence | lia].
  - apply dmap_ext. intros mid l Hin. destruct (ok_rows _ _ Hs _ _ Hin) as (m & Hl & _).
    destruct (Hh _ _ _ Hin Hl) as (m' & Hl' & _ & E). unfold row_at. rewrite Hl, Hl'. simpl. by rewrite E.
Qed.

Lemma delete_ok h s mid :
  ok h s → ok h (set_out s (ddel mid (_out s))) ∧ table h (set_out s (ddel mid (_out s))) = ddel mid (table h s).
Proof.
  intros Hs. split; [constructor; simpl |].
  - apply Hs.
  - apply NoDup_ddel, Hs.
  - intros m l Hin. apply (ok_rows _ _ Hs). eapply elem_of_sublist; [done | apply ddel_sub].
  - unfold table. simpl. by apply dmap_ddel, ok_total.
Qed.

#[export] Program Instance memory_laws : OutStoreLaws MemoryInflightStore := {|
  reliable := True; store_ok := ok; rows := table |}.
Next Obligation. intros h s Hs. rewrite table_keys by done. apply Hs. Qed.
Next Obligation.
  intros h s mid st n Hs. rewrite table_get by done. destruct (o_find mid h s) as [[l m] |] eqn:E; [| done].
  apply find_inv in E as (_ & _ & _ & ?); [| done]. intros [= <- <-]. done.
Qed.
Next Obligation. intros h s l m Hs Hl. pose proof (ok_sane _ _ Hs). by eapply Forall_lookup. Qed.
Next Obligation.
  intros h s m Hs Hm. apply same_rows; [done | apply Forall_app; split; [apply Hs | by apply Forall_singleton] |].
  intros mid l m' Hin Hl. exists m'. split_and!; try done.
  by apply lookup_app_l_Some.
Qed.
Next Obligation.
  intros h s l m m' Hs Hl Hm Hn Hsane Hst. apply same_rows; [done | by apply Forall_insert; [apply Hs |] |].
  intros mid k x Hin Hk. simpl.
  destruct (decide (k = l)) as [-> | Hne]; [| exists x; by rewrite list_lookup_insert_ne].
  simplify_eq. exists m'.
  rewrite list_lookup_insert_eq by (by eapply lookup_lt_Some). split_and!; [done.. |].
  destruct (ok_rows _ _ Hs _ _ Hin) as (m1 & Hl1 & <- & _). simplify_eq.
  assert (dget (o_mid m) (table h s) = Some (o_row m)) as Hg.
  { rewrite table_get by done. unfold o_find. rewrite (dget_elem_NoDup _ _ _ (ok_keys _ _ Hs) Hin). simpl.
    by rewrite Hl. }
  unfold o_row in *. destruct Hst as [-> | [[n Hst] | Hst]]; rewrite ?Hn; congruence.
Qed.
Next Obligation.
  intros h s l m r h' s' Hs Hl H. simpl in H. unfold put_out in H. rewrite Hl in H.
  destruct (o_logical_size m <=? 0) eqn:E; bools; simplify_eq; [split_and!; done || apply heap_frame_refl |].
  split_and!; [constructor; simpl | apply heap_frame_refl | done |].
  - apply Hs.
  - apply NoDup_dset, Hs.
  - intros mid k Hin. apply (dget_elem_NoDup _ _ _ (NoDup_dset _ _ _ (ok_keys _ _ Hs))) in Hin.
    rewrite dget_dset in Hin. case_decide; simplify_eq; [eauto |]. by apply (ok_rows _ _ Hs), dget_Some_elem.
  - unfold table. simpl. apply dmap_dset; [by apply ok_total |]. unfold row_at. by rewrite Hl.
Qed.
Next Obligation.
  intros h s mid r h' s' Hs [= <- <- <-]. split_and!; [done | apply heap_frame_refl | done |].
  rewrite table_get by done. destruct (o_find mid h s) as [[l m] |] eqn:E; simpl; [| done].
  apply find_inv in E as (_ & ? & ? & _); [| done]. eauto.
Qed.
Next Obligation.
  intros h s mid r h' s' Hs [= <- <- <-]. destruct (delete_ok h s mid Hs) as [Ho Ht].
  split_and!; [done | apply heap_frame_refl | | done].
  unfold dmem. rewrite table_get by done. destruct (dget mid (_out s)) as [l |] eqn:E.
  - by destruct (dget_find h s mid l) as (m & ->).
  - unfold o_find. by rewrite E.
Qed.
Next Obligation.
  intros h s r h' s' Hs [= <- <- <-]. split_and!; [done | apply heap_frame_refl | done |]. by rewrite table_keys.
Qed.
Next Obligation.
  intros h s mids r h' s' Hs [= <- <- <-]. split_and!; [done | apply heap_frame_refl | done |].
  rewrite list_fmap_omap. apply list_omap_ext, Forall_Forall2_diag, Forall_forall. intros mid _.
  rewrite table_get by done. destruct (o_find mid h s) as [[l m] |] eqn:E; [| done]. simpl.
  apply find_inv in E as (_ & _ & <- & _); done.
Qed.
Next Obligation.
  intros h s mid r h' s' Hs [= <- <- <-]. split_and!; [done | apply heap_frame_refl | done | |].
  - rewrite table_get by done. by destruct (o_find mid h s) as [[l m] |].
  - destruct (o_find mid h s) as [[l m] |]; [| done]. by intros ? [= <-].
Qed.
Next Obligation.
  intros h s mid st r h' s' Hs H. simpl in H. unfold complete_out in H. rewrite table_get by done.
  destruct (o_find mid h s) as [[l m] |] eqn:E; [case_bool_decide | ]; simplify_eq/=.
  - destruct (delete_ok _ _ mid Hs). split_and!; try done; apply heap_frame_refl.
  - split_and!; try done; [apply heap_frame_refl |]. intros n [= ? ?]. done.
  - split_and!; try done. apply heap_frame_refl.
Qed.
Next Obligation.
  intros h s mid st new c r h' s' Hs H. simpl in H. unfold transition_out in H. rewrite table_get by done.
  destruct (o_find mid h s) as [[l m] |] eqn:E; [case_bool_decide | ]; simplify_eq/=.
  2:{ split_and!; try done; [apply heap_frame_refl |]. intros n [= ? ?]. done. }
  2:{ split_and!; try done. apply heap_frame_refl. }
  apply find_inv in E as (Hg & Hl & <- & Hn); [| done].
  set (m' := if c then _ else _).
  assert (o_mid m' = o_mid m ∧ o_row m' = (new, o_logical_size m)) as [Hm' Hr'] by (by destruct c).
  assert (o_logical_size m' = o_logical_size m) as -> by (by destruct c).
  assert (∀ k, k ≠ l → oh (o_write h l m') !! k = oh h !! k) as Hne.
  { intros k Hk. simpl. by rewrite list_lookup_insert_ne. }
  assert (oh (o_write h l m') !! l = Some m') as Heq.
  { simpl. by rewrite list_lookup_insert_eq by (by eapply lookup_lt_Some). }
  split_and!; try done.
  - constructor; [| apply Hs |].
    { apply Forall_insert; [apply Hs |]. pose proof (Forall_lookup_1 _ _ _ _ (ok_sane _ _ Hs) Hl) as Hm.
      destruct c; [by intros ps v | exact Hm]. }
    intros mid k Hin. destruct (ok_rows _ _ Hs _ _ Hin) as (x & Hk & ? & ?).
    destruct (decide (k = l)) as [-> |]; [| rewrite Hne by done; eauto].
    simplify_eq. exists m'. injection Hr' as ??. split_and!; try done; lia.
  - apply (heap_frame_write _ _ _ m); try done; by destruct c.
  - apply (dmap_update _ _ _ _ l); try done; [apply Hs | by apply ok_total | |].
    + unfold row_at. rewrite Heq. simpl. by rewrite Hr'.
    + intros k l' Hin Hk. unfold row_at. rewrite Hne; [done |]. intros ->.
      destruct (ok_rows _ _ Hs _ _ Hin) as (x & Hx & Hmid & _). congruence.
Qed.
End MemoryLaws.
Export (hints) MemoryLaws.

(** ** A failing store keeps the promise too *)

Section fault_laws.
Context {S : Type} `{OutStoreLaws S}.
Implicit Types (h : Heap) (x : S * list bool).

Lemma guard_fault_inv {A} (f : sop S A) h x r h' x' :
  guard_fault f (h, x) = (r, (h', x')) →
  (r = Raise StoreError ∧ h' = h ∧ x'.1 = x.1) ∨ f (h, x.1) = (r, (h', x'.1)).
Proof.
  destruct x as [s [| [] fs]]; simpl; [| intros [= <- <- <-]; by left |];
    destruct (f (h, s)) as [r' [h1 s1]]; intros [= <- <- <-]; by right.
Qed.

(** Either nothing happened, or the call behaved as the wrapped store's. *)
Ltac fault_case law :=
  intros; cbn beta in *;
  match goal with Hg : _ = (_, (_, _)) |- _ => apply guard_fault_inv in Hg as [(-> & -> & ->) | Hg] end;
  [ split_and!; try done; try apply heap_frame_refl; tauto
  | match goal with Hg : _ = (?r, (_, _)) |- _ =>
      destruct r; eapply law in Hg; try eassumption; naive_solver end ].

#[export] Program Instance fault_laws : OutStoreLaws (S * list bool) := {|
  reliable := False; store_ok h x := store_ok h x.1; rows h x := rows h x.1 |}.
Next Obligation. intros h [s fs] Hs. by apply rows_NoDup. Qed.
Next Obligation. intros h [s fs] mid st n Hs. by apply rows_size. Qed.
Next Obligation. intros h [s fs] l m Hs. intros Hl. by eapply sane_law. Qed.
Next Obligation. intros h [s fs] m Hs. by apply alloc_law. Qed.
Next Obligation. intros h [s fs] l m m' Hs. by apply write_law. Qed.
Next Obligation. fault_case put_law. Qed.
Next Obligation. fault_case get_law. Qed.
Next Obligation. fault_case delete_law. Qed.
Next Obligation. fault_case mids_law. Qed.
Next Obligation. fault_case page_law. Qed.
Next Obligation. fault_case meta_law. Qed.
Next Obligation. fault_case complete_law. Qed.
Next Obligation. fault_case transition_law. Qed.
End fault_laws.
