(* ===== verification/StoreIn.v ===== *)
(** * The inbound half of the in-flight store ([src/mqttium/persistence/memory.py])

    What the inbound operations of a store promise: a second table of rows, the
    stored messages in insertion order, independent of the outbound one.  The
    memory store keeps the promise, and so does a store whose calls fail on
    demand. *)

From S2P Require Import Prelude PyStr Enums Properties Types Handshake Store.

(** Inbound message objects stay where they are. *)
Definition ih_frame (h h' : Heap) : Prop := ∀ l, is_Some (ih h !! l) → is_Some (ih h' !! l).

Lemma ih_frame_refl h : ih_frame h h.
Proof. by intros l. Qed.
Lemma ih_frame_trans h1 h2 h3 : ih_frame h1 h2 → ih_frame h2 h3 → ih_frame h1 h3.
Proof. intros H1 H2 l Hl. auto. Qed.
Lemma ih_frame_alloc h m : ih_frame h (i_alloc h m).
Proof. intros l [x Hx]. exists x. simpl. by apply lookup_app_l_Some. Qed.
#[export] Hint Resolve ih_frame_refl ih_frame_alloc : core.

(** The steps of the outbound half, and of the inbound half. *)
Section calls.
Context {S : Type} `{OutStore S, InStore S}.

Inductive out_call : Heap * S → Heap * S → Prop :=
  | oc_put l x : out_call x (put_out l x).2
  | oc_get mid x : out_call x (get_out mid x).2
  | oc_delete mid x : out_call x (delete_out mid x).2
  | oc_mids x : out_call x (out_mids x).2
  | oc_page mids x : out_call x (out_page mids x).2
  | oc_meta mid x : out_call x (out_meta mid x).2
  | oc_complete mid st x : out_call x (complete_out mid st x).2
  | oc_transition mid st new c x : out_call x (transition_out mid st new c x).2
  | oc_alloc m h s : out_call (h, s) (o_alloc h m, s)
  | oc_write l m h s : out_call (h, s) (Memory.o_write h l m, s).

Inductive in_call : Heap * S → Heap * S → Prop :=
  | ic_put l x : in_call x (put_in l x).2
  | ic_get mid x : in_call x (get_in mid x).2
  | ic_count x : in_call x (in_count x).2
  | ic_mids x : in_call x (in_mids x).2
  | ic_page mids x : in_call x (in_index_page mids x).2
  | ic_meta mid x : in_call x (in_meta mid x).2
  | ic_next g x : in_call x (in_replay_next g x).2
  | ic_mark mid x : in_call x (mark_in_delivered mid x).2
  | ic_transition mid st new a x : in_call x (transition_in mid st new a x).2
  | ic_complete mid st x : in_call x (complete_in mid st x).2
  | ic_clear x : in_call x (clear_in x).2
  | ic_alloc m h s : in_call (h, s) (i_alloc h m, s).
End calls.

(** Assignments to a stored row. *)
Definition user_ack (m : InboundMessage) (a : option bool) : bool :=
  match a with Some b => b | None => i_user_acked m end.

Class InStoreLaws (S : Type) `{OutStoreLaws S, InStore S} := {
  irows : Heap → S → list (Z * InboundMessage);
  in_ok : Heap → S → Prop;
  (** The stored form of a message: its properties may be normalised. *)
  kept : InboundMessage → InboundMessage;
  kept_law m : ∃ ps, kept m = i_set_properties m ps;
  irows_NoDup h s : in_ok h s → NoDup (dkeys (irows h s));
  irows_mid h s mid m : in_ok h s → dget mid (irows h s) = Some m → i_mid m = mid ∧ 0 < i_logical_size m;
  (** Neither half touches the rows of the other. *)
  out_keeps h s h' s' : in_ok h s → out_call (h, s) (h', s') →
    in_ok h' s' ∧ irows h' s' = irows h s ∧ ih_frame h h';
  in_keeps h s h' s' : store_ok h s → in_call (h, s) (h', s') →
    store_ok h' s' ∧ rows h' s' = rows h s ∧ heap_frame untouched h h';
  i_alloc_law h s m : in_ok h s → in_ok (i_alloc h m) s ∧ irows (i_alloc h m) s = irows h s;
  put_in_law h s l m r h' s' : in_ok h s → ih h !! l = Some m → put_in l (h, s) = (r, (h', s')) →
    in_ok h' s' ∧ ih_frame h h' ∧
    match r with
    | Ok _ => 0 < i_logical_size m ∧ irows h' s' = dset (i_mid m) (kept m) (irows h s)
    | Raise e => (reliable → i_logical_size m ≤ 0) ∧ is_mqtt_error e = false ∧ irows h' s' = irows h s
    end;
  get_in_law h s mid r h' s' : in_ok h s → get_in mid (h, s) = (r, (h', s')) →
    in_ok h' s' ∧ ih_frame h h' ∧ irows h' s' = irows h s ∧
    match r with
    | Ok (Some l) => ∃ m, ih h' !! l = Some m ∧ dget mid (irows h s) = Some m
    | Ok None => dget mid (irows h s) = None
    | Raise e => ¬ reliable ∧ is_mqtt_error e = false
    end;
  in_count_law h s r h' s' : in_ok h s → in_count (h, s) = (r, (h', s')) →
    in_ok h' s' ∧ ih_frame h h' ∧ irows h' s' = irows h s ∧
    match r with Ok n => n = len (irows h s) | Raise e => ¬ reliable ∧ is_mqtt_error e = false end;
  in_mids_law h s r h' s' : in_ok h s → in_mids (h, s) = (r, (h', s')) →
    in_ok h' s' ∧ ih_frame h h' ∧ irows h' s' = irows h s ∧
    match r with Ok mids => mids = dkeys (irows h s) | Raise e => ¬ reliable ∧ is_mqtt_error e = false end;
  in_page_law h s mids r h' s' : in_ok h s → in_index_page mids (h, s) = (r, (h', s')) →
    in_ok h' s' ∧ ih_frame h h' ∧ irows h' s' = irows h s ∧
    match r with
    | Ok page => page = omap (λ mid, Memory.meta_of mid <$> dget mid (irows h s)) mids
    | Raise e => ¬ reliable ∧ is_mqtt_error e = false
    end;
  in_meta_law h s mid r h' s' : in_ok h s → in_meta mid (h, s) = (r, (h', s')) →
    in_ok h' s' ∧ ih_frame h h' ∧ irows h' s' = irows h s ∧
    match r with
    | Ok o => o = Memory.meta_of mid <$> dget mid (irows h s)
    | Raise e => ¬ reliable ∧ is_mqtt_error e = false
    end;
  in_next_law h s g r h' s' : in_ok h s → in_replay_next g (h, s) = (r, (h', s')) →
    in_ok h' s' ∧ ih_frame h h' ∧ irows h' s' = irows h s ∧
    match r with
    | Ok (Some page, _) => page ≠ [] ∧
        ∀ l, l ∈ page → ∃ m, ih h' !! l = Some m ∧ dget (i_mid m) (irows h s) = Some m
    | Ok (None, _) => True
    | Raise e => is_mqtt_error e = false
    end;
  mark_law h s mid r h' s' : in_ok h s → mark_in_delivered mid (h, s) = (r, (h', s')) →
    in_ok h' s' ∧ ih_frame h h' ∧
    match r with
    | Ok b =>
        match dget mid (irows h s) with
        | Some m => if i_delivered m then b = false ∧ irows h' s' = irows h s
                    else b = true ∧ irows h' s' = dset mid (i_set_delivered m) (irows h s)
        | None => b = false ∧ irows h' s' = irows h s
        end
    | Raise e => ¬ reliable ∧ is_mqtt_error e = false ∧ irows h' s' = irows h s
    end;
  transition_in_law h s mid st new a r h' s' : in_ok h s → transition_in mid st new a (h, s) = (r, (h', s')) →
    in_ok h' s' ∧ ih_frame h h' ∧
    match r with
    | Ok (Some _) => ∃ m, dget mid (irows h s) = Some m ∧ i_state m = st ∧
        irows h' s' = dset mid (i_set_state m new (user_ack m a)) (irows h s)
    | Ok None => (∀ m, dget mid (irows h s) = Some m → i_state m ≠ st) ∧ irows h' s' = irows h s
    | Raise e => ¬ reliable ∧ is_mqtt_error e = false ∧ irows h' s' = irows h s
    end;
  complete_in_law h s mid st r h' s' : in_ok h s → complete_in mid st (h, s) = (r, (h', s')) →
    in_ok h' s' ∧ ih_frame h h' ∧
    match r with
    | Ok (Some meta) => ∃ m, dget mid (irows h s) = Some m ∧ i_state m = st ∧ meta = Memory.meta_of mid m ∧
        irows h' s' = ddel mid (irows h s)
    | Ok None => (∀ m, dget mid (irows h s) = Some m → i_state m ≠ st) ∧ irows h' s' = irows h s
    | Raise e => ¬ reliable ∧ is_mqtt_error e = false ∧ irows h' s' = irows h s
    end;
  clear_in_law h s r h' s' : in_ok h s → clear_in (h, s) = (r, (h', s')) →
    in_ok h' s' ∧ ih_frame h h' ∧
    match r with
    | Ok _ => irows h' s' = []
    | Raise e => ¬ reliable ∧ is_mqtt_error e = false ∧ irows h' s' = irows h s
    end }.

Lemma kept_fields {S : Type} `{InStoreLaws S} m :
  i_mid (kept m) = i_mid m ∧ i_state (kept m) = i_state m ∧ i_delivered (kept m) = i_delivered m ∧
  i_user_acked (kept m) = i_user_acked m ∧ i_logical_size (kept m) = i_logical_size m ∧ i_qos (kept m) = i_qos m.
Proof. destruct (kept_law m) as [ps ->]. done. Qed.

(** ** The memory store *)

Module MemoryIn.
Import Memory.
Implicit Types (h : Heap) (s : MemoryInflightStore).

Record ok h s : Prop := {
  ok_keys : NoDup (dkeys (_in s));
  ok_rows : ∀ mid l, (mid, l) ∈ _in s → ∃ m, ih h !! l = Some m ∧ i_mid m = mid ∧ 0 < i_logical_size m }.

Definition at_loc h (l : loc) : option InboundMessage := ih h !! l.
Definition table h s : list (Z * InboundMessage) := dmap (at_loc h) (_in s).

Lemma in_ok_total h s : ok h s → dtotal (at_loc h) (_in s).
Proof.
  intros Hs. apply Forall_forall. intros [mid l] Hin. destruct (ok_rows _ _ Hs _ _ Hin) as (m & Hl & _).
  unfold at_loc. simpl. eauto.
Qed.

Lemma in_table_get h s mid : ok h s → dget mid (table h s) = snd <$> i_find mid h s.
Proof.
  intros Hs. unfold table. rewrite dget_dmap by (by apply in_ok_total). unfold i_find, at_loc.
  destruct (dget mid (_in s)) as [l |]; [| done]. simpl. by destruct (ih h !! l).
Qed.

Lemma in_find_inv h s mid l m :
  ok h s → i_find mid h s = Some (l, m) →
  dget mid (_in s) = Some l ∧ ih h !! l = Some m ∧ i_mid m = mid ∧ 0 < i_logical_size m.
Proof.
  intros Hs H. unfold i_find in H. destruct (dget mid (_in s)) as [k |] eqn:E; [| done]. simpl in H.
  destruct (ok_rows _ _ Hs _ _ (dget_Some_elem _ _ _ E)) as (m' & Hl & ? & ?). rewrite Hl in H. by simplify_eq/=.
Qed.

(** A heap in which the stored objects are the same. *)
Lemma in_rows_same h h' s :
  ok h s → (∀ mid l, (mid, l) ∈ _in s → ih h' !! l = ih h !! l) → ok h' s ∧ table h' s = table h s.
Proof.
  intros Hs Hh. split.
  - constructor; [apply Hs |]. intros mid l Hin. rewrite (Hh mid l Hin). by apply (ok_rows _ _ Hs).
  - apply dmap_ext. intros mid l Hin. by apply (Hh mid).
Qed.

Lemma same_in h h' s s' : ok h s → ih h' = ih h → _in s' = _in s → ok h' s' ∧ table h' s' = table h s.
Proof.
  intros Hs Hh Hi. destruct (in_rows_same h h' s Hs) as [[??] Ht]; [by intros; rewrite Hh |].
  split; [constructor; by rewrite Hi |]. rewrite <- Ht. unfold table. by rewrite Hi.
Qed.

(** Assignment to the stored object of [mid]. *)
Lemma write_ok h s mid l m m' :
  ok h s → i_find mid h s = Some (l, m) → i_mid m' = i_mid m → i_logical_size m' = i_logical_size m →
  ok (i_write h l m') s ∧ table (i_write h l m') s = dset mid m' (table h s) ∧ ih_frame h (i_write h l m').
Proof.
  intros Hs E Hm Hn. apply in_find_inv in E as (Hg & Hl & Hmid & Hpos); [| done].
  assert (∀ k, k ≠ l → ih (i_write h l m') !! k = ih h !! k) as Hne.
  { intros k Hk. simpl. by rewrite list_lookup_insert_ne. }
  assert (ih (i_write h l m') !! l = Some m') as Heq.
  { simpl. by rewrite list_lookup_insert_eq by (by eapply lookup_lt_Some). }
  split_and!.
  - constructor; [apply Hs |]. intros k p Hin. destruct (ok_rows _ _ Hs _ _ Hin) as (x & Hk & ? & ?).
    destruct (decide (p = l)) as [-> |]; [| rewrite Hne by done; eauto].
    simplify_eq. exists m'. split_and!; [done | congruence | lia].
  - apply (dmap_update _ _ _ _ l); try done; [apply Hs | by apply in_ok_total |].
    intros k p Hin Hk. apply Hne. intros ->. destruct (ok_rows _ _ Hs _ _ Hin) as (x & Hx & Hmx & _). congruence.
  - intros k [x Hx]. destruct (decide (k = l)) as [-> |]; [eauto | rewrite Hne by done; eauto].
Qed.

Lemma hydrate_page_rows h s mids l :
  ok h s → l ∈ hydrate_page mids h s → ∃ m, ih h !! l = Some m ∧ dget (i_mid m) (table h s) = Some m.
Proof.
  intros Hs. unfold hydrate_page. intros (mid & _ & Hf)%list_elem_of_omap.
  destruct (i_find mid h s) as [[k m] |] eqn:E; [| done]. injection Hf as ->. exists m.
  pose proof (in_find_inv _ _ _ _ _ Hs E) as (_ & Hl & <- & _). rewrite in_table_get by done. by rewrite E.
Qed.

Lemma replay_next_rows h s a b index : ∀ mids n page rest,
  ok h s → replay_next a b h s index mids n = Some (page, rest) →
  page ≠ [] ∧ ∀ l, l ∈ page → ∃ m, ih h !! l = Some m ∧ dget (i_mid m) (table h s) = Some m.
Proof.
  assert (Hp : ∀ mids p ps, ok h s → hydrate_page mids h s = p :: ps → p :: ps ≠ [] ∧
    ∀ l, l ∈ p :: ps → ∃ m, ih h !! l = Some m ∧ dget (i_mid m) (table h s) = Some m).
  { intros mids p ps Hs E. split; [done |]. intros l. rewrite <- E. by apply hydrate_page_rows. }
  induction index as [| l index IH]; intros mids n page rest Hs H; simpl in H.
  { destruct (hydrate_page mids h s) as [| p ps] eqn:E; [done |]. injection H as <- <-. eauto. }
  destruct (ih h !! l) as [m |]; [| by eapply IH].
  assert (Hadd : ∀ mids n, (if (len (mids ++ [i_mid m]) >=? a) || (n + i_logical_size m >=? b)
     then match hydrate_page (mids ++ [i_mid m]) h s with
          | [] => replay_next a b h s index [] 0
          | (_ :: _) as page0 => Some (page0, index) end
     else replay_next a b h s index (mids ++ [i_mid m]) (n + i_logical_size m)) = Some (page, rest) →
    page ≠ [] ∧ ∀ l, l ∈ page → ∃ m, ih h !! l = Some m ∧ dget (i_mid m) (table h s) = Some m).
  { intros mids' n' H'. destruct (_ || _) in H'; [| by eapply IH].
    destruct (hydrate_page (mids' ++ [i_mid m]) h s) as [| p ps] eqn:E; [by eapply IH |]. injection H' as <- <-. eauto. }
  destruct (_ && _) in H; [| by eapply Hadd].
  destruct (hydrate_page mids h s) as [| p ps] eqn:E; [exact (Hadd [] 0 H) |]. injection H as <- <-. eauto.
Qed.

Lemma next_same g x : (in_replay_next g x).2 = x.
Proof. destruct x as [h s]. destruct g; simpl; try done. by repeat case_if. Qed.

Lemma out_call_same x y : out_call x y → ih y.1 = ih x.1 ∧ _in y.2 = _in x.2.
Proof.
  destruct 1; repeat match goal with x : Heap * _ |- _ => destruct x end; simpl; try done;
    unfold put_out, complete_out, transition_out, delete_out; simpl; by repeat case_match.
Qed.

Lemma in_call_same x y : in_call x y → oh y.1 = oh x.1 ∧ _out y.2 = _out x.2.
Proof.
  destruct 1; rewrite ?next_same; repeat match goal with x : Heap * _ |- _ => destruct x end; simpl; try done;
    unfold put_in, mark_in_delivered, transition_in, complete_in; simpl; by repeat case_match.
Qed.

#[export] Program Instance memory_in_laws : InStoreLaws MemoryInflightStore := {|
  irows := table; in_ok := ok; kept := id |}.
Next Obligation. intros m. exists (i_properties m). by destruct m. Qed.
Next Obligation. intros h s Hs. unfold table. rewrite dkeys_dmap by (by apply in_ok_total). apply Hs. Qed.
Next Obligation.
  intros h s mid m Hs. rewrite in_table_get by done. destruct (i_find mid h s) as [[l x] |] eqn:E; [| done].
  apply in_find_inv in E as (_ & _ & ? & ?); [| done]. by intros [= <-].
Qed.
Next Obligation.
  intros h s h' s' Hs [Hh Hi]%out_call_same. simpl in Hh, Hi.
  destruct (same_in h h' s s' Hs Hh Hi). split_and!; try done. intros l. by rewrite Hh.
Qed.
Next Obligation.
  intros h s h' s' Hs [Hh Hi]%in_call_same. simpl in Hh, Hi.
  split_and!.
  - destruct Hs as [Hs1 Hs2 Hs3]. constructor; by rewrite ?Hh, ?Hi.
  - simpl. unfold MemoryLaws.table, MemoryLaws.row_at. by rewrite Hi, Hh.
  - intros l m Hl. exists m. by rewrite Hh.
Qed.
Next Obligation.
  intros h s m Hs. apply in_rows_same; [done |]. intros mid l Hin. destruct (ok_rows _ _ Hs _ _ Hin) as (x & Hl & _).
  rewrite Hl. simpl. by apply lookup_app_l_Some.
Qed.
Next Obligation.
  intros h s l m r h' s' Hs Hl H. simpl in H. unfold put_in in H. rewrite Hl in H.
  destruct (i_logical_size m <=? 0) eqn:E; bools; simplify_eq; [by split_and! |].
  split_and!; [constructor; simpl | done | done |].
  - apply NoDup_dset, Hs.
  - intros mid k Hin. apply (dget_elem_NoDup _ _ _ (NoDup_dset _ _ _ (ok_keys _ _ Hs))) in Hin.
    rewrite dget_dset in Hin. case_decide; simplify_eq; [eauto |]. by apply (ok_rows _ _ Hs), dget_Some_elem.
  - unfold table. simpl. apply dmap_dset; [by apply in_ok_total | done].
Qed.
Next Obligation.
  intros h s mid r h' s' Hs [= <- <- <-]. split_and!; try done. rewrite in_table_get by done.
  destruct (i_find mid h s) as [[l m] |] eqn:E; simpl; [| done]. apply in_find_inv in E as (_ & ? & _); [| done]. eauto.
Qed.
Next Obligation.
  intros h s r h' s' Hs [= <- <- <-]. split_and!; try done. unfold len, table.
  rewrite <- (length_fmap fst (_in s)), <- (length_fmap fst (dmap _ _)). fold (dkeys (_in s)).
  fold (dkeys (dmap (at_loc h) (_in s))). by rewrite dkeys_dmap by (by apply in_ok_total).
Qed.
Next Obligation.
  intros h s r h' s' Hs [= <- <- <-]. split_and!; try done. unfold table. by rewrite dkeys_dmap by (by apply in_ok_total).
Qed.
Next Obligation.
  intros h s mids r h' s' Hs [= <- <- <-]. split_and!; try done.
  apply list_omap_ext, Forall_Forall2_diag, Forall_forall. intros mid _.
  rewrite in_table_get by done. by destruct (i_find mid h s) as [[l m] |].
Qed.
Next Obligation.
  intros h s mid r h' s' Hs [= <- <- <-]. split_and!; try done. rewrite in_table_get by done.
  by destruct (i_find mid h s) as [[l m] |].
Qed.
Next Obligation.
  intros h s g r h' s' Hs H. change (in_replay_next g (h, s) = (r, (h', s'))) in H.
  pose proof (next_same g (h, s)) as E. rewrite H in E. simpl in E. injection E as -> ->.
  split_and!; try done.
  assert (Hr : ∀ a b index, match replay_from a b h s index with
    | (Some page, _) => page ≠ [] ∧ ∀ l, l ∈ page → ∃ m, ih h !! l = Some m ∧ dget (i_mid m) (table h s) = Some m
    | (None, _) => True end).
  { intros a b index. unfold replay_from. destruct (replay_next a b h s index [] 0) as [[page rest] |] eqn:E; [| done].
    by eapply replay_next_rows. }
  destruct g as [a b | a b index | a b index |]; simpl in H; [case_ifs_in H | ..]; injection H as <-; try done; apply Hr.
Qed.
Next Obligation.
  intros h s mid r h' s' Hs H. simpl in H. unfold mark_in_delivered in H. rewrite in_table_get by done.
  destruct (i_find mid h s) as [[l m] |] eqn:E; simpl; [| by injection H as <- <- <-].
  destruct (i_delivered m) eqn:Ed; injection H as <- <- <-; [by split_and! |].
  destruct (write_ok h s mid l m (i_set_delivered m)) as (? & ? & ?); try done.
Qed.
Next Obligation.
  intros h s mid st new a r h' s' Hs H. simpl in H. unfold transition_in in H. rewrite in_table_get by done.
  destruct (i_find mid h s) as [[l m] |] eqn:E; simpl; [| by injection H as <- <- <-].
  case_bool_decide; injection H as <- <- <-; [| split_and!; try done; by intros ? [= <-]].
  destruct (write_ok h s mid l m (i_set_state m new (user_ack m a))) as (? & ? & ?); try done. split_and!; eauto.
Qed.
Next Obligation.
  intros h s mid st r h' s' Hs H. simpl in H. unfold complete_in in H. rewrite in_table_get by done.
  destruct (i_find mid h s) as [[l m] |] eqn:E; simpl; [| by injection H as <- <- <-].
  case_bool_decide; injection H as <- <- <-; [| split_and!; try done; by intros ? [= <-]].
  split_and!; [constructor; simpl | done |].
  - apply NoDup_ddel, Hs.
  - intros k p Hin. apply (ok_rows _ _ Hs). eapply elem_of_sublist; [done | apply ddel_sub].
  - exists m. split_and!; try done. unfold table. simpl. by apply dmap_ddel, in_ok_total.
Qed.
Next Obligation.
  intros h s r h' s' Hs [= <- <- <-]. split_and!; try done. constructor; [apply NoDup_nil_2 |]. by intros ? ? ?%not_elem_of_nil.
Qed.
End MemoryIn.
Export (hints) MemoryIn.

(** ** A failing store keeps the promise too *)

Section fault_laws.
Context {S : Type} `{InStoreLaws S}.
Implicit Types (h : Heap) (x : S * list bool).

(** A guarded call did nothing, or what the wrapped store does. *)
Lemma guard_fault_run {A} (f : sop S A) h x h' x' :
  (h', x') = (guard_fault f (h, x)).2 → (h' = h ∧ x'.1 = x.1) ∨ (h', x'.1) = (f (h, x.1)).2.
Proof.
  destruct (guard_fault f (h, x)) as [r [h1 x1]] eqn:E. simpl. intros [= -> ->].
  apply guard_fault_inv in E as [(_ & -> & ->) | E]; [by left | right]. by rewrite E.
Qed.

Lemma out_call_fault h x h' x' :
  out_call (h, x) (h', x') → (h' = h ∧ x'.1 = x.1) ∨ out_call (h, x.1) (h', x'.1).
Proof.
  intros Hc. remember (h, x) as c eqn:Ec. remember (h', x') as c' eqn:Ec'.
  destruct Hc; subst; try (symmetry in Ec'; apply guard_fault_run in Ec' as [? | ->]; [by left | right; constructor]).
  all: injection Ec as -> ->; injection Ec' as <- <-; right; constructor.
Qed.

Lemma in_call_fault h x h' x' :
  in_call (h, x) (h', x') → (h' = h ∧ x'.1 = x.1) ∨ in_call (h, x.1) (h', x'.1).
Proof.
  intros Hc. remember (h, x) as c eqn:Ec. remember (h', x') as c' eqn:Ec'.
  destruct Hc; subst; try (symmetry in Ec'; apply guard_fault_run in Ec' as [? | ->]; [by left | right; constructor]).
  injection Ec as -> ->. injection Ec' as <- <-. right. constructor.
Qed.

Ltac fault_case law :=
  intros; cbn beta in *;
  match goal with Hg : _ = (_, (_, _)) |- _ => apply guard_fault_inv in Hg as [(-> & -> & ->) | Hg] end;
  [ split_and!; try done; tauto
  | match goal with Hg : _ = (?r, (_, _)) |- _ =>
      destruct r; eapply law in Hg; try eassumption; naive_solver end ].

#[export] Program Instance fault_in_laws : InStoreLaws (S * list bool) := {|
  irows h x := irows h x.1; in_ok h x := in_ok h x.1; kept := kept (S := S) |}.
Next Obligation. apply kept_law. Qed.
Next Obligation. intros h [s fs] Hs. by apply irows_NoDup. Qed.
Next Obligation. intros h [s fs] mid m Hs. by apply irows_mid. Qed.
Next Obligation. intros h x h' x' Hs [[-> ->] | Hc]%out_call_fault; [done | by apply out_keeps]. Qed.
Next Obligation.
  intros h x h' x' Hs [[-> E] | Hc]%in_call_fault; [| exact (in_keeps (S := S) h x.1 h' x'.1 Hs Hc)]. simpl. rewrite E.
  split_and!; [done | done | apply heap_frame_refl].
Qed.
Next Obligation. intros h [s fs] m Hs. by apply i_alloc_law. Qed.
Next Obligation. fault_case put_in_law. Qed.
Next Obligation. fault_case get_in_law. Qed.
Next Obligation. fault_case in_count_law. Qed.
Next Obligation. fault_case in_mids_law. Qed.
Next Obligation. fault_case in_page_law. Qed.
Next Obligation. fault_case in_meta_law. Qed.
Next Obligation. fault_case in_next_law. Qed.
Next Obligation. fault_case mark_law. Qed.
Next Obligation. fault_case transition_in_law. Qed.
Next Obligation. fault_case complete_in_law. Qed.
Next Obligation. fault_case clear_in_law. Qed.
End fault_laws.
