(* ===== verification/Json.v ===== *)
(** * The persisted form of properties ([src/mqttium/persistence/sqlite.py])

    [_props_to_json] and [_props_from_json] with what they use of the modules
    [json] and [base64]: [json.dumps] as it writes with its default ASCII
    escapes, [json.loads] with its grammar, and standard Base64.  A decoded
    number with a fraction or an exponent is a float, which no property holds:
    it is only known as [JReal]. *)

From S2P Require Import Prelude PyStr Properties.

(** ** Base64 *)

Definition b64_chr (n : Z) : Z :=
  if n <? 26 then 65 + n else if n <? 52 then 71 + n else if n <? 62 then n - 4 else if n =? 62 then 43 else 47.
Definition b64_val (c : Z) : option Z :=
  if (65 <=? c) && (c <=? 90) then Some (c - 65)
  else if (97 <=? c) && (c <=? 122) then Some (c - 71)
  else if (48 <=? c) && (c <=? 57) then Some (c + 4)
  else if c =? 43 then Some 62 else if c =? 47 then Some 63 else None.

(** [base64.b64encode(value).decode("ascii")]. *)
Fixpoint b64encode (b : bytes) : pystr :=
  match b with
  | x :: y :: z :: b =>
      b64_chr (x / 4) :: b64_chr (x mod 4 * 16 + y / 16) :: b64_chr (y mod 16 * 4 + z / 64) :: b64_chr (z mod 64) ::
      b64encode b
  | [x; y] => [b64_chr (x / 4); b64_chr (x mod 4 * 16 + y / 16); b64_chr (y mod 16 * 4); 61]
  | [x] => [b64_chr (x / 4); b64_chr (x mod 4 * 16); 61; 61]
  | [] => []
  end.

(** [base64.b64decode(encoded, validate=True)]. *)
Fixpoint b64decode (s : pystr) : option bytes :=
  match s with
  | [] => Some []
  | a :: b :: c :: d :: s =>
      a ← b64_val a; b ← b64_val b;
      if (d =? 61) && bool_decide (s = []) then
        if c =? 61 then Some [a * 4 + b / 16]
        else c ← b64_val c; Some [a * 4 + b / 16; b mod 16 * 16 + c / 4]
      else
        c ← b64_val c; d ← b64_val d; rest ← b64decode s;
        Some (a * 4 + b / 16 :: b mod 16 * 16 + c / 4 :: c mod 4 * 64 + d :: rest)
  | _ => None
  end.

(** ** JSON values *)

Inductive json :=
  | JNull
  | JInt (z : Z)
  | JReal
  | JStr (s : pystr)
  | JArr (l : list json)
  | JObj (d : list (pystr * json)).

(** *** [json.dumps(value, separators=(",", ":"))] *)

Definition hex_digit (n : Z) : Z := if n <? 10 then 48 + n else 87 + n.
Definition u_escape (n : Z) : pystr :=
  [92; 117; hex_digit (n / 4096 mod 16); hex_digit (n / 256 mod 16); hex_digit (n / 16 mod 16); hex_digit (n mod 16)].

Definition escape (c : Z) : pystr :=
  if c =? 34 then [92; 34] else if c =? 92 then [92; 92]
  else if (32 <=? c) && (c <=? 126) then [c]
  else if c =? 10 then [92; 110] else if c =? 13 then [92; 114] else if c =? 9 then [92; 116]
  else if c =? 12 then [92; 102] else if c =? 8 then [92; 98]
  else if c <? 0x10000 then u_escape c
  else u_escape (0xD800 + (c - 0x10000) / 1024 mod 1024) ++ u_escape (0xDC00 + (c - 0x10000) mod 1024).

Definition dumps_str (s : pystr) : pystr := 34 :: mbind escape s ++ [34].

Fixpoint dec_digits (fuel : nat) (n : Z) (acc : pystr) : pystr :=
  match fuel with
  | O => acc
  | S fuel => let acc := 48 + n mod 10 :: acc in if n <? 10 then acc else dec_digits fuel (n / 10) acc
  end.
(** [int.__repr__]; a number has no more decimal than binary digits. *)
Definition int_repr (z : Z) : pystr :=
  let n := Z.abs z in
  (if z <? 0 then [45] else []) ++ dec_digits (S (Z.to_nat (Z.log2 n))) n [].

Fixpoint dumps (j : json) : pystr :=
  match j with
  | JNull => lit "null"
  | JInt z => int_repr z
  | JReal => lit "NaN"
  | JStr s => dumps_str s
  | JArr l => 91 :: join_chr 44 (dumps <$> l) ++ [93]
  | JObj d => 123 :: join_chr 44 ((λ '(k, v), dumps_str k ++ 58 :: dumps v) <$> d) ++ [125]
  end.

(** *** [json.loads] *)

Fixpoint skip_ws (s : pystr) : pystr :=
  match s with
  | c :: s' => if (c =? 32) || (c =? 9) || (c =? 10) || (c =? 13) then skip_ws s' else s
  | [] => []
  end.

Definition hex_val (c : Z) : option Z :=
  if (48 <=? c) && (c <=? 57) then Some (c - 48)
  else if (97 <=? c) && (c <=? 102) then Some (c - 87)
  else if (65 <=? c) && (c <=? 70) then Some (c - 55) else None.

(** The four digits of [\uXXXX]. *)
Definition read_u (s : pystr) : option (Z * pystr) :=
  match s with
  | a :: b :: c :: d :: s =>
      a ← hex_val a; b ← hex_val b; c ← hex_val c; d ← hex_val d; Some (a * 4096 + b * 256 + c * 16 + d, s)
  | _ => None
  end.

Definition simple_escape (c : Z) : option Z :=
  if (c =? 34) || (c =? 92) || (c =? 47) then Some c
  else if c =? 98 then Some 8 else if c =? 102 then Some 12 else if c =? 110 then Some 10
  else if c =? 114 then Some 13 else if c =? 116 then Some 9 else None.

Definition is_high (n : Z) : bool := (0xD800 <=? n) && (n <=? 0xDBFF).
Definition is_low (n : Z) : bool := (0xDC00 <=? n) && (n <=? 0xDFFF).

(** A [\u] escape: a high surrogate joins the low one escaped after it. *)
Definition read_unicode (s : pystr) : option (Z * pystr) :=
  '(n, s) ← read_u s;
  match s with
  | 92 :: 117 :: s' =>
      if is_high n then
        '(m, s') ← read_u s';
        if is_low m then Some (0x10000 + (n - 0xD800) * 1024 + (m - 0xDC00), s') else Some (n, s)
      else Some (n, s)
  | _ => Some (n, s)
  end.

(** [scanstring] after the opening quote. *)
Fixpoint scan_string (fuel : nat) (s : pystr) : option (pystr * pystr) :=
  match fuel with
  | O => None
  | S fuel =>
      match s with
      | [] => None
      | 34 :: s => Some ([], s)
      | 92 :: 117 :: s => '(c, s) ← read_unicode s; '(t, s) ← scan_string fuel s; Some (c :: t, s)
      | 92 :: c :: s => c ← simple_escape c; '(t, s) ← scan_string fuel s; Some (c :: t, s)
      | c :: s => if c <? 32 then None else '(t, s) ← scan_string fuel s; Some (c :: t, s)
      end
  end.

Fixpoint span_digits (s : pystr) : pystr * pystr :=
  match s with
  | c :: s' => if is_digit c then let '(d, r) := span_digits s' in (c :: d, r) else ([], s)
  | [] => ([], [])
  end.
Definition digits_value (d : pystr) : Z := foldl (λ acc c, acc * 10 + (c - 48)) 0 d.

(** What follows the integer part of a number: [(\.\d+)?([eE][-+]?\d+)?]. *)
Definition skip_frac (s : pystr) : option pystr :=
  match s with
  | 46 :: s => match span_digits s with ([], _) => None | (_, r) => Some r end
  | _ => None
  end.
Definition skip_exp (s : pystr) : option pystr :=
  match s with
  | e :: s =>
      if (e =? 101) || (e =? 69) then
        let s := match s with c :: s' => if (c =? 43) || (c =? 45) then s' else s | [] => s end in
        match span_digits s with ([], _) => None | (_, r) => Some r end
      else None
  | [] => None
  end.

Definition int_part (s : pystr) : option (Z * pystr) :=
  match s with
  | c :: s' =>
      if c =? 48 then Some (0, s')
      else match span_digits s with ([], _) => None | (d, r) => Some (digits_value d, r) end
  | [] => None
  end.

Definition number_end (n : Z) (s : pystr) : json * pystr :=
  match skip_frac s with
  | Some s => (JReal, match skip_exp s with Some s => s | None => s end)
  | None => match skip_exp s with Some s => (JReal, s) | None => (JInt n, s) end
  end.

Definition read_number (s : pystr) : option (json * pystr) :=
  match s with
  | c :: s' =>
      if c =? 45 then '(n, s) ← int_part s'; Some (number_end (- n) s)
      else '(n, s) ← int_part s; Some (number_end n s)
  | [] => None
  end.

(** Constants: the names [json] accepts. *)
Definition CONSTANTS : list (pystr * json) :=
  [(lit "null", JNull); (lit "true", JInt 1); (lit "false", JInt 0); (lit "NaN", JReal); (lit "Infinity", JReal);
   (lit "-Infinity", JReal)].
Fixpoint read_constant (cs : list (pystr * json)) (s : pystr) : option (json * pystr) :=
  match cs with
  | [] => None
  | (name, j) :: cs => if startswith s name then Some (j, drop (length name) s) else read_constant cs s
  end.

(** [scan_once], the elements of an array after [[] and the members of an object
    after the opening quote of a key. *)
Fixpoint scan_once (fuel : nat) (s : pystr) : option (json * pystr) :=
  match fuel with
  | O => None
  | S fuel =>
      match s with
      | 34 :: s => '(t, s) ← scan_string (length s) s; Some (JStr t, s)
      | 91 :: s =>
          match skip_ws s with
          | 93 :: s => Some (JArr [], s)
          | s => '(l, s) ← scan_elements fuel s; Some (JArr l, s)
          end
      | 123 :: s =>
          match skip_ws s with
          | 125 :: s => Some (JObj [], s)
          | 34 :: s => '(d, s) ← scan_members fuel s []; Some (JObj d, s)
          | _ => None
          end
      | _ =>
          match read_constant CONSTANTS s with
          | Some r => Some r
          | None => read_number s
          end
      end
  end
with scan_elements (fuel : nat) (s : pystr) : option (list json * pystr) :=
  match fuel with
  | O => None
  | S fuel =>
      '(v, s) ← scan_once fuel s;
      match skip_ws s with
      | 93 :: s => Some ([v], s)
      | 44 :: s => '(l, s) ← scan_elements fuel (skip_ws s); Some (v :: l, s)
      | _ => None
      end
  end
with scan_members (fuel : nat) (s : pystr) (d : list (pystr * json)) : option (list (pystr * json) * pystr) :=
  match fuel with
  | O => None
  | S fuel =>
      '(k, s) ← scan_string (length s) s;
      match skip_ws s with
      | 58 :: s =>
          '(v, s) ← scan_once fuel (skip_ws s);
          let d := dset k v d in
          match skip_ws s with
          | 125 :: s => Some (d, s)
          | 44 :: s => match skip_ws s with 34 :: s => scan_members fuel s d | _ => None end
          | _ => None
          end
      | _ => None
      end
  end.

(** Every call consumes a character or is followed by one that does. *)
Definition loads (s : pystr) : res json :=
  match scan_once (S (2 * length s)) (skip_ws s) with
  | Some (j, s) => match skip_ws s with [] => Ok j | _ => Raise ValueError end
  | None => Raise ValueError
  end.

(** ** Properties *)

Definition MARKER : pystr := lit "__mqttium_bytes__".

Fixpoint _json_sanitize (value : pyval) : json :=
  match value with
  | VNone => JNull
  | VInt z => JInt z
  | VStr s => JStr s
  | VBytes b => JObj [(MARKER, JStr (b64encode b))]
  | VTuple l => JArr (_json_sanitize <$> l)
  end.

(** A value that is not one of the five property types, a dictionary among them,
    is refused by [Properties]: [None]. *)
Definition marked (d : list (pystr * json)) : option json :=
  match d with [(k, v)] => if bool_decide (k = MARKER) then Some v else None | _ => None end.
Fixpoint _json_revive (value : json) : option pyval :=
  match value with
  | JNull => Some VNone
  | JInt z => Some (VInt z)
  | JReal => None
  | JStr s => Some (VStr s)
  | JArr l => VTuple <$> mapM _json_revive l
  | JObj d => match marked d with Some (JStr s) => VBytes <$> b64decode s | _ => None end
  end.

Fixpoint unlit (s : pystr) : option string :=
  match s with
  | [] => Some EmptyString
  | c :: s => if (0 <=? c) && (c <=? 255) then String (Ascii.ascii_of_N (Z.to_N c)) <$> unlit s else None
  end.

Definition _props_to_json (props : option propmap) : option pystr :=
  match props with
  | None | Some [] => None
  | Some values => Some (dumps (JObj ((λ '(k, v), (lit k, _json_sanitize v)) <$> values)))
  end.

Definition revive_entry (e : pystr * json) : option (string * pyval) :=
  k ← unlit e.1; v ← _json_revive e.2; Some (k, v).

Definition _props_from_json (raw : option pystr) : res (option propmap) :=
  match raw with
  | None => Ok None
  | Some raw =>
      let! j := loads raw in
      match j with
      | JObj d =>
          match marked d with
          | Some _ => Raise ValueError
          | None => match mapM revive_entry d with Some values => Ok (Some (Properties_init values)) | None => Raise ValueError end
          end
      | _ => Raise ValueError
      end
  end.

Example props_json_ex :
  let ps := [("content_type"%string, VStr (34 :: lit "a/b")); ("correlation_data"%string, VBytes [1; 255; 0; 7]);
             ("user_property"%string, VTuple [VTuple [VStr [233; 0x1F600]; VStr []]]); ("topic_alias"%string, VInt (-120))] in
  _props_from_json (_props_to_json (Some ps)) = Ok (Some ps).
Proof. vm_compute. reflexivity. Qed.

(** ** Base64 inverts *)

#[local] Ltac Zify.zify_post_hook ::= Z.to_euclidean_division_equations.

Lemma b64_val_chr n : 0 ≤ n < 64 → b64_val (b64_chr n) = Some n.
Proof. intros Hn. unfold b64_chr, b64_val. repeat case_if; bools; try lia; f_equal; lia. Qed.

Lemma b64_chr_pad n : 0 ≤ n < 64 → (b64_chr n =? 61) = false.
Proof. intros Hn. unfold b64_chr. repeat case_if; bools; lia. Qed.

Lemma b64decode_encode b : bytes_ok b → b64decode (b64encode b) = Some b.
Proof.
  enough (∀ n b, (length b ≤ n)%nat → bytes_ok b → b64decode (b64encode b) = Some b) as H by by apply (H (length b)).
  clear b. intros n. induction n as [| n IH]; intros b Hn Hb.
  - by destruct b; simpl in Hn; [| lia].
  - destruct b as [| x [| y [| z b]]]; [done | | |]; inversion_clear Hb as [| ? ? Hx Hb1]; unfold byte_ok in Hx.
    + cbn [b64encode b64decode]. rewrite !b64_val_chr by lia. cbn. do 2 f_equal. lia.
    + inversion_clear Hb1 as [| ? ? Hy Hb2]; unfold byte_ok in Hy. cbn [b64encode b64decode].
      rewrite !b64_val_chr by lia. cbn [mbind option_bind]. rewrite b64_chr_pad by lia. cbn. repeat f_equal; lia.
    + inversion_clear Hb1 as [| ? ? Hy Hb2]; inversion_clear Hb2 as [| ? ? Hz Hb3]; unfold byte_ok in Hy, Hz.
      cbn [b64encode b64decode]. rewrite b64_chr_pad by lia. cbn [andb]. rewrite !b64_val_chr by lia.
      cbn [mbind option_bind]. rewrite IH by (simpl in Hn; try lia; done). cbn. repeat f_equal; lia.
Qed.

(** ** Strings *)

(** A character with its own UTF-8 encoding: not a surrogate. *)
Definition clean (c : Z) : Prop := 0 ≤ c < 0x110000 ∧ ¬ 0xD800 ≤ c < 0xE000.

Lemma hex_val_digit n : 0 ≤ n < 16 → hex_val (hex_digit n) = Some n.
Proof. intros Hn. unfold hex_digit, hex_val. repeat case_if; bools; try lia; f_equal; lia. Qed.

Lemma read_u_escape n r : read_u (drop 2 (u_escape n) ++ r) = Some (n mod 65536, r).
Proof.
  unfold u_escape. cbn [drop app read_u]. rewrite !hex_val_digit by (apply Z.mod_pos_bound; lia).
  cbn [mbind option_bind]. do 2 f_equal. lia.
Qed.

Lemma u_escape_eq n r : u_escape n ++ r = 92 :: 117 :: drop 2 (u_escape n) ++ r.
Proof. done. Qed.

(** An escaped string followed by its closing quote. *)
Abbreviation closed s r := (mbind escape s ++ 34 :: r).

Lemma closed_cons c s r : closed (c :: s) r = escape c ++ closed s r.
Proof. cbn [mbind list_bind]. by rewrite <- app_assoc. Qed.

(** How the scanner reads one escape that is not a surrogate pair to be. *)
Definition no_u (s : pystr) : Prop := ∀ t, s ≠ 92 :: 117 :: t.

Lemma read_unicode_alone n r : is_high (n mod 65536) = false ∨ no_u r →
  read_unicode (drop 2 (u_escape n) ++ r) = Some (n mod 65536, r).
Proof.
  intros H. unfold read_unicode. rewrite read_u_escape. cbn [mbind option_bind].
  destruct r as [| a [| b r]]; [done | by repeat case_match |].
  destruct H as [-> | H]; [by repeat case_match |].
  repeat case_match; try done. subst. by edestruct H.
Qed.

Lemma read_unicode_pair n m r : is_high (n mod 65536) = true → is_low (m mod 65536) = true →
  read_unicode (drop 2 (u_escape n) ++ u_escape m ++ r) =
    Some (0x10000 + (n mod 65536 - 0xD800) * 1024 + (m mod 65536 - 0xDC00), r).
Proof.
  intros Hn Hm. unfold read_unicode. rewrite read_u_escape, u_escape_eq. cbn [mbind option_bind].
  rewrite Hn, read_u_escape. cbn [mbind option_bind]. by rewrite Hm.
Qed.

Lemma read_unicode_high n m r : is_low (m mod 65536) = false →
  read_unicode (drop 2 (u_escape n) ++ u_escape m ++ r) = Some (n mod 65536, u_escape m ++ r).
Proof.
  intros Hm. unfold read_unicode. rewrite read_u_escape, u_escape_eq. cbn [mbind option_bind].
  case_if; [| done]. rewrite read_u_escape. cbn [mbind option_bind]. by rewrite Hm.
Qed.

(** The three forms of an escaped character. *)
Lemma escape_cases c :
  ((∀ f w, scan_string (S f) (escape c ++ w) = '(t, s) ← scan_string f w; Some (c :: t, s)) ∧ ∀ w, no_u (escape c ++ w)) ∨
  (c < 0x10000 ∧ escape c = u_escape c) ∨
  (0x10000 ≤ c ∧ escape c = u_escape (0xD800 + (c - 0x10000) / 1024 mod 1024) ++ u_escape (0xDC00 + (c - 0x10000) mod 1024)).
Proof.
  unfold escape. repeat (case_if; bools; [subst; left; split; [done | by intros w t] |]).
  case_if; bools.
  - left. split; [| by intros w t [= -> _]]. intros f w. cbn [app scan_string].
    assert ((c <? 32) = false) as -> by lia. repeat case_match; try done; lia.
  - repeat (case_if; bools; [subst; left; split; [done | by intros w t] |]).
    case_if; bools; [right; left; split; [lia | done] | right; right; split; [lia | done]].
Qed.

Lemma scan_u f w c s : read_unicode (drop 2 (u_escape c) ++ w) = Some s →
  scan_string (S f) (u_escape c ++ w) = '(t, r) ← scan_string f s.2; Some (s.1 :: t, r).
Proof. intros H. rewrite u_escape_eq. cbn [scan_string]. rewrite H. by destruct s. Qed.

Lemma scan_closed n : ∀ s, (length s ≤ n)%nat → ∃ t, (Forall clean s → t = s) ∧
  ∀ r f, (length s < f)%nat → scan_string f (closed s r) = Some (t, r).
Proof.
  induction n as [| n IH]; intros s Hn.
  { destruct s; [| simpl in Hn; lia]. exists []. split; [done |]. by intros r [|]; [lia |]. }
  destruct s as [| c s]; [exists []; split; [done |]; by intros r [|]; [lia |] |]. simpl in Hn.
  destruct (IH s) as (t & Ht & Hs); [lia |]. destruct (escape_cases c) as [[He _] | [[Hc He] | [Hc He]]].
  - exists (c :: t). split; [intros [_ Hcl]%Forall_cons; by rewrite Ht |].
    intros r [| f] Hf; simpl in Hf; [lia |]. rewrite closed_cons, He, Hs by lia. done.
  - destruct (is_high (c mod 65536)) eqn:Hh.
    + assert (¬ Forall clean (c :: s)) as Hno.
      { intros [Hcl _]%Forall_cons. unfold clean in Hcl. unfold is_high in Hh. bools. lia. }
      assert (Hstep : (∀ r, no_u (closed s r)) ∨ (∃ m w, s ≠ [] ∧ is_low (m mod 65536) = false ∧ ∀ r, closed s r = u_escape m ++ w r) ∨
        ∃ m s', (length s' < length s)%nat ∧ is_low (m mod 65536) = true ∧ ∀ r, closed s r = u_escape m ++ closed s' r).
      { destruct s as [| d s']; [left; by intros r w |]. destruct (escape_cases d) as [[_ Hd] | [[Hd Ed] | [Hd Ed]]].
        - left. intros r. rewrite closed_cons. apply Hd.
        - right. destruct (is_low (d mod 65536)) eqn:El.
          + right. exists d, s'. split_and!; [simpl; lia | done |]. intros r. by rewrite closed_cons, Ed.
          + left. exists d, (λ r, closed s' r). split_and!; [done | done |]. intros r. by rewrite closed_cons, Ed.
        - right. left. eexists _, (λ r, u_escape (0xDC00 + (d - 0x10000) mod 1024) ++ closed s' r).
          split_and!; [done | | intros r; rewrite closed_cons, Ed, <- app_assoc; reflexivity].
          unfold is_low. apply andb_false_iff. left. apply Z.leb_gt. lia. }
      destruct Hstep as [Hno' | [(m & w & _ & Hm & Hw) | (m & s' & Hl & Hm & Hw)]].
      * exists (c mod 65536 :: t). split; [done |]. intros r [| f] Hf; simpl in Hf; [lia |]. rewrite closed_cons, He.
        rewrite (scan_u _ _ _ (c mod 65536, closed s r)) by (apply read_unicode_alone; by right). cbn [fst snd].
        rewrite Hs by lia. done.
      * exists (c mod 65536 :: t). split; [done |]. intros r [| f] Hf; simpl in Hf; [lia |]. rewrite closed_cons, He.
        rewrite (scan_u _ _ _ (c mod 65536, closed s r)) by (rewrite Hw; by apply read_unicode_high). cbn [fst snd].
        rewrite Hs by lia. done.
      * destruct (IH s') as (t' & _ & Hs'); [lia |]. eexists (_ :: t'). split; [done |].
        intros r [| f] Hf; simpl in Hf; [lia |]. rewrite closed_cons, He, Hw.
        erewrite scan_u by by apply read_unicode_pair. cbn [fst snd]. rewrite Hs' by lia. done.
    + exists (c mod 65536 :: t). split.
      { intros [Hcl Hcs]%Forall_cons. rewrite Ht by done. f_equal. unfold clean in Hcl. lia. }
      intros r [| f] Hf; simpl in Hf; [lia |]. rewrite closed_cons, He.
      rewrite (scan_u _ _ _ (c mod 65536, closed s r)) by (apply read_unicode_alone; by left). cbn [fst snd].
      rewrite Hs by lia. done.
  - exists (0x10000 + (c - 0x10000) mod 0x100000 :: t). split.
    { intros [Hcl Hcs]%Forall_cons. rewrite Ht by done. f_equal. unfold clean in Hcl. lia. }
    intros r [| f] Hf; simpl in Hf; [lia |]. rewrite closed_cons, He, <- app_assoc.
    erewrite scan_u.
    2:{ apply read_unicode_pair; unfold is_high, is_low; apply andb_true_iff; rewrite !Z.leb_le; lia. }
    cbn [fst snd]. rewrite Hs by lia. cbn. do 3 f_equal. lia.
Qed.

(** What the scanner makes of a dumped string: itself when every character is
    [clean], a joined surrogate pair otherwise. *)
Definition sread (s : pystr) : pystr :=
  match scan_string (S (length s)) (closed s []) with Some (t, _) => t | None => [] end.

Lemma scan_sread s r f : (length s < f)%nat → scan_string f (closed s r) = Some (sread s, r).
Proof.
  intros Hf. destruct (scan_closed (length s) s) as (t & _ & Hs); [lia |].
  assert (sread s = t) as -> by (unfold sread; by rewrite Hs by lia). by apply Hs.
Qed.

Lemma sread_clean s : Forall clean s → sread s = s.
Proof.
  intros Hc. destruct (scan_closed (length s) s) as (t & Ht & Hs); [lia |]. unfold sread. rewrite Hs by lia. by apply Ht.
Qed.

Lemma escape_length s : (length s ≤ length (mbind escape s))%nat.
Proof.
  induction s as [| c s IH]; [done |]. cbn [mbind list_bind]. rewrite length_app. simpl.
  enough (0 < length (escape c))%nat by lia. unfold escape. repeat case_if; simpl; lia.
Qed.

(** ** Numbers *)

Lemma dec_digits_spec f : ∀ n acc, 0 ≤ n < 10 ^ Z.of_nat (S f) → ∃ d,
  dec_digits (S f) n acc = d ++ acc ∧ Forall (λ c, is_digit c = true) d ∧
  (∀ a, foldl (λ acc c, acc * 10 + (c - 48)) a d = a * 10 ^ len d + n) ∧
  (d = [48] ∨ ∃ x d', d = x :: d' ∧ x ≠ 48) ∧ (n ≠ 0 → d ≠ [48]).
Proof.
  induction f as [| f IH]; intros n acc Hn.
  - assert (n < 10) by (change (10 ^ Z.of_nat 1) with 10 in Hn; lia). exists [48 + n]. cbn [dec_digits].
    rewrite (proj2 (Z.ltb_lt n 10)), Z.mod_small by lia. split_and!; [done | | intros a | | intros Hz [= E]; lia].
    + constructor; [| done]. unfold is_digit. apply andb_true_iff. rewrite !Z.leb_le. lia.
    + cbn [foldl]. change (10 ^ len [48 + n]) with 10. lia.
    + destruct (decide (n = 0)) as [-> |]; [by left | right; eexists _, _; split; [done | lia]].
  - change (dec_digits (S (S f)) n acc) with
      (let acc := 48 + n mod 10 :: acc in if n <? 10 then acc else dec_digits (S f) (n / 10) acc). cbv zeta.
    assert (is_digit (48 + n mod 10) = true) as Hd.
    { unfold is_digit. apply andb_true_iff. rewrite !Z.leb_le. lia. }
    destruct (n <? 10) eqn:E; bools.
    + exists [48 + n mod 10]. rewrite Z.mod_small in * by lia.
      split_and!; [done | by constructor | intros a | | intros Hz [= E']; lia].
      * cbn [foldl]. change (10 ^ len [48 + n]) with 10. lia.
      * destruct (decide (n = 0)) as [-> |]; [by left | right; eexists _, _; split; [done | lia]].
    + rewrite Nat2Z.inj_succ, Z.pow_succ_r in Hn by lia.
      destruct (IH (n / 10) (48 + n mod 10 :: acc)) as (d & -> & Hall & Hv & Hl & Hz); [lia |].
      exists (d ++ [48 + n mod 10]). rewrite <- app_assoc. split_and!; [done | | intros a | | intros _ [= E']].
      * apply Forall_app. split; [done | by constructor].
      * rewrite foldl_app, Hv. cbn [foldl]. rewrite len_app. change (len [48 + n mod 10]) with 1.
        pose proof (len_nonneg d). rewrite Z.pow_add_r by lia. lia.
      * right. destruct Hl as [-> | (x & d' & -> & Hx)]; [by destruct Hz; [lia |] | by eexists _, _].
      * destruct d as [| x [| y d]]; [| done | done]. destruct Hl as [? | (? & ? & ? & _)]; done.
Qed.

(** What may follow a value: nothing that continues a number. *)
Definition stops (r : pystr) : Prop := match r with c :: _ => c = 44 ∨ c = 93 ∨ c = 125 | [] => True end.

Lemma span_stops d r : Forall (λ c, is_digit c = true) d → stops r → span_digits (d ++ r) = (d, r).
Proof.
  intros Hd Hr. induction Hd as [| c d Hc Hd IH]; cbn [app span_digits]; [| by rewrite Hc, IH].
  destruct r as [| c r]; [done |]. cbn [span_digits]. by destruct Hr as [-> | [-> | ->]].
Qed.

Lemma read_int z r : stops r → read_number (int_repr z ++ r) = Some (JInt z, r).
Proof.
  intros Hr. set (n := Z.abs z). assert (Hn : 0 ≤ n < 10 ^ Z.of_nat (S (Z.to_nat (Z.log2 n)))).
  { split; [lia |]. destruct (decide (n = 0)) as [E |]; [rewrite E; vm_compute; done |].
    rewrite Nat2Z.inj_succ, Z2Nat.id by apply Z.log2_nonneg. pose proof (Z.log2_spec n).
    pose proof (Z.pow_le_mono_l 2 10 (Z.succ (Z.log2 n))). lia. }
  destruct (dec_digits_spec _ n [] Hn) as (d & Hd & Hall & Hv & Hl & Hz).
  assert (Hend : ∀ m, number_end m r = (JInt m, r)).
  { intros m. unfold number_end. destruct r as [| c r]; [done |]. by destruct Hr as [-> | [-> | ->]]. }
  assert (∃ x d', d = x :: d' ∧ is_digit x = true) as (x & d' & Ed & Hx).
  { destruct Hl as [-> | (x & d' & -> & _)]; [by eexists _, _ |]. apply Forall_cons in Hall as [Hx _]. by eexists _, _. }
  assert (Hint : int_part (d ++ r) = Some (n, r)).
  { destruct Hl as [-> | (y & d'' & -> & Hy)].
    - cbn. assert (n = 0) as -> by (destruct (decide (n = 0)); [done | by destruct Hz]). done.
    - pose proof (span_stops _ r Hall Hr) as Hspan. unfold int_part. cbn [app] in *.
      rewrite (proj2 (Z.eqb_neq y 48)), Hspan by done. unfold digits_value. rewrite Hv. do 2 f_equal. }
  unfold int_repr. fold n. rewrite Hd, app_nil_r. destruct (z <? 0) eqn:E; bools.
  - cbn [app read_number]. rewrite Z.eqb_refl, Hint. cbn. rewrite Hend. do 3 f_equal. lia.
  - cbn [app]. rewrite Ed in *. cbn [app read_number] in *. unfold is_digit in Hx. bools.
    rewrite (proj2 (Z.eqb_neq x 45)), Hint by lia. cbn. rewrite Hend. do 3 f_equal. lia.
Qed.

(** ** Values *)

Section json_ind.
Context (P : json → Prop).
Context (Hnull : P JNull) (Hint : ∀ z, P (JInt z)) (Hreal : P JReal) (Hstr : ∀ s, P (JStr s))
  (Harr : ∀ l, Forall P l → P (JArr l)) (Hobj : ∀ d, Forall (λ e, P e.2) d → P (JObj d)).

Fixpoint json_strong_ind (j : json) : P j :=
  match j with
  | JNull => Hnull
  | JInt z => Hint z
  | JReal => Hreal
  | JStr s => Hstr s
  | JArr l => Harr l ((fix go l := match l return Forall P l with
                                   | [] => Forall_nil_2 _
                                   | j :: l => Forall_cons_2 _ _ _ (json_strong_ind j) (go l)
                                   end) l)
  | JObj d => Hobj d ((fix go d := match d return Forall (λ e, P e.2) d with
                                   | [] => Forall_nil_2 _
                                   | e :: d => Forall_cons_2 _ _ _ (json_strong_ind e.2) (go d)
                                   end) d)
  end.
End json_ind.

(** What reading back makes of a value. *)
Fixpoint jread (j : json) : json :=
  match j with
  | JStr s => JStr (sread s)
  | JArr l => JArr (jread <$> l)
  | JObj d => JObj (foldl (λ acc e, dset e.1 e.2 acc) [] ((λ '(k, v), (sread k, jread v)) <$> d))
  | j => j
  end.

(** The first character of a value is no white space and closes nothing. *)
Definition opens (s : pystr) : Prop := ∃ c t, s = c :: t ∧ skip_ws s = s ∧ c ≠ 93.

Lemma opens_app s r : opens s → opens (s ++ r).
Proof.
  intros (c & t & -> & Hw & Hc). exists c, (t ++ r). split_and!; [done | | done]. cbn [app skip_ws] in *.
  destruct (_ || _) eqn:E; [| done]. exfalso. assert (length (skip_ws t) ≤ length t)%nat.
  { clear. induction t as [| x t IH]; [done |]. simpl. case_if; simpl; lia. }
  rewrite Hw in *. simpl in *. lia.
Qed.

Lemma digit_mod n : is_digit (48 + n mod 10) = true.
Proof. unfold is_digit. apply andb_true_iff. rewrite !Z.leb_le. lia. Qed.

Lemma dec_digits_head f n acc : ∃ c t, dec_digits (S f) n acc = c :: t ∧ is_digit c = true.
Proof.
  assert (∀ f m acc c, is_digit c = true → ∃ x t, dec_digits f m (c :: acc) = x :: t ∧ is_digit x = true) as Hg.
  { clear. induction f as [| f IH]; intros m acc c Hc; [by eexists _, _ |]. cbn [dec_digits]. cbv zeta.
    destruct (m <? 10); [eexists _, _; split; [done | apply digit_mod] | apply IH, digit_mod]. }
  cbn [dec_digits]. cbv zeta. destruct (n <? 10); [eexists _, _; split; [done |] | apply Hg]; apply digit_mod.
Qed.

Lemma int_repr_head z : ∃ c t, int_repr z = c :: t ∧
  (is_digit c = true ∨ c = 45 ∧ ∃ c' t', t = c' :: t' ∧ is_digit c' = true).
Proof.
  unfold int_repr. destruct (dec_digits_head (Z.to_nat (Z.log2 (Z.abs z))) (Z.abs z) []) as (c & t & E & Hc).
  rewrite E. destruct (z <? 0); cbn [app]; eexists _, _; (split; [done |]); [right; eauto | by left].
Qed.

Lemma dumps_opens j : opens (dumps j).
Proof.
  destruct j; try by (eexists _, _; split; [reflexivity | split; [reflexivity | done]]).
  destruct (int_repr_head z) as (c & t & E & Hc). exists c, t. cbn [dumps]. rewrite E. split; [done |].
  destruct Hc as [Hc | [-> _]]; [| done]. unfold is_digit in Hc. bools. split; [| lia]. cbn [skip_ws].
  destruct (_ || _) eqn:Ew; bools; [lia | done].
Qed.

Lemma skip_dumps j r : skip_ws (dumps j ++ r) = dumps j ++ r.
Proof. by destruct (opens_app _ r (dumps_opens j)) as (c & t & E & -> & _). Qed.

(** The members of an object after the quote that opens the first key. *)
Fixpoint members_text (d : list (pystr * json)) (r : pystr) : pystr :=
  match d with
  | [] => r
  | (k, v) :: d => closed k (58 :: dumps v ++ match d with [] => 125 :: r | _ => 44 :: 34 :: members_text d r end)
  end.

Definition entry_text (e : pystr * json) : pystr := let '(k, v) := e in dumps_str k ++ 58 :: dumps v.

Lemma members_text_join d r : d ≠ [] → join_chr 44 (entry_text <$> d) ++ 125 :: r = 34 :: members_text d r.
Proof.
  induction d as [| [k v] [| e d] IH]; intros Hd; [done | |].
  - change (join_chr 44 (entry_text <$> [(k, v)])) with (entry_text (k, v)). cbn [entry_text members_text].
    unfold dumps_str. cbn [app]. rewrite <- !app_assoc. done.
  - change (join_chr 44 (entry_text <$> (k, v) :: e :: d))
      with (entry_text (k, v) ++ 44 :: join_chr 44 (entry_text <$> e :: d)).
    rewrite <- app_assoc. cbn [app]. rewrite IH by done. cbn [entry_text members_text]. unfold dumps_str.
    cbn [app]. rewrite <- !app_assoc. cbn [app]. done.
Qed.

Definition read_ok (j : json) : Prop :=
  ∀ r f, stops r → (2 * length (dumps j) < f)%nat → scan_once f (dumps j ++ r) = Some (jread j, r).

Lemma skip_stop c r : c = 44 ∨ c = 93 ∨ c = 125 → skip_ws (c :: r) = c :: r.
Proof. by intros [-> | [-> | ->]]. Qed.

Lemma scan_elements_ok l : Forall read_ok l → l ≠ [] → ∀ r f,
  (2 * length (join_chr 44 (dumps <$> l)) + 1 < f)%nat →
  scan_elements f (join_chr 44 (dumps <$> l) ++ 93 :: r) = Some (jread <$> l, r).
Proof.
  induction 1 as [| j l Hj Hl IH]; intros Hne r f Hf; [done |]. destruct f as [| f]; [lia |]. destruct l as [| j' l].
  - cbn in *. rewrite Hj by (simpl; auto; lia). done.
  - change (join_chr 44 (dumps <$> j :: j' :: l)) with (dumps j ++ 44 :: join_chr 44 (dumps <$> j' :: l)) in *.
    rewrite length_app in Hf. cbn [length] in Hf. rewrite <- app_assoc. cbn [app scan_elements].
    rewrite Hj by (simpl; auto; lia). cbn [mbind option_bind]. rewrite skip_stop by auto.
    assert (∃ w, join_chr 44 (dumps <$> j' :: l) ++ 93 :: r = dumps j' ++ w) as [w Ew].
    { destruct l; [by eexists |]. eexists. cbn. by rewrite <- app_assoc. }
    rewrite Ew, skip_dumps, <- Ew, IH by (done || lia). done.
Qed.

Lemma scan_members_ok d : Forall (λ e, read_ok e.2) d → d ≠ [] → ∀ r f acc,
  (2 * length (members_text d []) < f)%nat →
  scan_members f (members_text d r) acc =
    Some (foldl (λ acc e, dset e.1 e.2 acc) acc ((λ '(k, v), (sread k, jread v)) <$> d), r).
Proof.
  induction 1 as [| [k v] d Hv Hd IH]; intros Hne r f acc Hf; [done |]. destruct f as [| f]; [lia |].
  pose proof (escape_length k) as Hk. cbn [members_text] in *. rewrite length_app in Hf. cbn [length] in Hf.
  rewrite length_app in Hf. cbn [scan_members].
  rewrite scan_sread by (rewrite length_app; simpl; lia). cbn [mbind option_bind].
  change (skip_ws (58 :: ?x)) with (58 :: x). cbv iota. rewrite skip_dumps. destruct d as [| e d].
  - cbn [length] in Hf. rewrite Hv by (simpl; auto; lia). cbn [mbind option_bind]. done.
  - cbn [length] in Hf. rewrite Hv by (simpl; auto; lia). cbn [mbind option_bind].
    change (skip_ws (44 :: ?x)) with (44 :: x). cbv iota.
    change (skip_ws (34 :: ?x)) with (34 :: x). cbv iota. rewrite IH by (done || lia). done.
Qed.

(** A value that starts with a digit or a minus and a digit is read as a number. *)
Lemma scan_number f c t :
  is_digit c = true ∨ c = 45 ∧ (∃ c' t', t = c' :: t' ∧ is_digit c' = true) →
  scan_once (S f) (c :: t) = read_number (c :: t).
Proof.
  intros H. assert (read_constant CONSTANTS (c :: t) = None) as Hcon.
  { cbn. unfold startswith.
    destruct H as [Hc | [-> (c' & t' & -> & Hc)]]; unfold is_digit in Hc; bools;
      rewrite !bool_decide_false by (cbn; intros [=]; lia); done. }
  assert (c ≠ 34 ∧ c ≠ 91 ∧ c ≠ 123) as (? & ? & ?).
  { destruct H as [Hc | [-> _]]; [unfold is_digit in Hc; bools |]; lia. }
  cbn [scan_once]. rewrite Hcon. repeat case_match; congruence.
Qed.

Lemma scan_array f s : opens s →
  scan_once (S f) (91 :: s) = ('(l, s) ← scan_elements f s; Some (JArr l, s)).
Proof. intros (c & t & -> & Hs & Hc). cbn [scan_once]. rewrite Hs. repeat case_match; congruence. Qed.

Lemma read_dumps j : read_ok j.
Proof.
  induction j as [| z | | s | l IH | d IH] using json_strong_ind; intros r f Hr Hf; (destruct f as [| f]; [lia |]).
  - done.
  - cbn [dumps jread]. destruct (int_repr_head z) as (c & t & E & Hc).
    pose proof (read_int z r Hr) as Hz. rewrite E in *. cbn [app] in *. rewrite <- Hz. apply scan_number.
    destruct Hc as [Hc | [-> (c' & t' & -> & Hc)]]; [by left | right; split; [done |]; by exists c', (t' ++ r)].
  - done.
  - cbn [dumps]. unfold dumps_str. cbn [app scan_once jread]. rewrite <- app_assoc. cbn [app].
    rewrite scan_sread; [done |]. rewrite length_app. pose proof (escape_length s). simpl. lia.
  - cbn [dumps] in *. cbn [length] in Hf. rewrite length_app in Hf. cbn [length] in Hf.
    destruct l as [| j l]; [done |]. cbn [app jread]. rewrite <- app_assoc. cbn [app].
    assert (∃ w, join_chr 44 (dumps <$> j :: l) ++ 93 :: r = dumps j ++ w) as [w Ew].
    { destruct l; [by eexists |]. eexists. cbn. by rewrite <- app_assoc. }
    pose proof (opens_app _ w (dumps_opens j)) as Ho. rewrite <- Ew in Ho.
    rewrite scan_array by done. by rewrite scan_elements_ok by (done || lia).
  - cbn [dumps] in *. cbn [length] in Hf. rewrite length_app in Hf. cbn [length] in Hf.
    cbn [app scan_once jread]. destruct d as [| e d]; [done |].
    change (λ '(k, v), dumps_str k ++ 58 :: dumps v) with entry_text in *.
    rewrite <- app_assoc. cbn [app]. rewrite members_text_join by done.
    change (skip_ws (34 :: ?x)) with (34 :: x). cbv iota.
    rewrite scan_members_ok; [done | done | done |].
    pose proof (f_equal length (members_text_join (e :: d) [] ltac:(done))) as Hl. rewrite length_app in Hl. simpl in *. lia.
Qed.

Lemma loads_dumps j : loads (dumps j) = Ok (jread j).
Proof.
  unfold loads. pose proof (read_dumps j [] (S (2 * length (dumps j)))) as H. rewrite app_nil_r in H.
  pose proof (skip_dumps j []) as Hs. rewrite app_nil_r in Hs. rewrite Hs, H by (done || lia). done.
Qed.

(** ** Property tables *)

#[export] Instance clean_dec c : Decision (clean c).
Proof. unfold clean. apply _. Defined.

(** A value the file format keeps: text without surrogates, and bytes. *)
Fixpoint storable (v : pyval) : bool :=
  match v with
  | VNone | VInt _ => true
  | VStr s => bool_decide (Forall clean s)
  | VBytes b => bool_decide (bytes_ok b)
  | VTuple l => forallb storable l
  end.

Section pyval_ind.
Context (P : pyval → Prop).
Context (Hnone : P VNone) (Hint : ∀ z, P (VInt z)) (Hstr : ∀ s, P (VStr s)) (Hbytes : ∀ b, P (VBytes b))
  (Htuple : ∀ l, Forall P l → P (VTuple l)).

Fixpoint pyval_strong_ind (v : pyval) : P v :=
  match v with
  | VNone => Hnone
  | VInt z => Hint z
  | VStr s => Hstr s
  | VBytes b => Hbytes b
  | VTuple l => Htuple l ((fix go l := match l return Forall P l with
                                       | [] => Forall_nil_2 _
                                       | v :: l => Forall_cons_2 _ _ _ (pyval_strong_ind v) (go l)
                                       end) l)
  end.
End pyval_ind.

Lemma ascii_range a : 0 ≤ Z.of_N (Ascii.N_of_ascii a) ≤ 255.
Proof. pose proof (Ascii.N_ascii_bounded a). lia. Qed.

Lemma lit_clean s : Forall clean (lit s).
Proof.
  induction s as [| a s IH]; [constructor |]. constructor; [| exact IH]. pose proof (ascii_range a). unfold clean. lia.
Qed.

Lemma unlit_lit s : unlit (lit s) = Some s.
Proof.
  induction s as [| a s IH]; [done |]. change (lit (String a s)) with (Z.of_N (Ascii.N_of_ascii a) :: lit s).
  pose proof (ascii_range a). cbn [unlit].
  rewrite (proj2 (Z.leb_le 0 _)), (proj2 (Z.leb_le _ 255)), IH by lia. cbn. by rewrite N2Z.id, Ascii.ascii_N_embedding.
Qed.

Lemma b64_clean b : bytes_ok b → Forall clean (b64encode b).
Proof.
  assert (Hc : ∀ n, 0 ≤ n < 64 → clean (b64_chr n)).
  { intros n Hn. unfold b64_chr. repeat case_if; bools; unfold clean; lia. }
  assert (Hp : clean 61) by (unfold clean; lia).
  enough (∀ n b, (length b ≤ n)%nat → bytes_ok b → Forall clean (b64encode b)) as H by by eapply H.
  clear b. intros n. induction n as [| n IH]; intros b Hn Hb.
  - destruct b; simpl in Hn; [constructor | lia].
  - destruct b as [| x [| y [| z b]]]; [constructor |
      inversion_clear Hb as [| ? ? Hx Hb1]; unfold byte_ok in Hx | 
      inversion_clear Hb as [| ? ? Hx Hb1]; inversion_clear Hb1 as [| ? ? Hy Hb2]; unfold byte_ok in Hx, Hy |
      inversion_clear Hb as [| ? ? Hx Hb1]; inversion_clear Hb1 as [| ? ? Hy Hb2]; inversion_clear Hb2 as [| ? ? Hz Hb3];
      unfold byte_ok in Hx, Hy, Hz ]; cbn [b64encode]; repeat (constructor; [first [exact Hp | apply Hc; lia] |]); try constructor.
    apply IH; [simpl in Hn; lia | done].
Qed.

Lemma sread_lit s : sread (lit s) = lit s.
Proof. apply sread_clean, lit_clean. Qed.

Lemma revive_marker s : _json_revive (jread (JObj [(MARKER, JStr s)])) = VBytes <$> b64decode (sread s).
Proof.
  change (jread (JObj [(MARKER, JStr s)])) with (JObj [(sread MARKER, JStr (sread s))]).
  unfold MARKER at 1. rewrite sread_lit. cbn [_json_revive]. unfold marked. by rewrite bool_decide_true.
Qed.

(** A stored value is read back. *)
Lemma revive_sanitize v : storable v = true → _json_revive (jread (_json_sanitize v)) = Some v.
Proof.
  induction v as [| z | s | b | l IH] using pyval_strong_ind; cbn [storable]; intros Hv; try done.
  - bools. cbn. by rewrite sread_clean.
  - bools. cbn [_json_sanitize]. rewrite revive_marker, sread_clean by by apply b64_clean. by rewrite b64decode_encode.
  - cbn [_json_sanitize jread _json_revive]. rewrite <- list_fmap_compose.
    enough (mapM _json_revive (jread ∘ _json_sanitize <$> l) = Some l) as -> by done.
    induction IH as [| v l Hx _ IHl]; [done |]. cbn in Hv. bools. cbn.
    rewrite Hx by done. cbn. rewrite IHl by done. done.
Qed.

(** The members of a persisted table as they are read back. *)
Definition read_entry (e : string * pyval) : pystr * json := (lit e.1, jread (_json_sanitize e.2)).

Lemma jread_table ps : NoDup (dkeys ps) →
  jread (JObj ((λ '(k, v), (lit k, _json_sanitize v)) <$> ps)) = JObj (read_entry <$> ps).
Proof.
  intros Hn. cbn [jread]. f_equal. rewrite <- list_fmap_compose.
  assert (∀ acc, NoDup (dkeys acc ++ dkeys (read_entry <$> ps)) →
    foldl (λ acc e, dset e.1 e.2 acc) acc (((λ '(k, v), (sread k, jread v)) ∘ (λ '(k, v), (lit k, _json_sanitize v))) <$> ps) =
    acc ++ (read_entry <$> ps)) as H.
  { clear Hn. induction ps as [| [k v] ps IH]; intros acc Hd; cbn [fmap list_fmap foldl]; [by rewrite app_nil_r |].
    cbn [compose fst snd]. cbn [fmap list_fmap dkeys] in Hd. rewrite sread_lit.
    assert (lit k ∉ dkeys acc) as Hk.
    { apply NoDup_app in Hd as (_ & Hd & _). intros Hin. apply (Hd _ Hin). left. }
    rewrite dset_new by done. rewrite IH; [by rewrite <- app_assoc |].
    unfold dkeys. rewrite fmap_app, <- app_assoc. exact Hd. }
  apply (H []). cbn [app dkeys fmap list_fmap]. unfold dkeys. rewrite <- list_fmap_compose.
  change (fst ∘ read_entry) with (lit ∘ (fst : string * pyval → string)). rewrite list_fmap_compose. apply NoDup_fmap_2; [| done].
  intros s t E. apply (f_equal unlit) in E. rewrite !unlit_lit in E. congruence.
Qed.

Lemma props_of_json ps : ps ≠ [] → NoDup (dkeys ps) → (∀ v, ps ≠ [("__mqttium_bytes__"%string, v)]) →
  _props_from_json (_props_to_json (Some ps)) =
    match mapM revive_entry (read_entry <$> ps) with
    | Some values => Ok (Some (Properties_init values)) | None => Raise ValueError end.
Proof.
  intros Hne Hn Hm. destruct ps as [| e ps]; [done |]. cbn [_props_to_json _props_from_json].
  rewrite loads_dumps. cbn [rbind]. rewrite jread_table by done.
  assert (marked (read_entry <$> e :: ps) = None) as ->; [| done].
  destruct ps; [| done]. destruct e as [k v].
  cbn [fmap list_fmap read_entry marked fst snd]. rewrite bool_decide_false; [done |].
  intros E. apply (f_equal unlit) in E. unfold MARKER in E. rewrite !unlit_lit in E. injection E as ->. by eapply Hm.
Qed.

Lemma revive_read_entry e : storable e.2 = true → revive_entry (read_entry e) = Some e.
Proof.
  intros Hs. destruct e as [k v]. unfold revive_entry, read_entry. cbn [fst snd]. rewrite unlit_lit, revive_sanitize by done. done.
Qed.

Lemma json_kept ps :
  ps ≠ [] → NoDup (dkeys ps) → (∀ v, ps ≠ [("__mqttium_bytes__"%string, v)]) → forallb (storable ∘ snd) ps = true →
  _props_from_json (_props_to_json (Some ps)) = Ok (Some (Properties_init ps)).
Proof.
  intros Hne Hn Hm Hs. rewrite props_of_json by done.
  enough (mapM revive_entry (read_entry <$> ps) = Some ps) as -> by done. clear Hne Hn Hm.
  induction ps as [| e ps IH]; [done |]. cbn in Hs. bools. cbn [fmap list_fmap mapM].
  rewrite revive_read_entry by done. cbn. by rewrite IH.
Qed.

(** C15: the persisted form of a property table loses nothing.  A table the
    format can hold (distinct names, text without lone surrogates, bytes), its
    values arbitrarily nested, is read back from the text [json.dumps] made of it
    through [json.loads], the byte marker and Base64 as the same table, once owned
    by [Properties]. *)
Theorem props_json_roundtrip ps :
  ps ≠ [] → NoDup (dkeys ps) → (∀ v, ps ≠ [("__mqttium_bytes__"%string, v)]) → forallb (storable ∘ snd) ps = true →
  _props_from_json (_props_to_json (Some ps)) = Ok (Some (Properties_init ps)).
Proof. apply json_kept. Qed.

Lemma props_json_roundtrip_witness :
  let ps := [("content_type"%string, VStr [34; 92; 233; 0x1F600]); ("correlation_data"%string, VBytes [1; 255; 0; 7]);
             ("user_property"%string, VTuple [VStr (lit "a"); VStr []]); ("topic_alias"%string, VInt (-120))] in
  _props_from_json (_props_to_json (Some ps)) = Ok (Some (Properties_init ps)) ∧ Properties_init ps ≠ ps.
Proof.
  split; [apply props_json_roundtrip | done]; [done | | done | vm_compute; reflexivity].
  apply (bool_decide_unpack _). vm_compute. exact I.
Defined.

(** ** Persisted aliases *)

Definition ascii (c : Z) : Prop := 0 ≤ c < 128.

Lemma drop_spaces_ascii s : Forall ascii (drop_spaces s) → Forall ascii s.
Proof.
  induction s as [| c s IH]; [done |]. cbn. destruct (is_space c) eqn:E; [| done]. intros H. constructor; [| auto].
  unfold is_space in E. apply orb_true_iff in E. unfold ascii. destruct E; bools; lia.
Qed.

Lemma read_digits_ascii s : ∀ n z, read_digits n s = Some z → Forall ascii s.
Proof.
  assert (Hd : ∀ c, is_digit c = true → ascii c) by (intros c Hc; unfold is_digit in Hc; bools; unfold ascii; lia).
  enough (∀ k s, (length s ≤ k)%nat → ∀ n z, read_digits n s = Some z → Forall ascii s) as H by by eapply H.
  clear s. intros k. induction k as [| k IH]; intros s Hk n z Hr; [destruct s; simpl in Hk; [constructor | lia] |].
  destruct s as [| c s]; [constructor |]. simpl in Hk.
  assert (Hone : (if is_digit c then read_digits (n * 10 + (c - 48)) s else None) = Some z → Forall ascii (c :: s)).
  { destruct (is_digit c) eqn:E; [| done]. intros H. constructor; [by apply Hd |]. eapply IH; [lia | done]. }
  destruct (decide (c = 95)) as [-> |].
  - destruct s as [| d s]; [done |]. cbn in Hr. destruct (is_digit d) eqn:E; [| done].
    constructor; [unfold ascii; lia |]. constructor; [by apply Hd |]. eapply IH; [simpl in Hk; lia | done].
  - apply Hone. cbn in Hr. repeat case_match; try done; congruence.
Qed.

Lemma int_text_ascii s z : int_text s = Ok z → Forall ascii s.
Proof.
  unfold int_text. set (t := drop_spaces (rev (drop_spaces s))). intros H.
  assert (Hu : ∀ s z, read_unsigned s = Some z → Forall ascii s).
  { intros [| c u] w; cbn; [done |]. destruct (is_digit c) eqn:E; [| done]. intros Hr%read_digits_ascii.
    constructor; [| done]. unfold is_digit in E. bools. unfold ascii. lia. }
  assert (Forall ascii (rev t)) as Ht.
  { destruct (rev t) as [| c u]; [constructor |].
    destruct (decide (c = 45)) as [-> |]; [| destruct (decide (c = 43)) as [-> |]].
    - destruct (read_unsigned u) as [w |] eqn:E; [| done]. constructor; [unfold ascii; lia | by eapply Hu].
    - destruct (read_unsigned u) as [w |] eqn:E; [| done]. constructor; [unfold ascii; lia | by eapply Hu].
    - destruct (read_unsigned (c :: u)) as [w |] eqn:E; [by eapply Hu |].
      exfalso. revert H. repeat case_match; intros; congruence. }
  apply drop_spaces_ascii. rewrite <- (rev_involutive (drop_spaces s)). apply Forall_rev, drop_spaces_ascii.
  fold t. rewrite <- (rev_involutive t). by apply Forall_rev.
Qed.

Lemma int_storable v z : py_int v = Ok z → storable v = true.
Proof.
  destruct v as [| | s | b |]; cbn [py_int storable]; try done; intros H%int_text_ascii; apply bool_decide_eq_true;
    (eapply Forall_impl; [exact H |]); intros c Hc; unfold ascii, clean, byte_ok in *; lia.
Qed.

Lemma foldl_dset_elem {V} (l : list (pystr * V)) : ∀ acc x, x ∈ foldl (λ acc e, dset e.1 e.2 acc) acc l → x ∈ acc ∨ x ∈ l.
Proof.
  induction l as [| [k v] l IH]; intros acc x H; [by left |]. cbn in H.
  apply IH in H as [H | H]; [| by right; right].
  assert (x ∈ acc ∨ x = (k, v)) as [? | ->]; [| by left | by right; left].
  clear - H. induction acc as [| [k' v'] acc IH]; cbn in H; [apply list_elem_of_singleton in H; by right |].
  case_decide; apply elem_of_cons in H as [-> | H]; subst; auto using list_elem_of_here, list_elem_of_further.
  destruct (IH H); auto using list_elem_of_further.
Qed.

(** A table read back holds a Topic Alias only where the stored one did, and an
    alias that converts to an integer is kept as it is. *)
Lemma props_json_alias ps ps' v' :
  _props_from_json (_props_to_json (Some ps)) = Ok (Some ps') → ("topic_alias"%string, v') ∈ ps' →
  ∃ v, ("topic_alias"%string, v) ∈ ps ∧ (v = VNone → v' = VNone) ∧ (∀ z, py_int v = Ok z → v' = v).
Proof.
  destruct ps as [| e0 ps0]; [done |]. set (ps := e0 :: ps0). cbn [_props_to_json _props_from_json].
  fold ps. change (match ps with [] => None | _ => ?x end) with x.
  cbn [_props_from_json]. rewrite loads_dumps. cbn [rbind jread].
  set (d := foldl _ _ _). intros H Hin. destruct (marked d); [done |].
  destruct (mapM revive_entry d) as [values |] eqn:Hm; [| done]. injection H as <-.
  unfold Properties_init in Hin. apply list_elem_of_fmap in Hin as ([k w] & E & Hin). injection E as -> ->.
  apply mapM_Some in Hm. apply list_elem_of_lookup in Hin as [i Hi].
  destruct (Forall2_lookup_r _ _ _ _ _ Hm Hi) as ([j jv] & Hj & Hr).
  apply list_elem_of_lookup_2 in Hj. apply foldl_dset_elem in Hj as [Hj | Hj]; [by apply elem_of_nil in Hj |].
  apply list_elem_of_fmap in Hj as ([j1 jv1] & E & Hj). injection E as -> ->.
  apply list_elem_of_fmap in Hj as ([k0 v] & E & Hv). injection E as -> ->.
  unfold revive_entry in Hr. cbn [fst snd] in Hr. rewrite sread_lit, unlit_lit in Hr. cbn [mbind option_bind] in Hr.
  destruct (_json_revive _) as [w' |] eqn:Ew in Hr; [| done]. injection Hr as -> ->.
  assert (Hst : storable v = true → w = v).
  { intros Hst. rewrite revive_sanitize in Ew by done. congruence. }
  exists v. split; [done |]. split.
  - intros ->. by rewrite (Hst eq_refl).
  - intros z Hz. rewrite (Hst (int_storable v z Hz)). by destruct v as [| | | | []].
Qed.
