(* ===== verification/Sqlite.v ===== *)
(** * The SQLite in-flight store ([src/mqttium/persistence/sqlite.py])

    The connection is what the source relies on of the module [sqlite3]: a
    committed database, the working copy of an open transaction, a transaction
    that [execute] opens before a statement that changes rows, and calls that
    may fail.  The tables are dictionaries by primary key; a column holds
    whatever its writer put there, and every value read back is checked the way
    the source checks it. *)

From S2P Require Import Prelude PyStr Enums Properties Types Handshake Store Json.

(** ** Values, rows and tables *)

Inductive sqlval :=
  | SNull
  | SInt (z : Z)
  | SText (s : pystr)
  | SBlob (b : bytes).

#[export] Instance sqlval_dec : EqDecision sqlval.
Proof. solve_decision. Defined.

(** The columns of a row other than its primary key [mid]. *)
Record out_row := OutRow {
  ro_seq : sqlval; ro_qos : sqlval; ro_retain : sqlval; ro_state : sqlval; ro_dup : sqlval; ro_logical_size : sqlval;
  ro_topic : sqlval; ro_properties : sqlval; ro_payload : sqlval }.
Record in_row := InRow {
  ri_seq : sqlval; ri_qos : sqlval; ri_retain : sqlval; ri_state : sqlval; ri_delivered : sqlval; ri_user_acked : sqlval;
  ri_logical_size : sqlval; ri_topic : sqlval; ri_properties : sqlval; ri_payload : sqlval }.

(** An entry of [sqlite_master], with what [PRAGMA table_info] says of it. *)
Record schema_object := Object { ob_type : string; ob_name : string; ob_sql : string; ob_columns : list string }.

#[export] Instance schema_object_dec : EqDecision schema_object.
Proof. solve_decision. Defined.

Record Db := mkDb {
  user_version : Z;
  sqlite_master : list schema_object;
  outbound_t : list (Z * out_row);
  inbound_t : list (Z * in_row) }.

Definition with_outbound (t : list (Z * out_row)) (d : Db) : Db :=
  mkDb (user_version d) (sqlite_master d) t (inbound_t d).
Definition with_inbound (t : list (Z * in_row)) (d : Db) : Db :=
  mkDb (user_version d) (sqlite_master d) (outbound_t d) t.

(** [ORDER BY seq]: integers in order, other values after them. *)
Definition seq_le (a b : sqlval) : bool :=
  match a, b with SInt x, SInt y => x <=? y | SInt _, _ => true | _, SInt _ => false | _, _ => true end.
Fixpoint insert_by_seq {R} (seq : R → sqlval) (x : Z * R) (l : list (Z * R)) : list (Z * R) :=
  match l with
  | [] => [x]
  | y :: l => if seq_le (seq x.2) (seq y.2) then x :: y :: l else y :: insert_by_seq seq x l
  end.
Definition order_by_seq {R} (seq : R → sqlval) (t : list (Z * R)) : list (Z * R) := foldr (insert_by_seq seq) [] t.

(** [COALESCE(MAX(seq), 0)]: text is greater than numbers and a blob than text. *)
Definition sql_max (a b : sqlval) : sqlval :=
  match a, b with
  | SNull, v | v, SNull => v
  | SInt x, SInt y => SInt (Z.max x y)
  | SBlob _, _ => a
  | _, SBlob _ => b
  | SText _, _ => a
  | _, _ => b
  end.
Definition max_seq (seqs : list sqlval) : sqlval :=
  match foldr sql_max SNull seqs with SNull => SInt 0 | v => v end.

(** [length(v)]: the bytes of a blob, the characters of a text up to a NUL. *)
Fixpoint chars (s : pystr) : Z := match s with [] => 0 | c :: s => if c =? 0 then 0 else 1 + chars s end.
Definition sql_length (v : sqlval) : sqlval :=
  match v with
  | SNull => SNull
  | SInt z => SInt (len (int_repr z))
  | SText s => SInt (chars s)
  | SBlob b => SInt (len b)
  end.

(** ** Reading a row *)

Definition _stored_int (v : sqlval) : res Z := match v with SInt z => Ok z | _ => Raise ValueError end.
Definition _stored_str (v : sqlval) : res pystr := match v with SText s => Ok s | _ => Raise ValueError end.
Definition _stored_bytes (v : sqlval) : res bytes := match v with SBlob b => Ok b | _ => Raise ValueError end.
Definition _stored_optional_text (v : sqlval) : res (option pystr) :=
  match v with SNull => Ok None | SText s => Ok (Some s) | _ => Raise ValueError end.
Definition _stored_bool (v : sqlval) : res bool :=
  let! value := _stored_int v in
  if value =? 0 then Ok false else if value =? 1 then Ok true else Raise ValueError.
Definition _stored_non_negative (v : sqlval) : res Z :=
  let! value := _stored_int v in raise! ValueError when value <? 0; Ok value.
Definition _stored_logical_size (v : sqlval) : res Z :=
  let! size := _stored_int v in raise! ValueError when size <=? 0; Ok size.
Definition _stored_mid (mid : Z) : res Z :=
  raise! ValueError when negb ((1 <=? mid) && (mid <=? 65535)); Ok mid.
Definition _stored_ordered_mid (mid : Z) (seq : sqlval) : res Z :=
  let! _ := _stored_non_negative seq in _stored_mid mid.

(** [OutboundQoSState(value)] and [InboundQoSState(value)], and their integers. *)
Definition Out_int (st : OutboundQoSState) : Z :=
  match st with QUEUED => 1 | WAIT_PUBACK => 2 | WAIT_PUBREC => 3 | WAIT_PUBCOMP => 4 | DONE => 5 end.
Definition Out_of (value : Z) : res OutboundQoSState :=
  match value with
  | 1 => Ok QUEUED | 2 => Ok WAIT_PUBACK | 3 => Ok WAIT_PUBREC | 4 => Ok WAIT_PUBCOMP | 5 => Ok DONE
  | _ => Raise ValueError
  end.
Definition In_int (st : In.InboundQoSState) : Z :=
  match st with In.WAIT_PUBREL => 1 | In.DONE => 2 | In.WAIT_PUBACK => 3 | In.WAIT_USER_ACK => 4 end.
Definition In_of (value : Z) : res In.InboundQoSState :=
  match value with
  | 1 => Ok In.WAIT_PUBREL | 2 => Ok In.DONE | 3 => Ok In.WAIT_PUBACK | 4 => Ok In.WAIT_USER_ACK
  | _ => Raise ValueError
  end.

Definition _stored_out_transition (r : out_row) : res (OutboundQoSState * Z * Z) :=
  let! n := _stored_int (ro_state r) in
  let! state := Out_of n in
  let! logical_size := _stored_logical_size (ro_logical_size r) in
  let! seq := _stored_non_negative (ro_seq r) in
  Ok (state, logical_size, seq).

Definition _stored_in_transition (r : in_row) : res (In.InboundQoSState * bool * bool * Z * Z) :=
  let! n := _stored_int (ri_state r) in
  let! state := In_of n in
  let! user_acked := _stored_bool (ri_user_acked r) in
  let! delivered := _stored_bool (ri_delivered r) in
  let! logical_size := _stored_logical_size (ri_logical_size r) in
  let! seq := _stored_non_negative (ri_seq r) in
  Ok (state, user_acked, delivered, logical_size, seq).

Definition _row_to_out (mid : Z) (r : out_row) : res OutboundMessage :=
  let! mid := _stored_mid mid in
  let! topic := _stored_str (ro_topic r) in
  let! payload := _stored_bytes (ro_payload r) in
  let! n := _stored_int (ro_qos r) in
  let! qos := QoS_of n in
  let! retain := _stored_bool (ro_retain r) in
  let! n := _stored_int (ro_state r) in
  let! state := Out_of n in
  let! dup := _stored_bool (ro_dup r) in
  let! text := _stored_optional_text (ro_properties r) in
  let! properties := _props_from_json text in
  let! logical_size := _stored_logical_size (ro_logical_size r) in
  Ok (mkOut mid topic payload qos retain state dup properties None None logical_size).

Definition _row_to_out_summary (mid : Z) (r : out_row) : res OutboundMessageSummary :=
  let! mid := _stored_mid mid in
  let! topic := _stored_str (ro_topic r) in
  let! payload_size := _stored_non_negative (sql_length (ro_payload r)) in
  let! n := _stored_int (ro_qos r) in
  let! qos := QoS_of n in
  let! retain := _stored_bool (ro_retain r) in
  let! n := _stored_int (ro_state r) in
  let! state := Out_of n in
  let! dup := _stored_bool (ro_dup r) in
  let! text := _stored_optional_text (ro_properties r) in
  let! properties := _props_from_json text in
  let! logical_size := _stored_logical_size (ro_logical_size r) in
  Ok (mkSummary mid topic payload_size qos retain state dup properties logical_size).

Definition _row_to_in_meta (mid : Z) (r : in_row) : res InboundRecordMeta :=
  let! mid := _stored_mid mid in
  let! n := _stored_int (ri_state r) in
  let! state := In_of n in
  let! user_acked := _stored_bool (ri_user_acked r) in
  let! delivered := _stored_bool (ri_delivered r) in
  let! logical_size := _stored_logical_size (ri_logical_size r) in
  Ok {| im_mid := mid; im_state := state; im_user_acked := user_acked; im_delivered := delivered;
        im_logical_size := logical_size |}.

Definition _row_to_in (mid : Z) (r : in_row) : res InboundMessage :=
  let! mid := _stored_mid mid in
  let! topic := _stored_str (ri_topic r) in
  let! payload := _stored_bytes (ri_payload r) in
  let! n := _stored_int (ri_qos r) in
  let! qos := QoS_of n in
  let! retain := _stored_bool (ri_retain r) in
  let! n := _stored_int (ri_state r) in
  let! state := In_of n in
  let! delivered := _stored_bool (ri_delivered r) in
  let! text := _stored_optional_text (ri_properties r) in
  let! properties := _props_from_json text in
  let! user_acked := _stored_bool (ri_user_acked r) in
  let! logical_size := _stored_logical_size (ri_logical_size r) in
  Ok (mkIn mid topic payload qos retain state delivered properties user_acked logical_size).

(** ** The connection *)

(** What the world does at one call of the library: nothing; the call fails
    (a lock, a full disk) and the open transaction is kept, or is rolled back by
    SQLite; another connection has committed before it.  While a transaction is
    open other connections cannot be seen. *)
Inductive event :=
  | Calm
  | Fault
  | FaultRollback
  | Other (d : Db).

Record Conn := mkConn { disk : Db; tx : option Db; world : list event; conn_closed : bool }.

(** The database as statements see it. *)
Definition db (c : Conn) : Db := default (disk c) (tx c).

Definition set_tx (t : option Db) (c : Conn) : Conn := mkConn (disk c) t (world c) (conn_closed c).

(** The event of the next call, and the connection it leaves. *)
Definition next_event (c : Conn) : event * Conn :=
  match world c with
  | [] => (Calm, c)
  | Other d :: w => (Calm, mkConn (if tx c then disk c else d) (tx c) w (conn_closed c))
  | ev :: w => (ev, mkConn (disk c) (tx c) w (conn_closed c))
  end.

(** One call that runs [f] on the connection, [pre] being what the library does
    before it asks SQLite. *)
Definition conn_call {A} (pre : Conn → Conn) (f : Conn → res A * Conn) (c : Conn) : res A * Conn :=
  if conn_closed c then (Raise StoreError, c)
  else
    let '(ev, c) := next_event c in
    let c := pre c in
    match ev with
    | Fault => (Raise StoreError, c)
    | FaultRollback => (Raise StoreError, set_tx None c)
    | _ => f c
    end.

(** [execute] of a query. *)
Definition conn_select {A} (q : Db → A) : Conn → res A * Conn := conn_call id (λ c, (Ok (q (db c)), c)).

Definition begin_implicit (c : Conn) : Conn := match tx c with None => set_tx (Some (disk c)) c | Some _ => c end.

(** A Python value as an SQL parameter. *)
Definition bindable (v : sqlval) : res unit :=
  match v with
  | SInt z => raise! OverflowError when negb ((-(2 ^ 63) <=? z) && (z <? 2 ^ 63)); Ok tt
  | SText s => raise! UnicodeError when negb (forallb (λ c, bool_decide (clean c)) s); Ok tt
  | _ => Ok tt
  end.
Fixpoint bind_all (vs : list sqlval) : res unit :=
  match vs with [] => Ok tt | v :: vs => let! _ := bindable v in bind_all vs end.

(** [execute] of a query with parameters. *)
Definition conn_query {A} (args : list sqlval) (q : Db → A) : Conn → res A * Conn :=
  conn_call id (λ c, (let! _ := bind_all args in Ok (q (db c)), c)).

(** [execute] of an INSERT, UPDATE or DELETE: the transaction is opened before
    the parameters are bound. *)
Definition conn_dml {A} (args : list sqlval) (f : Db → A * Db) : Conn → res A * Conn :=
  conn_call begin_implicit (λ c,
    match bind_all args with
    | Raise x => (Raise x, c)
    | Ok _ => let '(a, d) := f (db c) in (Ok a, set_tx (Some d) c)
    end).

(** [execute("BEGIN")] and [execute("BEGIN IMMEDIATE")]. *)
Definition conn_begin : Conn → res unit * Conn :=
  conn_call id (λ c, match tx c with Some _ => (Raise StoreError, c) | None => (Ok tt, set_tx (Some (disk c)) c) end).

(** [commit()] and [rollback()] do nothing without a transaction. *)
Definition conn_commit (c : Conn) : res unit * Conn :=
  match tx c with
  | None => if conn_closed c then (Raise StoreError, c) else (Ok tt, c)
  | Some _ => conn_call id (λ c, (Ok tt, mkConn (db c) None (world c) (conn_closed c))) c
  end.
Definition conn_rollback (c : Conn) : res unit * Conn :=
  match tx c with
  | None => if conn_closed c then (Raise StoreError, c) else (Ok tt, c)
  | Some _ => conn_call id (λ c, (Ok tt, set_tx None c)) c
  end.

(** [close()]: an open transaction is lost. *)
Definition conn_close (c : Conn) : Conn := mkConn (disk c) None (world c) true.

(** ** The store *)

Record SqliteInflightStore := mkSqlite {
  _conn : Conn;
  _closed : bool;
  _batch_depth : Z;
  _transaction_started : bool;
  _rollback_only : bool;
  _out_seq : Z;
  _in_seq : Z }.

Definition set_conn (c : Conn) (s : SqliteInflightStore) : SqliteInflightStore :=
  mkSqlite c (_closed s) (_batch_depth s) (_transaction_started s) (_rollback_only s) (_out_seq s) (_in_seq s).
Definition set_closed (b : bool) (s : SqliteInflightStore) : SqliteInflightStore :=
  mkSqlite (_conn s) b (_batch_depth s) (_transaction_started s) (_rollback_only s) (_out_seq s) (_in_seq s).
Definition set_batch (depth : Z) (started rollback : bool) (s : SqliteInflightStore) : SqliteInflightStore :=
  mkSqlite (_conn s) (_closed s) depth started rollback (_out_seq s) (_in_seq s).
Definition set_out_seq (n : Z) (s : SqliteInflightStore) : SqliteInflightStore :=
  mkSqlite (_conn s) (_closed s) (_batch_depth s) (_transaction_started s) (_rollback_only s) n (_in_seq s).
Definition set_in_seq (n : Z) (s : SqliteInflightStore) : SqliteInflightStore :=
  mkSqlite (_conn s) (_closed s) (_batch_depth s) (_transaction_started s) (_rollback_only s) (_out_seq s) n.

(** Methods of the store. *)
Definition act (A : Type) : Type := SqliteInflightStore → res A * SqliteInflightStore.
#[export] Instance act_ret : MRet act := λ A a s, (Ok a, s).
#[export] Instance act_bind : MBind act := λ A B k m s,
  match m s with (Ok a, s) => k a s | (Raise x, s) => (Raise x, s) end.

Definition act_raise {A} (x : exn) : act A := λ s, (Raise x, s).
Definition act_lift {A} (r : res A) : act A := λ s, (r, s).
Definition act_get {A} (f : SqliteInflightStore → A) : act A := λ s, (Ok (f s), s).
Definition act_set (f : SqliteInflightStore → SqliteInflightStore) : act unit := λ s, (Ok tt, f s).
Definition conn_do {A} (f : Conn → res A * Conn) : act A := λ s, let '(r, c) := f (_conn s) in (r, set_conn c s).

(** *** Transactions *)

Definition _rollback_or_close : act unit := λ s,
  match conn_do conn_rollback s with
  | (Ok _, s) => (Ok tt, s)
  | (Raise _, s) => (Ok tt, set_closed true (set_conn (conn_close (_conn s)) s))
  end.

Definition _commit : act unit := λ s,
  match conn_do conn_commit s with
  | (Ok _, s) => (Ok tt, s)
  | (Raise x, s) => (_rollback_or_close;; act_raise x) s
  end.

Definition _ensure_write_transaction : act unit :=
  s ← act_get id;
  if negb (_batch_depth s =? 0) && negb (_transaction_started s) then
    conn_do conn_begin;;
    act_set (λ s, set_batch (_batch_depth s) true (_rollback_only s) s)
  else mret tt.

Definition _commit_if_needed : act unit :=
  s ← act_get id;
  if _batch_depth s =? 0 then _commit else mret tt.

Definition sql_close : act unit :=
  s ← act_get id;
  if (_closed s : bool) then mret tt
  else if negb (_batch_depth s =? 0) then act_raise RuntimeError
  else act_set (λ s, set_closed true (set_conn (conn_close (_conn s)) s)).

(** [with self.batch(): body]: entering it, and leaving it after a failure or
    without one. *)
Definition batch_enter (s : SqliteInflightStore) : SqliteInflightStore :=
  set_batch (_batch_depth s + 1) (_transaction_started s)
    (if _batch_depth s =? 0 then false else _rollback_only s) s.

Definition batch_failed (outermost : bool) (s : SqliteInflightStore) : SqliteInflightStore :=
  let s := set_batch (_batch_depth s - 1) (_transaction_started s) true s in
  if outermost then
    let s := if _transaction_started s then snd (_rollback_or_close s) else s in
    set_batch (_batch_depth s) false false s
  else s.

Definition batch_done (outermost : bool) (s : SqliteInflightStore) : res unit * SqliteInflightStore :=
  let s := set_batch (_batch_depth s - 1) (_transaction_started s) (_rollback_only s) s in
  if negb outermost then (Ok tt, s)
  else if negb (_rollback_only s) then
    let '(r, s) := if _transaction_started s then _commit s else (Ok tt, s) in
    (r, set_batch (_batch_depth s) false (_rollback_only s) s)
  else
    let s := if _transaction_started s then snd (_rollback_or_close s) else s in
    (Raise RuntimeError, set_batch (_batch_depth s) false false s).

Definition batch {X A} (body : X * SqliteInflightStore → res A * (X * SqliteInflightStore)) :
    X * SqliteInflightStore → res A * (X * SqliteInflightStore) := λ '(x, s),
  let outermost := _batch_depth s =? 0 in
  match body (x, batch_enter s) with
  | (Raise e, (x, s)) => (Raise e, (x, batch_failed outermost s))
  | (Ok a, (x, s)) =>
      match batch_done outermost s with
      | (Ok _, s) => (Ok a, (x, s))
      | (Raise e, s) => (Raise e, (x, s))
      end
  end.

(** *** Outbound records *)

Definition bool_int (b : bool) : Z := if b then 1 else 0.
Definition opt_text (o : option pystr) : sqlval := match o with Some s => SText s | None => SNull end.

(** The parameters of the insertion, as a row. *)
Definition out_params (msg : OutboundMessage) (seq : Z) : out_row :=
  OutRow (SInt seq) (SInt (QoS_int (o_qos msg))) (SInt (bool_int (o_retain msg))) (SInt (Out_int (o_state msg)))
    (SInt (bool_int (o_dup msg))) (SInt (o_logical_size msg)) (SText (o_topic msg))
    (opt_text (_props_to_json (o_properties msg))) (SBlob (o_payload msg)).
Definition out_args (mid : Z) (r : out_row) : list sqlval :=
  [SInt mid; ro_topic r; ro_payload r; ro_qos r; ro_retain r; ro_state r; ro_dup r; ro_properties r; ro_seq r;
   ro_logical_size r].

(** [INSERT ... ON CONFLICT(mid) DO UPDATE SET ...]: a present row keeps its
    insertion sequence. *)
Definition upsert_out (mid : Z) (r : out_row) (d : Db) : unit * Db :=
  let r := match dget mid (outbound_t d) with
           | Some old => OutRow (ro_seq old) (ro_qos r) (ro_retain r) (ro_state r) (ro_dup r) (ro_logical_size r)
                           (ro_topic r) (ro_properties r) (ro_payload r)
           | None => r
           end in
  (tt, with_outbound (dset mid r (outbound_t d)) d).

Definition put_out_message (msg : OutboundMessage) : act unit :=
  if o_logical_size msg <=? 0 then act_raise ValueError
  else
    _ensure_write_transaction;;
    act_set (λ s, set_out_seq (_out_seq s + 1) s);;
    seq ← act_get _out_seq;
    conn_do (conn_dml (out_args (o_mid msg) (out_params msg seq)) (upsert_out (o_mid msg) (out_params msg seq)));;
    _commit_if_needed.

Definition get_out_row (mid : Z) : act (option out_row) :=
  conn_do (conn_query [SInt mid] (λ d, dget mid (outbound_t d))).

Definition get_out_message (mid : Z) : act (option OutboundMessage) :=
  row ← get_out_row mid;
  match row with
  | Some r => msg ← act_lift (_row_to_out mid r); mret (Some msg)
  | None => mret None
  end.

(** The number of rows a statement changed, and the tables after it. *)
Definition remove_out (keep : out_row → bool) (mid : Z) (d : Db) : Z * Db :=
  match dget mid (outbound_t d) with
  | Some r => if keep r then (0, d) else (1, with_outbound (ddel mid (outbound_t d)) d)
  | None => (0, d)
  end.
Definition update_out (hit : out_row → bool) (change : out_row → out_row) (mid : Z) (d : Db) : Z * Db :=
  match dget mid (outbound_t d) with
  | Some r => if hit r then (1, with_outbound (dset mid (change r) (outbound_t d)) d) else (0, d)
  | None => (0, d)
  end.

Definition delete_out_row (mid : Z) : act bool :=
  _ensure_write_transaction;;
  rowcount ← conn_do (conn_dml [SInt mid] (remove_out (λ _, false) mid));
  _commit_if_needed;;
  mret (rowcount >? 0).

Definition clear_out : act unit :=
  _ensure_write_transaction;;
  conn_do (conn_dml [] (λ d, (tt, with_outbound [] d)));;
  _commit_if_needed.

(** [_out_transition_row] with the checks made on the row it finds. *)
Definition out_transition (mid : Z) : act (option (OutboundQoSState * Z * Z)) :=
  row ← get_out_row mid;
  match row with
  | Some r => found ← act_lift (_stored_out_transition r); mret (Some found)
  | None => mret None
  end.

Definition out_meta_of (mid : Z) : act (option OutboundRecordMeta) :=
  found ← out_transition mid;
  mret match found with
       | Some (state, logical_size, _) => Some {| om_mid := mid; om_state := state; om_logical_size := logical_size |}
       | None => None
       end.

(** [WHERE mid=? AND state=? AND seq=?]. *)
Definition out_hit (expected : OutboundQoSState) (seq : Z) (r : out_row) : bool :=
  bool_decide (ro_state r = SInt (Out_int expected)) && bool_decide (ro_seq r = SInt seq).

Definition complete_out_row (mid : Z) (expected : OutboundQoSState) : act (option OutboundRecordMeta) :=
  found ← out_transition mid;
  match found with
  | None => mret None
  | Some (state, logical_size, seq) =>
      if negb (bool_decide (state = expected)) then mret None
      else
        _ensure_write_transaction;;
        rowcount ← conn_do (conn_dml [SInt mid; SInt (Out_int expected); SInt seq]
                              (remove_out (λ r, negb (out_hit expected seq r)) mid));
        _commit_if_needed;;
        mret (if rowcount =? 0 then None
              else Some {| om_mid := mid; om_state := expected; om_logical_size := logical_size |})
  end.

Definition out_set_state (new : OutboundQoSState) (r : out_row) : out_row :=
  OutRow (ro_seq r) (ro_qos r) (ro_retain r) (SInt (Out_int new)) (ro_dup r) (ro_logical_size r) (ro_topic r)
    (ro_properties r) (ro_payload r).
(** [SET state=?, topic='', properties=NULL, payload=X'']. *)
Definition out_compacted (new : OutboundQoSState) (r : out_row) : out_row :=
  OutRow (ro_seq r) (ro_qos r) (ro_retain r) (SInt (Out_int new)) (ro_dup r) (ro_logical_size r) (SText [])
    SNull (SBlob []).

Definition transition_out_row (mid : Z) (expected new : OutboundQoSState) (compact : bool) :
    act (option OutboundRecordMeta) :=
  found ← out_transition mid;
  match found with
  | None => mret None
  | Some (state, logical_size, seq) =>
      if negb (bool_decide (state = expected)) then mret None
      else
        _ensure_write_transaction;;
        rowcount ← conn_do (conn_dml [SInt (Out_int new); SInt mid; SInt (Out_int expected); SInt seq]
                              (update_out (out_hit expected seq)
                                 (if compact then out_compacted new else out_set_state new) mid));
        _commit_if_needed;;
        mret (if rowcount =? 0 then None
              else Some {| om_mid := mid; om_state := new; om_logical_size := logical_size |})
  end.

(** *** Pages *)

Fixpoint map_res {A B} (f : A → res B) (l : list A) : res (list B) :=
  match l with [] => Ok [] | x :: l => let! y := f x in let! l := map_res f l in Ok (y :: l) end.

Definition _ordered_mids {R} (table : Db → list (Z * R)) (seq : R → sqlval) : act (list Z) :=
  rows ← conn_do (conn_select (λ d, order_by_seq seq (table d)));
  act_lift (map_res (λ x, _stored_ordered_mid x.1 (seq x.2)) rows).

Definition MAX_SQL_VARIABLES : nat := 900.

(** The rows of one [SELECT ... WHERE mid IN (...)], in primary key order, go
    into the dictionary. *)
Fixpoint variable_chunks {A} (fuel : nat) (n : nat) (l : list A) : list (list A) :=
  match fuel, l with S fuel, _ :: _ => take n l :: variable_chunks fuel n (drop n l) | _, _ => [] end.
Definition select_in {R} (table : list (Z * R)) (sub : list Z) : list (Z * R) :=
  filter (λ x, x.1 ∈ sub) table.
Definition by_mid_update {R} (rows : list (Z * R)) (by_mid : gmap Z R) : res (gmap Z R) :=
  let! rows := map_res (λ x, let! mid := _stored_mid x.1 in Ok (mid, x.2)) rows in
  Ok (foldl (λ m x, <[x.1 := x.2]> m) by_mid rows).

Fixpoint fetch_chunks {R} (table : Db → list (Z * R)) (subs : list (list Z)) (by_mid : gmap Z R) : act (gmap Z R) :=
  match subs with
  | [] => mret by_mid
  | sub :: subs =>
      rows ← conn_do (conn_query (SInt <$> sub) (λ d, select_in (table d) sub));
      by_mid ← act_lift (by_mid_update rows by_mid);
      fetch_chunks table subs by_mid
  end.

Fixpoint build_page {R A} (build : Z → R → res A) (by_mid : gmap Z R) (mids : list Z) : res (list A) :=
  match mids with
  | [] => Ok []
  | mid :: mids =>
      match by_mid !! mid with
      | Some row => let! x := build mid row in let! page := build_page build by_mid mids in Ok (x :: page)
      | None => build_page build by_mid mids
      end
  end.

Definition _fetch_by_mids {R A} (table : Db → list (Z * R)) (build : Z → R → res A) (mids : list Z) : act (list A) :=
  by_mid ← fetch_chunks table (variable_chunks (length mids) MAX_SQL_VARIABLES mids) ∅;
  act_lift (build_page build by_mid mids).

Definition _max_seq {R} (table : Db → list (Z * R)) (seq : R → sqlval) : act Z :=
  value ← conn_do (conn_select (λ d, max_seq (seq ∘ snd <$> table d)));
  act_lift (_stored_non_negative value).

(** *** Inbound records *)

Definition in_params (msg : InboundMessage) (seq : Z) : in_row :=
  InRow (SInt seq) (SInt (QoS_int (i_qos msg))) (SInt (bool_int (i_retain msg))) (SInt (In_int (i_state msg)))
    (SInt (bool_int (i_delivered msg))) (SInt (bool_int (i_user_acked msg))) (SInt (i_logical_size msg))
    (SText (i_topic msg)) (opt_text (_props_to_json (i_properties msg))) (SBlob (i_payload msg)).
Definition in_args (mid : Z) (r : in_row) : list sqlval :=
  [SInt mid; ri_topic r; ri_payload r; ri_qos r; ri_retain r; ri_state r; ri_delivered r; ri_properties r;
   ri_user_acked r; ri_seq r; ri_logical_size r].

Definition upsert_in (mid : Z) (r : in_row) (d : Db) : unit * Db :=
  let r := match dget mid (inbound_t d) with
           | Some old => InRow (ri_seq old) (ri_qos r) (ri_retain r) (ri_state r) (ri_delivered r) (ri_user_acked r)
                           (ri_logical_size r) (ri_topic r) (ri_properties r) (ri_payload r)
           | None => r
           end in
  (tt, with_inbound (dset mid r (inbound_t d)) d).

Definition put_in_message (msg : InboundMessage) : act unit :=
  if i_logical_size msg <=? 0 then act_raise ValueError
  else
    _ensure_write_transaction;;
    act_set (λ s, set_in_seq (_in_seq s + 1) s);;
    seq ← act_get _in_seq;
    conn_do (conn_dml (in_args (i_mid msg) (in_params msg seq)) (upsert_in (i_mid msg) (in_params msg seq)));;
    _commit_if_needed.

Definition get_in_row (mid : Z) : act (option in_row) :=
  conn_do (conn_query [SInt mid] (λ d, dget mid (inbound_t d))).

Definition get_in_message (mid : Z) : act (option InboundMessage) :=
  row ← get_in_row mid;
  match row with
  | Some r => msg ← act_lift (_row_to_in mid r); mret (Some msg)
  | None => mret None
  end.

Definition sql_in_count : act Z := conn_do (conn_select (λ d, len (inbound_t d))).

Definition remove_in (keep : in_row → bool) (mid : Z) (d : Db) : Z * Db :=
  match dget mid (inbound_t d) with
  | Some r => if keep r then (0, d) else (1, with_inbound (ddel mid (inbound_t d)) d)
  | None => (0, d)
  end.
Definition update_in (hit : in_row → bool) (change : in_row → in_row) (mid : Z) (d : Db) : Z * Db :=
  match dget mid (inbound_t d) with
  | Some r => if hit r then (1, with_inbound (dset mid (change r) (inbound_t d)) d) else (0, d)
  | None => (0, d)
  end.

Definition clear_in_rows : act unit :=
  _ensure_write_transaction;;
  conn_do (conn_dml [] (λ d, (tt, with_inbound [] d)));;
  _commit_if_needed.

Definition in_transition (mid : Z) : act (option (In.InboundQoSState * bool * bool * Z * Z)) :=
  row ← get_in_row mid;
  match row with
  | Some r => found ← act_lift (_stored_in_transition r); mret (Some found)
  | None => mret None
  end.

Definition in_meta_of (mid : Z) : act (option InboundRecordMeta) :=
  found ← in_transition mid;
  mret match found with
       | Some (state, user_acked, delivered, logical_size, _) =>
           Some {| im_mid := mid; im_state := state; im_user_acked := user_acked; im_delivered := delivered;
                   im_logical_size := logical_size |}
       | None => None
       end.

Definition in_set_delivered (r : in_row) : in_row :=
  InRow (ri_seq r) (ri_qos r) (ri_retain r) (ri_state r) (SInt 1) (ri_user_acked r) (ri_logical_size r) (ri_topic r)
    (ri_properties r) (ri_payload r).

Definition mark_in_delivered_row (mid : Z) : act bool :=
  _ensure_write_transaction;;
  rowcount ← conn_do (conn_dml [SInt mid]
                        (update_in (λ r, bool_decide (ri_delivered r = SInt 0)) in_set_delivered mid));
  _commit_if_needed;;
  mret (rowcount >? 0).

(** [WHERE mid=? AND state=? AND user_acked=? AND seq=?]. *)
Definition in_hit (expected : In.InboundQoSState) (user_acked : bool) (seq : Z) (r : in_row) : bool :=
  bool_decide (ri_state r = SInt (In_int expected)) && bool_decide (ri_user_acked r = SInt (bool_int user_acked)) &&
  bool_decide (ri_seq r = SInt seq).

Definition in_set_state (new : In.InboundQoSState) (user_acked : option bool) (r : in_row) : in_row :=
  InRow (ri_seq r) (ri_qos r) (ri_retain r) (SInt (In_int new)) (ri_delivered r)
    (match user_acked with Some b => SInt (bool_int b) | None => ri_user_acked r end) (ri_logical_size r) (ri_topic r)
    (ri_properties r) (ri_payload r).

Definition transition_in_row (mid : Z) (expected new : In.InboundQoSState) (user_acked : option bool) :
    act (option InboundRecordMeta) :=
  found ← in_transition mid;
  match found with
  | None => mret None
  | Some (state, old_user_acked, delivered, logical_size, seq) =>
      if negb (bool_decide (state = expected)) then mret None
      else
        _ensure_write_transaction;;
        let args := SInt (In_int new) :: match user_acked with Some b => [SInt (bool_int b)] | None => [] end ++
                    [SInt mid; SInt (In_int expected); SInt (bool_int old_user_acked); SInt seq] in
        rowcount ← conn_do (conn_dml args
                              (update_in (in_hit expected old_user_acked seq) (in_set_state new user_acked) mid));
        let resulting_user_acked := match user_acked with Some b => b | None => old_user_acked end in
        _commit_if_needed;;
        mret (if rowcount =? 0 then None
              else Some {| im_mid := mid; im_state := new; im_user_acked := resulting_user_acked;
                           im_delivered := delivered; im_logical_size := logical_size |})
  end.

Definition complete_in_row (mid : Z) (expected : In.InboundQoSState) : act (option InboundRecordMeta) :=
  found ← in_transition mid;
  match found with
  | None => mret None
  | Some (state, old_user_acked, delivered, logical_size, seq) =>
      if negb (bool_decide (state = expected)) then mret None
      else
        _ensure_write_transaction;;
        rowcount ← conn_do (conn_dml [SInt mid; SInt (In_int expected); SInt (bool_int old_user_acked); SInt seq]
                              (remove_in (λ r, negb (in_hit expected old_user_acked seq r)) mid));
        _commit_if_needed;;
        mret (if rowcount =? 0 then None
              else Some {| im_mid := mid; im_state := expected; im_user_acked := old_user_acked;
                           im_delivered := delivered; im_logical_size := logical_size |})
  end.

(** *** Replay pages *)

(** The index [in_replay_pages] reads before its first page. *)
Definition replay_index : act (list (Z * Z)) :=
  rows ← conn_do (conn_select (λ d, order_by_seq ri_seq (inbound_t d)));
  act_lift (map_res (λ x, let! mid := _stored_mid x.1 in
                          let! size := _stored_non_negative (ri_logical_size x.2) in Ok (mid, size)) rows).

Definition sql_hydrate_page (mids : list Z) : act (list InboundMessage) := _fetch_by_mids inbound_t _row_to_in mids.

(** The loop of [in_replay_pages] up to the next page it yields. *)
Fixpoint sql_replay_next (max_messages max_bytes : Z) (index : list (Z * Z)) (mids : list Z) (hydrated_bytes : Z) :
    act (option (list InboundMessage * list (Z * Z))) :=
  match index with
  | [] =>
      match mids with
      | [] => mret None
      | _ => page ← sql_hydrate_page mids;
             mret match page with [] => None | _ => Some (page, []) end
      end
  | (mid, message_bytes) :: index' =>
      let add mids hydrated_bytes :=
        let mids := mids ++ [mid] in
        let hydrated_bytes := hydrated_bytes + message_bytes in
        if (len mids >=? max_messages) || (hydrated_bytes >=? max_bytes) then
          page ← sql_hydrate_page mids;
          match page with
          | [] => sql_replay_next max_messages max_bytes index' [] 0
          | _ => mret (Some (page, index'))
          end
        else sql_replay_next max_messages max_bytes index' mids hydrated_bytes in
      if negb (bool_decide (mids = [])) &&
         ((len mids >=? max_messages) || (hydrated_bytes + message_bytes >? max_bytes))
      then
        page ← sql_hydrate_page mids;
        match page with
        | [] => add [] 0
        | _ => mret (Some (page, index))
        end
      else add mids hydrated_bytes
  end.

Definition sql_replay_from (max_messages max_bytes : Z) (index : list (Z * Z)) :
    act (option (list InboundMessage) * replay_gen) :=
  next ← sql_replay_next max_messages max_bytes index [] 0;
  mret match next with
       | Some (page, index) => (Some page, GIndex max_messages max_bytes index)
       | None => (None, GDone)
       end.

Definition sql_in_replay_next (g : replay_gen) : act (option (list InboundMessage) * replay_gen) :=
  match g with
  | GNew max_messages max_bytes =>
      if max_messages <=? 0 then act_raise ValueError
      else if max_bytes <=? 0 then act_raise ValueError
      else index ← replay_index; sql_replay_from max_messages max_bytes index
  | GIndex max_messages max_bytes index => sql_replay_from max_messages max_bytes index
  | _ => mret (None, GDone)
  end.

(** *** The schema *)

Definition SQLITE_SCHEMA_VERSION : Z := 5.

Definition lower (s : pystr) : pystr := (λ c, if (65 <=? c) && (c <=? 90) then c + 32 else c) <$> s.
(** ["".join(statement.lower().split())], on ASCII text. *)
Definition squash (s : string) : pystr := filter (λ c, is_space c = false) (lower (lit s)).
(** [name LIKE 'sqlite_%']. *)
Definition like_sqlite (name : string) : bool :=
  bool_decide (take 6 (lower (lit name)) = lit "sqlite") && (7 <=? len (lit name)).

Definition OUTBOUND_COLUMNS : string :=
  "mid INTEGER PRIMARY KEY, seq INTEGER NOT NULL, qos INTEGER NOT NULL, retain INTEGER NOT NULL, state INTEGER NOT NULL, dup INTEGER NOT NULL, logical_size INTEGER NOT NULL CHECK(logical_size > 0), topic TEXT NOT NULL, properties TEXT, payload BLOB NOT NULL".
Definition INBOUND_COLUMNS : string :=
  "mid INTEGER PRIMARY KEY, seq INTEGER NOT NULL, qos INTEGER NOT NULL, retain INTEGER NOT NULL, state INTEGER NOT NULL, delivered INTEGER NOT NULL, user_acked INTEGER NOT NULL, logical_size INTEGER NOT NULL CHECK(logical_size > 0), topic TEXT NOT NULL, properties TEXT, payload BLOB NOT NULL".
Definition REQUIRED_OUTBOUND : list string :=
  ["mid"; "seq"; "qos"; "retain"; "state"; "dup"; "logical_size"; "topic"; "properties"; "payload"]%string.
Definition REQUIRED_INBOUND : list string :=
  ["mid"; "seq"; "qos"; "retain"; "state"; "delivered"; "user_acked"; "logical_size"; "topic"; "properties";
   "payload"]%string.

Definition outbound_object : schema_object :=
  Object "table" "outbound" ("CREATE TABLE outbound (" ++ OUTBOUND_COLUMNS ++ ")") REQUIRED_OUTBOUND.
Definition inbound_object : schema_object :=
  Object "table" "inbound" ("CREATE TABLE inbound (" ++ INBOUND_COLUMNS ++ ")") REQUIRED_INBOUND.

(** [PRAGMA table_info(table)]. *)
Definition table_info (table : string) (d : Db) : list string :=
  match list_find (λ o, ob_type o = "table"%string ∧ ob_name o = table) (sqlite_master d) with
  | Some (_, o) => ob_columns o
  | None => []
  end.

Definition expected_object (o : schema_object) : bool :=
  bool_decide (ob_type o = "table"%string) &&
  ((bool_decide (ob_name o = "outbound"%string) && zlist_eqb (squash (ob_sql o)) (squash (ob_sql outbound_object))) ||
   (bool_decide (ob_name o = "inbound"%string) && zlist_eqb (squash (ob_sql o)) (squash (ob_sql inbound_object)))).

Definition _validate_schema : act bool :=
  version ← conn_do (conn_select user_version);
  tables ← conn_do (conn_select (λ d, ob_name <$> filter (λ o, ob_type o = "table"%string ∧ like_sqlite (ob_name o) = false)
                                                     (sqlite_master d)));
  let checked : act bool :=
    if negb (version =? SQLITE_SCHEMA_VERSION) then act_raise RuntimeError
    else if negb (bool_decide (list_to_set tables =@{gset string} {["outbound"%string; "inbound"%string]})) then
      act_raise RuntimeError
    else
      columns ← conn_do (conn_select (table_info "outbound"));
      if negb (bool_decide (columns = REQUIRED_OUTBOUND)) then act_raise RuntimeError
      else
        columns ← conn_do (conn_select (table_info "inbound"));
        if negb (bool_decide (columns = REQUIRED_INBOUND)) then act_raise RuntimeError
        else
          objects ← conn_do (conn_select sqlite_master);
          if negb (len objects =? 2) || existsb (λ o, negb (expected_object o)) objects then act_raise RuntimeError
          else mret false in
  if (version =? 0) && bool_decide (tables = []) then
    objects ← conn_do (conn_select (λ d, take 1 (sqlite_master d)));
    if bool_decide (objects = []) then mret true else checked
  else checked.

(** A statement that is not DML: within the open transaction, or by itself. *)
Definition conn_statement (f : Db → Db) : Conn → res unit * Conn :=
  conn_call id (λ c, (Ok tt, match tx c with
                             | Some d => set_tx (Some (f d)) c
                             | None => mkConn (f (disk c)) None (world c) (conn_closed c)
                             end)).

Definition create_if_missing (o : schema_object) (d : Db) : Db :=
  if existsb (λ x, bool_decide (ob_name x = ob_name o)) (sqlite_master d) then d
  else mkDb (user_version d) (sqlite_master d ++ [o]) (outbound_t d) (inbound_t d).
Definition set_user_version (n : Z) (d : Db) : Db := mkDb n (sqlite_master d) (outbound_t d) (inbound_t d).

Definition _create_schema : act unit :=
  conn_do (conn_statement (create_if_missing outbound_object));;
  conn_do (conn_statement (create_if_missing inbound_object)).

(** [with self._conn: body]. *)
Definition with_conn (body : act unit) : act unit := λ s,
  match body s with
  | (Ok _, s) =>
      match conn_do conn_commit s with
      | (Ok _, s) => (Ok tt, s)
      | (Raise x, s) => (Raise x, snd (conn_do conn_rollback s))
      end
  | (Raise x, s) =>
      match conn_do conn_rollback s with
      | (Ok _, s) => (Raise x, s)
      | (Raise y, s) => (Raise y, s)
      end
  end.

(** [try: m finally: conn.rollback()]. *)
Definition then_rollback {A} (m : act A) : act A := λ s,
  let '(r, s) := m s in
  match conn_do conn_rollback s with
  | (Ok _, s) => (r, s)
  | (Raise x, s) => (Raise x, s)
  end.

Definition _prepare_schema : act unit :=
  conn_do conn_begin;;
  empty ← then_rollback _validate_schema;
  conn_do (conn_select (λ _, tt));;
  conn_do (conn_select (λ _, tt));;
  if empty : bool then
    with_conn (
      conn_do conn_begin;;
      still_empty ← _validate_schema;
      if still_empty : bool then
        _create_schema;;
        conn_do (conn_statement (set_user_version SQLITE_SCHEMA_VERSION))
      else mret tt)
  else mret tt.

(** [SqliteInflightStore(path)] on a connection just opened: a constructor that
    raises closes the connection. *)
Definition SqliteInflightStore_init (c : Conn) : res SqliteInflightStore * Conn :=
  let body :=
    _prepare_schema;;
    out_seq ← _max_seq outbound_t ro_seq;
    act_set (set_out_seq out_seq);;
    in_seq ← _max_seq inbound_t ri_seq;
    act_set (set_in_seq in_seq) in
  match body (mkSqlite c false 0 false false 0 0) with
  | (Ok _, s) => (Ok s, _conn s)
  | (Raise x, s) => (Raise x, if _closed s then _conn s else conn_close (_conn s))
  end.

Definition empty_db : Db := mkDb 0 [] [] [].
Definition fresh : SqliteInflightStore :=
  match SqliteInflightStore_init (mkConn empty_db None [] false) with
  | (Ok s, _) => s
  | (Raise _, c) => mkSqlite c true 0 false false 0 0
  end.

(** ** The store as the sessions see it

    A method that returns a message builds a new object. *)
Definition on_conn {A} (m : act A) : sop SqliteInflightStore A := λ '(h, s), let '(r, s) := m s in (r, (h, s)).

Definition put_out (l : loc) : sop SqliteInflightStore unit := λ '(h, s),
  match oh h !! l with
  | None => (Raise TypeError, (h, s))
  | Some m => on_conn (put_out_message m) (h, s)
  end.

Definition get_out (mid : Z) : sop SqliteInflightStore (option loc) := λ '(h, s),
  match get_out_message mid s with
  | (Ok (Some m), s) => (Ok (Some (length (oh h))), (o_alloc h m, s))
  | (Ok None, s) => (Ok None, (h, s))
  | (Raise x, s) => (Raise x, (h, s))
  end.

Definition put_in (l : loc) : sop SqliteInflightStore unit := λ '(h, s),
  match ih h !! l with
  | None => (Raise TypeError, (h, s))
  | Some m => on_conn (put_in_message m) (h, s)
  end.

Definition get_in (mid : Z) : sop SqliteInflightStore (option loc) := λ '(h, s),
  match get_in_message mid s with
  | (Ok (Some m), s) => (Ok (Some (length (ih h))), (i_alloc h m, s))
  | (Ok None, s) => (Ok None, (h, s))
  | (Raise x, s) => (Raise x, (h, s))
  end.

(** The objects of a page. *)
Definition alloc_page (page : list InboundMessage) (h : Heap) : list loc * Heap :=
  (seq (length (ih h)) (length page), foldl i_alloc h page).

Definition in_replay_next (g : replay_gen) : sop SqliteInflightStore (option (list loc) * replay_gen) := λ '(h, s),
  match sql_in_replay_next g s with
  | (Ok (Some page, g), s) => let '(ls, h) := alloc_page page h in (Ok (Some ls, g), (h, s))
  | (Ok (None, g), s) => (Ok (None, g), (h, s))
  | (Raise x, s) => (Raise x, (h, s))
  end.

#[export] Instance sqlite_out : OutStore SqliteInflightStore := {|
  Store.put_out := put_out; Store.get_out := get_out; Store.delete_out mid := on_conn (delete_out_row mid);
  Store.out_mids := on_conn (_ordered_mids outbound_t ro_seq);
  Store.out_page mids := on_conn (_fetch_by_mids outbound_t _row_to_out_summary mids);
  Store.out_meta mid := on_conn (out_meta_of mid);
  Store.complete_out mid st := on_conn (complete_out_row mid st);
  Store.transition_out mid st new c := on_conn (transition_out_row mid st new c) |}.

#[export] Instance sqlite_in : InStore SqliteInflightStore := {|
  Store.put_in := put_in; Store.get_in := get_in; Store.in_count := on_conn sql_in_count;
  Store.in_mids := on_conn (_ordered_mids inbound_t ri_seq);
  Store.in_index_page mids := on_conn (_fetch_by_mids inbound_t _row_to_in_meta mids);
  Store.in_meta mid := on_conn (in_meta_of mid);
  Store.in_replay_next := in_replay_next;
  Store.mark_in_delivered mid := on_conn (mark_in_delivered_row mid);
  Store.transition_in mid st new a := on_conn (transition_in_row mid st new a);
  Store.complete_in mid st := on_conn (complete_in_row mid st);
  Store.clear_in := on_conn clear_in_rows |}.

Example fresh_ex : (sqlite_master (db (_conn fresh)), _closed fresh, tx (_conn fresh)) =
  ([outbound_object; inbound_object], false, None).
Proof. vm_compute. reflexivity. Qed.

(** A database this store created is accepted again; an older one is refused. *)
Example reopen_ex :
  is_ok (SqliteInflightStore_init (mkConn (disk (_conn fresh)) None [] false)).1 = true ∧
  (SqliteInflightStore_init (mkConn (set_user_version 4 (disk (_conn fresh))) None [] false)).1 = Raise RuntimeError.
Proof. vm_compute. split; reflexivity. Qed.

Definition sample (mid : Z) : OutboundMessage :=
  mkOut mid (lit "a/b") [1; 2] AT_LEAST_ONCE false QUEUED false
    (Some [("content_type"%string, VStr (lit "x")); ("user_property"%string, VTuple [VTuple [VStr (lit "k"); VStr []]])])
    None None 10.

Example put_get_ex : (get_out_message 7 (put_out_message (sample 7) fresh).2).1 = Ok (Some (sample 7)).
Proof. vm_compute. reflexivity. Qed.
