(* ===== verification/SqliteLaws.v ===== *)
(** * The SQLite store keeps the promises of a store

    Whatever calls of the connection fail, and in or out of a batch, every
    operation either does on the tables what it says or leaves them as they
    were: [OutStoreLaws] and [InStoreLaws] hold for the SQLite store, and with
    them every theorem of the sessions and the engine. *)

From S2P Require Import Prelude PyStr Enums Properties Types Handshake Store StoreIn Json Sqlite.

Abbreviation Sq := SqliteInflightStore.

(** ** Rules for the methods of the store *)

Section rules.
Implicit Types (s : Sq).

Definition awp {A} (m : act A) (Q : A → Sq → Prop) (R : exn → Sq → Prop) s : Prop :=
  match m s with (Ok a, s') => Q a s' | (Raise x, s') => R x s' end.

Lemma awp_bind {A B} (m : act A) (k : A → act B) Q R s : awp m (λ a, awp (k a) Q R) R s → awp (m ≫= k) Q R s.
Proof. unfold awp, mbind, act_bind. by destruct (m s) as [[a | x] s']. Qed.
Lemma awp_mono {A} (m : act A) (Q Q' : A → Sq → Prop) (R R' : exn → Sq → Prop) s :
  awp m Q R s → (∀ a s', Q a s' → Q' a s') → (∀ x s', R x s' → R' x s') → awp m Q' R' s.
Proof. unfold awp. destruct (m s) as [[a | x] s']; auto. Qed.
Lemma awp_run {A} (m : act A) (Q : A → Sq → Prop) (R : exn → Sq → Prop) s r s' :
  awp m Q R s → m s = (r, s') → match r with Ok a => Q a s' | Raise x => R x s' end.
Proof. unfold awp. intros H E. rewrite E in H. by destruct r. Qed.
Lemma awp_lift {A} (r : res A) (Q : A → Sq → Prop) (R : exn → Sq → Prop) s :
  (∀ a, r = Ok a → Q a s) → (∀ x, r = Raise x → R x s) → awp (act_lift r) Q R s.
Proof. unfold awp, act_lift. destruct r; auto. Qed.
End rules.

(** ** The connection between two calls *)

Definition honest (ev : event) : Prop := ev = Calm ∨ ev = Fault.

Definition D (s : Sq) : Db := db (_conn s).
(** What a method leaves alone. *)
Definition frame (s : Sq) := (_batch_depth s, _out_seq s, _in_seq s).

(** [at_db z d0 d1 s]: the open transaction has taken the database from [d0] to
    [d1]; out of a batch [d0] is what is committed. *)
Record at_db (z : Z) (d0 d1 : Db) (s : Sq) : Prop := {
  at_world : Forall honest (world (_conn s));
  at_now : D s = d1;
  at_depth : _batch_depth s = z;
  at_disk : z = 0 → disk (_conn s) = d0 }.

(** A store nobody else writes to, with nothing to commit out of a batch. *)
Definition settled (s : Sq) : Prop := at_db (_batch_depth s) (D s) (D s) s.

Definition seqs (s : Sq) : Z * Z := (_out_seq s, _in_seq s).

(** Errors of the store are not errors of the protocol. *)
Definition local (x : exn) : Prop := is_mqtt_error x = false.

Section connection.
Implicit Types (s : Sq) (c : Conn) (d : Db).

Lemma next_event_inv c : Forall honest (world c) →
  ∃ w, (next_event c = (Calm, mkConn (disk c) (tx c) w (conn_closed c)) ∨
        next_event c = (Fault, mkConn (disk c) (tx c) w (conn_closed c))) ∧ Forall honest w.
Proof.
  unfold next_event. destruct c as [d t [| ev w] k]; simpl; intros Hw; [by exists []; split; [left |] |].
  apply Forall_cons in Hw as [[-> | ->] Hw]; exists w; split; auto.
Qed.

(** A call fails, having done only its preparation, or is made. *)
Lemma conn_call_inv {A} pre (f : Conn → res A * Conn) c : Forall honest (world c) →
  conn_call pre f c = (Raise StoreError, c) ∧ conn_closed c = true ∨
  ∃ w, Forall honest w ∧ conn_closed c = false ∧
    let c' := pre (mkConn (disk c) (tx c) w (conn_closed c)) in
    conn_call pre f c = (Raise StoreError, c') ∨ conn_call pre f c = f c'.
Proof.
  intros Hw. unfold conn_call. destruct (conn_closed c) eqn:E; [by left | right].
  destruct (next_event_inv c Hw) as (w & [H | H] & Hw'); rewrite H; exists w; rewrite E; auto.
Qed.

Lemma at_set_conn z d0 d1 s c :
  at_db z d0 d1 s → Forall honest (world c) → disk c = disk (_conn s) → db c = d1 → at_db z d0 d1 (set_conn c s).
Proof. intros [? ? ? Hd] Hw Hk Ht. split; simpl; [done | done | done |]. intros Hz. rewrite Hk. auto. Qed.

(** A step on the connection, from the four ways [conn_call_inv] leaves. *)
Lemma awp_conn {A} (f : Conn → res A * Conn) (Q : A → Sq → Prop) (R : exn → Sq → Prop) s :
  (∀ r c, f (_conn s) = (r, c) → match r with Ok a => Q a (set_conn c s) | Raise x => R x (set_conn c s) end) →
  awp (conn_do f) Q R s.
Proof. unfold awp, conn_do. intros H. destruct (f (_conn s)) as [r c] eqn:E. by specialize (H r c eq_refl); destruct r. Qed.

Lemma settled_at z d s : at_db z d d s → settled s.
Proof. intros Hs. unfold settled. by rewrite (at_depth _ _ _ _ Hs), (at_now _ _ _ _ Hs). Qed.

Lemma bind_local vs x : bind_all vs = Raise x → local x.
Proof.
  induction vs as [| v vs IH]; [done |]. cbn. destruct (bindable v) as [[] | y] eqn:Ev; cbn; [done |].
  intros [= ->]. unfold bindable in Ev. repeat case_match; by simplify_eq.
Qed.

(** A query. *)
Lemma awp_query {A} z d0 d1 args (q : Db → A) (Q : A → Sq → Prop) (R : exn → Sq → Prop) s :
  at_db z d0 d1 s →
  (∀ s', at_db z d0 d1 s' → seqs s' = seqs s → Q (q d1) s') →
  (∀ x s', at_db z d0 d1 s' → seqs s' = seqs s → local x → R x s') → awp (conn_do (conn_query args q)) Q R s.
Proof.
  intros Hs HQ HR. apply awp_conn. intros r c. unfold conn_query.
  destruct (conn_call_inv id (λ c, (let! _ := bind_all args in Ok (q (db c)), c)) (_conn s) (at_world _ _ _ _ Hs))
    as [[-> _] | (w & Hw & _ & [-> | ->])].
  - intros [= <- <-]. by apply HR; [eapply at_set_conn; try done; apply Hs | |].
  - intros [= <- <-]. by apply HR; [eapply at_set_conn; try done; apply Hs | |].
  - set (c' := id _). assert (at_db z d0 d1 (set_conn c' s)) by (eapply at_set_conn; try done; apply Hs).
    destruct (bind_all args) as [[] | x] eqn:Eb; intros [= <- <-].
    + replace (q (db c')) with (q d1) by (f_equal; symmetry; apply Hs). by apply HQ.
    + apply HR; [done | done |]. by eapply bind_local.
Qed.

(** A statement that changes rows. *)
Lemma awp_dml {A} z d0 d1 args (f : Db → A * Db) (Q : A → Sq → Prop) (R : exn → Sq → Prop) s :
  at_db z d0 d1 s →
  (∀ s', at_db z d0 (f d1).2 s' → seqs s' = seqs s → Q (f d1).1 s') →
  (∀ x s', at_db z d0 d1 s' → seqs s' = seqs s → local x → R x s') → awp (conn_do (conn_dml args f)) Q R s.
Proof.
  intros Hs HQ HR. apply awp_conn. intros r c. unfold conn_dml. set (g := λ c, _).
  destruct (conn_call_inv begin_implicit g (_conn s) (at_world _ _ _ _ Hs)) as [[-> _] | (w & Hw & _ & H)].
  { intros [= <- <-]. by apply HR; [eapply at_set_conn; try done; apply Hs | |]. }
  set (c' := begin_implicit _) in H. assert (Ht : tx c' = Some d1 ∧ disk c' = disk (_conn s) ∧ world c' = w).
  { pose proof (at_now _ _ _ _ Hs) as Hn. unfold D, db in Hn. unfold c', begin_implicit. simpl.
    destruct (tx (_conn s)); simpl in *; subst; done. }
  destruct Ht as (Ht & Hk & Hw'). assert (Hdb : db c' = d1) by (unfold db; by rewrite Ht).
  assert (at_db z d0 d1 (set_conn c' s)) as Hc by (eapply at_set_conn; [done | by rewrite Hw' | done | done]).
  destruct H as [-> | ->].
  - intros [= <- <-]. by apply HR.
  - unfold g. destruct (bind_all args) as [[] | x] eqn:Eb.
    + rewrite Hdb. destruct (f d1) as [a d] eqn:Ef. intros [= <- <-]. simpl in HQ. apply HQ; [| done].
      split; simpl; [by rewrite Hw' | done | apply Hs |]. rewrite Hk. apply Hs.
    + intros [= <- <-]. apply HR; [done | done |]. by eapply bind_local.
Qed.

Lemma at_closed z d0 d1 s : at_db z d0 d1 s → z = 0 → at_db z d0 d0 (set_closed true (set_conn (conn_close (_conn s)) s)).
Proof.
  intros Hs Hz. pose proof (at_disk _ _ _ _ Hs Hz). split; [apply Hs | done | apply Hs | done].
Qed.

(** Giving up a transaction out of a batch: the committed database is back. *)
Lemma awp_rollback d0 d1 (Q : unit → Sq → Prop) (R : exn → Sq → Prop) s :
  at_db 0 d0 d1 s → (∀ s', at_db 0 d0 d0 s' → seqs s' = seqs s → Q tt s') → awp _rollback_or_close Q R s.
Proof.
  intros Hs HQ. unfold awp, _rollback_or_close, conn_do, conn_rollback.
  destruct (tx (_conn s)) as [t |] eqn:Et.
  - destruct (conn_call_inv id (λ c, (Ok tt, set_tx None c)) (_conn s) (at_world _ _ _ _ Hs))
      as [[-> _] | (w & Hw & _ & [-> | ->])]; simpl.
    + apply HQ; [| done]. by apply (at_closed _ _ _ _ Hs).
    + apply HQ; [| done]. split; [done | apply (at_disk _ _ _ _ Hs eq_refl) | apply Hs | apply Hs].
    + apply HQ; [| done]. split; [done | apply (at_disk _ _ _ _ Hs eq_refl) | apply Hs | apply Hs].
  - assert (d1 = d0) as ->.
    { rewrite <- (at_now _ _ _ _ Hs), <- (at_disk _ _ _ _ Hs eq_refl). unfold D, db. by rewrite Et. }
    assert (set_conn (_conn s) s = s) as E by (by destruct s).
    destruct (conn_closed (_conn s)); simpl; rewrite E; apply HQ; try done. by apply (at_closed _ d0 d0).
Qed.

Lemma awp_commit d0 d1 (Q : unit → Sq → Prop) (R : exn → Sq → Prop) s :
  at_db 0 d0 d1 s → (∀ s', at_db 0 d1 d1 s' → seqs s' = seqs s → Q tt s') →
  (∀ x s', at_db 0 d0 d0 s' → seqs s' = seqs s → local x → R x s') → awp _commit Q R s.
Proof.
  intros Hs HQ HR. unfold awp, _commit.
  assert (Hfail : ∀ c, at_db 0 d0 d1 (set_conn c s) → match (_rollback_or_close;; act_raise StoreError) (set_conn c s) with
    | (Ok a, s') => Q a s' | (Raise x, s') => R x s' end).
  { intros c Hc. apply (awp_bind _ (λ _, act_raise StoreError) Q R).
    eapply awp_rollback; [exact Hc |]. intros s' Hs' Hq. unfold awp. simpl. by apply HR; [| rewrite Hq |]. }
  unfold conn_do, conn_commit. pose proof (at_now _ _ _ _ Hs) as Hn. unfold D in Hn.
  destruct (tx (_conn s)) as [t |] eqn:Et.
  - destruct (conn_call_inv id (λ c, (Ok tt, mkConn (db c) None (world c) (conn_closed c))) (_conn s) (at_world _ _ _ _ Hs))
      as [[-> _] | (w & Hw & _ & [-> | ->])]; simpl.
    + apply Hfail. eapply at_set_conn; try done; apply Hs.
    + apply Hfail. eapply at_set_conn; try done.
    + apply HQ; [| done]. unfold db in Hn. rewrite Et in Hn. split; simpl; [done | | apply Hs |].
      * unfold D, db. simpl. unfold db. simpl. by rewrite Et.
      * intros _. unfold db. simpl. by rewrite Et.
  - assert (d1 = d0) as ->.
    { rewrite <- Hn, <- (at_disk _ _ _ _ Hs eq_refl). unfold db. by rewrite Et. }
    assert (set_conn (_conn s) s = s) as E by (by destruct s).
    destruct (conn_closed (_conn s)); [apply Hfail |]; rewrite E; [done | by apply HQ].
Qed.

(** The beginning and the end of a write. *)
Lemma awp_ensure z d (Q : unit → Sq → Prop) (R : exn → Sq → Prop) s :
  at_db z d d s → (∀ s', at_db z d d s' → seqs s' = seqs s → Q tt s') →
  (∀ x s', at_db z d d s' → seqs s' = seqs s → local x → R x s') → awp _ensure_write_transaction Q R s.
Proof.
  intros Hs HQ HR. unfold _ensure_write_transaction. apply awp_bind. unfold awp at 1. cbn [act_get id].
  destruct (_ && _) eqn:E; [| by apply HQ]. apply awp_bind, awp_conn. intros r c. unfold conn_begin. set (g := λ c, _).
  destruct (conn_call_inv id g (_conn s) (at_world _ _ _ _ Hs)) as [[-> _] | (w & Hw & _ & [-> | ->])].
  1, 2: intros [= <- <-]; apply HR; [eapply at_set_conn; try done; apply Hs | done | done].
  unfold g. simpl. pose proof (at_now _ _ _ _ Hs) as Hn. unfold D, db in Hn.
  destruct (tx (_conn s)) as [t |] eqn:Et; intros [= <- <-].
  - apply HR; [| done | done]. by eapply at_set_conn.
  - unfold awp. simpl. apply HQ; [| done]. split; simpl; [done | done | apply Hs | apply Hs].
Qed.

Lemma awp_commit_if_needed z d0 d1 (Q : unit → Sq → Prop) (R : exn → Sq → Prop) s :
  at_db z d0 d1 s → (∀ s', at_db z d1 d1 s' → seqs s' = seqs s → Q tt s') →
  (∀ x s', at_db z d0 d0 s' → seqs s' = seqs s → local x → R x s') → awp _commit_if_needed Q R s.
Proof.
  intros Hs HQ HR. unfold _commit_if_needed. apply awp_bind. unfold awp at 1. cbn [act_get id].
  rewrite (at_depth _ _ _ _ Hs). destruct (z =? 0) eqn:E; bools; subst.
  - by eapply awp_commit.
  - apply HQ; [| done]. destruct Hs as [? ? ? ?]. by split.
Qed.

(** A whole operation that changes rows. *)
Lemma awp_write {A B} z d args (f : Db → A * Db) (k : A → B) (Q : B → Sq → Prop) (R : exn → Sq → Prop) s :
  at_db z d d s →
  (∀ s', at_db z (f d).2 (f d).2 s' → seqs s' = seqs s → Q (k (f d).1) s') →
  (∀ x s', at_db z d d s' → seqs s' = seqs s → local x → R x s') →
  awp (_ensure_write_transaction;; a ← conn_do (conn_dml args f); _commit_if_needed;; mret (k a)) Q R s.
Proof.
  intros Hs HQ HR. apply awp_bind. eapply awp_ensure; [exact Hs | | done]. intros s1 Hs1 E1.
  apply awp_bind. eapply awp_dml; [exact Hs1 | |].
  - intros s2 Hs2 E2. apply awp_bind. eapply awp_commit_if_needed; [exact Hs2 | |].
    + intros s3 Hs3 E3. apply HQ; [done | congruence].
    + intros x s3 Hs3 E3. apply HR; [done | congruence].
  - intros x s2 Hs2 E2. apply HR; [done | congruence].
Qed.
End connection.

(** ** Tables *)

(** Insertion sequences are distinct, in order, and at most [top]. *)
Fixpoint ascending {R} (seq : R → sqlval) (lo top : Z) (t : list (Z * R)) : Prop :=
  match t with
  | [] => True
  | (_, r) :: t => ∃ n, seq r = SInt n ∧ lo < n ≤ top ∧ ascending seq n top t
  end.

Section tables.
Context {R : Type} (seq : R → sqlval).
Implicit Types (t : list (Z * R)) (lo top : Z).

Lemma ascending_weaken t : ∀ lo lo' top top', lo' ≤ lo → top ≤ top' → ascending seq lo top t → ascending seq lo' top' t.
Proof using.
  induction t as [| [k r] t IH]; intros lo lo' top top' Hl Ht; [done |]. intros (n & Hn & Hr & Ha).
  exists n. split_and!; [done | lia | lia |]. eapply IH; [| done | done]. lia.
Qed.

Lemma ascending_sorted t : ∀ lo top, ascending seq lo top t → order_by_seq seq t = t.
Proof using.
  induction t as [| [k r] t IH]; intros lo top; [done |]. intros (n & Hn & _ & Ha). cbn. fold (order_by_seq seq t).
  rewrite (IH n top) by done. destruct t as [| [k' r'] t]; [done |]. destruct Ha as (n' & Hn' & ? & _). simpl.
  rewrite Hn, Hn'. simpl. by rewrite (proj2 (Z.leb_le n n')) by lia.
Qed.

Lemma ascending_ddel mid t : ∀ lo top, ascending seq lo top t → ascending seq lo top (ddel mid t).
Proof using.
  induction t as [| [k r] t IH]; intros lo top; [done |]. intros (n & Hn & Hr & Ha). cbn. case_decide.
  - eapply ascending_weaken; [| | done]; lia.
  - exists n. split_and!; try done; try lia. by apply IH.
Qed.

Lemma ascending_dset_old mid r r' t : ∀ lo top,
  ascending seq lo top t → dget mid t = Some r → seq r' = seq r → ascending seq lo top (dset mid r' t).
Proof using.
  induction t as [| [k x] t IH]; intros lo top; [done |]. intros (n & Hn & Hr & Ha) Hg Hs. cbn in *. case_decide.
  - simplify_eq. exists n. by rewrite Hs.
  - exists n. split_and!; try done; try lia. by apply IH.
Qed.

Lemma ascending_dset_new mid r n t : ∀ lo top, lo < n → top < n →
  ascending seq lo top t → dget mid t = None → seq r = SInt n → ascending seq lo n (dset mid r t).
Proof using.
  induction t as [| [k x] t IH]; intros lo top Hlo Htop; cbn.
  - intros _ _ Hs. exists n. split_and!; try done; lia.
  - intros (m & Hm & Hr & Ha). case_decide; [done |]. intros Hg Hs. exists m. split_and!; try done; try lia.
    apply (IH m top); try done; lia.
Qed.
End tables.

(** A table seen through a function of its keys and rows. *)
Section kmap.
Context {V W : Type} (f : Z → V → W).
Implicit Types (d : list (Z * V)).

Definition kmap d : list (Z * W) := (λ x, (x.1, f x.1 x.2)) <$> d.

Lemma dkeys_kmap d : dkeys (kmap d) = dkeys d.
Proof. unfold dkeys, kmap. by rewrite <- list_fmap_compose. Qed.
Lemma dget_kmap k d : dget k (kmap d) = f k <$> dget k d.
Proof. induction d as [| [k' v] d IH]; [done |]. cbn. case_decide; [by subst | done]. Qed.
Lemma kmap_dset k v d : kmap (dset k v d) = dset k (f k v) (kmap d).
Proof. induction d as [| [k' v'] d IH]; [done |]. cbn. case_decide; cbn; [by subst |]. f_equal. exact IH. Qed.
Lemma kmap_ddel k d : kmap (ddel k d) = ddel k (kmap d).
Proof. induction d as [| [k' v'] d IH]; [done |]. cbn. case_decide; cbn; [done |]. f_equal. exact IH. Qed.
End kmap.

(** Assigning the value a key already has. *)
Lemma dset_known {V} k (v : V) (d : list (Z * V)) : dget k d = Some v → dset k v d = d.
Proof. induction d as [| [k' v'] d IH]; [done |]. cbn. case_decide; [intros [= ->]; by subst |]. intros Hg. by rewrite IH. Qed.

(** ** Pages *)

Lemma concat_chunks {A} n (l : list A) : (0 < n)%nat → ∀ fuel, (length l ≤ fuel)%nat → concat (variable_chunks fuel n l) = l.
Proof.
  intros Hn fuel. revert l. induction fuel as [| fuel IH]; intros l Hl; [by destruct l; simpl in Hl; [| lia] |].
  destruct l as [| x l]; [done |]. cbn [variable_chunks concat]. rewrite IH; [by rewrite take_drop |].
  rewrite length_drop. simpl in *. lia.
Qed.

Lemma dget_select_in {R} mid sub (t : list (Z * R)) :
  dget mid (select_in t sub) = if decide (mid ∈ sub) then dget mid t else None.
Proof.
  unfold select_in. induction t as [| [k r] t IH]; [by case_decide |]. rewrite filter_cons. simpl.
  destruct (decide (k ∈ sub)) as [Hk | Hk]; cbn; rewrite ?IH; repeat case_decide; subst; done.
Qed.

Lemma map_res_inv {A B} (f : A → res B) l k : map_res f l = Ok k → Forall2 (λ x y, f x = Ok y) l k.
Proof.
  revert k. induction l as [| x l IH]; cbn; intros k H; [injection H as <-; constructor |]. res_inv.
  constructor; [done |]. by apply IH.
Qed.
Lemma map_res_raise {A B} (P : exn → Prop) (f : A → res B) l :
  (∀ x, raises_only P (f x)) → raises_only P (map_res f l).
Proof.
  intros Hf. induction l as [| x l IH]; cbn; [by apply raises_only_Ok |].
  apply raises_only_bind; [done |]. intros y _. apply raises_only_bind; [done |]. intros k _. apply raises_only_Ok.
Qed.

Lemma foldl_insert_lookup {R} (rows : list (Z * R)) : ∀ (m : gmap Z R) mid, NoDup (dkeys rows) →
  foldl (λ m x, <[x.1 := x.2]> m) m rows !! mid = match dget mid rows with Some r => Some r | None => m !! mid end.
Proof.
  induction rows as [| [k r] rows IH]; intros m mid Hn; [done |]. apply NoDup_cons in Hn as [Hk Hn].
  cbn [foldl fst snd dget]. rewrite IH by done. case_decide as E.
  - subst. destruct (dget k rows) eqn:Eg; [by apply dget_Some_key in Eg | by rewrite lookup_insert_eq].
  - destruct (dget mid rows); [done |]. by rewrite lookup_insert_ne.
Qed.

Lemma stored_int_inv v n : _stored_int v = Ok n → v = SInt n.
Proof. by destruct v; intros [= <-]. Qed.
Lemma stored_mid_inv mid n : _stored_mid mid = Ok n → n = mid.
Proof. unfold _stored_mid. destruct (negb _); [done |]. by intros [= <-]. Qed.

Lemma by_mid_update_spec {R} (rows : list (Z * R)) (m m' : gmap Z R) : NoDup (dkeys rows) → by_mid_update rows m = Ok m' →
  ∀ mid, m' !! mid = match dget mid rows with Some r => Some r | None => m !! mid end.
Proof.
  intros Hn H mid. unfold by_mid_update in H. apply rbind_Ok_inv in H as (k & Hk & H). injection H as <-.
  assert (k = rows) as ->; [| by apply foldl_insert_lookup].
  apply map_res_inv in Hk. clear Hn. induction Hk as [| [mid' r] [k1 r1] l k Hx _ IH]; [done |]. f_equal; [| exact IH].
  apply rbind_Ok_inv in Hx as (n & Hn%stored_mid_inv & Hx). cbn in Hn. subst n. by injection Hx as <- <-.
Qed.

(** Reading a row raises nothing but errors of the store. *)
Definition reads {A} (m : res A) : Prop := raises_only local m.

Lemma reads_stored_int v : reads (_stored_int v).
Proof. intros x. by destruct v; intros [= <-]. Qed.
Lemma reads_stored_str v : reads (_stored_str v).
Proof. intros x. by destruct v; intros [= <-]. Qed.
Lemma reads_stored_bytes v : reads (_stored_bytes v).
Proof. intros x. by destruct v; intros [= <-]. Qed.
Lemma reads_optional v : reads (_stored_optional_text v).
Proof. intros x. by destruct v; intros [= <-]. Qed.
Lemma reads_bind {A B} (m : res A) (k : A → res B) : reads m → (∀ a, reads (k a)) → reads (rbind m k).
Proof. intros Hm Hk. apply raises_only_bind; [done | intros a _; apply Hk]. Qed.
Lemma reads_ok {A} (a : A) : reads (Ok a).
Proof. apply raises_only_Ok. Qed.
Lemma reads_if {A} (c : bool) x (m : res A) : local x → reads m → reads (if c then Raise x else m).
Proof. intros Hx Hm. destruct c; [| done]. by intros y [= <-]. Qed.
Lemma reads_bool v : reads (_stored_bool v).
Proof. apply reads_bind; [apply reads_stored_int |]. intros n y. repeat case_if; by intros [= <-]. Qed.
Lemma reads_non_negative v : reads (_stored_non_negative v).
Proof. apply reads_bind; [apply reads_stored_int |]. intros n. apply reads_if; [done | apply reads_ok]. Qed.
Lemma reads_size v : reads (_stored_logical_size v).
Proof. apply reads_bind; [apply reads_stored_int |]. intros n. apply reads_if; [done | apply reads_ok]. Qed.
Lemma reads_mid mid : reads (_stored_mid mid).
Proof. apply reads_if; [done | apply reads_ok]. Qed.
Lemma reads_out_of n : reads (Out_of n).
Proof. intros y. unfold Out_of. repeat case_match; by intros [= <-]. Qed.
Lemma reads_in_of n : reads (In_of n).
Proof. intros y. unfold In_of. repeat case_match; by intros [= <-]. Qed.
Lemma reads_qos n : reads (QoS_of n).
Proof. intros y. unfold QoS_of. repeat case_if; by intros [= <-]. Qed.
Lemma reads_props o : reads (_props_from_json o).
Proof.
  intros y. unfold _props_from_json. destruct o as [t |]; [| done]. unfold loads, rbind.
  repeat case_match; intros; simplify_eq; done.
Qed.

Create HintDb reads.
#[export] Hint Resolve reads_stored_int reads_stored_str reads_stored_bytes reads_optional reads_bool reads_non_negative
  reads_size reads_mid reads_out_of reads_in_of reads_qos reads_props reads_ok : reads.
#[local] Ltac reads := repeat (apply reads_bind; [auto with reads | intros]); auto with reads.

Lemma reads_row_to_out mid r : reads (_row_to_out mid r).
Proof. unfold _row_to_out. reads. Qed.
Lemma reads_row_to_out_summary mid r : reads (_row_to_out_summary mid r).
Proof. unfold _row_to_out_summary. reads. Qed.
Lemma reads_row_to_in mid r : reads (_row_to_in mid r).
Proof. unfold _row_to_in. reads. Qed.
Lemma reads_row_to_in_meta mid r : reads (_row_to_in_meta mid r).
Proof. unfold _row_to_in_meta. reads. Qed.
Lemma reads_out_transition r : reads (_stored_out_transition r).
Proof. unfold _stored_out_transition. reads. Qed.
Lemma reads_in_transition r : reads (_stored_in_transition r).
Proof. unfold _stored_in_transition. reads. Qed.

(** The rows a page read finds, in the order asked for. *)
Definition built {R A} (build : Z → R → res A) (t : list (Z * R)) (mids : list Z) (page : list A) : Prop :=
  mapM (λ x, match build x.1 x.2 with Ok a => Some a | Raise _ => None end)
    (omap (λ mid, pair mid <$> dget mid t) mids) = Some page.

Section fetch.
Context {R A : Type} (table : Db → list (Z * R)) (build : Z → R → res A).
Context (Hbuild : ∀ mid r, reads (build mid r)).

Lemma awp_fetch_chunks z d subs : NoDup (dkeys (table d)) → ∀ m (Q : gmap Z R → Sq → Prop) (E : exn → Sq → Prop) s,
  at_db z d d s →
  (∀ m' s', at_db z d d s' → seqs s' = seqs s →
     (∀ mid, m' !! mid = if decide (mid ∈ concat subs ∧ is_Some (dget mid (table d))) then dget mid (table d) else m !! mid) →
     Q m' s') →
  (∀ x s', at_db z d d s' → seqs s' = seqs s → local x → E x s') → awp (fetch_chunks table subs m) Q E s.
Proof using.
  intros Hn. induction subs as [| sub subs IH]; intros m Q E s Hs HQ HE.
  - unfold awp. cbn. apply HQ; [done | done |]. intros mid. rewrite decide_False; [done |]. intros [H _]. by apply elem_of_nil in H.
  - cbn [fetch_chunks]. apply awp_bind. eapply awp_query; [exact Hs | | done]. intros s1 Hs1 E1.
    apply awp_bind, awp_lift.
    + intros m1 Hm1. eapply IH; [exact Hs1 | | intros x s2 Hs2 E2; apply HE; [done | congruence]].
      intros m2 s2 Hs2 E2 Hm2. apply HQ; [done | congruence |]. intros mid. rewrite Hm2.
      rewrite (by_mid_update_spec _ _ _ (sublist_NoDup _ _ Hn (fmap_sublist _ _ _ (sublist_filter _ _))) Hm1).
      fold (select_in (table d) sub). rewrite dget_select_in. cbn [concat].
      destruct (dget mid (table d)) as [r |]; [| rewrite !(decide_False (P := _ ∧ _)); [by case_decide | by intros [_ [? ?]]..]].
      repeat case_decide; try done; rewrite elem_of_app in *; naive_solver.
    + intros x Hx. apply HE; [done | done |]. revert Hx. unfold by_mid_update. cbn.
      apply raises_only_bind; [| intros; apply raises_only_Ok]. apply map_res_raise. intros y.
      apply reads_bind; [apply reads_mid | intros; apply reads_ok].
Qed.

Lemma build_page_spec t m mids : (∀ mid, mid ∈ mids → m !! mid = dget mid t) → reads (build_page build m mids) ∧
  ∀ page, build_page build m mids = Ok page → built build t mids page.
Proof using Hbuild.
  intros Hm. unfold built. induction mids as [| mid mids IH]; [split; [apply reads_ok | by intros page [= <-]] |].
  cbn [build_page omap list_omap].
  destruct IH as [Hr IH]; [intros k Hk; apply Hm; by right |]. rewrite <- (Hm mid) by left.
  destruct (m !! mid) as [r |]; cbn; [| by split].
  split; [apply reads_bind; [done |]; intros a; apply reads_bind; [done |]; intros; apply reads_ok |].
  intros page H. apply rbind_Ok_inv in H as (a & Ha & H). apply rbind_Ok_inv in H as (l & Hl & H). injection H as <-.
  rewrite Ha. cbn. rewrite (IH l) by done. done.
Qed.

Lemma awp_fetch z d mids (Q : list A → Sq → Prop) (E : exn → Sq → Prop) s :
  NoDup (dkeys (table d)) → at_db z d d s →
  (∀ page s', at_db z d d s' → seqs s' = seqs s → built build (table d) mids page → Q page s') →
  (∀ x s', at_db z d d s' → seqs s' = seqs s → local x → E x s') → awp (_fetch_by_mids table build mids) Q E s.
Proof using Hbuild.
  intros Hn Hs HQ HE. unfold _fetch_by_mids. apply awp_bind. eapply awp_fetch_chunks; [done | exact Hs | | done].
  intros m s1 Hs1 E1 Hm. rewrite concat_chunks in Hm by (unfold MAX_SQL_VARIABLES; lia).
  assert (∀ mid, mid ∈ mids → m !! mid = dget mid (table d)) as Hmid.
  { intros mid Hin. rewrite Hm. case_decide as Hd; [done |]. destruct (dget mid (table d)) eqn:Eg; [| by rewrite lookup_empty].
    destruct Hd. by split. }
  destruct (build_page_spec (table d) m mids Hmid) as [Hr Hb]. apply awp_lift.
  - intros page Hp. apply HQ; auto.
  - intros x Hx. apply HE; [done | done | by apply (Hr x)].
Qed.

(** What a page says of its rows. *)
Lemma built_view {V} (g : A → V) (f : Z → R → V) t mids page :
  (∀ mid r a, dget mid t = Some r → build mid r = Ok a → g a = f mid r) → built build t mids page →
  g <$> page = omap (λ mid, f mid <$> dget mid t) mids.
Proof using.
  intros Hf. unfold built. revert page. induction mids as [| mid mids IH]; intros page; [by intros [= <-] |].
  cbn [omap list_omap]. destruct (dget mid t) as [r |] eqn:Eg; cbn; [| apply IH].
  destruct (build mid r) as [a |] eqn:Eb; [| done]. cbn. destruct (mapM _ _) as [l |] eqn:El; [| done].
  cbn. intros [= <-]. cbn. by rewrite (Hf mid r a Eg Eb), (IH l eq_refl).
Qed.
End fetch.

(** Reads, whatever they find, change nothing. *)
Definition still {A} (m : act A) : Prop := ∀ z d s, at_db z d d s →
  awp m (λ _ s', at_db z d d s' ∧ seqs s' = seqs s) (λ _ s', at_db z d d s' ∧ seqs s' = seqs s) s.

Lemma still_act_bind {A B} (m : act A) (k : A → act B) : still m → (∀ a, still (k a)) → still (m ≫= k).
Proof.
  intros Hm Hk z d s Hs. apply awp_bind. eapply awp_mono; [by apply (Hm z d) | | done].
  intros a s1 [Hs1 E1]. eapply awp_mono; [by apply (Hk a z d) | |]; intros ? s2 [? ?]; (split; [done | congruence]).
Qed.
Lemma still_query {A} args (q : Db → A) : still (conn_do (conn_query args q)).
Proof. intros z d s Hs. by eapply awp_query; [exact Hs | |]. Qed.
Lemma still_select {A} (q : Db → A) : still (conn_do (conn_select q)).
Proof. apply (still_query []). Qed.
Lemma still_act_lift {A} (r : res A) : still (act_lift r).
Proof. intros z d s Hs. by apply awp_lift. Qed.
Lemma still_act_ret {A} (a : A) : still (mret a).
Proof. intros z d s Hs. done. Qed.

Lemma still_mids {R} table (seq : R → sqlval) : still (_ordered_mids table seq).
Proof. apply still_act_bind; [apply still_select | intros; apply still_act_lift]. Qed.
Lemma still_fetch {R A} table (build : Z → R → res A) mids : still (_fetch_by_mids table build mids).
Proof.
  apply still_act_bind; [| intros; apply still_act_lift]. generalize (∅ : gmap Z R) as m.
  induction (variable_chunks _ _ _) as [| sub subs IH]; intros m; [apply still_act_ret |].
  apply still_act_bind; [apply still_query |]. intros rows. apply still_act_bind; [apply still_act_lift | apply IH].
Qed.

Lemma awp_mids {R} (table : Db → list (Z * R)) (seq : R → sqlval) z d top (Q : list Z → Sq → Prop) (E : exn → Sq → Prop) s :
  at_db z d d s → ascending seq (-1) top (table d) →
  (∀ s', at_db z d d s' → seqs s' = seqs s → Q (dkeys (table d)) s') →
  (∀ x s', at_db z d d s' → seqs s' = seqs s → local x → E x s') → awp (_ordered_mids table seq) Q E s.
Proof.
  intros Hs Ha HQ HE. unfold _ordered_mids. apply awp_bind. eapply (awp_query _ _ _ []); [exact Hs | | done].
  intros s1 Hs1 E1. rewrite (ascending_sorted _ _ _ _ Ha). apply awp_lift.
  - intros mids Hm. assert (mids = dkeys (table d)) as ->; [| by apply HQ].
    apply map_res_inv in Hm. clear - Hm. induction Hm as [| [k r] mid l mids Hx _ IH]; [done |]. cbn in *.
    apply rbind_Ok_inv in Hx as (n & _ & Hx%stored_mid_inv). subst mid. f_equal. exact IH.
  - intros x Hx. apply HE; [done | done |]. revert Hx. apply map_res_raise. intros y. apply reads_bind; auto with reads.
Qed.
