(* ===== verification/SqliteOut.v ===== *)
(** * Outbound records in SQLite

    The rows of the outbound table are encodings of messages; every operation
    keeps them so, and does on the table what [OutStoreLaws] asks. *)

From S2P Require Import Prelude PyStr Enums Properties Types Handshake Store StoreIn Json Sqlite SqliteLaws.

(** ** Encoded rows *)

Lemma Out_of_int st : Out_of (Out_int st) = Ok st.
Proof. by destruct st. Qed.
Lemma Out_of_inv n st : Out_of n = Ok st → n = Out_int st.
Proof. unfold Out_of. repeat case_match; intros [= <-]; done. Qed.

Definition enc_out (mid : Z) (r : out_row) : Prop :=
  ∃ m n, o_mid m = mid ∧ 0 < o_logical_size m ∧ sane m ∧ r = out_params m n.

(** The state and the size a row shows. *)
Definition state_col (v : sqlval) : OutboundQoSState :=
  match v with SInt z => match Out_of z with Ok st => st | Raise _ => DONE end | _ => DONE end.
Definition size_col (v : sqlval) : Z := match v with SInt z => z | _ => 0 end.
Definition out_view (r : out_row) : row := (state_col (ro_state r), size_col (ro_logical_size r)).

Lemma out_view_params m n : out_view (out_params m n) = o_row m.
Proof. unfold out_view. cbn. by rewrite Out_of_int. Qed.

Record out_ok (top : Z) (d : Db) : Prop := {
  oo_keys : NoDup (dkeys (outbound_t d));
  oo_top : 0 ≤ top;
  oo_asc : ascending ro_seq (-1) top (outbound_t d);
  oo_rows : ∀ mid r, dget mid (outbound_t d) = Some r → enc_out mid r }.

Definition out_rows (d : Db) : list (Z * row) := kmap (λ _, out_view) (outbound_t d).

Lemma out_ok_top top top' d : top ≤ top' → out_ok top d → out_ok top' d.
Proof. intros Ht [Hk H0 Ha Hr]. split; [done | lia | | done]. by eapply ascending_weaken; [| exact Ht | exact Ha]. Qed.

Lemma put_ok top d m : out_ok top d → 0 < o_logical_size m → sane m →
  let d' := (upsert_out (o_mid m) (out_params m (top + 1)) d).2 in
  out_ok (top + 1) d' ∧ out_rows d' = dset (o_mid m) (o_row m) (out_rows d) ∧ inbound_t d' = inbound_t d.
Proof.
  intros [Hk H0 Ha Hr] Hn Hs. unfold upsert_out, out_rows. cbn [snd outbound_t with_outbound inbound_t].
  set (r := match dget (o_mid m) (outbound_t d) with Some _ => _ | None => _ end).
  assert (∃ n, r = out_params m n) as [n Er].
  { unfold r. destruct (dget (o_mid m) (outbound_t d)) as [old |] eqn:E; [| by eexists].
    destruct (Hr _ _ E) as (m0 & n0 & _ & _ & _ & ->). by exists n0. }
  split_and!; [| by rewrite kmap_dset, Er, out_view_params | done].
  split; cbn [outbound_t with_outbound]; [by apply NoDup_dset | lia | |].
  - destruct (dget (o_mid m) (outbound_t d)) as [old |] eqn:E.
    + eapply ascending_dset_old; [by eapply ascending_weaken; [| | exact Ha]; lia | exact E | done].
    + eapply (ascending_dset_new _ _ _ _ _ _ top); [lia | lia | done | done | done].
  - intros mid r'. rewrite dget_dset. case_decide; [| apply Hr]. intros [= <-]. subst. rewrite Er. by exists m, n.
Qed.

Lemma remove_ok top d mid : out_ok top d → out_ok top (with_outbound (ddel mid (outbound_t d)) d) ∧
  out_rows (with_outbound (ddel mid (outbound_t d)) d) = ddel mid (out_rows d).
Proof.
  intros [Hk H0 Ha Hr]. split; [| apply kmap_ddel]. split; cbn; [by apply NoDup_ddel | done | by apply ascending_ddel |].
  intros k r. rewrite dget_ddel by done. case_decide; [done | apply Hr].
Qed.

Lemma change_ok top d mid r r' : out_ok top d → dget mid (outbound_t d) = Some r → ro_seq r' = ro_seq r → enc_out mid r' →
  out_ok top (with_outbound (dset mid r' (outbound_t d)) d).
Proof.
  intros [Hk H0 Ha Hr] Hg Hs He. split; cbn; [by apply NoDup_dset | done | by eapply ascending_dset_old |].
  intros k x. rewrite dget_dset. case_decide; [intros [= <-]; by subst | apply Hr].
Qed.

Lemma enc_transition mid r new (compact : bool) : enc_out mid r →
  let r' := if compact then out_compacted new r else out_set_state new r in
  enc_out mid r' ∧ ro_seq r' = ro_seq r ∧ out_view r' = (new, size_col (ro_logical_size r)).
Proof.
  intros (m & n & Hm & Hn & Hs & ->).
  set (m' := if compact then o_compact (o_set_state m new) else o_set_state m new).
  assert ((if compact then out_compacted new (out_params m n) else out_set_state new (out_params m n)) = out_params m' n) as ->
    by (by destruct compact).
  cbn. split_and!; [| done |].
  - exists m', n. destruct compact; split_and!; done.
  - rewrite out_view_params. by destruct compact.
Qed.

(** ** The operations *)

Lemma out_transition_inv r st n q : _stored_out_transition r = Ok (st, n, q) →
  ro_state r = SInt (Out_int st) ∧ ro_logical_size r = SInt n ∧ ro_seq r = SInt q.
Proof.
  unfold _stored_out_transition, _stored_logical_size, _stored_non_negative. intros H.
  apply rbind_Ok_inv in H as (a & Ha & H). apply rbind_Ok_inv in H as (st' & Hst & H).
  apply rbind_Ok_inv in H as (b & Hb & H). apply rbind_Ok_inv in Hb as (b' & Hb' & Hb).
  apply rbind_Ok_inv in H as (c & Hc & H). apply rbind_Ok_inv in Hc as (c' & Hc' & Hc).
  injection H as -> -> ->. case_ifs_in Hb; [done |]. case_ifs_in Hc; [done |]. simplify_eq.
  apply Out_of_inv in Hst as ->. destruct (ro_state r), (ro_logical_size r), (ro_seq r); simplify_eq/=; done.
Qed.

Section operations.
Context (z : Z) (d : Db).
Implicit Types (s : Sq).

Lemma awp_put_out m s : at_db z d d s →
  awp (put_out_message m)
    (λ _ s', 0 < o_logical_size m ∧ (∃ d', d' = (upsert_out (o_mid m) (out_params m (_out_seq s + 1)) d).2 ∧ at_db z d' d' s') ∧
       _out_seq s' = _out_seq s + 1 ∧ _in_seq s' = _in_seq s)
    (λ x s', local x ∧ at_db z d d s' ∧ _out_seq s ≤ _out_seq s' ∧ _in_seq s' = _in_seq s) s.
Proof using.
  intros Hs. unfold put_out_message. destruct (o_logical_size m <=? 0) eqn:En; bools.
  { unfold awp. cbn. by split_and!. }
  apply awp_bind. eapply awp_ensure; [exact Hs | | intros x s' ? [= -> ->] ?; by split_and!].
  intros s1 Hs1 [= E1 E2]. apply awp_bind. unfold awp at 1. cbn [act_set]. apply awp_bind. unfold awp at 1. cbn [act_get].
  set (s2 := set_out_seq (_out_seq s1 + 1) s1). assert (at_db z d d s2) as Hs2 by (destruct Hs1; by split).
  apply awp_bind. eapply awp_dml; [exact Hs2 | |].
  - intros s3 Hs3 [= E3 E4]. cbn [upsert_out fst snd] in *. eapply awp_commit_if_needed; [exact Hs3 | |].
    + intros s4 Hs4 [= E5 E6]. cbn in *. rewrite E1 in *. split_and!; [done | by eexists | lia | lia].
    + intros x s4 Hs4 [= E5 E6] Hx. cbn in *. split_and!; [done | done | lia | lia].
  - intros x s3 Hs3 [= E3 E4] Hx. cbn in *. split_and!; [done | done | lia | lia].
Qed.

(** [_out_transition_row] on the current database. *)
Lemma awp_out_transition mid Q (R : exn → Sq → Prop) s : at_db z d d s →
  (∀ r st n q s', at_db z d d s' → seqs s' = seqs s → dget mid (outbound_t d) = Some r → ro_state r = SInt (Out_int st) →
     ro_logical_size r = SInt n → ro_seq r = SInt q → Q (Some (st, n, q)) s') →
  (∀ s', at_db z d d s' → seqs s' = seqs s → dget mid (outbound_t d) = None → Q None s') →
  (∀ x s', at_db z d d s' → seqs s' = seqs s → local x → R x s') → awp (out_transition mid) Q R s.
Proof using.
  intros Hs HQ HN HR. unfold out_transition. apply awp_bind. eapply awp_query; [exact Hs | | done]. intros s1 Hs1 E1.
  destruct (dget mid (outbound_t d)) as [r |] eqn:Eg; [| by apply HN]. apply awp_bind, awp_lift.
  - intros [[st n] q] H. apply out_transition_inv in H as (? & ? & ?). by eapply HQ.
  - intros x Hx. apply HR; [done | done | by eapply reads_out_transition].
Qed.

Lemma awp_complete_out mid st s : at_db z d d s →
  awp (complete_out_row mid st)
    (λ o s', seqs s' = seqs s ∧
       match o with
       | Some x => ∃ r, dget mid (outbound_t d) = Some r ∧ ro_state r = SInt (Out_int st) ∧
           ro_logical_size r = SInt (om_logical_size x) ∧ om_mid x = mid ∧ om_state x = st ∧
           ∃ d', d' = with_outbound (ddel mid (outbound_t d)) d ∧ at_db z d' d' s'
       | None => at_db z d d s' ∧ ∀ r, dget mid (outbound_t d) = Some r → ro_state r ≠ SInt (Out_int st)
       end)
    (λ x s', local x ∧ at_db z d d s' ∧ seqs s' = seqs s) s.
Proof using.
  intros Hs. unfold complete_out_row. apply awp_bind. eapply awp_out_transition; [exact Hs | | |].
  - intros r st' n q s1 Hs1 E1 Hg Hst Hn Hq. destruct (bool_decide (st' = st)) eqn:E; bools; cbn [negb].
    + subst st'. assert (remove_out (λ r, negb (out_hit st q r)) mid d = (1, with_outbound (ddel mid (outbound_t d)) d)) as Er.
      { unfold remove_out, out_hit. by rewrite Hg, Hst, Hq, !bool_decide_true. }
      eapply awp_write; [exact Hs1 | rewrite Er; cbn | by intros x s2 Hs2 ->].
      intros s2 Hs2 ->. split; [done |]. exists r. split_and!; try done. by eexists.
    + unfold awp. cbn. split_and!; [done | done |]. rewrite Hg. intros ? [= <-]. rewrite Hst. intros [= H].
      apply E. by destruct st, st'.
  - intros s1 Hs1 E1 Hg. unfold awp. cbn. rewrite Hg. done.
  - by intros x s1 Hs1 E1.
Qed.

Lemma awp_transition_out mid st new compact s : at_db z d d s →
  awp (transition_out_row mid st new compact)
    (λ o s', seqs s' = seqs s ∧
       match o with
       | Some x => ∃ r, dget mid (outbound_t d) = Some r ∧ ro_state r = SInt (Out_int st) ∧
           ro_logical_size r = SInt (om_logical_size x) ∧ om_mid x = mid ∧ om_state x = new ∧
           ∃ d', d' = with_outbound (dset mid (if compact then out_compacted new r else out_set_state new r) (outbound_t d)) d ∧
                 at_db z d' d' s'
       | None => at_db z d d s' ∧ ∀ r, dget mid (outbound_t d) = Some r → ro_state r ≠ SInt (Out_int st)
       end)
    (λ x s', local x ∧ at_db z d d s' ∧ seqs s' = seqs s) s.
Proof using.
  intros Hs. unfold transition_out_row. apply awp_bind. eapply awp_out_transition; [exact Hs | | |].
  - intros r st' n q s1 Hs1 E1 Hg Hst Hn Hq. destruct (bool_decide (st' = st)) eqn:E; bools; cbn [negb].
    + subst st'. set (f := update_out _ _ mid). assert (f d = (1, with_outbound (dset mid
        (if compact then out_compacted new r else out_set_state new r) (outbound_t d)) d)) as Er.
      { unfold f, update_out, out_hit. rewrite Hg, Hst, Hq, !bool_decide_true by done. by destruct compact. }
      eapply awp_write; [exact Hs1 | rewrite Er; cbn | by intros x s2 Hs2 ->].
      intros s2 Hs2 ->. split; [done |]. exists r. split_and!; try done. by eexists.
    + unfold awp. cbn. split_and!; [done | done |]. rewrite Hg. intros ? [= <-]. rewrite Hst. intros [= H].
      apply E. by destruct st, st'.
  - intros s1 Hs1 E1 Hg. unfold awp. cbn. rewrite Hg. done.
  - by intros x s1 Hs1 E1.
Qed.

Lemma awp_delete_out mid s : at_db z d d s →
  awp (delete_out_row mid)
    (λ b s', seqs s' = seqs s ∧ b = dmem mid (outbound_t d) ∧
       ∃ d', d' = with_outbound (ddel mid (outbound_t d)) d ∧ at_db z d' d' s')
    (λ x s', local x ∧ at_db z d d s' ∧ seqs s' = seqs s) s.
Proof using.
  intros Hs. unfold delete_out_row. eapply awp_write; [exact Hs | | done]. unfold remove_out, dmem.
  destruct (dget mid (outbound_t d)) as [r |] eqn:Eg; cbn; intros s1 Hs1 E1; (split_and!; [done | done |]); [by eexists |].
  exists d. split; [| done]. destruct d as [v o t i]. unfold with_outbound. cbn in *. f_equal. symmetry.
  apply dget_None in Eg. clear - Eg. induction t as [| [k r] t IH]; [done |]. cbn in *.
  apply not_elem_of_cons in Eg as [? ?]. rewrite decide_False by done. f_equal. by apply IH.
Qed.

Lemma awp_get_out mid s : at_db z d d s →
  awp (get_out_message mid)
    (λ o s', seqs s' = seqs s ∧ at_db z d d s' ∧
       match o with
       | Some m => ∃ r, dget mid (outbound_t d) = Some r ∧ _row_to_out mid r = Ok m
       | None => dget mid (outbound_t d) = None
       end)
    (λ x s', local x ∧ at_db z d d s' ∧ seqs s' = seqs s) s.
Proof using.
  intros Hs. unfold get_out_message. apply awp_bind. eapply awp_query; [exact Hs | | done]. intros s1 Hs1 E1.
  destruct (dget mid (outbound_t d)) as [r |] eqn:Eg; [| by unfold awp; cbn].
  apply awp_bind, awp_lift; [| intros x Hx; split_and!; [by eapply reads_row_to_out | done..]].
  intros m Hm. unfold awp. cbn. split_and!; eauto.
Qed.
End operations.

Lemma stored_bool_int b : _stored_bool (SInt (bool_int b)) = Ok b.
Proof. by destruct b. Qed.
Lemma stored_opt_text o : _stored_optional_text (opt_text o) = Ok o.
Proof. by destruct o. Qed.

(** A row read back is the message it encodes, its properties read from their
    persisted form. *)
Lemma row_to_out_params mid m n m' : _row_to_out mid (out_params m n) = Ok m' →
  ∃ ps, _props_from_json (_props_to_json (o_properties m)) = Ok ps ∧
    m' = mkOut mid (o_topic m) (o_payload m) (o_qos m) (o_retain m) (o_state m) (o_dup m) ps None None (o_logical_size m).
Proof.
  unfold _row_to_out. intros H. apply rbind_Ok_inv in H as (a & ->%stored_mid_inv & H).
  cbn [out_params ro_topic ro_payload ro_qos ro_retain ro_state ro_dup ro_properties ro_logical_size
    _stored_str _stored_bytes _stored_int rbind] in H.
  rewrite QoS_of_int, !stored_bool_int, Out_of_int, stored_opt_text in H. cbn [rbind] in H.
  apply rbind_Ok_inv in H as (ps & Hps & H). apply rbind_Ok_inv in H as (size & Hsize & H). injection H as <-.
  exists ps. split; [done |]. unfold _stored_logical_size in Hsize. cbn in Hsize. case_ifs_in Hsize; [done |].
  by injection Hsize as <-.
Qed.

Lemma hydrate_out mid r m : enc_out mid r → _row_to_out mid r = Ok m →
  o_mid m = mid ∧ o_row m = out_view r ∧ sane m.
Proof.
  intros (m0 & n & Hm & Hn & Hs & ->) H. apply row_to_out_params in H as (ps & Hps & ->).
  split_and!; [done | by rewrite out_view_params |]. intros ps' v E Hin. cbn in E. subst ps.
  destruct (o_properties m0) as [qs |] eqn:Eq; [| done].
  destruct (props_json_alias qs ps' v Hps Hin) as (w & Hw & Hnone & Hint). destruct (Hs qs w Eq Hw) as [-> | [x Hx]].
  - left. by apply Hnone.
  - right. exists x. by rewrite (Hint x Hx).
Qed.

Lemma summary_view mid r a : _row_to_out_summary mid r = Ok a → (s_mid a, (s_state a, s_logical_size a)) = (mid, out_view r).
Proof.
  unfold _row_to_out_summary, _stored_logical_size. intros H. repeat (apply rbind_Ok_inv in H as (? & ? & H)).
  injection H as <-. cbn. unfold out_view.
  repeat match goal with Hm : rbind _ _ = Ok _ |- _ => apply rbind_Ok_inv in Hm as (? & ? & Hm) end.
  repeat match goal with Hm : _stored_int _ = Ok _ |- _ => apply stored_int_inv in Hm end.
  repeat match goal with Hm : (if ?c then Raise _ else Ok _) = Ok _ |- _ => destruct c; [done |]; injection Hm as <- end.
  repeat match goal with Hm : _stored_mid _ = Ok _ |- _ => apply stored_mid_inv in Hm end. subst.
  repeat match goal with Hm : _ = SInt _ |- _ => rewrite Hm end. cbn.
  by match goal with Hm : Out_of _ = Ok _ |- _ => rewrite Hm end.
Qed.

(** ** The promises *)

Definition out_store_ok (h : Heap) (s : Sq) : Prop := settled s ∧ Forall sane (oh h) ∧ out_ok (_out_seq s) (D s).

Lemma settled_out h z d s : at_db z d d s → Forall sane (oh h) → out_ok (_out_seq s) d → out_store_ok h s ∧ D s = d.
Proof.
  intros Hs Hh Ho. split; [| apply Hs]. split; [by eapply settled_at |]. by rewrite (at_now _ _ _ _ Hs).
Qed.

Lemma on_conn_run {A} (m : act A) Q R h s r h' s' :
  awp m Q R s → on_conn m (h, s) = (r, (h', s')) → h' = h ∧ match r with Ok a => Q a s' | Raise x => R x s' end.
Proof.
  unfold on_conn. intros Hm. destruct (m s) as [r1 s1] eqn:E. intros [= <- <- <-]. split; [done |]. by eapply awp_run.
Qed.

Lemma out_store_at h s : out_store_ok h s → at_db (_batch_depth s) (D s) (D s) s ∧ Forall sane (oh h) ∧ out_ok (_out_seq s) (D s).
Proof. done. Qed.

(** An operation that fails leaves the table as it was. *)
Lemma failed_out h z d s s' : at_db z d d s' → _out_seq s ≤ _out_seq s' → D s = d → out_store_ok h s → out_store_ok h s' ∧
  out_rows (D s') = out_rows (D s).
Proof.
  intros Hs' Hq Hd (_ & Hh & Ho). subst d.
  destruct (settled_out h _ _ _ Hs' Hh) as [? ->]; [| done]. by eapply out_ok_top.
Qed.

Lemma state_col_int st : state_col (SInt (Out_int st)) = st.
Proof. by destruct st. Qed.

Lemma not_in_state top d mid st : out_ok top d → (∀ r, dget mid (outbound_t d) = Some r → ro_state r ≠ SInt (Out_int st)) →
  ∀ n, dget mid (out_rows d) ≠ Some (st, n).
Proof.
  intros Ho Hnot n. unfold out_rows. rewrite dget_kmap. destruct (dget mid (outbound_t d)) as [r |] eqn:Eg; [| done].
  destruct (oo_rows _ _ Ho _ _ Eg) as (m & k & _ & _ & _ & ->). cbn [fmap option_fmap option_map]. rewrite out_view_params.
  intros [= <- _]. by apply (Hnot _ eq_refl).
Qed.

#[export] Program Instance sqlite_out_laws : OutStoreLaws Sq := {|
  reliable := False; store_ok := out_store_ok; rows h s := out_rows (D s) |}.
Next Obligation. intros h s (_ & _ & Ho). unfold out_rows. rewrite dkeys_kmap. apply Ho. Qed.
Next Obligation.
  intros h s mid st n (_ & _ & Ho). unfold out_rows. rewrite dget_kmap.
  destruct (dget mid (outbound_t (D s))) as [r |] eqn:E; [| done]. apply (oo_rows _ _ Ho) in E as (m & k & _ & Hn & _ & ->).
  cbn [fmap option_fmap option_map]. rewrite out_view_params. by intros [= <- <-].
Qed.
Next Obligation. intros h s l m (_ & Hh & _) Hl. by eapply Forall_lookup. Qed.
Next Obligation. intros h s m (Hs & Hh & Ho) Hm. split; [| done]. split_and!; [done | apply Forall_app; split; [done | by constructor] | done]. Qed.
Next Obligation.
  intros h s l m m' (Hs & Hh & Ho) Hl _ _ Hm _. split; [| done]. split_and!; [done | by apply Forall_insert | done].
Qed.
Next Obligation.
  intros h s l m r h' s' Hok Hl H. change (put_out l (h, s) = (r, (h', s'))) in H. unfold put_out in H. rewrite Hl in H.
  pose proof Hok as (Hs & Hh & Ho). eapply on_conn_run in H as [-> H]; [| by apply (awp_put_out _ _ m s Hs)].
  pose proof (Forall_lookup_1 _ _ _ _ Hh Hl) as Hm. destruct r as [[] | x].
  - destruct H as (Hn & (d' & -> & Hs') & Eo & _). destruct (put_ok _ _ m Ho Hn Hm) as (Ho' & Hr & _).
    rewrite <- Eo in Ho' at 1. destruct (settled_out _ _ _ _ Hs' Hh Ho') as [? ->].
    split_and!; [done | apply heap_frame_refl | done | exact Hr].
  - destruct H as (Hx & Hs' & Hq & _). destruct (failed_out h _ _ s s' Hs' Hq eq_refl Hok).
    split_and!; try done. apply heap_frame_refl.
Qed.
Next Obligation.
  intros h s mid r h' s' Hok H. pose proof Hok as (Hs & Hh & Ho). change (get_out mid (h, s) = (r, (h', s'))) in H.
  unfold get_out in H. pose proof (awp_get_out _ _ mid s Hs) as Hw. unfold awp in Hw.
  destruct (get_out_message mid s) as [[[m |] | x] s1].
  - injection H as <- <- <-. destruct Hw as ([= E _] & Hs1 & r & Hg & Hr).
    destruct (hydrate_out mid r m) as (Em & Ev & Hsane); [by apply (oo_rows _ _ Ho) | done |].
    assert (out_ok (_out_seq s1) (D s)) as Ho1 by by rewrite E.
    destruct (settled_out (o_alloc h m) _ _ _ Hs1) as [Hok1 ED]; [apply Forall_app; split; [done | by constructor] | exact Ho1 |].
    split_and!; [done | apply heap_frame_alloc | by rewrite ED |]. exists m. split_and!; [| done |].
    + simpl. rewrite lookup_app_r by done. by rewrite Nat.sub_diag.
    + unfold out_rows. rewrite dget_kmap, Hg. cbn. by rewrite Ev.
  - injection H as <- <- <-. destruct Hw as ([= E _] & Hs1 & Hg).
    destruct (settled_out h _ _ _ Hs1 Hh) as [? ED]; [by rewrite E |].
    split_and!; [done | apply heap_frame_refl | by rewrite ED |]. unfold out_rows. by rewrite dget_kmap, Hg.
  - injection H as <- <- <-. destruct Hw as (Hx & Hs1 & [= E _]).
    destruct (settled_out h _ _ _ Hs1 Hh) as [? ED]; [by rewrite E |].
    split_and!; try done; [apply heap_frame_refl | by rewrite ED | by intros []].
Qed.
Next Obligation.
  intros h s mid r h' s' Hok H. pose proof Hok as (Hs & Hh & Ho).
  eapply on_conn_run in H as [-> H]; [| by apply (awp_delete_out _ _ mid s Hs)]. destruct r as [b | x].
  - destruct H as ([= E _] & -> & d' & -> & Hs'). destruct (remove_ok _ _ mid Ho) as [Ho' Hr].
    rewrite <- E in Ho'. destruct (settled_out _ _ _ _ Hs' Hh Ho') as [? ->].
    split_and!; [done | apply heap_frame_refl | | exact Hr]. unfold dmem, out_rows. rewrite dget_kmap.
    by destruct (dget mid (outbound_t (D s))).
  - destruct H as (Hx & Hs' & [= E _]). destruct (failed_out h _ _ s s' Hs') as [? ?]; [lia | done | done |].
    split_and!; try done; [apply heap_frame_refl | by intros []].
Qed.
Next Obligation.
  intros h s r h' s' Hok H. pose proof Hok as (Hs & Hh & Ho).
  eapply (on_conn_run _ (λ mids s', mids = dkeys (outbound_t (D s)) ∧ at_db (_batch_depth s) (D s) (D s) s' ∧ seqs s' = seqs s)
    (λ x s', local x ∧ at_db (_batch_depth s) (D s) (D s) s' ∧ seqs s' = seqs s)) in H as [-> H];
    [| by eapply awp_mids; [exact Hs | apply Ho | |]].
  assert (at_db (_batch_depth s) (D s) (D s) s' ∧ seqs s' = seqs s) as [Hs' [= E _]] by (by destruct r as [? | ?]; destruct H as (? & ? & ?)).
  destruct (failed_out h _ _ s s' Hs') as [? Er]; [lia | done | done |].
  split_and!; [done | apply heap_frame_refl | done |]. destruct r as [mids | x]; [| split; [by intros [] | apply H]].
  destruct H as (-> & _). unfold out_rows. by rewrite dkeys_kmap.
Qed.
Next Obligation.
  intros h s mids r h' s' Hok H. pose proof Hok as (Hs & Hh & Ho).
  eapply (on_conn_run _ (λ page s', built _row_to_out_summary (outbound_t (D s)) mids page ∧
      at_db (_batch_depth s) (D s) (D s) s' ∧ seqs s' = seqs s)
    (λ x s', local x ∧ at_db (_batch_depth s) (D s) (D s) s' ∧ seqs s' = seqs s)) in H as [-> H];
    [| by eapply awp_fetch; [apply reads_row_to_out_summary | apply Ho | exact Hs | |]].
  assert (at_db (_batch_depth s) (D s) (D s) s' ∧ seqs s' = seqs s) as [Hs' [= E _]] by (by destruct r as [? | ?]; destruct H as (? & ? & ?)).
  destruct (failed_out h _ _ s s' Hs') as [? Er]; [lia | done | done |].
  split_and!; [done | apply heap_frame_refl | done |]. destruct r as [page | x]; [| split; [by intros [] | apply H]].
  destruct H as (Hp & _). rewrite (built_view _ _ (λ mid r, (mid, out_view r)) _ _ _ (λ mid r a _, summary_view mid r a) Hp).
  apply list_omap_ext, Forall_Forall2_diag, Forall_forall. intros mid _. unfold out_rows. rewrite dget_kmap.
  by destruct (dget mid (outbound_t (D s))).
Qed.
Next Obligation.
  intros h s mid r h' s' Hok H. pose proof Hok as (Hs & Hh & Ho).
  eapply (on_conn_run _ (λ o s', ((λ x, (om_state x, om_logical_size x)) <$> o = dget mid (out_rows (D s)) ∧ ∀ x, o = Some x → om_mid x = mid) ∧
      at_db (_batch_depth s) (D s) (D s) s' ∧ seqs s' = seqs s)
    (λ x s', local x ∧ at_db (_batch_depth s) (D s) (D s) s' ∧ seqs s' = seqs s)) in H as [-> H].
  2:{ unfold out_meta_of. apply awp_bind. unfold out_rows. rewrite dget_kmap. eapply awp_out_transition; [exact Hs | | |]; [| | done].
      - intros x st n q s1 Hs1 E1 -> Hst Hn _. unfold awp. cbn. split_and!; try done; [| by intros ? [= <-]].
        unfold out_view. by rewrite Hst, Hn, state_col_int.
      - intros s1 Hs1 E1 ->. unfold awp. cbn. done. }
  assert (at_db (_batch_depth s) (D s) (D s) s' ∧ seqs s' = seqs s) as [Hs' [= E _]] by (by destruct r as [? | ?]; destruct H as (? & ? & ?)).
  destruct (failed_out h _ _ s s' Hs') as [? Er]; [lia | done | done |].
  split_and!; [done | apply heap_frame_refl | done |]. destruct r as [o | x]; [by destruct H | split; [by intros [] | apply H]].
Qed.
Next Obligation.
  intros h s mid st r h' s' Hok H. pose proof Hok as (Hs & Hh & Ho).
  eapply on_conn_run in H as [-> H]; [| by apply (awp_complete_out _ _ mid st s Hs)]. destruct r as [[x |] | x].
  - destruct H as ([= E _] & row & Hg & Hst & Hn & _ & _ & d' & -> & Hs'). destruct (remove_ok _ _ mid Ho) as [Ho' Hr].
    rewrite <- E in Ho'. destruct (settled_out _ _ _ _ Hs' Hh Ho') as [? ->].
    split_and!; [done | apply heap_frame_refl | | exact Hr]. unfold out_rows. rewrite dget_kmap, Hg. cbn.
    unfold out_view. by rewrite Hst, Hn, state_col_int.
  - destruct H as ([= E _] & Hs' & Hnot). destruct (failed_out h _ _ s s' Hs') as [? Er]; [lia | done | done |].
    split_and!; [done | apply heap_frame_refl | by eapply not_in_state | done].
  - destruct H as (Hx & Hs' & [= E _]). destruct (failed_out h _ _ s s' Hs') as [? ?]; [lia | done | done |].
    split_and!; try done; [apply heap_frame_refl | by intros []].
Qed.
Next Obligation.
  intros h s mid st new c r h' s' Hok H. pose proof Hok as (Hs & Hh & Ho).
  eapply on_conn_run in H as [-> H]; [| by apply (awp_transition_out _ _ mid st new c s Hs)]. destruct r as [[x |] | x].
  - destruct H as ([= E _] & row & Hg & Hst & Hn & _ & _ & d' & -> & Hs').
    destruct (enc_transition mid row new c) as (He & Hq & Hv); [by apply (oo_rows _ _ Ho) |].
    pose proof (change_ok _ _ _ _ _ Ho Hg Hq He) as Ho'. rewrite <- E in Ho'.
    destruct (settled_out _ _ _ _ Hs' Hh Ho') as [? ->].
    split_and!; [done | apply heap_frame_refl | |]; unfold out_rows.
    + rewrite dget_kmap, Hg. cbn. unfold out_view. by rewrite Hst, Hn, state_col_int.
    + cbn [outbound_t with_outbound]. rewrite kmap_dset. f_equal. rewrite Hv. by rewrite Hn.
  - destruct H as ([= E _] & Hs' & Hnot). destruct (failed_out h _ _ s s' Hs') as [? Er]; [lia | done | done |].
    split_and!; [done | apply heap_frame_refl | by eapply not_in_state | done].
  - destruct H as (Hx & Hs' & [= E _]). destruct (failed_out h _ _ s s' Hs') as [? ?]; [lia | done | done |].
    split_and!; try done; [apply heap_frame_refl | by intros []].
Qed.
