(* ===== verification/SqliteIn.v ===== *)
(** * Inbound records in SQLite

    The rows of the inbound table are encodings of messages.  What the table
    shows is the messages themselves, their properties as the file format keeps
    them; every operation does on it what [InStoreLaws] asks. *)

From S2P Require Import Prelude PyStr Enums Properties Types Handshake Store StoreIn Json Sqlite SqliteLaws SqliteOut.

(** ** Encoded rows *)

Lemma In_of_int st : In_of (In_int st) = Ok st.
Proof. by destruct st. Qed.
Lemma In_of_inv n st : In_of n = Ok st → n = In_int st.
Proof. unfold In_of. repeat case_match; intros [= <-]; done. Qed.
Lemma In_int_inj a b : In_int a = In_int b → a = b.
Proof. by destruct a, b. Qed.

Definition enc_in (mid : Z) (r : in_row) : Prop :=
  ∃ m n, i_mid m = mid ∧ 0 < i_logical_size m ∧ r = in_params m n.

(** What a column shows. *)
Definition text_col (v : sqlval) : pystr := match v with SText s => s | _ => [] end.
Definition blob_col (v : sqlval) : bytes := match v with SBlob b => b | _ => [] end.
Definition bool_col (v : sqlval) : bool := match v with SInt z => z =? 1 | _ => false end.
Definition qos_col (v : sqlval) : QoS :=
  match v with SInt z => match QoS_of z with Ok q => q | Raise _ => AT_MOST_ONCE end | _ => AT_MOST_ONCE end.
Definition in_state_col (v : sqlval) : In.InboundQoSState :=
  match v with SInt z => match In_of z with Ok st => st | Raise _ => In.DONE end | _ => In.DONE end.
Definition read_back (text : option pystr) : option propmap :=
  match _props_from_json text with Ok ps => ps | Raise _ => None end.
Definition props_col (v : sqlval) : option propmap := match v with SText t => read_back (Some t) | _ => None end.

Definition in_view (mid : Z) (r : in_row) : InboundMessage :=
  mkIn mid (text_col (ri_topic r)) (blob_col (ri_payload r)) (qos_col (ri_qos r)) (bool_col (ri_retain r))
    (in_state_col (ri_state r)) (bool_col (ri_delivered r)) (props_col (ri_properties r)) (bool_col (ri_user_acked r))
    (size_col (ri_logical_size r)).

Definition sql_kept (m : InboundMessage) : InboundMessage := i_set_properties m (read_back (_props_to_json (i_properties m))).

Lemma bool_col_int b : bool_col (SInt (bool_int b)) = b.
Proof. by destruct b. Qed.

Lemma in_state_col_int st : in_state_col (SInt (In_int st)) = st.
Proof. by destruct st. Qed.

Lemma in_view_params m n : in_view (i_mid m) (in_params m n) = sql_kept m.
Proof.
  unfold in_view, sql_kept, i_set_properties. cbn [in_params ri_topic ri_payload ri_qos ri_retain ri_state ri_delivered
    ri_properties ri_user_acked ri_logical_size text_col blob_col size_col].
  rewrite !bool_col_int. unfold qos_col, in_state_col. rewrite QoS_of_int, In_of_int. f_equal.
  by destruct (_props_to_json (i_properties m)).
Qed.

Definition in_rows (d : Db) : list (Z * InboundMessage) := kmap in_view (inbound_t d).

Record in_rows_ok (top : Z) (d : Db) : Prop := {
  io_keys : NoDup (dkeys (inbound_t d));
  io_top : 0 ≤ top;
  io_asc : ascending ri_seq (-1) top (inbound_t d);
  io_rows : ∀ mid r, dget mid (inbound_t d) = Some r → enc_in mid r }.

Lemma in_ok_top top top' d : top ≤ top' → in_rows_ok top d → in_rows_ok top' d.
Proof. intros Ht [Hk H0 Ha Hr]. split; [done | lia | | done]. by eapply ascending_weaken; [| exact Ht | exact Ha]. Qed.

Lemma put_in_ok top d m : in_rows_ok top d → 0 < i_logical_size m →
  let d' := (upsert_in (i_mid m) (in_params m (top + 1)) d).2 in
  in_rows_ok (top + 1) d' ∧ in_rows d' = dset (i_mid m) (sql_kept m) (in_rows d) ∧ outbound_t d' = outbound_t d.
Proof.
  intros [Hk H0 Ha Hr] Hn. unfold upsert_in, in_rows. cbn [snd inbound_t with_inbound outbound_t].
  set (r := match dget (i_mid m) (inbound_t d) with Some _ => _ | None => _ end).
  assert (∃ n, r = in_params m n) as [n Er].
  { unfold r. destruct (dget (i_mid m) (inbound_t d)) as [old |] eqn:E; [| by eexists].
    destruct (Hr _ _ E) as (m0 & n0 & _ & _ & ->). by exists n0. }
  split_and!; [| by rewrite kmap_dset, Er, in_view_params | done].
  split; cbn [inbound_t with_inbound]; [by apply NoDup_dset | lia | |].
  - destruct (dget (i_mid m) (inbound_t d)) as [old |] eqn:E.
    + eapply ascending_dset_old; [by eapply ascending_weaken; [| | exact Ha]; lia | exact E | done].
    + eapply (ascending_dset_new _ _ _ _ _ _ top); [lia | lia | done | done | done].
  - intros mid r'. rewrite dget_dset. case_decide; [| apply Hr]. intros [= <-]. subst. rewrite Er. by exists m, n.
Qed.

Lemma remove_in_ok top d mid : in_rows_ok top d → in_rows_ok top (with_inbound (ddel mid (inbound_t d)) d) ∧
  in_rows (with_inbound (ddel mid (inbound_t d)) d) = ddel mid (in_rows d).
Proof.
  intros [Hk H0 Ha Hr]. split; [| apply kmap_ddel]. split; cbn; [by apply NoDup_ddel | done | by apply ascending_ddel |].
  intros k r. rewrite dget_ddel by done. case_decide; [done | apply Hr].
Qed.

(** Assignment to the columns of a present row. *)
Lemma change_in_ok top d mid r m' r' : in_rows_ok top d → dget mid (inbound_t d) = Some r → ri_seq r' = ri_seq r →
  enc_in mid r' → in_view mid r' = m' →
  in_rows_ok top (with_inbound (dset mid r' (inbound_t d)) d) ∧
  in_rows (with_inbound (dset mid r' (inbound_t d)) d) = dset mid m' (in_rows d).
Proof.
  intros [Hk H0 Ha Hr] Hg Hs He <-. split; [| apply kmap_dset].
  split; cbn; [by apply NoDup_dset | done | by eapply ascending_dset_old |].
  intros k x. rewrite dget_dset. case_decide; [intros [= <-]; by subst | apply Hr].
Qed.

Lemma in_view_state mid new a r :
  in_view mid (in_set_state new a r) = i_set_state (in_view mid r) new (user_ack (in_view mid r) a).
Proof. unfold in_view, i_set_state. cbn. rewrite In_of_int. f_equal. destruct a as [b |]; [apply bool_col_int | done]. Qed.

Lemma enc_in_state mid new a r : enc_in mid r → enc_in mid (in_set_state new a r) ∧ ri_seq (in_set_state new a r) = ri_seq r.
Proof.
  intros (m & n & Hm & Hn & ->). split; [| done]. exists (i_set_state m new (user_ack m a)), n. split_and!; [done | done |].
  by destruct a.
Qed.

Lemma enc_in_delivered mid r : enc_in mid r →
  enc_in mid (in_set_delivered r) ∧ in_view mid (in_set_delivered r) = i_set_delivered (in_view mid r) ∧
  (ri_delivered r = SInt 0 ↔ i_delivered (in_view mid r) = false).
Proof.
  intros (m & n & Hm & Hn & ->). split_and!; [by exists (i_set_delivered m), n | done |].
  cbn. destruct (i_delivered m); split; done.
Qed.

(** What reading a row gives is what it shows. *)
Lemma stored_bool_col v b : _stored_bool v = Ok b → bool_col v = b.
Proof.
  unfold _stored_bool. intros H. apply rbind_Ok_inv in H as (n & Hn%stored_int_inv & H). subst v. cbn.
  destruct (n =? 0) eqn:E0; [bools; by simplify_eq |]. destruct (n =? 1) eqn:E1; by simplify_eq.
Qed.
Lemma stored_size_col v n : _stored_logical_size v = Ok n → size_col v = n.
Proof.
  unfold _stored_logical_size. intros H. apply rbind_Ok_inv in H as (k & Hk%stored_int_inv & H). subst v.
  case_ifs_in H; [done |]. by injection H as <-.
Qed.
Lemma stored_state_col v n st : _stored_int v = Ok n → In_of n = Ok st → in_state_col v = st.
Proof. intros ->%stored_int_inv Hn. cbn. by rewrite Hn. Qed.

Lemma row_to_in_view mid r m : _row_to_in mid r = Ok m → m = in_view mid r.
Proof.
  unfold _row_to_in. intros H. apply rbind_Ok_inv in H as (? & ->%stored_mid_inv & H).
  apply rbind_Ok_inv in H as (topic & Ht & H). apply rbind_Ok_inv in H as (payload & Hp & H).
  apply rbind_Ok_inv in H as (n & Hn & H). apply rbind_Ok_inv in H as (qos & Hq & H).
  apply rbind_Ok_inv in H as (retain & Hr%stored_bool_col & H). apply rbind_Ok_inv in H as (k & Hk & H).
  apply rbind_Ok_inv in H as (st & Hst & H). apply rbind_Ok_inv in H as (del & Hd%stored_bool_col & H).
  apply rbind_Ok_inv in H as (text & Htx & H). apply rbind_Ok_inv in H as (ps & Hps & H).
  apply rbind_Ok_inv in H as (ua & Hua%stored_bool_col & H). apply rbind_Ok_inv in H as (size & Hs%stored_size_col & H).
  injection H as <-. apply stored_int_inv in Hn. unfold in_view. rewrite Hr, Hd, Hua, Hs, (stored_state_col _ _ _ Hk Hst), Hn.
  destruct (ri_topic r); simplify_eq/=. destruct (ri_payload r); simplify_eq/=. rewrite Hq. f_equal.
  destruct (ri_properties r) as [| | t |]; try done; injection Htx as <-; [by injection Hps as <- |].
  unfold props_col, read_back. by rewrite Hps.
Qed.

Lemma row_to_in_meta_view mid r a : _row_to_in_meta mid r = Ok a → a = Memory.meta_of mid (in_view mid r).
Proof.
  unfold _row_to_in_meta. intros H. apply rbind_Ok_inv in H as (? & ->%stored_mid_inv & H).
  apply rbind_Ok_inv in H as (k & Hk & H). apply rbind_Ok_inv in H as (st & Hst & H).
  apply rbind_Ok_inv in H as (ua & Hua%stored_bool_col & H). apply rbind_Ok_inv in H as (del & Hd%stored_bool_col & H).
  apply rbind_Ok_inv in H as (size & Hs%stored_size_col & H). injection H as <-.
  unfold Memory.meta_of, in_view. cbn. by rewrite (stored_state_col _ _ _ Hk Hst), Hua, Hd, Hs.
Qed.

Lemma in_transition_inv r st ua del n q : _stored_in_transition r = Ok (st, ua, del, n, q) →
  ri_state r = SInt (In_int st) ∧ ri_user_acked r = SInt (bool_int ua) ∧ bool_col (ri_delivered r) = del ∧
  size_col (ri_logical_size r) = n ∧ ri_seq r = SInt q.
Proof.
  unfold _stored_in_transition. intros H.
  apply rbind_Ok_inv in H as (k & ->%stored_int_inv & H). apply rbind_Ok_inv in H as (st' & ->%In_of_inv & H).
  apply rbind_Ok_inv in H as (ua' & Hua & H). apply rbind_Ok_inv in H as (del' & Hd%stored_bool_col & H).
  apply rbind_Ok_inv in H as (size & Hs%stored_size_col & H). apply rbind_Ok_inv in H as (seq & Hq & H).
  injection H as -> -> -> -> ->. split_and!; [done | | done | done |].
  - unfold _stored_bool in Hua. apply rbind_Ok_inv in Hua as (x & ->%stored_int_inv & Hx).
    destruct (x =? 0) eqn:E0; [bools; by simplify_eq |]. destruct (x =? 1) eqn:E1; [bools; by simplify_eq | done].
  - unfold _stored_non_negative in Hq. apply rbind_Ok_inv in Hq as (x & ->%stored_int_inv & Hx).
    case_ifs_in Hx; [done |]. by injection Hx as ->.
Qed.

(** ** The operations *)

Section operations.
Context (z : Z) (d : Db).
Implicit Types (s : Sq).

Lemma awp_put_in m s : at_db z d d s →
  awp (put_in_message m)
    (λ _ s', 0 < i_logical_size m ∧ (∃ d', d' = (upsert_in (i_mid m) (in_params m (_in_seq s + 1)) d).2 ∧ at_db z d' d' s') ∧
       _in_seq s' = _in_seq s + 1 ∧ _out_seq s' = _out_seq s)
    (λ x s', local x ∧ at_db z d d s' ∧ _in_seq s ≤ _in_seq s' ∧ _out_seq s' = _out_seq s) s.
Proof using.
  intros Hs. unfold put_in_message. destruct (i_logical_size m <=? 0) eqn:En; bools.
  { unfold awp. cbn. by split_and!. }
  apply awp_bind. eapply awp_ensure; [exact Hs | | intros x s' ? [= -> ->] ?; by split_and!].
  intros s1 Hs1 [= E1 E2]. apply awp_bind. unfold awp at 1. cbn [act_set]. apply awp_bind. unfold awp at 1. cbn [act_get].
  set (s2 := set_in_seq (_in_seq s1 + 1) s1). assert (at_db z d d s2) as Hs2 by (destruct Hs1; by split).
  apply awp_bind. eapply awp_dml; [exact Hs2 | |].
  - intros s3 Hs3 [= E3 E4]. cbn [upsert_in fst snd] in *. eapply awp_commit_if_needed; [exact Hs3 | |].
    + intros s4 Hs4 [= E5 E6]. cbn in *. rewrite E2 in *. split_and!; [done | by eexists | lia | lia].
    + intros x s4 Hs4 [= E5 E6] Hx. cbn in *. split_and!; [done | done | lia | lia].
  - intros x s3 Hs3 [= E3 E4] Hx. cbn in *. split_and!; [done | done | lia | lia].
Qed.

Lemma awp_in_transition mid Q (R : exn → Sq → Prop) s : at_db z d d s →
  (∀ r st ua del n q s', at_db z d d s' → seqs s' = seqs s → dget mid (inbound_t d) = Some r → ri_state r = SInt (In_int st) →
     ri_user_acked r = SInt (bool_int ua) → bool_col (ri_delivered r) = del → size_col (ri_logical_size r) = n →
     ri_seq r = SInt q → Q (Some (st, ua, del, n, q)) s') →
  (∀ s', at_db z d d s' → seqs s' = seqs s → dget mid (inbound_t d) = None → Q None s') →
  (∀ x s', at_db z d d s' → seqs s' = seqs s → local x → R x s') → awp (in_transition mid) Q R s.
Proof using.
  intros Hs HQ HN HR. unfold in_transition. apply awp_bind. eapply awp_query; [exact Hs | | done]. intros s1 Hs1 E1.
  destruct (dget mid (inbound_t d)) as [r |] eqn:Eg; [| by apply HN]. apply awp_bind, awp_lift.
  - intros [[[[st ua] del] n] q] H. apply in_transition_inv in H as (? & ? & ? & ? & ?). by eapply HQ.
  - intros x Hx. apply HR; [done | done | by eapply reads_in_transition].
Qed.

(** What a completed or changed row was. *)
Definition was (mid : Z) (st : In.InboundQoSState) (r : in_row) : Prop :=
  dget mid (inbound_t d) = Some r ∧ ri_state r = SInt (In_int st).
Definition not_in (mid : Z) (st : In.InboundQoSState) : Prop :=
  ∀ r, dget mid (inbound_t d) = Some r → ri_state r ≠ SInt (In_int st).

Lemma awp_complete_in mid st s : at_db z d d s →
  awp (complete_in_row mid st)
    (λ o s', seqs s' = seqs s ∧
       match o with
       | Some x => ∃ r, was mid st r ∧ x = Memory.meta_of mid (in_view mid r) ∧
           ∃ d', d' = with_inbound (ddel mid (inbound_t d)) d ∧ at_db z d' d' s'
       | None => at_db z d d s' ∧ not_in mid st
       end)
    (λ x s', local x ∧ at_db z d d s' ∧ seqs s' = seqs s) s.
Proof using.
  intros Hs. unfold complete_in_row, was, not_in. apply awp_bind. eapply awp_in_transition; [exact Hs | | |].
  - intros r st' ua del n q s1 Hs1 E1 Hg Hst Hua Hd Hn Hq. destruct (bool_decide (st' = st)) eqn:E; bools; cbn [negb].
    + subst st'. assert (remove_in (λ r, negb (in_hit st ua q r)) mid d = (1, with_inbound (ddel mid (inbound_t d)) d)) as Er.
      { unfold remove_in, in_hit. by rewrite Hg, Hst, Hua, Hq, !bool_decide_true. }
      eapply awp_write; [exact Hs1 | rewrite Er; cbn | by intros x s2 Hs2 ->].
      intros s2 Hs2 ->. split; [done |]. exists r. split_and!; try done; [| by eexists].
      unfold Memory.meta_of, in_view. cbn [im_mid i_mid i_state i_user_acked i_delivered i_logical_size].
      by rewrite Hst, Hua, Hd, Hn, bool_col_int, in_state_col_int.
    + unfold awp. cbn. split_and!; [done | done |]. rewrite Hg. intros ? [= <-]. rewrite Hst. intros [= H].
      by apply E, In_int_inj.
  - intros s1 Hs1 E1 Hg. unfold awp. cbn. rewrite Hg. done.
  - by intros x s1 Hs1 E1.
Qed.

Lemma awp_transition_in mid st new a s : at_db z d d s →
  awp (transition_in_row mid st new a)
    (λ o s', seqs s' = seqs s ∧
       match o with
       | Some _ => ∃ r, was mid st r ∧
           ∃ d', d' = with_inbound (dset mid (in_set_state new a r) (inbound_t d)) d ∧ at_db z d' d' s'
       | None => at_db z d d s' ∧ not_in mid st
       end)
    (λ x s', local x ∧ at_db z d d s' ∧ seqs s' = seqs s) s.
Proof using.
  intros Hs. unfold transition_in_row, was, not_in. apply awp_bind. eapply awp_in_transition; [exact Hs | | |].
  - intros r st' ua del n q s1 Hs1 E1 Hg Hst Hua Hd Hn Hq. destruct (bool_decide (st' = st)) eqn:E; bools; cbn [negb].
    + subst st'. set (f := update_in _ _ mid).
      assert (f d = (1, with_inbound (dset mid (in_set_state new a r) (inbound_t d)) d)) as Er.
      { unfold f, update_in, in_hit. by rewrite Hg, Hst, Hua, Hq, !bool_decide_true. }
      eapply awp_write; [exact Hs1 | rewrite Er; cbn | by intros x s2 Hs2 ->].
      intros s2 Hs2 ->. split; [done |]. exists r. split; [done |]. by eexists.
    + unfold awp. cbn. split_and!; [done | done |]. rewrite Hg. intros ? [= <-]. rewrite Hst. intros [= H].
      by apply E, In_int_inj.
  - intros s1 Hs1 E1 Hg. unfold awp. cbn. rewrite Hg. done.
  - by intros x s1 Hs1 E1.
Qed.

Lemma awp_mark_in mid s : at_db z d d s →
  awp (mark_in_delivered_row mid)
    (λ b s', seqs s' = seqs s ∧ ∃ d', at_db z d' d' s' ∧
       match dget mid (inbound_t d) with
       | Some r => if bool_decide (ri_delivered r = SInt 0)
                   then b = true ∧ d' = with_inbound (dset mid (in_set_delivered r) (inbound_t d)) d
                   else b = false ∧ d' = d
       | None => b = false ∧ d' = d
       end)
    (λ x s', local x ∧ at_db z d d s' ∧ seqs s' = seqs s) s.
Proof using.
  intros Hs. unfold mark_in_delivered_row. set (f := update_in _ _ mid).
  eapply awp_write; [exact Hs | | done]. unfold f, update_in.
  destruct (dget mid (inbound_t d)) as [r |]; [destruct (bool_decide _) |]; cbn; intros s1 Hs1 E1;
    (split; [done | eexists; by split]).
Qed.

Lemma awp_clear_in s : at_db z d d s →
  awp clear_in_rows (λ _ s', seqs s' = seqs s ∧ ∃ d', d' = with_inbound [] d ∧ at_db z d' d' s')
    (λ x s', local x ∧ at_db z d d s' ∧ seqs s' = seqs s) s.
Proof using.
  intros Hs. unfold clear_in_rows. apply awp_bind. eapply awp_ensure; [exact Hs | | by intros x s1 Hs1 E1].
  intros s1 Hs1 E1. apply awp_bind. eapply awp_dml; [exact Hs1 | |].
  - intros s2 Hs2 E2. cbn in *. eapply awp_commit_if_needed; [exact Hs2 | |].
    + intros s3 Hs3 E3. split; [congruence | by eexists].
    + intros x s3 Hs3 E3 Hx. split_and!; [done | done | congruence].
  - intros x s2 Hs2 E2 Hx. split_and!; [done | done | congruence].
Qed.

Lemma awp_get_in mid s : at_db z d d s →
  awp (get_in_message mid)
    (λ o s', seqs s' = seqs s ∧ at_db z d d s' ∧
       match o with
       | Some m => ∃ r, dget mid (inbound_t d) = Some r ∧ m = in_view mid r
       | None => dget mid (inbound_t d) = None
       end)
    (λ x s', local x ∧ at_db z d d s' ∧ seqs s' = seqs s) s.
Proof using.
  intros Hs. unfold get_in_message. apply awp_bind. eapply awp_query; [exact Hs | | done]. intros s1 Hs1 E1.
  destruct (dget mid (inbound_t d)) as [r |] eqn:Eg; [| by unfold awp; cbn].
  apply awp_bind, awp_lift; [| intros x Hx; split_and!; [by eapply reads_row_to_in | done..]].
  intros m Hm%row_to_in_view. unfold awp. cbn. split_and!; eauto.
Qed.

(** *** Replay *)

Lemma built_rows mids page : built _row_to_in (inbound_t d) mids page →
  ∀ m, m ∈ page → dget (i_mid m) (in_rows d) = Some m.
Proof using.
  unfold built. intros Hp m Hm. apply mapM_Some in Hp. apply list_elem_of_lookup in Hm as [i Hi].
  destruct (Forall2_lookup_r _ _ _ _ _ Hp Hi) as ([mid r] & Hl & Hr). cbn in Hr.
  apply list_elem_of_lookup_2, list_elem_of_omap in Hl as (k & _ & Hk).
  destruct (dget k (inbound_t d)) as [r' |] eqn:Eg; [| done]. cbn in Hk. injection Hk as -> ->.
  destruct (_row_to_in mid r) as [a |] eqn:Er; [| done]. injection Hr as ->. apply row_to_in_view in Er. subst m.
  cbn [in_view i_mid]. unfold in_rows. by rewrite dget_kmap, Eg.
Qed.

Definition page_ok (page : list InboundMessage) : Prop := page ≠ [] ∧ ∀ m, m ∈ page → dget (i_mid m) (in_rows d) = Some m.

Lemma awp_hydrate mids (Q : list InboundMessage → Sq → Prop) (R : exn → Sq → Prop) s :
  NoDup (dkeys (inbound_t d)) → at_db z d d s →
  (∀ page s', at_db z d d s' → seqs s' = seqs s → (page ≠ [] → page_ok page) → Q page s') →
  (∀ x s', at_db z d d s' → seqs s' = seqs s → local x → R x s') → awp (sql_hydrate_page mids) Q R s.
Proof using.
  intros Hn Hs HQ HR. eapply awp_fetch; [apply reads_row_to_in | exact Hn | exact Hs | | done].
  intros page s1 Hs1 E1 Hp. apply HQ; [done.. |]. intros Hne. split; [done |]. by eapply built_rows.
Qed.

Lemma awp_replay_next a b index : NoDup (dkeys (inbound_t d)) → ∀ mids n s, at_db z d d s →
  awp (sql_replay_next a b index mids n)
    (λ o s', at_db z d d s' ∧ seqs s' = seqs s ∧ ∀ page rest, o = Some (page, rest) → page_ok page)
    (λ x s', local x ∧ at_db z d d s' ∧ seqs s' = seqs s) s.
Proof using.
  intros Hn. induction index as [| [mid size] index IH]; intros mids n s Hs; cbn [sql_replay_next].
  - destruct mids as [| k mids]; [by unfold awp; cbn |]. apply awp_bind. eapply awp_hydrate; [done | exact Hs | | done].
    intros page s1 Hs1 E1 Hp. unfold awp. cbn. destruct page as [| m page]; [done |].
    split_and!; [done | done |]. intros p rest [= <- <-]. by apply Hp.
  - assert (Hgo : ∀ mids n s1, at_db z d d s1 → seqs s1 = seqs s →
      awp (sql_replay_next a b index mids n)
        (λ o s', at_db z d d s' ∧ seqs s' = seqs s ∧ ∀ page rest, o = Some (page, rest) → page_ok page)
        (λ x s', local x ∧ at_db z d d s' ∧ seqs s' = seqs s) s1).
    { intros mids' n' s1 Hs1 E1. eapply awp_mono; [by apply IH | |].
      - intros o s' (? & ? & ?). split_and!; [done | congruence | done].
      - intros x s' (? & ? & ?). split_and!; [done | done | congruence]. }
    assert (Hadd : ∀ mids n s1, at_db z d d s1 → seqs s1 = seqs s →
      awp (if (len (mids ++ [mid]) >=? a) || (n + size >=? b)
           then page ← sql_hydrate_page (mids ++ [mid]);
                match page with
                | [] => sql_replay_next a b index [] 0
                | _ => mret (Some (page, index))
                end
           else sql_replay_next a b index (mids ++ [mid]) (n + size))
        (λ o s', at_db z d d s' ∧ seqs s' = seqs s ∧ ∀ page rest, o = Some (page, rest) → page_ok page)
        (λ x s', local x ∧ at_db z d d s' ∧ seqs s' = seqs s) s1).
    { intros mids' n' s1 Hs1 E1. case_if; [| by apply Hgo]. apply awp_bind.
      eapply awp_hydrate; [done | exact Hs1 | | intros x s2 Hs2 E2 Hx; split_and!; [done | done | congruence]].
      intros page s2 Hs2 E2 Hp. destruct page as [| m page]; [apply Hgo; [done | congruence] |].
      unfold awp. cbn. split_and!; [done | congruence |]. intros p rest [= <- <-]. by apply Hp. }
    case_if; [| by apply Hadd]. apply awp_bind.
    eapply awp_hydrate; [done | exact Hs | | by intros x s2 Hs2 E2 Hx].
    intros page s2 Hs2 E2 Hp. destruct page as [| m page]; [by apply (Hadd [] 0) |].
    unfold awp. cbn. split_and!; [done | done |]. intros p rest [= <- <-]. by apply Hp.
Qed.

Lemma awp_replay g s : NoDup (dkeys (inbound_t d)) → at_db z d d s →
  awp (sql_in_replay_next g)
    (λ o s', at_db z d d s' ∧ seqs s' = seqs s ∧ ∀ page, o.1 = Some page → page_ok page)
    (λ x s', local x ∧ at_db z d d s' ∧ seqs s' = seqs s) s.
Proof using.
  intros Hn Hs. assert (Hfrom : ∀ a b index s1, at_db z d d s1 → seqs s1 = seqs s →
    awp (sql_replay_from a b index)
      (λ o s', at_db z d d s' ∧ seqs s' = seqs s ∧ ∀ page, o.1 = Some page → page_ok page)
      (λ x s', local x ∧ at_db z d d s' ∧ seqs s' = seqs s) s1).
  { intros a b index s1 Hs1 E1. unfold sql_replay_from. apply awp_bind.
    eapply awp_mono; [by apply (awp_replay_next a b index Hn) | |].
    - intros o s2 (Hs2 & E2 & Hp). unfold awp. cbn. split_and!; [done | congruence |].
      destruct o as [[p rest] |]; intros page Hpg; [| done]. cbn in Hpg. injection Hpg as <-. by eapply Hp.
    - intros x s2 (Hx & Hs2 & E2). split_and!; [done | done | congruence]. }
  destruct g as [a b | a b index | a b index |]; cbn [sql_in_replay_next]; [| by unfold awp; cbn | by apply Hfrom | by unfold awp; cbn].
  case_if; [by unfold awp; cbn |]. case_if; [by unfold awp; cbn |].
  unfold replay_index. apply awp_bind, awp_bind. eapply (awp_query _ _ _ []); [exact Hs | | by intros x s1 Hs1 E1].
  intros s1 Hs1 E1. apply awp_lift; [intros index _; by apply Hfrom |].
  intros x Hx. split_and!; [| done | done]. revert Hx. apply map_res_raise. intros [k r].
  apply reads_bind; [apply reads_mid |]. intros mid. apply reads_bind; [apply reads_non_negative |]. intros; apply reads_ok.
Qed.
End operations.

(** ** The promises *)

Definition in_store_ok (h : Heap) (s : Sq) : Prop := settled s ∧ in_rows_ok (_in_seq s) (D s).

Lemma settled_in h z d s : at_db z d d s → in_rows_ok (_in_seq s) d → in_store_ok h s ∧ D s = d.
Proof. intros Hs Ho. split; [| apply Hs]. split; [by eapply settled_at |]. by rewrite (at_now _ _ _ _ Hs). Qed.

Lemma failed_in h z d s s' : at_db z d d s' → _in_seq s ≤ _in_seq s' → D s = d → in_store_ok h s → in_store_ok h s' ∧
  in_rows (D s') = in_rows (D s).
Proof.
  intros Hs' Hq Hd (_ & Ho). subst d. destruct (settled_in h _ _ _ Hs') as [? ->]; [| done]. by eapply in_ok_top.
Qed.

(** The calls of one half leave the other half's table alone. *)
Definition out_effect (x y : Heap * Sq) : Prop :=
  ih y.1 = ih x.1 ∧ ∃ d', at_db (_batch_depth x.2) d' d' y.2 ∧ inbound_t d' = inbound_t (D x.2) ∧ _in_seq y.2 = _in_seq x.2.
Definition in_effect (x y : Heap * Sq) : Prop :=
  oh y.1 = oh x.1 ∧ ∃ d', at_db (_batch_depth x.2) d' d' y.2 ∧ outbound_t d' = outbound_t (D x.2) ∧ _out_seq y.2 = _out_seq x.2.

Lemma on_conn_effect {A} (m : act A) (Q : A → Sq → Prop) R h s (P : Heap * Sq → Prop) :
  awp m Q R s → (∀ a s', Q a s' → P (h, s')) → (∀ x s', R x s' → P (h, s')) → P (on_conn m (h, s)).2.
Proof. unfold awp, on_conn. intros Hm HQ HR. destruct (m s) as [[a | x] s']; simpl; eauto. Qed.

Lemma still_out {A} (m : act A) h s : still m → settled s → out_effect (h, s) (on_conn m (h, s)).2.
Proof.
  intros Hm Hs. eapply on_conn_effect; [by apply (Hm _ _ _ Hs) | |]; intros ? s' [Hs' [= _ E]]; (split; [done |]); eexists; by split_and!.
Qed.
Lemma still_in {A} (m : act A) h s : still m → settled s → in_effect (h, s) (on_conn m (h, s)).2.
Proof.
  intros Hm Hs. eapply on_conn_effect; [by apply (Hm _ _ _ Hs) | |]; intros ? s' [Hs' [= E _]]; (split; [done |]); eexists; by split_and!.
Qed.
Lemma still_failed_out h s s' : at_db (_batch_depth s) (D s) (D s) s' → _in_seq s' = _in_seq s → out_effect (h, s) (h, s').
Proof. intros Hs E. split; [done |]. eexists; by split_and!. Qed.
Lemma still_failed_in h s s' : at_db (_batch_depth s) (D s) (D s) s' → _out_seq s' = _out_seq s → in_effect (h, s) (h, s').
Proof. intros Hs E. split; [done |]. eexists; by split_and!. Qed.

Lemma out_call_effect x y : settled x.2 → out_call x y → out_effect x y.
Proof.
  intros Hs Hc. destruct Hc as [l [h s] | mid [h s] | mid [h s] | [h s] | mids [h s] | mid [h s] | mid st [h s] |
    mid st new c [h s] | m h s | l m h s]; cbn [snd] in Hs.
  - change (out_effect (h, s) (put_out l (h, s)).2). unfold put_out. destruct (oh h !! l) as [m |]; [| by apply still_failed_out].
    eapply on_conn_effect; [by apply (awp_put_out _ _ m s Hs) | |].
    + intros [] s' (_ & (d' & -> & Hs') & _ & E). split; [done |]. eexists. by split_and!.
    + intros e s' (_ & Hs' & _ & E). by apply still_failed_out.
  - change (out_effect (h, s) (get_out mid (h, s)).2). unfold get_out. pose proof (awp_get_out _ _ mid s Hs) as Hw.
    unfold awp in Hw. destruct (get_out_message mid s) as [[[m |] | e] s'].
    + destruct Hw as ([= _ E] & Hs' & _). split; [done |]. eexists. by split_and!.
    + destruct Hw as ([= _ E] & Hs' & _). by apply still_failed_out.
    + destruct Hw as (_ & Hs' & [= _ E]). by apply still_failed_out.
  - change (out_effect (h, s) (on_conn (delete_out_row mid) (h, s)).2).
    eapply on_conn_effect; [by apply (awp_delete_out _ _ mid s Hs) | |].
    + intros b s' ([= _ E] & _ & d' & -> & Hs'). split; [done |]. eexists. by split_and!.
    + intros e s' (_ & Hs' & [= _ E]). by apply still_failed_out.
  - apply still_out; [apply still_mids | done].
  - apply still_out; [apply still_fetch | done].
  - apply still_out; [| done]. apply still_act_bind; [| intros; apply still_act_ret].
    apply still_act_bind; [apply still_query |]. intros [r |]; [| apply still_act_ret]. apply still_act_bind; [apply still_act_lift | intros; apply still_act_ret].
  - change (out_effect (h, s) (on_conn (complete_out_row mid st) (h, s)).2).
    eapply on_conn_effect; [by apply (awp_complete_out _ _ mid st s Hs) | |].
    + intros [m |] s' ([= _ E] & H); [| destruct H; by apply still_failed_out].
      destruct H as (r & _ & _ & _ & _ & _ & d' & -> & Hs'). split; [done |]. eexists. by split_and!.
    + intros e s' (_ & Hs' & [= _ E]). by apply still_failed_out.
  - change (out_effect (h, s) (on_conn (transition_out_row mid st new c) (h, s)).2).
    eapply on_conn_effect; [by apply (awp_transition_out _ _ mid st new c s Hs) | |].
    + intros [m |] s' ([= _ E] & H); [| destruct H; by apply still_failed_out].
      destruct H as (r & _ & _ & _ & _ & _ & d' & -> & Hs'). split; [done |]. eexists. by split_and!.
    + intros e s' (_ & Hs' & [= _ E]). by apply still_failed_out.
  - split; [done |]. eexists. split_and!; [exact Hs | done..].
  - split; [done |]. eexists. split_and!; [exact Hs | done..].
Qed.

Lemma alloc_page_ih page h : ih (alloc_page page h).2 = ih h ++ page ∧ oh (alloc_page page h).2 = oh h.
Proof.
  unfold alloc_page. cbn [snd]. revert h. induction page as [| m page IH]; intros h; [by rewrite app_nil_r |].
  cbn [foldl]. destruct (IH (i_alloc h m)) as [-> ->]. split; [| done]. cbn. by rewrite <- app_assoc.
Qed.

Lemma alloc_page_lookup page h l : l ∈ (alloc_page page h).1 → ∃ m, ih (alloc_page page h).2 !! l = Some m ∧ m ∈ page.
Proof.
  intros Hl. destruct (alloc_page_ih page h) as [-> _]. unfold alloc_page in Hl. cbn [fst] in Hl.
  apply elem_of_seq in Hl. rewrite lookup_app_r by lia.
  destruct (lookup_lt_is_Some_2 page (l - length (ih h))) as [m Hm]; [lia |]. exists m. split; [done |].
  by eapply list_elem_of_lookup_2.
Qed.

Lemma still_replay_next a b index : ∀ mids n, still (sql_replay_next a b index mids n).
Proof.
  induction index as [| [mid size] index IH]; intros mids n; cbn [sql_replay_next].
  - destruct mids; [apply still_act_ret |]. apply still_act_bind; [apply still_fetch | intros; apply still_act_ret].
  - assert (Hadd : ∀ mids n, still (if (len (mids ++ [mid]) >=? a) || (n + size >=? b)
           then page ← sql_hydrate_page (mids ++ [mid]);
                match page with
                | [] => sql_replay_next a b index [] 0
                | _ => mret (Some (page, index))
                end
           else sql_replay_next a b index (mids ++ [mid]) (n + size))).
    { intros mids' n'. case_if; [| apply IH]. apply still_act_bind; [apply still_fetch |].
      intros [| m page]; [apply IH | apply still_act_ret]. }
    case_if; [| apply Hadd]. apply still_act_bind; [apply still_fetch |]. intros [| m page]; [apply (Hadd [] 0) | apply still_act_ret].
Qed.

Lemma still_replay g : still (sql_in_replay_next g).
Proof.
  assert (∀ a b index, still (sql_replay_from a b index)) as Hf.
  { intros. apply still_act_bind; [apply still_replay_next | intros; apply still_act_ret]. }
  destruct g as [a b | a b index | a b index |]; cbn [sql_in_replay_next]; try apply still_act_ret; [| apply Hf].
  case_if; [apply (still_act_lift (Raise _)) |]. case_if; [apply (still_act_lift (Raise _)) |].
  apply still_act_bind; [| intros; apply Hf]. apply still_act_bind; [apply still_select | intros; apply still_act_lift].
Qed.

Lemma in_replay_effect h g s : settled s → in_effect (h, s) (in_replay_next g (h, s)).2.
Proof.
  intros Hs. unfold in_replay_next. pose proof (still_replay g _ _ s Hs) as Hw. unfold awp in Hw.
  destruct (sql_in_replay_next g s) as [[[[page |] g'] | e] s']; destruct Hw as (Hs' & [= E _]); try by apply still_failed_in.
  destruct (alloc_page page h) as [ls h'] eqn:Ea. split; cbn [fst snd].
  - destruct (alloc_page_ih page h) as [_ Eo]. by rewrite Ea in Eo.
  - eexists. by split_and!.
Qed.

Lemma in_call_effect x y : settled x.2 → in_call x y → in_effect x y.
Proof.
  intros Hs Hc. destruct Hc as [l [h s] | mid [h s] | [h s] | [h s] | mids [h s] | mid [h s] | g [h s] | mid [h s] |
    mid st new a [h s] | mid st [h s] | [h s] | m h s]; cbn [snd] in Hs.
  - change (in_effect (h, s) (put_in l (h, s)).2). unfold put_in. destruct (ih h !! l) as [m |]; [| by apply still_failed_in].
    eapply on_conn_effect; [by apply (awp_put_in _ _ m s Hs) | |].
    + intros [] s' (_ & (d' & -> & Hs') & _ & E). split; [done |]. eexists. by split_and!.
    + intros e s' (_ & Hs' & _ & E). by apply still_failed_in.
  - change (in_effect (h, s) (get_in mid (h, s)).2). unfold get_in. pose proof (awp_get_in _ _ mid s Hs) as Hw.
    unfold awp in Hw. destruct (get_in_message mid s) as [[[m |] | e] s'].
    + destruct Hw as ([= E _] & Hs' & _). split; [done |]. eexists. by split_and!.
    + destruct Hw as ([= E _] & Hs' & _). by apply still_failed_in.
    + destruct Hw as (_ & Hs' & [= E _]). by apply still_failed_in.
  - apply still_in; [apply still_select | done].
  - apply still_in; [apply still_mids | done].
  - apply still_in; [apply still_fetch | done].
  - apply still_in; [| done]. apply still_act_bind; [| intros; apply still_act_ret].
    apply still_act_bind; [apply still_query |]. intros [r |]; [| apply still_act_ret]. apply still_act_bind; [apply still_act_lift | intros; apply still_act_ret].
  - by apply in_replay_effect.
  - change (in_effect (h, s) (on_conn (mark_in_delivered_row mid) (h, s)).2).
    eapply on_conn_effect; [by apply (awp_mark_in _ _ mid s Hs) | |].
    + intros b s' ([= E _] & d' & Hs' & Hd). split; [done |]. exists d'. split_and!; [done | | done].
      destruct (dget mid (inbound_t (D s))) as [r |]; [| by destruct Hd as [_ ->]]. by case_bool_decide; destruct Hd as [_ ->].
    + intros e s' (_ & Hs' & [= E _]). by apply still_failed_in.
  - change (in_effect (h, s) (on_conn (transition_in_row mid st new a) (h, s)).2).
    eapply on_conn_effect; [by apply (awp_transition_in _ _ mid st new a s Hs) | |].
    + intros [m |] s' ([= E _] & H); [| destruct H; by apply still_failed_in].
      destruct H as (r & _ & d' & -> & Hs'). split; [done |]. eexists. by split_and!.
    + intros e s' (_ & Hs' & [= E _]). by apply still_failed_in.
  - change (in_effect (h, s) (on_conn (complete_in_row mid st) (h, s)).2).
    eapply on_conn_effect; [by apply (awp_complete_in _ _ mid st s Hs) | |].
    + intros [m |] s' ([= E _] & H); [| destruct H; by apply still_failed_in].
      destruct H as (r & _ & _ & d' & -> & Hs'). split; [done |]. eexists. by split_and!.
    + intros e s' (_ & Hs' & [= E _]). by apply still_failed_in.
  - change (in_effect (h, s) (on_conn clear_in_rows (h, s)).2).
    eapply on_conn_effect; [by apply (awp_clear_in _ _ s Hs) | |].
    + intros [] s' ([= E _] & d' & -> & Hs'). split; [done |]. eexists. by split_and!.
    + intros e s' (_ & Hs' & [= E _]). by apply still_failed_in.
  - split; [done |]. eexists. split_and!; [exact Hs | done..].
Qed.

Lemma out_ok_same top d d' : outbound_t d' = outbound_t d → out_ok top d → out_ok top d'.
Proof. intros E [Hk H0 Ha Hr]. split; by rewrite ?E. Qed.
Lemma in_ok_same top d d' : inbound_t d' = inbound_t d → in_rows_ok top d → in_rows_ok top d'.
Proof. intros E [Hk H0 Ha Hr]. split; by rewrite ?E. Qed.

Lemma was_view top d mid st r : in_rows_ok top d → was d mid st r →
  dget mid (in_rows d) = Some (in_view mid r) ∧ i_state (in_view mid r) = st.
Proof.
  intros Ho [Hg Hst]. unfold in_rows. rewrite dget_kmap, Hg. split; [done |]. cbn. by rewrite Hst, in_state_col_int.
Qed.
Lemma not_in_view top d mid st : in_rows_ok top d → not_in d mid st →
  ∀ m, dget mid (in_rows d) = Some m → i_state m ≠ st.
Proof.
  intros Ho Hnot m. unfold in_rows. rewrite dget_kmap. destruct (dget mid (inbound_t d)) as [r |] eqn:Eg; [| done].
  intros [= <-]. destruct (io_rows _ _ Ho _ _ Eg) as (m0 & n & _ & _ & ->). cbn. rewrite In_of_int.
  intros <-. by apply (Hnot _ Eg).
Qed.

(** A read out of which came the database it found. *)
Lemma read_in {A} h s s' (r : res A) (P : A → Prop) : in_store_ok h s →
  match r with
  | Ok a => P a ∧ at_db (_batch_depth s) (D s) (D s) s' ∧ seqs s' = seqs s
  | Raise x => local x ∧ at_db (_batch_depth s) (D s) (D s) s' ∧ seqs s' = seqs s
  end → in_store_ok h s' ∧ ih_frame h h ∧ in_rows (D s') = in_rows (D s).
Proof.
  intros Hok H. assert (at_db (_batch_depth s) (D s) (D s) s' ∧ seqs s' = seqs s) as [Hs' [= _ E]] by (by destruct r as [? | ?]; destruct H).
  destruct (failed_in h _ _ s s' Hs') as [? ?]; [lia | done | done |]. done.
Qed.

#[export] Program Instance sqlite_in_laws : InStoreLaws Sq := {|
  irows h s := in_rows (D s); in_ok := in_store_ok; kept := sql_kept |}.
Next Obligation. intros m. by eexists. Qed.
Next Obligation. intros h s (_ & Ho). unfold in_rows. rewrite dkeys_kmap. apply Ho. Qed.
Next Obligation.
  intros h s mid m (_ & Ho). unfold in_rows. rewrite dget_kmap.
  destruct (dget mid (inbound_t (D s))) as [r |] eqn:E; [| done]. apply (io_rows _ _ Ho) in E as (m0 & k & Hm & Hn & ->).
  by intros [= <-].
Qed.
Next Obligation.
  intros h s h' s' (Hs & Ho) Hc. destruct (out_call_effect (h, s) (h', s') Hs Hc) as (Eh & d' & Hs' & Ei & Eq). cbn [fst snd] in *.
  destruct (settled_in h' _ _ _ Hs') as [? ->]; [rewrite Eq; by eapply in_ok_same |]. split_and!; [done | |].
  - unfold in_rows. by rewrite Ei.
  - intros l. by rewrite Eh.
Qed.
Next Obligation.
  intros h s h' s' (Hs & Hh & Ho) Hc. destruct (in_call_effect (h, s) (h', s') Hs Hc) as (Eh & d' & Hs' & Eo & Eq). cbn [fst snd] in *.
  destruct (settled_out h' _ _ _ Hs') as [Hok' ED]; [by rewrite Eh | rewrite Eq; by eapply out_ok_same |]. split_and!; [done | |].
  - cbn. rewrite ED. unfold out_rows. by rewrite Eo.
  - intros l m Hl. exists m. by rewrite Eh.
Qed.
Next Obligation. done. Qed.
Next Obligation.
  intros h s l m r h' s' Hok Hl H. change (put_in l (h, s) = (r, (h', s'))) in H. unfold put_in in H. rewrite Hl in H.
  pose proof Hok as (Hs & Ho). eapply on_conn_run in H as [-> H]; [| by apply (awp_put_in _ _ m s Hs)]. destruct r as [[] | x].
  - destruct H as (Hn & (d' & -> & Hs') & Eq & _). destruct (put_in_ok _ _ m Ho Hn) as (Ho' & Hr & _).
    rewrite <- Eq in Ho' at 1. destruct (settled_in h _ _ _ Hs' Ho') as [? ->]. split_and!; try done.
  - destruct H as (Hx & Hs' & Hq & _). destruct (failed_in h _ _ s s' Hs' Hq eq_refl Hok). split_and!; try done.
Qed.
Next Obligation.
  intros h s mid r h' s' Hok H. pose proof Hok as (Hs & Ho). change (get_in mid (h, s) = (r, (h', s'))) in H.
  unfold get_in in H. pose proof (awp_get_in _ _ mid s Hs) as Hw. unfold awp in Hw.
  destruct (get_in_message mid s) as [[[m |] | x] s1]; injection H as <- <- <-.
  - destruct Hw as ([= _ E] & Hs1 & row & Hg & ->).
    destruct (settled_in (i_alloc h (in_view mid row)) _ _ _ Hs1) as [? ED]; [by rewrite E |].
    split_and!; [done | apply ih_frame_alloc | by rewrite ED |]. eexists. split.
    + simpl. rewrite lookup_app_r by done. by rewrite Nat.sub_diag.
    + unfold in_rows. by rewrite dget_kmap, Hg.
  - destruct Hw as ([= _ E] & Hs1 & Hg). destruct (settled_in h _ _ _ Hs1) as [? ED]; [by rewrite E |].
    split_and!; [done | done | by rewrite ED |]. unfold in_rows. by rewrite dget_kmap, Hg.
  - destruct Hw as (Hx & Hs1 & [= _ E]). destruct (settled_in h _ _ _ Hs1) as [? ED]; [by rewrite E |].
    split_and!; [done | done | by rewrite ED | by intros [] | done].
Qed.
Next Obligation.
  intros h s r h' s' Hok H. pose proof Hok as (Hs & Ho).
  eapply (on_conn_run _ (λ n s', n = len (inbound_t (D s)) ∧ at_db (_batch_depth s) (D s) (D s) s' ∧ seqs s' = seqs s)
    (λ x s', local x ∧ at_db (_batch_depth s) (D s) (D s) s' ∧ seqs s' = seqs s)) in H as [-> H];
    [| by eapply (awp_query _ _ _ []); [exact Hs | |]].
  destruct (read_in h s s' r _ Hok H) as (? & ? & ?). split_and!; [done | done | done |].
  destruct r as [n | x]; [| split; [by intros [] | apply H]]. destruct H as [-> _]. unfold len, in_rows, kmap. by rewrite length_fmap.
Qed.
Next Obligation.
  intros h s r h' s' Hok H. pose proof Hok as (Hs & Ho).
  eapply (on_conn_run _ (λ mids s', mids = dkeys (inbound_t (D s)) ∧ at_db (_batch_depth s) (D s) (D s) s' ∧ seqs s' = seqs s)
    (λ x s', local x ∧ at_db (_batch_depth s) (D s) (D s) s' ∧ seqs s' = seqs s)) in H as [-> H];
    [| by eapply awp_mids; [exact Hs | apply Ho | |]].
  destruct (read_in h s s' r _ Hok H) as (? & ? & ?). split_and!; [done | done | done |].
  destruct r as [n | x]; [| split; [by intros [] | apply H]]. destruct H as [-> _]. unfold in_rows. by rewrite dkeys_kmap.
Qed.
Next Obligation.
  intros h s mids r h' s' Hok H. pose proof Hok as (Hs & Ho).
  eapply (on_conn_run _ (λ page s', built _row_to_in_meta (inbound_t (D s)) mids page ∧
      at_db (_batch_depth s) (D s) (D s) s' ∧ seqs s' = seqs s)
    (λ x s', local x ∧ at_db (_batch_depth s) (D s) (D s) s' ∧ seqs s' = seqs s)) in H as [-> H];
    [| by eapply awp_fetch; [apply reads_row_to_in_meta | apply Ho | exact Hs | |]].
  destruct (read_in h s s' r _ Hok H) as (? & ? & ?). split_and!; [done | done | done |].
  destruct r as [page | x]; [| split; [by intros [] | apply H]]. destruct H as (Hp & _).
  pose proof (built_view _ id (λ mid r, Memory.meta_of mid (in_view mid r)) _ _ _ (λ mid r a _, row_to_in_meta_view mid r a) Hp) as E.
  rewrite list_fmap_id in E. rewrite E.
  apply list_omap_ext, Forall_Forall2_diag, Forall_forall. intros mid _. unfold in_rows. rewrite dget_kmap.
  by destruct (dget mid (inbound_t (D s))).
Qed.
Next Obligation.
  intros h s mid r h' s' Hok H. pose proof Hok as (Hs & Ho).
  eapply (on_conn_run _ (λ o s', o = Memory.meta_of mid <$> dget mid (in_rows (D s)) ∧
      at_db (_batch_depth s) (D s) (D s) s' ∧ seqs s' = seqs s)
    (λ x s', local x ∧ at_db (_batch_depth s) (D s) (D s) s' ∧ seqs s' = seqs s)) in H as [-> H].
  2:{ unfold in_meta_of. apply awp_bind. unfold in_rows. rewrite dget_kmap. eapply awp_in_transition; [exact Hs | | |]; [| | done].
      - intros x st ua del n q s1 Hs1 E1 -> Hst Hua Hd Hn _. unfold awp. cbn. split_and!; try done.
        unfold Memory.meta_of, in_view. cbn [im_mid i_mid i_state i_user_acked i_delivered i_logical_size].
        by rewrite Hst, Hua, Hd, Hn, bool_col_int, in_state_col_int.
      - intros s1 Hs1 E1 ->. unfold awp. cbn. done. }
  destruct (read_in h s s' r _ Hok H) as (? & ? & ?). split_and!; [done | done | done |].
  destruct r as [o | x]; [apply H | split; [by intros [] | apply H]].
Qed.
Next Obligation.
  intros h s g r h' s' Hok H. pose proof Hok as (Hs & Ho). change (in_replay_next g (h, s) = (r, (h', s'))) in H.
  unfold in_replay_next in H. pose proof (awp_replay _ _ g s (io_keys _ _ Ho) Hs) as Hw. unfold awp in Hw.
  destruct (sql_in_replay_next g s) as [[[[page |] g'] | x] s1].
  - destruct Hw as (Hs1 & [= _ E] & Hp). pose proof (alloc_page_lookup page h) as Hl. pose proof (alloc_page_ih page h) as [Eh _].
    destruct (Hp page eq_refl) as [Hne Hrows].
    assert (Hls : (alloc_page page h).1 ≠ []) by (by destruct page).
    destruct (alloc_page page h) as [ls h1]. injection H as <- <- <-. cbn [fst snd] in *.
    destruct (settled_in h1 _ _ _ Hs1) as [? ED]; [by rewrite E |].
    split_and!; [done | | by rewrite ED | done |].
    + intros l [m Hm]. exists m. rewrite Eh. by apply lookup_app_l_Some.
    + intros l Hin. destruct (Hl l Hin) as (m & Hm & Hpg). exists m. split; [done |]. by apply Hrows.
  - injection H as <- <- <-. destruct Hw as (Hs1 & [= _ E] & _). destruct (settled_in h _ _ _ Hs1) as [? ED]; [by rewrite E |].
    split_and!; [done | done | by rewrite ED | done].
  - injection H as <- <- <-. destruct Hw as (Hx & Hs1 & [= _ E]). destruct (settled_in h _ _ _ Hs1) as [? ED]; [by rewrite E |].
    split_and!; [done | done | by rewrite ED | done].
Qed.
Next Obligation.
  intros h s mid r h' s' Hok H. pose proof Hok as (Hs & Ho).
  eapply on_conn_run in H as [-> H]; [| by apply (awp_mark_in _ _ mid s Hs)]. destruct r as [b | x].
  - destruct H as ([= _ E] & d' & Hs' & Hd).
    assert (Hsame : d' = D s → in_store_ok h s' ∧ in_rows (D s') = in_rows (D s)).
    { intros ->. destruct (failed_in h _ _ s s' Hs') as [? ?]; [lia | done | done |]. done. }
    cbn beta. unfold in_rows at 1. rewrite dget_kmap. destruct (dget mid (inbound_t (D s))) as [row |] eqn:Eg; cbn [fmap option_fmap option_map].
    + destruct (enc_in_delivered mid row) as (He & Hv & Hiff); [by apply (io_rows _ _ Ho) |].
      case_bool_decide as Hdel; destruct Hd as [-> ->].
      * rewrite (proj1 Hiff Hdel). destruct (change_in_ok _ _ _ _ _ _ Ho Eg (eq_refl : ri_seq (in_set_delivered row) = ri_seq row) He Hv) as [Ho' Hr].
        rewrite <- E in Ho'. destruct (settled_in h _ _ _ Hs' Ho') as [? ->]. done.
      * destruct (i_delivered (in_view mid row)) eqn:Ed; [| by destruct Hdel; apply Hiff]. destruct (Hsame eq_refl). done.
    + destruct Hd as [-> ->]. destruct (Hsame eq_refl). done.
  - destruct H as (Hx & Hs' & [= _ E]). destruct (failed_in h _ _ s s' Hs') as [? ?]; [lia | done | done |].
    split_and!; try done. by intros [].
Qed.
Next Obligation.
  intros h s mid st new a r h' s' Hok H. pose proof Hok as (Hs & Ho).
  eapply on_conn_run in H as [-> H]; [| by apply (awp_transition_in _ _ mid st new a s Hs)]. destruct r as [[x |] | x].
  - destruct H as ([= _ E] & row & Hw & d' & -> & Hs'). destruct (was_view _ _ _ _ _ Ho Hw) as [Hv Hst].
    destruct (enc_in_state mid new a row) as [He Hq]; [by apply (io_rows _ _ Ho), Hw |].
    destruct (change_in_ok _ _ _ _ _ _ Ho (proj1 Hw) Hq He (in_view_state mid new a row)) as [Ho' Hr].
    rewrite <- E in Ho'. destruct (settled_in h _ _ _ Hs' Ho') as [? ->]. split_and!; [done | done |]. by eexists.
  - destruct H as ([= _ E] & Hs' & Hnot). destruct (failed_in h _ _ s s' Hs') as [? ?]; [lia | done | done |].
    split_and!; try done. by eapply not_in_view.
  - destruct H as (Hx & Hs' & [= _ E]). destruct (failed_in h _ _ s s' Hs') as [? ?]; [lia | done | done |].
    split_and!; try done. by intros [].
Qed.
Next Obligation.
  intros h s mid st r h' s' Hok H. pose proof Hok as (Hs & Ho).
  eapply on_conn_run in H as [-> H]; [| by apply (awp_complete_in _ _ mid st s Hs)]. destruct r as [[x |] | x].
  - destruct H as ([= _ E] & row & Hw & -> & d' & -> & Hs'). destruct (was_view _ _ _ _ _ Ho Hw) as [Hv Hst].
    destruct (remove_in_ok _ _ mid Ho) as [Ho' Hr]. rewrite <- E in Ho'.
    destruct (settled_in h _ _ _ Hs' Ho') as [? ->]. split_and!; [done | done |]. by eexists.
  - destruct H as ([= _ E] & Hs' & Hnot). destruct (failed_in h _ _ s s' Hs') as [? ?]; [lia | done | done |].
    split_and!; try done. by eapply not_in_view.
  - destruct H as (Hx & Hs' & [= _ E]). destruct (failed_in h _ _ s s' Hs') as [? ?]; [lia | done | done |].
    split_and!; try done. by intros [].
Qed.
Next Obligation.
  intros h s r h' s' Hok H. pose proof Hok as (Hs & Ho).
  eapply on_conn_run in H as [-> H]; [| by apply (awp_clear_in _ _ s Hs)]. destruct r as [[] | x].
  - destruct H as ([= _ E] & d' & -> & Hs').
    assert (in_rows_ok (_in_seq s') (with_inbound [] (D s))) as Ho'.
    { rewrite E. split; [apply NoDup_nil_2 | apply Ho | done | done]. }
    destruct (settled_in h _ _ _ Hs' Ho') as [? ->]. done.
  - destruct H as (Hx & Hs' & [= _ E]). destruct (failed_in h _ _ s s' Hs') as [? ?]; [lia | done | done |].
    split_and!; try done. by intros [].
Qed.
