(* ===== verification/SqliteRows.v ===== *)
(** * The rows of any file

    A database may have been written by anything.  What the readers accept is
    exactly what the columns declare, the readers of one row agree, and everything
    else is refused as [ValueError]. *)

From S2P Require Import Prelude PyStr Enums Properties Types Handshake Store StoreIn Json Sqlite SqliteOut SqliteIn.

(** ** Inversion of the column readers *)

Create HintDb columns.

Lemma int_col v n : _stored_int v = Ok n → v = SInt n.
Proof. destruct v; simpl; by intros [= ->]. Qed.
Lemma str_col v s : _stored_str v = Ok s → v = SText s.
Proof. destruct v; simpl; by intros [= ->]. Qed.
Lemma bytes_col v b : _stored_bytes v = Ok b → v = SBlob b.
Proof. destruct v; simpl; by intros [= ->]. Qed.
Lemma text_col v o : _stored_optional_text v = Ok o → v = opt_text o.
Proof. destruct v; simpl; by intros [= <-]. Qed.
Lemma bool_col v b : _stored_bool v = Ok b → v = SInt (bool_int b).
Proof.
  unfold _stored_bool. intros H. apply rbind_Ok_inv in H as (n & Hn & H). apply int_col in Hn as ->.
  destruct (n =? 0) eqn:E0; [apply Z.eqb_eq in E0 as ->; by injection H as <- |].
  destruct (n =? 1) eqn:E1; [apply Z.eqb_eq in E1 as ->; by injection H as <- | done].
Qed.
Lemma size_col v n : _stored_logical_size v = Ok n → v = SInt n ∧ 0 < n.
Proof. unfold _stored_logical_size. intros H. res_inv. apply int_col in Hv as ->. bools. split; [done | lia]. Qed.
Lemma seq_col v n : _stored_non_negative v = Ok n → v = SInt n ∧ 0 ≤ n.
Proof. unfold _stored_non_negative. intros H. res_inv. apply int_col in Hv as ->. bools. split; [done | lia]. Qed.
Lemma mid_col mid n : _stored_mid mid = Ok n → n = mid ∧ 1 ≤ mid ≤ 65535.
Proof. unfold _stored_mid. intros H. res_inv. rewrite negb_false_iff in E. bools. split; [done | lia]. Qed.
Lemma qos_num n q : QoS_of n = Ok q → n = QoS_int q.
Proof.
  unfold QoS_of. destruct (n =? 0) eqn:E0; [apply Z.eqb_eq in E0 as ->; by intros [= <-] |].
  destruct (n =? 1) eqn:E1; [apply Z.eqb_eq in E1 as ->; by intros [= <-] |].
  destruct (n =? 2) eqn:E2; [apply Z.eqb_eq in E2 as ->; by intros [= <-] | done].
Qed.
Lemma out_num n st : Out_of n = Ok st → n = Out_int st.
Proof. destruct n as [| [[[] | [] |] | [[] | [] |] |] |]; simpl; by intros [= <-]. Qed.
Lemma in_num n st : In_of n = Ok st → n = In_int st.
Proof. destruct n as [| [[[] | [] |] | [[] | [] |] |] |]; simpl; by intros [= <-]. Qed.

(** Every refusal of a column is a [ValueError]. *)
Definition refuses {A} (m : res A) : Prop := raises_only (λ x, x = ValueError) m.

Lemma refuses_bind {A B} (m : res A) (k : A → res B) : refuses m → (∀ a, refuses (k a)) → refuses (rbind m k).
Proof. intros Hm Hk x H. destruct m as [a | y]; [by apply (Hk a) | injection H as <-; by apply (Hm y)]. Qed.
Lemma refuses_if {A} (c : bool) (m : res A) : refuses m → refuses (if c then Raise ValueError else m).
Proof. unfold refuses, raises_only. destruct c; naive_solver. Qed.
Lemma refuses_ok {A} (a : A) : refuses (Ok a).
Proof. by unfold refuses, raises_only. Qed.
Lemma refuses_int v : refuses (_stored_int v).
Proof. destruct v; unfold refuses, raises_only; simpl; naive_solver. Qed.
Lemma refuses_str v : refuses (_stored_str v).
Proof. destruct v; unfold refuses, raises_only; simpl; naive_solver. Qed.
Lemma refuses_bytes v : refuses (_stored_bytes v).
Proof. destruct v; unfold refuses, raises_only; simpl; naive_solver. Qed.
Lemma refuses_text v : refuses (_stored_optional_text v).
Proof. destruct v; unfold refuses, raises_only; simpl; naive_solver. Qed.
Lemma refuses_qos n : refuses (QoS_of n).
Proof. unfold QoS_of, refuses, raises_only. repeat case_if; naive_solver. Qed.
Lemma refuses_out n : refuses (Out_of n).
Proof. destruct n as [| [[[] | [] |] | [[] | [] |] |] |]; unfold refuses, raises_only; simpl; naive_solver. Qed.
Lemma refuses_in n : refuses (In_of n).
Proof. destruct n as [| [[[] | [] |] | [[] | [] |] |] |]; unfold refuses, raises_only; simpl; naive_solver. Qed.
Lemma refuses_loads s : refuses (loads s).
Proof. unfold loads, refuses, raises_only. destruct (scan_once _ _) as [[j t] |]; [destruct (skip_ws t) |]; naive_solver. Qed.
Lemma refuses_props o : refuses (_props_from_json o).
Proof.
  destruct o as [s |]; [| apply refuses_ok]. apply refuses_bind; [apply refuses_loads |]. intros j. unfold refuses, raises_only.
  destruct j as [| | | | | d]; try naive_solver. destruct (marked d); [naive_solver |]. destruct (mapM revive_entry d); naive_solver.
Qed.
#[export] Hint Resolve refuses_ok refuses_int refuses_str refuses_bytes refuses_text refuses_qos refuses_out refuses_in
  refuses_props : columns.

Ltac refuses :=
  repeat first [solve [auto with columns] | apply refuses_bind; [| intros ?] | apply refuses_if].
Lemma refuses_bool v : refuses (_stored_bool v).
Proof. unfold _stored_bool. refuses. unfold refuses, raises_only. repeat case_if; naive_solver. Qed.
Lemma refuses_mid mid : refuses (_stored_mid mid).
Proof. unfold _stored_mid. refuses. Qed.
Lemma refuses_size v : refuses (_stored_logical_size v).
Proof. unfold _stored_logical_size. refuses. Qed.
Lemma refuses_seq v : refuses (_stored_non_negative v).
Proof. unfold _stored_non_negative. refuses. Qed.
#[export] Hint Resolve refuses_bool refuses_mid refuses_size refuses_seq : columns.

(** ** Typed rows *)

(** The row shows this message, in the declared types and ranges. *)
Record out_typed (mid : Z) (r : out_row) (m : OutboundMessage) : Prop := {
  ot_mid : o_mid m = mid ∧ 1 ≤ mid ≤ 65535;
  ot_size : ro_logical_size r = SInt (o_logical_size m) ∧ 0 < o_logical_size m;
  ot_topic : ro_topic r = SText (o_topic m);
  ot_payload : ro_payload r = SBlob (o_payload m);
  ot_qos : ro_qos r = SInt (QoS_int (o_qos m));
  ot_state : ro_state r = SInt (Out_int (o_state m));
  ot_flags : ro_retain r = SInt (bool_int (o_retain m)) ∧ ro_dup r = SInt (bool_int (o_dup m));
  ot_properties : ∃ text, ro_properties r = opt_text text ∧ _props_from_json text = Ok (o_properties m);
  ot_encoded : o_encoded_publish m = None ∧ o_encoded_pubrel m = None }.

Record in_typed (mid : Z) (r : in_row) (m : InboundMessage) : Prop := {
  it_mid : i_mid m = mid ∧ 1 ≤ mid ≤ 65535;
  it_size : ri_logical_size r = SInt (i_logical_size m) ∧ 0 < i_logical_size m;
  it_topic : ri_topic r = SText (i_topic m);
  it_payload : ri_payload r = SBlob (i_payload m);
  it_qos : ri_qos r = SInt (QoS_int (i_qos m));
  it_state : ri_state r = SInt (In_int (i_state m));
  it_flags : ri_retain r = SInt (bool_int (i_retain m)) ∧ ri_delivered r = SInt (bool_int (i_delivered m)) ∧
    ri_user_acked r = SInt (bool_int (i_user_acked m));
  it_properties : ∃ text, ri_properties r = opt_text text ∧ _props_from_json text = Ok (i_properties m) }.

Lemma out_read mid r m : _row_to_out mid r = Ok m → out_typed mid r m.
Proof.
  unfold _row_to_out. intros H. res_inv. apply mid_col in Hv as [-> Hm]. apply size_col in Hv10 as [E10 Hpos].
  apply str_col in Hv0. apply bytes_col in Hv1. apply int_col in Hv2. apply qos_num in Hv3 as ->. apply bool_col in Hv4.
  apply int_col in Hv5. apply out_num in Hv6 as ->. apply bool_col in Hv7. apply text_col in Hv8. split; simpl; eauto.
Qed.
Lemma typed_read mid r m : out_typed mid r m → _row_to_out mid r = Ok m.
Proof.
  intros [[Hm Hr] [Es Hs] Et Ep Eq Est [Er Ed] (text & Ex & Hx) [E1 E2]]. unfold _row_to_out, _stored_mid.
  rewrite (proj2 (Z.leb_le 1 mid)), (proj2 (Z.leb_le mid 65535)) by lia. cbn [andb negb rbind].
  rewrite Et, Ep, Eq, Er, Est, Ed, Ex, Es. cbn [_stored_str _stored_bytes _stored_int rbind].
  rewrite QoS_of_int, !stored_bool_int, Out_of_int, stored_opt_text. cbn [rbind]. rewrite Hx. unfold _stored_logical_size.
  cbn [_stored_int rbind]. rewrite (proj2 (Z.leb_gt _ _)) by done. cbn [rbind]. destruct m; simpl in *. by subst.
Qed.
Lemma typed_summary mid r m : out_typed mid r m → _row_to_out_summary mid r = Ok (from_message m).
Proof.
  intros [[Hm Hr] [Es Hs] Et Ep Eq Est [Er Ed] (text & Ex & Hx) _]. unfold _row_to_out_summary, _stored_mid.
  rewrite (proj2 (Z.leb_le 1 mid)), (proj2 (Z.leb_le mid 65535)) by lia. cbn [andb negb rbind].
  rewrite Et, Ep, Eq, Er, Est, Ed, Ex, Es. cbn [_stored_str sql_length _stored_int rbind]. unfold _stored_non_negative at 1.
  cbn [_stored_int rbind]. rewrite (proj2 (Z.ltb_ge _ _)) by apply len_nonneg. cbn [rbind].
  rewrite QoS_of_int, !stored_bool_int, Out_of_int, stored_opt_text. cbn [rbind]. rewrite Hx. unfold _stored_logical_size.
  cbn [_stored_int rbind]. rewrite (proj2 (Z.leb_gt _ _)) by done. cbn [rbind]. destruct m; simpl in *. by subst.
Qed.
Lemma refuses_row_to_out mid r : refuses (_row_to_out mid r).
Proof. unfold _row_to_out. refuses. Qed.

Lemma in_read mid r m : _row_to_in mid r = Ok m → in_typed mid r m.
Proof.
  unfold _row_to_in. intros H. res_inv. apply mid_col in Hv as [-> Hm]. apply size_col in Hv11 as [E11 Hpos].
  apply str_col in Hv0. apply bytes_col in Hv1. apply int_col in Hv2. apply qos_num in Hv3 as ->. apply bool_col in Hv4.
  apply int_col in Hv5. apply in_num in Hv6 as ->. apply bool_col in Hv7. apply text_col in Hv8. apply bool_col in Hv10.
  split; simpl; eauto.
Qed.
Lemma typed_in_read mid r m : in_typed mid r m → _row_to_in mid r = Ok m.
Proof.
  intros [[Hm Hr] [Es Hs] Et Ep Eq Est (Er & Ed & Eu) (text & Ex & Hx)]. unfold _row_to_in, _stored_mid.
  rewrite (proj2 (Z.leb_le 1 mid)), (proj2 (Z.leb_le mid 65535)) by lia. cbn [andb negb rbind].
  rewrite Et, Ep, Eq, Er, Est, Ed, Ex, Eu, Es. cbn [_stored_str _stored_bytes _stored_int rbind].
  rewrite QoS_of_int, !stored_bool_int, In_of_int, stored_opt_text. cbn [rbind]. rewrite Hx. unfold _stored_logical_size.
  cbn [_stored_int rbind]. rewrite (proj2 (Z.leb_gt _ _)) by done. cbn [rbind]. destruct m; simpl in *. by subst.
Qed.
Lemma typed_in_meta mid r m : in_typed mid r m → _row_to_in_meta mid r = Ok (Memory.meta_of mid m).
Proof.
  intros [[Hm Hr] [Es Hs] _ _ _ Est (_ & Ed & Eu) _]. unfold _row_to_in_meta, _stored_mid.
  rewrite (proj2 (Z.leb_le 1 mid)), (proj2 (Z.leb_le mid 65535)) by lia. cbn [andb negb rbind].
  rewrite Est, Ed, Eu, Es. cbn [_stored_int rbind]. rewrite !stored_bool_int, In_of_int. cbn [rbind]. unfold _stored_logical_size.
  cbn [_stored_int rbind]. rewrite (proj2 (Z.leb_gt _ _)) by done. by subst.
Qed.
Lemma refuses_row_to_in mid r : refuses (_row_to_in mid r).
Proof. unfold _row_to_in. refuses. Qed.


(** A row of another program: the state is out of the enumeration. *)
Example foreign_row : _row_to_out 7 (OutRow (SInt 1) (SInt 1) (SInt 0) (SInt 9) (SInt 0) (SInt 3) (SText []) SNull (SBlob [])) =
  Raise ValueError.
Proof. vm_compute. reflexivity. Qed.
