(* ===== verification/SqliteBatch.v ===== *)
(** * Batches of the SQLite store

    A batch is one transaction: it is committed whole or leaves nothing, whatever
    calls fail and whatever the body catches, and it never leaves a transaction
    open. *)

From S2P Require Import Prelude PyStr Enums Properties Types Handshake Store StoreIn Json Sqlite SqliteLaws SqliteOut SqliteIn.

(** ** The work of a batch *)

(** The methods of the store. *)
Inductive store_op : ∀ A, act A → Prop :=
  | op_put_out m : store_op _ (put_out_message m)
  | op_get_out mid : store_op _ (get_out_message mid)
  | op_delete_out mid : store_op _ (delete_out_row mid)
  | op_out_mids : store_op _ (_ordered_mids outbound_t ro_seq)
  | op_out_page mids : store_op _ (_fetch_by_mids outbound_t _row_to_out_summary mids)
  | op_clear_out : store_op _ clear_out
  | op_out_meta mid : store_op _ (out_meta_of mid)
  | op_complete_out mid st : store_op _ (complete_out_row mid st)
  | op_transition_out mid st new c : store_op _ (transition_out_row mid st new c)
  | op_put_in m : store_op _ (put_in_message m)
  | op_get_in mid : store_op _ (get_in_message mid)
  | op_in_count : store_op _ sql_in_count
  | op_in_mids : store_op _ (_ordered_mids inbound_t ri_seq)
  | op_in_page mids : store_op _ (_fetch_by_mids inbound_t _row_to_in_meta mids)
  | op_replay g : store_op _ (sql_in_replay_next g)
  | op_clear_in : store_op _ clear_in_rows
  | op_in_meta mid : store_op _ (in_meta_of mid)
  | op_mark mid : store_op _ (mark_in_delivered_row mid)
  | op_transition_in mid st new a : store_op _ (transition_in_row mid st new a)
  | op_complete_in mid st : store_op _ (complete_in_row mid st)
  | op_close : store_op _ sql_close.

(** The body of a batch: calls of the store, changes of its own data, sequences,
    handlers, further batches. *)
Section work.
Context {X : Type}.
Abbreviation body A := (X * Sq → res A * (X * Sq)).

Definition seq_then {A B} (f : body A) (k : A → body B) : body B := λ x,
  match f x with (Ok a, y) => k a y | (Raise e, y) => (Raise e, y) end.
Definition try_with {A} (f : body A) (g : exn → body A) : body A := λ x,
  match f x with (Ok a, y) => (Ok a, y) | (Raise e, y) => g e y end.
Definition with_store {A} (m : act A) : body A := λ '(x, s), let '(r, s) := m s in (r, (x, s)).

Inductive work : ∀ A, body A → Prop :=
  | work_op A (m : act A) : store_op A m → work A (with_store m)
  | work_data A (f : X → res A * X) : work A (λ '(x, s), let '(r, x) := f x in (r, (x, s)))
  | work_seq A B f (k : A → body B) : work A f → (∀ a, work B (k a)) → work B (seq_then f k)
  | work_try A (f : body A) g : work A f → (∀ e, work A (g e)) → work A (try_with f g)
  | work_batch A (f : body A) : work A f → work A (batch f).
End work.

(** ** Inside a batch *)

(** Nothing is committed, a transaction is only open when the batch knows it, and
    a failure of a nested batch is not forgotten. *)
Record inside (z : Z) (d0 : Db) (ro : bool) (s : Sq) : Prop := {
  in_world : Forall honest (world (_conn s));
  in_depth : _batch_depth s = z;
  in_disk : disk (_conn s) = d0;
  in_mark : ro = true → _rollback_only s = true;
  in_live : _transaction_started s = false → tx (_conn s) = None }.

Section inside.
Context (z : Z) (d0 : Db) (ro : bool) (Hz : 0 < z).
Implicit Types (s : Sq).
Abbreviation Inside := (inside z d0 ro).

Definition contained {A} (m : act A) : Prop := ∀ s, Inside s → awp m (λ _, Inside) (λ _, Inside) s.
(** A write finds its transaction open. *)
Definition writes {A} (m : act A) : Prop := ∀ s, Inside s → _transaction_started s = true →
  awp m (λ _, Inside) (λ _, Inside) s.

Lemma contained_bind {A B} (m : act A) (k : A → act B) : contained m → (∀ a, contained (k a)) → contained (m ≫= k).
Proof using. intros Hm Hk s Hs. apply awp_bind. eapply awp_mono; [by apply Hm | | done]. intros a s1 Hs1. by apply Hk. Qed.
Lemma contained_ret {A} (a : A) : contained (mret a).
Proof using. by intros s Hs. Qed.
Lemma contained_lift {A} (r : res A) : contained (act_lift r).
Proof using. intros s Hs. by apply awp_lift. Qed.
Lemma contained_raise {A} x : contained (A := A) (act_raise x).
Proof using. by intros s Hs. Qed.
Lemma contained_if {A} (c : bool) (m m' : act A) : contained m → contained m' → contained (if c then m else m').
Proof using. by destruct c. Qed.

Lemma inside_conn s c : Inside s → Forall honest (world c) → disk c = disk (_conn s) →
  (_transaction_started s = false → tx c = tx (_conn s)) → Inside (set_conn c s).
Proof using.
  intros [? ? Hd ? Hl] Hw Hk Ht. split; simpl; [done | done | congruence | done |].
  intros E. rewrite Ht by done. by apply Hl.
Qed.

Lemma contained_query {A} args (q : Db → A) : contained (conn_do (conn_query args q)).
Proof using.
  intros s Hs. apply awp_conn. intros r c H. assert (Inside (set_conn c s)) as Hc; [| by destruct r].
  unfold conn_query in H. set (g := λ c, _) in H.
  destruct (conn_call_inv id g (_conn s) (in_world _ _ _ _ Hs)) as [[E _] | (w & Hw & _ & [E | E])]; rewrite E in H.
  - injection H as <- <-. apply inside_conn; try done. apply Hs.
  - injection H as <- <-. by apply inside_conn.
  - unfold g in H. injection H as _ <-. by apply inside_conn.
Qed.
Lemma contained_select {A} (q : Db → A) : contained (conn_do (conn_select q)).
Proof using. apply (contained_query []). Qed.

Lemma writes_dml {A} args (f : Db → A * Db) : writes (conn_do (conn_dml args f)).
Proof using.
  intros s Hs Ht. apply awp_conn. intros r c H. assert (Inside (set_conn c s)) as Hc; [| by destruct r].
  unfold conn_dml in H. set (g := λ c, _) in H.
  assert (Hbegin : ∀ w, Forall honest w → let c' := begin_implicit (mkConn (disk (_conn s)) (tx (_conn s)) w (conn_closed (_conn s))) in
    Forall honest (world c') ∧ disk c' = disk (_conn s)).
  { intros w Hw. unfold begin_implicit. simpl. by destruct (tx (_conn s)). }
  destruct (conn_call_inv begin_implicit g (_conn s) (in_world _ _ _ _ Hs)) as [[E _] | (w & Hw & _ & H2)].
  { rewrite E in H. injection H as <- <-. apply inside_conn; try done. apply Hs. }
  destruct (Hbegin w Hw) as [Hw' Hd']. destruct H2 as [E | E]; rewrite E in H.
  - injection H as <- <-. apply inside_conn; try done. congruence.
  - unfold g in H. destruct (bind_all args); [destruct (f _) as [b d] |]; injection H as <- <-; apply inside_conn; try done; congruence.
Qed.

(** Operations that write: the transaction is opened first. *)
Lemma contained_ensure {A} (k : act A) : writes k → contained (_ensure_write_transaction;; k).
Proof using Hz.
  intros Hk s Hs. apply awp_bind. unfold _ensure_write_transaction. apply awp_bind. unfold awp at 1. cbn [act_get id].
  rewrite (in_depth _ _ _ _ Hs), (proj2 (Z.eqb_neq z 0)) by lia. cbn [negb andb].
  destruct (_transaction_started s) eqn:Et; cbn [negb]; [by apply Hk |].
  apply awp_bind, awp_conn. intros r c H. unfold conn_begin in H. set (g := λ c, _) in H.
  destruct (conn_call_inv id g (_conn s) (in_world _ _ _ _ Hs)) as [[E _] | (w & Hw & _ & [E | E])]; rewrite E in H.
  - injection H as <- <-. apply inside_conn; try done. apply Hs.
  - injection H as <- <-. by apply inside_conn.
  - unfold g in H. simpl in H. rewrite (in_live _ _ _ _ Hs Et) in H. injection H as <- <-. unfold awp at 1. cbn [act_set].
    apply Hk; [| done]. split; simpl; try apply Hs; done.
Qed.

Lemma writes_seq {A B} (m : act A) (k : A → act B) : writes m → (∀ a, contained (k a)) → writes (m ≫= k).
Proof using. intros Hm Hk s Hs Ht. apply awp_bind. eapply awp_mono; [by apply Hm | | done]. intros a s1 Hs1. by apply Hk. Qed.

Lemma contained_commit : contained _commit_if_needed.
Proof using Hz.
  intros s Hs. unfold _commit_if_needed. apply awp_bind. unfold awp at 1. cbn [act_get id].
  by rewrite (in_depth _ _ _ _ Hs), (proj2 (Z.eqb_neq z 0)) by lia.
Qed.

Lemma contained_fetch {R A} table (build : Z → R → res A) mids : contained (_fetch_by_mids table build mids).
Proof using.
  apply contained_bind; [| intros; apply contained_lift]. generalize (∅ : gmap Z R) as m.
  induction (variable_chunks _ _ _) as [| sub subs IH]; intros m; [apply contained_ret |].
  apply contained_bind; [apply contained_query |]. intros rows. apply contained_bind; [apply contained_lift | apply IH].
Qed.
End inside.

Create HintDb contained.
#[export] Hint Resolve contained_ret contained_lift contained_raise contained_query contained_select contained_commit
  contained_fetch writes_dml : contained.
#[export] Hint Extern 1 (0 < _) => assumption : contained.

#[local] Ltac contain :=
  repeat (first
    [ progress auto with contained
    | apply contained_ensure; [assumption |]
    | apply writes_seq; [apply writes_dml | intros]
    | apply contained_bind; [| intros]
    | match goal with
      | |- contained _ _ _ (match ?x with _ => _ end) => destruct x
      | |- contained _ _ _ (if ?x then _ else _) => destruct x
      end ]).

Section operations.
Context (z : Z) (d0 : Db) (ro : bool) (Hz : 0 < z).
Implicit Types (s : Sq).

Lemma contained_out_transition mid : contained z d0 ro (out_transition mid).
Proof using. unfold out_transition, get_out_row. contain. Qed.
Lemma contained_in_transition mid : contained z d0 ro (in_transition mid).
Proof using. unfold in_transition, get_in_row. contain. Qed.
Hint Resolve contained_out_transition contained_in_transition : contained.

Lemma writes_numbered {A} g (f : SqliteInflightStore → Z) (k : Z → act A) :
  (∀ s, inside z d0 ro s → inside z d0 ro (g s)) → (∀ s, _transaction_started (g s) = _transaction_started s) →
  (∀ n, writes z d0 ro (k n)) → writes z d0 ro (act_set g;; (n ← act_get f; k n)).
Proof using.
  intros Hg Ht Hk s Hs Hst. apply awp_bind. unfold awp at 1. cbn [act_set]. apply awp_bind. unfold awp at 1. cbn [act_get].
  apply Hk; [by apply Hg | by rewrite Ht].
Qed.

Lemma contained_replay_next a b index : ∀ mids n, contained z d0 ro (sql_replay_next a b index mids n).
Proof using Hz.
  induction index as [| [mid size] index IH]; intros mids n; cbn [sql_replay_next].
  - destruct mids; unfold sql_hydrate_page; contain.
  - assert (Hadd : ∀ mids n, contained z d0 ro (if (len (mids ++ [mid]) >=? a) || (n + size >=? b)
           then page ← sql_hydrate_page (mids ++ [mid]);
                match page with
                | [] => sql_replay_next a b index [] 0
                | _ => mret (Some (page, index))
                end
           else sql_replay_next a b index (mids ++ [mid]) (n + size))).
    { intros mids' n'. apply contained_if; [| apply IH]. apply contained_bind; [apply contained_fetch |].
      intros [| m page]; [apply IH | apply contained_ret]. }
    apply contained_if; [| apply Hadd]. apply contained_bind; [apply contained_fetch |].
    intros [| m page]; [apply (Hadd [] 0) | apply contained_ret].
Qed.

Lemma contained_replay g : contained z d0 ro (sql_in_replay_next g).
Proof using Hz.
  assert (∀ a b index, contained z d0 ro (sql_replay_from a b index)) as Hf.
  { intros. apply contained_bind; [apply contained_replay_next | intros; apply contained_ret]. }
  destruct g as [a b | a b index | a b index |]; cbn [sql_in_replay_next]; try apply contained_ret; [| apply Hf].
  apply contained_if; [apply contained_raise |]. apply contained_if; [apply contained_raise |].
  apply contained_bind; [| intros; apply Hf]. unfold replay_index. contain.
Qed.

Lemma op_contained A (m : act A) : store_op A m → contained z d0 ro m.
Proof using Hz.
  destruct 1.
  - unfold put_out_message. apply contained_if; [apply contained_raise |]. apply contained_ensure; [done |].
    apply writes_numbered; [| done | intros; apply writes_seq; [apply writes_dml | intros; by apply contained_commit]].
    intros s [? ? ? ? ?]. by split.
  - unfold get_out_message, get_out_row. contain.
  - unfold delete_out_row. contain.
  - unfold _ordered_mids. contain.
  - contain.
  - unfold clear_out. contain.
  - unfold out_meta_of. contain.
  - unfold complete_out_row. contain.
  - unfold transition_out_row. contain.
  - unfold put_in_message. apply contained_if; [apply contained_raise |]. apply contained_ensure; [done |].
    apply writes_numbered; [| done | intros; apply writes_seq; [apply writes_dml | intros; by apply contained_commit]].
    intros s [? ? ? ? ?]. by split.
  - unfold get_in_message, get_in_row. contain.
  - apply contained_select.
  - unfold _ordered_mids. contain.
  - contain.
  - apply contained_replay.
  - unfold clear_in_rows. contain.
  - unfold in_meta_of. contain.
  - unfold mark_in_delivered_row. contain.
  - unfold transition_in_row. contain.
  - unfold complete_in_row. contain.
  - intros s Hs. unfold sql_close. apply awp_bind. unfold awp at 1. cbn [act_get id]. destruct (_closed s); [done |].
    by rewrite (in_depth _ _ _ _ Hs), (proj2 (Z.eqb_neq z 0)) by lia.
Qed.
End operations.

(** ** The end of a batch *)

(** Between batches: no transaction is open. *)
Record idle (s : Sq) : Prop := {
  id_world : Forall honest (world (_conn s));
  id_depth : _batch_depth s = 0;
  id_tx : tx (_conn s) = None;
  id_started : _transaction_started s = false }.

Definition marks (s : Sq) := (_batch_depth s, _transaction_started s, _rollback_only s).

Lemma let_go s : Forall honest (world (_conn s)) → let s' := (_rollback_or_close s).2 in
  Forall honest (world (_conn s')) ∧ tx (_conn s') = None ∧ disk (_conn s') = disk (_conn s) ∧ marks s' = marks s.
Proof.
  intros Hw. unfold _rollback_or_close, conn_do, conn_rollback. destruct (tx (_conn s)) eqn:Et.
  - destruct (conn_call_inv id (λ c, (Ok tt, set_tx None c)) (_conn s) Hw) as [[-> _] | (w & Hw' & _ & [-> | ->])]; by simpl.
  - destruct (conn_closed (_conn s)); by simpl.
Qed.

Lemma commit_run s : Forall honest (world (_conn s)) → let '(r, s') := _commit s in
  Forall honest (world (_conn s')) ∧ tx (_conn s') = None ∧ marks s' = marks s ∧
  disk (_conn s') = match r with Ok _ => D s | Raise _ => disk (_conn s) end.
Proof.
  intros Hw. unfold _commit.
  assert (Hfail : ∀ c, Forall honest (world c) → disk c = disk (_conn s) →
    let '(r, s') := (_rollback_or_close;; act_raise StoreError) (set_conn c s) in
    Forall honest (world (_conn s')) ∧ tx (_conn s') = None ∧ marks s' = marks s ∧
    disk (_conn s') = match r : res unit with Ok _ => D s | Raise _ => disk (_conn s) end).
  { intros c Hc Hd. pose proof (let_go (set_conn c s) Hc) as Hg. unfold mbind, act_bind.
    assert (∃ s', _rollback_or_close (set_conn c s) = (Ok tt, s')) as [s' E].
    { unfold _rollback_or_close. destruct (conn_do conn_rollback _) as [[[] | x] s']; by eexists. }
    rewrite E in *. cbn [snd] in Hg. destruct Hg as (? & ? & Hk & ?). cbn. split_and!; [done | done | done | by rewrite Hk]. }
  unfold conn_do, conn_commit. destruct (tx (_conn s)) as [t |] eqn:Et.
  - destruct (conn_call_inv id (λ c, (Ok tt, mkConn (db c) None (world c) (conn_closed c))) (_conn s) Hw)
      as [[-> _] | (w & Hw' & _ & [-> | ->])]; simpl; [by apply Hfail | by apply Hfail |].
    by split_and!.
  - destruct (conn_closed (_conn s)); [by apply Hfail |]. simpl. split_and!; try done. unfold D, db. by rewrite Et.
Qed.

Section batches.
Context {X : Type}.
Implicit Types (s : Sq) (x : X).

Definition holds {A} (f : X * Sq → res A * (X * Sq)) : Prop :=
  ∀ z d0 ro x s, 0 < z → inside z d0 ro s → inside z d0 ro (f (x, s)).2.2.

Lemma inside_weaken z d0 ro s : inside z d0 true s → inside z d0 ro s.
Proof using. intros [? ? ? Hr ?]. split; auto. Qed.

Lemma batch_holds {A} (f : X * Sq → res A * (X * Sq)) : holds f → holds (batch f).
Proof using.
  intros Hf z d0 ro x s Hz Hs. unfold batch. rewrite (in_depth _ _ _ _ Hs), (proj2 (Z.eqb_neq z 0)) by lia.
  assert (inside (z + 1) d0 ro (batch_enter s)) as He.
  { destruct Hs as [? Hd ? ? ?]. unfold batch_enter. rewrite Hd, (proj2 (Z.eqb_neq z 0)) by lia. by split. }
  pose proof (Hf (z + 1) d0 ro x _ ltac:(lia) He) as Ho. destruct (f (x, batch_enter s)) as [[a | e] [y s1]]; cbn [snd] in Ho.
  - cbn. destruct Ho as [? Hd ? ? ?]. split; simpl; try done. lia.
  - cbn. apply inside_weaken. destruct Ho as [? Hd ? ? ?]. split; simpl; try done. lia.
Qed.

Lemma work_holds A (f : X * Sq → res A * (X * Sq)) : work A f → holds f.
Proof using.
  induction 1 as [A m Hm | A f | A B f k Hf IHf Hk IHk | A f g Hf IHf Hg IHg | A f Hf IHf]; intros z d0 ro x s Hz Hs.
  - cbn. pose proof (op_contained z d0 ro Hz A m Hm s Hs) as Hw. unfold awp in Hw. by destruct (m s) as [[a | e] s'].
  - cbn. destruct (f x). exact Hs.
  - unfold seq_then. pose proof (IHf _ _ _ x s Hz Hs) as H1. destruct (f (x, s)) as [[a | e] [y s1]]; [by apply IHk | done].
  - unfold try_with. pose proof (IHf _ _ _ x s Hz Hs) as H1. destruct (f (x, s)) as [[a | e] [y s1]]; [done | by apply IHg].
  - by apply batch_holds.
Qed.

(** A failure that crosses a nested batch is remembered, whoever catches it. *)
Lemma nested_failure {A} (f : X * Sq → res A * (X * Sq)) x s e y s' : _batch_depth s ≠ 0 →
  batch f (x, s) = (Raise e, (y, s')) → _rollback_only s' = true.
Proof using.
  intros Hd. unfold batch. rewrite (proj2 (Z.eqb_neq _ _)) by done.
  destruct (f (x, batch_enter s)) as [[a | e'] [y1 s1]]; cbn; [done |]. by intros [= _ _ <-].
Qed.

End batches.

(** A body that catches the failure of the batch it nests: the outer batch
    refuses to commit what is left. *)
Definition demo_body : unit * Sq → res unit * (unit * Sq) :=
  seq_then (with_store (put_out_message (sample 1))) (λ _,
  seq_then (try_with (batch (with_store (put_out_message (sample 2)))) (λ _ '(x, s), (Ok tt, (x, s)))) (λ _,
  with_store (put_out_message (sample 3)))).
Definition demo_store (faults : list event) : Sq :=
  set_conn (mkConn (disk (_conn fresh)) None faults false) fresh.

Lemma demo_work : work unit demo_body.
Proof.
  apply work_seq; [apply work_op, op_put_out |]. intros _. apply work_seq; [| intros _; apply work_op, op_put_out].
  apply work_try; [apply work_batch, work_op, op_put_out |]. intros _. apply (work_data unit (λ x, (Ok tt, x))).
Qed.

Lemma demo_world : Forall honest [Calm; Calm; Fault].
Proof. repeat (apply Forall_cons_2; [unfold honest; auto |]). apply Forall_nil_2. Qed.

Definition demo_run (faults : list event) := batch demo_body (tt, demo_store faults).

Lemma demo_eta faults : batch demo_body (tt, demo_store faults) = ((demo_run faults).1, ((demo_run faults).2.1, (demo_run faults).2.2)).
Proof. unfold demo_run. by destruct (batch demo_body (tt, demo_store faults)) as [r [x s]]. Qed.


(** A statement that fails out of a batch leaves the transaction opened for it.
    From then on every batch that writes is refused, until a write out of a batch
    commits. *)
Example stuck_transaction :
  let s := (put_out_message (sample 1) (demo_store [Fault])).2 in
  tx (_conn s) ≠ None ∧
  (let '(r, (_, s')) := batch (with_store (put_out_message (sample 2))) (tt, s) in
   r = Raise StoreError ∧ tx (_conn s') ≠ None) ∧
  is_ok (put_out_message (sample 3) s).1 = true.
Proof. vm_compute. done. Qed.

(** SQLite may roll the transaction back when a statement fails.  A body that
    catches such a failure goes on in a new transaction: only the end of its work
    is committed. *)
Example lost_beginning :
  let f := seq_then (with_store (put_out_message (sample 1))) (λ _,
           seq_then (try_with (with_store (put_out_message (sample 2))) (λ _ x, (Ok tt, x))) (λ _,
           with_store (put_out_message (sample 3)))) in
  let '(r, (_, s')) := batch f (tt, demo_store [Calm; Calm; FaultRollback]) in
  (r, dkeys (outbound_t (disk (_conn s')))) = (Ok tt, [3]).
Proof. vm_compute. reflexivity. Qed.
