(* ===== verification/SqliteShared.v ===== *)
(** * A file shared with other connections

    The conditional transitions of the SQLite store read a row and then write
    under a condition that repeats what they read; whatever other connections
    commit in between, they settle the row they read or none. *)

From S2P Require Import Prelude PyStr Enums Properties Types Handshake Store StoreIn Json Sqlite SqliteLaws SqliteOut.

(** ** Other connections *)

(** The databases that are committed at some point of the run. *)
Definition commits (c : Conn) : list Db :=
  disk c :: omap (λ ev, match ev with Other d => Some d | _ => None end) (world c).

Lemma next_event_commits c c1 : tx c = None → next_event c = (Calm, c1) →
  tx c1 = None ∧ disk c1 ∈ commits c ∧ commits c1 ⊆ commits c.
Proof.
  destruct c as [k t w o]. simpl. intros ->. unfold next_event, commits. destruct w as [| [] w]; simpl; intros [= <-]; simpl;
    (split_and!; [done | | ]); set_solver.
Qed.

Lemma conn_call_ok {A} pre (f : Conn → res A * Conn) c a c' : conn_call pre f c = (Ok a, c') →
  ∃ c1, next_event c = (Calm, c1) ∧ f (pre c1) = (Ok a, c').
Proof.
  unfold conn_call. destruct (conn_closed c); [done |]. destruct (next_event c) as [[] c1] eqn:E; try done; [by exists c1 |].
  exfalso. clear - E. unfold next_event in E. destruct c as [k t [| [] w] o]; simpl in E; congruence.
Qed.

(** A query out of a transaction sees what is committed at its time, and a
    statement changes what is committed at its own. *)
Lemma raced_query {A} args (q : Db → A) c a c1 : tx c = None → conn_query args q c = (Ok a, c1) →
  tx c1 = None ∧ commits c1 ⊆ commits c ∧ ∃ d, d ∈ commits c ∧ a = q d.
Proof.
  intros Ht H. apply conn_call_ok in H as (c2 & Hn & H). destruct (next_event_commits c c2 Ht Hn) as (Ht2 & Hd & Hsub).
  cbn in H. destruct (bind_all args) as [[] | x]; [| done]. injection H as <- <-. split_and!; [done | done |].
  exists (disk c2). split; [done |]. unfold db. by rewrite Ht2.
Qed.

Lemma raced_dml {A} args (f : Db → A * Db) c a c1 : tx c = None → conn_dml args f c = (Ok a, c1) →
  ∃ d, d ∈ commits c ∧ a = (f d).1 ∧ tx c1 = Some (f d).2.
Proof.
  intros Ht H. apply conn_call_ok in H as (c2 & Hn & H). destruct (next_event_commits c c2 Ht Hn) as (Ht2 & Hd & _).
  destruct (bind_all args) as [[] | x]; [| done]. unfold begin_implicit in H. rewrite Ht2 in H. cbn in H.
  exists (disk c2). destruct (f (disk c2)) as [a' d']. by injection H as <- <-.
Qed.

Lemma raced_commit s s' d : tx (_conn s) = Some d → _commit s = (Ok tt, s') → disk (_conn s') = d ∧ tx (_conn s') = None.
Proof.
  intros Ht H. unfold _commit, conn_do, conn_commit in H. rewrite Ht in H.
  destruct (conn_call id _ (_conn s)) as [[[] | x] c1] eqn:E.
  - injection H as <-. apply conn_call_ok in E as (c2 & Hn & E). injection E as <-. simpl. split; [| done].
    assert (tx c2 = Some d) as E2; [| unfold db; simpl; by rewrite E2].
    unfold next_event in Hn. destruct (_conn s) as [k t w o]. simpl in Ht, Hn. subst t.
    destruct w as [| [] w]; simpl in Hn; try discriminate Hn; by injection Hn as <-.
  - exfalso. revert H. unfold mbind, act_bind. destruct (_rollback_or_close _) as [[[] | y] s2]; done.
Qed.

Lemma act_bind_ok {A B} (m : act A) (k : A → act B) s b s' :
  (m ≫= k) s = (Ok b, s') → ∃ a s1, m s = (Ok a, s1) ∧ k a s1 = (Ok b, s').
Proof. unfold mbind, act_bind. destruct (m s) as [[a | x] s1]; [eauto | done]. Qed.

(** Out of a batch: a read, then a write guarded by what was read. *)
Lemma raced_write {A B} args (f : Db → A * Db) (k : A → B) s b s' :
  _batch_depth s = 0 → tx (_conn s) = None →
  (_ensure_write_transaction;; a ← conn_do (conn_dml args f); _commit_if_needed;; mret (k a)) s = (Ok b, s') →
  ∃ d, d ∈ commits (_conn s) ∧ b = k (f d).1 ∧ disk (_conn s') = (f d).2 ∧ tx (_conn s') = None.
Proof.
  intros Hd Ht H. apply act_bind_ok in H as ([] & s1 & H1 & H).
  assert (s1 = s) as ->.
  { unfold _ensure_write_transaction in H1. apply act_bind_ok in H1 as (s2 & s3 & H2 & H3). injection H2 as <- <-.
    rewrite Hd in H3. by injection H3 as <-. }
  apply act_bind_ok in H as (a & s2 & H2 & H). unfold conn_do in H2.
  destruct (conn_dml args f (_conn s)) as [[a' | x] c1] eqn:E; [| done]. injection H2 as -> <-.
  apply raced_dml in E as (d & Hin & -> & Ht1); [| done]. exists d. split; [done |].
  apply act_bind_ok in H as ([] & s3 & H3 & H). injection H as <- <-.
  unfold _commit_if_needed in H3. apply act_bind_ok in H3 as (s4 & s5 & H4 & H5). injection H4 as <- <-.
  cbn [_batch_depth set_conn] in H5. rewrite Hd in H5. cbn [Z.eqb] in H5.
  apply (raced_commit _ _ (f d).2) in H5 as [Hk Ht2]; done.
Qed.

(** A conditional transition settles the row it read and no other.  Other
    connections may commit anything to the file between the read and the write of
    [complete_out] (out of a batch, calls failing or not): if it reports the
    record as completed, then the row it deleted, in the database [d_w] committed
    at that moment, has the expected state and the insertion sequence of the row
    it had read, so it is not a later publication under the same identifier; and
    nothing else of [d_w] has changed.  If it reports nothing, it changed
    nothing. *)
Theorem complete_out_exact mid st s o s' :
  _batch_depth s = 0 → tx (_conn s) = None → complete_out_row mid st s = (Ok o, s') →
  tx (_conn s') = None ∧
  match o with
  | Some x => ∃ d_r d_w row n, d_r ∈ commits (_conn s) ∧ d_w ∈ commits (_conn s) ∧
      (dget mid (outbound_t d_r) = Some row ∧ ro_state row = SInt (Out_int st) ∧ ro_seq row = SInt n ∧
         ro_logical_size row = SInt (om_logical_size x)) ∧
      (∃ now, dget mid (outbound_t d_w) = Some now ∧ ro_state now = SInt (Out_int st) ∧ ro_seq now = SInt n) ∧
      disk (_conn s') = with_outbound (ddel mid (outbound_t d_w)) d_w
  | None => disk (_conn s') ∈ commits (_conn s)
  end.
Proof.
  intros Hd Ht H. unfold complete_out_row in H. apply act_bind_ok in H as (found & s1 & H1 & H).
  assert (∃ row, get_out_row mid s = (Ok row, s1) ∧ (row = None ∧ found = None ∨
    ∃ r x, row = Some r ∧ found = Some x ∧ _stored_out_transition r = Ok x)) as (row & Hrow & Hfound).
  { unfold out_transition in H1. apply act_bind_ok in H1 as (row & s2 & H2 & H3). exists row.
    destruct row as [r |]; [| injection H3 as <- <-; eauto]. apply act_bind_ok in H3 as (x & s3 & H3 & H4).
    injection H3 as E <-. injection H4 as <- <-. eauto 10. }
  unfold get_out_row, conn_do in Hrow. destruct (conn_query _ _ (_conn s)) as [[row' | x] c1] eqn:E; [| done].
  injection Hrow as -> <-. apply raced_query in E as (Ht1 & Hsub & d_r & Hdr & ->); [| done].
  assert (Hdisk : disk c1 ∈ commits (_conn s)) by (apply Hsub; unfold commits; left).
  destruct Hfound as [(Hr & ->) | (r & [[st' n] q] & Hr & -> & Hx)]; [by injection H as <- <- |].
  apply out_transition_inv in Hx as (Hst & Hn & Hq). destruct (negb (bool_decide (st' = st))) eqn:E; [by injection H as <- <- |].
  bools. subst st'. apply raced_write in H as (d_w & Hdw & -> & Hk & Ht2); [| done | done]. split; [done |].
  apply Hsub in Hdw. unfold remove_out in *. destruct (dget mid (outbound_t d_w)) as [now |] eqn:Eg; [| by rewrite Hk].
  destruct (out_hit st q now) eqn:Eh; cbn [negb fst snd] in *; [| by rewrite Hk]. cbn.
  unfold out_hit in Eh. bools. exists d_r, d_w, r, q. split_and!; eauto.
Qed.

(** Another connection deletes the publication under 7 and stores a new one. *)
Definition replaced : Db := disk (_conn (put_out_message (sample 7) (delete_out_row 7 (put_out_message (sample 7) fresh).2).2).2).
Definition raced_store (w : list event) : Sq :=
  set_conn (mkConn (disk (_conn (put_out_message (sample 7) fresh).2)) None w false) fresh.
Definition raced (w : list event) : res (option OutboundRecordMeta) * Sq := complete_out_row 7 QUEUED (raced_store w).

Lemma complete_out_exact_witness :
  ((raced [Calm; Other replaced]).1 = Ok None ∧ tx (_conn (raced [Calm; Other replaced]).2) = None ∧
     disk (_conn (raced [Calm; Other replaced]).2) = replaced) ∧
  ∃ x, (raced []).1 = Ok (Some x) ∧ ∃ d, disk (_conn (raced []).2) = with_outbound (ddel 7 (outbound_t d)) d.
Proof.
  split.
  - assert (E : (raced [Calm; Other replaced]).1 = Ok None) by (vm_compute; reflexivity). split; [exact E |].
    split; [| vm_compute; reflexivity].
    refine (proj1 (complete_out_exact 7 QUEUED (raced_store [Calm; Other replaced]) None (raced [Calm; Other replaced]).2 eq_refl eq_refl _)).
    rewrite <- E. apply surjective_pairing.
  - eexists. split; [vm_compute; reflexivity |].
    destruct (complete_out_exact 7 QUEUED (raced_store []) (Some {| om_mid := 7; om_state := QUEUED; om_logical_size := 10 |}) (raced []).2
      eq_refl eq_refl ltac:(transitivity ((raced []).1, (raced []).2); [apply surjective_pairing | vm_compute; reflexivity]))
      as (_ & d_r & d_w & _ & _ & _ & _ & _ & _ & Hd). by exists d_w.
Defined.
