(* ===== verification/EngineState.v ===== *)
(** * Engine state, effects and the session monad
    ([src/mqttium/protocol/engine.py], [src/mqttium/protocol/effects.py])

    The protocol engine and its sessions mutate one shared state and may raise
    after having changed it.  A method is a function from the engine state to a
    result and the state it leaves, also when it raises. *)

From S2P Require Import Prelude Vbi PyStr Primitives Enums Properties Topics Types Frame Ack Publish Handshake.
From S2P Require Import Subscription Buffer PacketIds Settings Store.

(** ** Effects *)

Module Effect.
Inductive t :=
  | SEND (packet : WriteItem)
  | MESSAGE (message : Message) (requires_delivery_mark : bool) (decoded_property_wire_size : option Z)
      (exchange_token : option Z)
  | DECODED_MESSAGE (message : Message) (requires_delivery_mark : bool) (decoded_property_wire_size : option Z)
      (exchange_token : option Z)
  | CONNACK (connack : ConnAckPacket)
  | PUBLISH_COMPLETE (mid : option Z)
  | PUBLISH_FAILED (mid : Z) (reason : exn)
  | SUBACK (packet : suback_fields)
  | UNSUBACK (packet : suback_fields)
  | DISCONNECTED (reason_code : Z) (properties : option propmap) (from_broker : bool)
  | PROTOCOL_ERROR (e : exn)
  | PINGRESP
  | AUTH (reason_code : Z) (properties : option propmap) (exchange_token : option Z)
  | CONTINUE_INBOUND_REPLAY
  | SEND_ACK (packet : bytes).
End Effect.

(** ** State *)

(** An entry of [_queued]: a message object, or the payload-free summary of a
    stored row. *)
Inductive qitem := QObj (l : loc) | QSummary (s : OutboundMessageSummary).

(** The state of [OutboundSession]. *)
Record OutboundSession := mkOutbound {
  packet_ids : PacketIdPool;
  flow : FlowControl.t;
  _queued : list qitem;
  _parked : gset Z;
  _sealed : list (Z * bool);
  _pending_messages : Z;
  _pending_bytes : Z;
  _pending_high_water_messages : Z;
  _pending_high_water_bytes : Z;
  _topic_aliases : gmap Z pystr }.

(** The state of [InboundSession].  An exchange token is an [object()] compared by
    identity: a number drawn from [_next_token]. *)
Module Inb.
Record InboundReplayCursor := mkCursor {
  _pages : replay_gen;
  _page_messages : option (list loc);
  _pending : option loc;
  _remaining : Z }.

Record InboundSession := mkInbound {
  _aliases : gmap Z pystr;
  _topic_alias_maximum : Z;
  _receive_maximum : Z;
  _current_persisted_mids : gset Z;
  _exchange_tokens : gmap Z Z;
  _pending_completions : gmap Z In.InboundQoSState;
  _autoack_handoff_required : bool;
  _pending_auto_qos1_mids : gset Z;
  _pending_pubcomps : gset Z;
  _pending_pubcomp_slots : Z;
  _pending_manual_qos1_acks : gset Z;
  _manual_qos1_order : list Z;
  _pending_bytes : Z;
  _pending_high_water_bytes : Z;
  _recovered_mids : gset Z;
  _replay : option InboundReplayCursor;
  _stored_inbound : Z;
  _next_token : Z }.

(** Attribute assignments. *)
Definition set_aliases (d : gmap Z pystr) (i : InboundSession) : InboundSession :=
  mkInbound d (_topic_alias_maximum i) (_receive_maximum i) (_current_persisted_mids i) (_exchange_tokens i)
    (_pending_completions i) (_autoack_handoff_required i) (_pending_auto_qos1_mids i) (_pending_pubcomps i)
    (_pending_pubcomp_slots i) (_pending_manual_qos1_acks i) (_manual_qos1_order i) (_pending_bytes i)
    (_pending_high_water_bytes i) (_recovered_mids i) (_replay i) (_stored_inbound i) (_next_token i).
Definition set_current (mids : gset Z) (i : InboundSession) : InboundSession :=
  mkInbound (_aliases i) (_topic_alias_maximum i) (_receive_maximum i) mids (_exchange_tokens i)
    (_pending_completions i) (_autoack_handoff_required i) (_pending_auto_qos1_mids i) (_pending_pubcomps i)
    (_pending_pubcomp_slots i) (_pending_manual_qos1_acks i) (_manual_qos1_order i) (_pending_bytes i)
    (_pending_high_water_bytes i) (_recovered_mids i) (_replay i) (_stored_inbound i) (_next_token i).
Definition set_tokens (d : gmap Z Z) (i : InboundSession) : InboundSession :=
  mkInbound (_aliases i) (_topic_alias_maximum i) (_receive_maximum i) (_current_persisted_mids i) d
    (_pending_completions i) (_autoack_handoff_required i) (_pending_auto_qos1_mids i) (_pending_pubcomps i)
    (_pending_pubcomp_slots i) (_pending_manual_qos1_acks i) (_manual_qos1_order i) (_pending_bytes i)
    (_pending_high_water_bytes i) (_recovered_mids i) (_replay i) (_stored_inbound i) (_next_token i).
Definition set_completions (d : gmap Z In.InboundQoSState) (i : InboundSession) : InboundSession :=
  mkInbound (_aliases i) (_topic_alias_maximum i) (_receive_maximum i) (_current_persisted_mids i)
    (_exchange_tokens i) d (_autoack_handoff_required i) (_pending_auto_qos1_mids i) (_pending_pubcomps i)
    (_pending_pubcomp_slots i) (_pending_manual_qos1_acks i) (_manual_qos1_order i) (_pending_bytes i)
    (_pending_high_water_bytes i) (_recovered_mids i) (_replay i) (_stored_inbound i) (_next_token i).
Definition set_handoff (b : bool) (i : InboundSession) : InboundSession :=
  mkInbound (_aliases i) (_topic_alias_maximum i) (_receive_maximum i) (_current_persisted_mids i)
    (_exchange_tokens i) (_pending_completions i) b (_pending_auto_qos1_mids i) (_pending_pubcomps i)
    (_pending_pubcomp_slots i) (_pending_manual_qos1_acks i) (_manual_qos1_order i) (_pending_bytes i)
    (_pending_high_water_bytes i) (_recovered_mids i) (_replay i) (_stored_inbound i) (_next_token i).
Definition set_auto (mids : gset Z) (i : InboundSession) : InboundSession :=
  mkInbound (_aliases i) (_topic_alias_maximum i) (_receive_maximum i) (_current_persisted_mids i)
    (_exchange_tokens i) (_pending_completions i) (_autoack_handoff_required i) mids (_pending_pubcomps i)
    (_pending_pubcomp_slots i) (_pending_manual_qos1_acks i) (_manual_qos1_order i) (_pending_bytes i)
    (_pending_high_water_bytes i) (_recovered_mids i) (_replay i) (_stored_inbound i) (_next_token i).
Definition set_pubcomps (mids : gset Z) (slots : Z) (i : InboundSession) : InboundSession :=
  mkInbound (_aliases i) (_topic_alias_maximum i) (_receive_maximum i) (_current_persisted_mids i)
    (_exchange_tokens i) (_pending_completions i) (_autoack_handoff_required i) (_pending_auto_qos1_mids i) mids
    slots (_pending_manual_qos1_acks i) (_manual_qos1_order i) (_pending_bytes i) (_pending_high_water_bytes i)
    (_recovered_mids i) (_replay i) (_stored_inbound i) (_next_token i).
Definition set_manual_acks (mids : gset Z) (i : InboundSession) : InboundSession :=
  mkInbound (_aliases i) (_topic_alias_maximum i) (_receive_maximum i) (_current_persisted_mids i)
    (_exchange_tokens i) (_pending_completions i) (_autoack_handoff_required i) (_pending_auto_qos1_mids i)
    (_pending_pubcomps i) (_pending_pubcomp_slots i) mids (_manual_qos1_order i) (_pending_bytes i)
    (_pending_high_water_bytes i) (_recovered_mids i) (_replay i) (_stored_inbound i) (_next_token i).
Definition set_order (mids : list Z) (i : InboundSession) : InboundSession :=
  mkInbound (_aliases i) (_topic_alias_maximum i) (_receive_maximum i) (_current_persisted_mids i)
    (_exchange_tokens i) (_pending_completions i) (_autoack_handoff_required i) (_pending_auto_qos1_mids i)
    (_pending_pubcomps i) (_pending_pubcomp_slots i) (_pending_manual_qos1_acks i) mids (_pending_bytes i)
    (_pending_high_water_bytes i) (_recovered_mids i) (_replay i) (_stored_inbound i) (_next_token i).
Definition set_bytes (n : Z) (i : InboundSession) : InboundSession :=
  mkInbound (_aliases i) (_topic_alias_maximum i) (_receive_maximum i) (_current_persisted_mids i)
    (_exchange_tokens i) (_pending_completions i) (_autoack_handoff_required i) (_pending_auto_qos1_mids i)
    (_pending_pubcomps i) (_pending_pubcomp_slots i) (_pending_manual_qos1_acks i) (_manual_qos1_order i) n
    (_pending_high_water_bytes i) (_recovered_mids i) (_replay i) (_stored_inbound i) (_next_token i).
Definition set_high_water (n : Z) (i : InboundSession) : InboundSession :=
  mkInbound (_aliases i) (_topic_alias_maximum i) (_receive_maximum i) (_current_persisted_mids i)
    (_exchange_tokens i) (_pending_completions i) (_autoack_handoff_required i) (_pending_auto_qos1_mids i)
    (_pending_pubcomps i) (_pending_pubcomp_slots i) (_pending_manual_qos1_acks i) (_manual_qos1_order i)
    (_pending_bytes i) n (_recovered_mids i) (_replay i) (_stored_inbound i) (_next_token i).
Definition set_recovered (mids : gset Z) (i : InboundSession) : InboundSession :=
  mkInbound (_aliases i) (_topic_alias_maximum i) (_receive_maximum i) (_current_persisted_mids i)
    (_exchange_tokens i) (_pending_completions i) (_autoack_handoff_required i) (_pending_auto_qos1_mids i)
    (_pending_pubcomps i) (_pending_pubcomp_slots i) (_pending_manual_qos1_acks i) (_manual_qos1_order i)
    (_pending_bytes i) (_pending_high_water_bytes i) mids (_replay i) (_stored_inbound i) (_next_token i).
Definition set_replay (r : option InboundReplayCursor) (i : InboundSession) : InboundSession :=
  mkInbound (_aliases i) (_topic_alias_maximum i) (_receive_maximum i) (_current_persisted_mids i)
    (_exchange_tokens i) (_pending_completions i) (_autoack_handoff_required i) (_pending_auto_qos1_mids i)
    (_pending_pubcomps i) (_pending_pubcomp_slots i) (_pending_manual_qos1_acks i) (_manual_qos1_order i)
    (_pending_bytes i) (_pending_high_water_bytes i) (_recovered_mids i) r (_stored_inbound i) (_next_token i).
Definition set_stored (n : Z) (i : InboundSession) : InboundSession :=
  mkInbound (_aliases i) (_topic_alias_maximum i) (_receive_maximum i) (_current_persisted_mids i)
    (_exchange_tokens i) (_pending_completions i) (_autoack_handoff_required i) (_pending_auto_qos1_mids i)
    (_pending_pubcomps i) (_pending_pubcomp_slots i) (_pending_manual_qos1_acks i) (_manual_qos1_order i)
    (_pending_bytes i) (_pending_high_water_bytes i) (_recovered_mids i) (_replay i) n (_next_token i).
Definition set_next_token (n : Z) (i : InboundSession) : InboundSession :=
  mkInbound (_aliases i) (_topic_alias_maximum i) (_receive_maximum i) (_current_persisted_mids i)
    (_exchange_tokens i) (_pending_completions i) (_autoack_handoff_required i) (_pending_auto_qos1_mids i)
    (_pending_pubcomps i) (_pending_pubcomp_slots i) (_pending_manual_qos1_acks i) (_manual_qos1_order i)
    (_pending_bytes i) (_pending_high_water_bytes i) (_recovered_mids i) (_replay i) (_stored_inbound i) n.
Definition set_limits (receive_maximum topic_alias_maximum : Z) (i : InboundSession) : InboundSession :=
  mkInbound (_aliases i) topic_alias_maximum receive_maximum (_current_persisted_mids i) (_exchange_tokens i)
    (_pending_completions i) (_autoack_handoff_required i) (_pending_auto_qos1_mids i) (_pending_pubcomps i)
    (_pending_pubcomp_slots i) (_pending_manual_qos1_acks i) (_manual_qos1_order i) (_pending_bytes i)
    (_pending_high_water_bytes i) (_recovered_mids i) (_replay i) (_stored_inbound i) (_next_token i).

(** Before [InboundSession.__init__] runs. *)
Definition blank : InboundSession := mkInbound ∅ 0 0 ∅ ∅ ∅ false ∅ ∅ 0 ∅ [] 0 0 ∅ None 0 0.
End Inb.

(** The connection fields of [ProtocolEngine] the sessions do not assign. *)
Record Connection := mkConn {
  session_present : bool;
  _prefer_session_resume : bool;
  _session_client_id : option pystr;
  _sent_client_id : pystr;
  _sent_clean_start : bool;
  _sent_session_expiry_interval : option Z;
  _sent_maximum_packet_size : option Z;
  _sent_request_problem_information : Z;
  _sent_request_response_information : Z;
  _auth_method : option pystr;
  _reauth_in_progress : bool;
  _auth_challenges : Z;
  _auth_response_due : option Z }.

Record Engine (S : Type) := mkEngine {
  state : ConnectionState;
  negotiated : NegotiatedSettings;
  _effects : list Effect.t;
  _pending_sub_requests : list (Z * (PacketType * Z));
  outbound : OutboundSession;
  inbound : Inb.InboundSession;
  conn : Connection;
  heap : Heap;
  store : S }.
Arguments mkEngine {S} _ _ _ _ _ _ _ _ _.
Arguments state {S} _.
Arguments negotiated {S} _.
Arguments _effects {S} _.
Arguments _pending_sub_requests {S} _.
Arguments outbound {S} _.
Arguments inbound {S} _.
Arguments conn {S} _.
Arguments heap {S} _.
Arguments store {S} _.

(** Attribute assignments. *)
Definition set_state {S} (st : ConnectionState) (e : Engine S) : Engine S :=
  mkEngine st (negotiated e) (_effects e) (_pending_sub_requests e) (outbound e) (inbound e) (conn e) (heap e) (store e).
Definition set_negotiated {S} (n : NegotiatedSettings) (e : Engine S) : Engine S :=
  mkEngine (state e) n (_effects e) (_pending_sub_requests e) (outbound e) (inbound e) (conn e) (heap e) (store e).
Definition set_effects {S} (fx : list Effect.t) (e : Engine S) : Engine S :=
  mkEngine (state e) (negotiated e) fx (_pending_sub_requests e) (outbound e) (inbound e) (conn e) (heap e) (store e).
Definition set_pending_sub {S} (d : list (Z * (PacketType * Z))) (e : Engine S) : Engine S :=
  mkEngine (state e) (negotiated e) (_effects e) d (outbound e) (inbound e) (conn e) (heap e) (store e).
Definition set_outbound {S} (o : OutboundSession) (e : Engine S) : Engine S :=
  mkEngine (state e) (negotiated e) (_effects e) (_pending_sub_requests e) o (inbound e) (conn e) (heap e) (store e).
Definition set_inbound {S} (i : Inb.InboundSession) (e : Engine S) : Engine S :=
  mkEngine (state e) (negotiated e) (_effects e) (_pending_sub_requests e) (outbound e) i (conn e) (heap e) (store e).
Definition set_conn {S} (c : Connection) (e : Engine S) : Engine S :=
  mkEngine (state e) (negotiated e) (_effects e) (_pending_sub_requests e) (outbound e) (inbound e) c (heap e) (store e).
Definition set_heap {S} (h : Heap) (e : Engine S) : Engine S :=
  mkEngine (state e) (negotiated e) (_effects e) (_pending_sub_requests e) (outbound e) (inbound e) (conn e) h (store e).
Definition set_heap_store {S} (hs : Heap * S) (e : Engine S) : Engine S :=
  mkEngine (state e) (negotiated e) (_effects e) (_pending_sub_requests e) (outbound e) (inbound e) (conn e) hs.1 hs.2.

Definition set_packet_ids (p : PacketIdPool) (o : OutboundSession) : OutboundSession :=
  mkOutbound p (flow o) (_queued o) (_parked o) (_sealed o) (_pending_messages o) (_pending_bytes o)
    (_pending_high_water_messages o) (_pending_high_water_bytes o) (_topic_aliases o).
Definition set_flow (f : FlowControl.t) (o : OutboundSession) : OutboundSession :=
  mkOutbound (packet_ids o) f (_queued o) (_parked o) (_sealed o) (_pending_messages o) (_pending_bytes o)
    (_pending_high_water_messages o) (_pending_high_water_bytes o) (_topic_aliases o).
Definition set_queued (q : list qitem) (o : OutboundSession) : OutboundSession :=
  mkOutbound (packet_ids o) (flow o) q (_parked o) (_sealed o) (_pending_messages o) (_pending_bytes o)
    (_pending_high_water_messages o) (_pending_high_water_bytes o) (_topic_aliases o).
Definition set_parked (p : gset Z) (o : OutboundSession) : OutboundSession :=
  mkOutbound (packet_ids o) (flow o) (_queued o) p (_sealed o) (_pending_messages o) (_pending_bytes o)
    (_pending_high_water_messages o) (_pending_high_water_bytes o) (_topic_aliases o).
Definition set_sealed (d : list (Z * bool)) (o : OutboundSession) : OutboundSession :=
  mkOutbound (packet_ids o) (flow o) (_queued o) (_parked o) d (_pending_messages o) (_pending_bytes o)
    (_pending_high_water_messages o) (_pending_high_water_bytes o) (_topic_aliases o).
Definition set_pending (messages bytes : Z) (o : OutboundSession) : OutboundSession :=
  mkOutbound (packet_ids o) (flow o) (_queued o) (_parked o) (_sealed o) messages bytes
    (_pending_high_water_messages o) (_pending_high_water_bytes o) (_topic_aliases o).
Definition set_high_water (messages bytes : Z) (o : OutboundSession) : OutboundSession :=
  mkOutbound (packet_ids o) (flow o) (_queued o) (_parked o) (_sealed o) (_pending_messages o) (_pending_bytes o)
    messages bytes (_topic_aliases o).
Definition set_topic_aliases (d : gmap Z pystr) (o : OutboundSession) : OutboundSession :=
  mkOutbound (packet_ids o) (flow o) (_queued o) (_parked o) (_sealed o) (_pending_messages o) (_pending_bytes o)
    (_pending_high_water_messages o) (_pending_high_water_bytes o) d.

Definition set_session_present (b : bool) (c : Connection) : Connection :=
  mkConn b (_prefer_session_resume c) (_session_client_id c) (_sent_client_id c) (_sent_clean_start c)
    (_sent_session_expiry_interval c) (_sent_maximum_packet_size c) (_sent_request_problem_information c)
    (_sent_request_response_information c) (_auth_method c) (_reauth_in_progress c) (_auth_challenges c)
    (_auth_response_due c).
Definition set_prefer_resume (b : bool) (c : Connection) : Connection :=
  mkConn (session_present c) b (_session_client_id c) (_sent_client_id c) (_sent_clean_start c)
    (_sent_session_expiry_interval c) (_sent_maximum_packet_size c) (_sent_request_problem_information c)
    (_sent_request_response_information c) (_auth_method c) (_reauth_in_progress c) (_auth_challenges c)
    (_auth_response_due c).
Definition set_session_client_id (id : option pystr) (c : Connection) : Connection :=
  mkConn (session_present c) (_prefer_session_resume c) id (_sent_client_id c) (_sent_clean_start c)
    (_sent_session_expiry_interval c) (_sent_maximum_packet_size c) (_sent_request_problem_information c)
    (_sent_request_response_information c) (_auth_method c) (_reauth_in_progress c) (_auth_challenges c)
    (_auth_response_due c).
Definition set_auth_exchange (in_progress : bool) (due : option Z) (c : Connection) : Connection :=
  mkConn (session_present c) (_prefer_session_resume c) (_session_client_id c) (_sent_client_id c)
    (_sent_clean_start c) (_sent_session_expiry_interval c) (_sent_maximum_packet_size c)
    (_sent_request_problem_information c) (_sent_request_response_information c) (_auth_method c) in_progress
    (_auth_challenges c) due.
Definition set_auth_challenges (n : Z) (c : Connection) : Connection :=
  mkConn (session_present c) (_prefer_session_resume c) (_session_client_id c) (_sent_client_id c)
    (_sent_clean_start c) (_sent_session_expiry_interval c) (_sent_maximum_packet_size c)
    (_sent_request_problem_information c) (_sent_request_response_information c) (_auth_method c)
    (_reauth_in_progress c) n (_auth_response_due c).

Definition set_request_problem (n : Z) (c : Connection) : Connection :=
  mkConn (session_present c) (_prefer_session_resume c) (_session_client_id c) (_sent_client_id c)
    (_sent_clean_start c) (_sent_session_expiry_interval c) (_sent_maximum_packet_size c) n
    (_sent_request_response_information c) (_auth_method c) (_reauth_in_progress c) (_auth_challenges c)
    (_auth_response_due c).
Definition set_request_response (n : Z) (c : Connection) : Connection :=
  mkConn (session_present c) (_prefer_session_resume c) (_session_client_id c) (_sent_client_id c)
    (_sent_clean_start c) (_sent_session_expiry_interval c) (_sent_maximum_packet_size c)
    (_sent_request_problem_information c) n (_auth_method c) (_reauth_in_progress c) (_auth_challenges c)
    (_auth_response_due c).

(** ** The monad *)

Definition M (S A : Type) := Engine S → res A * Engine S.

#[export] Instance M_ret {S} : MRet (M S) := λ A a e, (Ok a, e).
#[export] Instance M_bind {S} : MBind (M S) := λ A B k m e,
  match m e with
  | (Ok a, e) => k a e
  | (Raise x, e) => (Raise x, e)
  end.

Section monad.
Context {S : Type}.

Definition raise {A} (x : exn) : M S A := λ e, (Raise x, e).
Definition lift {A} (r : res A) : M S A := λ e, (r, e).
Definition gets {A} (f : Engine S → A) : M S A := λ e, (Ok (f e), e).
Definition modify (f : Engine S → Engine S) : M S unit := λ e, (Ok tt, f e).
Definition out_modify (f : OutboundSession → OutboundSession) : M S unit :=
  modify (λ e, set_outbound (f (outbound e)) e).
Definition conn_modify (f : Connection → Connection) : M S unit :=
  modify (λ e, set_conn (f (conn e)) e).
Definition in_modify (f : Inb.InboundSession → Inb.InboundSession) : M S unit :=
  modify (λ e, set_inbound (f (inbound e)) e).

(** [try: m except Exception as x: h x]. *)
Definition try_except {A} (m : M S A) (h : exn → M S A) : M S A := λ e,
  match m e with
  | (Ok a, e) => (Ok a, e)
  | (Raise x, e) => h x e
  end.

(** A call of the store. *)
Definition call {A} (f : sop S A) : M S A := λ e,
  let '(r, hs) := f (heap e, store e) in (r, set_heap_store hs e).

(** [if c: m]. *)
Definition only_if (c : bool) (m : M S unit) : M S unit := if c then m else mret tt.

(** [for x in l: body(x)]. *)
Fixpoint for_each {A} (l : list A) (body : A → M S unit) : M S unit :=
  match l with
  | [] => mret tt
  | x :: l => body x;; for_each l body
  end.
End monad.

(** ** Emission and connection teardown ([ProtocolEngine]) *)

Section engine.
Context {S : Type} (config : EngineConfig).

Definition codec : CodecBindings := bind_codec (protocol config).

Definition _emit (fx : Effect.t) : M S unit := modify (λ e, set_effects (_effects e ++ [fx]) e).
Definition _send (packet : WriteItem) : M S unit := _emit (Effect.SEND packet).
Definition _send_ack (packet : bytes) : M S unit := _emit (Effect.SEND_ACK packet).

Definition _check_outbound_size (wire : WriteItem) : M S unit :=
  n ← gets negotiated;
  match n_maximum_packet_size n with
  | None => mret tt
  | Some limit => if item_size wire >? limit then raise PacketTooLargeError else mret tt
  end.

(** [holds_packet_ids]. *)
Definition holds_packet_ids (o : OutboundSession) : bool :=
  (_pending_messages o >? 0) || negb (bool_decide (_sealed o = [])).

Definition _release_pending_subscription_requests : M S unit :=
  subs ← gets _pending_sub_requests;
  match subs with
  | [] => mret tt
  | _ =>
      o ← gets outbound;
      (if negb (holds_packet_ids o)
       then out_modify (λ o, set_packet_ids (pool_clear (packet_ids o)) o)
       else for_each (dkeys subs) (λ mid, out_modify (λ o, set_packet_ids (release (packet_ids o) mid) o)));;
      modify (set_pending_sub [])
  end.

Definition _enter_disconnected : M S unit :=
  conn_modify (set_auth_exchange false None);;
  modify (set_state DISCONNECTED).

Definition _protocol_disconnect (reason_code : Z) : M S unit :=
  (if b_is_mqtt5 codec then
     packet ← lift (b_encode_disconnect codec reason_code None);
     fits ← try_except (_check_outbound_size (Contiguous packet);; mret true)
              (λ x, if is_packet_too_large x then mret false else raise x);
     only_if fits (_send (Contiguous packet))
   else mret tt);;
  _enter_disconnected;;
  _release_pending_subscription_requests;;
  _emit (Effect.DISCONNECTED reason_code None false).

Definition _validate_inbound_problem_information (properties : option propmap) : M S unit :=
  e ← gets id;
  if negb (b_is_mqtt5 codec) || negb (_sent_request_problem_information (conn e) =? 0)
     || negb (is_set properties)
  then mret tt
  else if negb (is_set (pget properties "reason_string")) && negb (is_set (pget properties "user_property"))
  then mret tt
  else _protocol_disconnect 0x82;; raise ProtocolError.
End engine.
