(* ===== verification/Outbound.v ===== *)
(** * Client-to-broker publication ([src/mqttium/protocol/outbound.py])

    Every operation of [OutboundSession] over an arbitrary in-flight store:
    admission, launch, acknowledgement, retransmission, sealing, hydration,
    replay and the settlement of a lost session. *)

From S2P Require Import Prelude Vbi PyStr Primitives Enums Properties Topics Frame Ack Publish Handshake.
From S2P Require Import Subscription Types Buffer PacketIds Settings Store EngineState.

Definition _retain_publish_item (item : WriteItem) : option WriteItem :=
  match item with Contiguous _ => None | Segmented _ _ => Some item end.

(** [item[0] & 0x08] decides; [bytes((item[0] | 0x08,)) + item[1:]]. *)
Definition mark_head (b : bytes) : bytes :=
  match b with
  | b0 :: rest => if Z.land b0 0x08 =? 0 then Z.lor b0 0x08 :: rest else b
  | [] => []
  end.

Definition _mark_publish_dup (item : WriteItem) : res WriteItem :=
  match item with
  | Contiguous b => let! _ := idx b 0 in Ok (Contiguous (mark_head b))
  | Segmented h p => let! _ := idx h 0 in Ok (Segmented (mark_head h) p)
  end.

Record _PreparedPublish := {
  pp_qos : QoS;
  pp_topic_bytes : option bytes;
  pp_canonical_topic : pystr;
  pp_property_bytes : option bytes;
  pp_logical_size : Z;
  pp_wire_size : option Z }.

(** A QoS 0 request completes at once; QoS 1 and 2 go on to admission. *)
Inductive publish_step := Completed (handle : option Z * QoS) | Admit (prepared : _PreparedPublish).

Record OutboundStats := {
  unacknowledged_messages : Z;
  unacknowledged_bytes : Z;
  unacknowledged_high_water_messages : Z;
  unacknowledged_high_water_bytes : Z;
  awaiting_slot : Z;
  st_inflight : Z;
  inflight_limit : Z;
  packet_ids_in_use : Z }.

(** [QoS(qos)]. *)
Definition to_QoS (qos : qos_arg) : res QoS := match qos with QLevel q => Ok q | QInt z => QoS_of z end.

(** The attributes of a queue entry, message object or summary.  (Objects are
    never deallocated: the last case does not occur.) *)
Definition no_summary : OutboundMessageSummary := mkSummary 0 [] 0 AT_MOST_ONCE false DONE false None 0.
Definition q_summary (h : Heap) (q : qitem) : OutboundMessageSummary :=
  match q with
  | QObj l => match oh h !! l with Some m => from_message m | None => no_summary end
  | QSummary s => s
  end.

(** Pages of at most [n] identifiers. *)
Fixpoint chunks {A} (fuel : nat) (n : nat) (l : list A) : list (list A) :=
  match fuel, l with
  | S fuel, _ :: _ => take n l :: chunks fuel n (drop n l)
  | _, _ => []
  end.

Section outbound.
Context {S : Type} `{OutStore S} (config : EngineConfig) (pop : gset Z → Z).

Abbreviation MS := (M S).
Abbreviation is_v5 := (b_is_mqtt5 (codec config)).

(** Reading and assigning the attributes of a message object. *)
Definition deref (l : loc) : MS OutboundMessage :=
  h ← gets heap; match oh h !! l with Some m => mret m | None => raise RuntimeError end.
Definition assign (l : loc) (f : OutboundMessage → OutboundMessage) : MS unit :=
  m ← deref l; modify (λ e, set_heap (Memory.o_write (heap e) l (f m)) e).
(** A new message object. *)
Definition new_message (m : OutboundMessage) : MS loc :=
  h ← gets heap; modify (λ e, set_heap (o_alloc (heap e) m) e);; mret (length (oh h)).

Definition summary (q : qitem) : MS OutboundMessageSummary := h ← gets heap; mret (q_summary h q).

Definition OutboundSession_init : OutboundSession :=
  mkOutbound pool_init (FlowControl.init (max_inbound_inflight config)) [] ∅ [] 0 0 0 0 ∅.

(** ** Connection-scoped Topic Alias state *)

Definition start_connection : MS unit := out_modify (set_topic_aliases ∅).
Definition transport_closed : MS unit := out_modify (set_topic_aliases ∅).

Definition commit_topic_alias (topic : pystr) (properties : option propmap) : MS unit :=
  match topic, pget properties "topic_alias" with
  | _ :: _, Some alias =>
      z ← lift (py_int alias);
      out_modify (λ o, set_topic_aliases (<[z := topic]> (_topic_aliases o)) o)
  | _, _ => mret tt
  end.

Definition _fail (mid : Z) (reason : exn) : MS unit := _emit (Effect.PUBLISH_FAILED mid reason).

(** ** Admission *)

Definition can_ever_admit (qos : qos_arg) : res bool :=
  let! level := to_QoS qos in
  match level with
  | AT_MOST_ONCE => Ok true
  | _ => Ok (match max_unacknowledged_messages config with None => true | Some n => n >=? 1 end)
  end.

Definition _reserve (logical_size : Z) : MS unit :=
  o ← gets outbound;
  if match max_unacknowledged_messages config with Some n => _pending_messages o >=? n | None => false end
  then raise FlowControlError
  else if match max_unacknowledged_bytes config with
          | Some n => (_pending_bytes o + logical_size >? n) && negb (_pending_bytes o =? 0)
          | None => false
          end
  then raise FlowControlError
  else out_modify (λ o, set_pending (_pending_messages o + 1) (_pending_bytes o + logical_size) o).

Definition _release_reservation (logical_size : Z) : MS unit :=
  o ← gets outbound;
  if _pending_messages o <=? 0 then raise AssertionError
  else if (logical_size <? 0) || (logical_size >? _pending_bytes o) then raise AssertionError
  else
    out_modify (λ o, set_high_water (Z.max (_pending_high_water_messages o) (_pending_messages o))
                       (Z.max (_pending_high_water_bytes o) (_pending_bytes o)) o);;
    out_modify (λ o, set_pending (_pending_messages o - 1) (_pending_bytes o - logical_size) o).

Definition stats (e : Engine S) : OutboundStats :=
  let o := outbound e in
  {| unacknowledged_messages := _pending_messages o;
     unacknowledged_bytes := _pending_bytes o;
     unacknowledged_high_water_messages := Z.max (_pending_high_water_messages o) (_pending_messages o);
     unacknowledged_high_water_bytes := Z.max (_pending_high_water_bytes o) (_pending_bytes o);
     awaiting_slot := len (_queued o);
     st_inflight := FlowControl.inflight (flow o);
     inflight_limit := FlowControl._limit (flow o);
     packet_ids_in_use := pool_len (packet_ids o) |}.

(** Shorthands for the calls of the flow window and of the identifier pool. *)
Definition flow_release (mid : Z) : MS unit :=
  out_modify (λ o, set_flow (FlowControl.release (flow o) mid).2 o).
Definition flow_acquire (mid : Z) : MS bool := λ e,
  let '(r, f) := FlowControl.try_acquire (flow (outbound e)) mid in (r, set_outbound (set_flow f (outbound e)) e).
Definition ids_release (mid : Z) : MS unit :=
  out_modify (λ o, set_packet_ids (release (packet_ids o) mid) o).
Definition ids_allocate : MS Z := λ e,
  let '(r, p) := allocate pop (packet_ids (outbound e)) in (r, set_outbound (set_packet_ids p (outbound e)) e).

Definition _delete_failed_admission (mid : Z) : MS bool :=
  try_except (call (delete_out mid);; mret true)
    (λ _,
      stored ← try_except (meta ← call (out_meta mid); mret (is_set meta)) (λ _, mret true);
      if negb stored then mret true
      else out_modify (λ o, set_sealed (dset mid true (_sealed o)) o);; mret false).

Definition _rollback (messages_start bytes_start : Z) (mids : list Z) : MS unit :=
  for_each mids (λ mid,
    flow_release mid;;
    free ← _delete_failed_admission mid;
    only_if free (ids_release mid));;
  out_modify (set_pending messages_start bytes_start).

(** ** Sizing *)

Definition stored_logical_size (s : OutboundMessageSummary) : res Z :=
  raise! ValueError when s_logical_size s <=? 0; Ok (s_logical_size s).

Definition logical_size_from_size (topic : pystr) (payload_size : Z) (properties : option propmap) : res Z :=
  publish_logical_size is_v5 topic payload_size properties None.
Definition logical_size (topic : pystr) (payload : bytes) (properties : option propmap) : res Z :=
  logical_size_from_size topic (len payload) properties.

Definition utf8_len (s : pystr) : res Z :=
  if isascii s then Ok (len s)
  else match utf8_encode s with Some b => Ok (len b) | None => Raise UnicodeError end.

Definition size_parts (topic : pystr) (properties : option propmap) (topic_size : option Z) :
    res (Z * Z * Z * option bytes) :=
  let! topic_size := match topic_size with Some n => Ok n | None => utf8_len topic end in
  if negb is_v5 then Ok (topic_size, 0, 0, None)
  else if negb (has_values properties) then Ok (topic_size, 1, 0, Some [0])
  else
    let! encoded := encode_properties properties cPUBLISH in
    Ok (topic_size, len encoded, len encoded, Some encoded).

Definition _publish_wire_size_from_parts (topic_bytes wire_property_bytes payload_size : Z) (qos : QoS) : res Z :=
  let remaining := 2 + topic_bytes + (if truthy qos then 2 else 0) + wire_property_bytes + payload_size in
  raise! PacketTooLargeError when remaining >? MAX_VBI;
  let! n := vbi_len remaining in
  Ok (1 + n + remaining).

Definition publish_wire_size (topic : pystr) (payload_size : Z) (qos : qos_arg) (properties : option propmap) :
    res Z :=
  let! level := to_QoS qos in
  let! '(topic_bytes, wire_property_bytes, _, _) := size_parts topic properties None in
  _publish_wire_size_from_parts topic_bytes wire_property_bytes payload_size level.

Definition _check_publish_wire_size (topic_bytes wire_property_bytes payload_size : Z) (qos : QoS)
    (include_wire_size : bool) : MS (option Z) :=
  n ← gets negotiated;
  let limit := n_maximum_packet_size n in
  if negb (is_set limit) && negb include_wire_size then mret None
  else
    encoded_size ← lift (_publish_wire_size_from_parts topic_bytes wire_property_bytes payload_size qos);
    match limit with
    | Some l => if encoded_size >? l then raise PacketTooLargeError else mret (Some encoded_size)
    | None => mret (Some encoded_size)
    end.

Definition _check_publish_size (topic : pystr) (payload_size : Z) (qos : QoS) (properties : option propmap) : MS unit :=
  '(topic_bytes, wire_property_bytes, _, _) ← lift (size_parts topic properties None);
  _check_publish_wire_size topic_bytes wire_property_bytes payload_size qos false;;
  mret tt.

(** ** Validation of a request *)

Definition connected (e : Engine S) : bool := bool_decide (state e = CONNECTED).

Definition _resolve_outbound_alias (topic : pystr) (alias : Z) : MS pystr :=
  if alias =? 0 then raise ProtocolError
  else
    match topic with
    | _ :: _ => mret topic
    | [] =>
        e ← gets id;
        if negb (connected e) then raise ProtocolError
        else if alias >? n_topic_alias_maximum (negotiated e) then raise ProtocolError
        else
          match _topic_aliases (outbound e) !! alias with
          | Some (c :: topic) => mret (c :: topic)
          | _ => raise ProtocolError
          end
    end.

Definition _prepare_publish_request (topic : pystr) (payload : bytes) (qos : qos_arg) (retain : bool)
    (properties : option propmap) (include_wire_size : bool) : MS _PreparedPublish :=
  level ← lift (to_QoS qos);
  e ← gets id;
  '(alias, canonical_topic) ←
    match properties with
    | None => mret (None, topic)
    | Some _ =>
        if negb is_v5 && has_values properties then raise ProtocolError
        else if is_v5 && is_set (pget properties "subscription_identifier") then raise ProtocolError
        else
          (if truthy level && is_v5 then lift (validate_payload_format payload properties) else mret tt);;
          match (if is_v5 then pget properties "topic_alias" else None) with
          | Some alias_value =>
              alias ← lift (py_int alias_value);
              canonical_topic ← _resolve_outbound_alias topic alias;
              mret (Some alias, canonical_topic)
          | None => mret (None, topic)
          end
    end;
  let allow_empty := is_set alias && bool_decide (topic = []) in
  '(topic_bytes, topic_size) ←
    (if negb (truthy level) || (connected e && (FlowControl.available (flow (outbound e)) >? 0)) then
       topic_bytes ← lift (encode_validated_publish_topic topic allow_empty);
       mret (Some topic_bytes, len topic_bytes)
     else
       topic_size ← lift (validate_publish_topic topic allow_empty);
       mret (None, topic_size));
  (if connected e then
     let n := negotiated e in
     if QoS_int level >? n_maximum_qos n then raise ProtocolError
     else if retain && negb (n_retain_available n) then raise ProtocolError
     else if match alias with Some a => a >? n_topic_alias_maximum n | None => false end then raise ProtocolError
     else mret tt
   else mret tt);;
  if negb (connected e) && negb (truthy level) then raise NotConnectedError
  else if negb (truthy level) then
    mret {| pp_qos := level; pp_topic_bytes := topic_bytes; pp_canonical_topic := canonical_topic;
            pp_property_bytes := None; pp_logical_size := 0; pp_wire_size := None |}
  else
    '(topic_size, wire_property_bytes, logical_property_bytes, property_bytes) ←
      lift (size_parts topic properties (Some topic_size));
    wire_size ← _check_publish_wire_size topic_size wire_property_bytes (len payload) level include_wire_size;
    logical_topic_size ←
      (if bool_decide (canonical_topic = topic) then mret topic_size else lift (utf8_len canonical_topic));
    mret {| pp_qos := level; pp_topic_bytes := topic_bytes; pp_canonical_topic := canonical_topic;
            pp_property_bytes := property_bytes;
            pp_logical_size := len payload + logical_topic_size + logical_property_bytes;
            pp_wire_size := wire_size |}.

Definition prepare_qos0 (topic : pystr) (payload : bytes) (retain : bool) (properties : option propmap) : MS WriteItem :=
  e ← gets id;
  '(alias, topic_bytes) ←
    match properties with
    | None => topic_bytes ← lift (encode_validated_publish_topic topic false); mret (None, topic_bytes)
    | Some _ =>
        if negb is_v5 && has_values properties then raise ProtocolError
        else if is_v5 && is_set (pget properties "subscription_identifier") then raise ProtocolError
        else
          alias ←
            match (if is_v5 then pget properties "topic_alias" else None) with
            | Some alias_value =>
                alias ← lift (py_int alias_value); _resolve_outbound_alias topic alias;; mret (Some alias)
            | None => mret None
            end;
          let allow_empty := is_set alias && bool_decide (topic = []) in
          topic_bytes ← lift (encode_validated_publish_topic topic allow_empty);
          mret (alias, topic_bytes)
    end;
  (if connected e then
     if retain && negb (n_retain_available (negotiated e)) then raise ProtocolError
     else if match alias with Some a => a >? n_topic_alias_maximum (negotiated e) | None => false end
     then raise ProtocolError
     else mret tt
   else raise NotConnectedError);;
  item ← lift (b_encode_publish_item (codec config) topic payload (QLevel AT_MOST_ONCE) retain false None
                 properties (Some topic_bytes) None);
  _check_outbound_size item;;
  mret item.

(** ** Launching and retransmission *)

Definition encode_publish (topic : pystr) (m : OutboundMessage) (dup : bool) (topic_bytes property_bytes : option bytes) :
    res WriteItem :=
  b_encode_publish_item (codec config) topic (o_payload m) (QLevel (o_qos m)) (o_retain m) dup (Some (o_mid m))
    (o_properties m) topic_bytes property_bytes.

Definition _launch (l : loc) (persisted : bool) (_property_bytes _topic_bytes : option bytes)
    (_wire_topic : option pystr) : MS unit :=
  msg ← deref l;
  let wire_topic := match _wire_topic with Some t => t | None => o_topic msg end in
  wire ← match o_encoded_publish msg with
         | Some w => mret w
         | None => lift (encode_publish wire_topic msg (o_dup msg) _topic_bytes _property_bytes)
         end;
  _check_outbound_size wire;;
  let target_state := match o_qos msg with AT_LEAST_ONCE => WAIT_PUBACK | _ => WAIT_PUBREC end in
  let retained := if bool_decide (wire_topic = o_topic msg) then _retain_publish_item wire else None in
  (if persisted then
     changed ← call (transition_out (o_mid msg) QUEUED target_state false);
     match changed with
     | None => raise RuntimeError
     | Some _ =>
         assign l (λ m, o_set_state m target_state);;
         assign l (λ m, o_set_encoded_publish m retained)
     end
   else
     assign l (λ m, o_set_state m target_state);;
     assign l (λ m, o_set_encoded_publish m retained);;
     call (put_out l));;
  _send wire;;
  msg ← deref l;
  only_if (is_set (pget (o_properties msg) "topic_alias"))
    (commit_topic_alias wire_topic (o_properties msg)).

Definition _try_launch (l : loc) (_property_bytes _topic_bytes : option bytes) (_wire_topic : option pystr) : MS bool :=
  msg ← deref l;
  granted ← flow_acquire (o_mid msg);
  if negb granted then mret false
  else
    try_except (_launch l false _property_bytes _topic_bytes _wire_topic;; mret true)
      (λ x, flow_release (o_mid msg);; raise x).

Definition _retransmit (l : loc) : MS unit :=
  msg ← deref l;
  match o_state msg with
  | WAIT_PUBACK | WAIT_PUBREC =>
      assign l (λ m, o_set_dup m true);;
      (if is_set (pget (o_properties msg) "topic_alias") then
         assign l (λ m, o_set_properties m (_properties_without_topic_alias (o_properties m)));;
         assign l (λ m, o_set_encoded_publish m None)
       else mret tt);;
      msg ← deref l;
      wire ← match o_encoded_publish msg with
             | None => lift (encode_publish (o_topic msg) msg true None None)
             | Some retained => lift (_mark_publish_dup retained)
             end;
      _check_outbound_size wire;;
      assign l (λ m, o_set_encoded_publish m (_retain_publish_item wire));;
      _send wire;;
      msg ← deref l;
      only_if (is_set (pget (o_properties msg) "topic_alias"))
        (commit_topic_alias (o_topic msg) (o_properties msg))
  | WAIT_PUBCOMP =>
      pubrel ←
        match o_encoded_pubrel msg with
        | Some w => mret w
        | None =>
            w ← lift (encode_pubrel_success (o_mid msg));
            assign l (λ m, o_set_encoded_pubrel m (Some w));;
            _check_outbound_size (Contiguous w);;
            mret w
        end;
      _send (Contiguous pubrel)
  | _ => raise ProtocolError
  end.

(** ** Store records *)

Definition discard_record (mid : Z) (stored : OutboundMessageSummary) : MS unit :=
  call (delete_out mid);;
  size ← lift (stored_logical_size stored);
  _release_reservation size.
Definition complete_record := discard_record.

Definition materialize (stored : qitem) : MS loc :=
  match stored with
  | QObj l => mret l
  | QSummary s =>
      message ← call (get_out (s_mid s));
      match message with None => raise RuntimeError | Some l => mret l end
  end.

(** [queued.popleft()]. *)
Definition popleft : MS unit := out_modify (λ o, set_queued (tail (_queued o)) o).

(** The [try] block of [drain]: the exception it catches, if any. *)
Definition drain_body (stored : qitem) : MS (option exn) :=
  try_except
    (l ← materialize stored;
     msg ← deref l;
     (if bool_decide (o_state msg = QUEUED) then
        (if o_dup msg then
           assign l (λ m, o_set_dup m false);; assign l (λ m, o_set_encoded_publish m None)
         else mret tt);;
        _launch l true None None None
      else _retransmit l);;
     mret None)
    (λ x, mret (Some x)).

(** One round of [drain] on the head of the queue; [true] continues. *)
Definition drain_round (stored : qitem) : MS bool :=
  s ← summary stored;
  let mid := s_mid s in
  granted ← flow_acquire mid;
  if negb granted then mret false
  else
    failure ← drain_body stored;
    match failure : option exn with
    | Some x =>
        flow_release mid;;
        s ← summary stored;
        discard_record mid s;;
        popleft;;
        out_modify (λ o, set_parked (_parked o ∖ {[mid]}) o);;
        ids_release mid;;
        _fail mid x;;
        mret true
    | None =>
        popleft;;
        out_modify (λ o, set_parked (_parked o ∖ {[mid]}) o);;
        mret true
    end.

(** [while queued]: each round that continues takes one entry off the queue. *)
Fixpoint drain_loop (fuel : nat) : MS unit :=
  match fuel with
  | O => mret tt
  | Datatypes.S fuel =>
      o ← gets outbound;
      match _queued o with
      | [] => mret tt
      | stored :: _ =>
          more ← drain_round stored;
          if more : bool then drain_loop fuel else mret tt
      end
  end.

Definition drain : MS unit := o ← gets outbound; drain_loop (length (_queued o)).

(** ** Publishing *)

(** Admission of a validated QoS 1 or 2 request: reserve, allocate, launch or
    queue, and roll everything back on an exception. *)
Definition admit_publish (topic : pystr) (payload : bytes) (retain : bool) (properties : option propmap)
    (prepared : _PreparedPublish) : MS (option Z * QoS) :=
  start ← gets outbound;
  _reserve (pp_logical_size prepared);;
  mid ← try_except ids_allocate
          (λ x, _rollback (_pending_messages start) (_pending_bytes start) [];; raise x);
  try_except
    (l ← new_message {| o_mid := mid; o_topic := pp_canonical_topic prepared; o_payload := payload;
                        o_qos := pp_qos prepared; o_retain := retain; o_state := QUEUED; o_dup := false;
                        o_properties := properties; o_encoded_publish := None; o_encoded_pubrel := None;
                        o_logical_size := pp_logical_size prepared |};
     e ← gets id;
     launched ← (if connected e
                 then _try_launch l (pp_property_bytes prepared) (pp_topic_bytes prepared) (Some topic)
                 else mret false);
     if launched : bool then mret (Some mid, pp_qos prepared)
     else
       call (put_out l);;
       out_modify (λ o, set_queued (_queued o ++ [QObj l]) o);;
       mret (Some mid, pp_qos prepared))
    (λ x, _rollback (_pending_messages start) (_pending_bytes start) [mid];; raise x).

Definition queue_publish (topic : pystr) (payload : bytes) (qos : qos_arg) (retain : bool)
    (properties : option propmap) (_prepared : option _PreparedPublish) : MS (option Z * QoS) :=
  step ← match _prepared with
  | Some prepared => mret (Admit prepared)
  | None =>
      e ← gets id;
      if bool_decide (state e = DISCONNECTING) then raise NotConnectedError
      else
        level ← lift (to_QoS qos);
        if negb (truthy level) then
          item ← prepare_qos0 topic payload retain properties;
          _send item;;
          only_if (is_set (pget properties "topic_alias")) (commit_topic_alias topic properties);;
          _emit (Effect.PUBLISH_COMPLETE None);;
          mret (Completed (None, level))
        else
          prepared ← _prepare_publish_request topic payload (QLevel level) retain properties false;
          mret (Admit prepared)
  end;
  match step : publish_step with
  | Completed handle => mret handle
  | Admit prepared => admit_publish topic payload retain properties prepared
  end.

(** ** Broker acknowledgements *)

Definition _report (mid : Z) (failure : option exn) : MS unit :=
  match failure with
  | None => _emit (Effect.PUBLISH_COMPLETE (Some mid))
  | Some x => _fail mid x
  end.

(** [del queued[index]] of the first entry with the identifier. *)
Fixpoint del_entry (h : Heap) (mid : Z) (q : list qitem) : option (list qitem) :=
  match q with
  | [] => None
  | x :: q => if s_mid (q_summary h x) =? mid then Some q else cons x <$> del_entry h mid q
  end.

Definition _unpark (mid : Z) : MS unit :=
  e ← gets id;
  if negb (bool_decide (mid ∈ _parked (outbound e))) then mret tt
  else
    out_modify (λ o, set_parked (_parked o ∖ {[mid]}) o);;
    match del_entry (heap e) mid (_queued (outbound e)) with
    | Some q => out_modify (set_queued q)
    | None => raise AssertionError
    end.

Definition _finish (mid : Z) (expected_state : OutboundQoSState) (failure : option exn) : MS unit :=
  meta ← try_except (call (complete_out mid expected_state)) (λ x, _report mid failure;; raise x);
  match meta with
  | None => mret tt
  | Some meta =>
      o ← gets outbound;
      (if dmem mid (_sealed o) then out_modify (λ o, set_sealed (ddel mid (_sealed o)) o)
       else
         _release_reservation (om_logical_size meta);;
         _unpark mid;;
         flow_release mid);;
      _report mid failure;;
      ids_release mid;;
      drain
  end.

Definition rejected (packet : string) (reason_code : Z) (properties : option propmap) : option exn :=
  if reason_code <? 128 then None else Some (PublishRejectedError packet reason_code properties).

(** [if properties is not None: engine._validate_inbound_problem_information(...)]. *)
Definition check_problem_information (properties : option propmap) : MS unit :=
  only_if (is_set properties) (_validate_inbound_problem_information config properties).

Definition on_puback (raw : RawPacket) : MS unit :=
  '(mid, reason_code, properties) ← lift (b_decode_puback (codec config) (remaining raw));
  check_problem_information properties;;
  _finish mid WAIT_PUBACK (rejected "PUBACK" reason_code properties).

Definition _require_pubrel_capacity (size : Z) : MS unit :=
  n ← gets negotiated;
  match n_maximum_packet_size n with
  | Some limit => if size >? limit then raise MandatoryResponseTooLargeError else mret tt
  | None => mret tt
  end.

Definition _send_orphan_pubrel (mid : Z) : MS unit :=
  wire ← lift (b_encode_pubrel (codec config) mid (if is_v5 then 0x92 else 0) None);
  _require_pubrel_capacity (len wire);;
  _send (Contiguous wire).

Definition send_pubrel (mid : Z) : MS unit :=
  wire ← lift (encode_pubrel_success mid); _send (Contiguous wire).

Definition on_pubrec (raw : RawPacket) : MS unit :=
  '(mid, reason_code, properties) ← lift (b_decode_pubrec (codec config) (remaining raw));
  check_problem_information properties;;
  if reason_code >=? 128 then _finish mid WAIT_PUBREC (Some (PublishRejectedError "PUBREC" reason_code properties))
  else
    n ← gets negotiated;
    if match n_maximum_packet_size n with Some limit => limit <? 4 | None => false end then
      record ← call (out_meta mid);
      match record with
      | None => _send_orphan_pubrel mid
      | Some meta =>
          match om_state meta with
          | WAIT_PUBREC | WAIT_PUBCOMP => _require_pubrel_capacity 4
          | _ => mret tt
          end
      end
    else
      changed ← call (transition_out mid WAIT_PUBREC WAIT_PUBCOMP true);
      match changed with
      | Some _ => _unpark mid;; send_pubrel mid
      | None =>
          record ← call (out_meta mid);
          match record with
          | None => _send_orphan_pubrel mid
          | Some meta => if bool_decide (om_state meta = WAIT_PUBCOMP) then send_pubrel mid else mret tt
          end
      end.

Definition on_pubcomp (raw : RawPacket) : MS unit :=
  '(mid, reason_code, properties) ← lift (b_decode_pubcomp (codec config) (remaining raw));
  check_problem_information properties;;
  _finish mid WAIT_PUBCOMP (rejected "PUBCOMP" reason_code properties).

(** ** Hydration and replay *)

Definition PAGE_SIZE : nat := 256.

(** [for x in l: acc = body(x, acc)]. *)
Fixpoint for_fold {A B} (l : list A) (body : A → B → MS B) (acc : B) : MS B :=
  match l with
  | [] => mret acc
  | x :: l => acc ← body x acc; for_fold l body acc
  end.

(** [for page in self.store_summary_pages(): for msg in page: body(msg)]: the
    identifiers are read first, each page when the loop reaches it. *)
Definition for_pages {B} (body : OutboundMessageSummary → B → MS B) (acc : B) : MS B :=
  mids ← call out_mids;
  for_fold (chunks (length mids) PAGE_SIZE mids)
    (λ mids acc, page ← call (out_page mids); for_fold page body acc) acc.

Definition has_client_session_state (o : OutboundSession) : bool :=
  (FlowControl.inflight (flow o) >? 0) || existsb snd (_sealed o).

(** The loop of [seal]: the identifiers newly sealed. *)
Definition seal_one (mid : Z) (newly : gset Z) : MS (gset Z) :=
  o ← gets outbound;
  if dmem mid (_sealed o) then mret newly
  else
    meta ← call (out_meta mid);
    match meta with
    | None => mret newly
    | Some meta =>
        let sent := negb (bool_decide (om_state meta = QUEUED)) in
        out_modify (λ o, set_sealed (dset mid sent (_sealed o)) o);;
        _release_reservation (om_logical_size meta);;
        flow_release mid;;
        mret (newly ∪ {[mid]})
    end.

Definition seal (mids : list Z) : MS unit :=
  newly ← for_fold mids seal_one ∅;
  modify (λ e,
    let o := outbound e in
    if bool_decide (newly = ∅) || bool_decide (_queued o = []) then e
    else
      let q := filter (λ q, s_mid (q_summary (heap e) q) ∉ newly) (_queued o) in
      set_outbound (set_parked (_parked o ∖ newly) (set_queued q o)) e).

Definition _hydrate_message (msg : OutboundMessageSummary) : MS unit :=
  o ← gets outbound;
  p ← lift (reserve (packet_ids o) (s_mid msg));
  out_modify (set_packet_ids p);;
  logical_size ← lift (stored_logical_size msg);
  out_modify (λ o, set_pending (_pending_messages o + 1) (_pending_bytes o + logical_size) o);;
  match s_state msg with
  | QUEUED => out_modify (λ o, set_queued (_queued o ++ [QSummary msg]) o)
  | WAIT_PUBACK | WAIT_PUBREC | WAIT_PUBCOMP => flow_acquire (s_mid msg);; mret tt
  | DONE => mret tt
  end.

Definition hydrate : MS unit := for_pages (λ msg _, _hydrate_message msg) tt.

(** [validate_against_negotiated] of a message object or a summary. *)
Definition validate_against_negotiated (msg : qitem) : MS unit :=
  e ← gets id;
  let n := negotiated e in
  let s := q_summary (heap e) msg in
  let obj := match msg with QObj l => oh (heap e) !! l | QSummary _ => None end in
  match s_state s with
  | WAIT_PUBCOMP =>
      pubrel ← match obj ≫= o_encoded_pubrel with
               | Some w => mret w
               | None => lift (encode_pubrel_success (s_mid s))
               end;
      _check_outbound_size (Contiguous pubrel)
  | st =>
      if QoS_int (s_qos s) >? n_maximum_qos n then raise ProtocolError
      else if s_retain s && negb (n_retain_available n) then raise ProtocolError
      else
        let replaying := bool_decide (st = WAIT_PUBACK ∨ st = WAIT_PUBREC) in
        let stripped := replaying && is_set (pget (s_properties s) "topic_alias") in
        let properties := if stripped then _properties_without_topic_alias (s_properties s) else s_properties s in
        match pget properties "topic_alias" with
        | Some v =>
            alias ← lift (py_int v);
            if (alias =? 0) || (alias >? n_topic_alias_maximum n) then raise ProtocolError else mret tt
        | None => mret tt
        end;;
        match (if stripped then None else obj ≫= o_encoded_publish) with
        | Some w => _check_outbound_size w
        | None => _check_publish_size (s_topic s) (s_payload_size s) (s_qos s) properties
        end
  end.

Definition _validate_replay (msg : OutboundMessageSummary) : MS unit :=
  try_except (validate_against_negotiated (QSummary msg))
    (λ x, raise (if is_protocol_error x then SessionReplayError else x)).

Definition check_session_replayable : MS unit :=
  e ← gets id;
  let n := negotiated e in
  if (n_maximum_qos n >=? 2) && n_retain_available n && negb (is_set (n_maximum_packet_size n)) then mret tt
  else
    for_pages (λ msg _,
      o ← gets outbound;
      if negb (bool_decide (s_state msg = QUEUED)) && negb (dmem (s_mid msg) (_sealed o))
      then _validate_replay msg else mret tt) tt.

(** The shared tail of the [except] branches: the row is discarded and the
    publication fails alone. *)
Definition drop_publication (msg : OutboundMessageSummary) (x : exn) : MS unit :=
  discard_record (s_mid msg) msg;;
  ids_release (s_mid msg);;
  _fail (s_mid msg) x.

Definition enqueue (q : qitem) : MS unit := out_modify (λ o, set_queued (_queued o ++ [q]) o).

Definition _replay_message (msg : OutboundMessageSummary) : MS unit :=
  o ← gets outbound;
  if dmem (s_mid msg) (_sealed o) then mret tt
  else
    match s_state msg with
    | QUEUED =>
        failure ← try_except (validate_against_negotiated (QSummary msg);; mret None)
                    (λ x, if is_protocol_error x then mret (Some x) else raise x);
        match failure : option exn with
        | Some x => drop_publication msg x
        | None => enqueue (QSummary msg)
        end
    | WAIT_PUBCOMP =>
        try_except (l ← materialize (QSummary msg); _retransmit l) (λ x, drop_publication msg x)
    | _ =>
        granted ← flow_acquire (s_mid msg);
        if negb granted then
          out_modify (λ o, set_parked (_parked o ∪ {[s_mid msg]}) o);;
          enqueue (QSummary msg)
        else
          try_except (l ← materialize (QSummary msg); _retransmit l)
            (λ x, flow_release (s_mid msg);; drop_publication msg x)
    end.

Definition reset_flow_for_connection : MS unit :=
  e ← gets id;
  out_modify (λ o, set_flow
    (FlowControl.apply_broker_receive_maximum (FlowControl.reset (flow o)) (n_receive_maximum (negotiated e))
       (max_outbound_inflight config)) o).

Definition replay_session : MS unit :=
  reset_flow_for_connection;;
  out_modify (set_queued []);;
  out_modify (set_parked ∅);;
  for_pages (λ msg _, _replay_message msg) tt;;
  drain.

(** One row of the loop of [purge_after_clean_session]; the accumulator holds
    the entries to send again and the identifiers to release. *)
Definition purge_one (msg : OutboundMessageSummary) (acc : list qitem * list Z) : MS (list qitem * list Z) :=
  let '(resent, released) := acc in
  let mid := s_mid msg in
  o ← gets outbound;
  match s_state msg with
  | QUEUED => mret acc
  | st =>
      if dmem mid (_sealed o) then
        out_modify (λ o, set_sealed (ddel mid (_sealed o)) o);;
        call (delete_out mid);;
        mret (resent, released ++ [mid])
      else
        match st with
        | WAIT_PUBACK =>
            changed ← call (transition_out mid WAIT_PUBACK QUEUED false);
            match changed with
            | None => raise RuntimeError
            | Some _ =>
                mret (resent ++ [QSummary (mkSummary mid (s_topic msg) (s_payload_size msg) (s_qos msg) (s_retain msg)
                                            QUEUED (s_dup msg) (s_properties msg) (s_logical_size msg))], released)
            end
        | _ =>
            complete_record mid msg;;
            _fail mid SessionDiscardedError;;
            mret (resent, released ++ [mid])
        end
  end.

Definition purge_after_clean_session (sub_mids_pending : bool) : MS unit :=
  modify (λ e,
    set_outbound (let o := outbound e in
      set_queued (filter (λ q, s_state (q_summary (heap e) q) = QUEUED) (_queued o)) o) e);;
  out_modify (set_parked ∅);;
  '(resent, released) ← for_pages purge_one ([], []);
  out_modify (λ o, set_queued (resent ++ _queued o) o);;
  o ← gets outbound;
  if bool_decide (_queued o = []) && negb sub_mids_pending && forallb snd (_sealed o)
  then out_modify (λ o, set_packet_ids (pool_clear (packet_ids o)) o)
  else for_each released ids_release.

(** The loop of [fail_queued_violating_negotiation]: each round takes the head
    of the queue. *)
Fixpoint fail_loop (fuel : nat) (kept : list qitem) : MS (list qitem) :=
  match fuel with
  | O => mret kept
  | Datatypes.S fuel =>
      o ← gets outbound;
      match _queued o with
      | [] => mret kept
      | msg :: _ =>
          s ← summary msg;
          failure ← try_except (validate_against_negotiated msg;; mret None)
                      (λ x, if is_protocol_error x then mret (Some x) else raise x);
          match failure : option exn with
          | Some x =>
              s' ← summary msg;
              discard_record (s_mid s) s';;
              popleft;;
              ids_release (s_mid s);;
              _fail (s_mid s) x;;
              fail_loop fuel kept
          | None => popleft;; fail_loop fuel (kept ++ [msg])
          end
      end
  end.

Definition fail_queued_violating_negotiation : MS unit :=
  o ← gets outbound;
  kept ← fail_loop (length (_queued o)) [];
  out_modify (set_queued kept).
End outbound.
