(* ===== verification/Inbound.v ===== *)
(** * Broker-to-client publication ([src/mqttium/protocol/inbound.py])

    Every operation of [InboundSession] over an arbitrary in-flight store:
    Topic Aliases, the Receive Maximum window, the QoS 1 and 2 exchanges with
    automatic and manual acknowledgement, delivery marks and restart
    redelivery. *)

From S2P Require Import Prelude Vbi PyStr Primitives Enums Properties Topics Frame Ack Publish Handshake.
From S2P Require Import Subscription Types Buffer PacketIds Settings Store EngineState.

Definition REPLAY_PAGE_SIZE : nat := 256.
Definition REPLAY_BATCH_MESSAGES : Z := 64.
Definition REPLAY_BATCH_BYTES : Z := Z.shiftl 1 20.

(** ** The replay cursor ([InboundReplayCursor]) *)

Module Cursor.
Import Inb.

Definition init (pages : replay_gen) (remaining : Z) : InboundReplayCursor := mkCursor pages None None remaining.

Definition bounded_complete (c : InboundReplayCursor) : bool :=
  (_remaining c =? 0) && negb (is_set (_pending c)) && negb (is_set (_page_messages c)).

(** [begin_page] up to its [next]: whether a page is still being read. *)
Definition in_page (c : InboundReplayCursor) : bool := is_set (_pending c) || is_set (_page_messages c).
(** The assignments after [next(self._pages, None)]. *)
Definition turn_page (page : option (list loc)) (pages : replay_gen) (c : InboundReplayCursor) :
    bool * InboundReplayCursor :=
  match page with
  | None => (false, mkCursor pages (_page_messages c) (_pending c) (_remaining c))
  | Some page => (true, mkCursor pages (Some page) (_pending c) (_remaining c - len page))
  end.

Definition next_page_message (c : InboundReplayCursor) : option loc * InboundReplayCursor :=
  match _pending c with
  | Some message => (Some message, mkCursor (_pages c) (_page_messages c) None (_remaining c))
  | None =>
      match _page_messages c with
      | None => (None, c)
      | Some [] => (None, mkCursor (_pages c) None None (_remaining c))
      | Some [message] => (Some message, mkCursor (_pages c) None None (_remaining c))
      | Some (message :: messages) => (Some message, mkCursor (_pages c) (Some messages) None (_remaining c))
      end
  end.

Definition push_back (message : loc) (c : InboundReplayCursor) : res InboundReplayCursor :=
  raise! AssertionError when is_set (_pending c);
  Ok (mkCursor (_pages c) (_page_messages c) (Some message) (_remaining c)).

(** The messages the cursor holds. *)
Definition held (c : InboundReplayCursor) : list loc :=
  match _pending c with Some l => [l] | None => [] end ++ match _page_messages c with Some p => p | None => [] end.
End Cursor.

Record InboundStats := {
  inflight : Z;
  st_inflight_limit : Z;
  inflight_bytes : Z;
  inflight_high_water_bytes : Z;
  inflight_byte_limit : option Z;
  topic_aliases : Z;
  st_replay_pending : bool }.

Section inbound.
Context {S : Type} `{InStore S} (config : EngineConfig).

Abbreviation MS := (M S).
Abbreviation is_v5 := (b_is_mqtt5 (codec config)).
Abbreviation WAIT_PUBREL := In.WAIT_PUBREL.
Abbreviation WAIT_PUBACK := In.WAIT_PUBACK.
Abbreviation WAIT_USER_ACK := In.WAIT_USER_ACK.

(** The stored message object at a location, and a new one. *)
Definition deref_in (l : loc) : MS InboundMessage :=
  h ← gets heap; match ih h !! l with Some m => mret m | None => raise RuntimeError end.
Definition new_inbound (m : InboundMessage) : MS loc :=
  h ← gets heap; modify (λ e, set_heap (i_alloc (heap e) m) e);; mret (length (ih h)).

(** [object()]. *)
Definition new_token : MS Z :=
  i ← gets inbound; in_modify (λ i, Inb.set_next_token (Inb._next_token i + 1) i);; mret (Inb._next_token i).

(** ** Construction *)

(** [_load_recovered_state]: one index page at a time. *)
Definition load_meta (acc : gset Z * Z * list Z) (meta : InboundRecordMeta) : res (gset Z * Z * list Z) :=
  let '(mids, pending_bytes, recovered_qos1) := acc in
  let mids := mids ∪ {[im_mid meta]} in
  let recovered_qos1 :=
    if bool_decide (im_state meta = WAIT_PUBACK) then recovered_qos1 ++ [im_mid meta] else recovered_qos1 in
  raise! ValueError when im_logical_size meta <=? 0;
  Ok (mids, pending_bytes + im_logical_size meta, recovered_qos1).

Fixpoint load_page (acc : gset Z * Z * list Z) (page : list InboundRecordMeta) : res (gset Z * Z * list Z) :=
  match page with
  | [] => Ok acc
  | meta :: page => let! acc := load_meta acc meta in load_page acc page
  end.

(** The identifiers are read before the first page; a page the store no longer
    has rows for is skipped. *)
Fixpoint load_pages (fuel : nat) (mids : list Z) (acc : gset Z * Z * list Z) : MS (gset Z * Z * list Z) :=
  match fuel, mids with
  | Datatypes.S fuel, _ :: _ =>
      page ← call (in_index_page (take REPLAY_PAGE_SIZE mids));
      acc ← lift (load_page acc page);
      load_pages fuel (drop REPLAY_PAGE_SIZE mids) acc
  | _, _ => mret acc
  end.

Definition _load_recovered_state : MS (gset Z * Z * list Z) :=
  mids ← call in_mids; load_pages (length mids) mids (∅, 0, []).

Definition InboundSession_init : MS unit :=
  '(recovered_mids, pending_bytes, recovered_qos1) ← _load_recovered_state;
  in_modify (λ _,
    Inb.mkInbound ∅ (topic_alias_maximum config) (max_inbound_inflight config) ∅ ∅ ∅ false ∅ ∅ 0 ∅
      (if manual_ack config then recovered_qos1 else []) pending_bytes pending_bytes recovered_mids None
      (Z.of_nat (size recovered_mids)) 0).

(** ** Lifecycle *)

Definition release_pending_acks (i : Inb.InboundSession) : Inb.InboundSession :=
  let i := Inb.set_handoff false i in
  let i := Inb.set_auto ∅ i in
  if bool_decide (Inb._pending_pubcomps i = ∅) then i else Inb.set_pubcomps ∅ 0 i.

Definition start_connection (receive_maximum topic_alias_maximum : Z) : MS unit :=
  in_modify (λ i,
    Inb.set_replay None (Inb.set_manual_acks ∅ (Inb.set_pubcomps ∅ 0 (Inb.set_auto ∅ (Inb.set_handoff false
      (Inb.set_current ∅ (Inb.set_limits receive_maximum topic_alias_maximum (Inb.set_aliases ∅ i)))))))).

Definition transport_closed : MS unit :=
  in_modify (λ i,
    Inb.set_replay None (release_pending_acks (Inb.set_manual_acks ∅ (Inb.set_completions ∅
      (Inb.set_current ∅ (Inb.set_aliases ∅ i)))))).

Definition discard_session : MS unit :=
  call clear_in;;
  in_modify (λ i,
    Inb.set_order [] (Inb.set_manual_acks ∅ (Inb.set_pubcomps ∅ 0 (Inb.set_auto ∅ (Inb.set_handoff false
      (Inb.set_stored 0 (Inb.set_bytes 0 (Inb.set_completions ∅ (Inb.set_tokens ∅ (Inb.set_current ∅
        (Inb.set_replay None (Inb.set_recovered ∅ i)))))))))))).

(** Receive Maximum slots owned on this connection. *)
Definition _inflight (i : Inb.InboundSession) : Z :=
  Z.of_nat (size (Inb._current_persisted_mids i)) + Z.of_nat (size (Inb._pending_auto_qos1_mids i)) +
  Inb._pending_pubcomp_slots i.

Definition replay_pending (i : Inb.InboundSession) : bool := is_set (Inb._replay i).
Definition has_client_session_state (i : Inb.InboundSession) : bool := Inb._stored_inbound i >? 0.

Definition stats (i : Inb.InboundSession) : InboundStats :=
  {| inflight := _inflight i; st_inflight_limit := Inb._receive_maximum i; inflight_bytes := Inb._pending_bytes i;
     inflight_high_water_bytes := Z.max (Inb._pending_high_water_bytes i) (Inb._pending_bytes i);
     inflight_byte_limit := max_inbound_inflight_bytes config;
     topic_aliases := Z.of_nat (size (Inb._aliases i)); st_replay_pending := replay_pending i |}.

(** ** Stored exchanges and their identities *)

Definition _lookup_stored_inbound (mid : Z) : MS (option InboundRecordMeta) :=
  i ← gets inbound; if Inb._stored_inbound i =? 0 then mret None else call (in_meta mid).

Definition _remember_inbound : MS unit := in_modify (λ i, Inb.set_stored (Inb._stored_inbound i + 1) i).
Definition _forget_inbound : MS unit :=
  i ← gets inbound;
  if Inb._stored_inbound i <=? 0 then raise AssertionError
  else in_modify (λ i, Inb.set_stored (Inb._stored_inbound i - 1) i).

Definition _complete_stored_inbound (mid : Z) (expected_state : In.InboundQoSState) : MS Z :=
  completed ← call (complete_in mid expected_state);
  match completed with
  | None => raise RuntimeError
  | Some meta =>
      in_modify (λ i, Inb.set_tokens (delete mid (Inb._exchange_tokens i)) i);;
      in_modify (λ i, Inb.set_completions (delete mid (Inb._pending_completions i)) i);;
      mret (im_logical_size meta)
  end.

(** [self._exchange_tokens[mid] = object()]. *)
Definition fresh_exchange (mid : Z) : MS Z :=
  token ← new_token;
  in_modify (λ i, Inb.set_tokens (<[mid := token]> (Inb._exchange_tokens i)) i);;
  mret token.

Definition _exchange_token (mid : Z) : MS Z :=
  i ← gets inbound;
  match Inb._exchange_tokens i !! mid with
  | Some token => mret token
  | None => fresh_exchange mid
  end.

Definition with_ack_token (message : Message) (token : Z) : Message :=
  {| m_topic := m_topic message; m_payload := m_payload message; m_qos := m_qos message;
     m_retain := m_retain message; m_dup := m_dup message; m_mid := m_mid message;
     m_properties := m_properties message; m_ack_token := Some token |}.

Definition _bind_ack_token (message : Message) : MS Message :=
  match m_mid message with
  | None => raise AssertionError
  | Some mid => token ← _exchange_token mid; mret (with_ack_token message token)
  end.
(** [if self._binds_ack_tokens: self._bind_ack_token(message)]. *)
Definition bind_if_manual (message : Message) : MS Message :=
  if manual_ack config then _bind_ack_token message else mret message.

(** ** Receive Maximum *)

Definition _reject_packet_id_collision {A} : MS A := _protocol_disconnect config 0x82;; raise ProtocolError.

Definition _acquire_slot (logical_size : option Z) : MS Z :=
  i ← gets inbound;
  let receive_maximum := Inb._receive_maximum i in
  let inflight := _inflight i in
  if inflight >=? receive_maximum then _protocol_disconnect config 0x93;; raise ProtocolError
  else if match logical_size, max_inbound_inflight_bytes config with
          | Some n, Some byte_limit => Inb._pending_bytes i + n >? byte_limit
          | _, _ => false
          end
  then _protocol_disconnect config 0x97;; raise ProtocolError
  else
    only_if ((inflight + 1 >=? receive_maximum) &&
             (negb (bool_decide (Inb._pending_auto_qos1_mids i = ∅)) ||
              negb (bool_decide (Inb._pending_pubcomps i = ∅))))
      (in_modify (Inb.set_handoff true));;
    match logical_size with
    | None => mret tt
    | Some n =>
        let pending := Inb._pending_bytes i + n in
        in_modify (Inb.set_bytes pending);;
        only_if (pending >? Inb._pending_high_water_bytes i) (in_modify (Inb.set_high_water pending))
    end;;
    mret (inflight + 1).

Definition _release_pending_bytes (logical_size : Z) : MS unit :=
  i ← gets inbound;
  if (logical_size <=? 0) || (logical_size >? Inb._pending_bytes i) then raise AssertionError
  else in_modify (λ i, Inb.set_bytes (Inb._pending_bytes i - logical_size) i).

Definition current_add (mid : Z) : MS unit :=
  in_modify (λ i, Inb.set_current (Inb._current_persisted_mids i ∪ {[mid]}) i).
Definition current_remove (mid : Z) : MS unit :=
  in_modify (λ i, Inb.set_current (Inb._current_persisted_mids i ∖ {[mid]}) i).

Definition _release_persisted_slot (mid logical_size : Z) : MS unit :=
  current_remove mid;; _release_pending_bytes logical_size.

Definition _hold_until_pubcomp_handoff (mid logical_size : Z) : MS unit :=
  _release_pending_bytes logical_size;;
  in_modify (λ i, Inb.set_pubcomps (Inb._pending_pubcomps i ∪ {[mid]}) (Inb._pending_pubcomp_slots i) i);;
  i ← gets inbound;
  only_if (bool_decide (mid ∈ Inb._current_persisted_mids i))
    (current_remove mid;;
     in_modify (λ i, Inb.set_pubcomps (Inb._pending_pubcomps i) (Inb._pending_pubcomp_slots i + 1) i);;
     i ← gets inbound;
     only_if (_inflight i >=? Inb._receive_maximum i) (in_modify (Inb.set_handoff true))).

(** [self._engine._send_ack(_encode_..._success(mid))]. *)
Definition answer (encode : Z → res bytes) (mid : Z) : MS unit := wire ← lift (encode mid); _send_ack wire.

(** The kind of a delivery effect. *)
Definition deliver (message : Message) (mark : bool) (wire_size token : option Z) : MS unit :=
  _emit (if is_set wire_size then Effect.DECODED_MESSAGE message mark wire_size token
         else Effect.MESSAGE message mark wire_size token).

(** [if mid not in current: self._acquire_slot(); current.add(mid)]: whether a
    slot was taken. *)
Definition acquire_current (mid : Z) : MS bool :=
  i ← gets inbound;
  if bool_decide (mid ∈ Inb._current_persisted_mids i) then mret false
  else _acquire_slot None;; current_add mid;; mret true.

(** A record inserted for a new exchange, its bytes released when the store
    raises; the identity of the exchange. *)
Definition store_exchange (inbound : InboundMessage) : MS Z :=
  l ← new_inbound inbound;
  try_except (call (put_in l)) (λ x, _release_pending_bytes (i_logical_size inbound);; raise x);;
  current_add (i_mid inbound);;
  token ← fresh_exchange (i_mid inbound);
  _remember_inbound;;
  mret token.

Definition logical_size (topic : pystr) (payload : bytes) (properties : option propmap) (wire_size : option Z) :
    res Z :=
  publish_logical_size is_v5 topic (len payload) properties wire_size.
Definition stored_logical_size (message : InboundMessage) : res Z :=
  raise! ValueError when i_logical_size message <=? 0; Ok (i_logical_size message).

(** [self._pending_pubcomps and mid in self._pending_pubcomps]. *)
Definition awaiting_handoff (mid : Z) (i : Inb.InboundSession) : bool := bool_decide (mid ∈ Inb._pending_pubcomps i).

(** ** QoS 2 *)

Definition _on_qos2 (topic : pystr) (payload : bytes) (mid : Z) (retain dup : bool) (properties : option propmap)
    (wire_size : option Z) : MS unit :=
  existing ← _lookup_stored_inbound mid;
  i ← gets inbound;
  match existing : option InboundRecordMeta with
  | Some existing =>
      if bool_decide (im_state existing = WAIT_PUBACK) then _reject_packet_id_collision
      else if bool_decide (im_state existing = WAIT_USER_ACK) || is_set (Inb._pending_completions i !! mid)
      then _protocol_disconnect config 0x82;; raise ProtocolError
      else if negb (bool_decide (im_state existing = WAIT_PUBREL)) then raise RuntimeError
      else acquire_current mid;; answer encode_pubrec_success mid
  | None =>
      if awaiting_handoff mid i then _reject_packet_id_collision
      else if bool_decide (mid ∈ Inb._pending_auto_qos1_mids i)
      then _protocol_disconnect config 0x82;; raise ProtocolError
      else
        size ← lift (logical_size topic payload properties wire_size);
        _acquire_slot (Some size);;
        token ← store_exchange
          {| i_mid := mid; i_topic := topic; i_payload := payload; i_qos := EXACTLY_ONCE; i_retain := retain;
             i_state := WAIT_PUBREL; i_delivered := false; i_properties := properties; i_user_acked := false;
             i_logical_size := size |};
        answer encode_pubrec_success mid;;
        message ← bind_if_manual (_decoded_message topic payload EXACTLY_ONCE retain dup (Some mid) properties);
        deliver message true wire_size (Some token)
  end.

(** ** QoS 1 *)

Definition _release_completed_auto (mid occupied : Z) : MS unit :=
  in_modify (λ i, Inb.set_auto (Inb._pending_auto_qos1_mids i ∪ {[mid]}) i);;
  i ← gets inbound;
  only_if (occupied >=? Inb._receive_maximum i) (in_modify (Inb.set_handoff true)).

Definition _complete_recovered_qos1_auto (mid : Z) : MS unit :=
  i ← gets inbound;
  if is_set (Inb._pending_completions i !! mid) then mret tt
  else
    record ← _lookup_stored_inbound mid;
    if match record with Some record => negb (im_delivered record) | None => false end then
      acquire_current mid;;
      in_modify (λ i, Inb.set_completions (<[mid := WAIT_PUBACK]> (Inb._pending_completions i)) i)
    else
      occupied ← _acquire_slot None;
      recovered_logical_size ← _complete_stored_inbound mid WAIT_PUBACK;
      _forget_inbound;;
      answer encode_puback_success mid;;
      _release_pending_bytes recovered_logical_size;;
      _release_completed_auto mid occupied.

Definition _on_qos1_auto (topic : pystr) (payload : bytes) (mid : Z) (retain dup : bool) (properties : option propmap)
    (wire_size : option Z) : MS unit :=
  existing ← _lookup_stored_inbound mid;
  i ← gets inbound;
  match existing : option InboundRecordMeta with
  | Some existing =>
      if bool_decide (im_state existing = WAIT_PUBACK) then _complete_recovered_qos1_auto mid
      else _reject_packet_id_collision
  | None =>
      if awaiting_handoff mid i then _reject_packet_id_collision
      else
        let retransmission := bool_decide (mid ∈ Inb._pending_auto_qos1_mids i) in
        occupied ← (if retransmission then mret 0 else _acquire_slot None);
        answer encode_puback_success mid;;
        deliver (_decoded_message topic payload AT_LEAST_ONCE retain dup (Some mid) properties) false wire_size None;;
        only_if (negb retransmission) (_release_completed_auto mid occupied)
  end.

(** [_emit_message]: redelivery of a stored row. *)
Definition _emit_message (inbound : InboundMessage) (dup : bool) : MS unit :=
  message ← bind_if_manual
    (_decoded_message (i_topic inbound) (i_payload inbound) (i_qos inbound) (i_retain inbound) dup
       (Some (i_mid inbound)) (i_properties inbound));
  token ← _exchange_token (i_mid inbound);
  _emit (Effect.MESSAGE message true None (Some token)).

(** Retire a persisted QoS 2 or QoS 1 row and answer. *)
Definition _complete_qos2 (mid : Z) (state : In.InboundQoSState) : MS unit :=
  size ← _complete_stored_inbound mid state;
  _forget_inbound;;
  answer encode_pubcomp_success mid;;
  _hold_until_pubcomp_handoff mid size.

Definition _complete_qos1 (mid : Z) : MS unit :=
  size ← _complete_stored_inbound mid WAIT_PUBACK;
  _forget_inbound;;
  answer encode_puback_success mid;;
  _release_persisted_slot mid size.

(** The loop of [_drain_manual_qos1_acks] on what is left of the order. *)
Fixpoint drain_acks (order : list Z) : MS unit :=
  match order with
  | [] => mret tt
  | mid :: order =>
      i ← gets inbound;
      if bool_decide (mid ∈ Inb._pending_manual_qos1_acks i) && bool_decide (mid ∈ Inb._current_persisted_mids i) then
        record ← _lookup_stored_inbound mid;
        if match record with Some record => negb (bool_decide (im_state record = WAIT_PUBACK)) | None => true end
        then raise ProtocolError
        else
          _complete_qos1 mid;;
          in_modify (λ i, Inb.set_order (tail (Inb._manual_qos1_order i)) i);;
          in_modify (λ i, Inb.set_manual_acks (Inb._pending_manual_qos1_acks i ∖ {[mid]}) i);;
          drain_acks order
      else mret tt
  end.

Definition _drain_manual_qos1_acks : MS unit := i ← gets inbound; drain_acks (Inb._manual_qos1_order i).

Definition _on_qos1_manual (topic : pystr) (payload : bytes) (mid : Z) (retain dup : bool)
    (properties : option propmap) (wire_size : option Z) : MS unit :=
  existing ← _lookup_stored_inbound mid;
  match existing : option InboundRecordMeta with
  | Some existing =>
      if bool_decide (im_state existing = WAIT_PUBACK) then
        acquired ← acquire_current mid;
        i ← gets inbound;
        if bool_decide (mid ∈ Inb._pending_manual_qos1_acks i) then _drain_manual_qos1_acks
        else
          inbound ← call (get_in mid);
          match inbound with
          | None => only_if acquired (current_remove mid);; raise RuntimeError
          | Some l => inbound ← deref_in l; _emit_message inbound true
          end
      else _reject_packet_id_collision
  | None =>
      i ← gets inbound;
      if awaiting_handoff mid i then _reject_packet_id_collision
      else
        size ← lift (logical_size topic payload properties wire_size);
        _acquire_slot (Some size);;
        token ← store_exchange
          {| i_mid := mid; i_topic := topic; i_payload := payload; i_qos := AT_LEAST_ONCE; i_retain := retain;
             i_state := WAIT_PUBACK; i_delivered := false; i_properties := properties; i_user_acked := false;
             i_logical_size := size |};
        in_modify (λ i, Inb.set_order (Inb._manual_qos1_order i ++ [mid]) i);;
        message ← bind_if_manual (_decoded_message topic payload AT_LEAST_ONCE retain dup (Some mid) properties);
        deliver message true wire_size (Some token)
  end.

(** [self._on_qos1], bound once from [config.manual_ack]. *)
Definition _on_qos1 := if manual_ack config then _on_qos1_manual else _on_qos1_auto.

(** ** Topic Aliases *)

Definition _resolve_topic_fields (topic : pystr) (props : option propmap) : MS pystr :=
  match pget props "topic_alias" with
  | None =>
      match topic with
      | [] => _protocol_disconnect config 0x82;; raise ProtocolError
      | _ => mret topic
      end
  | Some v =>
      alias ← lift (py_int v);
      i ← gets inbound;
      if (alias =? 0) || (alias >? Inb._topic_alias_maximum i) then _protocol_disconnect config 0x94;; raise ProtocolError
      else
        match topic with
        | _ :: _ => in_modify (λ i, Inb.set_aliases (<[alias := topic]> (Inb._aliases i)) i);; mret topic
        | [] =>
            match Inb._aliases i !! alias with
            | None => _protocol_disconnect config 0x94;; raise ProtocolError
            | Some topic => mret topic
            end
        end
  end.

(** ** PUBLISH *)

Definition _on_publish_v311 (raw : RawPacket) : MS unit :=
  let qos_raw := raw_qos raw in
  if qos_raw =? 0 then
    message ← lift (decode_qos0_message_v311 raw);
    _emit (Effect.MESSAGE message false None None)
  else if qos_raw =? 3 then raise MalformedPacketError
  else
    '(topic, payload, mid, retain, dup) ← lift (decode_qos12_fields_v311 raw);
    (if qos_raw =? 1 then _on_qos1 else _on_qos2) topic payload mid retain dup None None.

(** [property_wire_size if property_wire_size and properties.values else None]. *)
Definition trusted_size (property_wire_size : Z) (properties : propmap) : option Z :=
  if negb (property_wire_size =? 0) && negb (bool_decide (properties = [])) then Some property_wire_size else None.

(** Resolution of the alias of a received PUBLISH, when it has one or no topic:
    the topic, the properties without the alias and the wire size to trust. *)
Definition resolve_publish (topic : pystr) (properties : propmap) (property_wire_size : Z) :
    MS (pystr * propmap * Z) :=
  if bool_decide (topic = []) || is_set (pget (Some properties) "topic_alias") then
    topic ← _resolve_topic_fields topic (Some properties);
    match _properties_without_topic_alias (Some properties) with
    | None => raise AssertionError
    | Some properties => mret (topic, properties, 0)
    end
  else mret (topic, properties, property_wire_size).

Definition _on_publish_v5 (raw : RawPacket) : MS unit :=
  let qos_raw := raw_qos raw in
  if qos_raw =? 0 then
    '(message, property_wire_size) ← lift (decode_qos0_message_v5 raw);
    match m_properties message with
    | None => raise AssertionError
    | Some properties =>
        let aliased := bool_decide (m_topic message = []) || is_set (pget (Some properties) "topic_alias") in
        '(topic, properties, property_wire_size) ← resolve_publish (m_topic message) properties property_wire_size;
        let message := if aliased
                       then _decoded_message topic (m_payload message) AT_MOST_ONCE (m_retain message) false None
                              (Some properties)
                       else message in
        deliver message false (trusted_size property_wire_size properties) None
    end
  else if qos_raw =? 3 then raise MalformedPacketError
  else
    qos ← lift (QoS_of qos_raw);
    '(topic, payload, decoded_mid, retain, dup, properties, property_wire_size) ←
      lift (decode_publish_fields_v5 raw qos);
    '(topic, properties, property_wire_size) ← resolve_publish topic properties property_wire_size;
    match decoded_mid with
    | None => raise AssertionError
    | Some mid =>
        (if bool_decide (qos = AT_LEAST_ONCE) then _on_qos1 else _on_qos2) topic payload mid retain dup
          (Some properties) (trusted_size property_wire_size properties)
    end.

(** [self.handle_publish], bound once from the protocol version. *)
Definition handle_publish := if is_v5 then _on_publish_v5 else _on_publish_v311.

(** ** PUBREL, delivery marks and application acknowledgement *)

Definition on_pubrel (raw : RawPacket) : MS unit :=
  '(mid, _, properties) ← lift (b_decode_pubrel (codec config) (remaining raw));
  only_if (is_set properties) (_validate_inbound_problem_information config properties);;
  record ← _lookup_stored_inbound mid;
  match record : option InboundRecordMeta with
  | None => answer encode_pubcomp_success mid
  | Some record =>
      let state := im_state record in
      let finish :=
        if negb (im_delivered record) && negb (im_user_acked record)
        then in_modify (λ i, Inb.set_completions (<[mid := state]> (Inb._pending_completions i)) i)
        else _complete_qos2 mid state in
      if bool_decide (state = WAIT_USER_ACK) then (if manual_ack config then mret tt else finish)
      else if negb (bool_decide (state = WAIT_PUBREL)) then raise ProtocolError
      else if manual_ack config && negb (im_user_acked record) then
        changed ← call (transition_in mid WAIT_PUBREL WAIT_USER_ACK None);
        match changed with None => raise RuntimeError | Some _ => mret tt end
      else finish
  end.

Definition mark_delivered (mid : Z) (token : option Z) : MS unit :=
  i ← gets inbound;
  if is_set token && negb (bool_decide (Inb._exchange_tokens i !! mid = token)) then mret tt
  else
    let waiting := Inb._pending_completions i !! mid in
    in_modify (λ i, Inb.set_completions (delete mid (Inb._pending_completions i)) i);;
    match waiting with
    | None => only_if (negb (Inb._stored_inbound i =? 0)) (call (mark_in_delivered mid);; mret tt)
    | Some state => if bool_decide (state = WAIT_PUBACK) then _complete_qos1 mid else _complete_qos2 mid state
    end.

(** Whether a message names the current exchange of an identifier. *)
Definition names_exchange (mid : Z) (message : Message) (i : Inb.InboundSession) : bool :=
  bool_decide (m_mid message = Some mid) && is_set (m_ack_token message) &&
  bool_decide (Inb._exchange_tokens i !! mid = m_ack_token message).

Definition ack (mid : Z) (message : option Message) : MS unit :=
  i ← gets inbound;
  if negb (manual_ack config) then raise ProtocolError
  else if match message with Some message => negb (names_exchange mid message i) | None => false end
  then raise ProtocolError
  else
    record ← _lookup_stored_inbound mid;
    match record : option InboundRecordMeta with
    | None => raise ProtocolError
    | Some record =>
        match im_state record with
        | In.WAIT_PUBREL =>
            changed ← call (transition_in mid WAIT_PUBREL WAIT_PUBREL (Some true));
            match changed with None => raise ProtocolError | Some _ => mret tt end
        | In.WAIT_PUBACK =>
            wire ← lift (encode_puback_success mid);
            _check_outbound_size (Contiguous wire);;
            in_modify (λ i, Inb.set_manual_acks (Inb._pending_manual_qos1_acks i ∪ {[mid]}) i);;
            _drain_manual_qos1_acks
        | In.WAIT_USER_ACK =>
            wire ← lift (encode_pubcomp_success mid);
            _check_outbound_size (Contiguous wire);;
            _complete_qos2 mid WAIT_USER_ACK
        | In.DONE => raise ProtocolError
        end
    end.

(** ** Restart redelivery *)

Definition _should_redeliver (inbound : InboundMessage) (i : Inb.InboundSession) : bool :=
  if negb (i_delivered inbound) then true
  else if negb (bool_decide (i_mid inbound ∈ Inb._recovered_mids i)) || negb (manual_ack config) then false
  else
    match i_state inbound with
    | In.WAIT_PUBACK | In.WAIT_USER_ACK => true
    | In.WAIT_PUBREL => negb (i_user_acked inbound)
    | In.DONE => false
    end.

(** [self._replay = None; self._recovered_mids.clear()]. *)
Definition end_replay : MS unit := in_modify (λ i, Inb.set_recovered ∅ (Inb.set_replay None i)).
(** Assignments to the cursor object held in [self._replay]. *)
Definition set_cursor (c : Inb.InboundReplayCursor) : MS unit := in_modify (Inb.set_replay (Some c)).

(** [cursor.begin_page()]; a generator that raised is finished. *)
Definition begin_page (c : Inb.InboundReplayCursor) : MS bool :=
  if Cursor.in_page c then mret true
  else
    '(page, pages) ← try_except (call (in_replay_next (Inb._pages c)))
      (λ x, set_cursor (Inb.mkCursor GDone (Inb._page_messages c) (Inb._pending c) (Inb._remaining c));; raise x);
    let '(more, c) := Cursor.turn_page page pages c in
    set_cursor c;; mret more.

(** The loop of [drain_replay]; [fuel] bounds the messages the cursor holds. *)
Fixpoint replay_batch (fuel : nat) (emitted emitted_bytes : Z) : MS unit :=
  match fuel with
  | O => mret tt
  | Datatypes.S fuel =>
      if (emitted <? REPLAY_BATCH_MESSAGES) && (emitted_bytes <? REPLAY_BATCH_BYTES) then
        i ← gets inbound;
        match Inb._replay i with
        | None => mret tt
        | Some c =>
            let '(message, c) := Cursor.next_page_message c in
            set_cursor c;;
            match message with
            | None => mret tt
            | Some l =>
                inbound ← deref_in l;
                if negb (_should_redeliver inbound i) then replay_batch fuel emitted emitted_bytes
                else
                  let message_bytes := i_logical_size inbound in
                  if negb (emitted =? 0) && (emitted_bytes + message_bytes >? REPLAY_BATCH_BYTES)
                  then c ← lift (Cursor.push_back l c); set_cursor c
                  else
                    _emit_message inbound true;;
                    replay_batch fuel (emitted + 1) (emitted_bytes + message_bytes)
            end
        end
      else mret tt
  end.

Definition drain_replay : MS unit :=
  i ← gets inbound;
  match Inb._replay i with
  | None => mret tt
  | Some c =>
      more ← begin_page c;
      if negb more then end_replay
      else
        i ← gets inbound;
        replay_batch (Datatypes.S match Inb._replay i with Some c => length (Cursor.held c) | None => 0%nat end) 0 0;;
        i ← gets inbound;
        match Inb._replay i with
        | Some c => if Cursor.bounded_complete c then end_replay else _emit Effect.CONTINUE_INBOUND_REPLAY
        | None => mret tt
        end
  end.

Definition replay_session : MS unit :=
  persisted ← call in_count;
  in_modify (Inb.set_current ∅);;
  if persisted =? 0 then in_modify (Inb.set_recovered ∅)
  else
    set_cursor (Cursor.init (in_replay_pages REPLAY_BATCH_MESSAGES REPLAY_BATCH_BYTES) persisted);;
    drain_replay.
End inbound.
