(* ===== verification/Engine.v ===== *)
(** * The protocol engine ([src/mqttium/protocol/engine.py])

    Construction, the connection state machine, subscription requests, the
    CONNECT/CONNACK handshake, enhanced authentication and the dispatch of
    received packets to the sessions. *)

From S2P Require Import Prelude Vbi PyStr Primitives Enums Properties Topics Frame Ack Publish Handshake.
From S2P Require Import Subscription Types Buffer PacketIds Settings Store EngineState Outbound Inbound.

(** A topic of [subscribe]: with the call's QoS, with options, or with a QoS. *)
Inductive sub_item :=
  | Named (topic : pystr)
  | WithOptions (topic : pystr) (options : SubscribeOptions)
  | WithQoS (topic : pystr) (qos : qos_arg).

(** [SubscriptionRequest]: an encoder awaiting its identifier, the expected
    acknowledgement and its entry count. *)
Definition SubscriptionRequest : Type := (Z → res bytes) * PacketType * Z.

Definition _CLIENT_AUTH_REASON_CODES : list Z := [0x18; 0x19].

(** Comparing a property with a text: [value == text]. *)
Definition prop_is (v : option pyval) (text : option pystr) : bool :=
  match v, text with
  | None, None => true
  | Some (VStr s), Some t => bool_decide (s = t)
  | _, _ => false
  end.

Section engine.
Context {S : Type} `{OutStore S, InStore S} (config : EngineConfig) (pop : gset Z → Z).

Abbreviation MS := (M S).
Abbreviation is_mqtt5 := (b_is_mqtt5 (codec config)).
Abbreviation v5 := (bool_decide (protocol config = MQTTv5)).

(** ** Construction *)

(** The attributes assigned before the sessions load anything. *)
Definition engine_new (h : Heap) (s : S) : Engine S :=
  mkEngine NEW NegotiatedSettings_default [] [] (OutboundSession_init config) Inb.blank
    (mkConn false false (match client_id config with [] => None | id => Some id end) (client_id config) false None
       (maximum_packet_size config) 1 0 None false 0 None) h s.

Definition ProtocolEngine_init (h : Heap) (s : S) : res unit * Engine S :=
  (InboundSession_init config;; hydrate) (engine_new h s).

(** ** Effects *)

Definition take_effects : MS (list Effect.t) :=
  e ← gets id;
  modify (set_effects []);;
  only_if (negb (bool_decide (Inb._pending_auto_qos1_mids (inbound e) = ∅)) ||
           negb (bool_decide (Inb._pending_pubcomps (inbound e) = ∅)))
    (in_modify release_pending_acks);;
  mret (_effects e).

Definition has_pending_effects (e : Engine S) : bool := negb (bool_decide (length (_effects e) = 0%nat)).

(** ** CONNECT *)

Definition _client_id_for_connect (clean_start : bool) (e : Engine S) : res pystr :=
  let client_id :=
    match client_id config, _session_client_id (conn e) with
    | [], Some (c :: id) => if _prefer_session_resume (conn e) then c :: id else []
    | id, _ => id
    end in
  raise! ProtocolError when
    v5 && bool_decide (client_id = []) && negb clean_start &&
    (Outbound.has_client_session_state (outbound e) || Inbound.has_client_session_state (inbound e));
  Ok client_id.

(** The CONNECT properties sent: those of the configuration with the limits. *)
Definition connect_properties_sent : option propmap :=
  if v5 then
    let values := match connect_properties config with Some ps => ps | None => [] end in
    let values := dset "receive_maximum"%string (VInt (max_inbound_inflight config)) values in
    let values :=
      match maximum_packet_size config with
      | Some n => dset "maximum_packet_size"%string (VInt n) values
      | None => values
      end in
    let values :=
      if topic_alias_maximum config =? 0 then values
      else dset "topic_alias_maximum"%string (VInt (topic_alias_maximum config)) values in
    Some (Properties_init values)
  else connect_properties config.

(** The limits as the CONNECT declares them. *)
Definition sent_limits (connect_props : option propmap) : res (Z * Z * option Z) :=
  match (if v5 then connect_props else None) with
  | Some ps =>
      let! receive_maximum := py_int (dget_or ps "receive_maximum" (VInt 65535)) in
      let! alias_maximum := py_int (dget_or ps "topic_alias_maximum" (VInt 0)) in
      match pget (Some ps) "maximum_packet_size" with
      | None => Ok (receive_maximum, alias_maximum, None)
      | Some v => let! n := py_int v in Ok (receive_maximum, alias_maximum, Some n)
      end
  | None => Ok (max_inbound_inflight config, topic_alias_maximum config, maximum_packet_size config)
  end.

(** [default if value is None else int(value)]. *)
Definition int_or (default : Z) (v : option pyval) : res Z :=
  match v with None => Ok default | Some v => py_int v end.

(** Validation and encoding: nothing of the engine changes. *)
Definition prepare_connect (e : Engine S) : res (pystr * bool * option propmap * bytes) :=
  raise! ProtocolError when
    match state e with CONNECTED | CONNECTING | DISCONNECTING => true | _ => false end;
  let clean_start := clean_start config && negb (_prefer_session_resume (conn e)) in
  let! client_id := _client_id_for_connect clean_start e in
  let configured_auth_method := pget (connect_properties config) "authentication_method" in
  raise! ProtocolError when negb v5 && is_set (password config) && negb (is_set (username config));
  raise! ProtocolError when
    accept_auth config && negb (match configured_auth_method with Some v => py_bool v | None => false end);
  raise! ProtocolError when negb v5 && bool_decide (client_id = []) && negb clean_start;
  let connect_props := connect_properties_sent in
  let! _ := match will config with Some w => validate_publish_topic (m_topic w) false | None => Ok 0 end in
  let! wire := connect_encode
    {| c_client_id := client_id; c_clean_start := clean_start; c_keepalive := keepalive config;
       c_username := username config; c_password := password config;
       c_will_topic := m_topic <$> will config;
       c_will_payload := match will config with Some w => m_payload w | None => [] end;
       c_will_qos := match will config with Some w => QoS_int (m_qos w) | None => 0 end;
       c_will_retain := match will config with Some w => m_retain w | None => false end;
       c_will_properties := will_properties config; c_protocol := protocol config;
       c_properties := connect_props |} in
  Ok (client_id, clean_start, connect_props, wire).

Definition begin_connect : MS bytes :=
  e ← gets id;
  '(client_id, clean_start, connect_props, wire) ← lift (prepare_connect e);
  '(receive_maximum, alias_maximum, packet_size) ← lift (sent_limits connect_props);
  conn_modify (λ c,
    mkConn (session_present c) (_prefer_session_resume c) (_session_client_id c) client_id clean_start
      (int_prop (pget connect_props "session_expiry_interval")) packet_size
      (_sent_request_problem_information c) (_sent_request_response_information c)
      (text_prop (pget (connect_properties config) "authentication_method")) false (_auth_challenges c) None);;
  problem ← lift (int_or 1 (pget connect_props "request_problem_information"));
  conn_modify (set_request_problem problem);;
  response ← lift (int_or 0 (pget connect_props "request_response_information"));
  conn_modify (set_request_response response);;
  modify (set_state CONNECTING);;
  Outbound.start_connection;;
  Inbound.start_connection receive_maximum alias_maximum;;
  modify (set_negotiated NegotiatedSettings_default);;
  mret wire.

(** ** Subscription requests *)

(** [topic.startswith("$share/")], [properties and properties.get(...)]. *)
Definition _check_subscribe_capabilities (n : NegotiatedSettings) (topic : pystr) (options : SubscribeOptions)
    (properties : option propmap) : res unit :=
  raise! ProtocolError when startswith topic SHARE && so_no_local options;
  raise! ProtocolError when startswith topic SHARE && negb (n_shared_subscription_available n);
  raise! ProtocolError when has_wildcard topic && negb (n_wildcard_subscription_available n);
  raise! ProtocolError when
    is_set (pget properties "subscription_identifier") && negb (n_subscription_identifier_available n);
  Ok tt.

Definition default_options (qos : QoS) : SubscribeOptions :=
  {| so_qos := QoS_int qos; so_no_local := false; so_retain_as_published := false; so_retain_handling := 0 |}.

(** One item of the loop of [prepare_subscribe]. *)
Definition subscription_of (n : NegotiatedSettings) (item : sub_item) (qos : qos_arg) (properties : option propmap) :
    res Subscription :=
  let! '(topic, options) :=
    match item with
    | Named topic => let! q := to_QoS qos in Ok (topic, default_options q)
    | WithOptions topic options => Ok (topic, options)
    | WithQoS topic opt => let! q := to_QoS opt in Ok (topic, default_options q)
    end in
  let! _ := validate_subscribe_filter topic in
  let! _ := _check_subscribe_capabilities n topic options properties in
  Ok {| Subscription.s_topic := topic; Subscription.s_options := options |}.

Fixpoint subscriptions_of (n : NegotiatedSettings) (items : list sub_item) (qos : qos_arg)
    (properties : option propmap) : res (list Subscription) :=
  match items with
  | [] => Ok []
  | item :: items =>
      let! s := subscription_of n item qos properties in
      let! subs := subscriptions_of n items qos properties in
      Ok (s :: subs)
  end.

Definition prepare_subscribe (items : list sub_item) (qos : qos_arg) (properties : option propmap) (e : Engine S) :
    res SubscriptionRequest :=
  raise! NotConnectedError when negb (connected e);
  raise! ProtocolError when negb v5 && has_values properties;
  let! subs := subscriptions_of (negotiated e) items qos properties in
  Ok (λ mid, b_encode_subscribe (codec config) mid subs properties, SUBACK, len subs).

Fixpoint validate_filters (topics : list pystr) : res unit :=
  match topics with
  | [] => Ok tt
  | topic :: topics => let! _ := validate_subscribe_filter topic in validate_filters topics
  end.

Definition prepare_unsubscribe (topics : list pystr) (e : Engine S) : res SubscriptionRequest :=
  raise! NotConnectedError when negb (connected e);
  raise! ProtocolError when bool_decide (topics = []);
  let! _ := validate_filters topics in
  Ok (λ mid, b_encode_unsubscribe (codec config) mid topics None, UNSUBACK, len topics).

Definition _send_subscription_request (request : SubscriptionRequest) : MS Z :=
  let '(encode, ack_type, expected_count) := request in
  mid ← ids_allocate pop;
  wire ← try_except (wire ← lift (encode mid); _check_outbound_size (Contiguous wire);; mret wire)
           (λ x, ids_release mid;; raise x);
  modify (λ e, set_pending_sub (dset mid (ack_type, expected_count) (_pending_sub_requests e)) e);;
  _send (Contiguous wire);;
  mret mid.

Definition queue_subscription_request := _send_subscription_request.
Definition queue_subscribe (items : list sub_item) (qos : qos_arg) (properties : option propmap) : MS Z :=
  e ← gets id; request ← lift (prepare_subscribe items qos properties e); queue_subscription_request request.
Definition queue_unsubscribe (topics : list pystr) : MS Z :=
  e ← gets id; request ← lift (prepare_unsubscribe topics e); queue_subscription_request request.

(** The tests of [_complete_subscription_request]. *)
Definition _complete_subscription_request (mid : Z) (ack_type : PacketType) (reason_count : option Z) : MS unit :=
  subs ← gets _pending_sub_requests;
  match dget mid subs with
  | None => raise ProtocolError
  | Some (expected_type, expected_count) =>
      if negb (bool_decide (ack_type = expected_type)) then raise ProtocolError
      else if match reason_count with Some n => negb (n =? expected_count) | None => false end
      then raise ProtocolError
      else
        modify (set_pending_sub (ddel mid subs));;
        ids_release mid
  end.

Definition _on_suback (raw : RawPacket) : MS unit :=
  '(mid, reason_codes, properties) ← lift (b_decode_suback (codec config) (remaining raw));
  _validate_inbound_problem_information config properties;;
  _complete_subscription_request mid SUBACK (Some (len reason_codes));;
  _emit (Effect.SUBACK (mid, reason_codes, properties)).

Definition _on_unsuback (raw : RawPacket) : MS unit :=
  '(mid, reason_codes, properties) ← lift (b_decode_unsuback (codec config) (remaining raw));
  _validate_inbound_problem_information config properties;;
  _complete_subscription_request mid UNSUBACK (if is_mqtt5 then Some (len reason_codes) else None);;
  _emit (Effect.UNSUBACK (mid, reason_codes, properties)).

(** ** PING and DISCONNECT *)

Definition queue_ping : MS unit :=
  e ← gets id;
  if negb (connected e) then raise NotConnectedError
  else
    let wire := Contiguous (b_pingreq_frame (codec config)) in
    _check_outbound_size wire;; _send wire.

Definition _on_pingresp (raw : RawPacket) : MS unit :=
  if bool_decide (remaining raw = []) then _emit Effect.PINGRESP else raise MalformedPacketError.

Definition _check_disconnect_session_expiry (properties : option propmap) (c : Connection) : res unit :=
  if negb is_mqtt5 then Ok tt
  else if negb (match pget properties "session_expiry_interval" with Some v => py_bool v | None => false end) then Ok tt
  else
    raise! ProtocolError when
      match _sent_session_expiry_interval c with Some z => z =? 0 | None => true end;
    Ok tt.

Definition begin_disconnect (reason_code : Z) (properties : option propmap) : MS bytes :=
  e ← gets id;
  if negb (bool_decide (state e = CONNECTING)) && negb (connected e) then raise NotConnectedError
  else
    lift (_check_disconnect_session_expiry properties (conn e));;
    wire ← lift (b_encode_disconnect (codec config) reason_code properties);
    _check_outbound_size (Contiguous wire);;
    modify (set_state DISCONNECTING);;
    mret wire.

Definition notify_transport_closed : MS unit :=
  was ← gets state;
  _enter_disconnected;;
  Outbound.transport_closed;;
  Inbound.transport_closed;;
  _release_pending_subscription_requests;;
  only_if (negb (bool_decide (was = DISCONNECTED))) (_emit (Effect.DISCONNECTED 0 None false)).

Definition _on_disconnect (raw : RawPacket) : MS unit :=
  '(reason_code, properties) ← lift (b_decode_disconnect (codec config) (remaining raw));
  _enter_disconnected;;
  _release_pending_subscription_requests;;
  _emit (Effect.DISCONNECTED reason_code properties true);;
  if is_mqtt5 && is_set (pget properties "session_expiry_interval") then raise ProtocolError else mret tt.

(** ** CONNACK *)

(** [self._protocol_disconnect(0x82); raise ProtocolError(...)]. *)
Definition refuse {A} : MS A := _protocol_disconnect config 0x82;; raise ProtocolError.

Definition _validate_connack_v5 (connack : ConnAckPacket) : MS unit :=
  e ← gets id;
  let method := _auth_method (conn e) in
  let connack_method := pget (ca_properties connack) "authentication_method" in
  if is_set connack_method && negb (prop_is connack_method method) then refuse
  else if (ca_reason_code connack =? 0) && is_set method && negb (is_set connack_method) then refuse
  else if is_set (pget (ca_properties connack) "authentication_data") && negb (is_set method) then refuse
  else if (_sent_request_response_information (conn e) =? 0) &&
          is_set (pget (ca_properties connack) "response_information") then refuse
  else mret tt.

Definition _validate_accepted_connack (connack : ConnAckPacket) : MS unit :=
  e ← gets id;
  if is_mqtt5 && bool_decide (_sent_client_id (conn e) = []) &&
     negb (match pget (ca_properties connack) "assigned_client_identifier" with Some v => py_bool v | None => false end)
  then refuse
  else if ca_session_present connack && _sent_clean_start (conn e) then refuse
  else mret tt.

Definition _update_session_resume_preference : MS unit :=
  modify (λ e, set_conn (set_prefer_resume
    (if v5 then match n_session_expiry_interval (negotiated e) with Some z => negb (z =? 0) | None => false end
     else negb (clean_start config)) (conn e)) e).

(** [if self._sent_client_id: ... elif assigned_client_id: ...]. *)
Definition remember_client_id : MS unit :=
  modify (λ e, set_conn
    (match _sent_client_id (conn e), n_assigned_client_identifier (negotiated e) with
     | [], Some (c :: id) => set_session_client_id (Some (c :: id)) (conn e)
     | [], _ => conn e
     | id, _ => set_session_client_id (Some id) (conn e)
     end) e).

(** The session settled after an accepted CONNACK. *)
Definition settle_session (session_present : bool) : MS unit :=
  if session_present then Outbound.replay_session config
  else
    subs ← gets _pending_sub_requests;
    purge_after_clean_session (negb (bool_decide (dkeys subs = [])));;
    discard_session;;
    reset_flow_for_connection config;;
    fail_queued_violating_negotiation config.

Definition _on_connack (raw : RawPacket) : MS unit :=
  st ← gets state;
  if negb (bool_decide (st = CONNECTING)) then raise ProtocolError
  else
    '(present, reason_code, properties) ← lift (b_decode_connack (codec config) (remaining raw));
    let connack := {| ca_session_present := present; ca_reason_code := reason_code; ca_properties := properties |} in
    only_if is_mqtt5 (_validate_connack_v5 connack);;
    if negb (reason_code =? 0) then
      _enter_disconnected;;
      _emit (Effect.CONNACK connack);;
      _emit (Effect.DISCONNECTED reason_code properties true)
    else
      _validate_accepted_connack connack;;
      e ← gets id;
      n ← lift (_from_connack properties (_sent_session_expiry_interval (conn e)));
      modify (set_negotiated n);;
      remember_client_id;;
      if is_mqtt5 && match n_maximum_packet_size n with Some limit => limit <? 4 | None => false end then
        _enter_disconnected;; raise MandatoryResponseTooLargeError
      else
        only_if present
          (try_except (check_session_replayable config)
             (λ x, only_if (match x with SessionReplayError => true | _ => false end) _enter_disconnected;; raise x));;
        conn_modify (set_auth_exchange false None);;
        modify (set_state CONNECTED);;
        conn_modify (set_session_present present);;
        _update_session_resume_preference;;
        settle_session present;;
        _emit (Effect.CONNACK connack);;
        only_if present (Inbound.replay_session config);;
        drain config.

(** ** Enhanced authentication *)

Definition _on_auth (raw : RawPacket) : MS unit :=
  if negb is_mqtt5 then refuse
  else
    '(reason_code, properties) ← lift (b_decode_auth (codec config) (remaining raw));
    _validate_inbound_problem_information config properties;;
    e ← gets id;
    if negb (is_set (_auth_method (conn e))) then refuse
    else if negb (prop_is (pget properties "authentication_method") (_auth_method (conn e))) then refuse
    else if reason_code =? 0x19 then refuse
    else
      match state e with
      | CONNECTING => if negb (reason_code =? 0x18) then refuse else mret tt
      | CONNECTED =>
          if negb (_reauth_in_progress (conn e)) then refuse
          else if reason_code =? 0 then conn_modify (set_auth_exchange false None)
          else if negb (reason_code =? 0x18) then refuse
          else mret tt
      | _ => mret tt
      end;;
      if negb (accept_auth config) then _protocol_disconnect config 0x82
      else if reason_code =? 0x18 then
        conn_modify (λ c, set_auth_challenges (_auth_challenges c + 1) c);;
        conn_modify (λ c, set_auth_exchange (_reauth_in_progress c) (Some (_auth_challenges c)) c);;
        e ← gets id;
        _emit (Effect.AUTH reason_code properties (Some (_auth_challenges (conn e))))
      else _emit (Effect.AUTH reason_code properties None).

Definition queue_auth (reason_code : Z) (properties : option propmap) : MS unit :=
  e ← gets id;
  let c := conn e in
  if negb v5 then raise ProtocolError
  else if negb (bool_decide (state e = CONNECTING)) && negb (connected e) then raise NotConnectedError
  else
    match _auth_method c with
    | None => raise ProtocolError
    | Some auth_method =>
        if negb (zin reason_code _CLIENT_AUTH_REASON_CODES) then raise ProtocolError
        else if (reason_code =? 0x19) && (negb (connected e) || _reauth_in_progress c) then raise ProtocolError
        else if negb (reason_code =? 0x19) && connected e && negb (_reauth_in_progress c) then raise ProtocolError
        else
          let auth_properties := Properties_init (match properties with Some ps => ps | None => [] end) in
          let method := pget (Some auth_properties) "authentication_method" in
          if is_set method && negb (prop_is method (Some auth_method)) then raise ProtocolError
          else
            let auth_properties :=
              if is_set method then auth_properties
              else Properties_init (dset "authentication_method"%string (VStr auth_method) auth_properties) in
            wire ← lift (auth_encode reason_code (Some auth_properties) (protocol config));
            _check_outbound_size (Contiguous wire);;
            _send (Contiguous wire);;
            conn_modify (λ c, set_auth_exchange ((reason_code =? 0x19) || _reauth_in_progress c) None c)
    end.

(** [challenge] is the token of an AUTH effect, [None] when it expects no
    answer. *)
Definition respond_auth (challenge : option Z) (reason_code : Z) (properties : option propmap) : MS bool :=
  e ← gets id;
  match challenge with
  | None => mret false
  | Some _ =>
      if negb (bool_decide (challenge = _auth_response_due (conn e))) then mret false
      else if negb (bool_decide (state e = CONNECTING)) && negb (connected e) then mret false
      else queue_auth reason_code properties;; mret true
  end.

(** ** The facade of the sessions *)

Definition seal_publications (mids : list Z) : MS unit := seal mids.
Definition continue_inbound_replay : MS unit := drain_replay config.
Definition mark_inbound_delivered (mid : Z) (token : option Z) : MS unit := mark_delivered mid token.
Definition ack (mid : Z) (message : option Message) : MS unit :=
  e ← gets id;
  if negb (connected e) then raise NotConnectedError else Inbound.ack config mid message.

Definition effective_client_id (e : Engine S) : pystr :=
  match n_assigned_client_identifier (negotiated e) with
  | Some (c :: id) => c :: id
  | _ => match _sent_client_id (conn e) with [] => client_id config | id => id end
  end.

(** ** Dispatch *)

(** [_handlers_by_state]. *)
Definition handler_of (st : ConnectionState) (t : PacketType) : option (RawPacket → MS unit) :=
  match st, t with
  | CONNECTING, CONNACK => Some _on_connack
  | CONNECTING, AUTH => Some _on_auth
  | CONNECTED, PUBLISH => Some (handle_publish config)
  | CONNECTED, PUBACK => Some (on_puback config)
  | CONNECTED, PUBREC => Some (on_pubrec config)
  | CONNECTED, PUBREL => Some (on_pubrel config)
  | CONNECTED, PUBCOMP => Some (on_pubcomp config)
  | CONNECTED, SUBACK => Some _on_suback
  | CONNECTED, UNSUBACK => Some _on_unsuback
  | CONNECTED, PINGRESP => Some _on_pingresp
  | CONNECTED, DISCONNECT => Some _on_disconnect
  | CONNECTED, AUTH => Some _on_auth
  | _, _ => None
  end.

(** The exceptions [handle_raw] turns into PROTOCOL_ERROR effects: the
    [except] clauses in order. *)
Definition peer_error (x : exn) : bool :=
  match x with
  | MandatoryResponseTooLargeError | AssertionError => false
  | MalformedPacketError => true
  | _ => is_protocol_error x
  end.

Definition handle_raw (raw : RawPacket) : MS (option exn) :=
  st ← gets state;
  if bool_decide (st = DISCONNECTING) || bool_decide (st = DISCONNECTED) then mret None
  else
    try_except
      (lift (validate_raw_packet raw);;
       match handler_of st (packet_type raw) with
       | None => raise ProtocolError
       | Some handler => handler raw
       end;;
       mret None)
      (λ x, if peer_error x then _emit (Effect.PROTOCOL_ERROR x);; mret (Some x) else raise x).
End engine.
