(* ===== verification/Wp.v ===== *)
(** * Reasoning about session methods

    [wp m Q R e]: from state [e], the method [m] either returns a value and a
    state satisfying [Q] or raises an exception leaving a state satisfying [R].
    The rules follow the constructs of the monad; those for store calls are the
    laws of [OutStoreLaws] on the table of rows. *)

From S2P Require Import Prelude Enums Types Store EngineState Outbound.

Section wp.
Context {S : Type}.
Implicit Types (e : Engine S).

Definition wp {A} (m : M S A) (Q : A → Engine S → Prop) (R : exn → Engine S → Prop) e : Prop :=
  match m e with (Ok a, e') => Q a e' | (Raise x, e') => R x e' end.

Lemma wp_mono {A} (m : M S A) (Q Q' : A → Engine S → Prop) (R R' : exn → Engine S → Prop) e :
  wp m Q R e → (∀ a e', Q a e' → Q' a e') → (∀ x e', R x e' → R' x e') → wp m Q' R' e.
Proof. unfold wp. destruct (m e) as [[a | x] e']; auto. Qed.

Lemma wp_and {A} (m : M S A) (Q Q' : A → Engine S → Prop) (R R' : exn → Engine S → Prop) e :
  wp m Q R e → wp m Q' R' e → wp m (λ a e', Q a e' ∧ Q' a e') (λ x e', R x e' ∧ R' x e') e.
Proof. unfold wp. destruct (m e) as [[a | x] e']; auto. Qed.

Lemma wp_impl {A} (P : Prop) (m : M S A) (Q : A → Engine S → Prop) e :
  (P → wp m Q (λ _ _, True) e) → wp m (λ a e', P → Q a e') (λ _ _, True) e.
Proof. unfold wp. destruct (m e) as [[a | x] e']; auto. Qed.

Lemma wp_bind {A B} (m : M S A) (k : A → M S B) Q R e :
  wp m (λ a, wp (k a) Q R) R e → wp (m ≫= k) Q R e.
Proof. unfold wp, mbind, M_bind. by destruct (m e) as [[a | x] e']. Qed.

Lemma wp_ret {A} (a : A) (Q : A → Engine S → Prop) R e : Q a e → wp (mret a) Q R e.
Proof. done. Qed.

Lemma wp_eta {A} (m : M S A) (Q : A → Engine S → Prop) R e : wp (m ≫= mret) Q R e → wp m Q R e.
Proof. unfold wp, mbind, M_bind. by destruct (m e) as [[a | x] e']. Qed.

Lemma wp_raise {A} x (Q : A → Engine S → Prop) (R : exn → Engine S → Prop) e : R x e → wp (raise x) Q R e.
Proof. done. Qed.

Lemma wp_lift {A} (r : res A) (Q : A → Engine S → Prop) (R : exn → Engine S → Prop) e :
  (∀ a, r = Ok a → Q a e) → (∀ x, r = Raise x → R x e) → wp (lift r) Q R e.
Proof. unfold wp, lift. destruct r; auto. Qed.

Lemma wp_lift_bind {A B} (r : res A) (k : A → M S B) Q (R : exn → Engine S → Prop) e :
  (∀ a, r = Ok a → wp (k a) Q R e) → (∀ x, R x e) → wp (lift r ≫= k) Q R e.
Proof. intros Hk HR. apply wp_bind, wp_lift; auto. Qed.

Lemma wp_gets {A} (f : Engine S → A) (Q : A → Engine S → Prop) R e : Q (f e) e → wp (gets f) Q R e.
Proof. done. Qed.

Lemma wp_modify f (Q : unit → Engine S → Prop) R e : Q tt (f e) → wp (modify f) Q R e.
Proof. done. Qed.

Lemma wp_out f (Q : unit → Engine S → Prop) R e :
  Q tt (set_outbound (f (outbound e)) e) → wp (out_modify f) Q R e.
Proof. done. Qed.

Lemma wp_try {A} (m : M S A) (h : exn → M S A) Q R e :
  wp m Q (λ x, wp (h x) Q R) e → wp (try_except m h) Q R e.
Proof. unfold wp, try_except. by destruct (m e) as [[a | x] e']. Qed.

(** Sequencing a fragment whose postconditions are steps from its start. *)
Lemma wp_then {A B} (m : M S A) (k : A → M S B) (P : A → Engine S → Prop) (PR : exn → Engine S → Prop) Q R e :
  wp m P PR e → (∀ a e', P a e' → wp (k a) Q R e') → (∀ x e', PR x e' → R x e') → wp (m ≫= k) Q R e.
Proof. intros Hm Hk HR. apply wp_bind. by eapply wp_mono. Qed.

Lemma wp_only_if c m (Q : unit → Engine S → Prop) R e :
  (c = true → wp m Q R e) → (c = false → Q tt e) → wp (only_if c m) Q R e.
Proof. unfold only_if. destruct c; intros; [auto | apply wp_ret; auto]. Qed.

Lemma wp_if {A} (c : bool) (m n : M S A) Q R e :
  (c = true → wp m Q R e) → (c = false → wp n Q R e) → wp (if c then m else n) Q R e.
Proof. destruct c; auto. Qed.

(** A loop: the invariant knows what is left to do. *)
Lemma wp_for_fold {A B} (I : list A → B → Engine S → Prop) (R : exn → Engine S → Prop) (body : A → B → M S B) l :
  (∀ x l acc e, I (x :: l) acc e → wp (body x acc) (I l) R e) →
  ∀ acc e, I l acc e → wp (for_fold l body acc) (I []) R e.
Proof.
  intros Hb. induction l as [| x l IH]; intros acc e HI; [exact HI |]. cbn [for_fold]. apply wp_bind.
  eapply wp_mono; [by apply Hb | exact IH | done].
Qed.

Lemma wp_for_each {A} (I : list A → Engine S → Prop) (R : exn → Engine S → Prop) (body : A → M S unit) l :
  (∀ x l e, I (x :: l) e → wp (body x) (λ _, I l) R e) →
  ∀ e, I l e → wp (for_each l body) (λ _, I []) R e.
Proof.
  intros Hb. induction l as [| x l IH]; intros e HI; [exact HI |]. cbn [for_each]. apply wp_bind.
  eapply wp_mono; [by apply Hb | by intros [] e'; apply IH | done].
Qed.
End wp.

Section calls.
Context {S : Type} `{OutStoreLaws S}.
Implicit Types (e : Engine S).

(** The table of an engine state. *)
Definition table e : list (Z * row) := rows (heap e) (store e).
Definition table_ok e : Prop := store_ok (heap e) (store e).

(** [e] after a store call that left heap [h'] and store [s']. *)
Abbreviation after h' s' e := (set_heap_store (h', s') e).

Lemma wp_call {A} (f : sop S A) (Q : A → Engine S → Prop) (R : exn → Engine S → Prop) e :
  (∀ r h' s', f (heap e, store e) = (r, (h', s')) →
     match r with Ok a => Q a (after h' s' e) | Raise x => R x (after h' s' e) end) →
  wp (call f) Q R e.
Proof. unfold wp, call. intros Hf. destruct (f (heap e, store e)) as [[a | x] [h' s']]; exact (Hf _ _ _ eq_refl). Qed.

Lemma wp_put l m (Q : unit → Engine S → Prop) (R : exn → Engine S → Prop) e :
  table_ok e → oh (heap e) !! l = Some m →
  (∀ h' s', store_ok h' s' → heap_frame untouched (heap e) h' → 0 < o_logical_size m →
     rows h' s' = dset (o_mid m) (o_row m) (table e) → Q tt (after h' s' e)) →
  (∀ x h' s', store_ok h' s' → heap_frame untouched (heap e) h' → (reliable → o_logical_size m ≤ 0) →
     rows h' s' = table e → R x (after h' s' e)) →
  wp (call (put_out l)) Q R e.
Proof.
  intros Hs Hl HQ HR. apply wp_call. intros r h' s' Hc. eapply put_law in Hc; [| done..].
  destruct r as [[] |]; destruct Hc as (? & ? & Hc); [apply HQ | apply HR]; naive_solver.
Qed.

Lemma wp_get mid (Q : option loc → Engine S → Prop) (R : exn → Engine S → Prop) e :
  table_ok e →
  (∀ l m h' s', store_ok h' s' → heap_frame untouched (heap e) h' → rows h' s' = table e →
     oh h' !! l = Some m → o_mid m = mid → dget mid (table e) = Some (o_row m) → Q (Some l) (after h' s' e)) →
  (∀ h' s', store_ok h' s' → heap_frame untouched (heap e) h' → rows h' s' = table e →
     dget mid (table e) = None → Q None (after h' s' e)) →
  (∀ x h' s', store_ok h' s' → heap_frame untouched (heap e) h' → rows h' s' = table e → ¬ reliable →
     R x (after h' s' e)) →
  wp (call (get_out mid)) Q R e.
Proof.
  intros Hs HQ HN HR. apply wp_call. intros r h' s' Hc. eapply get_law in Hc; [| done].
  destruct r as [[l |] |]; destruct Hc as (? & ? & ? & Hc).
  - destruct Hc as (m & ? & ? & ?). by eapply HQ.
  - by apply HN.
  - naive_solver.
Qed.

Lemma wp_delete mid (Q : bool → Engine S → Prop) (R : exn → Engine S → Prop) e :
  table_ok e →
  (∀ h' s', store_ok h' s' → heap_frame untouched (heap e) h' → rows h' s' = ddel mid (table e) →
     Q (dmem mid (table e)) (after h' s' e)) →
  (∀ x h' s', store_ok h' s' → heap_frame untouched (heap e) h' → rows h' s' = table e → ¬ reliable →
     R x (after h' s' e)) →
  wp (call (delete_out mid)) Q R e.
Proof.
  intros Hs HQ HR. apply wp_call. intros r h' s' Hc. eapply delete_law in Hc; [| done].
  destruct r as [b |]; destruct Hc as (? & ? & Hc); [destruct Hc as [-> ?]; by apply HQ | naive_solver].
Qed.

Lemma wp_meta mid (Q : option OutboundRecordMeta → Engine S → Prop) (R : exn → Engine S → Prop) e :
  table_ok e →
  (∀ o h' s', store_ok h' s' → heap_frame untouched (heap e) h' → rows h' s' = table e →
     (λ x, (om_state x, om_logical_size x)) <$> o = dget mid (table e) → Q o (after h' s' e)) →
  (∀ x h' s', store_ok h' s' → heap_frame untouched (heap e) h' → rows h' s' = table e → ¬ reliable →
     R x (after h' s' e)) →
  wp (call (out_meta mid)) Q R e.
Proof.
  intros Hs HQ HR. apply wp_call. intros r h' s' Hc. eapply meta_law in Hc; [| done].
  destruct r as [b |]; destruct Hc as (? & ? & ? & Hc); naive_solver.
Qed.

Lemma wp_mids (Q : list Z → Engine S → Prop) (R : exn → Engine S → Prop) e :
  table_ok e →
  (∀ h' s', store_ok h' s' → heap_frame untouched (heap e) h' → rows h' s' = table e →
     Q (dkeys (table e)) (after h' s' e)) →
  (∀ x h' s', store_ok h' s' → heap_frame untouched (heap e) h' → rows h' s' = table e → ¬ reliable →
     R x (after h' s' e)) →
  wp (call out_mids) Q R e.
Proof.
  intros Hs HQ HR. apply wp_call. intros r h' s' Hc. eapply mids_law in Hc; [| done].
  destruct r as [b |]; destruct Hc as (? & ? & ? & Hc); [subst b; by apply HQ | naive_solver].
Qed.

(** The row a summary shows. *)
Definition s_row (m : OutboundMessageSummary) : Z * row := (s_mid m, (s_state m, s_logical_size m)).

Lemma wp_page mids (Q : list OutboundMessageSummary → Engine S → Prop) (R : exn → Engine S → Prop) e :
  table_ok e →
  (∀ page h' s', store_ok h' s' → heap_frame untouched (heap e) h' → rows h' s' = table e →
     s_row <$> page = omap (λ mid, pair mid <$> dget mid (table e)) mids → Q page (after h' s' e)) →
  (∀ x h' s', store_ok h' s' → heap_frame untouched (heap e) h' → rows h' s' = table e → ¬ reliable →
     R x (after h' s' e)) →
  wp (call (out_page mids)) Q R e.
Proof.
  intros Hs HQ HR. apply wp_call. intros r h' s' Hc. eapply page_law in Hc; [| done].
  destruct r as [b |]; destruct Hc as (? & ? & ? & Hc); [by apply HQ | naive_solver].
Qed.

Lemma wp_complete mid st (Q : option OutboundRecordMeta → Engine S → Prop) (R : exn → Engine S → Prop) e :
  table_ok e →
  (∀ x h' s', store_ok h' s' → heap_frame untouched (heap e) h' →
     dget mid (table e) = Some (st, om_logical_size x) → rows h' s' = ddel mid (table e) →
     Q (Some x) (after h' s' e)) →
  (∀ h' s', store_ok h' s' → heap_frame untouched (heap e) h' → (∀ n, dget mid (table e) ≠ Some (st, n)) →
     rows h' s' = table e → Q None (after h' s' e)) →
  (∀ x h' s', store_ok h' s' → heap_frame untouched (heap e) h' → rows h' s' = table e → ¬ reliable →
     R x (after h' s' e)) →
  wp (call (complete_out mid st)) Q R e.
Proof.
  intros Hs HQ HN HR. apply wp_call. intros r h' s' Hc. eapply complete_law in Hc; [| done].
  destruct r as [[b |] |]; destruct Hc as (? & ? & Hc); naive_solver.
Qed.

Lemma wp_transition mid st new c (Q : option OutboundRecordMeta → Engine S → Prop)
    (R : exn → Engine S → Prop) e :
  table_ok e →
  (∀ x h' s', store_ok h' s' → heap_frame (eq mid) (heap e) h' →
     dget mid (table e) = Some (st, om_logical_size x) →
     rows h' s' = dset mid (new, om_logical_size x) (table e) → Q (Some x) (after h' s' e)) →
  (∀ h' s', store_ok h' s' → heap_frame untouched (heap e) h' → (∀ n, dget mid (table e) ≠ Some (st, n)) →
     rows h' s' = table e → Q None (after h' s' e)) →
  (∀ x h' s', store_ok h' s' → heap_frame untouched (heap e) h' → rows h' s' = table e → ¬ reliable →
     R x (after h' s' e)) →
  wp (call (transition_out mid st new c)) Q R e.
Proof.
  intros Hs HQ HN HR. apply wp_call. intros r h' s' Hc. eapply transition_law in Hc; [| done].
  destruct r as [[b |] |]; destruct Hc as (? & Hc); naive_solver.
Qed.

(** A loop over the stored rows: the body sees each row of the table as it was
    when the loop started, provided the rows still to come are left alone. *)
Lemma wp_for_pages {B} (I : list (Z * row) → B → Engine S → Prop) (R : exn → Engine S → Prop)
    (body : OutboundMessageSummary → B → M S B) acc e :
  (∀ l acc e, I l acc e → table_ok e ∧ ∀ x, x ∈ l → dget x.1 (table e) = Some x.2) →
  (∀ l acc e h' s', I l acc e → store_ok h' s' → heap_frame untouched (heap e) h' → rows h' s' = table e →
     I l acc (after h' s' e)) →
  (∀ l acc e x, I l acc e → ¬ reliable → R x e) →
  (∀ msg l acc e, I (s_row msg :: l) acc e → wp (body msg acc) (I l) R e) →
  I (table e) acc e → wp (for_pages body acc) (I []) R e.
Proof.
  intros Hrows Hstable HR Hbody HI. unfold for_pages. destruct (Hrows _ _ _ HI) as [Hok _].
  apply wp_bind, wp_mids; [done | | by intros; eauto].
  intros h' s' Hs Hf Ht. pose proof (Hstable _ _ _ _ _ HI Hs Hf Ht) as HI1. clear HI Hok.
  set (e1 := after h' s' e) in *. clearbody e1. clear Hs Hf Ht h' s'.
  assert (∀ fuel (l : list (Z * row)) acc e, (length l ≤ fuel)%nat → I l acc e →
    wp (for_fold (chunks fuel PAGE_SIZE (dkeys l)) (λ mids acc, page ← call (out_page mids); for_fold page body acc) acc)
      (I []) R e) as Hgo; [| apply Hgo; [by unfold dkeys; rewrite length_fmap | done]].
  clear e1 HI1 acc e. induction fuel as [| fuel IH]; intros l acc e Hl HI.
  { destruct l; [done | simpl in Hl; lia]. }
  destruct l as [| y l]; [done |]. remember (y :: l) as l1 eqn:El1. cbn [chunks].
  assert (∃ k ks, dkeys l1 = k :: ks) as (k & ks & Ek) by (subst; by do 2 eexists). rewrite Ek, <- Ek.
  cbn [for_fold]. destruct (Hrows _ _ _ HI) as [Hok Hl1]. apply wp_bind, wp_bind, wp_page; [done | | by intros; eauto].
  intros page h' s' Hs Hf Ht Hpage. pose proof (Hstable _ _ _ _ _ HI Hs Hf Ht) as HI1. set (e1 := after h' s' e) in *.
  assert (s_row <$> page = take PAGE_SIZE l1) as Hp.
  { rewrite Hpage. unfold dkeys. rewrite <- fmap_take.
    assert (∀ x, x ∈ take PAGE_SIZE l1 → dget x.1 (table e) = Some x.2) as Hx.
    { intros x Hx. apply Hl1. eapply elem_of_sublist; [exact Hx | apply sublist_take]. }
    clear -Hx. induction (take PAGE_SIZE l1) as [| [k r] l2 IH]; [done |]. rewrite fmap_cons.
    assert (dget k (table e) = Some r) as Hk by (apply (Hx (k, r)); left).
    transitivity ((k, r) :: omap (λ mid, pair mid <$> dget mid (table e)) l2.*1); [simpl; by rewrite Hk |].
    f_equal. apply IH. intros x Hin. apply Hx. by right. }
  rewrite <- (take_drop PAGE_SIZE l1) in HI1. rewrite <- Hp in HI1.
  assert (length (drop PAGE_SIZE l1) ≤ fuel)%nat as Hlen.
  { rewrite length_drop. subst l1. simpl in *. unfold PAGE_SIZE. lia. }
  assert (∀ page acc e, I ((s_row <$> page) ++ drop PAGE_SIZE l1) acc e →
    wp (for_fold page body acc) (I (drop PAGE_SIZE l1)) R e) as Hfold.
  { clear -Hbody. induction page as [| msg page IH]; intros acc e HI; [done |]. cbn [for_fold]. apply wp_bind.
    eapply wp_mono; [apply Hbody; exact HI | | done]. intros acc' e'. apply IH. }
  eapply wp_mono; [by apply Hfold | | done]. intros acc' e' HI'.
  assert (drop PAGE_SIZE (dkeys l1) = dkeys (drop PAGE_SIZE l1)) as -> by (unfold dkeys; by rewrite fmap_drop).
  by apply IH.
Qed.
End calls.
