(* ===== verification/Accounting.v ===== *)
(** * The books of the outbound session

    The invariants that tie the counters, the identifier pool, the seals, the
    queue and the send window of [OutboundSession] to the table of stored rows,
    and how each elementary change of the table moves them. *)

From S2P Require Import Prelude Enums Types PacketIds Store.

Abbreviation rowtable := (list (Z * row)).

(** ** Sums over a table *)

Definition sumw {V} (w : Z * V → Z) (t : list (Z * V)) : Z := foldr (λ x a, w x + a) 0 t.

(** What a row is charged: one message and its bytes, nothing once sealed. *)
Definition msg_w (sealed : list (Z * bool)) (x : Z * row) : Z := if decide (x.1 ∈ dkeys sealed) then 0 else 1.
Definition byte_w (sealed : list (Z * bool)) (x : Z * row) : Z := if decide (x.1 ∈ dkeys sealed) then 0 else x.2.2.

Lemma w_out sealed k v : k ∉ dkeys sealed → msg_w sealed (k, v) = 1 ∧ byte_w sealed (k, v) = v.2.
Proof. intros. unfold msg_w, byte_w. simpl. by rewrite !decide_False. Qed.
Lemma w_in sealed k v : k ∈ dkeys sealed → msg_w sealed (k, v) = 0 ∧ byte_w sealed (k, v) = 0.
Proof. intros. unfold msg_w, byte_w. simpl. by rewrite !decide_True. Qed.

Lemma sumw_app {V} (w : Z * V → Z) t u : sumw w (t ++ u) = sumw w t + sumw w u.
Proof. induction t as [| x t IH]; simpl; [done |]. rewrite IH. lia. Qed.

Lemma sumw_ddel {V} (w : Z * V → Z) t k v : dget k t = Some v → sumw w (ddel k t) = sumw w t - w (k, v).
Proof.
  induction t as [| [k' v'] t IH]; simpl; [done |]. case_decide; intros; simplify_eq; simpl; [lia |].
  rewrite IH by done. lia.
Qed.

Lemma sumw_dset_old {V} (w : Z * V → Z) t k v v' : dget k t = Some v → sumw w (dset k v' t) = sumw w t - w (k, v) + w (k, v').
Proof.
  induction t as [| [k1 v1] t IH]; simpl; [done |]. case_decide; intros; simplify_eq; simpl; [lia |].
  rewrite IH by done. lia.
Qed.

Lemma sumw_dset_new {V} (w : Z * V → Z) t k v : k ∉ dkeys t → sumw w (dset k v t) = sumw w t + w (k, v).
Proof. intros. rewrite dset_new, sumw_app by done. simpl. lia. Qed.

Lemma sumw_ext {V} (w w' : Z * V → Z) t : (∀ x, x ∈ t → w x = w' x) → sumw w t = sumw w' t.
Proof.
  induction t as [| x t IH]; simpl; intros Hw; [done |]. rewrite IH by (intros; apply Hw; by right).
  rewrite Hw by left. done.
Qed.

Lemma sumw_change {V} (w w' : Z * V → Z) t k v :
  NoDup (dkeys t) → dget k t = Some v → (∀ x, x ∈ t → x.1 ≠ k → w x = w' x) →
  sumw w' t = sumw w t - w (k, v) + w' (k, v).
Proof.
  induction t as [| [k1 v1] t IH]; simpl; [done |]. rewrite NoDup_cons. intros [Hk Hn] Hg Hw. case_decide; simplify_eq.
  - rewrite (sumw_ext w w' t); [lia |]. intros x Hx. apply Hw; [by right |]. intros Ex. apply Hk.
    apply list_elem_of_fmap. by exists x.
  - rewrite IH by (done || (intros; apply Hw; [by right | done])). rewrite (Hw (k1, v1)) by (left || done). lia.
Qed.

Lemma sumw_nonneg {V} (w : Z * V → Z) t : (∀ x, x ∈ t → 0 ≤ w x) → 0 ≤ sumw w t.
Proof.
  induction t as [| x t IH]; simpl; intros Hw; [done |].
  assert (0 ≤ w x) by (apply Hw; left). assert (0 ≤ sumw w t) by (apply IH; intros; apply Hw; by right). lia.
Qed.

(** ** Dictionary facts used below *)

Lemma dkeys_dset {K V} `{!EqDecision K} (k : K) (v : V) d x : x ∈ dkeys (dset k v d) ↔ x = k ∨ x ∈ dkeys d.
Proof.
  rewrite <- !dmem_spec. unfold dmem. rewrite dget_dset. case_decide; [naive_solver |].
  split; [by right |]. by intros [? | ?].
Qed.

Lemma dkeys_ddel {K V} `{!EqDecision K} (k : K) (d : list (K * V)) x :
  NoDup (dkeys d) → x ∈ dkeys (ddel k d) ↔ x ≠ k ∧ x ∈ dkeys d.
Proof. intros. rewrite <- !dmem_spec. unfold dmem. rewrite dget_ddel by done. case_decide; naive_solver. Qed.

Lemma dmem_false {K V} `{!EqDecision K} (k : K) (d : list (K * V)) : dmem k d = false ↔ k ∉ dkeys d.
Proof. rewrite <- dmem_spec. by destruct (dmem k d). Qed.

Lemma dget_key {K V} `{!EqDecision K} (k : K) (d : list (K * V)) : k ∈ dkeys d ↔ ∃ v, dget k d = Some v.
Proof.
  rewrite <- dmem_spec. unfold dmem. destruct (dget k d); split; try done; [by eauto | by intros [? ?]].
Qed.

Lemma dget_app {K V} `{!EqDecision K} (k : K) (d d' : list (K * V)) :
  dget k (d ++ d') = match dget k d with Some v => Some v | None => dget k d' end.
Proof. induction d as [| [k' v'] d IH]; simpl; [done |]. by case_decide. Qed.

Lemma dkeys_app' {K V} (d d' : list (K * V)) : dkeys (d ++ d') = dkeys d ++ dkeys d'.
Proof. unfold dkeys. by rewrite fmap_app. Qed.

Lemma dset_same {K V} `{!EqDecision K} (k : K) (v : V) d : dget k d = Some v → dset k v d = d.
Proof. induction d as [| [k' v'] d IH]; simpl; [done |]. case_decide; intros; simplify_eq; [done |]. by rewrite IH. Qed.

Lemma ddel_none {K V} `{!EqDecision K} (k : K) (d : list (K * V)) : k ∉ dkeys d → ddel k d = d.
Proof.
  unfold dkeys. induction d as [| [k' v'] d IH]; simpl; [done |]. rewrite not_elem_of_cons. intros [? ?].
  rewrite decide_False by done. by rewrite IH.
Qed.

(** ** The invariants *)

(** Table [t], queue [q] (the row each entry shows), pool, parked set, seals,
    counters and the identifiers of pending subscription requests. *)
Record Acct (t q : rowtable) (ids : PacketIdPool) (parked : gset Z) (sealed : list (Z * bool)) (pm pb : Z)
    (subs : list Z) : Prop := {
  a_rows : NoDup (dkeys t);
  a_sizes : ∀ mid st n, dget mid t = Some (st, n) → 0 < n;
  a_pool : pool_ok ids;
  a_seals : NoDup (dkeys sealed);
  a_subs : NoDup subs;
  a_subs_free : ∀ mid, mid ∈ subs → mid ∉ dkeys t ∧ mid ∉ dkeys sealed;
  (** The counters are exactly the rows that are not sealed. *)
  a_messages : pm = sumw (msg_w sealed) t;
  a_bytes : pb = sumw (byte_w sealed) t;
  (** An identifier is in use exactly when a row, a seal or a request owns it. *)
  a_ids : ∀ mid, mid ∈ used ids ↔ mid ∈ dkeys t ∨ mid ∈ dkeys sealed ∨ mid ∈ subs;
  (** A queue entry shows its current row; entries are never-sent
      publications, or exchanges parked by a replay. *)
  a_queue : NoDup (dkeys q);
  a_entries : ∀ mid r, dget mid q = Some r → mid ∉ dkeys sealed ∧ dget mid t = Some r ∧
    (mid ∈ parked ∧ r.1 ≠ QUEUED ∨ mid ∉ parked ∧ r.1 = QUEUED);
  a_parked : ∀ mid, mid ∈ parked → mid ∈ dkeys q }.

(** The send window: never above its limit, its slots owned by exchanges whose
    PUBLISH left on this connection. *)
Record Window (t q : rowtable) (sealed : list (Z * bool)) (f : FlowControl.t) : Prop := {
  w_bound : FlowControl.inflight f ≤ FlowControl._limit f;
  w_holders : ∀ mid, mid ∈ FlowControl._holders f →
    mid ∉ dkeys q ∧ mid ∉ dkeys sealed ∧ ∃ st n, dget mid t = Some (st, n) ∧ st ≠ QUEUED }.

(** Nothing is forgotten: a never-sent row is queued or sealed, and a seal has
    its row and knows whether it was sent. *)
Record Cover (t q : rowtable) (sealed : list (Z * bool)) : Prop := {
  c_queued : ∀ mid n, dget mid t = Some (QUEUED, n) → mid ∈ dkeys sealed ∨ mid ∈ dkeys q;
  c_sealed : ∀ mid b, dget mid sealed = Some b →
    ∃ st n, dget mid t = Some (st, n) ∧ b = negb (bool_decide (st = QUEUED)) }.

Section changes.
Context (t q : rowtable) (ids : PacketIdPool) (parked : gset Z) (sealed : list (Z * bool)) (pm pb : Z)
  (subs : list Z) (A : Acct t q ids parked sealed pm pb subs).

(** A charged row keeps the counters away from zero: releasing it is allowed. *)
Lemma acct_charged mid st n :
  dget mid t = Some (st, n) → mid ∉ dkeys sealed → 0 < pm ∧ 0 ≤ n ≤ pb.
Proof using A.
  intros Hg Hs. pose proof (a_sizes _ _ _ _ _ _ _ _ A _ _ _ Hg).
  assert (Hw : ∀ x, x ∈ ddel mid t → 0 ≤ msg_w sealed x ∧ 0 ≤ byte_w sealed x).
  { intros [k [st' n']] Hx. eapply elem_of_sublist in Hx; [| apply ddel_sub].
    apply (dget_elem_NoDup _ _ _ (a_rows _ _ _ _ _ _ _ _ A)) in Hx.
    pose proof (a_sizes _ _ _ _ _ _ _ _ A _ _ _ Hx). unfold msg_w, byte_w. simpl. case_decide; lia. }
  pose proof (sumw_nonneg (msg_w sealed) (ddel mid t) (λ x Hx, proj1 (Hw x Hx))) as H1.
  pose proof (sumw_nonneg (byte_w sealed) (ddel mid t) (λ x Hx, proj2 (Hw x Hx))) as H2.
  rewrite (sumw_ddel _ _ _ _ Hg) in H1. rewrite (sumw_ddel _ _ _ _ Hg) in H2. rewrite (a_messages _ _ _ _ _ _ _ _ A), (a_bytes _ _ _ _ _ _ _ _ A).
  unfold msg_w, byte_w in *. simpl in *. rewrite decide_False in H1 by done. rewrite decide_False in H2 by done. lia.
Qed.

(** The weights of a table do not see a seal on an identifier outside it. *)
Lemma sumw_seals w_ d t' :
  (∀ x, x ∈ t' → (x.1 ∈ dkeys sealed ↔ x.1 ∈ dkeys d)) → w_ = msg_w ∨ w_ = byte_w →
  sumw (w_ d) t' = sumw (w_ sealed) t'.
Proof using.
  intros Hd Hw. apply sumw_ext. intros x Hx. specialize (Hd x Hx).
  destruct Hw as [-> | ->]; unfold msg_w, byte_w; repeat case_decide; tauto.
Qed.

(** A charged row leaves: its counts and its identifier go with it. *)
Lemma acct_settle mid st n :
  dget mid t = Some (st, n) → mid ∉ dkeys sealed → mid ∉ dkeys q →
  Acct (ddel mid t) q (release ids mid) parked sealed (pm - 1) (pb - n) subs.
Proof using A.
  intros Hg Hs Hq. destruct A as [Hr Hz Hp Hse Hsu Hsf Hm Hb Hi Hqn He Hpk].
  destruct (release_spec ids mid Hp) as [Hp' Hu]. constructor; try done.
  - by apply NoDup_ddel.
  - intros mid' st' n'. rewrite dget_ddel by done. case_decide; [done | apply Hz].
  - intros mid' Hin. destruct (Hsf mid' Hin). rewrite dkeys_ddel by done. tauto.
  - rewrite (sumw_ddel _ _ _ _ Hg), Hm. by rewrite (proj1 (w_out _ _ _ Hs)).
  - rewrite (sumw_ddel _ _ _ _ Hg), Hb. by rewrite (proj2 (w_out _ _ _ Hs)).
  - intros mid'. rewrite Hu, Hi, dkeys_ddel by done. split; [tauto |].
    intros [? | [? | Hin]]; split; try tauto; intros ->; [done |]. apply Hsf in Hin as [Hin _]. apply Hin.
    by eapply dget_Some_key.
  - intros mid' r Hr'. destruct (He _ _ Hr') as (? & Ht & ?). split_and!; try done.
    rewrite dget_ddel by done. rewrite decide_False; [done |]. intros ->. apply Hq. by eapply dget_Some_key.
Qed.

(** A sealed row leaves: only its identifier was still held. *)
Lemma acct_settle_sealed mid r :
  dget mid t = Some r → mid ∈ dkeys sealed →
  Acct (ddel mid t) q (release ids mid) parked (ddel mid sealed) pm pb subs.
Proof using A.
  intros Hg Hs. destruct A as [Hr Hz Hp Hse Hsu Hsf Hm Hb Hi Hqn He Hpk].
  destruct (release_spec ids mid Hp) as [Hp' Hu].
  assert (Hk : ∀ x, x ∈ ddel mid t → (x.1 ∈ dkeys sealed ↔ x.1 ∈ dkeys (ddel mid sealed))).
  { intros x Hx. assert (x.1 ∈ dkeys (ddel mid t)) as Hx' by (apply list_elem_of_fmap; eauto).
    apply dkeys_ddel in Hx' as [? _]; [| done]. rewrite dkeys_ddel by done. tauto. }
  constructor; try done.
  - by apply NoDup_ddel.
  - intros mid' st' n'. rewrite dget_ddel by done. case_decide; [done | apply Hz].
  - by apply NoDup_ddel.
  - intros mid' Hin. destruct (Hsf mid' Hin). rewrite !dkeys_ddel by done. tauto.
  - rewrite (sumw_seals msg_w) by auto. rewrite (sumw_ddel _ _ _ _ Hg), Hm.
    rewrite (proj1 (w_in _ _ _ Hs)). lia.
  - rewrite (sumw_seals byte_w) by auto. rewrite (sumw_ddel _ _ _ _ Hg), Hb.
    rewrite (proj2 (w_in _ _ _ Hs)). lia.
  - intros mid'. rewrite Hu, Hi, !dkeys_ddel by done. split; [tauto |].
    intros [? | [? | Hin]]; split; try tauto; intros ->. by apply Hsf in Hin as [_ Hin].
  - intros mid' r' Hr'. destruct (He _ _ Hr') as (Hns & Ht & ?). rewrite dkeys_ddel by done. split_and!; try tauto.
    rewrite dget_ddel by done. rewrite decide_False; [done |]. by intros ->.
Qed.

(** An entry leaves the queue. *)
Lemma acct_unqueue mid : Acct t (ddel mid q) ids (parked ∖ {[mid]}) sealed pm pb subs.
Proof using A.
  destruct A as [Hr Hz Hp Hse Hsu Hsf Hm Hb Hi Hqn He Hpk]. constructor; try done.
  - by apply NoDup_ddel.
  - intros mid' r. rewrite dget_ddel by done. case_decide; [done |]. intros (? & ? & Hpa)%He. set_solver.
  - intros mid' Hin. rewrite dkeys_ddel by done. split; [set_solver |]. apply Hpk. set_solver.
Qed.

(** A row that is not queued changes phase. *)
Lemma acct_phase mid st st' n :
  dget mid t = Some (st, n) → mid ∉ dkeys q → Acct (dset mid (st', n) t) q ids parked sealed pm pb subs.
Proof using A.
  intros Hg Hq. destruct A as [Hr Hz Hp Hse Hsu Hsf Hm Hb Hi Hqn He Hpk].
  assert (dkeys (dset mid (st', n) t) = dkeys t) as Hk by (apply dkeys_dset_old; by eapply dget_Some_key).
  constructor; rewrite ?Hk; try done.
  - intros mid' st1 n1. rewrite dget_dset. case_decide; [| apply Hz]. intros; simplify_eq. by eapply Hz.
  - rewrite (sumw_dset_old _ _ _ _ _ Hg), Hm. unfold msg_w. simpl. lia.
  - rewrite (sumw_dset_old _ _ _ _ _ Hg), Hb. unfold byte_w. simpl. case_decide; lia.
  - intros mid' r Hr'. destruct (He _ _ Hr') as (? & ? & ?). split_and!; try done.
    rewrite dget_dset_ne; [done |]. intros ->. apply Hq. by eapply dget_Some_key.
Qed.

(** A fresh identifier: a new charged row, or a seal, takes it. *)
Lemma acct_admit mid st n ids' :
  pool_ok ids' → mid ∉ used ids → (∀ x, x ∈ used ids' ↔ x ∈ used ids ∨ x = mid) → 0 < n →
  Acct (dset mid (st, n) t) q ids' parked sealed (pm + 1) (pb + n) subs.
Proof using A.
  intros Hp' Hno Hu Hn. destruct A as [Hr Hz Hp Hse Hsu Hsf Hm Hb Hi Hqn He Hpk].
  rewrite Hi in Hno. constructor; try done.
  - by apply NoDup_dset.
  - intros mid' st1 n1. rewrite dget_dset. case_decide; [intros; by simplify_eq | apply Hz].
  - intros mid' Hin. destruct (Hsf _ Hin). rewrite dkeys_dset. split; [| done]. intros [-> | ?]; tauto.
  - rewrite sumw_dset_new, Hm by tauto. rewrite (proj1 (w_out sealed mid _ ltac:(tauto))). done.
  - rewrite sumw_dset_new, Hb by tauto. rewrite (proj2 (w_out sealed mid _ ltac:(tauto))). done.
  - intros mid'. rewrite Hu, Hi, dkeys_dset. tauto.
  - intros mid' r Hr'. destruct (He _ _ Hr') as (? & ? & ?). split_and!; try done.
    rewrite dget_dset_ne; [done |]. intros ->. apply Hno. left. by eapply dget_Some_key.
Qed.

Lemma acct_seal_fresh mid b ids' :
  pool_ok ids' → mid ∉ used ids → (∀ x, x ∈ used ids' ↔ x ∈ used ids ∨ x = mid) →
  Acct t q ids' parked (dset mid b sealed) pm pb subs.
Proof using A.
  intros Hp' Hno Hu. destruct A as [Hr Hz Hp Hse Hsu Hsf Hm Hb Hi Hqn He Hpk]. rewrite Hi in Hno.
  assert (Hk : ∀ x, x ∈ t → (x.1 ∈ dkeys sealed ↔ x.1 ∈ dkeys (dset mid b sealed))).
  { intros x Hx. rewrite dkeys_dset. split; [tauto |]. intros [Hx' | ?]; [| done]. exfalso. apply Hno. left.
    rewrite <- Hx'. apply list_elem_of_fmap. eauto. }
  constructor; try done.
  - by apply NoDup_dset.
  - intros mid' Hin. destruct (Hsf _ Hin). rewrite dkeys_dset. split; [done |]. intros [-> | ?]; tauto.
  - by rewrite (sumw_seals msg_w) by auto.
  - by rewrite (sumw_seals byte_w) by auto.
  - intros mid'. rewrite Hu, Hi, dkeys_dset. tauto.
  - intros mid' r Hr'. destruct (He _ _ Hr') as (? & Ht & ?). split_and!; try done. rewrite dkeys_dset.
    intros [-> | ?]; [| done]. apply Hno. left. by eapply dget_Some_key.
Qed.

(** An entry joins the queue. *)
Lemma acct_enqueue mid r (park : bool) :
  mid ∉ dkeys q → mid ∉ dkeys sealed → dget mid t = Some r →
  (if park then r.1 ≠ QUEUED else r.1 = QUEUED) →
  Acct t (q ++ [(mid, r)]) ids (if park then parked ∪ {[mid]} else parked) sealed pm pb subs.
Proof using A.
  intros Hq Hs Hg Hst. destruct A as [Hr Hz Hp Hse Hsu Hsf Hm Hb Hi Hqn He Hpk].
  assert (mid ∉ parked) as Hpn by (intros ?%Hpk; done). constructor; try done.
  - rewrite dkeys_app'. apply NoDup_app. split_and!; [done | | apply NoDup_singleton].
    intros x Hx ->%list_elem_of_singleton. done.
  - intros mid' r'. rewrite dget_app. destruct (dget mid' q) as [r1 |] eqn:E.
    + intros [= <-]. destruct (He _ _ E) as (? & ? & Hpa). split_and!; try done.
      assert (mid' ≠ mid) by (intros ->; apply Hq; by eapply dget_Some_key). destruct park; set_solver.
    + simpl. case_decide; [| done]. intros [= <-]. subst mid'. split_and!; try done. destruct park; set_solver.
  - intros mid' Hin. rewrite dkeys_app', elem_of_app. destruct (decide (mid' = mid)) as [-> |].
    + right. apply list_elem_of_singleton. done.
    + left. apply Hpk. destruct park; set_solver.
Qed.

(** A row is sealed: it leaves the queue and the counters, keeps its identifier. *)
Lemma acct_seal mid st n b :
  dget mid t = Some (st, n) → mid ∉ dkeys sealed →
  Acct t (ddel mid q) ids (parked ∖ {[mid]}) (dset mid b sealed) (pm - 1) (pb - n) subs.
Proof using A.
  intros Hg Hs. destruct A as [Hr Hz Hp Hse Hsu Hsf Hm Hb Hi Hqn He Hpk].
  assert (mid ∈ dkeys t) by (by eapply dget_Some_key).
  assert (∀ w, w = msg_w ∨ w = byte_w → ∀ x, x ∈ t → x.1 ≠ mid → w sealed x = w (dset mid b sealed) x) as Hw.
  { intros w Hw x _ Hne. assert (x.1 ∈ dkeys (dset mid b sealed) ↔ x.1 ∈ dkeys sealed) as Hk
      by (rewrite dkeys_dset; tauto).
    destruct Hw as [-> | ->]; unfold msg_w, byte_w; repeat case_decide; tauto. }
  assert (mid ∈ dkeys (dset mid b sealed)) by (rewrite dkeys_dset; tauto).
  constructor; try done.
  - by apply NoDup_dset.
  - intros mid' Hin. destruct (Hsf _ Hin). rewrite dkeys_dset. split; [done |]. intros [-> | ?]; tauto.
  - rewrite (sumw_change _ _ _ _ _ Hr Hg (Hw msg_w ltac:(auto))), Hm.
    rewrite (proj1 (w_out _ _ _ Hs)), (proj1 (w_in (dset mid b sealed) mid _ ltac:(done))). lia.
  - rewrite (sumw_change _ _ _ _ _ Hr Hg (Hw byte_w ltac:(auto))), Hb.
    rewrite (proj2 (w_out _ _ _ Hs)), (proj2 (w_in (dset mid b sealed) mid _ ltac:(done))). simpl. lia.
  - intros mid'. rewrite Hi, dkeys_dset. split; [tauto |]. intros [? | [[-> | ?] | ?]]; tauto.
  - by apply NoDup_ddel.
  - intros mid' r. rewrite dget_ddel by done. case_decide; [done |]. intros (? & ? & Hpa)%He.
    rewrite dkeys_dset. split_and!; [tauto | done |]. set_solver.
  - intros mid' Hin. rewrite dkeys_ddel by done. split; [set_solver |]. apply Hpk. set_solver.
Qed.

(** The table a store shows may be the same list of rows, seen again. *)
Lemma acct_subs subs' ids' :
  pool_ok ids' → NoDup subs' → (∀ mid, mid ∈ subs' → mid ∉ dkeys t ∧ mid ∉ dkeys sealed) →
  (∀ mid, mid ∈ used ids' ↔ mid ∈ dkeys t ∨ mid ∈ dkeys sealed ∨ mid ∈ subs') →
  Acct t q ids' parked sealed pm pb subs'.
Proof using A. intros. by destruct A. Qed.

(** The order of the queue is not part of the books. *)
Lemma acct_perm q' : q ≡ₚ q' → Acct t q' ids parked sealed pm pb subs.
Proof using A.
  intros Hq. destruct A as [Hr Hz Hp Hse Hsu Hsf Hm Hb Hi Hqn He Hpk].
  assert (dkeys q ≡ₚ dkeys q') as Hk by (unfold dkeys; by apply fmap_Permutation).
  assert (NoDup (dkeys q')) as Hn' by (by rewrite <- Hk).
  constructor; try done.
  - intros mid r Hg. apply He. apply (dget_elem_NoDup _ _ _ Hqn). rewrite Hq. by apply dget_Some_elem.
  - intros mid ?%Hpk. by rewrite <- Hk.
Qed.

Lemma acct_entry_id mid : mid ∈ dkeys q → mid ∈ used ids.
Proof using A.
  intros [r Hr]%dget_key. apply (a_entries _ _ _ _ _ _ _ _ A) in Hr as (_ & Ht & _).
  apply (a_ids _ _ _ _ _ _ _ _ A). left. by eapply dget_Some_key.
Qed.
End changes.

(** ** The send window under the same changes *)

Section window.
Context (t q : rowtable) (sealed : list (Z * bool)) (f : FlowControl.t) (W : Window t q sealed f).

Lemma inflight_release mid : FlowControl.inflight (FlowControl.release f mid).2 ≤ FlowControl.inflight f.
Proof using.
  clear W. destruct (FlowControl.release_holders f mid) as (Hh & _ & _). unfold FlowControl.inflight. rewrite Hh.
  apply Nat2Z.inj_le, subseteq_size. set_solver.
Qed.

(** Releasing a slot, with whatever happens to the row it was for. *)
Lemma window_release mid t' q' sealed' :
  (∀ m, m ≠ mid → m ∈ FlowControl._holders f →
     m ∉ dkeys q' ∧ m ∉ dkeys sealed' ∧ ∃ st n, dget m t' = Some (st, n) ∧ st ≠ QUEUED) →
  Window t' q' sealed' (FlowControl.release f mid).2.
Proof using W.
  intros Hm. destruct (FlowControl.release_holders f mid) as (Hh & _ & Hl). constructor.
  - rewrite Hl. pose proof (inflight_release mid). pose proof (w_bound _ _ _ _ W). lia.
  - intros m. rewrite Hh, elem_of_difference, elem_of_singleton. intros [? ?]. by apply Hm.
Qed.

Lemma window_ddel mid : NoDup (dkeys t) → Window (ddel mid t) q sealed (FlowControl.release f mid).2.
Proof using W.
  intros Hn. apply window_release. intros m Hne Hm. destruct (w_holders _ _ _ _ W m Hm) as (? & ? & st & n & ? & ?).
  split_and!; try done. exists st, n. rewrite dget_ddel by done. by rewrite decide_False.
Qed.

Lemma window_keep t' q' sealed' :
  (∀ m, m ∈ FlowControl._holders f →
     m ∉ dkeys q' ∧ m ∉ dkeys sealed' ∧ ∃ st n, dget m t' = Some (st, n) ∧ st ≠ QUEUED) →
  Window t' q' sealed' f.
Proof using W. intros Hm. constructor; [apply W | done]. Qed.

(** An exchange whose PUBLISH is sent takes a slot. *)
Lemma window_acquire mid t' q' sealed' :
  mid ∉ FlowControl._holders f → 0 < FlowControl.available f →
  (∀ m, m = mid ∨ m ∈ FlowControl._holders f →
     m ∉ dkeys q' ∧ m ∉ dkeys sealed' ∧ ∃ st n, dget m t' = Some (st, n) ∧ st ≠ QUEUED) →
  Window t' q' sealed' (FlowControl.mkFlow (FlowControl._limit f) (FlowControl._holders f ∪ {[mid]})).
Proof using W.
  intros Hno Hav Hm. constructor; simpl.
  - unfold FlowControl.available, FlowControl.inflight in *. simpl.
    rewrite size_union, size_singleton by set_solver. lia.
  - intros m [? | ->%elem_of_singleton]%elem_of_union; apply Hm; auto.
Qed.
End window.

(** The window right after the CONNACK reset it. *)
Lemma window_reset t q sealed f n local :
  Window t q sealed (FlowControl.apply_broker_receive_maximum (FlowControl.reset f) n local).
Proof.
  constructor; simpl; [| intros m []%not_elem_of_empty].
  assert (FlowControl.inflight (FlowControl.mkFlow 0 ∅) = 0) as Hz by (by vm_compute).
  unfold FlowControl.inflight in *. simpl in *. rewrite Hz. destruct local; lia.
Qed.

(** ** Coverage under the same changes *)

Section cover.
Context (t q : rowtable) (sealed : list (Z * bool)) (C : Cover t q sealed)
  (Hr : NoDup (dkeys t)) (Hq : NoDup (dkeys q)) (Hs : NoDup (dkeys sealed)).

Lemma cover_ddel mid : mid ∉ dkeys sealed → Cover (ddel mid t) q sealed.
Proof using C Hr.
  intros Hns. destruct C as [C1 C2]. constructor.
  - intros m n. rewrite dget_ddel by done. case_decide; [done | apply C1].
  - intros m b Hb. destruct (C2 m b Hb) as (st & n & ? & ?). exists st, n. rewrite dget_ddel by done.
    rewrite decide_False; [done |]. intros ->. apply Hns. by eapply dget_Some_key.
Qed.

Lemma cover_ddel_sealed mid : Cover (ddel mid t) q (ddel mid sealed).
Proof using C Hr Hs.
  destruct C as [C1 C2]. constructor.
  - intros m n. rewrite dget_ddel by done. case_decide; [done |]. rewrite dkeys_ddel by done. intros [? | ?]%C1; tauto.
  - intros m b. rewrite dget_ddel by done. case_decide; [done |]. intros (st & n & ? & ?)%C2. exists st, n.
    rewrite dget_ddel by done. by rewrite decide_False.
Qed.

(** An entry whose row is not never-sent (any more) leaves the queue. *)
Lemma cover_unqueue mid :
  (∀ n, dget mid t = Some (QUEUED, n) → mid ∈ dkeys sealed) → Cover t (ddel mid q) sealed.
Proof using C Hq.
  intros Hm. destruct C as [C1 C2]. constructor; [| done]. intros m n Hg. rewrite dkeys_ddel by done.
  destruct (decide (m = mid)) as [-> |]; [left; by eapply Hm |]. destruct (C1 m n Hg); auto.
Qed.

Lemma cover_phase mid st st' n :
  dget mid t = Some (st, n) → (st' = QUEUED → mid ∈ dkeys sealed ∨ mid ∈ dkeys q) →
  (mid ∈ dkeys sealed → (st = QUEUED ↔ st' = QUEUED)) → Cover (dset mid (st', n) t) q sealed.
Proof using C.
  intros Hg Hst Hse. destruct C as [C1 C2]. constructor.
  - intros m k. rewrite dget_dset. case_decide; [intros [= -> ->]; subst; auto | apply C1].
  - intros m b Hb. destruct (C2 m b Hb) as (st1 & k & Hm & Eb).
    destruct (decide (m = mid)) as [-> |]; [| exists st1, k; by rewrite dget_dset_ne].
    rewrite Hg in Hm. simplify_eq. exists st', k. rewrite dget_dset_eq. split; [done |]. f_equal.
    apply bool_decide_ext, Hse. by eapply dget_Some_key.
Qed.

Lemma cover_admit mid st n q' :
  mid ∉ dkeys t → (∀ m, m ∈ dkeys q → m ∈ dkeys q') → (st = QUEUED → mid ∈ dkeys q') →
  Cover (dset mid (st, n) t) q' sealed.
Proof using C.
  intros Hno Hsub Hst. destruct C as [C1 C2]. constructor.
  - intros m k. rewrite dget_dset. case_decide; [intros [= -> ->]; subst; auto |]. intros [? | ?]%C1; auto.
  - intros m b Hb. destruct (C2 m b Hb) as (st1 & k & Hm & Eb). exists st1, k. rewrite dget_dset_ne; [done |].
    intros ->. apply Hno. by eapply dget_Some_key.
Qed.

Lemma cover_grow q' : (∀ m, m ∈ dkeys q → m ∈ dkeys q') → Cover t q' sealed.
Proof using C. intros Hsub. destruct C as [C1 C2]. constructor; [| done]. intros m n [? | ?]%C1; auto. Qed.

Lemma cover_seal mid st n :
  dget mid t = Some (st, n) → Cover t (ddel mid q) (dset mid (negb (bool_decide (st = QUEUED))) sealed).
Proof using C Hq.
  intros Hg. destruct C as [C1 C2]. constructor.
  - intros m k Hm. rewrite dkeys_dset, dkeys_ddel by done. destruct (decide (m = mid)); [tauto |].
    destruct (C1 m k Hm); tauto.
  - intros m b. rewrite dget_dset. case_decide; [intros [= <-]; subst; eauto | apply C2].
Qed.
End cover.
