(* ===== verification/InboundBooks.v ===== *)
(** * The books of the inbound session

    The invariants that tie the counters, the Receive Maximum slots, the waiting
    completions, the acknowledgement order and the exchange tokens of
    [InboundSession] to the table of stored rows, and how each change of a row
    moves them. *)

From S2P Require Import Prelude Enums Types Handshake Store StoreIn EngineState Outbound Inbound Accounting.

Abbreviation intable := (list (Z * InboundMessage)).

Definition in_size (x : Z * InboundMessage) : Z := i_logical_size x.2.
(** The rows a PUBACK answers. *)
Definition is_qos1 (x : Z * InboundMessage) : Prop := i_state x.2 = In.WAIT_PUBACK.
#[export] Instance is_qos1_dec x : Decision (is_qos1 x).
Proof. unfold is_qos1. apply _. Defined.

(** [simpl] unfolds the size of the empty set. *)
Ltac no_slots := repeat change (set_size {| mapset.mapset_car := ∅ |}) with (size (∅ : gset Z)); rewrite ?size_empty.

Section books.
Context (manual : bool) (sound : Prop).
Implicit Types (t : intable) (i : Inb.InboundSession).

(** What the session knows of each row. *)
Record Ledger t i : Prop := {
  lg_nodup : NoDup (dkeys t);
  lg_rows mid m : dget mid t = Some m → i_mid m = mid ∧ 0 < i_logical_size m ∧ 1 ≤ mid ≤ 65535;
  lg_bytes : Inb._pending_bytes i = sumw in_size t;
  lg_high : Inb._pending_bytes i ≤ Inb._pending_high_water_bytes i;
  lg_stored : Inb._stored_inbound i = len t;
  (** A completion waits for a row in that phase the application does not own. *)
  lg_waiting mid st : Inb._pending_completions i !! mid = Some st →
    ∃ m, dget mid t = Some m ∧ i_state m = st ∧ i_delivered m = false;
  (** Manual acknowledgements follow the arrival order of the unanswered rows. *)
  lg_order : Inb._manual_qos1_order i = if manual then dkeys (filter is_qos1 t) else [];
  lg_ready mid : mid ∈ Inb._pending_manual_qos1_acks i → mid ∈ Inb._manual_qos1_order i;
  lg_manual : manual = true → Inb._pending_completions i = ∅ ∧ Inb._pending_auto_qos1_mids i = ∅ }.

(** Who owns the Receive Maximum slots of the connection. *)
Record Slots t i : Prop := {
  sl_window : _inflight i ≤ Inb._receive_maximum i;
  sl_pubcomps : 0 ≤ Inb._pending_pubcomp_slots i ≤ Z.of_nat (size (Inb._pending_pubcomps i));
  sl_pub_free mid : mid ∈ Inb._pending_pubcomps i → mid ∉ dkeys t;
  sl_auto_free mid : mid ∈ Inb._pending_auto_qos1_mids i → mid ∉ dkeys t;
  sl_disjoint : Inb._pending_auto_qos1_mids i ## Inb._pending_pubcomps i;
  (** The read loop is asked to hand the batch over only when that frees
      something, and always when a full window can be freed that way. *)
  sl_handoff : Inb._autoack_handoff_required i = true →
    Inb._pending_auto_qos1_mids i ≠ ∅ ∨ Inb._pending_pubcomps i ≠ ∅;
  sl_full : Inb._receive_maximum i ≤ _inflight i →
    Inb._pending_auto_qos1_mids i ≠ ∅ ∨ 0 < Inb._pending_pubcomp_slots i →
    Inb._autoack_handoff_required i = true;
  (** With a sound store every other slot belongs to a row, and a recovered
      QoS 1 row holds one only while its completion waits. *)
  sl_current mid : sound → mid ∈ Inb._current_persisted_mids i →
    ∃ m, dget mid t = Some m ∧
      (manual = false → i_state m = In.WAIT_PUBACK → is_Some (Inb._pending_completions i !! mid)) }.

Record Tokens i : Prop := {
  tk_old mid tok : Inb._exchange_tokens i !! mid = Some tok → tok < Inb._next_token i;
  tk_distinct mid mid' tok : Inb._exchange_tokens i !! mid = Some tok →
    Inb._exchange_tokens i !! mid' = Some tok → mid = mid' }.

Record InBooks t i : Prop := { ib_ledger : Ledger t i; ib_slots : Slots t i; ib_tokens : Tokens i }.

(** ** Sets and tables *)

Lemma size_add (X : gset Z) x : Z.of_nat (size (X ∪ {[x]})) = Z.of_nat (size X) + if bool_decide (x ∈ X) then 0 else 1.
Proof.
  case_bool_decide as Hx.
  - replace (X ∪ {[x]}) with X by set_solver. lia.
  - rewrite size_union by set_solver. rewrite size_singleton. lia.
Qed.

Lemma size_remove (X : gset Z) x : Z.of_nat (size (X ∖ {[x]})) = Z.of_nat (size X) - if bool_decide (x ∈ X) then 1 else 0.
Proof.
  case_bool_decide as Hx.
  - assert ({[x]} ⊆ X) as Hsub by set_solver. pose proof (subseteq_size _ _ Hsub) as Hle.
    rewrite size_difference by done. rewrite size_singleton in *. lia.
  - replace (X ∖ {[x]}) with X by (apply set_eq; intros y; destruct (decide (y = x)); set_solver). lia.
Qed.

Lemma size_pos (X : gset Z) : X ≠ ∅ ↔ 0 < Z.of_nat (size X).
Proof.
  split; intros H; [| intros ->; rewrite size_empty in H; lia].
  assert (size X ≠ 0%nat) by (intros E%size_empty_inv; apply H, leibniz_equiv, E). lia.
Qed.

Lemma len_dset_new {V} k (v : V) (t : list (Z * V)) : k ∉ dkeys t → len (dset k v t) = len t + 1.
Proof. intros. rewrite dset_new, len_app by done. rewrite len_cons, len_nil. lia. Qed.

Lemma len_dset_old {V} k (v : V) (t : list (Z * V)) : k ∈ dkeys t → len (dset k v t) = len t.
Proof.
  intros Hk. assert (length (dkeys (dset k v t)) = length (dkeys t)) as E by (by rewrite dkeys_dset_old).
  unfold dkeys in E. rewrite !length_fmap in E. unfold len. lia.
Qed.

Lemma len_ddel {V} k (v : V) (t : list (Z * V)) : dget k t = Some v → len (ddel k t) = len t - 1.
Proof.
  induction t as [| [k' v'] t IH]; simpl; [done |]. case_decide; intros; rewrite ?len_cons; [lia |].
  rewrite IH by done. lia.
Qed.

(** The unanswered rows, when rows come, go and change phase. *)
Lemma qos1_new mid m t : mid ∉ dkeys t →
  dkeys (filter is_qos1 (dset mid m t)) = dkeys (filter is_qos1 t) ++ (if decide (is_qos1 (mid, m)) then [mid] else []).
Proof.
  intros Hm. rewrite dset_new by done. unfold dkeys. rewrite filter_app, fmap_app. f_equal.
  rewrite filter_cons, filter_nil. by case_decide.
Qed.

Lemma qos1_same mid m m' t : NoDup (dkeys t) → dget mid t = Some m → (is_qos1 (mid, m) ↔ is_qos1 (mid, m')) →
  dkeys (filter is_qos1 (dset mid m' t)) = dkeys (filter is_qos1 t).
Proof.
  intros Hn. induction t as [| [k v] t IH]; [done |]. apply NoDup_cons in Hn as [Hk Hn]. simpl.
  case_decide; intros; simplify_eq.
  - unfold dkeys. rewrite !filter_cons. repeat case_decide; try tauto; done.
  - rewrite !filter_cons. case_decide; simpl; [f_equal |]; by apply IH.
Qed.

Lemma dkeys_filter_sub t mid : mid ∈ dkeys (filter is_qos1 t) → mid ∈ dkeys t.
Proof.
  unfold dkeys. intros (x & -> & [_ Hx]%list_elem_of_filter)%list_elem_of_fmap. apply list_elem_of_fmap. by exists x.
Qed.

Lemma qos1_del mid t : NoDup (dkeys t) → dkeys (filter is_qos1 (ddel mid t)) = filter (λ k, k ≠ mid) (dkeys (filter is_qos1 t)).
Proof.
  intros Hn. induction t as [| [k v] t IH]; [done |]. apply NoDup_cons in Hn as [Hk Hn]. simpl. fold (dkeys t) in *.
  assert (∀ l : list Z, mid ∉ l → filter (λ k, k ≠ mid) l = l) as Hid.
  { intros l Hl. apply filter_all. by intros x Hx ->. }
  case_decide as E.
  - subst k. rewrite filter_cons. case_decide; simpl; rewrite ?filter_cons_False by tauto;
      symmetry; apply Hid; by intros ?%dkeys_filter_sub.
  - rewrite !filter_cons. case_decide; simpl; [| by apply IH]. rewrite filter_cons_True by done. f_equal. by apply IH.
Qed.

Lemma NoDup_qos1 t : NoDup (dkeys t) → NoDup (dkeys (filter is_qos1 t)).
Proof. intros H. eapply sublist_NoDup; [exact H |]. apply fmap_sublist, sublist_filter. Qed.

Lemma row_qos1 t mid m : dget mid t = Some m → i_state m = In.WAIT_PUBACK → mid ∈ dkeys (filter is_qos1 t).
Proof.
  intros Hg Hs. apply list_elem_of_fmap. exists (mid, m). split; [done |]. apply list_elem_of_filter.
  split; [done | by apply dget_Some_elem].
Qed.

Lemma qos1_row t mid : NoDup (dkeys t) → mid ∈ dkeys (filter is_qos1 t) →
  ∃ m, dget mid t = Some m ∧ i_state m = In.WAIT_PUBACK.
Proof.
  intros Hn ([k m] & -> & [Hq Hin]%list_elem_of_filter)%list_elem_of_fmap. exists m. split; [| done].
  by apply dget_elem_NoDup.
Qed.

(** Rows that no PUBACK answers come and go without touching the order. *)
Lemma qos1_del_other mid t : NoDup (dkeys t) → mid ∉ dkeys (filter is_qos1 t) →
  dkeys (filter is_qos1 (ddel mid t)) = dkeys (filter is_qos1 t).
Proof.
  intros Hn Hm. rewrite qos1_del by done. apply filter_all. by intros x Hx ->.
Qed.

Lemma qos1_del_head mid order t : NoDup (dkeys t) → dkeys (filter is_qos1 t) = mid :: order →
  dkeys (filter is_qos1 (ddel mid t)) = order.
Proof.
  intros Hn He. rewrite qos1_del by done. pose proof (NoDup_qos1 t Hn) as Hd. rewrite He in *.
  apply NoDup_cons in Hd as [Hm _]. rewrite filter_cons_False by tauto. apply filter_all. by intros x Hx ->.
Qed.

Lemma row_size_le t mid m : Forall (λ x, 0 < in_size x) t → dget mid t = Some m → i_logical_size m ≤ sumw in_size t.
Proof.
  intros Hp Hg. pose proof (sumw_ddel in_size _ _ _ Hg) as E. unfold in_size at 3 in E. simpl in E.
  assert (0 ≤ sumw in_size (ddel mid t)); [| lia]. apply sumw_nonneg. intros x Hx. rewrite Forall_forall in Hp.
  assert (0 < in_size x); [| lia]. apply Hp. eapply elem_of_sublist; [done | apply ddel_sub].
Qed.

Lemma ledger_pos t i : Ledger t i → Forall (λ x, 0 < in_size x) t.
Proof.
  intros Hl. apply Forall_forall. intros [mid m] Hin. apply (dget_elem_NoDup _ _ _ (lg_nodup _ _ Hl)) in Hin.
  by destruct (lg_rows _ _ Hl _ _ Hin) as (_ & ? & _).
Qed.

(** ** A slot taken, bytes reserved *)

Definition taken i : Inb.InboundSession :=
  if (_inflight i + 1 >=? Inb._receive_maximum i) &&
     (negb (bool_decide (Inb._pending_auto_qos1_mids i = ∅)) || negb (bool_decide (Inb._pending_pubcomps i = ∅)))
  then Inb.set_handoff true i else i.

Definition reserved (n : Z) i : Inb.InboundSession :=
  let j := Inb.set_bytes (Inb._pending_bytes i + n) i in
  if Inb._pending_bytes i + n >? Inb._pending_high_water_bytes i
  then Inb.set_high_water (Inb._pending_bytes i + n) j else j.

(** Only the handoff flag, the byte counter and its high water mark move. *)
Lemma taken_fields i : ∃ b, taken i = Inb.set_handoff b i ∧
  (Inb._autoack_handoff_required i = true → b = true) ∧
  (b = true → Inb._autoack_handoff_required i = true ∨
    Inb._pending_auto_qos1_mids i ≠ ∅ ∨ Inb._pending_pubcomps i ≠ ∅) ∧
  (Inb._receive_maximum i ≤ _inflight i + 1 →
    Inb._pending_auto_qos1_mids i ≠ ∅ ∨ Inb._pending_pubcomps i ≠ ∅ → b = true).
Proof.
  unfold taken. rewrite Z.geb_leb. destruct (_ && _) eqn:E.
  - exists true. split_and!; try done. intros _. apply andb_true_iff in E as [_ [E | E]%orb_true_iff]; bools; tauto.
  - exists (Inb._autoack_handoff_required i). split_and!; try done; [by destruct i | tauto |]. intros Hle Hne.
    apply andb_false_iff in E as [E | E]; bools; [lia | tauto].
Qed.

Lemma reserved_fields n i : ∃ h, reserved n i = Inb.set_high_water h (Inb.set_bytes (Inb._pending_bytes i + n) i) ∧
  Inb._pending_bytes i + n ≤ h ∧ Inb._pending_high_water_bytes i ≤ h.
Proof.
  unfold reserved. rewrite Z.gtb_ltb. case_if; bools; [| exists (Inb._pending_high_water_bytes i)].
  - exists (Inb._pending_bytes i + n). split_and!; [done | lia..].
  - split_and!; [by destruct i | lia..].
Qed.

(** ** New exchanges *)

(** [mid] gets a row, a slot, [n] reserved bytes and a token. *)
Definition opened (mid n : Z) i : Inb.InboundSession :=
  let i := Inb.set_current (Inb._current_persisted_mids i ∪ {[mid]}) (reserved n (taken i)) in
  let token := Inb._next_token i in
  let i := Inb.set_next_token (token + 1) i in
  let i := Inb.set_tokens (<[mid := token]> (Inb._exchange_tokens i)) i in
  Inb.set_stored (Inb._stored_inbound i + 1) i.

Lemma tokens_fresh i i' mid : Tokens i → Inb._exchange_tokens i' = <[mid := Inb._next_token i]> (Inb._exchange_tokens i) →
  Inb._next_token i' = Inb._next_token i + 1 → Tokens i'.
Proof.
  intros [Ho Hd] E1 E2. constructor; rewrite E1, ?E2.
  - intros m tok. destruct (decide (m = mid)) as [-> |]; [rewrite lookup_insert_eq; intros [= <-]; lia |].
    rewrite lookup_insert_ne by done. intros Hm%Ho. lia.
  - intros m m' tok. destruct (decide (m = mid)) as [-> |], (decide (m' = mid)) as [-> |];
      rewrite ?lookup_insert_eq, ?lookup_insert_ne by done; try done.
    + intros [= <-] Hm%Ho. lia.
    + intros Hm%Ho [= <-]. lia.
    + by apply Hd.
Qed.

Lemma tokens_same i i' : Tokens i → Inb._exchange_tokens i' = Inb._exchange_tokens i → Inb._next_token i' = Inb._next_token i →
  Tokens i'.
Proof. intros [Ho Hd] E1 E2. constructor; rewrite E1, ?E2; done. Qed.

Lemma tokens_delete i i' mid : Tokens i → Inb._exchange_tokens i' = delete mid (Inb._exchange_tokens i) →
  Inb._next_token i' = Inb._next_token i → Tokens i'.
Proof.
  intros [Ho Hd] E1 E2. constructor; rewrite E1, ?E2.
  - intros m tok [_ ?]%lookup_delete_Some. eauto.
  - intros m m' tok [_ ?]%lookup_delete_Some [_ ?]%lookup_delete_Some. eauto.
Qed.

(** The order of the unanswered rows after a new row. *)
Definition order_with (mid : Z) (m : InboundMessage) i : list Z :=
  if manual && bool_decide (is_qos1 (mid, m)) then Inb._manual_qos1_order i ++ [mid] else Inb._manual_qos1_order i.

Lemma opened_books t i mid m :
  InBooks t i → mid ∉ dkeys t → mid ∉ Inb._pending_pubcomps i → mid ∉ Inb._pending_auto_qos1_mids i →
  i_mid m = mid → 0 < i_logical_size m → 1 ≤ mid ≤ 65535 → (is_qos1 (mid, m) → manual = true) →
  _inflight i < Inb._receive_maximum i →
  InBooks (dset mid m t) (Inb.set_order (order_with mid m i) (opened mid (i_logical_size m) i)).
Proof.
  intros [Hl Hs Ht] Hnew Hpub Hauto Hm Hpos Hmid Hq Hw. unfold opened.
  destruct (taken_fields i) as (b & -> & Hb1 & Hb2 & Hb3).
  destruct (reserved_fields (i_logical_size m) (Inb.set_handoff b i)) as (h & -> & Hh1 & Hh2). simpl in Hh1, Hh2.
  assert (dget mid t = None) as Hg by (by apply dget_None).
  constructor; [constructor; simpl | constructor; simpl; unfold _inflight in *; simpl in * |].
  - by apply NoDup_dset, Hl.
  - intros k x. rewrite dget_dset. case_decide as E; [subst; by intros [= <-] | apply (lg_rows _ _ Hl)].
  - rewrite sumw_dset_new, (lg_bytes _ _ Hl) by done. done.
  - pose proof (lg_high _ _ Hl). lia.
  - rewrite len_dset_new, (lg_stored _ _ Hl) by done. done.
  - intros k st (x & Hx & ?)%(lg_waiting _ _ Hl). exists x. rewrite dget_dset. by case_decide; simplify_eq.
  - unfold order_with. rewrite (lg_order _ _ Hl), qos1_new by done. destruct manual; simpl.
    + destruct (decide (is_qos1 (mid, m))); case_bool_decide; try done. by rewrite app_nil_r.
    + done.
  - intros k Hk%(lg_ready _ _ Hl). unfold order_with. case_if; [| done]. apply elem_of_app. by left.
  - apply Hl.
  - rewrite size_add. pose proof (sl_window _ _ Hs). case_bool_decide; lia.
  - apply Hs.
  - intros k Hk. rewrite dkeys_dset. intros [-> | ?]; [done |]. by apply (sl_pub_free _ _ Hs k).
  - intros k Hk. rewrite dkeys_dset. intros [-> | ?]; [done |]. by apply (sl_auto_free _ _ Hs k).
  - apply Hs.
  - intros Hh. apply Hb2 in Hh as [Hh | ?]; [by apply (sl_handoff _ _ Hs) | done].
  - rewrite size_add. intros Hle Hne. apply Hb3; [unfold _inflight; case_bool_decide; lia |].
    destruct Hne as [? | Hne]; [by left | right]. apply size_pos. pose proof (sl_pubcomps _ _ Hs). lia.
  - intros k Hsound. rewrite elem_of_union, elem_of_singleton, dget_dset. intros Hk. case_decide as E.
    + exists m. split; [done |]. intros Hman Hst. rewrite (Hq Hst) in Hman. done.
    + destruct Hk as [Hk | ->]; [| done]. by apply (sl_current _ _ Hs).
  - by eapply tokens_fresh.
Qed.

(** ** Slots and completions of stored rows *)

Definition attached (mid : Z) i : Inb.InboundSession :=
  if bool_decide (mid ∈ Inb._current_persisted_mids i) then i
  else let i := taken i in Inb.set_current (Inb._current_persisted_mids i ∪ {[mid]}) i.

Lemma attached_books t i mid m :
  InBooks t i → dget mid t = Some m →
  (manual = false → i_state m = In.WAIT_PUBACK → is_Some (Inb._pending_completions i !! mid)) →
  (mid ∉ Inb._current_persisted_mids i → _inflight i < Inb._receive_maximum i) → InBooks t (attached mid i).
Proof.
  intros [Hl Hs Ht] Hg Hc Hw. unfold attached. case_bool_decide as Hin; [by constructor |]. specialize (Hw Hin).
  destruct (taken_fields i) as (b & -> & Hb1 & Hb2 & Hb3). cbv zeta.
  constructor; [constructor; apply Hl | constructor; simpl; unfold _inflight in *; simpl in * | by eapply tokens_same].
  - rewrite size_add, bool_decide_false by done. pose proof (sl_window _ _ Hs). unfold _inflight in *. lia.
  - apply Hs.
  - apply Hs.
  - apply Hs.
  - apply Hs.
  - intros Hh. apply Hb2 in Hh as [Hh | ?]; [by apply (sl_handoff _ _ Hs) | done].
  - rewrite size_add, bool_decide_false by done. intros Hle Hne. apply Hb3; [unfold _inflight; lia |].
    destruct Hne as [? | Hne]; [by left | right]. apply size_pos. pose proof (sl_pubcomps _ _ Hs). lia.
  - intros k Hsound [Hk | ->%elem_of_singleton]%elem_of_union; [by apply (sl_current _ _ Hs) | by exists m].
Qed.

Lemma attached_completions d mid i :
  attached mid (Inb.set_completions d i) = Inb.set_completions d (attached mid i).
Proof. unfold attached, taken, _inflight. simpl. case_bool_decide; [done |]. by destruct (_ && _). Qed.

Lemma waiting_books t i mid m :
  InBooks t i → dget mid t = Some m → i_delivered m = false → manual = false →
  InBooks t (Inb.set_completions (<[mid := i_state m]> (Inb._pending_completions i)) i).
Proof.
  intros [Hl Hs Ht] Hg Hd Hm. constructor; [constructor; simpl; try apply Hl | constructor; simpl; try apply Hs | by eapply tokens_same].
  - intros k st. destruct (decide (k = mid)) as [-> |]; [rewrite lookup_insert_eq; intros [= <-]; by exists m |].
    rewrite lookup_insert_ne by done. apply (lg_waiting _ _ Hl).
  - by rewrite Hm.
  - intros k Hsound Hk. destruct (sl_current _ _ Hs k Hsound Hk) as (x & Hx & Hi). exists x. split; [done |].
    intros _ Hst. destruct (decide (k = mid)) as [-> |]; [by rewrite lookup_insert_eq |].
    rewrite lookup_insert_ne by done. by apply Hi.
Qed.

(** ** Exchanges that end *)

(** The row of [mid] is gone: its identity, its waiting completion and its place
    in the count go too. *)
Definition closed (mid : Z) i : Inb.InboundSession :=
  let i := Inb.set_tokens (delete mid (Inb._exchange_tokens i)) i in
  let i := Inb.set_completions (delete mid (Inb._pending_completions i)) i in
  Inb.set_stored (Inb._stored_inbound i - 1) i.

Definition unreserved (n : Z) i : Inb.InboundSession := Inb.set_bytes (Inb._pending_bytes i - n) i.

(** A PUBACK answers: the slot of the row is free. *)
Definition answered (mid n : Z) i : Inb.InboundSession :=
  unreserved n (Inb.set_current (Inb._current_persisted_mids i ∖ {[mid]}) i).

(** A PUBCOMP answers: slot and identifier stay until the batch is taken. *)
Definition parked (mid n : Z) i : Inb.InboundSession :=
  let i := unreserved n i in
  let i := Inb.set_pubcomps (Inb._pending_pubcomps i ∪ {[mid]}) (Inb._pending_pubcomp_slots i) i in
  if bool_decide (mid ∈ Inb._current_persisted_mids i) then
    let i := Inb.set_current (Inb._current_persisted_mids i ∖ {[mid]}) i in
    let i := Inb.set_pubcomps (Inb._pending_pubcomps i) (Inb._pending_pubcomp_slots i + 1) i in
    if _inflight i >=? Inb._receive_maximum i then Inb.set_handoff true i else i
  else i.

(** An automatic PUBACK enters the batch. *)
Definition batched (mid occupied : Z) i : Inb.InboundSession :=
  let i := Inb.set_auto (Inb._pending_auto_qos1_mids i ∪ {[mid]}) i in
  if occupied >=? Inb._receive_maximum i then Inb.set_handoff true i else i.

(** The ledger without the row of [mid], for any order that has lost it. *)
Lemma ledger_closed t i i' mid m :
  Ledger t i → dget mid t = Some m →
  Inb._pending_bytes i' = Inb._pending_bytes i - i_logical_size m →
  Inb._pending_high_water_bytes i' = Inb._pending_high_water_bytes i →
  Inb._stored_inbound i' = Inb._stored_inbound i - 1 →
  Inb._pending_completions i' = delete mid (Inb._pending_completions i) →
  Inb._manual_qos1_order i' = (if manual then dkeys (filter is_qos1 (ddel mid t)) else []) →
  (∀ k, k ∈ Inb._pending_manual_qos1_acks i' → k ∈ Inb._manual_qos1_order i') →
  (manual = true → Inb._pending_auto_qos1_mids i' = ∅) → Ledger (ddel mid t) i'.
Proof.
  intros Hl Hg Eb Eh Es Ec Eo Hr Ha. pose proof (lg_nodup _ _ Hl) as Hn. destruct (lg_rows _ _ Hl mid m Hg) as (_ & Hpos & _).
  constructor.
  - by apply NoDup_ddel.
  - intros k x. rewrite dget_ddel by done. case_decide; [done |]. apply (lg_rows _ _ Hl).
  - rewrite Eb, (sumw_ddel _ _ _ _ Hg), (lg_bytes _ _ Hl). done.
  - rewrite Eb, Eh. pose proof (lg_high _ _ Hl). lia.
  - rewrite Es, (len_ddel _ _ _ Hg), (lg_stored _ _ Hl). done.
  - intros k st. rewrite Ec. intros [Hk Hc]%lookup_delete_Some. rewrite dget_ddel, decide_False by done.
    by apply (lg_waiting _ _ Hl).
  - done.
  - done.
  - intros Hm. rewrite Ec, (proj1 (lg_manual _ _ Hl Hm)), delete_empty. by split; [| apply Ha].
Qed.

(** An order that never held the identifier. *)
Lemma order_other t i mid m : Ledger t i → dget mid t = Some m → (manual = true → ¬ is_qos1 (mid, m)) →
  Inb._manual_qos1_order i = (if manual then dkeys (filter is_qos1 (ddel mid t)) else []).
Proof.
  intros Hl Hg Hq. rewrite (lg_order _ _ Hl). destruct manual eqn:Em; [| done].
  rewrite qos1_del_other; [done | apply Hl |].
  intros (x & Hx & Hs)%(qos1_row _ _ (lg_nodup _ _ Hl)). apply Hq; [done |]. unfold is_qos1. simpl. congruence.
Qed.

Lemma not_in_ddel t mid k : NoDup (dkeys t) → k ∉ dkeys t → k ∉ dkeys (ddel mid t).
Proof. intros Hn Hk. rewrite dkeys_ddel by done. tauto. Qed.

Lemma parked_fields mid n i :
  let j := parked mid n (closed mid i) in
  (Inb._pending_bytes j = Inb._pending_bytes i - n ∧ Inb._pending_high_water_bytes j = Inb._pending_high_water_bytes i ∧
   Inb._stored_inbound j = Inb._stored_inbound i - 1 ∧
   Inb._pending_completions j = delete mid (Inb._pending_completions i) ∧
   Inb._manual_qos1_order j = Inb._manual_qos1_order i ∧
   Inb._pending_manual_qos1_acks j = Inb._pending_manual_qos1_acks i ∧
   Inb._pending_auto_qos1_mids j = Inb._pending_auto_qos1_mids i) ∧
  Inb._exchange_tokens j = delete mid (Inb._exchange_tokens i) ∧ Inb._next_token j = Inb._next_token i.
Proof. unfold parked, closed. cbv zeta. simpl. case_bool_decide; [case_if |]; done. Qed.

Lemma parked_replay mid n i : Inb._replay (parked mid n (closed mid i)) = Inb._replay i.
Proof. unfold parked, closed. cbv zeta. simpl. case_bool_decide; [case_if |]; done. Qed.

Lemma parked_books t i mid m :
  InBooks t i → dget mid t = Some m → (manual = true → ¬ is_qos1 (mid, m)) →
  InBooks (ddel mid t) (parked mid (i_logical_size m) (closed mid i)).
Proof.
  intros [Hl Hs Ht] Hg Hq. pose proof (lg_nodup _ _ Hl) as Hn.
  assert (mid ∈ dkeys t) as Hin by (by eapply dget_Some_key).
  assert (mid ∉ Inb._pending_pubcomps i) as Hp by (intros Hk; by apply (sl_pub_free _ _ Hs mid Hk)).
  assert (mid ∉ Inb._pending_auto_qos1_mids i) as Ha by (intros Hk; by apply (sl_auto_free _ _ Hs mid Hk)).
  constructor.
  - destruct (parked_fields mid (i_logical_size m) i) as ((? & ? & ? & ? & Eo & Er & Ea) & _).
    apply (ledger_closed t i _ mid m); rewrite ?Eo, ?Er, ?Ea; try done; [by eapply order_other | apply Hl |].
    apply (lg_manual _ _ Hl).
  - pose proof (sl_pubcomps _ _ Hs) as Hsl. pose proof (sl_window _ _ Hs) as Hw.
    pose proof (size_add (Inb._pending_pubcomps i) mid) as Hadd. rewrite bool_decide_false in Hadd by done.
    pose proof (size_remove (Inb._current_persisted_mids i) mid) as Hrem.
    assert (Hne : Inb._pending_pubcomps i ∪ {[mid]} ≠ ∅) by set_solver.
    assert (Hfree : ∀ k, k ∈ Inb._pending_pubcomps i ∪ {[mid]} → k ∉ dkeys (ddel mid t)).
    { intros k [Hk%(sl_pub_free _ _ Hs) | ->%elem_of_singleton]%elem_of_union; [by apply not_in_ddel |].
      rewrite dkeys_ddel by done. tauto. }
    assert (Hauto : ∀ k, k ∈ Inb._pending_auto_qos1_mids i → k ∉ dkeys (ddel mid t)).
    { intros k Hk%(sl_auto_free _ _ Hs). by apply not_in_ddel. }
    assert (Hdisj : Inb._pending_auto_qos1_mids i ## Inb._pending_pubcomps i ∪ {[mid]}).
    { pose proof (sl_disjoint _ _ Hs). set_solver. }
    assert (Hcur : ∀ k, sound → k ∈ Inb._current_persisted_mids i → k ≠ mid → ∃ x, dget k (ddel mid t) = Some x ∧
      (manual = false → i_state x = In.WAIT_PUBACK → is_Some (delete mid (Inb._pending_completions i) !! k))).
    { intros k Hsound Hk Hkm. rewrite dget_ddel, decide_False, lookup_delete_ne by done. by apply (sl_current _ _ Hs). }
    unfold parked, closed. cbv zeta. simpl. case_bool_decide as Hc.
    + case_if; bools; constructor; simpl; unfold _inflight in *; simpl in *; try done; try lia; try (by intros; right).
      * intros k Hsound [Hk Hkm]%elem_of_difference. apply Hcur; [done.. | set_solver].
      * intros k Hsound [Hk Hkm]%elem_of_difference. apply Hcur; [done.. | set_solver].
    + constructor; simpl; unfold _inflight in *; simpl in *; try done; try lia.
      * by intros; right.
      * apply (sl_full _ _ Hs).
      * intros k Hsound Hk. apply Hcur; [done.. | by intros ->].
  - destruct (parked_fields mid (i_logical_size m) i) as (_ & ? & ?). by eapply tokens_delete.
Qed.

(** The slots once the row of a QoS 1 exchange is answered. *)
Lemma slots_answered t i i' mid m :
  Slots t i → NoDup (dkeys t) → dget mid t = Some m →
  Inb._current_persisted_mids i' = Inb._current_persisted_mids i ∖ {[mid]} →
  Inb._pending_auto_qos1_mids i' = Inb._pending_auto_qos1_mids i →
  Inb._pending_pubcomps i' = Inb._pending_pubcomps i → Inb._pending_pubcomp_slots i' = Inb._pending_pubcomp_slots i →
  Inb._receive_maximum i' = Inb._receive_maximum i →
  Inb._autoack_handoff_required i' = Inb._autoack_handoff_required i →
  Inb._pending_completions i' = delete mid (Inb._pending_completions i) → Slots (ddel mid t) i'.
Proof.
  intros Hs Hn Hg E1 E2 E3 E4 E5 E6 E7. pose proof (size_remove (Inb._current_persisted_mids i) mid) as Hrem.
  pose proof (sl_window _ _ Hs) as Hw.
  constructor; unfold _inflight in *; rewrite ?E1, ?E2, ?E3, ?E4, ?E5, ?E6; try apply Hs.
  - case_bool_decide; lia.
  - intros k Hk%(sl_pub_free _ _ Hs). by apply not_in_ddel.
  - intros k Hk%(sl_auto_free _ _ Hs). by apply not_in_ddel.
  - intros Hle. apply (sl_full _ _ Hs). unfold _inflight. case_bool_decide; lia.
  - intros k Hsound [Hk Hkm]%elem_of_difference. rewrite E7, dget_ddel, decide_False, lookup_delete_ne by set_solver.
    by apply (sl_current _ _ Hs).
Qed.

Lemma answered_books t i mid m :
  InBooks t i → dget mid t = Some m → (manual = true → ¬ is_qos1 (mid, m)) →
  InBooks (ddel mid t) (answered mid (i_logical_size m) (closed mid i)).
Proof.
  intros [Hl Hs Ht] Hg Hq. constructor.
  - apply (ledger_closed t i _ mid m); try done; [by apply (order_other t i mid m) | apply Hl |]. apply (lg_manual _ _ Hl).
  - by apply (slots_answered t i _ mid m); [| apply Hl | ..].
  - by eapply tokens_delete.
Qed.

(** The head of the acknowledgement order is answered. *)
Lemma drained_books t i mid order m :
  InBooks t i → dget mid t = Some m → manual = true → Inb._manual_qos1_order i = mid :: order →
  InBooks (ddel mid t)
    (Inb.set_manual_acks (Inb._pending_manual_qos1_acks i ∖ {[mid]})
      (Inb.set_order order (answered mid (i_logical_size m) (closed mid i)))).
Proof.
  intros [Hl Hs Ht] Hg Hm Ho. assert (dkeys (filter is_qos1 t) = mid :: order) as E.
  { rewrite <- Ho, (lg_order _ _ Hl), Hm. done. }
  constructor.
  - apply (ledger_closed t i _ mid m); try done; simpl.
    + rewrite Hm. symmetry. apply qos1_del_head; [apply Hl | done].
    + intros k [Hk%(lg_ready _ _ Hl) Hkm]%elem_of_difference. rewrite Ho in Hk. apply elem_of_cons in Hk. set_solver.
    + apply (lg_manual _ _ Hl).
  - by apply (slots_answered t i _ mid m); [| apply Hl | ..].
  - by eapply tokens_delete.
Qed.

(** A fresh automatic QoS 1 exchange: the slot taken is the batch's. *)
Lemma batched_books t i mid :
  InBooks t i → mid ∉ dkeys t → mid ∉ Inb._pending_pubcomps i → mid ∉ Inb._pending_auto_qos1_mids i → manual = false →
  _inflight i < Inb._receive_maximum i → InBooks t (batched mid (_inflight i + 1) (taken i)).
Proof.
  intros [Hl Hs Ht] Hnew Hp Ha Hm Hw. destruct (taken_fields i) as (b & -> & Hb1 & Hb2 & Hb3). unfold batched.
  pose proof (size_add (Inb._pending_auto_qos1_mids i) mid) as Hadd. rewrite bool_decide_false in Hadd by done.
  assert (Hne : Inb._pending_auto_qos1_mids i ∪ {[mid]} ≠ ∅) by set_solver.
  assert (Hfree : ∀ k, k ∈ Inb._pending_auto_qos1_mids i ∪ {[mid]} → k ∉ dkeys t).
  { intros k [Hk%(sl_auto_free _ _ Hs) | ->%elem_of_singleton]%elem_of_union; done. }
  assert (Hd : Inb._pending_auto_qos1_mids i ∪ {[mid]} ## Inb._pending_pubcomps i).
  { pose proof (sl_disjoint _ _ Hs). set_solver. }
  assert (∀ c, Ledger t (Inb.set_handoff c (Inb.set_auto (Inb._pending_auto_qos1_mids i ∪ {[mid]}) i))) as HL.
  { intros c. constructor; try apply Hl. by rewrite Hm. }
  simpl. case_if.
  - constructor; [exact (HL true) | | by eapply tokens_same]. constructor; simpl; unfold _inflight in *; simpl in *; try done; try apply Hs; try lia.
    by left.
  - constructor; [exact (HL b) | | by eapply tokens_same]. constructor; simpl; unfold _inflight in *; simpl in *; try done; try apply Hs; try lia.
    by left.
Qed.

(** A delivered recovered row answered automatically: its bytes are free, its
    slot is the batch's. *)
Lemma recovered_books t i mid m :
  InBooks t i → dget mid t = Some m → is_qos1 (mid, m) → manual = false → Inb._pending_completions i !! mid = None →
  _inflight i < Inb._receive_maximum i →
  InBooks (ddel mid t)
    (batched mid (_inflight i + 1) (unreserved (i_logical_size m) (closed mid (taken i)))).
Proof.
  intros HB Hg Hq Hm Hc Hw. destruct HB as [Hl Hs Ht]. pose proof (lg_nodup _ _ Hl) as Hn.
  assert (mid ∈ dkeys t) as Hin by (by eapply dget_Some_key).
  assert (mid ∉ Inb._pending_auto_qos1_mids i) as Ha by (intros Hk; by apply (sl_auto_free _ _ Hs mid Hk)).
  assert (mid ∉ Inb._pending_pubcomps i) as Hp by (intros Hk; by apply (sl_pub_free _ _ Hs mid Hk)).
  destruct (taken_fields i) as (b & -> & Hb1 & Hb2 & Hb3).
  pose proof (size_add (Inb._pending_auto_qos1_mids i) mid) as Hadd. rewrite bool_decide_false in Hadd by done.
  assert (Hne : Inb._pending_auto_qos1_mids i ∪ {[mid]} ≠ ∅) by set_solver.
  assert (Hfree : ∀ k, k ∈ Inb._pending_auto_qos1_mids i ∪ {[mid]} → k ∉ dkeys (ddel mid t)).
  { intros k [Hk%(sl_auto_free _ _ Hs) | ->%elem_of_singleton]%elem_of_union; [by apply not_in_ddel |].
    rewrite dkeys_ddel by done. tauto. }
  assert (Hpf : ∀ k, k ∈ Inb._pending_pubcomps i → k ∉ dkeys (ddel mid t)).
  { intros k Hk%(sl_pub_free _ _ Hs). by apply not_in_ddel. }
  assert (Hd : Inb._pending_auto_qos1_mids i ∪ {[mid]} ## Inb._pending_pubcomps i).
  { pose proof (sl_disjoint _ _ Hs). set_solver. }
  assert (Hcur : ∀ k, sound → k ∈ Inb._current_persisted_mids i → ∃ x, dget k (ddel mid t) = Some x ∧
    (manual = false → i_state x = In.WAIT_PUBACK → is_Some (delete mid (Inb._pending_completions i) !! k))).
  { intros k Hsound Hk. destruct (sl_current _ _ Hs k Hsound Hk) as (x & Hx & Hi).
    assert (k ≠ mid) by (intros ->; simplify_eq; destruct (Hi Hm Hq); simplify_eq).
    exists x. rewrite dget_ddel, decide_False, lookup_delete_ne by done. done. }
  unfold batched, unreserved. simpl. pose proof (sl_window _ _ Hs) as Hwin. unfold _inflight in Hwin.
  case_if; bools; (constructor; [| | by eapply tokens_delete]).
  1, 3: apply (ledger_closed t i _ mid m); try done; [by apply (order_other t i mid m); [| | rewrite Hm] | apply Hl | by rewrite Hm].
  - constructor; simpl; unfold _inflight in *; simpl in *; try done; try apply Hs; try lia; by left.
  - constructor; simpl; unfold _inflight in *; simpl in *; try done; try apply Hs; try lia; by left.
Qed.

(** ** Rows that change *)

Lemma delivered_books t i mid m :
  InBooks t i → dget mid t = Some m → Inb._pending_completions i !! mid = None →
  InBooks (dset mid (i_set_delivered m) t) i.
Proof.
  intros [Hl Hs Ht] Hg Hc. pose proof (dget_Some_key _ _ _ Hg) as Hk.
  constructor; [constructor | constructor |]; try apply Hl; try apply Hs; try done.
  - by apply NoDup_dset, Hl.
  - intros k x. rewrite dget_dset. case_decide; [intros [= <-]; subst; apply (lg_rows _ _ Hl mid m Hg) | apply (lg_rows _ _ Hl)].
  - rewrite (sumw_dset_old _ _ _ _ _ Hg), (lg_bytes _ _ Hl). unfold in_size. simpl. lia.
  - rewrite len_dset_old by done. apply Hl.
  - intros k st Hw. rewrite dget_dset. case_decide; [by simplify_eq | by apply (lg_waiting _ _ Hl)].
  - rewrite (lg_order _ _ Hl). destruct manual; [| done]. symmetry. by apply (qos1_same _ m); [apply Hl | |].
  - intros k Hp. rewrite dkeys_dset. intros [-> | ?]; by eapply (sl_pub_free _ _ Hs).
  - intros k Hp. rewrite dkeys_dset. intros [-> | ?]; by eapply (sl_auto_free _ _ Hs).
  - intros k Hsound Hin. destruct (sl_current _ _ Hs k Hsound Hin) as (x & Hx & Hi). rewrite dget_dset.
    case_decide; [| eauto]. subst. simplify_eq. eexists. split; [done |]. exact Hi.
Qed.

(** A phase change of a row that waits for nothing and that no PUBACK answers,
    before or after. *)
Lemma moved_books t i mid m st a :
  InBooks t i → dget mid t = Some m → Inb._pending_completions i !! mid = None → ¬ is_qos1 (mid, m) → st ≠ In.WAIT_PUBACK →
  InBooks (dset mid (i_set_state m st a) t) i.
Proof.
  intros [Hl Hs Ht] Hg Hc Hq Hst. pose proof (dget_Some_key _ _ _ Hg) as Hk.
  constructor; [constructor | constructor |]; try apply Hl; try apply Hs; try done.
  - by apply NoDup_dset, Hl.
  - intros k x. rewrite dget_dset. case_decide; [intros [= <-]; subst; apply (lg_rows _ _ Hl mid m Hg) | apply (lg_rows _ _ Hl)].
  - rewrite (sumw_dset_old _ _ _ _ _ Hg), (lg_bytes _ _ Hl). unfold in_size. simpl. lia.
  - rewrite len_dset_old by done. apply Hl.
  - intros k s Hw. rewrite dget_dset. case_decide; [by simplify_eq | by apply (lg_waiting _ _ Hl)].
  - rewrite (lg_order _ _ Hl). destruct manual; [| done]. symmetry. apply (qos1_same _ m); [apply Hl | done |].
    unfold is_qos1 in *. simpl in *. tauto.
  - intros k Hp. rewrite dkeys_dset. intros [-> | ?]; by eapply (sl_pub_free _ _ Hs).
  - intros k Hp. rewrite dkeys_dset. intros [-> | ?]; by eapply (sl_auto_free _ _ Hs).
  - intros k Hsound Hin. destruct (sl_current _ _ Hs k Hsound Hin) as (x & Hx & Hi). rewrite dget_dset.
    case_decide; [| eauto]. subst. simplify_eq. eexists. split; [done |]. by intros _ ?.
Qed.

(** ** Connections and sessions *)

Lemma window_nonneg t i : Slots t i → 0 ≤ _inflight i.
Proof. intros Hs. pose proof (sl_pubcomps _ _ Hs). unfold _inflight. lia. Qed.

(** Slots of a connection that owns none. *)
Lemma slots_none t i :
  Inb._current_persisted_mids i = ∅ → Inb._pending_auto_qos1_mids i = ∅ → Inb._pending_pubcomps i = ∅ →
  Inb._pending_pubcomp_slots i = 0 → Inb._autoack_handoff_required i = false → 0 ≤ Inb._receive_maximum i → Slots t i.
Proof.
  intros E1 E2 E3 E4 E5 Hr. constructor; unfold _inflight; rewrite ?E1, ?E2, ?E3, ?E4, ?E5, ?size_empty; try done.
  - intros _ [? | ?]; [done | lia].
Qed.

(** [simpl] unfolds the size of the empty set. *)
Lemma released_books t i : InBooks t i → InBooks t (release_pending_acks i).
Proof.
  intros [Hl Hs Ht].
  assert (∃ slots, release_pending_acks i = Inb.set_pubcomps ∅ slots (Inb.set_auto ∅ (Inb.set_handoff false i)) ∧ slots = 0) as (n & E & ->).
  { unfold release_pending_acks. simpl. case_bool_decide as Ep; [| by eexists].
    exists (Inb._pending_pubcomp_slots i). pose proof (sl_pubcomps _ _ Hs) as Hp. rewrite Ep, size_empty in Hp.
    split; [| lia]. rewrite <- Ep. by destruct i. }
  rewrite E. pose proof (sl_window _ _ Hs) as Hw. pose proof (sl_pubcomps _ _ Hs).
  constructor; [constructor; simpl; try apply Hl | constructor; unfold _inflight in *; simpl; no_slots | by eapply tokens_same]; try done.
  - intros Hm. by destruct (lg_manual _ _ Hl Hm).
  - lia.
  - intros _ [? | ?]; [done | lia].
  - apply (sl_current _ _ Hs).
Qed.

Lemma connected_books t i rm tam : InBooks t i → 0 ≤ rm →
  InBooks t (Inb.set_replay None (Inb.set_manual_acks ∅ (Inb.set_pubcomps ∅ 0 (Inb.set_auto ∅ (Inb.set_handoff false
    (Inb.set_current ∅ (Inb.set_limits rm tam (Inb.set_aliases ∅ i)))))))).
Proof.
  intros [Hl Hs Ht] Hr. constructor; [| by apply slots_none | by eapply tokens_same].
  constructor; simpl; try apply Hl; [done |]. intros Hm. by destruct (lg_manual _ _ Hl Hm).
Qed.

Lemma dropped_books t i : InBooks t i →
  InBooks t (Inb.set_manual_acks ∅ (Inb.set_completions ∅ (Inb.set_current ∅ (Inb.set_aliases ∅ i)))).
Proof.
  intros [Hl Hs Ht]. pose proof (sl_window _ _ Hs) as Hw. unfold _inflight in Hw.
  constructor; [constructor; simpl; try apply Hl | constructor; unfold _inflight in *; simpl; no_slots; try apply Hs | by eapply tokens_same]; try done.
  - intros Hm. split; [done |]. by destruct (lg_manual _ _ Hl Hm).
  - lia.
  - intros Hle Hne. apply (sl_full _ _ Hs); [unfold _inflight; lia | done].
Qed.

Lemma discarded_books t i : InBooks t i →
  InBooks [] (Inb.set_order [] (Inb.set_manual_acks ∅ (Inb.set_pubcomps ∅ 0 (Inb.set_auto ∅ (Inb.set_handoff false
      (Inb.set_stored 0 (Inb.set_bytes 0 (Inb.set_completions ∅ (Inb.set_tokens ∅ (Inb.set_current ∅
        (Inb.set_replay None (Inb.set_recovered ∅ i)))))))))))).
Proof.
  intros [Hl Hs Ht]. pose proof (window_nonneg _ _ Hs) as H0. pose proof (sl_window _ _ Hs) as Hw.
  constructor; [constructor; simpl; try done | apply slots_none; simpl; try done; lia | by constructor].
  - apply NoDup_nil_2.
  - pose proof (lg_high _ _ Hl) as Hh. rewrite (lg_bytes _ _ Hl) in Hh. pose proof (ledger_pos _ _ Hl) as Hp.
    assert (0 ≤ sumw in_size t); [| lia]. apply sumw_nonneg. intros x Hx. rewrite Forall_forall in Hp. apply Hp in Hx. lia.
  - by destruct manual.
Qed.

Lemma ready_books t i mid m : InBooks t i → dget mid t = Some m → is_qos1 (mid, m) → manual = true →
  InBooks t (Inb.set_manual_acks (Inb._pending_manual_qos1_acks i ∪ {[mid]}) i).
Proof.
  intros [Hl Hs Ht] Hg Hq Hm. constructor; [constructor; simpl; try apply Hl | constructor; apply Hs | by eapply tokens_same].
  intros k [Hk%(lg_ready _ _ Hl) | ->%elem_of_singleton]%elem_of_union; [done |].
  rewrite (lg_order _ _ Hl), Hm. by eapply row_qos1.
Qed.

(** What the invariant does not read. *)
Lemma books_same t i i' : InBooks t i →
  (Inb._pending_bytes i', Inb._pending_high_water_bytes i', Inb._stored_inbound i', Inb._pending_completions i',
   Inb._manual_qos1_order i', Inb._pending_manual_qos1_acks i', Inb._pending_auto_qos1_mids i',
   Inb._pending_pubcomps i', Inb._pending_pubcomp_slots i', Inb._current_persisted_mids i', Inb._receive_maximum i',
   Inb._autoack_handoff_required i', Inb._exchange_tokens i', Inb._next_token i') =
  (Inb._pending_bytes i, Inb._pending_high_water_bytes i, Inb._stored_inbound i, Inb._pending_completions i,
   Inb._manual_qos1_order i, Inb._pending_manual_qos1_acks i, Inb._pending_auto_qos1_mids i,
   Inb._pending_pubcomps i, Inb._pending_pubcomp_slots i, Inb._current_persisted_mids i, Inb._receive_maximum i,
   Inb._autoack_handoff_required i, Inb._exchange_tokens i, Inb._next_token i) → InBooks t i'.
Proof.
  intros [Hl Hs Ht] [=]. constructor; [destruct Hl; constructor | destruct Hs; constructor; unfold _inflight in * | by eapply tokens_same];
    repeat match goal with E : ?f i' = _ |- context [?f i'] => rewrite E end; done.
Qed.

(** A row gets an identity when its message is first exposed. *)
Lemma tokened_books t i mid : InBooks t i →
  InBooks t (Inb.set_tokens (<[mid := Inb._next_token i]> (Inb._exchange_tokens i)) (Inb.set_next_token (Inb._next_token i + 1) i)).
Proof. intros [Hl Hs Ht]. constructor; [constructor; apply Hl | constructor; apply Hs | by eapply tokens_fresh]. Qed.

(** A QoS 2 exchange, and a QoS 1 exchange acknowledged by the application. *)
Lemma opened2_books t i mid m :
  InBooks t i → mid ∉ dkeys t → mid ∉ Inb._pending_pubcomps i → mid ∉ Inb._pending_auto_qos1_mids i →
  i_mid m = mid → 0 < i_logical_size m → 1 ≤ mid ≤ 65535 → ¬ is_qos1 (mid, m) →
  _inflight i < Inb._receive_maximum i → InBooks (dset mid m t) (opened mid (i_logical_size m) i).
Proof.
  intros HB Hn Hp Ha Hm Hs Hr Hq Hw. eapply books_same; [by apply (opened_books t i mid m) | ]. unfold order_with.
  rewrite (bool_decide_false _ Hq), andb_false_r. unfold opened. destruct (taken_fields i) as (b & -> & _).
  by destruct (reserved_fields (i_logical_size m) (Inb.set_handoff b i)) as (h & -> & _).
Qed.

Lemma opened1_books t i mid m :
  InBooks t i → mid ∉ dkeys t → mid ∉ Inb._pending_pubcomps i → manual = true →
  i_mid m = mid → 0 < i_logical_size m → 1 ≤ mid ≤ 65535 → is_qos1 (mid, m) →
  _inflight i < Inb._receive_maximum i →
  InBooks (dset mid m t) (Inb.set_order (Inb._manual_qos1_order i ++ [mid]) (opened mid (i_logical_size m) i)).
Proof.
  intros HB Hn Hp Hman Hm Hs Hr Hq Hw. pose proof (opened_books t i mid m HB Hn Hp) as Ho. unfold order_with in Ho.
  rewrite Hman, (bool_decide_true _ Hq) in Ho. apply Ho; try done. rewrite (proj2 (lg_manual _ _ (ib_ledger _ _ HB) Hman)). set_solver.
Qed.

(** A reservation taken and given back, whatever happened to the flag. *)
Lemma reserved_books t i n : InBooks t i →
  InBooks t (unreserved n (reserved n (taken i))).
Proof.
  intros [Hl Hs Ht]. destruct (taken_fields i) as (b & -> & Hb1 & Hb2 & Hb3).
  destruct (reserved_fields n (Inb.set_handoff b i)) as (h & -> & Hh1 & Hh2). simpl in *. unfold unreserved. simpl.
  constructor; [constructor; simpl; try apply Hl | constructor; simpl; try apply Hs | by eapply tokens_same].
  - rewrite (lg_bytes _ _ Hl). lia.
  - pose proof (lg_high _ _ Hl). lia.
  - intros Hb%Hb2. destruct Hb as [Hb | ?]; [by apply (sl_handoff _ _ Hs) | done].
  - intros Hle Hne. apply Hb1. by apply (sl_full _ _ Hs).
Qed.

Lemma taken_books t i : InBooks t i → InBooks t (taken i).
Proof.
  intros HB. eapply books_same; [exact (reserved_books t i 0 HB) |]. destruct (reserved_fields 0 (taken i)) as (h & E & Hh).
  unfold unreserved. destruct (taken_fields i) as (b & Eb & _). rewrite Eb in *. unfold reserved in *. simpl in *.
  rewrite Z.gtb_ltb in *. pose proof (lg_high _ _ (ib_ledger _ _ HB)).
  rewrite (proj2 (Z.ltb_ge _ _)) in * by lia. simpl. by rewrite !Z.add_0_r, !Z.sub_0_r.
Qed.
End books.
