(* ===== verification/OutboundInv.v ===== *)
(** * The outbound session keeps its books

    The accounting invariant of [OutboundSession] over any store that keeps the
    promises of [OutStoreLaws], failing stores included. *)

From S2P Require Import Prelude Vbi PyStr Primitives Enums Properties Topics Frame Ack Publish Handshake.
From S2P Require Import Subscription Types Buffer PacketIds Settings Store EngineState Outbound Wp Accounting.

(** ** Steps that leave the books alone *)

(** The fields of the session the invariant reads (all but the statistics and
    the Topic Alias table). *)
Definition books (o : OutboundSession) :=
  (packet_ids o, flow o, _queued o, _parked o, _sealed o, _pending_messages o, _pending_bytes o).

Section inv.
Context {S : Type} `{OutStoreLaws S} (config : EngineConfig).
Implicit Types (e : Engine S).

(** From [e] to [e'] the table becomes [t'], objects change phase only for the
    identifiers in [ch], and the books, the pending requests and the
    connection's state stay as they are. *)
Record moved (ch : Z → Prop) (t' : rowtable) e e' : Prop := {
  mv_ok : table_ok e';
  mv_table : table e' = t';
  mv_heap : heap_frame ch (heap e) (heap e');
  mv_books : books (outbound e') = books (outbound e);
  mv_subs : _pending_sub_requests e' = _pending_sub_requests e;
  mv_state : state e' = state e;
  mv_negotiated : negotiated e' = negotiated e }.

Abbreviation quiet e := (moved untouched (table e) e).

Lemma quiet_refl e : table_ok e → quiet e e.
Proof. intros. constructor; try done. apply heap_frame_refl. Qed.

Lemma moved_trans (ch ch' ch'' : Z → Prop) t' t'' e1 e2 e3 :
  moved ch t' e1 e2 → moved ch' t'' e2 e3 → (∀ m, ch m ∨ ch' m → ch'' m) → moved ch'' t'' e1 e3.
Proof.
  intros [] [] Hch. constructor; try congruence.
  eapply heap_frame_weaken; [exact Hch | by eapply heap_frame_trans].
Qed.

Lemma quiet_then ch t' e1 e2 e3 : quiet e1 e2 → moved ch t' e2 e3 → moved ch t' e1 e3.
Proof. intros H1 H2. eapply moved_trans; [exact H1 | exact H2 |]. by intros m [[] | ?]. Qed.

Lemma then_quiet ch t' e1 e2 e3 : moved ch t' e1 e2 → quiet e2 e3 → moved ch t' e1 e3.
Proof.
  intros H1 H2. rewrite (mv_table _ _ _ _ H1) in H2. eapply moved_trans; [exact H1 | exact H2 |].
  by intros m [? | []].
Qed.

Lemma quiet_trans e1 e2 e3 : quiet e1 e2 → quiet e2 e3 → quiet e1 e3.
Proof. intros H1 H2. by eapply then_quiet. Qed.

(** A store call, seen as a step. *)
Lemma moved_after ch t' e h' s' :
  store_ok h' s' → heap_frame ch (heap e) h' → rows h' s' = t' → moved ch t' e (set_heap_store (h', s') e).
Proof. intros. constructor; done. Qed.

(** Weakest preconditions for quiet fragments. *)
Abbreviation wpq m Q e := (wp m (λ a e', quiet e e' ∧ Q a e') (λ _ e', quiet e e') e).

Lemma wpq_bind {A B} (m : M S A) (k : A → M S B) Q Q' R e :
  wpq m Q e → table_ok e →
  (∀ a e', quiet e e' → Q a e' → wp (k a) Q' R e') → (∀ x e', quiet e e' → R x e') →
  wp (m ≫= k) Q' R e.
Proof.
  intros Hm Hok Hk HR. apply wp_bind. eapply wp_mono; [exact Hm | |]; simpl.
  - intros a e' [Hq Ha]. by apply Hk.
  - intros x e' Hq. by apply HR.
Qed.

Lemma quiet_emit fx e : table_ok e → wp (_emit fx) (λ _ e', quiet e e' ∧ _effects e' = _effects e ++ [fx]) (λ _ _, False) e.
Proof. intros. split; [| done]. constructor; try done. apply heap_frame_refl. Qed.

Lemma quiet_size w e :
  table_ok e → wp (_check_outbound_size w) (λ _ e', e' = e) (λ _ e', e' = e) e.
Proof.
  intros. unfold _check_outbound_size. apply wp_bind, wp_gets.
  destruct (n_maximum_packet_size _); [| done]. by destruct (_ >? _).
Qed.

Lemma quiet_deref l m e : oh (heap e) !! l = Some m → deref l e = (Ok m, e).
Proof. intros Hl. unfold deref, gets, mbind, M_bind. by rewrite Hl. Qed.

(** Assigning attributes the table does not show, or the phase it shows. *)
Lemma moved_assign l m f e :
  table_ok e → oh (heap e) !! l = Some m → o_mid (f m) = o_mid m → o_logical_size (f m) = o_logical_size m →
  sane (f m) →
  o_state (f m) = o_state m ∨ (∃ n, dget (o_mid m) (table e) = Some (o_state (f m), n)) ∨
    dget (o_mid m) (table e) = None →
  ∃ e', assign l f e = (Ok tt, e') ∧ oh (heap e') !! l = Some (f m) ∧
    moved (λ k, k = o_mid m ∧ o_state (f m) ≠ o_state m) (table e) e e' ∧ _effects e' = _effects e.
Proof.
  intros Hok Hl Hm Hn Hs Hst. unfold assign. unfold mbind, M_bind. rewrite (quiet_deref l m) by done.
  unfold modify. eexists. split; [reflexivity |].
  destruct (write_law (heap e) (store e) l m (f m) Hok Hl Hm Hn Hs Hst) as [Hok' Ht].
  simpl. split_and!; [| constructor; try done |].
  - rewrite list_lookup_insert_eq; [done | by eapply lookup_lt_Some].
  - apply (heap_frame_write _ _ _ m); try done. intros Hc. destruct (decide (o_state (f m) = o_state m)); [done |].
    exfalso. by apply Hc.
  - done.
Qed.

(** An assignment that keeps the phase. *)
Lemma quiet_assign l m f e (Q : unit → Engine S → Prop) R :
  table_ok e → oh (heap e) !! l = Some m → o_mid (f m) = o_mid m → o_logical_size (f m) = o_logical_size m →
  sane (f m) → o_state (f m) = o_state m →
  (∀ e', oh (heap e') !! l = Some (f m) → quiet e e' → _effects e' = _effects e → Q tt e') → wp (assign l f) Q R e.
Proof.
  intros Hok Hl Hm Hn Hs Hst HQ.
  destruct (moved_assign l m f e) as (e' & He & Hl' & Hmv & Hfx); try done; [by left |].
  unfold wp. rewrite He. apply HQ; try done. eapply moved_trans; [by apply quiet_refl | exact Hmv |].
  intros k [[] | [_ ?]]. done.
Qed.

Lemma table_ok_sane e l m : table_ok e → oh (heap e) !! l = Some m → sane m.
Proof. apply sane_law. Qed.

(** Committing an alias that converts is silent. *)
Lemma quiet_commit topic ps e :
  table_ok e → (∀ v, pget ps "topic_alias" = Some v → ∃ z, py_int v = Ok z) →
  wp (commit_topic_alias topic ps) (λ _ e', quiet e e' ∧ _effects e' = _effects e) (λ _ _, False) e.
Proof.
  intros Hok Hs. unfold commit_topic_alias. destruct topic as [| c topic]; [split; [by apply quiet_refl | done] |].
  destruct (pget ps "topic_alias") as [v |]; [| split; [by apply quiet_refl | done]].
  destruct (Hs v eq_refl) as [z Hz]. rewrite Hz. apply wp_bind. simpl. unfold wp, lift. apply wp_out.
  split; [| done]. constructor; try done. apply heap_frame_refl.
Qed.

Lemma wp_deref {A} l m (k : OutboundMessage → M S A) Q R e :
  oh (heap e) !! l = Some m → wp (k m) Q R e → wp (deref l ≫= k) Q R e.
Proof. intros Hl Hk. apply wp_bind. unfold wp. by rewrite (quiet_deref l m). Qed.

Lemma wp_size {A} w (k : unit → M S A) Q (R : exn → Engine S → Prop) e :
  table_ok e → wp (k tt) Q R e → (∀ x, R x e) → wp (_check_outbound_size w ≫= k) Q R e.
Proof. intros Hok Hk HR. eapply wp_then; [by apply quiet_size | | by intros x ? ->]. by intros [] ? ->. Qed.

(** The tail of a retransmitted PUBLISH: retain, send, commit the alias. *)
Lemma quiet_resend l m wire e :
  table_ok e → oh (heap e) !! l = Some m →
  wp (assign l (λ m, o_set_encoded_publish m (_retain_publish_item wire));; _send wire;;
      msg ← deref l; only_if (is_set (pget (o_properties msg) "topic_alias"))
        (commit_topic_alias (o_topic msg) (o_properties msg))) (λ _, quiet e) (λ _, quiet e) e.
Proof.
  intros Hok Hl. pose proof (table_ok_sane _ _ _ Hok Hl) as Hs. apply wp_bind, (quiet_assign l m); try done.
  intros e2 Hl2 Hq2 _. apply wp_bind. eapply wp_mono; [apply quiet_emit, Hq2 | | done]. intros [] e3 [Hq3 _].
  pose proof (mv_ok _ _ _ _ Hq3) as Hok3. assert (quiet e e3) by (eauto using quiet_trans).
  destruct (mv_heap _ _ _ _ Hq3 _ _ Hl2) as (m3 & Hl3 & _).
  apply (wp_deref l m3); [done |]. apply wp_only_if; [| done]. intros _.
  eapply wp_mono; [apply quiet_commit; [done | intros v; apply sane_alias; by eapply table_ok_sane] | | done].
  intros [] e4 [Hq4 _]. eauto using quiet_trans.
Qed.

(** Dropping the connection-scoped alias of a message. *)
Lemma quiet_strip l m (c : bool) e :
  table_ok e → oh (heap e) !! l = Some m →
  wp (if c then assign l (λ m, o_set_properties m (_properties_without_topic_alias (o_properties m)));;
                assign l (λ m, o_set_encoded_publish m None)
      else mret tt) (λ _ e', quiet e e' ∧ ∃ m', oh (heap e') !! l = Some m') (λ _ _, False) e.
Proof.
  intros Hok Hl. pose proof (table_ok_sane _ _ _ Hok Hl) as Hs.
  apply wp_if; intros _; [| split; eauto using quiet_refl].
  apply wp_bind, (quiet_assign l m); try done; [by apply sane_strip |]. intros e2 Hl2 Hq2 _.
  eapply quiet_assign; [apply Hq2 | done.. | by apply (sane_strip m) | done |].
  intros e3 Hl3 Hq3 _. split; eauto using quiet_trans.
Qed.

(** Retransmission changes no row, whether it sends or raises. *)
Lemma quiet_retransmit l m e :
  table_ok e → oh (heap e) !! l = Some m → wp (_retransmit config l) (λ _, quiet e) (λ _, quiet e) e.
Proof.
  intros Hok Hl. pose proof (table_ok_sane _ _ _ Hok Hl) as Hsane. pose proof (quiet_refl e Hok) as Hrefl.
  unfold _retransmit. apply (wp_deref l m); [done |]. destruct (o_state m); try by apply wp_raise.
  1, 2: apply wp_bind, (quiet_assign l m); try done; intros e1 Hl1 Hq1 _;
    (eapply wp_then; [eapply quiet_strip; [apply Hq1 | done] | | done]); intros [] e2 (Hq2 & m2 & Hl2);
    pose proof (quiet_trans _ _ _ Hq1 Hq2) as Hq; apply (wp_deref l m2); [done |];
    apply (wp_then _ _ (λ _ e3, e3 = e2) (λ _ e3, e3 = e2));
      [destruct (o_encoded_publish m2); by apply wp_lift | | by intros x ? ->];
    intros wire ? ->; apply wp_size; [apply Hq | | done];
    (eapply wp_mono; [eapply quiet_resend; [apply Hq | done] | |]); simpl; eauto using quiet_trans.
  apply (wp_then _ _ (λ _, quiet e) (λ _, quiet e)); [| | done].
  { destruct (o_encoded_pubrel m); [by apply wp_ret |]. apply wp_lift_bind; [| done].
    intros w _. apply wp_bind, (quiet_assign l m); try done. intros e1 _ Hq1 _. by apply wp_size; [apply Hq1 | ..]. }
  intros w e1 Hq1. eapply wp_mono; [apply quiet_emit, Hq1 | | done]. intros [] e2 [Hq2 _]. eauto using quiet_trans.
Qed.

(** The object of a queue entry: the queued one, or the store's. *)
Lemma quiet_materialize x r e :
  table_ok e → (∀ l, x = QObj l → is_Some (oh (heap e) !! l)) →
  dget (s_mid (q_summary (heap e) x)) (table e) = Some r →
  s_row (q_summary (heap e) x) = (s_mid (q_summary (heap e) x), r) →
  wp (materialize x) (λ l e', quiet e e' ∧ ∃ m, oh (heap e') !! l = Some m ∧
    o_mid m = s_mid (q_summary (heap e) x) ∧ o_row m = r) (λ _, quiet e) e.
Proof.
  intros Hok Hobj Hg Hr. pose proof (quiet_refl e Hok) as Hrefl. destruct x as [l | s]; simpl in *.
  - destruct (Hobj l eq_refl) as [m Hl]. rewrite Hl in *. apply wp_ret. split; [done |]. exists m.
    unfold s_row in Hr. simpl in *. by simplify_eq.
  - apply wp_bind, wp_get; [done | | |].
    + intros l m h' s' Hs Hf Ht Hl Hm Hg'. apply wp_ret. split; [by apply moved_after |].
      exists m. split_and!; try done. congruence.
    + intros h' s' _ _ _ Hn. congruence.
    + intros x h' s' Hs Hf Ht _. by apply moved_after.
Qed.

Definition target (m : OutboundMessage) : OutboundQoSState :=
  match o_qos m with AT_LEAST_ONCE => WAIT_PUBACK | _ => WAIT_PUBREC end.

(** After the row is written, sending and committing cannot fail. *)
Lemma quiet_sent l m wire topic e :
  table_ok e → oh (heap e) !! l = Some m →
  wp (_send wire;; msg ← deref l; only_if (is_set (pget (o_properties msg) "topic_alias"))
        (commit_topic_alias topic (o_properties msg)))
    (λ _ e', quiet e e' ∧ _effects e' = _effects e ++ [Effect.SEND wire]) (λ _ _, False) e.
Proof.
  intros Hok Hl. apply wp_bind. eapply wp_mono; [by apply quiet_emit | | done]. intros [] e1 [Hq1 Hfx1].
  pose proof (mv_ok _ _ _ _ Hq1) as Hok1. destruct (mv_heap _ _ _ _ Hq1 _ _ Hl) as (m1 & Hl1 & _).
  apply (wp_deref l m1); [done |]. apply wp_only_if; [| done]. intros _.
  eapply wp_mono; [apply quiet_commit; [done | intros v; apply sane_alias; by eapply table_ok_sane] | | done].
  intros [] e2 [Hq2 Hfx2]. split; [eauto using quiet_trans | congruence].
Qed.

(** Encoding and checking the frame to launch. *)
Lemma launch_wire {A} m topic tb pb (k : WriteItem → M S A) Q (R : exn → Engine S → Prop) e :
  table_ok e → (∀ w, wp (k w) Q R e) → (∀ x, R x e) →
  wp (wire ← match o_encoded_publish m with
             | Some w => mret w
             | None => lift (encode_publish config topic m (o_dup m) tb pb)
             end;
      _check_outbound_size wire;; k wire) Q R e.
Proof.
  intros Hok Hk HR. apply (wp_then _ _ (λ _ e', e' = e) (λ _ e', e' = e)); [| | by intros ?? ->].
  { destruct (o_encoded_publish m); [done | by apply wp_lift]. }
  intros w ? ->. by apply wp_size.
Qed.

(** Launching a queued row moves it to its waiting phase; a failure leaves the
    table as it was. *)
Lemma launch_persisted l m n pb tb wt e :
  table_ok e → oh (heap e) !! l = Some m → dget (o_mid m) (table e) = Some (QUEUED, n) →
  wp (_launch config l true pb tb wt)
    (λ _, moved (eq (o_mid m)) (dset (o_mid m) (target m, n) (table e)) e) (λ _, quiet e) e.
Proof.
  intros Hok Hl Hg. unfold _launch. apply (wp_deref l m); [done |]. cbv zeta.
  apply launch_wire; [done | | intros; by apply quiet_refl]. intros wire. fold (target m).
  apply (wp_then _ _ (λ _ e', moved (eq (o_mid m)) (dset (o_mid m) (target m, n) (table e)) e e' ∧
    ∃ m', oh (heap e') !! l = Some m') (λ _, quiet e)); [| | done].
  - apply wp_bind, wp_transition; [done | | |].
    + intros x h' s' Hs Hf Hg' Ht. assert (om_logical_size x = n) as Hx by congruence. rewrite Hx in Ht.
      set (e1 := set_heap_store (h', s') e).
      assert (moved (eq (o_mid m)) (dset (o_mid m) (target m, n) (table e)) e e1) as Hm1 by (by apply moved_after).
      pose proof (mv_ok _ _ _ _ Hm1) as Hok1. destruct (Hf l m Hl) as (m1 & Hl1 & Hid & _ & _).
      pose proof (table_ok_sane _ _ _ Hok1 Hl1) as Hsane1.
      destruct (moved_assign l m1 (λ m', o_set_state m' (target m)) e1) as (e2 & He2 & Hl2 & Hm2 & _); try done.
      { right. left. exists n. rewrite Hid, (mv_table _ _ _ _ Hm1). apply dget_dset_eq. }
      apply wp_bind. unfold wp at 1. rewrite He2.
      eapply quiet_assign; [apply Hm2 | exact Hl2 | done | done | done | done |]. intros e3 Hl3 Hq3 _.
      split; [| by eauto]. rewrite (mv_table _ _ _ _ Hm1) in Hm2.
      eapply then_quiet; [| exact Hq3]. eapply moved_trans; [exact Hm1 | exact Hm2 |].
      intros k [-> | [-> _]]; congruence.
    + intros h' s' _ _ Hn. by destruct (Hn n).
    + intros x h' s' Hs Hf Ht _. by apply moved_after.
  - intros [] e1 (Hm1 & m1 & Hl1). eapply wp_mono; [eapply quiet_sent; [apply Hm1 | done] | | done].
    intros [] e2 [Hq2 _]. by eapply then_quiet.
Qed.

(** Launching a message that has no row writes one and sends one frame; a
    failure sends nothing. *)
Lemma launch_fresh l m pb tb wt e :
  table_ok e → oh (heap e) !! l = Some m → dget (o_mid m) (table e) = None →
  wp (_launch config l false pb tb wt)
    (λ _ e', (0 < o_logical_size m ∧ ∃ w, _effects e' = _effects e ++ [Effect.SEND w]) ∧
       moved (eq (o_mid m)) (dset (o_mid m) (target m, o_logical_size m) (table e)) e e')
    (λ _ e', _effects e' = _effects e ∧ moved (eq (o_mid m)) (table e) e e') e.
Proof.
  intros Hok Hl Hg. pose proof (table_ok_sane _ _ _ Hok Hl) as Hsane.
  assert (Hq : moved (eq (o_mid m)) (table e) e e).
  { eapply moved_trans; [by apply quiet_refl | by apply quiet_refl |]. by intros k [[] | []]. }
  unfold _launch. apply (wp_deref l m); [done |]. cbv zeta.
  apply launch_wire; [done | | done]. intros wire. fold (target m).
  apply (wp_then _ _ (λ _ e', (0 < o_logical_size m ∧ _effects e' = _effects e) ∧
    moved (eq (o_mid m)) (dset (o_mid m) (target m, o_logical_size m) (table e)) e e' ∧
    ∃ m', oh (heap e') !! l = Some m') (λ _ e', _effects e' = _effects e ∧ moved (eq (o_mid m)) (table e) e e'));
    [| | done].
  - destruct (moved_assign l m (λ m', o_set_state m' (target m)) e) as (e1 & He1 & Hl1 & Hm1 & Hfx1); try done.
    { by right; right. }
    apply wp_bind. unfold wp at 1. rewrite He1.
    eapply wp_bind, quiet_assign; [apply Hm1 | exact Hl1 | done | done | done | done |]. intros e2 Hl2 Hq2 Hfx2.
    assert (moved (eq (o_mid m)) (table e) e e2) as Hm2.
    { eapply then_quiet; [| exact Hq2]. eapply moved_trans; [by apply quiet_refl | exact Hm1 |].
      intros k [[] | [-> _]]. done. }
    eapply wp_put; [apply Hm2 | exact Hl2 | |].
    + intros h' s' Hs Hf Hn Ht. simpl in *. split_and!; [done | congruence | |].
      * eapply moved_trans; [exact Hm2 | apply moved_after; [exact Hs | exact Hf | rewrite Ht] |].
        -- by rewrite (mv_table _ _ _ _ Hm2).
        -- by intros k [? | []].
      * destruct (Hf _ _ Hl2) as (m3 & ? & _). eauto.
    + intros x h' s' Hs Hf _ Ht. split; [simpl; congruence |]. eapply then_quiet; [exact Hm2 |]. by apply moved_after.
  - intros [] e1 ([Hn Hfx1] & Hm1 & m1 & Hl1). eapply wp_mono; [eapply quiet_sent; [apply Hm1 | done] | | done].
    intros [] e2 [Hq2 Hfx2]. split; [split; [done |]; exists wire; congruence |]. by eapply then_quiet.
Qed.

(** ** The invariant *)

(** The row a queue entry shows. *)
Definition q_row (h : Heap) (x : qitem) : Z * row := s_row (q_summary h x).
Definition q_mid (h : Heap) (x : qitem) : Z := s_mid (q_summary h x).
Definition qrows e : rowtable := q_row (heap e) <$> _queued (outbound e).
Definition objs_ok (h : Heap) (qs : list qitem) : Prop := ∀ l, QObj l ∈ qs → is_Some (oh h !! l).

Record Inv e : Prop := {
  i_ok : table_ok e;
  i_objs : objs_ok (heap e) (_queued (outbound e));
  i_acct : Acct (table e) (qrows e) (packet_ids (outbound e)) (_parked (outbound e)) (_sealed (outbound e))
    (_pending_messages (outbound e)) (_pending_bytes (outbound e)) (dkeys (_pending_sub_requests e));
  i_window : Window (table e) (qrows e) (_sealed (outbound e)) (flow (outbound e));
  i_cover : reliable → Cover (table e) (qrows e) (_sealed (outbound e)) }.

(** The invariant for a given table and queue. *)
Lemma inv_intro t q e :
  table_ok e → objs_ok (heap e) (_queued (outbound e)) → table e = t → qrows e = q →
  Acct t q (packet_ids (outbound e)) (_parked (outbound e)) (_sealed (outbound e))
    (_pending_messages (outbound e)) (_pending_bytes (outbound e)) (dkeys (_pending_sub_requests e)) →
  Window t q (_sealed (outbound e)) (flow (outbound e)) → (reliable → Cover t q (_sealed (outbound e))) → Inv e.
Proof. intros ?? <- <- ???. done. Qed.

Lemma dkeys_q_row h qs : dkeys (q_row h <$> qs) = q_mid h <$> qs.
Proof. unfold dkeys. rewrite <- list_fmap_compose. done. Qed.

(** Entries whose identifiers are outside [ch] show the same rows. *)
Lemma q_row_frame (ch : Z → Prop) h h' qs :
  heap_frame ch h h' → objs_ok h qs → (∀ x, x ∈ qs → ¬ ch (q_mid h x)) →
  q_row h' <$> qs = q_row h <$> qs ∧ objs_ok h' qs.
Proof.
  intros Hf Ho Hc. split.
  - apply list_fmap_ext. intros i x Hx. apply list_elem_of_lookup_2 in Hx. specialize (Hc x Hx).
    unfold q_row, q_mid in *. destruct x as [l | s]; [| done]. simpl in *. destruct (Ho l Hx) as [m Hl].
    destruct (Hf l m Hl) as (m' & Hl' & ? & ? & Hst). rewrite Hl, Hl' in *. unfold s_row. simpl in *.
    rewrite Hst by done. congruence.
  - intros l Hin. destruct (Ho l Hin) as [m Hl]. destruct (Hf l m Hl) as (m' & -> & _). eauto.
Qed.

Lemma q_row_quiet h h' qs :
  heap_frame untouched h h' → objs_ok h qs → q_row h' <$> qs = q_row h <$> qs ∧ objs_ok h' qs.
Proof. intros Hf Ho. apply (q_row_frame untouched); [done | done |]. by intros x _ []. Qed.

Lemma books_inv o o' :
  books o' = books o →
  packet_ids o' = packet_ids o ∧ flow o' = flow o ∧ _queued o' = _queued o ∧ _parked o' = _parked o ∧
  _sealed o' = _sealed o ∧ _pending_messages o' = _pending_messages o ∧ _pending_bytes o' = _pending_bytes o.
Proof. unfold books. intros. by simplify_eq. Qed.

Lemma inv_quiet e e' : Inv e → quiet e e' → Inv e'.
Proof.
  intros [Hok Ho Ha Hw Hc] [Hok' Ht Hf Hb Hs _ _]. apply books_inv in Hb as (E1 & E2 & E3 & E4 & E5 & E6 & E7).
  destruct (q_row_quiet _ _ _ Hf Ho) as [Hq Ho'].
  assert (qrows e' = qrows e) as Eq by (unfold qrows; by rewrite E3).
  constructor; rewrite ?Eq, ?Ht, ?E1, ?E2, ?E3, ?E4, ?E5, ?E6, ?E7, ?Hs; done.
Qed.

(** Queue heads and tails as rows. *)
Lemma ddel_head h x qs : ddel (q_mid h x) (q_row h <$> x :: qs) = q_row h <$> qs.
Proof. simpl. by rewrite decide_True. Qed.

Lemma q_tail_ne h x qs y : NoDup (q_mid h <$> x :: qs) → y ∈ qs → q_mid h x ≠ q_mid h y.
Proof.
  rewrite fmap_cons, NoDup_cons. intros [Hn _] Hy E. apply Hn. rewrite E. apply list_elem_of_fmap. eauto.
Qed.

(** ** Elementary session calls *)

Lemma set_outbound_id e : set_outbound (outbound e) e = e.
Proof. by destruct e. Qed.
Lemma set_flow_id o : set_flow (flow o) o = o.
Proof. by destruct o. Qed.

Definition acquired (f : FlowControl.t) (mid : Z) : FlowControl.t :=
  FlowControl.mkFlow (FlowControl._limit f) (FlowControl._holders f ∪ {[mid]}).

Lemma release_acquired f mid : mid ∉ FlowControl._holders f → (FlowControl.release (acquired f mid) mid).2 = f.
Proof.
  intros Hn. unfold FlowControl.release, FlowControl.holds, acquired. simpl.
  rewrite bool_decide_true by set_solver. destruct f. simpl in *. f_equal. set_solver.
Qed.

Lemma wp_acquire mid (Q : bool → Engine S → Prop) R e :
  mid ∉ FlowControl._holders (flow (outbound e)) →
  (0 < FlowControl.available (flow (outbound e)) →
     Q true (set_outbound (set_flow (acquired (flow (outbound e)) mid) (outbound e)) e)) →
  (FlowControl.available (flow (outbound e)) ≤ 0 → Q false e) →
  wp (flow_acquire mid) Q R e.
Proof.
  intros Hn HT HF. unfold wp, flow_acquire. rewrite FlowControl.try_acquire_spec by done.
  case_decide; [by apply HT |]. rewrite set_flow_id, set_outbound_id. apply HF. lia.
Qed.

(** Releasing a reservation that is charged. *)
Definition released n o : OutboundSession :=
  set_pending (_pending_messages o - 1) (_pending_bytes o - n)
    (set_high_water (Z.max (_pending_high_water_messages o) (_pending_messages o))
       (Z.max (_pending_high_water_bytes o) (_pending_bytes o)) o).

Lemma wp_release_reservation n (Q : unit → Engine S → Prop) R e :
  0 < _pending_messages (outbound e) → 0 ≤ n ≤ _pending_bytes (outbound e) →
  Q tt (set_outbound (released n (outbound e)) e) → wp (_release_reservation n) Q R e.
Proof.
  intros Hm Hn HQ. unfold _release_reservation. apply wp_bind, wp_gets.
  rewrite (proj2 (Z.leb_gt _ _)) by done. rewrite Z.gtb_ltb, !(proj2 (Z.ltb_ge _ _)) by lia. exact HQ.
Qed.

(** Discarding a charged row: gone with its counts, or the store failed and
    nothing moved. *)
Lemma wp_discard mid st n s (Q : unit → Engine S → Prop) (R : exn → Engine S → Prop) e q ids parked :
  table_ok e →
  Acct (table e) q ids parked (_sealed (outbound e))
    (_pending_messages (outbound e)) (_pending_bytes (outbound e)) (dkeys (_pending_sub_requests e)) →
  dget mid (table e) = Some (st, n) → mid ∉ dkeys (_sealed (outbound e)) → s_logical_size s = n →
  (∀ h' s', store_ok h' s' → heap_frame untouched (heap e) h' → rows h' s' = ddel mid (table e) →
     Q tt (set_outbound (released n (outbound e)) (set_heap_store (h', s') e))) →
  (∀ x e', quiet e e' → ¬ reliable → R x e') →
  wp (discard_record mid s) Q R e.
Proof.
  intros Hok Ha Hg Hns Hn HQ HR. unfold discard_record.
  destruct (acct_charged _ _ _ _ _ _ _ _ Ha _ _ _ Hg Hns) as [Hpm Hpb].
  pose proof (a_sizes _ _ _ _ _ _ _ _ Ha _ _ _ Hg).
  apply wp_bind, wp_delete; [done | | by intros; apply HR; [by apply moved_after |]].
  intros h' s' Hs Hf Ht. apply wp_bind. unfold stored_logical_size. rewrite (proj2 (Z.leb_gt _ _)) by lia.
  unfold wp at 1, lift. rewrite Hn. apply wp_release_reservation; [done | done |]. by apply HQ.
Qed.

(** ** Draining the queue *)

(** What the head of the queue tells. *)
Lemma head_entry x qs e :
  Inv e → _queued (outbound e) = x :: qs →
  let mid := q_mid (heap e) x in let r := (q_row (heap e) x).2 in
  mid ∉ dkeys (_sealed (outbound e)) ∧ dget mid (table e) = Some r ∧ mid ∉ FlowControl._holders (flow (outbound e)) ∧
  (mid ∈ _parked (outbound e) ∧ r.1 ≠ QUEUED ∨
   mid ∉ _parked (outbound e) ∧ r.1 = QUEUED) ∧
  objs_ok (heap e) [x] ∧ objs_ok (heap e) qs ∧ NoDup (q_mid (heap e) <$> x :: qs).
Proof.
  intros [Hok Ho Ha Hw _] Hq. simpl.
  assert (dget (q_mid (heap e) x) (qrows e) = Some (q_row (heap e) x).2) as Hg.
  { unfold qrows. rewrite Hq. simpl. unfold q_mid, q_row. by rewrite decide_True. }
  destruct (a_entries _ _ _ _ _ _ _ _ Ha _ _ Hg) as (Hs & Ht & Hp). split_and!; try done.
  - intros Hh. destruct (w_holders _ _ _ _ Hw _ Hh) as [Hn _]. apply Hn. by eapply dget_Some_key.
  - intros l Hl%list_elem_of_singleton. apply Ho. rewrite Hq, Hl. left.
  - intros l Hl. apply Ho. rewrite Hq. by right.
  - pose proof (a_queue _ _ _ _ _ _ _ _ Ha) as Hn. unfold qrows in Hn. by rewrite dkeys_q_row, Hq in Hn.
Qed.

Lemma quiet_undup l m (c : bool) e :
  table_ok e → oh (heap e) !! l = Some m →
  wp (if c then assign l (λ m, o_set_dup m false);; assign l (λ m, o_set_encoded_publish m None) else mret tt)
    (λ _ e', quiet e e' ∧ ∃ m', oh (heap e') !! l = Some m' ∧ o_mid m' = o_mid m) (λ _ _, False) e.
Proof.
  intros Hok Hl. pose proof (table_ok_sane _ _ _ Hok Hl) as Hs.
  apply wp_if; intros _; [| split; eauto using quiet_refl].
  apply wp_bind, (quiet_assign l m); try done. intros e2 Hl2 Hq2 _.
  eapply quiet_assign; [apply Hq2 | done.. |]. intros e3 Hl3 Hq3 _. split; eauto using quiet_trans.
Qed.

(** The body of a round sends and moves the row on, or fails without a trace in
    the table. *)
Lemma drain_body_spec x r e :
  table_ok e → objs_ok (heap e) [x] → dget (q_mid (heap e) x) (table e) = Some r →
  q_row (heap e) x = (q_mid (heap e) x, r) →
  wp (drain_body config x) (λ failure e',
    match failure with
    | Some _ => quiet e e'
    | None => ∃ st, st ≠ QUEUED ∧ moved (eq (q_mid (heap e) x)) (dset (q_mid (heap e) x) (st, r.2) (table e)) e e'
    end) (λ _ _, False) e.
Proof.
  intros Hok Ho Hg Hr. unfold drain_body. apply wp_try.
  eapply wp_then; [apply (quiet_materialize x r); [done | | done | done] | | done].
  { intros l ->. apply Ho. left. }
  intros l e1 (Hq1 & m & Hl & Hm & Hrow). apply (wp_deref l m); [done |].
  apply (wp_then _ _ (λ _ e', ∃ st, st ≠ QUEUED ∧
    moved (eq (q_mid (heap e) x)) (dset (q_mid (heap e) x) (st, r.2) (table e)) e e') (λ _, quiet e)).
  - pose proof (mv_ok _ _ _ _ Hq1) as Hok1. apply wp_if; intros Hst; bools.
    + eapply wp_then; [by eapply quiet_undup | | done]. intros [] e2 (Hq2 & m2 & Hl2 & Hm2).
      pose proof (quiet_trans _ _ _ Hq1 Hq2) as Hq12. pose proof (mv_table _ _ _ _ Hq12) as Ht2.
      eapply wp_mono; [apply (launch_persisted l m2 r.2); [apply Hq2 | done |] | |]; simpl.
      * rewrite Ht2, Hm2, Hm. fold (q_mid (heap e) x). rewrite Hg, <- Hrow. unfold o_row. simpl. by rewrite Hst.
      * intros [] e3 Hm3. exists (target m2). split; [unfold target; by destruct (o_qos m2) |].
        rewrite Ht2, Hm2, Hm in Hm3. by eapply quiet_then.
      * intros y e3 Hq3. eauto using quiet_trans.
    + eapply wp_mono; [by apply (quiet_retransmit l m) | |]; simpl; [| eauto using quiet_trans].
      intros [] e3 Hq3. exists r.1. split; [by rewrite <- Hrow |].
      assert (dset (q_mid (heap e) x) (r.1, r.2) (table e) = table e) as ->.
      { apply dset_same. by destruct r. }
      pose proof (quiet_trans _ _ _ Hq1 Hq3) as Hq13.
      eapply moved_trans; [by apply quiet_refl | exact Hq13 |]. by intros k [[] | []].
  - intros [] e2 Hm2. apply wp_ret. done.
  - intros y e2 Hq2. apply wp_ret. done.
Qed.

Lemma drain_sent x qs st r e e' :
  Inv e → _queued (outbound e) = x :: qs → let mid := q_mid (heap e) x in
  dget mid (table e) = Some r → st ≠ QUEUED → 0 < FlowControl.available (flow (outbound e)) →
  moved (eq mid) (dset mid (st, r.2) (table e))
    (set_outbound (set_flow (acquired (flow (outbound e)) mid) (outbound e)) e) e' →
  let o' := outbound e' in
  Inv (set_outbound (set_parked (_parked o' ∖ {[mid]}) (set_queued (tail (_queued o')) o')) e').
Proof.
  intros HI Hq mid Hg Hst Hav Hm o'. destruct (head_entry x qs e HI Hq) as (Hns & _ & Hnh & _ & _ & Hoq & Hnd).
  fold mid in Hns, Hnh. destruct HI as [Hok Ho Ha Hw Hc]. destruct Hm as [Hok' Ht Hf Hb Hsub _ _].
  apply books_inv in Hb as (E1 & E2 & E3 & E4 & E5 & E6 & E7). simpl in *. fold o' in E1, E2, E3, E4, E5, E6, E7.
  destruct (q_row_frame _ _ _ qs Hf Hoq) as [Hqr Hoq'].
  { intros y Hy E. by apply (q_tail_ne _ _ _ _ Hnd Hy). }
  assert (q_row (heap e) <$> qs = ddel mid (qrows e)) as Eq.
  { unfold qrows. rewrite Hq. symmetry. apply ddel_head. }
  assert (mid ∉ dkeys (ddel mid (qrows e))) as Hnq by (rewrite dkeys_ddel by apply Ha; tauto).
  assert (Hgr : dget mid (table e) = Some (r.1, r.2)) by (by destruct r).
  apply (inv_intro (dset mid (st, r.2) (table e)) (ddel mid (qrows e))); simpl;
    rewrite ?E1, ?E2, ?E3, ?E4, ?E5, ?E6, ?E7, ?Hsub, ?Hq; try done.
  - unfold qrows at 1. simpl. by rewrite Hqr.
  - eapply acct_phase; [by apply acct_unqueue | exact Hgr | done].
  - apply (window_acquire _ _ _ _ Hw); [done | done |]. intros k [-> | Hk].
    + split_and!; try done. exists st, r.2. by rewrite dget_dset_eq.
    + destruct (w_holders _ _ _ _ Hw k Hk) as (Hkq & ? & st1 & n1 & ? & ?). rewrite dkeys_ddel by apply Ha.
      split_and!; [tauto | done |]. exists st1, n1. rewrite dget_dset_ne; [done |]. by intros ->.
  - intros Hrel. apply cover_unqueue; [| apply Ha |].
    + eapply cover_phase; [by apply Hc | exact Hgr | done | tauto].
    + intros n. rewrite dget_dset_eq. congruence.
Qed.

(** The head of the queue is dropped with its row. *)
Lemma drain_dropped x qs r e h' s' o' :
  Inv e → _queued (outbound e) = x :: qs → let mid := q_mid (heap e) x in
  dget mid (table e) = Some r → store_ok h' s' → heap_frame untouched (heap e) h' →
  rows h' s' = ddel mid (table e) →
  packet_ids o' = release (packet_ids (outbound e)) mid → flow o' = flow (outbound e) → _queued o' = qs →
  _parked o' = _parked (outbound e) ∖ {[mid]} → _sealed o' = _sealed (outbound e) →
  _pending_messages o' = _pending_messages (outbound e) - 1 →
  _pending_bytes o' = _pending_bytes (outbound e) - r.2 →
  Inv (set_outbound o' (set_heap_store (h', s') e)).
Proof.
  intros HI Hq mid Hg Hs Hf Ht E1 E2 E3 E4 E5 E6 E7.
  destruct (head_entry x qs e HI Hq) as (Hns & _ & Hnh & _ & _ & Hoq & Hnd).
  fold mid in Hns, Hnh. destruct HI as [Hok Ho Ha Hw Hc].
  destruct (q_row_quiet _ _ _ Hf Hoq) as [Hqr Hoq'].
  assert (q_row (heap e) <$> qs = ddel mid (qrows e)) as Eq.
  { unfold qrows. rewrite Hq. symmetry. apply ddel_head. }
  assert (mid ∉ dkeys (ddel mid (qrows e))) as Hnq by (rewrite dkeys_ddel by apply Ha; tauto).
  assert (Hgr : dget mid (table e) = Some (r.1, r.2)) by (by destruct r).
  apply (inv_intro (ddel mid (table e)) (ddel mid (qrows e))); simpl;
    rewrite ?E1, ?E2, ?E3, ?E4, ?E5, ?E6, ?E7; try done.
  - unfold qrows at 1. simpl. by rewrite E3, Hqr.
  - eapply acct_settle; [by apply acct_unqueue | exact Hgr | done | done].
  - apply (window_keep _ _ _ _ Hw). intros k Hk.
    destruct (w_holders _ _ _ _ Hw k Hk) as (Hkq & ? & st1 & n1 & ? & ?). rewrite dkeys_ddel by apply Ha.
    split_and!; [tauto | done |]. exists st1, n1. rewrite dget_ddel by apply Ha. rewrite decide_False; [done |].
    by intros ->.
  - intros Hrel. apply cover_unqueue; [by apply cover_ddel; [apply Hc | apply Ha | ] | apply Ha |].
    intros n. rewrite dget_ddel by apply Ha. by rewrite decide_True.
Qed.

Lemma wp_summary {A} x (k : OutboundMessageSummary → M S A) Q R e :
  wp (k (q_summary (heap e) x)) Q R e → wp (summary x ≫= k) Q R e.
Proof. done. Qed.

(** The calls that drop the head of the queue after its publication failed. *)
Lemma wp_drop_head {A} x qs reason (a : A) (park : bool) e :
  Inv e → _queued (outbound e) = x :: qs → (park = false → _parked (outbound e) = ∅) →
  let mid := q_mid (heap e) x in
  wp (s ← summary x; discard_record mid s;; popleft;;
      (if park then out_modify (λ o, set_parked (_parked o ∖ {[mid]}) o) else mret tt);;
      ids_release mid;; _fail mid reason;; mret a)
    (λ b e', b = a ∧ Inv e' ∧ _queued (outbound e') = qs ∧ state e' = state e ∧ negotiated e' = negotiated e ∧
       _parked (outbound e') = _parked (outbound e) ∖ {[mid]}) (λ _, Inv) e.
Proof.
  intros HI Hq Hpark mid. destruct (head_entry x qs e HI Hq) as (Hns & Hg & _). fold mid in Hns, Hg.
  apply wp_summary, wp_bind. eapply wp_discard; [apply HI | apply HI | |exact Hns | reflexivity | |].
  - rewrite Hg. reflexivity.
  - intros h' s' Hs Hf Ht. set (r := (q_row (heap e) x).2) in *.
    assert (Hpk : park = false → _parked (outbound e) = _parked (outbound e) ∖ {[mid]})
      by (intros Hp; rewrite (Hpark Hp); set_solver).
    set (o := outbound e) in *.
    set (o2 := mkOutbound (release (packet_ids o) mid) (flow o) qs (_parked o ∖ {[mid]}) (_sealed o)
      (_pending_messages o - 1) (_pending_bytes o - r.2) 0 0 ∅).
    assert (Inv (set_outbound o2 (set_heap_store (h', s') e))) as HI2
      by (apply (drain_dropped x qs r e); try done).
    destruct park; unfold wp; simpl; fold o; split_and!; try done; try (by rewrite Hq); try (by apply Hpk).
    all: apply (inv_quiet _ _ HI2); constructor; try done; [apply heap_frame_refl |].
    all: unfold books; simpl; rewrite Hq; try rewrite <- Hpk by done; done.
  - intros y e' Hq' _. by eapply inv_quiet.
Qed.

Lemma drain_round_inv x qs e :
  Inv e → _queued (outbound e) = x :: qs →
  wp (drain_round config x)
    (λ more e', Inv e' ∧ if more then _queued (outbound e') = qs
                         else FlowControl.available (flow (outbound e')) ≤ 0) (λ _, Inv) e.
Proof.
  intros HI Hq. unfold drain_round. apply wp_summary. cbv zeta. fold (q_mid (heap e) x). set (mid := q_mid (heap e) x).
  destruct (head_entry x qs e HI Hq) as (Hns & Hg & Hnh & _ & Hox & _). fold mid in Hns, Hg, Hnh.
  apply wp_bind, wp_acquire; [done | | intros Hav; by apply wp_ret].
  intros Hav. set (e1 := set_outbound _ e). cbn [negb].
  eapply wp_then; [apply (drain_body_spec x (q_row (heap e) x).2 e1); [apply HI | done | done | done] | | done].
  intros [y |] e2 Hm.
  - apply wp_bind, wp_out.
    assert (Inv (set_outbound (set_flow (FlowControl.release (flow (outbound e2)) mid).2 (outbound e2)) e2)) as HI3.
    { apply (inv_quiet _ _ HI). destruct Hm as [Hok2 Ht2 Hf2 Hb2 ???]. constructor; try done.
      apply books_inv in Hb2 as (E1 & E2 & E3 & E4 & E5 & E6 & E7). unfold books. simpl in *.
      rewrite E1, E2, E3, E4, E5, E6, E7. by rewrite release_acquired. }
    pose proof (mv_books _ _ _ _ Hm) as (_ & _ & E3 & _)%books_inv. simpl in E3.
    set (e3 := set_outbound _ e2) in *. assert (q_mid (heap e3) x = mid) as Emid.
    { destruct (q_row_quiet _ (heap e2) [x] (mv_heap _ _ _ _ Hm) Hox) as [Hrow _]. injection Hrow as Hrow. by unfold q_mid. }
    eapply wp_mono; [rewrite <- Emid; apply (wp_drop_head x qs y true true e3); try done | | done].
    { simpl. by rewrite E3. }
    intros b e4 (-> & ? & ? & _). done.
  - destruct Hm as (st & Hst & Hm). pose proof (drain_sent x qs st _ e e2 HI Hq Hg Hst Hav Hm) as HI2.
    unfold wp. simpl. split; [done |]. pose proof (mv_books _ _ _ _ Hm) as (_ & _ & E3 & _)%books_inv.
    simpl in E3. by rewrite E3, Hq.
Qed.

(** Draining keeps the books, and stops only when the queue is empty or no slot
    is left: the loop's fuel is enough. *)
Lemma drain_loop_inv fuel : ∀ e, Inv e → (length (_queued (outbound e)) ≤ fuel)%nat →
  wp (drain_loop config fuel)
    (λ _ e', Inv e' ∧ (_queued (outbound e') = [] ∨ FlowControl.available (flow (outbound e')) ≤ 0)) (λ _, Inv) e.
Proof.
  induction fuel as [| fuel IH]; intros e HI Hl; cbn [drain_loop].
  { apply wp_ret. split; [done |]. left. destruct (_queued (outbound e)); [done | simpl in Hl; lia]. }
  apply wp_bind, wp_gets. destruct (_queued (outbound e)) as [| x qs] eqn:Hq; [apply wp_ret; auto |].
  eapply wp_then; [by apply (drain_round_inv x qs) | | done].
  intros [] e1 [HI1 H1]; [apply IH; [done | simpl in Hl; rewrite H1; lia] | apply wp_ret; auto].
Qed.

Lemma drain_inv e : Inv e →
  wp (drain config) (λ _ e', Inv e' ∧ (_queued (outbound e') = [] ∨ FlowControl.available (flow (outbound e')) ≤ 0))
    (λ _, Inv) e.
Proof. intros HI. unfold drain. apply wp_bind, wp_gets. by apply drain_loop_inv. Qed.

(** ** Settling an exchange *)

Lemma del_entry_spec h mid qs :
  mid ∈ dkeys (q_row h <$> qs) →
  ∃ qs', del_entry h mid qs = Some qs' ∧ q_row h <$> qs' = ddel mid (q_row h <$> qs) ∧ ∀ x, x ∈ qs' → x ∈ qs.
Proof.
  induction qs as [| x qs IH]; simpl; [by intros ?%not_elem_of_nil |].
  unfold dkeys in *. simpl. rewrite elem_of_cons. intros Hin. change (q_row h x).1 with (q_mid h x) in *.
  fold (q_mid h x). destruct (q_mid h x =? mid) eqn:E; bools.
  - exists qs. subst mid. simpl. rewrite decide_True by done. split_and!; try done. intros y Hy. by right.
  - destruct IH as (qs' & -> & Hr & Hsub); [by destruct Hin as [-> | Hin] |]. simpl. exists (x :: qs').
    rewrite decide_False by (intros ->; done). split_and!; [done | by rewrite fmap_cons, Hr |].
    intros y [-> | Hy]%elem_of_cons; [left | right; auto].
Qed.

(** Engine states that differ in the books only. *)
Record rebooked e e' (b : PacketIdPool * FlowControl.t * list qitem * gset Z * list (Z * bool) * Z * Z) : Prop := {
  rb_heap : heap e' = heap e;
  rb_store : store e' = store e;
  rb_subs : _pending_sub_requests e' = _pending_sub_requests e;
  rb_books : books (outbound e') = b }.

Lemma wp_unpark mid (Q : unit → Engine S → Prop) R e :
  (mid ∈ _parked (outbound e) → mid ∈ dkeys (qrows e)) → (mid ∉ _parked (outbound e) → mid ∉ dkeys (qrows e)) →
  (∀ e' qs', q_row (heap e) <$> qs' = ddel mid (qrows e) → (∀ x, x ∈ qs' → x ∈ _queued (outbound e)) →
     rebooked e e' (packet_ids (outbound e), flow (outbound e), qs', _parked (outbound e) ∖ {[mid]},
       _sealed (outbound e), _pending_messages (outbound e), _pending_bytes (outbound e)) → Q tt e') →
  wp (_unpark mid) Q R e.
Proof.
  intros Hin Hout HQ. unfold _unpark. apply wp_bind, wp_gets. simpl. case_bool_decide as Hp; simpl.
  - destruct (del_entry_spec (heap e) mid (_queued (outbound e)) (Hin Hp)) as (qs' & Hd & Hr & Hsub).
    rewrite Hd. by apply (HQ _ qs').
  - apply wp_ret, (HQ _ (_queued (outbound e))); [| done |].
    + symmetry. apply ddel_none. auto.
    + constructor; try done. unfold books. by replace (_parked (outbound e) ∖ {[mid]}) with (_parked (outbound e)) by set_solver.
Qed.

(** The books after an exchange is settled. *)
Lemma settled_inv mid st n e e' qs' :
  Inv e → dget mid (table e) = Some (st, n) → mid ∉ dkeys (_sealed (outbound e)) →
  table_ok e' → heap_frame untouched (heap e) (heap e') → table e' = ddel mid (table e) →
  q_row (heap e) <$> qs' = ddel mid (qrows e) → (∀ x, x ∈ qs' → x ∈ _queued (outbound e)) →
  _pending_sub_requests e' = _pending_sub_requests e →
  books (outbound e') = (release (packet_ids (outbound e)) mid, (FlowControl.release (flow (outbound e)) mid).2, qs',
    _parked (outbound e) ∖ {[mid]}, _sealed (outbound e), _pending_messages (outbound e) - 1,
    _pending_bytes (outbound e) - n) →
  Inv e'.
Proof.
  intros [Hok Ho Ha Hw Hc] Hg Hns Hok' Hf Ht Hqr Hsub Hsubs Hb. unfold books in Hb. simplify_eq.
  assert (objs_ok (heap e) (_queued (outbound e'))) as Ho' by (intros l Hl; by apply Ho, Hsub).
  destruct (q_row_quiet _ _ _ Hf Ho') as [Hqr' Ho''].
  assert (mid ∉ dkeys (ddel mid (qrows e))) as Hnq by (rewrite dkeys_ddel by apply Ha; tauto).
  apply (inv_intro (ddel mid (table e)) (ddel mid (qrows e))); try done.
  - unfold qrows at 1. by rewrite Hqr'.
  - rewrite Hsubs. repeat match goal with E : _ = _ |- _ => rewrite E; clear E end.
    eapply acct_settle; [by apply acct_unqueue | done..].
  - repeat match goal with E : flow _ = _ |- _ => rewrite E | E : _sealed _ = _ |- _ => rewrite E end.
    apply (window_release _ _ _ _ Hw). intros k Hne Hk.
    destruct (w_holders _ _ _ _ Hw k Hk) as (Hkq & ? & st1 & n1 & ? & ?). rewrite dkeys_ddel by apply Ha.
    split_and!; [tauto | done |]. exists st1, n1. rewrite dget_ddel by apply Ha. by rewrite decide_False.
  - intros Hrel. match goal with E : _sealed _ = _ |- _ => rewrite E end.
    apply cover_unqueue; [by apply cover_ddel; [apply Hc | apply Ha |] | apply Ha |].
    intros k. rewrite dget_ddel by apply Ha. by rewrite decide_True.
Qed.

Lemma settled_sealed_inv mid r e e' :
  Inv e → dget mid (table e) = Some r → mid ∈ dkeys (_sealed (outbound e)) →
  table_ok e' → heap_frame untouched (heap e) (heap e') → table e' = ddel mid (table e) →
  _pending_sub_requests e' = _pending_sub_requests e →
  books (outbound e') = (release (packet_ids (outbound e)) mid, flow (outbound e), _queued (outbound e),
    _parked (outbound e), ddel mid (_sealed (outbound e)), _pending_messages (outbound e),
    _pending_bytes (outbound e)) →
  Inv e'.
Proof.
  intros [Hok Ho Ha Hw Hc] Hg Hs Hok' Hf Ht Hsubs Hb. unfold books in Hb.
  destruct (q_row_quiet _ _ _ Hf Ho) as [Hqr' Ho'].
  injection Hb as E1 E2 E3 E4 E5 E6 E7.
  apply (inv_intro (ddel mid (table e)) (qrows e)); rewrite ?E1, ?E2, ?E3, ?E4, ?E5, ?E6, ?E7, ?Hsubs; try done.
  - unfold qrows at 1. by rewrite E3, Hqr'.
  - by eapply acct_settle_sealed.
  - apply (window_keep _ _ _ _ Hw). intros k Hk.
    destruct (w_holders _ _ _ _ Hw k Hk) as (Hkq & ? & st1 & n1 & ? & ?). rewrite dkeys_ddel by apply Ha.
    split_and!; [done | tauto |]. exists st1, n1. rewrite dget_ddel by apply Ha. rewrite decide_False; [done |].
    by intros ->.
  - intros Hrel. apply cover_ddel_sealed; [by apply Hc | apply Ha..].
Qed.

Lemma quiet_report mid failure e :
  table_ok e → wp (_report mid failure) (λ _, quiet e) (λ _ _, False) e.
Proof. intros Hok. destruct failure; (eapply wp_mono; [by apply quiet_emit | by intros ?? [] | done]). Qed.

(** A row that waits is queued exactly when it is parked. *)
Lemma waiting_parked mid st n e :
  Inv e → dget mid (table e) = Some (st, n) → st ≠ QUEUED → mid ∉ _parked (outbound e) → mid ∉ dkeys (qrows e).
Proof.
  intros HI Hg Hst Hp [r Hr]%dget_key. apply (a_entries _ _ _ _ _ _ _ _ (i_acct _ HI)) in Hr as (_ & Hr & H1).
  rewrite Hg in Hr. simplify_eq/=. naive_solver.
Qed.

Lemma finish_inv mid st failure e :
  Inv e → st ≠ QUEUED → wp (_finish config mid st failure) (λ _, Inv) (λ _, Inv) e.
Proof.
  intros HI Hst. unfold _finish. apply wp_bind, wp_try. pose proof (i_ok _ HI) as Hok.
  apply wp_complete; [done | | |].
  - intros x h' s' Hs Hf Hg Ht. apply wp_bind, wp_gets. set (e1 := set_heap_store (h', s') e).
    assert (Hdone : ∀ e2, Inv (set_outbound (set_packet_ids (release (packet_ids (outbound e2)) mid) (outbound e2)) e2) →
      table_ok e2 → wp (_report mid failure;; ids_release mid;; drain config) (λ _, Inv) (λ _, Inv) e2).
    { intros e2 HI2 Hok2. eapply wp_then; [by apply quiet_report | | done]. intros [] e3 Hq3. apply wp_bind, wp_out.
      eapply wp_mono; [apply drain_inv | by intros ?? [] | done]. apply (inv_quiet _ _ HI2).
      destruct Hq3 as [? ? ? Hb ???]. constructor; try done.
      apply books_inv in Hb as (E1 & E2 & E3 & E4 & E5 & E6 & E7). unfold books. simpl. congruence. }
    apply wp_bind. apply wp_if; intros Hse.
    + apply dmem_spec in Hse. apply wp_out, Hdone; [| done]. by eapply (settled_sealed_inv mid _ e).
    + apply dmem_false in Hse.
      destruct (acct_charged _ _ _ _ _ _ _ _ (i_acct _ HI) _ _ _ Hg Hse) as [Hpm Hpb].
      apply wp_bind, wp_release_reservation; [done | done |]. apply wp_bind.
      destruct (q_row_quiet _ _ _ Hf (i_objs _ HI)) as [Hqr _].
      assert (∀ o, _queued o = _queued (outbound e) → qrows (set_outbound o e1) = qrows e) as Hqr1
        by (intros o Eo; unfold qrows; simpl; by rewrite Eo).
      apply wp_unpark; rewrite Hqr1 by done; simpl.
      * apply (a_parked _ _ _ _ _ _ _ _ (i_acct _ HI)).
      * by apply (waiting_parked mid st (om_logical_size x)).
      * intros e2 qs' Hqs Hsub [Hh2 Hs2 Hsb2 Hb2]. simpl in *.
        apply wp_out, Hdone; [| unfold table_ok; simpl; by rewrite Hh2, Hs2].
        injection Hb2 as E1 E2 E3 E4 E5 E6 E7.
        eapply (settled_inv mid st (om_logical_size x) e _ qs'); try done; simpl.
        -- unfold table_ok. simpl. by rewrite Hh2, Hs2.
        -- by rewrite Hh2.
        -- unfold table. simpl. by rewrite Hh2, Hs2.
        -- rewrite <- Hqs. symmetry. apply (q_row_quiet _ _ _ Hf). intros l Hl. by apply (i_objs _ HI), Hsub.
        -- unfold books. simpl. congruence.
  - intros h' s' Hs Hf _ Ht. apply wp_ret, (inv_quiet _ _ HI). by apply moved_after.
  - intros x h' s' Hs Hf Ht _. eapply wp_then; [by apply quiet_report | | done].
    intros [] e2 Hq2. apply wp_raise, (inv_quiet _ _ HI). eapply quiet_trans; [| exact Hq2]. by apply moved_after.
Qed.
End inv.
