(* ===== verification/OutboundAcks.v ===== *)
(** * Acknowledgements and connection teardown keep the books

    The broker's PUBACK, PUBREC and PUBCOMP, valid, orphaned or refused, and
    the protocol disconnect they may trigger. *)

From S2P Require Import Prelude Vbi PyStr Primitives Enums Properties Topics Frame Ack Publish Handshake.
From S2P Require Import Subscription Types Buffer PacketIds Settings Store EngineState Outbound Wp Accounting OutboundInv.

(** With nothing charged and nothing sealed there is no row. *)
Lemma acct_empty t q ids parked pm pb subs : Acct t q ids parked [] pm pb subs → pm ≤ 0 → t = [].
Proof.
  intros Ha Hpm. destruct t as [| [mid [st n]] t]; [done |]. exfalso.
  destruct (acct_charged _ _ _ _ _ _ _ _ Ha mid st n) as [? _]; [simpl; by rewrite decide_True | by intros ?%not_elem_of_nil |].
  lia.
Qed.

Section acks.
Context {S : Type} `{OutStoreLaws S} (config : EngineConfig).
Implicit Types (e : Engine S).

Abbreviation quiet e := (moved untouched (table e) e).

(** The invariant does not read the connection. *)
Lemma inv_rebooked e e' : Inv e → rebooked e e' (books (outbound e)) → Inv e'.
Proof.
  intros [Hok Ho Ha Hw Hc] [Hh Hs Hsub Hb]. apply books_inv in Hb as (E1 & E2 & E3 & E4 & E5 & E6 & E7).
  assert (qrows e' = qrows e) as Eq by (unfold qrows; by rewrite E3, Hh).
  assert (table e' = table e) as Et by (unfold table; by rewrite Hh, Hs).
  constructor; unfold table_ok; rewrite ?Eq, ?Et, ?Hh, ?Hs, ?E1, ?E2, ?E3, ?E4, ?E5, ?E6, ?E7, ?Hsub; done.
Qed.

(** Other pools and requests over the same rows and seals. *)
Lemma inv_subs e e' ids' :
  Inv e → heap e' = heap e → store e' = store e → pool_ok ids' → NoDup (dkeys (_pending_sub_requests e')) →
  (∀ mid, mid ∈ dkeys (_pending_sub_requests e') → mid ∉ dkeys (table e) ∧ mid ∉ dkeys (_sealed (outbound e))) →
  (∀ mid, mid ∈ used ids' ↔ mid ∈ dkeys (table e) ∨ mid ∈ dkeys (_sealed (outbound e)) ∨
     mid ∈ dkeys (_pending_sub_requests e')) →
  books (outbound e') = books (set_packet_ids ids' (outbound e)) → Inv e'.
Proof.
  intros [Hok Ho Ha Hw Hc] Hh Hs Hp Hn Hd Hu Hb. apply books_inv in Hb as (E1 & E2 & E3 & E4 & E5 & E6 & E7). simpl in *.
  assert (qrows e' = qrows e) as Eq by (unfold qrows; by rewrite E3, Hh).
  assert (table e' = table e) as Et by (unfold table; by rewrite Hh, Hs).
  constructor; unfold table_ok; rewrite ?Eq, ?Et, ?Hh, ?Hs, ?E1, ?E2, ?E3, ?E4, ?E5, ?E6, ?E7; try done.
  by eapply acct_subs.
Qed.

Lemma release_all mids e :
  pool_ok (packet_ids (outbound e)) →
  wp (for_each mids (λ mid, out_modify (λ o, set_packet_ids (release (packet_ids o) mid) o)))
    (λ _ e', ∃ ids', e' = set_outbound (set_packet_ids ids' (outbound e)) e ∧ pool_ok ids' ∧
       ∀ x, x ∈ used ids' ↔ x ∈ used (packet_ids (outbound e)) ∧ x ∉ mids) (λ _ _, False) e.
Proof.
  intros Hp. pose (I := λ (l : list Z) e', ∃ ids', e' = set_outbound (set_packet_ids ids' (outbound e)) e ∧ pool_ok ids' ∧
    (∀ x, x ∈ used ids' → x ∈ used (packet_ids (outbound e)) ∧ (x ∉ l → x ∉ mids)) ∧
    (∀ x, x ∈ used (packet_ids (outbound e)) → x ∉ mids → x ∈ used ids') ∧ ∀ x, x ∈ l → x ∈ mids).
  eapply wp_mono; [apply (wp_for_each I (λ _ _, False)) | | done].
  - intros x l e' (ids' & -> & Hok & H1 & H2 & H3). apply wp_out. simpl.
    destruct (release_spec ids' x Hok) as [Hok' Hu]. exists (release ids' x). split_and!; [done | done | | |].
    + intros y [Hy Hne]%Hu. destruct (H1 y Hy) as [? Hn]. split; [done |]. intros Hl. apply Hn.
      intros [-> | ?]%elem_of_cons; done.
    + intros y Hy Hn. apply Hu. split; [auto |]. intros ->. apply Hn, H3. left.
    + intros y Hy. apply H3. by right.
  - exists (packet_ids (outbound e)). split_and!; try done. by destruct e as [? ? ? ? [] ? ? ?].
  - intros [] e' (ids' & -> & Hok & H1 & H2 & H3). exists ids'. split_and!; try done. intros x. split; [| naive_solver].
    intros Hx. destruct (H1 x Hx) as [? Hn]. split; [done |]. apply Hn. by intros ?%not_elem_of_nil.
Qed.

(** Dropping the pending requests frees exactly their identifiers. *)
Lemma release_pending_inv e :
  Inv e → wp (_release_pending_subscription_requests) (λ _ e', Inv e' ∧ _pending_sub_requests e' = []) (λ _ _, False) e.
Proof.
  intros HI. unfold _release_pending_subscription_requests. apply wp_bind, wp_gets.
  destruct (_pending_sub_requests e) as [| y subs] eqn:Hsub; [by apply wp_ret |]. rewrite <- Hsub. clear y subs Hsub.
  pose proof (i_acct _ HI) as Ha.
  apply wp_bind, wp_gets. apply (wp_then _ _ (λ _ e', ∃ ids', e' = set_outbound (set_packet_ids ids' (outbound e)) e ∧
    pool_ok ids' ∧ ∀ x, x ∈ used ids' ↔ x ∈ dkeys (table e) ∨ x ∈ dkeys (_sealed (outbound e))) (λ _ _, False));
    [| | done].
  - apply wp_if; intros Hh.
    + apply wp_out. exists pool_init. split_and!; [done | apply pool_init_ok |]. intros x.
      rewrite (proj2 pool_init_ok). unfold holds_packet_ids in Hh. apply negb_true_iff, orb_false_iff in Hh as [Hpm Hse]. bools.
      rewrite Hse in *. rewrite (acct_empty _ _ _ _ _ _ _ Ha) by lia. set_solver.
    + eapply wp_mono; [apply release_all, Ha | | done]. intros [] e' (ids' & -> & Hok & Hu). exists ids'.
      split_and!; try done. intros x. rewrite Hu, (a_ids _ _ _ _ _ _ _ _ Ha).
      pose proof (a_subs_free _ _ _ _ _ _ _ _ Ha x). tauto.
  - intros [] e' (ids' & -> & Hok & Hu). apply wp_modify. split; [| done].
    apply (inv_subs e _ ids' HI); try done; simpl.
    + apply NoDup_nil_2.
    + by intros mid ?%not_elem_of_nil.
    + intros mid. rewrite Hu. set_solver.
Qed.

Lemma quiet_send w e : table_ok e → wp (_send w) (λ _, quiet e) (λ _ _, False) e.
Proof. intros Hok. eapply wp_mono; [by apply quiet_emit | by intros ?? [] | done]. Qed.

Lemma inv_emit fx e : Inv e → wp (_emit fx) (λ _, Inv) (λ _ _, False) e.
Proof. intros HI. apply wp_modify, (inv_rebooked e _ HI). done. Qed.

Lemma inv_protocol_disconnect rc e : Inv e → wp (_protocol_disconnect config rc) (λ _, Inv) (λ _, Inv) e.
Proof.
  intros HI. unfold _protocol_disconnect. apply (wp_then _ _ (λ _, Inv) (λ _, Inv)); [| | done].
  - apply wp_if; intros _; [| by apply wp_ret]. apply wp_lift_bind; [| done]. intros w _.
    apply (wp_then _ _ (λ _ e', e' = e) (λ _ e', e' = e)); [| | by intros ?? ->].
    + apply wp_try, wp_size; [apply HI | done |]. intros x. by destruct (is_packet_too_large x).
    + intros fits ? ->. apply wp_only_if; [| done]. intros _. eapply wp_mono; [by apply inv_emit | done..].
  - intros [] e1 HI1. apply wp_bind, wp_bind, wp_modify, wp_modify. eapply wp_then.
    + apply release_pending_inv. by apply (inv_rebooked e1).
    + intros [] e2 [HI2 _]. eapply wp_mono; [by apply inv_emit | done..].
    + done.
Qed.

Lemma inv_check_problem properties e :
  Inv e → wp (check_problem_information config properties) (λ _, Inv) (λ _, Inv) e.
Proof.
  intros HI. unfold check_problem_information, _validate_inbound_problem_information.
  apply wp_only_if; [| done]. intros _. apply wp_bind, wp_gets.
  apply wp_if; intros _; [by apply wp_ret |]. apply wp_if; intros _; [by apply wp_ret |].
  eapply wp_then; [by apply inv_protocol_disconnect | | done]. intros [] e' HI'. by apply wp_raise.
Qed.

Lemma inv_on_puback raw e : Inv e → wp (on_puback config raw) (λ _, Inv) (λ _, Inv) e.
Proof.
  intros HI. unfold on_puback. apply wp_lift_bind; [| done]. intros [[mid rc] ps] _.
  eapply wp_then; [by apply inv_check_problem | | done]. intros [] e' HI'. by apply finish_inv.
Qed.

Lemma inv_on_pubcomp raw e : Inv e → wp (on_pubcomp config raw) (λ _, Inv) (λ _, Inv) e.
Proof.
  intros HI. unfold on_pubcomp. apply wp_lift_bind; [| done]. intros [[mid rc] ps] _.
  eapply wp_then; [by apply inv_check_problem | | done]. intros [] e' HI'. by apply finish_inv.
Qed.

Lemma inv_pubrel_capacity n e : Inv e → wp (_require_pubrel_capacity n) (λ _, Inv) (λ _, Inv) e.
Proof.
  intros HI. unfold _require_pubrel_capacity. apply wp_bind, wp_gets. destruct (n_maximum_packet_size _); [| done].
  by apply wp_if.
Qed.

Lemma inv_orphan mid e : Inv e → wp (_send_orphan_pubrel config mid) (λ _, Inv) (λ _, Inv) e.
Proof.
  intros HI. unfold _send_orphan_pubrel. apply wp_lift_bind; [| done]. intros w _.
  eapply wp_then; [by apply inv_pubrel_capacity | | done]. intros [] e' HI'.
  eapply wp_mono; [by apply inv_emit | done..].
Qed.

Lemma inv_send_pubrel mid e : Inv e → wp (send_pubrel mid) (λ _, Inv) (λ _, Inv) e.
Proof.
  intros HI. unfold send_pubrel. apply wp_lift_bind; [| done]. intros w _. eapply wp_mono; [by apply inv_emit | done..].
Qed.

(** A PUBREC moves the row on; a parked exchange leaves the queue. *)
Lemma pubrec_moved mid n e e' qs' :
  Inv e → dget mid (table e) = Some (WAIT_PUBREC, n) → table_ok e' → heap_frame (eq mid) (heap e) (heap e') →
  table e' = dset mid (WAIT_PUBCOMP, n) (table e) →
  q_row (heap e') <$> qs' = ddel mid (qrows e) → objs_ok (heap e') qs' →
  _pending_sub_requests e' = _pending_sub_requests e →
  books (outbound e') = books (set_parked (_parked (outbound e) ∖ {[mid]}) (set_queued qs' (outbound e))) → Inv e'.
Proof.
  intros [Hok Ho Ha Hw Hc] Hg Hok' Hf Ht Hqs Hos Hsub Hb. apply books_inv in Hb as (E1 & E2 & E3 & E4 & E5 & E6 & E7).
  simpl in *. assert (mid ∉ dkeys (ddel mid (qrows e))) as Hnq by (rewrite dkeys_ddel by apply Ha; tauto).
  apply (inv_intro (dset mid (WAIT_PUBCOMP, n) (table e)) (ddel mid (qrows e)));
    rewrite ?E1, ?E2, ?E3, ?E4, ?E5, ?E6, ?E7, ?Hsub; try done.
  - unfold qrows at 1. by rewrite E3.
  - eapply acct_phase; [by apply acct_unqueue | exact Hg | done].
  - apply (window_keep _ _ _ _ Hw). intros k Hk.
    destruct (w_holders _ _ _ _ Hw k Hk) as (Hkq & ? & st1 & n1 & ? & ?). rewrite dkeys_ddel by apply Ha.
    split_and!; [tauto | done |]. rewrite dget_dset. case_decide; [subst k; by exists WAIT_PUBCOMP, n | by exists st1, n1].
  - intros Hrel. apply cover_unqueue; [| apply Ha |].
    + eapply cover_phase; [by apply Hc | exact Hg | done | done].
    + intros k. rewrite dget_dset_eq. congruence.
Qed.

(** An object whose phase moved shows the same identifier, and its row is the
    only one that differs. *)
Lemma q_mid_frame ch h h' qs : heap_frame ch h h' → objs_ok h qs → q_mid h' <$> qs = q_mid h <$> qs.
Proof.
  intros Hf Ho. apply list_fmap_ext. intros i y Hy%list_elem_of_lookup_2. unfold q_mid. destruct y as [l | s]; [| done].
  simpl. destruct (Ho l Hy) as [m1 Hl]. destruct (Hf l m1 Hl) as (m2 & Hl2 & Hm2 & _). by rewrite Hl, Hl2.
Qed.

Lemma ddel_q_row_frame mid h h' qs :
  heap_frame (eq mid) h h' → objs_ok h qs → NoDup (q_mid h <$> qs) →
  ddel mid (q_row h' <$> qs) = ddel mid (q_row h <$> qs).
Proof.
  intros Hf. induction qs as [| x qs IH]; intros Ho Hn; [done |].
  assert (objs_ok h qs) as Ho' by (intros l Hl; apply Ho; by right).
  assert (objs_ok h [x]) as Hox by (intros l Hl%list_elem_of_singleton; apply Ho; rewrite Hl; left).
  assert (q_mid h' x = q_mid h x) as Hm by (by injection (q_mid_frame _ _ _ _ Hf Hox)).
  apply NoDup_cons in Hn as [Hx Hn]. destruct (decide (mid = q_mid h x)) as [E | Hne].
  - assert (ddel mid (q_row h' <$> x :: qs) = q_row h' <$> qs) as -> by (rewrite E, <- Hm; apply ddel_head).
    assert (ddel mid (q_row h <$> x :: qs) = q_row h <$> qs) as -> by (rewrite E; apply ddel_head).
    apply (q_row_frame (eq mid)); [done | done |]. intros y Hy Ey. apply Hx. rewrite <- E, Ey.
    apply list_elem_of_fmap. eauto.
  - assert (q_row h' x = q_row h x) as Hr.
    { destruct (q_row_frame (eq mid) h h' [x] Hf Hox) as [Hr _]; [by intros y ->%list_elem_of_singleton |].
      by apply (inj2 cons) in Hr as [Hr _]. }
    cbn [fmap list_fmap]. rewrite Hr. simpl. fold (q_mid h x). rewrite !decide_False by done.
    f_equal. by apply IH.
Qed.

Lemma inv_on_pubrec raw e : Inv e → wp (on_pubrec config raw) (λ _, Inv) (λ _, Inv) e.
Proof.
  intros HI0. unfold on_pubrec. apply wp_lift_bind; [| done]. intros [[mid rc] ps] _.
  eapply wp_then; [by apply inv_check_problem | | done]. clear e HI0. intros [] e HI.
  pose proof (i_ok _ HI) as Hok. assert (Hafter : ∀ h' s', store_ok h' s' → heap_frame untouched (heap e) h' →
    rows h' s' = table e → Inv (set_heap_store (h', s') e)) by (intros; apply (inv_quiet _ _ HI); by apply moved_after).
  apply wp_if; intros _; [by apply finish_inv |]. apply wp_bind, wp_gets. apply wp_if; intros _.
  - apply wp_bind, wp_meta; [done | | by auto]. intros [meta |] h' s' Hs Hf Ht _; [| by apply inv_orphan; auto].
    destruct (om_state meta); try (by apply inv_pubrel_capacity; auto); by apply wp_ret; auto.
  - apply wp_bind, wp_transition; [done | | | by auto].
    + intros x h' s' Hs Hf Hg Ht. apply wp_bind. set (e1 := set_heap_store (h', s') e).
      pose proof (i_acct _ HI) as Ha. pose proof (i_objs _ HI) as Ho.
      assert (dkeys (qrows e1) = dkeys (qrows e)) as Hkeys
        by (unfold qrows; rewrite !dkeys_q_row; by apply (q_mid_frame (eq mid))).
      apply wp_unpark; rewrite ?Hkeys; simpl.
      * by apply (a_parked _ _ _ _ _ _ _ _ Ha).
      * by apply (waiting_parked mid WAIT_PUBREC (om_logical_size x)).
      * intros e2 qs' Hqs Hsub [Hh2 Hs2 Hsb2 Hb2]. simpl in *. apply inv_send_pubrel.
        eapply (pubrec_moved mid (om_logical_size x) e _ qs'); try done.
        -- unfold table_ok. by rewrite Hh2, Hs2.
        -- by rewrite Hh2.
        -- unfold table. by rewrite Hh2, Hs2.
        -- rewrite Hh2, Hqs. apply ddel_q_row_frame; [done | done |].
           pose proof (a_queue _ _ _ _ _ _ _ _ Ha) as Hn. unfold qrows in Hn. by rewrite dkeys_q_row in Hn.
        -- rewrite Hh2. intros l Hl. destruct (Ho l (Hsub _ Hl)) as [m Hm].
           destruct (Hf _ _ Hm) as (m' & -> & _). eauto.
    + intros h' s' Hs Hf _ Ht. pose proof (Hafter h' s' Hs Hf Ht) as HI1.
      apply wp_bind, wp_meta; [done | |].
      * intros [meta |] h2 s2 Hs2 Hf2 Ht2 _.
        -- apply wp_if; intros _; [apply inv_send_pubrel | apply wp_ret]; apply (inv_quiet _ _ HI1); by apply moved_after.
        -- apply inv_orphan, (inv_quiet _ _ HI1). by apply moved_after.
      * intros y h2 s2 Hs2 Hf2 Ht2 _. apply (inv_quiet _ _ HI1). by apply moved_after.
Qed.
End acks.
