(* ===== verification/OutboundPublish.v ===== *)
(** * Admission of a publication

    [queue_publish] admits a request completely or leaves no trace of it. *)

From S2P Require Import Prelude Vbi PyStr Primitives Enums Properties Topics Frame Ack Publish Handshake.
From S2P Require Import Subscription Types Buffer PacketIds Settings Store EngineState Outbound Wp Accounting OutboundInv OutboundAcks.

(** The Topic Alias of a request converts to an integer. *)
Definition alias_ok (properties : option propmap) : Prop :=
  ∀ ps v, properties = Some ps → ("topic_alias"%string, v) ∈ ps → v = VNone ∨ ∃ z, py_int v = Ok z.

(** ** Methods that only read *)

Section still.
Context {S : Type}.
Implicit Types (e : Engine S).

Definition still {A} (m : M S A) : Prop := ∀ e, (m e).2 = e.

Lemma still_ret {A} (a : A) : still (mret a).
Proof. done. Qed.
Lemma still_raise {A} x : still (raise (A := A) x).
Proof. done. Qed.
Lemma still_lift {A} (r : res A) : still (lift r).
Proof. done. Qed.
Lemma still_gets {A} (f : Engine S → A) : still (gets f).
Proof. done. Qed.
Lemma still_bind {A B} (m : M S A) (k : A → M S B) : still m → (∀ a, still (k a)) → still (m ≫= k).
Proof.
  intros Hm Hk e. unfold mbind, M_bind. specialize (Hm e). destruct (m e) as [[a | x] e']; simpl in *; subst; [| done].
  apply Hk.
Qed.
Lemma still_if {A} (c : bool) (m n : M S A) : still m → still n → still (if c then m else n).
Proof. by destruct c. Qed.

Lemma wp_still {A} (m : M S A) (Q : A → Engine S → Prop) (R : exn → Engine S → Prop) e :
  still m → (∀ a, Q a e) → (∀ x, R x e) → wp m Q R e.
Proof. intros Hm HQ HR. unfold wp. specialize (Hm e). destruct (m e) as [[a | x] e']; simpl in *; subst; auto. Qed.
End still.

Create HintDb still.
#[export] Hint Resolve still_ret still_raise still_lift still_gets still_bind still_if : still.

(** Walks through binds, conditionals and matches. *)
Ltac keep_still :=
  cbv beta zeta iota;
  repeat first
    [ progress intros
    | solve [auto with still]
    | apply still_bind | apply still_if
    | match goal with |- still (match ?x with _ => _ end) => destruct x end ].

Section reading.
Context {S : Type} `{OutStore S} (config : EngineConfig).
Implicit Types (e : Engine S).

Lemma still_size w : still (S := S) (_check_outbound_size w).
Proof. unfold _check_outbound_size. keep_still. Qed.
#[local] Hint Resolve still_size : still.

Lemma still_wire_size t p n q i : still (S := S) (_check_publish_wire_size t p n q i).
Proof. unfold _check_publish_wire_size. keep_still. Qed.
#[local] Hint Resolve still_wire_size : still.

Lemma still_resolve topic alias : still (S := S) (_resolve_outbound_alias topic alias).
Proof. unfold _resolve_outbound_alias. keep_still. Qed.
#[local] Hint Resolve still_resolve : still.

Lemma still_validate msg : still (S := S) (validate_against_negotiated config msg).
Proof. unfold validate_against_negotiated, _check_publish_size. keep_still. Qed.

(** A request validated has an alias that converts. *)
Definition alias_read (properties : option propmap) : Prop :=
  ∀ v, pget properties "topic_alias" = Some v → ∃ z, py_int v = Ok z.

Lemma no_values_alias properties : has_values properties = false → alias_read properties.
Proof. intros Hv v. by destruct properties as [[] |]. Qed.

Lemma alias_read_one properties v z : pget properties "topic_alias" = Some v → py_int v = Ok z → alias_read properties.
Proof. intros Hv Hz w Hw. rewrite Hv in Hw. simplify_eq. eauto. Qed.

Abbreviation is_v5 := (b_is_mqtt5 (codec config)).

(** Reading the alias, as both validations do once the request's properties
    passed their guards. *)
Lemma read_alias_spec {A} properties (k : Z → M S A) (a : A) e :
  negb is_v5 && has_values properties = false → (∀ z, still (k z)) →
  wp (match (if is_v5 then pget properties "topic_alias" else None) with
      | Some v => alias ← lift (py_int v); k alias
      | None => mret a
      end) (λ _ e', e' = e ∧ alias_read properties) (λ _ e', e' = e) e.
Proof.
  intros Hg Hk. destruct is_v5; simpl in Hg.
  - destruct (pget properties "topic_alias") as [v |] eqn:Hv; [| apply wp_ret; split; [done |]; unfold alias_read; congruence].
    apply wp_lift_bind; [| done]. intros z Hz. apply wp_still; [done | | done]. intros _. split; [done |].
    by eapply alias_read_one.
  - apply wp_ret. split; [done |]. by apply no_values_alias.
Qed.

Lemma prepare_spec topic payload qos retain properties w e :
  wp (_prepare_publish_request config topic payload qos retain properties w)
    (λ _ e', e' = e ∧ alias_read properties) (λ _ e', e' = e) e.
Proof.
  unfold _prepare_publish_request. apply wp_lift_bind; [| done]. intros level _. apply wp_bind, wp_gets.
  apply (wp_then _ _ (λ _ e', e' = e ∧ alias_read properties) (λ _ e', e' = e)); [| | done].
  - destruct properties as [ps |]; [| by apply wp_ret]. apply wp_if; intros Hg; [done |].
    apply wp_if; intros _; [done |]. apply (wp_then _ _ (λ _ e', e' = e) (λ _ e', e' = e)); [| | done].
    + apply wp_still; [keep_still | done | done].
    + intros [] ? ->. apply read_alias_spec; [done | keep_still].
  - intros [alias canonical] ? [-> Ha]. apply wp_still; [| done | done]. keep_still.
Qed.

Lemma prepare_qos0_spec topic payload retain properties e :
  wp (prepare_qos0 config topic payload retain properties) (λ _ e', e' = e ∧ alias_read properties) (λ _ e', e' = e) e.
Proof.
  unfold prepare_qos0. apply wp_bind, wp_gets.
  apply (wp_then _ _ (λ _ e', e' = e ∧ alias_read properties) (λ _ e', e' = e)); [| | done].
  - destruct properties as [ps |]; [| apply wp_still; [keep_still | by split | done]].
    apply wp_if; intros Hg; [done |]. apply wp_if; intros _; [done |].
    eapply wp_then; [apply read_alias_spec; [done | keep_still] | | done]. intros alias ? [-> Ha].
    apply wp_still; [keep_still | done | done].
  - intros [alias topic_bytes] ? [-> Ha]. apply wp_still; [| done | done]. keep_still.
Qed.
End reading.

Section publish.
Context {S : Type} `{OutStoreLaws S} (config : EngineConfig) (pop : gset Z → Z) (Hpop : ∀ s, s ≠ ∅ → pop s ∈ s).
Implicit Types (e : Engine S).

Abbreviation quiet e := (moved untouched (table e) e).

Lemma wp_allocate (Q : Z → Engine S → Prop) (R : exn → Engine S → Prop) e :
  pool_ok (packet_ids (outbound e)) →
  (∀ mid p', pool_ok p' → 1 ≤ mid ≤ 65535 → mid ∉ used (packet_ids (outbound e)) →
     (∀ x, x ∈ used p' ↔ x ∈ used (packet_ids (outbound e)) ∨ x = mid) →
     Q mid (set_outbound (set_packet_ids p' (outbound e)) e)) →
  (∀ p', pool_ok p' → (∀ x, x ∈ used p' ↔ x ∈ used (packet_ids (outbound e))) →
     R FlowControlError (set_outbound (set_packet_ids p' (outbound e)) e)) →
  wp (ids_allocate pop) Q R e.
Proof using Hpop.
  intros Hok HQ HR. unfold wp, ids_allocate.
  destruct (allocate_spec pop Hpop _ Hok) as [(m & p' & -> & ? & ? & ? & ?) | (p' & -> & ? & ? & ?)]; auto.
Qed.

(** Without its message, a fresh identifier has no row, slot, entry or seal. *)
Lemma fresh_mid mid e :
  Inv e → mid ∉ used (packet_ids (outbound e)) →
  mid ∉ dkeys (table e) ∧ mid ∉ dkeys (_sealed (outbound e)) ∧ mid ∉ dkeys (qrows e) ∧
  mid ∉ FlowControl._holders (flow (outbound e)) ∧ mid ∉ dkeys (_pending_sub_requests e).
Proof.
  intros [Hok Ho Ha Hw Hc] Hn. pose proof Hn as Hn'. rewrite (a_ids _ _ _ _ _ _ _ _ Ha) in Hn'.
  split_and!; try tauto; [by intros ?%(acct_entry_id _ _ _ _ _ _ _ _ Ha) |].
  intros (_ & _ & st & n & Hg & _)%(w_holders _ _ _ _ Hw). apply Hn'. left. by eapply dget_Some_key.
Qed.

Lemma dget_fresh {V} mid (d : list (Z * V)) : mid ∉ dkeys d → dget mid d = None.
Proof. intros Hn. destruct (dget mid d) eqn:E; [| done]. apply dget_Some_key in E. done. Qed.

(** The engine between the reservation and the commit: identifier [mid] and
    [n] bytes are taken, object [l] holds the message. *)
Record admitting mid n e l e' : Prop := {
  ad_fresh : mid ∉ used (packet_ids (outbound e));
  ad_ok : table_ok e';
  ad_table : table e' = table e;
  ad_heap : heap_frame (eq mid) (heap e) (heap e');
  ad_obj : ∃ m, oh (heap e') !! l = Some m ∧ o_mid m = mid ∧ o_logical_size m = n;
  ad_pool : pool_ok (packet_ids (outbound e'));
  ad_used : ∀ x, x ∈ used (packet_ids (outbound e')) ↔ x ∈ used (packet_ids (outbound e)) ∨ x = mid;
  ad_books : books (outbound e') = books (set_packet_ids (packet_ids (outbound e'))
    (set_pending (_pending_messages (outbound e) + 1) (_pending_bytes (outbound e) + n) (outbound e)));
  ad_subs : _pending_sub_requests e' = _pending_sub_requests e;
  ad_effects : _effects e' = _effects e }.

Lemma admitting_moved mid n e l e1 e2 :
  admitting mid n e l e1 → moved (eq mid) (table e1) e1 e2 → _effects e2 = _effects e1 → admitting mid n e l e2.
Proof.
  intros [Hn Hok Ht Hf (m & Hl & Hm & Hsz) Hp Hu Hb Hs Hfx] [Hok' Ht' Hf' Hb' Hs' _ _] Hfx'.
  pose proof (books_inv _ _ Hb') as (E1 & _). destruct (Hf' _ _ Hl) as (m' & Hl' & ? & ? & _).
  constructor; rewrite ?E1; try done; try congruence.
  - eapply heap_frame_weaken; [| by eapply heap_frame_trans]. simpl. tauto.
  - exists m'. split_and!; [done | congruence..].
Qed.

(** The queue's rows do not see the new message. *)
Lemma admitting_queue mid n e l e' :
  Inv e → admitting mid n e l e' →
  qrows e' = qrows e ∧ objs_ok (heap e') (_queued (outbound e')) ∧ _queued (outbound e') = _queued (outbound e).
Proof.
  intros HI [Hn _ _ Hf _ _ _ Hb _ _]. apply books_inv in Hb as (_ & _ & E3 & _). simpl in E3. rewrite E3.
  destruct (q_row_frame (eq mid) _ _ (_queued (outbound e)) Hf (i_objs _ HI)) as [Hq Ho].
  - intros x Hx ->. apply (fresh_mid _ _ HI) in Hn as (_ & _ & Hn & _). apply Hn. unfold qrows.
    rewrite dkeys_q_row. apply list_elem_of_fmap. eauto.
  - split_and!; try done. unfold qrows. by rewrite E3.
Qed.

Lemma target_waits m : target m ≠ QUEUED.
Proof. unfold target. by destruct (o_qos m). Qed.

Lemma admitting_flow mid n e l e1 :
  Inv e → admitting mid n e l e1 →
  flow (outbound e1) = flow (outbound e) ∧ mid ∉ FlowControl._holders (flow (outbound e1)).
Proof.
  intros HI Had. pose proof (ad_books _ _ _ _ _ Had) as (_ & E2 & _)%books_inv. simpl in E2. rewrite E2.
  by destruct (fresh_mid _ _ HI (ad_fresh _ _ _ _ _ Had)) as (_ & _ & _ & ? & _).
Qed.

Lemma try_launch_spec mid n e l e1 pb tb wt :
  Inv e → admitting mid n e l e1 →
  wp (_try_launch config l pb tb wt)
    (λ b e2, if b : bool then
         (0 < n ∧ 0 < FlowControl.available (flow (outbound e)) ∧ ∃ w, _effects e2 = _effects e ++ [Effect.SEND w]) ∧
         ∃ st, st ≠ QUEUED ∧ moved (eq mid) (dset mid (st, n) (table e))
           (set_outbound (set_flow (acquired (flow (outbound e)) mid) (outbound e1)) e1) e2
       else e2 = e1 ∧ FlowControl.available (flow (outbound e)) ≤ 0)
    (λ _ e2, admitting mid n e l e2) e1.
Proof.
  intros HI Had. unfold _try_launch. destruct (ad_obj _ _ _ _ _ Had) as (m & Hl & Hm & Hn).
  apply (wp_deref l m); [done |]. rewrite Hm. destruct (admitting_flow _ _ _ _ _ HI Had) as [Ef Hnh].
  apply wp_bind, wp_acquire; [done | | intros Hav; apply wp_ret; by rewrite <- Ef]. intros Hav. simpl.
  set (e1' := set_outbound (set_flow (acquired (flow (outbound e1)) mid) (outbound e1)) e1).
  assert (dget (o_mid m) (table e1') = None) as Hnone.
  { rewrite Hm. change (table e1') with (table e1). rewrite (ad_table _ _ _ _ _ Had).
    apply dget_fresh, (fresh_mid _ _ HI), (ad_fresh _ _ _ _ _ Had). }
  apply wp_try. eapply wp_then; [apply (launch_fresh config l m pb tb wt e1'); [apply Had | done | done] | |].
  - intros [] e2 [(Hpos & w & Hfx) Hmv]. apply wp_ret. split.
    + rewrite <- Hn, <- Ef. split_and!; try done. exists w. rewrite Hfx. by rewrite <- (ad_effects _ _ _ _ _ Had).
    + exists (target m). split; [apply target_waits |]. rewrite Hm, Hn in Hmv.
      change (table e1') with (table e1) in Hmv. rewrite (ad_table _ _ _ _ _ Had) in Hmv. unfold e1' in Hmv.
      by rewrite <- Ef.
  - intros x e2 [Hfx Hmv]. apply wp_bind, wp_out, wp_raise. rewrite Hm in Hmv.
    apply (admitting_moved _ _ _ _ e1); [done | | done]. destruct Hmv as [Hok2 Ht2 Hf2 Hb2 ???].
    constructor; try done. apply books_inv in Hb2 as (E1 & E2 & E3 & E4 & E5 & E6 & E7). simpl in *.
    unfold books. simpl. rewrite E1, E2, E3, E4, E5, E6, E7. by rewrite release_acquired.
Qed.

(** A launched message: its row waits, and it holds a slot. *)
Lemma launched_inv mid n st e l e1 e2 :
  Inv e → admitting mid n e l e1 → 0 < n → 0 < FlowControl.available (flow (outbound e)) → st ≠ QUEUED →
  moved (eq mid) (dset mid (st, n) (table e))
    (set_outbound (set_flow (acquired (flow (outbound e)) mid) (outbound e1)) e1) e2 → Inv e2.
Proof.
  intros HI Had Hn Hav Hst [Hok2 Ht2 Hf2 Hb2 Hs2 _ _]. simpl in *. apply books_inv in Hb2 as (E1 & E2 & E3 & E4 & E5 & E6 & E7).
  destruct (admitting_queue _ _ _ _ _ HI Had) as (Eq & Ho & EQ).
  pose proof (ad_books _ _ _ _ _ Had) as (_ & F2 & F3 & F4 & F5 & F6 & F7)%books_inv.
  destruct Had as [Hfr _ _ _ _ Hp Hu _ Hs _]. simpl in *.
  destruct (fresh_mid _ _ HI Hfr) as (Hnt & Hns & Hnq & Hnh & _). pose proof HI as [Hok _ Ha Hw Hc].
  destruct (q_row_frame (eq mid) _ _ (_queued (outbound e)) Hf2) as [Hq2 Ho2].
  { by rewrite <- EQ. }
  { intros x Hx ->. apply Hnq. rewrite <- Eq. unfold qrows. rewrite EQ, dkeys_q_row. apply list_elem_of_fmap. eauto. }
  apply (inv_intro (dset mid (st, n) (table e)) (qrows e));
    rewrite ?E1, ?E2, ?E3, ?E4, ?E5, ?E6, ?E7, ?F2, ?F3, ?F4, ?F5, ?F6, ?F7, ?Hs2, ?Hs; try done.
  - rewrite <- Eq. unfold qrows. by rewrite E3, EQ.
  - by apply (acct_admit _ _ (packet_ids (outbound e))).
  - apply (window_acquire _ _ _ _ Hw); [done | done |]. intros k [-> | Hk].
    + split_and!; try done. exists st, n. by rewrite dget_dset_eq.
    + destruct (w_holders _ _ _ _ Hw k Hk) as (? & ? & st1 & n1 & ? & ?). split_and!; try done. exists st1, n1.
      rewrite dget_dset_ne; [done |]. by intros ->.
  - intros Hrel. eapply cover_admit; [by apply Hc | done | done |]. by intros ->.
Qed.

(** A queued message: its row is the last entry of the queue. *)
Lemma queued_inv mid n m e l e1 h' s' :
  Inv e → admitting mid n e l e1 → oh (heap e1) !! l = Some m → o_mid m = mid → o_row m = (QUEUED, n) → 0 < n →
  store_ok h' s' → heap_frame untouched (heap e1) h' → rows h' s' = dset mid (QUEUED, n) (table e) →
  Inv (set_outbound (set_queued (_queued (outbound e1) ++ [QObj l]) (outbound e1)) (set_heap_store (h', s') e1)).
Proof.
  intros HI Had Hl Hm Hrow Hn Hs' Hf Ht. destruct (admitting_queue _ _ _ _ _ HI Had) as (Eq & Ho & EQ).
  pose proof (ad_books _ _ _ _ _ Had) as (_ & F2 & F3 & F4 & F5 & F6 & F7)%books_inv.
  destruct Had as [Hfr _ _ _ _ Hp Hu _ Hs _]. simpl in *.
  destruct (fresh_mid _ _ HI Hfr) as (Hnt & Hns & Hnq & Hnh & _). pose proof HI as [Hok _ Ha Hw Hc].
  destruct (q_row_quiet _ _ _ Hf Ho) as [Hq2 Ho2]. destruct (Hf _ _ Hl) as (m' & Hl' & Hm' & Hn' & Hst').
  apply (inv_intro (dset mid (QUEUED, n) (table e)) (qrows e ++ [(mid, (QUEUED, n))])); simpl;
    rewrite ?F2, ?F4, ?F5, ?F6, ?F7, ?Hs; try done.
  - intros k [Hk | [= ->]%list_elem_of_singleton]%elem_of_app; [by apply Ho2 | eauto].
  - unfold qrows at 1. simpl. rewrite fmap_app, Hq2. fold (qrows e1). rewrite Eq. f_equal. simpl. unfold q_row. simpl.
    rewrite Hl'. unfold s_row. simpl. unfold o_row in Hrow. rewrite Hm', Hm, Hn', Hst' by (by intros []). by rewrite Hrow.
  - apply (acct_enqueue _ _ _ _ _ _ _ _ ltac:(by eapply (acct_admit _ _ (packet_ids (outbound e)))) mid (QUEUED, n) false);
      try done. apply dget_dset_eq.
  - apply (window_keep _ _ _ _ Hw). intros k Hk. assert (k ≠ mid) by (by intros ->).
    destruct (w_holders _ _ _ _ Hw k Hk) as (? & ? & st1 & n1 & ? & ?).
    rewrite dkeys_app', elem_of_app. split_and!; [by intros [? | ->%list_elem_of_singleton] | done |].
    exists st1, n1. by rewrite dget_dset_ne.
  - intros Hrel. eapply cover_admit; [by apply Hc | done | |]; intros; rewrite dkeys_app', elem_of_app; [by left |].
    right. by apply list_elem_of_singleton.
Qed.

(** ** Rolling an admission back *)

(** What a refused publication leaves: the rows, the counters, the queue, the
    window and the effects as they were; the identifier too, unless the store
    failed so that its row may exist, in which case it stays sealed. *)
Record rolled_back e e' : Prop := {
  rb_inv : Inv e';
  rb_table : table e' = table e;
  rb_flow : flow (outbound e') = flow (outbound e);
  rb_queue : _queued (outbound e') = _queued (outbound e);
  rb_parked : _parked (outbound e') = _parked (outbound e);
  rb_pending : _pending_messages (outbound e') = _pending_messages (outbound e) ∧
               _pending_bytes (outbound e') = _pending_bytes (outbound e);
  rb_effects : _effects e' = _effects e;
  rb_ids : (_sealed (outbound e') = _sealed (outbound e) ∧
            ∀ x, x ∈ used (packet_ids (outbound e')) ↔ x ∈ used (packet_ids (outbound e))) ∨
           ¬ reliable ∧ ∃ mid, mid ∉ used (packet_ids (outbound e)) ∧
             _sealed (outbound e') = _sealed (outbound e) ++ [(mid, true)] ∧
             ∀ x, x ∈ used (packet_ids (outbound e')) ↔ x ∈ used (packet_ids (outbound e)) ∨ x = mid }.

(** The free-identifier outcome. *)
Lemma rolled_back_free e e' ids' :
  Inv e → table_ok e' → table e' = table e → qrows e' = qrows e → objs_ok (heap e') (_queued (outbound e')) →
  books (outbound e') = books (set_packet_ids ids' (outbound e)) → pool_ok ids' →
  (∀ x, x ∈ used ids' ↔ x ∈ used (packet_ids (outbound e))) →
  _pending_sub_requests e' = _pending_sub_requests e → _effects e' = _effects e → rolled_back e e'.
Proof.
  intros [Hok Ho Ha Hw Hc] Hok' Ht Hq Ho' Hb Hp Hu Hs Hfx. apply books_inv in Hb as (E1 & E2 & E3 & E4 & E5 & E6 & E7).
  simpl in *. constructor; rewrite ?E1, ?E2, ?E3, ?E4, ?E5, ?E6, ?E7; try done; [| by left].
  apply (inv_intro (table e) (qrows e)); rewrite ?E1, ?E2, ?E3, ?E4, ?E5, ?E6, ?E7, ?Hs; try done; [by rewrite <- E3 |].
  eapply acct_subs; [done | done | apply Ha | apply Ha |]. intros x. rewrite Hu. apply Ha.
Qed.

(** The sealed outcome. *)
Lemma rolled_back_sealed e e' mid ids' :
  Inv e → ¬ reliable → mid ∉ used (packet_ids (outbound e)) →
  table_ok e' → table e' = table e → qrows e' = qrows e → objs_ok (heap e') (_queued (outbound e')) →
  books (outbound e') = books (set_packet_ids ids' (set_sealed (dset mid true (_sealed (outbound e))) (outbound e))) →
  pool_ok ids' → (∀ x, x ∈ used ids' ↔ x ∈ used (packet_ids (outbound e)) ∨ x = mid) →
  _pending_sub_requests e' = _pending_sub_requests e → _effects e' = _effects e → rolled_back e e'.
Proof.
  intros HI Hrel Hn Hok' Ht Hq Ho' Hb Hp Hu Hs Hfx. destruct (fresh_mid _ _ HI Hn) as (_ & Hns & _ & Hnh & _).
  destruct HI as [Hok Ho Ha Hw Hc].
  apply books_inv in Hb as (E1 & E2 & E3 & E4 & E5 & E6 & E7). simpl in *.
  constructor; rewrite ?E1, ?E2, ?E3, ?E4, ?E5, ?E6, ?E7; try done.
  - apply (inv_intro (table e) (qrows e)); rewrite ?E1, ?E2, ?E3, ?E4, ?E5, ?E6, ?E7, ?Hs; try done; [by rewrite <- E3 | |].
    + by eapply acct_seal_fresh.
    + apply (window_keep _ _ _ _ Hw). intros k Hk. destruct (w_holders _ _ _ _ Hw k Hk) as (? & ? & ?).
      rewrite dkeys_dset. split_and!; try done. intros [-> | ?]; done.
  - right. split; [done |]. exists mid. split_and!; try done. by apply dset_new.
Qed.

(** Deleting a row that was never written: the store agrees, or the identifier
    is sealed. *)
Lemma delete_failed_spec mid e :
  table_ok e → mid ∉ dkeys (table e) →
  wp (_delete_failed_admission mid) (λ free e', ∃ h' s', store_ok h' s' ∧ heap_frame untouched (heap e) h' ∧
      rows h' s' = table e ∧
      if free : bool then e' = set_heap_store (h', s') e
      else ¬ reliable ∧ e' = set_outbound (set_sealed (dset mid true (_sealed (outbound e))) (outbound e))
             (set_heap_store (h', s') e)) (λ _ _, False) e.
Proof.
  intros Hok Hn. unfold _delete_failed_admission. apply wp_try, wp_bind, wp_delete; [done | |].
  - intros h' s' Hs Hf Ht. apply wp_ret. exists h', s'. split_and!; try done. by rewrite Ht, ddel_none.
  - intros y h1 s1 Hs1 Hf1 Ht1 Hrel. set (e1 := set_heap_store (h1, s1) e).
    assert (∀ h2, heap_frame untouched h1 h2 → heap_frame untouched (heap e) h2) as Hff.
    { intros h2 Hf2. eapply heap_frame_weaken; [| eapply heap_frame_trans; [exact Hf1 | exact Hf2]]. by intros ? [[] | []]. }
    apply wp_bind, wp_try, wp_bind, wp_meta; [done | |]; change (table e1) with (rows h1 s1); rewrite Ht1.
    + intros o h2 s2 Hs2 Hf2 Ht2 Ho2. rewrite dget_fresh in Ho2 by done. destruct o; [done |].
      apply wp_ret, wp_ret. exists h2, s2. split_and!; auto.
    + intros x h2 s2 Hs2 Hf2 Ht2 _. apply wp_ret. cbn [negb]. apply wp_bind, wp_out, wp_ret.
      exists h2, s2. split_and!; auto.
Qed.

Lemma rollback_spec mid n e l e1 x :
  Inv e → admitting mid n e l e1 →
  wp (_rollback (_pending_messages (outbound e)) (_pending_bytes (outbound e)) [mid];; raise (A := option Z * QoS) x)
    (λ _ _, False) (λ _, rolled_back e) e1.
Proof.
  intros HI Had. destruct (admitting_flow _ _ _ _ _ HI Had) as [Ef Hnh].
  destruct (admitting_queue _ _ _ _ _ HI Had) as (Eq & Ho & EQ).
  pose proof (ad_books _ _ _ _ _ Had) as (_ & F2 & F3 & F4 & F5 & F6 & F7)%books_inv. simpl in *.
  pose proof (fresh_mid _ _ HI (ad_fresh _ _ _ _ _ Had)) as (Hnt & Hns & _).
  assert ((FlowControl.release (flow (outbound e1)) mid).2 = flow (outbound e)) as Erel.
  { unfold FlowControl.release, FlowControl.holds. rewrite bool_decide_false by done. by rewrite Ef. }
  destruct (release_spec (packet_ids (outbound e1)) mid (ad_pool _ _ _ _ _ Had)) as [Hpr Hur].
  assert (∀ y, y ∈ used (release (packet_ids (outbound e1)) mid) ↔ y ∈ used (packet_ids (outbound e))) as Hur'.
  { intros y. rewrite Hur, (ad_used _ _ _ _ _ Had). pose proof (ad_fresh _ _ _ _ _ Had). naive_solver. }
  unfold _rollback. cbn [for_each]. do 4 apply wp_bind. apply wp_out, wp_bind.
  set (e2 := set_outbound (set_flow (FlowControl.release (flow (outbound e1)) mid).2 (outbound e1)) e1).
  eapply wp_mono; [apply delete_failed_spec; [apply Had |] | | done].
  { change (table e2) with (table e1). by rewrite (ad_table _ _ _ _ _ Had). }
  change (table e2) with (table e1). rewrite (ad_table _ _ _ _ _ Had).
  intros free e3 (h' & s' & Hs' & Hf & Ht & He3).
  destruct (q_row_quiet _ _ _ Hf Ho) as [Hq Hoq]. change (q_row h' <$> _queued (outbound e1) = qrows e1) in Hq.
  rewrite Eq in Hq.
  destruct free; [subst e3 | destruct He3 as [Hrel ->]].
  - apply (rolled_back_free e _ (release (packet_ids (outbound e1)) mid)); try done; try apply Had.
    unfold books. simpl. by rewrite Erel, F3, F4, F5.
  - apply (rolled_back_sealed e _ mid (packet_ids (outbound e1))); try done; try apply Had.
    unfold books. simpl. by rewrite Erel, F3, F4, F5.
Qed.

(** ** Admission *)

(** What an admitted publication leaves: one more charged row under a fresh
    identifier, either launched, with a slot of the window and one frame sent,
    or the last entry of the queue. *)
Record admitted (level : QoS) (n : Z) e (handle : option Z * QoS) e' (mid : Z) : Prop := {
  am_handle : handle = (Some mid, level);
  am_range : 1 ≤ mid ≤ 65535;
  am_fresh : mid ∉ used (packet_ids (outbound e));
  am_inv : Inv e';
  am_pending : _pending_messages (outbound e') = _pending_messages (outbound e) + 1 ∧
               _pending_bytes (outbound e') = _pending_bytes (outbound e) + n;
  am_used : ∀ x, x ∈ used (packet_ids (outbound e')) ↔ x ∈ used (packet_ids (outbound e)) ∨ x = mid;
  am_sealed : _sealed (outbound e') = _sealed (outbound e);
  am_row :
    (∃ st w, st ≠ QUEUED ∧ table e' = dset mid (st, n) (table e) ∧ _queued (outbound e') = _queued (outbound e) ∧
       flow (outbound e') = acquired (flow (outbound e)) mid ∧ _effects e' = _effects e ++ [Effect.SEND w] ∧
       0 < FlowControl.available (flow (outbound e)) ∧ state e = CONNECTED) ∨
    (∃ x, table e' = dset mid (QUEUED, n) (table e) ∧ _queued (outbound e') = _queued (outbound e) ++ [x] ∧
       q_row (heap e') x = (mid, (QUEUED, n)) ∧ flow (outbound e') = flow (outbound e) ∧
       _effects e' = _effects e ∧ (state e = CONNECTED → FlowControl.available (flow (outbound e)) ≤ 0)) }.

(** The object of an admission, as built. *)
Lemma wp_new_message {A} m (k : loc → M S A) Q R mid n e e1 :
  Inv e → sane m → o_mid m = mid → o_logical_size m = n → mid ∉ used (packet_ids (outbound e)) →
  heap e1 = heap e → store e1 = store e → pool_ok (packet_ids (outbound e1)) →
  (∀ x, x ∈ used (packet_ids (outbound e1)) ↔ x ∈ used (packet_ids (outbound e)) ∨ x = mid) →
  books (outbound e1) = books (set_packet_ids (packet_ids (outbound e1))
    (set_pending (_pending_messages (outbound e) + 1) (_pending_bytes (outbound e) + n) (outbound e))) →
  _pending_sub_requests e1 = _pending_sub_requests e → _effects e1 = _effects e →
  (∀ l e2, admitting mid n e l e2 → state e2 = state e1 → oh (heap e2) !! l = Some m → wp (k l) Q R e2) →
  wp (l ← new_message m; k l) Q R e1.
Proof.
  intros HI Hsane Hm Hn Hfr Hh Hs Hp Hu Hb Hsub Hfx Hk. unfold new_message.
  apply wp_bind, wp_bind, wp_gets, wp_bind, wp_modify, wp_ret, Hk; [| done |].
  - destruct (alloc_law (heap e) (store e) m (i_ok _ HI) Hsane) as [Hok Ht].
    constructor; unfold table_ok, table; simpl; rewrite ?Hh, ?Hs; try done.
    + eapply heap_frame_weaken; [| apply heap_frame_alloc]. by intros ? [].
    + exists m. split_and!; try done. apply list_lookup_middle. done.
  - simpl. by apply list_lookup_middle.
Qed.

(** The commit: launch, or store and queue. *)
Lemma publish_commit_spec mid n m e l e1 level pb tb wt (c : bool) :
  Inv e → admitting mid n e l e1 → oh (heap e1) !! l = Some m → o_mid m = mid → o_row m = (QUEUED, n) →
  1 ≤ mid ≤ 65535 → c = connected e →
  wp (launched ← (if c then _try_launch config l pb tb wt else mret false);
      if launched : bool then mret (Some mid, level)
      else call (put_out l);; out_modify (λ o, set_queued (_queued o ++ [QObj l]) o);; mret (Some mid, level))
    (λ handle e', admitted level n e handle e' mid) (λ _ e', admitting mid n e l e') e1.
Proof.
  intros HI Had Hl Hm Hrow Hrange Hc. pose proof (ad_books _ _ _ _ _ Had) as (_ & F2 & F3 & F4 & F5 & F6 & F7)%books_inv.
  simpl in *. apply (wp_then _ _ (λ b e2, if b : bool then
       (c = true ∧ 0 < n ∧ 0 < FlowControl.available (flow (outbound e)) ∧ ∃ w, _effects e2 = _effects e ++ [Effect.SEND w]) ∧
       ∃ st, st ≠ QUEUED ∧ moved (eq mid) (dset mid (st, n) (table e))
         (set_outbound (set_flow (acquired (flow (outbound e)) mid) (outbound e1)) e1) e2
     else e2 = e1 ∧ (c = true → FlowControl.available (flow (outbound e)) ≤ 0)) (λ _ e2, admitting mid n e l e2)); [| | done].
  { destruct c; [| by apply wp_ret]. eapply wp_mono; [by apply try_launch_spec | | done].
    intros [] e2; [intros ((? & ? & ?) & ?) | intros [? ?]]; by split_and!. }
  unfold connected in Hc. intros [] e2 He2.
  - destruct He2 as ((Hct & Hn & Hav & w & Hfx) & st & Hst & Hmv). apply wp_ret.
    pose proof (mv_books _ _ _ _ Hmv) as (E1 & E2 & E3 & E4 & E5 & E6 & E7)%books_inv. simpl in *.
    rewrite Hct in Hc. symmetry in Hc. apply bool_decide_eq_true in Hc.
    constructor; rewrite ?E1, ?E2, ?E3, ?E4, ?E5, ?E6, ?E7; try done; try apply Had.
    + by eapply launched_inv.
    + left. exists st, w. split_and!; try done. apply Hmv.
  - destruct He2 as [-> Hav]. apply wp_bind. eapply wp_put; [apply Had | exact Hl | |].
    + intros h' s' Hs Hf Hn Ht. apply wp_bind, wp_out, wp_ret. injection Hrow as Hst Hsz.
      rewrite Hm, (ad_table _ _ _ _ _ Had) in Ht. unfold o_row in Ht. rewrite Hst, Hsz in Ht.
      destruct (Hf _ _ Hl) as (m' & Hl' & Hm' & Hn' & Hst'). constructor; simpl; try done; try apply Had.
      * apply (queued_inv mid n m e l e1 h' s'); try done; [by unfold o_row; rewrite Hst, Hsz | by rewrite <- Hsz].
      * right. exists (QObj l). rewrite F3. split_and!; try done; try apply Had.
        -- unfold q_row. simpl. rewrite Hl'. unfold s_row. simpl. rewrite Hst' by (by intros []). congruence.
        -- intros Hcon. apply Hav. rewrite Hc. by apply bool_decide_eq_true.
    + intros x h' s' Hs Hf _ Ht. apply (admitting_moved _ _ _ _ e1); [done | | done].
      eapply moved_trans; [by apply quiet_refl, Had | by apply moved_after |]. by intros k [[] | []].
Qed.

(** The admission limits: a message count, and bytes that a first publication
    alone may exceed. *)
Definition within_limits n (o : OutboundSession) : Prop :=
  (∀ k, max_unacknowledged_messages config = Some k → _pending_messages o + 1 ≤ k) ∧
  (∀ k, max_unacknowledged_bytes config = Some k → _pending_bytes o + n ≤ k ∨ _pending_bytes o = 0).

Lemma wp_reserve n (Q : unit → Engine S → Prop) (R : exn → Engine S → Prop) e :
  (within_limits n (outbound e) →
     Q tt (set_outbound (set_pending (_pending_messages (outbound e) + 1) (_pending_bytes (outbound e) + n) (outbound e)) e)) →
  (¬ within_limits n (outbound e) → R FlowControlError e) → wp (_reserve config n) Q R e.
Proof.
  intros HQ HR. unfold _reserve, within_limits in *. apply wp_bind, wp_gets. apply wp_if; intros H1.
  { apply wp_raise, HR. intros [Hm _]. destruct (max_unacknowledged_messages config) as [k |]; [| done].
    specialize (Hm k eq_refl). bools. lia. }
  apply wp_if; intros H2.
  { apply wp_raise, HR. intros [_ Hb]. destruct (max_unacknowledged_bytes config) as [k |]; [| done].
    specialize (Hb k eq_refl). apply andb_true_iff in H2 as [H2 H3]. bools. lia. }
  apply wp_out, HQ. split; intros k Hk; rewrite Hk in *; [bools; lia |].
  apply andb_false_iff in H2 as [H2 | H2]; bools; auto; lia.
Qed.

Lemma rolled_back_refl e : Inv e → rolled_back e e.
Proof. intros HI. constructor; try done. by left. Qed.

Lemma admit_spec topic payload retain properties prepared e :
  Inv e → alias_ok properties →
  wp (admit_publish config pop topic payload retain properties prepared)
    (λ handle e', within_limits (pp_logical_size prepared) (outbound e) ∧
       ∃ mid, admitted (pp_qos prepared) (pp_logical_size prepared) e handle e' mid)
    (λ _, rolled_back e) e.
Proof using Hpop.
  intros HI Hal. unfold admit_publish. apply wp_bind, wp_gets, wp_bind, wp_reserve; [| intros _; by apply rolled_back_refl].
  intros Hlim. apply wp_bind, wp_try, wp_allocate; simpl; [apply HI | |].
  - intros mid p' Hp' Hr Hfr Hu. apply wp_try. eapply (wp_new_message _ _ _ _ mid (pp_logical_size prepared) e); try done.
    intros l e2 Had Hst Hl. apply wp_bind, wp_gets.
    eapply wp_mono; [eapply (publish_commit_spec mid (pp_logical_size prepared) _ e l e2); try done | |]; simpl.
    + unfold connected. by rewrite Hst.
    + intros handle e3 Ha. eauto.
    + intros x e3 Had3. eapply wp_mono; [by apply (rollback_spec mid (pp_logical_size prepared) e l) | done | done].
  - intros p' Hp' Hu. unfold _rollback. cbn [for_each]. apply wp_bind, wp_bind, wp_ret, wp_out, wp_raise.
    by apply (rolled_back_free e _ p'); try done; apply HI.
Qed.

(** A QoS 0 publication touches nothing but the effects and the aliases. *)
Lemma alias_read_ok properties :
  (∀ ps, properties = Some ps → NoDup (dkeys ps)) → alias_read properties → alias_ok properties.
Proof.
  intros Hn Ha ps v -> Hin. apply (dget_elem_NoDup _ _ _ (Hn ps eq_refl)) in Hin. unfold alias_read, pget in Ha.
  rewrite Hin in Ha. destruct v; [by left | right; apply Ha; done..].
Qed.

(** [queue_publish]: QoS 0 sends and completes, QoS 1 and 2 are admitted; an
    exception leaves no trace. *)
Lemma queue_publish_spec topic payload qos retain properties prepared e :
  Inv e → (∀ ps, properties = Some ps → NoDup (dkeys ps)) → (is_Some prepared → alias_read properties) →
  wp (queue_publish config pop topic payload qos retain properties prepared)
    (λ handle e',
       (∃ w, handle = (None, AT_MOST_ONCE) ∧ Inv e' ∧ table e' = table e ∧
          books (outbound e') = books (outbound e) ∧
          _effects e' = _effects e ++ [Effect.SEND w; Effect.PUBLISH_COMPLETE None]) ∨
       ∃ mid level n, within_limits n (outbound e) ∧ admitted level n e handle e' mid)
    (λ _, rolled_back e) e.
Proof using Hpop.
  intros HI Hn Hp. unfold queue_publish. pose proof (i_ok _ HI) as Hok.
  apply (wp_then _ _ (λ step e', match step with
     | Completed handle => ∃ w, handle = (None, AT_MOST_ONCE) ∧ quiet e e' ∧
         _effects e' = _effects e ++ [Effect.SEND w; Effect.PUBLISH_COMPLETE None]
     | Admit p => e' = e ∧ alias_read properties
     end) (λ _ e', e' = e)); [| | intros x ? ->; by apply rolled_back_refl].
  - destruct prepared as [p |]; [apply wp_ret; eauto |]. apply wp_bind, wp_gets. apply wp_if; intros _; [done |].
    apply wp_lift_bind; [| done]. intros level _. apply wp_if; intros Hlevel.
    + eapply wp_then; [apply prepare_qos0_spec | | done]. intros item ? [-> Ha]. apply wp_bind.
      eapply wp_mono; [by apply quiet_emit | | done]. intros [] e1 [Hq1 Hfx1]. 
      apply (wp_then _ _ (λ _ e2, quiet e1 e2 ∧ _effects e2 = _effects e1) (λ _ _, False)); [| | done].
      { apply wp_only_if; [| intros _; split; [by apply quiet_refl, Hq1 | done]]. intros _. by apply quiet_commit; [apply Hq1 |]. }
      intros [] e2 [Hq2 Hfx2]. apply wp_bind. eapply wp_mono; [apply quiet_emit, Hq2 | | done].
      intros [] e3 [Hq3 Hfx3]. apply wp_ret. exists item. split_and!.
      * by destruct level.
      * eauto using quiet_trans.
      * rewrite Hfx3, Hfx2, Hfx1, <- app_assoc. done.
    + eapply wp_then; [apply prepare_spec | | done]. intros p ? [-> Ha]. by apply wp_ret.
  - intros [handle | p] e1 Hstep.
    + destruct Hstep as (w & -> & Hq & Hfx). apply wp_ret. left. exists w. split_and!; try done; try apply Hq.
      by eapply inv_quiet.
    + destruct Hstep as [-> Ha]. eapply wp_mono; [apply admit_spec; [done | by apply alias_read_ok] | | done].
      intros handle e' [Hl [mid Hm]]. right. eauto.
Qed.
End publish.
