(* ===== verification/OutboundReplay.v ===== *)
(** * Sealing, restart and reconnection

    [seal], [hydrate], [check_session_replayable] and [replay_session] keep the
    books. *)

From S2P Require Import Prelude Vbi PyStr Primitives Enums Properties Topics Frame Ack Publish Handshake.
From S2P Require Import Subscription Types Buffer PacketIds Settings Store EngineState Outbound Wp Accounting OutboundInv OutboundAcks OutboundPublish.

Section sessions.
Context {S : Type} `{OutStoreLaws S} (config : EngineConfig).
Implicit Types (e : Engine S).

Abbreviation quiet e := (moved untouched (table e) e).

(** The books with the queue and the parked set still to be assigned. *)
Record InvQ e (qs : list qitem) (parked : gset Z) : Prop := {
  q_ok : table_ok e;
  q_objs : objs_ok (heap e) qs;
  q_acct : Acct (table e) (q_row (heap e) <$> qs) (packet_ids (outbound e)) parked (_sealed (outbound e))
    (_pending_messages (outbound e)) (_pending_bytes (outbound e)) (dkeys (_pending_sub_requests e));
  q_window : Window (table e) (q_row (heap e) <$> qs) (_sealed (outbound e)) (flow (outbound e));
  q_cover : reliable → Cover (table e) (q_row (heap e) <$> qs) (_sealed (outbound e)) }.

Lemma inv_invq e : Inv e → InvQ e (_queued (outbound e)) (_parked (outbound e)).
Proof. by intros []. Qed.

Lemma invq_inv e e' qs parked :
  InvQ e qs parked → heap e' = heap e → store e' = store e → _pending_sub_requests e' = _pending_sub_requests e →
  books (outbound e') = books (set_parked parked (set_queued qs (outbound e))) → Inv e'.
Proof.
  intros [Hok Ho Ha Hw Hc] Hh Hs Hsub (E1 & E2 & E3 & E4 & E5 & E6 & E7)%books_inv. simpl in *.
  assert (qrows e' = q_row (heap e) <$> qs) as Eq by (unfold qrows; by rewrite E3, Hh).
  assert (table e' = table e) as Et by (unfold table; by rewrite Hh, Hs).
  constructor; unfold table_ok; rewrite ?Eq, ?Et, ?Hh, ?Hs, ?E1, ?E2, ?E3, ?E4, ?E5, ?E6, ?E7, ?Hsub; done.
Qed.

(** ** Sealing *)

Definition unsealed (h : Heap) (newly : gset Z) (qs : list qitem) : list qitem :=
  filter (λ q, s_mid (q_summary h q) ∉ newly) qs.

Lemma unsealed_rows h (newly : gset Z) qs :
  q_row h <$> unsealed h newly qs = filter (λ r, r.1 ∉ newly) (q_row h <$> qs).
Proof.
  unfold unsealed. induction qs as [| x qs IH]; [done |]. rewrite fmap_cons, !filter_cons.
  change (q_row h x).1 with (s_mid (q_summary h x)). case_decide; [by rewrite fmap_cons, IH | done].
Qed.

Lemma unsealed_none h qs : unsealed h ∅ qs = qs.
Proof.
  unfold unsealed. induction qs as [| x qs IH]; [done |]. rewrite filter_cons, IH, decide_True by set_solver. done.
Qed.

Lemma filter_absent (q : rowtable) (newly : gset Z) mid :
  mid ∉ dkeys q → filter (λ r, r.1 ∉ newly ∪ {[mid]}) q = filter (λ r, r.1 ∉ newly) q.
Proof.
  unfold dkeys. induction q as [| [k r] q IH]; [done |]. rewrite fmap_cons, not_elem_of_cons. intros [Hk Hq].
  rewrite !filter_cons, IH by done. simpl in *.
  destruct (decide (k ∉ newly)); [rewrite (decide_True (P := k ∉ newly ∪ {[mid]})) by set_solver; done |].
  by rewrite (decide_False (P := k ∉ newly ∪ {[mid]})) by set_solver.
Qed.

Lemma filter_seal (q : rowtable) (newly : gset Z) mid :
  NoDup (dkeys q) → ddel mid (filter (λ r, r.1 ∉ newly) q) = filter (λ r, r.1 ∉ newly ∪ {[mid]}) q.
Proof.
  induction q as [| [k r] q IH]; [done |]. unfold dkeys. rewrite fmap_cons, NoDup_cons. intros [Hk Hn].
  destruct (decide (k = mid)) as [-> | Hne]; rewrite !filter_cons; simpl in *.
  - rewrite (decide_False (P := mid ∉ newly ∪ {[mid]})) by set_solver. rewrite filter_absent by done.
    case_decide; [simpl; by rewrite decide_True |]. apply ddel_none. intros Hin. apply Hk.
    eapply elem_of_sublist; [exact Hin |]. apply fmap_sublist, sublist_filter.
  - destruct (decide (k ∉ newly)).
    + rewrite (decide_True (P := k ∉ newly ∪ {[mid]})) by set_solver. simpl. rewrite decide_False by done. by rewrite IH.
    + rewrite (decide_False (P := k ∉ newly ∪ {[mid]})) by set_solver. by rewrite IH.
Qed.

(** The loop of [seal]: the rows sealed so far have left the counters and the
    window, and will leave the queue. *)
Record sealing newly e : Prop := {
  sl_inv : InvQ e (unsealed (heap e) newly (_queued (outbound e))) (_parked (outbound e) ∖ newly);
  sl_objs : objs_ok (heap e) (_queued (outbound e));
  sl_nodup : NoDup (dkeys (qrows e));
  sl_parked : ∀ mid, mid ∈ _parked (outbound e) → mid ∈ dkeys (qrows e) }.

Lemma sealing_after newly e h' s' :
  sealing newly e → store_ok h' s' → heap_frame untouched (heap e) h' → rows h' s' = table e →
  sealing newly (set_heap_store (h', s') e).
Proof.
  intros [[Hok Ho Ha Hw Hc] Hobjs Hn Hp] Hs Hf Ht. set (e' := set_heap_store (h', s') e).
  destruct (q_row_quiet _ _ _ Hf Hobjs) as [Hq Ho'].
  assert (q_row h' <$> unsealed h' newly (_queued (outbound e)) =
          q_row (heap e) <$> unsealed (heap e) newly (_queued (outbound e))) as Eq.
  { rewrite !unsealed_rows. unfold qrows in Hq. by rewrite Hq. }
  assert (qrows e' = qrows e) as Eqr by done.
  constructor; [constructor; simpl; rewrite ?Eq; try done | done | by rewrite Eqr | by rewrite Eqr].
  - intros l Hl. apply Ho'. by apply list_elem_of_filter in Hl as [_ ?].
  - unfold table. simpl. by rewrite Ht.
  - unfold table. simpl. by rewrite Ht.
  - unfold table. simpl. by rewrite Ht.
Qed.

Lemma seal_one_spec mid newly e :
  sealing newly e → wp (seal_one mid newly) (λ newly' e', sealing newly' e') (λ _ _, ¬ reliable) e.
Proof.
  intros Hsl. unfold seal_one. apply wp_bind, wp_gets. apply wp_if; intros Hse; [by apply wp_ret |].
  apply dmem_false in Hse. pose proof (q_ok _ _ _ (sl_inv _ _ Hsl)) as Hok.
  apply wp_bind, wp_meta; [done | | done]. intros [meta |] h' s' Hs Hf Ht Hm.
  2:{ apply wp_ret. by apply sealing_after. }
  pose proof (sealing_after _ _ _ _ Hsl Hs Hf Ht) as Hsl'. set (e1 := set_heap_store (h', s') e) in *.
  assert (dget mid (table e1) = Some (om_state meta, om_logical_size meta)) as Hg.
  { unfold table. simpl. rewrite Ht. by rewrite <- Hm. }
  clear Hsl Hok Hs Hf Ht Hm. destruct Hsl' as [[Hok Ho Ha Hw Hc] Hobjs Hn Hp].
  destruct (acct_charged _ _ _ _ _ _ _ _ Ha _ _ _ Hg Hse) as [Hpm Hpb].
  apply wp_bind, wp_out, wp_bind, wp_release_reservation; [done | done |]. apply wp_bind, wp_out, wp_ret.
  assert (q_row h' <$> unsealed h' (newly ∪ {[mid]}) (_queued (outbound e)) =
          ddel mid (q_row h' <$> unsealed h' newly (_queued (outbound e)))) as Eq.
  { rewrite !unsealed_rows. symmetry. by apply filter_seal. }
  constructor; [constructor; simpl in *; rewrite ?Eq; try done | done | done | done].
  - intros l Hl. apply Hobjs. by apply list_elem_of_filter in Hl as [_ ?].
  - replace (_parked (outbound e) ∖ (newly ∪ {[mid]})) with ((_parked (outbound e) ∖ newly) ∖ {[mid]}) by set_solver.
    by eapply acct_seal.
  - apply (window_release _ _ _ _ Hw). intros k Hne Hk. destruct (w_holders _ _ _ _ Hw k Hk) as (Hkq & ? & ?).
    rewrite dkeys_ddel by apply Ha. rewrite dkeys_dset. split_and!; [tauto | tauto | done].
  - intros Hrel. by eapply cover_seal; [apply Hc | apply Ha | exact Hg].
Qed.

Lemma seal_spec mids e :
  Inv e → wp (seal mids) (λ _, Inv) (λ _ _, ¬ reliable) e.
Proof.
  intros HI. unfold seal.
  apply (wp_then _ _ (λ newly e', sealing newly e') (λ _ _, ¬ reliable)); [| | done].
  - apply (wp_for_fold (λ _ newly e', sealing newly e')); [intros mid l newly e' Hs; by apply seal_one_spec |].
    constructor; try apply HI. rewrite unsealed_none. replace (_parked (outbound e) ∖ ∅) with (_parked (outbound e)) by set_solver.
    by apply inv_invq.
  - intros newly e1 [HQ Ho Hn Hp]. apply wp_modify. cbv zeta. apply (invq_inv e1 _ _ _ HQ); try by case_match.
    destruct (bool_decide (newly = ∅) || bool_decide (_queued (outbound e1) = [])) eqn:E; [| done].
    unfold books. simpl.
    assert (_queued (outbound e1) = unsealed (heap e1) newly (_queued (outbound e1)) ∧
            _parked (outbound e1) = _parked (outbound e1) ∖ newly) as [<- <-]; [| done].
    apply orb_true_iff in E as [E | E]; apply bool_decide_eq_true in E.
    + subst newly. split; [by rewrite unsealed_none | set_solver].
    + rewrite E. split; [done |]. unfold qrows in Hp. rewrite E in Hp. apply set_eq. intros k. split; [| set_solver].
      intros Hk%Hp. by apply not_elem_of_nil in Hk.
Qed.

(** ** Restart *)

(** The loop of [hydrate]: the books of the rows read so far. *)
Record hydrating (l : rowtable) e : Prop := {
  hy_ok : table_ok e;
  hy_subs : _pending_sub_requests e = [];
  hy_parked : _parked (outbound e) = ∅;
  hy_sealed : _sealed (outbound e) = [];
  hy_entries : ∀ q, q ∈ _queued (outbound e) → ∃ s, q = QSummary s;
  hy_done : ∃ d, table e = d ++ l ∧
    Acct d (qrows e) (packet_ids (outbound e)) ∅ [] (_pending_messages (outbound e)) (_pending_bytes (outbound e)) [] ∧
    Window d (qrows e) [] (flow (outbound e)) ∧ Cover d (qrows e) [] ∧
    qrows e = filter (λ x, x.2.1 = QUEUED) d }.

Lemma nodup_front (d l : rowtable) x : NoDup (dkeys (d ++ x :: l)) → x.1 ∉ dkeys d.
Proof.
  rewrite dkeys_app'. intros (_ & Hd & _)%NoDup_app Hin. apply (Hd _ Hin). left.
Qed.

Lemma summaries_stable h h' (qs : list qitem) :
  (∀ q, q ∈ qs → ∃ s, q = QSummary s) → q_row h' <$> qs = q_row h <$> qs.
Proof.
  intros Hq. apply list_fmap_ext. intros i x Hx%list_elem_of_lookup_2. by destruct (Hq x Hx) as [s ->].
Qed.

Lemma hydrating_after l e h' s' :
  hydrating l e → store_ok h' s' → rows h' s' = table e → hydrating l (set_heap_store (h', s') e).
Proof.
  intros [] Hs Ht. assert (qrows (set_heap_store (h', s') e) = qrows e) as Hq by (by apply summaries_stable).
  constructor; try done. rewrite Hq. unfold table at 1. simpl. by rewrite Ht.
Qed.

(** A row joins the books; [f] is the window and [qs] the queue it leaves. *)
Lemma hydrated_one msg l e e' d ids' :
  hydrating (s_row msg :: l) e → table e = d ++ s_row msg :: l →
  Acct d (qrows e) (packet_ids (outbound e)) ∅ [] (_pending_messages (outbound e)) (_pending_bytes (outbound e)) [] →
  Cover d (qrows e) [] → qrows e = filter (λ x, x.2.1 = QUEUED) d →
  pool_ok ids' → (∀ x, x ∈ used ids' ↔ x ∈ used (packet_ids (outbound e)) ∨ x = s_mid msg) →
  heap e' = heap e → store e' = store e → _pending_sub_requests e' = _pending_sub_requests e →
  books (outbound e') = (ids', flow (outbound e'), if decide (s_state msg = QUEUED) then _queued (outbound e) ++ [QSummary msg] else _queued (outbound e),
    _parked (outbound e), _sealed (outbound e), _pending_messages (outbound e) + 1, _pending_bytes (outbound e) + s_logical_size msg) →
  Window (d ++ [s_row msg]) (qrows e') [] (flow (outbound e')) → hydrating l e'.
Proof.
  intros Hhy Ht Ha Hc Hf Hp Hu Hh Hs Hsub Hb HW. unfold books in Hb. simplify_eq. set (mid := s_mid msg) in *.
  assert (mid ∉ dkeys d) as Hnd.
  { apply (nodup_front _ l (s_row msg)). rewrite <- Ht. apply rows_NoDup, Hhy. }
  assert (dset mid (s_state msg, s_logical_size msg) d = d ++ [s_row msg]) as Ed by (by rewrite dset_new).
  assert (0 < s_logical_size msg) as Hn.
  { eapply (rows_size (heap e) (store e) mid (s_state msg)); [apply Hhy |]. change (rows _ _) with (table e).
    rewrite Ht, dget_app. rewrite dget_fresh by done. simpl. by rewrite decide_True. }
  assert (mid ∉ used (packet_ids (outbound e))) as Hnu.
  { rewrite (a_ids _ _ _ _ _ _ _ _ Ha). by intros [? | [?%not_elem_of_nil | ?%not_elem_of_nil]]. }
  pose proof (acct_admit _ _ _ _ _ _ _ _ Ha mid (s_state msg) (s_logical_size msg) (packet_ids (outbound e')) Hp Hnu Hu Hn) as Ha'.
  rewrite Ed in Ha'.
  assert (table e' = d ++ s_row msg :: l) as Ht' by (unfold table; rewrite Hh, Hs; exact Ht).
  assert (mid ∉ dkeys (qrows e)) as Hnq by (intros ?%(acct_entry_id _ _ _ _ _ _ _ _ Ha); done).
  assert (qrows e' = qrows e ++ (if decide (s_state msg = QUEUED) then [s_row msg] else [])) as Eq.
  { unfold qrows. rewrite Hh. match goal with E : _queued (outbound e') = _ |- _ => rewrite E end.
    case_decide; [by rewrite fmap_app | by rewrite app_nil_r]. }
  constructor.
  - unfold table_ok. rewrite Hh, Hs. apply Hhy.
  - rewrite Hsub. apply Hhy.
  - match goal with E : _parked _ = _ |- _ => rewrite E end. apply Hhy.
  - match goal with E : _sealed _ = _ |- _ => rewrite E end. apply Hhy.
  - match goal with E : _queued (outbound e') = _ |- _ => rewrite E end. intros q Hq. case_decide.
    + apply elem_of_app in Hq as [Hq | ->%list_elem_of_singleton]; [by apply Hhy | eauto].
    + by apply Hhy.
  - exists (d ++ [s_row msg]). rewrite <- app_assoc. split_and!; [done | | done | |]; rewrite Eq in *.
    + match goal with E : _pending_messages (outbound e') = _ |- _ => rewrite E end.
      match goal with E : _pending_bytes (outbound e') = _ |- _ => rewrite E end.
      case_decide as Hq; [| by rewrite app_nil_r].
      apply (acct_enqueue _ _ _ _ _ _ _ _ Ha' mid (s_state msg, s_logical_size msg) false); try done; [by apply not_elem_of_nil |].
      rewrite <- Ed. apply dget_dset_eq.
    + rewrite <- Ed. eapply cover_admit; [exact Hc | done | |].
      * intros m Hm. rewrite dkeys_app', elem_of_app. by left.
      * intros Hq. rewrite dkeys_app', elem_of_app. right. rewrite decide_True by done. by apply list_elem_of_singleton.
    + rewrite filter_app, <- Hf. by f_equal.
Qed.

(** The state [hydrate] starts from. *)
Definition restarted e : Prop :=
  table_ok e ∧ (∀ mid, mid ∈ dkeys (table e) → 1 ≤ mid ≤ 65535) ∧ outbound e = OutboundSession_init config ∧
  _pending_sub_requests e = [].

Lemma restarted_hydrating e : restarted e → hydrating (table e) e.
Proof.
  intros (Hok & _ & Ho & Hsub). assert (qrows e = []) as Hq by (unfold qrows; by rewrite Ho).
  constructor; rewrite ?Ho; try done; [by intros q ?%not_elem_of_nil |]. exists []. rewrite Hq. split_and!; try done.
  - constructor; try done; try (by apply NoDup_nil_2); try apply pool_init_ok.
    + intros mid ?%not_elem_of_nil. done.
    + intros mid. simpl. rewrite (proj2 pool_init_ok). set_solver.
  - constructor; simpl; [| set_solver].
    change (FlowControl.inflight (FlowControl.mkFlow 0 ∅) ≤ Z.max 1 (max_inbound_inflight config)).
    assert (FlowControl.inflight (FlowControl.mkFlow 0 ∅) = 0) as -> by (by vm_compute). lia.
Qed.

Lemma hydrate_message_spec msg l e :
  hydrating (s_row msg :: l) e → 1 ≤ s_mid msg ≤ 65535 →
  wp (_hydrate_message msg) (λ _ e', hydrating l e' ∧ table e' = table e) (λ _ _, False) e.
Proof.
  intros Hhy Hr. pose proof (hy_done _ _ Hhy) as (d & Ht & Ha & HW & Hc & Hf).
  assert (NoDup (dkeys (d ++ s_row msg :: l))) as Hnd by (rewrite <- Ht; apply rows_NoDup, Hhy).
  pose proof (nodup_front _ _ _ Hnd) as Hfront. simpl in Hfront.
  assert (s_mid msg ∉ FlowControl._holders (flow (outbound e))) as Hnh.
  { intros (_ & _ & st & n & Hg & _)%(w_holders _ _ _ _ HW). apply Hfront. by eapply dget_Some_key. }
  assert (0 < s_logical_size msg) as Hn.
  { eapply (rows_size (heap e) (store e) (s_mid msg) (s_state msg)); [apply Hhy |]. change (rows _ _) with (table e).
    rewrite Ht, dget_app. rewrite dget_fresh by done. simpl. by rewrite decide_True. }
  unfold _hydrate_message. apply wp_bind, wp_gets, wp_bind.
  destruct (reserve_spec _ _ (a_pool _ _ _ _ _ _ _ _ Ha) Hr) as (p' & Hp & Hp' & Hu). rewrite Hp.
  unfold wp at 1, lift. apply wp_bind, wp_out, wp_bind. unfold stored_logical_size.
  rewrite (proj2 (Z.leb_gt _ _)) by done. unfold wp at 1, lift. apply wp_bind, wp_out.
  assert (Hother : ∀ q' f', q' = qrows e ∨ q' = qrows e ++ [s_row msg] ∧ s_state msg = QUEUED →
    FlowControl._limit f' = FlowControl._limit (flow (outbound e)) →
    (FlowControl._holders f' = FlowControl._holders (flow (outbound e)) ∨
     s_state msg ≠ QUEUED ∧ f' = acquired (flow (outbound e)) (s_mid msg) ∧
     0 < FlowControl.available (flow (outbound e)) ∧ q' = qrows e) →
    Window (d ++ [s_row msg]) q' [] f').
  { intros q' f' Hq Hlim Hh. assert (∀ m st n, dget m d = Some (st, n) → dget m (d ++ [s_row msg]) = Some (st, n)) as Hd.
    { intros m st n Hg. by rewrite dget_app, Hg. }
    assert (∀ m, m ∈ FlowControl._holders (flow (outbound e)) → m ∉ dkeys q' ∧ m ∉ dkeys (V := bool) [] ∧
      ∃ st n, dget m (d ++ [s_row msg]) = Some (st, n) ∧ st ≠ QUEUED) as Hold.
    { intros m Hm. assert (m ≠ s_mid msg) by (by intros ->). destruct (w_holders _ _ _ _ HW m Hm) as (Hmq & ? & st & n & ? & ?).
      split_and!; [| by intros ?%not_elem_of_nil | exists st, n; auto]. destruct Hq as [-> | [-> _]]; [done |].
      rewrite dkeys_app', elem_of_app. by intros [? | ->%list_elem_of_singleton]. }
    destruct Hh as [Hh | (Hst & -> & Hav & Hq')].
    - constructor; [| by rewrite Hh]. unfold FlowControl.inflight. rewrite Hh, Hlim. apply (w_bound _ _ _ _ HW).
    - apply (window_acquire _ _ _ _ HW); [done | done |]. intros m [-> | Hm]; [| by apply Hold].
      split_and!; [| by intros ?%not_elem_of_nil | exists (s_state msg), (s_logical_size msg); split; [| done]].
      + rewrite Hq'. intros ?%(acct_entry_id _ _ _ _ _ _ _ _ Ha). 
        apply (a_ids _ _ _ _ _ _ _ _ Ha) in H1 as [? | [?%not_elem_of_nil | ?%not_elem_of_nil]]; done.
      + rewrite dget_app, dget_fresh by done. simpl. by rewrite decide_True. }
  destruct (s_state msg) eqn:Hst; try (apply wp_bind, wp_acquire; [done | |]; intros Hav);
    first [apply wp_out | apply wp_ret]; cbn beta; (split; [| done]); apply (hydrated_one msg l e _ d p'); try done;
    unfold books; simpl; rewrite ?Hst; try done; apply Hother; auto.
  right. split; [| done]. unfold qrows. simpl. by rewrite fmap_app.
Qed.

(** Hydration rebuilds the books from the stored rows: every row charged, its
    identifier in use, and exactly the never-sent ones queued, in order. *)
Lemma hydrate_spec e :
  restarted e →
  wp (hydrate) (λ _ e', Inv e' ∧ Cover (table e') (qrows e') (_sealed (outbound e')) ∧
      qrows e' = filter (λ x, x.2.1 = QUEUED) (table e') ∧ table e' = table e) (λ _ _, ¬ reliable) e.
Proof.
  intros Hre. pose proof Hre as (_ & Hrange & _). unfold hydrate.
  pose (I := λ l (_ : unit) e', hydrating l e' ∧ table e' = table e).
  eapply wp_mono; [apply (wp_for_pages I (λ _ _, ¬ reliable)) | | done].
  - intros l [] e' [Hhy Ht]. split; [apply Hhy |]. intros [mid r] Hx. destruct (hy_done _ _ Hhy) as (d & Hd & _).
    apply dget_elem_NoDup; [apply rows_NoDup, Hhy |]. change (rows _ _) with (table e'). rewrite Hd. apply elem_of_app. by right.
  - intros l [] e' h' s' [Hhy Ht] Hs Hf Ht'. split; [by apply hydrating_after |]. unfold table at 1. simpl. congruence.
  - done.
  - intros msg l [] e' [Hhy Ht]. destruct (hy_done _ _ Hhy) as (d & Hd & _).
    eapply wp_mono; [apply (hydrate_message_spec msg l e' Hhy) | | done].
    + apply Hrange. rewrite <- Ht, Hd, dkeys_app', elem_of_app. right. left.
    + intros [] e2 [? ?]. split; [done | congruence].
  - split; [by apply restarted_hydrating | done].
  - intros [] e' [Hhy Ht]. destruct (hy_done _ _ Hhy) as (d & Hd & Ha & HW & Hc & Hf). rewrite app_nil_r in Hd. subst d.
    pose proof (hy_entries _ _ Hhy) as He. split_and!; [| by rewrite (hy_sealed _ _ Hhy) | done | done].
    constructor; rewrite ?(hy_sealed _ _ Hhy), ?(hy_parked _ _ Hhy), ?(hy_subs _ _ Hhy); try done; [apply Hhy |].
    intros l Hl. by destruct (He _ Hl).
Qed.

(** ** Resuming a session *)

(** The loop of [replay_session]: the rows still to come have no entry and no
    slot. *)
Record replaying (l : rowtable) e : Prop := {
  rp_ok : table_ok e;
  rp_objs : objs_ok (heap e) (_queued (outbound e));
  rp_acct : Acct (table e) (qrows e) (packet_ids (outbound e)) (_parked (outbound e)) (_sealed (outbound e))
    (_pending_messages (outbound e)) (_pending_bytes (outbound e)) (dkeys (_pending_sub_requests e));
  rp_window : Window (table e) (qrows e) (_sealed (outbound e)) (flow (outbound e));
  rp_nodup : NoDup (dkeys l);
  rp_rows : ∀ x, x ∈ l → dget x.1 (table e) = Some x.2 ∧ x.1 ∉ dkeys (qrows e) ∧
    x.1 ∉ FlowControl._holders (flow (outbound e));
  rp_cover : reliable → Cover (table e) (qrows e ++ l) (_sealed (outbound e)) }.

(** The books without the coverage of the queue. *)
Record Books e : Prop := {
  b_ok : table_ok e;
  b_objs : objs_ok (heap e) (_queued (outbound e));
  b_acct : Acct (table e) (qrows e) (packet_ids (outbound e)) (_parked (outbound e)) (_sealed (outbound e))
    (_pending_messages (outbound e)) (_pending_bytes (outbound e)) (dkeys (_pending_sub_requests e));
  b_window : Window (table e) (qrows e) (_sealed (outbound e)) (flow (outbound e)) }.

Lemma replaying_books l e : replaying l e → Books e.
Proof. intros []. by constructor. Qed.
Lemma inv_books e : Inv e → Books e.
Proof. intros []. by constructor. Qed.
Lemma books_unreliable e : Books e → ¬ reliable → Inv e.
Proof. intros []. by constructor. Qed.

Lemma replaying_quiet l e e' : replaying l e → quiet e e' → replaying l e'.
Proof.
  intros [Hok Ho Ha Hw Hn Hl Hc] [Hok' Ht Hf Hb Hs _ _]. apply books_inv in Hb as (E1 & E2 & E3 & E4 & E5 & E6 & E7).
  destruct (q_row_quiet _ _ _ Hf Ho) as [Hq Ho'].
  assert (qrows e' = qrows e) as Eq by (unfold qrows; by rewrite E3).
  constructor; rewrite ?Eq, ?Ht, ?E1, ?E2, ?E3, ?E4, ?E5, ?E6, ?E7, ?Hs; done.
Qed.

Lemma replaying_head msg l e :
  replaying (s_row msg :: l) e →
  dget (s_mid msg) (table e) = Some (s_state msg, s_logical_size msg) ∧ s_mid msg ∉ dkeys (qrows e) ∧
  s_mid msg ∉ FlowControl._holders (flow (outbound e)) ∧ s_mid msg ∉ dkeys l ∧ NoDup (dkeys l).
Proof.
  intros [_ _ _ _ Hn Hl _]. destruct (Hl (s_row msg)) as (? & ? & ?); [left |].
  apply NoDup_cons in Hn as [? ?]. done.
Qed.

(** A row that needs no entry: it is sealed, or waits with its frame sent. *)
Lemma replaying_skip msg l e :
  replaying (s_row msg :: l) e → s_mid msg ∈ dkeys (_sealed (outbound e)) ∨ s_state msg ≠ QUEUED → replaying l e.
Proof.
  intros Hr Hs. pose proof (replaying_head _ _ _ Hr) as (Hg & _ & _ & _ & Hnl).
  destruct Hr as [Hok Ho Ha Hw Hn Hl Hc]. constructor; try done.
  - intros x Hx. apply Hl. by right.
  - intros Hrel. destruct (Hc Hrel) as [C1 C2]. constructor; [| done]. intros mid n Hm.
    destruct (C1 mid n Hm) as [? | Hin]; [by left |]. rewrite dkeys_app', elem_of_app in *.
    destruct Hin as [? | Hin]; [auto |]. apply elem_of_cons in Hin as [-> | ?]; [| auto].
    simpl in *. rewrite Hg in Hm. simplify_eq. destruct Hs; [by left | congruence].
Qed.

(** A row that joins the queue, parked or never sent. *)
Lemma replaying_enqueue msg l (park : bool) e e' :
  replaying (s_row msg :: l) e → s_mid msg ∉ dkeys (_sealed (outbound e)) →
  (if park then s_state msg ≠ QUEUED else s_state msg = QUEUED) →
  heap e' = heap e → store e' = store e → _pending_sub_requests e' = _pending_sub_requests e →
  books (outbound e') = books (set_parked (if park then _parked (outbound e) ∪ {[s_mid msg]} else _parked (outbound e))
    (set_queued (_queued (outbound e) ++ [QSummary msg]) (outbound e))) → replaying l e'.
Proof.
  intros Hr Hns Hst Hh Hs Hsub (E1 & E2 & E3 & E4 & E5 & E6 & E7)%books_inv. simpl in *.
  pose proof (replaying_head _ _ _ Hr) as (Hg & Hnq & Hnh & Hnl & Hn'). destruct Hr as [Hok Ho Ha Hw Hn Hl Hc].
  assert (qrows e' = qrows e ++ [s_row msg]) as Eq by (unfold qrows; by rewrite E3, Hh, fmap_app).
  assert (table e' = table e) as Et by (unfold table; by rewrite Hh, Hs).
  constructor; unfold table_ok; rewrite ?Eq, ?Et, ?Hh, ?Hs, ?E1, ?E2, ?E3, ?E4, ?E5, ?E6, ?E7, ?Hsub; try done.
  - intros k [Hk | ?%list_elem_of_singleton]%elem_of_app; [by apply Ho | done].
  - by apply (acct_enqueue _ _ _ _ _ _ _ _ Ha (s_mid msg) (s_state msg, s_logical_size msg) park).
  - apply (window_keep _ _ _ _ Hw). intros k Hk. destruct (w_holders _ _ _ _ Hw k Hk) as (? & ? & ?).
    rewrite dkeys_app', elem_of_app. split_and!; try done. intros [? | ->%list_elem_of_singleton]; done.
  - intros x Hx. destruct (Hl x) as (? & ? & ?); [by right |]. split_and!; try done.
    rewrite dkeys_app', elem_of_app. intros [? | Ex%list_elem_of_singleton]; [done |]. simpl in Ex. apply Hnl. rewrite <- Ex.
    apply list_elem_of_fmap. eauto.
  - intros Hrel. eapply cover_grow; [by apply Hc |]. intros m. rewrite <- app_assoc. done.
Qed.

(** A publication dropped with its row. *)
Lemma replaying_drop msg l x e :
  replaying (s_row msg :: l) e → s_mid msg ∉ dkeys (_sealed (outbound e)) →
  wp (drop_publication msg x) (λ _, replaying l) (λ _, Books) e.
Proof.
  intros Hr Hns. pose proof (replaying_head _ _ _ Hr) as (Hg & Hnq & Hnh & Hnl & Hn'). unfold drop_publication.
  apply wp_bind. eapply wp_discard; [apply Hr | apply Hr | exact Hg | done | done | |].
  2: { intros y e' Hq Hrel. eapply replaying_books, replaying_quiet; done. }
  intros h' s' Hs Hf Ht. apply wp_bind, wp_out. unfold wp. simpl.
  destruct Hr as [Hok Ho Ha Hw Hn Hl Hc]. destruct (q_row_quiet _ _ _ Hf Ho) as [Hq Ho'].
  assert (Hdel : ∀ m r, m ≠ s_mid msg → dget m (table e) = Some r → dget m (ddel (s_mid msg) (table e)) = Some r).
  { intros m r Hne Hm. rewrite dget_ddel by apply Ha. by rewrite decide_False. }
  constructor; simpl; try done; unfold qrows, table; simpl; rewrite ?Ht, ?Hq; fold (qrows e).
  - by eapply acct_settle.
  - apply (window_keep _ _ _ _ Hw). intros k Hk. destruct (w_holders _ _ _ _ Hw k Hk) as (? & ? & st & n & ? & ?).
    split_and!; try done. exists st, n. split; [| done]. apply Hdel; [by intros -> | done].
  - intros y Hy. destruct (Hl y) as (? & ? & ?); [by right |]. split_and!; try done. apply Hdel; [| done].
    intros E. apply Hnl. rewrite <- E. apply list_elem_of_fmap. eauto.
  - intros Hrel. assert (Cover (ddel (s_mid msg) (table e)) (qrows e ++ s_row msg :: l) (_sealed (outbound e))) as [C1 C2]
      by (apply cover_ddel; [by apply Hc | apply Ha | done]).
    constructor; [| done]. intros m n Hm. destruct (C1 m n Hm) as [? | Hin]; [by left |].
    rewrite dkeys_app', elem_of_app in *. destruct Hin as [? | [-> | ?]%elem_of_cons]; auto.
    simpl in *. rewrite dget_ddel in Hm by apply Ha. by rewrite decide_True in Hm.
Qed.

Lemma quiet_resume msg e :
  table_ok e → dget (s_mid msg) (table e) = Some (s_state msg, s_logical_size msg) →
  wp (l ← materialize (QSummary msg); _retransmit config l) (λ _, quiet e) (λ _, quiet e) e.
Proof.
  intros Hok Hg. eapply wp_then; [by apply (quiet_materialize (QSummary msg) (s_state msg, s_logical_size msg)) | | done].
  intros l e1 (Hq1 & m & Hl & _). eapply wp_mono; [eapply quiet_retransmit; [apply Hq1 | done] | |]; simpl; eauto using quiet_trans.
Qed.

(** A waiting row whose frame was resent takes a slot. *)
Lemma replaying_acquired msg l e e' :
  replaying (s_row msg :: l) e → s_mid msg ∉ dkeys (_sealed (outbound e)) → s_state msg ≠ QUEUED →
  0 < FlowControl.available (flow (outbound e)) →
  quiet (set_outbound (set_flow (acquired (flow (outbound e)) (s_mid msg)) (outbound e)) e) e' → replaying l e'.
Proof.
  intros Hr Hns Hst Hav Hq. eapply replaying_quiet; [| exact Hq]. clear Hq e'.
  pose proof (replaying_head _ _ _ Hr) as (Hg & Hnq & Hnh & Hnl & Hn').
  pose proof (replaying_skip _ _ _ Hr (or_intror Hst)) as [Hok Ho Ha Hw Hn Hl Hc]. constructor; try done; simpl.
  - apply (window_acquire _ _ _ _ Hw); [done | done |]. intros m [-> | Hm]; [eauto 10 |].
    by apply (w_holders _ _ _ _ Hw).
  - intros x Hx. destruct (Hl x Hx) as (? & ? & ?). split_and!; try done.
    intros [? | E%elem_of_singleton]%elem_of_union; [done |]. apply Hnl. rewrite <- E. apply list_elem_of_fmap. eauto.
Qed.

Lemma replay_message_spec msg l e :
  replaying (s_row msg :: l) e → wp (_replay_message config msg) (λ _, replaying l) (λ _, Books) e.
Proof.
  intros Hr. pose proof (replaying_head _ _ _ Hr) as (Hg & Hnq & Hnh & Hnl & Hn'). pose proof (rp_ok _ _ Hr) as Hok.
  unfold _replay_message. apply wp_bind, wp_gets. apply wp_if; intros Hse.
  { apply dmem_spec in Hse. apply wp_ret, (replaying_skip msg); auto. }
  apply dmem_false in Hse.
  assert (Hsealed : ∀ e', quiet e e' → s_mid msg ∉ dkeys (_sealed (outbound e'))).
  { intros e' (_ & _ & _ & _ & -> & _)%mv_books%books_inv. done. }
  assert (Hwait : s_state msg ≠ QUEUED →
    wp (granted ← flow_acquire (s_mid msg);
        if negb granted then
          out_modify (λ o, set_parked (_parked o ∪ {[s_mid msg]}) o);; enqueue (QSummary msg)
        else
          try_except (l ← materialize (QSummary msg); _retransmit config l)
            (λ x, flow_release (s_mid msg);; drop_publication msg x)) (λ _, replaying l) (λ _, Books) e).
  { intros Hst. apply wp_bind, wp_acquire; [done | |]; intros Hav; simpl.
    - apply wp_try. eapply wp_mono; [by apply quiet_resume | |].
      + intros [] e1 Hq. by apply (replaying_acquired msg l e).
      + intros x e1 [Hok1 Ht1 Hf1 Hb1 Hs1 Hst1 Hn1]. apply books_inv in Hb1 as (E1 & E2 & E3 & E4 & E5 & E6 & E7). simpl in *.
        apply wp_bind, wp_out. assert (quiet e (set_outbound (set_flow (FlowControl.release (flow (outbound e1)) (s_mid msg)).2 (outbound e1)) e1)).
        { constructor; try done. unfold books. simpl. rewrite E1, E2, E3, E4, E5, E6, E7. by rewrite release_acquired. }
        apply replaying_drop; [by eapply replaying_quiet | by apply Hsealed].
    - apply wp_bind, wp_out, wp_out. by eapply (replaying_enqueue msg l true). }
  destruct (s_state msg) eqn:Hst; try (by apply Hwait).
  - apply (wp_then _ _ (λ _ e', e' = e) (λ _ e', e' = e)); [| | intros x ? ->; by eapply replaying_books].
    + apply wp_try, wp_bind, wp_still; [apply still_validate | done |]. intros x. by destruct (is_protocol_error x).
    + intros [x |] ? ->; [by apply replaying_drop |]. apply wp_out. by eapply (replaying_enqueue msg l false).
  - apply wp_try. eapply wp_mono; [apply quiet_resume; [done | by rewrite Hst] | |].
    + intros [] e1 Hq. eapply replaying_quiet; [| done]. eapply replaying_skip; [done | right; congruence].
    + intros x e1 Hq. apply replaying_drop; [by eapply replaying_quiet | by apply Hsealed].
Qed.

Lemma replaying_start e :
  Inv e → replaying (table e) (set_outbound (set_parked ∅ (set_queued [] (set_flow
    (FlowControl.apply_broker_receive_maximum (FlowControl.reset (flow (outbound e))) (n_receive_maximum (negotiated e))
       (max_outbound_inflight config)) (outbound e)))) e).
Proof.
  intros [Hok Ho Ha Hw Hc]. constructor; simpl; try done.
  - by intros l ?%not_elem_of_nil.
  - destruct Ha. constructor; try done; first [by apply NoDup_nil_2 | set_solver].
  - apply window_reset.
  - apply Ha.
  - intros [mid r] Hx. split_and!; [| by intros ?%not_elem_of_nil | set_solver].
    apply dget_elem_NoDup; [apply Ha | done].
  - intros Hrel. destruct (Hc Hrel) as [C1 C2]. constructor; [| done]. intros mid n Hg. right. by eapply dget_Some_key.
Qed.

(** Resuming a session: the window restarts at the negotiated limit, every
    stored row is resent, queued again or dropped, and the queue drained. *)
Lemma replay_session_spec e :
  Inv e → wp (replay_session config)
    (λ _ e', Inv e' ∧ (_queued (outbound e') = [] ∨ FlowControl.available (flow (outbound e')) ≤ 0)) (λ _, Books) e.
Proof.
  intros HI. unfold replay_session, reset_flow_for_connection.
  apply wp_bind, wp_bind, wp_gets, wp_out, wp_bind, wp_out, wp_bind, wp_out.
  pose proof (replaying_start e HI) as Hr. pose (I := λ l (_ : unit) e', replaying l e').
  apply wp_bind. eapply wp_mono; [apply (wp_for_pages I (λ _, Books)) | | done].
  - intros l [] e' Hl. split; [apply Hl |]. intros x Hx. by apply (rp_rows _ _ Hl).
  - intros l [] e' h' s' Hl Hs Hf Ht. eapply replaying_quiet; [done | by apply moved_after].
  - intros l [] e' x Hl _. by eapply replaying_books.
  - intros msg l [] e' Hl. by apply replay_message_spec.
  - exact Hr.
  - intros [] e1 [Hok Ho Ha Hw Hn Hl Hc]. eapply wp_mono; [apply drain_inv | done | intros x e2; apply inv_books].
    rewrite app_nil_r in Hc. by constructor.
Qed.
End sessions.
