(* ===== verification/OutboundPurge.v ===== *)
(** * A session the broker dropped

    [purge_after_clean_session] and [fail_queued_violating_negotiation] settle
    every publication of a lost session and keep the books. *)

From S2P Require Import Prelude Vbi PyStr Primitives Enums Properties Topics Frame Ack Publish Handshake.
From S2P Require Import Subscription Types Buffer PacketIds Settings Store EngineState Outbound Wp Accounting OutboundInv OutboundAcks OutboundPublish OutboundReplay.

Section purge.
Context {S : Type} `{OutStoreLaws S} (config : EngineConfig) (subs : list (Z * (PacketType * Z))).
Implicit Types (e : Engine S).

Abbreviation quiet e := (moved untouched (table e) e).

(** The loop of [purge_after_clean_session]: the rows still to come, the
    entries to send again and the identifiers to release. *)
Record purging (l : rowtable) (acc : list qitem * list Z) e : Prop := {
  pg_ok : table_ok e;
  pg_objs : objs_ok (heap e) (acc.1 ++ _queued (outbound e));
  pg_acct : Acct (table e) (q_row (heap e) <$> acc.1 ++ _queued (outbound e))
    (foldl release (packet_ids (outbound e)) acc.2) ∅ (_sealed (outbound e))
    (_pending_messages (outbound e)) (_pending_bytes (outbound e)) (dkeys (_pending_sub_requests e));
  pg_cover : Cover (table e) (q_row (heap e) <$> acc.1 ++ _queued (outbound e)) (_sealed (outbound e));
  pg_nodup : NoDup (dkeys l);
  pg_rows : ∀ x, x ∈ l → dget x.1 (table e) = Some x.2;
  pg_live : ∀ mid st n, dget mid (table e) = Some (st, n) → st ≠ QUEUED → mid ∈ dkeys l;
  pg_parked : _parked (outbound e) = ∅;
  pg_subs : _pending_sub_requests e = subs }.

Lemma purging_quiet l acc e e' : purging l acc e → quiet e e' → purging l acc e'.
Proof.
  intros [Hok Ho Ha Hc Hn Hl Hv Hp Hsu] [Hok' Ht Hf Hb Hs _ _]. apply books_inv in Hb as (E1 & E2 & E3 & E4 & E5 & E6 & E7).
  destruct (q_row_quiet _ _ _ Hf Ho) as [Hq Ho'].
  constructor; rewrite ?Ht, ?E1, ?E2, ?E3, ?E4, ?E5, ?E6, ?E7, ?Hs, ?Hq; done.
Qed.

(** A purged queue holds never-sent publications only. *)
Lemma purging_queued l acc e mid st n :
  purging l acc e → dget mid (table e) = Some (st, n) → st ≠ QUEUED →
  mid ∉ dkeys (q_row (heap e) <$> acc.1 ++ _queued (outbound e)).
Proof.
  intros Hpg Hg Hst [r Hr]%dget_key. apply (a_entries _ _ _ _ _ _ _ _ (pg_acct _ _ _ Hpg)) in Hr as (_ & Hr & Hp).
  rewrite Hg in Hr. simplify_eq. destruct Hp as [[[]%not_elem_of_empty _] | [_ ?]]. done.
Qed.

Lemma purging_head msg l acc e :
  purging (s_row msg :: l) acc e →
  dget (s_mid msg) (table e) = Some (s_state msg, s_logical_size msg) ∧ s_mid msg ∉ dkeys l ∧ NoDup (dkeys l).
Proof.
  intros [_ _ _ _ Hn Hl _ _ _]. split; [apply (Hl (s_row msg)); left |]. by apply NoDup_cons in Hn as [? ?].
Qed.

(** The rows to come after [msg] was removed, or is never-sent now. *)
Lemma rest_rows msg (l t t' : rowtable) :
  s_mid msg ∉ dkeys l → (∀ x, x ∈ s_row msg :: l → dget x.1 t = Some x.2) →
  (∀ m, m ≠ s_mid msg → dget m t' = dget m t) → ∀ x, x ∈ l → dget x.1 t' = Some x.2.
Proof.
  intros Hn Hl Ht x Hx. rewrite Ht; [apply Hl; by right |]. intros E. apply Hn. rewrite <- E. apply list_elem_of_fmap. eauto.
Qed.

Lemma rest_live msg (l t t' : rowtable) :
  (∀ mid st n, dget mid t = Some (st, n) → st ≠ QUEUED → mid ∈ dkeys (s_row msg :: l)) →
  (∀ m, m ≠ s_mid msg → dget m t' = dget m t) →
  (∀ st n, dget (s_mid msg) t' = Some (st, n) → st = QUEUED) →
  ∀ mid st n, dget mid t' = Some (st, n) → st ≠ QUEUED → mid ∈ dkeys l.
Proof.
  intros Hv Ht Hm mid st n Hg Hst. destruct (decide (mid = s_mid msg)) as [-> | Hne]; [by apply Hm in Hg |].
  rewrite Ht in Hg by done. pose proof (Hv _ _ _ Hg Hst) as Hin. by apply elem_of_cons in Hin as [? | ?].
Qed.

Lemma purging_keep msg l acc e : purging (s_row msg :: l) acc e → s_state msg = QUEUED → purging l acc e.
Proof.
  intros Hpg Hst. destruct (purging_head _ _ _ _ Hpg) as (Hg & Hn & Hnl). destruct Hpg. constructor; try done.
  - by eapply rest_rows.
  - eapply rest_live; [done | done |]. intros st n Hg'. rewrite Hg in Hg'. congruence.
Qed.

(** A sealed row leaves with its seal. *)
Lemma purging_sealed msg l resent released e h' s' :
  purging (s_row msg :: l) (resent, released) e → s_mid msg ∈ dkeys (_sealed (outbound e)) →
  store_ok h' s' → heap_frame untouched (heap e) h' → rows h' s' = ddel (s_mid msg) (table e) →
  purging l (resent, released ++ [s_mid msg])
    (set_heap_store (h', s') (set_outbound (set_sealed (ddel (s_mid msg) (_sealed (outbound e))) (outbound e)) e)).
Proof.
  intros Hpg Hse Hs Hf Ht. destruct (purging_head _ _ _ _ Hpg) as (Hg & Hn & Hnl). destruct Hpg as [Hok Ho Ha Hc Hn' Hl Hv Hp Hsu].
  destruct (q_row_quiet _ _ _ Hf Ho) as [Hq Ho'].
  assert (∀ m, m ≠ s_mid msg → dget m (ddel (s_mid msg) (table e)) = dget m (table e)) as Hne.
  { intros m Hm. rewrite dget_ddel by apply Ha. by rewrite decide_False. }
  cbn [fst snd] in *. constructor; unfold table; simpl; rewrite ?Ht, ?Hq, ?foldl_app; simpl; try done.
  - by eapply acct_settle_sealed.
  - apply cover_ddel_sealed; [done | apply Ha | apply Ha].
  - by eapply rest_rows.
  - eapply rest_live; [done | done |]. intros st n. rewrite dget_ddel by apply Ha. by rewrite decide_True.
Qed.

(** A charged row that cannot be sent again leaves with its charge. *)
Lemma purging_settled msg l resent released e h' s' :
  purging (s_row msg :: l) (resent, released) e → s_mid msg ∉ dkeys (_sealed (outbound e)) → s_state msg ≠ QUEUED →
  store_ok h' s' → heap_frame untouched (heap e) h' → rows h' s' = ddel (s_mid msg) (table e) →
  purging l (resent, released ++ [s_mid msg])
    (set_outbound (OutboundInv.released (s_logical_size msg) (outbound e)) (set_heap_store (h', s') e)).
Proof.
  intros Hpg Hse Hst Hs Hf Ht. destruct (purging_head _ _ _ _ Hpg) as (Hg & Hn & Hnl).
  pose proof (purging_queued _ _ _ _ _ _ Hpg Hg Hst) as Hnq. destruct Hpg as [Hok Ho Ha Hc Hn' Hl Hv Hp Hsu].
  destruct (q_row_quiet _ _ _ Hf Ho) as [Hq Ho'].
  assert (∀ m, m ≠ s_mid msg → dget m (ddel (s_mid msg) (table e)) = dget m (table e)) as Hne.
  { intros m Hm. rewrite dget_ddel by apply Ha. by rewrite decide_False. }
  cbn [fst snd] in *. constructor; unfold table; simpl; rewrite ?Ht, ?Hq, ?foldl_app; simpl; try done.
  - by eapply acct_settle.
  - apply cover_ddel; [done | apply Ha | done].
  - by eapply rest_rows.
  - eapply rest_live; [done | done |]. intros st n. rewrite dget_ddel by apply Ha. by rewrite decide_True.
Qed.

(** The entry of an exchange that starts again. *)
Definition again (msg : OutboundMessageSummary) : qitem :=
  QSummary (mkSummary (s_mid msg) (s_topic msg) (s_payload_size msg) (s_qos msg) (s_retain msg) QUEUED (s_dup msg)
    (s_properties msg) (s_logical_size msg)).

(** A QoS 1 exchange goes back to the queue, its row with it. *)
Lemma purging_again msg l resent released e h' s' :
  purging (s_row msg :: l) (resent, released) e → s_mid msg ∉ dkeys (_sealed (outbound e)) → s_state msg ≠ QUEUED →
  store_ok h' s' → heap_frame (eq (s_mid msg)) (heap e) h' →
  rows h' s' = dset (s_mid msg) (QUEUED, s_logical_size msg) (table e) →
  purging l (resent ++ [again msg], released) (set_heap_store (h', s') e).
Proof.
  intros Hpg Hse Hst Hs Hf Ht. destruct (purging_head _ _ _ _ Hpg) as (Hg & Hn & Hnl).
  pose proof (purging_queued _ _ _ _ _ _ Hpg Hg Hst) as Hnq. destruct Hpg as [Hok Ho Ha Hc Hn' Hl Hv Hp Hsu]. cbn [fst snd] in *.
  set (q := q_row (heap e) <$> resent ++ _queued (outbound e)) in *.
  destruct (q_row_frame _ _ _ _ Hf Ho) as [Hq Ho'].
  { intros x Hx E. apply Hnq. unfold q. rewrite dkeys_q_row, E. apply list_elem_of_fmap. eauto. }
  assert (q ++ [(s_mid msg, (QUEUED, s_logical_size msg))] ≡ₚ
    q_row h' <$> (resent ++ [again msg]) ++ _queued (outbound e)) as Hperm.
  { rewrite <- app_assoc, !fmap_app. unfold q in *. rewrite !fmap_app in *.
    apply app_inj_1 in Hq as [-> ->]; [| by rewrite !length_fmap].
    rewrite <- app_assoc. f_equiv. by rewrite Permutation_app_comm. }
  assert (∀ m, m ≠ s_mid msg → dget m (dset (s_mid msg) (QUEUED, s_logical_size msg) (table e)) = dget m (table e)) as Hne
    by (intros m Hm; by rewrite dget_dset_ne).
  constructor; unfold table; simpl; rewrite ?Ht; try done.
  - intros k Hk. apply Ho'. rewrite <- app_assoc in Hk.
    apply elem_of_app in Hk as [Hk | [? | Hk]%elem_of_cons]; [| done |]; apply elem_of_app; auto.
  - eapply acct_perm; [| exact Hperm].
    apply (acct_enqueue _ _ _ _ _ _ _ _ ltac:(by eapply acct_phase) (s_mid msg) (QUEUED, s_logical_size msg) false); try done.
    apply dget_dset_eq.
  - assert (Cover (table e) (q ++ [(s_mid msg, (QUEUED, s_logical_size msg))]) (_sealed (outbound e))) as Hc'.
    { eapply cover_grow; [exact Hc |]. intros m Hm. rewrite dkeys_app', elem_of_app. by left. }
    eapply cover_grow; [eapply cover_phase; [exact Hc' | exact Hg | | done] |].
    + intros _. right. rewrite dkeys_app', elem_of_app. right. by apply list_elem_of_singleton.
    + intros m Hm. unfold dkeys in *. by rewrite <- Hperm.
  - by eapply rest_rows.
  - eapply rest_live; [done | done |]. intros st n. rewrite dget_dset_eq. congruence.
Qed.

Lemma purge_one_spec msg l acc e :
  purging (s_row msg :: l) acc e → wp (purge_one msg acc) (λ acc', purging l acc') (λ _ _, ¬ reliable) e.
Proof.
  intros Hpg. destruct acc as [resent released]. destruct (purging_head _ _ _ _ Hpg) as (Hg & Hn & Hnl).
  pose proof (pg_ok _ _ _ Hpg) as Hok. unfold purge_one. apply wp_bind, wp_gets.
  destruct (decide (s_state msg = QUEUED)) as [Hst | Hst].
  { rewrite Hst. apply wp_ret. by eapply purging_keep. }
  assert (Hsealed : dmem (s_mid msg) (_sealed (outbound e)) = true →
    wp (out_modify (λ o, set_sealed (ddel (s_mid msg) (_sealed o)) o);; call (delete_out (s_mid msg));;
        mret (resent, released ++ [s_mid msg])) (λ acc', purging l acc') (λ _ _, ¬ reliable) e).
  { intros Hse%dmem_spec. apply wp_bind, wp_out, wp_bind, wp_delete; [done | | done].
    intros h' s' Hs Hf Ht. apply wp_ret. by apply (purging_sealed msg). }
  assert (Hlost : dmem (s_mid msg) (_sealed (outbound e)) = false →
    wp (complete_record (s_mid msg) msg;; _fail (s_mid msg) SessionDiscardedError;;
        mret (resent, released ++ [s_mid msg])) (λ acc', purging l acc') (λ _ _, ¬ reliable) e).
  { intros Hse%dmem_false. apply wp_bind. eapply wp_discard; [done | apply (pg_acct _ _ _ Hpg) | exact Hg | done | done | | done].
    intros h' s' Hs Hf Ht. pose proof (purging_settled _ _ _ _ _ _ _ Hpg Hse Hst Hs Hf Ht) as Hpg'.
    eapply wp_then; [apply quiet_emit, Hpg' | | done]. intros [] e1 [Hq _]. apply wp_ret. by eapply purging_quiet. }
  destruct (s_state msg) eqn:Est; try done; (destruct (dmem (s_mid msg) (_sealed (outbound e))) eqn:Hse; [by apply Hsealed |]);
    try (by apply Hlost).
  apply dmem_false in Hse. apply wp_bind, wp_transition; [done | | | done].
  - intros x h' s' Hs Hf Hx Ht. apply wp_ret. rewrite Hg in Hx. injection Hx as Hx. rewrite <- Hx in Ht.
    apply purging_again; try done. by rewrite Est.
  - intros h' s' _ _ Hno. by destruct (Hno (s_logical_size msg)).
Qed.

(** What purging leaves, before the window restarts. *)
Record purged e : Prop := {
  pd_ok : table_ok e;
  pd_objs : objs_ok (heap e) (_queued (outbound e));
  pd_acct : Acct (table e) (qrows e) (packet_ids (outbound e)) ∅ (_sealed (outbound e))
    (_pending_messages (outbound e)) (_pending_bytes (outbound e)) (dkeys (_pending_sub_requests e));
  pd_cover : Cover (table e) (qrows e) (_sealed (outbound e));
  pd_fresh : ∀ mid st n, dget mid (table e) = Some (st, n) → st = QUEUED;
  pd_parked : _parked (outbound e) = ∅ }.

Lemma release_ids ids e :
  wp (for_each ids ids_release)
    (λ _ e', e' = set_outbound (set_packet_ids (foldl release (packet_ids (outbound e)) ids) (outbound e)) e)
    (λ _ _, False) e.
Proof.
  revert e. induction ids as [| mid ids IH]; intros e; cbn [for_each].
  - apply wp_ret. simpl. by destruct e as [? ? ? ? [] ? ? ?].
  - apply wp_bind, wp_out. eapply wp_mono; [apply IH | | done]. by intros [] e' ->.
Qed.

(** The wholesale reset of the pool happens only when no identifier is owned. *)
Lemma purged_reset e :
  purged e → _queued (outbound e) = [] → _pending_sub_requests e = [] → forallb snd (_sealed (outbound e)) = true →
  ∀ p, pool_ok p → used p = ∅ → purged (set_outbound (set_packet_ids p (outbound e)) e).
Proof.
  intros [Hok Ho Ha [C1 C2] Hf Hp] Hq Hs Hb p Hp' Hu.
  assert (∀ mid, mid ∉ dkeys (_sealed (outbound e))) as Hns.
  { intros mid [b Hm]%dget_key. destruct (C2 _ _ Hm) as (st & n & Hg & ->). rewrite (Hf _ _ _ Hg) in Hm.
    apply dget_Some_elem, list_elem_of_In in Hm. rewrite forallb_forall in Hb. by apply Hb in Hm. }
  assert (∀ mid, mid ∉ dkeys (table e)) as Hnt.
  { intros mid [[st n] Hm]%dget_key. pose proof (Hf _ _ _ Hm) as ->. destruct (C1 _ _ Hm) as [? | Hin]; [by eapply Hns |].
    unfold qrows in Hin. rewrite Hq in Hin. by apply not_elem_of_nil in Hin. }
  constructor; try done. simpl. eapply acct_subs; [done | done | apply Ha | |].
  - intros mid _. auto.
  - intros mid. rewrite Hu, Hs. simpl. split; [set_solver |]. intros [? | [? | ?%not_elem_of_nil]]; [| | done]; exfalso; naive_solver.
Qed.

(** Dropping the entries that are not never-sent. *)
Lemma purging_start e :
  Inv e → Cover (table e) (qrows e) (_sealed (outbound e)) → _pending_sub_requests e = subs →
  purging (table e) ([], []) (set_outbound (set_parked ∅
    (set_queued (filter (λ q, s_state (q_summary (heap e) q) = QUEUED) (_queued (outbound e))) (outbound e))) e).
Proof.
  intros [Hok Ho Ha Hw _] Hc Hsubs. set (q := filter _ _).
  assert (Hsub : ∀ x, x ∈ q → x ∈ _queued (outbound e)) by (by intros x [_ ?]%list_elem_of_filter).
  assert (Hdget : ∀ mid r, dget mid (q_row (heap e) <$> q) = Some r → dget mid (qrows e) = Some r).
  { intros mid r Hr%dget_Some_elem. apply dget_elem_NoDup; [apply Ha |].
    apply list_elem_of_fmap in Hr as (x & Hx & Hin). apply list_elem_of_fmap. exists x. auto. }
  constructor; simpl; try done.
  - intros l Hl. by apply Ho, Hsub.
  - destruct Ha. constructor; try done.
    + eapply sublist_NoDup; [eassumption |]. unfold dkeys, qrows. apply fmap_sublist, fmap_sublist, sublist_filter.
    + intros mid r Hr. pose proof Hr as Hr'. apply Hdget, a_entries in Hr' as (? & ? & Hp). split_and!; try done.
      right. split; [set_solver |]. apply dget_Some_elem, list_elem_of_fmap in Hr as (x & [= _ ->] & [Hx _]%list_elem_of_filter). done.
  - destruct Hc as [C1 C2]. constructor; [| done]. intros mid n Hg. destruct (C1 mid n Hg) as [? | Hin]; [by left | right].
    apply dget_key in Hin as [r Hr]. pose proof Hr as Hr'. apply (a_entries _ _ _ _ _ _ _ _ Ha) in Hr' as (_ & Ht & _).
    change (table _) with (table e) in Hg. rewrite Hg in Ht. simplify_eq.
    apply dget_Some_elem, list_elem_of_fmap in Hr as (x & Hx & Hin). unfold q_row, s_row in Hx. injection Hx as Hm Hst _.
    unfold dkeys. rewrite Hm. rewrite <- list_fmap_compose. apply list_elem_of_fmap. exists x. split; [done |].
    by apply list_elem_of_filter.
  - apply Ha.
  - intros [mid r] Hx. apply dget_elem_NoDup; [apply Ha | done].
  - intros mid st n Hg _. by eapply dget_Some_key.
Qed.

Lemma purge_spec e :
  Inv e → Cover (table e) (qrows e) (_sealed (outbound e)) → _pending_sub_requests e = subs →
  wp (purge_after_clean_session (negb (bool_decide (_pending_sub_requests e = [])))) (λ _, purged) (λ _ _, ¬ reliable) e.
Proof.
  intros HI Hc Hsubs. unfold purge_after_clean_session. apply wp_bind, wp_modify, wp_bind, wp_out, wp_bind.
  eapply wp_mono; [apply (wp_for_pages purging (λ _ _, ¬ reliable)); [| | done | |] | | done].
  - intros l acc e1 Hpg. split; [apply Hpg | by apply Hpg].
  - intros l acc e1 h' s' Hpg Hs Hf Ht. eapply purging_quiet; [done | by apply moved_after].
  - intros msg l acc e1. apply purge_one_spec.
  - exact (purging_start e HI Hc Hsubs).
  - intros [resent released] e2 [Hok Ho Ha Hk _ _ Hv Hp Hsu]. apply wp_bind, wp_out, wp_bind, wp_gets. cbn [fst snd] in *.
    assert (purged (set_outbound (set_packet_ids (foldl release (packet_ids (outbound e2)) released)
      (set_queued (resent ++ _queued (outbound e2)) (outbound e2))) e2)) as Hpd.
    { constructor; try done. intros mid st n Hg. destruct (decide (st = QUEUED)); [done |].
      by apply Hv in Hg as ?%not_elem_of_nil. }
    apply wp_if; intros Hcl; [| eapply wp_mono; [apply release_ids | by intros [] e' -> | done]].
    apply wp_out. apply andb_true_iff in Hcl as [[Hq Hsb]%andb_true_iff Hall].
    apply bool_decide_eq_true in Hq. rewrite negb_involutive in Hsb. apply bool_decide_eq_true in Hsb.
    apply (purged_reset _ Hpd); try done. simpl. congruence.
Qed.

(** ** Checking the queue against the new negotiation *)

(** The books for a queue of which some entries are set aside. *)
Lemma invq_perm e qs qs' parked : InvQ e qs parked → qs ≡ₚ qs' → InvQ e qs' parked.
Proof.
  intros [Hok Ho Ha Hw Hc] Hq. assert (q_row (heap e) <$> qs ≡ₚ q_row (heap e) <$> qs') as Hr by (by rewrite Hq).
  assert (∀ m, m ∈ dkeys (q_row (heap e) <$> qs) ↔ m ∈ dkeys (q_row (heap e) <$> qs')) as Hk
    by (intros m; unfold dkeys; by rewrite Hr).
  constructor; try done.
  - intros l. rewrite <- Hq. apply Ho.
  - by eapply acct_perm.
  - apply (window_keep _ _ _ _ Hw). intros m Hm. rewrite <- Hk. by apply (w_holders _ _ _ _ Hw).
  - intros Hrel. eapply cover_grow; [by apply Hc |]. intros m. apply Hk.
Qed.

Lemma invq_quiet e e' qs parked : InvQ e qs parked → quiet e e' → InvQ e' qs parked.
Proof.
  intros [Hok Ho Ha Hw Hc] [Hok' Ht Hf Hb Hs _ _]. apply books_inv in Hb as (E1 & E2 & E3 & E4 & E5 & E6 & E7).
  destruct (q_row_quiet _ _ _ Hf Ho) as [Hq Ho'].
  constructor; rewrite ?Hq, ?Ht, ?E1, ?E2, ?E5, ?E6, ?E7, ?Hs; done.
Qed.

(** Entries of an unparked queue may be forgotten without breaking the books. *)
Lemma invq_books e qs :
  InvQ e qs ∅ → _parked (outbound e) = ∅ → _queued (outbound e) `sublist_of` qs → Books e.
Proof.
  intros [Hok Ho Ha Hw Hc] Hp Hq.
  assert (qrows e `sublist_of` (q_row (heap e) <$> qs)) as Hr by (by apply fmap_sublist).
  constructor; try done.
  - intros l Hl. apply Ho. by eapply elem_of_sublist.
  - rewrite Hp. pose proof (a_queue _ _ _ _ _ _ _ _ Ha) as Hn. destruct Ha. constructor; try done.
    + eapply sublist_NoDup; [done |]. by apply fmap_sublist.
    + intros mid r Hg%dget_Some_elem. apply a_entries. apply dget_elem_NoDup; [done |]. by eapply elem_of_sublist.
  - apply (window_keep _ _ _ _ Hw). intros m Hm. destruct (w_holders _ _ _ _ Hw m Hm) as (Hmq & ? & ?).
    split_and!; try done. intros Hin. apply Hmq. eapply elem_of_sublist; [exact Hin |]. by apply fmap_sublist.
Qed.

(** The head entry is dropped with its row. *)
Lemma drop_entry x kept qs reason (k : unit → M S (list qitem)) Q e :
  InvQ e (kept ++ x :: qs) ∅ → _queued (outbound e) = x :: qs → _parked (outbound e) = ∅ →
  (∀ e', InvQ e' (kept ++ qs) ∅ → _queued (outbound e') = qs → _parked (outbound e') = ∅ → wp (k tt) Q (λ _, Books) e') →
  wp (s ← summary x; discard_record (q_mid (heap e) x) s;; popleft;; ids_release (q_mid (heap e) x);;
      _fail (q_mid (heap e) x) reason;; k tt) Q (λ _, Books) e.
Proof.
  intros HQ Hq Hp Hk. set (mid := q_mid (heap e) x). set (r := (q_row (heap e) x).2).
  assert (kept ++ x :: qs ≡ₚ x :: kept ++ qs) as Hperm by (by rewrite Permutation_middle).
  pose proof (invq_perm _ _ _ _ HQ Hperm) as HQ'.
  set (e0 := set_outbound (set_parked ∅ (set_queued (x :: kept ++ qs) (outbound e))) e).
  assert (Inv e0) as HI0 by (by eapply invq_inv).
  destruct (head_entry x (kept ++ qs) e0 HI0 eq_refl) as (Hns & Hg & _). 
  change (dget mid (table e) = Some r) in Hg. change (mid ∉ dkeys (_sealed (outbound e))) in Hns.
  apply wp_summary, wp_bind. eapply (wp_discard mid); [apply HQ | apply HQ' | | exact Hns | reflexivity | |].
  - rewrite Hg. reflexivity.
  - intros h' s' Hs Hf Ht. apply wp_bind, wp_out, wp_bind, wp_out, wp_bind.
    eapply wp_mono; [apply quiet_emit; exact Hs | | done]. intros [] e2 [Hq2 _].
    set (e1 := set_outbound _ _) in Hq2.
    assert (Inv (set_outbound (set_parked ∅ (set_queued (kept ++ qs) (outbound e1))) e1)) as HI1.
    { apply (drain_dropped x (kept ++ qs) r e0 h' s'); try done. simpl. set_solver. }
    assert (InvQ e1 (kept ++ qs) ∅) as HQ1 by (by destruct HI1; constructor).
    pose proof (mv_books _ _ _ _ Hq2) as (_ & _ & E3 & E4 & _)%books_inv.
    apply Hk; [by eapply invq_quiet | by rewrite E3; simpl; rewrite Hq | by rewrite E4].
  - intros y e' Hq2 _. pose proof (mv_books _ _ _ _ Hq2) as (_ & _ & E3 & E4 & _)%books_inv.
    apply (invq_books e' (kept ++ x :: qs)); [by eapply invq_quiet | by rewrite E4 |]. rewrite E3, Hq. by apply sublist_inserts_l.
Qed.

Lemma fail_loop_spec fuel : ∀ kept e,
  InvQ e (kept ++ _queued (outbound e)) ∅ → _parked (outbound e) = ∅ → (length (_queued (outbound e)) ≤ fuel)%nat →
  wp (fail_loop config fuel kept) (λ kept' e', InvQ e' kept' ∅ ∧ _parked (outbound e') = ∅) (λ _, Books) e.
Proof.
  induction fuel as [| fuel IH]; intros kept e HQ Hp Hl; cbn [fail_loop].
  { destruct (_queued (outbound e)); [| simpl in Hl; lia]. rewrite app_nil_r in HQ. by apply wp_ret. }
  apply wp_bind, wp_gets. destruct (_queued (outbound e)) as [| x qs] eqn:Hq.
  { rewrite app_nil_r in HQ. by apply wp_ret. }
  apply wp_summary. simpl in Hl.
  apply (wp_then _ _ (λ _ e', e' = e) (λ _ e', e' = e)).
  - apply wp_try, wp_bind, wp_still; [apply still_validate | done |]. intros y. by destruct (is_protocol_error y).
  - intros [y |] ? ->.
    + apply (drop_entry x kept qs y (λ _, fail_loop config fuel kept)); [done | done | done |]. intros e1 HQ1 Hq1 Hp1. apply IH; [by rewrite Hq1 | done | rewrite Hq1; lia].
    + apply wp_bind, wp_out. apply IH; simpl; [| done | rewrite Hq; simpl; lia]. rewrite Hq, <- app_assoc. simpl.
      destruct HQ. by constructor.
  - intros y ? ->. eapply invq_books; [exact HQ | done |]. rewrite Hq. by apply sublist_inserts_l.
Qed.

Lemma fail_queued_spec e :
  Inv e → _parked (outbound e) = ∅ → wp (fail_queued_violating_negotiation config) (λ _, Inv) (λ _, Books) e.
Proof.
  intros HI Hp. unfold fail_queued_violating_negotiation. apply wp_bind, wp_gets.
  eapply wp_then; [apply fail_loop_spec; [| done | done] | | done].
  - pose proof (inv_invq e HI) as HQ. by rewrite Hp in HQ.
  - intros kept e' [HQ Hp']. apply wp_out. eapply invq_inv; [exact HQ | done..|]. unfold books. simpl. by rewrite Hp'.
Qed.

(** The outbound part of a CONNACK without a session. *)
Definition new_session : M S unit :=
  e ← gets id;
  purge_after_clean_session (negb (bool_decide (_pending_sub_requests e = [])));;
  reset_flow_for_connection config;;
  fail_queued_violating_negotiation config;;
  drain config.

Lemma new_session_spec e :
  Inv e → Cover (table e) (qrows e) (_sealed (outbound e)) → _pending_sub_requests e = subs →
  wp new_session
    (λ _ e', Inv e' ∧ (_queued (outbound e') = [] ∨ FlowControl.available (flow (outbound e')) ≤ 0))
    (λ _ e', reliable → Books e') e.
Proof.
  intros HI Hc Hs. unfold new_session. apply wp_bind, wp_gets.
  eapply wp_then; [by apply purge_spec | | by intros x e' Hn Hr]. intros [] e1 [Hok Ho Ha Hk Hf Hp].
  apply wp_bind, wp_bind, wp_gets, wp_out. set (e2 := set_outbound _ _).
  assert (Inv e2) as HI2.
  { constructor; simpl; try done; [by rewrite Hp | apply window_reset]. }
  eapply wp_then; [by apply fail_queued_spec | | done]. intros [] e3 HI3.
  eapply wp_mono; [by apply drain_inv | done |]. intros x e4 HI4 _. by apply inv_books.
Qed.
End purge.
