(* ===== verification/OutboundTheorems.v ===== *)
(** * What the outbound session promises

    The books are right in every reachable state, publications are admitted
    completely or not at all, and a restart rebuilds the books. *)

From S2P Require Import Prelude Vbi PyStr Primitives Enums Properties Topics Frame Ack Publish Handshake.
From S2P Require Import Subscription Types Buffer PacketIds Settings Store EngineState Outbound Wp Accounting OutboundInv OutboundAcks OutboundPublish OutboundReplay OutboundPurge.

(** ** Reachable states *)

(** What happens to the session: requests of the application, packets of the
    broker, and connections coming and going. *)
Inductive outbound_op :=
  | OpPublish (topic : pystr) (payload : bytes) (qos : qos_arg) (retain : bool) (properties : option propmap)
  | OpPuback (raw : RawPacket)
  | OpPubrec (raw : RawPacket)
  | OpPubcomp (raw : RawPacket)
  | OpSeal (mids : list Z)
  | OpDisconnect (reason_code : Z)
  | OpTransportClosed
  | OpConnected (n : NegotiatedSettings)
  | OpResume
  | OpNewSession
  | OpTakeEffects.

Section reachable.
Context {S : Type} `{OutStoreLaws S} (config : EngineConfig) (pop : gset Z → Z).
Implicit Types (e : Engine S).

Definition run_outbound (op : outbound_op) : M S unit :=
  match op with
  | OpPublish topic payload qos retain properties =>
      queue_publish config pop topic payload qos retain properties None;; mret tt
  | OpPuback raw => on_puback config raw
  | OpPubrec raw => on_pubrec config raw
  | OpPubcomp raw => on_pubcomp config raw
  | OpSeal mids => seal mids
  | OpDisconnect reason_code => _protocol_disconnect config reason_code
  | OpTransportClosed => transport_closed;; modify (set_state DISCONNECTED)
  | OpConnected n => start_connection;; modify (set_negotiated n);; modify (set_state CONNECTED)
  | OpResume => replay_session config
  | OpNewSession => new_session config
  | OpTakeEffects => modify (set_effects [])
  end.

(** The dictionaries handed in have one entry per key. *)
Definition op_ok (op : outbound_op) : Prop :=
  match op with
  | OpPublish _ _ _ _ (Some ps) => NoDup (dkeys ps)
  | _ => True
  end.

(** With a store that fails, an interrupted seal, resumption or settlement of a
    lost session leaves work half done, and the settlement relies on every seal
    having its row: those runs are set aside. *)
Definition survives (op : outbound_op) (r : res unit) : Prop :=
  match op with
  | OpSeal _ => is_ok r = true ∨ reliable
  | OpResume => is_ok r = true ∨ ¬ reliable
  | OpNewSession => is_ok r = true ∧ reliable
  | _ => True
  end.

Inductive outbound_reachable : Engine S → Prop :=
  | out_start e0 e : restarted config e0 → hydrate e0 = (Ok tt, e) → outbound_reachable e
  | out_step e op r e' : outbound_reachable e → op_ok op → run_outbound op e = (r, e') → survives op r →
      outbound_reachable e'.

(** The invariant, spelled out on the session's fields. *)
Definition session_books e : Prop :=
  let o := outbound e in
  Acct (table e) (qrows e) (packet_ids o) (_parked o) (_sealed o) (_pending_messages o) (_pending_bytes o)
    (dkeys (_pending_sub_requests e)) ∧
  Window (table e) (qrows e) (_sealed o) (flow o) ∧ (reliable → Cover (table e) (qrows e) (_sealed o)).

Lemma run_outbound_inv op e :
  (∀ s, s ≠ ∅ → pop s ∈ s) → Inv e → op_ok op → (op = OpNewSession → reliable) →
  wp (run_outbound op) (λ _ e', survives op (Ok tt) → Inv e') (λ x e', survives op (Raise x) → Inv e') e.
Proof.
  intros Hpop HI Hop Hrel. destruct op; cbn [run_outbound].
  - apply wp_bind. eapply wp_mono; [apply (queue_publish_spec config pop Hpop); [done | | by intros [??]] | |]; simpl.
    + intros ps ->. exact Hop.
    + intros handle e1 Hm. apply wp_ret. intros _. destruct Hm as [(w & _ & ? & _) | (mid & level & n & _ & Hm)]; [done | apply Hm].
    + intros x e1 Hm _. apply Hm.
  - eapply wp_mono; [by apply inv_on_puback | done..].
  - eapply wp_mono; [by apply inv_on_pubrec | done..].
  - eapply wp_mono; [by apply inv_on_pubcomp | done..].
  - eapply wp_mono; [by apply seal_spec | done |]. intros x e' Hn [? | ?]; done.
  - eapply wp_mono; [by apply inv_protocol_disconnect | done..].
  - apply wp_bind, wp_out, wp_modify. intros _. by apply (inv_rebooked e).
  - apply wp_bind, wp_out, wp_bind, wp_modify, wp_modify. intros _. by apply (inv_rebooked e).
  - eapply wp_mono; [by apply replay_session_spec | by intros _ e' [? _] |]. intros x e' Hb [? | ?]; [done |].
    by apply books_unreliable.
  - eapply wp_mono; [eapply new_session_spec; [done | by apply HI, Hrel | done] | by intros _ e' [? _] |].
    by intros x e' _ [? _].
  - apply wp_modify. intros _. by apply (inv_rebooked e).
Qed.

Lemma reachable_inv e : (∀ s, s ≠ ∅ → pop s ∈ s) → outbound_reachable e → Inv e.
Proof.
  intros Hpop. induction 1 as [e0 e Hre He | e op r e' _ HI Hop He Hs].
  - pose proof (hydrate_spec config e0 Hre) as Hh. unfold wp in Hh. rewrite He in Hh. apply Hh.
  - assert (op = OpNewSession → reliable) as Hnew by (by intros ->; destruct Hs).
    pose proof (run_outbound_inv op e Hpop HI Hop Hnew) as Hw. unfold wp in Hw. rewrite He in Hw.
    destruct r as [[] | x]; by apply Hw.
Qed.

Lemma inv_session e : Inv e → session_books e.
Proof. intros []. by split_and!. Qed.

(** Sequences of operations. *)
Fixpoint run_ops (ops : list outbound_op) e : Engine S :=
  match ops with [] => e | op :: ops => run_ops ops (run_outbound op e).2 end.
Fixpoint all_ok (ops : list outbound_op) e : bool :=
  match ops with [] => true | op :: ops => is_ok (run_outbound op e).1 && all_ok ops (run_outbound op e).2 end.

Lemma reachable_ops ops : ∀ e, reliable → Forall op_ok ops → all_ok ops e = true → outbound_reachable e →
  outbound_reachable (run_ops ops e).
Proof.
  induction ops as [| op ops IH]; intros e Hrel Hok Hall Hr; [done |]. apply Forall_cons in Hok as [Hop Hok].
  simpl in Hall. apply andb_true_iff in Hall as [H1 H2]. apply IH; try done.
  destruct (run_outbound op e) as [r e'] eqn:E. eapply out_step; [done | done | done |].
  destruct op; simpl in *; auto.
Qed.


(** C3: a publication is admitted completely or not at all.  Admitted, it is one
    more charged row under a fresh identifier within the limits, launched with
    one frame and a slot of the window or last in the queue, and queued only
    when no slot is free or the connection is down; a QoS 0 publication is sent
    and completed.  Refused, by the limits, by validation, by an encoder or by
    the store, it leaves rows, counters, queue, window and effects as they
    were. *)
Theorem publish_all_or_nothing topic payload qos retain properties prepared e :
  (∀ s, s ≠ ∅ → pop s ∈ s) → outbound_reachable e → (∀ ps, properties = Some ps → NoDup (dkeys ps)) →
  (is_Some prepared → alias_read properties) →
  match queue_publish config pop topic payload qos retain properties prepared e with
  | (Ok handle, e') =>
      (∃ w, handle = (None, AT_MOST_ONCE) ∧ Inv e' ∧ table e' = table e ∧ books (outbound e') = books (outbound e) ∧
         _effects e' = _effects e ++ [Effect.SEND w; Effect.PUBLISH_COMPLETE None]) ∨
      ∃ mid level n, within_limits config n (outbound e) ∧ admitted level n e handle e' mid
  | (Raise _, e') => rolled_back e e'
  end.
Proof. intros Hpop Hr. apply (queue_publish_spec config pop Hpop). by apply reachable_inv. Qed.


(** A restart rebuilds the books from the stored rows alone: each is charged
    and keeps its identifier, exactly the never-sent ones are queued, in the
    order they were stored, and the store is not changed; it raises only when
    the store does. *)
Theorem hydrate_restores e :
  restarted config e →
  match hydrate e with
  | (Ok _, e') => session_books e' ∧ qrows e' = filter (λ x, x.2.1 = QUEUED) (table e) ∧ table e' = table e
  | (Raise _, _) => ¬ reliable
  end.
Proof.
  intros Hre. pose proof (hydrate_spec config e Hre) as Hw. unfold wp in Hw.
  destruct (hydrate e) as [[[] | x] e']; [| done]. destruct Hw as (HI & Hc & Hq & Ht).
  split_and!; [by apply inv_session | by rewrite Hq, Ht | done].
Qed.
End reachable.

(** ** Concrete sessions *)

Definition sample_config : EngineConfig :=
  Build_EngineConfig (lit "c") MQTTv5 true 60 None None 65535 None None (Some 10) (Some 1000) None None None None 0 false false.
Definition sample_conn : Connection := mkConn false false None [] false None None 1 0 None false 0 None.

(** An engine over a store that holds a never-sent and a waiting publication. *)
Definition stored (mid : Z) (st : OutboundQoSState) : OutboundMessage :=
  mkOut mid (lit "t") [1; 2] AT_LEAST_ONCE false st false None None None 3.
Definition sample_heap : Heap := mkHeap [stored 5 QUEUED; stored 3 WAIT_PUBACK] [].
Definition sample_store : Memory.MemoryInflightStore := Memory.mkStore [(5, 0%nat); (3, 1%nat)] [].
Definition sample_engine {S} (s : S) : Engine S :=
  mkEngine DISCONNECTED NegotiatedSettings_default [] [] (OutboundSession_init sample_config) Inb.blank sample_conn sample_heap s.

Lemma sample_ok : MemoryLaws.ok sample_heap sample_store.
Proof.
  constructor; simpl.
  - repeat (apply Forall_cons; split; [by intros ps v |]). by apply Forall_nil.
  - apply NoDup_cons. split; [by intros ?%list_elem_of_singleton | apply NoDup_singleton].
  - intros mid l [[= -> ->] | [= -> ->]%list_elem_of_singleton]%elem_of_cons; by eexists.
Qed.

Lemma sample_restarted : restarted sample_config (sample_engine sample_store).
Proof.
  split_and!; [exact sample_ok | | done | done]. intros mid Hin.
  assert (mid ∈ [5; 3]) as Hm by exact Hin. set_solver by lia.
Qed.

Definition puback (mid : Z) : RawPacket := Build_RawPacket PUBACK 0 [0; mid].
Definition sample_ops : list outbound_op :=
  [OpConnected NegotiatedSettings_default; OpResume; OpPublish (lit "a") [7] (QInt 2) false None; OpPuback (puback 3);
   OpPubrec (puback 1); OpSeal [5]; OpTransportClosed; OpConnected NegotiatedSettings_default; OpNewSession;
   OpPublish (lit "b") [] (QInt 1) true None].
Definition sample_start : Engine Memory.MemoryInflightStore := (hydrate (sample_engine sample_store)).2.

Lemma sample_reachable : outbound_reachable sample_config pop_first sample_start.
Proof. eapply out_start; [exact sample_restarted |]. by vm_compute. Qed.

Lemma sample_run_reachable : outbound_reachable sample_config pop_first (run_ops sample_config pop_first sample_ops sample_start).
Proof.
  apply reachable_ops; [exact I | | by vm_compute | exact sample_reachable].
  repeat (apply Forall_cons; split; [exact I |]). by apply Forall_nil.
Qed.


(** The engine connected, over the memory store and over one whose next calls
    fail as the list says. *)
Definition sample_connected : Engine Memory.MemoryInflightStore :=
  run_ops sample_config pop_first [OpConnected NegotiatedSettings_default] sample_start.
Definition failing (faults : list bool) : Engine (Memory.MemoryInflightStore * list bool) :=
  run_ops sample_config pop_first [OpConnected NegotiatedSettings_default]
    (hydrate (sample_engine (sample_store, [false; false] ++ faults))).2.

Lemma failing_reachable faults : outbound_reachable sample_config pop_first (failing faults).
Proof.
  eapply (out_step _ _ _ (OpConnected NegotiatedSettings_default)); [| exact I | reflexivity | exact I].
  eapply (out_start _ _ (sample_engine (sample_store, [false; false] ++ faults))).
  - split_and!; [exact sample_ok | | done | done]. apply sample_restarted.
  - by vm_compute.
Qed.

Lemma sample_connected_reachable : outbound_reachable sample_config pop_first sample_connected.
Proof. apply reachable_ops; [exact I | | done | exact sample_reachable]. by repeat (apply Forall_cons; split; [exact I |]). Qed.

Lemma publish_all_or_nothing_witness :
  let run := queue_publish sample_config pop_first (lit "a") [1] (QInt 1) false None None in
  let e := failing [true; true; true] in
  let e' := (run e).2 in
  (run e).1 = Raise StoreError ∧ _sealed (outbound e') = [(1, true)] ∧
  match run e with
  | (Ok handle, e') =>
      (∃ w, handle = (None, AT_MOST_ONCE) ∧ Inv e' ∧ table e' = table e ∧ books (outbound e') = books (outbound e) ∧
         _effects e' = _effects e ++ [Effect.SEND w; Effect.PUBLISH_COMPLETE None]) ∨
      ∃ mid level n, within_limits sample_config n (outbound e) ∧ admitted level n e handle e' mid
  | (Raise _, e') => rolled_back e e'
  end.
Proof.
  cbv zeta. do 2 (split; [by vm_compute |]).
  apply (publish_all_or_nothing sample_config pop_first (lit "a") [1] (QInt 1) false None None (failing [true; true; true])
    pop_first_in (failing_reachable _)); [by intros ps | by intros [??]].
Defined.


Lemma hydrate_restores_witness :
  dkeys (qrows sample_start) = [5] ∧
  match hydrate (sample_engine sample_store) with
  | (Ok _, e') => session_books e' ∧
      qrows e' = filter (λ x, x.2.1 = QUEUED) (table (sample_engine sample_store)) ∧ table e' = table (sample_engine sample_store)
  | (Raise _, _) => ¬ reliable
  end.
Proof. split; [by vm_compute | exact (hydrate_restores sample_config _ sample_restarted)]. Defined.
