(* ===== verification/OutboundWire.v ===== *)
(** * Frames the outbound session derives without encoding

    A retransmission marks the retained frame instead of encoding again, and
    admission computes a frame's size instead of building it: both agree with
    the encoders. *)

From S2P Require Import Prelude Vbi PyStr Primitives Enums Properties Topics Frame Ack Publish Handshake.
From S2P Require Import Subscription Types Buffer PacketIds Settings Store EngineState Outbound.

Lemma append_vbi_one hd v : append_vbi [hd] v = let! d := encode_vbi v in Ok (hd :: d).
Proof. rewrite encode_vbi_digits. unfold append_vbi. by destruct (_ && _). Qed.

Lemma dup_flags level retain :
  publish_flags level retain true = Z.lor (publish_flags level retain false) 0x08 ∧
  ∀ b, mark_head (Z.lor 0x30 (publish_flags level retain false) :: b) = Z.lor 0x30 (publish_flags level retain true) :: b.
Proof. destruct level, retain; by vm_compute. Qed.

(** Marking a frame built without DUP gives the frame built with it. *)
Lemma publish_frame_dup level retain tb mid props payload :
  (let! item := publish_frame level (publish_flags level retain false) tb mid props payload in _mark_publish_dup item) =
  publish_frame level (publish_flags level retain true) tb mid props payload.
Proof.
  destruct (dup_flags level retain) as [_ Hm]. unfold publish_frame. change (PacketType_int PUBLISH) with 0x30.
  destruct (_ >? MAX_VBI); [done |]. cbn [rbind]. rewrite !append_vbi_one.
  destruct (encode_vbi _) as [d | x]; cbn [rbind]; [| done]. rewrite <- !app_comm_cons.
  destruct (truthy level); [destruct mid as [mid |]; [| done] |]; cbn [rbind app];
    (destruct (_ >=? SEGMENT_THRESHOLD); unfold _mark_publish_dup; simpl idx; cbn [rbind app]; by rewrite Hm).
Qed.

(** For QoS 1 and 2, setting the DUP bit in the first byte of a retained
    frame, contiguous or segmented, gives exactly the frame the encoder builds
    for a retransmission, under both protocols and with every outcome of the
    encoder; a marked frame is not changed by marking it again. *)
Theorem mark_dup_reencodes protocol topic payload level retain mid properties tb pb :
  truthy level = true →
  let encode dup := b_encode_publish_item (bind_codec protocol) topic payload (QLevel level) retain dup mid properties tb pb in
  (let! item := encode false in _mark_publish_dup item) = encode true ∧
  (∀ item, encode true = Ok item → _mark_publish_dup item = Ok item).
Proof.
  intros Hl encode.
  assert (Hall : (let! item := encode false in _mark_publish_dup item) = encode true).
  { unfold encode. destruct protocol; cbn [bind_codec b_encode_publish_item];
      unfold encode_publish_item_v311, encode_publish_item_v5; cbn [publish_level rbind];
      unfold check_publish_ids; rewrite Hl;
      (destruct (match mid with Some m => _require_outbound_mid m | None => _ end); cbn [rbind]; [| done]);
      (destruct (match tb with Some b => Ok b | None => _ end); cbn [rbind]; [| done]); [apply publish_frame_dup |].
    destruct (match pb with Some b => Ok b | None => _ end); cbn [rbind]; [apply publish_frame_dup | done]. }
  split; [exact Hall |]. intros item Hi. rewrite <- Hall in Hi. apply rbind_Ok_inv in Hi as (i0 & _ & Hi).
  assert (∀ b, mark_head (mark_head b) = mark_head b) as Hidem.
  { intros [| b0 b]; [done |]. simpl. destruct (Z.land b0 8 =? 0) eqn:E; simpl; [| by rewrite E].
    destruct (Z.land (Z.lor b0 8) 8 =? 0) eqn:E'; [| done]. exfalso. bools.
    rewrite Z.land_lor_distr_l in E'. change (Z.land 8 8) with 8 in E'. rewrite E in E'. done. }
  destruct i0 as [[| c b] | [| c h] p]; simpl in Hi; try done; injection Hi as <-; simpl.
  - destruct (Z.land c 8 =? 0) eqn:E; simpl; (unfold idx; simpl).
    + pose proof (Hidem (c :: b)) as Hd. simpl in Hd. rewrite E in Hd. simpl in Hd. by rewrite Hd.
    + by rewrite E.
  - destruct (Z.land c 8 =? 0) eqn:E; simpl; (unfold idx; simpl).
    + pose proof (Hidem (c :: h)) as Hd. simpl in Hd. rewrite E in Hd. simpl in Hd. by rewrite Hd.
    + by rewrite E.
Qed.

Lemma mark_dup_reencodes_witness :
  truthy AT_LEAST_ONCE = true ∧
  (let! item := b_encode_publish_item (bind_codec MQTTv5) (lit "a") [1] (QLevel AT_LEAST_ONCE) true false (Some 7) None None None in
   _mark_publish_dup item) = b_encode_publish_item (bind_codec MQTTv5) (lit "a") [1] (QLevel AT_LEAST_ONCE) true true (Some 7) None None None.
Proof.
  split; [done |].
  exact (proj1 (mark_dup_reencodes MQTTv5 (lit "a") [1] AT_LEAST_ONCE true (Some 7) None None None eq_refl)).
Defined.

(** The length of the topic, as admission measures it. *)
Lemma utf8_len_encode topic tb : encode_utf8 (VStr topic) = Ok tb → utf8_len topic = Ok (len tb).
Proof.
  intros (s & [= <-] & He & _)%encode_utf8_inv. unfold utf8_len. destruct (isascii topic) eqn:Ha.
  - rewrite utf8_encode_ascii in He by done. by simplify_eq.
  - by rewrite He.
Qed.

Lemma vbi_len_encode n d : encode_vbi n = Ok d → vbi_len n = Ok (len d).
Proof.
  rewrite encode_vbi_digits. destruct (_ && _) eqn:E; [| done]. bools. intros [= <-].
  destruct (vbi_digits_4 n) as (Hs & Hv & Hl); [lia |]. rewrite <- Hv at 1. by apply vbi_len_shape.
Qed.

(** The size of a frame from the sizes of its parts. *)
Lemma frame_wire_size level flags tb mid props payload item :
  publish_frame level flags tb mid props payload = Ok item →
  _publish_wire_size_from_parts (len tb) (len props) (len payload) level = Ok (item_size item).
Proof.
  intros Hf. pose proof Hf as Hf'. unfold publish_frame in Hf'. destruct (_ >? MAX_VBI) eqn:E; [done |].
  apply publish_frame_inv in Hf as [(d & Hd & Hi) _].
  set (n := 2 + len tb + (if truthy level then 2 else 0) + len props + len payload) in *.
  assert (len (publish_body level tb mid props payload) = n) as Hn.
  { unfold publish_body, mid_bytes_of, n. destruct (truthy level); [destruct mid; [len_lia |] | len_lia].
    cbn [rbind] in Hf'. apply rbind_Ok_inv in Hf' as (? & _ & Hf'). done. }
  unfold _publish_wire_size_from_parts. fold n. rewrite E. cbn [rbind]. rewrite Hn in Hd. rewrite (vbi_len_encode _ _ Hd).
  cbn [rbind]. rewrite item_size_bytes, Hi. f_equal. rewrite <- Hn. len_lia.
Qed.

(** The wire size admission computes for a publication from its parts,
    without building it, is the size of the frame the encoder produces, under
    both protocols; so a publication refused for its size is one the broker's
    limit really excludes. *)
Theorem publish_wire_size_exact config topic payload level retain dup mid properties item :
  b_encode_publish_item (bind_codec (protocol config)) topic payload (QLevel level) retain dup mid properties None None = Ok item →
  publish_wire_size config topic (len payload) (QLevel level) properties = Ok (item_size item).
Proof.
  unfold publish_wire_size, size_parts, codec. cbn [to_QoS rbind].
  destruct (protocol config); cbn [bind_codec b_encode_publish_item b_is_mqtt5 negb];
    unfold encode_publish_item_v311, encode_publish_item_v5; cbn [publish_level rbind]; intros Hi;
    apply rbind_Ok_inv in Hi as (_ & _ & Hi); apply rbind_Ok_inv in Hi as (tb & Ht & Hi); rewrite (utf8_len_encode _ _ Ht); cbn [rbind].
  - by apply frame_wire_size in Hi.
  - apply rbind_Ok_inv in Hi as (props & Hp & Hi). destruct (has_values properties); cbn [negb rbind] in *.
    + apply rbind_Ok_inv in Hp as (_ & _ & Hp). rewrite Hp. cbn [rbind]. by apply frame_wire_size in Hi.
    + injection Hp as <-. by apply frame_wire_size in Hi.
Qed.

Lemma publish_wire_size_exact_witness :
  ∃ item, b_encode_publish_item (bind_codec (protocol (Build_EngineConfig (lit "c") MQTTv5 true 60 None None 65535 None None
      None None None None None None 0 false false))) (lit "a/b") [1; 2; 3] (QLevel EXACTLY_ONCE) false false (Some 9) None None None = Ok item ∧
    publish_wire_size (Build_EngineConfig (lit "c") MQTTv5 true 60 None None 65535 None None None None None None None None 0 false false)
      (lit "a/b") (len [1; 2; 3]) (QLevel EXACTLY_ONCE) None = Ok (item_size item).
Proof.
  eexists. split; [by vm_compute |].
  apply (publish_wire_size_exact (Build_EngineConfig (lit "c") MQTTv5 true 60 None None 65535 None None None None None None None None 0 false false)
    (lit "a/b") [1; 2; 3] EXACTLY_ONCE false false (Some 9) None). by vm_compute.
Defined.
