(* ===== verification/InboundInv.v ===== *)
(** * The inbound session keeps its books

    Hoare-style rules for the steps of [InboundSession] over any store that
    keeps the promises of [InStoreLaws], failing stores included, and the
    invariant every handler preserves, also when it raises. *)

From S2P Require Import Prelude Vbi PyStr Primitives Enums Properties Topics Frame Ack Publish Handshake.
From S2P Require Import Subscription Types Buffer PacketIds Settings Store StoreIn EngineState Outbound Inbound Wp.
From S2P Require Import Accounting InboundBooks.

Section inv.
Context {S : Type} `{InStoreLaws S} (config : EngineConfig).
Implicit Types (e : Engine S) (t : intable) (i : Inb.InboundSession).

Definition itable e : intable := irows (heap e) (store e).
Abbreviation Books := (InBooks (manual_ack config) reliable).

Record IInv e : Prop := {
  iv_ok : in_ok (heap e) (store e);
  iv_books : Books (itable e) (inbound e);
  iv_held c l : Inb._replay (inbound e) = Some c → l ∈ Cursor.held c → is_Some (ih (heap e) !! l) }.

(** What the inbound session leaves alone. *)
Definition rest e := (state e, negotiated e, _pending_sub_requests e, outbound e, conn e).

(** From [e0] to [e] the table has become [t], the session [i], and the effects
    [fx] have been emitted; nothing else of the engine has changed. *)
Record went e0 t i (fx : list Effect.t) e : Prop := {
  w_ok : in_ok (heap e) (store e);
  w_table : itable e = t;
  w_inbound : inbound e = i;
  w_frame : ih_frame (heap e0) (heap e);
  w_effects : _effects e = _effects e0 ++ fx;
  w_rest : rest e = rest e0 }.

(** The objects the cursor holds, seen from a state. *)
Definition held_ok (h : Heap) i : Prop :=
  ∀ c l, Inb._replay i = Some c → l ∈ Cursor.held c → is_Some (ih h !! l).

Lemma went_refl e : in_ok (heap e) (store e) → went e (itable e) (inbound e) [] e.
Proof. intros. constructor; try done. by rewrite app_nil_r. Qed.

Lemma inv_went e : IInv e → went e (itable e) (inbound e) [] e.
Proof. intros []. by apply went_refl. Qed.

Lemma went_inv e0 t i fx e : went e0 t i fx e → Books t i → held_ok (heap e0) i → IInv e.
Proof.
  intros [Hok Ht Hi Hf _ _] HB Hh. constructor; [done | by rewrite Ht, Hi |]. rewrite Hi. intros c l Hc Hl. apply Hf. eauto.
Qed.

(** *** The steps *)

Lemma st_modify e0 t i fx f (Q : unit → Engine S → Prop) R e :
  went e0 t i fx e → (∀ e', went e0 t (f i) fx e' → Q tt e') → wp (in_modify f) Q R e.
Proof.
  intros [Hok Ht Hi Hf Hx Hr] HQ. apply wp_modify, HQ. constructor; try done. simpl. by rewrite Hi.
Qed.

Lemma st_emit e0 t i fx x (Q : unit → Engine S → Prop) R e :
  went e0 t i fx e → (∀ e', went e0 t i (fx ++ [x]) e' → Q tt e') → wp (_emit x) Q R e.
Proof.
  intros [Hok Ht Hi Hf Hx Hr] HQ. apply wp_modify, HQ. constructor; try done. simpl. by rewrite Hx, app_assoc.
Qed.

Lemma st_inbound {A} e0 t i fx (k : Inb.InboundSession → M S A) Q R e :
  went e0 t i fx e → wp (k i) Q R e → wp (gets inbound ≫= k) Q R e.
Proof. intros [_ _ Hi _ _ _] Hk. apply wp_bind, wp_gets. by rewrite Hi. Qed.

Lemma went_after e0 t i fx e t' h' s' :
  went e0 t i fx e → in_ok h' s' → ih_frame (heap e) h' → irows h' s' = t' → went e0 t' i fx (set_heap_store (h', s') e).
Proof.
  intros [Hok Ht Hi Hf Hx Hr] Hok' Hf' Ht'. constructor; try done. by eapply ih_frame_trans.
Qed.

Lemma st_meta e0 t i fx mid (Q : option InboundRecordMeta → Engine S → Prop) (R : exn → Engine S → Prop) e :
  went e0 t i fx e →
  (∀ e', went e0 t i fx e' → Q (Memory.meta_of mid <$> dget mid t) e') →
  (∀ x e', went e0 t i fx e' → ¬ reliable → is_mqtt_error x = false → R x e') → wp (call (in_meta mid)) Q R e.
Proof.
  intros Hw HQ HR. apply wp_call. intros r h' s' Hc. apply in_meta_law in Hc as (Hok & Hf & Ht & Hr); [| apply Hw].
  assert (went e0 t i fx (set_heap_store (h', s') e)) by (eapply went_after; [exact Hw | done.. |]; rewrite Ht; apply Hw).
  destruct r as [o | x]; [subst o | by apply HR; destruct Hr]. replace (irows (heap e) (store e)) with t by (symmetry; apply Hw).
  by apply HQ.
Qed.

Lemma st_get e0 t i fx mid (Q : option loc → Engine S → Prop) (R : exn → Engine S → Prop) e :
  went e0 t i fx e →
  (∀ l m e', went e0 t i fx e' → ih (heap e') !! l = Some m → dget mid t = Some m → Q (Some l) e') →
  (∀ e', went e0 t i fx e' → dget mid t = None → Q None e') →
  (∀ x e', went e0 t i fx e' → ¬ reliable → is_mqtt_error x = false → R x e') → wp (call (get_in mid)) Q R e.
Proof.
  intros Hw HQ HN HR. apply wp_call. intros r h' s' Hc. apply get_in_law in Hc as (Hok & Hf & Ht & Hr); [| apply Hw].
  assert (went e0 t i fx (set_heap_store (h', s') e)) by (eapply went_after; [exact Hw | done.. |]; rewrite Ht; apply Hw).
  assert (irows (heap e) (store e) = t) as E by apply Hw. rewrite E in Hr.
  destruct r as [[l |] | x]; [| by apply HN | by apply HR; destruct Hr]. destruct Hr as (m & ? & ?). by eapply HQ.
Qed.

Lemma st_count e0 t i fx (Q : Z → Engine S → Prop) (R : exn → Engine S → Prop) e :
  went e0 t i fx e → (∀ e', went e0 t i fx e' → Q (len t) e') →
  (∀ x e', went e0 t i fx e' → ¬ reliable → is_mqtt_error x = false → R x e') → wp (call in_count) Q R e.
Proof.
  intros Hw HQ HR. apply wp_call. intros r h' s' Hc. apply in_count_law in Hc as (Hok & Hf & Ht & Hr); [| apply Hw].
  assert (went e0 t i fx (set_heap_store (h', s') e)) by (eapply went_after; [exact Hw | done.. |]; rewrite Ht; apply Hw).
  destruct r as [n | x]; [subst n | by apply HR; destruct Hr]. replace (irows (heap e) (store e)) with t by (symmetry; apply Hw).
  by apply HQ.
Qed.

Lemma st_next e0 t i fx g (Q : option (list loc) * replay_gen → Engine S → Prop) (R : exn → Engine S → Prop) e :
  went e0 t i fx e →
  (∀ page g' e', went e0 t i fx e' → page ≠ [] → (∀ l, l ∈ page → is_Some (ih (heap e') !! l)) → Q (Some page, g') e') →
  (∀ g' e', went e0 t i fx e' → Q (None, g') e') →
  (∀ x e', went e0 t i fx e' → is_mqtt_error x = false → R x e') → wp (call (in_replay_next g)) Q R e.
Proof.
  intros Hw HQ HN HR. apply wp_call. intros r h' s' Hc. apply in_next_law in Hc as (Hok & Hf & Ht & Hr); [| apply Hw].
  assert (went e0 t i fx (set_heap_store (h', s') e)) by (eapply went_after; [exact Hw | done.. |]; rewrite Ht; apply Hw).
  destruct r as [[[page |] g'] | x]; [| by apply HN | by apply HR]. destruct Hr as [Hne Hp]. apply HQ; [done.. |].
  intros l (m & ? & _)%Hp. by exists m.
Qed.

Lemma st_mark e0 t i fx mid (Q : bool → Engine S → Prop) (R : exn → Engine S → Prop) e :
  went e0 t i fx e →
  (∀ b m e', went e0 (dset mid (i_set_delivered m) t) i fx e' → dget mid t = Some m → Q b e') →
  (∀ b e', went e0 t i fx e' → (∀ m, dget mid t = Some m → i_delivered m = true) → Q b e') →
  (∀ x e', went e0 t i fx e' → ¬ reliable → is_mqtt_error x = false → R x e') → wp (call (mark_in_delivered mid)) Q R e.
Proof.
  intros Hw HQ HN HR. apply wp_call. intros r h' s' Hc. apply mark_law in Hc as (Hok & Hf & Hr); [| apply Hw].
  assert (irows (heap e) (store e) = t) as E by apply Hw. rewrite E in Hr.
  destruct r as [b | x].
  - destruct (dget mid t) as [m |] eqn:Em; [destruct (i_delivered m) eqn:Ed |]; destruct Hr as [-> Ht].
    + apply HN; [by eapply went_after | by intros ? [= <-]].
    + eapply HQ; [| done]. by eapply went_after.
    + apply HN; [by eapply went_after | done].
  - destruct Hr as (? & ? & Ht). apply HR; [| done..]. by eapply went_after.
Qed.

Lemma st_transition e0 t i fx mid st new a (Q : option InboundRecordMeta → Engine S → Prop) (R : exn → Engine S → Prop) e :
  went e0 t i fx e →
  (∀ x m e', went e0 (dset mid (i_set_state m new (user_ack m a)) t) i fx e' → dget mid t = Some m → i_state m = st →
     Q (Some x) e') →
  (∀ e', went e0 t i fx e' → (∀ m, dget mid t = Some m → i_state m ≠ st) → Q None e') →
  (∀ x e', went e0 t i fx e' → ¬ reliable → is_mqtt_error x = false → R x e') → wp (call (transition_in mid st new a)) Q R e.
Proof.
  intros Hw HQ HN HR. apply wp_call. intros r h' s' Hc. apply transition_in_law in Hc as (Hok & Hf & Hr); [| apply Hw].
  assert (irows (heap e) (store e) = t) as E by apply Hw. rewrite E in Hr. destruct r as [[x |] | x].
  - destruct Hr as (m & ? & ? & ?). eapply HQ; [| done..]. by eapply went_after.
  - destruct Hr as [? ?]. apply HN; [| done]. by eapply went_after.
  - destruct Hr as (? & ? & ?). apply HR; [| done..]. by eapply went_after.
Qed.

Lemma st_complete e0 t i fx mid st (Q : option InboundRecordMeta → Engine S → Prop) (R : exn → Engine S → Prop) e :
  went e0 t i fx e →
  (∀ m e', went e0 (ddel mid t) i fx e' → dget mid t = Some m → i_state m = st → Q (Some (Memory.meta_of mid m)) e') →
  (∀ e', went e0 t i fx e' → (∀ m, dget mid t = Some m → i_state m ≠ st) → Q None e') →
  (∀ x e', went e0 t i fx e' → ¬ reliable → is_mqtt_error x = false → R x e') → wp (call (complete_in mid st)) Q R e.
Proof.
  intros Hw HQ HN HR. apply wp_call. intros r h' s' Hc. apply complete_in_law in Hc as (Hok & Hf & Hr); [| apply Hw].
  assert (irows (heap e) (store e) = t) as E by apply Hw. rewrite E in Hr. destruct r as [[x |] | x].
  - destruct Hr as (m & ? & ? & -> & ?). eapply HQ; [| done..]. by eapply went_after.
  - destruct Hr as [? ?]. apply HN; [| done]. by eapply went_after.
  - destruct Hr as (? & ? & ?). apply HR; [| done..]. by eapply went_after.
Qed.

Lemma st_clear e0 t i fx (Q : unit → Engine S → Prop) (R : exn → Engine S → Prop) e :
  went e0 t i fx e → (∀ e', went e0 [] i fx e' → Q tt e') →
  (∀ x e', went e0 t i fx e' → ¬ reliable → is_mqtt_error x = false → R x e') → wp (call clear_in) Q R e.
Proof.
  intros Hw HQ HR. apply wp_call. intros r h' s' Hc. apply clear_in_law in Hc as (Hok & Hf & Hr); [| apply Hw].
  assert (irows (heap e) (store e) = t) as E by apply Hw. rewrite E in Hr. destruct r as [[] | x].
  - apply HQ. by eapply went_after.
  - destruct Hr as (? & ? & ?). apply HR; [| done..]. by eapply went_after.
Qed.

(** A new object put into the table. *)
Lemma st_put {A} e0 t i fx m (k : unit → M S A) (h : exn → M S unit) Q R e :
  went e0 t i fx e →
  (∀ e', went e0 (dset (i_mid m) (kept m) t) i fx e' → 0 < i_logical_size m → wp (k tt) Q R e') →
  (∀ x e', went e0 t i fx e' → (reliable → i_logical_size m ≤ 0) → is_mqtt_error x = false →
     wp (h x) (λ a, wp (k a) Q R) R e') →
  wp (l ← new_inbound m; try_except (call (put_in l)) h ≫= k) Q R e.
Proof.
  intros Hw HQ HR. unfold new_inbound. apply wp_bind, wp_bind, wp_gets, wp_bind, wp_modify, wp_ret.
  destruct (i_alloc_law (heap e) (store e) m) as [Hok1 Ht1]; [apply Hw |].
  set (e1 := set_heap (i_alloc (heap e) m) e).
  assert (went e0 t i fx e1) as Hw1.
  { destruct Hw as [? ? ? Hf ? ?]. constructor; try done; [by unfold itable; simpl; rewrite Ht1 |]. eapply ih_frame_trans; [exact Hf |]. apply ih_frame_alloc. }
  apply wp_bind, wp_try, wp_call. intros r h' s' Hc.
  apply (put_in_law _ _ _ m) in Hc as (Hok & Hf & Hr); [| exact Hok1 |].
  2: { simpl. rewrite lookup_app_r by done. by rewrite Nat.sub_diag. }
  assert (irows (heap e1) (store e1) = t) as E by apply Hw1. rewrite E in Hr. destruct r as [[] | x].
  - destruct Hr as [? ?]. apply HQ; [| done]. by eapply went_after.
  - destruct Hr as (? & ? & ?). apply HR; [| done..]. by eapply went_after.
Qed.

Lemma st_lookup {A} e0 t i fx mid (k : option InboundRecordMeta → M S A) Q R e :
  went e0 t i fx e → Inb._stored_inbound i = len t →
  (∀ e', went e0 t i fx e' → wp (k (Memory.meta_of mid <$> dget mid t)) Q R e') →
  (∀ x e', went e0 t i fx e' → ¬ reliable → is_mqtt_error x = false → R x e') →
  wp (_lookup_stored_inbound mid ≫= k) Q R e.
Proof.
  intros Hw Hn HQ HR. unfold _lookup_stored_inbound. apply wp_bind, (st_inbound e0 t i fx); [done |].
  apply wp_if; intros Hz; bools.
  - apply wp_ret. rewrite Hn in Hz. apply len_0_nil in Hz. subst t. by apply (HQ e).
  - by eapply st_meta.
Qed.

(** *** Fragments that read or answer *)

Lemma st_answer {A} e0 t i fx encode first mid (k : unit → M S A) Q R e :
  went e0 t i fx e → encode = encode_ack_success first → byte_ok first → 1 ≤ mid ≤ 65535 →
  (∀ e', went e0 t i (fx ++ [Effect.SEND_ACK [first; 2; mid / 256; mid mod 256]]) e' → wp (k tt) Q R e') →
  wp (answer encode mid ≫= k) Q R e.
Proof.
  intros Hw -> Hf Hm HQ. unfold answer, _send_ack. rewrite encode_ack_success_Ok by (done || lia).
  apply wp_bind, wp_bind. unfold wp, lift. by eapply st_emit.
Qed.

(** A connection torn down: the inbound session is left as it is. *)
Definition torn e e' : Prop := heap e' = heap e ∧ store e' = store e ∧ inbound e' = inbound e.

Lemma torn_for_each {A} (l : list A) body e :
  (∀ x e, wp (body x) (λ _, torn e) (λ _, torn e) e) → wp (for_each l body) (λ _, torn e) (λ _, torn e) e.
Proof.
  intros Hb. revert e. induction l as [| x l IH]; intros e; [done |]. cbn [for_each]. apply wp_bind.
  eapply wp_mono; [apply Hb | | done]. intros [] e' (E1 & E2 & E3). unfold torn in *. rewrite <- E1, <- E2, <- E3. apply IH.
Qed.

Lemma torn_release e : wp (_release_pending_subscription_requests) (λ _, torn e) (λ _, torn e) e.
Proof.
  unfold _release_pending_subscription_requests. apply wp_bind, wp_gets. destruct (_pending_sub_requests e); [done |].
  apply wp_bind, wp_gets, wp_bind, wp_if; intros _; [done |].
  eapply wp_mono; [apply torn_for_each; done | | done]. by intros [] e' ?.
Qed.

Lemma torn_disconnect reason e : wp (_protocol_disconnect config reason) (λ _, torn e) (λ _, torn e) e.
Proof.
  unfold _protocol_disconnect. apply wp_bind, (wp_mono _ (λ _, torn e) _ (λ _, torn e)); [| | done].
  - apply wp_if; intros _; [| done]. apply wp_bind, wp_lift; [| done]. intros w _.
    apply wp_bind, wp_try. unfold _check_outbound_size. apply wp_bind, wp_bind, wp_gets.
    assert (∀ b, wp (only_if b (_send (Contiguous w))) (λ _, torn e) (λ _, torn e) e) as Hs by (by intros []).
    destruct (n_maximum_packet_size (negotiated e)); [| by apply Hs]. apply wp_if; intros _; [| by apply Hs].
    apply wp_raise. by apply Hs.
  - intros [] e' (E1 & E2 & E3). apply wp_bind. unfold _enter_disconnected. apply wp_bind, wp_modify, wp_modify.
    apply wp_bind. eapply wp_mono; [apply torn_release | |]; unfold torn; simpl; rewrite E1, E2, E3; [| done].
    by intros [] e2 ?.
Qed.

Lemma torn_inv e e' : torn e e' → IInv e → IInv e'.
Proof. intros (E1 & E2 & E3) [Hok HB Hh]. constructor; unfold itable; rewrite ?E1, ?E2, ?E3; done. Qed.

Lemma torn_went e0 t i fx e e' : went e0 t i fx e → Books t i → held_ok (heap e0) i → torn e e' → IInv e'.
Proof. intros Hw HB Hh Ht. eapply torn_inv; [exact Ht | by eapply went_inv]. Qed.

(** [_protocol_disconnect; raise]. *)
Lemma torn_refuse {A} reason e (Q : A → Engine S → Prop) :
  IInv e → wp (_protocol_disconnect config reason;; raise ProtocolError) Q (λ _, IInv) e.
Proof.
  intros HI. apply wp_bind. eapply wp_mono; [apply torn_disconnect | |].
  - intros [] e' Ht. apply wp_raise. exact (torn_inv e e' Ht HI).
  - intros x e' Ht. exact (torn_inv e e' Ht HI).
Qed.
End inv.
