(* ===== verification/InboundHandlers.v ===== *)
(** * The handlers of received publications keep the inbound books *)

From S2P Require Import Prelude Vbi PyStr Primitives Enums Properties Topics Frame Ack Publish Handshake.
From S2P Require Import Subscription Types Buffer PacketIds Settings Store StoreIn EngineState Outbound Inbound Wp.
From S2P Require Import Accounting InboundBooks InboundInv.

Section handlers.
Context {S : Type} `{InStoreLaws S} (config : EngineConfig).
Implicit Types (e : Engine S) (t : intable) (i : Inb.InboundSession).

Abbreviation Books := (InBooks (manual_ack config) reliable).
Abbreviation IInv := (IInv config).

(** A handler, in the middle: the books are right and may be changed further. *)
Definition sound_at e0 t i fx e : Prop := went e0 t i fx e ∧ Books t i ∧ held_ok (heap e0) i.

Lemma sound_inv e0 t i fx e : sound_at e0 t i fx e → IInv e.
Proof. intros (Hw & HB & Hh). by eapply went_inv. Qed.

Lemma sound_start e : IInv e → sound_at e (itable e) (inbound e) [] e.
Proof. intros HI. split_and!; [by eapply inv_went | apply HI | exact (iv_held _ _ HI)]. Qed.

(** The next state of the books after a step that changed nothing they read. *)
Lemma sound_went e0 t i fx e t' i' fx' e' :
  sound_at e0 t i fx e → went e0 t' i' fx' e' → Books t' i' → Inb._replay i' = Inb._replay i → sound_at e0 t' i' fx' e'.
Proof. intros (_ & _ & Hh) Hw HB Hr. split_and!; try done. unfold held_ok in *. by rewrite Hr. Qed.

(** *** Slots and bytes *)

Definition admitted_slot (n : option Z) i : Inb.InboundSession :=
  match n with None => taken i | Some n => reserved n (taken i) end.

Definition within_bytes (n : option Z) i : Prop :=
  match n, max_inbound_inflight_bytes config with
  | Some n, Some limit => Inb._pending_bytes i + n ≤ limit
  | _, _ => True
  end.

Lemma st_acquire {A} e0 t i fx n (k : Z → M S A) Q (R : exn → Engine S → Prop) e :
  sound_at e0 t i fx e →
  (∀ e', went e0 t (admitted_slot n i) fx e' → _inflight i < Inb._receive_maximum i → within_bytes n i →
     wp (k (_inflight i + 1)) Q R e') →
  (∀ x e', IInv e' → R x e') → wp (_acquire_slot config n ≫= k) Q R e.
Proof.
  intros Hs HQ HR. pose proof (sound_inv _ _ _ _ _ Hs) as HI. destruct Hs as (Hw & HB & Hh).
  unfold _acquire_slot. apply wp_bind, (st_inbound e0 t i fx); [done |].
  assert (∀ reason, wp (_protocol_disconnect config reason;; raise ProtocolError) (λ a : Z, wp (k a) Q R) R e) as Hd.
  { intros reason. eapply wp_mono; [by apply torn_refuse | by intros a e' Ha; apply Ha | apply HR]. }
  apply wp_if; intros Hf; [apply Hd |]. rewrite Z.geb_leb in Hf. bools.
  apply wp_if; intros Hb; [apply Hd |].
  assert (within_bytes n i) as Hby.
  { unfold within_bytes. destruct n as [n |]; [| done]. destruct (max_inbound_inflight_bytes config); [| done].
    rewrite Z.gtb_ltb in Hb. bools. lia. }
  apply wp_bind. apply (wp_mono _ (λ _, went e0 t (taken i) fx) _ (λ _ _, False)); [| | done].
  { unfold taken. apply wp_only_if; intros E; rewrite E; [| done]. by eapply st_modify. }
  intros [] e1 Hw1. destruct n as [n |]; apply wp_bind.
  - apply wp_bind. eapply st_modify; [exact Hw1 |]. intros e2 Hw2.
    apply (wp_mono _ (λ _, went e0 t (reserved n (taken i)) fx) _ (λ _ _, False)); [| | done].
    + destruct (taken_fields i) as (b & Eb & _). unfold reserved. rewrite Eb in *. simpl in *.
      apply wp_only_if; intros E; rewrite E; [by eapply st_modify | done].
    + intros [] e3 Hw3. apply wp_ret. by apply HQ.
  - apply wp_ret, wp_ret. by apply HQ.
Qed.

Lemma st_release {A} e0 t i fx n (k : unit → M S A) Q (R : exn → Engine S → Prop) e :
  went e0 t i fx e → 0 < n ≤ Inb._pending_bytes i →
  (∀ e', went e0 t (unreserved n i) fx e' → wp (k tt) Q R e') → wp (_release_pending_bytes n ≫= k) Q R e.
Proof.
  intros Hw Hn HQ. unfold _release_pending_bytes. apply wp_bind, (st_inbound e0 t i fx); [done |].
  rewrite Z.gtb_ltb. rewrite (proj2 (Z.leb_gt _ _)), (proj2 (Z.ltb_ge _ _)) by lia. simpl. by eapply st_modify.
Qed.

(** The row and the slot of a new exchange. *)
Lemma st_store {A} e0 t i fx m (k : Z → M S A) Q (R : exn → Engine S → Prop) e :
  went e0 t (reserved (i_logical_size m) (taken i)) fx e → Books t i → held_ok (heap e0) i → 0 ≤ i_logical_size m →
  (∀ e' ps, went e0 (dset (i_mid m) (i_set_properties m ps) t) (opened (i_mid m) (i_logical_size m) i) fx e' → 0 < i_logical_size m →
     wp (k (Inb._next_token i)) Q R e') →
  (∀ x e', IInv e' → R x e') → wp (store_exchange m ≫= k) Q R e.
Proof.
  intros Hw HB Hh Hn HQ HR. destruct (taken_fields i) as (b & Eb & _).
  destruct (reserved_fields (i_logical_size m) (Inb.set_handoff b i)) as (h & Er & Hh1 & Hh2).
  apply wp_bind. unfold store_exchange. eapply st_put; [exact Hw | |].
  - intros e1 Hw1 Hpos. unfold current_add, fresh_exchange, new_token, _remember_inbound.
    apply wp_bind. eapply st_modify; [exact Hw1 |]. intros e2 Hw2.
    apply wp_bind, wp_bind. eapply st_inbound; [exact Hw2 |].
    apply wp_bind. eapply st_modify; [exact Hw2 |]. intros e3 Hw3. apply wp_ret.
    apply wp_bind. eapply st_modify; [exact Hw3 |]. intros e4 Hw4. apply wp_ret.
    apply wp_bind. eapply st_modify; [exact Hw4 |]. intros e5 Hw5. apply wp_ret.
    rewrite Eb, Er in Hw5. rewrite Eb, Er. simpl. destruct (kept_law m) as [ps Ek]. rewrite Ek in Hw5.
    apply (HQ e5 ps); [| done]. unfold opened. by rewrite Eb, Er.
  - intros x e1 Hw1 _ _. pose proof (reserved_books _ _ _ _ (i_logical_size m) HB) as HB'.
    assert (Hh' : ∀ j, Inb._replay j = Inb._replay i → held_ok (heap e0) j) by (intros j Ej; unfold held_ok; by rewrite Ej).
    assert (held_ok (heap e0) (unreserved (i_logical_size m) (reserved (i_logical_size m) (taken i)))) as Hh1'.
    { apply Hh'. by rewrite Eb, Er. }
    unfold _release_pending_bytes. apply wp_bind. eapply st_inbound; [exact Hw1 |].
    assert (Inb._pending_bytes (reserved (i_logical_size m) (taken i)) = Inb._pending_bytes i + i_logical_size m) as Ebytes.
    { by rewrite Eb, Er. }
    assert (0 ≤ Inb._pending_bytes i) as Hp0.
    { rewrite (lg_bytes _ _ _ (ib_ledger _ _ _ _ HB)). apply sumw_nonneg. intros y Hy.
      pose proof (ledger_pos _ _ _ (ib_ledger _ _ _ _ HB)) as Hpos. rewrite Forall_forall in Hpos. apply Hpos in Hy. lia. }
    apply wp_if; intros Hc.
    + apply wp_raise, HR. apply orb_true_iff in Hc. rewrite Ebytes, Z.gtb_ltb in Hc. destruct Hc as [Hc | Hc]; bools; [| lia].
      assert (i_logical_size m = 0) as E0 by lia. eapply went_inv; [exact Hw1 | | apply Hh'; by rewrite Eb, Er].
      eapply books_same; [exact HB' |]. rewrite E0 in *. unfold unreserved. rewrite Eb, Er. simpl.
      by rewrite !Z.add_0_r, !Z.sub_0_r.
    + eapply st_modify; [exact Hw1 |]. intros e2 Hw2. apply wp_raise, HR. by eapply went_inv.
Qed.

(** *** Identities *)

Lemma st_token {A} e0 t i fx mid (k : Z → M S A) Q R e :
  sound_at e0 t i fx e →
  (∀ tok i' e', sound_at e0 t i' fx e' → Inb._exchange_tokens i' !! mid = Some tok →
     (∀ tok, Inb._exchange_tokens i !! mid = Some tok → i' = i) → Inb._replay i' = Inb._replay i → wp (k tok) Q R e') →
  wp (_exchange_token mid ≫= k) Q R e.
Proof.
  intros Hs HQ. unfold _exchange_token. apply wp_bind, (st_inbound e0 t i fx); [apply Hs |].
  destruct (Inb._exchange_tokens i !! mid) as [tok |] eqn:E; [apply wp_ret; by eapply HQ |].
  unfold fresh_exchange, new_token. apply wp_bind. eapply st_inbound; [apply Hs |].
  apply wp_bind. eapply st_modify; [apply Hs |]. intros e1 Hw1. apply wp_ret.
  apply wp_bind. eapply st_modify; [exact Hw1 |]. intros e2 Hw2. apply wp_ret.
  eapply HQ; [eapply sound_went; [exact Hs | exact Hw2 | exact (tokened_books _ _ _ _ mid (proj1 (proj2 Hs))) | done] | | by intros; simplify_eq | done].
  simpl. by rewrite lookup_insert_eq.
Qed.

Lemma st_bind {A} e0 t i fx message mid (k : Message → M S A) Q R e :
  sound_at e0 t i fx e → m_mid message = Some mid →
  (∀ message' i' e', sound_at e0 t i' fx e' → (∀ tok, Inb._exchange_tokens i !! mid = Some tok → i' = i) →
     Inb._replay i' = Inb._replay i →
     (message' = message ∨ ∃ tok, message' = with_ack_token message tok) → wp (k message') Q R e') →
  wp (bind_if_manual config message ≫= k) Q R e.
Proof.
  intros Hs Hm HQ. unfold bind_if_manual, _bind_ack_token. apply wp_bind, wp_if; intros _.
  - rewrite Hm. eapply st_token; [exact Hs |]. intros tok i' e' Hs' _ Hi Hr. apply wp_ret. eapply HQ; eauto.
  - apply wp_ret. eapply HQ; eauto.
Qed.

(** Redelivery of a stored row. *)
Lemma st_emit_message {A} e0 t i fx m dup (k : unit → M S A) Q R e :
  sound_at e0 t i fx e →
  (∀ x i' e', sound_at e0 t i' (fx ++ [x]) e' → Inb._replay i' = Inb._replay i → wp (k tt) Q R e') →
  wp (_emit_message config m dup ≫= k) Q R e.
Proof.
  intros Hs HQ. unfold _emit_message. apply wp_bind. eapply st_bind; [exact Hs | done |].
  intros message i1 e1 Hs1 _ Hr1 _. eapply st_token; [exact Hs1 |]. intros tok i2 e2 Hs2 _ _ Hr2.
  eapply st_emit; [apply Hs2 |]. intros e3 Hw3. eapply HQ; [| by rewrite Hr2].
  eapply sound_went; [exact Hs2 | exact Hw3 | apply Hs2 | done].
Qed.

(** *** Completions *)

Definition ack_wire (first mid : Z) : bytes := [first; 2; mid / 256; mid mod 256].
Abbreviation acked fx first mid := (fx ++ [Effect.SEND_ACK (ack_wire first mid)]).

Lemma row_facts e0 t i fx e mid m : sound_at e0 t i fx e → dget mid t = Some m →
  1 ≤ mid ≤ 65535 ∧ 0 < i_logical_size m ≤ Inb._pending_bytes i ∧ 0 < Inb._stored_inbound i.
Proof.
  intros (_ & [Hl _ _] & _) Hg. destruct (lg_rows _ _ _ Hl mid m Hg) as (_ & Hpos & Hr).
  rewrite (lg_bytes _ _ _ Hl), (lg_stored _ _ _ Hl).
  pose proof (row_size_le t mid m (ledger_pos _ _ _ Hl) Hg). pose proof (len_ddel _ _ _ Hg). pose proof (len_nonneg (ddel mid t)). lia.
Qed.

(** A row the books account for. *)
Definition accounted t i mid : Prop := ∀ m, dget mid t = Some m →
  1 ≤ mid ≤ 65535 ∧ 0 < i_logical_size m ≤ Inb._pending_bytes i ∧ 0 < Inb._stored_inbound i.

(** Why a completion may fail: the row has moved on, or the store fails. *)
Definition unmet t mid st : Prop := reliable → ∀ m, dget mid t = Some m → i_state m ≠ st.

(** The row is deleted with its identity and its waiting completion. *)
Lemma st_close {A} e0 t i fx mid st encode first (k : Z → M S A) Q (R : exn → Engine S → Prop) e :
  went e0 t i fx e → accounted t i mid → encode = encode_ack_success first → byte_ok first →
  (∀ m e', went e0 (ddel mid t) (closed mid i) (acked fx first mid) e' → dget mid t = Some m → i_state m = st →
     wp (k (i_logical_size m)) Q R e') →
  (∀ x e', went e0 t i fx e' → is_mqtt_error x = false → unmet t mid st → R x e') →
  wp (size ← _complete_stored_inbound mid st; _forget_inbound;; answer encode mid;; k size) Q R e.
Proof.
  intros Hw Hac Henc Hf HQ HR. unfold _complete_stored_inbound. apply wp_bind, wp_bind. eapply st_complete; [exact Hw | | |].
  - intros m e1 Hw1 Hg Hst. destruct (Hac m Hg) as (Hr & _ & Hn).
    apply wp_bind. eapply st_modify; [exact Hw1 |]. intros e2 Hw2.
    apply wp_bind. eapply st_modify; [exact Hw2 |]. intros e3 Hw3. apply wp_ret.
    unfold _forget_inbound. apply wp_bind. eapply st_inbound; [exact Hw3 |]. simpl.
    rewrite (proj2 (Z.leb_gt _ _)) by lia. eapply st_modify; [exact Hw3 |]. intros e4 Hw4.
    eapply st_answer; [exact Hw4 | done.. |]. intros e5 Hw5. by apply (HQ m).
  - intros e1 Hw1 Hn. apply wp_raise, HR; [done | done |]. by intros _.
  - intros x e1 Hw1 Hrel Hx. apply HR; [done | done | by intros ?].
Qed.

Lemma st_hold {A} e0 t i fx mid n (k : unit → M S A) Q R e :
  went e0 t i fx e → 0 < n ≤ Inb._pending_bytes i →
  (∀ e', went e0 t (parked mid n i) fx e' → wp (k tt) Q R e') → wp (_hold_until_pubcomp_handoff mid n ≫= k) Q R e.
Proof.
  intros Hw Hn HQ. unfold _hold_until_pubcomp_handoff. apply wp_bind. eapply st_release; [exact Hw | exact Hn |]. intros e2 Hw2.
  unfold parked in HQ. remember (unreserved n i) as j eqn:Ej. clear Ej Hw. cbv zeta in HQ.
  apply wp_bind. eapply st_modify; [exact Hw2 |]. intros e3 Hw3. eapply st_inbound; [exact Hw3 |].
  remember (Inb.set_pubcomps (Inb._pending_pubcomps j ∪ {[mid]}) (Inb._pending_pubcomp_slots j) j) as j1 eqn:Ej. clear Ej Hw2.
  apply wp_only_if; intros Hc; rewrite Hc in HQ; [| by apply HQ]. unfold current_remove.
  apply wp_bind. eapply st_modify; [exact Hw3 |]. intros e4 Hw4. apply wp_bind. eapply st_modify; [exact Hw4 |]. intros e5 Hw5.
  eapply st_inbound; [exact Hw5 |]. apply wp_only_if; intros Hf; rewrite Hf in HQ; [| by apply HQ]. by eapply st_modify.
Qed.

Lemma st_complete_qos2 {A} e0 t i fx mid st (k : unit → M S A) Q (R : exn → Engine S → Prop) e :
  went e0 t i fx e → accounted t i mid →
  (∀ m e', went e0 (ddel mid t) (parked mid (i_logical_size m) (closed mid i)) (acked fx 0x70 mid) e' →
     dget mid t = Some m → i_state m = st → wp (k tt) Q R e') →
  (∀ x e', went e0 t i fx e' → is_mqtt_error x = false → unmet t mid st → R x e') → wp (_complete_qos2 mid st ≫= k) Q R e.
Proof.
  intros Hw Hac HQ HR. unfold _complete_qos2. apply wp_bind. eapply (st_close _ _ _ _ _ _ _ 0x70); [exact Hw | exact Hac | done.. | | exact HR].
  intros m e1 Hw1 Hg Hm. apply wp_eta. eapply st_hold; [exact Hw1 | apply (Hac m Hg) |]. intros e2 Hw2. by apply (HQ m).
Qed.

Lemma st_complete_qos1 {A} e0 t i fx mid (k : unit → M S A) Q (R : exn → Engine S → Prop) e :
  went e0 t i fx e → accounted t i mid →
  (∀ m e', went e0 (ddel mid t) (answered mid (i_logical_size m) (closed mid i)) (acked fx 0x40 mid) e' →
     dget mid t = Some m → is_qos1 (mid, m) → wp (k tt) Q R e') →
  (∀ x e', went e0 t i fx e' → is_mqtt_error x = false → unmet t mid In.WAIT_PUBACK → R x e') →
  wp (_complete_qos1 mid ≫= k) Q R e.
Proof.
  intros Hw Hac HQ HR. unfold _complete_qos1. apply wp_bind. eapply (st_close _ _ _ _ _ _ _ 0x40); [exact Hw | exact Hac | done.. | | exact HR].
  intros m e1 Hw1 Hg Hm. unfold _release_persisted_slot, current_remove. apply wp_bind. eapply st_modify; [exact Hw1 |].
  intros e2 Hw2. apply wp_eta. eapply st_release; [exact Hw2 | apply (Hac m Hg) |]. intros e3 Hw3. by apply (HQ m).
Qed.

(** From right books, the books are right again. *)
Lemma sound_accounted e0 t i fx e mid : sound_at e0 t i fx e → accounted t i mid.
Proof. intros Hs m. by eapply row_facts. Qed.

Lemma complete_qos2_inv e0 t i fx e mid st :
  sound_at e0 t i fx e → (manual_ack config = true → st ≠ In.WAIT_PUBACK) →
  wp (_complete_qos2 mid st)
    (λ _ e', ∃ m, dget mid t = Some m ∧ i_state m = st ∧
       sound_at e0 (ddel mid t) (parked mid (i_logical_size m) (closed mid i)) (acked fx 0x70 mid) e')
    (λ x e', sound_at e0 t i fx e' ∧ is_mqtt_error x = false ∧ unmet t mid st) e.
Proof.
  intros Hs Hst. apply wp_eta. eapply st_complete_qos2; [apply Hs | by eapply sound_accounted | |].
  - intros m e1 Hw1 Hg Hm. apply wp_ret. exists m. split_and!; [done.. |].
    eapply sound_went; [exact Hs | exact Hw1 | | apply parked_replay].
    apply parked_books; [apply Hs | done |]. intros Hman Hq. apply Hst; [done |]. by rewrite <- Hm.
  - intros x e1 Hw1 Hx Hu. split_and!; try done. eapply sound_went; [exact Hs | exact Hw1 | apply Hs | done].
Qed.

(** An automatic PUBACK enters the batch. *)
Lemma st_batched {A} e0 t i fx mid occupied (k : unit → M S A) Q R e :
  went e0 t i fx e → (∀ e', went e0 t (batched mid occupied i) fx e' → wp (k tt) Q R e') →
  wp (_release_completed_auto mid occupied ≫= k) Q R e.
Proof.
  intros Hw HQ. unfold _release_completed_auto. apply wp_bind, wp_bind. eapply st_modify; [exact Hw |]. intros e1 Hw1.
  eapply st_inbound; [exact Hw1 |]. unfold batched in HQ. cbv zeta in HQ.
  apply wp_only_if; intros Hc; rewrite Hc in HQ; [| by apply HQ]. by eapply st_modify.
Qed.

Lemma st_current {A} e0 t i fx mid m (k : bool → M S A) Q (R : exn → Engine S → Prop) e :
  sound_at e0 t i fx e → dget mid t = Some m →
  (∀ b e', went e0 t (attached mid i) fx e' → (mid ∉ Inb._current_persisted_mids i → _inflight i < Inb._receive_maximum i) →
     b = negb (bool_decide (mid ∈ Inb._current_persisted_mids i)) → wp (k b) Q R e') →
  (∀ x e', IInv e' → R x e') → wp (acquire_current config mid ≫= k) Q R e.
Proof.
  intros Hs Hg HQ HR. unfold acquire_current. apply wp_bind. eapply st_inbound; [apply Hs |]. unfold attached in HQ.
  apply wp_if; intros Hc; rewrite Hc in HQ; bools; [apply wp_ret; by apply HQ; [apply Hs | ..] |].
  eapply st_acquire; [exact Hs | | done]. intros e1 Hw1 Hlt _. unfold current_add.
  apply wp_bind. eapply st_modify; [exact Hw1 |]. intros e2 Hw2. apply wp_ret. by apply HQ.
Qed.

(** *** QoS 2 *)

Abbreviation keeps m e := (wp m (λ _, IInv) (λ _, IInv) e).

Lemma logical_size_nonneg topic payload ps wire n :
  (∀ w, wire = Some w → 0 ≤ w) → logical_size config topic payload ps wire = Ok n → 0 ≤ n.
Proof.
  intros Hw Hn. unfold logical_size, publish_logical_size in Hn. apply rbind_Ok_inv in Hn as (pb & Hpb & Hn).
  apply rbind_Ok_inv in Hn as (tb & Htb & [= <-]). assert (0 ≤ pb).
  { destruct (_ && _) in Hpb; [| by simplify_eq]. destruct wire; [simplify_eq; auto |].
    apply rbind_Ok_inv in Hpb as (b & _ & [= <-]). apply len_nonneg. }
  assert (0 ≤ tb). { destruct (isascii topic); [simplify_eq; apply len_nonneg |]. destruct (utf8_encode topic); simplify_eq. apply len_nonneg. }
  pose proof (len_nonneg payload). lia.
Qed.

Lemma opened_token mid n i :
  Inb._exchange_tokens (opened mid n i) !! mid = Some (Inb._next_token i) ∧ Inb._replay (opened mid n i) = Inb._replay i.
Proof.
  unfold opened. destruct (taken_fields i) as (b & -> & _). destruct (reserved_fields n (Inb.set_handoff b i)) as (h & -> & _).
  simpl. by rewrite lookup_insert_eq.
Qed.

Lemma attached_replay mid i : Inb._replay (attached mid i) = Inb._replay i.
Proof. unfold attached. case_if; [done |]. by destruct (taken_fields i) as (b & -> & _). Qed.

Lemma qos2_duplicate e0 t i fx e mid m :
  sound_at e0 t i fx e → dget mid t = Some m → i_state m ≠ In.WAIT_PUBACK →
  wp (acquire_current config mid;; answer encode_pubrec_success mid)
    (λ _ e', sound_at e0 t (attached mid i) (acked fx 0x50 mid) e') (λ _, IInv) e.
Proof.
  intros Hs Hg Hst. eapply st_current; [exact Hs | exact Hg | | done]. intros b e1 Hw1 Hlt _.
  pose proof (row_facts _ _ _ _ _ _ _ Hs Hg) as (Hr & _).
  apply wp_eta. eapply (st_answer _ _ _ _ _ 0x50); [exact Hw1 | done.. |]. intros e2 Hw2. apply wp_ret.
  eapply sound_went; [exact Hs | exact Hw2 | | apply attached_replay].
  eapply attached_books; [apply Hs | exact Hg | done | exact Hlt].
Qed.

(** A new exchange: its message exposed once the row is stored. *)
Lemma qos2_fresh topic payload mid retain dup ps wire e0 t i fx e :
  sound_at e0 t i fx e → dget mid t = None → 1 ≤ mid ≤ 65535 → (∀ w, wire = Some w → 0 ≤ w) →
  mid ∉ Inb._pending_pubcomps i → mid ∉ Inb._pending_auto_qos1_mids i →
  keeps (size ← lift (logical_size config topic payload ps wire);
        _acquire_slot config (Some size);;
        token ← store_exchange
          {| i_mid := mid; i_topic := topic; i_payload := payload; i_qos := EXACTLY_ONCE; i_retain := retain;
             i_state := In.WAIT_PUBREL; i_delivered := false; i_properties := ps; i_user_acked := false;
             i_logical_size := size |};
        answer encode_pubrec_success mid;;
        message ← bind_if_manual config (_decoded_message topic payload EXACTLY_ONCE retain dup (Some mid) ps);
        deliver message true wire (Some token)) e.
Proof.
  intros Hs Hg Hr Hwire Hp Ha. apply wp_lift_bind; [| intros _; by eapply sound_inv]. intros size Hsize.
  apply logical_size_nonneg in Hsize; [| done]. set (m := mkIn _ _ _ _ _ _ _ _ _ _).
  eapply st_acquire; [exact Hs | | done]. intros e1 Hw1 Hlt _.
  eapply (st_store _ _ _ _ m); [exact Hw1 | apply Hs.. | exact Hsize | | done]. intros e2 ps2 Hw2 Hpos.
  destruct (opened_token mid (i_logical_size m) i) as [Htok Hrep].
  eapply (st_answer _ _ _ _ _ 0x50); [exact Hw2 | done.. |]. intros e3 Hw3.
  eapply (st_bind _ _ _ _ _ mid); [| done |].
  { eapply sound_went; [exact Hs | exact Hw3 | | exact Hrep]. apply (opened2_books _ _ _ _ mid (i_set_properties m ps2)); try done; [apply Hs | by apply dget_None]. }
  intros message i' e4 Hs4 _ _ _. eapply st_emit; [apply Hs4 |]. intros e5 Hw5. eapply went_inv; [exact Hw5 | apply Hs4..].
Qed.

Lemma on_qos2_inv topic payload mid retain dup ps wire e :
  IInv e → 1 ≤ mid ≤ 65535 → (∀ w, wire = Some w → 0 ≤ w) →
  keeps (_on_qos2 config topic payload mid retain dup ps wire) e.
Proof.
  intros HI Hr Hwire. pose proof (sound_start _ HI) as Hs. unfold _on_qos2.
  eapply st_lookup; [apply Hs | apply HI | | intros x e' Hw _ _; eapply went_inv; [exact Hw | apply Hs..]].
  intros e1 Hw1. set (t := itable e) in *. set (i := inbound e) in *.
  assert (sound_at e t i [] e1) as Hs1 by (eapply sound_went; [exact Hs | exact Hw1 | apply Hs | done]).
  eapply st_inbound; [exact Hw1 |]. destruct (dget mid t) as [m |] eqn:Hg; cbn [fmap option_fmap option_map Memory.meta_of im_state].
  - apply wp_if; intros _; [apply torn_refuse; by eapply sound_inv |].
    apply wp_if; intros _; [apply torn_refuse; by eapply sound_inv |].
    apply wp_if; intros Hst; [apply wp_raise; by eapply sound_inv |]. bools.
    eapply wp_mono; [eapply qos2_duplicate; [exact Hs1 | exact Hg | by rewrite Hst] | intros [] e2 Hs2; exact (sound_inv _ _ _ _ _ Hs2) | done].
  - apply wp_if; intros Hp; [apply torn_refuse; by eapply sound_inv |].
    apply wp_if; intros Ha; [apply torn_refuse; by eapply sound_inv |]. unfold awaiting_handoff in Hp. bools.
    by eapply qos2_fresh.
Qed.

(** *** QoS 1 with automatic acknowledgement *)

Lemma batched_replay mid n i : Inb._replay (batched mid n i) = Inb._replay i.
Proof. unfold batched. by case_if. Qed.
Lemma taken_replay i : Inb._replay (taken i) = Inb._replay i.
Proof. by destruct (taken_fields i) as (b & -> & _). Qed.

Lemma complete_recovered_inv e0 t i fx e mid m :
  sound_at e0 t i fx e → dget mid t = Some m → is_qos1 (mid, m) → manual_ack config = false →
  keeps (_complete_recovered_qos1_auto config mid) e.
Proof.
  intros Hs Hg Hq Hman. unfold _complete_recovered_qos1_auto. eapply st_inbound; [apply Hs |].
  apply wp_if; intros Hc; [apply wp_ret; by eapply sound_inv |].
  eapply st_lookup; [apply Hs | apply Hs | | intros x e' Hw _ _; eapply went_inv; [exact Hw | apply Hs..]].
  intros e1 Hw1. assert (sound_at e0 t i fx e1) as Hs1 by (eapply sound_went; [exact Hs | exact Hw1 | apply Hs | done]).
  rewrite Hg. cbn [fmap option_fmap option_map Memory.meta_of im_delivered].
  apply wp_if; intros Hd; bools.
  - eapply st_current; [exact Hs1 | exact Hg | | done]. intros b e2 Hw2 Hlt _. eapply st_modify; [exact Hw2 |]. intros e3 Hw3.
    eapply went_inv; [exact Hw3 | | unfold held_ok; simpl; rewrite attached_replay; apply Hs].
    assert (Inb._pending_completions (attached mid i) = Inb._pending_completions i) as ->.
    { unfold attached. case_if; [done |]. by destruct (taken_fields i) as (c & -> & _). }
    rewrite <- attached_completions. eapply attached_books; [| exact Hg | |].
    + rewrite <- Hq. apply (waiting_books _ _ _ _ mid m); [apply Hs | done..].
    + intros _ _. simpl. by rewrite lookup_insert_eq.
    + exact Hlt.
  - eapply st_acquire; [exact Hs1 | | done]. intros e2 Hw2 Hlt _.
    assert (sound_at e0 t (taken i) fx e2) as Hs2.
    { eapply sound_went; [exact Hs1 | exact Hw2 | apply taken_books, Hs | apply taken_replay]. }
    eapply (st_close _ _ _ _ _ _ _ 0x40); [exact Hw2 | by eapply sound_accounted | done.. | | intros x e3 Hw3 _ _; eapply went_inv; [exact Hw3 | apply Hs2..]].
    intros m' e3 Hw3 Hg' _. simplify_eq. pose proof (row_facts _ _ _ _ _ _ _ Hs2 Hg) as (_ & Hn & _).
    eapply st_release; [exact Hw3 | exact Hn |]. intros e4 Hw4. apply wp_eta. eapply st_batched; [exact Hw4 |]. intros e5 Hw5. apply wp_ret.
    eapply went_inv; [exact Hw5 | | unfold held_ok; rewrite batched_replay; simpl; rewrite taken_replay; apply Hs].
    apply recovered_books; [apply Hs | done.. | by destruct (Inb._pending_completions i !! mid) | done].
Qed.

Lemma on_qos1_auto_inv topic payload mid retain dup ps wire e :
  IInv e → 1 ≤ mid ≤ 65535 → manual_ack config = false →
  keeps (_on_qos1_auto config topic payload mid retain dup ps wire) e.
Proof.
  intros HI Hr Hman. pose proof (sound_start _ HI) as Hs. unfold _on_qos1_auto.
  eapply st_lookup; [apply Hs | apply HI | | intros x e' Hw _ _; eapply went_inv; [exact Hw | apply Hs..]].
  intros e1 Hw1. set (t := itable e) in *. set (i := inbound e) in *.
  assert (sound_at e t i [] e1) as Hs1 by (eapply sound_went; [exact Hs | exact Hw1 | apply Hs | done]).
  eapply st_inbound; [exact Hw1 |]. destruct (dget mid t) as [m |] eqn:Hg; cbn [fmap option_fmap option_map Memory.meta_of im_state].
  - apply wp_if; intros Hst; [bools; by eapply complete_recovered_inv | apply torn_refuse; by eapply sound_inv].
  - apply wp_if; intros Hp; [apply torn_refuse; by eapply sound_inv |]. unfold awaiting_handoff in Hp. bools.
    apply dget_None in Hg. case_bool_decide as Ha.
    + apply wp_bind, wp_ret. eapply (st_answer _ _ _ _ _ 0x40); [apply Hs1 | done.. |]. intros e2 Hw2.
      apply wp_bind. eapply st_emit; [exact Hw2 |]. intros e3 Hw3. apply wp_only_if; [done |]. intros _.
      eapply went_inv; [exact Hw3 | apply Hs..].
    + eapply st_acquire; [exact Hs1 | | done]. intros e2 Hw2 Hlt _.
      eapply (st_answer _ _ _ _ _ 0x40); [exact Hw2 | done.. |]. intros e3 Hw3.
      apply wp_bind. eapply st_emit; [exact Hw3 |]. intros e4 Hw4. apply wp_only_if; [| done]. intros _.
      apply wp_eta. eapply st_batched; [exact Hw4 |]. intros e5 Hw5. apply wp_ret.
      eapply went_inv; [exact Hw5 | | unfold held_ok; rewrite batched_replay, taken_replay; apply Hs].
      by apply batched_books; [apply Hs | ..].
Qed.

(** *** QoS 1 with application acknowledgement *)

(** The acknowledgements sent by a drain: the longest prefix of the arrival
    order that the application has acknowledged and this connection has seen. *)
Record drained order t i fx t' i' fx' : Prop := {
  dr_order : ∃ done_, order = done_ ++ Inb._manual_qos1_order i' ∧
    fx' = fx ++ ((λ mid, Effect.SEND_ACK (ack_wire 0x40 mid)) <$> done_) ∧
    dkeys t' = filter (λ mid, mid ∉ done_) (dkeys t) ∧
    Forall (λ mid, mid ∈ Inb._pending_manual_qos1_acks i ∧ mid ∈ Inb._current_persisted_mids i) done_;
  dr_stop mid order' : Inb._manual_qos1_order i' = mid :: order' →
    ¬ (mid ∈ Inb._pending_manual_qos1_acks i' ∧ mid ∈ Inb._current_persisted_mids i') }.

Lemma dkeys_ddel_filter {V} mid (t : list (Z * V)) : NoDup (dkeys t) → dkeys (ddel mid t) = filter (λ k, k ≠ mid) (dkeys t).
Proof.
  induction t as [| [k v] t IH]; [done |]. intros Hn. pose proof Hn as [Hk Hn']%NoDup_cons. simpl. fold (dkeys t).
  case_decide as E.
  - subst. rewrite filter_cons_False by tauto. symmetry. apply filter_all. intros x Hx ->. done.
  - rewrite filter_cons_True by done. simpl. f_equal. by apply IH.
Qed.

Lemma drain_acks_spec order : ∀ e0 t i fx e,
  sound_at e0 t i fx e → manual_ack config = true → Inb._manual_qos1_order i = order →
  wp (drain_acks order)
    (λ _ e', ∃ t' i' fx', sound_at e0 t' i' fx' e' ∧ drained order t i fx t' i' fx')
    (λ x e', IInv e' ∧ is_mqtt_error x = false) e.
Proof.
  induction order as [| mid order IH]; intros e0 t i fx e Hs Hman Ho.
  { apply wp_ret. exists t, i, fx. split; [done |]. constructor; [| by rewrite Ho]. exists []. rewrite Ho.
    split_and!; [done | symmetry; apply app_nil_r | | done]. symmetry. apply filter_all. intros x _. apply not_elem_of_nil. }
  cbn [drain_acks]. eapply st_inbound; [apply Hs |]. apply wp_if; intros Hc.
  2:{ apply wp_ret. exists t, i, fx. split; [done |]. constructor.
      - exists []. rewrite Ho. split_and!; [done | symmetry; apply app_nil_r | | done]. symmetry. apply filter_all. intros x _. apply not_elem_of_nil.
      - rewrite Ho. intros ? ? [= <- <-] [? ?]. apply andb_false_iff in Hc as [Hc | Hc]; bools; done. }
  apply andb_true_iff in Hc as [Hready Hcur]. bools.
  pose proof (ib_ledger _ _ _ _ (proj1 (proj2 Hs))) as Hl. assert (NoDup (dkeys t)) as Hn by apply Hl.
  destruct (qos1_row t mid Hn) as (m & Hg & Hq).
  { pose proof (lg_order _ _ _ Hl) as E. rewrite Ho, Hman in E. rewrite <- E. left. }
  eapply st_lookup; [apply Hs | apply Hl | | intros x e' Hw _ Hx; split; [eapply went_inv; [exact Hw | apply Hs..] | done]].
  intros e1 Hw1. assert (sound_at e0 t i fx e1) as Hs1 by (eapply sound_went; [exact Hs | exact Hw1 | apply Hs | done]).
  rewrite Hg. cbn [fmap option_fmap option_map Memory.meta_of im_state]. rewrite (bool_decide_true _ Hq). cbn [negb].
  eapply st_complete_qos1; [apply Hs1 | by eapply sound_accounted | | intros x e2 Hw2 Hx _; split; [eapply went_inv; [exact Hw2 | apply Hs..] | done]].
  intros m' e2 Hw2 Hg' _. simplify_eq.
  apply wp_bind. eapply st_modify; [exact Hw2 |]. intros e3 Hw3. apply wp_bind. eapply st_modify; [exact Hw3 |]. intros e4 Hw4.
  assert (sound_at e0 (ddel mid t) (Inb.set_manual_acks (Inb._pending_manual_qos1_acks i ∖ {[mid]})
      (Inb.set_order order (answered mid (i_logical_size m) (closed mid i)))) (acked fx 0x40 mid) e4) as Hs4.
  { eapply sound_went; [exact Hs1 | | by apply drained_books; [apply Hs | ..] | done].
    simpl in Hw4. by rewrite Ho in Hw4. }
  eapply wp_mono; [eapply IH; [exact Hs4 | done | done] | | done]. intros [] e5 (t' & i' & fx' & Hs5 & [Hd Hstop]).
  exists t', i', fx'. split; [done |]. constructor; [| done]. destruct Hd as (ds & -> & -> & Ht & Hds). exists (mid :: ds).
  split_and!.
  - done.
  - rewrite <- app_assoc. done.
  - rewrite Ht, dkeys_ddel_filter, list_filter_filter by done. apply list_filter_iff. intros x. rewrite not_elem_of_cons. tauto.
  - constructor; [done |]. eapply Forall_impl; [exact Hds |]. simpl. set_solver.
Qed.

Lemma drain_manual_inv e0 t i fx e :
  sound_at e0 t i fx e → manual_ack config = true → keeps _drain_manual_qos1_acks e.
Proof.
  intros Hs Hman. unfold _drain_manual_qos1_acks. eapply st_inbound; [apply Hs |].
  eapply wp_mono; [by eapply drain_acks_spec | | by intros x e' []].
  intros [] e' (t' & i' & fx' & Hs' & _). by eapply sound_inv.
Qed.

Lemma on_qos1_manual_inv topic payload mid retain dup ps wire e :
  IInv e → 1 ≤ mid ≤ 65535 → manual_ack config = true → (∀ w, wire = Some w → 0 ≤ w) →
  keeps (_on_qos1_manual config topic payload mid retain dup ps wire) e.
Proof.
  intros HI Hr Hman Hwire. pose proof (sound_start _ HI) as Hs. unfold _on_qos1_manual.
  eapply st_lookup; [apply Hs | apply HI | | intros x e' Hw _ _; eapply went_inv; [exact Hw | apply Hs..]].
  intros e1 Hw1. set (t := itable e) in *. set (i := inbound e) in *.
  assert (sound_at e t i [] e1) as Hs1 by (eapply sound_went; [exact Hs | exact Hw1 | apply Hs | done]).
  destruct (dget mid t) as [m |] eqn:Hg; cbn [fmap option_fmap option_map Memory.meta_of im_state].
  - apply wp_if; intros Hst; [| apply torn_refuse; by eapply sound_inv]. bools.
    eapply st_current; [exact Hs1 | exact Hg | | done]. intros acquired e2 Hw2 Hlt Hacq.
    assert (sound_at e t (attached mid i) [] e2) as Hs2.
    { eapply sound_went; [exact Hs1 | exact Hw2 | | apply attached_replay].
      eapply attached_books; [apply Hs | exact Hg | by rewrite Hman | exact Hlt]. }
    eapply st_inbound; [exact Hw2 |]. apply wp_if; intros _; [by eapply drain_manual_inv |].
    apply wp_bind. eapply st_get; [exact Hw2 | | intros e3 Hw3 Hg'; congruence | intros x e3 Hw3 _ _; eapply went_inv; [exact Hw3 | apply Hs2..]].
    intros l m' e3 Hw3 Hl _. apply wp_bind. unfold deref_in. apply wp_bind, wp_gets. rewrite Hl. apply wp_ret.
    apply wp_eta. eapply st_emit_message; [eapply sound_went; [exact Hs2 | exact Hw3 | apply Hs2 | done] |].
    intros x i4 e4 Hs4 _. apply wp_ret. by eapply sound_inv.
  - eapply st_inbound; [exact Hw1 |]. apply wp_if; intros Hp; [apply torn_refuse; by eapply sound_inv |].
    unfold awaiting_handoff in Hp. bools. apply dget_None in Hg.
    apply wp_lift_bind; [| intros _; by eapply sound_inv]. intros size Hsize.
    apply logical_size_nonneg in Hsize; [| done]. set (m := mkIn _ _ _ _ _ _ _ _ _ _).
    eapply st_acquire; [exact Hs1 | | done]. intros e2 Hw2 Hlt _.
    eapply (st_store _ _ _ _ m); [exact Hw2 | apply Hs1.. | exact Hsize | | done]. intros e3 ps3 Hw3 Hpos.
    destruct (opened_token mid (i_logical_size m) i) as [Htok Hrep].
    apply wp_bind. eapply st_modify; [exact Hw3 |]. intros e4 Hw4.
    assert (Inb._manual_qos1_order (opened mid (i_logical_size m) i) = Inb._manual_qos1_order i) as Eo.
    { unfold opened. destruct (taken_fields i) as (b & -> & _). by destruct (reserved_fields (i_logical_size m) (Inb.set_handoff b i)) as (h & -> & _). }
    simpl i_mid in Hw4. rewrite Eo in Hw4.
    eapply (st_bind _ _ _ _ _ mid); [| done |].
    { eapply sound_went; [exact Hs1 | exact Hw4 | by apply (opened1_books _ _ _ _ mid (i_set_properties m ps3)); [apply Hs | ..] | exact Hrep]. }
    intros message i' e5 Hs5 _ _ _. eapply st_emit; [apply Hs5 |]. intros e6 Hw6. eapply went_inv; [exact Hw6 | apply Hs5..].
Qed.

Lemma on_qos1_inv topic payload mid retain dup ps wire e :
  IInv e → 1 ≤ mid ≤ 65535 → (∀ w, wire = Some w → 0 ≤ w) →
  keeps (_on_qos1 config topic payload mid retain dup ps wire) e.
Proof.
  intros. unfold _on_qos1. destruct (manual_ack config) eqn:E; [by apply on_qos1_manual_inv | by apply on_qos1_auto_inv].
Qed.

(** *** PUBREL, delivery marks and acknowledgements *)

Lemma check_problem_torn properties e :
  IInv e → keeps (only_if (is_set properties) (_validate_inbound_problem_information config properties)) e.
Proof.
  intros HI. apply wp_only_if; [| done]. intros _. unfold _validate_inbound_problem_information. apply wp_bind, wp_gets.
  apply wp_if; intros _; [done |]. apply wp_if; intros _; [done |]. by apply torn_refuse.
Qed.

Lemma sound_waiting e0 t i fx e mid st :
  sound_at e0 t i fx e → Inb._pending_completions i !! mid = Some st → manual_ack config = false.
Proof.
  intros Hs Hc. destruct (manual_ack config) eqn:Hm; [| done].
  destruct (lg_manual _ _ _ (ib_ledger _ _ _ _ (proj1 (proj2 Hs))) Hm) as [E _]. by rewrite E, lookup_empty in Hc.
Qed.

Lemma on_pubrel_inv raw e : IInv e → keeps (on_pubrel config raw) e.
Proof.
  intros HI0. unfold on_pubrel. apply wp_lift_bind; [| done]. intros [[mid rc] ps] Hdec. apply wp_bind.
  eapply wp_mono; [by apply check_problem_torn | | done]. clear e HI0. intros [] e HI. pose proof (sound_start _ HI) as Hs.
  eapply st_lookup; [apply Hs | apply HI | | intros x e' Hw _ _; eapply went_inv; [exact Hw | apply Hs..]].
  intros e1 Hw1. set (t := itable e) in *. set (i := inbound e) in *.
  assert (sound_at e t i [] e1) as Hs1 by (eapply sound_went; [exact Hs | exact Hw1 | apply Hs | done]).
  destruct (dget mid t) as [m |] eqn:Hg; cbn [fmap option_fmap option_map Memory.meta_of im_state im_delivered im_user_acked].
  2:{ unfold answer, _send_ack. apply wp_lift_bind; [| intros _; by eapply sound_inv]. intros w _. eapply st_emit; [exact Hw1 |].
      intros e2 Hw2. eapply went_inv; [exact Hw2 | apply Hs..]. }
  assert (Hfin : ∀ st, i_state m = st → (manual_ack config = true → i_user_acked m = true ∧ st ≠ In.WAIT_PUBACK) →
    keeps (if negb (i_delivered m) && negb (i_user_acked m)
        then in_modify (λ i, Inb.set_completions (<[mid := st]> (Inb._pending_completions i)) i)
        else _complete_qos2 mid st) e1).
  { intros st Hst Hok. apply wp_if; intros Hd.
    - apply andb_true_iff in Hd as [Hd Ha]. bools. eapply st_modify; [exact Hw1 |]. intros e2 Hw2.
      eapply went_inv; [exact Hw2 | rewrite <- Hst; apply (waiting_books _ _ _ _ mid m); [apply Hs | done..|] | apply Hs].
      destruct (manual_ack config); [| done]. destruct (Hok eq_refl). congruence.
    - eapply wp_mono; [eapply complete_qos2_inv; [exact Hs1 | apply Hok] | |].
      + intros [] e2 (m' & _ & _ & Hs2). exact (sound_inv _ _ _ _ _ Hs2).
      + intros x e2 [Hs2 _]. exact (sound_inv _ _ _ _ _ Hs2). }
  apply wp_if; intros Hu; bools.
  - apply wp_if; intros Hman; [apply wp_ret; by eapply sound_inv |]. apply Hfin; [done | congruence].
  - apply wp_if; intros Hst; [apply wp_raise; by eapply sound_inv |]. bools.
    apply wp_if; intros Hman; [| apply Hfin; [done |]].
    + apply andb_true_iff in Hman as [Hman Ha]. bools. apply wp_bind. eapply st_transition; [exact Hw1 | | |].
      * intros x m' e2 Hw2 Hg' _. simplify_eq. apply wp_ret. eapply went_inv; [exact Hw2 | | apply Hs].
        apply moved_books; [apply Hs | done | | unfold is_qos1; simpl; by rewrite Hst | done].
        destruct (Inb._pending_completions i !! mid) eqn:Ec; [| done]. pose proof (sound_waiting _ _ _ _ _ _ _ Hs Ec). congruence.
      * intros e2 Hw2 _. apply wp_raise. eapply went_inv; [exact Hw2 | apply Hs..].
      * intros x e2 Hw2 _ _. eapply went_inv; [exact Hw2 | apply Hs..].
    + intros Hm. rewrite Hm in Hman. simpl in Hman. bools. split; [done | by rewrite Hst].
Qed.

(** A waiting completion taken out before its row is completed. *)
Definition unawaited mid i : Inb.InboundSession := Inb.set_completions (delete mid (Inb._pending_completions i)) i.

Lemma closed_unawaited mid i : closed mid (unawaited mid i) = closed mid i.
Proof. unfold closed, unawaited. simpl. f_equal. unfold Inb.set_completions. simpl. by rewrite delete_delete_eq. Qed.

(** A store that fails may lose the completion, not the row. *)
Lemma unawaited_books t i mid : Books t i →
  (Inb._pending_completions i !! mid ≠ None → ¬ reliable) → Books t (unawaited mid i).
Proof.
  intros [Hl Hs Ht] Hc. constructor; [constructor; simpl; try apply Hl | constructor; simpl; try apply Hs | by eapply tokens_same].
  - intros k st [_ Hk]%lookup_delete_Some. by apply (lg_waiting _ _ _ Hl).
  - intros Hm. rewrite (proj1 (lg_manual _ _ _ Hl Hm)), delete_empty. split; [done |]. by apply (lg_manual _ _ _ Hl).
  - intros k Hrel Hk. destruct (sl_current _ _ _ _ Hs k Hrel Hk) as (m & Hg & Hi). exists m. split; [done |].
    intros Hm Hq. destruct (decide (k = mid)) as [-> |]; [| rewrite lookup_delete_ne by done; by apply Hi].
    destruct (Hi Hm Hq) as [st Hst]. destruct Hc; [by rewrite Hst | done].
Qed.

Lemma mark_delivered_inv mid token e : IInv e → keeps (mark_delivered mid token) e.
Proof.
  intros HI. pose proof (sound_start _ HI) as Hs. set (t := itable e) in *. set (i := inbound e) in *.
  unfold mark_delivered. eapply st_inbound; [apply Hs |]. apply wp_if; intros _; [done |].
  apply wp_bind. eapply st_modify; [apply Hs |]. intros e1 Hw1. fold (unawaited mid i) in Hw1.
  destruct (Inb._pending_completions i !! mid) as [st |] eqn:Ec.
  - destruct (lg_waiting _ _ _ (ib_ledger _ _ _ _ (proj1 (proj2 Hs))) mid st Ec) as (m & Hg & Hst & _).
    pose proof (sound_waiting _ _ _ _ _ _ _ Hs Ec) as Hman.
    assert (Hac : accounted t (unawaited mid i) mid) by (intros x Hx; apply (row_facts _ _ _ _ _ _ _ Hs Hx)).
    assert (HR : ∀ st', st' = st → ∀ x e', went e t (unawaited mid i) [] e' → is_mqtt_error x = false → unmet t mid st' → IInv e').
    { intros st' -> x e' Hw' _ Hu. eapply went_inv; [exact Hw' | | apply Hs]. apply unawaited_books; [apply Hs |].
      intros _ Hrel. by apply (Hu Hrel m). }
    apply wp_if; intros Hq; bools; apply wp_eta.
    + eapply st_complete_qos1; [exact Hw1 | exact Hac | | by apply HR]. intros m' e2 Hw2 Hg' _. simplify_eq. apply wp_ret.
      rewrite closed_unawaited in Hw2. eapply went_inv; [exact Hw2 | | apply Hs]. apply answered_books; [apply Hs | done | congruence].
    + eapply st_complete_qos2; [exact Hw1 | exact Hac | | by apply HR]. intros m' e2 Hw2 Hg' _. simplify_eq. apply wp_ret.
      rewrite closed_unawaited in Hw2. eapply went_inv; [exact Hw2 | | unfold held_ok; rewrite parked_replay; apply Hs].
      apply parked_books; [apply Hs | done | congruence].
  - assert (Books t (unawaited mid i)) as HB by (apply unawaited_books; [apply Hs | by rewrite Ec]).
    apply wp_only_if; intros _; [| eapply went_inv; [exact Hw1 | done | apply Hs]].
    apply wp_bind. eapply st_mark; [exact Hw1 | | |].
    + intros b m e2 Hw2 Hg. apply wp_ret. eapply went_inv; [exact Hw2 | | apply Hs].
      apply delivered_books; [done | done |]. simpl. by rewrite lookup_delete_eq.
    + intros b e2 Hw2 _. apply wp_ret. eapply went_inv; [exact Hw2 | done | apply Hs].
    + intros x e2 Hw2 _ _. eapply went_inv; [exact Hw2 | done | apply Hs].
Qed.

Lemma ack_inv mid message e : IInv e → keeps (ack config mid message) e.
Proof.
  intros HI. pose proof (sound_start _ HI) as Hs. set (t := itable e) in *. set (i := inbound e) in *.
  unfold ack. eapply st_inbound; [apply Hs |]. apply wp_if; intros Hman; [by apply wp_raise |].
  apply wp_if; intros _; [by apply wp_raise |]. bools.
  eapply st_lookup; [apply Hs | apply HI | | intros x e' Hw _ _; eapply went_inv; [exact Hw | apply Hs..]].
  intros e1 Hw1. assert (sound_at e t i [] e1) as Hs1 by (eapply sound_went; [exact Hs | exact Hw1 | apply Hs | done]).
  pose proof (sound_inv _ _ _ _ _ Hs1) as HI1.
  assert (Hsize : ∀ w (k : unit → M S unit), keeps (k tt) e1 → keeps (_check_outbound_size w ≫= k) e1).
  { intros w k Hk. apply wp_bind. unfold _check_outbound_size. apply wp_bind, wp_gets.
    destruct (n_maximum_packet_size _); [| done]. apply wp_if; intros _; [by apply wp_raise | done]. }
  destruct (dget mid t) as [m |] eqn:Hg; cbn [fmap option_fmap option_map Memory.meta_of im_state]; [| by apply wp_raise].
  assert (Inb._pending_completions i !! mid = None) as Hc.
  { destruct (Inb._pending_completions i !! mid) eqn:Ec; [| done]. pose proof (sound_waiting _ _ _ _ _ _ _ Hs Ec). congruence. }
  destruct (i_state m) eqn:Hst.
  - apply wp_bind. eapply st_transition; [exact Hw1 | | |].
    + intros x m' e2 Hw2 Hg' _. simplify_eq. apply wp_ret. eapply went_inv; [exact Hw2 | | apply Hs].
      apply moved_books; [apply Hs | done | done | unfold is_qos1; simpl; by rewrite Hst | done].
    + intros e2 Hw2 _. apply wp_raise. eapply went_inv; [exact Hw2 | apply Hs..].
    + intros x e2 Hw2 _ _. eapply went_inv; [exact Hw2 | apply Hs..].
  - by apply wp_raise.
  - apply wp_lift_bind; [| done]. intros w _. apply Hsize. apply wp_bind. eapply st_modify; [exact Hw1 |]. intros e2 Hw2.
    eapply drain_manual_inv; [| done]. eapply sound_went; [exact Hs | exact Hw2 | by eapply ready_books; [apply Hs | ..] | done].
  - apply wp_lift_bind; [| done]. intros w _. apply Hsize.
    eapply wp_mono; [eapply complete_qos2_inv; [exact Hs1 | done] | |].
    + intros [] e2 (m' & _ & _ & Hs2). exact (sound_inv _ _ _ _ _ Hs2).
    + intros x e2 [Hs2 _]. exact (sound_inv _ _ _ _ _ Hs2).
Qed.
End handlers.
