(* ===== verification/InboundLife.v ===== *)
(** * Received PUBLISH packets, connections and restart redelivery keep the
    inbound books *)

From S2P Require Import Prelude Vbi PyStr Primitives Enums Properties Topics Frame Ack Publish Handshake.
From S2P Require Import Subscription Types Buffer PacketIds Settings Store StoreIn EngineState Outbound Inbound Wp.
From S2P Require Import Accounting InboundBooks InboundInv InboundHandlers.

(** ** What the decoders promise the handlers *)

Lemma unpack_mid b o mid p : bytes_ok b → 0 ≤ o → unpack_u16 b o = Ok (mid, p) → 0 ≤ mid ≤ 65535 ∧ o ≤ p.
Proof.
  intros Hb Ho H. pose proof (dec_bounds _ _ _ _ _ _ u16_decodes Hb Ho H).
  apply (decodes_iff _ _ _ _ _ _ u16_decodes Hb Ho) in H as [_ H%pack_u16_inv]. lia.
Qed.

Lemma nonzero_mid mid u : require_nonzero_mid mid = Ok u → mid ≠ 0.
Proof. unfold require_nonzero_mid. case_if; bools; done. Qed.

Lemma utf8_pos b s p : bytes_ok b → unpack_utf8 b 0 = Ok (s, p) → 0 ≤ p.
Proof. intros Hb H. pose proof (dec_bounds _ _ _ _ _ _ utf8_decodes Hb (Z.le_refl 0) H). lia. Qed.

Lemma decode_qos12_mid raw topic payload mid retain dup :
  bytes_ok (remaining raw) → decode_qos12_fields_v311 raw = Ok (topic, payload, mid, retain, dup) → 1 ≤ mid ≤ 65535.
Proof.
  intros Hb H. unfold decode_qos12_fields_v311 in H. apply rbind_Ok_inv in H as ([t p] & Hu%utf8_pos & H); [| done].
  destruct (bool_decide _); [done |]. apply rbind_Ok_inv in H as (u & _ & H).
  apply rbind_Ok_inv in H as ([m q] & Hm & H). apply unpack_mid in Hm as [Hm _]; [| done | lia].
  apply rbind_Ok_inv in H as (u' & Hz%nonzero_mid & H). simplify_eq. lia.
Qed.

Lemma decode_publish_v5_fields raw qos topic payload mid retain dup ps n :
  bytes_ok (remaining raw) → decode_publish_fields_v5 raw qos = Ok (topic, payload, mid, retain, dup, ps, n) →
  0 ≤ n ∧ ∀ m, mid = Some m → 1 ≤ m ≤ 65535.
Proof.
  intros Hb H. unfold decode_publish_fields_v5 in H. destruct (_ && _); [done |].
  apply rbind_Ok_inv in H as ([t p] & Hu%utf8_pos & H); [| done]. apply rbind_Ok_inv in H as ([m q] & Hm & H).
  apply rbind_Ok_inv in H as ([ps' r] & Hp & H). apply rbind_Ok_inv in H as (u & _ & H).
  assert (0 ≤ q ∧ ∀ k, m = Some k → 1 ≤ k ≤ 65535) as [Hq Hk].
  { clear H Hp. destruct (truthy qos); [| simplify_eq; split; [lia | done]]. apply rbind_Ok_inv in Hm as ([k s] & Hk & Hm).
    apply unpack_mid in Hk as [Hk Hs]; [| done | lia]. apply rbind_Ok_inv in Hm as (u' & Hz%nonzero_mid & Hm).
    simplify_eq. split; [lia |]. intros k' [= <-]. lia. }
  apply decode_properties_inv in Hp as (_ & _ & ? & _); [| done..]. simplify_eq. split; [lia | done].
Qed.

Lemma trusted_size_nonneg n ps w : 0 ≤ n → trusted_size n ps = Some w → 0 ≤ w.
Proof. unfold trusted_size. case_if; intros; by simplify_eq. Qed.

Section life.
Context {S : Type} `{InStoreLaws S} (config : EngineConfig).
Implicit Types (e : Engine S) (t : intable) (i : Inb.InboundSession).

Abbreviation Books := (InBooks (manual_ack config) reliable).
Abbreviation IInv := (IInv config).
Abbreviation keeps m e := (wp m (λ _, IInv) (λ _, IInv) e).

(** Emitting, and assigning what the books do not read. *)
Lemma inv_emit_in x e : IInv e → keeps (_emit x) e.
Proof. intros [Hok HB Hh]. apply wp_modify. by constructor. Qed.

Lemma inv_aliases d e : IInv e → IInv (set_inbound (Inb.set_aliases d (inbound e)) e).
Proof. intros [Hok HB Hh]. constructor; [done | by eapply books_same | done]. Qed.

Lemma resolve_inv topic ps e : IInv e → keeps (_resolve_topic_fields config topic ps) e.
Proof.
  intros HI. unfold _resolve_topic_fields. destruct (pget ps "topic_alias") as [v |].
  - apply wp_lift_bind; [| done]. intros alias _. apply wp_bind, wp_gets. apply wp_if; intros _; [by apply torn_refuse |].
    destruct topic as [| c topic].
    + destruct (Inb._aliases (inbound e) !! alias); [by apply wp_ret | by apply torn_refuse].
    + apply wp_bind, wp_modify, wp_ret. by apply inv_aliases.
  - destruct topic; [by apply torn_refuse | by apply wp_ret].
Qed.

Lemma resolve_publish_inv topic ps n e : 0 ≤ n →
  IInv e → wp (resolve_publish config topic ps n) (λ r e', IInv e' ∧ 0 ≤ r.2) (λ _, IInv) e.
Proof.
  intros Hn HI. unfold resolve_publish. apply wp_if; intros _; [| by apply wp_ret]. apply wp_bind.
  eapply wp_mono; [by apply resolve_inv | | done]. intros topic' e' HI'.
  destruct (_properties_without_topic_alias _); [by apply wp_ret | by apply wp_raise].
Qed.

Lemma on_publish_v311_inv raw e : IInv e → bytes_ok (remaining raw) → keeps (_on_publish_v311 config raw) e.
Proof.
  intros HI Hb. unfold _on_publish_v311. apply wp_if; intros _.
  - apply wp_lift_bind; [| done]. intros m _. by apply inv_emit_in.
  - apply wp_if; intros _; [by apply wp_raise |]. apply wp_lift_bind; [| done].
    intros [[[[topic payload] mid] retain] dup] Hd. apply decode_qos12_mid in Hd; [| done].
    case_if; [by apply on_qos1_inv | by apply on_qos2_inv].
Qed.

Lemma on_publish_v5_inv raw e : IInv e → bytes_ok (remaining raw) → keeps (_on_publish_v5 config raw) e.
Proof.
  intros HI Hb. unfold _on_publish_v5. apply wp_if; intros _.
  - apply wp_lift_bind; [| done]. intros [m n] Hd. destruct (m_properties m) as [ps |]; [| by apply wp_raise]. apply wp_bind.
    apply (wp_mono _ (λ _, IInv) _ (λ _, IInv)); [| intros [[topic ps'] n'] e'; by apply inv_emit_in | done].
    unfold resolve_publish. apply wp_if; intros _; [| by apply wp_ret]. apply wp_bind.
    eapply wp_mono; [by apply resolve_inv | | done]. intros topic' e' HI'.
    destruct (_properties_without_topic_alias _); [by apply wp_ret | by apply wp_raise].
  - apply wp_if; intros _; [by apply wp_raise |]. apply wp_lift_bind; [| done]. intros qos _. apply wp_lift_bind; [| done].
    intros [[[[[[topic payload] mid] retain] dup] ps] n] Hd. apply decode_publish_v5_fields in Hd as [Hn Hmid]; [| done].
    apply wp_bind. eapply wp_mono; [by apply resolve_publish_inv | | done]. intros [[topic' ps'] n'] e' [HI' Hn'].
    destruct mid as [mid |]; [| by apply wp_raise]. specialize (Hmid mid eq_refl). simpl in Hn'.
    case_if; [apply on_qos1_inv | apply on_qos2_inv]; try done; intros w; by apply trusted_size_nonneg.
Qed.

Lemma handle_publish_inv raw e : IInv e → bytes_ok (remaining raw) → keeps (handle_publish config raw) e.
Proof. intros. unfold handle_publish. case_if; [by apply on_publish_v5_inv | by apply on_publish_v311_inv]. Qed.

(** ** Connections *)

Lemma start_connection_inv rm tam e : IInv e → 0 ≤ rm → keeps (start_connection rm tam) e.
Proof. intros [Hok HB Hh] Hr. apply wp_modify. constructor; [done | by apply connected_books | done]. Qed.

Lemma inv_replay_none t i : Books t i → Books t (Inb.set_replay None i).
Proof. intros HB. by eapply books_same. Qed.

Lemma transport_closed_inv e : IInv e → keeps transport_closed e.
Proof.
  intros [Hok HB Hh]. apply wp_modify. apply dropped_books, released_books, inv_replay_none in HB.
  by constructor.
Qed.

Lemma release_pending_inv_in e : IInv e → keeps (in_modify release_pending_acks) e.
Proof.
  intros [Hok HB Hh]. apply wp_modify. constructor; [done | by apply released_books |]. intros c l Hc. apply (Hh c l).
  rewrite <- Hc. clear. unfold release_pending_acks. simpl. by destruct (bool_decide _).
Qed.

Lemma discard_session_inv e : IInv e → keeps discard_session e.
Proof.
  intros HI. pose proof (sound_start _ _ HI) as Hs. unfold discard_session. apply wp_bind. eapply st_clear; [apply Hs | |].
  - intros e1 Hw1. eapply st_modify; [exact Hw1 |]. intros e2 Hw2. eapply went_inv; [exact Hw2 | | done].
    by apply (discarded_books _ _ (itable e)), Hs.
  - intros x e1 Hw1 _ _. eapply went_inv; [exact Hw1 | apply Hs..].
Qed.

(** ** Restart redelivery *)

Lemma replayed_books t i i' : Books t i →
  (∃ r m, i' = Inb.set_recovered m (Inb.set_replay r i)) ∨ (∃ r, i' = Inb.set_replay r i) ∨ (∃ m, i' = Inb.set_recovered m i) →
  Books t i'.
Proof. intros HB [(r & m & ->) | [(r & ->) | (m & ->)]]; by eapply books_same. Qed.

Lemma end_replay_inv e : IInv e → keeps end_replay e.
Proof. intros [Hok HB Hh]. apply wp_modify. constructor; [done | by eapply books_same | done]. Qed.

(** Moving the cursor over objects that exist. *)
Lemma set_cursor_inv c e : IInv e → (∀ l, l ∈ Cursor.held c → is_Some (ih (heap e) !! l)) →
  wp (set_cursor c) (λ _ e', IInv e' ∧ Inb._replay (inbound e') = Some c ∧ heap e' = heap e) (λ _ _, False) e.
Proof.
  intros [Hok HB Hh] Hc. apply wp_modify. split; [| done]. constructor; [done | by eapply books_same |].
  intros c' l [= <-]. apply Hc.
Qed.

Lemma next_held c l : l ∈ Cursor.held (Cursor.next_page_message c).2 ∨ Some l = (Cursor.next_page_message c).1 →
  l ∈ Cursor.held c.
Proof.
  destruct c as [pages [[| x [| y page]] |] [p |] n]; unfold Cursor.held, Cursor.next_page_message; simpl;
    rewrite ?elem_of_cons, ?elem_of_nil; naive_solver.
Qed.

(** One message leaves the cursor: the fuel that bounds them is enough. *)
Lemma next_fewer c l : (Cursor.next_page_message c).1 = Some l →
  (length (Cursor.held (Cursor.next_page_message c).2) < length (Cursor.held c))%nat.
Proof.
  destruct c as [pages [[| x [| y page]] |] [p |] n]; unfold Cursor.held, Cursor.next_page_message; simpl; intros; (done || lia).
Qed.

Lemma replay_batch_inv fuel : ∀ emitted bytes e, IInv e → keeps (replay_batch config fuel emitted bytes) e.
Proof.
  induction fuel as [| fuel IH]; intros emitted bytes e HI; [done |]. cbn [replay_batch].
  apply wp_if; intros _; [| done]. apply wp_bind, wp_gets. destruct (Inb._replay (inbound e)) as [c |] eqn:Hc; [| done].
  destruct (Cursor.next_page_message c) as [message c'] eqn:Hn.
  assert (Hheld : ∀ l, l ∈ Cursor.held c' ∨ Some l = message → is_Some (ih (heap e) !! l)).
  { intros l Hl. eapply (iv_held _ _ HI c); [done |]. apply next_held. by rewrite Hn. }
  apply wp_bind. eapply wp_mono; [apply set_cursor_inv; [done | intros l Hl; apply Hheld; by left] | | done].
  intros [] e1 (HI1 & Hr1 & Hh1). destruct message as [l |]; [| done]. apply wp_bind. unfold deref_in. apply wp_bind, wp_gets.
  destruct (Hheld l) as [m Hm]; [by right |]. rewrite Hh1, Hm. apply wp_ret.
  apply wp_if; intros _; [by apply IH |]. apply wp_if; intros _.
  - apply wp_lift_bind; [| done]. intros c2 Hpush. unfold Cursor.push_back in Hpush. case_ifs_in Hpush; [done |].
    injection Hpush as <-.
    eapply wp_mono; [apply set_cursor_inv; [done |] | by intros [] e2 (? & _) | done].
    intros k. unfold Cursor.held. simpl. rewrite Hh1. intros [-> | Hk]%elem_of_cons; [by exists m |].
    apply Hheld. left. unfold Cursor.held. apply elem_of_app. by right.
  - pose proof (sound_start _ _ HI1) as Hs. eapply st_emit_message; [exact Hs |]. intros x i' e2 Hs2 _.
    apply IH. by eapply sound_inv.
Qed.

Lemma drain_replay_inv e : IInv e → keeps (drain_replay config) e.
Proof.
  intros HI. unfold drain_replay. apply wp_bind, wp_gets. destruct (Inb._replay (inbound e)) as [c |] eqn:Hc; [| done].
  assert (Hheld : ∀ l, l ∈ Cursor.held c → is_Some (ih (heap e) !! l)) by (intros l; by apply (iv_held _ _ HI)).
  apply (wp_then _ _ (λ _, IInv) (λ _, IInv)); [| | done].
  - unfold begin_page. apply wp_if; intros Hin; [by apply wp_ret |]. apply wp_bind, wp_try.
    pose proof (sound_start _ _ HI) as Hs. set (t := itable e) in *. set (i := inbound e) in *.
    assert (Hend : ∀ p pages n e', went e t i [] e' → (∀ l, l ∈ Cursor.held (Inb.mkCursor pages p (Inb._pending c) n) → is_Some (ih (heap e') !! l)) →
      ∀ A (k : A) (R : exn → Engine S → Prop), wp (set_cursor (Inb.mkCursor pages p (Inb._pending c) n);; mret k) (λ _, IInv) R e').
    { intros p pages n e' Hw Hl A k R. apply wp_bind. eapply wp_mono; [apply set_cursor_inv; [eapply went_inv; [exact Hw | apply Hs..] | done] | | done].
      by intros [] e2 (? & _). }
    assert (Inb._pending c = None ∧ Inb._page_messages c = None) as [Ep Em].
    { unfold Cursor.in_page in Hin. apply orb_false_iff in Hin as [? ?]. by destruct (Inb._pending c), (Inb._page_messages c). }
    eapply st_next; [apply Hs | | |].
    + intros page g e1 Hw1 Hne Hp. simpl. apply Hend; [done |]. rewrite Ep. intros l. unfold Cursor.held. simpl. apply Hp.
    + intros g e1 Hw1. simpl. apply Hend; [done |]. rewrite Ep, Em. intros l Hl. by apply elem_of_nil in Hl.
    + intros x e1 Hw1 _. apply wp_bind. eapply wp_mono; [apply set_cursor_inv; [eapply went_inv; [exact Hw1 | apply Hs..] |] | | done].
      * intros l Hl. destruct Hw1 as [_ _ _ Hf _ _]. by apply Hf, Hheld.
      * by intros [] e2 (? & _).
  - intros more e1 HI1. apply wp_if; intros _; [by apply end_replay_inv |]. apply wp_bind, wp_gets.
    eapply wp_then; [by apply replay_batch_inv | | done]. intros [] e2 HI2. apply wp_bind, wp_gets.
    destruct (Inb._replay (inbound e2)) as [c2 |]; [| done]. apply wp_if; intros _; [by apply end_replay_inv | by apply inv_emit_in].
Qed.

Lemma replay_session_inv e : IInv e → keeps (replay_session config) e.
Proof.
  intros HI. pose proof (sound_start _ _ HI) as Hs. set (t := itable e) in *. set (i := inbound e) in *.
  unfold replay_session. apply wp_bind. eapply st_count; [apply Hs | |].
  - intros e1 Hw1. apply wp_bind. eapply st_modify; [exact Hw1 |]. intros e2 Hw2.
    assert (Books t (Inb.set_current ∅ i)) as HB.
    { destruct (dropped_books _ _ _ _ (proj1 (proj2 Hs))) as [Hl' Hs' Ht'].
      destruct (proj1 (proj2 Hs)) as [Hl Hs0 Ht]. constructor; [constructor; apply Hl | | by eapply tokens_same].
      constructor; try apply Hs0; try apply Hs'. done. }
    assert (IInv e2) as HI2 by (eapply went_inv; [exact Hw2 | exact HB | apply Hs]).
    apply wp_if; intros _.
    + eapply st_modify; [exact Hw2 |]. intros e3 Hw3. eapply went_inv; [exact Hw3 | by eapply books_same | apply Hs].
    + apply wp_bind. eapply wp_mono; [apply set_cursor_inv; [done |] | | done].
      * intros l Hl. by apply elem_of_nil in Hl.
      * intros [] e3 (HI3 & _). by apply drain_replay_inv.
  - intros x e1 Hw1 _ _. eapply went_inv; [exact Hw1 | apply Hs..].
Qed.

(** ** Construction *)

Definition metas (t : intable) : list InboundRecordMeta := (λ x, Memory.meta_of x.1 x.2) <$> t.

Lemma load_page_spec l : ∀ mids n q, (∀ x, x ∈ l → 0 < in_size x) →
  load_page (mids, n, q) (metas l) = Ok (mids ∪ list_to_set (dkeys l), n + sumw in_size l, q ++ dkeys (filter is_qos1 l)).
Proof using.
  induction l as [| x l IH]; intros mids n q Hl.
  { simpl. unfold dkeys. simpl. by rewrite union_empty_r_L, Z.add_0_r, app_nil_r. }
  assert (0 < i_logical_size x.2) as Hx by (apply (Hl x); left).
  cbn [metas fmap list_fmap load_page]. unfold load_meta. cbn [Memory.meta_of im_mid im_state im_logical_size].
  rewrite (proj2 (Z.leb_gt _ _)) by done. cbn [rbind]. fold (metas l).
  rewrite IH by (intros y Hy; apply Hl; by right). tup.
  - unfold dkeys. simpl. set_solver.
  - simpl. unfold in_size at 2. lia.
  - rewrite filter_cons. unfold is_qos1 at 3. case_bool_decide; case_decide; try done. unfold dkeys. simpl. by rewrite <- app_assoc.
Qed.

(** A page of the identifiers of rows still stored. *)
Lemma page_metas t l : (∀ x, x ∈ l → dget x.1 t = Some x.2) →
  omap (λ mid, Memory.meta_of mid <$> dget mid t) (dkeys l) = metas l.
Proof using.
  induction l as [| x l IH]; intros Hl; [done |]. unfold dkeys, metas. simpl. rewrite (Hl x) by left. simpl. f_equal.
  apply IH. intros y Hy. apply Hl. by right.
Qed.

Lemma load_pages_spec fuel : ∀ d l e, in_ok (heap e) (store e) → itable e = d ++ l → (length l ≤ fuel)%nat →
  wp (load_pages fuel (dkeys l) (list_to_set (dkeys d), sumw in_size d, dkeys (filter is_qos1 d)))
    (λ acc e', went e (itable e) (inbound e) [] e' ∧
       acc = (list_to_set (dkeys (itable e)), sumw in_size (itable e), dkeys (filter is_qos1 (itable e))))
    (λ _ _, ¬ reliable) e.
Proof.
  induction fuel as [| fuel IH]; intros d l e Hok Ht Hl.
  { destruct l; [| simpl in Hl; lia]. rewrite app_nil_r in Ht. subst d. split; [by apply went_refl | done]. }
  destruct l as [| y l0] eqn:El; [rewrite app_nil_r in Ht; subst d; split; [by apply went_refl | done] |].
  rewrite <- El in *. assert (dkeys l = y.1 :: dkeys l0) as Ek by (by subst). cbn [load_pages]. rewrite Ek, <- Ek.
  assert (∀ x, x ∈ l → dget x.1 (itable e) = Some x.2) as Hrow.
  { intros [k m] Hx. apply dget_elem_NoDup; [by apply irows_NoDup |]. rewrite Ht. apply elem_of_app. by right. }
  set (p := take REPLAY_PAGE_SIZE l). set (r := drop REPLAY_PAGE_SIZE l).
  assert (l = p ++ r) as Hpr by (symmetry; apply take_drop).
  assert (take REPLAY_PAGE_SIZE (dkeys l) = dkeys p ∧ drop REPLAY_PAGE_SIZE (dkeys l) = dkeys r) as [-> ->].
  { unfold dkeys, p, r. by rewrite fmap_take, fmap_drop. }
  apply wp_bind, wp_call. intros res h' s' Hc. apply in_page_law in Hc as (Hok' & Hf & Ht' & Hr); [| done].
  destruct res as [page | x]; [| apply Hr]. subst page. change (irows (heap e) (store e)) with (itable e).
  rewrite page_metas by (intros x Hx; apply Hrow; rewrite Hpr; apply elem_of_app; by left).
  rewrite load_page_spec.
  2: { intros x Hx. assert (dget x.1 (itable e) = Some x.2) as Hg by (apply Hrow; rewrite Hpr; apply elem_of_app; by left).
       by apply irows_mid in Hg as [_ ?]. }
  apply wp_bind. unfold wp at 1, lift. set (e1 := set_heap_store (h', s') e).
  assert (itable e1 = itable e) as Ee by exact Ht'.
  assert (∀ a b : intable, dkeys a ++ dkeys b = dkeys (a ++ b)) as Ea by (intros; unfold dkeys; by rewrite fmap_app).
  rewrite <- list_to_set_app_L, <- sumw_app, !Ea, <- filter_app.
  eapply wp_mono; [apply (IH (d ++ p) r e1) | | done].
  - done.
  - by rewrite Ee, <- app_assoc, <- Hpr.
  - unfold r. rewrite length_drop. subst l. simpl in *. unfold REPLAY_PAGE_SIZE. lia.
  - intros acc e2 [Hw Ha]. rewrite Ee in *. split; [| done]. destruct Hw as [? ? ? Hf2 ? ?].
    constructor; try done. by eapply ih_frame_trans.
Qed.

(** A new engine over a store that already holds rows. *)
Lemma init_spec e :
  in_ok (heap e) (store e) → (∀ mid, mid ∈ dkeys (itable e) → 1 ≤ mid ≤ 65535) → 0 ≤ max_inbound_inflight config →
  wp (InboundSession_init config) (λ _ e', IInv e' ∧ itable e' = itable e) (λ _ _, ¬ reliable) e.
Proof.
  intros Hok Hm Hr. unfold InboundSession_init, _load_recovered_state. apply wp_bind, wp_bind, wp_call.
  intros res h' s' Hc. apply in_mids_law in Hc as (Hok1 & Hf1 & Ht1 & Hres); [| done].
  destruct res as [mids | x]; [| apply Hres]. subst mids. set (e1 := set_heap_store (h', s') e).
  assert (itable e1 = itable e) as E1 by exact Ht1. change (irows (heap e) (store e)) with (itable e).
  eapply wp_mono; [apply (load_pages_spec _ [] (itable e) e1) | | done].
  - done.
  - by rewrite E1.
  - unfold dkeys. by rewrite length_fmap.
  - intros acc e2 [Hw ->]. rewrite E1 in *. destruct Hw as [Hok2 Ht2 Hi2 _ _ _]. apply wp_modify.
    split; [| done]. set (t := itable e) in *. constructor; [done | | done]. change (itable (set_inbound _ e2)) with (itable e2). rewrite Ht2.
    assert (NoDup (dkeys t)) as Hnd by (by apply irows_NoDup).
    constructor; simpl.
    + constructor; simpl; try done.
      * intros mid m Hg. pose proof (irows_mid _ _ _ _ Hok Hg). pose proof (Hm _ (dget_Some_key _ _ _ Hg)). tauto.
      * rewrite size_list_to_set by done. unfold dkeys. rewrite length_fmap. done.
    + constructor; unfold _inflight; simpl; no_slots; try done; try set_solver. intros _ [? | ?]; [done | lia].
    + constructor; simpl; by intros; simplify_map_eq.
Qed.
End life.
