(* ===== verification/Frames.v ===== *)
(** * What each half of the engine leaves alone

    A method stays within a preorder when every run of it, also one that
    raises, relates its first state to its last.  For a preorder that holds of
    the elementary steps of one half, every method of that half stays within
    it: the outbound methods leave the inbound session and its rows as they
    are, and the inbound methods keep the invariant of the outbound session. *)

From S2P Require Import Prelude Vbi PyStr Primitives Enums Properties Topics Frame Ack Publish Handshake.
From S2P Require Import Subscription Types Buffer PacketIds Settings Store StoreIn EngineState Outbound Inbound Engine Wp.
From S2P Require Import Accounting InboundBooks OutboundInv OutboundAcks InboundInv.

Section stays.
Context {S : Type} (R : relation (Engine S)) `{!PreOrder R}.
#[local] Set Default Proof Using "All".

Definition stays {A} (m : M S A) : Prop := ∀ e, R e (m e).2.

Lemma stays_ret {A} (a : A) : stays (mret a).
Proof. by intros e. Qed.
Lemma stays_raise {A} x : stays (@raise S A x).
Proof. by intros e. Qed.
Lemma stays_lift {A} (r : res A) : stays (lift r).
Proof. by intros e. Qed.
Lemma stays_gets {A} (f : Engine S → A) : stays (gets f).
Proof. by intros e. Qed.
Lemma stays_bind {A B} (m : M S A) (k : A → M S B) : stays m → (∀ a, stays (k a)) → stays (m ≫= k).
Proof.
  intros Hm Hk e. unfold mbind, M_bind. specialize (Hm e). destruct (m e) as [[a | x] e1]; [| done].
  simpl in Hm. etrans; [exact Hm | apply Hk].
Qed.
Lemma stays_try {A} (m : M S A) (h : exn → M S A) : stays m → (∀ x, stays (h x)) → stays (try_except m h).
Proof.
  intros Hm Hh e. unfold try_except. specialize (Hm e). destruct (m e) as [[a | x] e1]; [done |].
  simpl in Hm. etrans; [exact Hm | apply Hh].
Qed.
Lemma stays_modify f : (∀ e, R e (f e)) → stays (modify f).
Proof. intros Hf e. apply Hf. Qed.
Lemma stays_only_if c m : stays m → stays (only_if c m).
Proof. by destruct c; [| intros _; apply stays_ret]. Qed.
Lemma stays_for_each {A} (l : list A) body : (∀ x, stays (body x)) → stays (for_each l body).
Proof. intros Hb. induction l; cbn [for_each]; [apply stays_ret | by apply stays_bind]. Qed.
Lemma stays_for_fold {A B} (l : list A) (body : A → B → M S B) acc :
  (∀ x acc, stays (body x acc)) → stays (for_fold l body acc).
Proof. intros Hb. revert acc. induction l; intros acc; cbn [for_fold]; [apply stays_ret | by apply stays_bind]. Qed.

Lemma stays_wp {A} (m : M S A) e : stays m → wp m (λ _, R e) (λ _, R e) e.
Proof. intros Hm. unfold wp. specialize (Hm e). by destruct (m e) as [[a | x] e1]. Qed.
Lemma wp_stays {A} (m : M S A) : (∀ e, wp m (λ _, R e) (λ _, R e) e) → stays m.
Proof. intros Hm e. specialize (Hm e). unfold wp in Hm. by destruct (m e) as [[a | x] e1]. Qed.
End stays.

Create HintDb frames discriminated.
#[export] Hint Constants Opaque : frames.

(** Follow the constructs of a method, closing its calls with the database. *)
Ltac stays :=
  repeat (cbv zeta;
    lazymatch goal with
    | |- stays _ (_ ≫= _) => apply stays_bind; [apply _ | | intros ?]
    | |- stays _ (mret _) => apply stays_ret; apply _
    | |- stays _ (raise _) => apply stays_raise; apply _
    | |- stays _ (lift _) => apply stays_lift; apply _
    | |- stays _ (gets _) => apply stays_gets; apply _
    | |- stays _ (try_except _ _) => apply stays_try; [apply _ | | intros ?]
    | |- stays _ (only_if _ _) => apply stays_only_if; [apply _ |]
    | |- stays _ (for_each _ _) => apply stays_for_each; [apply _ | intros ?]
    | |- stays _ (for_fold _ _ _) => apply stays_for_fold; [apply _ | intros ??]
    | |- stays _ (match ?x with _ => _ end) => destruct x
    | |- stays _ _ => solve [auto with frames nocore]
    end).

(** ** Outbound methods *)

Class OutFrame {S : Type} `{OutStore S} (R : relation (Engine S)) := {
  of_order :: PreOrder R;
  of_step e h s : out_call (heap e, store e) (h, s) → R e (set_heap_store (h, s) e);
  of_set e o : R e (set_outbound o e);
  of_emit e fx : R e (set_effects (_effects e ++ [fx]) e) }.

(** A frame that also allows the connection to be torn down. *)
Class DownFrame {S : Type} `{OutStore S} (R : relation (Engine S)) := {
  df_out :: OutFrame R;
  df_conn e c : R e (set_conn c e);
  df_state e : R e (set_state DISCONNECTED e);
  df_pending e d : R e (set_pending_sub d e) }.

Section outbound_frame.
Context {S : Type} `{OutStore S} (R : relation (Engine S)) (config : EngineConfig) (pop : gset Z → Z) `{F : !OutFrame R}.
#[local] Set Default Proof Using "Type F".
Implicit Types (e : Engine S).

Abbreviation within m := (stays R m).

Lemma of_call {A} (f : sop S A) : (∀ x, out_call x (f x).2) → within (call f).
Proof.
  intros Hf e. unfold call. specialize (Hf (heap e, store e)). destruct (f (heap e, store e)) as [r [h s]].
  by apply of_step.
Qed.
Lemma of_put l : within (call (put_out l)).
Proof. apply of_call. constructor. Qed.
Lemma of_get mid : within (call (get_out mid)).
Proof. apply of_call. constructor. Qed.
Lemma of_delete mid : within (call (delete_out mid)).
Proof. apply of_call. constructor. Qed.
Lemma of_mids : within (call out_mids).
Proof. apply of_call. constructor. Qed.
Lemma of_page mids : within (call (out_page mids)).
Proof. apply of_call. constructor. Qed.
Lemma of_meta mid : within (call (out_meta mid)).
Proof. apply of_call. constructor. Qed.
Lemma of_complete mid st : within (call (complete_out mid st)).
Proof. apply of_call. constructor. Qed.
Lemma of_transition mid st new c : within (call (transition_out mid st new c)).
Proof. apply of_call. constructor. Qed.
Lemma of_heap f : (∀ h s, out_call (h, s) (f h, s)) → within (modify (λ e, set_heap (f (heap e)) e)).
Proof. intros Hf e. by apply (of_step e). Qed.
Lemma of_out f : within (out_modify f).
Proof. intros e. apply of_set. Qed.
Lemma of_effect fx : within (_emit fx).
Proof. intros e. apply of_emit. Qed.
Lemma of_acquire mid : within (flow_acquire mid).
Proof. intros e. unfold flow_acquire. destruct (FlowControl.try_acquire _ _). apply of_set. Qed.
Lemma of_allocate : within (ids_allocate pop).
Proof. intros e. unfold ids_allocate. destruct (allocate _ _). apply of_set. Qed.
Hint Resolve of_put of_get of_delete of_mids of_page of_meta of_complete of_transition of_out of_effect of_acquire
  of_allocate : frames.

Lemma of_deref l : within (deref l).
Proof. unfold deref. stays. Qed.
Hint Resolve of_deref : frames.
Lemma of_assign l f : within (assign l f).
Proof. unfold assign. stays. apply (of_heap (λ h, Memory.o_write h l (f a))). constructor. Qed.
Hint Resolve of_assign : frames.
Lemma of_new_message m : within (new_message m).
Proof. unfold new_message. stays. apply (of_heap (λ h, o_alloc h m)). constructor. Qed.
Hint Resolve of_new_message : frames.
Lemma of_summary q : within (summary q).
Proof. unfold summary. stays. Qed.
Hint Resolve of_summary : frames.
Lemma of_send w : within (_send w).
Proof. unfold _send. stays. Qed.
Hint Resolve of_send : frames.
Lemma of_send_ack w : within (_send_ack w).
Proof. unfold _send_ack. stays. Qed.
Hint Resolve of_send_ack : frames.
Lemma of_size w : within (_check_outbound_size w).
Proof. unfold _check_outbound_size. stays. Qed.
Hint Resolve of_size : frames.
Lemma of_alias topic ps : within (commit_topic_alias topic ps).
Proof. unfold commit_topic_alias. stays. Qed.
Hint Resolve of_alias : frames.
Lemma of_fail mid x : within (_fail mid x).
Proof. unfold _fail. stays. Qed.
Hint Resolve of_fail : frames.
Lemma of_reserve n : within (_reserve config n).
Proof. unfold _reserve. stays. Qed.
Hint Resolve of_reserve : frames.
Lemma of_release_reservation n : within (_release_reservation n).
Proof. unfold _release_reservation. stays. Qed.
Hint Resolve of_release_reservation : frames.
Lemma of_flow_release mid : within (flow_release mid).
Proof. unfold flow_release. stays. Qed.
Hint Resolve of_flow_release : frames.
Lemma of_ids_release mid : within (ids_release mid).
Proof. unfold ids_release. stays. Qed.
Hint Resolve of_ids_release : frames.
Lemma of_delete_failed mid : within (_delete_failed_admission mid).
Proof. unfold _delete_failed_admission. stays. Qed.
Hint Resolve of_delete_failed : frames.
Lemma of_rollback n b mids : within (_rollback n b mids).
Proof. unfold _rollback. stays. Qed.
Hint Resolve of_rollback : frames.
Lemma of_check_wire_size a b c q w : within (_check_publish_wire_size a b c q w).
Proof. unfold _check_publish_wire_size. stays. Qed.
Hint Resolve of_check_wire_size : frames.
Lemma of_check_size topic n q ps : within (_check_publish_size config topic n q ps).
Proof. unfold _check_publish_size. stays. Qed.
Hint Resolve of_check_size : frames.
Lemma of_resolve topic a : within (_resolve_outbound_alias topic a).
Proof. unfold _resolve_outbound_alias. stays. Qed.
Hint Resolve of_resolve : frames.
Lemma of_prepare topic payload qos retain ps w : within (_prepare_publish_request config topic payload qos retain ps w).
Proof. unfold _prepare_publish_request. stays. Qed.
Hint Resolve of_prepare : frames.
Lemma of_prepare_qos0 topic payload retain ps : within (prepare_qos0 config topic payload retain ps).
Proof. unfold prepare_qos0. stays. Qed.
Hint Resolve of_prepare_qos0 : frames.
Lemma of_launch l b pb tb t : within (_launch config l b pb tb t).
Proof. unfold _launch. stays. Qed.
Hint Resolve of_launch : frames.
Lemma of_try_launch l pb tb t : within (_try_launch config l pb tb t).
Proof. unfold _try_launch. stays. Qed.
Hint Resolve of_try_launch : frames.
Lemma of_retransmit l : within (_retransmit config l).
Proof. unfold _retransmit. stays. Qed.
Hint Resolve of_retransmit : frames.
Lemma of_discard mid s : within (discard_record mid s).
Proof. unfold discard_record. stays. Qed.
Hint Resolve of_discard : frames.
Lemma of_materialize q : within (materialize q).
Proof. unfold materialize. stays. Qed.
Hint Resolve of_materialize : frames.
Lemma of_popleft : within popleft.
Proof. unfold popleft. stays. Qed.
Hint Resolve of_popleft : frames.
Lemma of_drain_body q : within (drain_body config q).
Proof. unfold drain_body. stays. Qed.
Hint Resolve of_drain_body : frames.
Lemma of_drain_round q : within (drain_round config q).
Proof. unfold drain_round. stays. Qed.
Hint Resolve of_drain_round : frames.
Lemma of_drain_loop n : within (drain_loop config n).
Proof. induction n; cbn [drain_loop]; stays. Qed.
Hint Resolve of_drain_loop : frames.
Lemma of_drain : within (drain config).
Proof. unfold drain. stays. Qed.
Hint Resolve of_drain : frames.
Lemma of_admission topic payload retain ps p : within (admit_publish config pop topic payload retain ps p).
Proof. unfold admit_publish. stays. Qed.
Hint Resolve of_admission : frames.
Lemma of_queue_publish topic payload qos retain ps p : within (queue_publish config pop topic payload qos retain ps p).
Proof. unfold queue_publish. stays. Qed.
Hint Resolve of_queue_publish : frames.
Lemma of_report mid f : within (_report mid f).
Proof. unfold _report. stays. Qed.
Hint Resolve of_report : frames.
Lemma of_unpark mid : within (_unpark mid).
Proof. unfold _unpark. stays. Qed.
Hint Resolve of_unpark : frames.
Lemma of_finish mid st f : within (_finish config mid st f).
Proof. unfold _finish. stays. Qed.
Hint Resolve of_finish : frames.
Lemma of_capacity n : within (_require_pubrel_capacity n).
Proof. unfold _require_pubrel_capacity. stays. Qed.
Hint Resolve of_capacity : frames.
Lemma of_orphan mid : within (_send_orphan_pubrel config mid).
Proof. unfold _send_orphan_pubrel. stays. Qed.
Hint Resolve of_orphan : frames.
Lemma of_send_pubrel mid : within (send_pubrel mid).
Proof. unfold send_pubrel. stays. Qed.
Hint Resolve of_send_pubrel : frames.
Lemma of_pages {B} (body : OutboundMessageSummary → B → M S B) acc : (∀ s b, within (body s b)) → within (for_pages body acc).
Proof. intros Hb. unfold for_pages. stays. Qed.
Lemma of_seal_one mid acc : within (seal_one mid acc).
Proof. unfold seal_one. stays. Qed.
Hint Resolve of_seal_one : frames.
Lemma of_seal mids : within (seal mids).
Proof. unfold seal. stays. apply stays_modify; [apply _ |]. intros e. cbv zeta. case_if; [reflexivity | apply of_set]. Qed.
Hint Resolve of_seal : frames.
Lemma of_hydrate_message s : within (_hydrate_message s).
Proof. unfold _hydrate_message. stays. Qed.
Hint Resolve of_hydrate_message : frames.
Lemma of_hydrate : within hydrate.
Proof. apply of_pages. intros s _. stays. Qed.
Hint Resolve of_hydrate : frames.
Lemma of_negotiated q : within (validate_against_negotiated config q).
Proof. unfold validate_against_negotiated. stays. Qed.
Hint Resolve of_negotiated : frames.
Lemma of_validate_replay s : within (_validate_replay config s).
Proof. unfold _validate_replay. stays. Qed.
Hint Resolve of_validate_replay : frames.
Lemma of_check_replayable : within (check_session_replayable config).
Proof. unfold check_session_replayable. stays. apply of_pages. intros s u. stays. Qed.
Hint Resolve of_check_replayable : frames.
Lemma of_drop_publication s x : within (drop_publication s x).
Proof. unfold drop_publication. stays. Qed.
Hint Resolve of_drop_publication : frames.
Lemma of_enqueue q : within (enqueue q).
Proof. unfold enqueue. stays. Qed.
Hint Resolve of_enqueue : frames.
Lemma of_replay_message s : within (_replay_message config s).
Proof. unfold _replay_message. stays. Qed.
Hint Resolve of_replay_message : frames.
Lemma of_reset_flow : within (reset_flow_for_connection config).
Proof. unfold reset_flow_for_connection. stays. Qed.
Hint Resolve of_reset_flow : frames.
Lemma of_out_replay : within (Outbound.replay_session config).
Proof. unfold Outbound.replay_session. stays. apply of_pages. intros s _. stays. Qed.
Hint Resolve of_out_replay : frames.
Lemma of_purge_one s acc : within (purge_one s acc).
Proof. unfold purge_one, complete_record. stays. Qed.
Hint Resolve of_purge_one : frames.
Lemma of_purge b : within (purge_after_clean_session b).
Proof. unfold purge_after_clean_session. stays; [intros e; apply of_set | apply of_pages; intros s acc; stays | stays..]. Qed.
Hint Resolve of_purge : frames.
Lemma of_fail_loop n kept : within (fail_loop config n kept).
Proof. revert kept. induction n; intros kept; cbn [fail_loop]; stays. Qed.
Hint Resolve of_fail_loop : frames.
Lemma of_fail_violating : within (fail_queued_violating_negotiation config).
Proof. unfold fail_queued_violating_negotiation. stays. Qed.
Hint Resolve of_fail_violating : frames.
Lemma of_out_start : within Outbound.start_connection.
Proof. unfold Outbound.start_connection. stays. Qed.
Hint Resolve of_out_start : frames.
Lemma of_out_closed : within Outbound.transport_closed.
Proof. unfold Outbound.transport_closed. stays. Qed.
Hint Resolve of_out_closed : frames.
End outbound_frame.

Section down_frame.
Context {S : Type} `{OutStore S} (R : relation (Engine S)) (config : EngineConfig) `{F : !DownFrame R}.
#[local] Set Default Proof Using "Type F".

Abbreviation within m := (stays R m).

Lemma df_conn_modify f : within (conn_modify f).
Proof. intros e. apply df_conn. Qed.
Hint Resolve df_conn_modify : frames.
Hint Extern 1 (stays R (modify (set_state DISCONNECTED))) => (intros ?; apply df_state) : frames.
Hint Extern 1 (stays R (modify (set_pending_sub _))) => (intros ?; apply df_pending) : frames.
Hint Extern 2 (stays R _) => (apply of_meta || apply of_transition || apply of_out || apply of_effect || apply of_send ||
  apply of_size || apply of_finish || apply of_unpark || apply of_orphan || apply of_capacity || apply of_send_pubrel); apply _ : frames.

Lemma df_subs : within _release_pending_subscription_requests.
Proof. unfold _release_pending_subscription_requests. stays. Qed.
Hint Resolve df_subs : frames.
Lemma df_enter : within _enter_disconnected.
Proof. unfold _enter_disconnected. stays. Qed.
Hint Resolve df_enter : frames.
Lemma df_disconnect rc : within (_protocol_disconnect config rc).
Proof. unfold _protocol_disconnect. stays. Qed.
Hint Resolve df_disconnect : frames.
Lemma df_problem_information ps : within (_validate_inbound_problem_information config ps).
Proof. unfold _validate_inbound_problem_information. stays. Qed.
Hint Resolve df_problem_information : frames.
Lemma df_check_problem ps : within (check_problem_information config ps).
Proof. unfold check_problem_information. stays. Qed.
Hint Resolve df_check_problem : frames.
Lemma df_on_puback raw : within (on_puback config raw).
Proof. unfold on_puback. stays. Qed.
Hint Resolve df_on_puback : frames.
Lemma df_on_pubrec raw : within (on_pubrec config raw).
Proof. unfold on_pubrec. stays. Qed.
Hint Resolve df_on_pubrec : frames.
Lemma df_on_pubcomp raw : within (on_pubcomp config raw).
Proof. unfold on_pubcomp. stays. Qed.
Hint Resolve df_on_pubcomp : frames.
End down_frame.

(** ** Inbound methods *)

Class InFrame {S : Type} `{InStore S} (R : relation (Engine S)) := {
  if_order :: PreOrder R;
  if_step e h s : in_call (heap e, store e) (h, s) → R e (set_heap_store (h, s) e);
  if_set e i : R e (set_inbound i e);
  if_emit e fx : R e (set_effects (_effects e ++ [fx]) e) }.

(** A frame that also allows a protocol disconnect. *)
Class InDownFrame {S : Type} `{InStore S} (config : EngineConfig) (R : relation (Engine S)) := {
  id_in : InFrame R;
  id_down rc : stays R (_protocol_disconnect config rc) }.

Section inbound_frame.
Context {S : Type} `{InStore S} (R : relation (Engine S)) (config : EngineConfig) `{F : !InFrame R}.
#[local] Set Default Proof Using "Type F".
Implicit Types (e : Engine S).

Abbreviation within m := (stays R m).

Lemma if_call {A} (f : sop S A) : (∀ x, in_call x (f x).2) → within (call f).
Proof.
  intros Hf e. unfold call. specialize (Hf (heap e, store e)). destruct (f (heap e, store e)) as [r [h s]].
  by apply if_step.
Qed.
Lemma if_put l : within (call (put_in l)).
Proof. apply if_call. constructor. Qed.
Lemma if_get mid : within (call (get_in mid)).
Proof. apply if_call. constructor. Qed.
Lemma if_count : within (call in_count).
Proof. apply if_call. constructor. Qed.
Lemma if_mids : within (call in_mids).
Proof. apply if_call. constructor. Qed.
Lemma if_page mids : within (call (in_index_page mids)).
Proof. apply if_call. constructor. Qed.
Lemma if_meta mid : within (call (in_meta mid)).
Proof. apply if_call. constructor. Qed.
Lemma if_next g : within (call (in_replay_next g)).
Proof. apply if_call. constructor. Qed.
Lemma if_mark mid : within (call (mark_in_delivered mid)).
Proof. apply if_call. constructor. Qed.
Lemma if_transition mid st new a : within (call (transition_in mid st new a)).
Proof. apply if_call. constructor. Qed.
Lemma if_complete mid st : within (call (complete_in mid st)).
Proof. apply if_call. constructor. Qed.
Lemma if_clear : within (call clear_in).
Proof. apply if_call. constructor. Qed.
Lemma if_in f : within (in_modify f).
Proof. intros e. apply if_set. Qed.
Lemma if_effect fx : within (_emit fx).
Proof. intros e. apply if_emit. Qed.
Hint Resolve if_put if_get if_count if_mids if_page if_meta if_next if_mark if_transition if_complete if_clear if_in
  if_effect : frames.

Lemma if_deref_in l : within (deref_in l).
Proof. unfold deref_in. stays. Qed.
Hint Resolve if_deref_in : frames.
Lemma if_size w : within (_check_outbound_size w).
Proof. unfold _check_outbound_size. stays. Qed.
Hint Resolve if_size : frames.
Lemma if_new_inbound m : within (new_inbound m).
Proof. unfold new_inbound. stays. intros e. apply (if_step e). constructor. Qed.
Hint Resolve if_new_inbound : frames.
Lemma if_new_token : within new_token.
Proof. unfold new_token. stays. Qed.
Hint Resolve if_new_token : frames.
Lemma if_load_pages n mids acc : within (load_pages n mids acc).
Proof. revert mids acc. induction n; intros [| mid mids] acc; cbn [load_pages]; stays. Qed.
Hint Resolve if_load_pages : frames.
Lemma if_load_recovered_state : within _load_recovered_state.
Proof. unfold _load_recovered_state. stays. Qed.
Hint Resolve if_load_recovered_state : frames.
Lemma if_init : within (InboundSession_init config).
Proof. unfold InboundSession_init. stays. Qed.
Hint Resolve if_init : frames.
Lemma if_start_connection a b : within (Inbound.start_connection a b).
Proof. unfold Inbound.start_connection. stays. Qed.
Hint Resolve if_start_connection : frames.
Lemma if_transport_closed : within Inbound.transport_closed.
Proof. unfold Inbound.transport_closed. stays. Qed.
Hint Resolve if_transport_closed : frames.
Lemma if_discard_session : within discard_session.
Proof. unfold discard_session. stays. Qed.
Hint Resolve if_discard_session : frames.
Lemma if_lookup mid : within (_lookup_stored_inbound mid).
Proof. unfold _lookup_stored_inbound. stays. Qed.
Hint Resolve if_lookup : frames.
Lemma if_remember : within _remember_inbound.
Proof. unfold _remember_inbound. stays. Qed.
Hint Resolve if_remember : frames.
Lemma if_forget : within _forget_inbound.
Proof. unfold _forget_inbound. stays. Qed.
Hint Resolve if_forget : frames.
Lemma if_complete_stored mid st : within (_complete_stored_inbound mid st).
Proof. unfold _complete_stored_inbound. stays. Qed.
Hint Resolve if_complete_stored : frames.
Lemma if_fresh mid : within (fresh_exchange mid).
Proof. unfold fresh_exchange. stays. Qed.
Hint Resolve if_fresh : frames.
Lemma if_exchange_token mid : within (_exchange_token mid).
Proof. unfold _exchange_token. stays. Qed.
Hint Resolve if_exchange_token : frames.
Lemma if_bind_ack_token msg : within (_bind_ack_token msg).
Proof. unfold _bind_ack_token. stays. Qed.
Hint Resolve if_bind_ack_token : frames.
Lemma if_bind_if_manual msg : within (bind_if_manual config msg).
Proof. unfold bind_if_manual. stays. Qed.
Hint Resolve if_bind_if_manual : frames.
Lemma if_release_pending_bytes n : within (_release_pending_bytes n).
Proof. unfold _release_pending_bytes. stays. Qed.
Hint Resolve if_release_pending_bytes : frames.
Lemma if_current_add mid : within (current_add mid).
Proof. unfold current_add. stays. Qed.
Hint Resolve if_current_add : frames.
Lemma if_current_remove mid : within (current_remove mid).
Proof. unfold current_remove. stays. Qed.
Hint Resolve if_current_remove : frames.
Lemma if_persisted_slot mid n : within (_release_persisted_slot mid n).
Proof. unfold _release_persisted_slot. stays. Qed.
Hint Resolve if_persisted_slot : frames.
Lemma if_hold mid n : within (_hold_until_pubcomp_handoff mid n).
Proof. unfold _hold_until_pubcomp_handoff. stays. Qed.
Hint Resolve if_hold : frames.
Lemma if_send_ack w : within (_send_ack w).
Proof. unfold _send_ack. stays. Qed.
Hint Resolve if_send_ack : frames.
Lemma if_answer f mid : within (answer f mid).
Proof. unfold answer. stays. Qed.
Hint Resolve if_answer : frames.
Lemma if_deliver a b c d : within (deliver a b c d).
Proof. unfold deliver. stays. Qed.
Hint Resolve if_deliver : frames.
Lemma if_completed_auto mid n : within (_release_completed_auto mid n).
Proof. unfold _release_completed_auto. stays. Qed.
Hint Resolve if_completed_auto : frames.
Lemma if_emit_message l d : within (_emit_message config l d).
Proof. unfold _emit_message. stays. Qed.
Hint Resolve if_emit_message : frames.
Lemma if_complete_qos2 mid st : within (_complete_qos2 mid st).
Proof. unfold _complete_qos2. stays. Qed.
Hint Resolve if_complete_qos2 : frames.
Lemma if_complete_qos1 mid : within (_complete_qos1 mid).
Proof. unfold _complete_qos1. stays. Qed.
Hint Resolve if_complete_qos1 : frames.
Lemma if_drain_acks order : within (drain_acks order).
Proof. induction order; cbn [drain_acks]; stays. Qed.
Hint Resolve if_drain_acks : frames.
Lemma if_drain_manual : within _drain_manual_qos1_acks.
Proof. unfold _drain_manual_qos1_acks. stays. Qed.
Hint Resolve if_drain_manual : frames.
Lemma if_mark_delivered mid token : within (mark_delivered mid token).
Proof. unfold mark_delivered. stays. Qed.
Hint Resolve if_mark_delivered : frames.
Lemma if_ack mid msg : within (Inbound.ack config mid msg).
Proof. unfold Inbound.ack. stays. Qed.
Hint Resolve if_ack : frames.
Lemma if_end_replay : within end_replay.
Proof. unfold end_replay. stays. Qed.
Hint Resolve if_end_replay : frames.
Lemma if_set_cursor c : within (set_cursor c).
Proof. unfold set_cursor. stays. Qed.
Hint Resolve if_set_cursor : frames.
Lemma if_begin_page c : within (begin_page c).
Proof. unfold begin_page. stays. Qed.
Hint Resolve if_begin_page : frames.
Lemma if_replay_batch n a b : within (replay_batch config n a b).
Proof. revert a b. induction n; intros a b; cbn [replay_batch]; stays. Qed.
Hint Resolve if_replay_batch : frames.
Lemma if_drain_replay : within (drain_replay config).
Proof. unfold drain_replay. stays. Qed.
Hint Resolve if_drain_replay : frames.
Lemma if_replay_session : within (Inbound.replay_session config).
Proof. unfold Inbound.replay_session. stays. Qed.
Hint Resolve if_replay_session : frames.
End inbound_frame.

Section inbound_down.
Context {S : Type} `{InStore S} (R : relation (Engine S)) (config : EngineConfig) `{F : !InDownFrame config R}.
#[local] Set Default Proof Using "Type F".

#[local] Instance inbound_down_frame : InFrame R := id_in.
Abbreviation within m := (stays R m).

Hint Extern 1 (stays R (_protocol_disconnect _ _)) => (apply id_down) : frames.
Hint Extern 2 (stays R _) => (apply if_in || apply if_size || apply if_effect || apply if_put || apply if_get ||
  apply if_mark || apply if_transition || apply if_lookup || apply if_answer || apply if_deliver || apply if_exchange_token ||
  apply if_bind_if_manual || apply if_remember || apply if_fresh || apply if_new_inbound || apply if_complete_qos2 ||
  apply if_release_pending_bytes || apply if_current_add || apply if_current_remove ||
  apply if_hold || apply if_emit_message || apply if_drain_manual || apply if_complete_stored || apply if_persisted_slot ||
  apply if_completed_auto || apply if_complete_qos1 || apply if_forget || apply if_bind_ack_token || apply if_new_token || apply if_deref_in); apply _ : frames.

Lemma id_problem_information ps : within (_validate_inbound_problem_information config ps).
Proof. unfold _validate_inbound_problem_information. stays. Qed.
Hint Resolve id_problem_information : frames.
Lemma id_check_problem ps : within (check_problem_information config ps).
Proof. unfold check_problem_information. stays. Qed.
Hint Resolve id_check_problem : frames.
Lemma id_collision {A} : within (@_reject_packet_id_collision S config A).
Proof. unfold _reject_packet_id_collision. stays. Qed.
Hint Resolve id_collision : frames.
Lemma id_acquire_slot n : within (_acquire_slot config n).
Proof. unfold _acquire_slot. stays. Qed.
Hint Resolve id_acquire_slot : frames.
Lemma id_acquire_current mid : within (acquire_current config mid).
Proof. unfold acquire_current. stays. Qed.
Hint Resolve id_acquire_current : frames.
Lemma id_store_exchange m : within (store_exchange m).
Proof. unfold store_exchange. stays. Qed.
Hint Resolve id_store_exchange : frames.
Lemma id_on_qos2 topic payload mid retain dup ps w : within (_on_qos2 config topic payload mid retain dup ps w).
Proof. unfold _on_qos2. stays. Qed.
Hint Resolve id_on_qos2 : frames.
Lemma id_recovered_auto mid : within (_complete_recovered_qos1_auto config mid).
Proof. unfold _complete_recovered_qos1_auto. stays. Qed.
Hint Resolve id_recovered_auto : frames.
Lemma id_qos1_auto topic payload mid retain dup ps w : within (_on_qos1_auto config topic payload mid retain dup ps w).
Proof. unfold _on_qos1_auto. stays. Qed.
Hint Resolve id_qos1_auto : frames.
Lemma id_qos1_manual topic payload mid retain dup ps w : within (_on_qos1_manual config topic payload mid retain dup ps w).
Proof. unfold _on_qos1_manual. stays. Qed.
Hint Resolve id_qos1_manual : frames.
Lemma id_on_qos1 topic payload mid retain dup ps w : within (_on_qos1 config topic payload mid retain dup ps w).
Proof. unfold _on_qos1. destruct (manual_ack config); stays. Qed.
Hint Resolve id_on_qos1 : frames.
Lemma id_resolve_topic_fields topic ps : within (_resolve_topic_fields config topic ps).
Proof. unfold _resolve_topic_fields. stays. Qed.
Hint Resolve id_resolve_topic_fields : frames.
Lemma id_publish_v311 raw : within (_on_publish_v311 config raw).
Proof. unfold _on_publish_v311. stays. case_if; stays. Qed.
Hint Resolve id_publish_v311 : frames.
Lemma id_resolve_publish topic ps n : within (resolve_publish config topic ps n).
Proof. unfold resolve_publish. stays. Qed.
Hint Resolve id_resolve_publish : frames.
Lemma id_publish_v5 raw : within (_on_publish_v5 config raw).
Proof. unfold _on_publish_v5. stays. case_if; stays. Qed.
Hint Resolve id_publish_v5 : frames.
Lemma id_handle_publish raw : within (handle_publish config raw).
Proof. unfold handle_publish. destruct (b_is_mqtt5 (codec config)); stays. Qed.
Hint Resolve id_handle_publish : frames.
Lemma id_on_pubrel raw : within (on_pubrel config raw).
Proof. unfold on_pubrel. stays. Qed.
Hint Resolve id_on_pubrel : frames.
End inbound_down.

(** ** The frames *)

Section frames.
Context {S : Type} `{L : InStoreLaws S} (config : EngineConfig).
Implicit Types (e : Engine S).

(** The inbound session and its rows are the same. *)
Definition in_same e e' : Prop :=
  inbound e' = inbound e ∧
  (in_ok (heap e) (store e) → in_ok (heap e') (store e') ∧ itable e' = itable e ∧ ih_frame (heap e) (heap e')).

#[export] Instance in_same_preorder : PreOrder in_same.
Proof.
  split; [by intros e |]. intros e1 e2 e3 [E1 R1] [E2 R2]. split; [congruence |]. intros Hok.
  destruct (R1 Hok) as (Hok2 & T1 & F1). destruct (R2 Hok2) as (Hok3 & T2 & F2).
  split_and!; [done | congruence | by eapply ih_frame_trans].
Qed.

Lemma in_same_conn e e' : inbound e' = inbound e → heap e' = heap e → store e' = store e → in_same e e'.
Proof. intros Hi Hh Hs. split; [done |]. unfold itable. by rewrite Hh, Hs. Qed.

#[export] Instance in_same_frame : DownFrame in_same.
Proof.
  constructor; [constructor; [apply _ | ..] | ..]; intros; try by apply in_same_conn.
  split; [done |]. intros Hok. by apply out_keeps.
Qed.

Lemma in_same_inv e e' : in_same e e' → IInv config e → IInv config e'.
Proof.
  intros [Hi Hr] [Hok HB Hh]. destruct (Hr Hok) as (Hok' & Ht & Hf). constructor; [done | by rewrite Hi, Ht |].
  intros c l Hc Hl. rewrite Hi in Hc. eapply Hf, Hh; [exact Hc | done].
Qed.

(** The outbound invariant is kept. *)
Definition out_inv e e' : Prop := Inv e → Inv e'.

#[export] Instance out_inv_preorder : PreOrder out_inv.
Proof. split; [by intros e HI | intros e1 e2 e3 Ha Hb HI; by apply Hb, Ha]. Qed.

#[export] Instance out_inv_frame : InFrame out_inv.
Proof using L.
  constructor; [apply _ | ..].
  - intros e h s Hc HI. destruct (in_keeps _ _ _ _ (i_ok _ HI) Hc) as (Hok & Ht & Hf).
    destruct (q_row_quiet _ _ _ Hf (i_objs _ HI)) as [Hq Ho].
    eapply inv_intro; [exact Hok | exact Ho | exact Ht | exact Hq | apply HI..].
  - intros e i HI. by apply (inv_rebooked e).
  - intros e fx HI. by apply (inv_rebooked e).
Qed.
#[export] Instance out_inv_down : InDownFrame config out_inv.
Proof using L.
  constructor; [apply _ |]. intros rc e HI. pose proof (inv_protocol_disconnect config rc e HI) as Hw. unfold wp in Hw.
  by destruct (_protocol_disconnect config rc e) as [[[] | x] e'].
Qed.

(** The connection is kept. *)
Definition link e := (state e, conn e, negotiated e).
Definition same_link e e' : Prop := link e' = link e.

#[export] Instance same_link_preorder : PreOrder same_link.
Proof. split; [done | intros e1 e2 e3; unfold same_link; congruence]. Qed.
#[export] Instance same_link_out : OutFrame same_link.
Proof. constructor; [apply _ | done..]. Qed.
#[export] Instance same_link_in : InFrame same_link.
Proof. constructor; [apply _ | done..]. Qed.

(** The outbound session, the requests and the outbound rows are kept. *)
Definition out_same e e' : Prop :=
  outbound e' = outbound e ∧ _pending_sub_requests e' = _pending_sub_requests e ∧
  (table_ok e → table_ok e' ∧ table e' = table e ∧ heap_frame untouched (heap e) (heap e')).

#[export] Instance out_same_preorder : PreOrder out_same.
Proof.
  split; [intros e; split_and!; [done.. | intros; split_and!; [done.. | apply heap_frame_refl]] |].
  intros e1 e2 e3 (E1 & F1 & R1) (E2 & F2 & R2). split_and!; [congruence.. |]. intros Hok.
  destruct (R1 Hok) as (Hok2 & T1 & G1). destruct (R2 Hok2) as (Hok3 & T2 & G2).
  split_and!; [done | congruence |]. eapply heap_frame_weaken, heap_frame_trans; [| exact G1 | exact G2]. by intros m [|].
Qed.
#[export] Instance out_same_frame : InFrame out_same.
Proof using L.
  constructor; [apply _ | ..]; intros e; intros; split_and!; try done; intros Hok;
    try (split_and!; [done.. | apply heap_frame_refl]). by eapply in_keeps.
Qed.

(** Effects are only appended. *)
Definition effects_grow e e' : Prop := _effects e `prefix_of` _effects e'.

#[export] Instance effects_grow_preorder : PreOrder effects_grow.
Proof. split; [intros e; unfold effects_grow; reflexivity | intros e1 e2 e3; unfold effects_grow; intros; by etrans]. Qed.
#[export] Instance effects_grow_out : DownFrame effects_grow.
Proof.
  constructor; [constructor; [apply _ | ..] | ..]; intros; unfold effects_grow; simpl; try reflexivity. by eexists.
Qed.
#[export] Instance effects_grow_in : InFrame effects_grow.
Proof. constructor; [apply _ | ..]; intros; unfold effects_grow; simpl; try reflexivity. by eexists. Qed.
End frames.
