(* ===== verification/EngineInv.v ===== *)
(** * The engine keeps the books of both sessions

    What an application, a broker and a transport do to [ProtocolEngine], as one
    step relation, and the invariant of both sessions in every state it
    reaches. *)

From S2P Require Import Prelude Vbi PyStr Primitives Enums Properties Topics Frame Ack Publish Handshake.
From S2P Require Import Subscription Types Buffer PacketIds Settings Store StoreIn EngineState Outbound Inbound Engine Wp.
From S2P Require Import Accounting InboundBooks OutboundInv OutboundAcks OutboundPublish OutboundReplay OutboundPurge.
From S2P Require Import InboundInv InboundHandlers InboundLife Frames.

(** The limits a CONNECT declares are those of the configuration. *)
Lemma Properties_init_get n ps : dget n (Properties_init ps) = own_value n <$> dget n ps.
Proof.
  induction ps as [| [k v] ps IH]; [done |]. simpl. case_decide as E; [by subst |]. exact IH.
Qed.

Lemma sent_receive_maximum config ps rm am n : connect_properties_sent config = ps →
  sent_limits config ps = Ok (rm, am, n) → rm = max_inbound_inflight config.
Proof.
  unfold sent_limits, connect_properties_sent. intros <-. case_bool_decide as Hv; [| intros H; by res_inv].
  cbv zeta. set (values := match maximum_packet_size config with Some _ => _ | None => _ end).
  set (values' := if topic_alias_maximum config =? 0 then values else _).
  assert (dget "receive_maximum"%string (Properties_init values') = Some (VInt (max_inbound_inflight config))) as Hg.
  { rewrite Properties_init_get. unfold values', values.
    case_if; repeat case_match; rewrite ?dget_dset_ne by done; by rewrite dget_dset_eq. }
  unfold dget_or. rewrite Hg. cbn [py_int rbind]. intros H. apply rbind_Ok_inv in H as (a & _ & H).
  destruct (pget _ _); [apply rbind_Ok_inv in H as (k & _ & H) |]; by simplify_eq.
Qed.

Lemma checked_window config : EngineConfig_check config = Ok tt → 1 ≤ max_inbound_inflight config ≤ 65535.
Proof.
  unfold EngineConfig_check, _validate_bounds. intros H. destruct (outside 0 65535 _) in H; [done |].
  apply rbind_Ok_inv in H as (u & H & _). destruct (outside 1 65535 (max_inbound_inflight config)) eqn:E in H; [done |].
  unfold outside in E. apply negb_false_iff in E. bools. lia.
Qed.

Section engine_inv.
Context {S : Type} `{L : InStoreLaws S} (config : EngineConfig) (pop : gset Z → Z).
Context (Hpop : ∀ s, s ≠ ∅ → pop s ∈ s) (Hconfig : EngineConfig_check config = Ok tt).
#[local] Set Default Proof Using "Type L".
Implicit Types (e : Engine S).

Record EInv e : Prop := { ei_out : Inv e; ei_in : IInv config e }.
Definition eng_inv e e' : Prop := EInv e → EInv e'.

#[export] Instance eng_inv_preorder : PreOrder eng_inv.
Proof. split; [by intros e HI | intros e1 e2 e3 Ha Hb HI; apply Hb, Ha, HI]. Qed.

Abbreviation keeps m := (stays eng_inv m).

Lemma keeps_of_wp {A} (m : M S A) : (∀ e, EInv e → wp m (λ _, EInv) (λ _, EInv) e) → keeps m.
Proof. intros Hm e HI. specialize (Hm e HI). unfold wp in Hm. by destruct (m e) as [[a | x] e']. Qed.

Lemma wp_of_keeps {A} (m : M S A) e : keeps m → EInv e → wp m (λ _, EInv) (λ _, EInv) e.
Proof. intros Hm HI. specialize (Hm e HI). unfold wp. by destruct (m e) as [[a | x] e']. Qed.

(** A method of one session, whose own invariant it keeps. *)
Lemma keeps_out {A} (m : M S A) : (∀ e, Inv e → wp m (λ _, Inv) (λ _, Inv) e) → stays in_same m → keeps m.
Proof.
  intros Hm Hs e [HI HII]. constructor; [| eapply in_same_inv; [apply Hs | exact HII]].
  specialize (Hm e HI). unfold wp in Hm. by destruct (m e) as [[a | x] e'].
Qed.
Lemma keeps_in {A} (m : M S A) :
  (∀ e, IInv config e → wp m (λ _, IInv config) (λ _, IInv config) e) → stays out_inv m → keeps m.
Proof.
  intros Hm Hs e [HI HII]. constructor; [by apply Hs |].
  specialize (Hm e HII). unfold wp in Hm. by destruct (m e) as [[a | x] e'].
Qed.
Lemma keeps_modify f :
  (∀ e, rebooked e (f e) (books (outbound e)) ∧ inbound (f e) = inbound e) → keeps (modify f).
Proof.
  intros Hf e [HI HII]. destruct (Hf e) as [Hr Hi]. constructor; [by eapply inv_rebooked |].
  eapply in_same_inv; [| exact HII]. apply in_same_conn; [done | apply Hr..].
Qed.

Lemma keeps_emit fx : keeps (_emit fx).
Proof. by apply keeps_modify. Qed.
Lemma keeps_conn f : keeps (conn_modify f).
Proof. by apply keeps_modify. Qed.
Lemma keeps_state st : keeps (modify (set_state st)).
Proof. by apply keeps_modify. Qed.
Lemma keeps_negotiated n : keeps (modify (set_negotiated n)).
Proof. by apply keeps_modify. Qed.
Lemma keeps_effects fx : keeps (modify (set_effects fx)).
Proof. by apply keeps_modify. Qed.
Lemma keeps_remember : keeps remember_client_id.
Proof. by apply keeps_modify. Qed.
Lemma keeps_resume_preference : keeps (_update_session_resume_preference config).
Proof. by apply keeps_modify. Qed.
Lemma keeps_size w : keeps (_check_outbound_size w).
Proof. unfold _check_outbound_size. stays. Qed.
Lemma keeps_send w : keeps (_send w).
Proof. apply keeps_emit. Qed.
Lemma keeps_enter : keeps _enter_disconnected.
Proof. unfold _enter_disconnected. apply stays_bind; [apply _ | apply keeps_conn | intros; apply keeps_state]. Qed.
Lemma keeps_disconnect rc : keeps (_protocol_disconnect config rc).
Proof. apply keeps_out; [intros e; apply inv_protocol_disconnect | apply df_disconnect, _]. Qed.
Hint Resolve keeps_emit keeps_conn keeps_state keeps_negotiated keeps_effects keeps_remember keeps_resume_preference
  keeps_size keeps_send keeps_enter keeps_disconnect : frames.

Lemma keeps_problem ps : keeps (_validate_inbound_problem_information config ps).
Proof. unfold _validate_inbound_problem_information. stays. Qed.
Lemma keeps_refuse {A} : keeps (@refuse S config A).
Proof. unfold refuse. stays. Qed.
Lemma keeps_subs : keeps _release_pending_subscription_requests.
Proof.
  apply keeps_out; [| apply df_subs, _]. intros e HI.
  eapply wp_mono; [by apply release_pending_inv | by intros ?? [] | done].
Qed.
Hint Resolve keeps_problem keeps_refuse keeps_subs : frames.

(** *** Publications *)

Lemma keeps_publish topic payload qos retain properties prepared :
  (∀ ps, properties = Some ps → NoDup (dkeys ps)) → (is_Some prepared → alias_read properties) →
  keeps (queue_publish config pop topic payload qos retain properties prepared).
Proof using Hpop L.
  intros Hps Hpr. apply keeps_out; [| apply of_queue_publish, _]. intros e HI.
  eapply wp_mono; [by apply (queue_publish_spec config pop Hpop) | |].
  - intros a e' [(w & _ & ? & _) | (mid & level & n & _ & Hm)]; [done | apply Hm].
  - intros x e' Hr. apply Hr.
Qed.

Lemma keeps_puback raw : keeps (on_puback config raw).
Proof. apply keeps_out; [intros e; apply inv_on_puback | apply df_on_puback, _]. Qed.
Lemma keeps_pubrec raw : keeps (on_pubrec config raw).
Proof. apply keeps_out; [intros e; apply inv_on_pubrec | apply df_on_pubrec, _]. Qed.
Lemma keeps_pubcomp raw : keeps (on_pubcomp config raw).
Proof. apply keeps_out; [intros e; apply inv_on_pubcomp | apply df_on_pubcomp, _]. Qed.
Lemma keeps_drain : keeps (drain config).
Proof.
  apply keeps_out; [| apply of_drain, _]. intros e HI. eapply wp_mono; [by apply drain_inv | by intros ?? [] | done].
Qed.
Hint Resolve keeps_puback keeps_pubrec keeps_pubcomp keeps_drain : frames.

(** Reading the stored rows. *)
Lemma keeps_read {A} (f : sop S A) :
  (∀ e, table_ok e → wp (call f) (λ _ e', moved untouched (table e) e e') (λ _ e', moved untouched (table e) e e') e) →
  (∀ x, out_call x (f x).2) → keeps (call f).
Proof.
  intros Hf Hc. apply keeps_out; [| exact (of_call in_same f Hc)]. intros e HI.
  eapply wp_mono; [apply Hf, HI | intros a e1 Hq; exact (inv_quiet e e1 HI Hq) | intros x e1 Hq; exact (inv_quiet e e1 HI Hq)].
Qed.
Lemma keeps_mids : keeps (call out_mids).
Proof. apply keeps_read; [| constructor]. intros e Hok. apply wp_mids; [done | |]; intros; by constructor. Qed.
Lemma keeps_page mids : keeps (call (out_page mids)).
Proof. apply keeps_read; [| constructor]. intros e Hok. apply wp_page; [done | |]; intros; by constructor. Qed.
Hint Resolve keeps_mids keeps_page : frames.

Lemma keeps_validate msg : keeps (_validate_replay config msg).
Proof.
  unfold _validate_replay. stays. intros e HI. by rewrite (still_validate config (QSummary msg) e).
Qed.
Hint Resolve keeps_validate : frames.
Lemma keeps_check_replayable : keeps (check_session_replayable config).
Proof. unfold check_session_replayable, for_pages. stays. Qed.
Hint Resolve keeps_check_replayable : frames.

(** *** Received publications *)

Lemma keeps_mark mid token : keeps (mark_delivered mid token).
Proof. apply keeps_in; [intros e; by apply mark_delivered_inv | apply if_mark_delivered, _]. Qed.
Lemma keeps_ack mid message : keeps (Inbound.ack config mid message).
Proof. apply keeps_in; [intros e; by apply ack_inv | apply if_ack, _]. Qed.
Lemma keeps_pubrel raw : keeps (on_pubrel config raw).
Proof. apply keeps_in; [intros e; by apply on_pubrel_inv | apply id_on_pubrel, _]. Qed.
Lemma keeps_received raw : bytes_ok (remaining raw) → keeps (handle_publish config raw).
Proof. intros Hb. apply keeps_in; [intros e HI; by apply handle_publish_inv | apply id_handle_publish, _]. Qed.
Lemma keeps_replay : keeps (drain_replay config).
Proof. apply keeps_in; [intros e; by apply drain_replay_inv | apply if_drain_replay, _]. Qed.
Lemma keeps_redeliver : keeps (Inbound.replay_session config).
Proof. apply keeps_in; [intros e; by apply replay_session_inv | apply if_replay_session, _]. Qed.
Lemma keeps_release_acks : keeps (in_modify release_pending_acks).
Proof. apply keeps_in; [intros e; by apply release_pending_inv_in | apply if_in, _]. Qed.
Hint Resolve keeps_mark keeps_ack keeps_pubrel keeps_received keeps_replay keeps_redeliver keeps_release_acks : frames.

(** *** Subscription requests *)

Hint Extern 2 (stays in_same _) => (apply of_allocate || apply of_ids_release || apply of_size || apply of_send ||
  apply df_disconnect || apply df_pending); apply _ : frames.

(** The identifier pool and the pending requests move together. *)
Lemma inv_requests ids' subs' e :
  Inv e → pool_ok ids' → NoDup (dkeys subs') →
  (∀ mid, mid ∈ dkeys subs' → mid ∉ dkeys (table e) ∧ mid ∉ dkeys (_sealed (outbound e))) →
  (∀ mid, mid ∈ used ids' ↔ mid ∈ dkeys (table e) ∨ mid ∈ dkeys (_sealed (outbound e)) ∨ mid ∈ dkeys subs') →
  Inv (set_pending_sub subs' (set_outbound (set_packet_ids ids' (outbound e)) e)).
Proof. intros. by apply (inv_subs e _ ids'). Qed.

Lemma keeps_send_request request : keeps (_send_subscription_request pop request).
Proof using Hpop L.
  destruct request as [[encode ack] count]. apply keeps_out.
  2: { unfold _send_subscription_request. stays. intros e. apply df_pending. }
  intros e HI. pose proof (i_acct _ HI) as Ha. unfold _send_subscription_request. apply wp_bind. unfold wp at 1, ids_allocate.
  destruct (allocate_spec pop Hpop (packet_ids (outbound e)) (a_pool _ _ _ _ _ _ _ _ Ha))
    as [(mid & p' & -> & Hok & _ & Hfresh & Hu) | (p' & -> & Hok & Hu & _)].
  2: { apply (inv_subs e _ p' HI); try done; [apply Ha..|]. intros x. rewrite Hu. apply Ha. }
  set (e1 := set_outbound _ e).
  assert (mid ∉ dkeys (_pending_sub_requests e)) as Hns by (intros Hin; apply Hfresh, Ha; tauto).
  assert (Inv (set_outbound (set_packet_ids (release p' mid) (outbound e1)) e1)) as Hundo.
  { destruct (release_spec p' mid Hok) as [Hok' Hr]. apply (inv_subs e _ (release p' mid) HI); try done; [apply Ha..|].
    intros x. rewrite Hr, Hu. pose proof (a_ids _ _ _ _ _ _ _ _ Ha x). simpl. split; [tauto |]. intros Hx.
    split; [tauto |]. intros ->. tauto. }
  apply (wp_then _ _ (λ _ e', e' = e1) (λ _, Inv)); [| | done].
  - apply wp_try. apply wp_lift_bind; [intros w _ |].
    + apply wp_bind. unfold _check_outbound_size. apply wp_bind, wp_gets.
      destruct (n_maximum_packet_size _); [| done]. destruct (_ >? _); [| done]. exact Hundo.
    + intros x. exact Hundo.
  - intros w ? ->. apply wp_bind, wp_modify, wp_bind, wp_modify, wp_ret.
    apply (inv_subs e _ p' HI); try done; simpl.
    + by apply NoDup_dset, Ha.
    + intros x [-> | ?]%dkeys_dset; [| by apply Ha]. split; intros Hin; apply Hfresh, Ha; tauto.
    + intros x. rewrite Hu, dkeys_dset, (a_ids _ _ _ _ _ _ _ _ Ha x). tauto.
Qed.
Hint Resolve keeps_send_request : frames.

Lemma keeps_complete_request mid ack count : keeps (_complete_subscription_request mid ack count).
Proof.
  apply keeps_out.
  2: { unfold _complete_subscription_request. stays. intros e. apply df_pending. }
  intros e HI. pose proof (i_acct _ HI) as Ha. unfold _complete_subscription_request. apply wp_bind, wp_gets.
  destruct (dget mid (_pending_sub_requests e)) as [[ty n] |] eqn:Eg; [| done].
  apply wp_if; intros _; [done |]. apply wp_if; intros _; [done |]. apply wp_bind, wp_modify, wp_modify. simpl.
  assert (mid ∈ dkeys (_pending_sub_requests e)) as Hin by (by eapply dget_Some_key).
  destruct (a_subs_free _ _ _ _ _ _ _ _ Ha mid Hin) as [Hnt Hnse].
  destruct (release_spec (packet_ids (outbound e)) mid (a_pool _ _ _ _ _ _ _ _ Ha)) as [Hok' Hr].
  apply (inv_subs e _ (release (packet_ids (outbound e)) mid) HI); try done; simpl.
  - by apply NoDup_ddel, Ha.
  - intros x [_ Hx]%dkeys_ddel; [by apply Ha | apply Ha].
  - intros x. rewrite Hr, dkeys_ddel by apply Ha. rewrite (a_ids _ _ _ _ _ _ _ _ Ha x). split; [tauto |].
    intros [Hx | [Hx | [Hne Hx]]]; (split; [tauto | congruence]).
Qed.
Hint Resolve keeps_complete_request : frames.

Lemma keeps_suback raw : keeps (_on_suback config raw).
Proof. unfold _on_suback. stays. Qed.
Lemma keeps_unsuback raw : keeps (_on_unsuback config raw).
Proof. unfold _on_unsuback. stays. Qed.
Lemma keeps_subscribe items qos ps : keeps (queue_subscribe config pop items qos ps).
Proof using Hpop L. unfold queue_subscribe, queue_subscription_request. stays. Qed.
Lemma keeps_unsubscribe topics : keeps (queue_unsubscribe config pop topics).
Proof using Hpop L. unfold queue_unsubscribe, queue_subscription_request. stays. Qed.
Hint Resolve keeps_suback keeps_unsuback keeps_subscribe keeps_unsubscribe : frames.

(** *** The connection *)

Lemma keeps_ping : keeps (queue_ping config).
Proof. unfold queue_ping. stays. Qed.
Lemma keeps_pingresp raw : keeps (_on_pingresp raw).
Proof. unfold _on_pingresp. stays. Qed.
Lemma keeps_begin_disconnect rc ps : keeps (begin_disconnect config rc ps).
Proof. unfold begin_disconnect. stays. Qed.
Lemma keeps_on_disconnect raw : keeps (_on_disconnect config raw).
Proof. unfold _on_disconnect. stays. Qed.
Lemma keeps_take : keeps take_effects.
Proof. unfold take_effects. stays. Qed.
Lemma keeps_queue_auth rc ps : keeps (queue_auth config rc ps).
Proof. unfold queue_auth. stays. Qed.
Hint Resolve keeps_queue_auth : frames.
Lemma keeps_respond c rc ps : keeps (respond_auth config c rc ps).
Proof. unfold respond_auth. stays. Qed.
Lemma keeps_on_auth raw : keeps (_on_auth config raw).
Proof. unfold _on_auth. stays. Qed.
Lemma keeps_engine_ack mid message : keeps (Engine.ack config mid message).
Proof. unfold Engine.ack. stays. Qed.

Lemma keeps_closed : keeps notify_transport_closed.
Proof.
  unfold notify_transport_closed. stays.
  - apply keeps_modify. done.
  - apply keeps_in; [intros e; by apply transport_closed_inv | apply if_transport_closed, _].
Qed.

Lemma keeps_begin_connect : keeps (begin_connect config).
Proof using Hconfig L.
  apply keeps_of_wp. intros e HI. unfold begin_connect. apply wp_bind, wp_gets.
  apply wp_lift_bind; [| done]. intros [[[id clean] ps] wire] Hp. apply wp_lift_bind; [| done].
  intros [[rm am] n] Hl.
  assert (0 ≤ rm) as Hrm.
  { assert (connect_properties_sent config = ps) as Ep.
    { unfold prepare_connect in Hp. cbv zeta in Hp. by res_inv. }
    rewrite (sent_receive_maximum _ _ _ _ _ Ep Hl). pose proof (checked_window _ Hconfig). lia. }
  apply wp_of_keeps; [| done]. stays.
  - apply keeps_modify. done.
  - apply keeps_in; [intros e' HIe; by apply start_connection_inv | apply if_start_connection, _].
Qed.

(** *** CONNACK *)

Lemma wp_keeps_bind {A B} (m : M S A) (k : A → M S B) Q (R : exn → Engine S → Prop) e :
  keeps m → EInv e → (∀ a e', EInv e' → wp (k a) Q R e') → (∀ x e', EInv e' → R x e') → wp (m ≫= k) Q R e.
Proof. intros Hm HI Hk HR. apply wp_bind. eapply wp_mono; [by apply wp_of_keeps | exact Hk | exact HR]. Qed.

(** A fragment of the outbound session, with what it establishes. *)
Lemma wp_outbound {A} (m : M S A) (Q : A → Engine S → Prop) (R : exn → Engine S → Prop) e :
  wp m Q R e → stays in_same m → IInv config e →
  wp m (λ a e', Q a e' ∧ IInv config e') (λ x e', R x e' ∧ IInv config e') e.
Proof.
  intros Hm Hs HI. apply wp_and; [done |].
  eapply wp_mono; [by apply (stays_wp in_same) | ..]; intros a e' He; eapply in_same_inv; [exact He | done | exact He | done].
Qed.

Lemma purged_same e e' : purged e → out_same e e' → purged e'.
Proof.
  intros [Hok Ho Ha Hc Hf Hp] (Eo & Es & Hr). destruct (Hr Hok) as (Hok' & Ht & Hh).
  destruct (q_row_quiet _ _ _ Hh Ho) as [Hq Ho'].
  assert (qrows e' = qrows e) as Eq by (unfold qrows; by rewrite Eo).
  constructor; rewrite ?Eq, ?Ht, ?Eo, ?Es; done.
Qed.

(** The settlement of the session of an accepted CONNACK. *)
Lemma settle_spec present e : EInv e → (present = false → reliable) →
  wp (settle_session config present) (λ _, EInv) (λ _ _, True) e.
Proof.
  intros [HI HII] Hrel. unfold settle_session. destruct present.
  - eapply wp_mono; [apply wp_outbound; [by apply replay_session_spec | apply of_out_replay, _ | done] | | done].
    intros [] e' [[HI' _] HII']. done.
  - assert (dkeys (_pending_sub_requests e) = [] ↔ _pending_sub_requests e = []) as Es.
    { unfold dkeys. split; [apply fmap_nil_inv | by intros ->]. }
    apply wp_bind, wp_gets. rewrite (bool_decide_ext _ _ Es).
    eapply wp_then; [apply wp_outbound; [by apply (purge_spec (_pending_sub_requests e) e HI); [apply HI; auto |] | apply of_purge, _ | done] | | done].
    intros [] e1 [Hpg1 HI1].
    eapply wp_then; [apply wp_and; [by apply (discard_session_inv config) | apply (stays_wp out_same), if_discard_session; apply _] | | done].
    intros [] e2 [HI2 Hs2]. pose proof (purged_same _ _ Hpg1 Hs2) as Hpg. destruct Hpg as [Hok Ho Ha Hc Hf Hp].
    apply wp_bind, wp_bind, wp_gets, wp_out. set (e3 := set_outbound _ e2).
    assert (Inv e3) as HI3.
    { constructor; simpl; try done; [by rewrite Hp | apply window_reset]. }
    assert (IInv config e3) as HII3 by (by eapply in_same_inv; [apply in_same_conn | exact HI2]).
    eapply wp_mono; [apply wp_outbound; [by apply fail_queued_spec | apply of_fail_violating, _ | done] | | done].
    by intros [] e4 [? ?].
Qed.

Lemma link_settle present : stays same_link (settle_session config present).
Proof.
  unfold settle_session. stays; first [apply of_out_replay; apply _ | apply of_purge; apply _ | apply if_discard_session; apply _
    | apply of_reset_flow; apply _ | apply of_fail_violating; apply _].
Qed.

Lemma link_tail present connack :
  stays same_link (settle_session config present;; _emit (Effect.CONNACK connack);;
    only_if present (Inbound.replay_session config);; drain config).
Proof.
  stays; first [apply link_settle | apply of_effect; apply _ | apply if_replay_session; apply _ | apply of_drain; apply _].
Qed.

(** Once CONNECTED, the engine stays so whatever is raised, and a settlement
    that completes keeps the books. *)
Lemma tail_spec present connack e :
  EInv e → state e = CONNECTED → session_present (conn e) = present →
  wp (settle_session config present;; _emit (Effect.CONNACK connack);; only_if present (Inbound.replay_session config);;
      drain config)
    (λ _ e', state e' = CONNECTED ∧ ((session_present (conn e') = false → reliable) → EInv e'))
    (λ _ e', state e' = CONNECTED) e.
Proof.
  intros HI Hst Hp.
  assert (wp (settle_session config present;; _emit (Effect.CONNACK connack);; only_if present (Inbound.replay_session config);;
      drain config) (λ _ e', (present = false → reliable) → EInv e') (λ _ _, True) e) as Hw.
  { apply (wp_impl (present = false → reliable)). intros Hr. eapply wp_then; [by apply settle_spec | | done].
    intros [] e1 HI1. apply (wp_mono _ (λ _, EInv) _ (λ _, EInv)); [| done | done]. apply wp_of_keeps; [stays | done]. }
  eapply wp_mono; [apply wp_and; [exact Hw | apply (stays_wp same_link), link_tail] | |]; simpl.
  - intros [] e' [He' [= Hs Hc _]]. split; [congruence |]. intros Hr. apply He'. intros Ep. apply Hr. congruence.
  - intros x e' [_ [= Hs _ _]]. congruence.
Qed.

(** A CONNACK, valid or not: its failures before the settlement keep the books. *)
Lemma on_connack_spec raw e : EInv e →
  wp (_on_connack config raw)
    (λ _ e', (state e' = CONNECTED → session_present (conn e') = false → reliable) → EInv e')
    (λ _ e', state e' ≠ CONNECTED → EInv e') e.
Proof.
  intros HI. unfold _on_connack. apply wp_bind, wp_gets. apply wp_if; intros _; [by apply wp_raise |].
  apply wp_lift_bind; [| done]. intros [[present rc] ps] _. cbv zeta.
  assert (∀ c, keeps (_validate_connack_v5 config c)) as Hv5 by (intros; unfold _validate_connack_v5; stays).
  assert (∀ c, keeps (_validate_accepted_connack config c)) as Hacc by (intros; unfold _validate_accepted_connack; stays).
  apply wp_keeps_bind; [apply stays_only_if; [apply _ | apply Hv5] | done | | by intros]. intros [] e1 HI1.
  apply wp_if; intros _.
  { apply (wp_mono _ (λ _, EInv) _ (λ _, EInv)); [| done | by intros]. apply wp_of_keeps; [stays | done]. }
  apply wp_keeps_bind; [apply Hacc | done | | by intros]. intros [] e2 HI2. apply wp_bind, wp_gets.
  apply wp_lift_bind; [| done]. intros n _. apply wp_keeps_bind; [stays | done | | by intros]. intros [] e3 HI3.
  apply wp_keeps_bind; [stays | done | | by intros]. intros [] e4 HI4. apply wp_if; intros _.
  { apply wp_keeps_bind; [stays | done | | by intros]. intros [] e5 HI5. by apply wp_raise. }
  apply wp_keeps_bind; [stays | done | | by intros]. intros [] e5 HI5.
  apply wp_keeps_bind; [stays | done | | by intros]. intros [] e6 HI6.
  apply wp_bind, wp_modify. set (e7 := set_state CONNECTED e6). assert (EInv e7) as HI7 by (by apply keeps_state).
  apply wp_bind, wp_modify. set (e8 := set_conn _ e7).
  assert (EInv e8) as HI8 by (by apply (keeps_conn (set_session_present present) e7)).
  apply wp_bind, wp_modify. set (e9 := set_conn _ e8). assert (EInv e9) as HI9 by (by apply (keeps_resume_preference e8)).
  eapply wp_mono; [by apply (tail_spec present) | |]; simpl.
  - intros [] e' [Hst He'] Hr. apply He', Hr, Hst.
  - by intros x e' Hst Hn.
Qed.

(** *** Dispatch *)

(** Every handler but that of CONNACK keeps the books unconditionally. *)
Lemma handler_keeps st ty raw handler :
  bytes_ok (remaining raw) → handler_of config st ty = Some handler → (st = CONNECTING → ty ≠ CONNACK) → keeps (handler raw).
Proof.
  intros Hb Hh Hn. destruct st, ty; simpl in Hh; try done; injection Hh as <-; try (by destruct Hn);
    first [by apply keeps_received | apply keeps_puback | apply keeps_pubrec | apply keeps_pubrel | apply keeps_pubcomp
      | apply keeps_suback | apply keeps_unsuback | apply keeps_pingresp | apply keeps_on_disconnect | apply keeps_on_auth].
Qed.

(** A CONNACK whose settlement did not complete over a reliable store. *)
Definition settled (raw : RawPacket) e (r : res (option exn)) e' : Prop :=
  packet_type raw = CONNACK → state e = CONNECTING → state e' = CONNECTED →
  r = Ok None ∧ (session_present (conn e') = false → reliable).

Lemma handle_raw_spec raw e : EInv e → bytes_ok (remaining raw) →
  wp (handle_raw config raw) (λ o e', settled raw e (Ok o) e' → EInv e') (λ x e', settled raw e (Raise x) e' → EInv e') e.
Proof.
  intros HI Hb. unfold handle_raw. apply wp_bind, wp_gets. apply wp_if; intros _; [by apply wp_ret; intros |]. apply wp_try.
  apply (wp_mono _ (λ o e', settled raw e (Ok o) e' → EInv e') _
    (λ x e', (packet_type raw = CONNACK → state e = CONNECTING → state e' ≠ CONNECTED) → EInv e')); [| done |].
  - apply wp_lift_bind; [intros u _ | by intros].
    destruct (handler_of config (state e) (packet_type raw)) as [handler |] eqn:Eh; [| by apply wp_bind, wp_raise; intros].
    destruct (decide (state e = CONNECTING ∧ packet_type raw = CONNACK)) as [[Es Et] | Hn].
    + rewrite Es, Et in Eh. simpl in Eh. injection Eh as <-. eapply wp_then; [by apply on_connack_spec | |].
      * intros [] e1 Hq. apply wp_ret. intros Hs. apply Hq. intros Hst. by apply Hs.
      * intros x e1 Hq Hs. apply Hq. by apply Hs.
    + apply wp_keeps_bind; [eapply handler_keeps; [done | exact Eh | tauto] | done | intros [] e1 HI1; apply wp_ret; by intros | by intros].
  - intros x e1 Hq. assert (settled raw e (Raise x) e1 → EInv e1) as Hraise.
    { intros Hs. apply Hq. intros Ht Es Hst. by destruct (Hs Ht Es Hst). }
    apply wp_if; intros _; [| done]. apply wp_bind, wp_modify, wp_ret. intros Hs. apply (keeps_emit (Effect.PROTOCOL_ERROR x) e1).
    apply Hq. intros Ht Es Hst. by destruct (Hs Ht Es Hst).
Qed.

(** *** The engine as a step relation *)

(** What happens to an engine: requests of the application, packets of the
    broker, and transports coming and going. *)
Inductive engine_op :=
  | EConnect
  | EPacket (raw : RawPacket)
  | EPublish (topic : pystr) (payload : bytes) (qos : qos_arg) (retain : bool) (properties : option propmap)
  | ESubscribe (items : list sub_item) (qos : qos_arg) (properties : option propmap)
  | EUnsubscribe (topics : list pystr)
  | EPing
  | EAck (mid : Z) (message : option Message)
  | EDelivered (mid : Z) (token : option Z)
  | ESeal (mids : list Z)
  | EReplay
  | EAuth (reason_code : Z) (properties : option propmap)
  | ERespond (challenge : option Z) (reason_code : Z) (properties : option propmap)
  | EDisconnect (reason_code : Z) (properties : option propmap)
  | EClosed
  | ETake.

(** The result is the protocol error reported for a packet, if any. *)
Definition run_engine (op : engine_op) : M S (option exn) :=
  match op with
  | EConnect => begin_connect config;; mret None
  | EPacket raw => handle_raw config raw
  | EPublish topic payload qos retain properties =>
      queue_publish config pop topic payload qos retain properties None;; mret None
  | ESubscribe items qos properties => queue_subscribe config pop items qos properties;; mret None
  | EUnsubscribe topics => queue_unsubscribe config pop topics;; mret None
  | EPing => queue_ping config;; mret None
  | EAck mid message => Engine.ack config mid message;; mret None
  | EDelivered mid token => mark_inbound_delivered mid token;; mret None
  | ESeal mids => seal_publications mids;; mret None
  | EReplay => continue_inbound_replay config;; mret None
  | EAuth reason_code properties => queue_auth config reason_code properties;; mret None
  | ERespond challenge reason_code properties => respond_auth config challenge reason_code properties;; mret None
  | EDisconnect reason_code properties => begin_disconnect config reason_code properties;; mret None
  | EClosed => notify_transport_closed;; mret None
  | ETake => take_effects;; mret None
  end.

(** Received bytes are bytes; dictionaries have one entry per key. *)
Definition engine_op_ok (op : engine_op) : Prop :=
  match op with
  | EPacket raw => bytes_ok (remaining raw)
  | EPublish _ _ _ _ (Some ps) => NoDup (dkeys ps)
  | _ => True
  end.

(** With a store that fails, an interrupted seal and an interrupted or lost
    session leave work half done: those runs are set aside. *)
Definition completes (op : engine_op) e (r : res (option exn)) e' : Prop :=
  match op with
  | ESeal _ => is_ok r = true ∨ reliable
  | EPacket raw => settled raw e r e'
  | _ => True
  end.

Inductive engine_reachable : Engine S → Prop :=
  | eng_start h s e : store_ok h s → in_ok h s →
      (∀ mid, mid ∈ dkeys (rows h s) → 1 ≤ mid ≤ 65535) → (∀ mid, mid ∈ dkeys (irows h s) → 1 ≤ mid ≤ 65535) →
      ProtocolEngine_init config h s = (Ok tt, e) → engine_reachable e
  | eng_step e op r e' : engine_reachable e → engine_op_ok op → run_engine op e = (r, e') → completes op e r e' →
      engine_reachable e'.

Lemma run_engine_inv op e : EInv e → engine_op_ok op →
  let '(r, e') := run_engine op e in completes op e r e' → EInv e'.
Proof using Hpop Hconfig L.
  intros HI Hop. 
  assert (∀ A (m : M S A), keeps m → EInv ((m;; mret (@None exn)) e).2) as Hk.
  { intros A m Hm. apply (stays_bind eng_inv m (λ _, mret None)); [done | intros _; apply stays_ret, _ | done]. }
  destruct op; cbn [run_engine completes engine_op_ok] in *.
  2: { pose proof (handle_raw_spec raw e HI Hop) as Hw. unfold wp in Hw. by destruct (handle_raw config raw e) as [[o | x] e']. }
  8: { assert (wp (seal_publications mids;; mret (@None exn)) (λ _, EInv) (λ _ _, ¬ reliable) e) as Hw.
       { eapply wp_then; [apply wp_outbound; [by apply seal_spec, HI | apply of_seal, _ | apply HI] | |].
         - intros [] e' [? ?]. done.
         - by intros x e' [? _]. }
       unfold wp in Hw. destruct ((seal_publications mids;; mret None) e) as [[o | x] e']; [done |].
       by intros [? | ?]. }
  all: match goal with |- context [(?m;; mret None) ?e0] => assert (keeps m) as Hm end.
  all: try (match goal with |- let '(_, _) := ?x in _ => pose proof (Hk _ _ Hm); by destruct x end).
  - by apply keeps_begin_connect.
  - apply keeps_publish; [| by intros [??]]. intros ps ->. exact Hop.
  - apply keeps_subscribe.
  - apply keeps_unsubscribe.
  - apply keeps_ping.
  - apply keeps_engine_ack.
  - apply keeps_mark.
  - apply keeps_replay.
  - apply keeps_queue_auth.
  - apply keeps_respond.
  - apply keeps_begin_disconnect.
  - apply keeps_closed.
  - apply keeps_take.
Qed.
End engine_inv.
