(* ===== verification/EngineTheorems.v ===== *)
(** * What the engine promises

    Both sessions' books in every reachable state, what a restart rebuilds, and
    the life of a subscription request. *)

From S2P Require Import Prelude Vbi PyStr Primitives Enums Properties Topics Frame Ack Publish Handshake.
From S2P Require Import Subscription Types Buffer PacketIds Settings Store StoreIn EngineState Outbound Inbound Engine Wp.
From S2P Require Import Accounting InboundBooks OutboundInv OutboundAcks OutboundReplay InboundInv InboundLife Frames EngineInv OutboundTheorems.

Section theorems.
Context {S : Type} `{L : InStoreLaws S} (config : EngineConfig) (pop : gset Z → Z).
Implicit Types (e : Engine S).

Abbreviation engine_reachable := (engine_reachable config pop).

Lemma engine_start_spec h s :
  EngineConfig_check config = Ok tt → store_ok h s → in_ok h s →
  (∀ mid, mid ∈ dkeys (rows h s) → 1 ≤ mid ≤ 65535) → (∀ mid, mid ∈ dkeys (irows h s) → 1 ≤ mid ≤ 65535) →
  wp (InboundSession_init config;; hydrate) (λ _ e, EInv config e ∧ table e = rows h s ∧ itable e = irows h s ∧ state e = NEW)
    (λ _ _, ¬ reliable) (engine_new config h s).
Proof.
  intros Hc Hok Hiok Hr Hir. pose proof (checked_window _ Hc) as Hw. set (e0 := engine_new config h s).
  eapply wp_then; [apply wp_and; [apply (init_spec config e0); [exact Hiok | exact Hir | lia] |
    apply wp_and; [apply (stays_wp out_same), if_init; apply _ | apply (stays_wp same_link), if_init; apply _]] | |].
  - intros [] e1 [[HI1 Hi1] [(Eo & Es & Hx) Hl1]]. destruct (Hx Hok) as (Hok1 & Ht1 & _).
    assert (restarted config e1) as Hre.
    { split_and!; [exact Hok1 | | by rewrite Eo | by rewrite Es]. intros mid. rewrite Ht1. apply Hr. }
    eapply wp_mono; [apply wp_and; [apply wp_outbound; [apply (hydrate_spec config e1 Hre) | apply of_hydrate, _ | exact HI1] |
      apply wp_and; [apply (stays_wp in_same), of_hydrate; apply _ | apply (stays_wp same_link), of_hydrate; apply _]] | |].
    + intros [] e2 [[(HI2 & _ & _ & Ht2) HII2] [[_ Hin] Hl2]]. destruct (Hin (iv_ok _ _ HI1)) as (_ & Hi2 & _).
      split_and!; [done | by rewrite Ht2, Ht1 | by rewrite Hi2, Hi1 |]. injection Hl1 as Hs1 _ _. injection Hl2 as Hs2 _ _.
      by rewrite Hs2, Hs1.
    + by intros x e2 [[? _] _].
  - by intros x e1 [? _].
Qed.

Lemma engine_inv e :
  (∀ s, s ≠ ∅ → pop s ∈ s) → EngineConfig_check config = Ok tt → engine_reachable e → EInv config e.
Proof.
  intros Hpop Hc. induction 1 as [h s e Hok Hiok Hr Hir He | e op r e' _ HI Hop He Hs].
  - pose proof (engine_start_spec h s Hc Hok Hiok Hr Hir) as Hw. unfold wp in Hw. unfold ProtocolEngine_init in He.
    rewrite He in Hw. apply Hw.
  - pose proof (run_engine_inv config pop Hpop Hc op e HI Hop) as Hw. rewrite He in Hw. by apply Hw.
Qed.

(** ** Requests for subscriptions *)

(** Nothing moved but the order in which free identifiers are handed out. *)
Definition unrequested e e' : Prop :=
  _pending_sub_requests e' = _pending_sub_requests e ∧ _effects e' = _effects e ∧ table e' = table e ∧
  itable e' = itable e ∧ link e' = link e ∧ inbound e' = inbound e ∧
  ∀ mid, mid ∈ used (packet_ids (outbound e')) ↔ mid ∈ used (packet_ids (outbound e)).

Lemma send_request_spec encode ack count e :
  (∀ s, s ≠ ∅ → pop s ∈ s) → Inv e →
  wp (_send_subscription_request pop (encode, ack, count))
    (λ mid e', 1 ≤ mid ≤ 65535 ∧ mid ∉ used (packet_ids (outbound e)) ∧
       (∀ k, k ∈ used (packet_ids (outbound e')) ↔ k ∈ used (packet_ids (outbound e)) ∨ k = mid) ∧
       _pending_sub_requests e' = _pending_sub_requests e ++ [(mid, (ack, count))] ∧
       ∃ wire, encode mid = Ok wire ∧ _effects e' = _effects e ++ [Effect.SEND (Contiguous wire)] ∧
         (∀ limit, n_maximum_packet_size (negotiated e) = Some limit → len wire ≤ limit))
    (λ x e', unrequested e e' ∧
       (x = FlowControlError ∨ x = PacketTooLargeError ∨ ∃ mid, encode mid = Raise x)) e.
Proof.
  intros Hpop HI. pose proof (i_acct _ HI) as Ha. unfold _send_subscription_request. apply wp_bind. unfold wp at 1, ids_allocate.
  destruct (allocate_spec pop Hpop (packet_ids (outbound e)) (a_pool _ _ _ _ _ _ _ _ Ha))
    as [(mid & p' & -> & Hok & Hr & Hfresh & Hu) | (p' & -> & Hok & Hu & _)]; [| split; [done | by left]].
  set (e1 := set_outbound _ e).
  assert (unrequested e (set_outbound (set_packet_ids (release p' mid) (outbound e1)) e1)) as Hundo.
  { split_and!; try done. simpl. intros k. destruct (release_spec p' mid Hok) as [_ Hk]. rewrite Hk, Hu. split; [tauto |].
    intros Hin. split; [tauto | by intros ->]. }
  apply (wp_then _ _ (λ w e', e' = e1 ∧ encode mid = Ok w ∧
      ∀ limit, n_maximum_packet_size (negotiated e) = Some limit → len w ≤ limit)
    (λ x e', unrequested e e' ∧ (x = FlowControlError ∨ x = PacketTooLargeError ∨ ∃ mid, encode mid = Raise x)));
    [| | done].
  - apply wp_try, wp_bind, wp_lift.
    + intros w Hw. apply wp_bind. unfold _check_outbound_size. apply wp_bind, wp_gets. simpl.
      destruct (n_maximum_packet_size (negotiated e)) as [limit |] eqn:El; [| by apply wp_ret].
      apply wp_if; intros Hc; rewrite Z.gtb_ltb in Hc; bools; [apply wp_raise; split; [exact Hundo | tauto] |].
      apply wp_ret. split_and!; [done.. |]. intros ? [= <-]. done.
    + intros x Hx. split; [exact Hundo | eauto].
  - intros w ? (-> & Hw & Hlim). apply wp_bind, wp_modify, wp_bind, wp_modify, wp_ret.
    split_and!; [lia | lia | done | exact Hu | | by exists w]. simpl. apply dset_new.
    intros Hin. apply Hfresh, Ha. tauto.
Qed.


(** A restart over stored rows rebuilds both sessions from the store alone,
    without changing it, and fails only when the store does. *)
Theorem engine_restart h s :
  EngineConfig_check config = Ok tt → store_ok h s → in_ok h s →
  (∀ mid, mid ∈ dkeys (rows h s) → 1 ≤ mid ≤ 65535) → (∀ mid, mid ∈ dkeys (irows h s) → 1 ≤ mid ≤ 65535) →
  match ProtocolEngine_init config h s with
  | (Ok _, e) => session_books e ∧ InBooks (manual_ack config) reliable (itable e) (inbound e) ∧
      table e = rows h s ∧ itable e = irows h s ∧ state e = NEW
  | (Raise _, _) => ¬ reliable
  end.
Proof.
  intros Hc Hok Hiok Hr Hir. pose proof (engine_start_spec h s Hc Hok Hiok Hr Hir) as Hw. unfold wp in Hw.
  unfold ProtocolEngine_init. destruct ((InboundSession_init config;; hydrate) _) as [[[] | x] e]; [| done].
  destruct Hw as ([HI HII] & ? & ? & ?). split_and!; try done; [by apply inv_session | apply HII].
Qed.

(** A SUBSCRIBE or UNSUBSCRIBE is requested completely or not at all.  Sent,
    it is one more pending request under an identifier nothing else used, with
    one frame within the broker's limit; refused by its encoder, by the limit
    or for want of an identifier, it leaves requests, effects, sessions, rows
    and the identifiers in use as they were. *)
Theorem subscription_all_or_nothing encode ack count e :
  (∀ s, s ≠ ∅ → pop s ∈ s) → EngineConfig_check config = Ok tt → engine_reachable e →
  match queue_subscription_request pop (encode, ack, count) e with
  | (Ok mid, e') => 1 ≤ mid ≤ 65535 ∧ mid ∉ used (packet_ids (outbound e)) ∧
      (∀ k, k ∈ used (packet_ids (outbound e')) ↔ k ∈ used (packet_ids (outbound e)) ∨ k = mid) ∧
      _pending_sub_requests e' = _pending_sub_requests e ++ [(mid, (ack, count))] ∧
      ∃ wire, encode mid = Ok wire ∧ _effects e' = _effects e ++ [Effect.SEND (Contiguous wire)] ∧
        (∀ limit, n_maximum_packet_size (negotiated e) = Some limit → len wire ≤ limit)
  | (Raise x, e') => unrequested e e' ∧
      (x = FlowControlError ∨ x = PacketTooLargeError ∨ ∃ mid, encode mid = Raise x)
  end.
Proof.
  intros Hpop Hc Hr. destruct (engine_inv e Hpop Hc Hr) as [HI _].
  pose proof (send_request_spec encode ack count e Hpop HI) as Hw. unfold wp in Hw. unfold queue_subscription_request.
  by destruct (_send_subscription_request pop (encode, ack, count) e) as [[mid | x] e'].
Qed.


(** Sequences of operations that report nothing. *)
Fixpoint run_all (ops : list engine_op) e : Engine S :=
  match ops with [] => e | op :: ops => run_all ops (run_engine config pop op e).2 end.
Fixpoint all_quiet (ops : list engine_op) e : bool :=
  match ops with
  | [] => true
  | op :: ops =>
      match (run_engine config pop op e).1 with Ok None => true | _ => false end && all_quiet ops (run_engine config pop op e).2
  end.

Lemma reachable_all ops : ∀ e, reliable → Forall engine_op_ok ops → all_quiet ops e = true → engine_reachable e →
  engine_reachable (run_all ops e).
Proof.
  induction ops as [| op ops IH]; intros e Hrel Hok Hall Hr; [done |]. apply Forall_cons in Hok as [Hop Hok].
  cbn [all_quiet run_all] in *. apply andb_true_iff in Hall as [Hq Hall]. apply IH; try done.
  destruct (run_engine config pop op e) as [[[x |] | x] e'] eqn:E; try done. eapply eng_step; [done | done | done |].
  destruct op; simpl; auto. by intros _ _ _.
Qed.
End theorems.

(** ** Concrete engines *)

(** The engine started over a store that holds two publications. *)
Definition engine_started : Engine Memory.MemoryInflightStore :=
  (ProtocolEngine_init sample_config sample_heap sample_store).2.

Lemma sample_checked : EngineConfig_check sample_config = Ok tt.
Proof. by vm_compute. Qed.

Lemma sample_in_ok : in_ok sample_heap sample_store.
Proof. constructor; [apply NoDup_nil_2 |]. by intros ? ? ?%not_elem_of_nil. Qed.

Lemma sample_mids mid : mid ∈ dkeys (rows sample_heap sample_store) → 1 ≤ mid ≤ 65535.
Proof. intros Hin. assert (mid ∈ [5; 3]) as Hm by exact Hin. set_solver by lia. Qed.

Lemma engine_started_reachable : engine_reachable sample_config pop_first engine_started.
Proof.
  eapply (eng_start _ _ sample_heap sample_store); [exact sample_ok | exact sample_in_ok | exact sample_mids | | by vm_compute].
  by intros mid ?%not_elem_of_nil.
Qed.

Definition connack_new : RawPacket := Build_RawPacket CONNACK 0 [0; 0; 0].
Definition engine_connected : Engine Memory.MemoryInflightStore :=
  run_all sample_config pop_first [EConnect; EPacket connack_new; ETake] engine_started.

Lemma engine_connected_reachable : engine_reachable sample_config pop_first engine_connected.
Proof.
  apply reachable_all; [exact I | | by vm_compute | exact engine_started_reachable].
  repeat (apply Forall_cons; split; [try exact I; by repeat constructor |]). by apply Forall_nil.
Qed.

(** A session: a request, a publication each way, and the connection lost. *)
Definition qos2_publish : RawPacket := Build_RawPacket PUBLISH 4 [0; 1; 116; 0; 9; 0; 1; 2].
Definition engine_session : list engine_op :=
  [ESubscribe [Named (lit "a/+")] (QInt 1) None; EPublish (lit "b") [1] (QInt 1) false None; EPacket qos2_publish;
   EPacket (Build_RawPacket PUBREL 2 [0; 9]); EDelivered 9 None; ETake; EClosed; EConnect].


Lemma engine_restart_witness :
  match ProtocolEngine_init sample_config sample_heap sample_store with
  | (Ok _, e) => session_books e ∧ InBooks (manual_ack sample_config) reliable (itable e) (inbound e) ∧
      table e = rows sample_heap sample_store ∧ itable e = irows sample_heap sample_store ∧ state e = NEW
  | (Raise _, _) => ¬ reliable
  end.
Proof.
  apply (engine_restart sample_config sample_heap sample_store); [exact sample_checked | exact sample_ok | exact sample_in_ok | exact sample_mids |].
  by intros mid ?%not_elem_of_nil.
Defined.

Definition sample_request (mid : Z) : res bytes :=
  b_encode_unsubscribe (codec sample_config) mid [lit "a"] None.

Lemma subscription_all_or_nothing_witness :
  (queue_subscription_request pop_first (sample_request, UNSUBACK, 1) engine_connected).1 = Ok 1 ∧
  match queue_subscription_request pop_first (sample_request, UNSUBACK, 1) engine_connected with
  | (Ok mid, e') => 1 ≤ mid ≤ 65535 ∧ mid ∉ used (packet_ids (outbound engine_connected)) ∧
      (∀ k, k ∈ used (packet_ids (outbound e')) ↔ k ∈ used (packet_ids (outbound engine_connected)) ∨ k = mid) ∧
      _pending_sub_requests e' = _pending_sub_requests engine_connected ++ [(mid, (UNSUBACK, 1))] ∧
      ∃ wire, sample_request mid = Ok wire ∧ _effects e' = _effects engine_connected ++ [Effect.SEND (Contiguous wire)] ∧
        (∀ limit, n_maximum_packet_size (negotiated engine_connected) = Some limit → len wire ≤ limit)
  | (Raise x, e') => unrequested engine_connected e' ∧
      (x = FlowControlError ∨ x = PacketTooLargeError ∨ ∃ mid, sample_request mid = Raise x)
  end.
Proof.
  split; [by vm_compute |].
  exact (subscription_all_or_nothing sample_config pop_first sample_request UNSUBACK 1 engine_connected pop_first_in sample_checked
    engine_connected_reachable).
Defined.

Definition engine_requested : Engine Memory.MemoryInflightStore :=
  run_all sample_config pop_first [EUnsubscribe [lit "a"]] engine_connected.

Lemma engine_requested_reachable : engine_reachable sample_config pop_first engine_requested.
Proof.
  apply reachable_all; [exact I | | by vm_compute | exact engine_connected_reachable].
  repeat (apply Forall_cons; split; [exact I |]). by apply Forall_nil.
Qed.

