(* ===== verification/EngineRules.v ===== *)
(** * The rules of the connection

    The connection states an operation may move between, what handling a packet
    reports, refused CONNECTs and the answers to authentication challenges:
    properties of every state, reachable or not, over any store. *)

From S2P Require Import Prelude Vbi PyStr Primitives Enums Properties Topics Frame Ack Publish Handshake.
From S2P Require Import Subscription Types Buffer PacketIds Settings Store StoreIn EngineState Outbound Inbound Engine Wp.
From S2P Require Import OutboundTheorems Frames EngineInv.

Section rules.
Context {S : Type} `{O : OutStore S, I : InStore S} (config : EngineConfig) (pop : gset Z → Z).
#[local] Set Default Proof Using "Type O I".
Implicit Types (e : Engine S).

(** ** Connection states *)

(** The states an operation may lead to. *)
Definition may_move (st : ConnectionState) (op : engine_op) (st' : ConnectionState) : bool :=
  bool_decide (st' = st) ||
  match op, st, st' with
  | EConnect, (NEW | DISCONNECTED | RECONNECTING), CONNECTING => true
  | EPacket raw, CONNECTING, CONNECTED => bool_decide (packet_type raw = CONNACK)
  | EPacket _, (CONNECTING | CONNECTED), DISCONNECTED => true
  | EDisconnect _ _, (CONNECTING | CONNECTED), DISCONNECTING => true
  | EClosed, _, DISCONNECTED => true
  | _, _, _ => false
  end.

Definition state_kept e e' : Prop := state e' = state e.
Definition state_down e e' : Prop := state e' = state e ∨ state e' = DISCONNECTED.

#[export] Instance state_kept_preorder : PreOrder state_kept.
Proof. split; [done | intros e1 e2 e3; unfold state_kept; congruence]. Qed.
#[export] Instance state_kept_out : OutFrame state_kept.
Proof. constructor; [apply _ | done..]. Qed.
#[export] Instance state_kept_in : InFrame state_kept.
Proof. constructor; [apply _ | done..]. Qed.

#[export] Instance state_down_preorder : PreOrder state_down.
Proof.
  split; [by left |]. intros e1 e2 e3 [E1 | E1] [E2 | E2]; unfold state_down; rewrite ?E2, ?E1; auto.
Qed.
#[export] Instance state_down_out : DownFrame state_down.
Proof. constructor; [constructor; [apply _ | by left..] | by left | by right | by left]. Qed.
#[export] Instance state_down_in : InFrame state_down.
Proof. constructor; [apply _ | by left..]. Qed.
#[export] Instance state_down_disconnect : InDownFrame config state_down.
Proof. constructor; [apply _ |]. intros rc. apply df_disconnect, _. Qed.

(** Effects are appended. *)
Lemma kept_modify f : (∀ e, state (f e) = state e) → stays state_kept (modify f).
Proof. intros Hf e. apply Hf. Qed.
Lemma down_modify f : (∀ e, state (f e) = state e ∨ state (f e) = DISCONNECTED) → stays state_down (modify f).
Proof. intros Hf e. apply Hf. Qed.

Hint Extern 1 (stays state_kept (modify _)) => (apply kept_modify; done) : frames.
Hint Extern 1 (stays state_kept (conn_modify _)) => (apply kept_modify; done) : frames.
Hint Extern 2 (stays state_kept _) => (apply of_allocate || apply of_ids_release || apply of_size || apply of_send ||
  apply of_effect || apply of_queue_publish || apply of_seal || apply if_in || apply if_ack || apply if_mark_delivered ||
  apply if_drain_replay); apply _ : frames.

Lemma kept_publish topic payload qos retain ps pr : stays state_kept (queue_publish config pop topic payload qos retain ps pr).
Proof. apply of_queue_publish, _. Qed.
Lemma kept_request request : stays state_kept (_send_subscription_request pop request).
Proof. destruct request as [[encode ack] count]. unfold _send_subscription_request. stays. Qed.
Hint Resolve kept_publish kept_request : frames.
Lemma kept_auth rc ps : stays state_kept (queue_auth config rc ps).
Proof. unfold queue_auth. stays. Qed.
Hint Resolve kept_auth : frames.

(** The operations that never move the connection. *)
Lemma kept_op op : match op with EConnect | EPacket _ | EDisconnect _ _ | EClosed => True | _ => stays state_kept (run_engine config pop op) end.
Proof.
  destruct op; cbn [run_engine]; try exact Logic.I;
    unfold queue_subscribe, queue_unsubscribe, queue_subscription_request, queue_ping, Engine.ack, mark_inbound_delivered,
      seal_publications, continue_inbound_replay, respond_auth, take_effects; stays.
Qed.

Hint Extern 1 (stays state_down (modify _)) => (apply down_modify; intros; simpl; tauto) : frames.
Hint Extern 1 (stays state_down (conn_modify _)) => (apply down_modify; intros; simpl; tauto) : frames.
Hint Extern 2 (stays state_down _) => (apply df_disconnect || apply df_enter || apply df_subs || apply of_effect ||
  apply df_problem_information || apply of_ids_release); apply _ : frames.

Lemma down_refuse {A} : stays state_down (@refuse S config A).
Proof. unfold refuse. stays. Qed.
Lemma down_request mid ack count : stays state_down (_complete_subscription_request mid ack count).
Proof. unfold _complete_subscription_request. stays. Qed.
Hint Resolve down_refuse down_request : frames.

Lemma handler_down st ty raw handler :
  handler_of config st ty = Some handler → (st = CONNECTING → ty ≠ CONNACK) → stays state_down (handler raw).
Proof.
  intros Hh Hn. destruct st, ty; simpl in Hh; try done; injection Hh as <-; try (by destruct Hn);
    first [apply id_handle_publish; apply _ | apply df_on_puback; apply _ | apply df_on_pubrec; apply _
      | apply df_on_pubcomp; apply _ | apply id_on_pubrel; apply _
      | unfold _on_suback, _on_unsuback, _on_pingresp, _on_disconnect, _on_auth; stays].
Qed.

(** A CONNACK connects, disconnects or leaves the connection being made. *)
Definition state_settled e e' : Prop :=
  state e ∈ [CONNECTING; CONNECTED; DISCONNECTED] → state e' ∈ [CONNECTING; CONNECTED; DISCONNECTED].

#[export] Instance state_settled_preorder : PreOrder state_settled.
Proof. split; [by intros e He | intros e1 e2 e3 Ha Hb He; apply Hb, Ha, He]. Qed.
#[export] Instance state_settled_out : DownFrame state_settled.
Proof. constructor; [constructor; [apply _ | ..] | ..]; intros e; intros; intros Hs; try exact Hs. simpl. set_solver. Qed.
#[export] Instance state_settled_in : InFrame state_settled.
Proof. constructor; [apply _ | ..]; intros e; intros; intros Hs; exact Hs. Qed.

Lemma settled_modify f : (∀ e, state (f e) = state e ∨ state (f e) = CONNECTED ∨ state (f e) = DISCONNECTED) →
  stays state_settled (modify f).
Proof. intros Hf e He. simpl. destruct (Hf e) as [-> | [-> | ->]]; set_solver. Qed.

Hint Extern 1 (stays state_settled (modify _)) => (apply settled_modify; intros; simpl; tauto) : frames.
Hint Extern 1 (stays state_settled (conn_modify _)) => (apply settled_modify; intros; simpl; tauto) : frames.
Hint Extern 2 (stays state_settled _) => (apply df_disconnect || apply df_enter || apply of_effect || apply of_check_replayable ||
  apply of_out_replay || apply of_purge || apply if_discard_session || apply of_reset_flow || apply of_fail_violating ||
  apply if_replay_session || apply of_drain); apply _ : frames.

Lemma settled_connack raw : stays state_settled (_on_connack config raw).
Proof.
  unfold _on_connack, _validate_connack_v5, _validate_accepted_connack, refuse, remember_client_id,
    _update_session_resume_preference, settle_session. stays.
Qed.

Lemma handle_raw_moves raw e :
  may_move (state e) (EPacket raw) (state (handle_raw config raw e).2) = true.
Proof.
  unfold handle_raw. unfold mbind at 1, M_bind, gets at 1.
  destruct (bool_decide (state e = DISCONNECTING) || bool_decide (state e = DISCONNECTED)) eqn:Ed; [by apply orb_true_iff; left; apply bool_decide_true |].
  apply orb_false_iff in Ed as [Ed1 Ed2]. bools.
  set (body := lift (validate_raw_packet raw);; _).
  assert (Hreport : ∀ R : relation (Engine S), PreOrder R → stays R body → (∀ fx e', R e' (set_effects (_effects e' ++ [fx]) e')) →
    R e (try_except body (λ x, if peer_error x then _emit (Effect.PROTOCOL_ERROR x);; mret (Some x) else raise x) e).2).
  { intros R HR Hb Hfx. apply stays_try; [done | exact Hb |]. intros x. destruct (peer_error x); [| by apply stays_raise].
    apply stays_bind; [done | | intros; by apply stays_ret]. intros e'. apply Hfx. }
  set (e' := (try_except body _ e).2) in *.
  destruct (decide (state e = CONNECTING ∧ packet_type raw = CONNACK)) as [[Es Et] | Hn].
  - assert (state_settled e e') as Hs.
    { apply Hreport; [apply _ | | intros fx e0 He; exact He]. unfold body. rewrite Es, Et. simpl.
      apply stays_bind; [apply _ | apply stays_lift, _ | intros _]. apply stays_bind; [apply _ | apply settled_connack | intros; apply stays_ret, _]. }
    unfold state_settled in Hs. rewrite Es in *. unfold may_move. rewrite (bool_decide_true _ Et).
    destruct (state e'); try done; exfalso; set_solver.
  - destruct (handler_of config (state e) (packet_type raw)) as [handler |] eqn:Eh.
    + assert (state_down e e') as Hs.
      { apply Hreport; [apply _ | | by left]. unfold body. apply stays_bind; [apply _ | apply stays_lift, _ | intros _].
        apply stays_bind; [apply _ | eapply handler_down; [exact Eh | tauto] | intros; apply stays_ret, _]. }
      destruct Hs as [-> | ->]; unfold may_move; [by rewrite bool_decide_true |].
      destruct (state e), (packet_type raw); try done; simpl in Eh; done.
    + assert (state_kept e e') as ->; [| by unfold may_move; rewrite bool_decide_true].
      apply Hreport; [apply _ | | done]. unfold body. apply stays_bind; [apply _ | apply stays_lift, _ | intros _].
      apply stays_bind; [apply _ | apply stays_raise, _ | intros; apply stays_ret, _].
Qed.

(** ** CONNECT *)

(** A CONNECT sent: both sessions start a connection, and nothing of the old
    negotiation survives. *)
Record connecting e e' : Prop := {
  cn_from : state e = NEW ∨ state e = DISCONNECTED ∨ state e = RECONNECTING;
  cn_state : state e' = CONNECTING;
  cn_negotiated : negotiated e' = NegotiatedSettings_default;
  cn_auth : _reauth_in_progress (conn e') = false ∧ _auth_response_due (conn e') = None;
  cn_aliases : _topic_aliases (outbound e') = ∅ ∧ Inb._aliases (inbound e') = ∅;
  cn_window : _inflight (inbound e') = 0 ∧ Inb._replay (inbound e') = None;
  cn_kept : heap e' = heap e ∧ store e' = store e ∧ _effects e' = _effects e ∧
    _pending_sub_requests e' = _pending_sub_requests e ∧ _queued (outbound e') = _queued (outbound e) ∧
    Inb._stored_inbound (inbound e') = Inb._stored_inbound (inbound e) }.

(** The request flags of an encoded CONNECT are integers: a BYTE property encodes
    only as one. *)
Lemma encoded_byte_int ps n d body s : BY_NAME n = Some s → p_type s = BYTE → p_multiple s = false →
  encode_body cCONNECT ps = Ok body → ∃ z, int_or d (pget (Some ps) n) = Ok z.
Proof.
  intros Hs Ht Hm. revert body. induction ps as [| [k v] ps IH]; intros body Hb; [by exists d |].
  cbn [encode_body] in Hb. apply rbind_Ok_inv in Hb as (x & Hx & Hb). apply rbind_Ok_inv in Hb as (y & Hy & _).
  unfold pget in *. cbn [dget]. case_decide as E; [| by apply (IH y)]. subst k.
  unfold encode_entry in Hx. rewrite Hs in Hx. destruct (bool_decide _) in Hx; [| done]. cbn [negb] in Hx.
  apply rbind_Ok_inv in Hx as (vs & Hvs & Hx). unfold entry_values in Hvs. rewrite Hm in Hvs.
  destruct v; simplify_eq/=; try (by eexists); apply rbind_Ok_inv in Hx as (z & Hz & _); unfold encode_item in Hz;
    apply rbind_Ok_inv in Hz as (w & _ & Hz); rewrite Ht in Hz; done.
Qed.

Lemma connect_encodes_properties p ps wire : c_protocol p = MQTTv5 → c_properties p = Some ps →
  connect_encode p = Ok wire → ∃ body, encode_body cCONNECT ps = Ok body.
Proof.
  unfold connect_encode, encode_connect_v5, _encode_connect. intros -> -> H.
  apply rbind_Ok_inv in H as (q & _ & H). apply rbind_Ok_inv in H as (k & _ & H). cbn [encode_properties] in H.
  apply rbind_Ok_inv in H as (b & H & _). destruct ps as [| x ps]; [by eexists |].
  apply rbind_Ok_inv in H as (body & H & _). by exists body.
Qed.

Lemma sent_flags_int e id clean ps wire n d s : EngineConfig_check config = Ok tt →
  BY_NAME n = Some s → p_type s = BYTE → p_multiple s = false →
  prepare_connect config e = Ok (id, clean, ps, wire) → ∃ z, int_or d (pget ps n) = Ok z.
Proof.
  intros Hc Hs Ht Hm Hp.
  assert (connect_properties_sent config = ps ∧ ∃ p, c_protocol p = protocol config ∧
    c_properties p = connect_properties_sent config ∧ connect_encode p = Ok wire) as (<- & p & Ep & Eps & Hw).
  { unfold prepare_connect in Hp. cbv zeta in Hp. res_inv. split; [done |].
    match goal with H : connect_encode ?p = Ok _ |- _ => by exists p end. }
  destruct (protocol config) eqn:Ev.
  - unfold EngineConfig_check in Hc. rewrite Ev in Hc. destruct (outside 0 65535 _) in Hc; [done |]. res_inv.
    unfold _refuse_mqtt5_options in *. destruct (has_values (connect_properties config)) eqn:Eh in *; [done |].
    unfold connect_properties_sent. rewrite Ev. exists d. by destruct (connect_properties config) as [[| ? ?] |].
  - assert (∃ values, connect_properties_sent config = Some values) as [values Es]
      by (unfold connect_properties_sent; rewrite Ev; by eexists).
    rewrite Es in *. destruct (connect_encodes_properties _ _ _ Ep Eps Hw) as [body Hb].
    by eapply encoded_byte_int.
Qed.

Lemma begin_connect_spec e :
  wp (begin_connect config) (λ wire e', connecting e e' ∧ ∃ id clean ps, prepare_connect config e = Ok (id, clean, ps, wire))
    (λ _ e', state e' = state e ∧ (EngineConfig_check config = Ok tt → e' = e)) e.
Proof.
  unfold begin_connect. apply wp_bind, wp_gets. apply wp_bind, wp_lift; [| done]. intros [[[cid clean] ps] wire] Hp.
  assert (state e = NEW ∨ state e = DISCONNECTED ∨ state e = RECONNECTING) as Hst.
  { unfold prepare_connect in Hp. unfold Datatypes.id in Hp. destruct (state e); auto; cbv iota in Hp; discriminate Hp. }
  assert (∀ n d x s, BY_NAME n = Some s → p_type s = BYTE → p_multiple s = false →
    int_or d (pget ps n) = Raise x → EngineConfig_check config ≠ Ok tt) as Hint.
  { intros n d x s Hs Ht Hm Hr Hc. destruct (sent_flags_int _ _ _ _ _ _ d _ Hc Hs Ht Hm Hp) as [z Hz]. congruence. }
  apply wp_bind, wp_lift; [| done]. intros [[rm am] n] _.
  apply wp_bind, wp_modify, wp_bind, wp_lift.
  2:{ intros x Hx. split; [done |]. intros Hc. exfalso. refine (Hint "request_problem_information"%string _ _ _ _ _ _ Hx Hc); reflexivity. }
  intros problem _. apply wp_bind, wp_modify, wp_bind, wp_lift.
  2:{ intros x Hx. split; [done |]. intros Hc. exfalso. refine (Hint "request_response_information"%string _ _ _ _ _ _ Hx Hc); reflexivity. }
  intros response _.
  apply wp_bind, wp_modify, wp_bind, wp_modify, wp_bind, wp_modify, wp_bind, wp_modify, wp_bind, wp_modify, wp_ret.
  split; [| by eexists _, _, _]. by constructor.
Qed.

(** On a checked configuration [begin_connect] is all or nothing.  Refused,
    whatever the reason, it leaves the engine exactly as it was, although it
    reads two request flags after it began to assign attributes; otherwise it
    started from a state without a connection, returns the CONNECT encoded from
    the configuration, and both sessions start a connection with empty aliases, a
    free Receive Maximum window and no negotiated settings, keeping stored and
    queued messages. *)
Theorem begin_connect_atomic e : EngineConfig_check config = Ok tt →
  match begin_connect config e with
  | (Ok wire, e') => connecting e e' ∧ ∃ id clean ps, prepare_connect config e = Ok (id, clean, ps, wire)
  | (Raise _, e') => e' = e
  end.
Proof.
  intros Hc. pose proof (begin_connect_spec e) as Hw. unfold wp in Hw.
  destruct (begin_connect config e) as [[wire | x] e']; [done |]. by apply Hw.
Qed.

(** ** Every operation *)

Lemma begin_disconnect_spec rc ps e :
  wp (begin_disconnect config rc ps)
    (λ _ e', (state e = CONNECTING ∨ state e = CONNECTED) ∧ e' = set_state DISCONNECTING e) (λ _ e', e' = e) e.
Proof.
  unfold begin_disconnect. apply wp_bind, wp_gets. apply wp_if; intros Hc; [done |].
  assert (state e = CONNECTING ∨ state e = CONNECTED) as Hst.
  { unfold connected in Hc. unfold Datatypes.id in Hc. destruct (state e); by auto. }
  apply wp_bind, wp_lift; [intros u _ | done]. apply wp_bind, wp_lift; [intros wire _ | done]. apply wp_bind.
  unfold _check_outbound_size. apply wp_bind, wp_gets.
  assert (wp (modify (set_state DISCONNECTING);; mret wire)
    (λ _ e', (state e = CONNECTING ∨ state e = CONNECTED) ∧ e' = set_state DISCONNECTING e) (λ _ e', e' = e) e) as Hk by done.
  destruct (n_maximum_packet_size _); [| exact Hk]. apply wp_if; intros _; [done | exact Hk].
Qed.

Lemma closed_state e : state (notify_transport_closed e).2 = DISCONNECTED.
Proof.
  assert (∀ (m : M S unit) e1, stays state_down m → state e1 = DISCONNECTED → state (m e1).2 = DISCONNECTED) as Hd.
  { intros m e1 Hm E. destruct (Hm e1) as [-> | ->]; done. }
  unfold notify_transport_closed. unfold mbind at 1, M_bind, gets at 1.
  set (rest := λ _ : unit, Outbound.transport_closed;; _).
  change (state (rest tt (set_state DISCONNECTED (set_conn (set_auth_exchange false None (conn e)) e))).2 = DISCONNECTED).
  apply Hd; [| done]. unfold rest. stays; [apply of_out_closed, _ | apply if_transport_closed, _].
Qed.

(** C8: the connection moves only as the protocol allows: CONNECTING is entered
    by [begin_connect] from a state without a connection, CONNECTED only by a
    CONNACK received while CONNECTING, DISCONNECTING by [begin_disconnect];
    handling a packet may end a connection, but does nothing to one that is
    closing or closed; every other operation leaves the state alone. *)
Theorem connection_moves op e : may_move (state e) op (state (run_engine config pop op e).2) = true.
Proof.
  pose proof (kept_op op) as Hk.
  assert (Hret : ∀ A (m : M S A), state ((m;; mret (@None exn)) e).2 = state (m e).2).
  { intros A m. unfold mbind, M_bind. by destruct (m e) as [[a | x] e']. }
  destruct op; cbn [run_engine] in *; try (unfold may_move; rewrite (Hk e), bool_decide_true by done; done).
  - rewrite Hret. pose proof (begin_connect_spec e) as Hw. unfold wp in Hw.
    destruct (begin_connect config e) as [[wire | x] e']; simpl.
    + destruct Hw as [[[-> | [-> | ->]] -> _ _ _ _ _] _]; done.
    + destruct Hw as [-> _]. unfold may_move. by rewrite bool_decide_true.
  - apply handle_raw_moves.
  - rewrite Hret. pose proof (begin_disconnect_spec reason_code properties e) as Hw. unfold wp in Hw.
    destruct (begin_disconnect config reason_code properties e) as [[wire | x] e']; simpl.
    + by destruct Hw as [[-> | ->] ->].
    + subst. unfold may_move. by rewrite bool_decide_true.
  - rewrite Hret, closed_state. unfold may_move. destruct (bool_decide _); [done |]. by destruct (state e).
Qed.

(** ** Reporting *)

#[export] Instance effects_grow_down : InDownFrame config effects_grow.
Proof. constructor; [apply _ |]. intros rc. apply df_disconnect, _. Qed.

Lemma grow_modify f : (∀ e, _effects (f e) = _effects e) → stays effects_grow (modify f).
Proof. intros Hf e. unfold effects_grow. simpl. by rewrite Hf. Qed.

Hint Extern 1 (stays effects_grow (modify _)) => (apply grow_modify; done) : frames.
Hint Extern 1 (stays effects_grow (conn_modify _)) => (apply grow_modify; done) : frames.
Hint Extern 2 (stays effects_grow _) => (apply df_disconnect || apply df_enter || apply df_subs || apply of_effect ||
  apply df_problem_information || apply of_ids_release || apply of_check_replayable ||
  apply of_out_replay || apply of_purge || apply if_discard_session || apply of_reset_flow || apply of_fail_violating ||
  apply if_replay_session || apply of_drain); apply _ : frames.

Lemma grow_refuse {A} : stays effects_grow (@refuse S config A).
Proof. unfold refuse. stays. Qed.
Lemma grow_request mid ack count : stays (S := S) effects_grow (_complete_subscription_request mid ack count).
Proof. unfold _complete_subscription_request. stays. Qed.
Hint Resolve grow_refuse grow_request : frames.

Lemma handler_grow st ty raw handler : handler_of config st ty = Some handler → stays effects_grow (handler raw).
Proof.
  intros Hh. destruct st, ty; simpl in Hh; try done; injection Hh as <-;
    first [apply id_handle_publish; apply _ | apply df_on_puback; apply _ | apply df_on_pubrec; apply _
      | apply df_on_pubcomp; apply _ | apply id_on_pubrel; apply _
      | unfold _on_suback, _on_unsuback, _on_pingresp, _on_disconnect, _on_auth, _on_connack, _validate_connack_v5,
          _validate_accepted_connack, remember_client_id, _update_session_resume_preference, settle_session; stays].
Qed.

(** C35: handling a packet reports what went wrong and loses no effect.  Once the
    connection is closing or closed a packet changes nothing; a packet the
    state does not expect is reported and changes nothing else; a reported
    error is one the peer caused, and its PROTOCOL_ERROR effect comes last,
    after the effects already there and those of the handler; any other
    exception is raised, with the same effects kept. *)
Theorem handle_raw_reports raw e :
  (state e = DISCONNECTING ∨ state e = DISCONNECTED → handle_raw config raw e = (Ok None, e)) ∧
  (state e ≠ DISCONNECTING → state e ≠ DISCONNECTED → validate_raw_packet raw = Ok tt →
   handler_of (S := S) config (state e) (packet_type raw) = None →
   handle_raw config raw e =
     (Ok (Some ProtocolError), set_effects (_effects e ++ [Effect.PROTOCOL_ERROR ProtocolError]) e)) ∧
  match handle_raw config raw e with
  | (Ok None, e') => effects_grow e e'
  | (Ok (Some x), e') => peer_error x = true ∧ ∃ fx, _effects e' = _effects e ++ fx ++ [Effect.PROTOCOL_ERROR x]
  | (Raise x, e') => peer_error x = false ∧ effects_grow e e'
  end.
Proof.
  split_and!.
  - intros [E | E]; unfold handle_raw, mbind, M_bind, gets; by rewrite E.
  - intros Hn1 Hn2 Hv Hh. unfold handle_raw, mbind, M_bind, gets, try_except, lift.
    rewrite !bool_decide_false, Hv, Hh by done. done.
  - unfold handle_raw, mbind at 1, M_bind, gets. destruct (_ || _); [by exists []; rewrite app_nil_r |].
    set (body := lift (validate_raw_packet raw);; _). assert (stays effects_grow body) as Hb.
    { unfold body. apply stays_bind; [apply _ | apply stays_lift, _ | intros _]. apply stays_bind; [apply _ | | intros; apply stays_ret, _].
      destruct (handler_of config (state e) (packet_type raw)) as [handler |] eqn:Eh; [by eapply handler_grow | apply stays_raise, _]. }
    assert (∀ o e1, body e = (Ok o, e1) → o = None) as Hnone.
    { intros o e1. unfold body, mbind, M_bind, mret, M_ret, lift. destruct (validate_raw_packet raw) as [u |]; [| done].
      generalize (match handler_of (S := S) config (state e) (packet_type raw) with Some handler => handler raw | None => raise ProtocolError end).
      intros m. destruct (m e) as [[[] | x] e2]; intros; by simplify_eq. }
    specialize (Hb e). unfold try_except. destruct (body e) as [[o | x] e1]; [by rewrite (Hnone o e1 eq_refl) |].
    destruct (peer_error x) eqn:Ex; [| done]. simpl. split; [done |]. destruct Hb as [fx Hfx]. simpl in Hfx.
    exists fx. by rewrite Hfx, app_assoc.
Qed.

(** ** Enhanced authentication *)

Lemma queue_auth_spec rc ps e :
  wp (queue_auth config rc ps)
    (λ _ e', (∃ wire, _effects e' = _effects e ++ [Effect.SEND (Contiguous wire)]) ∧ _auth_response_due (conn e') = None)
    (λ _ e', e' = e) e.
Proof.
  unfold queue_auth. apply wp_bind, wp_gets. cbv zeta. unfold Datatypes.id. do 2 (apply wp_if; intros _; [done |]).
  destruct (_auth_method (conn e)) as [method |]; [| done]. do 4 (apply wp_if; intros _; [done |]).
  apply wp_bind, wp_lift; [intros wire _ | done]. apply wp_bind. unfold _check_outbound_size. apply wp_bind, wp_gets.
  set (k := _send _;; _). assert (wp k (λ _ e', (∃ wire, _effects e' = _effects e ++ [Effect.SEND (Contiguous wire)]) ∧
    _auth_response_due (conn e') = None) (λ _ e', e' = e) e) as Hk.
  { apply wp_bind, wp_modify, wp_modify. split; [by eexists | done]. }
  destruct (n_maximum_packet_size _); [| exact Hk]. apply wp_if; intros _; [done | exact Hk].
Qed.

End rules.

(** ** A concrete handshake *)

(** The engine of a sample configuration, before it loads anything. *)
Definition engine_blank : Engine Memory.MemoryInflightStore := engine_new sample_config sample_heap sample_store.

Lemma begin_connect_atomic_witness :
  EngineConfig_check sample_config = Ok tt ∧ is_ok (begin_connect sample_config engine_blank).1 = true ∧
  match begin_connect sample_config engine_blank with
  | (Ok wire, e') => connecting engine_blank e' ∧
      ∃ id clean ps, prepare_connect sample_config engine_blank = Ok (id, clean, ps, wire)
  | (Raise _, e') => e' = engine_blank
  end.
Proof.
  split; [by vm_compute |]. split; [by vm_compute |].
  exact (begin_connect_atomic sample_config engine_blank eq_refl).
Defined.
