(* ===== verification/InboundTheorems.v ===== *)
(** * What the inbound session promises

    Exactly-once reception of QoS 2 publications, acknowledgements in arrival
    order, and the bound of the redelivery loop. *)

From S2P Require Import Prelude Vbi PyStr Primitives Enums Properties Topics Frame Ack Publish Handshake.
From S2P Require Import Subscription Types Buffer PacketIds Settings Store StoreIn EngineState Outbound Inbound Engine Wp.
From S2P Require Import Accounting OutboundTheorems InboundBooks InboundInv InboundHandlers InboundLife Frames EngineInv EngineTheorems.

(** ** One QoS 2 exchange, abstractly *)

(** The receiver's view of a packet identifier: no exchange; received, and
    settled once the application owns the message; released by the broker and
    waiting for the application; or an exchange of another kind. *)
Inductive phase := Absent | Held (settled : bool) | Waiting | Foreign.

(** What happens to an exchange, and what the client shows the world. *)
Inductive event :=
  | Publish (topic : pystr) (payload : bytes) (retain dup : bool) (properties : option propmap) (wire_size : option Z)
  | Mark
  | Pubrel (raw : RawPacket)
  | Handoff.
Inductive shown := Pubrec | Deliver (topic : pystr) (payload : bytes) | Pubcomp (retired : bool).

Definition exchange_step (p : phase) (ev : event) : option (phase * list shown) :=
  match ev, p with
  | Publish topic payload _ _ _ _, Absent => Some (Held false, [Pubrec; Deliver topic payload])
  | Publish _ _ _ _ _ _, Held settled => Some (Held settled, [Pubrec])
  | Mark, Absent => Some (Absent, [])
  | Mark, Held _ => Some (Held true, [])
  | Mark, Waiting => Some (Absent, [Pubcomp true])
  | Pubrel _, Absent => Some (Absent, [Pubcomp false])
  | Pubrel _, Held true => Some (Absent, [Pubcomp true])
  | Pubrel _, (Held false | Waiting) => Some (Waiting, [])
  | Handoff, (Absent | Held _ | Waiting) => Some (p, [])
  | _, _ => None
  end.

Fixpoint exchange_trace (p : phase) (evs : list event) : option (phase * list shown) :=
  match evs with
  | [] => Some (p, [])
  | ev :: evs =>
      '(p, out) ← exchange_step p ev;
      '(p, outs) ← exchange_trace p evs;
      mret (p, out ++ outs)
  end.

Definition is_open (p : phase) : nat := match p with Held _ | Waiting => 1 | Absent | Foreign => 0 end.
Fixpoint deliveries (outs : list shown) : nat :=
  match outs with [] => 0 | Deliver _ _ :: outs => 1 + deliveries outs | _ :: outs => deliveries outs end.
Fixpoint retirements (outs : list shown) : nat :=
  match outs with [] => 0 | Pubcomp true :: outs => 1 + retirements outs | _ :: outs => retirements outs end.

Lemma deliveries_app a b : deliveries (a ++ b) = (deliveries a + deliveries b)%nat.
Proof. induction a as [| [] a IH]; simpl; lia. Qed.
Lemma retirements_app a b : retirements (a ++ b) = (retirements a + retirements b)%nat.
Proof. induction a as [| [| | []] a IH]; simpl; lia. Qed.

(** Every exchange that opens delivers once, and closes once. *)
Lemma trace_balance evs : ∀ p p' outs, exchange_trace p evs = Some (p', outs) →
  (deliveries outs + is_open p = retirements outs + is_open p')%nat.
Proof.
  induction evs as [| ev evs IH]; intros p p' outs H; simpl in H; [by simplify_eq |].
  destruct (exchange_step p ev) as [[p1 out] |] eqn:E; [| done]. simpl in H.
  destruct (exchange_trace p1 evs) as [[p2 outs'] |] eqn:E2; [| done]. simpl in H. injection H as <- <-.
  apply IH in E2. rewrite deliveries_app, retirements_app.
  destruct ev, p as [| [] | |]; simpl in E; simplify_eq; simpl in *; lia.
Qed.

Section theorems.
Context {S : Type} `{L : InStoreLaws S} (config : EngineConfig).
Implicit Types (e : Engine S) (t : intable) (i : Inb.InboundSession).

Abbreviation Books := (InBooks (manual_ack config) reliable).
Abbreviation IInv := (IInv config).
Abbreviation sound_at := (sound_at config).

(** ** The concrete exchange *)

Definition phase_in t i (mid : Z) : phase :=
  match dget mid t with
  | None => Absent
  | Some m =>
      if decide (i_state m = In.WAIT_PUBREL)
      then if negb (is_set (Inb._pending_completions i !! mid)) then Held (i_delivered m || i_user_acked m)
           else if i_user_acked m then Foreign else Waiting
      else Foreign
  end.
Definition phase_of e (mid : Z) : phase := phase_in (itable e) (inbound e) mid.

Definition on_event (mid : Z) (ev : event) : M S unit :=
  match ev with
  | Publish topic payload retain dup ps wire => _on_qos2 config topic payload mid retain dup ps wire
  | Mark => mark_delivered mid None
  | Pubrel raw => on_pubrel config raw
  | Handoff => in_modify release_pending_acks
  end.
Fixpoint on_events (mid : Z) (evs : list event) : M S unit :=
  match evs with [] => mret tt | ev :: evs => on_event mid ev;; on_events mid evs end.

(** The packets are those of the exchange, without properties to check. *)
Definition event_ok (mid : Z) (ev : event) : Prop :=
  match ev with
  | Publish _ _ _ _ _ wire => ∀ w, wire = Some w → 0 ≤ w
  | Pubrel raw => ∃ rc, b_decode_pubrel (codec config) (remaining raw) = Ok (mid, rc, None)
  | _ => True
  end.

(** The effects that show an output. *)
Definition carries (mid : Z) (topic : pystr) (payload : bytes) (m : Message) : Prop :=
  m_topic m = topic ∧ m_payload m = payload ∧ m_mid m = Some mid ∧ m_qos m = EXACTLY_ONCE.
Inductive shows (mid : Z) : shown → Effect.t → Prop :=
  | shows_pubrec : shows mid Pubrec (Effect.SEND_ACK (ack_wire 0x50 mid))
  | shows_pubcomp retired : shows mid (Pubcomp retired) (Effect.SEND_ACK (ack_wire 0x70 mid))
  | shows_message topic payload m wire token : carries mid topic payload m →
      shows mid (Deliver topic payload) (Effect.MESSAGE m true wire token)
  | shows_decoded topic payload m wire token : carries mid topic payload m →
      shows mid (Deliver topic payload) (Effect.DECODED_MESSAGE m true wire token).

(** The concrete step follows the abstract one. *)
Definition follows (mid : Z) (ev : event) e e' : Prop :=
  IInv e' ∧ ∃ outs fx, exchange_step (phase_of e mid) ev = Some (phase_of e' mid, outs) ∧
    _effects e' = _effects e ++ fx ∧ Forall2 (shows mid) outs fx.

Lemma sound_follows mid ev e t i fx e' outs :
  sound_at e t i fx e' → exchange_step (phase_of e mid) ev = Some (phase_in t i mid, outs) → Forall2 (shows mid) outs fx →
  follows mid ev e e'.
Proof.
  intros Hs He Ho. split; [by eapply sound_inv |]. destruct Hs as ([_ Ht Hi _ Hx _] & _ & _).
  exists outs, fx. unfold phase_of at 2. by rewrite Ht, Hi.
Qed.

(** An exception is not judged here. *)
Lemma wp_raises {A B} (m : M S A) x (Q : B → Engine S → Prop) e : wp (m;; raise x) Q (λ _ _, True) e.
Proof. unfold wp, mbind, M_bind. by destruct (m e) as [[a | y] e']. Qed.

Context (mid : Z) (Hmid : 1 ≤ mid ≤ 65535) (Hauto : manual_ack config = false) (Hrel : reliable).
#[local] Set Default Proof Using "All".

Lemma phase_Held t i m : dget mid t = Some m → i_state m = In.WAIT_PUBREL → Inb._pending_completions i !! mid = None →
  phase_in t i mid = Held (i_delivered m || i_user_acked m).
Proof. intros Hg Hs Hc. unfold phase_in. by rewrite Hg, decide_True, Hc. Qed.
Lemma phase_Waiting t i m st : dget mid t = Some m → i_state m = In.WAIT_PUBREL → Inb._pending_completions i !! mid = Some st →
  i_user_acked m = false → phase_in t i mid = Waiting.
Proof. intros Hg Hs Hc Hu. unfold phase_in. by rewrite Hg, decide_True, Hc, Hu. Qed.
Lemma phase_row t i m : phase_in t i mid ≠ Foreign → dget mid t = Some m →
  i_state m = In.WAIT_PUBREL ∧ (is_Some (Inb._pending_completions i !! mid) → i_user_acked m = false).
Proof.
  unfold phase_in. intros Hp Hg. rewrite Hg in Hp. case_decide; [split; [done |] | done]. intros [st Hst].
  rewrite Hst in Hp. cbn [is_set negb] in Hp. by destruct (i_user_acked m).
Qed.
Lemma phase_Absent t i : dget mid t = None → phase_in t i mid = Absent.
Proof. intros Hg. unfold phase_in. by rewrite Hg. Qed.
Lemma phase_removed t i : NoDup (dkeys t) → phase_in (ddel mid t) i mid = Absent.
Proof. intros Hn. apply phase_Absent. rewrite dget_ddel by done. by rewrite decide_True. Qed.

(** *** A PUBLISH *)

Lemma opened_completions n i : Inb._pending_completions (opened mid n i) = Inb._pending_completions i.
Proof.
  unfold opened. destruct (taken_fields i) as (b & -> & _). by destruct (reserved_fields n (Inb.set_handoff b i)) as (h & -> & _).
Qed.
Lemma attached_waiting i : Inb._pending_completions (attached mid i) = Inb._pending_completions i.
Proof. unfold attached. case_if; [done |]. by destruct (taken_fields i) as (b & -> & _). Qed.

Lemma no_completion t i : Books t i → dget mid t = None → Inb._pending_completions i !! mid = None.
Proof.
  intros HB Hg. destruct (Inb._pending_completions i !! mid) as [st |] eqn:Hc; [| done].
  destruct (lg_waiting _ _ _ (ib_ledger _ _ _ _ HB) mid st Hc) as (m & Hm & _). congruence.
Qed.

(** The message of an exchange shows its topic and payload. *)
Lemma delivered_shows topic payload retain dup ps wire token message :
  let m := _decoded_message topic payload EXACTLY_ONCE retain dup (Some mid) ps in
  message = m ∨ (∃ tok, message = with_ack_token m tok) →
  shows mid (Deliver topic payload)
    (if is_set (wire : option Z) then Effect.DECODED_MESSAGE message true wire token else Effect.MESSAGE message true wire token).
Proof. intros m [-> | [tok ->]]; destruct wire; by constructor. Qed.

Lemma publish_follows topic payload retain dup ps wire e :
  IInv e → (∀ w, wire = Some w → 0 ≤ w) →
  wp (_on_qos2 config topic payload mid retain dup ps wire)
    (λ _ e', follows mid (Publish topic payload retain dup ps wire) e e') (λ _ _, True) e.
Proof.
  intros HI Hwire. pose proof (sound_start _ _ HI) as Hs. unfold _on_qos2.
  eapply st_lookup; [apply Hs | apply HI | | done].
  intros e1 Hw1. set (t := itable e) in *. set (i := inbound e) in *.
  assert (sound_at e t i [] e1) as Hs1 by (eapply sound_went; [exact Hs | exact Hw1 | apply Hs | done]).
  eapply st_inbound; [exact Hw1 |]. destruct (dget mid t) as [m |] eqn:Hg; cbn [fmap option_fmap option_map Memory.meta_of im_state].
  - apply wp_if; intros _; [apply wp_raises |]. apply wp_if; intros Hc; [apply wp_raises |].
    apply wp_if; intros Hst; [done |]. bools.
    eapply wp_mono; [eapply qos2_duplicate; [exact Hs1 | exact Hg | by rewrite Hst] | | done]. intros [] e2 Hs2.
    assert (Inb._pending_completions i !! mid = None) as Hn by (by destruct (Inb._pending_completions i !! mid)).
    eapply sound_follows; [exact Hs2 | | by repeat constructor]. unfold phase_of. fold t i.
    rewrite (phase_Held t i m), (phase_Held t (attached mid i) m); [done.. | | done | done | done].
    by rewrite attached_waiting.
  - apply wp_if; intros Hp; [apply wp_raises |]. apply wp_if; intros Ha; [apply wp_raises |].
    unfold awaiting_handoff in Hp. bools. apply wp_lift_bind; [| done]. intros size Hsize.
    apply logical_size_nonneg in Hsize; [| done]. set (m := mkIn _ _ _ _ _ _ _ _ _ _).
    eapply st_acquire; [exact Hs1 | | done]. intros e2 Hw2 Hlt _.
    eapply (st_store _ _ _ _ _ m); [exact Hw2 | apply Hs.. | exact Hsize | | done]. intros e3 ps3 Hw3 Hpos.
    destruct (opened_token mid (i_logical_size m) i) as [Htok Hrep].
    eapply (st_answer _ _ _ _ _ 0x50); [exact Hw3 | done.. |]. intros e4 Hw4.
    eapply (st_bind _ _ _ _ _ _ mid); [| done |].
    { eapply sound_went; [exact Hs1 | exact Hw4 | | exact Hrep]. apply (opened2_books _ _ _ _ mid (i_set_properties m ps3)); try done; [apply Hs | by apply dget_None]. }
    intros message i' e5 Hs5 Hi' _ Hmsg. rewrite (Hi' _ Htok) in *. eapply st_emit; [apply Hs5 |]. intros e6 Hw6.
    eapply (sound_follows mid _ e _ _ _ _ [Pubrec; Deliver topic payload]).
    + eapply sound_went; [exact Hs5 | exact Hw6 | apply Hs5 | done].
    + unfold phase_of. fold t i. rewrite (phase_Absent t i Hg). simpl.
      rewrite (phase_Held (dset mid (i_set_properties m ps3) t) _ (i_set_properties m ps3)); [done | by rewrite dget_dset_eq | done |].
      rewrite opened_completions. by eapply no_completion; [apply Hs |].
    + repeat constructor. by eapply delivered_shows.
Qed.

(** *** A delivery mark *)

Lemma foreign_none ev : exchange_step Foreign ev = None.
Proof using. by destruct ev. Qed.

Lemma mark_follows e : IInv e → phase_of e mid ≠ Foreign →
  wp (mark_delivered mid None) (λ _ e', follows mid Mark e e') (λ _ _, False) e.
Proof.
  intros HI Hp. pose proof (sound_start _ _ HI) as Hs. unfold phase_of in Hp. set (t := itable e) in *. set (i := inbound e) in *.
  unfold mark_delivered. eapply st_inbound; [apply Hs |]. cbn [is_set andb].
  apply wp_bind. eapply st_modify; [apply Hs |]. intros e1 Hw1. fold (unawaited mid i) in Hw1.
  destruct (Inb._pending_completions i !! mid) as [st |] eqn:Ec.
  - destruct (lg_waiting _ _ _ (ib_ledger _ _ _ _ (proj1 (proj2 Hs))) mid st Ec) as (m & Hg & Hst & _).
    destruct (phase_row t i m Hp Hg) as [Hm Hua]. assert (st = In.WAIT_PUBREL) as -> by congruence.
    assert (Hac : accounted t (unawaited mid i) mid) by (intros x Hx; apply (row_facts _ _ _ _ _ _ _ _ Hs Hx)).
    rewrite bool_decide_false by done. apply wp_eta.
    eapply st_complete_qos2; [exact Hw1 | exact Hac | | intros x e' _ _ Hu; by apply (Hu Hrel m)].
    intros m' e2 Hw2 Hg' _. simplify_eq. apply wp_ret. rewrite closed_unawaited in Hw2.
    eapply (sound_follows mid _ e _ _ _ _ [Pubcomp true]); [eapply sound_went; [exact Hs | exact Hw2 | | apply parked_replay] | |].
    + apply parked_books; [apply Hs | done | congruence].
    + unfold phase_of. fold t i. rewrite (phase_Waiting t i m In.WAIT_PUBREL); [| done | done | done | by apply Hua].
      rewrite phase_removed; [done | apply Hs].
    + repeat constructor.
  - assert (Books t (unawaited mid i)) as HB by (apply unawaited_books; [apply Hs | by rewrite Ec]).
    assert (Hun : ∀ m, dget mid t = Some m → ∀ m', i_state m' = i_state m → i_delivered m' = true → ∀ t', dget mid t' = Some m' →
      exchange_step (phase_of e mid) Mark = Some (phase_in t' (unawaited mid i) mid, [])).
    { intros m Hg m' Hst Hd t' Hg'. destruct (phase_row t i m Hp Hg) as [Hm _]. unfold phase_of. fold t i.
      rewrite (phase_Held t i m) by done. rewrite (phase_Held t' _ m'); [by rewrite Hd | done | congruence |].
      simpl. by rewrite lookup_delete_eq. }
    assert (Habs : dget mid t = None → exchange_step (phase_of e mid) Mark = Some (phase_in t (unawaited mid i) mid, [])).
    { intros Hg. unfold phase_of. fold t i. by rewrite !(phase_Absent t) by done. }
    assert (Hsame : ∀ e2, went e t (unawaited mid i) [] e2 → (∀ m, dget mid t = Some m → i_delivered m = true) → follows mid Mark e e2).
    { intros e2 Hw2 Hd. eapply sound_follows; [eapply sound_went; [exact Hs | exact Hw2 | done | done] | | constructor].
      destruct (decide (dget mid t = None)) as [| [m Hg]%not_eq_None_Some]; [by apply Habs |]. by eapply (Hun m Hg m); [| apply Hd |]. }
    apply wp_only_if; intros Hn; bools.
    + apply wp_bind. eapply st_mark; [exact Hw1 | | | done].
      * intros b m e2 Hw2 Hg. apply wp_ret. eapply sound_follows; [eapply sound_went; [exact Hs | exact Hw2 | | done] | | constructor].
        -- apply delivered_books; [done | done |]. simpl. by rewrite lookup_delete_eq.
        -- eapply (Hun m Hg (i_set_delivered m)); [done | done | apply dget_dset_eq].
      * intros b e2 Hw2 Hd. apply wp_ret. by apply Hsame.
    + apply Hsame; [exact Hw1 |]. intros m Hg. exfalso. pose proof (lg_stored _ _ _ (ib_ledger _ _ _ _ (proj1 (proj2 Hs)))) as Hl.
      fold t i in Hl. rewrite Hn in Hl. symmetry in Hl. apply len_0_nil in Hl. by rewrite Hl in Hg.
Qed.

(** *** A PUBREL, and the handoff of the answered batch *)

Lemma pubrel_follows raw e : IInv e → phase_of e mid ≠ Foreign → event_ok mid (Pubrel raw) →
  wp (on_pubrel config raw) (λ _ e', follows mid (Pubrel raw) e e') (λ _ _, False) e.
Proof.
  intros HI Hp [rc Hdec]. pose proof (sound_start _ _ HI) as Hs. unfold phase_of in Hp. set (t := itable e) in *. set (i := inbound e) in *.
  unfold on_pubrel. rewrite Hdec. apply wp_bind. unfold wp at 1, lift. cbn [is_set only_if].
  apply wp_bind, wp_ret. eapply st_lookup; [apply Hs | apply HI | | done].
  intros e1 Hw1. assert (sound_at e t i [] e1) as Hs1 by (eapply sound_went; [exact Hs | exact Hw1 | apply Hs | done]).
  destruct (dget mid t) as [m |] eqn:Hg; cbn [fmap option_fmap option_map Memory.meta_of im_state im_delivered im_user_acked].
  - destruct (phase_row t i m Hp Hg) as [Hm Hua]. rewrite Hm, !bool_decide_false by done. rewrite bool_decide_true by done.
    cbn [negb]. rewrite Hauto. cbn [andb]. apply wp_if; intros Hd.
    + apply andb_true_iff in Hd as [Hd Ha]. bools. eapply st_modify; [exact Hw1 |]. intros e2 Hw2.
      eapply (sound_follows mid _ e _ _ _ _ []); [eapply sound_went; [exact Hs | exact Hw2 | | done] | | constructor].
      * rewrite <- Hm. apply (waiting_books _ _ _ _ mid m); [apply Hs | done..].
      * unfold phase_of. fold t i. rewrite (phase_Waiting t (Inb.set_completions _ i) m In.WAIT_PUBREL);
          [| done | done | simpl; by rewrite lookup_insert_eq | done].
        destruct (Inb._pending_completions i !! mid) as [st |] eqn:Ec; [by rewrite (phase_Waiting t i m st) |].
        by rewrite (phase_Held t i m), Hd, Ha.
    + eapply wp_mono; [eapply complete_qos2_inv; [exact Hs1 | congruence] | |].
      * intros [] e2 (m' & Hg' & _ & Hs2). simplify_eq. eapply (sound_follows mid _ e _ _ _ _ [Pubcomp true]); [exact Hs2 | | by repeat constructor].
        unfold phase_of. fold t i. rewrite phase_removed by apply Hs.
        assert (i_delivered m || i_user_acked m = true) as Hset by (by destruct (i_delivered m), (i_user_acked m)).
        destruct (Inb._pending_completions i !! mid) as [st |] eqn:Ec; [| by rewrite (phase_Held t i m), Hset].
        destruct (lg_waiting _ _ _ (ib_ledger _ _ _ _ (proj1 (proj2 Hs))) mid st Ec) as (m' & Hgm & _ & Hnd). simplify_eq.
        rewrite Hua in Hset by done. by rewrite Hnd in Hset.
      * intros x e2 (_ & _ & Hu). by apply (Hu Hrel m).
  - apply wp_eta. eapply (st_answer _ _ _ _ _ 0x70); [exact Hw1 | done.. |]. intros e2 Hw2. apply wp_ret.
    eapply (sound_follows mid _ e _ _ _ _ [Pubcomp false]); [eapply sound_went; [exact Hs1 | exact Hw2 | apply Hs | done] | | by repeat constructor].
    unfold phase_of. fold t i. by rewrite (phase_Absent t i).
Qed.

Lemma handoff_follows e : IInv e → phase_of e mid ≠ Foreign →
  wp (in_modify release_pending_acks) (λ _ e', follows mid Handoff e e') (λ _ _, False) e.
Proof.
  intros HI Hp. pose proof (release_pending_inv_in config e HI) as Hw. unfold wp in *. simpl in *. split; [done |].
  exists [], []. split_and!; [| by rewrite app_nil_r | constructor].
  assert (phase_of (set_inbound (release_pending_acks (inbound e)) e) mid = phase_of e mid) as ->.
  { unfold phase_of. simpl. unfold release_pending_acks, phase_in. by destruct (bool_decide _). }
  by destruct (phase_of e mid).
Qed.

(** ** Any sequence of events *)

Definition is_publish (ev : event) : Prop := match ev with Publish _ _ _ _ _ _ => True | _ => False end.

Lemma event_follows ev e : IInv e → phase_of e mid ≠ Foreign → event_ok mid ev →
  wp (on_event mid ev) (λ _ e', follows mid ev e e') (λ _ _, is_publish ev) e.
Proof.
  intros HI Hp Hok. destruct ev; cbn [on_event is_publish].
  - by apply publish_follows.
  - eapply wp_mono; [by apply mark_follows | done | done].
  - eapply wp_mono; [by apply pubrel_follows | done | done].
  - eapply wp_mono; [by apply handoff_follows | done | done].
Qed.

Lemma step_foreign p ev q outs : exchange_step p ev = Some (q, outs) → q ≠ Foreign.
Proof using. destruct ev, p as [| [] | |]; simpl; intros; by simplify_eq. Qed.

Definition trace_shown evs e e' : Prop := ∃ outs fx,
  exchange_trace (phase_of e mid) evs = Some (phase_of e' mid, outs) ∧ _effects e' = _effects e ++ fx ∧
  Forall2 (shows mid) outs fx ∧
  (deliveries outs + is_open (phase_of e mid) = retirements outs + is_open (phase_of e' mid))%nat.

Lemma events_follow evs : ∀ e, IInv e → phase_of e mid ≠ Foreign → Forall (event_ok mid) evs →
  wp (on_events mid evs) (λ _ e', trace_shown evs e e') (λ _ _, Exists is_publish evs) e.
Proof.
  induction evs as [| ev evs IH]; intros e HI Hp Hok; cbn [on_events].
  { apply wp_ret. exists [], []. split_and!; [done | by rewrite app_nil_r | constructor | done]. }
  apply Forall_cons in Hok as [Hev Hok]. eapply wp_then; [by apply event_follows | | by constructor].
  intros [] e1 (HI1 & out & fx & Hst & Hfx & Hsh).
  eapply wp_mono; [apply IH; [done | by eapply step_foreign | done] | | by constructor].
  intros [] e2 (outs & fx' & Htr & Hfx' & Hsh' & _).
  assert (exchange_trace (phase_of e mid) (ev :: evs) = Some (phase_of e2 mid, out ++ outs)) as Htrace.
  { simpl. rewrite Hst. simpl. by rewrite Htr. }
  exists (out ++ outs), (fx ++ fx'). split_and!; [done | by rewrite Hfx', Hfx, app_assoc | by apply Forall2_app |].
  by eapply trace_balance.
Qed.
End theorems.

(** ** Manual acknowledgement *)

Section manual.
Context {S : Type} `{L : InStoreLaws S} (config : EngineConfig).
Implicit Types (e : Engine S).

Lemma ack_qos1_spec mid message m e :
  IInv config e → manual_ack config = true → dget mid (itable e) = Some m → i_state m = In.WAIT_PUBACK →
  wp (Inbound.ack config mid message)
    (λ _ e', ∃ acked,
      dkeys (filter is_qos1 (itable e)) = acked ++ dkeys (filter is_qos1 (itable e')) ∧
      dkeys (itable e') = filter (λ k, k ∉ acked) (dkeys (itable e)) ∧
      _effects e' = _effects e ++ ((λ k, Effect.SEND_ACK (ack_wire 0x40 k)) <$> acked) ∧
      Forall (λ k, (k = mid ∨ k ∈ Inb._pending_manual_qos1_acks (inbound e)) ∧
        k ∈ Inb._current_persisted_mids (inbound e)) acked ∧
      ∀ k rest, dkeys (filter is_qos1 (itable e')) = k :: rest →
        ¬ (k ∈ Inb._pending_manual_qos1_acks (inbound e') ∧ k ∈ Inb._current_persisted_mids (inbound e')))
    (λ _ e', InBooks true reliable (itable e') (inbound e')) e.
Proof.
  intros HI Hman Hg Hst. pose proof (sound_start _ _ HI) as Hs. set (t := itable e) in *. set (i := inbound e) in *.
  assert (∀ x e', IInv config e' → (λ _ e', InBooks true reliable (itable e') (inbound e')) (x : exn) e') as HR.
  { intros x e' HI'. rewrite <- Hman. apply HI'. }
  unfold Inbound.ack. eapply st_inbound; [apply Hs |]. rewrite Hman. cbn [negb].
  apply wp_if; intros _; [apply wp_raise; by apply (HR ProtocolError) |].
  eapply st_lookup; [apply Hs | apply HI | | intros x e' Hw _ _; apply (HR x); eapply went_inv; [exact Hw | apply Hs..]].
  intros e1 Hw1. assert (sound_at config e t i [] e1) as Hs1 by (eapply sound_went; [exact Hs | exact Hw1 | apply Hs | done]).
  rewrite Hg. cbn [fmap option_fmap option_map Memory.meta_of im_state]. rewrite Hst.
  apply wp_lift_bind; [intros w _ | intros x; apply (HR x); by eapply sound_inv].
  assert (wp (_check_outbound_size (Contiguous w)) (λ _ e', e' = e1) (λ _ e', e' = e1) e1) as Hsz.
  { unfold _check_outbound_size. apply wp_bind, wp_gets. destruct (n_maximum_packet_size _); [| done]. by apply wp_if. }
  eapply wp_then; [exact Hsz | | intros x ? ->; apply (HR x); by eapply sound_inv]. intros [] ? ->.
  apply wp_bind. eapply st_modify; [exact Hw1 |]. intros e2 Hw2.
  set (i2 := Inb.set_manual_acks _ i) in Hw2.
  assert (sound_at config e t i2 [] e2) as Hs2.
  { eapply sound_went; [exact Hs1 | exact Hw2 | by eapply ready_books; [apply Hs | ..] | done]. }
  unfold _drain_manual_qos1_acks. eapply st_inbound; [exact Hw2 |].
  pose proof (lg_order _ _ _ (ib_ledger _ _ _ _ (proj1 (proj2 Hs)))) as Ho. fold t i in Ho.
  eapply wp_mono; [eapply drain_acks_spec; [exact Hs2 | exact Hman | reflexivity] | | intros x e' [HI' _]; by apply (HR x)].
  intros [] e3 (t' & i' & fx' & Hs3 & [(acked & Hord & -> & Ht' & Hall) Hstop]).
  destruct Hs3 as ([_ Et Ei _ Ex _] & [Hl _ _] & _). rewrite Et, Ei, Ex.
  pose proof (lg_order _ _ _ Hl) as Ho'. rewrite Hman in Ho'. rewrite Hman in Ho. exists acked. split_and!.
  - rewrite <- Ho', <- Ho. exact Hord.
  - exact Ht'.
  - done.
  - eapply Forall_impl; [exact Hall |]. simpl. intros k [Hk ?]. split; [set_solver | done].
  - intros k rest. rewrite <- Ho'. apply Hstop.
Qed.
End manual.

(** ** The redelivery loop *)

Section replay.
Context {S : Type} `{InStore S} (config : EngineConfig).
Implicit Types (e : Engine S).

Definition held_messages e : nat := match Inb._replay (inbound e) with Some c => length (Cursor.held c) | None => 0 end.

Lemma emit_keeps_replay m dup e : Inb._replay (inbound (_emit_message config m dup e).2) = Inb._replay (inbound e).
Proof.
  assert (∀ k e, Inb._replay (inbound (_exchange_token k e).2) = Inb._replay (inbound e)) as Ht.
  { intros k e0. unfold _exchange_token, fresh_exchange, new_token, mbind, M_bind, gets.
    by destruct (Inb._exchange_tokens (inbound e0) !! k). }
  unfold _emit_message, bind_if_manual, _bind_ack_token, mbind, M_bind. destruct (manual_ack config); simpl.
  - pose proof (Ht (i_mid m) e) as H1. destruct (_exchange_token (i_mid m) e) as [[tok | x] e1]; [| done]. simpl in *.
    pose proof (Ht (i_mid m) e1) as H2. destruct (_exchange_token (i_mid m) e1) as [[tok' | x] e2]; simpl in *; congruence.
  - pose proof (Ht (i_mid m) e) as H2. destruct (_exchange_token (i_mid m) e) as [[tok' | x] e2]; simpl in *; congruence.
Qed.

(** More fuel than messages held changes nothing. *)
Lemma replay_batch_enough n : ∀ k emitted bytes e, (held_messages e < n)%nat → (held_messages e < k)%nat →
  replay_batch config n emitted bytes e = replay_batch config k emitted bytes e.
Proof.
  induction n as [| n IH]; intros k emitted bytes e Hn Hk; [lia |]. destruct k as [| k]; [lia |]. cbn [replay_batch].
  destruct (_ && _); [| done]. unfold mbind, M_bind, gets. unfold held_messages in Hn, Hk.
  destruct (Inb._replay (inbound e)) as [c |] eqn:Hc; [| done].
  destruct (Cursor.next_page_message c) as [[l |] c'] eqn:Hm; [| done].
  pose proof (next_fewer c l) as Hl. rewrite Hm in Hl. specialize (Hl eq_refl). simpl in Hl.
  unfold set_cursor, in_modify, modify, deref_in, mbind, M_bind, gets. simpl.
  destruct (ih (heap e) !! l) as [m |]; [| done]. unfold mret, M_ret.
  destruct (negb _); [apply IH; unfold held_messages; simpl; lia |].
  destruct (_ && _); [done |]. set (e1 := set_inbound _ e).
  pose proof (emit_keeps_replay m true e1) as He. destruct (_emit_message config m true e1) as [[[] | x] e2]; [| done].
  apply IH; unfold held_messages; simpl in He; rewrite He; simpl; lia.
Qed.
End replay.

(** ** The properties *)

Section properties.
Context {S : Type} `{L : InStoreLaws S} (config : EngineConfig) (pop : gset Z → Z).
Implicit Types (e : Engine S).

Abbreviation engine_reachable := (engine_reachable config pop).

(** C2: QoS 2 publications are received exactly once.  With automatic
    acknowledgement and a store that does not fail, from any reachable state
    and for any sequence of PUBLISH packets, retransmitted or not, PUBRELs,
    delivery marks and handoffs of one packet identifier, the client runs the
    abstract exchange: each PUBLISH is answered by a PUBREC, its message is
    delivered only when it opens an exchange, and PUBCOMP retires the exchange
    only once the broker released it and the application owns the message; so
    every exchange delivers once.  Only a PUBLISH can be refused. *)
Theorem qos2_exactly_once mid evs e :
  (∀ s, s ≠ ∅ → pop s ∈ s) → EngineConfig_check config = Ok tt → engine_reachable e → reliable →
  manual_ack config = false → 1 ≤ mid ≤ 65535 → phase_of e mid ≠ Foreign → Forall (event_ok config mid) evs →
  match on_events config mid evs e with
  | (Ok _, e') => ∃ outs fx,
      exchange_trace (phase_of e mid) evs = Some (phase_of e' mid, outs) ∧ _effects e' = _effects e ++ fx ∧
      Forall2 (shows mid) outs fx ∧
      (deliveries outs + is_open (phase_of e mid) = retirements outs + is_open (phase_of e' mid))%nat
  | (Raise _, _) => Exists is_publish evs
  end.
Proof.
  intros Hpop Hc Hr Hrel Hauto Hmid Hp Hok. destruct (engine_inv config pop e Hpop Hc Hr) as [_ HI].
  pose proof (events_follow config mid Hmid Hauto Hrel evs e HI Hp Hok) as Hw. unfold wp in Hw.
  by destruct (on_events config mid evs e) as [[[] | x] e'].
Qed.

(** C9: manual acknowledgements leave in arrival order.  Acknowledging a QoS 1
    message in any reachable state sends PUBACKs for the longest prefix of the
    unacknowledged messages, in the order they arrived, of which each has been
    acknowledged by the application and received on this connection; their
    rows are deleted and the others stay. *)
Theorem manual_acks_in_order mid message m e :
  (∀ s, s ≠ ∅ → pop s ∈ s) → EngineConfig_check config = Ok tt → engine_reachable e → manual_ack config = true →
  dget mid (itable e) = Some m → i_state m = In.WAIT_PUBACK →
  match Inbound.ack config mid message e with
  | (Ok _, e') => ∃ acked,
      dkeys (filter is_qos1 (itable e)) = acked ++ dkeys (filter is_qos1 (itable e')) ∧
      dkeys (itable e') = filter (λ k, k ∉ acked) (dkeys (itable e)) ∧
      _effects e' = _effects e ++ ((λ k, Effect.SEND_ACK (ack_wire 0x40 k)) <$> acked) ∧
      Forall (λ k, (k = mid ∨ k ∈ Inb._pending_manual_qos1_acks (inbound e)) ∧
        k ∈ Inb._current_persisted_mids (inbound e)) acked ∧
      ∀ k rest, dkeys (filter is_qos1 (itable e')) = k :: rest →
        ¬ (k ∈ Inb._pending_manual_qos1_acks (inbound e') ∧ k ∈ Inb._current_persisted_mids (inbound e'))
  | (Raise x, e') => InBooks true reliable (itable e') (inbound e')
  end.
Proof.
  intros Hpop Hc Hr Hman Hg Hst. destruct (engine_inv config pop e Hpop Hc Hr) as [_ HI].
  pose proof (ack_qos1_spec config mid message m e HI Hman Hg Hst) as Hw. unfold wp in Hw.
  by destruct (Inbound.ack config mid message e) as [[[] | x] e'].
Qed.

End properties.

(** ** Concrete runs *)

Definition pubrel9 : RawPacket := Build_RawPacket PUBREL 2 [0; 9].
Definition publish9 (dup : bool) : event := Publish (lit "t") [1; 2] false dup None None.
Definition qos2_run : list event :=
  [publish9 false; publish9 true; Pubrel pubrel9; Pubrel pubrel9; Mark; Pubrel pubrel9; Handoff; publish9 false].

Lemma qos2_exactly_once_witness :
  exchange_trace Absent qos2_run = Some (Held false,
    [Pubrec; Deliver (lit "t") [1; 2]; Pubrec; Pubcomp true; Pubcomp false; Pubrec; Deliver (lit "t") [1; 2]]) ∧
  is_ok (on_events sample_config 9 qos2_run engine_connected).1 = true ∧
  match on_events sample_config 9 qos2_run engine_connected with
  | (Ok _, e') => ∃ outs fx,
      exchange_trace (phase_of engine_connected 9) qos2_run = Some (phase_of e' 9, outs) ∧
      _effects e' = _effects engine_connected ++ fx ∧ Forall2 (shows 9) outs fx ∧
      (deliveries outs + is_open (phase_of engine_connected 9) = retirements outs + is_open (phase_of e' 9))%nat
  | (Raise _, _) => Exists is_publish qos2_run
  end.
Proof.
  split; [reflexivity |]. split; [by vm_compute |].
  apply (qos2_exactly_once sample_config pop_first 9 qos2_run engine_connected pop_first_in sample_checked
    engine_connected_reachable); [exact I | done | lia | by vm_compute |].
  repeat (apply Forall_cons; split; [first [exact I | by intros w | by exists 0] |]). by apply Forall_nil.
Defined.

(** The same client with manual acknowledgement, two messages received, and the
    second acknowledged first. *)
Definition manual_config : EngineConfig :=
  Build_EngineConfig (lit "c") MQTTv5 true 60 None None 65535 None None (Some 10) (Some 1000) None None None None 0 true false.
Definition manual_started : Engine Memory.MemoryInflightStore :=
  (ProtocolEngine_init manual_config sample_heap sample_store).2.
Definition qos1_publish (mid : Z) : RawPacket := Build_RawPacket PUBLISH 2 [0; 1; 116; 0; mid; 0; 1].
Definition manual_engine : Engine Memory.MemoryInflightStore :=
  run_all manual_config pop_first
    [EConnect; EPacket connack_new; EPacket (qos1_publish 7); EPacket (qos1_publish 8); EAck 8 None; ETake] manual_started.

Lemma manual_checked : EngineConfig_check manual_config = Ok tt.
Proof. by vm_compute. Qed.

Lemma manual_engine_reachable : engine_reachable manual_config pop_first manual_engine.
Proof.
  apply reachable_all; [exact I | | by vm_compute |].
  - repeat (apply Forall_cons; split; [try exact I; by repeat constructor |]). by apply Forall_nil.
  - eapply (eng_start _ _ sample_heap sample_store); [exact sample_ok | exact sample_in_ok | exact sample_mids | | by vm_compute].
    by intros mid ?%not_elem_of_nil.
Qed.

Lemma manual_acks_in_order_witness :
  ∃ m, dget 7 (itable manual_engine) = Some m ∧
  _effects (Inbound.ack manual_config 7 None manual_engine).2 =
    [Effect.SEND_ACK (ack_wire 0x40 7); Effect.SEND_ACK (ack_wire 0x40 8)] ∧
  match Inbound.ack manual_config 7 None manual_engine with
  | (Ok _, e') => ∃ acked,
      dkeys (filter is_qos1 (itable manual_engine)) = acked ++ dkeys (filter is_qos1 (itable e')) ∧
      dkeys (itable e') = filter (λ k, k ∉ acked) (dkeys (itable manual_engine)) ∧
      _effects e' = _effects manual_engine ++ ((λ k, Effect.SEND_ACK (ack_wire 0x40 k)) <$> acked) ∧
      Forall (λ k, (k = 7 ∨ k ∈ Inb._pending_manual_qos1_acks (inbound manual_engine)) ∧
        k ∈ Inb._current_persisted_mids (inbound manual_engine)) acked ∧
      ∀ k rest, dkeys (filter is_qos1 (itable e')) = k :: rest →
        ¬ (k ∈ Inb._pending_manual_qos1_acks (inbound e') ∧ k ∈ Inb._current_persisted_mids (inbound e'))
  | (Raise x, e') => InBooks true reliable (itable e') (inbound e')
  end.
Proof.
  eexists. split; [vm_compute; reflexivity |]. split; [by vm_compute |].
  eapply (manual_acks_in_order manual_config pop_first 7 None _ manual_engine pop_first_in manual_checked manual_engine_reachable);
    [done | vm_compute; reflexivity | reflexivity].
Defined.

(** Redelivery in progress: a restarted client whose store holds two messages. *)
Definition replay_heap : Heap :=
  mkHeap [] [mkIn 4 (lit "t") [1] EXACTLY_ONCE false In.WAIT_PUBREL false None false 2;
             mkIn 6 (lit "u") [2] EXACTLY_ONCE false In.WAIT_PUBREL false None false 2].
Definition replay_store : Memory.MemoryInflightStore := Memory.mkStore [] [(4, 0%nat); (6, 1%nat)].
Definition replay_engine : Engine Memory.MemoryInflightStore :=
  (set_cursor (Inb.mkCursor GDone (Some [0%nat; 1%nat]) None 0) (engine_new sample_config replay_heap replay_store)).2.

