(* ===== verification/Faults.v ===== *)
(** * What a failing store leaves behind

    Concrete runs in which one store call raises and the session is left in a
    state its later operations do not expect.  They mark where the hypotheses
    [reliable] of the invariants come from. *)

From S2P Require Import Prelude Vbi PyStr Primitives Enums Properties Topics Frame Ack Publish Handshake.
From S2P Require Import Subscription Types Buffer PacketIds Settings Store StoreIn EngineState Outbound Inbound Engine Wp.
From S2P Require Import OutboundInv InboundInv OutboundTheorems EngineInv EngineTheorems.

(** The identifiers of the queue. *)
Definition queue_mids {S} (e : Engine S) : list Z := (λ q, s_mid (q_summary (heap e) q)) <$> _queued (outbound e).
(** A run of which only the result and the state after it matter. *)
Definition store_failed {A S} (r : res A * Engine S) : bool := match r.1 with Raise StoreError => true | _ => false end.

(** ** [seal]: an identifier sealed before the failure stays queued *)

Definition seal_run : res unit * Engine (Memory.MemoryInflightStore * list bool) :=
  seal [5; 3] (failing [false; true]).

Lemma seal_interrupted :
  store_failed seal_run = true ∧ _sealed (outbound seal_run.2) = [(5, false)] ∧ queue_mids seal_run.2 = [5].
Proof. split_and!; by vm_compute. Qed.

(** The next drain sends the publication whose receipt has failed, although its
    reservation has been given back. *)
Lemma sealed_publication_sent :
  ∃ wire, _effects (drain sample_config seal_run.2).2 = [Effect.SEND wire] ∧
    item_bytes wire = [50; 8; 0; 1; 116; 0; 5; 0; 1; 2].
Proof. eexists. split; [vm_compute; reflexivity | by vm_compute]. Qed.

(** ** [purge_after_clean_session]: a seal is forgotten before its row is deleted *)

(** Publication 3 is in flight and sealed; its row cannot be deleted. *)
Definition purge_run : res unit * Engine (Memory.MemoryInflightStore * list bool) :=
  (seal [3];; purge_after_clean_session false) (failing [false; false; false; true]).

Lemma purge_forgets_seal :
  store_failed purge_run = true ∧ _sealed (outbound purge_run.2) = [] ∧
  dkeys (table purge_run.2) = [5; 3] ∧ _pending_messages (outbound purge_run.2) = 1.
Proof. split_and!; by vm_compute. Qed.

(** ** [fail_queued_violating_negotiation]: the entries already kept are lost *)

Definition kept_heap : Heap :=
  mkHeap [stored 5 QUEUED; mkOut 6 (lit "t") [1; 2] AT_LEAST_ONCE true QUEUED false None None None 3] [].
Definition kept_store : Memory.MemoryInflightStore := Memory.mkStore [(5, 0%nat); (6, 1%nat)] [].

(** A broker that does not retain refuses publication 6 and accepts 5. *)
Definition no_retain : NegotiatedSettings :=
  match _from_connack (Some [("retain_available"%string, VInt 0)]) None with Ok n => n | Raise _ => NegotiatedSettings_default end.
Definition kept_start : Engine (Memory.MemoryInflightStore * list bool) :=
  (hydrate (mkEngine CONNECTED no_retain [] [] (OutboundSession_init sample_config) Inb.blank sample_conn
     kept_heap (kept_store, [false; false; true]))).2.

Lemma kept_entries_lost :
  let r := fail_queued_violating_negotiation sample_config kept_start in
  queue_mids kept_start = [5; 6] ∧ store_failed r = true ∧ queue_mids r.2 = [6] ∧ dkeys (table r.2) = [5; 6].
Proof. cbv zeta. split_and!; by vm_compute. Qed.

(** ** A completion retried by a resend takes a second Receive Maximum slot *)

(** A QoS 1 row of an earlier process, received again; its delivery mark cannot
    complete it, and the broker resends the PUBLISH after a second mark. *)
Definition slot_heap : Heap := mkHeap [] [mkIn 7 (lit "t") [1] AT_LEAST_ONCE false In.WAIT_PUBACK false None false 2].
Definition slot_store : Memory.MemoryInflightStore := Memory.mkStore [] [(7, 0%nat)].
Definition slot_start (faults : list bool) : Engine (Memory.MemoryInflightStore * list bool) :=
  (ProtocolEngine_init sample_config slot_heap (slot_store, faults)).2.
Definition resend : RawPacket := Build_RawPacket PUBLISH 10 [0; 1; 116; 0; 7; 0; 1].

Definition slot_run (faults : list bool) : res unit * Engine (Memory.MemoryInflightStore * list bool) :=
  (modify (set_state CONNECTED);; Inbound.start_connection 10 0;;
   handle_raw sample_config resend;;
   try_except (mark_delivered 7 None) (λ _, mret tt);;
   mark_delivered 7 None;;
   handle_raw sample_config resend;; mret tt) (slot_start faults).

(** Without a fault the exchange is over; with one its slot is counted twice and
    the second count outlives the acknowledgement. *)
Lemma slot_counted_twice :
  let good := (slot_run []).2 in
  let bad := (slot_run (replicate 5 false ++ [true])).2 in
  (_inflight (inbound good), _inflight (inbound (take_effects good).2)) = (1, 0) ∧
  (_inflight (inbound bad), _inflight (inbound (take_effects bad).2)) = (2, 1) ∧ itable bad = [].
Proof. cbv zeta. split_and!; by vm_compute. Qed.
