(* ===== verification/SqliteRestart.v ===== *)
(** * What the file keeps

    A publication stored on a quiet file is read back whole; the constructor
    accepts the files the store writes and finds their rows; an engine built on
    them has the books of the one that stopped. *)

From S2P Require Import Prelude PyStr Primitives Enums Properties Types Publish Handshake PacketIds Settings Store StoreIn EngineState Engine.
From S2P Require Import Wp Accounting InboundBooks OutboundInv OutboundTheorems InboundInv EngineInv EngineTheorems.
From S2P Require Import Json Sqlite SqliteLaws SqliteOut SqliteIn.

(** ** Opening the file again *)

(** A file of this format. *)
Definition of_schema (d : Db) : Prop :=
  user_version d = SQLITE_SCHEMA_VERSION ∧ sqlite_master d = [outbound_object; inbound_object].

Lemma ascending_max {R} (seq : R → sqlval) t : ∀ lo top, ascending seq lo top t → -1 ≤ lo →
  foldr sql_max SNull (seq ∘ snd <$> t) = SNull ∧ t = [] ∨
  ∃ n, foldr sql_max SNull (seq ∘ snd <$> t) = SInt n ∧ lo < n ∧ ascending seq lo n t.
Proof.
  induction t as [| [k r] t IH]; intros lo top; [by left |]. intros (m & Hm & Hr & Ha) Hlo. right.
  cbn [fmap list_fmap foldr compose fst snd]. rewrite Hm. destruct (IH m top Ha) as [[E ->] | (n & E & Hn & Hn')]; [lia | |].
  - cbn. exists m. split_and!; [done | lia |]. exists m. split_and!; try done; lia.
  - rewrite E. cbn. exists n. split_and!; [f_equal; lia | lia |]. exists m. split_and!; try done; lia.
Qed.

Lemma max_seq_ascending {R} (seq : R → sqlval) t top : ascending seq (-1) top t →
  ∃ n, max_seq (seq ∘ snd <$> t) = SInt n ∧ 0 ≤ n ∧ ascending seq (-1) n t.
Proof.
  intros Ha. destruct (ascending_max seq t (-1) top Ha) as [[E ->] | (n & E & Hn & Hn')]; [lia | |]; unfold max_seq; rewrite E.
  - by exists 0.
  - exists n. split_and!; [done | lia | done].
Qed.

Section opening.
Context (d : Db).
Implicit Types (s : Sq).

(** Steps of the constructor that change nothing. *)
Definition steady {A} (m : act A) (P : A → Prop) : Prop := ∀ s, at_db 0 d d s → _closed s = false →
  awp m (λ a s', at_db 0 d d s' ∧ seqs s' = seqs s ∧ _closed s' = false ∧ P a) (λ _ s', at_db 0 d d s' ∧ _closed s' = false) s.

Lemma steady_bind {A B} (m : act A) (k : A → act B) P Q : steady m P → (∀ a, P a → steady (k a) Q) → steady (m ≫= k) Q.
Proof using.
  intros Hm Hk s Hs Hc. apply awp_bind. eapply awp_mono; [by apply Hm | | done]. intros a s1 (Hs1 & E1 & Hc1 & HP).
  eapply awp_mono; [by apply (Hk a HP) | | done]. intros b s2 (? & ? & ? & ?). split_and!; [done | congruence | done | done].
Qed.
Lemma steady_ret {A} (a : A) P : P a → steady (mret a) P.
Proof using. intros HP s Hs Hc. done. Qed.

Lemma steady_conn {A} (f : Conn → res A * Conn) P :
  (∀ s, at_db 0 d d s → awp (conn_do f) (λ a s', at_db 0 d d s' ∧ seqs s' = seqs s ∧ P a) (λ _ s', at_db 0 d d s') s) →
  steady (conn_do f) P.
Proof using.
  intros Hf s Hs Hc. pose proof (Hf s Hs) as H. unfold awp, conn_do in *. destruct (f (_conn s)) as [[a | x] c]; naive_solver.
Qed.
Lemma steady_select {A} (q : Db → A) : steady (conn_do (conn_select q)) (λ a, a = q d).
Proof using. apply steady_conn. intros s Hs. by eapply (awp_query _ _ _ []); [exact Hs | |]. Qed.
Lemma steady_begin : steady (conn_do conn_begin) (λ _, True).
Proof using.
  apply steady_conn. intros s Hs. apply awp_conn. intros r c H. unfold conn_begin in H. set (g := λ c, _) in H.
  destruct (conn_call_inv id g (_conn s) (at_world _ _ _ _ Hs)) as [[E _] | (w & Hw & _ & [E | E])]; rewrite E in H.
  - injection H as <- <-. eapply at_set_conn; try done; apply Hs.
  - injection H as <- <-. eapply at_set_conn; try done; apply Hs.
  - unfold g in H. simpl in H. pose proof (at_now _ _ _ _ Hs) as Hn. unfold D, db in Hn.
    destruct (tx (_conn s)) as [t |] eqn:Et; injection H as <- <-.
    + eapply at_set_conn; try done.
    + split_and!; try done. split; simpl; [done | done | apply Hs | apply Hs].
Qed.
Lemma steady_rollback {A} (m : act A) P : steady m P → steady (then_rollback m) P.
Proof using.
  intros Hm s Hs Hc. pose proof (Hm s Hs Hc) as H. unfold awp, then_rollback in *.
  assert (Hr : ∀ s1, at_db 0 d d s1 → _closed s1 = false → let s2 := (conn_do conn_rollback s1).2 in
    at_db 0 d d s2 ∧ seqs s2 = seqs s1 ∧ _closed s2 = false).
  { intros s1 Hs1 Hc1. unfold conn_do, conn_rollback. destruct (tx (_conn s1)) as [t |] eqn:Et.
    - destruct (conn_call_inv id (λ c, (Ok tt, set_tx None c)) (_conn s1) (at_world _ _ _ _ Hs1))
        as [[-> _] | (w & Hw & _ & [-> | ->])]; simpl; (split; [| done]).
      + eapply at_set_conn; try done; apply Hs1.
      + eapply at_set_conn; try done; apply Hs1.
      + split; [done | apply (at_disk _ _ _ _ Hs1 eq_refl) | apply Hs1 | apply Hs1].
    - assert (set_conn (_conn s1) s1 = s1) as E by (by destruct s1).
      destruct (conn_closed (_conn s1)); simpl; by rewrite E. }
  destruct (m s) as [[a | x] s1].
  - destruct H as (Hs1 & E1 & Hc1 & HP). destruct (Hr s1 Hs1 Hc1) as (Hs2 & E2 & Hc2).
    destruct (conn_do conn_rollback s1) as [[[] | y] s2]; cbn [snd] in *; [| done]. split_and!; [done | congruence | done | done].
  - destruct H as (Hs1 & Hc1). destruct (Hr s1 Hs1 Hc1) as (Hs2 & E2 & Hc2).
    by destruct (conn_do conn_rollback s1) as [[[] | y] s2].
Qed.

Lemma steady_validate : of_schema d → steady _validate_schema (λ b, b = false).
Proof using.
  intros [Hv Hm]. unfold _validate_schema.
  eapply steady_bind; [apply steady_select |]. intros version ->.
  eapply steady_bind; [apply steady_select |]. intros tables ->. rewrite Hv, Hm. cbn [Z.eqb SQLITE_SCHEMA_VERSION andb negb].
  set (names := ob_name <$> filter _ _). assert (names = ["outbound"%string; "inbound"%string]) as -> by (vm_compute; reflexivity).
  rewrite bool_decide_true by set_solver. cbn [negb].
  eapply steady_bind; [apply steady_select |]. intros columns ->.
  assert (table_info "outbound" d = REQUIRED_OUTBOUND) as -> by (unfold table_info; rewrite Hm; vm_compute; reflexivity).
  rewrite bool_decide_true by done. cbn [negb].
  eapply steady_bind; [apply steady_select |]. intros columns ->.
  assert (table_info "inbound" d = REQUIRED_INBOUND) as -> by (unfold table_info; rewrite Hm; vm_compute; reflexivity).
  rewrite bool_decide_true by done. cbn [negb].
  eapply steady_bind; [apply steady_select |]. intros objects ->. rewrite Hm.
  set (c := _ || _). assert (c = false) as -> by (vm_compute; reflexivity). by apply steady_ret.
Qed.

Lemma steady_prepare : of_schema d → steady _prepare_schema (λ _, True).
Proof using.
  intros Hd. unfold _prepare_schema. eapply steady_bind; [apply steady_begin |]. intros _ _.
  eapply steady_bind; [apply steady_rollback, steady_validate, Hd |]. intros empty ->.
  eapply steady_bind; [apply steady_select |]. intros _ _. eapply steady_bind; [apply steady_select |]. intros _ _.
  by apply steady_ret.
Qed.

Lemma steady_max {R} (table : Db → list (Z * R)) (seq : R → sqlval) top : ascending seq (-1) top (table d) →
  steady (_max_seq table seq) (λ n, 0 ≤ n ∧ ascending seq (-1) n (table d)).
Proof using.
  intros Ha. destruct (max_seq_ascending seq (table d) top Ha) as (n & E & Hn & Ha'). unfold _max_seq.
  eapply steady_bind; [apply steady_select |]. intros v ->. rewrite E. intros s Hs Hc. apply awp_lift.
  - intros k Hk. split_and!; try done; unfold _stored_non_negative in Hk; cbn [_stored_int rbind] in Hk;
      rewrite (proj2 (Z.ltb_ge n 0)) in Hk by lia; by injection Hk as <-.
  - done.
Qed.
End opening.

(** The constructor on a file that holds the tables of [s]. *)
Lemma reopen_keeps h s w r c :
  out_store_ok h s → in_store_ok h s → _batch_depth s = 0 → of_schema (disk (_conn s)) → Forall honest w →
  SqliteInflightStore_init (mkConn (disk (_conn s)) None w false) = (r, c) →
  match r with
  | Ok s' => (∀ h', Forall sane (oh h') → out_store_ok h' s' ∧ in_store_ok h' s') ∧
      out_rows (D s') = out_rows (D s) ∧ in_rows (D s') = in_rows (D s)
  | Raise _ => disk c = disk (_conn s) ∧ conn_closed c = true
  end.
Proof.
  intros (Hs & _ & Ho) (_ & Hi) Hz Hsch Hw H. assert (disk (_conn s) = D s) as E0.
  { unfold SqliteLaws.settled in Hs. rewrite Hz in Hs. by apply (at_disk _ _ _ _ Hs). }
  rewrite E0 in *. set (d := D s) in *. unfold SqliteInflightStore_init in H. set (s0 := mkSqlite _ _ _ _ _ _ _) in H.
  set (body := mbind _ _) in H.
  assert (awp body (λ _ s', at_db 0 d d s' ∧ out_ok (_out_seq s') d ∧ in_rows_ok (_in_seq s') d)
    (λ _ s', at_db 0 d d s' ∧ _closed s' = false) s0) as Hbody.
  { assert (at_db 0 d d s0) as Hs0 by by split.
    unfold body. apply awp_bind. eapply awp_mono; [by apply (steady_prepare d Hsch) | | done].
    intros [] s1 (Hs1 & _ & Hc1 & _). apply awp_bind.
    eapply awp_mono; [apply (steady_max d outbound_t ro_seq _ (oo_asc _ _ Ho)); done | | done].
    intros n s2 (Hs2 & _ & Hc2 & Hn & Ha). apply awp_bind. unfold awp at 1. cbn [act_set]. apply awp_bind.
    assert (at_db 0 d d (set_out_seq n s2)) as Hs3 by (destruct Hs2; by split).
    eapply awp_mono; [apply (steady_max d inbound_t ri_seq _ (io_asc _ _ Hi)); done | | done].
    intros k s4 (Hs4 & E4 & Hc4 & Hk & Ha'). unfold awp. cbn [act_set]. injection E4 as E4 _. split_and!.
    - destruct Hs4; by split.
    - cbn. rewrite E4. split; [apply Ho | done | done | apply Ho].
    - cbn. split; [apply Hi | done | done | apply Hi]. }
  unfold awp in Hbody. destruct (body s0) as [[[] | x] s1].
  - injection H as <- <-. destruct Hbody as (Hs1 & Ho1 & Hi1). rewrite (at_now _ _ _ _ Hs1).
    split; [| done]. intros h' Hh'. destruct (settled_out h' _ _ _ Hs1 Hh' Ho1) as [? _].
    by destruct (settled_in h' _ _ _ Hs1 Hi1) as [? _].
  - injection H as <- <-. destruct Hbody as [Hs1 Hc1]. rewrite Hc1. split; [by apply (at_disk _ _ _ _ Hs1) | done].
Qed.


(** ** A quiet world *)

(** Nobody else uses the file and nothing fails. *)
Record quiet (s : Sq) : Prop := {
  qt_world : world (_conn s) = [];
  qt_open : conn_closed (_conn s) = false;
  qt_depth : _batch_depth s = 0;
  qt_tx : tx (_conn s) = None }.

Lemma quiet_call {A} pre (f : Conn → res A * Conn) c : world c = [] → conn_closed c = false → conn_call pre f c = f (pre c).
Proof. intros Hw Ho. unfold conn_call, next_event. by rewrite Ho, Hw. Qed.

Lemma quiet_query {A} s args (q : Db → A) : quiet s → bind_all args = Ok tt →
  conn_do (conn_query args q) s = (Ok (q (D s)), s).
Proof.
  intros [Hw Ho _ _] Hb. unfold conn_do, conn_query. rewrite quiet_call by done. cbn [id]. rewrite Hb. cbn [rbind].
  f_equal. by destruct s.
Qed.

Lemma act_bind_eq {A B} (m : act A) (k : A → act B) s a s1 : m s = (Ok a, s1) → (m ≫= k) s = k a s1.
Proof. unfold mbind, act_bind. by intros ->. Qed.

(** A write out of a batch, on a file nobody else uses. *)
Lemma quiet_write {A} s args (f : Db → A * Db) : quiet s → bind_all args = Ok tt →
  ∃ s', (a ← conn_do (conn_dml args f); _commit_if_needed;; mret a) s = (Ok (f (D s)).1, s') ∧
    quiet s' ∧ D s' = (f (D s)).2 ∧ disk (_conn s') = (f (D s)).2 ∧ seqs s' = seqs s.
Proof.
  intros [Hw Ho Hd Ht] Hb. unfold mbind at 1, act_bind at 1. unfold conn_do at 1, conn_dml.
  rewrite quiet_call by done. unfold begin_implicit. rewrite Ht. cbn [set_tx]. rewrite Hb.
  assert (db (set_tx (Some (disk (_conn s))) (_conn s)) = D s) as -> by (unfold D, db; by rewrite Ht).
  destruct (f (D s)) as [a d']. unfold mbind, act_bind, _commit_if_needed, mbind, act_bind, act_get.
  cbn [_batch_depth set_conn id]. rewrite Hd. cbn [Z.eqb]. unfold _commit, conn_do, conn_commit. cbn [_conn set_conn set_tx tx].
  rewrite quiet_call by done. cbn. eexists. split; [done |]. by split_and!.
Qed.

(** A message whose parts SQLite can bind and the file format keeps. *)
Definition keepable (m : OutboundMessage) : Prop :=
  1 ≤ o_mid m ≤ 65535 ∧ 0 < o_logical_size m < 2 ^ 63 ∧ Forall clean (o_topic m) ∧
  match o_properties m with
  | Some ps => ps ≠ [] ∧ NoDup (dkeys ps) ∧ (∀ v, ps ≠ [("__mqttium_bytes__"%string, v)]) ∧ forallb (storable ∘ snd) ps = true
  | None => True
  end.

(** Everything JSON text holds is ASCII. *)
Lemma u_escape_clean n : Forall clean (u_escape n).
Proof.
  assert (∀ k, 0 ≤ k < 16 → clean (hex_digit k)) as Hd.
  { intros k Hk. unfold hex_digit, clean. case_if; bools; lia. }
  repeat (constructor; [first [by apply Hd, Z.mod_pos_bound | unfold clean; lia] |]). constructor.
Qed.
Lemma escape_clean c : Forall clean (escape c).
Proof.
  unfold escape. repeat case_if; bools; try apply Forall_app; auto using u_escape_clean;
    repeat (constructor; [unfold clean; lia |]); constructor.
Qed.
Lemma int_repr_clean z : Forall clean (int_repr z).
Proof.
  assert (∀ f n acc, Forall clean acc → Forall clean (dec_digits f n acc)) as Hd.
  { induction f as [| f IH]; intros n acc Ha; [done |]. cbn [dec_digits]. cbv zeta.
    assert (Forall clean (48 + n mod 10 :: acc)).
    { constructor; [| done]. pose proof (Z.mod_pos_bound n 10). unfold clean. lia. }
    case_if; auto. }
  unfold int_repr. apply Forall_app. split; [| by apply Hd]. case_if; [| constructor]. constructor; [unfold clean; lia | constructor].
Qed.
Lemma join_clean c l : clean c → Forall (Forall clean) l → Forall clean (join_chr c l).
Proof.
  intros Hc. induction 1 as [| s l Hs Hl IH]; [constructor |]. destruct l as [| t l]; [done |].
  change (join_chr c (s :: t :: l)) with (s ++ c :: join_chr c (t :: l)). apply Forall_app. split; [done |]. by constructor.
Qed.
Lemma dumps_str_clean s : Forall clean (dumps_str s).
Proof.
  assert (clean 34) by (unfold clean; lia). unfold dumps_str. constructor; [done |]. apply Forall_app. split; [| by constructor].
  apply Forall_bind, Forall_true. intros c. apply escape_clean.
Qed.
Lemma dumps_clean j : Forall clean (dumps j).
Proof.
  assert (∀ c, 0 ≤ c < 128 → clean c) as Hc by (intros c Hc; unfold clean; lia).
  induction j as [| z | | s | l IH | d IH] using json_strong_ind; cbn [dumps].
  - apply lit_clean.
  - apply int_repr_clean.
  - apply lit_clean.
  - apply dumps_str_clean.
  - constructor; [apply Hc; lia |]. apply Forall_app. split; [| constructor; [apply Hc; lia | constructor]].
    apply join_clean; [apply Hc; lia |]. by apply Forall_fmap.
  - constructor; [apply Hc; lia |]. apply Forall_app. split; [| constructor; [apply Hc; lia | constructor]].
    apply join_clean; [apply Hc; lia |]. apply Forall_fmap. eapply Forall_impl; [exact IH |]. intros [k v] Hv.
    change (Forall clean (dumps_str k ++ 58 :: dumps v)). apply Forall_app. split; [apply dumps_str_clean |]. constructor; [apply Hc; lia | done].
Qed.

Lemma bind_text s : Forall clean s → bindable (SText s) = Ok tt.
Proof.
  intros Hs. cbn. assert (forallb (λ c, bool_decide (clean c)) s = true) as ->; [| done].
  induction Hs as [| c s Hc Hs IH]; [done |]. cbn. by rewrite bool_decide_true, IH.
Qed.
Lemma bind_int n : - 2 ^ 63 ≤ n < 2 ^ 63 → bindable (SInt n) = Ok tt.
Proof. intros Hn. unfold bindable. rewrite (proj2 (Z.leb_le _ _)), (proj2 (Z.ltb_lt _ _)) by lia. done. Qed.

Lemma keepable_bind m n : keepable m → 0 ≤ n < 2 ^ 63 → bind_all (out_args (o_mid m) (out_params m n)) = Ok tt.
Proof.
  intros (Hm & Hs & Ht & Hp) Hn. unfold out_args, out_params. cbn [ro_seq ro_qos ro_retain ro_state ro_dup ro_logical_size
    ro_topic ro_properties ro_payload bind_all].
  rewrite (bind_int (o_mid m)), (bind_text (o_topic m)) by (done || lia). cbn [rbind].
  change (bindable (SBlob (o_payload m))) with (Ok tt). cbn [rbind].
  rewrite (bind_int (QoS_int (o_qos m))) by (destruct (o_qos m); cbn; lia). cbn [rbind].
  rewrite (bind_int (bool_int (o_retain m))) by (destruct (o_retain m); cbn; lia). cbn [rbind].
  rewrite (bind_int (Out_int (o_state m))) by (destruct (o_state m); cbn; lia). cbn [rbind].
  rewrite (bind_int (bool_int (o_dup m))) by (destruct (o_dup m); cbn; lia). cbn [rbind].
  assert (bindable (opt_text (_props_to_json (o_properties m))) = Ok tt) as ->.
  { destruct (o_properties m) as [[| e ps] |]; [done | | done]. apply bind_text, dumps_clean. }
  cbn [rbind]. rewrite (bind_int n), (bind_int (o_logical_size m)) by lia. done.
Qed.

(** What the store keeps of a message: all but the cached encodings. *)
Definition stored_form (m : OutboundMessage) : OutboundMessage :=
  mkOut (o_mid m) (o_topic m) (o_payload m) (o_qos m) (o_retain m) (o_state m) (o_dup m)
    (Properties_init <$> o_properties m) None None (o_logical_size m).

Lemma keepable_reads m n : keepable m → _row_to_out (o_mid m) (out_params m n) = Ok (stored_form m).
Proof.
  intros (Hm & Hs & _ & Hp). unfold _row_to_out, _stored_mid. rewrite (proj2 (Z.leb_le _ _)), (proj2 (Z.leb_le _ _)) by lia.
  cbn [out_params ro_topic ro_payload ro_qos ro_retain ro_state ro_dup ro_properties ro_logical_size andb negb
    _stored_str _stored_bytes _stored_int rbind].
  rewrite QoS_of_int, !stored_bool_int, Out_of_int, stored_opt_text. cbn [rbind].
  assert (_props_from_json (_props_to_json (o_properties m)) = Ok (Properties_init <$> o_properties m)) as ->.
  { destruct (o_properties m) as [ps |]; [| done]. destruct Hp as (? & ? & ? & ?). by apply json_kept. }
  cbn [rbind]. unfold _stored_logical_size. cbn [_stored_int rbind].
  rewrite (proj2 (Z.leb_gt _ _)) by lia. done.
Qed.

(** A publication is stored whole.  On a file nobody else uses, [put_out]
    of a message whose parts SQLite can hold succeeds at once, whatever was
    stored before; the record is committed, in the place of the one it replaces;
    and [get_out] then returns the message, topic, payload, flags, state and
    properties alike, through the columns, their types and the JSON text. *)
Theorem put_get_out m s :
  quiet s → keepable m → 0 ≤ _out_seq s < 2 ^ 63 - 1 → (∀ r, dget (o_mid m) (outbound_t (D s)) = Some r → enc_out (o_mid m) r) →
  ∃ s', put_out_message m s = (Ok tt, s') ∧ quiet s' ∧
    out_rows (disk (_conn s')) = dset (o_mid m) (o_row m) (out_rows (D s)) ∧
    get_out_message (o_mid m) s' = (Ok (Some (stored_form m)), s').
Proof.
  intros Hq Hm Hn Hr. pose proof Hq as [Hw Ho Hd Ht]. unfold put_out_message.
  rewrite (proj2 (Z.leb_gt _ _)) by (apply Hm). set (n := _out_seq s + 1).
  assert (quiet (set_out_seq n s)) as Hq1 by by split.
  destruct (quiet_write (set_out_seq n s) (out_args (o_mid m) (out_params m n)) (upsert_out (o_mid m) (out_params m n)) Hq1)
    as (s' & E & Hq' & ED & Ek & _); [apply keepable_bind; [done | lia] |].
  exists s'. split_and!.
  - rewrite (act_bind_eq _ _ s tt s) by (unfold _ensure_write_transaction; rewrite (act_bind_eq _ _ s s s) by done; by rewrite Hd).
    rewrite (act_bind_eq _ _ s tt (set_out_seq n s)), (act_bind_eq _ _ _ n (set_out_seq n s)) by done.
    revert E. unfold mbind, act_bind.
    destruct (conn_do _ (set_out_seq n s)) as [[[] | x] s1]; [| done]. destruct (_commit_if_needed s1) as [[[] | x] s2]; [| done].
    by intros [= <-].
  - done.
  - rewrite Ek. unfold upsert_out, out_rows. cbn [snd outbound_t with_outbound]. rewrite kmap_dset. f_equal.
    by destruct (dget (o_mid m) _) as [old |]; rewrite <- (out_view_params m n).
  - unfold get_out_message, get_out_row.
    rewrite (act_bind_eq _ _ s' (dget (o_mid m) (outbound_t (D s'))) s').
    2:{ apply (quiet_query s' _ (λ d, dget (o_mid m) (outbound_t d)) Hq'). cbn [bind_all]. rewrite bind_int; [done |]. destruct Hm. lia. }
    rewrite ED. unfold upsert_out. cbn [snd outbound_t with_outbound D set_out_seq]. rewrite dget_dset_eq.
    set (r := match dget (o_mid m) _ with Some _ => _ | None => _ end).
    assert (∃ k, r = out_params m k) as [k ->].
    { unfold r. change (D (set_out_seq n s)) with (D s). destruct (dget (o_mid m) (outbound_t (D s))) as [old |] eqn:Eg; [| by eexists].
      destruct (Hr _ eq_refl) as (m0 & k & _ & _ & _ & ->). by exists k. }
    by rewrite keepable_reads.
Qed.

(** ** Stores and engines that come back *)

Definition no_objects : Heap := mkHeap [] [].
Definition one_object : Heap := mkHeap [sample 7] [].

Lemma sane_sample mid : sane (sample mid).
Proof.
  intros ps v [= <-] Hin. exfalso. repeat (apply elem_of_cons in Hin as [[=] | Hin]). by apply elem_of_nil in Hin.
Qed.

Lemma empty_out n d : outbound_t d = [] → 0 ≤ n → out_ok n d.
Proof. intros E Hn. split; rewrite ?E; [apply NoDup_nil_2 | done..]. Qed.
Lemma empty_in n d : inbound_t d = [] → 0 ≤ n → in_rows_ok n d.
Proof. intros E Hn. split; rewrite ?E; [apply NoDup_nil_2 | done..]. Qed.

Lemma fresh_ok h : Forall sane (oh h) → out_store_ok h fresh ∧ in_store_ok h fresh.
Proof.
  intros Hh. assert (SqliteLaws.settled fresh) as Hs.
  { split; [vm_compute; constructor | reflexivity | reflexivity | intros _; vm_compute; reflexivity]. }
  assert (outbound_t (D fresh) = [] ∧ inbound_t (D fresh) = []) as [Eo Ei] by (split; vm_compute; reflexivity).
  assert (0 ≤ _out_seq fresh ∧ 0 ≤ _in_seq fresh) as [Ho Hi] by (split; vm_compute; congruence).
  split; (split; [exact Hs |]); [split; [exact Hh |] |].
  - apply empty_out; [exact Eo | exact Ho].
  - apply empty_in; [exact Ei | exact Hi].
Qed.

Lemma put_get_out_witness : ∃ s', put_out_message (sample 7) fresh = (Ok tt, s') ∧
  dkeys (out_rows (disk (_conn s'))) = [7] ∧ get_out_message 7 s' = (Ok (Some (sample 7)), s').
Proof.
  destruct (put_get_out (sample 7) fresh) as (s' & E & _ & Hr & Hg).
  - split; vm_compute; reflexivity.
  - split; [vm_compute; split; congruence |]. split; [vm_compute; split; congruence |]. split.
    + apply (bool_decide_unpack _). vm_compute. exact I.
    + split; [done |]. split; [apply (bool_decide_unpack _); vm_compute; exact I |]. split; [done | vm_compute; reflexivity].
  - vm_compute. split; congruence.
  - intros r. replace (dget (o_mid (sample 7)) (outbound_t (D fresh))) with (@None out_row) by (vm_compute; reflexivity). done.
  - exists s'. split; [exact E |]. split; [rewrite Hr; vm_compute; reflexivity |].
    assert (stored_form (sample 7) = sample 7) as Es by (vm_compute; reflexivity). rewrite Es in Hg. exact Hg.
Defined.

(** A store that has put one publication. *)
Definition one_stored : Sq := (put_out_message (sample 7) fresh).2.

Lemma one_stored_ok : out_store_ok one_object one_stored ∧ in_store_ok one_object one_stored.
Proof.
  assert (Forall sane (oh one_object)) as Hh by (constructor; [apply sane_sample | constructor]).
  destruct (fresh_ok one_object Hh) as [Ho Hi].
  assert (E : Store.put_out 0%nat (one_object, fresh) = (Ok tt, (one_object, one_stored))) by (vm_compute; reflexivity).
  split.
  - exact (proj1 (@put_law _ _ sqlite_out_laws one_object fresh 0%nat (sample 7) _ _ _ Ho eq_refl E)).
  - assert (Hc : out_call (one_object, fresh) (one_object, one_stored)).
    { pose proof (@oc_put _ _ 0%nat (one_object, fresh)) as Hc. rewrite E in Hc. exact Hc. }
    exact (proj1 (@out_keeps _ _ sqlite_out_laws _ sqlite_in_laws _ _ _ _ Hi Hc)).
Qed.

Lemma one_stored_schema : of_schema (disk (_conn one_stored)).
Proof. split; vm_compute; reflexivity. Qed.

Definition reopened : res Sq * Conn := SqliteInflightStore_init (mkConn (disk (_conn one_stored)) None [] false).



(** An engine over a new file that has taken two publications and a connection. *)
Definition run_all_sqlite : list engine_op → Engine Sq → Engine Sq := run_all sample_config pop_first.
Definition stored_start : Engine Sq := (ProtocolEngine_init sample_config no_objects fresh).2.
Definition stored_ops : list engine_op :=
  [EPublish (lit "a") [1] (QInt 1) false None; EPublish (lit "b") [1; 2] (QInt 2) false None; EConnect; ETake].
Definition stopped : Engine Sq := run_all_sqlite stored_ops stored_start.

Lemma stored_start_reachable : engine_reachable (S := Sq) sample_config pop_first stored_start.
Proof.
  destruct (fresh_ok no_objects) as [Ho Hi]; [constructor |].
  apply (@eng_start _ _ _ _ sqlite_in_laws sample_config pop_first no_objects fresh); [exact Ho | exact Hi | | |].
  - assert (dkeys (rows no_objects fresh) = []) as -> by (vm_compute; reflexivity). by intros mid ?%not_elem_of_nil.
  - assert (dkeys (irows no_objects fresh) = []) as -> by (vm_compute; reflexivity). by intros mid ?%not_elem_of_nil.
  - vm_compute. reflexivity.
Qed.

(** Requests whose runs are never set aside. *)
Definition plain (op : engine_op) : bool :=
  match op with
  | EPacket _ | ESeal _ => false
  | EPublish _ _ _ _ (Some ps) => bool_decide (NoDup (dkeys ps))
  | _ => true
  end.

Lemma run_reachable ops : ∀ e : Engine Sq, forallb plain ops = true →
  engine_reachable sample_config pop_first e → engine_reachable sample_config pop_first (run_all_sqlite ops e).
Proof.
  induction ops as [| op ops IH]; intros e Hops Hr; [exact Hr |]. cbn [forallb] in Hops. apply andb_true_iff in Hops as [Hop Hops].
  unfold run_all_sqlite. cbn [run_all]. apply IH; [exact Hops |].
  destruct (run_engine sample_config pop_first op e) as [r e'] eqn:E.
  assert (engine_op_ok op) as Hok by (destruct op as [| | ? ? ? ? [] | | | | | | | | | | | |]; cbn in *; by bools).
  eapply eng_step; [exact Hr | exact Hok | exact E |]. by destruct op.
Qed.

