(* ===== verification/WritePump.v ===== *)
(** * The write pump

    [api/_writer.py]: the bounded, ordered queue of outgoing frames, the writer
    task that empties it, and the producers that wait for its space.

    The event loop runs one task at a time and switches only where a coroutine
    awaits, so the code between two awaits is one atomic step, a function on the
    state below.  What the loop chooses (which task runs next) and what the
    transport answers come with the steps. *)

From S2P Require Import Prelude Types.

(** ** The state *)

(** What surrounds a call: the answer of the transport's [write_nowait], should it
    be asked; the clock; the running task and whether it is being cancelled.  A
    transport that raises may own any prefix of the bytes. *)
Inductive answer := Accepted | Declined | Failed (exposed : nat) (x : exn).
Record call := mkCall { asked : answer; now : Z; current : Z; cancelled : bool }.

(** [failure_for]: a [CancelledError] nobody asked for is a failure of the
    dependency that raised it. *)
Definition failure_for (x : exn) (owner_cancelled : bool) : exn :=
  match x with CancelledError => if owner_cancelled then x else DependencyCancelledError | _ => x end.

(** The fields about eager writes.  [write_nowait] is whether the transport of
    this connection offers one and the pump may still use it. *)
Record permits := mkPermits {
  _write_nowait : bool;
  _eager_armed : bool;
  _ack_eager_armed : bool;
  _eager_generation : Z;
  _eager_rearm_scheduled : bool;
  _ack_rearm_owner : option Z;
  _ack_rearm_deferred : bool }.

Record tally := mkTally {
  batches : Z; batched_items : Z; batched_bytes : Z; segmented_writes : Z; enqueue_suspensions : Z;
  eager_writes : Z; eager_bytes : Z; high_water_messages : Z; high_water_bytes : Z; last_outbound : Z }.

(** [wire] is what the current transport has been given; [soon] are the callbacks
    [call_soon] has scheduled, by generation. *)
Record WritePump := mkPump {
  max_bytes : Z; max_messages : Z;
  queue : list WriteItem; unfinished : Z;
  queued_bytes : Z; _resident_messages : Z; waiters : Z; epoch : Z;
  _writing : bool; _sealed : bool; _latency_failure : option exn;
  pm : permits; tl : tally; soon : list Z; wire : bytes }.

Definition WritePump_init (max_bytes max_messages : Z) : WritePump :=
  mkPump max_bytes max_messages [] 0 0 0 0 0 false false None (mkPermits false false false 0 false None false)
    (mkTally 0 0 0 0 0 0 0 0 0 0) [] [].

Definition set_queue (q : list WriteItem) (n : Z) p :=
  mkPump (max_bytes p) (max_messages p) q n (queued_bytes p) (_resident_messages p) (waiters p) (epoch p) (_writing p)
    (_sealed p) (_latency_failure p) (pm p) (tl p) (soon p) (wire p).
Definition set_books (bytes messages : Z) p :=
  mkPump (max_bytes p) (max_messages p) (queue p) (unfinished p) bytes messages (waiters p) (epoch p) (_writing p)
    (_sealed p) (_latency_failure p) (pm p) (tl p) (soon p) (wire p).
Definition set_waiters (n : Z) p :=
  mkPump (max_bytes p) (max_messages p) (queue p) (unfinished p) (queued_bytes p) (_resident_messages p) n (epoch p)
    (_writing p) (_sealed p) (_latency_failure p) (pm p) (tl p) (soon p) (wire p).
Definition set_epoch (e : Z) p :=
  mkPump (max_bytes p) (max_messages p) (queue p) (unfinished p) (queued_bytes p) (_resident_messages p) (waiters p) e
    (_writing p) (_sealed p) (_latency_failure p) (pm p) (tl p) (soon p) (wire p).
Definition set_writing (b : bool) p :=
  mkPump (max_bytes p) (max_messages p) (queue p) (unfinished p) (queued_bytes p) (_resident_messages p) (waiters p)
    (epoch p) b (_sealed p) (_latency_failure p) (pm p) (tl p) (soon p) (wire p).
Definition set_fate (sealed : bool) (failure : option exn) p :=
  mkPump (max_bytes p) (max_messages p) (queue p) (unfinished p) (queued_bytes p) (_resident_messages p) (waiters p)
    (epoch p) (_writing p) sealed failure (pm p) (tl p) (soon p) (wire p).
Definition set_permits (m : permits) (callbacks : list Z) p :=
  mkPump (max_bytes p) (max_messages p) (queue p) (unfinished p) (queued_bytes p) (_resident_messages p) (waiters p)
    (epoch p) (_writing p) (_sealed p) (_latency_failure p) m (tl p) callbacks (wire p).
Definition set_tally (t : tally) p :=
  mkPump (max_bytes p) (max_messages p) (queue p) (unfinished p) (queued_bytes p) (_resident_messages p) (waiters p)
    (epoch p) (_writing p) (_sealed p) (_latency_failure p) (pm p) t (soon p) (wire p).
Definition set_wire (w : bytes) p :=
  mkPump (max_bytes p) (max_messages p) (queue p) (unfinished p) (queued_bytes p) (_resident_messages p) (waiters p)
    (epoch p) (_writing p) (_sealed p) (_latency_failure p) (pm p) (tl p) (soon p) w.
(** The transport is given some bytes. *)
Definition give (b : bytes) p := set_wire (wire p ++ b) p.

Implicit Types (p : WritePump) (item : WriteItem).
Abbreviation sizes l := (foldr (λ i n, item_size i + n) 0 l).
Abbreviation flat l := (mbind item_bytes l).

(** ** Accounting *)

Definition queue_empty p : bool := match queue p with [] => true | _ => false end.

Definition put_nowait item p := set_queue (queue p ++ [item]) (unfinished p + 1) p.
Definition task_done (n : Z) p := set_queue (queue p) (unfinished p - n) p.

Definition _admit_queued p := set_books (queued_bytes p) (_resident_messages p + 1) p.
(** The three statements that follow an admission. *)
Definition admit_item item p :=
  _admit_queued (set_books (queued_bytes p + item_size item) (_resident_messages p) (put_nowait item p)).

Definition _release_resident (n : Z) p : res unit * WritePump :=
  if (n <? 0) || (n >? _resident_messages p) then (Raise AssertionError, p)
  else (Ok tt, set_books (queued_bytes p) (_resident_messages p - n) p).

Definition _sample_high_water (queued_messages : Z) p :=
  let t := tl p in
  set_tally (mkTally (batches t) (batched_items t) (batched_bytes t) (segmented_writes t) (enqueue_suspensions t)
    (eager_writes t) (eager_bytes t)
    (if queued_messages >? high_water_messages t then queued_messages else high_water_messages t)
    (if queued_bytes p >? high_water_bytes t then queued_bytes p else high_water_bytes t) (last_outbound t)) p.

Record WriterStats := mkWriterStats {
  ws_queued_messages : Z; ws_queued_bytes : Z; ws_high_water_messages : Z; ws_high_water_bytes : Z;
  ws_message_limit : Z; ws_byte_limit : Z; ws_waiters : Z; ws_last_outbound : Z }.
Definition stats p : WriterStats :=
  let queued_messages := len (queue p) in
  mkWriterStats queued_messages (queued_bytes p) (Z.max (high_water_messages (tl p)) queued_messages)
    (Z.max (high_water_bytes (tl p)) (queued_bytes p)) (max_messages p) (max_bytes p) (waiters p) (last_outbound (tl p)).

Definition can_enqueue_size (size : Z) p : bool :=
  let messages := _resident_messages p in
  let bytes_used := queued_bytes p in
  if messages >=? max_messages p then false
  else (bytes_used + size <=? max_bytes p) || ((messages =? 0) && (bytes_used =? 0)).

(** ** Permits for eager writes *)

Definition _drop_eager_binding p :=
  set_permits (mkPermits false false false (_eager_generation (pm p) + 1) false None false) (soon p) p.

Definition own_ack_rearm (task : option Z) p :=
  let m := pm p in
  set_permits (mkPermits (_write_nowait m) (_eager_armed m) (_ack_eager_armed m) (_eager_generation m)
    (_eager_rearm_scheduled m) task false) (soon p) p.

Definition idle p : bool := _write_nowait (pm p) && negb (_writing p) && queue_empty p.

Definition rearm_deferred_ack p :=
  let m := pm p in
  if _ack_rearm_deferred m then
    set_permits (mkPermits (_write_nowait m) (_eager_armed m) (if idle p then true else _ack_eager_armed m)
      (_eager_generation m) (_eager_rearm_scheduled m) (_ack_rearm_owner m) false) (soon p) p
  else p.

Definition _rearm_eager_if_idle (generation : Z) p :=
  let m := pm p in
  if negb (generation =? _eager_generation m) then p
  else if idle p then
    set_permits (mkPermits (_write_nowait m) true true (_eager_generation m) false (_ack_rearm_owner m)
      (_ack_rearm_deferred m)) (soon p) p
  else
    set_permits (mkPermits (_write_nowait m) (_eager_armed m) (_ack_eager_armed m) (_eager_generation m) false
      (_ack_rearm_owner m) (_ack_rearm_deferred m)) (soon p) p.

Definition _schedule_eager_rearm p :=
  let m := pm p in
  if _eager_rearm_scheduled m then p
  else set_permits (mkPermits (_write_nowait m) (_eager_armed m) (_ack_eager_armed m) (_eager_generation m) true
         (_ack_rearm_owner m) (_ack_rearm_deferred m)) (soon p ++ [_eager_generation m]) p.

(** ** The life of a connection *)

Definition reset p :=
  let p := _sample_high_water (len (queue p)) p in
  let p := set_queue [] 0 p in
  let p := set_books 0 0 p in
  let p := set_fate false None p in
  set_writing false (_drop_eager_binding p).

Definition seal p := set_fate true (_latency_failure p) p.

(** [discard]: whatever is still queued is dropped. *)
Definition discard p : res unit * WritePump :=
  let p := _sample_high_water (len (queue p)) p in
  let p := set_writing false (_drop_eager_binding p) in
  let remaining := len (queue p) in
  let p := set_queue [] (unfinished p - remaining) p in
  _release_resident remaining (set_books 0 (_resident_messages p) p).

(** [start], on a transport that offers [write_nowait] or not. *)
Definition start (write_nowait : bool) p :=
  let m := pm p in
  set_wire [] (set_permits (mkPermits write_nowait write_nowait write_nowait (_eager_generation m + 1) false
    (_ack_rearm_owner m) (_ack_rearm_deferred m)) (soon p) (set_writing false p)).

(** ** Admission *)

(** The guard of every admission. *)
Definition stale (e : Z) p : bool := _sealed p || bool_decide (is_Some (_latency_failure p)) || negb (e =? epoch p).

Definition _fence_eager_failure (failure : exn) p :=
  let p := _drop_eager_binding (set_fate (_sealed p) (Some failure) p) in
  set_epoch (epoch p + 1) p.

Definition _retain_failed_eager (b : bytes) (failure : exn) p := admit_item (Contiguous b) (_fence_eager_failure failure p).

Definition eager_written (size t : Z) p :=
  let c := tl p in
  set_tally (mkTally (batches c) (batched_items c) (batched_bytes c) (segmented_writes c) (enqueue_suspensions c)
    (eager_writes c + 1) (eager_bytes c + size) (high_water_messages c) (high_water_bytes c) t) p.

Definition _try_write_data_eager (c : call) item p : res bool * WritePump :=
  match item with
  | Segmented _ _ => (Ok false, p)
  | Contiguous b =>
      if negb (_eager_armed (pm p)) || negb (_write_nowait (pm p)) || _writing p || negb (waiters p =? 0) || negb (queue_empty p)
      then (Ok false, p)
      else
        match asked c with
        | Failed k x =>
            let failure := failure_for x (cancelled c) in
            (Raise failure, _retain_failed_eager b failure (give (take k b) p))
        | Declined => (Ok false, p)
        | Accepted =>
            let p := give b p in
            let m := pm p in
            let p := set_permits (mkPermits (_write_nowait m) false (_ack_eager_armed m) (_eager_generation m)
                       (_eager_rearm_scheduled m) (_ack_rearm_owner m) (_ack_rearm_deferred m)) (soon p) p in
            (Ok true, eager_written (len b) (now c) (_schedule_eager_rearm p))
        end
  end.

Definition _try_write_ack_eager (c : call) (b : bytes) p : res bool * WritePump :=
  if negb (_ack_eager_armed (pm p)) || negb (_write_nowait (pm p)) || _writing p || negb (waiters p =? 0) || negb (queue_empty p)
  then (Ok false, p)
  else
    match asked c with
    | Failed k x =>
        let failure := failure_for x (cancelled c) in
        (Raise failure, _retain_failed_eager b failure (give (take k b) p))
    | Declined => (Ok false, p)
    | Accepted =>
        let p := give b p in
        let m := pm p in
        let owned := bool_decide (_ack_rearm_owner m = Some (current c)) in
        let p := set_permits (mkPermits (_write_nowait m) (_eager_armed m) false (_eager_generation m)
                   (_eager_rearm_scheduled m) (_ack_rearm_owner m) (if owned then true else _ack_rearm_deferred m)) (soon p) p in
        (Ok true, eager_written (len b) (now c) (if owned then p else _schedule_eager_rearm p))
    end.

(** [try_enqueue] and [try_enqueue_ack]; [None] is the current epoch. *)
Definition admission (eager : WritePump → res bool * WritePump) item (e : option Z) p : res bool * WritePump :=
  if stale (default (epoch p) e) p then (Raise StaleConnectionEffect, p)
  else if negb (can_enqueue_size (item_size item) p) then (Ok false, p)
  else
    match eager p with
    | (Ok false, p) => (Ok true, admit_item item p)
    | (Ok true, p) => (Ok true, p)
    | (Raise x, p) => (Raise x, p)
    end.
Definition try_enqueue (c : call) item (e : option Z) p := admission (_try_write_data_eager c item) item e p.
Definition try_enqueue_ack (c : call) (b : bytes) (e : option Z) p := admission (_try_write_ack_eager c b) (Contiguous b) e p.

(** [try_enqueue_terminal]: the [finally] clause fences every later send of this
    epoch. *)
Definition try_enqueue_terminal (c : call) item (e : Z) p : res bool * WritePump :=
  let '(r, p) := try_enqueue c item (Some e) p in
  (r, if e =? epoch p then seal p else p).

(** ** The latency shortcut *)

Definition LATENCY_BATCH_MIN_ITEMS : Z := 4.
Definition LATENCY_BATCH_MAX_ITEMS : Z := 16.
Definition LATENCY_BATCH_TARGET_BYTES : Z := 48 * 1024.

Definition _restore_latency_items (items : list WriteItem) p :=
  let p := foldl (λ p i, put_nowait i p) p items in
  task_done (len items) p.

Definition is_segmented item : bool := match item with Segmented _ _ => true | Contiguous _ => false end.

Definition batch_written (n size t : Z) p :=
  let c := tl p in
  set_tally (mkTally (batches c + 1) (batched_items c + n) (batched_bytes c + size) (segmented_writes c)
    (enqueue_suspensions c) (eager_writes c) (eager_bytes c) (high_water_messages c) (high_water_bytes c) t) p.

Definition _try_flush_latency_batch (c : call) p : res bool * WritePump :=
  let queued := len (queue p) in
  if (queued <? LATENCY_BATCH_MIN_ITEMS) || (queued >? LATENCY_BATCH_MAX_ITEMS) ||
     ((queued <? LATENCY_BATCH_MAX_ITEMS) && (queued_bytes p <? LATENCY_BATCH_TARGET_BYTES))
  then (Ok false, p)
  else if negb (_write_nowait (pm p)) || _writing p || negb (waiters p =? 0) then (Ok false, p)
  else
    let p := _sample_high_water queued p in
    let items := queue p in
    let p := set_queue [] (unfinished p) p in
    if existsb is_segmented items then (Ok false, _restore_latency_items items p)
    else
      let combined := flat items in
      match asked c with
      | Failed k x =>
          let failure := failure_for x (cancelled c) in
          (Raise failure, _restore_latency_items items (_fence_eager_failure failure (give (take k combined) p)))
      | Declined => (Ok false, _restore_latency_items items p)
      | Accepted =>
          let p := task_done queued (give combined p) in
          let p := set_books (queued_bytes p - len combined) (_resident_messages p) p in
          match _release_resident queued p with
          | (Raise x, p) => (Raise x, p)
          | (Ok _, p) =>
              if negb (queued_bytes p =? 0) then (Raise AssertionError, p)
              else (Ok true, batch_written queued (len combined) (now c) p)
          end
      end.

(** ** Producers that wait

    A producer that found no room waits on the condition [space].  It is parked
    until [notify] wakes it or its task is cancelled, and goes on when the loop
    runs it next. *)
Inductive waiting := Parked | Woken | Cancelling.
#[export] Instance waiting_dec : EqDecision waiting.
Proof. solve_decision. Defined.
Record producer := mkProducer {
  pr_id : Z; pr_item : WriteItem; pr_size : Z; pr_epoch : Z; pr_status : waiting }.
Definition set_status (st : waiting) (q : producer) : producer :=
  mkProducer (pr_id q) (pr_item q) (pr_size q) (pr_epoch q) st.

(** [Condition.notify]: the first [n] that were neither woken nor cancelled. *)
Fixpoint notify (n : nat) (l : list producer) : list producer :=
  match l with
  | [] => []
  | q :: l =>
      match n, pr_status q with
      | S n, Parked => set_status Woken q :: notify n l
      | _, _ => q :: notify n l
      end
  end.
Definition notify_all (l : list producer) : list producer := notify (length l) l.

(** The writer task: not running; created; waiting for a frame; inside a batch,
    with the writes still to do, the one in flight first; or in [on_failure].  A
    write marked as segmented counts one segmented item when it begins. *)
Record write := mkWrite { w_bytes : bytes; w_segmented : bool }.
Inductive task :=
  | Off
  | Ready
  | Idle
  | Sending (batch : list WriteItem) (writes : list write)
  | Failing (x : exn).

(** [admitted] are the frames accepted or offered since the connection started. *)
Record Sys := mkSys {
  pump : WritePump; parked : list producer; writer : task; stopping : bool; write_many : bool; admitted : list WriteItem }.
Implicit Types (s : Sys).

Definition on_pump (f : WritePump → WritePump) s := mkSys (f (pump s)) (parked s) (writer s) (stopping s) (write_many s) (admitted s).
Definition set_parked (l : list producer) s := mkSys (pump s) l (writer s) (stopping s) (write_many s) (admitted s).
Definition set_writer (t : task) s := mkSys (pump s) (parked s) t (stopping s) (write_many s) (admitted s).
Definition set_stopping (b : bool) s := mkSys (pump s) (parked s) (writer s) b (write_many s) (admitted s).
Definition set_admitted (l : list WriteItem) s := mkSys (pump s) (parked s) (writer s) (stopping s) (write_many s) l.

Definition wake_waiters s := set_parked (notify_all (parked s)) s.
Definition advance_epoch (e : Z) s := wake_waiters (on_pump (set_epoch e) s).

(** An admission attempt of [item]; the frame is the pump's when it is accepted, and
    when the transport raised on it. *)
Definition offer (f : WritePump → res bool * WritePump) item s : res bool * Sys :=
  let '(r, p) := f (pump s) in
  let failed := bool_decide (is_Some (_latency_failure p)) && negb (bool_decide (is_Some (_latency_failure (pump s)))) in
  let kept := match r with Ok b => b | Raise _ => failed end in
  (r, set_admitted (if kept then admitted s ++ [item] else admitted s) (on_pump (λ _, p) s)).

(** The loop of [_enqueue_after_wait], up to its next suspension. *)
Inductive turn := Admit | Wait | Refuse.
Definition after_wait p (size e : Z) : turn :=
  if stale e p then Refuse
  else
    let messages_full := _resident_messages p >=? max_messages p in
    let empty := (_resident_messages p =? 0) && (queued_bytes p =? 0) && queue_empty p in
    let bytes_blocked := (queued_bytes p + size >? max_bytes p) && negb empty in
    if negb messages_full && negb bytes_blocked then Admit
    else if queue_empty p && (queued_bytes p =? 0) then Admit
    else Wait.

Definition count_suspension p :=
  let c := tl p in
  set_waiters (waiters p + 1) (set_tally (mkTally (batches c) (batched_items c) (batched_bytes c) (segmented_writes c)
    (enqueue_suspensions c + 1) (eager_writes c) (eager_bytes c) (high_water_messages c) (high_water_bytes c)
    (last_outbound c)) p).

(** One pass of the loop; [Ok false] is a suspension. *)
Definition _enqueue_after_wait (q : producer) s : res bool * Sys :=
  match after_wait (pump s) (pr_size q) (pr_epoch q) with
  | Refuse => (Raise StaleConnectionEffect, s)
  | Admit => (Ok true, set_admitted (admitted s ++ [pr_item q]) (on_pump (admit_item (pr_item q)) s))
  | Wait => (Ok false, set_parked (parked s ++ [set_status Parked q]) (on_pump count_suspension s))
  end.

(** [enqueue] and [enqueue_ack] of the task [id], up to their first suspension. *)
Definition enqueue_with (f : WritePump → res bool * WritePump) (id : Z) item (nowait : bool) (e : option Z) s : res bool * Sys :=
  let e := default (epoch (pump s)) e in
  match offer f item s with
  | (Ok true, s) => (Ok true, s)
  | (Raise x, s) => (Raise x, s)
  | (Ok false, s) =>
      if nowait then (Raise FlowControlError, s)
      else _enqueue_after_wait (mkProducer id item (item_size item) e Parked) s
  end.
Definition enqueue (c : call) item (nowait : bool) (e : option Z) s : res bool * Sys :=
  enqueue_with (try_enqueue c item (Some (default (epoch (pump s)) e))) (current c) item nowait e s.
Definition enqueue_ack (c : call) (b : bytes) (nowait : bool) (e : option Z) s : res bool * Sys :=
  enqueue_with (try_enqueue_ack c b (Some (default (epoch (pump s)) e))) (current c) (Contiguous b) nowait e s.

(** The producer at place [i] goes on: woken, it tries again; cancelled, it hands
    the wakeup it may have consumed to another. *)
Definition resume (i : nat) s : res bool * Sys :=
  match parked s !! i with
  | None => (Ok false, s)
  | Some q =>
      let others := take i (parked s) ++ drop (S i) (parked s) in
      match pr_status q with
      | Parked => (Ok false, s)
      | Woken => _enqueue_after_wait q (set_parked others (on_pump (λ p, set_waiters (waiters p - 1) p) s))
      | Cancelling =>
          let others := if waiters (pump s) >? 1 then notify 1 others else others in
          (Raise CancelledError, set_parked others (on_pump (λ p, set_waiters (waiters p - 1) p) s))
      end
  end.
Definition cancel_producer (i : nat) s : Sys :=
  match parked s !! i with
  | None => s
  | Some q => set_parked (take i (parked s) ++ set_status Cancelling q :: drop (S i) (parked s)) s
  end.

(** ** The writer task *)

(** [_write_contiguous]: one call when the transport takes several parts, else one
    per part. *)
Definition _write_contiguous (many : bool) (parts : list bytes) : list bytes :=
  match parts with [] => [] | _ => if many then [concat parts] else parts end.
Definition plain (b : bytes) : write := mkWrite b false.
Definition mark_first (ws : list write) : list write :=
  match ws with w :: ws => mkWrite (w_bytes w) true :: ws | [] => [] end.
(** The writes of a batch; [contiguous] is what has been gathered so far. *)
Fixpoint batch_writes (many : bool) (contiguous : list bytes) (batch : list WriteItem) : list write :=
  match batch with
  | [] => plain <$> _write_contiguous many contiguous
  | Contiguous b :: batch => batch_writes many (contiguous ++ [b]) batch
  | Segmented header payload :: batch =>
      mark_first (plain <$> (_write_contiguous many contiguous ++ [header; payload])) ++ batch_writes many [] batch
  end.

Definition count_segmented (ws : list write) p :=
  match ws with
  | mkWrite _ true :: _ =>
      let c := tl p in
      set_tally (mkTally (batches c) (batched_items c) (batched_bytes c) (segmented_writes c + 1) (enqueue_suspensions c)
        (eager_writes c) (eager_bytes c) (high_water_messages c) (high_water_bytes c) (last_outbound c)) p
  | _ => p
  end.

(** The [finally] clause of a batch. *)
Definition finish_batch (batch : list WriteItem) (completed owner_cancelled : bool) s : res unit * Sys :=
  let n := len batch in
  let released := sizes batch in
  let p := pump s in
  let c := tl p in
  let p := task_done n (set_writing false p) in
  let p := set_tally (mkTally (batches c) (batched_items c) (batched_bytes c + released) (segmented_writes c)
    (enqueue_suspensions c) (eager_writes c) (eager_bytes c) (high_water_messages c) (high_water_bytes c) (last_outbound c)) p in
  let p := set_books (Z.max 0 (queued_bytes p - released)) (_resident_messages p) p in
  match _release_resident n p with
  | (Raise x, p) => (Raise x, on_pump (λ _, p) s)
  | (Ok _, p) =>
      let s := on_pump (λ _, p) s in
      (Ok tt, if completed && (waiters p >? 0) && negb owner_cancelled
              then set_parked (notify (Z.to_nat (Z.min (waiters p) n)) (parked s)) s else s)
  end.

(** The end of [_run] after a failure: nothing more may be written, and the
    producers fail. *)
Definition writer_failed (x : exn) s : Sys :=
  let s := on_pump (λ p, set_writing false (_drop_eager_binding p)) s in
  let p := pump s in
  let s := advance_epoch (epoch p + match _latency_failure p with None => 1 | Some _ => 0 end) s in
  set_writer (Failing x) s.

(** [finally], and the handlers of [_run] when an exception is on its way. *)
Definition batch_fails (batch : list WriteItem) (x : exn) s : Sys :=
  match finish_batch batch false (stopping s) s with
  | (Ok _, s) => writer_failed (failure_for x false) s
  | (Raise y, s) => writer_failed y s
  end.

(** One pass of the loop up to the next suspension. *)
Definition take_batch s : Sys :=
  let p := pump s in
  let m := pm p in
  let p := set_permits (mkPermits (_write_nowait m) false (_ack_eager_armed m) (_eager_generation m)
             (_eager_rearm_scheduled m) (_ack_rearm_owner m) (_ack_rearm_deferred m)) (soon p) p in
  let p := _sample_high_water (len (queue p)) p in
  let batch := take 256 (queue p) in
  let p := set_queue (drop 256 (queue p)) (unfinished p) p in
  let c := tl p in
  let p := set_tally (mkTally (batches c + 1) (batched_items c + len batch) (batched_bytes c) (segmented_writes c)
    (enqueue_suspensions c) (eager_writes c) (eager_bytes c) (high_water_messages c) (high_water_bytes c) (last_outbound c)) p in
  let p := set_writing true p in
  match _latency_failure p with
  | Some x => batch_fails batch x (on_pump (λ _, p) s)
  | None =>
      let ws := batch_writes (write_many s) [] batch in
      set_writer (Sending batch ws) (on_pump (λ _, count_segmented ws p) s)
  end.
Definition loop_top s : Sys :=
  let arm p :=
    let m := pm p in
    if queue_empty p && _write_nowait m then
      set_permits (mkPermits (_write_nowait m) true true (_eager_generation m) (_eager_rearm_scheduled m)
        (_ack_rearm_owner m) (_ack_rearm_deferred m)) (soon p) p
    else p in
  let s := on_pump arm s in
  if queue_empty (pump s) then set_writer Idle s else take_batch s.

(** The write in flight is done. *)
Definition written (t : Z) s : Sys :=
  match writer s with
  | Sending batch (w :: ws) =>
      let s := on_pump (give (w_bytes w)) s in
      match ws with
      | _ :: _ => set_writer (Sending batch ws) (on_pump (count_segmented ws) s)
      | [] =>
          let c := tl (pump s) in
          let s := on_pump (set_tally (mkTally (batches c) (batched_items c) (batched_bytes c) (segmented_writes c)
            (enqueue_suspensions c) (eager_writes c) (eager_bytes c) (high_water_messages c) (high_water_bytes c) t)) s in
          match finish_batch batch true (stopping s) s with
          | (Ok _, s) => loop_top (set_writer Idle s)
          | (Raise x, s) => writer_failed x s
          end
      end
  | _ => s
  end.

(** The write in flight fails, or the writer is cancelled: the transport may own
    any prefix of the bytes. *)
Definition write_fails (k : nat) (x : exn) s : Sys :=
  match writer s with
  | Sending batch (w :: ws) =>
      batch_fails batch x (on_pump (give (take k (w_bytes w))) s)
  | _ => s
  end.
Definition writer_cancelled (k : nat) s : Sys :=
  match writer s with
  | Sending batch (w :: ws) =>
      let s := on_pump (give (take k (w_bytes w))) s in
      set_writer Off (finish_batch batch false true s).2
  | _ => set_writer Off s
  end.

(** [stop]: before the first suspension, and after the writer has ended. *)
Definition stop_begin s : Sys :=
  let s := on_pump _drop_eager_binding s in
  match writer s with Off => s | _ => set_stopping true s end.
Definition stop_end s : Sys := set_stopping false (on_pump (set_writing false) s).

(** A new connection: [reset], then [start], which refuses to run twice. *)
Definition connect (write_nowait many : bool) s : res unit * Sys :=
  let s := on_pump reset s in
  match writer s with
  | Off => (Ok tt, mkSys (start write_nowait (pump s)) (parked s) Ready (stopping s) many [])
  | _ => (Raise RuntimeError, s)
  end.

(** ** Steps *)

Inductive step_label :=
  | Connect (write_nowait many : bool)
  | Enqueue (c : call) (item : WriteItem) (nowait : bool) (e : option Z)
  | EnqueueAck (c : call) (b : bytes) (nowait : bool) (e : option Z)
  | TryEnqueue (c : call) (item : WriteItem) (e : option Z)
  | TryAck (c : call) (b : bytes) (e : option Z)
  | Terminal (c : call) (item : WriteItem) (e : Z)
  | Flush (c : call)
  | Resume (i : nat)
  | Cancel (i : nat)
  | Callback
  | OwnAck (t : option Z)
  | RearmAck
  | Seal
  | AdvanceEpoch (e : Z)
  | WakeWaiters
  | WriterRuns
  | Written (t : Z)
  | WriteFails (k : nat) (x : exn)
  | WriterCancelled (k : nat)
  | FailureHandled
  | StopBegin
  | StopEnd
  | Discard.

Definition quiet_step {A} (x : Sys) : res A → res unit * Sys := λ r, (match r with Ok _ => Ok tt | Raise e => Raise e end, x).
Definition outcome (x : res bool * Sys) : res unit * Sys := quiet_step x.2 x.1.

(** What a step does, and what its caller gets. *)
Definition run (l : step_label) s : res unit * Sys :=
  match l with
  | Connect write_nowait many => connect write_nowait many s
  | Enqueue c item nowait e => outcome (enqueue c item nowait e s)
  | EnqueueAck c b nowait e => outcome (enqueue_ack c b nowait e s)
  | TryEnqueue c item e => outcome (offer (try_enqueue c item e) item s)
  | TryAck c b e => outcome (offer (try_enqueue_ack c b e) (Contiguous b) s)
  | Terminal c item e => outcome (offer (try_enqueue_terminal c item e) item s)
  | Flush c => let '(r, p) := _try_flush_latency_batch c (pump s) in quiet_step (on_pump (λ _, p) s) r
  | Resume i => outcome (resume i s)
  | Cancel i => (Ok tt, cancel_producer i s)
  | Callback =>
      (Ok tt, match soon (pump s) with
              | g :: gs => on_pump (λ p, _rearm_eager_if_idle g (set_permits (pm p) gs p)) s
              | [] => s
              end)
  | OwnAck t => (Ok tt, on_pump (own_ack_rearm t) s)
  | RearmAck => (Ok tt, on_pump rearm_deferred_ack s)
  | Seal => (Ok tt, on_pump seal s)
  | AdvanceEpoch e => (Ok tt, advance_epoch e s)
  | WakeWaiters => (Ok tt, wake_waiters s)
  | WriterRuns => (Ok tt, match writer s with
                          | Ready => loop_top s
                          | Idle => if queue_empty (pump s) then s else take_batch s
                          | _ => s
                          end)
  | Written t => (Ok tt, written t s)
  | WriteFails k x => (Ok tt, write_fails k x s)
  | WriterCancelled k => (Ok tt, writer_cancelled k s)
  | FailureHandled => (Ok tt, match writer s with Failing _ => set_writer Off s | _ => s end)
  | StopBegin => (Ok tt, stop_begin s)
  | StopEnd => (Ok tt, stop_end s)
  | Discard => let '(r, p) := discard (pump s) in (r, on_pump (λ _, p) s)
  end.
