(* ===== verification/WriterInv.v ===== *)
(** * The write pump's invariant

    What holds of the pump, of the writer task and of the waiting producers in
    every state they reach, and that every step keeps it. *)

From S2P Require Import Prelude Types WritePump.

Implicit Types (p : WritePump) (item : WriteItem) (s : Sys).

(** ** Parts of the state *)

(** All that matters here of a pump: the counters of [tl], the callbacks and the
    permits other than the binding itself do not. *)
Definition core p :=
  (max_bytes p, max_messages p, queue p, unfinished p, queued_bytes p, _resident_messages p, waiters p, epoch p,
   (_writing p, _sealed p, _latency_failure p, _write_nowait (pm p), wire p)).

Definition active s : list WriteItem := match writer s with Sending b _ => b | _ => [] end.
Definition in_flight s : bytes := match writer s with Sending _ ws => mbind w_bytes ws | _ => [] end.
(** The writer will look at the queue again. *)
Definition live s : Prop := match writer s with Off | Failing _ => False | _ => True end.
Definition healthy s : Prop := live s ∧ _latency_failure (pump s) = None.
Definition serving s : Prop := healthy s ∧ stopping s = false ∧ _sealed (pump s) = false.
(** A producer that the loop will run, and that passes a wakeup on or admits. *)
Definition awake (e : Z) (q : producer) : Prop :=
  pr_status q = Woken ∧ pr_epoch q = e ∨ pr_status q = Cancelling.

Record Books p (b : list WriteItem) : Prop := {
  b_bytes : queued_bytes p = sizes (queue p) + sizes b;
  b_resident : _resident_messages p = len (queue p) + len b;
  b_unfinished : unfinished p = len (queue p) + len b;
  b_items : Forall (λ i, 0 < item_size i) (queue p ++ b);
  b_limits : 0 ≤ max_bytes p ∧ 1 ≤ max_messages p;
  b_messages : _resident_messages p ≤ max_messages p;
  b_max_bytes : queued_bytes p ≤ max_bytes p ∨ _resident_messages p = 1 }.

Record Wire s : Prop := {
  w_writing : _writing (pump s) = match writer s with Sending _ _ => true | _ => false end;
  w_batch : match writer s with Sending b ws => b ≠ [] ∧ ws ≠ [] ∧ _latency_failure (pump s) = None | _ => True end;
  w_fenced : is_Some (_latency_failure (pump s)) → _write_nowait (pm (pump s)) = false;
  w_bound : _write_nowait (pm (pump s)) = true → live s;
  w_stopping : stopping s = true → _write_nowait (pm (pump s)) = false;
  w_order : healthy s → flat (admitted s) = wire (pump s) ++ in_flight s ++ flat (queue (pump s));
  w_prefix : wire (pump s) `prefix_of` flat (admitted s) }.

Record Waits s : Prop := {
  k_count : waiters (pump s) = len (parked s);
  k_sizes : Forall (λ q, 0 < pr_size q ∧ pr_size q = item_size (pr_item q)) (parked s);
  k_epochs : Forall (λ q, pr_status q = Parked → pr_epoch q = epoch (pump s)) (parked s) }.

(** No wakeup is lost: while the pump serves, a parked producer has the next one
    on its way, or frames in the pump whose departure will wake it. *)
Definition wakes s : Prop := serving s → Exists (λ q, pr_status q = Parked) (parked s) →
  Exists (awake (epoch (pump s))) (parked s) ∨ queue (pump s) ++ active s ≠ [].

Record Calm s : Prop := { s_books : Books (pump s) (active s); s_wire : Wire s; s_waits : Waits s }.
Record SInv s : Prop := { s_calm : Calm s; s_wakes : wakes s }.

(** A change that [core] does not see. *)
Lemma core_inv s p : core p = core (pump s) → SInv s → SInv (on_pump (λ _, p) s).
Proof.
  intros E [[[] [] []] K]. unfold core in E. injection E as E1 E2 E3 E4 E5 E6 E7 E8 E9 E10 E11 E12 E13. destruct s as [q l w st m a].
  unfold wakes, serving, healthy, live, active, in_flight in *. simpl in *.
  split; [split; split |]; unfold wakes, serving, healthy, live, active, in_flight; simpl;
    rewrite ?E1, ?E2, ?E3, ?E4, ?E5, ?E6, ?E7, ?E8, ?E9, ?E10, ?E11, ?E12, ?E13; auto.
Qed.

Lemma sizes_app l k : sizes (l ++ k) = sizes l + sizes k.
Proof. induction l as [| i l IH]; simpl; [done | lia]. Qed.
Lemma sizes_len l : Forall (λ i, 0 < item_size i) l → len l ≤ sizes l.
Proof. induction 1 as [| i l Hi Hl IH]; simpl; [done |]. rewrite len_cons. lia. Qed.
Lemma sizes_pos l : Forall (λ i, 0 < item_size i) l → l ≠ [] → 0 < sizes l.
Proof. intros Hl Hn. pose proof (sizes_len l Hl). destruct l; [done |]. rewrite len_cons in *. pose proof (len_nonneg l). lia. Qed.
Lemma len_flat l : len (flat l) = sizes l.
Proof. induction l as [| i l IH]; [done |]. cbn. rewrite len_app, item_size_bytes. by rewrite <- IH. Qed.
Lemma flat_app l k : flat (l ++ k) = flat l ++ flat k.
Proof. apply bind_app. Qed.

(** ** Admission *)

Lemma books_admit p b item : 0 < item_size item → can_enqueue_size (item_size item) p = true → Books p b → Books (admit_item item p) b.
Proof.
  intros Hi Hc [Hq Hr Hu Hf [Hb Hm] Hmm Hmb]. unfold can_enqueue_size in Hc. destruct (_ >=? _) eqn:E; [done |].
  rewrite Z.geb_leb in E. bools. split; simpl; rewrite ?sizes_app, ?len_app; simpl; rewrite ?len_cons, ?len_nil; try lia.
  rewrite <- app_assoc. apply Forall_app in Hf as [Hf1 Hf2]. repeat (apply Forall_app; split); auto.
Qed.

(** An eager write has the transport and the queue for itself. *)
Definition eager_free p : Prop := _write_nowait (pm p) = true ∧ _writing p = false ∧ waiters p = 0 ∧ queue p = [].

(** What an admission attempt may do. *)
Inductive adm item p : res bool → WritePump → Prop :=
  | adm_stale : adm item p (Raise StaleConnectionEffect) p
  | adm_full : can_enqueue_size (item_size item) p = false → adm item p (Ok false) p
  | adm_queued p' : _sealed p = false → _latency_failure p = None → can_enqueue_size (item_size item) p = true →
      core p' = core (admit_item item p) → adm item p (Ok true) p'
  | adm_eager p' : _latency_failure p = None → eager_free p → core p' = core (give (item_bytes item) p) → adm item p (Ok true) p'
  | adm_failed b x k p' : item = Contiguous b → _latency_failure p = None → eager_free p →
      can_enqueue_size (item_size item) p = true →
      core p' = core (admit_item item (set_epoch (epoch p + 1) (set_fate (_sealed p) (Some x)
        (_drop_eager_binding (give (take k b) p))))) → adm item p (Raise x) p'.

Lemma not_stale e p : stale e p = false → _sealed p = false ∧ _latency_failure p = None ∧ e = epoch p.
Proof.
  unfold stale. intros H. apply orb_false_iff in H as [H He]. apply orb_false_iff in H as [Hs Hf].
  apply negb_false_iff, Z.eqb_eq in He. apply bool_decide_eq_false in Hf. split_and!; [done | | done].
  by apply eq_None_not_Some.
Qed.

Lemma eager_guard a n p :
  negb a || negb (_write_nowait (pm p)) || _writing p || negb (n =? 0) || negb (queue_empty p) = false →
  _write_nowait (pm p) = true ∧ _writing p = false ∧ n = 0 ∧ queue p = [].
Proof.
  intros H. repeat (apply orb_false_iff in H as [H ?]). repeat match goal with Hn : negb _ = false |- _ => apply negb_false_iff in Hn end.
  split_and!; [done | done | by apply Z.eqb_eq |]. unfold queue_empty in *. by destruct (queue p).
Qed.

Lemma admission_adm (eager : WritePump → res bool * WritePump) item e p :
  (let '(r, p') := eager p in r = Ok false ∧ p' = p ∨ r = Ok true ∧ eager_free p ∧ core p' = core (give (item_bytes item) p) ∨
    ∃ b x k, r = Raise x ∧ item = Contiguous b ∧ eager_free p ∧
      p' = _retain_failed_eager b x (give (take k b) p)) →
  let '(r, p') := admission eager item e p in adm item p r p'.
Proof.
  intros He. unfold admission. destruct (stale _ p) eqn:Es; [constructor |]. apply not_stale in Es as (Hs & Hf & _).
  destruct (can_enqueue_size _ p) eqn:Ec; [| by constructor]. simpl.
  destruct (eager p) as [r p'], He as [[-> ->] | [(-> & Hfree & E) | (b & x & k & -> & -> & Hfree & ->)]].
  - by apply adm_queued.
  - by apply adm_eager.
  - eapply adm_failed; [done.. |]. reflexivity.
Qed.

Lemma schedule_core p : core (_schedule_eager_rearm p) = core p.
Proof. unfold _schedule_eager_rearm. by case_if. Qed.

Lemma try_enqueue_adm c item e p : let '(r, p') := try_enqueue c item e p in adm item p r p'.
Proof.
  apply admission_adm. unfold _try_write_data_eager. destruct item as [b | h pl]; [| by left].
  destruct (_ || _) eqn:Eg; [by left |]. apply eager_guard in Eg. destruct (asked c) as [| | k x].
  - right. left. split_and!; try done. unfold eager_written. unfold core at 1. simpl. unfold _schedule_eager_rearm. by case_if.
  - by left.
  - right. right. by exists b, (failure_for x (cancelled c)), k.
Qed.

Lemma try_ack_adm c b e p : let '(r, p') := try_enqueue_ack c b e p in adm (Contiguous b) p r p'.
Proof.
  apply admission_adm. unfold _try_write_ack_eager. destruct (_ || _) eqn:Eg; [by left |]. apply eager_guard in Eg.
  destruct (asked c) as [| | k x].
  - right. left. split_and!; try done. unfold eager_written. unfold core at 1. simpl. case_if; [done |]. unfold _schedule_eager_rearm. by case_if.
  - by left.
  - right. right. by exists b, (failure_for x (cancelled c)), k.
Qed.

Lemma terminal_adm c item e p : let '(r, p') := try_enqueue_terminal c item e p in
  ∃ p1, adm item p r p1 ∧ (p' = p1 ∨ p' = seal p1).
Proof.
  unfold try_enqueue_terminal. pose proof (try_enqueue_adm c item (Some e) p) as Ha. destruct (try_enqueue _ _ _ p) as [r p1].
  exists p1. split; [done |]. case_if; auto.
Qed.

(** The state after an admission. *)
Lemma inv_queued s item : Calm s → 0 < item_size item → can_enqueue_size (item_size item) (pump s) = true →
  SInv (set_admitted (admitted s ++ [item]) (on_pump (admit_item item) s)).
Proof.
  intros [Hb [W1 W2 W3 W4 W7 W5 W6] [K1 K2 K3]] Hi Hc. split; [split |].
  - by apply books_admit.
  - split; try done; simpl.
    + intros Hh. rewrite !flat_app, (W5 Hh), <- !app_assoc. done.
    + rewrite flat_app. by apply prefix_app_r.
  - by split.
  - intros _ _. right. simpl. by destruct (queue (pump s)).
Qed.

Lemma no_waiters s : Calm s → waiters (pump s) = 0 → parked s = [].
Proof.
  intros [_ _ [K1 _ _]] Hz. destruct (parked s); [done |]. rewrite Hz, len_cons in K1. pose proof (len_nonneg l). lia.
Qed.
Lemma not_sending s : Calm s → _writing (pump s) = false → in_flight s = [] ∧ active s = [].
Proof. intros [_ [W1 _ _ _ _ _ _] _] Hw. unfold in_flight, active in *. by destruct (writer s); rewrite Hw in W1. Qed.

Lemma inv_given s item : SInv s → eager_free (pump s) → _latency_failure (pump s) = None →
  SInv (set_admitted (admitted s ++ [item]) (on_pump (give (item_bytes item)) s)).
Proof.
  intros [HC K] (Hn & Hw & Hz & Hq) Hf. destruct (not_sending s HC Hw) as [Ei _]. destruct HC as [[] [W1 W2 W3 W4 W7 W5 W6] [K1 K2 K3]].
  assert (healthy s) as Hh by (split; auto). pose proof (W5 Hh) as Ew. rewrite Ei, Hq, app_nil_r in Ew.
  assert (E : flat (admitted s ++ [item]) = wire (pump s) ++ item_bytes item) by (rewrite flat_app, Ew; simpl; by rewrite app_nil_r).
  split; [| done]. split; [done | | done]. split; try done; simpl; rewrite E; [| done]. intros _.
  change (wire (pump s) ++ item_bytes item = (wire (pump s) ++ item_bytes item) ++ in_flight s ++ flat (queue (pump s))).
  by rewrite Ei, Hq, !app_nil_r.
Qed.

(** A transport that raised: the frames become records of what may have been sent. *)
Definition fenced (x : exn) (given : bytes) p :=
  set_epoch (epoch p + 1) (set_fate (_sealed p) (Some x) (_drop_eager_binding (give given p))).

Lemma inv_fenced s x given rest : SInv s → _write_nowait (pm (pump s)) = true → _writing (pump s) = false → waiters (pump s) = 0 →
  _latency_failure (pump s) = None → given `prefix_of` flat (queue (pump s)) ++ rest →
  ∀ a, flat a = flat (admitted s) ++ rest → SInv (set_admitted a (on_pump (fenced x given) s)).
Proof.
  intros [HC K] Hn Hw Hz Hf Hg a Ha. pose proof (no_waiters s HC Hz) as Ep. destruct (not_sending s HC Hw) as [Ef _].
  destruct HC as [[] [W1 W2 W3 W4 W7 W5 W6] [K1 K2 K3]]. split; [split; [done | |] |].
  - split; simpl; try done.
    + unfold active, in_flight in *. destruct (writer s); try done. by rewrite Hw in W1.
    + by intros [_ [=]].
    + rewrite Ha, (W5 (conj (W4 Hn) Hf)), Ef. simpl. rewrite <- app_assoc. by apply prefix_app.
  - split; simpl; rewrite ?Ep; auto.
  - by intros [[_ [=]] _].
Qed.

(** Frames kept as records after a failure. *)
Lemma inv_recorded s item : SInv s → is_Some (_latency_failure (pump s)) → 0 < item_size item →
  can_enqueue_size (item_size item) (pump s) = true → SInv (on_pump (admit_item item) s).
Proof.
  intros [[Hb [W1 W2 W3 W4 W7 W5 W6] [K1 K2 K3]] K] [x Hx] Hi Hc. split; [split |].
  - by apply books_admit.
  - split; try done. intros [_ Hl]. simpl in Hl. congruence.
  - by split.
  - intros [[_ Hl] _]. simpl in Hl. congruence.
Qed.

Lemma inv_offer f item s : SInv s → 0 < item_size item → (let '(r, p') := f (pump s) in adm item (pump s) r p') → SInv (offer f item s).2.
Proof.
  intros HI Hi Hf. unfold offer. destruct (f (pump s)) as [r p']. cbn [snd].
  assert (on_pump (λ _, pump s) s = s) as Es by (by destruct s).
  inversion Hf as [| Hc | q Hs Hl Hc E | q Hl Hfree E | b x k q -> Hl Hfree Hc E]; subst.
  - case_bool_decide; simpl; by rewrite Es; destruct s.
  - rewrite Es. by destruct s.
  - pose proof (inv_queued s item (s_calm _ HI) Hi Hc) as Hn. by apply (core_inv _ p') in Hn.
  - pose proof (inv_given s item HI Hfree Hl) as Hn. by apply (core_inv _ p') in Hn.
  - rewrite bool_decide_true by (unfold core in E; injection E; intros; subst; simpl in *; naive_solver).
    rewrite bool_decide_false by (rewrite Hl; by intros []). cbn [negb andb].
    destruct (Hfree) as (Hn & Hw & Hz & Hq). set (item := Contiguous b) in *.
    assert (SInv (set_admitted (admitted s ++ [item]) (on_pump (fenced x (take k b)) s))) as H1.
    { apply (inv_fenced s x (take k b) b); try done.
      - rewrite Hq. exists (drop k b). simpl. by rewrite take_drop.
      - rewrite flat_app. simpl. by rewrite app_nil_r. }
    pose proof (inv_recorded _ item H1) as H2. by apply (core_inv _ p') in H2.
Qed.

Lemma inv_sealed s : SInv s → SInv (on_pump seal s).
Proof.
  intros [[[] [] []] K]. split; [split; split; try done | by intros [_ [_ [=]]]].
Qed.

Lemma inv_terminal c item e s : SInv s → 0 < item_size item → SInv (offer (try_enqueue_terminal c item e) item s).2.
Proof.
  intros HI Hi. pose proof (terminal_adm c item e (pump s)) as Ht. destruct (try_enqueue_terminal c item e (pump s)) as [r p'] eqn:E.
  destruct Ht as (p1 & Ha & [-> | ->]).
  - apply inv_offer; [done | done |]. by rewrite E.
  - pose proof (inv_offer (λ _, (r, p1)) item s HI Hi Ha) as H1. apply inv_sealed in H1. unfold offer in *. rewrite E. exact H1.
Qed.

(** ** Producers that wait *)

Lemma notify_length n : ∀ l, length (notify n l) = length l.
Proof. intros l. revert n. induction l as [| q l IH]; intros n; [done |]. simpl. destruct n, (pr_status q); simpl; auto. Qed.

Lemma notify_forall (P : producer → Prop) n : (∀ q, P q → P (set_status Woken q)) → ∀ l, Forall P l → Forall P (notify n l).
Proof.
  intros HP l. revert n. induction l as [| q l IH]; intros n Hl; [done |]. apply Forall_cons in Hl as [Hq Hl]. simpl.
  destruct n, (pr_status q); constructor; auto.
Qed.

Lemma notify_parked n l : Exists (λ q, pr_status q = Parked) (notify n l) → Exists (λ q, pr_status q = Parked) l.
Proof.
  revert n. induction l as [| q l IH]; intros n; [done |]. simpl. destruct (pr_status q) eqn:E.
  - intros _. by left.
  - destruct n; (intros [H | H]%Exists_cons; [congruence | right; eauto]).
  - destruct n; (intros [H | H]%Exists_cons; [congruence | right; eauto]).
Qed.

Lemma notify_awake e n l : Exists (awake e) l → Exists (awake e) (notify n l).
Proof.
  revert n. induction l as [| q l IH]; intros n; [by rewrite Exists_nil |]. intros [H | H]%Exists_cons; simpl.
  - destruct H as [[Hs He] | Hs]; rewrite Hs; destruct n; left; unfold awake; auto.
  - destruct n, (pr_status q); right; auto.
Qed.

(** A notification that finds a parked producer wakes one. *)
Lemma notify_wakes e n l : (0 < n)%nat → Forall (λ q, pr_status q = Parked → pr_epoch q = e) l →
  Exists (λ q, pr_status q = Parked) l → Exists (awake e) (notify n l).
Proof.
  intros Hn. destruct n as [| n]; [lia |]. clear Hn. induction l as [| q l IH]; [by rewrite Exists_nil |].
  intros [Hq Hl]%Forall_cons Hex. simpl. destruct (pr_status q) eqn:E.
  - left. left. auto.
  - right. apply IH; [done |]. apply Exists_cons in Hex as [? | ?]; [congruence | done].
  - left. right. done.
Qed.

Lemma notify_none l : ∀ n, (length l ≤ n)%nat → Forall (λ q, pr_status q ≠ Parked) (notify n l).
Proof.
  induction l as [| q l IH]; intros n Hn; [done |]. simpl in *. destruct n as [| n]; [lia |].
  destruct (pr_status q) eqn:E; constructor; simpl; try congruence; apply IH; lia.
Qed.

Lemma not_parked_epochs e l : Forall (λ q, pr_status q ≠ Parked) l → Forall (λ q, pr_status q = Parked → pr_epoch q = e) l.
Proof. intros H. eapply Forall_impl; [exact H |]. simpl. by intros q Hq ?%Hq. Qed.
Lemma not_parked_exists l : Forall (λ q, pr_status q ≠ Parked) l → ¬ Exists (λ q, pr_status q = Parked) l.
Proof. intros H (q & Hq & He)%Exists_exists. rewrite Forall_forall in H. by apply (H q Hq). Qed.

(** Everybody is told. *)
Lemma calm_told s e : Calm s → Calm (advance_epoch e s).
Proof.
  intros [[] [] [K1 K2 K3]]. split; [done | done |]. split; simpl.
  - rewrite K1. unfold notify_all, len. by rewrite notify_length.
  - by apply notify_forall.
  - by apply not_parked_epochs, notify_none.
Qed.
Lemma inv_told s e : Calm s → SInv (advance_epoch e s).
Proof. intros HC. split; [by apply calm_told |]. intros _ []%not_parked_exists. by apply notify_none. Qed.
Lemma inv_woken s : Calm s → SInv (wake_waiters s).
Proof.
  intros HC. pose proof (inv_told s (epoch (pump s)) HC) as H. unfold advance_epoch in H.
  replace (on_pump (set_epoch (epoch (pump s))) s) with s in H; [done |]. destruct s as [[] ? ? ? ? ?]. done.
Qed.

(** What the loop of a waiting producer decides. *)
Lemma after_wait_admit p b size e : Books p b → 0 < size → after_wait p size e = Admit → can_enqueue_size size p = true.
Proof.
  intros [Hq Hr _ Hf [Hb Hm] _ _] Hs. unfold after_wait, can_enqueue_size. destruct (stale e p); [done |].
  assert (queue_empty p = true → queued_bytes p = 0 → _resident_messages p = 0) as Hhatch.
  { intros He H0. apply Forall_app in Hf as [_ Hfb]. unfold queue_empty in He. destruct (queue p) eqn:Eq; [| done]. simpl in Hq.
    destruct b as [| i b]; [rewrite Hr; reflexivity |]. pose proof (sizes_pos (i :: b) Hfb). exfalso. assert (0 < sizes (i :: b)) by (by apply H). lia. }
  rewrite !Z.geb_leb, Z.gtb_ltb. destruct (Z.leb_spec (max_messages p) (_resident_messages p)); cbn [negb andb].
  - destruct (queue_empty p && (queued_bytes p =? 0)) eqn:E; [| done]. intros _. bools. exfalso. pose proof (Hhatch ltac:(done) ltac:(done)). lia.
  - destruct (Z.leb_spec (queued_bytes p + size) (max_bytes p)); [done |]. rewrite (proj2 (Z.ltb_lt _ _)) by lia. cbn [andb orb].
    destruct (_resident_messages p =? 0) eqn:E1, (queued_bytes p =? 0) eqn:E2, (queue_empty p) eqn:E3; cbn; try done.
    intros _. bools. rewrite Hhatch in E1 by done. done.
Qed.
Lemma after_wait_busy p b size e : Books p b → after_wait p size e = Wait → queue p ++ b ≠ [] ∧ e = epoch p.
Proof.
  intros [Hq Hr _ Hf [Hb Hm] _ _]. unfold after_wait. destruct (stale e p) eqn:Es; [done |]. apply not_stale in Es as (_ & _ & ->).
  intros H. split; [| done]. intros [Eq ->]%app_nil. rewrite Eq in *. unfold queue_empty in H. rewrite Eq in H. simpl in *.
  rewrite Hq in H. simpl in H. by repeat (case_match; simpl in *).
Qed.

Lemma inv_after_wait q s : Calm s → 0 < pr_size q ∧ pr_size q = item_size (pr_item q) →
  (after_wait (pump s) (pr_size q) (pr_epoch q) = Refuse → wakes s) → SInv (_enqueue_after_wait q s).2.
Proof.
  intros HC [Hs Ei] HK. unfold _enqueue_after_wait. destruct (after_wait _ _ _) eqn:E; cbn [snd].
  - apply inv_queued; [done | lia |]. rewrite <- Ei. eapply after_wait_admit; [apply HC | done | done].
  - destruct (after_wait_busy _ _ _ _ (s_books _ HC) E) as [Hbusy He]. destruct HC as [[] [] [K1 K2 K3]]. split; [split |].
    + done.
    + done.
    + split; simpl.
      * rewrite len_app, len_cons, len_nil. lia.
      * apply Forall_app. split; [done |]. by constructor.
      * apply Forall_app. split; [done |]. by constructor.
    + intros _ _. by right.
  - split; auto.
Qed.

Lemma inv_enqueue f id item nowait e s :
  SInv s → 0 < item_size item → (let '(r, p') := f (pump s) in adm item (pump s) r p') → SInv (enqueue_with f id item nowait e s).2.
Proof.
  intros HI Hi Hf. pose proof (inv_offer f item s HI Hi Hf) as H1. unfold enqueue_with. destruct (offer f item s) as [[[] | x] s1]; try done.
  destruct nowait; [done |]. apply inv_after_wait; [apply H1 | done | intros _; apply H1].
Qed.

(** A producer leaves the condition. *)
Lemma calm_leaves s l1 q l2 l : Calm s → parked s = l1 ++ q :: l2 → length l = length (l1 ++ l2) →
  (∀ P : producer → Prop, (∀ q, P q → P (set_status Woken q)) → Forall P (l1 ++ l2) → Forall P l) →
  Calm (set_parked l (on_pump (λ p, set_waiters (waiters p - 1) p) s)).
Proof.
  intros [[] [] [K1 K2 K3]] E Hlen Hl. rewrite E in K1, K2, K3. rewrite !Forall_app, !Forall_cons in K2, K3. destruct K2 as (? & _ & ?), K3 as (? & _ & ?).
  split; [by split | by split |]. split; simpl.
  - rewrite K1. unfold len. rewrite Hlen, !length_app. simpl. lia.
  - apply Hl; [done |]. by apply Forall_app.
  - apply Hl; [done |]. by apply Forall_app.
Qed.

Lemma inv_resume i s : SInv s → SInv (resume i s).2.
Proof.
  intros [HC HK]. unfold resume. destruct (parked s !! i) as [q |] eqn:Eq; [| done]. apply take_drop_middle in Eq.
  revert Eq. generalize (take i (parked s)), (drop (S i) (parked s)). intros l1 l2 Eq. symmetry in Eq. destruct (pr_status q) eqn:Est; [done | |].
  - assert (0 < pr_size q ∧ pr_size q = item_size (pr_item q)) as Hq.
    { destruct HC as [_ _ [_ K2 _]]. rewrite Eq, Forall_app, Forall_cons in K2. apply K2. }
    set (s1 := set_parked _ _). assert (Calm s1) as HC1 by (by apply (calm_leaves s l1 q l2)).
    apply inv_after_wait; [done | done |]. intros Hr Hs Hex.
    assert (pr_epoch q ≠ epoch (pump s)) as He.
    { intros E. destruct Hs as [[_ Hf] [_ Hse]]. unfold after_wait in Hr. simpl in Hf, Hse, Hr. unfold stale in Hr. simpl in Hr.
      rewrite Hse, Hf, E, Z.eqb_refl, bool_decide_false in Hr by (by intros []). cbn [orb negb] in Hr. by repeat case_match. }
    destruct (HK Hs) as [Ha | Ha]; [| left | by right].
    + rewrite Eq. simpl in Hex. apply Exists_app in Hex. apply Exists_app. destruct Hex; [by left | right; by right].
    + rewrite Eq in Ha. simpl. apply Exists_app in Ha. apply Exists_app. destruct Ha as [Ha | [[[_ Ha] | Ha] | Ha]%Exists_cons]; auto; congruence.
  - set (l := if waiters (pump s) >? 1 then notify 1 (l1 ++ l2) else l1 ++ l2). assert (Calm (set_parked l (on_pump (λ p, set_waiters (waiters p - 1) p) s))) as HC1.
    { apply (calm_leaves s l1 q l2); [done | done | |]; unfold l; case_match; auto using notify_length, notify_forall. }
    split; [exact HC1 |]. intros Hs Hex. simpl in Hex.
    assert (Exists (λ q, pr_status q = Parked) (l1 ++ l2)) as Hex' by (unfold l in Hex; case_match; eauto using notify_parked).
    left. simpl. unfold l. destruct HC as [_ _ [K1 _ K3]]. assert (waiters (pump s) >? 1 = true) as ->.
    { assert (0 < len (l1 ++ l2)) as Hlen.
      { apply Exists_exists in Hex' as (y & Hy & _). destruct (l1 ++ l2) as [| z k]; [by apply elem_of_nil in Hy |].
        rewrite len_cons. pose proof (len_nonneg k). lia. }
      rewrite K1, Eq, Z.gtb_ltb. apply Z.ltb_lt. rewrite len_app in *. rewrite len_cons. lia. }
    apply notify_wakes; [lia | | done]. rewrite Eq, Forall_app, Forall_cons in K3. apply Forall_app. tauto.
Qed.

Lemma inv_cancel i s : SInv s → SInv (cancel_producer i s).
Proof.
  intros [[HB HW [K1 K2 K3]] HK]. unfold cancel_producer. destruct (parked s !! i) as [q |] eqn:Eq; [| done].
  pose proof (take_drop_middle _ _ _ Eq) as E.
  revert E. generalize (take i (parked s)), (drop (S i) (parked s)). intros l1 l2 E. rewrite <- E in K1, K2, K3.
  rewrite !Forall_app, !Forall_cons in K2, K3. destruct K2 as (? & [? ?] & ?), K3 as (? & ? & ?). split; [split |].
  - by destruct HB.
  - by destruct HW.
  - split; simpl; rewrite ?Forall_app, ?Forall_cons; [| by split_and! | by split_and!].
    rewrite K1. unfold len. by rewrite !length_app.
  - intros Hs _. simpl. left. apply Exists_app. right. left. by right.
Qed.

(** ** The writer task *)

(** The pump once a batch has left it. *)
Definition finished (b : list WriteItem) p :=
  set_books (queued_bytes p - sizes b) (_resident_messages p - len b) (task_done (len b) (set_writing false p)).

Lemma books_finished p b : Books p b → Books (finished b p) [].
Proof.
  intros [Hq Hr Hu Hf Hl Hm Hb]. apply Forall_app in Hf as [Hf1 Hf2]. pose proof (sizes_len b Hf2). pose proof (len_nonneg b).
  pose proof (sizes_len _ Hf1). pose proof (len_nonneg (queue p)).
  split; simpl; rewrite ?app_nil_r, ?len_nil; try done; try lia.
  destruct Hb as [Hb | Hb]; [left; lia |]. destruct b as [| i b]; [right; simpl in *; rewrite len_nil in *; lia |].
  rewrite len_cons in *. pose proof (len_nonneg b). left. destruct (queue p) as [| j l]; [simpl in *; lia |]. rewrite len_cons in *.
  pose proof (len_nonneg l). lia.
Qed.

(** The accounting never fails. *)
Lemma finish_spec b completed owner s : Books (pump s) b → ∃ p', core p' = core (finished b (pump s)) ∧
  finish_batch b completed owner s = (Ok tt,
    set_parked (if completed && (waiters (pump s) >? 0) && negb owner
                then notify (Z.to_nat (Z.min (waiters (pump s)) (len b))) (parked s) else parked s) (on_pump (λ _, p') s)).
Proof.
  intros [Hq Hr Hu Hf Hl Hm Hb]. apply Forall_app in Hf as [Hf1 Hf2]. pose proof (sizes_len _ Hf1). pose proof (len_nonneg (queue (pump s))).
  pose proof (len_nonneg b). unfold finish_batch. set (p := set_books _ _ _). exists (set_books (queued_bytes p) (_resident_messages p - len b) p).
  unfold _release_resident. rewrite (proj2 (Z.ltb_ge _ _)) by done. rewrite Z.gtb_ltb, (proj2 (Z.ltb_ge _ _)) by (unfold p; simpl; lia).
  cbn [orb]. split.
  - unfold core, finished, p. simpl. rewrite Z.max_r by lia. done.
  - destruct s as [q l w st m a]. unfold p. simpl. by case_match.
Qed.

(** A writer that gives up. *)
Lemma inv_failed x s : Books (pump s) [] → wire (pump s) `prefix_of` flat (admitted s) → waiters (pump s) = len (parked s) →
  Forall (λ q, 0 < pr_size q ∧ pr_size q = item_size (pr_item q)) (parked s) → SInv (writer_failed x s).
Proof.
  intros [] Hp Hw Hf. split; [split; [by split | |] |].
  - split; simpl; try done. by intros [].
  - split; simpl.
    + rewrite Hw. unfold notify_all, len. by rewrite notify_length.
    + by apply notify_forall.
    + by apply not_parked_epochs, notify_none.
  - by intros [[[]]].
Qed.

Lemma core_fields p q : core p = core q → max_bytes p = max_bytes q ∧ max_messages p = max_messages q ∧ queue p = queue q ∧ unfinished p = unfinished q ∧
  queued_bytes p = queued_bytes q ∧ _resident_messages p = _resident_messages q ∧ waiters p = waiters q ∧ epoch p = epoch q ∧
  _writing p = _writing q ∧ _sealed p = _sealed q ∧ _latency_failure p = _latency_failure q ∧
  _write_nowait (pm p) = _write_nowait (pm q) ∧ wire p = wire q.
Proof. unfold core. intros H. injection H. naive_solver. Qed.

Lemma books_core p q b : core p = core q → Books q b → Books p b.
Proof.
  intros (E1 & E2 & E3 & E4 & E5 & E6 & _)%core_fields []. split; rewrite ?E1, ?E2, ?E3, ?E4, ?E5, ?E6; done.
Qed.

Lemma inv_batch_failed b x s : Books (pump s) b → wire (pump s) `prefix_of` flat (admitted s) → Waits s → SInv (batch_fails b x s).
Proof.
  intros Hb Hp [K1 K2 K3]. unfold batch_fails. destruct (finish_spec b false (stopping s) s Hb) as (p' & E & ->). cbn [andb].
  apply inv_failed; simpl.
  - eapply books_core; [exact E | by apply books_finished].
  - apply core_fields in E. destruct E as (_ & _ & _ & _ & _ & _ & _ & _ & _ & _ & _ & _ & ->). done.
  - apply core_fields in E. destruct E as (_ & _ & _ & _ & _ & _ & -> & _). done.
  - done.
Qed.

(** The bytes of a batch, however it is cut into writes. *)
Lemma write_contiguous_bytes many parts : concat (_write_contiguous many parts) = concat parts.
Proof. unfold _write_contiguous. destruct parts; [done |]. destruct many; [| done]. simpl. by rewrite app_nil_r. Qed.
Lemma mark_first_bytes ws : mbind w_bytes (mark_first ws) = mbind w_bytes ws.
Proof. by destruct ws. Qed.
Lemma plain_bytes l : mbind w_bytes (plain <$> l) = concat l.
Proof. induction l as [| b l IH]; [done |]. cbn. by rewrite <- IH. Qed.
Lemma batch_writes_bytes many batch : ∀ contiguous, mbind w_bytes (batch_writes many contiguous batch) = concat contiguous ++ flat batch.
Proof.
  induction batch as [| [b | h pl] batch IH]; intros contiguous; simpl.
  - by rewrite plain_bytes, write_contiguous_bytes, app_nil_r.
  - rewrite IH, concat_app. simpl. by rewrite app_nil_r, <- app_assoc.
  - rewrite bind_app, mark_first_bytes, plain_bytes, concat_app, write_contiguous_bytes, IH. simpl. by rewrite app_nil_r, <- !app_assoc.
Qed.
Lemma batch_writes_some many batch : ∀ contiguous, batch ≠ [] ∨ contiguous ≠ [] → batch_writes many contiguous batch ≠ [].
Proof.
  induction batch as [| [b | h pl] batch IH]; intros contiguous Hn; simpl.
  - destruct contiguous; [naive_solver |]. simpl. by destruct many.
  - apply IH. right. by destruct contiguous.
  - destruct (_write_contiguous many contiguous); by intros [=].
Qed.
Lemma count_segmented_core ws p : core (count_segmented ws p) = core p.
Proof. by destruct ws as [| [? []] ws]. Qed.

Lemma books_take n p : Books p [] → Books (set_queue (drop n (queue p)) (unfinished p) p) (take n (queue p)).
Proof.
  intros [Hq Hr Hu Hf Hl Hm Hb]. rewrite app_nil_r in Hf. rewrite len_nil in *. rewrite <- (take_drop n (queue p)) in Hq, Hr, Hu, Hf.
  rewrite sizes_app in Hq. rewrite len_app in Hr, Hu. apply Forall_app in Hf as [Hf1 Hf2]. simpl in Hq.
  split; simpl; try done; try lia. by apply Forall_app.
Qed.

Definition waiting_writer s : Prop := writer s = Ready ∨ writer s = Idle.

Lemma inv_take s : SInv s → waiting_writer s → queue (pump s) ≠ [] → SInv (take_batch s).
Proof.
  intros [[HB [W1 W2 W3 W4 W7 W5 W6] [K1 K2 K3]] HK] Hw Hne. assert (in_flight s = [] ∧ active s = []) as [Ei Eb].
  { unfold in_flight, active. by destruct Hw as [-> | ->]. }
  assert (live s) as Hl by (unfold live; by destruct Hw as [-> | ->]). rewrite Eb in HB. pose proof (books_take 256 _ HB) as HB'.
  unfold take_batch. set (p := set_writing true _). assert (Ep : core p = core (set_writing true
    (set_queue (drop 256 (queue (pump s))) (unfinished (pump s)) (pump s)))) by (unfold p, _sample_high_water; by repeat case_if).
  assert (take 256 (queue (pump s)) ≠ []) as Hb by (by destruct (queue (pump s))).
  assert (Hbooks : Books p (take 256 (queue (pump s)))) by (eapply books_core; [exact Ep |]; destruct HB'; by split).
  clearbody p. pose proof (core_fields _ _ Ep) as (_ & _ & Fq & _ & _ & _ & Fw & Fe & Fwr & Fs & Fl & Fn & Fi). simpl in *.
  rewrite Fl. destruct (_latency_failure (pump s)) as [x |] eqn:El.
  - apply inv_batch_failed; [exact Hbooks | simpl; by rewrite Fi | split; simpl; rewrite ?Fw, ?Fe; done].
  - assert (healthy s) as Hh by done. pose proof (batch_writes_some (write_many s) (take 256 (queue (pump s))) [] (or_introl Hb)) as Hws.
    pose proof (batch_writes_bytes (write_many s) (take 256 (queue (pump s))) []) as Hwb. simpl in Hwb.
    set (ws := batch_writes _ _ _) in *. set (t := set_writer _ _).
    assert (SInv (set_writer (Sending (take 256 (queue (pump s))) ws) (on_pump (λ _, p) s))) as H1.
    { split; [split; [exact Hbooks | |] |].
      - split; simpl; rewrite ?Fwr, ?Fl, ?Fn, ?Fi; try done.
        intros _. transitivity (wire (pump s) ++ in_flight s ++ flat (queue (pump s))); [exact (W5 Hh) |].
        rewrite Ei, Fq. unfold in_flight. cbn [writer set_writer app]. rewrite Hwb. f_equal. rewrite <- flat_app. by rewrite take_drop.
      - split; simpl; rewrite ?Fw, ?Fe; done.
      - intros _ _. right. unfold active. simpl. by intros [_ ?]%app_nil. }
    apply (core_inv _ (count_segmented ws p)) in H1; [exact H1 | apply count_segmented_core].
Qed.

Lemma inv_idle s t : SInv s → waiting_writer s → t = Ready ∨ t = Idle → SInv (set_writer t s).
Proof.
  intros [[HB [W1 W2 W3 W4 W7 W5 W6] [K1 K2 K3]] HK] Hw Ht. assert (live s) as Hl by (unfold live; by destruct Hw as [-> | ->]).
  unfold wakes, serving, healthy, live, active, in_flight in *.
  destruct Hw as [Ew | Ew], Ht as [-> | ->]; rewrite Ew in *; (split; [split; [exact HB | |] |]);
    unfold wakes, serving, healthy, live, active, in_flight; simpl; by (first [split | idtac]; simpl; rewrite ?Ew; auto).
Qed.

Lemma inv_loop_top s : SInv s → waiting_writer s → SInv (loop_top s).
Proof.
  intros HI Hw. unfold loop_top. set (arm := λ p, _). assert (SInv (on_pump arm s)) as H1.
  { apply (core_inv s (arm (pump s))) in HI; [exact HI |]. unfold arm. by case_if. }
  assert (waiting_writer (on_pump arm s)) as Hw1 by done. destruct (queue_empty _) eqn:E.
  - apply inv_idle; auto.
  - apply inv_take; [done | done |]. intros E0. unfold queue_empty in E. by rewrite E0 in E.
Qed.

(** What a batch in flight says. *)
Lemma sending_facts s b w ws : SInv s → writer s = Sending b (w :: ws) →
  Books (pump s) b ∧ b ≠ [] ∧ _latency_failure (pump s) = None ∧ healthy s ∧
  flat (admitted s) = wire (pump s) ++ w_bytes w ++ mbind w_bytes ws ++ flat (queue (pump s)).
Proof.
  intros [[HB [W1 W2 W3 W4 W7 W5 W6] _] _] Hw. unfold active in HB. rewrite Hw in HB, W2. destruct W2 as (Hb & _ & Hl).
  assert (healthy s) as Hh by (split; [unfold live; by rewrite Hw | done]). split_and!; try done.
  rewrite (W5 Hh). unfold in_flight. rewrite Hw. cbn. by rewrite <- app_assoc.
Qed.

Lemma inv_written t s : SInv s → SInv (written t s).
Proof.
  intros HI. unfold written. destruct (writer s) as [| | | b [| w ws] |] eqn:Hw; try done.
  destruct (sending_facts s b w ws HI Hw) as (HB & Hb & Hl & Hh & Ho). pose proof HI as [[_ [W1 W2 W3 W4 W7 W5 W6] HK] Hwk].
  assert (Hp : wire (pump s) ++ w_bytes w `prefix_of` flat (admitted s)).
  { rewrite Ho, app_assoc. by apply prefix_app_r. }
  destruct ws as [| w' ws].
  - set (s1 := on_pump (set_tally _) _). assert (Books (pump s1) b) as HB1 by (destruct HB; by split).
    destruct (finish_spec b true (stopping s1) s1 HB1) as (p' & E & ->). cbn [andb].
    pose proof (core_fields _ _ E) as (F1 & F2 & Fq & F3 & F4 & F5 & Fw & Fe & Fwr & Fs & Fl & Fn & Fi). simpl in *.
    match goal with |- context [set_parked ?l0 ?s0] => set (l := l0); set (s2 := set_parked l s0) end.
    assert (Hlen : length l = length (parked s)) by (unfold l; match goal with |- context [if ?c then _ else _] => destruct c end; [apply notify_length | done]).
    assert (Hall : ∀ P : producer → Prop, (∀ q, P q → P (set_status Woken q)) → Forall P (parked s) → Forall P l).
    { intros P HP Hf. unfold l. match goal with |- context [if ?c then _ else _] => destruct c end; [by apply notify_forall | done]. }
    assert (SInv (set_writer Idle s2)) as H2.
    { split; [split | ].
      - eapply books_core; [exact E |]. by apply books_finished.
      - split; unfold in_flight; simpl; rewrite ?Fwr, ?Fl, ?Fn, ?Fi, ?Fq; try done. by rewrite Ho, <- app_assoc.
      - destruct HK as [K1 K2 K3]. split; simpl; rewrite ?Fw, ?Fe; [rewrite K1; unfold len; by rewrite Hlen | by apply Hall | by apply Hall].
      - intros (_ & Hst & _) Hex. left. simpl in *. rewrite Fe. destruct HK as [K1 K2 K3].
        assert (Exists (λ q, pr_status q = Parked) (parked s)) as Hex' by (unfold l in Hex; match type of Hex with context [if ?c then _ else _] => destruct c end; eauto using notify_parked).
        assert (0 < len (parked s)) as Hpos.
        { apply Exists_exists in Hex' as (q & Hq & _). destruct (parked s) as [| y k]; [by apply elem_of_nil in Hq |].
          rewrite len_cons. pose proof (len_nonneg k). lia. }
        assert (0 < len b) as Hbpos by (destruct b as [| i k]; [done |]; rewrite len_cons; pose proof (len_nonneg k); lia).
        unfold l. rewrite K1, Hst. rewrite Z.gtb_ltb, (proj2 (Z.ltb_lt _ _)) by done. cbn [andb negb].
        apply notify_wakes; [lia | done | done]. }
    exact (inv_loop_top _ H2 (or_intror eq_refl)).
  - assert (SInv (set_writer (Sending b (w' :: ws)) (on_pump (give (w_bytes w)) s))) as H1.
    { split; [split | ].
      - destruct HB. by split.
      - split; unfold in_flight; simpl; rewrite Hw in *; try done. intros _. rewrite Ho. cbn. by rewrite <- !app_assoc.
      - destruct HK. by split.
      - unfold wakes, serving, healthy, live, active in *. rewrite Hw in Hwk. exact Hwk. }
    apply (core_inv _ (count_segmented (w' :: ws) (give (w_bytes w) (pump s)))) in H1; [exact H1 | apply count_segmented_core].
Qed.

Lemma prefix_take_app {A} k (l r : list A) : take k l `prefix_of` l ++ r.
Proof. rewrite <- (take_drop k l) at 2. rewrite <- app_assoc. apply prefix_app_r. done. Qed.

Lemma inv_write_fails k x s : SInv s → SInv (write_fails k x s).
Proof.
  intros HI. unfold write_fails. destruct (writer s) as [| | | b [| w ws] |] eqn:Hw; try done.
  destruct (sending_facts s b w ws HI Hw) as (HB & Hb & Hl & Hh & Ho). pose proof HI as [[_ _ [K1 K2 K3]] _].
  apply inv_batch_failed; [destruct HB; by split | | by split]. simpl. rewrite Ho. apply prefix_app, prefix_take_app.
Qed.

Lemma inv_ended s : SInv s → _writing (pump s) = false → _write_nowait (pm (pump s)) = false → SInv (set_writer Off s).
Proof.
  intros HI Hw Hn. destruct (not_sending s (s_calm _ HI) Hw) as [_ Eb]. destruct HI as [[HB [W1 W2 W3 W4 W7 W5 W6] [K1 K2 K3]] HK].
  rewrite Eb in HB. split; [split; [exact HB | | by split] |].
  - split; simpl; try done. congruence. by intros [].
  - by intros [[]].
Qed.

Lemma inv_cancelled k s : SInv s → stopping s = true → SInv (writer_cancelled k s).
Proof.
  intros HI Hst. assert (_write_nowait (pm (pump s)) = false) as Hn by exact (w_stopping _ (s_wire _ (s_calm _ HI)) Hst). unfold writer_cancelled.
  destruct (writer s) as [| | | b [| w ws] |] eqn:Hw.
  1, 2, 3, 6: apply inv_ended; try done; destruct HI as [[_ [W1 _ _ _ _ _ _] _] _]; by rewrite Hw in W1.
  - exfalso. destruct HI as [[_ [_ W2 _ _ _ _ _] _] _]. rewrite Hw in W2. by destruct W2 as (_ & ? & _).
  - destruct (sending_facts s b w ws HI Hw) as (HB & Hb & Hl & Hh & Ho). destruct HI as [[_ [W1 W2 W3 W4 W7 W5 W6] [K1 K2 K3]] HK].
    set (s1 := on_pump _ s). assert (Books (pump s1) b) as HB1 by (destruct HB; by split).
    destruct (finish_spec b false true s1 HB1) as (p' & E & ->). cbn [andb snd].
    pose proof (core_fields _ _ E) as (F1 & F2 & Fq & F3 & F4 & F5 & Fw & Fe & Fwr & Fs & Fl & Fn & Fi). simpl in *.
    split; [split; [eapply books_core; [exact E |]; by apply books_finished | |] |].
    + split; simpl; rewrite ?Fwr, ?Fl, ?Fn, ?Fi; try done; [congruence | by intros [] |]. rewrite Ho. apply prefix_app, prefix_take_app.
    + split; simpl; rewrite ?Fw, ?Fe; done.
    + by intros [[]].
Qed.

(** ** The latency shortcut *)

Lemma put_all items : ∀ p, foldl (λ p i, put_nowait i p) p items = set_queue (queue p ++ items) (unfinished p + len items) p.
Proof.
  induction items as [| i items IH]; intros p; simpl.
  - rewrite app_nil_r, len_nil, Z.add_0_r. by destruct p.
  - rewrite IH, len_cons. unfold put_nowait, set_queue. cbn [queue unfinished]. f_equal; [by rewrite <- app_assoc | cbn; lia].
Qed.
Lemma restore_eq items p : queue p = [] → _restore_latency_items items p = set_queue items (unfinished p) p.
Proof. intros Hq. unfold _restore_latency_items. rewrite put_all, Hq. unfold task_done, set_queue. cbn. f_equal. lia. Qed.

(** The shortcut sends the whole queue or leaves the pump as it was. *)
Inductive flushed (c : call) p : res bool → WritePump → Prop :=
  | fl_declined p' : core p' = core p → flushed c p (Ok false) p'
  | fl_sent p' : _write_nowait (pm p) = true → _writing p = false → waiters p = 0 → _latency_failure p = None →
      core p' = core (give (flat (queue p)) (finished (queue p) (set_queue [] (unfinished p) p))) → flushed c p (Ok true) p'
  | fl_failed x k y p' : asked c = Failed k y → _write_nowait (pm p) = true → _writing p = false → waiters p = 0 → _latency_failure p = None →
      core p' = core (fenced x (take k (flat (queue p))) p) → flushed c p (Raise x) p'.

Lemma flush_spec c p : Books p [] → (is_Some (_latency_failure p) → _write_nowait (pm p) = false) ∨ _writing p = true →
  let '(r, p') := _try_flush_latency_batch c p in flushed c p r p'.
Proof.
  intros HB Hf. unfold _try_flush_latency_batch. case_if; [by constructor |]. destruct (_ || negb (waiters p =? 0)) eqn:Eg; [by constructor |].
  repeat (apply orb_false_iff in Eg as [Eg ?]). repeat match goal with H : negb _ = false |- _ => apply negb_false_iff in H end. bools.
  destruct Hf as [Hf | Hf]; [| congruence]. assert (_latency_failure p = None) as Hl.
  { destruct (_latency_failure p); [| done]. rewrite Hf in Eg by done. done. }
  set (p0 := _sample_high_water _ p). assert (core p0 = core p) as E0 by (unfold p0, _sample_high_water; by repeat case_if).
  clearbody p0. set (p1 := set_queue [] (unfinished p0) p0). assert (queue p1 = []) as Eq1 by done.
  assert (Hrest : core (_restore_latency_items (queue p0) p1) = core p).
  { rewrite restore_eq by done. rewrite <- E0. unfold core. done. }
  case_if; [by constructor |]. pose proof (core_fields _ _ E0) as (F1 & F2 & Fq & Fu & Fb & Fr & Fw & Fe & Fwr & Fs & Fl & Fn & Fi).
  destruct (asked c) as [| | k x] eqn:Ea.
  - destruct HB as [Hq Hr Hu _ _ _ _]. rewrite len_nil in *. simpl in Hq.
    set (p2 := set_books _ _ _). unfold _release_resident. rewrite (proj2 (Z.ltb_ge _ _)) by apply len_nonneg.
    rewrite Z.gtb_ltb, (proj2 (Z.ltb_ge _ _)) by (unfold p2; simpl; lia). cbn [orb].
    assert (queued_bytes p0 - len (flat (queue p0)) = 0) as Hz by (rewrite len_flat, Fb, Fq; lia).
    unfold p2. cbn [queued_bytes set_books give set_wire task_done set_queue p1]. rewrite Hz. cbn [Z.eqb negb].
    apply fl_sent; try done. unfold core, finished, p1. simpl. rewrite F1, F2, Fq, Fu, Fr, Fw, Fe, Fwr, Fs, Fl, Fn, Fi.
    repeat f_equal; first [lia | done].
  - by constructor.
  - apply (fl_failed _ _ _ k x); try done. rewrite restore_eq by done. unfold fenced, core, p1. simpl.
    by rewrite F1, F2, Fq, Fu, Fb, Fr, Fw, Fe, Fwr, Fs, Fi.
Qed.

Lemma flush_busy c p : _writing p = true → _try_flush_latency_batch c p = (Ok false, p).
Proof. intros Hw. unfold _try_flush_latency_batch. case_if; [done |]. by rewrite Hw, orb_true_r. Qed.

Lemma inv_flush c s : SInv s → SInv (on_pump (λ _, (_try_flush_latency_batch c (pump s)).2) s).
Proof.
  intros HI. destruct (_writing (pump s)) eqn:Ew.
  { rewrite flush_busy by done. by apply core_inv. }
  destruct (not_sending s (s_calm _ HI) Ew) as [Ei Eb]. pose proof (s_books _ (s_calm _ HI)) as HB. rewrite Eb in HB.
  pose proof (flush_spec c (pump s) HB (or_introl (w_fenced _ (s_wire _ (s_calm _ HI))))) as Hf.
  destruct (_try_flush_latency_batch c (pump s)) as [r p']. cbn [snd].
  inversion Hf as [q E | q Hn Hw Hz Hl E | x k y q _ Hn Hw Hz Hl E]; subst.
  - by apply core_inv.
  - pose proof (no_waiters s (s_calm _ HI) Hz) as Ep. pose proof (books_finished _ _ (books_take (length (queue (pump s))) _ HB)) as HB'.
    rewrite drop_all, take_ge in HB' by done. destruct HI as [[_ [W1 W2 W3 W4 W7 W5 W6] [K1 K2 K3]] HK].
    set (p1 := give _ _) in *. assert (SInv (on_pump (λ _, p1) s)) as H1.
    { assert (healthy s) as Hh by (split; auto). pose proof (W5 Hh) as Ho. rewrite Ei in Ho. simpl in Ho.
      split; [split | ].
      - unfold active in *. simpl. rewrite Eb. destruct HB'. by split.
      - split; simpl; try done; [by rewrite Ew in W1 | | by rewrite Ho].
        intros _. change (in_flight (on_pump (λ _, p1) s)) with (in_flight s). rewrite Ei, Ho. by rewrite app_nil_r.
      - split; simpl; rewrite ?Ep in *; done.
      - intros _. simpl. rewrite Ep. by intros ?%Exists_nil. }
    apply (core_inv _ p') in H1; [exact H1 | exact E].
  - pose proof (inv_fenced s x (take k (flat (queue (pump s)))) [] HI Hn Hw Hz Hl) as H1.
    assert (SInv (set_admitted (admitted s) (on_pump (fenced x (take k (flat (queue (pump s))))) s))) as H2.
    { apply H1; [apply prefix_take_app | by rewrite app_nil_r]. }
    apply (core_inv _ p') in H2; [| exact E]. by destruct s.
Qed.

(** ** Every step *)

Lemma inv_connect write_nowait many s : SInv s → writer s = Off → Forall (λ q, pr_status q ≠ Parked) (parked s) → stopping s = false →
  SInv (connect write_nowait many s).2.
Proof.
  intros [[[_ _ _ _ Hl _ _] _ [K1 K2 _]] _] Hw Hp Hst. unfold connect. simpl. rewrite Hw. simpl. split; [split | ].
  - split; simpl; try done; try lia.
  - split; simpl; try done; congruence.
  - split; simpl; [done | done | by apply not_parked_epochs].
  - intros _ []%not_parked_exists. done.
Qed.

Lemma discard_spec s : SInv s → active s = [] → ∃ p', discard (pump s) = (Ok tt, p') ∧
  core p' = core (set_books 0 0 (set_queue [] 0 (set_writing false (_drop_eager_binding (pump s))))).
Proof.
  intros [[[Hq Hr Hu _ _ _ _] _ _] _] Hb. rewrite Hb, len_nil in *. unfold discard.
  set (p := set_writing _ _). assert (core p = core (set_writing false (_drop_eager_binding (pump s)))) as E.
  { unfold p, _sample_high_water. by repeat case_if. }
  clearbody p. apply core_fields in E as (F1 & F2 & Fq & Fu & Fb & Fr & Fw & Fe & Fwr & Fs & Fl & Fn & Fi). simpl in *.
  unfold _release_resident. simpl. rewrite (proj2 (Z.ltb_ge _ _)) by apply len_nonneg.
  rewrite Z.gtb_ltb, (proj2 (Z.ltb_ge _ _)) by (rewrite Fr, Fq; lia). cbn [orb]. eexists. split; [done |].
  unfold core. simpl. rewrite F1, F2, Fw, Fe, Fwr, Fs, Fl, Fn, Fi, Fr, Fu, Fq. repeat f_equal; lia.
Qed.

Lemma inv_discard s : SInv s → ¬ live s → SInv (on_pump (λ _, (discard (pump s)).2) s).
Proof.
  intros HI Hl. assert (active s = []) as Hb by (unfold active, live in *; by destruct (writer s)).
  destruct (discard_spec s HI Hb) as (p' & -> & E). cbn [snd]. set (p1 := set_books _ _ _) in E.
  assert (SInv (on_pump (λ _, p1) s)) as H1; [| apply (core_inv _ p') in H1; [exact H1 | exact E]].
  destruct HI as [[[_ _ _ _ Hli _ _] [W1 W2 W3 W4 W7 W5 W6] [K1 K2 K3]] HK]. split; [split | ].
  - unfold active in *. simpl. rewrite Hb. split; simpl; try done; rewrite ?len_nil; lia.
  - split; simpl; try done; unfold live in Hl; try by destruct (writer s).
    intros [Hh _]. by destruct Hl.
  - by split.
  - by intros [[]].
Qed.

(** What the client may ask for, and what may happen.  Frames have bytes.  The
    client starts a connection when the writer of the last one has ended and every
    waiting producer has been told, discards the queue when no batch is in flight,
    and the writer is cancelled by [stop] alone. *)
Definition allowed (l : step_label) s : Prop :=
  match l with
  | Connect _ _ => writer s = Off ∧ stopping s = false ∧ Forall (λ q, pr_status q ≠ Parked) (parked s)
  | Enqueue _ item _ _ | TryEnqueue _ item _ | Terminal _ item _ => 0 < item_size item
  | EnqueueAck _ b _ _ | TryAck _ b _ => 0 < len b
  | WriterRuns | Written _ => stopping s = false
  | WriteFails _ x => stopping s = true → x ≠ CancelledError
  | WriterCancelled _ => stopping s = true
  | StopEnd => writer s = Off
  | Discard => ¬ live s
  | _ => True
  end.

Lemma run_inv l s : SInv s → allowed l s → SInv (run l s).2.
Proof.
  intros HI. destruct l; cbn [allowed run]; intros Ha.
  - destruct Ha as (? & ? & ?). by apply inv_connect.
  - apply inv_enqueue; [done | done |]. apply try_enqueue_adm.
  - apply (inv_enqueue _ (current c) (Contiguous b)); [done | done |]. apply try_ack_adm.
  - apply inv_offer; [done | done |]. apply try_enqueue_adm.
  - apply (inv_offer _ (Contiguous b)); [done | done |]. apply try_ack_adm.
  - by apply inv_terminal.
  - pose proof (inv_flush c s HI) as H. by destruct (_try_flush_latency_batch c (pump s)) as [[] p'].
  - by apply inv_resume.
  - by apply inv_cancel.
  - destruct (soon (pump s)) as [| g gs]; [done |]. apply core_inv; [| done]. unfold _rearm_eager_if_idle. by repeat case_if.
  - by apply core_inv.
  - apply core_inv; [| done]. unfold rearm_deferred_ack. by case_if.
  - by apply inv_sealed.
  - by apply inv_told, HI.
  - by apply inv_woken, HI.
  - destruct (writer s) eqn:Ew; try done.
    + apply inv_loop_top; [done | by left].
    + destruct (queue_empty (pump s)) eqn:E; [done |]. apply inv_take; [done | by right |]. intros E0. unfold queue_empty in E. by rewrite E0 in E.
  - by apply inv_written.
  - by apply inv_write_fails.
  - by apply inv_cancelled.
  - destruct (writer s) eqn:Ew; try done. destruct HI as [[HB [W1 W2 W3 W4 W7 W5 W6] [K1 K2 K3]] HK]. unfold active, live, in_flight in *.
    rewrite Ew in *. split; [split; [done | |] |].
    + split; simpl; try done. by intros [].
    + by split.
    + by intros [[]].
  - destruct HI as [[HB [W1 W2 W3 W4 W7 W5 W6] [K1 K2 K3]] HK].
    assert (SInv (set_stopping true (on_pump _drop_eager_binding s))) as H1.
    { split; [split | by intros (_ & [=] & _)]; [destruct HB; by split | split; simpl; done | by split]. }
    unfold stop_begin. simpl. destruct (writer s) eqn:Ew; [| exact H1..].
    destruct H1 as [[HB1 [V1 V2 V3 V4 V7 V5 V6] [L1 L2 L3]] HK1]. split; [split | intros [[Hl _] _]].
    + exact HB1.
    + by split.
    + by split.
    + unfold live in Hl. simpl in Hl. by rewrite Ew in Hl.
  - destruct HI as [[HB [W1 W2 W3 W4 W7 W5 W6] [K1 K2 K3]] HK]. split; [split | intros [[Hl _] _]].
    + destruct HB. by split.
    + split; simpl; try done; rewrite Ha; try done; by rewrite Ha in W1.
    + by split.
    + unfold live in Hl. simpl in Hl. by rewrite Ha in Hl.
  - pose proof (inv_discard s HI Ha) as H. by destruct (discard (pump s)) as [r p'].
Qed.

Lemma inv_init max_bytes max_messages : 0 ≤ max_bytes → 1 ≤ max_messages → SInv (mkSys (WritePump_init max_bytes max_messages) [] Off false false []).
Proof.
  intros Hb Hm. split; [split | by intros [[]]].
  - split; simpl; try done; lia.
  - split; simpl; try done.
  - by split.
Qed.

(** The states a pump reaches. *)
Inductive reachable (max_bytes max_messages : Z) : Sys → Prop :=
  | reach_init : reachable max_bytes max_messages (mkSys (WritePump_init max_bytes max_messages) [] Off false false [])
  | reach_step l s : reachable max_bytes max_messages s → allowed l s → reachable max_bytes max_messages (run l s).2.

Lemma pump_reachable_inv max_bytes max_messages s : 0 ≤ max_bytes → 1 ≤ max_messages → reachable max_bytes max_messages s → SInv s.
Proof. intros Hb Hm. induction 1; [by apply inv_init | by apply run_inv]. Qed.
