(* ===== verification/WriterTheorems.v ===== *)
(** * What the write pump promises

    Its bounds, the order of the bytes on the wire, and that nobody waits for
    ever. *)

From S2P Require Import Prelude Types WritePump WriterInv.

Implicit Types (p : WritePump) (item : WriteItem) (s : Sys).

(** ** Silence after a failure *)

(** The only steps that reach the transport are those of a bound producer and of a
    writer inside a batch. *)
Lemma offer_silent f item s : _write_nowait (pm (pump s)) = false → (let '(r, p') := f (pump s) in adm item (pump s) r p') →
  wire (pump (offer f item s).2) = wire (pump s).
Proof.
  intros Hn Hf. unfold offer. destruct (f (pump s)) as [r p']. cbn [snd]. simpl.
  inversion Hf as [| Hc | q Hs Hl Hc E | q Hl [Hfree _] E | b x k q -> Hl [Hfree _] Hc E]; subst; try congruence.
  apply core_fields in E as (_ & _ & _ & _ & _ & _ & _ & _ & _ & _ & _ & _ & ->). done.
Qed.

Lemma terminal_silent c item e s : _write_nowait (pm (pump s)) = false → wire (pump (offer (try_enqueue_terminal c item e) item s).2) = wire (pump s).
Proof.
  intros Hn. pose proof (terminal_adm c item e (pump s)) as Ht. destruct (try_enqueue_terminal c item e (pump s)) as [r p'] eqn:E.
  destruct Ht as (p1 & Ha & Hp). pose proof (offer_silent (λ _, (r, p1)) item s Hn Ha) as H. unfold offer in *. rewrite E. simpl in *.
  by destruct Hp as [-> | ->].
Qed.

Lemma after_wait_silent q s : wire (pump (_enqueue_after_wait q s).2) = wire (pump s).
Proof. unfold _enqueue_after_wait. by destruct (after_wait _ _ _). Qed.

Lemma enqueue_silent f id item nowait e s : _write_nowait (pm (pump s)) = false →
  (let '(r, p') := f (pump s) in adm item (pump s) r p') → wire (pump (enqueue_with f id item nowait e s).2) = wire (pump s).
Proof.
  intros Hn Hf. pose proof (offer_silent f item s Hn Hf) as H. unfold enqueue_with. destruct (offer f item s) as [[[] | x] s1]; try done.
  destruct nowait; [done |]. by rewrite after_wait_silent.
Qed.

Lemma resume_silent i s : wire (pump (resume i s).2) = wire (pump s).
Proof. unfold resume. destruct (parked s !! i) as [q |]; [| done]. destruct (pr_status q); [done | | done]. by rewrite after_wait_silent. Qed.

Lemma finish_silent b c o s : wire (pump (finish_batch b c o s).2) = wire (pump s).
Proof. unfold finish_batch, _release_resident. case_if; [done |]. cbn [snd]. by case_if. Qed.

Lemma batch_fails_silent b x s : wire (pump (batch_fails b x s)) = wire (pump s).
Proof.
  unfold batch_fails. pose proof (finish_silent b false (stopping s) s) as H. by destruct (finish_batch _ _ _ _) as [[[] | y] s1].
Qed.

Lemma take_batch_silent s : wire (pump (take_batch s)) = wire (pump s).
Proof.
  unfold take_batch. set (p := set_writing true _). assert (wire p = wire (pump s)) as E by done. clearbody p.
  destruct (_latency_failure p); [by rewrite batch_fails_silent |]. simpl.
  assert (∀ ws, wire (count_segmented ws p) = wire p) as H by (by intros [| [? []] ?]). by rewrite H.
Qed.
Lemma loop_top_silent s : wire (pump (loop_top s)) = wire (pump s).
Proof.
  unfold loop_top. set (arm := λ p, _). assert (wire (pump (on_pump arm s)) = wire (pump s)) as E by (simpl; unfold arm; by case_if).
  clearbody arm. case_if; [exact E | by rewrite take_batch_silent].
Qed.

Lemma run_silent l s : SInv s → ¬ healthy s → (∀ nw many, l ≠ Connect nw many) → wire (pump (run l s).2) = wire (pump s).
Proof.
  intros HI Hh Hl. assert (Hn : _write_nowait (pm (pump s)) = false).
  { destruct (s_wire _ (s_calm _ HI)) as [_ _ W3 W4 _ _ _]. destruct (_write_nowait (pm (pump s))) eqn:E; [| done]. exfalso. apply Hh.
    split; [by apply W4 |]. destruct (_latency_failure (pump s)) eqn:El; [| done]. discriminate (W3 ltac:(by eexists)). }
  assert (Hs : ∀ b ws, writer s ≠ Sending b ws).
  { intros b ws E. apply Hh. destruct (s_wire _ (s_calm _ HI)) as [_ W2 _ _ _ _ _]. rewrite E in W2. split; [unfold live; by rewrite E | apply W2]. }
  destruct l; cbn [run outcome quiet_step fst snd]; try done.
  - by destruct (Hl write_nowait many).
  - apply enqueue_silent; [done | apply try_enqueue_adm].
  - apply (enqueue_silent _ _ (Contiguous b)); [done | apply try_ack_adm].
  - apply offer_silent; [done | apply try_enqueue_adm].
  - apply (offer_silent _ (Contiguous b)); [done | apply try_ack_adm].
  - by apply terminal_silent.
  - unfold _try_flush_latency_batch. case_if; [done |]. by rewrite Hn.
  - apply resume_silent.
  - unfold cancel_producer. by case_match.
  - destruct (soon (pump s)); [done |]. simpl. unfold _rearm_eager_if_idle. by repeat case_if.
  - simpl. unfold rearm_deferred_ack. by case_if.
  - destruct (writer s); try done; [by rewrite loop_top_silent |]. case_if; [done | by rewrite take_batch_silent].
  - unfold written. destruct (writer s) as [| | | b [| w ws] |] eqn:E; try done. by destruct (Hs b (w :: ws)).
  - unfold write_fails. destruct (writer s) as [| | | b [| w ws] |] eqn:E; try done. by destruct (Hs b (w :: ws)).
  - unfold writer_cancelled. destruct (writer s) as [| | | b [| w ws] |] eqn:E; try done. by destruct (Hs b (w :: ws)).
  - by destruct (writer s).
  - unfold stop_begin. by destruct (writer _).
  - unfold discard, _release_resident. by case_if.
Qed.

(** ** The bounds *)

Definition limits s := (max_bytes (pump s), max_messages (pump s)).

Lemma adm_limits item p r p' : adm item p r p' → (max_bytes p', max_messages p') = (max_bytes p, max_messages p).
Proof. by destruct 1 as [| | q ? ? ? (-> & -> & _)%core_fields | q ? ? (-> & -> & _)%core_fields | ? ? ? q ? ? ? ? (-> & -> & _)%core_fields]. Qed.
Lemma offer_limits f item s : (let '(r, p') := f (pump s) in adm item (pump s) r p') → limits (offer f item s).2 = limits s.
Proof. intros Hf. unfold offer. destruct (f (pump s)) as [r p']. by apply adm_limits in Hf. Qed.
Lemma after_wait_limits q s : limits (_enqueue_after_wait q s).2 = limits s.
Proof. unfold _enqueue_after_wait. by destruct (after_wait _ _ _). Qed.
Lemma enqueue_limits f id item nowait e s : (let '(r, p') := f (pump s) in adm item (pump s) r p') →
  limits (enqueue_with f id item nowait e s).2 = limits s.
Proof.
  intros Hf. pose proof (offer_limits f item s Hf) as H. unfold enqueue_with. destruct (offer f item s) as [[[] | x] s1]; try done.
  destruct nowait; [done |]. by rewrite after_wait_limits.
Qed.
Lemma finish_limits b c o s : limits (finish_batch b c o s).2 = limits s.
Proof. unfold finish_batch, _release_resident. case_if; [done |]. cbn [snd]. by case_if. Qed.
Lemma batch_fails_limits b x s : limits (batch_fails b x s) = limits s.
Proof.
  unfold batch_fails. pose proof (finish_limits b false (stopping s) s) as H. by destruct (finish_batch _ _ _ _) as [[[] | y] s1].
Qed.
Lemma take_batch_limits s : limits (take_batch s) = limits s.
Proof.
  unfold take_batch. set (p := set_writing true _). assert (limits (on_pump (λ _, p) s) = limits s) as E by done. clearbody p.
  destruct (_latency_failure p); [by rewrite batch_fails_limits |]. rewrite <- E. unfold limits. simpl.
  pose proof (count_segmented_core (batch_writes (write_many s) [] (take 256 (queue (_sample_high_water (len (queue (pump s))) (pump s))))) p) as
    (Eb & Em & _)%core_fields. simpl in *. congruence.
Qed.
Lemma loop_top_limits s : limits (loop_top s) = limits s.
Proof.
  unfold loop_top. set (arm := λ p, _). assert (limits (on_pump arm s) = limits s) as E by (unfold limits; simpl; unfold arm; by case_if).
  clearbody arm. case_if; [exact E | by rewrite take_batch_limits].
Qed.

Lemma flushed_limits c p r p' : flushed c p r p' → (max_bytes p', max_messages p') = (max_bytes p, max_messages p).
Proof. by destruct 1 as [q (-> & -> & _)%core_fields | q ? ? ? ? (-> & -> & _)%core_fields | ? ? ? q ? ? ? ? ? (-> & -> & _)%core_fields]. Qed.

Lemma run_limits l s : SInv s → limits (run l s).2 = limits s.
Proof.
  intros HI. destruct l; cbn [run outcome quiet_step fst snd]; try done.
  - unfold connect. simpl. by destruct (writer s).
  - apply enqueue_limits, try_enqueue_adm.
  - apply (enqueue_limits _ _ (Contiguous b)), try_ack_adm.
  - apply offer_limits, try_enqueue_adm.
  - apply (offer_limits _ (Contiguous b)), try_ack_adm.
  - pose proof (terminal_adm c item e (pump s)) as Ht. unfold offer. destruct (try_enqueue_terminal _ _ _ _) as [r p'].
    by destruct Ht as (p1 & Ha%adm_limits & [-> | ->]).
  - destruct (_writing (pump s)) eqn:Ew; [by rewrite flush_busy |].
    destruct (not_sending s (s_calm _ HI) Ew) as [_ Eb]. pose proof (s_books _ (s_calm _ HI)) as HB. rewrite Eb in HB.
    pose proof (flush_spec c (pump s) HB (or_introl (w_fenced _ (s_wire _ (s_calm _ HI))))) as Hf.
    destruct (_try_flush_latency_batch c (pump s)) as [r p']. apply flushed_limits in Hf. by destruct r.
  - unfold resume. destruct (parked s !! i) as [q |]; [| done]. destruct (pr_status q); [done | | done]. by rewrite after_wait_limits.
  - unfold cancel_producer. by case_match.
  - destruct (soon (pump s)); [done |]. unfold limits. simpl. unfold _rearm_eager_if_idle. by repeat case_if.
  - unfold limits. simpl. unfold rearm_deferred_ack. by case_if.
  - destruct (writer s); try done; [by rewrite loop_top_limits |]. case_if; [done | by rewrite take_batch_limits].
  - unfold written. destruct (writer s) as [| | | b [| w ws] |] eqn:E; try done. destruct ws as [| [? []] ws]; [| done..].
    match goal with |- context [finish_batch ?b ?c ?o ?s1] => pose proof (finish_limits b c o s1) as H; destruct (finish_batch b c o s1) as [[[] | y] s2] end.
    + rewrite loop_top_limits. done.
    + done.
  - unfold write_fails. destruct (writer s) as [| | | b [| w ws] |] eqn:E; try done. by rewrite batch_fails_limits.
  - unfold writer_cancelled. destruct (writer s) as [| | | b [| w ws] |] eqn:E; try done.
    match goal with |- context [finish_batch ?b ?c ?o ?s1] => pose proof (finish_limits b c o s1) as H; by destruct (finish_batch b c o s1) end.
  - by destruct (writer s).
  - unfold stop_begin. by destruct (writer _).
  - unfold discard, _release_resident. by case_if.
Qed.

(** ** Nobody waits for ever *)

(** A loop that runs a waiting producer that can go on, if there is one, and else
    the writer, whose writes succeed. *)
Definition next_producer s : option nat := fst <$> list_find (λ q, pr_status q ≠ Parked) (parked s).
Definition round s : Sys :=
  match next_producer s with
  | Some i => (run (Resume i) s).2
  | None => match writer s with Sending _ _ => (run (Written 0) s).2 | _ => (run WriterRuns s).2 end
  end.

(** What decreases: the producers, the frames, the writes to do, the wakeups. *)
Definition phase s : nat :=
  match writer s with
  | Sending _ ws => length ws
  | Ready => 4 * length (queue (pump s)) + 5
  | Idle => 4 * length (queue (pump s)) + 4
  | _ => 0
  end.
Definition pending (l : list producer) : nat := length (filter (λ q, pr_status q ≠ Parked) l).
Definition frames s : nat := length (queue (pump s)) + length (active s).
Definition less (x y : nat * nat * nat * nat) : Prop :=
  let '(a, b, c, d) := x in let '(a', b', c', d') := y in
  (a < a' ∨ a = a' ∧ (b < b' ∨ b = b' ∧ (c < c' ∨ c = c' ∧ d < d')))%nat.
Definition measure s := (length (parked s), frames s, phase s, pending (parked s)).

Lemma less_ind (P : nat * nat * nat * nat → Prop) : (∀ x, (∀ y, less y x → P y) → P x) → ∀ x, P x.
Proof.
  intros H [[[a b] c] d]. revert b c d. induction (lt_wf a) as [a _ IHa]. intros b. induction (lt_wf b) as [b _ IHb].
  intros c. induction (lt_wf c) as [c _ IHc]. intros d. induction (lt_wf d) as [d _ IHd]. apply H.
  intros [[[a' b'] c'] d'] [? | [-> [? | [-> [? | [-> ?]]]]]]; auto.
Qed.

Lemma batch_writes_length many batch : ∀ contiguous, (length (batch_writes many contiguous batch) ≤ length contiguous + 3 * length batch)%nat.
Proof.
  assert (∀ parts, (length (_write_contiguous many parts) ≤ length parts)%nat) as Hw by (intros [| b parts]; simpl; [lia |]; destruct many; simpl; lia).
  induction batch as [| [b | h pl] batch IH]; intros contiguous; simpl.
  - rewrite length_fmap. specialize (Hw contiguous). lia.
  - specialize (IH (contiguous ++ [b])). rewrite length_app in IH. simpl in IH. lia.
  - rewrite length_app. specialize (IH []). simpl in IH. specialize (Hw contiguous).
    assert (∀ ws, length (mark_first ws) = length ws) as -> by (by intros []). rewrite length_fmap, length_app. simpl. lia.
Qed.

(** The loop of a healthy writer: it waits, or takes a batch. *)
Record turned s s' : Prop := {
  t_parked : parked s' = parked s;
  t_stopping : stopping s' = stopping s;
  t_sealed : _sealed (pump s') = _sealed (pump s);
  t_healthy : healthy s';
  t_frames : frames s' = length (queue (pump s));
  t_phase : match queue (pump s) with [] => phase s' = 4%nat | q => (phase s' ≤ 3 * length q)%nat end }.

Lemma take_turn s : _latency_failure (pump s) = None → queue (pump s) ≠ [] → turned s (take_batch s).
Proof.
  intros Hl Hq. unfold take_batch. set (p := set_writing true _). assert (core p = core (set_writing true
    (set_queue (drop 256 (queue (pump s))) (unfinished (pump s)) (pump s)))) as E by (unfold p, _sample_high_water; by repeat case_if).
  clearbody p. apply core_fields in E as (_ & _ & Fq & _ & _ & _ & _ & _ & _ & Fs & Fl & _ & _). simpl in *. rewrite Fl, Hl.
  set (ws := batch_writes _ _ _). pose proof (count_segmented_core ws p) as (_ & _ & Gq & _ & _ & _ & _ & _ & _ & Gs & Gl & _ & _)%core_fields.
  split; try done; simpl.
  - by rewrite Gs, Fs.
  - split; [done |]. simpl. by rewrite Gl, Fl.
  - unfold frames, active. simpl. rewrite Gq, Fq, Nat.add_comm, <- length_app. by rewrite take_drop.
  - unfold phase. simpl. pose proof (batch_writes_length (write_many s) (take 256 (queue (pump s))) []) as Hlen. fold ws in Hlen.
    pose proof (f_equal length (take_drop 256 (queue (pump s)))) as Hq2. rewrite length_app in Hq2. simpl (length []) in Hlen.
    assert (length ws ≤ 3 * length (queue (pump s)))%nat as Hws by lia. clear - Hws Hq. by destruct (queue (pump s)).
Qed.
Lemma loop_turn s : _latency_failure (pump s) = None → turned s (loop_top s).
Proof.
  intros Hl. unfold loop_top. set (arm := λ p, _). assert (core (arm (pump s)) = core (pump s)) as E by (unfold arm; by case_if).
  clearbody arm. apply core_fields in E as (_ & _ & Eq & _ & _ & _ & _ & _ & _ & Es & El & _ & _).
  destruct (queue_empty _) eqn:Ee; unfold queue_empty in Ee; simpl in Ee; rewrite Eq in Ee.
  - destruct (queue (pump s)) eqn:Eq0; [| done]. split; try done; simpl; [split; [done |]; simpl; by rewrite El, Hl | |].
    + unfold frames, active. simpl. by rewrite Eq, Eq0.
    + rewrite Eq0. unfold phase. simpl. by rewrite Eq.
  - destruct (take_turn (on_pump arm s)) as [T1 T2 T3 T4 T5 T6]; simpl in *; [by rewrite El | rewrite Eq; by destruct (queue (pump s)) |].
    rewrite Eq in *. split; try done. by rewrite T3.
Qed.

Lemma pending_app l k : pending (l ++ k) = (pending l + pending k)%nat.
Proof. unfold pending. by rewrite filter_app, length_app. Qed.
Lemma pending_cons q l : pr_status q ≠ Parked → pending (q :: l) = S (pending l).
Proof. intros Hq. unfold pending. by rewrite filter_cons, decide_True. Qed.
Lemma length_notify n l : length (notify n l) = length l.
Proof. apply notify_length. Qed.

(** A producer that goes on leaves, or waits again with its wakeup spent. *)
Lemma resume_step i q s : SInv s → serving s → parked s !! i = Some q → pr_status q ≠ Parked →
  SInv (resume i s).2 ∧ serving (resume i s).2 ∧ less (measure (resume i s).2) (measure s).
Proof.
  intros HI Hs Hq Hst. split; [by apply inv_resume |]. unfold resume. rewrite Hq. pose proof (take_drop_middle _ _ _ Hq) as E.
  revert E. generalize (take i (parked s)), (drop (S i) (parked s)). intros l1 l2 E. destruct (pr_status q) eqn:Est; [done | |].
  - unfold _enqueue_after_wait. destruct (after_wait _ _ _); simpl; (split; [done |]); unfold measure; simpl; rewrite <- E.
    + left. rewrite !length_app. simpl. lia.
    + right. split; [rewrite !length_app; simpl; lia |]. right. split; [done |]. right. split; [done |].
      rewrite !pending_app, (pending_cons q l2) by (by rewrite Est). change (pending [set_status Parked q]) with 0%nat. lia.
    + left. rewrite !length_app. simpl. lia.
  - simpl. split; [done |]. unfold measure. simpl. left. rewrite <- E. case_if; rewrite ?length_notify, !length_app; simpl; lia.
Qed.

Lemma serving_turned s s' : serving s → turned s s' → serving s'.
Proof. intros (_ & Hst & Hse) []. split_and!; [done | congruence | congruence]. Qed.

Lemma writer_step s : SInv s → serving s → Forall (λ q, pr_status q = Parked) (parked s) →
  parked s = [] ∧ queue (pump s) ++ active s = [] ∨
  (let s' := match writer s with Sending _ _ => (run (Written 0) s).2 | _ => (run WriterRuns s).2 end in
   SInv s' ∧ serving s' ∧ less (measure s') (measure s)).
Proof.
  intros HI Hs Hall. pose proof Hs as [[Hlive Hl] [Hst Hse]]. unfold live in Hlive. destruct (writer s) as [| | | b ws |] eqn:Hw; try done.
  - right. cbn zeta. assert (Ha : SInv (run WriterRuns s).2) by (by apply run_inv). cbn [run snd] in *. rewrite Hw in *. split; [done |].
    pose proof (loop_turn s Hl) as Ht. split; [by eapply serving_turned |]. destruct Ht as [T1 _ _ _ T5 T6]. unfold measure.
    right. split; [by rewrite T1 |]. right. split; [rewrite T5; unfold frames, active; rewrite Hw; simpl; lia |]. left.
    unfold phase at 2. rewrite Hw. destruct (queue (pump s)); simpl in *; lia.
  - destruct (queue (pump s)) as [| i0 q0] eqn:Eq.
    + left. unfold active. rewrite Hw. split; [| done]. destruct (parked s) as [| y l] eqn:Ep; [done |]. exfalso.
      assert (Exists (λ q, pr_status q = Parked) (parked s)) as Hpk by (rewrite Ep in *; apply Forall_cons in Hall as [? _]; by left).
      destruct (s_wakes _ HI Hs Hpk) as [Hex | Hne].
      * rewrite Ep in Hex. apply Exists_exists in Hex as (z & Hz & [[Hx _] | Hx]); rewrite Forall_forall in Hall; rewrite (Hall z Hz) in Hx; done.
      * apply Hne. unfold active. by rewrite Eq, Hw.
    + right. cbn zeta. assert (Ha : SInv (run WriterRuns s).2) by (by apply run_inv). cbn [run snd] in *. rewrite Hw in *.
      unfold queue_empty in *. rewrite Eq in *. split; [done |].
      assert (Ht : turned s (take_batch s)) by (apply take_turn; [done | by rewrite Eq]). split; [by eapply serving_turned |].
      destruct Ht as [T1 _ _ _ T5 T6]. unfold measure. right. split; [by rewrite T1 |]. right.
      split; [rewrite T5; unfold frames, active; rewrite Hw; simpl; lia |]. left. unfold phase at 2. rewrite Hw, Eq in *. simpl in *. lia.
  - right. cbn zeta. assert (Ha : SInv (run (Written 0) s).2) by (by apply run_inv). split; [done |]. cbn [run snd] in *. unfold written in *.
    rewrite Hw in *. destruct ws as [| w ws].
    { exfalso. destruct (s_wire _ (s_calm _ HI)) as [_ W2 _ _ _ _ _]. rewrite Hw in W2. by destruct W2 as (_ & ? & _). }
    destruct (sending_facts s b w ws HI Hw) as (HB & Hb & _ & _ & _). destruct ws as [| w' ws].
    + set (s1 := on_pump (set_tally _) _) in *. assert (Books (pump s1) b) as HB1 by (destruct HB; by split).
      destruct (finish_spec b true (stopping s1) s1 HB1) as (p' & E & Ef). rewrite Ef in *.
      match goal with |- context [set_parked ?l0 ?s0] => set (l := l0) in *; set (s2 := set_parked l s0) in * end.
      apply core_fields in E as (_ & _ & Fq & _ & _ & _ & _ & _ & _ & Fs & Fl & _ & _). simpl in *.
      assert (length l = length (parked s)) as Hlen by (unfold l; match goal with |- context [if ?c then _ else _] => destruct c end; [apply notify_length | done]).
      assert (Ht : turned (set_writer Idle s2) (loop_top (set_writer Idle s2))) by (apply loop_turn; simpl; by rewrite Fl).
      destruct Ht as [T1 T2 T3 T4 T5 T6]. simpl in *. split; [split_and!; [done | by rewrite T2 | by rewrite T3, Fs] |].
      unfold measure. right. split; [by rewrite T1, Hlen |]. left. rewrite T5, Fq. unfold frames, active. rewrite Hw.
      destruct b; [done |]. simpl. lia.
    + pose proof (count_segmented_core (w' :: ws) (give (w_bytes w) (pump s))) as (_ & _ & Gq & _ & _ & _ & _ & _ & _ & Gs & Gl & _ & _)%core_fields.
      split; [split_and!; [split; [done |]; simpl in *; by rewrite Gl | done | simpl in *; by rewrite Gs] |].
      unfold measure. right. split; [done |]. right. split.
      * unfold frames, active. rewrite Hw. cbn [on_pump set_writer pump writer] in *. by rewrite Gq.
      * left. unfold phase. rewrite Hw. simpl. lia.
Qed.

Lemma round_step s : SInv s → serving s → parked s = [] ∧ queue (pump s) ++ active s = [] ∨
  SInv (round s) ∧ serving (round s) ∧ less (measure (round s)) (measure s).
Proof.
  intros HI Hs. unfold round, next_producer. destruct (list_find _ (parked s)) as [[i q] |] eqn:E; simpl.
  - apply list_find_Some in E as (Hq & Hst & _). right. by apply (resume_step i q).
  - apply list_find_None in E. apply writer_step; [done | done |]. eapply Forall_impl; [exact E |]. simpl. intros q Hq.
    by apply dec_stable.
Qed.

Section pump.
Context (max_bytes max_messages : Z) (Hbytes : 0 ≤ max_bytes) (Hmessages : 1 ≤ max_messages).

(** C16: the wire carries the admitted frames, in order, each once.  While the writer
    is alive and no write has failed, what the transport has been given, then the
    writes still to do, then the queue are exactly the frames admitted on this
    connection, in the order of their admission, whole and not interleaved, eager
    writes, latency batches and segmented frames included.  After a failure or the end of the
    writer the transport has a prefix of them, and gets nothing more until the
    next connection. *)
Theorem wire_in_order s l : reachable max_bytes max_messages s →
  (healthy s → flat (admitted s) = wire (pump s) ++ in_flight s ++ flat (queue (pump s))) ∧
  wire (pump s) `prefix_of` flat (admitted s) ∧
  (¬ healthy s → (∀ nw many, l ≠ Connect nw many) → wire (pump (run l s).2) = wire (pump s)).
Proof using Hbytes Hmessages.
  intros Hr. pose proof (pump_reachable_inv _ _ s Hbytes Hmessages Hr) as HI. split_and!.
  - apply HI.
  - apply HI.
  - by apply run_silent.
Qed.

Lemma reachable_limits s : reachable max_bytes max_messages s → limits s = (max_bytes, max_messages).
Proof using Hbytes Hmessages.
  induction 1 as [| l s Hr IH Ha]; [done |]. rewrite run_limits; [done |]. by apply (pump_reachable_inv max_bytes max_messages).
Qed.

(** The pump keeps its bounds and its books.  In every state, whatever the
    producers, the transport and the lifecycle do, the frames it owns, queued or in
    the active batch, number what it counts, at most [max_messages], and weigh what
    it counts, at most [max_bytes] unless a single frame is larger; [join] waits for
    exactly these frames, and as many producers wait as it counts.  No accounting
    assertion can fail: closing a batch, discarding the queue and the latency
    shortcut raise nothing of their own. *)
Theorem pump_bounded s : reachable max_bytes max_messages s →
  let owned := queue (pump s) ++ active s in
  _resident_messages (pump s) = len owned ∧ len owned ≤ max_messages ∧
  queued_bytes (pump s) = sizes owned ∧ (sizes owned ≤ max_bytes ∨ len owned = 1) ∧
  unfinished (pump s) = len owned ∧ waiters (pump s) = len (parked s) ∧
  (∀ completed cancelled, (finish_batch (active s) completed cancelled s).1 = Ok tt) ∧
  (¬ live s → (discard (pump s)).1 = Ok tt) ∧
  (∀ c x, (_try_flush_latency_batch c (pump s)).1 = Raise x → ∃ k y, asked c = Failed k y).
Proof using Hbytes Hmessages.
  intros Hr owned. pose proof (pump_reachable_inv _ _ s Hbytes Hmessages Hr) as HI. pose proof (reachable_limits s Hr) as [= Eb Em].
  pose proof (s_books _ (s_calm _ HI)) as HB. pose proof HB as [B1 B2 B3 B4 B5 B6 B7]. unfold owned. rewrite len_app, sizes_app, <- B2, <- B1, <- Eb, <- Em.
  split_and!; try done; try lia.
  - apply HI.
  - intros completed c. by destruct (finish_spec (active s) completed c s HB) as (p' & _ & ->).
  - intros Hl. destruct (discard_spec s HI) as (p' & -> & _); [| done]. unfold active, live in *. by destruct (writer s).
  - intros c x. destruct (_writing (pump s)) eqn:Ew; [by rewrite flush_busy |].
    destruct (not_sending s (s_calm _ HI) Ew) as [_ E]. rewrite E in HB.
    pose proof (flush_spec c (pump s) HB (or_introl (w_fenced _ (s_wire _ (s_calm _ HI))))) as Hf.
    destruct (_try_flush_latency_batch c (pump s)) as [r p']. simpl. intros ->. inversion Hf; eauto.
Qed.

End pump.

(** ** A concrete pump *)

Fixpoint run_steps (ls : list step_label) s : Sys := match ls with [] => s | l :: ls => run_steps ls (run l s).2 end.
Fixpoint all_allowed (ls : list step_label) s : Prop :=
  match ls with [] => True | l :: ls => allowed l s ∧ all_allowed ls (run l s).2 end.
Lemma reachable_steps max_bytes max_messages ls : ∀ s, reachable max_bytes max_messages s → all_allowed ls s →
  reachable max_bytes max_messages (run_steps ls s).
Proof. induction ls as [| l ls IH]; intros s Hr Ha; [done |]. destruct Ha as [Ha Hls]. apply IH; [by apply reach_step | done]. Qed.

Definition blank : Sys := mkSys (WritePump_init 10 2) [] Off false false [].
Definition tick (task : Z) : call := mkCall Accepted 0 task false.
(** One eager write, a segmented and a plain frame queued, and a producer that
    waits while the writer has the first write of the batch in flight. *)
Definition busy_steps : list step_label :=
  [Connect true true; Enqueue (tick 1) (Contiguous [1; 2]) false None; Enqueue (tick 1) (Segmented [3] [4; 5]) false None;
   Enqueue (tick 2) (Contiguous [6]) false None; WriterRuns; Enqueue (tick 3) (Contiguous [7; 8]) false None].
Definition busy : Sys := run_steps busy_steps blank.

Lemma busy_reachable : reachable 10 2 busy.
Proof.
  apply reachable_steps; [apply reach_init |]. cbn [all_allowed busy_steps allowed].
  repeat split; try (vm_compute; reflexivity). vm_compute. constructor.
Qed.
Lemma busy_serving : serving busy.
Proof. split_and!; [split |..]; vm_compute; try exact I; reflexivity. Qed.

Example busy_ex : (wire (pump busy), in_flight busy, len (parked busy)) = ([1; 2], [3; 4; 5; 6], 1).
Proof. vm_compute. reflexivity. Qed.

Lemma wire_in_order_witness : flat (admitted busy) = wire (pump busy) ++ in_flight busy ++ flat (queue (pump busy)) ∧
  wire (pump busy) `prefix_of` [1; 2; 3; 4; 5; 6].
Proof.
  destruct (wire_in_order 10 2 ltac:(lia) ltac:(lia) busy WriterRuns busy_reachable) as (Ho & Hp & _).
  split; [exact (Ho (proj1 busy_serving)) |]. assert (flat (admitted busy) = [1; 2; 3; 4; 5; 6]) as E by (vm_compute; reflexivity).
  rewrite E in Hp. exact Hp.
Defined.

Lemma pump_bounded_witness : _resident_messages (pump busy) = 2 ∧ queued_bytes (pump busy) = 4 ∧
  (finish_batch (active busy) true false busy).1 = Ok tt.
Proof.
  destruct (pump_bounded 10 2 ltac:(lia) ltac:(lia) busy busy_reachable) as (Hr & _ & Hq & _ & _ & _ & Hf & _).
  split; [rewrite Hr; vm_compute; reflexivity |]. split; [rewrite Hq; vm_compute; reflexivity | exact (Hf true false)].
Defined.


(** The waiting producer's frame is the last on the wire. *)
Example served_ex : wire (pump (Nat.iter 7 round busy)) = [1; 2; 3; 4; 5; 6; 7; 8].
Proof. vm_compute. reflexivity. Qed.
