(* ===== verification/Async.v ===== *)
(** * Coroutines

    A coroutine runs on a shared state until it returns, raises or suspends; a
    suspended one says what it waits for and goes on, with the answer, in whatever
    state the other tasks have left.  Between two suspensions nothing interferes:
    the event loop switches tasks only there.  The rules at the end are those of
    rely and guarantee: what a coroutine needs the others to keep while it is
    suspended, and what it keeps itself in every stretch. *)

From S2P Require Import Prelude.

Section async.
Context {Ev Ans S : Type}.

Inductive out (A : Type) : Type :=
  | Fin (r : res A)
  | Susp (e : Ev) (k : res Ans → S → S * out A).
Arguments Fin {A} _.
Arguments Susp {A} _ _.

Definition async (A : Type) : Type := S → S * out A.

Fixpoint bind_out {A B} (f : A → async B) (o : out A) (s : S) : S * out B :=
  match o with
  | Fin (Ok a) => f a s
  | Fin (Raise x) => (s, Fin (Raise x))
  | Susp e k => (s, Susp e (λ a s, let '(s, o) := k a s in bind_out f o s))
  end.

#[global] Instance async_ret : MRet async := λ A a s, (s, Fin (Ok a)).
#[global] Instance async_bind : MBind async := λ A B f m s, let '(s, o) := m s in bind_out f o s.

(** [await e]: the answer may be an exception, a cancellation included. *)
Definition await (e : Ev) : async Ans := λ s, (s, Susp e (λ a s, (s, Fin a))).
Definition throw {A} (x : exn) : async A := λ s, (s, Fin (Raise x)).
Definition get {A} (f : S → A) : async A := λ s, (s, Fin (Ok (f s))).
Definition put (f : S → S) : async unit := λ s, (f s, Fin (Ok tt)).
Definition of_res {A} (r : res A) : async A := λ s, (s, Fin r).
Definition when_ (b : bool) (m : async unit) : async unit := if b then m else mret tt.

(** [try: m except x: h x]; [h] raises what it does not catch. *)
Fixpoint catch_out {A} (h : exn → async A) (o : out A) (s : S) : S * out A :=
  match o with
  | Fin (Ok a) => (s, Fin (Ok a))
  | Fin (Raise x) => h x s
  | Susp e k => (s, Susp e (λ a s, let '(s, o) := k a s in catch_out h o s))
  end.
Definition try_ {A} (m : async A) (h : exn → async A) : async A := λ s, let '(s, o) := m s in catch_out h o s.

(** [try: m finally: f], where [f] does not await. *)
Definition finally_ {A} (m : async A) (f : S → S) : async A :=
  try_ (a ← m; put f;; mret a) (λ x, put f;; throw x).

Lemma out_ind' {A} (P : out A → Prop) :
  (∀ r, P (Fin r)) → (∀ e k, (∀ a s, P (k a s).2) → P (Susp e k)) → ∀ o, P o.
Proof.
  intros HF HS. refine (fix IH o := match o with Fin r => HF r | Susp e k => HS e k (λ a s, _) end).
  destruct (k a s) as [s' o']. exact (IH o').
Qed.

(** ** Rely and guarantee *)

(** The answers an awaited event may have. *)
Context (answers : Ev → res Ans → Prop).
(** [R s s']: what the other tasks may do; [G s s']: what this one may do. *)
Implicit Types (R G : S → S → Prop).

Fixpoint holds {A} R G (Q : res A → S → Prop) (o : out A) (s : S) : Prop :=
  match o with
  | Fin r => Q r s
  | Susp e k => ∀ a s', answers e a → R s s' → G s' (k a s').1 ∧ let '(s', o) := k a s' in holds R G Q o s'
  end.

(** [m], run from [s]. *)
Definition rg {A} R G (m : async A) (Q : res A → S → Prop) (s : S) : Prop :=
  G s (m s).1 ∧ holds R G Q (m s).2 (m s).1.

Lemma holds_mono {A} R G (Q Q' : res A → S → Prop) o s :
  (∀ r s, Q r s → Q' r s) → holds R G Q o s → holds R G Q' o s.
Proof.
  intros HQ. revert s. induction o as [r | e k IH] using out_ind'; intros s H; simpl in *; [auto |].
  intros a s' Ha HR. destruct (H a s' Ha HR) as [HG H']. split; [done |]. specialize (IH a s'). destruct (k a s') as [s1 o]. auto.
Qed.

Lemma rg_mono {A} R G (m : async A) (Q Q' : res A → S → Prop) s :
  rg R G m Q s → (∀ r s, Q r s → Q' r s) → rg R G m Q' s.
Proof. intros [HG H] HQ. split; [done |]. by eapply holds_mono. Qed.

Section rules.
Context (R G : S → S → Prop) `{!PreOrder G}.

Lemma holds_bind {A B} (f : A → async B) Q o s :
  holds R G (λ r s, match r with Ok a => rg R G (f a) Q s | Raise x => Q (Raise x) s end) o s →
  G s (bind_out f o s).1 ∧ holds R G Q (bind_out f o s).2 (bind_out f o s).1.
Proof using PreOrder0.
  revert s. induction o as [[a | x] | e k IH] using out_ind'; intros s H; simpl in *; [done | done |].
  split; [done |]. intros a s' Ha HR. destruct (H a s' Ha HR) as [HG H']. specialize (IH a s'). destruct (k a s') as [s1 o].
  destruct (IH s1 H') as [HG' H'']. simpl in *. destruct (bind_out f o s1) as [s2 o2]. split; [by etrans | done].
Qed.

Lemma holds_catch {A} (h : exn → async A) Q o s :
  holds R G (λ r s, match r with Ok a => Q (Ok a) s | Raise x => rg R G (h x) Q s end) o s →
  G s (catch_out h o s).1 ∧ holds R G Q (catch_out h o s).2 (catch_out h o s).1.
Proof using PreOrder0.
  revert s. induction o as [[a | x] | e k IH] using out_ind'; intros s H; simpl in *; [done | done |].
  split; [done |]. intros a s' Ha HR. destruct (H a s' Ha HR) as [HG H']. specialize (IH a s'). destruct (k a s') as [s1 o].
  destruct (IH s1 H') as [HG' H'']. simpl in *. destruct (catch_out h o s1) as [s2 o2]. split; [by etrans | done].
Qed.

Lemma rg_bind {A B} (m : async A) (f : A → async B) Q s :
  rg R G m (λ r s, match r with Ok a => rg R G (f a) Q s | Raise x => Q (Raise x) s end) s → rg R G (m ≫= f) Q s.
Proof using PreOrder0.
  intros [HG H]. unfold rg, mbind, async_bind in *. destruct (m s) as [s1 o]. apply holds_bind in H as [HG' H].
  simpl in *. destruct (bind_out f o s1) as [s2 o2]. split; [by etrans | done].
Qed.

Lemma rg_try {A} (m : async A) (h : exn → async A) Q s :
  rg R G m (λ r s, match r with Ok a => Q (Ok a) s | Raise x => rg R G (h x) Q s end) s → rg R G (try_ m h) Q s.
Proof using PreOrder0.
  intros [HG H]. unfold rg, try_ in *. destruct (m s) as [s1 o]. apply holds_catch in H as [HG' H].
  simpl in *. destruct (catch_out h o s1) as [s2 o2]. split; [by etrans | done].
Qed.

Lemma rg_ret {A} (a : A) (Q : res A → S → Prop) s : Q (Ok a) s → rg R G (mret a) Q s.
Proof using PreOrder0. by split. Qed.
Lemma rg_throw {A} x (Q : res A → S → Prop) s : Q (Raise x) s → rg R G (throw x) Q s.
Proof using PreOrder0. by split. Qed.
Lemma rg_of_res {A} (r : res A) (Q : res A → S → Prop) s : Q r s → rg R G (of_res r) Q s.
Proof using PreOrder0. by split. Qed.
Lemma rg_get {A} (f : S → A) (Q : res A → S → Prop) s : Q (Ok (f s)) s → rg R G (get f) Q s.
Proof using PreOrder0. by split. Qed.
Lemma rg_put f (Q : res unit → S → Prop) s : G s (f s) → Q (Ok tt) (f s) → rg R G (put f) Q s.
Proof. by split. Qed.
Lemma rg_when b (m : async unit) Q s :
  (b = true → rg R G m Q s) → (b = false → Q (Ok tt) s) → rg R G (when_ b m) Q s.
Proof using PreOrder0. destruct b; intros H1 H2; [by apply H1 | apply rg_ret; auto]. Qed.
Lemma rg_await e (Q : res Ans → S → Prop) s :
  (∀ a s', answers e a → R s s' → Q a s') → rg R G (await e) Q s.
Proof using PreOrder0. intros H. split; [done |]. intros a s' Ha HR. split; [done | by apply H]. Qed.

Lemma rg_finally {A} (m : async A) f Q s :
  rg R G m (λ r s, G s (f s) ∧ Q r (f s)) s → rg R G (finally_ m f) Q s.
Proof using PreOrder0.
  intros H. apply rg_try, rg_bind. eapply rg_mono; [exact H |]. intros [a | x] s' [HG HQ].
  - apply rg_bind, rg_put; [done |]. by apply rg_ret.
  - apply rg_bind, rg_put; [done |]. by apply rg_throw.
Qed.
End rules.

(** ** Tasks *)

(** A suspended coroutine of whatever type, with what it waits for. *)
Inductive job :=
  | Job (A : Type) (o : out A).

Definition awaits (j : job) : option Ev := match j with Job _ (Susp e _) => Some e | Job _ (Fin _) => None end.

(** A job goes on with an answer. *)
Definition advance (j : job) (a : res Ans) (s : S) : S * job :=
  match j with
  | Job A (Fin r) => (s, Job A (Fin r))
  | Job A (Susp e k) => let '(s, o) := k a s in (s, Job A o)
  end.

(** The loop lets task [i] go on, or starts a new one, or something outside
    happens. *)
Inductive tick :=
  | Resume (i : nat) (a : res Ans)
  | Spawn (A : Type) (m : async A)
  | Outside (f : S → S).

Definition turn (t : tick) (c : S * list job) : S * list job :=
  let '(s, js) := c in
  match t with
  | Resume i a => match js !! i with Some j => let '(s, j) := advance j a s in (s, <[i := j]> js) | None => (s, js) end
  | Spawn A m => let '(s, o) := m s in (s, js ++ [Job A o])
  | Outside f => (f s, js)
  end.

(** A job whose coroutine is in order since it was last suspended. *)
Definition steady R G (j : job) (s : S) : Prop :=
  match j with Job _ o => ∃ s0 Q, holds R G Q o s0 ∧ R s0 s end.

Lemma steady_stable R G `{!Transitive R} j s s' : steady R G j s → R s s' → steady R G j s'.
Proof. destruct j as [A o]. intros (s0 & Q & H & HR) HR'. exists s0, Q. split; [done | by etrans]. Qed.

Lemma steady_advance R G `{!Reflexive R, !Reflexive G} j a s e :
  steady R G j s → awaits j = Some e → answers e a → G s (advance j a s).1 ∧ steady R G (advance j a s).2 (advance j a s).1.
Proof.
  destruct j as [A [r | e' k]]; intros (s0 & Q & H & HR) [= ->] Ha. simpl in H.
  destruct (H a s Ha HR) as [HG H']. simpl. destruct (k a s) as [s1 o]. simpl in *. split; [done |]. by exists s1, Q.
Qed.

Lemma steady_spawn {A} R G `{!Reflexive R} (m : async A) Q s :
  rg R G m Q s → steady R G (Job A (m s).2) (m s).1.
Proof. intros [_ H]. by exists (m s).1, Q. Qed.
End async.

(** [x ⇐ m; k]: as [x ← m; k], elaborated from left to right. *)
Definition abind {Ev Ans S A B} (m : async (Ev := Ev) (Ans := Ans) (S := S) A) (k : A → async (Ev := Ev) (Ans := Ans) (S := S) B) :
  async B := m ≫= k.
Notation "x ⇐ m ; k" := (abind m (λ x, k)) (at level 20, m at level 100, k at level 200) : stdpp_scope.
Notation "' p ⇐ m ; k" := (abind m (λ x, match x with p => k end)) (at level 20, p pattern, m at level 100, k at level 200) : stdpp_scope.

Arguments out : clear implicits.
Arguments Fin {Ev Ans S A} _.
Arguments Susp {Ev Ans S A} _ _.
Arguments async : clear implicits.
Arguments job : clear implicits.
Arguments tick : clear implicits.
