(* ===== verification/Stream.v ===== *)
(** * Stream transports

    [transport/_stream.py]: what every stream transport shares, on a model of the
    part of asyncio's [StreamWriter] that it uses. *)

From S2P Require Import Prelude Async.

(** ** The asyncio writer *)

(** [written]: the bytes accepted for the peer, sent or still buffered; [backlog]:
    how many are still buffered ([get_write_buffer_size]); [w_closing], and
    [w_lost] once asyncio drops what is written; [closed]: how [wait_closed] ends;
    [takes]: how many bytes the socket accepts at once when the next writes find an
    empty buffer. *)
Record Writer := mkWriter {
  written : bytes; backlog : Z; w_closing : bool; w_lost : bool; closed : option (res unit); takes : list Z }.

Definition new_writer (takes : list Z) : Writer := mkWriter [] 0 false false None takes.

(** [StreamWriter.write]; [writelines] writes the concatenation. *)
Definition write_bytes (data : bytes) (w : Writer) : Writer :=
  if w_lost w then w
  else if 0 <? backlog w then
    mkWriter (written w ++ data) (backlog w + len data) (w_closing w) (w_lost w) (closed w) (takes w)
  else
    mkWriter (written w ++ data) (Z.max 0 (len data - Z.max 0 (default 0 (head (takes w))))) (w_closing w) (w_lost w)
      (closed w) (tail (takes w)).
Definition writelines (parts : list bytes) (w : Writer) : Writer := write_bytes (concat parts) w.

(** [StreamWriter.close] and [Transport.abort]. *)
Definition close_writer (w : Writer) : Writer := mkWriter (written w) (backlog w) true (w_lost w) (closed w) (takes w).
Definition abort_writer (w : Writer) : Writer := mkWriter (written w) 0 true true (closed w) (takes w).

(** What a transport waits for: room in the write buffer, bytes from the peer, the
    writer's end (for a bounded time or not), the receive callback. *)
Inductive event := Drain | ReadChunk (n : Z) | WaitClosed (bounded : bool) | WaitData.
Inductive answer := Done | Chunk (b : bytes) | TimedOut.

(** The state of a transport has a writer. *)
Class HasWriter (S : Type) := { wr : S → Writer; set_wr : Writer → S → S }.
#[export] Instance writer_has_writer : HasWriter Writer := {| wr w := w; set_wr w _ := w |}.

Section stream.
Context {T : Type} `{!HasWriter T}.
Abbreviation co := (async event answer T).

Definition on_wr (f : Writer → Writer) (s : T) : T := set_wr (f (wr s)) s.

(** ** The functions of the module *)

Definition _WRITE_BUFFER_HIGH_WATER : Z := 64 * 1024.

Definition write_buffer_needs_drain (w : Writer) : bool := backlog w >? _WRITE_BUFFER_HIGH_WATER.

Definition ensure_writable : co unit :=
  closing ⇐ get (λ s : T, w_closing (wr s));
  if closing then throw ConnectionError else mret tt.

(** [if write_buffer_needs_drain(writer): await writer.drain()]. *)
Definition _drain_if_needed : co unit :=
  full ⇐ get (λ s : T, write_buffer_needs_drain (wr s));
  when_ full (_ ⇐ await Drain; mret tt).

Definition stream_drain : co unit := _ ⇐ await Drain; mret tt.

(** The loop of [close_stream_writer]; [None] cancels nothing.  Each turn is one
    wait; only a cancellation can make a third one necessary. *)
Fixpoint close_loop (fuel : nat) (bounded : bool) (cancellation : option exn) : co (option exn) :=
  match fuel with
  | O => throw RuntimeError
  | S fuel =>
      waiter ⇐ get (λ s : T, closed (wr s));
      match waiter with
      | Some _ => mret cancellation
      | None =>
          cancellation ⇐ try_
            (done ⇐ await (WaitClosed bounded);
             when_ (match done with TimedOut => true | _ => false end) (put (on_wr abort_writer));;
             mret cancellation)
            (λ x, match x with CancelledError => put (on_wr abort_writer);; mret (Some x) | _ => throw x end);
          close_loop fuel false cancellation
      end
  end.

Definition close_stream_writer (fuel : nat) : co unit :=
  put (on_wr close_writer);;
  cancellation ⇐ close_loop fuel true None;
  waiter ⇐ get (λ s : T, closed (wr s));
  (match waiter with
   | Some (Raise CancelledError) => throw CancelledError
   | Some (Raise _) => put (on_wr abort_writer)
   | _ => mret tt
   end);;
  match cancellation with Some x => throw x | None => mret tt end.

(** ** [StreamTransportBase] *)

Definition write (data : bytes) : co unit :=
  ensure_writable;;
  put (on_wr (write_bytes data));;
  _drain_if_needed.

(** Synchronous: [false] when nothing was written. *)
Definition write_nowait (data : bytes) (w : Writer) : bool * Writer :=
  if w_closing w || (backlog w + len data >? _WRITE_BUFFER_HIGH_WATER) then (false, w)
  else (true, write_bytes data w).

Definition write_many (parts : list bytes) : co unit :=
  match parts with
  | [] => mret tt
  | [part] => write part
  | _ =>
      ensure_writable;;
      put (on_wr (writelines parts));;
      _drain_if_needed
  end.

Definition close (fuel : nat) : co unit := close_stream_writer fuel.
End stream.

(** ** A coroutine by itself

    [play]: the write buffer drains when asked, and the peer's bytes come in the
    given chunks; the coroutine ends, or waits for what does not come. *)
Inductive played (A : Type) := Finished (r : res A) | Waiting (e : event).
Arguments Finished {A} _.
Arguments Waiting {A} _.

Section play.
Context {T : Type}.
Abbreviation out := (out event answer T).
Abbreviation co := (async event answer T).

Fixpoint play {A} (o : out A) (s : T) (chunks : list bytes) : T * played A * list bytes :=
  match o with
  | Fin r => (s, Finished r, chunks)
  | Susp Drain k => let '(s, o) := k (Ok Done) s in play o s chunks
  | Susp (ReadChunk n) k =>
      match chunks with
      | [] => (s, Waiting (ReadChunk n), [])
      | chunk :: chunks => let '(s, o) := k (Ok (Chunk chunk)) s in play o s chunks
      end
  | Susp e _ => (s, Waiting e, chunks)
  end.
Definition runs {A} (m : co A) (s : T) (chunks : list bytes) : T * played A * list bytes :=
  let '(s, o) := m s in play o s chunks.

Definition then_ {A B} (c : T * played A * list bytes) (f : A → co B) : T * played B * list bytes :=
  match c with
  | (s, Finished (Ok a), chunks) => runs (f a) s chunks
  | (s, Finished (Raise x), chunks) => (s, Finished (Raise x), chunks)
  | (s, Waiting e, chunks) => (s, Waiting e, chunks)
  end.

Lemma play_bind {A B} (f : A → co B) (o : out A) s chunks :
  (let '(s, o) := bind_out f o s in play o s chunks) = then_ (play o s chunks) f.
Proof.
  revert s chunks. induction o as [[a | x] | e k IH] using out_ind'; intros s chunks; [done | done |].
  simpl. destruct e as [| n | |]; try done.
  - specialize (IH (Ok Done) s). destruct (k (Ok Done) s) as [s' o']. simpl in *. by rewrite <- IH.
  - destruct chunks as [| chunk chunks]; [done |]. specialize (IH (Ok (Chunk chunk)) s). destruct (k (Ok (Chunk chunk)) s) as [s' o'].
    simpl in *. by rewrite <- IH.
Qed.

Lemma runs_bind {A B} (m : co A) (f : A → co B) s chunks : runs (m ≫= f) s chunks = then_ (runs m s chunks) f.
Proof. unfold runs, mbind, async_bind. destruct (m s) as [s' o]. apply play_bind. Qed.
Lemma runs_abind {A B} (m : co A) (f : A → co B) s chunks : runs (abind m f) s chunks = then_ (runs m s chunks) f.
Proof. apply runs_bind. Qed.
Lemma play_catch {A} (h : exn → co A) (o : out A) s chunks :
  (let '(s, o) := catch_out h o s in play o s chunks) =
  match play o s chunks with (s, Finished (Raise x), chunks) => runs (h x) s chunks | c => c end.
Proof.
  revert s chunks. induction o as [[a | x] | e k IH] using out_ind'; intros s chunks; [done | done |].
  simpl. destruct e as [| n | |]; try done.
  - specialize (IH (Ok Done) s). destruct (k (Ok Done) s) as [s' o']. simpl in *. by rewrite <- IH.
  - destruct chunks as [| chunk chunks]; [done |]. specialize (IH (Ok (Chunk chunk)) s). destruct (k (Ok (Chunk chunk)) s) as [s' o'].
    simpl in *. by rewrite <- IH.
Qed.

Lemma runs_try {A} (m : co A) (h : exn → co A) s chunks :
  runs (try_ m h) s chunks = match runs m s chunks with (s, Finished (Raise x), chunks) => runs (h x) s chunks | c => c end.
Proof. unfold runs, try_. destruct (m s) as [s' o]. apply play_catch. Qed.

Lemma runs_get {A} (f : T → A) s chunks : runs (get f) s chunks = (s, Finished (Ok (f s)), chunks).
Proof. done. Qed.
Lemma runs_put f s chunks : runs (put f : co unit) s chunks = (f s, Finished (Ok tt), chunks).
Proof. done. Qed.
Lemma runs_ret {A} (a : A) s chunks : runs (mret a : co A) s chunks = (s, Finished (Ok a), chunks).
Proof. done. Qed.
Lemma runs_of_res {A} (r : res A) s chunks : runs (of_res r : co A) s chunks = (s, Finished r, chunks).
Proof. done. Qed.
Lemma runs_throw {A} x s chunks : runs (throw x : co A) s chunks = (s, Finished (Raise x), chunks).
Proof. done. Qed.

Lemma runs_drain_if_needed `{!HasWriter T} (s : T) chunks : runs (_drain_if_needed : co unit) s chunks = (s, Finished (Ok tt), chunks).
Proof. unfold _drain_if_needed. rewrite runs_abind, runs_get. simpl. by destruct (write_buffer_needs_drain _). Qed.
End play.

Ltac play := repeat (rewrite ?runs_abind, ?runs_bind, ?runs_get, ?runs_put, ?runs_ret, ?runs_of_res, ?runs_throw, ?runs_drain_if_needed; cbn [then_]).
