(* ===== verification/WsFrame.v ===== *)
(** * WebSocket frames

    The pure half of [transport/websocket.py]: masking, frame headers, and the
    parser of one frame. *)

From S2P Require Import Prelude.

Definition _MAX_CONTROL_PAYLOAD : Z := 125.

(** ** Masking *)

(** [l[n::4]], and the assignment [l[n::4] = new] (of equal lengths, otherwise the
    slice assignment raises). *)
Fixpoint stride {A} (n : nat) (l : list A) : list A :=
  match l, n with
  | [], _ => []
  | x :: l, O => x :: stride 3 l
  | _ :: l, S n => stride n l
  end.
Fixpoint set_stride {A} (n : nat) (l new : list A) : res (list A) :=
  match l, n, new with
  | [], _, [] => Ok []
  | [], _, _ :: _ | _ :: _, O, [] => Raise ValueError
  | _ :: l, O, y :: new => let! l := set_stride 3 l new in Ok (y :: l)
  | x :: l, S n, _ => let! l := set_stride n l new in Ok (x :: l)
  end.

Definition _xor_tables : list bytes := (λ key, (λ value, Z.lxor value key) <$> seqZ 0 256) <$> seqZ 0 256.

(** [bytes.translate]: a byte is replaced by its entry of the table. *)
Fixpoint translate (table payload : bytes) : res bytes :=
  match payload with
  | [] => Ok []
  | b :: payload =>
      let! b := idx table b in
      let! payload := translate table payload in
      Ok (b :: payload)
  end.

(** [for offset, key in enumerate(mask)]. *)
Fixpoint mask_loop (payload : bytes) (offset : nat) (mask masked : bytes) : res bytes :=
  match mask with
  | [] => Ok masked
  | key :: mask =>
      let! table := match _xor_tables !! Z.to_nat key with Some t => Ok t | None => Raise IndexError end in
      let! translated := translate table (stride offset payload) in
      let! masked := set_stride offset masked translated in
      mask_loop payload (S offset) mask masked
  end.

Definition _mask_payload (payload mask : bytes) : res bytes :=
  mask_loop payload 0 mask (replicate (length payload) 0).

(** ** Frame headers *)

Definition _masked_frame_size (payload_size : Z) : Z :=
  if payload_size <? 126 then payload_size + 6
  else if payload_size <? 65536 then payload_size + 8
  else payload_size + 14.

(** The [n] low bytes of a number, the highest first, and back. *)
Fixpoint big_endian (n : nat) (v : Z) : bytes :=
  match n with O => [] | S n => big_endian n (v / 256) ++ [v mod 256] end.
Definition from_big_endian (b : bytes) : Z := foldl (λ v d, v * 256 + d) 0 b.

(** [struct.pack] and [struct.unpack_from] of one unsigned field of [n] bytes. *)
Definition pack_be (n : nat) (v : Z) : res bytes :=
  if (0 <=? v) && (v <? 256 ^ Z.of_nat n) then Ok (big_endian n v) else Raise StructError.
Definition unpack_be (n : nat) (buffer : bytes) (offset : Z) : res Z :=
  if offset + Z.of_nat n <=? len buffer then Ok (from_big_endian (slice buffer offset (offset + Z.of_nat n))) else Raise StructError.

Definition _client_frame_header (opcode payload_size : Z) (mask : bytes) : res bytes :=
  let first := Z.lor 0x80 (Z.land opcode 0x0F) in
  let! size :=
    (if payload_size <? 126 then Ok [Z.lor 0x80 payload_size]
     else if payload_size <? 65536 then let! d := pack_be 2 payload_size in Ok (Z.lor 0x80 126 :: d)
     else let! d := pack_be 8 payload_size in Ok (Z.lor 0x80 127 :: d)) in
  Ok (first :: size ++ mask).

(** [draw] is what [os.urandom(4)] would return. *)
Definition _mask_client_frame (opcode : Z) (payload : bytes) (mask : option bytes) (draw : bytes) : res bytes :=
  let! mask :=
    match mask with
    | None => Ok draw
    | Some mask => raise! ValueError when negb (len mask =? 4); Ok mask
    end in
  let! header := _client_frame_header opcode (len payload) mask in
  let! masked := _mask_payload payload mask in
  Ok (header ++ masked).

(** ** Parsing one frame *)

(** The length field: [None] when more bytes are needed. *)
Definition frame_length (buf : bytes) (b1 : Z) : res (option (Z * Z)) :=
  let ln := Z.land b1 0x7F in
  if ln =? 126 then
    if len buf <? 4 then Ok None
    else
      let! ln := unpack_be 2 buf 2 in
      raise! ConnectionError when ln <? 126;
      Ok (Some (ln, 4))
  else if ln =? 127 then
    if len buf <? 10 then Ok None
    else
      let! ln := unpack_be 8 buf 2 in
      raise! ConnectionError when negb (Z.land ln (Z.shiftl 1 63) =? 0);
      raise! ConnectionError when ln <? 65536;
      Ok (Some (ln, 10))
  else Ok (Some (ln, 2)).

(** The frame and what is left of the buffer.  The buffer is not changed when the
    answer is [None] or an exception. *)
Definition _parse_frame (buf : bytes) (max_frame_size : Z) (expect_masked : option bool) :
  res (option (bool * Z * bytes * bytes)) :=
  if len buf <? 2 then Ok None
  else
    let! b0 := idx buf 0 in
    let! b1 := idx buf 1 in
    raise! ConnectionError when negb (Z.land b0 0x70 =? 0);
    let fin := negb (Z.land b0 0x80 =? 0) in
    let masked := negb (Z.land b1 0x80 =? 0) in
    raise! ConnectionError when match expect_masked with Some e => negb (Bool.eqb masked e) | None => false end;
    let opcode := Z.land b0 0x0F in
    raise! ConnectionError when negb (zin opcode [0x0; 0x2; 0x8; 0x9; 0xA]);
    let! r := frame_length buf b1 in
    match r with
    | None => Ok None
    | Some (ln, pos) =>
        raise! ConnectionError when ln >? max_frame_size;
        let! _ :=
          (if zin opcode [0x8; 0x9; 0xA] then
             raise! ConnectionError when ln >? _MAX_CONTROL_PAYLOAD;
             raise! ConnectionError when negb fin;
             raise! ConnectionError when (opcode =? 0x8) && (ln =? 1);
             Ok tt
           else Ok tt) in
        let mask_len := if masked then 4 else 0 in
        let total := pos + mask_len + ln in
        if len buf <? total then Ok None
        else
          let mask := if masked then slice buf pos (pos + mask_len) else [] in
          let start := pos + mask_len in
          let raw := slice buf start total in
          let raw := if masked then imap (λ i b, Z.lxor b (mask !!! (i mod 4)%nat)) raw else raw in
          Ok (Some (fin, opcode, raw, slice buf total (len buf)))
    end.

Example mask_ex : _mask_client_frame 2 [72; 101; 108; 108; 111] None [0x37; 0xfa; 0x21; 0x3d] =
  Ok [0x82; 0x85; 0x37; 0xfa; 0x21; 0x3d; 0x7f; 0x9f; 0x4d; 0x51; 0x58].
Proof. vm_compute. reflexivity. Qed.

Example parse_ex : _parse_frame [0x82; 0x85; 0x37; 0xfa; 0x21; 0x3d; 0x7f; 0x9f; 0x4d; 0x51; 0x58; 0x8A] 10 (Some true) =
  Ok (Some (true, 2, [72; 101; 108; 108; 111], [0x8A])).
Proof. vm_compute. reflexivity. Qed.

(** ** Masking is a byte-wise exclusive or *)

(** The plain definition of RFC 6455: byte [i] with byte [i mod 4] of the mask. *)
Definition xor_mask (payload mask : bytes) : bytes := imap (λ i b, Z.lxor b (mask !!! (i mod 4)%nat)) payload.

#[local] Arguments Nat.div : simpl never.
#[local] Arguments Nat.modulo : simpl never.

Lemma stride_lookup {A} (l : list A) n j : stride n l !! j = l !! (n + 4 * j)%nat.
Proof.
  revert n j. induction l as [| x l IH]; intros [| n] j; simpl; try done.
  destruct j as [| j]; [done |]. simpl. rewrite IH. f_equal. lia.
Qed.

Lemma set_stride_spec {A} (l new : list A) n : length new = length (stride n l) →
  ∃ l', set_stride n l new = Ok l' ∧ length l' = length l ∧
        ∀ i, l' !! i = if decide (n ≤ i ∧ (i - n) mod 4 = 0)%nat then new !! ((i - n) / 4)%nat else l !! i.
Proof.
  revert n new. induction l as [| x l IH]; intros n new Hl.
  - destruct n, new; try done; exists []; split_and!; try done; intros i; by case_decide.
  - destruct n as [| n]; simpl in *.
    + destruct new as [| y new]; [done |]. destruct (IH 3%nat new) as (l' & -> & Hlen & Hlook); [by injection Hl |].
      exists (y :: l'). split_and!; [done | simpl; lia |]. intros [| i]; [done |]. simpl. rewrite Hlook.
      destruct (decide (3 ≤ i ∧ (i - 3) mod 4 = 0)%nat) as [[Hle Hm] | Hn].
      * rewrite decide_True.
        -- replace (S i / 4)%nat with (S ((i - 3) / 4)); [done |].
           replace (S i) with (i - 3 + 1 * 4)%nat by lia. rewrite Nat.div_add by done. lia.
        -- split; [lia |]. replace (S i) with (i - 3 + 1 * 4)%nat by lia. by rewrite Nat.Div0.mod_add.
      * rewrite decide_False; [done |]. intros [_ Hm]. apply Hn.
        assert (3 ≤ i)%nat. { destruct (decide (3 ≤ i)%nat); [done |]. rewrite Nat.mod_small in Hm; lia. }
        split; [done |]. replace (S i) with (i - 3 + 1 * 4)%nat in Hm by lia. by rewrite Nat.Div0.mod_add in Hm.
    + destruct (IH n new Hl) as (l' & E & Hlen & Hlook). destruct new as [| y new].
      all: exists (x :: l'); rewrite E; split_and!; [done | simpl; lia |]; intros [| i]; [rewrite decide_False; [done | lia] |].
      all: simpl; rewrite Hlook; destruct (decide (n ≤ i ∧ (i - n) mod 4 = 0)%nat);
           [rewrite decide_True; [done | lia] | rewrite decide_False; [done | lia]].
Qed.

Lemma xor_table key : byte_ok key → _xor_tables !! Z.to_nat key = Some ((λ value, Z.lxor value key) <$> seqZ 0 256).
Proof.
  intros [??]. unfold _xor_tables. rewrite list_lookup_fmap, lookup_seqZ_lt by lia. simpl. by rewrite Z2Nat.id.
Qed.

Lemma translate_xor key payload : bytes_ok payload →
  translate ((λ value, Z.lxor value key) <$> seqZ 0 256) payload = Ok ((λ b, Z.lxor b key) <$> payload).
Proof.
  induction 1 as [| b payload [? ?] _ IH]; [done |]. cbn [translate fmap list_fmap]. rewrite IH.
  unfold idx. rewrite list_lookup_fmap, lookup_seqZ_lt by lia. simpl. by rewrite Z2Nat.id.
Qed.

Lemma mask_pass payload n key masked : bytes_ok payload → byte_ok key → length masked = length payload →
  ∃ masked', (let! translated := translate ((λ value, Z.lxor value key) <$> seqZ 0 256) (stride n payload) in set_stride n masked translated) = Ok masked' ∧
    length masked' = length payload ∧
    ∀ i, masked' !! i = if decide (n ≤ i ∧ (i - n) mod 4 = 0)%nat then (λ b, Z.lxor b key) <$> payload !! i else masked !! i.
Proof.
  intros Hp Hk Hl. assert (bytes_ok (stride n payload)) as Hs.
  { apply Forall_lookup. intros i x Hx. rewrite stride_lookup in Hx. by eapply Forall_lookup_1. }
  rewrite translate_xor by done. cbn [rbind].
  destruct (set_stride_spec masked ((λ b, Z.lxor b key) <$> stride n payload) n) as (m' & -> & Hlen & Hlook).
  { rewrite length_fmap. clear -Hl. revert n masked Hl. induction payload as [| x p IH]; intros n [| y m] Hl; simplify_eq/=; try (by destruct n); destruct n; simpl; auto. }
  exists m'. split_and!; [done | lia |]. intros i. rewrite Hlook. case_decide as Hd; [| done].
  rewrite list_lookup_fmap, stride_lookup. do 2 f_equal. destruct Hd as [Hn Hd].
  pose proof (Nat.div_mod_eq (i - n) 4). lia.
Qed.

Definition mask_ok (mask : bytes) : Prop := len mask = 4 ∧ bytes_ok mask.

Lemma _mask_payload_spec payload mask : bytes_ok payload → mask_ok mask →
  _mask_payload payload mask = Ok (xor_mask payload mask).
Proof.
  intros Hp [Hlen Hm]. destruct mask as [| k0 [| k1 [| k2 [| k3 [| ? ?]]]]]; try (unfold len in Hlen; simpl in Hlen; lia).
  repeat match goal with H : bytes_ok (_ :: _) |- _ => apply Forall_cons in H as [? H] end.
  unfold _mask_payload. cbn [mask_loop]. rewrite !xor_table by done. cbn [rbind].
  destruct (mask_pass payload 0 k0 (replicate (length payload) 0)) as (m0 & E0 & L0 & T0); [done | done | apply length_replicate |].
  destruct (mask_pass payload 1 k1 m0) as (m1 & E1 & L1 & T1); [done.. |].
  destruct (mask_pass payload 2 k2 m1) as (m2 & E2 & L2 & T2); [done.. |].
  destruct (mask_pass payload 3 k3 m2) as (m3 & E3 & L3 & T3); [done.. |].
  repeat match goal with E : rbind (translate ?t ?p) _ = Ok _ |- _ =>
    let x := fresh "x" in destruct (translate t p) as [x |]; [cbn [rbind] in E |- * | done]; rewrite E; cbn [rbind]; clear E end.
  f_equal. apply list_eq. intros i. unfold xor_mask. rewrite list_lookup_imap, T3, T2, T1, T0.
  pose proof (Nat.mod_upper_bound i 4). pose proof (Nat.div_mod_eq i 4).
  assert (∀ n, n < 4 → (n ≤ i ∧ (i - n) mod 4 = 0 ↔ i mod 4 = n))%nat as Hiff.
  { intros n Hn. split.
    - intros [Hle Hd]. pose proof (Nat.div_mod_eq (i - n) 4). replace i with (n + (i - n) / 4 * 4)%nat by lia.
      rewrite Nat.Div0.mod_add, Nat.mod_small; lia.
    - intros E. split; [lia |]. replace (i - n)%nat with (i / 4 * 4)%nat by lia. apply Nat.Div0.mod_mul. }
  destruct (payload !! i) as [b |] eqn:Eb; simpl.
  - assert (i mod 4 = 0 ∨ i mod 4 = 1 ∨ i mod 4 = 2 ∨ i mod 4 = 3)%nat as [E | [E | [E | E]]] by lia; rewrite E.
    all: pose proof (Hiff 0%nat); pose proof (Hiff 1%nat); pose proof (Hiff 2%nat); pose proof (Hiff 3%nat).
    all: repeat (case_decide; [solve [done | exfalso; lia] |]); exfalso; lia.
  - apply lookup_ge_None in Eb. rewrite (proj1 (lookup_replicate_None _ _ _)) by lia. by repeat case_decide.
Qed.

Lemma xor_mask_xor_mask payload mask : xor_mask (xor_mask payload mask) mask = payload.
Proof.
  apply list_eq. intros i. unfold xor_mask. rewrite !list_lookup_imap. destruct (payload !! i) as [b |]; [simpl | done].
  by rewrite Z.lxor_assoc, Z.lxor_nilpotent, Z.lxor_0_r.
Qed.

Lemma len_xor_mask payload mask : len (xor_mask payload mask) = len payload.
Proof. unfold len, xor_mask. by rewrite length_imap. Qed.
