(* ===== verification/WsCodec.v ===== *)
(** * WebSocket frames on the wire

    The frame format of RFC 6455, written independently of the code, and what the
    frame functions of WsFrame do with it. *)

From S2P Require Import Prelude WsFrame.

(** ** The format *)

Record frame := mkFrame { f_fin : bool; f_opcode : Z; f_payload : bytes }.

(** The length field, with the mask bit. *)
Definition rfc_size (masked : bool) (n : Z) : bytes :=
  let top := if masked then 128 else 0 in
  if n <? 126 then [top + n]
  else if n <? 65536 then [top + 126; n / 256; n mod 256]
  else (top + 127) :: big_endian 8 n.

(** A frame as it is sent, masked (by a client) or not (by a server). *)
Definition wire (mask : option bytes) (f : frame) : bytes :=
  ((if f_fin f then 128 else 0) + f_opcode f) ::
  rfc_size (match mask with Some _ => true | None => false end) (len (f_payload f)) ++
  match mask with Some m => m ++ xor_mask (f_payload f) m | None => f_payload f end.

(** What the client admits: a binary or control frame within the limits. *)
Definition control (opcode : Z) : bool := zin opcode [0x8; 0x9; 0xA].
Record acceptable (max_frame_size : Z) (f : frame) : Prop := {
  acc_opcode : zin (f_opcode f) [0x0; 0x2; 0x8; 0x9; 0xA] = true;
  acc_bytes : bytes_ok (f_payload f);
  acc_size : len (f_payload f) ≤ max_frame_size ∧ len (f_payload f) < 2 ^ 63;
  acc_control : control (f_opcode f) = true →
    len (f_payload f) ≤ _MAX_CONTROL_PAYLOAD ∧ f_fin f = true ∧ (f_opcode f = 0x8 → len (f_payload f) ≠ 1) }.

(** ** Numbers *)

Lemma length_big_endian n v : length (big_endian n v) = n.
Proof. revert v. induction n as [| n IH]; intros v; [done |]. simpl. rewrite length_app, IH. simpl. lia. Qed.

Lemma from_big_endian_snoc b d : from_big_endian (b ++ [d]) = from_big_endian b * 256 + d.
Proof. unfold from_big_endian. by rewrite foldl_app. Qed.

Lemma from_to_big_endian n v : 0 ≤ v < 256 ^ Z.of_nat n → from_big_endian (big_endian n v) = v.
Proof.
  revert v. induction n as [| n IH]; intros v Hv; [simpl in *; unfold from_big_endian; simpl; lia |].
  cbn [big_endian]. rewrite from_big_endian_snoc, IH.
  - pose proof (Z.div_mod v 256). lia.
  - rewrite Nat2Z.inj_succ, Z.pow_succ_r in Hv by lia. split; [apply Z.div_pos; lia | apply Z.div_lt_upper_bound; lia].
Qed.

Lemma to_from_big_endian b : bytes_ok b → big_endian (length b) (from_big_endian b) = b.
Proof.
  induction b as [| d b IH] using rev_ind; intros Hb; [done |]. apply Forall_app in Hb as [Hb [Hd _]%Forall_cons].
  rewrite length_app, Nat.add_comm, from_big_endian_snoc. cbn [big_endian plus length].
  unfold byte_ok in Hd. set (v := from_big_endian b) in *.
  assert ((v * 256 + d) / 256 = v) as -> by (rewrite Z.div_add_l by lia; rewrite Z.div_small by lia; lia).
  assert ((v * 256 + d) mod 256 = d) as -> by (rewrite Z.add_comm, Z_mod_plus_full; by apply Z.mod_small).
  by rewrite IH.
Qed.

Lemma from_big_endian_bound b : bytes_ok b → 0 ≤ from_big_endian b < 256 ^ len b.
Proof.
  induction b as [| d b IH] using rev_ind; intros Hb; [done |]. apply Forall_app in Hb as [Hb [Hd _]%Forall_cons].
  rewrite from_big_endian_snoc, len_app. change (len [d]) with 1. pose proof (len_nonneg b). rewrite Z.pow_add_r by lia.
  unfold byte_ok in Hd. specialize (IH Hb). lia.
Qed.

Lemma big_endian_bytes n v : bytes_ok (big_endian n v).
Proof.
  revert v. induction n as [| n IH]; intros v; [constructor |]. apply Forall_app. split; [apply IH |].
  constructor; [| constructor]. unfold byte_ok. pose proof (Z.mod_pos_bound v 256). lia.
Qed.

Lemma big_endian_2 v : 0 ≤ v < 65536 → big_endian 2 v = [v / 256; v mod 256].
Proof.
  intros Hv. simpl. f_equal. rewrite Z.mod_small; [done |]. split; [apply Z.div_pos; lia | apply Z.div_lt_upper_bound; lia].
Qed.

(** ** What the client sends *)

Lemma header_wire opcode n mask : 0 ≤ opcode < 16 → 0 ≤ n < 2 ^ 64 →
  _client_frame_header opcode n mask = Ok ((128 + opcode) :: rfc_size true n ++ mask).
Proof.
  intros Ho Hn. unfold _client_frame_header, rfc_size.
  assert (Z.lor 128 (Z.land opcode 15) = 128 + opcode) as ->.
  { change 15 with (Z.ones 4). rewrite Z.land_ones, Z.mod_small, Z.lor_comm by lia. change 128 with (1 * 2 ^ 7).
    rewrite lor_lo_hi by (change (2 ^ 7) with 128; lia). lia. }
  destruct (n <? 126) eqn:E1.
  - apply Z.ltb_lt in E1. cbn [rbind]. do 2 f_equal. cbn [app]. f_equal. rewrite Z.lor_comm. change 128 with (1 * 2 ^ 7) at 1.
    rewrite lor_lo_hi by (change (2 ^ 7) with 128; lia). lia.
  - apply Z.ltb_ge in E1. destruct (n <? 65536) eqn:E2; unfold pack_be.
    + apply Z.ltb_lt in E2. change (256 ^ Z.of_nat 2) with 65536.
      rewrite (proj2 (Z.leb_le 0 n)), (proj2 (Z.ltb_lt n 65536)) by lia. cbn [andb rbind]. by rewrite big_endian_2 by lia.
    + change (256 ^ Z.of_nat 8) with (2 ^ 64). rewrite (proj2 (Z.leb_le 0 n)), (proj2 (Z.ltb_lt n _)) by lia. done.
Qed.

(** Every frame the client writes is a well-formed masked frame of the size it was
    computed to have. *)
Lemma mask_client_frame_wire opcode payload draw : 0 ≤ opcode < 16 → bytes_ok payload → len payload < 2 ^ 64 → mask_ok draw →
  _mask_client_frame opcode payload None draw = Ok (wire (Some draw) (mkFrame true opcode payload)).
Proof.
  intros Ho Hp Hl Hm. unfold _mask_client_frame. cbn [rbind]. rewrite header_wire by (pose proof (len_nonneg payload); lia).
  cbn [rbind]. rewrite _mask_payload_spec by done. cbn [rbind]. unfold wire. cbn [f_fin f_opcode f_payload].
  by rewrite <- app_comm_cons, <- app_assoc.
Qed.

Lemma len_rfc_size masked n : 0 ≤ n → len (rfc_size masked n) = if n <? 126 then 1 else if n <? 65536 then 3 else 9.
Proof.
  intros Hn. unfold rfc_size. destruct (n <? 126); [done |]. destruct (n <? 65536); [done |].
  rewrite len_cons. unfold len. by rewrite length_big_endian.
Qed.

Lemma len_wire mask f : len (wire mask f) =
  1 + len (rfc_size (match mask with Some _ => true | None => false end) (len (f_payload f))) + len (default [] mask) + len (f_payload f).
Proof.
  unfold wire. rewrite len_cons, len_app. destruct mask; simpl; rewrite ?len_app, ?len_xor_mask, ?len_nil; lia.
Qed.

Lemma len_client_wire draw f : mask_ok draw → len (wire (Some draw) f) = _masked_frame_size (len (f_payload f)).
Proof.
  intros [Hl _]. pose proof (len_nonneg (f_payload f)). rewrite len_wire, len_rfc_size by done. simpl. unfold _masked_frame_size.
  destruct (_ <? 126); [lia |]. destruct (_ <? 65536); lia.
Qed.

(** ** What the parser reads *)

Lemma slice_app_l {A} (l k : list A) i j : 0 ≤ j ≤ len l → slice (l ++ k) i j = slice l i j.
Proof.
  intros Hj. unfold slice. destruct (decide (Z.to_nat j ≤ Z.to_nat i)%nat) as [Hle | Hgt].
  - by replace (Z.to_nat j - Z.to_nat i)%nat with 0%nat by lia.
  - unfold len in Hj. rewrite drop_app_le by lia. rewrite take_app_le; [done |]. rewrite length_drop. lia.
Qed.

Lemma slice_mid_len {A} (p m q : list A) i j : i = len p → j = len p + len m → slice (p ++ m ++ q) i j = m.
Proof. intros -> ->. apply slice_mid. Qed.

Lemma slice_field a b (f rest : bytes) j : j = 2 + len f → slice (a :: b :: f ++ rest) 2 j = f.
Proof. intros ->. by apply (slice_mid_len [a; b] f rest). Qed.

(** The parts of the first two bytes. *)
Definition top_bit (b : Z) : bool := negb (Z.land b 0x80 =? 0).

Lemma byte0 fin opcode : zin opcode [0x0; 0x2; 0x8; 0x9; 0xA] = true →
  let b := (if fin : bool then 128 else 0) + opcode in
  Z.land b 0x70 = 0 ∧ top_bit b = fin ∧ Z.land b 0x0F = opcode.
Proof.
  intros H. apply zin_spec in H. repeat (apply elem_of_cons in H as [-> | H]; [destruct fin; vm_compute; auto |]).
  by apply not_elem_of_nil in H.
Qed.

Lemma byte1 masked n : 0 ≤ n < 128 →
  let b := (if masked : bool then 128 else 0) + n in top_bit b = masked ∧ Z.land b 0x7F = n.
Proof.
  intros Hn. assert (byte_ok n) as Hb by (unfold byte_ok; lia).
  pose proof (byte_forall (λ n, implb (n <? 128) (Bool.eqb (top_bit (128 + n)) true && (Z.land (128 + n) 127 =? n) &&
    Bool.eqb (top_bit (0 + n)) false && (Z.land (0 + n) 127 =? n))) ltac:(vm_compute; reflexivity) n Hb) as H.
  cbn beta in H. rewrite (proj2 (Z.ltb_lt n 128)) in H by lia. simpl implb in H.
  apply andb_prop in H as [[[H1 H2]%andb_prop H3]%andb_prop H4].
  apply Bool.eqb_prop in H1. apply Bool.eqb_prop in H3. apply Z.eqb_eq in H2, H4. destruct masked; simpl; auto.
Qed.

Lemma frame_length_wire b0 masked n rest : 0 ≤ n < 2 ^ 63 →
  ∃ b1, head (rfc_size masked n) = Some b1 ∧ top_bit b1 = masked ∧ byte_ok b1 ∧
    frame_length (b0 :: rfc_size masked n ++ rest) b1 = Ok (Some (n, 1 + len (rfc_size masked n))).
Proof.
  intros Hn. unfold rfc_size. pose proof (len_nonneg rest). assert (∀ k, 0 ≤ k < 128 → byte_ok ((if masked then 128 else 0) + k)) as Hok.
  { intros k Hk. unfold byte_ok. destruct masked; lia. }
  destruct (n <? 126) eqn:E1; [| destruct (n <? 65536) eqn:E2].
  - apply Z.ltb_lt in E1. destruct (byte1 masked n) as [Ht Hl]; [lia |]. eexists. split_and!; [done | done | apply Hok; lia |].
    unfold frame_length. rewrite Hl, (proj2 (Z.eqb_neq n 126)), (proj2 (Z.eqb_neq n 127)) by lia. done.
  - apply Z.ltb_ge in E1. apply Z.ltb_lt in E2. destruct (byte1 masked 126) as [Ht Hl]; [lia |].
    eexists. split_and!; [done | done | apply Hok; lia |].
    unfold frame_length. rewrite Hl. cbn [Z.eqb Pos.eqb].
    rewrite (proj2 (Z.ltb_ge _ 4)) by (rewrite !len_cons, len_app, !len_cons, len_nil; lia).
    unfold unpack_be. rewrite (proj2 (Z.leb_le _ _)) by (rewrite !len_cons, len_app, !len_cons, len_nil; lia).
    cbn [rbind]. rewrite <- app_comm_cons, (slice_field _ _ [_; _] rest) by done.
    assert (from_big_endian [n / 256; n mod 256] = n) as ->.
    { rewrite <- big_endian_2 by lia. apply from_to_big_endian. change (256 ^ Z.of_nat 2) with 65536. lia. }
    rewrite (proj2 (Z.ltb_ge n 126)) by lia. done.
  - apply Z.ltb_ge in E1, E2. destruct (byte1 masked 127) as [Ht Hl]; [lia |].
    eexists. split_and!; [done | done | apply Hok; lia |].
    unfold frame_length. rewrite Hl. cbn [Z.eqb Pos.eqb].
    assert (len (big_endian 8 n) = 8) as Hb by (unfold len; by rewrite length_big_endian).
    rewrite <- app_comm_cons.
    rewrite (proj2 (Z.ltb_ge _ 10)) by (rewrite !len_cons, len_app, Hb; lia).
    unfold unpack_be. rewrite (proj2 (Z.leb_le _ _)) by (rewrite !len_cons, len_app, Hb; lia).
    cbn [rbind]. rewrite slice_field by (rewrite Hb; done).
    rewrite from_to_big_endian by (change (256 ^ Z.of_nat 8) with (2 ^ 64); lia).
    pose proof (land_lo_hi n 1 63 ltac:(lia) Hn) as H63. rewrite Z.mul_1_l in H63. rewrite Z.shiftl_1_l, H63. cbn [Z.eqb negb].
    rewrite (proj2 (Z.ltb_ge n 65536)) by lia. by rewrite len_cons, Hb.
Qed.

(** The guards of a control frame. *)
Lemma control_guard opcode ln fin :
  (control opcode = true → ln ≤ _MAX_CONTROL_PAYLOAD ∧ fin = true ∧ (opcode = 0x8 → ln ≠ 1)) →
  (if zin opcode [0x8; 0x9; 0xA] then
     raise! ConnectionError when ln >? _MAX_CONTROL_PAYLOAD;
     raise! ConnectionError when negb fin;
     raise! ConnectionError when (opcode =? 0x8) && (ln =? 1);
     Ok tt
   else Ok tt) = Ok tt.
Proof.
  unfold control. destruct (zin _ _); [| done]. intros (Hl & -> & H1); [done |]. rewrite Z.gtb_ltb, (proj2 (Z.ltb_ge _ _)) by done.
  cbn [negb]. destruct (opcode =? 8) eqn:E8; [| done]. apply Z.eqb_eq in E8. rewrite (proj2 (Z.eqb_neq ln 1)) by auto. done.
Qed.

Lemma parse_wire max_frame_size mask f rest : acceptable max_frame_size f → (∀ m, mask = Some m → mask_ok m) →
  _parse_frame (wire mask f ++ rest) max_frame_size (Some (match mask with Some _ => true | None => false end)) =
  Ok (Some (f_fin f, f_opcode f, f_payload f, rest)).
Proof.
  intros [Hop Hb [Hmax Hn] Hc] Hm. set (n := len (f_payload f)) in *. pose proof (len_nonneg (f_payload f)). fold n in H.
  set (masked := match mask with Some _ => true | None => false end).
  set (body := match mask with Some m => m ++ xor_mask (f_payload f) m | None => f_payload f end).
  destruct (frame_length_wire ((if f_fin f then 128 else 0) + f_opcode f) masked n (body ++ rest)) as (b1 & Hh & Ht & Hb1 & Hfl); [lia |].
  destruct (byte0 (f_fin f) (f_opcode f) Hop) as (H70 & Hf & H0f). unfold wire. fold n masked body.
  rewrite <- app_comm_cons, <- app_assoc. set (b0 := _ + f_opcode f) in *.
  assert (∃ sz, rfc_size masked n = b1 :: sz) as [sz Esz] by (destruct (rfc_size masked n); [done |]; injection Hh as ->; eauto).
  assert (len (b0 :: rfc_size masked n) = 1 + len (rfc_size masked n)) as Hpos by apply len_cons.
  assert (len body = (if masked then 4 else 0) + n) as Hbody.
  { unfold body, masked, n. destruct mask as [m |]; [| done]. rewrite len_app, len_xor_mask. destruct (Hm m eq_refl) as [-> _]. done. }
  pose proof (len_nonneg sz). pose proof (len_nonneg rest).
  assert (len (b0 :: rfc_size masked n ++ body ++ rest) = 1 + len (rfc_size masked n) + (if masked then 4 else 0) + n + len rest) as Hlen.
  { rewrite len_cons, !len_app, Hbody. lia. }
  unfold _parse_frame. rewrite (proj2 (Z.ltb_ge _ 2)) by (rewrite Hlen, Esz, len_cons; destruct masked; lia).
  change (idx (b0 :: rfc_size masked n ++ body ++ rest) 0) with (@Ok Z b0). cbn [rbind].
  assert (idx (b0 :: rfc_size masked n ++ body ++ rest) 1 = Ok b1) as -> by (by rewrite Esz). cbn [rbind].
  fold (top_bit b0) (top_bit b1). rewrite H70, Ht, Hf, H0f, Hop, Bool.eqb_reflx, Hfl. cbn [Z.eqb negb rbind].
  rewrite Z.gtb_ltb, (proj2 (Z.ltb_ge max_frame_size n)) by done. rewrite (control_guard _ _ _ Hc). cbn [rbind].
  set (pos := 1 + len (rfc_size masked n)) in *.
  rewrite (proj2 (Z.ltb_ge _ _)) by lia.
  assert (slice (b0 :: rfc_size masked n ++ body ++ rest) (pos + (if masked then 4 else 0) + n) (len (b0 :: rfc_size masked n ++ body ++ rest)) = rest) as ->.
  { rewrite app_assoc, app_comm_cons. rewrite <- (slice_tail (b0 :: rfc_size masked n ++ body) rest) at 3.
    f_equal; rewrite len_cons, len_app, Hbody; unfold pos; destruct masked; lia. }
  do 4 f_equal. unfold masked, body in *. destruct mask as [m |].
  - destruct (Hm m eq_refl) as [H4 Hmb]. rewrite <- app_assoc. rewrite app_comm_cons.
    rewrite (slice_mid_len (b0 :: rfc_size true n) m _ pos (pos + 4)) by lia.
    rewrite app_assoc, (slice_mid_len ((b0 :: rfc_size true n) ++ m) (xor_mask (f_payload f) m) rest) by
      (rewrite ?len_app, ?len_xor_mask, Hpos, H4; lia).
    apply xor_mask_xor_mask.
  - rewrite app_comm_cons, (slice_mid_len (b0 :: rfc_size false n) (f_payload f) rest) by lia. done.
Qed.

(** ** What the parser accepts *)

Lemma byte_split b : byte_ok b → Z.land b 0x70 = 0 → b = (if top_bit b then 128 else 0) + Z.land b 0x0F.
Proof.
  intros Hb H. pose proof (byte_forall (λ b, implb (Z.land b 0x70 =? 0) (b =? (if top_bit b then 128 else 0) + Z.land b 0x0F))
    ltac:(vm_compute; reflexivity) b Hb) as H1.
  cbn beta in H1. rewrite H in H1. by apply Z.eqb_eq in H1.
Qed.

Lemma byte_split_7 b : byte_ok b → b = (if top_bit b then 128 else 0) + Z.land b 0x7F ∧ 0 ≤ Z.land b 0x7F < 128.
Proof.
  intros Hb. pose proof (byte_forall (λ b, (b =? (if top_bit b then 128 else 0) + Z.land b 0x7F) && (0 <=? Z.land b 0x7F) && (Z.land b 0x7F <? 128))
    ltac:(vm_compute; reflexivity) b Hb) as H.
  apply andb_prop in H as [[H1 H2]%andb_prop H3]. apply Z.eqb_eq in H1. lia.
Qed.

Lemma slice_len_cut (l : bytes) i j : 0 ≤ i ≤ j → j ≤ len l → l = take (Z.to_nat i) l ++ slice l i j ++ slice l j (len l) ∧ len (slice l i j) = j - i.
Proof.
  intros Hi Hj. split; [| by apply len_slice; lia]. unfold slice. rewrite <- (take_drop (Z.to_nat i) l) at 1. f_equal.
  rewrite <- (take_drop (Z.to_nat j - Z.to_nat i) (drop (Z.to_nat i) l)) at 1. f_equal. rewrite drop_drop.
  replace (Z.to_nat i + (Z.to_nat j - Z.to_nat i))%nat with (Z.to_nat j) by lia.
  rewrite take_ge; [done |]. rewrite length_drop. unfold len. lia.
Qed.

Lemma frame_length_inv b0 b1 r ln pos : byte_ok b1 → bytes_ok r → frame_length (b0 :: b1 :: r) b1 = Ok (Some (ln, pos)) →
  ∃ r', b1 :: r = rfc_size (top_bit b1) ln ++ r' ∧ pos = 1 + len (rfc_size (top_bit b1) ln) ∧ 0 ≤ ln < 2 ^ 63.
Proof.
  intros Hb1 Hr. destruct (byte_split_7 b1 Hb1) as [E Hlow]. unfold frame_length, rfc_size. set (top := if top_bit b1 then 128 else 0) in *.
  pose proof (len_nonneg r).
  assert (∀ n, 2 + Z.of_nat n <= len (b0 :: b1 :: r) → ∃ f r', r = f ++ r' ∧ len f = Z.of_nat n ∧ slice (b0 :: b1 :: r) 2 (2 + Z.of_nat n) = f) as Hcut.
  { intros n Hn. rewrite !len_cons in Hn. exists (take n r), (drop n r). split_and!; [by rewrite take_drop | |].
    - unfold len in *. rewrite length_take. lia.
    - rewrite <- (take_drop n r) at 1. apply slice_field. unfold len in *. rewrite length_take. lia. }
  destruct (Z.land b1 127 =? 126) eqn:E126; [| destruct (Z.land b1 127 =? 127) eqn:E127].
  - apply Z.eqb_eq in E126. destruct (_ <? 4) eqn:E4; [done |]. apply Z.ltb_ge in E4.
    destruct (Hcut 2%nat) as (f & r' & -> & Hf & Hs); [lia |]. intros H2. res_inv. unfold unpack_be in Hv.
    change (2 + Z.of_nat 2) with 4 in *. rewrite (proj2 (Z.leb_le _ _)), Hs in Hv by lia. res_inv. apply Z.ltb_ge in E0.
    destruct f as [| x [| y [| ? ?]]]; try (unfold len in Hf; simpl in Hf; lia).
    pose proof (from_big_endian_bound [x; y]) as Hbd. pose proof (to_from_big_endian [x; y]) as Htf.
    apply Forall_app in Hr as [Hxy _]. specialize (Hbd Hxy). specialize (Htf Hxy). change (256 ^ len [x; y]) with 65536 in Hbd.
    cbn [length] in Htf. rewrite big_endian_2 in Htf by lia. injection Htf as Hx Hy.
    exists r'. rewrite (proj2 (Z.ltb_ge _ 126)), (proj2 (Z.ltb_lt _ 65536)), Hx, Hy by lia.
    split_and!; [by rewrite E at 1; rewrite E126 | done | lia..].
  - apply Z.eqb_eq in E127. destruct (_ <? 10) eqn:E10; [done |]. apply Z.ltb_ge in E10.
    destruct (Hcut 8%nat) as (f & r' & -> & Hf & Hs); [lia |]. intros H2. res_inv. unfold unpack_be in Hv.
    change (2 + Z.of_nat 8) with 10 in *. rewrite (proj2 (Z.leb_le _ _)), Hs in Hv by lia. res_inv. apply Z.ltb_ge in E1.
    apply negb_false_iff, Z.eqb_eq in E0. rewrite Z.shiftl_1_l in E0.
    apply Forall_app in Hr as [Hff _]. pose proof (from_big_endian_bound f Hff) as Hbd. rewrite Hf in Hbd.
    change (256 ^ Z.of_nat 8) with (2 ^ 64) in Hbd.
    pose proof (to_from_big_endian f Hff) as Htf. replace (length f) with 8%nat in Htf by (unfold len in Hf; lia).
    assert (from_big_endian f < 2 ^ 63).
    { apply Z.nle_gt. intros Hge. assert (Z.testbit (from_big_endian f) 63 = true) as Hbit.
      { rewrite Z.testbit_true by lia. assert (from_big_endian f / 2 ^ 63 = 1) as ->; [| done].
        symmetry. apply Z.div_unique with (from_big_endian f - 2 ^ 63); lia. }
      apply (f_equal (λ z, Z.testbit z 63)) in E0. rewrite Z.land_spec, Hbit, Z.pow2_bits_true, Z.bits_0 in E0 by lia. done. }
    exists r'. rewrite (proj2 (Z.ltb_ge _ 126)), (proj2 (Z.ltb_ge _ 65536)), Htf by lia.
    split_and!; [by rewrite E at 1; rewrite E127 | | lia..]. rewrite len_cons, Hf. done.
  - intros [= <- <-]. apply Z.eqb_neq in E126, E127. exists r. rewrite (proj2 (Z.ltb_lt _ 126)) by lia.
    split_and!; [by rewrite E at 1 | done | lia..].
Qed.

Lemma control_guard_inv opcode ln fin u :
  (if zin opcode [0x8; 0x9; 0xA] then
     raise! ConnectionError when ln >? _MAX_CONTROL_PAYLOAD;
     raise! ConnectionError when negb fin;
     raise! ConnectionError when (opcode =? 0x8) && (ln =? 1);
     Ok tt
   else Ok tt) = Ok u →
  control opcode = true → ln ≤ _MAX_CONTROL_PAYLOAD ∧ fin = true ∧ (opcode = 0x8 → ln ≠ 1).
Proof.
  unfold control. intros H Hc. rewrite Hc in H. res_inv. destruct fin; [| done]. rewrite Z.gtb_ltb in E. apply Z.ltb_ge in E.
  split_and!; [done | done |]. intros ->. by apply Z.eqb_neq in E1.
Qed.

Lemma cut3 (l : bytes) i j : 0 ≤ i → 0 ≤ j → i + j ≤ len l → ∃ a b c, l = a ++ b ++ c ∧ len a = i ∧ len b = j.
Proof.
  intros Hi Hj Hl. exists (take (Z.to_nat i) l), (take (Z.to_nat j) (drop (Z.to_nat i) l)), (drop (Z.to_nat j) (drop (Z.to_nat i) l)).
  unfold len in *. rewrite !length_take, length_drop, !take_drop. split_and!; [done | lia..].
Qed.

Lemma slice_tail_len (p q : bytes) i j : i = len p → j = len (p ++ q) → slice (p ++ q) i j = q.
Proof. intros -> ->. apply slice_tail. Qed.

Lemma xor_mask_bytes payload mask : bytes_ok payload → bytes_ok mask → bytes_ok (xor_mask payload mask).
Proof.
  intros Hp Hm. apply Forall_lookup. intros i x. unfold xor_mask. rewrite list_lookup_imap. intros (b & Hb & ->)%fmap_Some.
  apply Forall_lookup_1 with (1 := Hp) in Hb. unfold byte_ok in *.
  assert (0 ≤ mask !!! (i mod 4)%nat < 256) as Hk.
  { rewrite list_lookup_total_alt. destruct (mask !! (i mod 4)%nat) eqn:E; [| simpl; lia]. by apply Forall_lookup_1 with (1 := Hm) in E. }
  set (k := mask !!! (i mod 4)%nat) in *. clearbody k. split; [apply Z.lxor_nonneg; lia |].
  destruct (decide (Z.lxor b k = 0)) as [-> | Hne]; [done |].
  apply Z.log2_lt_cancel. change (Z.log2 256) with 8. 
  assert (Z.log2 (Z.lxor b k) ≤ Z.max (Z.log2 b) (Z.log2 k)) by (apply Z.log2_lxor; lia).
  assert (∀ z, 0 ≤ z < 256 → Z.log2 z < 8) as Hlog; [| pose proof (Hlog b Hb); pose proof (Hlog _ Hk); lia].
  intros z Hz. destruct (decide (z = 0)) as [-> | ?]; [done |]. apply Z.log2_lt_pow2; lia.
Qed.

(** The parser reads nothing but frames: what it returns was sent as one. *)
Lemma parse_inv buf max_frame_size masked fin opcode raw rest : bytes_ok buf →
  _parse_frame buf max_frame_size (Some masked) = Ok (Some (fin, opcode, raw, rest)) →
  ∃ mask, masked = (match mask with Some _ => true | None => false end) ∧ (∀ m, mask = Some m → mask_ok m) ∧
    acceptable max_frame_size (mkFrame fin opcode raw) ∧ buf = wire mask (mkFrame fin opcode raw) ++ rest.
Proof.
  intros Hbuf H. unfold _parse_frame in H. destruct (_ <? 2) eqn:E2; [done |]. apply Z.ltb_ge in E2.
  destruct buf as [| b0 [| b1 r]]; [done.. |]. apply Forall_cons in Hbuf as [Hb0 [Hb1 Hr]%Forall_cons].
  change (idx (b0 :: b1 :: r) 0) with (@Ok Z b0) in H. change (idx (b0 :: b1 :: r) 1) with (@Ok Z b1) in H. cbn [rbind] in H.
  fold (top_bit b0) (top_bit b1) in H. res_inv.
  apply negb_false_iff, Z.eqb_eq in E. apply negb_false_iff, Bool.eqb_prop in E0. apply negb_false_iff in E1.
  destruct v as [[ln pos] |]; [| done]. destruct (frame_length_inv _ _ _ _ _ Hb1 Hr Hv) as (r' & Er & Hpos & Hln). res_inv.
  destruct (_ <? _) eqn:Et; [done |]. apply Z.ltb_ge in Et. injection H as <- <- Hraw Hrest.
  rewrite Z.gtb_ltb in E3. apply Z.ltb_ge in E3. pose proof (control_guard_inv _ _ _ _ Hv0) as Hc. clear Hv0.
  assert (bytes_ok r') as Hr'. { assert (bytes_ok (b1 :: r)) as Hall by (by constructor). rewrite Er in Hall. by apply Forall_app in Hall as [_ ?]. }
  rewrite Er in *. rewrite E0 in *. clear Er Hr. set (h := rfc_size masked ln) in *. set (mlen := if masked then 4 else 0) in *.
  assert (0 ≤ mlen) by (unfold mlen; destruct masked; lia). rewrite len_cons, len_app in Et.
  destruct (cut3 r' mlen ln) as (m & w & rest' & -> & Hm & Hw); [lia.. |].
  rewrite !app_comm_cons in Hraw, Hrest.
  assert (rest' = rest) as -> by (rewrite <- Hrest; symmetry; rewrite !app_assoc; apply slice_tail_len;
    rewrite !len_app, len_cons, Hm, Hw; lia).
  rewrite (slice_mid_len (b0 :: h) m) in Hraw by (rewrite len_cons; lia).
  rewrite (app_assoc _ m), (slice_mid_len _ w rest) in Hraw by (rewrite len_app, len_cons; lia).
  apply Forall_app in Hr' as [Hmok [Hwok _]%Forall_app].
  assert (len raw = ln ∧ bytes_ok raw ∧ ∃ mask, masked = (match mask with Some _ => true | None => false end) ∧
    (∀ m, mask = Some m → mask_ok m) ∧ m ++ w = match mask with Some m => m ++ xor_mask raw m | None => raw end) as (Hl & Hrok & mask & Hmask & Hmok' & Hbody).
  { subst mlen. destruct masked; subst raw.
    - change (imap _ w) with (xor_mask w m). rewrite len_xor_mask. split_and!; [done | by apply xor_mask_bytes |].
      exists (Some m). split_and!; [done | by intros ? [= <-] |]. by rewrite xor_mask_xor_mask.
    - split_and!; [done.. |]. exists None. split_and!; [done | done |]. by rewrite (len_0_nil m). }
  exists mask. split_and!; [done | done | |].
  - constructor; cbn [f_opcode f_payload f_fin]; rewrite ?Hl; [assumption | assumption | lia | assumption].
  - unfold wire. cbn [f_opcode f_payload f_fin]. rewrite Hl, <- Hmask. fold h. rewrite <- (byte_split b0 Hb0 E).
    by rewrite <- Hbody, <- app_comm_cons, <- !app_assoc.
Qed.

#[local] Hint Resolve raises_only_Ok : pyraise.

Lemma parse_raises buf max_frame_size masked : raises_only (λ x, x = ConnectionError) (_parse_frame buf max_frame_size masked).
Proof.
  intros x. unfold _parse_frame. destruct (_ <? 2) eqn:E2; [done |]. apply Z.ltb_ge in E2. destruct buf as [| b0 [| b1 r]]; [done.. |].
  change (idx (b0 :: b1 :: r) 0) with (@Ok Z b0). change (idx (b0 :: b1 :: r) 1) with (@Ok Z b1). cbn [rbind].
  destruct (negb _); [congruence |]. destruct (match masked with Some _ => _ | None => _ end); [congruence |].
  destruct (negb _); [congruence |].
  assert (∀ y, frame_length (b0 :: b1 :: r) b1 = Raise y → y = ConnectionError) as Hfl.
  { intros y. unfold frame_length, unpack_be. destruct (_ =? 126).
    - destruct (_ <? 4) eqn:E4; [done |]. apply Z.ltb_ge in E4. rewrite (proj2 (Z.leb_le _ _)) by (simpl Z.of_nat; lia). cbn [rbind].
      destruct (_ <? 126); congruence.
    - destruct (_ =? 127); [| done]. destruct (_ <? 10) eqn:E10; [done |]. apply Z.ltb_ge in E10.
      rewrite (proj2 (Z.leb_le _ _)) by (simpl Z.of_nat; lia). cbn [rbind]. destruct (negb _); [congruence |]. destruct (_ <? 65536); congruence. }
  destruct (frame_length _ _) as [[[ln pos] |] | y]; cbn [rbind]; [| done | intros [= <-]; by apply Hfl].
  destruct (_ >? _); [congruence |]. destruct (zin _ [8; 9; 10]); cbn [rbind]; [| by destruct (_ <? _)].
  destruct (_ >? _); [cbn [rbind]; congruence |]. destruct (negb _); [cbn [rbind]; congruence |].
  destruct (_ && _); cbn [rbind]; [congruence |]. by destruct (_ <? _).
Qed.

(** More bytes change neither a frame nor a refusal. *)
Lemma frame_length_more b0 b1 r more a : frame_length (b0 :: b1 :: r) b1 = a → a ≠ Ok None → frame_length (b0 :: b1 :: r ++ more) b1 = a.
Proof.
  pose proof (len_nonneg more). unfold frame_length, unpack_be.
  assert (∀ n, n ≤ len (b0 :: b1 :: r) → slice (b0 :: b1 :: r ++ more) 2 n = slice (b0 :: b1 :: r) 2 n) as Hs.
  { intros n Hn. rewrite (app_comm_cons _ _ b1), (app_comm_cons _ _ b0). destruct (decide (0 ≤ n)); [by apply slice_app_l |].
    unfold slice. by replace (Z.to_nat n) with 0%nat by lia. }
  assert (len (b0 :: b1 :: r ++ more) = len (b0 :: b1 :: r) + len more) as Hl by (rewrite !len_cons, len_app; lia).
  intros <- Hn. destruct (_ =? 126); [| destruct (_ =? 127); [| done]].
  - destruct (len (b0 :: b1 :: r) <? 4) eqn:E4; [done |]. apply Z.ltb_ge in E4. change (2 + Z.of_nat 2) with 4.
    rewrite Hl, (proj2 (Z.ltb_ge _ 4)), !(proj2 (Z.leb_le _ _)), Hs by lia. done.
  - destruct (len (b0 :: b1 :: r) <? 10) eqn:E10; [done |]. apply Z.ltb_ge in E10. change (2 + Z.of_nat 8) with 10.
    rewrite Hl, (proj2 (Z.ltb_ge _ 10)), !(proj2 (Z.leb_le _ _)), Hs by lia. done.
Qed.

Lemma parse_raise_more buf more max_frame_size masked x : _parse_frame buf max_frame_size masked = Raise x →
  _parse_frame (buf ++ more) max_frame_size masked = Raise x.
Proof.
  unfold _parse_frame. destruct (_ <? 2) eqn:E2; [done |]. apply Z.ltb_ge in E2. destruct buf as [| b0 [| b1 r]]; [done.. |].
  change ((b0 :: b1 :: r) ++ more) with (b0 :: b1 :: r ++ more).
  rewrite (proj2 (Z.ltb_ge _ 2)) by (rewrite !len_cons in *; pose proof (len_nonneg (r ++ more)); lia).
  change (idx (b0 :: b1 :: r) 0) with (@Ok Z b0). change (idx (b0 :: b1 :: r) 1) with (@Ok Z b1).
  change (idx (b0 :: b1 :: r ++ more) 0) with (@Ok Z b0). change (idx (b0 :: b1 :: r ++ more) 1) with (@Ok Z b1). cbn [rbind].
  destruct (negb _); [done |]. destruct (match masked with Some _ => _ | None => _ end); [done |]. destruct (negb _); [done |].
  destruct (frame_length (b0 :: b1 :: r) b1) as [[[ln pos] |] | y] eqn:Efl; cbn [rbind]; [| done |].
  - rewrite (frame_length_more _ _ _ _ _ Efl) by done. cbn [rbind]. destruct (ln >? _); [done |].
    match goal with |- context [rbind (if ?c then ?m else ?n)] => destruct (if c then m else n) end; cbn [rbind]; [| done].
    by destruct (_ <? _).
  - by rewrite (frame_length_more _ _ _ _ _ Efl).
Qed.

Lemma parse_more buf more max_frame_size masked fin opcode raw rest : bytes_ok buf →
  _parse_frame buf max_frame_size (Some masked) = Ok (Some (fin, opcode, raw, rest)) →
  _parse_frame (buf ++ more) max_frame_size (Some masked) = Ok (Some (fin, opcode, raw, rest ++ more)).
Proof.
  intros Hb H. apply parse_inv in H as (mask & -> & Hm & Ha & ->); [| done]. rewrite <- app_assoc. by rewrite parse_wire.
Qed.

Lemma parse_none_short buf max_frame_size masked : 0 ≤ max_frame_size → _parse_frame buf max_frame_size masked = Ok None → len buf < max_frame_size + 14.
Proof.
  intros Hmax. unfold _parse_frame. destruct (_ <? 2) eqn:E2; [apply Z.ltb_lt in E2; intros _; lia |]. intros H. res_inv.
  destruct v1 as [[ln pos] |].
  - assert (pos ≤ 10) as Hpos.
    { unfold frame_length in Hv1. destruct (_ =? 126); [| destruct (_ =? 127)].
      - destruct (_ <? 4); [done |]. res_inv. lia.
      - destruct (_ <? 10); [done |]. res_inv. lia.
      - res_inv. lia. }
    res_inv. rewrite Z.gtb_ltb in E3. apply Z.ltb_ge in E3.
    match type of H with (if ?c then _ else _) = _ => destruct c eqn:Et end; [| done]. apply Z.ltb_lt in Et.
    destruct (negb (Z.land v0 128 =? 0)); lia.
  - unfold frame_length in Hv1. destruct (_ =? 126); [| destruct (_ =? 127)].
    + destruct (_ <? 4) eqn:E4; [apply Z.ltb_lt in E4; lia | by res_inv].
    + destruct (_ <? 10) eqn:E10; [apply Z.ltb_lt in E10; lia | by res_inv].
    + done.
Qed.

(** C37: the parser accepts exactly the frames of RFC 6455 that the client may
    receive.  It returns a frame and a remainder precisely when the buffer is the
    encoding of that frame, within the limits, followed by the remainder; on any
    other bytes it asks for more, and then the buffer is shorter than the limit and
    the longest header, or it raises [ConnectionError] and nothing else. *)
Theorem ws_parse_exact buf max_frame_size masked : bytes_ok buf → 0 ≤ max_frame_size →
  (∀ fin opcode raw rest, _parse_frame buf max_frame_size (Some masked) = Ok (Some (fin, opcode, raw, rest)) ↔
    ∃ mask, masked = (match mask with Some _ => true | None => false end) ∧ (∀ m, mask = Some m → mask_ok m) ∧
      acceptable max_frame_size (mkFrame fin opcode raw) ∧ buf = wire mask (mkFrame fin opcode raw) ++ rest) ∧
  (_parse_frame buf max_frame_size (Some masked) = Ok None → len buf < max_frame_size + 14) ∧
  raises_only (λ x, x = ConnectionError) (_parse_frame buf max_frame_size (Some masked)).
Proof.
  intros Hb Hmax. split_and!; [| by apply parse_none_short | apply parse_raises]. intros fin opcode raw rest. split.
  - by apply parse_inv.
  - intros (mask & -> & Hm & Ha & ->). by apply (parse_wire _ _ (mkFrame fin opcode raw)).
Qed.

Lemma ws_parse_exact_witness : _parse_frame [0x82; 3; 1; 2; 3; 0x8A] 10 (Some false) = Ok (Some (true, 2, [1; 2; 3], [0x8A])) ∧
  ∃ mask, false = (match mask with Some _ => true | None => false end) ∧ acceptable 10 (mkFrame true 2 [1; 2; 3]) ∧
    [0x82; 3; 1; 2; 3; 0x8A] = wire mask (mkFrame true 2 [1; 2; 3]) ++ [0x8A].
Proof.
  assert (bytes_ok [0x82; 3; 1; 2; 3; 0x8A]) as Hb by (repeat (constructor; [unfold byte_ok; lia |]); constructor).
  split; [vm_compute; reflexivity |].
  destruct (proj1 (proj1 (ws_parse_exact _ 10 false Hb ltac:(lia)) true 2 [1; 2; 3] [0x8A]) ltac:(vm_compute; reflexivity)) as (mask & ? & ? & ? & ?).
  by exists mask.
Defined.

(** A frame of the client is what RFC 6455 says and has the size that was
    computed for it: the header built by branches and the payload masked by strided
    translation tables are the plain encoding of the frame with every byte masked,
    and a peer reads it back. *)
Theorem ws_client_frame opcode payload draw max_frame_size rest : mask_ok draw → acceptable max_frame_size (mkFrame true opcode payload) →
  _mask_client_frame opcode payload None draw = Ok (wire (Some draw) (mkFrame true opcode payload)) ∧
  _mask_payload payload draw = Ok (xor_mask payload draw) ∧
  len (wire (Some draw) (mkFrame true opcode payload)) = _masked_frame_size (len payload) ∧
  _parse_frame (wire (Some draw) (mkFrame true opcode payload) ++ rest) max_frame_size (Some true) = Ok (Some (true, opcode, payload, rest)).
Proof.
  intros Hm Ha. pose proof (acc_bytes _ _ Ha) as Hb. pose proof (proj2 (acc_size _ _ Ha)) as Hl. pose proof (acc_opcode _ _ Ha) as Ho.
  cbn [f_payload f_opcode] in *. split_and!.
  - apply mask_client_frame_wire; [| done | lia | done].
    apply zin_spec in Ho. repeat (apply elem_of_cons in Ho as [-> | Ho]; [lia |]). by apply not_elem_of_nil in Ho.
  - by apply _mask_payload_spec.
  - by rewrite len_client_wire.
  - apply (parse_wire _ (Some draw) (mkFrame true opcode payload)); [done | by intros ? [= <-]].
Qed.

Lemma ws_client_frame_witness : mask_ok [1; 2; 3; 4] ∧ acceptable 10 (mkFrame true 2 [9; 8; 7; 6; 5]) ∧
  _mask_client_frame 2 [9; 8; 7; 6; 5] None [1; 2; 3; 4] = Ok (wire (Some [1; 2; 3; 4]) (mkFrame true 2 [9; 8; 7; 6; 5])).
Proof.
  assert (mask_ok [1; 2; 3; 4]) as Hm by (split; [done | repeat (constructor; [unfold byte_ok; lia |]); constructor]).
  assert (acceptable 10 (mkFrame true 2 [9; 8; 7; 6; 5])) as Ha.
  { constructor; [done | repeat (constructor; [unfold byte_ok; lia |]); constructor | done | done]. }
  split_and!; [exact Hm | exact Ha |]. apply (ws_client_frame 2 [9; 8; 7; 6; 5] [1; 2; 3; 4] 10 [] Hm Ha).
Defined.
