(* ===== verification/WebSocket.v ===== *)
(** * The WebSocket transport

    [transport/websocket.py]: the class [WebSocketTransport], each coroutine as one
    definition.  The reader task and the writer task of the client use one transport
    at the same time. *)

From S2P Require Import Prelude Async Stream WsFrame.

Definition _MAX_PENDING_CONTROL : Z := 16.
Definition _MAX_COALESCED_PAYLOAD : Z := 256 * 1024.

(** [_entropy]: what [os.urandom(4)] will return, call after call. *)
Record WebSocketTransport := mkWs {
  _writer : Writer; _recv_buf : bytes; _closing : bool; _pending_control : list bytes; _max_frame_size : Z;
  _max_write_batch_bytes : Z; _fragment : option bytes; _entropy : list bytes }.

Implicit Types (t : WebSocketTransport).

Definition set_writer (w : Writer) t :=
  mkWs w (_recv_buf t) (_closing t) (_pending_control t) (_max_frame_size t) (_max_write_batch_bytes t) (_fragment t) (_entropy t).
Definition set_recv_buf (b : bytes) t :=
  mkWs (_writer t) b (_closing t) (_pending_control t) (_max_frame_size t) (_max_write_batch_bytes t) (_fragment t) (_entropy t).
Definition set_closing (b : bool) t :=
  mkWs (_writer t) (_recv_buf t) b (_pending_control t) (_max_frame_size t) (_max_write_batch_bytes t) (_fragment t) (_entropy t).
Definition set_pending (l : list bytes) t :=
  mkWs (_writer t) (_recv_buf t) (_closing t) l (_max_frame_size t) (_max_write_batch_bytes t) (_fragment t) (_entropy t).
Definition set_fragment (f : option bytes) t :=
  mkWs (_writer t) (_recv_buf t) (_closing t) (_pending_control t) (_max_frame_size t) (_max_write_batch_bytes t) f (_entropy t).
Definition set_entropy (l : list bytes) t :=
  mkWs (_writer t) (_recv_buf t) (_closing t) (_pending_control t) (_max_frame_size t) (_max_write_batch_bytes t) (_fragment t) l.

#[export] Instance ws_has_writer : HasWriter WebSocketTransport := {| wr := _writer; set_wr := set_writer |}.
Abbreviation co := (async event answer WebSocketTransport).

Definition WebSocketTransport_init (w : Writer) (max_frame_size max_write_batch_bytes : Z) (entropy : list bytes) : res WebSocketTransport :=
  raise! ValueError when max_frame_size <=? 0;
  raise! ValueError when max_write_batch_bytes <=? 0;
  Ok (mkWs w [] false [] max_frame_size max_write_batch_bytes None entropy).

Definition urandom4 : co bytes :=
  draw ⇐ get (λ t, default [0; 0; 0; 0] (head (_entropy t)));
  put (λ t, set_entropy (tail (_entropy t)) t);;
  mret draw.

(** ** Writing *)

Definition _flush_control : co unit :=
  pending ⇐ get _pending_control;
  match pending with
  | [] => mret tt
  | _ =>
      ensure_writable;;
      put (on_wr (writelines pending));;
      put (set_pending []);;
      _drain_if_needed
  end.

Definition write (data : bytes) : co unit :=
  ensure_writable;;
  _flush_control;;
  draw ⇐ urandom4;
  frame ⇐ of_res (_mask_client_frame 0x2 data None draw);
  put (on_wr (write_bytes frame));;
  _drain_if_needed.

Definition _write_payload_batch (parts : list bytes) (payload_bytes : Z) : co unit :=
  ensure_writable;;
  let payload := match parts with [part] => part | _ => concat parts end in
  mask ⇐ urandom4;
  header ⇐ of_res (_client_frame_header 0x2 payload_bytes mask);
  masked ⇐ of_res (_mask_payload payload mask);
  put (on_wr (writelines [header; masked]));;
  _drain_if_needed.

(** The two tests of the loop, on the limits of the transport. *)
Definition batch_overflows (projected : Z) t : bool :=
  (_masked_frame_size projected >? _max_write_batch_bytes t) || (projected >? _max_frame_size t) ||
  (projected >? _MAX_COALESCED_PAYLOAD).
Definition batch_full (payload_bytes : Z) t : bool :=
  (_masked_frame_size payload_bytes >=? _max_write_batch_bytes t) || (payload_bytes >=? _max_frame_size t) ||
  (payload_bytes >=? _MAX_COALESCED_PAYLOAD).

Definition isnil {A} (l : list A) : bool := match l with [] => true | _ => false end.

Fixpoint write_loop (parts batch : list bytes) (payload_bytes : Z) : co unit :=
  match parts with
  | [] => when_ (negb (isnil batch)) (_write_payload_batch batch payload_bytes)
  | part :: parts =>
      let projected := payload_bytes + len part in
      overflows ⇐ get (batch_overflows projected);
      '(batch, projected) ⇐
        (if negb (isnil batch) && overflows then
           _write_payload_batch batch payload_bytes;; mret ([], len part)
         else mret (batch, projected));
      let batch := batch ++ [part] in
      full ⇐ get (batch_full projected);
      if (full : bool) then _write_payload_batch batch projected;; write_loop parts [] 0
      else write_loop parts batch projected
  end.

Definition write_many (parts : list bytes) : co unit :=
  match parts with
  | [] => mret tt
  | _ =>
      ensure_writable;;
      _flush_control;;
      write_loop parts [] 0
  end.

(** ** Reading *)

(** [_try_extract_application_payload]; a turn that does not return consumes a
    frame, so the length of the buffer bounds them. *)
Fixpoint extract_loop (fuel : nat) : co (option bytes) :=
  match fuel with
  | O => throw RuntimeError
  | S fuel =>
      t ⇐ get id;
      parsed ⇐ of_res (_parse_frame (_recv_buf t) (_max_frame_size t) (Some false));
      match parsed with
      | None => mret None
      | Some (fin, opcode, raw, rest) =>
          put (set_recv_buf rest);;
          if opcode =? 0x8 then put (set_closing true);; mret (Some [])
          else if opcode =? 0x9 then
            if len (_pending_control t) >=? _MAX_PENDING_CONTROL then throw ConnectionError
            else
              draw ⇐ urandom4;
              pong ⇐ of_res (_mask_client_frame 0xA raw None draw);
              put (λ t, set_pending (_pending_control t ++ [pong]) t);;
              mret None
          else if opcode =? 0xA then extract_loop fuel
          else if opcode =? 0x2 then
            match _fragment t with
            | Some _ => throw ConnectionError
            | None =>
                if negb fin then put (set_fragment (Some raw));; extract_loop fuel
                else if isnil raw then extract_loop fuel
                else mret (Some raw)
            end
          else if opcode =? 0x0 then
            match _fragment t with
            | None => throw ConnectionError
            | Some fragment =>
                let fragment := fragment ++ raw in
                put (set_fragment (Some fragment));;
                if len fragment >? _max_frame_size t then throw ConnectionError
                else if (fin : bool) then
                  put (set_fragment None);;
                  if isnil fragment then extract_loop fuel else mret (Some fragment)
                else extract_loop fuel
            end
          else throw AssertionError
      end
  end.
Definition _try_extract_application_payload : co (option bytes) :=
  size ⇐ get (λ t, length (_recv_buf t));
  extract_loop (S size).

Fixpoint read (fuel : nat) (n : Z) : co bytes :=
  match fuel with
  | O => throw RuntimeError
  | S fuel =>
      payload ⇐ _try_extract_application_payload;
      pending ⇐ get _pending_control;
      when_ (negb (isnil pending)) _flush_control;;
      match payload with
      | Some payload => mret payload
      | None =>
          if negb (isnil pending) then read fuel n
          else
            chunk ⇐ await (ReadChunk n);
            match chunk with
            | Chunk (b :: chunk) => put (λ t, set_recv_buf (_recv_buf t ++ b :: chunk) t);; read fuel n
            | _ => put (set_closing true);; mret []
            end
      end
  end.

(** ** The end *)

(** [with suppress(Exception)]. *)
Definition suppress (m : co unit) : co unit :=
  try_ m (λ x, match x with CancelledError => throw x | _ => mret tt end).

Definition close (fuel : nat) : co unit :=
  put (set_closing true);;
  finally_
    (suppress (draw ⇐ urandom4; frame ⇐ of_res (_mask_client_frame 0x8 [] None draw); put (on_wr (write_bytes frame)));;
     close_stream_writer fuel)
    (λ t, set_fragment None (set_pending [] (set_recv_buf [] t))).

Definition is_closing t : bool := _closing t || w_closing (_writer t).
Definition pending_write_bytes t : Z := backlog (_writer t).

Record TransportStats := mkTransportStats { closing : bool; pending : Z; buffered_read_bytes : option Z }.
Definition stats t : TransportStats := mkTransportStats (is_closing t) (pending_write_bytes t) None.
