(* ===== verification/WsReader.v ===== *)
(** * Reading from a WebSocket

    However the peer's bytes are cut, the messages come out whole and in order, and
    every ping is answered. *)

From S2P Require Import Prelude Async Stream WsFrame WsCodec WebSocket.

Implicit Types (t : WebSocketTransport) (f : frame).

(** ** What a sequence of frames says *)

Definition nonempty (b : bytes) : option bytes := if isnil b then None else Some b.

(** A frame is added to the message being received; the message it completes is
    delivered unless it is empty. *)
Definition reassemble (fragment : option bytes) f : option bytes * option bytes :=
  if f_opcode f =? 2 then if f_fin f then (None, nonempty (f_payload f)) else (Some (f_payload f), None)
  else if f_opcode f =? 0 then
    let b := default [] fragment ++ f_payload f in if f_fin f then (None, nonempty b) else (Some b, None)
  else (fragment, None).

Fixpoint messages (fragment : option bytes) (fs : list frame) : list bytes :=
  match fs with
  | [] => []
  | f :: fs => let '(fragment, p) := reassemble fragment f in option_list p ++ messages fragment fs
  end.

(** The peer keeps to the protocol: a message begins when none is open and goes on
    when one is, and its size is within the limit. *)
Fixpoint legal (max_frame_size : Z) (fragment : option bytes) (fs : list frame) : Prop :=
  match fs with
  | [] => True
  | f :: fs =>
      acceptable max_frame_size f ∧ f_opcode f ≠ 8 ∧ (f_opcode f = 2 → fragment = None) ∧
      (f_opcode f = 0 → ∃ b, fragment = Some b ∧ len (b ++ f_payload f) ≤ max_frame_size) ∧
      legal max_frame_size (reassemble fragment f).1 fs
  end.

Definition stream (fs : list frame) : bytes := mbind (wire None) fs.

(** The answers to the pings, with the masks drawn one after the other. *)
Definition draw (entropy : list bytes) : bytes := default [0; 0; 0; 0] (head entropy).
Fixpoint pongs (entropy : list bytes) (fs : list frame) : bytes :=
  match fs with
  | [] => []
  | f :: fs =>
      if f_opcode f =? 9 then wire (Some (draw entropy)) (mkFrame true 10 (f_payload f)) ++ pongs (tail entropy) fs
      else pongs entropy fs
  end.

(** ** The reader's position in a stream *)

(** [more] is still to be received, [fs] still to be read; then comes [rest], the
    beginning of a frame. *)
Record at_frames t (more : bytes) (fs : list frame) (rest : bytes) : Prop := {
  at_bytes : _recv_buf t ++ more = stream fs ++ rest;
  at_legal : legal (_max_frame_size t) (_fragment t) fs;
  at_ok : bytes_ok (stream fs ++ rest);
  at_rest : _parse_frame rest (_max_frame_size t) (Some false) = Ok None;
  at_open : w_closing (_writer t) = false ∧ w_lost (_writer t) = false;
  at_entropy : Forall mask_ok (_entropy t) }.

(** What is delivered and what is answered in the end, from here. *)
Definition to_deliver t fs : list bytes := messages (_fragment t) fs.
Definition to_answer t fs : bytes := written (_writer t) ++ concat (_pending_control t) ++ pongs (_entropy t) fs.

Lemma draw_ok entropy : Forall mask_ok entropy → mask_ok (draw entropy).
Proof. destruct 1; [| done]. split; [done |]. repeat constructor; unfold byte_ok; lia. Qed.

Lemma stream_cons f fs : stream (f :: fs) = wire None f ++ stream fs.
Proof. done. Qed.

(** The next frame, as the parser sees it. *)
Lemma next_frame t more fs rest : at_frames t more fs rest →
  match _parse_frame (_recv_buf t) (_max_frame_size t) (Some false) with
  | Ok None => True
  | Ok (Some (fin, opcode, raw, lo)) =>
      ∃ f fs', fs = f :: fs' ∧ f = mkFrame fin opcode raw ∧ lo ++ more = stream fs' ++ rest ∧ (length lo < length (_recv_buf t))%nat
  | Raise _ => False
  end.
Proof.
  intros [Hb Hl Hok Hr _ _]. assert (bytes_ok (_recv_buf t)) as Hbuf by (rewrite <- Hb in Hok; by apply Forall_app in Hok as [? _]).
  assert (∀ f fs', fs = f :: fs' → _parse_frame (_recv_buf t ++ more) (_max_frame_size t) (Some false) =
    Ok (Some (f_fin f, f_opcode f, f_payload f, stream fs' ++ rest))) as Hw.
  { intros f fs' ->. rewrite Hb, stream_cons, <- app_assoc. apply (parse_wire _ None); [apply Hl | done]. }
  destruct (_parse_frame (_recv_buf t) _ _) as [[[[[fin opcode] raw] lo] |] | x] eqn:E; [| done |].
  - pose proof (parse_more _ more _ _ _ _ _ _ Hbuf E) as E'. destruct fs as [| f fs'].
    + rewrite Hb in E'. cbn [stream mbind list_bind app] in E'. congruence.
    + rewrite (Hw _ _ eq_refl) in E'. injection E' as E1 E2 E3 E4. exists f, fs'. split_and!; [done | by destruct f; simpl in *; subst | done |].
      apply parse_inv in E as (mask & _ & _ & _ & ->); [| done]. rewrite length_app. unfold wire. simpl. lia.
  - pose proof (parse_raise_more _ more _ _ _ E) as E'. destruct fs as [| f fs'].
    + rewrite Hb in E'. cbn [stream mbind list_bind app] in E'. congruence.
    + rewrite (Hw _ _ eq_refl) in E'. congruence.
Qed.

(** One extraction: it takes frames until one matters. *)
Definition extracted t t' fs fs' (r : option bytes) : Prop :=
  to_deliver t fs = option_list r ++ to_deliver t' fs' ∧ to_answer t fs = to_answer t' fs' ∧
  (r = None → _pending_control t' = [] → _parse_frame (_recv_buf t') (_max_frame_size t') (Some false) = Ok None) ∧
  (_pending_control t' ≠ [] → length fs' < length fs)%nat ∧ (length fs' ≤ length fs)%nat.

Lemma runs_urandom4 t chunks : runs urandom4 t chunks = (set_entropy (tail (_entropy t)) t, Finished (Ok (draw (_entropy t))), chunks).
Proof. unfold urandom4. by play. Qed.

Lemma extract_S fuel t chunks : runs (extract_loop (S fuel)) t chunks =
  match _parse_frame (_recv_buf t) (_max_frame_size t) (Some false) with
  | Raise x => (t, Finished (Raise x), chunks)
  | Ok None => (t, Finished (Ok None), chunks)
  | Ok (Some (fin, opcode, raw, rest)) =>
      runs (if opcode =? 0x8 then put (set_closing true);; mret (Some [])
          else if opcode =? 0x9 then
            if len (_pending_control t) >=? _MAX_PENDING_CONTROL then throw ConnectionError
            else
              draw ⇐ urandom4;
              pong ⇐ of_res (_mask_client_frame 0xA raw None draw);
              put (λ t, set_pending (_pending_control t ++ [pong]) t);;
              mret None
          else if opcode =? 0xA then extract_loop fuel
          else if opcode =? 0x2 then
            match _fragment t with
            | Some _ => throw ConnectionError
            | None =>
                if negb fin then put (set_fragment (Some raw));; extract_loop fuel
                else if isnil raw then extract_loop fuel
                else mret (Some raw)
            end
          else if opcode =? 0x0 then
            match _fragment t with
            | None => throw ConnectionError
            | Some fragment =>
                let fragment := fragment ++ raw in
                put (set_fragment (Some fragment));;
                if len fragment >? _max_frame_size t then throw ConnectionError
                else if (fin : bool) then
                  put (set_fragment None);;
                  if isnil fragment then extract_loop fuel else mret (Some fragment)
                else extract_loop fuel
            end
          else throw AssertionError) (set_recv_buf rest t) chunks
  end.
Proof.
  cbn [extract_loop]. rewrite runs_abind, runs_get. cbn [then_ id]. rewrite runs_abind, runs_of_res.
  destruct (_parse_frame _ _ _) as [[[[[fin opcode] raw] rest] |] | x]; cbn [then_]; [| done | done].
  by rewrite runs_bind, runs_put.
Qed.

(** After a frame has been taken, whatever became of it. *)
Lemma at_frames_next t more f fs rest lo fragment pending entropy :
  at_frames t more (f :: fs) rest → lo ++ more = stream fs ++ rest → fragment = (reassemble (_fragment t) f).1 → Forall mask_ok entropy →
  at_frames (set_fragment fragment (set_pending pending (set_entropy entropy (set_recv_buf lo t)))) more fs rest.
Proof.
  intros [Hb Hl Hok Hr Ho He] Hleft -> Hent. destruct Hl as (_ & _ & _ & _ & Hl). constructor; try done.
  rewrite stream_cons, <- app_assoc in Hok. by apply Forall_app in Hok as [_ ?].
Qed.

Lemma extract_runs fuel t more fs rest chunks :
  at_frames t more fs rest → _pending_control t = [] → (length (_recv_buf t) < fuel)%nat →
  ∃ t' fs' r, runs (extract_loop fuel) t chunks = (t', Finished (Ok r), chunks) ∧ at_frames t' more fs' rest ∧ extracted t t' fs fs' r.
Proof.
  revert t fs. induction fuel as [| fuel IH]; intros t fs Hat Hp Hfuel; [lia |]. rewrite extract_S.
  pose proof (next_frame _ _ _ _ Hat) as Hn.
  destruct (_parse_frame _ _ _) as [[[[[fin opcode] raw] lo] |] | x] eqn:E; [| | done].
  2:{ exists t, fs, None. split_and!; [done | done |]. unfold extracted. rewrite E. split_and!; [done | done | done | by rewrite Hp | done]. }
  destruct Hn as (f & fs' & -> & Hf & Hleft & Hlen).
  pose proof (at_legal _ _ _ _ Hat) as (Hacc & H8 & H2 & H0 & _). rewrite Hf in Hacc, H8, H2, H0. cbn [f_opcode f_payload f_fin] in *.
  assert (∀ fragment, fragment = (reassemble (_fragment t) f).1 → (reassemble (_fragment t) f).2 = None → opcode ≠ 9 →
    ∃ t' fs'0 r, runs (extract_loop fuel) (set_fragment fragment (set_recv_buf lo t)) chunks = (t', Finished (Ok r), chunks) ∧
      at_frames t' more fs'0 rest ∧ extracted t t' (f :: fs') fs'0 r) as Hgo.
  { intros fragment Hfr Hnone H9. destruct (IH (set_fragment fragment (set_recv_buf lo t)) fs') as (t' & fs2 & r & Hruns & Hat' & Hx).
    - replace (set_recv_buf lo t) with (set_pending (_pending_control t) (set_entropy (_entropy t) (set_recv_buf lo t))) by done.
      by apply (at_frames_next _ _ _ _ _ _ _ _ _ Hat); [| | apply Hat].
    - done.
    - simpl. lia.
    - exists t', fs2, r. split_and!; [done | done |]. destruct Hx as (Hd & Ha & Hr & Hlt & Hle). split_and!.
      + unfold to_deliver in *. cbn [messages]. destruct (reassemble (_fragment t) f) as [fr p]. simpl in Hfr, Hnone. subst. done.
      + unfold to_answer in *. cbn [pongs]. rewrite Hf at 1. cbn [f_opcode]. rewrite (proj2 (Z.eqb_neq opcode 9)) by done. done.
      + done.
      + intros Hne. specialize (Hlt Hne). simpl. lia.
      + simpl. lia. }
  assert (∀ p, (reassemble (_fragment t) f) = (None, Some p) → opcode ≠ 9 →
    at_frames (set_fragment None (set_recv_buf lo t)) more fs' rest ∧ extracted t (set_fragment None (set_recv_buf lo t)) (f :: fs') fs' (Some p)) as Hdone.
  { intros p Hab H9. split.
    - replace (set_recv_buf lo t) with (set_pending (_pending_control t) (set_entropy (_entropy t) (set_recv_buf lo t))) by done.
      apply (at_frames_next _ _ _ _ _ _ _ _ _ Hat); [done | by rewrite Hab | apply Hat].
    - split_and!; [| | done | intros Hne; by destruct Hne | simpl; lia].
      + unfold to_deliver. cbn [messages]. by rewrite Hab.
      + unfold to_answer. cbn [pongs]. rewrite Hf. cbn [f_opcode]. rewrite (proj2 (Z.eqb_neq opcode 9)) by done. done. }
  assert (set_recv_buf lo t = set_fragment (_fragment t) (set_recv_buf lo t)) as Hsame by done.
  rewrite (proj2 (Z.eqb_neq opcode 8)) by done. destruct (opcode =? 9) eqn:E9.
  { apply Z.eqb_eq in E9 as ->. rewrite Hp. change (len (@nil bytes) >=? _MAX_PENDING_CONTROL) with false. cbv iota.
    rewrite runs_abind, runs_urandom4. cbn [then_]. rewrite runs_abind, runs_of_res.
    change (_entropy (set_recv_buf lo t)) with (_entropy t). pose proof (at_entropy _ _ _ _ Hat) as He.
    destruct (acc_control _ _ Hacc eq_refl) as (H125 & _ & _). unfold _MAX_CONTROL_PAYLOAD in H125. cbn [f_payload] in H125.
    rewrite mask_client_frame_wire; [| lia | apply (acc_bytes _ _ Hacc) | cbn [f_payload]; lia | by apply draw_ok].
    cbn [then_]. rewrite runs_bind, runs_put. cbn [then_]. rewrite runs_ret.
    set (pong := wire (Some (draw (_entropy t))) (mkFrame true 10 raw)).
    exists (set_fragment (_fragment t) (set_pending (_pending_control t ++ [pong]) (set_entropy (tail (_entropy t)) (set_recv_buf lo t)))), fs', None.
    split_and!; [done | |].
    - apply (at_frames_next _ _ _ _ _ _ _ _ _ Hat); [done | by rewrite Hf | by apply Forall_tail].
    - split_and!; [| | | simpl; lia | simpl; lia].
      + unfold to_deliver. cbn [messages]. by rewrite Hf.
      + unfold to_answer. cbn [pongs]. rewrite Hf, Hp. cbn. by rewrite app_nil_r.
      + intros _ Hne. exfalso. revert Hne. simpl. by rewrite Hp. }
  apply Z.eqb_neq in E9. unfold reassemble in Hgo, Hdone. subst f. cbn [f_opcode f_fin f_payload] in Hgo, Hdone.
  destruct (opcode =? 10) eqn:E10.
  { apply Z.eqb_eq in E10 as ->. rewrite Hsame. by apply Hgo. }
  destruct (opcode =? 2) eqn:E2.
  { apply Z.eqb_eq in E2 as ->. rewrite (H2 eq_refl) in *. destruct fin; cbn [negb].
    - unfold nonempty in *. destruct (isnil raw) eqn:Er; [rewrite Hsame; by apply Hgo |].
      exists (set_recv_buf lo t), fs', (Some raw). rewrite Hsame. split; [done | by apply Hdone].
    - rewrite runs_bind, runs_put. by apply Hgo. }
  destruct (opcode =? 0) eqn:E0.
  { apply Z.eqb_eq in E0 as ->. destruct (H0 eq_refl) as (b & Hb & Hmax). rewrite Hb in *. cbn [default].
    rewrite runs_bind, runs_put. cbn [then_]. rewrite Z.gtb_ltb, (proj2 (Z.ltb_ge _ _)) by done. destruct fin; [| by apply Hgo].
    rewrite runs_bind, runs_put. cbn [then_]. cbn [default from_option id] in Hgo, Hdone. unfold nonempty in *.
    destruct (isnil (b ++ raw)) eqn:Er; [by apply Hgo |].
    eexists _, fs', (Some (b ++ raw)). split; [done | by apply (Hdone (b ++ raw))]. }
  apply (acc_opcode _ _) in Hacc. cbn [f_opcode] in Hacc. apply zin_spec in Hacc. apply Z.eqb_neq in E10, E2, E0.
  repeat (apply elem_of_cons in Hacc as [-> | Hacc]; [done |]). by apply not_elem_of_nil in Hacc.
Qed.

(** ** Flushing *)

Lemma write_bytes_open data w : w_lost w = false →
  written (write_bytes data w) = written w ++ data ∧ w_closing (write_bytes data w) = w_closing w ∧ w_lost (write_bytes data w) = false.
Proof. intros Hl. unfold write_bytes. rewrite Hl. by destruct (0 <? backlog w). Qed.

Lemma flush_runs t more fs rest chunks : at_frames t more fs rest →
  ∃ t', runs (when_ (negb (isnil (_pending_control t))) _flush_control) t chunks = (t', Finished (Ok tt), chunks) ∧
    at_frames t' more fs rest ∧ _pending_control t' = [] ∧ to_answer t' fs = to_answer t fs ∧ to_deliver t' fs = to_deliver t fs ∧
    _recv_buf t' = _recv_buf t ∧ (_pending_control t = [] → t' = t).
Proof.
  intros [Hb Hl Hok Hr [Hc Ho] He]. destruct (isnil (_pending_control t)) eqn:Ep; cbn [negb when_].
  { exists t. destruct (_pending_control t) eqn:E; [| done]. split_and!; done. }
  assert (_pending_control t ≠ []) as Hp by (by destruct (_pending_control t)).
  exists (set_pending [] (set_writer (writelines (_pending_control t) (_writer t)) t)).
  destruct (write_bytes_open (concat (_pending_control t)) _ Ho) as (Hw & Hc' & Ho').
  split_and!; [| constructor; simpl; unfold writelines; rewrite ?Hc', ?Ho'; done | done | | done | done | by intros ?].
  - unfold _flush_control. rewrite runs_abind, runs_get. cbn [then_].
    destruct (_pending_control t) as [| q l] eqn:E; [done |]. rewrite <- E.
    rewrite runs_bind. unfold ensure_writable. rewrite runs_abind, runs_get. cbn [then_ wr ws_has_writer]. rewrite Hc.
    rewrite runs_ret. cbn [then_]. rewrite runs_bind, runs_put. cbn [then_]. rewrite runs_bind, runs_put. cbn [then_].
    apply runs_drain_if_needed.
  - unfold to_answer. simpl. unfold writelines. by rewrite Hw, <- app_assoc.
Qed.

(** ** One read *)

Lemma read_S fuel n t chunks : runs (read (S fuel) n) t chunks =
  then_ (runs _try_extract_application_payload t chunks) (λ payload,
    pending ⇐ get _pending_control;
    when_ (negb (isnil pending)) _flush_control;;
    match payload with
    | Some payload => mret payload
    | None =>
        if negb (isnil pending) then read fuel n
        else
          chunk ⇐ await (ReadChunk n);
          match chunk with
          | Chunk (b :: chunk) => put (λ t, set_recv_buf (_recv_buf t ++ b :: chunk) t);; read fuel n
          | _ => put (set_closing true);; mret []
          end
    end).
Proof. cbn [read]. apply runs_abind. Qed.

Lemma try_extract_runs t more fs rest chunks : at_frames t more fs rest → _pending_control t = [] →
  ∃ t' fs' r, runs _try_extract_application_payload t chunks = (t', Finished (Ok r), chunks) ∧ at_frames t' more fs' rest ∧ extracted t t' fs fs' r.
Proof.
  intros Hat Hp. unfold _try_extract_application_payload. rewrite runs_abind, runs_get. cbn [then_]. apply extract_runs; [done.. | lia].
Qed.

(** Nothing left to parse, nothing left to receive: the stream is at its end. *)
Lemma at_end t fs rest : at_frames t [] fs rest → _parse_frame (_recv_buf t) (_max_frame_size t) (Some false) = Ok None →
  fs = [] ∧ _recv_buf t = rest.
Proof.
  intros [Hb Hl _ _ _ _] Hn. rewrite app_nil_r in Hb. destruct fs as [| f fs]; [done |]. exfalso.
  rewrite Hb, stream_cons, <- app_assoc in Hn. rewrite (parse_wire _ None) in Hn; [done | apply Hl | done].
Qed.

Definition read_outcome fuel n t chunks fs rest t' chunks' fs' : Prop :=
  (∃ p, runs (read fuel n) t chunks = (t', Finished (Ok p), chunks') ∧ to_deliver t fs = p :: to_deliver t' fs') ∨
  (runs (read fuel n) t chunks = (t', Waiting (ReadChunk n), []) ∧ chunks' = [] ∧ fs' = [] ∧ to_deliver t fs = [] ∧ _recv_buf t' = rest).

Lemma read_runs fuel n t chunks fs rest :
  at_frames t (concat chunks) fs rest → _pending_control t = [] → Forall (λ c, c ≠ []) chunks → (length chunks + length fs < fuel)%nat →
  ∃ t' chunks' fs', at_frames t' (concat chunks') fs' rest ∧ _pending_control t' = [] ∧ Forall (λ c, c ≠ []) chunks' ∧
    to_answer t' fs' = to_answer t fs ∧ (length chunks' + length fs' ≤ length chunks + length fs)%nat ∧
    read_outcome fuel n t chunks fs rest t' chunks' fs'.
Proof.
  revert t chunks fs. induction fuel as [| fuel IH]; intros t chunks fs Hat Hp Hc Hfuel; [lia |].
  destruct (try_extract_runs _ _ _ _ chunks Hat Hp) as (t1 & fs1 & r & Hx & Hat1 & (Hd & Ha & Hnone & Hlt & Hle)).
  destruct (flush_runs _ _ _ _ chunks Hat1) as (t2 & Hfl & Hat2 & Hp2 & Ha2 & Hd2 & Hb2 & Hsame).
  unfold read_outcome. rewrite read_S, Hx. cbn [then_]. rewrite runs_abind, runs_get. cbn [then_]. rewrite runs_bind, Hfl. cbn [then_].
  destruct r as [p |].
  { exists t2, chunks, fs1. split_and!; [done | done | done | congruence | lia |]. left. exists p. split; [done |]. by rewrite Hd, Hd2. }
  destruct (isnil (_pending_control t1)) eqn:Ep; cbn [negb].
  - assert (_pending_control t1 = []) as Hp1 by (by destruct (_pending_control t1)). rewrite (Hsame Hp1) in *. specialize (Hnone eq_refl Hp1).
    rewrite runs_abind. destruct chunks as [| chunk chunks].
    { destruct (at_end _ _ _ Hat1 Hnone) as [-> Hrest]. exists t1, [], []. split_and!; [done | done | done | congruence | simpl; lia |]. right.
      split_and!; [done | done | done | done | done]. }
    apply Forall_cons in Hc as [Hne Hc]. destruct chunk as [| b chunk]; [done |].
    destruct (IH (set_recv_buf (_recv_buf t1 ++ b :: chunk) t1) chunks fs1) as (t' & chunks' & fs' & Hat' & Hp' & Hc' & Ha' & Hle' & Hout).
    + destruct Hat1 as [B1 B2 B3 B4 B5 B6]. constructor; try done. rewrite <- B1. simpl. by rewrite <- app_assoc.
    + done.
    + done.
    + simpl in Hfuel. lia.
    + exists t', chunks', fs'. split_and!; [done | done | done | by rewrite Ha', Ha | simpl; lia |].
      replace (to_deliver t fs) with (to_deliver (set_recv_buf (_recv_buf t1 ++ b :: chunk) t1) fs1) by done. exact Hout.
  - assert (_pending_control t1 ≠ []) as Hp1 by (by destruct (_pending_control t1)). specialize (Hlt Hp1).
    destruct (IH t2 chunks fs1) as (t' & chunks' & fs' & Hat' & Hp' & Hc' & Ha' & Hle' & Hout); [done | done | done | lia |].
    exists t', chunks', fs'. split_and!; [done | done | done | congruence | lia |].
    replace (to_deliver t fs) with (to_deliver t2 fs1) by (rewrite Hd2; by symmetry). exact Hout.
Qed.

(** The reader task: one read after the other. *)
Fixpoint reads (k fuel : nat) (n : Z) : co (list bytes) :=
  match k with
  | O => mret []
  | S k => payload ⇐ read fuel n; payloads ⇐ reads k fuel n; mret (payload :: payloads)
  end.

Lemma reads_runs k fuel n t chunks fs rest :
  at_frames t (concat chunks) fs rest → _pending_control t = [] → Forall (λ c, c ≠ []) chunks → (length chunks + length fs < fuel)%nat →
  k = length (to_deliver t fs) →
  ∃ t' chunks' fs', runs (reads k fuel n) t chunks = (t', Finished (Ok (to_deliver t fs)), chunks') ∧ at_frames t' (concat chunks') fs' rest ∧
    _pending_control t' = [] ∧ Forall (λ c, c ≠ []) chunks' ∧ to_answer t' fs' = to_answer t fs ∧ (length chunks' + length fs' < fuel)%nat ∧
    to_deliver t' fs' = [].
Proof.
  revert t chunks fs. induction k as [| k IH]; intros t chunks fs Hat Hp Hc Hfuel Hk.
  { exists t, chunks, fs. destruct (to_deliver t fs) eqn:E; [| done]. split_and!; done. }
  destruct (read_runs fuel n t chunks fs rest Hat Hp Hc Hfuel) as (t1 & chunks1 & fs1 & Hat1 & Hp1 & Hc1 & Ha1 & Hle & Hout).
  destruct Hout as [(p & Hr & Hd) | (_ & _ & _ & Hd & _)]; [| by rewrite Hd in Hk].
  destruct (IH t1 chunks1 fs1) as (t' & chunks' & fs' & Hrs & Hat' & Hp' & Hc' & Ha' & Hf' & Hd'); [done | done | done | lia | rewrite Hd in Hk; by injection Hk |].
  exists t', chunks', fs'. split_and!; [| done | done | done | congruence | done | done].
  cbn [reads]. rewrite runs_abind, Hr. cbn [then_]. rewrite runs_abind, Hrs. cbn [then_]. by rewrite runs_ret, Hd.
Qed.

(** C31: a WebSocket delivers what was sent.  The peer sends frames, [fs], encoded as
    RFC 6455 says and in an order it allows (messages whole or in fragments, control
    frames anywhere), and the beginning of another; TCP cuts the bytes anywhere.
    The reads return the messages, whole and in order, and then wait; every ping has
    been answered by a masked pong with its payload, in order; and the unfinished
    frame is kept. *)
Theorem ws_delivers t fs rest chunks fuel n :
  _recv_buf t = [] → _pending_control t = [] → _fragment t = None → w_closing (_writer t) = false → w_lost (_writer t) = false →
  Forall mask_ok (_entropy t) → legal (_max_frame_size t) None fs → bytes_ok (stream fs ++ rest) →
  _parse_frame rest (_max_frame_size t) (Some false) = Ok None →
  Forall (λ c, c ≠ []) chunks → concat chunks = stream fs ++ rest → (length chunks + length fs < fuel)%nat →
  ∃ t' chunks' t'', runs (reads (length (messages None fs)) fuel n) t chunks = (t', Finished (Ok (messages None fs)), chunks') ∧
    runs (read fuel n) t' chunks' = (t'', Waiting (ReadChunk n), []) ∧
    written (_writer t'') = written (_writer t) ++ pongs (_entropy t) fs ∧ _recv_buf t'' = rest.
Proof.
  intros Hb Hp Hf Hc Hl He Hlegal Hok Hr Hne Hcat Hfuel.
  assert (at_frames t (concat chunks) fs rest) as Hat by (constructor; rewrite ?Hb, ?Hf; done).
  destruct (reads_runs (length (messages None fs)) fuel n t chunks fs rest Hat Hp Hne Hfuel) as
    (t' & chunks' & fs' & Hrs & Hat' & Hp' & Hc' & Ha' & Hf' & Hd'); [unfold to_deliver; by rewrite Hf |].
  destruct (read_runs fuel n t' chunks' fs' rest Hat' Hp' Hc' Hf') as (t'' & chunks'' & fs'' & Hat'' & Hp'' & _ & Ha'' & _ & Hout).
  destruct Hout as [(p & _ & Hd) | (Hw & -> & -> & _ & Hrest)]; [by rewrite Hd in Hd' |].
  exists t', chunks', t''. split_and!; [| done | | done].
  - unfold to_deliver in Hrs. by rewrite Hf in Hrs.
  - rewrite Ha' in Ha''. unfold to_answer in Ha''. rewrite Hp, Hp'' in Ha''. cbn [concat pongs app] in Ha''. by rewrite app_nil_r in Ha''.
Qed.

(** A message in two fragments with a ping between them, another message, and half a
    frame, byte by byte. *)
Definition demo_transport : WebSocketTransport := mkWs (new_writer []) [] false [] 100 1000 None [[1; 2; 3; 4]].
Definition demo_stream : list frame := [mkFrame false 2 [1]; mkFrame true 9 [7]; mkFrame true 0 [2; 3]; mkFrame true 2 [4]].
Definition demo_chunks : list bytes := (λ b, [b]) <$> (stream demo_stream ++ [0x82]).

Lemma ws_delivers_witness : messages None demo_stream = [[1; 2; 3]; [4]] ∧
  ∃ t', (runs (reads 2 30 1) demo_transport demo_chunks).1.1 = t' ∧ (runs (reads 2 30 1) demo_transport demo_chunks).1.2 = Finished (Ok [[1; 2; 3]; [4]]) ∧
    written (_writer demo_transport) ++ pongs (_entropy demo_transport) demo_stream = wire (Some [1; 2; 3; 4]) (mkFrame true 10 [7]).
Proof.
  assert (Forall mask_ok (_entropy demo_transport)) as He.
  { constructor; [split; [done | repeat (constructor; [unfold byte_ok; lia |]); constructor] | constructor]. }
  assert (∀ f, f ∈ demo_stream → acceptable 100 f) as Hacc.
  { intros f Hf. repeat (apply elem_of_cons in Hf as [-> | Hf];
      [constructor; [done | repeat (constructor; [unfold byte_ok; lia |]); constructor | done | try done] |]). by apply not_elem_of_nil in Hf. }
  assert (legal 100 None demo_stream) as Hl.
  { repeat (split; [apply Hacc; set_solver |]; split; [done |]; split; [done |]; split; [try done |]); [| done].
    intros _. exists [1]. done. }
  assert (bytes_ok (stream demo_stream ++ [0x82])) as Hb by (vm_compute; repeat (constructor; [split; [done | reflexivity] |]); constructor).
  destruct (ws_delivers demo_transport demo_stream [0x82] demo_chunks 30 1) as (t' & chunks' & t'' & Hr & _ & Hw & _);
    [done | done | done | done | done | exact He | exact Hl | exact Hb | reflexivity | | reflexivity | vm_compute; lia |].
  { vm_compute. repeat (constructor; [done |]). constructor. }
  split; [reflexivity |]. exists t'. change (length (messages None demo_stream)) with 2%nat in Hr. rewrite Hr. split_and!; reflexivity.
Defined.
