(* ===== verification/WsWire.v ===== *)
(** * What a WebSocket sends

    The reader answers pings while the writer writes; between two awaits of one the
    other runs.  Whatever the interleaving, whole frames leave, and the binary ones
    carry the written bytes in order. *)

From S2P Require Import Prelude Async Stream WsFrame WsCodec WebSocket.

Implicit Types (t : WebSocketTransport) (f : frame) (d : bytes).

Section wire.
(** What the handshake left on the stream, and everything written after it. *)
Context (pre : bytes) (all : list bytes).

(** ** The wire as frames *)

(** A frame of ours: a pong, a close, or binary data that is one item by itself or
    respects every bound of the transport. *)
Definition our_frame (max_frame_size max_write_batch_bytes : Z) f : Prop :=
  f_fin f = true ∧ bytes_ok (f_payload f) ∧
  (f_opcode f = 0x2 ∧ (f_payload f ∈ all ∨ len (f_payload f) ≤ max_frame_size ∧
     _masked_frame_size (len (f_payload f)) ≤ max_write_batch_bytes ∧ len (f_payload f) ≤ _MAX_COALESCED_PAYLOAD) ∨
   f_opcode f = 0xA ∧ len (f_payload f) ≤ _MAX_CONTROL_PAYLOAD ∨
   f_opcode f = 0x8 ∧ f_payload f = []).

Abbreviation masked := (bytes * frame)%type.
Definition frames_bytes (sends : list masked) : bytes := concat ((λ s, wire (Some s.1) s.2) <$> sends).
Definition data (sends : list masked) : bytes := concat ((λ s, if f_opcode s.2 =? 0x2 then f_payload s.2 else []) <$> sends).

Definition ours t (s : masked) : Prop := mask_ok s.1 ∧ our_frame (_max_frame_size t) (_max_write_batch_bytes t) s.2.

(** The stream so far is frames of ours; the data they carry is [d], or, once the
    connection is lost, a beginning of it. *)
Definition sent t d : Prop := ∃ sends, written (_writer t) = pre ++ frames_bytes sends ∧ Forall (ours t) sends ∧
  data sends `prefix_of` d ∧ (w_lost (_writer t) = false → data sends = d).

(** A control frame waiting to be sent. *)
Definition is_pong (b : bytes) : Prop := ∃ m p, mask_ok m ∧ bytes_ok p ∧ len p ≤ _MAX_CONTROL_PAYLOAD ∧ b = wire (Some m) (mkFrame true 0xA p).

Record inv t : Prop := {
  inv_recv : bytes_ok (_recv_buf t);
  inv_pending : Forall is_pong (_pending_control t);
  inv_entropy : Forall mask_ok (_entropy t) }.

Definition limits t : Z * Z := (_max_frame_size t, _max_write_batch_bytes t).

(** What everyone but the writer does, what the writer does towards [total], and
    what the others may expect of both. *)
Definition keeps t t' : Prop := limits t' = limits t ∧ (inv t → inv t' ∧ ∀ d, sent t d → sent t' d).
Definition grows (total : bytes) t t' : Prop := limits t' = limits t ∧ (inv t → inv t' ∧
  ((∃ d, d `prefix_of` total ∧ sent t d) → ∃ d, d `prefix_of` total ∧ sent t' d)).
Definition roams t t' : Prop := limits t' = limits t ∧ (inv t → inv t').

#[export] Instance keeps_preorder : PreOrder keeps.
Proof.
  split; [by intros t; split | intros t1 t2 t3 [L1 H1] [L2 H2]; split; [congruence |]]. intros Hi. destruct (H1 Hi) as [Hi2 S1].
  destruct (H2 Hi2) as [Hi3 S2]. auto.
Qed.
#[export] Instance grows_preorder total : PreOrder (grows total).
Proof.
  split; [by intros t; split | intros t1 t2 t3 [L1 H1] [L2 H2]; split; [congruence |]]. intros Hi. destruct (H1 Hi) as [Hi2 S1].
  destruct (H2 Hi2) as [Hi3 S2]. auto.
Qed.
#[export] Instance roams_preorder : PreOrder roams.
Proof. split; [by intros t; split | intros t1 t2 t3 [L1 H1] [L2 H2]; split; [congruence |]; auto]. Qed.

Lemma keeps_grows total t t' : keeps t t' → grows total t t'.
Proof. intros [L H]. split; [done |]. intros Hi. destruct (H Hi) as [Hi' Hs]. split; [done |]. intros (d & Hd & Hsd). eauto. Qed.
Lemma keeps_roams t t' : keeps t t' → roams t t'.
Proof. intros [L H]. split; [done |]. intros Hi. by destruct (H Hi). Qed.
Lemma grows_roams total t t' : grows total t t' → roams t t'.
Proof. intros [L H]. split; [done |]. intros Hi. by destruct (H Hi). Qed.

(** ** Appending a frame *)

Lemma frames_bytes_app l k : frames_bytes (l ++ k) = frames_bytes l ++ frames_bytes k.
Proof. unfold frames_bytes. by rewrite fmap_app, concat_app. Qed.
Lemma data_app l k : data (l ++ k) = data l ++ data k.
Proof. unfold data. by rewrite fmap_app, concat_app. Qed.

Lemma ours_limits t t' s : limits t' = limits t → ours t s → ours t' s.
Proof. intros [= E1 E2] [Hm Hf]. split; [done |]. by rewrite E1, E2. Qed.

Lemma write_bytes_cases b w :
  (w_lost w = true ∧ write_bytes b w = w) ∨
  (w_lost w = false ∧ written (write_bytes b w) = written w ++ b ∧ w_lost (write_bytes b w) = false).
Proof. unfold write_bytes. destruct (w_lost w); [by left | right]. by destruct (0 <? backlog w). Qed.

(** The transport is given frames of ours, and nothing else changes on the wire. *)
Lemma sent_write t t' d sends : limits t' = limits t → _writer t' = write_bytes (frames_bytes sends) (_writer t) → Forall (ours t) sends →
  sent t d → sent t' (d ++ data sends).
Proof.
  intros HL Hw Hs (l & Hl & Hok & Hp & He). destruct (write_bytes_cases (frames_bytes sends) (_writer t)) as [[Hlost E] | (Hlost & E & Hlost')].
  - exists l. rewrite Hw, E. split_and!; [done | | by apply prefix_app_r | congruence].
    eapply Forall_impl; [exact Hok |]. intros x. by apply ours_limits.
  - exists (l ++ sends). rewrite Hw, E, frames_bytes_app, data_app, Hl, app_assoc. rewrite (He Hlost) in *. split_and!; [done | | done | done].
    apply Forall_app. split; (eapply Forall_impl; [done |]); intros x; by apply ours_limits.
Qed.
Lemma sent_same t t' d : limits t' = limits t → written (_writer t') = written (_writer t) →
  (w_lost (_writer t') = false → w_lost (_writer t) = false) → sent t d → sent t' d.
Proof.
  intros HL Hw Hlost (l & Hl & Hok & Hp & He). exists l. rewrite Hw. split_and!; [done | | done | auto].
  eapply Forall_impl; [exact Hok |]. intros x. by apply ours_limits.
Qed.

(** Pings that wait are answered with frames of ours that carry no data. *)
Lemma pongs_frames t l : Forall is_pong l → ∃ sends, concat l = frames_bytes sends ∧ Forall (ours t) sends ∧ data sends = [].
Proof.
  induction 1 as [| b l (m & p & Hm & Hp & Hl & ->) _ (sends & E & Ho & Hd)]; [by exists [] |].
  exists ((m, mkFrame true 10 p) :: sends). split_and!; [unfold frames_bytes in *; simpl; by rewrite E | | done].
  constructor; [| done]. split; [done |]. split_and!; [done | done | right; left; done].
Qed.

(** What may be answered: the peer's bytes are bytes. *)
Definition answers (e : event) (a : res answer) : Prop :=
  match e, a with ReadChunk _, Ok (Chunk b) => bytes_ok b | _, _ => True end.

(** ** Coroutines that send no data

    [P] is what the coroutine knows of the wire, which nobody takes away. *)
Section quiet.
Context (R G : WebSocketTransport → WebSocketTransport → Prop) (P : WebSocketTransport → Prop) `{!PreOrder G}.
Context (HR : ∀ t t', R t t' → roams t t') (HRP : ∀ t t', R t t' → inv t → P t → P t').
Context (HG : ∀ t t', keeps t t' → G t t') (HP : ∀ t t', keeps t t' → inv t → P t → P t').

Abbreviation safe m Q := (∀ t, inv t → P t → rg answers R G m (λ r t', limits t' = limits t ∧ inv t' ∧ P t' ∧ Q r t') t).

Lemma rg_keep (h : WebSocketTransport → WebSocketTransport) (Q : res unit → WebSocketTransport → Prop) t : inv t → P t → keeps t (h t) →
  (limits (h t) = limits t → inv (h t) → P (h t) → Q (Ok tt) (h t)) → rg answers R G (put h) Q t.
Proof using HG HP.
  intros Hi Hp Hk HQ. apply rg_put; [by apply HG |]. destruct Hk as [L H]. apply HQ; [done | by apply H | by eapply HP; [split |..]].
Qed.

Lemma rg_ensure (Q : res unit → WebSocketTransport → Prop) t : Q (Ok tt) t → Q (Raise ConnectionError) t → rg answers R G ensure_writable Q t.
Proof using PreOrder0.
  intros H1 H2. unfold ensure_writable. apply rg_bind; [done |]. apply rg_get; [done |].
  destruct (w_closing _); [apply rg_throw | apply rg_ret]; done.
Qed.

Lemma safe_drain : safe _drain_if_needed (λ _ _, True).
Proof using PreOrder0 HR HRP.
  intros t Hi Hp. unfold _drain_if_needed. apply rg_bind; [done |]. apply rg_get; [done |]. apply rg_when; [done | | done].
  intros _. apply rg_bind; [done |]. apply rg_await; [done |]. intros a t' _ Hr. destruct (HR _ _ Hr) as [L Hi'].
  assert (inv t') by auto. assert (P t') by eauto. destruct a; [apply rg_ret |]; done.
Qed.

Lemma inv_entropy_tail t : inv t → inv (set_entropy (tail (_entropy t)) t).
Proof. intros [? ? ?]. constructor; [done | done |]. by apply Forall_tail. Qed.

Lemma safe_urandom4 : safe urandom4 (λ r _, ∃ m, r = Ok m ∧ mask_ok m).
Proof using PreOrder0 HG HP.
  intros t Hi Hp. unfold urandom4. apply rg_bind; [done |]. apply rg_get; [done |]. apply rg_bind; [done |].
  apply rg_keep; [done | done | |].
  - split; [done |]. intros _. split; [by apply inv_entropy_tail |]. intros d. by apply sent_same.
  - intros L Hi' Hp'. apply rg_ret; [done |]. split_and!; [done | done | done |]. eexists. split; [done |].
    destruct Hi as [_ _ He]. destruct He; [| done]. split; [done |]. repeat (constructor; [unfold byte_ok; lia |]). constructor.
Qed.

Lemma safe_flush : safe _flush_control (λ _ _, True).
Proof using PreOrder0 HR HRP HG HP.
  intros t Hi Hp. unfold _flush_control. apply rg_bind; [done |]. apply rg_get; [done |].
  destruct (_pending_control t) as [| q l] eqn:E; [by apply rg_ret |]. rewrite <- E.
  apply rg_bind; [done |]. apply rg_ensure; [| done].
  apply rg_bind; [done |]. apply rg_keep; [done | done | |].
  { split; [done |]. intros _. split; [by destruct Hi |]. intros d Hs.
    destruct (pongs_frames t (_pending_control t) (inv_pending _ Hi)) as (sends & Ec & Ho & Hd). rewrite <- (app_nil_r d), <- Hd.
    apply (sent_write t); [done | | done | done]. simpl. unfold writelines. by rewrite Ec. }
  intros L1 Hi1 Hp1. apply rg_bind; [done |]. apply rg_keep; [done | done | |].
  { split; [done |]. intros _. split; [destruct Hi1; by constructor |]. intros d. by apply sent_same. }
  intros L2 Hi2 Hp2. eapply rg_mono; [by apply safe_drain |]. intros r t' (L3 & ? & ? & _). split_and!; done.
Qed.

Lemma safe_bind {A B} (m : co A) (k : A → co B) (Q : res A → WebSocketTransport → Prop) (Q' : res B → WebSocketTransport → Prop) :
  safe m Q → (∀ t a, inv t → P t → Q (Ok a) t → rg answers R G (k a) (λ r t', limits t' = limits t ∧ inv t' ∧ P t' ∧ Q' r t') t) →
  (∀ x t, Q (Raise x) t → Q' (Raise x) t) → safe (m ≫= k) Q'.
Proof using PreOrder0.
  intros Hm Hk Hx t Hi Hp. apply rg_bind; [done |]. eapply rg_mono; [by apply Hm |]. intros [a | x] t1 (L & Hi1 & Hp1 & Hq).
  - eapply rg_mono; [by apply Hk |]. intros r t2 (L2 & ? & ? & ?). split_and!; try done. congruence.
  - split_and!; auto.
Qed.

Abbreviation calm m := (safe m (λ _ _, True)).

Lemma calm_mono {A} (m : co A) (Q : res A → WebSocketTransport → Prop) : safe m Q → calm m.
Proof. intros H t Hi Hp. eapply rg_mono; [by apply H |]. intros r t' (? & ? & ? & _). done. Qed.
Lemma calm_bind {A B} (m : co A) (k : A → co B) : calm m → (∀ a, calm (k a)) → calm (m ≫= k).
Proof using PreOrder0. intros Hm Hk. eapply safe_bind; [exact Hm | | done]. intros t a Hi Hp _. by apply Hk. Qed.
Lemma calm_abind {A B} (m : co A) (k : A → co B) : calm m → (∀ a, calm (k a)) → calm (abind m k).
Proof using PreOrder0. apply calm_bind. Qed.
Lemma calm_ret {A} (a : A) : calm (mret a : co A).
Proof using PreOrder0. intros t Hi Hp. by apply rg_ret. Qed.
Lemma calm_throw {A} x : calm (throw x : co A).
Proof using PreOrder0. intros t Hi Hp. by apply rg_throw. Qed.
Lemma calm_get {A} (h : WebSocketTransport → A) : calm (get h : co A).
Proof using PreOrder0. intros t Hi Hp. by apply rg_get. Qed.
Lemma calm_when b (m : co unit) : calm m → calm (when_ b m).
Proof using PreOrder0. intros Hm. destruct b; [exact Hm | apply calm_ret]. Qed.
Lemma calm_put h : (∀ t, inv t → keeps t (h t)) → calm (put h).
Proof using PreOrder0 HG HP. intros Hk t Hi Hp. apply rg_keep; auto. Qed.
Lemma calm_await e : calm (await e).
Proof using PreOrder0 HR HRP. intros t Hi Hp. apply rg_await; [done |]. intros a t' _ Hr. destruct (HR _ _ Hr). split_and!; eauto. Qed.

(** A state change that leaves alone what [keeps] is about. *)
Lemma keeps_same t t' : limits t' = limits t → written (_writer t') = written (_writer t) →
  (w_lost (_writer t') = false → w_lost (_writer t) = false) → inv t' → keeps t t'.
Proof. intros L W H Hi. split; [done |]. intros _. split; [done |]. intros d. by apply sent_same. Qed.

Lemma calm_extract fuel : calm (extract_loop fuel).
Proof using PreOrder0 HR HRP HG HP.
  induction fuel as [| fuel IH]; [apply calm_throw |]. intros t Hi Hp. cbn [extract_loop]. apply rg_bind; [done |]. apply rg_get; [done |].
  cbn [id]. apply rg_bind; [done |]. apply rg_of_res; [done |].
  destruct (_parse_frame _ _ _) as [[[[[fin opcode] raw] rest] |] | x] eqn:E; [| by apply rg_ret | done].
  destruct (parse_inv _ _ _ _ _ _ _ (inv_recv _ Hi) E) as (mask & _ & _ & Hacc & Hbuf).
  assert (bytes_ok rest) as Hrest by (pose proof (inv_recv _ Hi) as Hr; rewrite Hbuf in Hr; by apply Forall_app in Hr as [_ ?]).
  pose proof (acc_bytes _ _ Hacc) as Hraw. cbn [f_payload] in Hraw.
  apply rg_bind; [done |]. apply rg_keep; [done | done | |]. { apply keeps_same; [done.. |]. destruct Hi. by constructor. }
  intros L1 Hi1 Hp1. set (t1 := set_recv_buf rest t) in *.
  assert (∀ (m : co (option bytes)), calm m → rg answers R G m (λ r t', limits t' = limits t ∧ inv t' ∧ P t' ∧ True) t1) as Hgo.
  { intros m Hm. eapply rg_mono; [by apply Hm |]. done. }
  assert (∀ h (m : co (option bytes)), (∀ t, inv t → keeps t (h t)) → calm m → calm (put h;; m)) as Hput.
  { intros h m Hh Hm. apply calm_bind; [by apply calm_put | done]. }
  assert (∀ fr t, inv t → keeps t (set_fragment fr t)) as Hfrag.
  { intros fr t0 Hi0. apply keeps_same; [done.. |]. destruct Hi0. by constructor. }
  destruct (opcode =? 8). { apply Hgo, Hput; [| apply calm_ret]. intros t0 Hi0. apply keeps_same; [done.. |]. destruct Hi0. by constructor. }
  destruct (opcode =? 9) eqn:E9.
  { apply Z.eqb_eq in E9 as ->. destruct (_ >=? _); [by apply rg_throw |]. apply Hgo.
    destruct (acc_control _ _ Hacc eq_refl) as (H125 & _ & _). cbn [f_payload] in H125.
    eapply safe_bind; [apply safe_urandom4 | | done]. intros t2 m Hi2 Hp2 (m' & [= <-] & Hm). apply rg_bind; [done |]. apply rg_of_res; [done |].
    rewrite mask_client_frame_wire; [| lia | done | unfold _MAX_CONTROL_PAYLOAD in H125; lia | done]. 
    assert (is_pong (wire (Some m) (mkFrame true 10 raw))) as Hpong by (by exists m, raw).
    apply rg_bind; [done |]. apply rg_keep; [done | done | |].
    - apply keeps_same; [done.. |]. destruct Hi2. constructor; [done | | done]. simpl. apply Forall_app. by repeat constructor.
    - intros L3 Hi3 Hp3. by apply rg_ret. }
  destruct (opcode =? 10). { by apply Hgo. }
  destruct (opcode =? 2).
  { destruct (_fragment t); [by apply rg_throw |]. destruct (negb fin); [by apply Hgo, Hput; [apply Hfrag |] |]. destruct (isnil raw); [by apply Hgo | by apply rg_ret]. }
  destruct (opcode =? 0); [| by apply rg_throw].
  destruct (_fragment t) as [b |]; [| by apply rg_throw]. apply Hgo, Hput; [apply Hfrag |]. destruct (_ >? _); [apply calm_throw |].
  destruct fin; [| done]. apply Hput; [apply Hfrag |]. destruct (isnil _); [done | apply calm_ret].
Qed.

Lemma calm_read fuel n : calm (read fuel n).
Proof using PreOrder0 HR HRP HG HP.
  induction fuel as [| fuel IH]; [apply calm_throw |]. cbn [read]. apply calm_abind.
  { unfold _try_extract_application_payload. apply calm_abind; [apply calm_get |]. intros size. apply calm_extract. }
  intros payload. apply calm_abind; [apply calm_get |]. intros pending. apply calm_bind; [apply calm_when, safe_flush |]. intros _.
  destruct payload as [p |]; [apply calm_ret |]. destruct (negb _); [done |].
  intros t Hi Hp. apply rg_bind; [done |]. apply rg_await; [done |]. intros a t' Ha Hr. destruct (HR _ _ Hr) as [L Hi'].
  assert (inv t') as Hit by auto. assert (P t') as Hpt by eauto. clear Hi'.
  destruct a as [a |]; [| done]. assert (∀ m : co bytes, calm m → rg answers R G m (λ r t'', limits t'' = limits t ∧ inv t'' ∧ P t'' ∧ True) t') as Hgo.
  { intros m Hm. eapply rg_mono; [by apply Hm |]. intros r t'' (? & ? & ? & _). split_and!; try done. congruence. }
  assert (calm (put (set_closing true);; mret [] : co bytes)) as Hend.
  { apply calm_bind; [| intros ?; apply calm_ret]. apply calm_put. intros t0 Hi0. apply keeps_same; [done.. |]. destruct Hi0. by constructor. }
  destruct a as [| [| b chunk] |]; try by apply Hgo.
  apply rg_bind; [done |]. apply rg_keep; [done | done | |].
  - apply keeps_same; [done.. |]. destruct Hit. constructor; [| done | done]. simpl in Ha. by apply Forall_app.
  - intros L3 Hi3 Hp3. eapply rg_mono; [by apply IH |]. intros r t'' (? & ? & ? & _). split_and!; try done. congruence.
Qed.

Lemma calm_close_loop fuel bounded cancellation : calm (close_loop fuel bounded cancellation : co (option exn)).
Proof using PreOrder0 HR HRP HG HP.
  revert bounded cancellation. induction fuel as [| fuel IH]; intros bounded cancellation; [apply calm_throw |]. cbn [close_loop].
  apply calm_abind; [apply calm_get |]. intros [w |]; [apply calm_ret |]. apply calm_abind; [| intros c; apply IH].
  assert (calm (put (on_wr abort_writer))) as Habort.
  { apply calm_put. intros t Hi. apply keeps_same; [done | done | done |]. destruct Hi. by constructor. }
  intros t Hi Hp. apply rg_try; [done |]. eapply rg_mono.
  - assert (calm (done ⇐ await (WaitClosed bounded);
      when_ (match done with TimedOut => true | _ => false end) (put (on_wr abort_writer));; mret cancellation : co (option exn))) as Hc; [| by apply Hc].
    apply calm_abind; [apply calm_await |]. intros done. apply calm_bind; [by apply calm_when | intros ?; apply calm_ret].
  - intros [a | x] t' (L & Hi' & Hp' & _); [done |].
    assert (∀ m : co (option exn), calm m → rg answers R G m (λ r t'', limits t'' = limits t ∧ inv t'' ∧ P t'' ∧ True) t') as Hgo.
    { intros m Hm. eapply rg_mono; [by apply Hm |]. intros r t'' (? & ? & ? & _). split_and!; try done. congruence. }
    destruct x; try (by apply rg_throw). apply Hgo. apply calm_bind; [done | intros ?; apply calm_ret].
Qed.

Lemma calm_close_stream_writer fuel : calm (close_stream_writer fuel : co unit).
Proof using PreOrder0 HR HRP HG HP.
  unfold close_stream_writer.
  assert (∀ g, (∀ w, written (g w) = written w ∧ (w_lost (g w) = false → w_lost w = false)) → calm (put (on_wr g))) as Hput.
  { intros g Hg. apply calm_put. intros t Hi. destruct (Hg (_writer t)). apply keeps_same; [done.. |]. destruct Hi. by constructor. }
  apply calm_bind; [by apply Hput |]. intros _. apply calm_abind; [apply calm_close_loop |]. intros c. apply calm_abind; [apply calm_get |].
  intros w. apply calm_bind; [| intros _; destruct c; [apply calm_throw | apply calm_ret]].
  destruct w as [[[] | []] |]; try apply calm_ret; try apply calm_throw; by apply Hput.
Qed.

Lemma calm_try {A} (m : co A) (h : exn → co A) : calm m → (∀ x, calm (h x)) → calm (try_ m h).
Proof using PreOrder0.
  intros Hm Hh t Hi Hp. apply rg_try; [done |]. eapply rg_mono; [by apply Hm |]. intros [a | x] t' (L & Hi' & Hp' & _); [done |].
  eapply rg_mono; [by apply Hh |]. intros r t'' (? & ? & ? & _). split_and!; try done. congruence.
Qed.

(** A frame of ours without data. *)
Lemma keeps_frame t m f : ours t (m, f) → (f_opcode f =? 0x2) = false → inv t → keeps t (on_wr (write_bytes (wire (Some m) f)) t).
Proof.
  intros Ho Hf Hi. split; [done |]. intros _. split; [by destruct Hi |]. intros d Hs.
  pose proof (sent_write t (on_wr (write_bytes (wire (Some m) f)) t) d [(m, f)]) as H. unfold data in H. simpl in H. rewrite Hf, !app_nil_r in H.
  apply H; [done | | by apply Forall_singleton | done]. unfold frames_bytes. simpl. by rewrite app_nil_r.
Qed.

Lemma calm_close fuel : calm (close fuel).
Proof using PreOrder0 HR HRP HG HP.
  unfold close. apply calm_bind.
  { apply calm_put. intros t Hi. apply keeps_same; [done.. |]. destruct Hi. by constructor. }
  intros _ t Hi Hp. apply rg_finally; [done |].
  assert (calm (suppress (draw ⇐ urandom4; frame ⇐ of_res (_mask_client_frame 0x8 [] None draw); put (on_wr (write_bytes frame)));;
     close_stream_writer fuel)) as Hc.
  - apply calm_bind; [| intros _; apply calm_close_stream_writer]. apply calm_try.
    + eapply safe_bind; [apply safe_urandom4 | | done]. intros t1 m Hi1 Hp1 (m' & [= <-] & Hm).
      apply rg_bind; [done |]. apply rg_of_res; [done |]. rewrite mask_client_frame_wire; [| lia | constructor | done | done]. 
      apply rg_keep; [done | done | | done]. apply keeps_frame; [| done | done]. split; [done |]. split_and!; [done | constructor |]. right. right. done.
    + intros x. destruct x; try apply calm_ret. apply calm_throw.
  - eapply rg_mono; [by apply Hc |]. intros r t' (L & Hi' & Hp' & _).
    assert (keeps t' (set_fragment None (set_pending [] (set_recv_buf [] t')))) as Hk.
    { apply keeps_same; [done.. |]. destruct Hi'. by constructor. }
    split; [by apply HG |]. split_and!; [done | by apply Hk | by eapply HP | done].
Qed.
End quiet.

(** ** The writer *)

Section writer.
Context (Hall : Forall (λ b, bytes_ok b ∧ len b < 2 ^ 63) all).
Context (total : bytes).

Abbreviation written_as m d := (λ Q, ∀ t, inv t → sent t d → rg answers keeps (grows total) m Q t).

(** The rules of quiet coroutines, for the writer: it knows what has been sent. *)
Lemma know d t t' : keeps t t' → inv t → sent t d → sent t' d.
Proof. intros [_ H] Hi. by apply H. Qed.

Definition small (lim : Z * Z) n : Prop := n ≤ lim.1 ∧ _masked_frame_size n ≤ lim.2 ∧ n ≤ _MAX_COALESCED_PAYLOAD.

Lemma len_concat_all parts : Forall (λ b, b ∈ all) parts → bytes_ok (concat parts).
Proof using Hall.
  intros H. induction H as [| p parts Hp _ IH]; [constructor |]. simpl. apply Forall_app. split; [| done].
  rewrite Forall_forall in Hall. by apply Hall.
Qed.

(** One binary frame is given to the transport. *)
Lemma grows_frame d b t m : inv t → sent t d → mask_ok m → bytes_ok b → b ∈ all ∨ small (limits t) (len b) → d ++ b `prefix_of` total →
  let t' := on_wr (write_bytes (wire (Some m) (mkFrame true 0x2 b))) t in grows total t t' ∧ inv t' ∧ sent t' (d ++ b).
Proof.
  intros Hi Hs Hm Hb Hsize Hp t'. assert (inv t') as Hi' by (by destruct Hi).
  assert (sent t' (d ++ b)) as Hs'.
  { pose proof (sent_write t t' d [(m, mkFrame true 2 b)]) as H. unfold data in H. simpl in H. rewrite app_nil_r in H.
    apply H; [done | | apply Forall_singleton | done].
    - unfold frames_bytes. simpl. by rewrite app_nil_r.
    - split; [done |]. split_and!; [done | done |]. left. done. }
  split_and!; [split; [done |] | done | done]. intros _. split; [done |]. eauto.
Qed.

Definition progress d t (r : res unit) t' : Prop := limits t' = limits t ∧ inv t' ∧ (r = Ok tt → sent t' d).

Lemma progress_trans d t1 t2 r t3 : limits t2 = limits t1 → progress d t2 r t3 → progress d t1 r t3.
Proof. intros L (? & ? & ?). split_and!; [congruence | done..]. Qed.

Lemma drain_progress d t : inv t → sent t d → rg answers keeps (grows total) _drain_if_needed (progress d t) t.
Proof.
  intros Hi Hs. eapply rg_mono; [apply (safe_drain keeps (grows total) (λ t, sent t d)) |].
  - apply keeps_roams. - apply know. - done. - done. - intros r t' (? & ? & ? & _). done.
Qed.
Lemma flush_progress d t : inv t → sent t d → rg answers keeps (grows total) _flush_control (progress d t) t.
Proof.
  intros Hi Hs. eapply rg_mono; [apply (safe_flush keeps (grows total) (λ t, sent t d)) |].
  - apply keeps_roams. - apply know. - apply keeps_grows. - apply know. - done. - done. - intros r t' (? & ? & ? & _). done.
Qed.
Lemma urandom_progress d t (Q : res bytes → WebSocketTransport → Prop) : inv t → sent t d →
  (∀ m t', limits t' = limits t → inv t' → sent t' d → mask_ok m → Q (Ok m) t') → rg answers keeps (grows total) urandom4 Q t.
Proof.
  intros Hi Hs HQ. eapply rg_mono; [apply (safe_urandom4 keeps (grows total) (λ t, sent t d)) |].
  - apply keeps_grows. - apply know. - done. - done. - intros r t' (? & ? & ? & m & -> & ?). by apply HQ.
Qed.

Lemma payload_batch_progress d parts n t : inv t → sent t d → parts ≠ [] → Forall (λ b, b ∈ all) parts → n = len (concat parts) →
  (∃ p, parts = [p]) ∨ small (limits t) n → d ++ concat parts `prefix_of` total →
  rg answers keeps (grows total) (_write_payload_batch parts n) (progress (d ++ concat parts) t) t.
Proof using Hall.
  intros Hi Hs Hne Hin -> Hsize Hp. unfold _write_payload_batch. apply rg_bind; [apply _ |]. apply rg_ensure; [apply _ | | done].
  set (payload := match parts with [part] => part | _ => concat parts end).
  assert (payload = concat parts) as Epay. { unfold payload. destruct parts as [| p [| ? ?]]; [done | simpl; by rewrite app_nil_r | done]. }
  clearbody payload. subst payload. pose proof (len_concat_all _ Hin) as Hb. pose proof (len_nonneg (concat parts)).
  apply rg_bind; [apply _ |]. apply (urandom_progress d); [done | done |]. intros m t1 L1 Hi1 Hs1 Hm.
  assert (concat parts ∈ all ∨ small (limits t1) (len (concat parts))) as Hsize'.
  { rewrite L1. destruct Hsize as [[p ->] | ?]; [left | by right]. simpl. rewrite app_nil_r. by apply Forall_cons in Hin as [Hin _]. }
  assert (len (concat parts) < 2 ^ 63) as H63.
  { destruct Hsize' as [Hi2 | (_ & _ & Hs2)]; [| unfold _MAX_COALESCED_PAYLOAD in Hs2; lia]. rewrite Forall_forall in Hall. by apply Hall. }
  apply rg_bind; [apply _ |]. apply rg_of_res; [apply _ |]. rewrite header_wire by lia.
  apply rg_bind; [apply _ |]. apply rg_of_res; [apply _ |]. rewrite _mask_payload_spec by done.
  destruct (grows_frame d (concat parts) t1 m Hi1 Hs1 Hm Hb Hsize' Hp) as (HG & Hi2 & Hs2).
  assert (writelines [(128 + 2) :: rfc_size true (len (concat parts)) ++ m; xor_mask (concat parts) m] =
          write_bytes (wire (Some m) (mkFrame true 2 (concat parts)))) as Ew.
  { unfold writelines. f_equal. unfold wire. simpl. rewrite app_nil_r. by rewrite <- app_assoc. }
  apply rg_bind; [apply _ |]. apply rg_put; rewrite Ew; [done |].
  eapply rg_mono; [by apply drain_progress |]. intros r t'. by apply progress_trans.
Qed.

Lemma small_of t n : batch_overflows n t = false → small (limits t) n.
Proof.
  unfold batch_overflows. intros [[H1 H2]%orb_false_elim H3]%orb_false_elim. rewrite Z.gtb_ltb in *. apply Z.ltb_ge in H1, H2, H3. done.
Qed.

(** The batch is empty, one item, or within the bounds. *)
Lemma loop_progress parts : ∀ d batch n t, inv t → sent t d → Forall (λ b, b ∈ all) (batch ++ parts) → n = len (concat batch) →
  (batch = [] ∨ (∃ p, batch = [p]) ∨ small (limits t) n) → d ++ concat batch ++ concat parts `prefix_of` total →
  rg answers keeps (grows total) (write_loop parts batch n) (progress (d ++ concat batch ++ concat parts) t) t.
Proof using Hall.
  induction parts as [| part parts IH]; intros d batch n t Hi Hs Hin -> Hb Hp; cbn [write_loop].
  { cbn [concat] in *. rewrite app_nil_r in *. destruct batch as [| p batch]; simpl isnil; cbn [negb when_].
    - apply rg_ret; [apply _ |]. split_and!; [done | done |]. intros _. by rewrite app_nil_r.
    - apply payload_batch_progress; try done. by destruct Hb as [? | ?]. }
  apply Forall_app in Hin as [Hbatch [Hpart Hparts]%Forall_cons].
  apply rg_bind; [apply _ |]. apply rg_get; [apply _ |].
  set (c := negb (isnil batch) && batch_overflows (len (concat batch) + len part) t).
  apply rg_bind; [apply _ |].
  (* After the first test: the item joins a batch it fits in. *)
  assert (∀ d' batch' t', inv t' → limits t' = limits t → sent t' d' → Forall (λ b, b ∈ all) batch' →
    (batch' = [] ∨ small (limits t) (len (concat batch') + len part)) → d' ++ concat batch' = d ++ concat batch →
    rg answers keeps (grows total)
      (full ⇐ get (batch_full (len (concat batch') + len part));
       if (full : bool) then _write_payload_batch (batch' ++ [part]) (len (concat batch') + len part);; write_loop parts [] 0
       else write_loop parts (batch' ++ [part]) (len (concat batch') + len part))
      (progress (d ++ concat batch ++ concat (part :: parts)) t) t') as Hjoin.
  { intros d' batch' t' Hi' L Hs' Hb' Hfit Ed. apply rg_bind; [apply _ |]. apply rg_get; [apply _ |].
    assert (concat (batch' ++ [part]) = concat batch' ++ part) as Ec by (rewrite concat_app; simpl; by rewrite app_nil_r).
    assert (len (concat batch') + len part = len (concat (batch' ++ [part]))) as En by (by rewrite Ec, len_app).
    assert (d ++ concat batch ++ concat (part :: parts) = d' ++ concat (batch' ++ [part]) ++ concat parts) as Et.
    { rewrite Ec. cbn [concat]. rewrite !app_assoc, Ed. by rewrite <- !app_assoc. }
    assert (Forall (λ b, b ∈ all) (batch' ++ [part])) as Hb'' by (apply Forall_app; split; [done | by constructor]).
    assert ((∃ p, batch' ++ [part] = [p]) ∨ small (limits t') (len (concat (batch' ++ [part])))) as Hfit'.
    { rewrite L, <- En. destruct Hfit as [-> | ?]; [left; by exists part | by right]. }
    rewrite Et in Hp |- *. rewrite En. destruct (batch_full _ t').
    - apply rg_bind; [apply _ |]. eapply rg_mono.
      + apply (payload_batch_progress d'); try done; [by destruct batch' |]. etrans; [| exact Hp]. rewrite app_assoc. by apply prefix_app_r.
      + intros [[] | x] t2 (L2 & Hi2 & Hs2); [| split_and!; [congruence | done | done]].
        eapply rg_mono; [apply (IH (d' ++ concat (batch' ++ [part])) [] 0 t2); try done; auto; cbn [concat app]; by rewrite <- app_assoc |].
        intros r t3 (L3 & Hi3 & Hs3). split_and!; [congruence | done |]. intros Hr. specialize (Hs3 Hr).
        cbn [concat app] in Hs3. by rewrite <- app_assoc in Hs3.
    - eapply rg_mono; [apply (IH d' (batch' ++ [part])); try done; [by apply Forall_app | by right] |].
      intros r t3. apply progress_trans. done. }
  destruct c eqn:Ec.
  - apply andb_prop in Ec as [Hne _]. apply rg_bind; [apply _ |]. eapply rg_mono.
    + apply (payload_batch_progress d batch); try done; [by destruct batch | by destruct Hb as [-> | ?] |].
      etrans; [| exact Hp]. rewrite app_assoc. by apply prefix_app_r.
    + intros [[] | x] t2 (L2 & Hi2 & Hs2); [| done]. apply rg_ret; [apply _ |].
      apply (Hjoin (d ++ concat batch) [] t2 Hi2 L2); auto. cbn [concat]. by rewrite app_nil_r.
  - apply rg_ret; [apply _ |]. apply (Hjoin d batch t Hi eq_refl); auto.
    apply andb_false_iff in Ec as [Hne | Hov]; [left; by destruct batch | right; by apply small_of].
Qed.

Lemma write_progress d b t : inv t → sent t d → b ∈ all → d ++ b `prefix_of` total →
  rg answers keeps (grows total) (write b) (progress (d ++ b) t) t.
Proof using Hall.
  intros Hi Hs Hin Hp. unfold write. apply rg_bind; [apply _ |]. apply rg_ensure; [apply _ | | done].
  apply rg_bind; [apply _ |]. eapply rg_mono; [by apply (flush_progress d) |].
  intros [[] | x] t1 (L1 & Hi1 & Hs1); [| done]. specialize (Hs1 eq_refl).
  apply rg_bind; [apply _ |]. apply (urandom_progress d); [done | done |]. intros m t2 L2 Hi2 Hs2 Hm.
  assert (bytes_ok b ∧ len b < 2 ^ 63) as [Hb H63] by (rewrite Forall_forall in Hall; by apply Hall).
  apply rg_bind; [apply _ |]. apply rg_of_res; [apply _ |]. rewrite mask_client_frame_wire; [| lia | done | lia | done].
  destruct (grows_frame d b t2 m Hi2 Hs2 Hm Hb (or_introl Hin) Hp) as (HG & Hi3 & Hs3).
  apply rg_bind; [apply _ |]. apply rg_put; [done |].
  eapply rg_mono; [by apply drain_progress |]. intros r t' (L4 & ? & ?). split_and!; [| done | done]. etrans; [exact L4 |]. change (limits t2 = limits t). congruence.
Qed.

Lemma many_progress d parts t : inv t → sent t d → Forall (λ b, b ∈ all) parts → d ++ concat parts `prefix_of` total →
  rg answers keeps (grows total) (write_many parts) (progress (d ++ concat parts) t) t.
Proof using Hall.
  intros Hi Hs Hin Hp. unfold write_many. destruct parts as [| p rest] eqn:E.
  { apply rg_ret; [apply _ |]. split_and!; [done | done |]. intros _. simpl. by rewrite app_nil_r. }
  rewrite <- E in *. apply rg_bind; [apply _ |]. apply rg_ensure; [apply _ | | done].
  apply rg_bind; [apply _ |]. eapply rg_mono; [by apply (flush_progress d) |].
  intros [[] | x] t1 (L1 & Hi1 & Hs1); [| done]. specialize (Hs1 eq_refl).
  eapply rg_mono; [apply (loop_progress parts d [] 0); try done; by left |]. intros r t'. by apply progress_trans.
Qed.
End writer.
End wire.

(** ** The two tasks of a client on one transport *)

(** What the writer task asks for, in order. *)
Inductive request := One (b : bytes) | Many (parts : list bytes).
Definition items (r : request) : list bytes := match r with One b => [b] | Many parts => parts end.
Fixpoint writes (requests : list request) : co unit :=
  match requests with
  | [] => mret tt
  | One b :: requests => write b;; writes requests
  | Many parts :: requests => write_many parts;; writes requests
  end.

(** What other tasks may start: the reader's reads, and closing. *)
Inductive quiet_task := Read (fuel : nat) (n : Z) | Close (fuel : nat).
Definition start (q : quiet_task) (t : WebSocketTransport) : WebSocketTransport * job event answer WebSocketTransport :=
  match q with
  | Read fuel n => let '(t, o) := read fuel n t in (t, Job _ o)
  | Close fuel => let '(t, o) := close fuel t in (t, Job _ o)
  end.

(** The peer and the kernel change what asyncio keeps of the stream, but not what
    was written; a lost connection is not found again. *)
Definition world t t' : Prop := ∃ w, t' = set_writer w t ∧ written w = written (_writer t) ∧ (w_lost w = false → w_lost (_writer t) = false).

(** Every interleaving of one writer task, any number of reads and closes one after
    the other or at once, and the world. *)
Inductive reachable t0 requests : WebSocketTransport → out event answer WebSocketTransport unit → list (job event answer WebSocketTransport) → Prop :=
  | r_start : reachable t0 requests (writes requests t0).1 (writes requests t0).2 []
  | r_writer t e k a js : reachable t0 requests t (Susp e k) js → answers e a → reachable t0 requests (k a t).1 (k a t).2 js
  | r_spawn t o js q : reachable t0 requests t o js → reachable t0 requests (start q t).1 o (js ++ [(start q t).2])
  | r_other t o js i j e a : reachable t0 requests t o js → js !! i = Some j → awaits j = Some e → answers e a →
      reachable t0 requests (advance j a t).1 o (<[i := (advance j a t).2]> js)
  | r_world t t' o js : reachable t0 requests t o js → world t t' → reachable t0 requests t' o js.

Section system.
Context (t0 : WebSocketTransport) (requests : list request).
Definition all_items : list bytes := requests ≫= items.
Definition first_bytes : bytes := written (_writer t0).
Context (Hi0 : inv t0) (Hall : Forall (λ b, bytes_ok b ∧ len b < 2 ^ 63) all_items).

Abbreviation Sent := (sent first_bytes all_items).
Abbreviation Keeps := (keeps first_bytes all_items).
Abbreviation Grows := (grows first_bytes all_items (concat all_items)).

Lemma writes_progress rs d t : inv t → Sent t d → Forall (λ r, Forall (λ b, b ∈ all_items) (items r)) rs →
  d ++ concat (rs ≫= items) `prefix_of` concat all_items →
  rg answers Keeps Grows (writes rs) (progress first_bytes all_items (d ++ concat (rs ≫= items)) t) t.
Proof using Hall.
  revert d t. induction rs as [| r rs IH]; intros d t Hi Hs Hin Hp; cbn [writes].
  { apply rg_ret; [apply _ |]. split_and!; [done | done |]. intros _. simpl. by rewrite app_nil_r. }
  apply Forall_cons in Hin as [Hr Hrs]. change ((r :: rs) ≫= items) with (items r ++ (rs ≫= items)) in *.
  rewrite concat_app, app_assoc in Hp |- *.
  assert (d ++ concat (items r) `prefix_of` concat all_items) as Hp1 by (etrans; [| exact Hp]; by apply prefix_app_r).
  assert (∀ r0 t1, progress first_bytes all_items (d ++ concat (items r)) t r0 t1 →
    match r0 with
    | Ok _ => rg answers Keeps Grows (writes rs) (progress first_bytes all_items ((d ++ concat (items r)) ++ concat (rs ≫= items)) t) t1
    | Raise x => progress first_bytes all_items ((d ++ concat (items r)) ++ concat (rs ≫= items)) t (Raise x) t1
    end) as Hnext.
  { intros [[] | x] t1 (L & Hi1 & Hs1); [| split_and!; done]. eapply rg_mono; [by apply IH; auto |]. intros r1 t2. by apply progress_trans. }
  destruct r as [b | parts]; (apply rg_bind; [apply _ |]); eapply rg_mono.
  - apply write_progress; [done | done | done | |]; [by apply Forall_cons in Hr as [Hr _] |]. simpl in Hp1. by rewrite app_nil_r in Hp1.
  - intros r t1 Hpr. cbn [items concat] in Hnext. rewrite app_nil_r in Hnext. cbn [items concat]. rewrite app_nil_r. by apply Hnext.
  - by apply many_progress.
  - intros r t1 Hpr. by apply Hnext.
Qed.

Lemma items_in : Forall (λ r, Forall (λ b, b ∈ all_items) (items r)) requests.
Proof.
  apply Forall_forall. intros r Hr. apply Forall_forall. intros b Hb. apply list_elem_of_bind. eauto.
Qed.

(** Where the writer stands, and where the others do. *)
Definition writer_at (o : out event answer WebSocketTransport unit) t : Prop :=
  ∃ s, inv s ∧ holds answers Keeps Grows (λ r t', inv t' ∧ (r = Ok tt → Sent t' (concat all_items))) o s ∧ Keeps s t.

Record sound t o js : Prop := {
  so_inv : inv t;
  so_limits : limits t = limits t0;
  so_sent : ∃ d, d `prefix_of` concat all_items ∧ Sent t d;
  so_writer : writer_at o t;
  so_others : Forall (λ j, steady answers roams Keeps j t) js }.

Lemma sent_start : Sent t0 [].
Proof. exists []. split_and!; [by rewrite app_nil_r | constructor | done | done]. Qed.

Lemma keeps_sound t t' o js : sound t o js → Keeps t t' → sound t' o js.
Proof.
  intros [Hi L (d & Hd & Hs) (s & Hsi & Hh & Hk) Ho] HK. destruct HK as [L' HK]. destruct (HK Hi) as [Hi' Hs']. constructor.
  - done.
  - congruence.
  - exists d. auto.
  - exists s. split_and!; [done | done |]. etrans; [exact Hk |]. by split.
  - eapply Forall_impl; [exact Ho |]. intros j Hj. eapply steady_stable; [apply _ | exact Hj |]. by apply keeps_roams with first_bytes all_items; split.
Qed.

Lemma world_keeps t t' : inv t → world t t' → Keeps t t'.
Proof.
  intros Hi (w & -> & Hw & Hl). apply keeps_same; [done | done | done |]. by destruct Hi.
Qed.

Lemma quiet_start q t : inv t → Keeps t (start q t).1 ∧ steady answers roams Keeps (start q t).2 (start q t).1.
Proof.
  intros Hi. assert (∀ A (m : co A), rg answers roams Keeps m (λ _ _, True) t → Keeps t (m t).1 ∧ steady answers roams Keeps (Job A (m t).2) (m t).1) as Hgo.
  { intros A m Hm. split; [apply Hm |]. by eapply steady_spawn; [apply _ |]. }
  destruct q as [fuel n | fuel]; simpl.
  - specialize (Hgo _ (read fuel n)). destruct (read fuel n t) as [t' o]. apply Hgo. eapply rg_mono.
    + apply (calm_read first_bytes all_items roams Keeps (λ _, True)); done.
    + done.
  - specialize (Hgo _ (close fuel)). destruct (close fuel t) as [t' o]. apply Hgo. eapply rg_mono.
    + apply (calm_close first_bytes all_items roams Keeps (λ _, True)); done.
    + done.
Qed.

Lemma reachable_sound t o js : reachable t0 requests t o js → sound t o js.
Proof using Hi0 Hall.
  induction 1 as [| t e k a js Hr IH Ha | t o js q Hr IH | t o js i j e a Hr IH Hj He Ha | t t' o js Hr IH Hw].
  - assert (concat (requests ≫= items) `prefix_of` concat all_items) as Hp by done.
    destruct (writes_progress requests [] t0 Hi0 sent_start items_in Hp) as [[HL HG] Hh].
    destruct (HG Hi0) as [Hi1 Hd]. constructor; [done | done | apply Hd; by exists []; split; [apply prefix_nil | apply sent_start] | | constructor].
    exists (writes requests t0).1. split_and!; [done | | done]. eapply holds_mono; [| exact Hh]. intros r t' (_ & ? & ?). done.
  - destruct IH as [Hi L Hd (s & Hsi & Hh & Hk) Ho]. simpl in Hh. destruct (Hh a t Ha Hk) as [[HL HG] Hh']. destruct (HG Hi) as [Hi' Hd'].
    specialize (Hd' Hd). destruct (k a t) as [t' o'] eqn:E. simpl in *. constructor; [done | congruence | done | by exists t' |].
    eapply Forall_impl; [exact Ho |]. intros j Hj. eapply steady_stable; [apply _ | exact Hj |]. split; [done |]. intros _. done.
  - pose proof (so_inv _ _ _ IH) as Hi. destruct (quiet_start q t Hi) as [HK Hst]. pose proof (keeps_sound _ _ _ _ IH HK) as [? ? ? ? Ho].
    constructor; try done. apply Forall_app. split; [done |]. by constructor.
  - pose proof (so_others _ _ _ IH) as Ho. rewrite Forall_lookup in Ho. specialize (Ho _ _ Hj).
    destruct (steady_advance answers roams Keeps j a t e Ho He Ha) as [HK Hst].
    pose proof (keeps_sound _ _ _ _ IH HK) as [? ? ? ? Ho']. constructor; try done. by apply Forall_insert.
  - apply (keeps_sound t); [done |]. apply world_keeps; [apply IH | done].
Qed.

(** C28: what leaves is what was written.  Let one task write, others read and close,
    and the connection falter, in any interleaving.  At every moment the bytes after
    the handshake are whole masked frames; the payloads of the binary ones, put
    together, are a beginning of the bytes to be written, and all of them once the
    writer has ended without error on a connection that is not lost; a binary frame
    is one item, or several that respect the frame bound, the batch bound and the
    coalescing bound; every other frame is a pong or a close. *)
Theorem ws_wire t o js : reachable t0 requests t o js →
  ∃ sends, written (_writer t) = first_bytes ++ frames_bytes sends ∧
    Forall (λ s, mask_ok s.1 ∧ our_frame all_items (_max_frame_size t0) (_max_write_batch_bytes t0) s.2) sends ∧
    data sends `prefix_of` concat all_items ∧
    (o = Fin (Ok tt) → w_lost (_writer t) = false → data sends = concat all_items).
Proof using Hi0 Hall.
  intros Hr. destruct (reachable_sound t o js Hr) as [Hi [= L1 L2] (d & Hd & (sends & E1 & E2 & E3 & E4)) (s & Hsi & Hh & Hk) _].
  assert (Forall (λ s, mask_ok s.1 ∧ our_frame all_items (_max_frame_size t0) (_max_write_batch_bytes t0) s.2) sends ∧
    ∀ l, Forall (ours all_items t) l → Forall (λ s, mask_ok s.1 ∧ our_frame all_items (_max_frame_size t0) (_max_write_batch_bytes t0) s.2) l) as [Ho Hall'].
  { rewrite <- L1, <- L2. done. }
  destruct (decide (w_lost (_writer t) = false)) as [Hl | Hl].
  2:{ exists sends. split_and!; [done | done | by etrans | done]. }
  destruct o as [[[] | x] | e k]; try (exists sends; split_and!; [done | done | by etrans | done]).
  destruct Hk as [_ Hk]. destruct (Hk Hsi) as [_ Hk']. simpl in Hh. destruct Hh as [_ Hh].
  destruct (Hk' _ (Hh eq_refl)) as (sends' & F1 & F2 & F3 & F4). exists sends'. split_and!; auto.
Qed.
End system.

(** ** An example

    A ping is answered, then two writes leave, of which the first does not fit one
    frame. *)
Section witness.
Definition demo : WebSocketTransport := mkWs (new_writer []) [0x89; 1; 7] false [] 4 1000 None [[1; 2; 3; 4]; [5; 6; 7; 8]; [9; 9; 9; 9]].
Definition demo_requests : list request := [Many [[1; 2]; [3; 4; 5]]; One [6]].

Definition demo_read : WebSocketTransport := (start (Read 5 100) demo).1.
Definition demo_written : WebSocketTransport * out event answer WebSocketTransport unit := writes demo_requests demo_read.

Lemma demo_frames : written (_writer demo_written.1) =
  frames_bytes [([1; 2; 3; 4], mkFrame true 10 [7]); ([5; 6; 7; 8], mkFrame true 2 [1; 2]);
    ([9; 9; 9; 9], mkFrame true 2 [3; 4; 5]); ([0; 0; 0; 0], mkFrame true 2 [6])].
Proof. vm_compute. reflexivity. Qed.

Lemma ws_wire_witness :
  inv demo ∧ ∃ sends, written (_writer (writes demo_requests demo).1) = frames_bytes sends ∧ data sends = [1; 2; 3; 4; 5; 6].
Proof.
  assert (inv demo) as Hi.
  { constructor; repeat (constructor; [solve [unfold byte_ok; lia | split; [done | repeat (constructor; [unfold byte_ok; lia |]); constructor]] |]); constructor. }
  split; [exact Hi |].
  assert (Forall (λ b, bytes_ok b ∧ len b < 2 ^ 63) (all_items demo_requests)) as Hall.
  { repeat (constructor; [split; [repeat (constructor; [unfold byte_ok; lia |]); constructor | done] |]). constructor. }
  destruct (ws_wire demo demo_requests Hi Hall _ _ _ (r_start demo demo_requests)) as (sends & E & _ & _ & Hd).
  exists sends. split; [exact E |]. apply Hd; vm_compute; reflexivity.
Defined.
End witness.
