(* ===== verification/WsHandshake.v ===== *)
(** * The WebSocket handshake

    The opening of [transport/websocket.py]: the endpoint, the request, the reading
    and the check of the response, and [connect]. *)

From S2P Require Import Prelude PyStr Json Async Stream WsFrame WebSocket.

Definition _MAX_HANDSHAKE_BYTES : Z := 64 * 1024.

(** ** SHA-1

    [hashlib.sha1(data).digest()]. *)

Definition w32 (v : Z) : Z := v mod 2 ^ 32.
Definition rotl (n v : Z) : Z := Z.lor (w32 (Z.shiftl v n)) (Z.shiftr v (32 - n)).

Definition sha1_pad (data : bytes) : bytes :=
  data ++ 0x80 :: replicate (Z.to_nat ((55 - len data) mod 64)) 0 ++ big_endian 8 (len data * 8).

Fixpoint words (b : bytes) : list Z :=
  match b with
  | w :: x :: y :: z :: b => from_big_endian [w; x; y; z] :: words b
  | _ => []
  end.

(** The message schedule, the last word first. *)
Fixpoint schedule (n : nat) (w : list Z) : list Z :=
  match n with
  | O => w
  | S n => schedule n (rotl 1 (Z.lxor (Z.lxor (nth 2 w 0) (nth 7 w 0)) (Z.lxor (nth 13 w 0) (nth 15 w 0))) :: w)
  end.

Definition sha1_f (i b c d : Z) : Z * Z :=
  if i <? 20 then (Z.lor (Z.land b c) (Z.land (Z.lxor b (2 ^ 32 - 1)) d), 0x5A827999)
  else if i <? 40 then (Z.lxor (Z.lxor b c) d, 0x6ED9EBA1)
  else if i <? 60 then (Z.lor (Z.lor (Z.land b c) (Z.land b d)) (Z.land c d), 0x8F1BBCDC)
  else (Z.lxor (Z.lxor b c) d, 0xCA62C1D6).

Definition hash5 : Type := Z * Z * Z * Z * Z.
Fixpoint sha1_rounds (i : Z) (w : list Z) (h : hash5) : hash5 :=
  match w with
  | [] => h
  | x :: w =>
      let '(a, b, c, d, e) := h in
      let '(f, k) := sha1_f i b c d in
      sha1_rounds (i + 1) w (w32 (rotl 5 a + f + e + k + x), a, rotl 30 b, c, d)
  end.

Fixpoint sha1_blocks (n : nat) (w : list Z) (h : hash5) : hash5 :=
  match n with
  | O => h
  | S n =>
      let '(a, b, c, d, e) := sha1_rounds 0 (rev (schedule 64 (rev (take 16 w)))) h in
      let '(h0, h1, h2, h3, h4) := h in
      sha1_blocks n (drop 16 w) (w32 (h0 + a), w32 (h1 + b), w32 (h2 + c), w32 (h3 + d), w32 (h4 + e))
  end.

Definition sha1 (data : bytes) : bytes :=
  let padded := sha1_pad data in
  let '(a, b, c, d, e) :=
    sha1_blocks (length padded / 64) (words padded) (0x67452301, 0xEFCDAB89, 0x98BADCFE, 0x10325476, 0xC3D2E1F0) in
  big_endian 4 a ++ big_endian 4 b ++ big_endian 4 c ++ big_endian 4 d ++ big_endian 4 e.

Definition GUID : pystr := lit "258EAFA5-E914-47DA-95CA-C5AB0DC85B11".
(** The [Sec-WebSocket-Accept] value a server derives from the key. *)
Definition accept_value (key : pystr) : pystr := b64encode (sha1 (key ++ GUID)).

Example accept_rfc6455 : accept_value (lit "dGhlIHNhbXBsZSBub25jZQ==") = lit "s3pPLMBiTxaQ9kYGzzhZRbK+xOo=".
Proof. vm_compute. reflexivity. Qed.

(** ** The endpoint

    [urlparse] is given by its result; reading [port] may raise. *)
Record ParseResult := mkParse {
  u_scheme : pystr; u_hostname : option pystr; u_port : res (option Z); u_path : pystr; u_query : pystr;
  u_username : option pystr; u_password : option pystr }.
Inductive ssl_arg := SslNone | SslBool (b : bool) | SslContext | SslOther.

Definition is_some {A} (o : option A) : bool := match o with Some _ => true | None => false end.
Definition str_eq (a b : pystr) : bool := bool_decide (a = b).

Definition _parse_websocket_endpoint (parsed : ParseResult) (ssl : ssl_arg) : res (pystr * Z * pystr * ssl_arg) :=
  let wss := str_eq (u_scheme parsed) (lit "wss") in
  raise! ValueError when negb (str_eq (u_scheme parsed) (lit "ws") || wss);
  raise! ValueError when match ssl with SslOther => true | _ => false end;
  raise! ValueError when wss && match ssl with SslBool false => true | _ => false end;
  let host := default [] (u_hostname parsed) in
  raise! ValueError when isnil host;
  raise! ValueError when is_some (u_username parsed) || is_some (u_password parsed);
  let! port := u_port parsed in
  let port := match port with
              | Some p => if p =? 0 then (if wss then 443 else 80) else p
              | None => if wss then 443 else 80
              end in
  let path := if isnil (u_path parsed) then lit "/" else u_path parsed in
  let path := if isnil (u_query parsed) then path else path ++ lit "?" ++ u_query parsed in
  let use_ssl := match ssl with SslNone => if wss then SslBool true else SslNone | s => s end in
  Ok (host, port, path, use_ssl).

(** ** The request *)

Definition CRLF : bytes := [13; 10].
Fixpoint join_crlf (lines : list bytes) : bytes :=
  match lines with [] => [] | [l] => l | l :: lines => l ++ CRLF ++ join_crlf lines end.

Definition has_crlf (s : pystr) : bool := zin 13 s || zin 10 s.

Fixpoint extra_lines (extra_headers : list (pystr * pystr)) : res (list pystr) :=
  match extra_headers with
  | [] => Ok []
  | (name, value) :: extra_headers =>
      raise! ValueError when has_crlf name || has_crlf value;
      let! lines := extra_lines extra_headers in
      Ok ((name ++ lit ": " ++ value) :: lines)
  end.

Definition host_header (host : pystr) (port : Z) (default_port : option Z) : pystr :=
  let h := if zin 58 host && negb (startswith host (lit "[")) then lit "[" ++ host ++ lit "]" else host in
  if bool_decide (Some port = default_port) then h else h ++ lit ":" ++ int_repr port.

Definition base_lines (host : pystr) (port : Z) (path key : pystr) (default_port : option Z) : list pystr :=
  [lit "GET " ++ path ++ lit " HTTP/1.1"; lit "Host: " ++ host_header host port default_port; lit "Upgrade: websocket";
   lit "Connection: Upgrade"; lit "Sec-WebSocket-Key: " ++ key; lit "Sec-WebSocket-Version: 13"; lit "Sec-WebSocket-Protocol: mqtt"].

Definition _build_handshake_request (host : pystr) (port : Z) (path key : pystr) (extra_headers : list (pystr * pystr))
    (default_port : option Z) : res bytes :=
  let! extra := extra_lines extra_headers in
  let request := join_crlf (base_lines host port path key default_port ++ extra) ++ CRLF ++ CRLF in
  if isascii request then Ok request else Raise UnicodeError.

(** ** The response *)

(** [buffer.partition(b"\r\n\r\n")], when it occurs. *)
Fixpoint cut_at (sep b : bytes) : option (bytes * bytes) :=
  if startswith b sep then Some ([], drop (length sep) b)
  else match b with
       | [] => None
       | c :: b => match cut_at sep b with Some (h, r) => Some (c :: h, r) | None => None end
       end.

(** [head.split(b"\r\n")]. *)
Fixpoint split_crlf (b : bytes) : list bytes :=
  match b with
  | [] => [[]]
  | c :: b' =>
      match b' with
      | d :: b'' =>
          if (c =? 13) && (d =? 10) then [] :: split_crlf b''
          else match split_crlf b' with l :: ls => (c :: l) :: ls | [] => [[c]] end
      | [] => [[c]]
      end
  end.

(** White space and case of text decoded from Latin-1. *)
Definition is_space1 (c : Z) : bool := is_space c || (c =? 0x85) || (c =? 0xA0).
Fixpoint lstrip (s : pystr) : pystr := match s with c :: s' => if is_space1 c then lstrip s' else s | [] => [] end.
Definition strip (s : pystr) : pystr := rev (lstrip (rev (lstrip s))).
Definition lower_chr (c : Z) : Z :=
  if ((65 <=? c) && (c <=? 90)) || ((0xC0 <=? c) && (c <=? 0xDE) && negb (c =? 0xD7)) then c + 32 else c.
Definition lower (s : pystr) : pystr := lower_chr <$> s.

(** [line.partition(b":")]. *)
Definition header_of (line : bytes) : option (pystr * pystr) :=
  match cut_at [58] line with Some (name, value) => Some (lower (strip name), strip value) | None => None end.
Fixpoint parse_headers (headers : list (pystr * pystr)) (lines : list bytes) : list (pystr * pystr) :=
  match lines with
  | [] => headers
  | line :: lines =>
      match header_of line with
      | None => parse_headers headers lines
      | Some (name, value) => parse_headers (dset name value headers) lines
      end
  end.
Definition _parse_http_headers (lines : list bytes) : list (pystr * pystr) := parse_headers [] lines.

(** [bytes.decode("ascii", errors="replace")]. *)
Definition ascii_replace (b : bytes) : pystr := (λ c, if c <? 128 then c else 0xFFFD) <$> b.

Definition _validate_handshake_response (head : bytes) (key : pystr) : res unit :=
  let lines := split_crlf head in
  let status_line := ascii_replace (default [] (lines !! 0%nat)) in
  let parts := split_max 32 2 status_line in
  raise! ConnectionError when match parts with _ :: code :: _ => negb (str_eq code (lit "101")) | _ => true end;
  let headers := _parse_http_headers (tail lines) in
  raise! ConnectionError when negb (bool_decide (dget (lit "sec-websocket-accept") headers = Some (accept_value key)));
  raise! ConnectionError when negb (str_eq (lower (default [] (dget (lit "upgrade") headers))) (lit "websocket"));
  let tokens := (λ t, lower (strip t)) <$> filter (λ t, strip t ≠ []) (split_chr 44 (default [] (dget (lit "connection") headers))) in
  raise! ConnectionError when negb (bool_decide (lit "upgrade" ∈ tokens));
  match dget (lit "sec-websocket-protocol") headers with
  | None => Ok tt
  | Some subprotocol =>
      raise! ConnectionError when negb (bool_decide (lower (strip subprotocol) ∈ [lit "mqtt"; lit "mqttv3.1"]));
      Ok tt
  end.

(** ** Connecting

    Before the transport exists there is only the asyncio stream. *)

(** The loop of [_read_handshake_response]. *)
Fixpoint read_response (fuel : nat) (buffer : bytes) : async event answer Writer (bytes * bytes) :=
  match fuel with
  | O => throw RuntimeError
  | S fuel =>
      match cut_at (CRLF ++ CRLF) buffer with
      | Some r => mret r
      | None =>
          chunk ⇐ await (ReadChunk 4096);
          match chunk with
          | Chunk (b :: chunk) =>
              let buffer := buffer ++ b :: chunk in
              if len buffer >? _MAX_HANDSHAKE_BYTES then throw ConnectionError else read_response fuel buffer
          | TimedOut => throw TimeoutError
          | _ => throw ConnectionError
          end
      end
  end.
Definition _read_handshake_response (fuel : nat) := read_response fuel [].

(** The exchange on an open stream: what follows the response is left over. *)
Definition exchange (fuel : nat) (request : bytes) (key : pystr) : async event answer Writer bytes :=
  try_
    (put (write_bytes request);;
     stream_drain;;
     '(head, leftover) ⇐ _read_handshake_response fuel;
     of_res (_validate_handshake_response head key);;
     mret leftover)
    (λ x, close_stream_writer fuel;; throw x).

(** The transport [connect] returns. *)
Definition transport_of (w : Writer) (leftover : bytes) (max_frame_size max_write_batch_bytes : Z) (entropy : list bytes) :
  res WebSocketTransport :=
  let! t := WebSocketTransport_init w max_frame_size max_write_batch_bytes entropy in
  Ok (set_recv_buf (_recv_buf t ++ leftover) t).
