(* ===== verification/WsConnect.v ===== *)
(** * Opening a WebSocket

    What the handshake asks, what it accepts, and that no byte is lost between the
    response and the first frame. *)

From S2P Require Import Prelude PyStr Json Async Stream WsFrame WsCodec WebSocket WsHandshake WsReader.

(** ** Lines *)

Definition line_ok (l : bytes) : Prop := l ≠ [] ∧ has_crlf l = false.

Lemma has_crlf_cons c l : has_crlf (c :: l) = false → c ≠ 13 ∧ c ≠ 10 ∧ has_crlf l = false.
Proof.
  unfold has_crlf, zin. cbn [existsb]. intros [[H1 H2]%orb_false_elim [H3 H4]%orb_false_elim]%orb_false_elim. rewrite H2, H4.
  apply Z.eqb_neq in H1, H3. split_and!; [congruence | congruence | done].
Qed.

Lemma cut_other c sep0 sep b : c ≠ sep0 → cut_at (sep0 :: sep) (c :: b) =
  match cut_at (sep0 :: sep) b with Some (h, r) => Some (c :: h, r) | None => None end.
Proof. intros H. cbn [cut_at]. unfold startswith. rewrite bool_decide_eq_false_2; [done |]. simpl. congruence. Qed.

Lemma cut_prefix sep0 sep p b : Forall (λ c, c ≠ sep0) p → cut_at (sep0 :: sep) (p ++ b) =
  match cut_at (sep0 :: sep) b with Some (h, r) => Some (p ++ h, r) | None => None end.
Proof.
  induction 1 as [| c p Hc _ IH]; [simpl; by destruct (cut_at _ b) as [[? ?] |] |]. rewrite <- app_comm_cons, cut_other, IH by done.
  by destruct (cut_at _ b) as [[? ?] |].
Qed.

Lemma has_crlf_no_cr l : has_crlf l = false → Forall (λ c, c ≠ 13) l.
Proof. induction l as [| c l IH]; [constructor |]. intros (H1 & _ & H2)%has_crlf_cons. constructor; auto. Qed.

Definition END : bytes := CRLF ++ CRLF.

(** A block of lines ends where its sender ended it. *)
Lemma cut_lines lines rest : lines ≠ [] → Forall line_ok lines → cut_at END (join_crlf lines ++ END ++ rest) = Some (join_crlf lines, rest).
Proof.
  intros Hne H. induction H as [| l lines [Hl Hc] Hls IH]; [done |]. change END with [13; 10; 13; 10] in *.
  destruct lines as [| l2 lines]; cbn [join_crlf].
  - rewrite cut_prefix by (by apply has_crlf_no_cr). simpl. by rewrite app_nil_r.
  - rewrite <- !app_assoc, cut_prefix by (by apply has_crlf_no_cr).
    inversion Hls as [| ? ? [Hl2 Hc2] _]; subst. specialize (IH ltac:(done)).
    destruct l2 as [| c l2]; [done |]. destruct (has_crlf_cons _ _ Hc2) as (Hc13 & _ & _).
    assert (∃ m, join_crlf ((c :: l2) :: lines) ++ [13; 10; 13; 10] ++ rest = c :: m) as [m Em] by (destruct lines; simpl; eauto).
    simpl app in *. rewrite Em in *. cbn [cut_at]. unfold startswith at 1. simpl take. rewrite bool_decide_eq_false_2 by congruence.
    unfold startswith at 1. simpl take. rewrite bool_decide_eq_false_2 by congruence. cbn [cut_at] in IH. rewrite IH. done.
Qed.

Lemma split_line l b : has_crlf l = false → split_crlf (l ++ CRLF ++ b) = l :: split_crlf b.
Proof.
  induction l as [| c l IH]; intros Hc; [done |]. destruct (has_crlf_cons _ _ Hc) as (H13 & _ & Hl). specialize (IH Hl).
  rewrite <- app_comm_cons. cbn [split_crlf]. destruct (l ++ CRLF ++ b) as [| d rest] eqn:E; [by destruct l |].
  rewrite (proj2 (Z.eqb_neq c 13)) by done. cbn [andb]. by rewrite IH.
Qed.
Lemma split_last l : has_crlf l = false → split_crlf l = [l].
Proof.
  induction l as [| c l IH]; intros Hc; [done |]. destruct (has_crlf_cons _ _ Hc) as (H13 & _ & Hl). specialize (IH Hl).
  cbn [split_crlf]. destruct l as [| d rest] eqn:E; [done |].
  rewrite (proj2 (Z.eqb_neq c 13)) by done. cbn [andb]. by rewrite IH.
Qed.
Lemma split_join lines : lines ≠ [] → Forall line_ok lines → split_crlf (join_crlf lines) = lines.
Proof.
  intros Hne H. induction H as [| l lines [Hl Hc] Hls IH]; [done |].
  destruct lines as [| l2 lines]; [by apply split_last |]. cbn [join_crlf] in *. rewrite split_line, IH by done. done.
Qed.

Lemma has_crlf_app a b : has_crlf (a ++ b) = has_crlf a || has_crlf b.
Proof. unfold has_crlf. rewrite !zin_app. destruct (zin 13 a), (zin 10 a), (zin 13 b); done. Qed.

(** ** The request *)

Lemma extra_lines_spec extra_headers :
  extra_lines extra_headers =
    if existsb (λ h, has_crlf h.1 || has_crlf h.2) extra_headers then Raise ValueError
    else Ok ((λ h, h.1 ++ lit ": " ++ h.2) <$> extra_headers).
Proof.
  induction extra_headers as [| [name value] hs IH]; [done |]. cbn [extra_lines existsb fst snd]. destruct (_ || has_crlf value); [done |].
  rewrite IH. cbn [orb]. by destruct (existsb _ hs).
Qed.

Lemma int_repr_line z : has_crlf (int_repr z) = false.
Proof.
  assert (∀ f n acc, 0 ≤ n → has_crlf acc = false → has_crlf (dec_digits f n acc) = false) as Hd.
  { induction f as [| f IH]; intros n acc Hn Ha; [done |]. cbn [dec_digits]. cbv zeta.
    assert (has_crlf (48 + n mod 10 :: acc) = false) as H1.
    { pose proof (Z.mod_pos_bound n 10 ltac:(lia)). unfold has_crlf, zin in *. cbn [existsb].
      rewrite (proj2 (Z.eqb_neq 13 _)), (proj2 (Z.eqb_neq 10 _)) by lia. done. }
    destruct (n <? 10); [done |]. apply IH; [apply Z.div_pos; lia | done]. }
  unfold int_repr. rewrite has_crlf_app, Hd by (done || lia). by destruct (z <? 0).
Qed.

Lemma base_lines_ok host port path key default_port : has_crlf host = false → has_crlf path = false → has_crlf key = false →
  Forall line_ok (base_lines host port path key default_port).
Proof.
  intros Hh Hp Hk. unfold base_lines, line_ok.
  assert (has_crlf (host_header host port default_port) = false) as Hhh.
  { unfold host_header. assert (∀ b : bool, has_crlf (if b then lit "[" ++ host ++ lit "]" else host) = false) as Hb.
    { intros []; [| done]. by rewrite !has_crlf_app, Hh. }
    case_bool_decide; [apply Hb |]. by rewrite !has_crlf_app, Hb, int_repr_line. }
  repeat (constructor; [split; [done |]; rewrite ?has_crlf_app, ?Hp, ?Hhh, ?Hk; done |]). constructor.
Qed.

(** The request says what was asked and nothing else.  Header values that could
    break a line are refused; otherwise the server that reads the block finds its end
    where the request ends and, in order, the seven lines of the upgrade and one line
    per extra header. *)
Theorem ws_request_exact host port path key extra default_port :
  has_crlf host = false → has_crlf path = false → has_crlf key = false →
  match _build_handshake_request host port path key extra default_port with
  | Ok request =>
      ∃ head, cut_at END request = Some (head, []) ∧
        split_crlf head = base_lines host port path key default_port ++ ((λ h, h.1 ++ lit ": " ++ h.2) <$> extra)
  | Raise ValueError => ∃ h, h ∈ extra ∧ (has_crlf h.1 = true ∨ has_crlf h.2 = true)
  | Raise x => x = UnicodeError
  end.
Proof.
  intros Hh Hp Hk. unfold _build_handshake_request. rewrite extra_lines_spec. destruct (existsb _ extra) eqn:E; cbn [rbind].
  - apply existsb_exists in E as (h & Hin & Hc). exists h. split; [by apply list_elem_of_In |]. by apply orb_true_iff.
  - destruct (isascii _); [| done]. set (lines := base_lines host port path key default_port ++ _).
    assert (Forall line_ok lines) as Hok.
    { apply Forall_app. split; [by apply base_lines_ok |]. apply Forall_fmap, Forall_forall. intros [n v] Hin. unfold compose, line_ok. cbn [fst snd].
      assert (has_crlf n || has_crlf v = false) as [Hn Hv]%orb_false_elim.
      { apply not_true_is_false. intros Ht. assert (existsb (λ h, has_crlf h.1 || has_crlf h.2) extra = true); [| congruence].
        apply existsb_exists. exists (n, v). split; [by apply list_elem_of_In | done]. }
      split; [by destruct n |]. by rewrite !has_crlf_app, Hn, Hv. }
    exists (join_crlf lines). split; [| by apply split_join]. rewrite <- (app_nil_r (CRLF ++ CRLF)). by apply cut_lines.
Qed.

Lemma ws_request_exact_witness : has_crlf (lit "h") = false ∧
  match _build_handshake_request (lit "h") 8080 (lit "/mqtt") (lit "a2V5") [(lit "X", lit "1")] (Some 80) with
  | Ok request => ∃ head, cut_at END request = Some (head, []) ∧ length (split_crlf head) = 8%nat
  | Raise _ => False
  end.
Proof.
  split; [reflexivity |].
  pose proof (ws_request_exact (lit "h") 8080 (lit "/mqtt") (lit "a2V5") [(lit "X", lit "1")] (Some 80) eq_refl eq_refl eq_refl) as H.
  assert (is_ok (_build_handshake_request (lit "h") 8080 (lit "/mqtt") (lit "a2V5") [(lit "X", lit "1")] (Some 80)) = true) as Hok by (vm_compute; reflexivity).
  destruct (_build_handshake_request _ _ _ _ _ _) as [request | x]; [| discriminate Hok].
  destruct H as (head & Hc & Hs). exists head. split; [exact Hc | rewrite Hs; reflexivity].
Defined.

(** ** The response *)

(** A header as a server writes it: a name without colon, no white space around,
    nothing that breaks the line. *)
Definition header_ok (h : pystr * pystr) : Prop :=
  zin 58 h.1 = false ∧ strip h.1 = h.1 ∧ strip h.2 = h.2 ∧ has_crlf h.1 = false ∧ has_crlf h.2 = false.
Definition header_line (h : pystr * pystr) : bytes := h.1 ++ lit ": " ++ h.2.

(** The value of a field, names being compared without case: the last one counts. *)
Definition field (name : pystr) (hs : list (pystr * pystr)) : option pystr :=
  last (snd <$> filter (λ h, lower h.1 = name) hs).

Definition status_line (code reason : pystr) : bytes := lit "HTTP/1.1 " ++ code ++ lit " " ++ reason.

(** What the client requires of a response. *)
Definition accepted (code : pystr) (hs : list (pystr * pystr)) (key : pystr) : bool :=
  str_eq code (lit "101") && bool_decide (field (lit "sec-websocket-accept") hs = Some (accept_value key)) &&
  str_eq (lower (default [] (field (lit "upgrade") hs))) (lit "websocket") &&
  existsb (λ token, str_eq (lower (strip token)) (lit "upgrade")) (split_chr 44 (default [] (field (lit "connection") hs))) &&
  match field (lit "sec-websocket-protocol") hs with
  | None => true
  | Some p => str_eq (lower (strip p)) (lit "mqtt") || str_eq (lower (strip p)) (lit "mqttv3.1")
  end.

Lemma lstrip_space s : lstrip (32 :: s) = lstrip s.
Proof. done. Qed.

Lemma strip_space s : strip s = s → strip (32 :: s) = s.
Proof. intros H. unfold strip in *. by rewrite lstrip_space. Qed.

Lemma zin_false_Forall z l : zin z l = false → Forall (λ c, c ≠ z) l.
Proof.
  induction l as [| c l IH]; [constructor |]. unfold zin in *. cbn [existsb]. intros [H1 H2]%orb_false_elim.
  apply Z.eqb_neq in H1. constructor; [congruence | auto].
Qed.

Lemma header_line_of h : header_ok h → header_of (header_line h) = Some (lower h.1, h.2).
Proof.
  intros (Hc & H1 & H2 & _ & _). unfold header_of, header_line. rewrite cut_prefix by (by apply zin_false_Forall).
  assert (cut_at [58] (lit ": " ++ h.2) = Some ([], 32 :: h.2)) as -> by done. cbv beta iota. by rewrite app_nil_r, H1, strip_space.
Qed.

Lemma dget_headers name hs : Forall header_ok hs → ∀ d,
  dget name (parse_headers d (header_line <$> hs)) = match field name hs with Some v => Some v | None => dget name d end.
Proof.
  induction 1 as [| h hs Hh _ IH]; intros d; [done |]. cbn [fmap list_fmap parse_headers]. rewrite (header_line_of h Hh), IH.
  unfold field. rewrite filter_cons, dget_dset. destruct (decide (lower h.1 = name)) as [-> | Hne].
  - rewrite fmap_cons. destruct (snd <$> filter (λ h0 : pystr * pystr, lower h0.1 = name) hs) as [| v l]; [by rewrite decide_True |].
    rewrite last_cons_cons. destruct (last (v :: l)) eqn:E; [done | by apply last_None in E].
  - destruct (last _); [done |]. by rewrite decide_False.
Qed.

Lemma response_lines code reason hs : Forall header_ok hs → has_crlf code = false → has_crlf reason = false →
  Forall line_ok (status_line code reason :: (header_line <$> hs)).
Proof.
  intros Hh Hc Hr. constructor.
  - split; [done |]. unfold status_line. by rewrite !has_crlf_app, Hc, Hr.
  - apply Forall_fmap. eapply Forall_impl; [exact Hh |]. intros h (_ & _ & _ & H1 & H2). unfold compose, header_line. split; [by destruct h as [[|] ?] |].
    by rewrite !has_crlf_app, H1, H2.
Qed.

Lemma validate_spec code reason hs key : Forall header_ok hs → zin 32 code = false → has_crlf code = false → has_crlf reason = false →
  Forall (λ c, c < 128) code →
  _validate_handshake_response (join_crlf (status_line code reason :: (header_line <$> hs))) key =
    if accepted code hs key then Ok tt else Raise ConnectionError.
Proof.
  intros Hh Hsp Hcc Hcr Hasc. unfold _validate_handshake_response.
  rewrite split_join; [| done |].
  2:{ by apply response_lines. }
  cbn [tail]. unfold _parse_http_headers.
  change (default [] ((status_line code reason :: (header_line <$> hs)) !! 0%nat)) with (status_line code reason).
  assert (∃ r, split_max 32 2 (ascii_replace (status_line code reason)) = [lit "HTTP/1.1"; code; r]) as [r ->].
  { unfold status_line, ascii_replace. rewrite !fmap_app.
    assert ((λ c, if c <? 128 then c else 0xFFFD) <$> code = code) as ->.
    { clear -Hasc. induction Hasc as [| c code Hc _ IH]; [done |]. cbn [fmap list_fmap]. rewrite (proj2 (Z.ltb_lt _ _)) by done. f_equal. exact IH. }
    change ((λ c, if c <? 128 then c else 65533) <$> lit "HTTP/1.1 ") with (lit "HTTP/1.1" ++ [32]).
    change ((λ c, if c <? 128 then c else 65533) <$> lit " ") with [32]. rewrite <- !app_assoc.
    repeat change ([32] ++ ?x) with (32 :: x). eexists. rewrite split_max_S by done. by rewrite split_max_S by done. }
  unfold accepted, str_eq. rewrite !dget_headers by done. cbn [dget].
  destruct (bool_decide (code = lit "101")); cbn [negb andb]; [| done].
  assert (∀ n, match field n hs with Some v => Some v | None => None end = field n hs) as E by (intros n; by destruct (field n hs)).
  rewrite !E. destruct (bool_decide (field _ hs = _)); cbn [negb andb]; [| done].
  destruct (bool_decide (lower (default [] (field (lit "upgrade") hs)) = _)); cbn [negb andb]; [| done].
  set (ts := split_chr 44 _).
  assert (bool_decide (lit "upgrade" ∈ (λ t, lower (strip t)) <$> filter (λ t, strip t ≠ []) ts) =
          existsb (λ token, bool_decide (lower (strip token) = lit "upgrade")) ts) as ->.
  { apply eq_true_iff_eq. rewrite bool_decide_eq_true, existsb_exists, list_elem_of_fmap. split.
    - intros (t & Ht & [_ Hin]%list_elem_of_filter). exists t. rewrite <- list_elem_of_In, bool_decide_eq_true. by split.
    - intros (t & Hin%list_elem_of_In & Ht%bool_decide_eq_true). exists t. split; [done |]. apply list_elem_of_filter. split; [| done].
      intros Hn. by rewrite Hn in Ht. }
  destruct (existsb _ ts); cbn [negb andb]; [| done]. clearbody ts. destruct (field (lit "sec-websocket-protocol") hs) as [p |]; [| done].
  assert (bool_decide (lower (strip p) ∈ [lit "mqtt"; lit "mqttv3.1"]) =
    bool_decide (lower (strip p) = lit "mqtt") || bool_decide (lower (strip p) = lit "mqttv3.1")) as ->; [| by destruct (_ || _)].
  apply eq_true_iff_eq. rewrite orb_true_iff, !bool_decide_eq_true. rewrite !elem_of_cons, elem_of_nil. tauto.
Qed.

(** ** Reading the response from the stream *)

Lemma cut_app sep b h r : cut_at sep b = Some (h, r) → b = h ++ sep ++ r.
Proof.
  revert h r. induction b as [| c b IH]; intros h r; cbn [cut_at].
  - destruct (startswith [] sep) eqn:E; [| done]. apply startswith_spec in E as [k Ek]. symmetry in Ek. apply app_eq_nil in Ek as [-> _].
    by intros [= <- <-].
  - destruct (startswith (c :: b) sep) eqn:E.
    + intros [= <- <-]. apply startswith_spec in E as [k Ek]. rewrite Ek. by rewrite drop_app_length.
    + destruct (cut_at sep b) as [[h' r'] |] eqn:Ec; [| done]. intros [= <- <-]. cbn [app]. f_equal. by apply IH.
Qed.

(** What follows does not move the first end of a block. *)
Lemma cut_more sep b more h r : cut_at sep b = Some (h, r) → cut_at sep (b ++ more) = Some (h, r ++ more).
Proof.
  revert h r. induction b as [| c b IH]; intros h r Hc.
  - pose proof (cut_app _ _ _ _ Hc) as E. symmetry in E. apply app_eq_nil in E as [-> E]. apply app_eq_nil in E as [-> ->]. simpl. by destruct more.
  - pose proof (cut_app _ _ _ _ Hc) as E. cbn [cut_at app] in *.
    assert (startswith (c :: b ++ more) sep = startswith (c :: b) sep) as Hs.
    { unfold startswith. assert (take (length sep) (c :: b ++ more) = take (length sep) (c :: b)) as ->; [| done].
      rewrite app_comm_cons. apply take_app_le. rewrite E, !length_app. lia. }
    rewrite Hs. destruct (startswith (c :: b) sep).
    + injection Hc as <- <-. f_equal. f_equal. rewrite app_comm_cons. apply drop_app_le. rewrite E, !length_app. simpl. lia.
    + destruct (cut_at sep b) as [[h' r'] |]; [| done]. injection Hc as <- <-. by rewrite (IH h' r').
Qed.

Section response.
Context (lines : list bytes) (after : bytes) (Hlines : lines ≠ []) (Hok : Forall line_ok lines).
Context (Hsize : len (join_crlf lines) + 4 + 4096 ≤ _MAX_HANDSHAKE_BYTES).

(** A beginning of the stream shows the whole response or is shorter than it. *)
Lemma cut_of_prefix b more : b ++ more = join_crlf lines ++ END ++ after →
  (len b < len (join_crlf lines) + 4 ∧ cut_at END b = None) ∨ (∃ r, r ++ more = after ∧ cut_at END b = Some (join_crlf lines, r)).
Proof using Hlines Hok.
  intros E. pose proof (cut_lines lines after Hlines Hok) as Hc. rewrite <- E in Hc.
  destruct (cut_at END b) as [[h r] |] eqn:Ec.
  - rewrite (cut_more _ _ more _ _ Ec) in Hc. injection Hc as -> Hr. right. by exists r.
  - left. split; [| done]. apply Z.nle_gt. intros Hge. assert (∃ k, b = join_crlf lines ++ END ++ k) as [k ->].
    { exists (drop (length (join_crlf lines ++ END)) b). rewrite app_assoc in E |- *.
      rewrite <- (take_drop (length (join_crlf lines ++ END)) b) at 1. f_equal.
      assert (length (join_crlf lines ++ END) ≤ length b)%nat as Hl by (unfold len in Hge; rewrite length_app; simpl; lia).
      apply (f_equal (take (length (join_crlf lines ++ END)))) in E. rewrite take_app_length in E. by rewrite take_app_le in E. }
    by rewrite cut_lines in Ec.
Qed.

Lemma read_response_runs fuel buffer chunks (w : Writer) :
  buffer ++ concat chunks = join_crlf lines ++ END ++ after → Forall (λ c, c ≠ [] ∧ len c ≤ 4096) chunks → (length chunks < fuel)%nat →
  ∃ leftover chunks', runs (read_response fuel buffer) w chunks = (w, Finished (Ok (join_crlf lines, leftover)), chunks') ∧
    leftover ++ concat chunks' = after ∧ Forall (λ c, c ≠ [] ∧ len c ≤ 4096) chunks'.
Proof using Hlines Hok Hsize.
  revert buffer chunks. induction fuel as [| fuel IH]; intros buffer chunks E Hc Hf; [lia |]. cbn [read_response].
  destruct (cut_of_prefix _ _ E) as [[Hlt Hn] | (r & Hr & Hcut)].
  - change (CRLF ++ CRLF) with END. rewrite Hn, runs_abind. destruct chunks as [| chunk chunks].
    { exfalso. rewrite app_nil_r in E. subst buffer. by rewrite cut_lines in Hn. }
    apply Forall_cons in Hc as [[Hne H4096] Hc]. destruct chunk as [| b chunk]; [done |].
    change (runs (await (ReadChunk 4096)) w ((b :: chunk) :: chunks)) with (w, @Finished answer (Ok (Chunk (b :: chunk))), chunks). cbn [then_].
    rewrite Z.gtb_ltb, (proj2 (Z.ltb_ge _ _)) by (rewrite len_app; lia).
    apply IH; [| done | simpl in Hf; lia]. rewrite <- E. cbn [concat]. by rewrite <- app_assoc.
  - change (CRLF ++ CRLF) with END. rewrite Hcut. by exists r, chunks.
Qed.
End response.

(** Closing after a failure: the stream is closed, whatever its end is. *)
Lemma close_runs fuel w chunks x : ∃ w' (p : played bytes) chunks',
  runs (close_stream_writer fuel;; throw x) w chunks = (w', p, chunks') ∧ written w' = written w ∧ w_closing w' = true ∧ ∀ l, p ≠ Finished (Ok l).
Proof.
  unfold close_stream_writer. rewrite !runs_bind, runs_put. cbn [then_]. rewrite runs_abind.
  destruct fuel as [| fuel]; cbn [close_loop]; [rewrite runs_throw; cbn [then_]; by eexists _, _, _ |].
  rewrite runs_abind, runs_get. cbn [then_]. unfold on_wr, wr, set_wr. cbn [writer_has_writer]. 
  destruct (closed (close_writer w)) as [r |] eqn:Ec.
  - rewrite runs_ret. cbn [then_]. rewrite runs_abind, runs_get. cbn [then_]. rewrite runs_bind, Ec.
    destruct r as [u | []]; rewrite ?runs_ret, ?runs_put, ?runs_throw; cbn [then_]; rewrite ?runs_ret; cbn [then_]; rewrite ?runs_throw;
      eexists _, _, _; split_and!; done.
  - cbn. by eexists _, _, _.
Qed.

(** C32: connecting agrees with the server and loses no byte.  A server answers with a
    status line and headers, in any case and order, repeated or not, and goes on with
    the bytes of its first frames; TCP cuts all of it anywhere.  The handshake
    succeeds exactly when the status is 101, the accept value is the one derived from
    the key, the upgrade is agreed and the subprotocol, if any, is MQTT's; what it
    returns and what is still to come are then exactly the bytes after the response.
    Otherwise it fails and the stream is closed. *)
Theorem ws_connect code reason hs after chunks request key w fuel :
  Forall header_ok hs → zin 32 code = false → has_crlf code = false → has_crlf reason = false → Forall (λ c, c < 128) code →
  let lines := status_line code reason :: (header_line <$> hs) in
  len (join_crlf lines) + 4 + 4096 ≤ _MAX_HANDSHAKE_BYTES →
  concat chunks = join_crlf lines ++ END ++ after → Forall (λ c, c ≠ [] ∧ len c ≤ 4096) chunks → (length chunks < fuel)%nat → w_lost w = false →
  ∃ w' p chunks', runs (exchange fuel request key) w chunks = (w', p, chunks') ∧ written w' = written w ++ request ∧
    if accepted code hs key then ∃ leftover, p = Finished (Ok leftover) ∧ leftover ++ concat chunks' = after ∧ w_closing w' = w_closing w
    else w_closing w' = true ∧ ∀ leftover, p ≠ Finished (Ok leftover).
Proof.
  intros Hh Hsp Hcc Hcr Hasc lines Hsize Hcat Hne Hfuel Hl.
  assert (Forall line_ok lines) as Hlines by (by apply response_lines).
  destruct (read_response_runs lines after ltac:(done) Hlines Hsize fuel [] chunks (write_bytes request w) Hcat Hne Hfuel) as
    (leftover & chunks' & Hr & Hrest & _).
  destruct (write_bytes_open request w Hl) as (Hw & Hcl & Hlo).
  unfold exchange. rewrite runs_try, runs_bind, runs_put. cbn [then_]. rewrite runs_bind.
  change (runs stream_drain ?s ?c) with (s, @Finished unit (Ok tt), c). cbn [then_]. rewrite runs_abind. unfold _read_handshake_response, on_wr. cbn [set_wr wr writer_has_writer].
  rewrite Hr. cbn [then_]. unfold lines. rewrite runs_bind, runs_of_res, validate_spec by done. destruct (accepted code hs key); cbn [then_].
  - rewrite runs_ret. eexists _, _, _. split_and!; [done | done |]. exists leftover. split_and!; [done | done | by rewrite Hcl].
  - destruct (close_runs fuel (write_bytes request w) chunks' ConnectionError) as (w' & p & chunks'' & Hrun & Hw' & Hc' & Hp).
    rewrite Hrun. exists w', p, chunks''. split_and!; [done | congruence | done |]. intros l ->. by destruct (Hp l).
Qed.

Definition demo_key : pystr := lit "dGhlIHNhbXBsZSBub25jZQ==".
Definition demo_headers : list (pystr * pystr) :=
  [(lit "upgrade", lit "WebSocket"); (lit "Connection", lit "keep-alive, Upgrade");
   (lit "Sec-WebSocket-Accept", lit "s3pPLMBiTxaQ9kYGzzhZRbK+xOo="); (lit "sec-websocket-protocol", lit "mqtt")].
Definition demo_lines : list bytes := status_line (lit "101") (lit "Switching Protocols") :: (header_line <$> demo_headers).
(** The response and the first frame, cut inside the end of the block. *)
Definition demo_response : list bytes := [join_crlf demo_lines ++ [13; 10; 13]; [10; 0x82; 1]; [7]].

Lemma ws_connect_witness : accepted (lit "101") demo_headers demo_key = true ∧
  ∃ w' chunks' leftover, runs (exchange 10 [1; 2; 3] demo_key) (new_writer []) demo_response = (w', Finished (Ok leftover), chunks') ∧
    leftover ++ concat chunks' = [0x82; 1; 7] ∧ written w' = [1; 2; 3].
Proof.
  assert (accepted (lit "101") demo_headers demo_key = true) as Ha by (vm_compute; reflexivity). split; [exact Ha |].
  assert (Forall header_ok demo_headers) as Hh by (repeat (constructor; [repeat split; vm_compute; reflexivity |]); constructor).
  assert (Forall (λ c, c < 128) (lit "101")) as Hc by (vm_compute; repeat (constructor; [reflexivity |]); constructor).
  destruct (ws_connect (lit "101") (lit "Switching Protocols") demo_headers [0x82; 1; 7] demo_response [1; 2; 3] demo_key (new_writer []) 10 Hh
    eq_refl eq_refl eq_refl Hc) as (w' & p & chunks' & Hr & Hw & Ho).
  - vm_compute. discriminate.
  - vm_compute. reflexivity.
  - repeat (constructor; [split; [discriminate | vm_compute; discriminate] |]). constructor.
  - vm_compute. lia.
  - reflexivity.
  - rewrite Ha in Ho. destruct Ho as (leftover & -> & Hrest & _). exists w', chunks', leftover. split_and!; [exact Hr | exact Hrest | exact Hw].
Defined.
