(* ===== verification/Push.v ===== *)
(** * Receiving into the decoder

    [transport/_push.py]: the receive callback of the event loop writes into the
    decoder's slab, pauses the socket when the reader falls behind, and wakes the
    reader; [receive] is the reader's side. *)

From S2P Require Import Prelude Frame Buffer Async Stream.

Definition _HIGH_WATER : Z := 192 * 1024.
Definition _LOW_WATER : Z := 64 * 1024.

(** The future a suspended [receive] waits for. *)
Inductive future := Pending | Resolved.

(** The protocol object, the reader's counters of [PushStreamTransport], what
    asyncio keeps of the socket ([t_reading], [t_closing]), and the decoder, which the
    client shares with it.  [_sink] is whether the decoder is attached. *)
Record PushStreamTransport := mkPush {
  _sink : bool; _read_transport : bool; _waiter : option future; _received : Z; _received_bytes : Z; _pauses : Z; _resumes : Z;
  _eof : bool; _exception : option exn; _paused_reading : bool; _seen : Z; _resumptions : Z; _waits : Z;
  t_reading : bool; t_closing : bool; decoder : IncrementalDecoder }.

Implicit Types (p : PushStreamTransport).

Definition push_init (d : IncrementalDecoder) : PushStreamTransport :=
  mkPush false false None 0 0 0 0 false None false 0 0 0 true false d.

Definition set_sink (b : bool) p :=
  mkPush b (_read_transport p) (_waiter p) (_received p) (_received_bytes p) (_pauses p) (_resumes p) (_eof p) (_exception p)
    (_paused_reading p) (_seen p) (_resumptions p) (_waits p) (t_reading p) (t_closing p) (decoder p).
Definition set_transport (b : bool) p :=
  mkPush (_sink p) b (_waiter p) (_received p) (_received_bytes p) (_pauses p) (_resumes p) (_eof p) (_exception p)
    (_paused_reading p) (_seen p) (_resumptions p) (_waits p) (t_reading p) (t_closing p) (decoder p).
Definition set_waiter (w : option future) p :=
  mkPush (_sink p) (_read_transport p) w (_received p) (_received_bytes p) (_pauses p) (_resumes p) (_eof p) (_exception p)
    (_paused_reading p) (_seen p) (_resumptions p) (_waits p) (t_reading p) (t_closing p) (decoder p).
Definition count_received (n : Z) p :=
  mkPush (_sink p) (_read_transport p) (_waiter p) (_received p + 1) (_received_bytes p + n) (_pauses p) (_resumes p) (_eof p)
    (_exception p) (_paused_reading p) (_seen p) (_resumptions p) (_waits p) (t_reading p) (t_closing p) (decoder p).
Definition set_end (x : option exn) p :=
  mkPush (_sink p) (_read_transport p) (_waiter p) (_received p) (_received_bytes p) (_pauses p) (_resumes p) true x
    (_paused_reading p) (_seen p) (_resumptions p) (_waits p) (t_reading p) (t_closing p) (decoder p).
(** [transport.pause_reading()] and [resume_reading()] with the flag that mirrors
    them. *)
Definition pause p :=
  mkPush (_sink p) (_read_transport p) (_waiter p) (_received p) (_received_bytes p) (_pauses p) (_resumes p) (_eof p) (_exception p)
    true (_seen p) (_resumptions p) (_waits p) false (t_closing p) (decoder p).
Definition resume p :=
  mkPush (_sink p) (_read_transport p) (_waiter p) (_received p) (_received_bytes p) (_pauses p) (_resumes p) (_eof p) (_exception p)
    false (_seen p) (_resumptions p) (_waits p) true (t_closing p) (decoder p).
Definition count_switch (pauses resumes : Z) p :=
  mkPush (_sink p) (_read_transport p) (_waiter p) (_received p) (_received_bytes p) (_pauses p + pauses) (_resumes p + resumes) (_eof p)
    (_exception p) (_paused_reading p) (_seen p) (_resumptions p) (_waits p) (t_reading p) (t_closing p) (decoder p).
Definition set_seen (seen resumptions waits : Z) p :=
  mkPush (_sink p) (_read_transport p) (_waiter p) (_received p) (_received_bytes p) (_pauses p) (_resumes p) (_eof p) (_exception p)
    (_paused_reading p) seen resumptions waits (t_reading p) (t_closing p) (decoder p).
Definition set_closing (b : bool) p :=
  mkPush (_sink p) (_read_transport p) (_waiter p) (_received p) (_received_bytes p) (_pauses p) (_resumes p) (_eof p) (_exception p)
    (_paused_reading p) (_seen p) (_resumptions p) (_waits p) (t_reading p) b (decoder p).
Definition set_decoder (d : IncrementalDecoder) p :=
  mkPush (_sink p) (_read_transport p) (_waiter p) (_received p) (_received_bytes p) (_pauses p) (_resumes p) (_eof p) (_exception p)
    (_paused_reading p) (_seen p) (_resumptions p) (_waits p) (t_reading p) (t_closing p) d.

(** ** The protocol *)

Definition _wake p : PushStreamTransport := match _waiter p with Some Pending => set_waiter (Some Resolved) p | _ => p end.

Definition connection_made p : PushStreamTransport := pause (set_transport true p).

Definition resume_if_drained p : res PushStreamTransport :=
  if _paused_reading p && _sink p && _read_transport p && negb (t_closing p) then
    let! go := (if buffered (decoder p) <=? _LOW_WATER then Ok true
                else let! ready := head_frame_ready (decoder p) in Ok (negb ready)) in
    Ok (if go : bool then count_switch 0 1 (resume p) else p)
  else Ok p.

Definition attach p : res PushStreamTransport := resume_if_drained (set_sink true p).

Definition detach p : PushStreamTransport :=
  let p := set_sink false p in
  if negb (_paused_reading p) && _read_transport p && negb (t_closing p) then pause p else p.

Definition eof_received p : PushStreamTransport := _wake (set_end (_exception p) p).

Definition connection_lost (x : option exn) p : PushStreamTransport :=
  _wake (set_end (match x with Some _ => x | None => _exception p end) p).

(** The window handed to the socket; [None] is the scratch space. *)
Definition get_buffer p : res (PushStreamTransport * option (Z * Z)) :=
  if negb (_sink p) then Ok (p, None)
  else let! '(d, w) := writable_window (decoder p) _MIN_WINDOW in Ok (set_decoder d p, Some w).

Definition buffer_updated (nbytes : Z) p : res PushStreamTransport :=
  if nbytes <=? 0 then Ok p
  else if negb (_sink p) then Ok p
  else
    let! d := commit (decoder p) nbytes in
    let p := count_received nbytes (set_decoder d p) in
    let! too_much :=
      (if negb (_paused_reading p) && _read_transport p && (buffered d >? _HIGH_WATER) then head_frame_ready d else Ok false) in
    Ok (_wake (if too_much : bool then count_switch 1 0 (pause p) else p)).

(** What the event loop does when the socket has bytes: it asks for a buffer, the
    kernel writes at most that many bytes into it, and the protocol is told. *)
Definition socket_readable (data : bytes) p : res PushStreamTransport :=
  let! '(p, w) := get_buffer p in
  match w with
  | None => buffer_updated (len data) p
  | Some (lo, hi) =>
      let data := take (Z.to_nat (hi - lo)) data in
      let d := decoder p in
      buffer_updated (len data) (set_decoder (set_slab d (blit (_buf d) lo data) (_start d) (_end d) (_capacity d)) p)
  end.

(** ** The reader *)

Abbreviation co := (async event answer PushStreamTransport).

Definition modify (f : PushStreamTransport → res PushStreamTransport) : co unit := λ p,
  match f p with Ok p => (p, Fin (Ok tt)) | Raise x => (p, Fin (Raise x)) end.

Definition wait_for_data : co unit :=
  waiter ⇐ get _waiter;
  if match waiter with Some _ => true | None => false end then throw RuntimeError
  else
    put (set_waiter (Some Pending));;
    finally_ (_ ← await WaitData; mret tt) (set_waiter None).

Definition raise_exception : co unit :=
  x ⇐ get _exception;
  match x with Some x => throw x | None => mret tt end.

(** The loop of [receive]: a wakeup ends it, so the fuel is two. *)
Fixpoint receive_loop (fuel : nat) : co bool :=
  match fuel with
  | O => throw RuntimeError
  | S fuel =>
      p ⇐ get id;
      if _received p =? _seen p then
        if _eof p then mret false
        else
          put (λ p, set_seen (_seen p) (_resumptions p) (_waits p + 1) p);;
          wait_for_data;;
          raise_exception;;
          receive_loop fuel
      else
        put (λ p, set_seen (_received p) (_resumptions p + 1) (_waits p) p);;
        mret true
  end.

Definition receive : co bool :=
  modify resume_if_drained;;
  raise_exception;;
  receive_loop 2.

Definition attach_decoder (p : PushStreamTransport) : res PushStreamTransport := attach p.

(** [close]: the protocol lets go of the decoder before the stream closes. *)
Definition close p : PushStreamTransport := set_closing true (detach p).

Definition buffered_read_bytes p : Z := if _sink p then buffered (decoder p) else 0.
