(* ===== verification/PushTheorems.v ===== *)
(** * The receive path does not stall

    The reader, the receive callback and the end of the connection in any order: no
    wakeup is lost, the socket is never left paused over an incomplete frame, what
    the decoder holds is bounded, and the packets are those of the bytes. *)

From S2P Require Import Prelude Vbi Primitives Enums Frame Buffer Async Stream Push.

Implicit Types (p : PushStreamTransport) (d : IncrementalDecoder).

(** ** The decoder, as the protocol sees it *)

(** The windows a decoder offers are at most a receive quantum. *)
Definition tame d : Prop := _target_window d ∈ [_INITIAL_WINDOW; 2 * _INITIAL_WINDOW; RECEIVE_QUANTUM].

Lemma tame_same d d' : _target_window d' = _target_window d → tame d → tame d'.
Proof. unfold tame. by intros ->. Qed.

Lemma ensure_target d need exact : _target_window (_ensure d need exact) = _target_window d.
Proof. unfold _ensure. repeat case_if; done. Qed.

Lemma retire_target d : _target_window (_retire_oversize d) = _target_window d.
Proof. unfold _retire_oversize. repeat case_if; done. Qed.

Lemma window_tame d preferred d' lo hi : tame d → preferred ≤ RECEIVE_QUANTUM → writable_window d preferred = Ok (d', (lo, hi)) →
  tame d' ∧ hi - lo ≤ RECEIVE_QUANTUM.
Proof.
  intros Ht Hp. unfold writable_window. cbv zeta. intros H. res_inv.
  match type of Hv with (if _ then _ else Ok (?w, None)) = _ => set (want := w) in * end.
  assert (want ≤ RECEIVE_QUANTUM) as Hw.
  { unfold want. unfold tame in Ht. rewrite Z.gtb_ltb. case_if; bools; [lia |].
    repeat (apply elem_of_cons in Ht as [-> | Ht]; [unfold _INITIAL_WINDOW, RECEIVE_QUANTUM, DEFAULT_CAPACITY; lia |]). by apply not_elem_of_nil in Ht. }
  match goal with H : Ok _ = Ok _ |- _ => injection H as <- <- <- | _ => idtac end.
  assert (z ≤ want) as Hz.
  { revert Hv. case_if; [| by intros [= <- _]]. destruct (_known_frame_total d) as [[t |] |]; cbn [rbind]; [| by intros [= <- _] | done].
    case_if; intros [= <- _]; bools; lia. }
  split; [eapply tame_same; [| exact Ht]; apply ensure_target |].
  simpl. rewrite Z.gtb_ltb. case_if; bools; lia.
Qed.

Lemma commit_tame d n d' : tame d → commit d n = Ok d' → tame d'.
Proof.
  unfold commit. intros Ht. case_if; [by intros [= <-] |]. case_if; [done |]. intros [= <-]. unfold tame in *.
  destruct (n =? _offered d); cbn [andb]; [| exact Ht]. destruct (_target_window d <? RECEIVE_QUANTUM) eqn:Et; [| exact Ht].
  destruct (_full_fills d + 1 >=? _PROMOTE_AFTER); [| exact Ht]. simpl in *. bools.
  repeat (apply elem_of_cons in Ht as [Ht | Ht]; [rewrite Ht in *; first [by vm_compute in Et | vm_compute; set_solver] |]). by apply not_elem_of_nil in Ht.
Qed.

Lemma next_packet_tame d r d' : tame d → next_packet d = Ok (r, d') → tame d'.
Proof.
  intros Ht H. eapply tame_same; [| exact Ht]. revert H. unfold next_packet. cbv zeta. intros H.
  repeat match type of H with
  | (if ?c then Ok (None, _) else _) = _ => destruct c; [by injection H as <- <- |]
  end.
  res_inv. destruct v0 as [[rl e] |]; [| by injection H as <- <-]. res_inv.
  match type of H with (if ?c then _ else _) = _ => destruct c; [by injection H as <- <- |] end. res_inv.
  repeat case_if; rewrite ?retire_target; done.
Qed.

(** Whether a packet, or an error, is at the head of the queue. *)
Definition ready d : Prop := frame_next (_max_packet_size d) (live d) ≠ Ok None.

Lemma frame_next_raises max q x : bytes_ok q → frame_next max q = Raise x →
  x = MalformedPacketError ∨ x = PacketTooLargeError.
Proof.
  intros Hb. unfold frame_next. destruct (len q <? 2) eqn:E2; [done |]. bools. destruct (idx_Ok q 0) as (h & -> & Hh); [lia |]. cbn [rbind].
  destruct (decode_vbi q 1 None) as [[rl e] | y] eqn:Ev; cbn [rbind].
  - destruct (_ >? max); [intros [= <-]; by right |]. destruct (_ <? _); [done |].
    destruct (PacketType_from_byte h) as [t | y] eqn:Et; cbn [rbind]; [done |]. intros [= <-]. left.
    eapply from_byte_raises; [| exact Et]. rewrite Forall_forall in Hb. by apply Hb.
  - apply (decode_vbi_raises q 1 None) in Ev as ->; [| done | lia | simpl; lia].
    destruct (len q >=? 5); [intros [= <-]; by left |]. cbn [rbind]. destruct (all_continuation _ _ _); [done |]. intros [= <-]. by left.
Qed.

Lemma head_ready_spec d : slab d → ∃ b : bool, head_frame_ready d = Ok b ∧ (b = true ↔ ready d).
Proof.
  intros Hs. pose proof (peek_spec d Hs) as Hp. unfold head_frame_ready, ready.
  destruct (frame_next _ _) as [[[p rest] |] | x] eqn:E.
  - destruct Hp as (h & bs & be & -> & _). by exists true.
  - rewrite Hp. by exists false.
  - destruct Hp as [-> | (h & bs & be & -> & _)]; [| by exists true].
    apply frame_next_raises in E as [-> | ->]; [by exists true.. | by apply live_bytes].
Qed.

(** What is short of a packet is short. *)
Lemma not_ready_small d : slab d → ¬ ready d → buffered d < Z.max 5 (_max_packet_size d).
Proof.
  intros Hs Hn. unfold buffered. rewrite <- len_live by done.
  assert (frame_next (_max_packet_size d) (live d) = Ok None) as E.
  { unfold ready in Hn. destruct (frame_next _ _) as [[[? ?] |] | ?] eqn:E; [| done |]; exfalso; by apply Hn. }
  revert E. unfold frame_next. destruct (len (live d) <? 2) eqn:E2; bools; [lia |].
  destruct (idx_Ok (live d) 0) as (h & -> & _); [lia |]. cbn [rbind].
  destruct (decode_vbi (live d) 1 None) as [[rl e] | y] eqn:Ev; cbn [rbind].
  - rewrite Z.gtb_ltb. case_if; [done |]. bools. case_if; bools; [lia |]. by destruct (PacketType_from_byte h).
  - destruct y; try done. rewrite Z.geb_leb. case_if; bools; [done | lia].
Qed.

(** ** One receive *)

(** The suspended [receive]; what it does when it goes on depends only on the state
    then. *)
Definition asleep : out event answer PushStreamTransport bool :=
  (receive (mkPush false true None 0 0 0 0 false None false 0 0 0 true false (mkDecoder [] 0 0 0 0 0 false 0 0 0 0 0))).2.

(** Going on after a wakeup. *)
Definition woken p : res bool * PushStreamTransport :=
  let p := set_waiter None p in
  match _exception p with
  | Some x => (Raise x, p)
  | None =>
      if _received p =? _seen p then (if _eof p then (Ok false, p) else (Raise RuntimeError, p))
      else (Ok true, set_seen (_received p) (_resumptions p + 1) (_waits p) p)
  end.

(** [receive] in one of its four ends, the last of which is to sleep. *)
Lemma receive_cases p p1 : resume_if_drained p = Ok p1 → _waiter p1 = None →
  receive p =
    match _exception p1 with
    | Some x => (p1, Fin (Raise x))
    | None =>
        if _received p1 =? _seen p1 then
          if _eof p1 then (p1, Fin (Ok false))
          else (set_waiter (Some Pending) (set_seen (_seen p1) (_resumptions p1) (_waits p1 + 1) p1), asleep)
        else (set_seen (_received p1) (_resumptions p1 + 1) (_waits p1) p1, Fin (Ok true))
    end.
Proof.
  intros H Hw. unfold receive, modify, mbind, async_bind. rewrite H. cbn [bind_out]. unfold raise_exception, abind, mbind, async_bind, get.
  cbn [bind_out]. destruct (_exception p1) as [x |] eqn:Ex; [done |]. cbn [mret async_ret bind_out receive_loop].
  unfold abind, mbind, async_bind, get. cbn [bind_out id]. destruct (_received p1 =? _seen p1) eqn:Er; [| done].
  destruct (_eof p1) eqn:Ee; [done |]. unfold put. cbn [bind_out]. unfold wait_for_data, abind, mbind, async_bind, get. cbn [bind_out _waiter set_seen].
  rewrite Hw. reflexivity.
Qed.

(** Waking up: [receive] ends without another wait. *)
Lemma wake_cases p (k : res answer → PushStreamTransport → PushStreamTransport * out event answer PushStreamTransport bool) :
  asleep = Susp WaitData k → (_received p = _seen p → _eof p = false → False) →
  k (Ok Done) p = ((woken p).2, Fin (woken p).1).
Proof.
  intros [= <-] Hne. unfold woken. unfold raise_exception, abind, mbind, async_bind, get, put, mret, async_ret, throw.
  cbn [bind_out catch_out _exception set_waiter]. destruct (_exception p) as [x |]; [done |].
  cbn [bind_out id _received _seen _eof set_waiter]. destruct (_received p =? _seen p) eqn:E.
  - apply Z.eqb_eq in E. destruct (_eof p) eqn:Ee; [done | exfalso; by apply Hne].
  - done.
Qed.
Lemma cancel_cases p (k : res answer → PushStreamTransport → PushStreamTransport * out event answer PushStreamTransport bool) x :
  asleep = Susp WaitData k → k (Raise x) p = (set_waiter None p, Fin (Raise x)).
Proof. intros [= <-]. done. Qed.

(** ** The connection *)

(** [reader] is [receive] while the reader is inside it; [arrived] and [taken] are
    what went into the decoder and what the reader took out. *)
Record Conn := mkConn {
  push : PushStreamTransport; reader : option (out event answer PushStreamTransport bool); arrived : list bytes; taken : list RawPacket }.
Implicit Types (c : Conn).

(** What the socket puts into the decoder: nothing into the scratch space. *)
Definition accepted (data : bytes) p : list bytes :=
  match get_buffer p with Ok (_, Some (lo, hi)) => [take (Z.to_nat (hi - lo)) data] | _ => [] end.

(** A [receive] that has ended leaves the reader free. *)
Definition after (r : PushStreamTransport * out event answer PushStreamTransport bool) c : Conn :=
  mkConn r.1 (match r.2 with Fin _ => None | o => Some o end) (arrived c) (taken c).
Definition on_push p c : Conn := mkConn p (reader c) (arrived c) (taken c).

(** What can happen: the socket is readable while it is read, the peer ends or the
    connection is lost, the client attaches the decoder, asks for more, takes a packet
    (it is then not in [receive]), is woken or cancelled, or closes. *)
Inductive step : Conn → Conn → Prop :=
  | s_readable c data p : t_reading (push c) = true → t_closing (push c) = false → _eof (push c) = false → data ≠ [] → bytes_ok data →
      socket_readable data (push c) = Ok p → step c (mkConn p (reader c) (arrived c ++ accepted data (push c)) (taken c))
  | s_eof c : step c (on_push (eof_received (push c)) c)
  | s_lost c x : step c (on_push (connection_lost x (push c)) c)
  | s_attach c p : t_closing (push c) = false → attach (push c) = Ok p → step c (on_push p c)
  | s_close c : step c (on_push (close (push c)) c)
  | s_receive c : reader c = None → step c (after (receive (push c)) c)
  | s_wake c k : reader c = Some (Susp WaitData k) → _waiter (push c) = Some Resolved → step c (after (k (Ok Done) (push c)) c)
  | s_cancel c k : reader c = Some (Susp WaitData k) → step c (after (k (Raise CancelledError) (push c)) c)
  | s_take c packet d : reader c = None → next_packet (decoder (push c)) = Ok (Some packet, d) →
      step c (mkConn (set_decoder d (push c)) None (arrived c) (taken c ++ [packet])).

Inductive reachable (d : IncrementalDecoder) : Conn → Prop :=
  | reach_made : reachable d (mkConn (connection_made (push_init d)) None [] [])
  | reach_step c c' : reachable d c → step c c' → reachable d c'.

Section invariant.
Context (max : Z) (d0 : IncrementalDecoder) (Hd0 : decoder_init max = Ok d0).

Definition LIMIT : Z := Z.max _HIGH_WATER (Z.max 5 max).

(** Reading stops only for the reader's sake. *)
Record PInv c : Prop := {
  i_slab : slab (decoder (push c));
  i_tame : tame (decoder (push c));
  i_max : _max_packet_size (decoder (push c)) = max;
  i_session : session d0 (arrived c) (taken c) (Ok (decoder (push c)));
  i_bytes : Forall bytes_ok (arrived c);
  i_made : _read_transport (push c) = true;
  i_mirror : t_reading (push c) = negb (_paused_reading (push c));
  i_detached : _sink (push c) = false → t_closing (push c) = false → _paused_reading (push c) = true;
  i_free : reader c = None → _waiter (push c) = None;
  i_asleep : reader c ≠ None → reader c = Some asleep ∧ _waiter (push c) ≠ None;
  i_pending : _waiter (push c) = Some Pending → _received (push c) = _seen (push c) ∧ _eof (push c) = false ∧ _exception (push c) = None;
  i_resolved : _waiter (push c) = Some Resolved → _received (push c) ≠ _seen (push c) ∨ _eof (push c) = true;
  i_behind : _seen (push c) ≤ _received (push c);
  i_failed : _exception (push c) ≠ None → _eof (push c) = true;
  i_bound : buffered (decoder (push c)) ≤ LIMIT + RECEIVE_QUANTUM;
  i_reading : _paused_reading (push c) = false → buffered (decoder (push c)) ≤ LIMIT }.

(** A paused socket has a packet for the reader. *)
Definition consumable p : Prop := _paused_reading p = true → _sink p = true → t_closing p = false →
  ready (decoder p) ∧ _LOW_WATER < buffered (decoder p).
Definition Inv c : Prop := PInv c ∧ (_waiter (push c) = Some Pending → consumable (push c)).

Lemma session_app d cs ps d1 cs' ps' r : session d cs ps (Ok d1) → session d1 cs' ps' r → session d (cs ++ cs') (ps ++ ps') r.
Proof.
  intros H. remember (Ok d1) as r1 eqn:E. revert E. induction H; intros E Hr; simplify_eq; simpl; [done | |].
  - eapply session_data; eauto.
  - eapply session_packet; eauto.
Qed.
Lemma session_data_end d cs ps d1 data d2 : session d cs ps (Ok d1) → ingress d1 data d2 → session d (cs ++ [data]) ps (Ok d2).
Proof. intros H Hin. rewrite <- (app_nil_r ps). eapply session_app; [exact H |]. eapply session_data; [exact Hin | constructor]. Qed.
Lemma session_packet_end d cs ps d1 packet d2 :
  session d cs ps (Ok d1) → next_packet d1 = Ok (Some packet, d2) → session d cs (ps ++ [packet]) (Ok d2).
Proof. intros H Hn. rewrite <- (app_nil_r cs). eapply session_app; [exact H |]. eapply session_packet; [exact Hn | constructor]. Qed.
Lemma session_error_end d cs ps d1 e : session d cs ps (Ok d1) → next_packet d1 = Raise e → session d cs ps (Raise e).
Proof. intros H Hn. rewrite <- (app_nil_r cs), <- (app_nil_r ps). eapply session_app; [exact H | by constructor]. Qed.

(** The water marks. *)
Lemma drained_spec p : slab (decoder p) → ∃ p', resume_if_drained p = Ok p' ∧
  ((p' = p ∧ (_paused_reading p = true → _sink p = true → _read_transport p = true → t_closing p = false →
      ready (decoder p) ∧ _LOW_WATER < buffered (decoder p))) ∨
   (p' = count_switch 0 1 (resume p) ∧ _paused_reading p = true ∧ _sink p = true ∧
      (buffered (decoder p) ≤ _LOW_WATER ∨ ¬ ready (decoder p)))).
Proof.
  intros Hs. unfold resume_if_drained. destruct (head_ready_spec _ Hs) as (b & Hb & Hr).
  destruct (_paused_reading p), (_sink p), (_read_transport p), (t_closing p); cbn [andb negb]; try (exists p; split; [done | by left]).
  destruct (buffered (decoder p) <=? _LOW_WATER) eqn:El; cbn [rbind].
  - bools. eexists. split; [done |]. right. auto.
  - bools. rewrite Hb. cbn [rbind]. destruct b; cbn [negb]; eexists; (split; [done |]).
    + left. split; [done |]. intros _ _ _ _. split; [by apply Hr | lia].
    + right. split_and!; try done. right. rewrite <- Hr. done.
Qed.

(** What the socket delivers while it is read. *)
Lemma readable_spec data p : slab (decoder p) → tame (decoder p) → _sink p = true → bytes_ok data → data ≠ [] →
  ∃ got d' (full : bool),
    let p' := count_received (len got) (set_decoder d' p) in
    socket_readable data p = Ok (_wake (if full then count_switch 1 0 (pause p') else p')) ∧
    accepted data p = [got] ∧ 0 < len got ≤ RECEIVE_QUANTUM ∧ bytes_ok got ∧ ingress (decoder p) got d' ∧ tame d' ∧
    (_paused_reading p = false → _read_transport p = true → full = false → buffered d' ≤ _HIGH_WATER ∨ ¬ ready d') ∧
    (full = true → _HIGH_WATER < buffered d').
Proof.
  intros Hs Ht Hk Hb Hne. destruct (writable_window_spec _ _MIN_WINDOW Hs) as (d1 & lo & hi & Hw & Hs1 & _ & Hlo & Hh & _).
  destruct (window_tame _ _MIN_WINDOW _ _ _ Ht ltac:(unfold _MIN_WINDOW, RECEIVE_QUANTUM, DEFAULT_CAPACITY; lia) Hw) as [Ht1 Hq].
  set (got := take (Z.to_nat (hi - lo)) data).
  assert (0 < len got ≤ hi - lo) as Hg.
  { unfold got, len. rewrite length_take. destruct data; [done |]. simpl. lia. }
  assert (bytes_ok got) as Hgb by (unfold got; by apply Forall_take).
  assert (got ≠ []) as Hgn by (intros E; rewrite E in Hg; unfold len in Hg; simpl in Hg; lia).
  destruct (receive_into_spec _ _MIN_WINDOW got Hs Hgb Hgn) as [(d2 & Hr & Hs2 & _) | (_ & d' & lo' & hi' & Hw' & Hl')];
    [| rewrite Hw in Hw'; injection Hw' as <- <- <-; lia].
  assert (ingress (decoder p) got d2) as Hin by (right; eauto).
  unfold receive_into in Hr. rewrite Hw in Hr. cbn [rbind] in Hr. rewrite Z.gtb_ltb, (proj2 (Z.ltb_ge _ _)) in Hr by lia.
  apply commit_tame in Hr as Ht2; [| exact Ht1].
  destruct (head_ready_spec _ Hs2) as (b & Hb2 & Hrb).
  exists got, d2, (negb (_paused_reading p) && _read_transport p && (buffered d2 >? _HIGH_WATER) && b).
  cbv zeta. split_and!; try done; try lia.
  - unfold socket_readable, get_buffer. rewrite Hk. cbn [negb]. rewrite Hw. cbn [rbind]. fold got. unfold buffer_updated.
    rewrite (proj2 (Z.leb_gt _ _)) by lia. cbn [_sink set_decoder decoder]. rewrite Hk. cbn [negb]. rewrite Hr. cbn [rbind].
    cbn [_paused_reading _read_transport count_received set_decoder].
    destruct (negb (_paused_reading p) && _read_transport p && (buffered d2 >? _HIGH_WATER)) eqn:Ef; cbn [andb]; [rewrite Hb2 |]; done.
  - unfold accepted, get_buffer. rewrite Hk. cbn [negb]. by rewrite Hw.
  - intros Hp Hrt Hf. rewrite Hp, Hrt in Hf. cbn [negb andb] in Hf. rewrite Z.gtb_ltb in Hf.
    destruct (_HIGH_WATER <? buffered d2) eqn:E; bools; [| by left]. cbn [andb] in Hf. right. rewrite <- Hrb. by rewrite Hf.
Qed.

Lemma push_start_inv : PInv (mkConn (connection_made (push_init d0)) None [] []).
Proof using Hd0.
  destruct (init_slab _ _ Hd0) as (Hs & Hl & Hm).
  assert (tame d0) as Ht. { clear -Hd0. revert Hd0. unfold decoder_init. intros H. res_inv. unfold tame. simpl. set_solver. }
  assert (buffered d0 ≤ LIMIT) as Hb. { unfold buffered. rewrite <- len_live, Hl by done. unfold LIMIT, _HIGH_WATER, len. simpl. lia. }
  constructor; simpl; try done; try lia; try constructor. unfold RECEIVE_QUANTUM, DEFAULT_CAPACITY. lia.
Qed.

(** Resuming when drained. *)
Lemma push_drain_inv c p : PInv c → resume_if_drained (push c) = Ok p → PInv (on_push p c) ∧ consumable p ∧ _waiter p = _waiter (push c).
Proof.
  intros [] H. destruct (drained_spec (push c)) as (p' & Hp' & [[-> Hc] | (-> & Hp & Hk & Hw)]); [done | |]; rewrite H in Hp'; injection Hp' as ->.
  - split; [by constructor |]. split; [| done]. intros ???. by apply Hc.
  - split; [| done]. constructor; simpl; try done.
    + by rewrite Hk.
    + intros _. destruct Hw as [Hw | Hw]; [unfold LIMIT, _HIGH_WATER, _LOW_WATER in *; lia |].
      apply not_ready_small in Hw; [| done]. unfold LIMIT. rewrite i_max0 in Hw. lia.
Qed.

Lemma push_readable_inv c data p : PInv c → t_reading (push c) = true → t_closing (push c) = false → _eof (push c) = false → data ≠ [] → bytes_ok data →
  socket_readable data (push c) = Ok p → Inv (mkConn p (reader c) (arrived c ++ accepted data (push c)) (taken c)).
Proof.
  intros [] Hr Hc He Hne Hb H.
  assert (_paused_reading (push c) = false) as Hp by (rewrite Hr in i_mirror0; by destruct (_paused_reading (push c))).
  assert (_sink (push c) = true) as Hk by (destruct (_sink (push c)); [done | rewrite i_detached0 in Hp; done]).
  destruct (readable_spec data (push c)) as (got & d' & full & Hgo & Hacc & Hlen & Hgb & Hin & Ht & Hfull & _); [done.. |]. cbv zeta in Hgo.
  rewrite H in Hgo. injection Hgo as ->. rewrite Hacc. destruct (ingress_spec _ _ _ i_slab0 Hgb Hin) as (Hs' & Hl' & Hm').
  assert (buffered d' ≤ buffered (decoder (push c)) + RECEIVE_QUANTUM) as Hgrow.
  { unfold buffered. rewrite <- !len_live, Hl', len_app by done. lia. }
  specialize (i_reading0 Hp).
  assert (full = false → buffered d' ≤ LIMIT) as Hlim.
  { intros Ef. destruct (Hfull Hp i_made0 Ef) as [? | Hn]; [unfold LIMIT; lia |]. apply not_ready_small in Hn; [| done].
    unfold LIMIT. rewrite Hm', i_max0 in Hn. lia. }
  pose proof (session_data_end _ _ _ _ _ _ i_session0 Hin) as Hses.
  assert (Forall bytes_ok (arrived c ++ [got])) as Hall by (apply Forall_app; auto).
  destruct (_waiter (push c)) as [[] |] eqn:Ew; (split; [| unfold _wake; destruct full; simpl; rewrite Ew; simpl; rewrite ?Ew; discriminate]);
    constructor; unfold _wake; destruct full; simpl; rewrite ?Ew; simpl; rewrite ?Ew; try done; try congruence; try lia;
    try (intros Hrd; destruct (i_asleep0 Hrd) as [? ?]; split; [done | by rewrite ?Ew]); try (by intros _; left; lia);
    intros Hrd; by specialize (i_free0 Hrd).
Qed.

(** The end of the stream wakes the reader. *)
Lemma push_end_inv c x : PInv c → Inv (on_push (_wake (set_end x (push c))) c).
Proof.
  intros []. unfold _wake. simpl. destruct (_waiter (push c)) as [[] |] eqn:Ew; simpl; rewrite ?Ew; (split; [| simpl; rewrite ?Ew; discriminate]);
    constructor; simpl; rewrite ?Ew; try done; try congruence; try (by intros _; right);
    try (intros Hrd; destruct (i_asleep0 Hrd) as [? ?]; split; [done | by rewrite ?Ew]); intros Hrd; by specialize (i_free0 Hrd).
Qed.

Lemma push_attach_inv c p : Inv c → t_closing (push c) = false → attach (push c) = Ok p → Inv (on_push p c).
Proof.
  intros [Hi _] Hc H. destruct (push_drain_inv (on_push (set_sink true (push c)) c) p) as (Hp & Hcon & _); [| exact H | by split].
  destruct Hi. by constructor.
Qed.

Lemma push_close_inv c : PInv c → Inv (on_push (close (push c)) c).
Proof.
  intros []. unfold close, detach. simpl. destruct (_paused_reading (push c)) eqn:Ep, (t_closing (push c)) eqn:Et; simpl;
    rewrite ?i_made0; simpl; (split; [constructor | intros _]); simpl; rewrite ?Ep, ?Et, ?i_mirror0; simpl; rewrite ?Ep; try done;
    unfold consumable; simpl; rewrite ?Et; done.
Qed.

(** Going to sleep, or not. *)
Lemma push_receive_inv c : PInv c → reader c = None → Inv (after (receive (push c)) c) ∧
  (∀ x, (receive (push c)).2 = Fin (Raise x) → _exception (push c) = Some x).
Proof.
  intros Hi Hr. destruct (drained_spec (push c)) as (p & Hp & Hpc); [by destruct Hi |].
  destruct (push_drain_inv c p Hi Hp) as (Hi' & Hcon & Hw). assert (_waiter (push c) = None) as Hn by (by destruct Hi; auto).
  rewrite Hn in Hw. rewrite (receive_cases (push c) p Hp Hw).
  assert (_exception p = _exception (push c)) as Hx by (by destruct Hpc as [[-> _] | [-> _]]).
  destruct Hi'. simpl in *. assert (PInv (mkConn p None (arrived c) (taken c))) as Hfree by (constructor; simpl; try done; by rewrite Hw).
  destruct (_exception p) as [x |] eqn:Ex; simpl.
  { split; [| by intros ? [= <-]]. split; [done | simpl; by rewrite Hw]. }
  destruct (_received p =? _seen p) eqn:Er; [destruct (_eof p) eqn:Ee |]; bools; simpl; (split; [| by intros ? [=]]); (split; [| simpl; try by rewrite Hw]).
  - done.
  - constructor; simpl; try done; try congruence.
  - done.
  - constructor; simpl; rewrite ?Hw; try done; try lia; congruence.
Qed.

(** The way out of [receive]. *)
Lemma push_free_inv c : PInv c → PInv (mkConn (set_waiter None (push c)) None (arrived c) (taken c)).
Proof. intros []. by constructor. Qed.
Lemma push_wake_inv c k : PInv c → reader c = Some (Susp WaitData k) → _waiter (push c) = Some Resolved →
  Inv (after (k (Ok Done) (push c)) c) ∧ k (Ok Done) (push c) = ((woken (push c)).2, Fin (woken (push c)).1) ∧
  match (woken (push c)).1 with
  | Ok b => _seen (woken (push c)).2 = _received (push c) ∧ (b = negb (_received (push c) =? _seen (push c)))
  | Raise x => _exception (push c) = Some x
  end.
Proof.
  intros Hi Hr Hw. pose proof (push_free_inv c Hi) as Hf. destruct Hi. destruct (i_asleep0 ltac:(congruence)) as [Ha _]. assert (asleep = Susp WaitData k) as Hk by congruence.
  rewrite (wake_cases (push c) k); [| done |].
  2:{ intros E1 E2. destruct (i_resolved0 Hw); congruence. }
  unfold woken. cbn [_exception set_waiter _received _seen _eof]. destruct (_exception (push c)) as [x |] eqn:Ex; simpl.
  { split; [| done]. by split. }
  destruct (_received (push c) =? _seen (push c)) eqn:Er; bools.
  - destruct (i_resolved0 Hw) as [? | He]; [done |]. rewrite He. simpl. split; [by split |]. by rewrite Er.
  - simpl. split; [| done]. split; [| done]. destruct Hf. constructor; simpl; try done; try lia.
Qed.
Lemma push_cancel_inv c k : PInv c → reader c = Some (Susp WaitData k) → Inv (after (k (Raise CancelledError) (push c)) c).
Proof.
  intros Hi Hr. pose proof (push_free_inv c Hi) as Hf. destruct Hi. destruct (i_asleep0 ltac:(congruence)) as [Ha _]. assert (asleep = Susp WaitData k) as Hk by congruence.
  rewrite (cancel_cases (push c) k) by done. by split.
Qed.

Lemma push_take_inv c packet d : PInv c → reader c = None → next_packet (decoder (push c)) = Ok (Some packet, d) →
  Inv (mkConn (set_decoder d (push c)) None (arrived c) (taken c ++ [packet])).
Proof.
  intros [] Hr Hn. destruct (next_packet_Some _ _ _ i_slab0 Hn) as (Hf & Hs & Hm).
  assert (buffered d ≤ buffered (decoder (push c))) as Hb.
  { unfold buffered. rewrite <- !len_live by done. apply frame_next_Some in Hf as (frame & -> & _); [| by apply live_bytes].
    rewrite len_app. pose proof (len_nonneg frame). lia. }
  split; [| simpl; by rewrite (i_free0 Hr)].
  constructor; simpl; rewrite ?Hm; try done; try lia; auto.
  - by eapply next_packet_tame.
  - by eapply session_packet_end.
  - intros Hp. specialize (i_reading0 Hp). lia.
Qed.

Lemma push_inv c : reachable d0 c → Inv c.
Proof using Hd0.
  induction 1 as [| c c' _ IH Hst]; [split; [apply push_start_inv | done] |]. pose proof IH as [Hi _]. destruct Hst.
  - by eapply push_readable_inv.
  - apply push_end_inv; done.
  - apply push_end_inv; done.
  - by apply push_attach_inv.
  - by apply push_close_inv.
  - by apply push_receive_inv.
  - by eapply push_wake_inv.
  - by eapply push_cancel_inv.
  - by eapply push_take_inv.
Qed.
End invariant.

(** ** The properties *)

Lemma next_packet_ready d d' : slab d → next_packet d = Ok (None, d') → ¬ ready d.
Proof.
  intros Hs H Hr. pose proof (next_packet_spec d Hs) as Hn. unfold ready in Hr.
  destruct (frame_next _ _) as [[[packet rest] |] | x]; [| done |]; [| congruence]. destruct Hn as (? & Hn & _). congruence.
Qed.

(** C29: the reader never misses a wakeup and the socket is never left paused for
    nothing.  Whatever the order of the events, a [receive] that sleeps with its future
    pending has been told of every arrival, of no end and of no error, and if the
    decoder is attached, the connection open and no packet complete, the socket is
    being read; once the future is resolved, going on ends [receive] at once, with
    [True] exactly when something arrived since, or with the error of the connection;
    and [receive] raises nothing else. *)
Theorem push_no_stall max d c : decoder_init max = Ok d → reachable d c →
  (reader c = None → ∀ x, (receive (push c)).2 = Fin (Raise x) → _exception (push c) = Some x) ∧
  (∀ o, reader c = Some o → ∃ k, o = Susp WaitData k ∧
    match _waiter (push c) with
    | Some Pending =>
        _received (push c) = _seen (push c) ∧ _eof (push c) = false ∧ _exception (push c) = None ∧
        (∀ d', next_packet (decoder (push c)) = Ok (None, d') → _sink (push c) = true → t_closing (push c) = false →
          t_reading (push c) = true)
    | Some Resolved =>
        ∃ p r, k (Ok Done) (push c) = (p, Fin r) ∧
          match r with
          | Ok b => _seen p = _received (push c) ∧ (b = true ↔ _received (push c) ≠ _seen (push c)) ∧ (b = false → _eof (push c) = true)
          | Raise x => _exception (push c) = Some x
          end
    | None => False
    end).
Proof.
  intros Hd Hc. destruct (push_inv _ _ Hd c Hc) as [Hi Hs]. split.
  { intros Hr. by eapply push_receive_inv. }
  intros o Ho. destruct (i_asleep _ _ _ Hi ltac:(congruence)) as [Ha Hw].
  assert (∃ k, asleep = Susp WaitData k) as [k Hk] by (eexists; reflexivity).
  exists k. split; [congruence |]. destruct (_waiter (push c)) as [[] |] eqn:Ew; [| | done].
  - destruct (i_pending _ _ _ Hi Ew) as (? & ? & ?). split_and!; [done.. |]. intros d' Hn Hsk Ht.
    rewrite (i_mirror _ _ _ Hi). destruct (_paused_reading (push c)) eqn:Ep; [| done]. exfalso.
    destruct (Hs eq_refl Ep Hsk Ht) as [Hr _]. by eapply next_packet_ready; [apply Hi | |].
  - destruct (push_wake_inv _ _ c k Hi ltac:(congruence) Ew) as (_ & Hgo & Hres). eexists _, _. split; [exact Hgo |].
    destruct (i_resolved _ _ _ Hi Ew) as [? | ?]; destruct (woken (push c)).1 as [b | x]; [| done | | done]; destruct Hres as [? ->];
      destruct (_received (push c) =? _seen (push c)) eqn:Er; bools; split_and!; naive_solver.
Qed.

(** C30: what is received is what is parsed, within bounds.  Whatever the order of the
    events, when the decoder has no further packet (or an error) the packets the reader
    took are those (then that error) of the concatenated bytes that were accepted; the
    decoder never holds more than the high-water mark, or one maximal packet, and a
    receive window; and a socket that is read always finds a window for at least a byte
    and no call-back raises. *)
Theorem push_receives max d c : decoder_init max = Ok d → reachable d c →
  let stream := concat (arrived c) in
  (∀ d', next_packet (decoder (push c)) = Ok (None, d') → parse (length stream) max stream = (taken c, Ok (live (decoder (push c))))) ∧
  (∀ e, next_packet (decoder (push c)) = Raise e → parse (length stream) max stream = (taken c, Raise e)) ∧
  buffered (decoder (push c)) ≤ Z.max _HIGH_WATER (Z.max 5 max) + RECEIVE_QUANTUM ∧
  (t_reading (push c) = true → t_closing (push c) = false → ∀ data, data ≠ [] → bytes_ok data →
    ∃ p got, socket_readable data (push c) = Ok p ∧ accepted data (push c) = [got] ∧ got ≠ []).
Proof.
  intros Hd Hc. cbv zeta. destruct (push_inv _ _ Hd c Hc) as [Hi _]. destruct (init_slab _ _ Hd) as (Hs0 & Hl0 & Hm0).
  pose proof (i_slab _ _ _ Hi) as Hs. split_and!.
  - intros d' Hn. destruct (session_parse _ _ _ _ (i_session _ _ _ Hi) Hs0 (i_bytes _ _ _ Hi)) as [_ Hp].
    rewrite Hl0, Hm0 in Hp. apply Hp. pose proof (next_packet_spec _ Hs) as Hq. apply (next_packet_ready _ _ Hs) in Hn.
    unfold ready in Hn. destruct (frame_next _ _) as [[[? ?] |] | ?]; [| done |]; exfalso; by apply Hn.
  - intros e Hn. pose proof (session_parse _ _ _ _ (session_error_end _ _ _ _ _ (i_session _ _ _ Hi) Hn) Hs0 (i_bytes _ _ _ Hi)) as Hp.
    by rewrite Hl0, Hm0 in Hp.
  - apply Hi.
  - intros Hr Ht data Hne Hb.
    assert (_sink (push c) = true) as Hk.
    { destruct (_sink (push c)) eqn:Ek; [done |]. pose proof (i_detached _ _ _ Hi Ek Ht) as Hp.
      rewrite (i_mirror _ _ _ Hi), Hp in Hr. done. }
    destruct (readable_spec data (push c)) as (got & d' & full & Hgo & Hacc & Hlen & _); [done | apply Hi | done.. |].
    eexists _, got. split_and!; [exact Hgo | done |]. intros ->. unfold len in Hlen. simpl in Hlen. lia.
Qed.

(** A packet and the head of the next arrive while the reader sleeps. *)
Lemma push_sample : ∃ d c, decoder_init 100 = Ok d ∧ reachable d c ∧ arrived c = [[0xD0; 0; 0xD0]] ∧ reader c = Some asleep ∧
  t_reading (push c) = true ∧ t_closing (push c) = false ∧ _waiter (push c) = Some Resolved ∧ _received (push c) = 1 ∧ _seen (push c) = 0 ∧
  _exception (push c) = None.
Proof.
  pose (d0 := mkDecoder [] 0 0 0 0 0 false 0 _INITIAL_WINDOW 0 100 0).
  assert (reachable d0 (after (receive (count_switch 0 1 (resume (set_sink true (connection_made (push_init d0))))))
     (on_push (count_switch 0 1 (resume (set_sink true (connection_made (push_init d0))))) (mkConn (connection_made (push_init d0)) None [] [])))) as Hc.
  { eapply reach_step; [eapply reach_step; [apply reach_made | by apply s_attach] |]. by apply s_receive. }
  destruct (init_slab 100 d0 eq_refl) as (Hs & _).
  destruct (readable_spec [0xD0; 0; 0xD0] (push (after (receive (count_switch 0 1 (resume (set_sink true (connection_made (push_init d0))))))
     (on_push (count_switch 0 1 (resume (set_sink true (connection_made (push_init d0))))) (mkConn (connection_made (push_init d0)) None [] [])))))
    as (got & d' & full & Hgo & Hacc & _ & Hgb & Hin & _ & _ & Hfull); [exact Hs | vm_compute; set_solver | done | repeat constructor; unfold byte_ok; lia | done |].
  exists d0. eexists. split; [reflexivity |]. split; [eapply reach_step; [exact Hc |]; eapply (s_readable _ [0xD0; 0; 0xD0]); [reflexivity | reflexivity | reflexivity | done | repeat constructor; unfold byte_ok; lia | exact Hgo] |].
  split; [vm_compute; reflexivity |]. split; [reflexivity |].
  assert (got = [0xD0; 0; 0xD0]) as -> by (vm_compute in Hacc; by injection Hacc).
  destruct (ingress_spec d0 _ d' Hs Hgb Hin) as (Hs' & Hl & _).
  destruct full; [| split_and!; reflexivity]. specialize (Hfull eq_refl). unfold buffered in Hfull.
  rewrite <- len_live, Hl in Hfull by done. done.
Qed.

Lemma push_no_stall_witness : ∃ d c k, reachable d c ∧ reader c = Some (Susp WaitData k) ∧ ∃ p, k (Ok Done) (push c) = (p, Fin (Ok true)).
Proof.
  destruct push_sample as (d & c & Hd & Hc & _ & Hr & _ & _ & Hw & Hrc & Hs & Hx).
  destruct (proj2 (push_no_stall 100 d c Hd Hc) asleep Hr) as (k & Hk & H). rewrite Hw in H.
  destruct H as (p & r & Hgo & Hres). exists d, c, k. split_and!; [done | congruence |]. exists p. rewrite Hgo. destruct r as [b | x].
  - destruct Hres as (_ & Hb & _). rewrite (proj2 Hb); [done |]. by rewrite Hrc, Hs.
  - congruence.
Defined.

Lemma push_receives_witness : ∃ d c, reachable d c ∧ concat (arrived c) = [0xD0; 0; 0xD0] ∧
  buffered (decoder (push c)) ≤ 196608 + 262144 ∧
  ∃ p got, socket_readable [0; 0x40] (push c) = Ok p ∧ accepted [0; 0x40] (push c) = [got] ∧ got ≠ [].
Proof.
  destruct push_sample as (d & c & Hd & Hc & Ha & _ & Ht & Hcl & _). destruct (push_receives 100 d c Hd Hc) as (_ & _ & Hb & Hgo).
  exists d, c. rewrite Ha. split_and!; [done | done | exact Hb |]. apply Hgo; [done.. | repeat constructor; unfold byte_ok; lia].
Defined.
