(* ===== verification/Tasks.v ===== *)
(** * Waiting, as data

    The event loop runs one task at a time and switches only where a coroutine
    awaits.  Where a coroutine may wait any number of times its loop is cut at the
    waits: one definition runs it up to its next wait or its end, another goes on from
    there. *)

From S2P Require Import Prelude.

(** [asyncio.Event]: its flag and how often it was set.  A task that began to wait
    after [n] settings is woken once there were more. *)
Record Event := mkEvent { is_set : bool; sets : Z }.
Definition new_event : Event := mkEvent false 0.
Definition set_event (e : Event) : Event := mkEvent true (sets e + 1).
Definition clear_event (e : Event) : Event := mkEvent false (sets e).

(** A task runs to its end or sleeps on an event with the ticket it drew; it goes on
    woken, out of its time, or cancelled. *)
Inductive turn (A : Type) := Done (r : res A) | Sleeps (ticket : Z).
Arguments Done {A} _.
Arguments Sleeps {A} _.
Inductive wakeup := Woken | TimedOut | Cancelled.
