(* ===== verification/Delivery.v ===== *)
(** * Delivery to the application

    [api/_delivery.py]: the bounded queue behind [messages()], or the application's
    callbacks.  A task that waits is cut at its wait: one definition runs it up to the
    wait or to its end, another goes on from there. *)

From S2P Require Import Prelude Types Publish Tasks.

Inductive MessageDelivery := Iterator | Callback.

(** A callback is known by its identity; a route selects several. *)
Inductive CallbackTarget := Single (callback : Z) | MessageRoute (select : Message → list Z).

(** How a call of user code ends; [cancelling] is whether the task that called has
    been asked to cancel. *)
Inductive called := Returned (awaitable : bool) | Raised (x : exn) (cancelling : bool).

(** What callbacks were called with, how the calls were counted, and what was handed
    to the loop's exception handler. *)
Record Callbacks := mkCallbacks {
  invocations : Z; failures : Z; unrouted : Z; since_yield : Z; calls : list (Z * Message); reports : list (Z * exn) }.

Definition _CALLBACK_QUANTUM : Z := 128.

(** An entry of the queue has its size when bytes are accounted. *)
Record ApplicationDelivery := mkDelivery {
  mode : MessageDelivery; _is_v5 : bool; max_iterator_messages : Z; max_iterator_bytes : option Z;
  pending_bytes : Z; pending_high_water_bytes : Z; space : Event; waiters : Z; messages_queue : list (Message * option Z);
  message_ready : Event; closed : bool; _stream_generation : Z; _waiting_generation : option Z; _admission_generation : Z;
  callbacks : Callbacks }.

Implicit Types (d : ApplicationDelivery) (m : Message).

Definition delivery_init (md : MessageDelivery) (is_v5 : bool) (max_messages : Z) (max_bytes : option Z) : ApplicationDelivery :=
  mkDelivery md is_v5 max_messages max_bytes 0 0 new_event 0 [] new_event false 0 None 0 (mkCallbacks 0 0 0 0 [] []).

Definition set_pending (bytes high : Z) d :=
  mkDelivery (mode d) (_is_v5 d) (max_iterator_messages d) (max_iterator_bytes d) bytes high (space d) (waiters d) (messages_queue d)
    (message_ready d) (closed d) (_stream_generation d) (_waiting_generation d) (_admission_generation d) (callbacks d).
Definition set_space (e : Event) (n : Z) d :=
  mkDelivery (mode d) (_is_v5 d) (max_iterator_messages d) (max_iterator_bytes d) (pending_bytes d) (pending_high_water_bytes d) e n (messages_queue d)
    (message_ready d) (closed d) (_stream_generation d) (_waiting_generation d) (_admission_generation d) (callbacks d).
Definition set_queue (q : list (Message * option Z)) d :=
  mkDelivery (mode d) (_is_v5 d) (max_iterator_messages d) (max_iterator_bytes d) (pending_bytes d) (pending_high_water_bytes d) (space d) (waiters d) q
    (message_ready d) (closed d) (_stream_generation d) (_waiting_generation d) (_admission_generation d) (callbacks d).
Definition set_ready (e : Event) d :=
  mkDelivery (mode d) (_is_v5 d) (max_iterator_messages d) (max_iterator_bytes d) (pending_bytes d) (pending_high_water_bytes d) (space d) (waiters d)
    (messages_queue d) e (closed d) (_stream_generation d) (_waiting_generation d) (_admission_generation d) (callbacks d).
Definition set_closed (b : bool) d :=
  mkDelivery (mode d) (_is_v5 d) (max_iterator_messages d) (max_iterator_bytes d) (pending_bytes d) (pending_high_water_bytes d) (space d) (waiters d)
    (messages_queue d) (message_ready d) b (_stream_generation d) (_waiting_generation d) (_admission_generation d) (callbacks d).
Definition set_generations (stream : Z) (waiting : option Z) (admission : Z) d :=
  mkDelivery (mode d) (_is_v5 d) (max_iterator_messages d) (max_iterator_bytes d) (pending_bytes d) (pending_high_water_bytes d) (space d) (waiters d)
    (messages_queue d) (message_ready d) (closed d) stream waiting admission (callbacks d).
Definition set_waiting (g : option Z) d := set_generations (_stream_generation d) g (_admission_generation d) d.
Definition set_callbacks (c : Callbacks) d :=
  mkDelivery (mode d) (_is_v5 d) (max_iterator_messages d) (max_iterator_bytes d) (pending_bytes d) (pending_high_water_bytes d) (space d) (waiters d)
    (messages_queue d) (message_ready d) (closed d) (_stream_generation d) (_waiting_generation d) (_admission_generation d) c.

(** ** The queue *)

(** [asyncio.Queue.full]; nobody awaits [get()], so putting wakes no getter. *)
Definition full d : bool := (0 <? max_iterator_messages d) && (max_iterator_messages d <=? len (messages_queue d)).
Definition put_over_bound (item : Message * option Z) (q : list (Message * option Z)) : list (Message * option Z) := q ++ [item].
Definition put_nowait (item : Message * option Z) d : ApplicationDelivery * res unit :=
  if full d then (d, Raise QueueFull) else (set_queue (put_over_bound item (messages_queue d)) d, Ok tt).

(** ** Room *)

Definition _wake_waiters d : ApplicationDelivery := if waiters d =? 0 then d else set_space (set_event (space d)) (waiters d) d.

Definition invalidate_waiting_admissions d : ApplicationDelivery :=
  _wake_waiters (set_generations (_stream_generation d) (_waiting_generation d) (_admission_generation d + 1) d).

Definition release (size : Z) d : ApplicationDelivery := _wake_waiters (set_pending (pending_bytes d - size) (pending_high_water_bytes d) d).

Definition charge (size : Z) d : ApplicationDelivery :=
  let pending := pending_bytes d + size in set_pending pending (Z.max pending (pending_high_water_bytes d)) d.

Definition _enqueue_accounted m (size : Z) d : ApplicationDelivery * res unit :=
  match put_nowait (m, Some size) (charge size d) with
  | (d, Ok _) => (set_ready (set_event (message_ready d)) d, Ok tt)
  | (d, Raise x) => (d, Raise x)
  end.
Definition _enqueue_unaccounted m d : ApplicationDelivery * res unit :=
  match put_nowait (m, None) d with
  | (d, Ok _) => (set_ready (set_event (message_ready d)) d, Ok tt)
  | (d, Raise x) => (d, Raise x)
  end.

(** ** Callbacks *)

Section callbacks.
(** What user code does, call after call. *)
Context (behaviour : Z → Z → Message → called).

Definition count_call (callback : Z) m (c : Callbacks) : Callbacks :=
  mkCallbacks (invocations c + 1) (failures c) (unrouted c) (since_yield c + 1) (calls c ++ [(callback, m)]) (reports c).
Definition count_failure (c : Callbacks) : Callbacks :=
  mkCallbacks (invocations c) (failures c + 1) (unrouted c) (since_yield c) (calls c) (reports c).
Definition report_callback_error (callback : Z) (x : exn) (c : Callbacks) : Callbacks :=
  mkCallbacks (invocations c) (failures c) (unrouted c) (since_yield c) (calls c) (reports c ++ [(callback, x)]).
Definition count_unrouted (c : Callbacks) : Callbacks :=
  mkCallbacks (invocations c) (failures c) (unrouted c + 1) (since_yield c) (calls c) (reports c).
Definition set_since_yield (n : Z) (c : Callbacks) : Callbacks :=
  mkCallbacks (invocations c) (failures c) (unrouted c) n (calls c) (reports c).

Definition invoke_sync_isolated (callback : Z) m (c : Callbacks) : Callbacks * res unit :=
  let outcome := behaviour (invocations c) callback m in
  let c := count_call callback m c in
  match outcome with
  | Returned false => (c, Ok tt)
  | Returned true => (report_callback_error callback TypeError (count_failure c), Ok tt)
  | Raised CancelledError true => (count_failure c, Raise CancelledError)
  | Raised x _ => (report_callback_error callback x (count_failure c), Ok tt)
  end.

Fixpoint invoke_all (selected : list Z) m (c : Callbacks) : Callbacks * res unit :=
  match selected with
  | [] => (c, Ok tt)
  | callback :: selected =>
      match invoke_sync_isolated callback m c with
      | (c, Ok _) => invoke_all selected m c
      | (c, Raise x) => (c, Raise x)
      end
  end.
Definition targets (callback : CallbackTarget) m : list Z := match callback with Single f => [f] | MessageRoute select => select m end.

(** ** Handing one message over *)

(** What [accept] may leave to await. *)
Inductive awaitable := YieldNow | Waiting (m : Message) (size : option Z) (generation : Z).

Definition no_room (size : option Z) d : bool :=
  match size, max_iterator_bytes d with
  | Some size, Some limit => (pending_bytes d + size >? limit) || full d
  | _, _ => full d
  end.

Definition _accept_iterator_unaccounted m d : ApplicationDelivery * res (option awaitable) :=
  if full d then (d, Ok (Some (Waiting m None (_admission_generation d))))
  else let '(d, r) := _enqueue_unaccounted m d in (d, let! _ := r in Ok None).

Definition logical_size m (property_wire_size : option Z) d : res Z :=
  publish_logical_size (_is_v5 d) (m_topic m) (len (m_payload m)) (m_properties m) property_wire_size.

Definition _accept_iterator_accounted (limit : Z) m (property_wire_size : option Z) d : ApplicationDelivery * res (option awaitable) :=
  match logical_size m property_wire_size d with
  | Raise x => (d, Raise x)
  | Ok size =>
      if size >? limit then (d, Raise MessageDeliveryError)
      else if (pending_bytes d + size >? limit) || full d then (d, Ok (Some (Waiting m (Some size) (_admission_generation d))))
      else let '(d, r) := _enqueue_accounted m size d in (d, let! _ := r in Ok None)
  end.

Definition accept m (callback : option CallbackTarget) (property_wire_size : option Z) d : ApplicationDelivery * res (option awaitable) :=
  match mode d with
  | Callback =>
      match callback with
      | None => (set_callbacks (count_unrouted (callbacks d)) d, Ok None)
      | Some callback =>
          let '(c, r) := invoke_all (targets callback m) m (callbacks d) in
          match r with
          | Raise x => (set_callbacks c d, Raise x)
          | Ok _ =>
              if since_yield c >=? _CALLBACK_QUANTUM
              then (set_callbacks (set_since_yield (since_yield c mod _CALLBACK_QUANTUM) c) d, Ok (Some YieldNow))
              else (set_callbacks c d, Ok None)
          end
      end
  | Iterator =>
      match max_iterator_bytes d with
      | None => _accept_iterator_unaccounted m d
      | Some limit => _accept_iterator_accounted limit m property_wire_size d
      end
  end.

Definition deliver_acknowledged m (callback : option CallbackTarget) (property_wire_size : option Z) d : ApplicationDelivery * res unit :=
  match mode d with
  | Callback =>
      match callback with
      | None => (set_callbacks (count_unrouted (callbacks d)) d, Ok tt)
      | Some callback => let '(c, r) := invoke_all (targets callback m) m (callbacks d) in (set_callbacks c d, r)
      end
  | Iterator =>
      match max_iterator_bytes d with
      | None =>
          let d := set_queue (put_over_bound (m, None) (messages_queue d)) d in
          (set_ready (set_event (message_ready d)) d, Ok tt)
      | Some _ =>
          match logical_size m property_wire_size d with
          | Raise x => (d, Raise x)
          | Ok size =>
              let d := charge size d in
              let d := set_queue (put_over_bound (m, Some size) (messages_queue d)) d in
              (set_ready (set_event (message_ready d)) d, Ok tt)
          end
      end
  end.
End callbacks.

(** ** Waiting for room *)

(** The loop of [_accept_waiting_accounted], and of [_accept_waiting_unaccounted] for
    an entry without a size. *)
Definition _accept_waiting m (size : option Z) (generation : Z) d : ApplicationDelivery * turn bool :=
  if (generation =? _admission_generation d) && no_room size d
  then (set_space (clear_event (space d)) (waiters d + 1) d, Sleeps (sets (space d)))
  else if negb (generation =? _admission_generation d) then (d, Done (Ok false))
  else
    let '(d, r) := match size with Some size => _enqueue_accounted m size d | None => _enqueue_unaccounted m d end in
    (d, Done (let! _ := r in Ok true)).

Definition resume_admission m (size : option Z) (generation : Z) (a : wakeup) d : ApplicationDelivery * turn bool :=
  let d := set_space (space d) (waiters d - 1) d in
  match a with
  | Woken => _accept_waiting m size generation d
  | TimedOut => (d, Done (Raise MessageDeliveryError))
  | Cancelled => (d, Done (Raise CancelledError))
  end.

(** ** The iterator *)

Definition _wait_for_message d : ApplicationDelivery * turn (option Message) :=
  let generation := _stream_generation d in
  if bool_decide (_waiting_generation d = Some generation) then (d, Done (Raise MQTTError))
  else
    let d := set_waiting (Some generation) d in
    (set_ready (clear_event (message_ready d)) d, Sleeps (sets (message_ready d))).

(** One [__anext__] of the iterator that [messages()] returned in [generation];
    [None] ends it. *)
Definition next_message (generation : Z) d : ApplicationDelivery * turn (option Message) :=
  match mode d with
  | Callback => (d, Done (Raise MQTTError))
  | Iterator =>
      if negb (generation =? _stream_generation d) then (d, Done (Ok None))
      else
        match messages_queue d with
        | [] => if closed d then (d, Done (Ok None)) else _wait_for_message d
        | (m, size) :: q =>
            let d := set_queue q d in
            (match size with Some size => release size d | None => _wake_waiters d end, Done (Ok (Some m)))
        end
  end.

Definition resume_iterator (generation : Z) (a : wakeup) d : ApplicationDelivery * turn (option Message) :=
  let d := if bool_decide (_waiting_generation d = Some generation) then set_waiting None d else d in
  match a with
  | Woken => next_message generation d
  | _ => (d, Done (Raise CancelledError))
  end.

(** ** Opening and closing *)

Definition reopen d : ApplicationDelivery := set_closed false d.
Definition close d : ApplicationDelivery := let d := set_closed true d in set_ready (set_event (message_ready d)) d.

Fixpoint carry_over (old replacement : list (Message * option Z)) : list (Message * option Z) :=
  match old with [] => replacement | item :: old => carry_over old (put_over_bound item replacement) end.

(** The old [message_ready] is set and dropped, so nobody is left asleep on it; the
    new one counts on. *)
Definition reset_stream d : ApplicationDelivery :=
  if negb (closed d) then d
  else
    let d := invalidate_waiting_admissions d in
    let d := set_generations (_stream_generation d + 1) (_waiting_generation d) (_admission_generation d) d in
    let replacement := carry_over (messages_queue d) [] in
    let d := set_ready (set_event (message_ready d)) d in
    let d := set_queue replacement d in
    let d := set_ready (clear_event (message_ready d)) d in
    let d := match replacement with [] => d | _ => set_ready (set_event (message_ready d)) d end in
    set_closed false d.

Record DeliveryStats := mkDeliveryStats {
  iterator_queued : Z; iterator_limit : Z; iterator_bytes : Z; iterator_high_water_bytes : Z; iterator_byte_limit : option Z;
  s_waiters : Z; callback_invocations : Z; callback_failures : Z; unrouted_messages : Z }.
Definition stats d : DeliveryStats :=
  mkDeliveryStats (len (messages_queue d)) (max_iterator_messages d) (pending_bytes d) (pending_high_water_bytes d) (max_iterator_bytes d)
    (waiters d) (invocations (callbacks d)) (failures (callbacks d)) (unrouted (callbacks d)).
