(* ===== verification/DeliveryTheorems.v ===== *)
(** * Every accepted message is delivered once, in order

    Tasks that hand messages over, iterators of any generation, and the client that
    opens, closes and resets, in any interleaving. *)

From S2P Require Import Prelude Enums Types Publish Tasks Delivery.

Implicit Types (d : ApplicationDelivery) (m : Message) (q : list (Message * option Z)).

Definition sizes q : Z := foldr (λ e n, default 0 e.2 + n) 0 q.
Lemma queue_sizes_app q q' : sizes (q ++ q') = sizes q + sizes q'.
Proof. induction q as [| e q IH]; simpl; [done |]. unfold sizes in *. simpl. lia. Qed.

Lemma carry_over_app old : ∀ q, carry_over old q = q ++ old.
Proof.
  induction old as [| e old IH]; intros q; simpl; [by rewrite app_nil_r |]. rewrite IH. unfold put_over_bound. by rewrite <- app_assoc.
Qed.

(** ** The system *)

Record handover := mkAdmission { a_message : Message; a_size : option Z; a_generation : Z }.
Implicit Types (a : handover).

(** [created]: admissions not yet awaited; [sleeping]: admissions in their wait with
    the ticket; [reading]: calls of an iterator in theirs; [committed], [yielded]: what
    the two ends were told; [forced]: what [deliver_acknowledged] put over the bounds. *)
Record system := mkSystem {
  delivery : ApplicationDelivery; created : gmap nat handover; sleeping : gmap nat (handover * Z); reading : gmap nat (Z * Z);
  committed : list Message; yielded : list Message; forced : list (Message * option Z) }.
Implicit Types (s : system).

Definition accepted (id : nat) m (r : res (option awaitable)) d s : system :=
  match r with
  | Ok None => mkSystem d (created s) (sleeping s) (reading s) (committed s ++ [m]) (yielded s) (forced s)
  | Ok (Some (Waiting m size g)) => mkSystem d (<[id := mkAdmission m size g]> (created s)) (sleeping s) (reading s) (committed s) (yielded s) (forced s)
  | _ => mkSystem d (created s) (sleeping s) (reading s) (committed s) (yielded s) (forced s)
  end.

(** An admission ran up to a wait or to its end. *)
Definition admitted (id : nat) a (r : turn bool) d s : system :=
  match r with
  | Sleeps t => mkSystem d (delete id (created s)) (<[id := (a, t)]> (sleeping s)) (reading s) (committed s) (yielded s) (forced s)
  | Done (Ok true) =>
      mkSystem d (delete id (created s)) (delete id (sleeping s)) (reading s) (committed s ++ [a_message a]) (yielded s) (forced s)
  | Done _ => mkSystem d (delete id (created s)) (delete id (sleeping s)) (reading s) (committed s) (yielded s) (forced s)
  end.

Definition advanced (id : nat) (g : Z) (r : turn (option Message)) d s : system :=
  match r with
  | Sleeps t => mkSystem d (created s) (sleeping s) (<[id := (g, t)]> (reading s)) (committed s) (yielded s) (forced s)
  | Done (Ok (Some m)) => mkSystem d (created s) (sleeping s) (delete id (reading s)) (committed s) (yielded s ++ [m]) (forced s)
  | Done _ => mkSystem d (created s) (sleeping s) (delete id (reading s)) (committed s) (yielded s) (forced s)
  end.

Definition with_delivery d s : system := mkSystem d (created s) (sleeping s) (reading s) (committed s) (yielded s) (forced s).
Definition over_bound m d s : system :=
  mkSystem d (created s) (sleeping s) (reading s) (committed s ++ [m]) (yielded s)
    (forced s ++ drop (length (messages_queue (delivery s))) (messages_queue d)).

Section system.
Context (behaviour : Z → Z → Message → called).

(** A task that waits goes on woken only after its event was set; it can be cancelled,
    or be out of time, at any moment. *)
Inductive step : system → system → Prop :=
  | s_accept s id m callback size : created s !! id = None → sleeping s !! id = None → (∀ n, size = Some n → 0 ≤ n) →
      step s (accepted id m (accept behaviour m callback size (delivery s)).2 (accept behaviour m callback size (delivery s)).1 s)
  | s_start s id a : created s !! id = Some a →
      let r := _accept_waiting (a_message a) (a_size a) (a_generation a) (delivery s) in step s (admitted id a r.2 r.1 s)
  | s_resume s id a t w : sleeping s !! id = Some (a, t) → (w = Woken → t < sets (space (delivery s))) →
      let r := resume_admission (a_message a) (a_size a) (a_generation a) w (delivery s) in step s (admitted id a r.2 r.1 s)
  | s_next s id g : reading s !! id = None → g ≤ _stream_generation (delivery s) →
      let r := next_message g (delivery s) in step s (advanced id g r.2 r.1 s)
  | s_next_resume s id g t w : reading s !! id = Some (g, t) → (w = Woken → t < sets (message_ready (delivery s))) →
      let r := resume_iterator g w (delivery s) in step s (advanced id g r.2 r.1 s)
  | s_close s : step s (with_delivery (close (delivery s)) s)
  | s_reopen s : step s (with_delivery (reopen (delivery s)) s)
  | s_reset s : step s (with_delivery (reset_stream (delivery s)) s)
  | s_invalidate s : step s (with_delivery (invalidate_waiting_admissions (delivery s)) s)
  | s_force s m callback size d : (∀ n, size = Some n → 0 ≤ n) → deliver_acknowledged behaviour m callback size (delivery s) = (d, Ok tt) → step s (over_bound m d s).

Inductive reachable (max : Z) (max_bytes : option Z) (v5 : bool) : system → Prop :=
  | reach_init : reachable max max_bytes v5 (mkSystem (delivery_init Iterator v5 max max_bytes) ∅ ∅ ∅ [] [] [])
  | reach_step s s' : reachable max max_bytes v5 s → step s s' → reachable max max_bytes v5 s'.
End system.

(** ** Where the waiting tasks stand *)

(** An admission that sleeps has been woken, or there is still no room for it. *)
Definition starved d a (t : Z) : Prop := t ≤ sets (space d) ∧
  (t = sets (space d) → a_generation a = _admission_generation d ∧ no_room (a_size a) d = true).
Definition idle d (g t : Z) : Prop := t ≤ sets (message_ready d) ∧
  (t = sets (message_ready d) → messages_queue d = [] ∧ closed d = false ∧ g = _stream_generation d).

(** What keeps sleeping admissions so: their event is set, or room does not appear. *)
Definition room_stays d d' : Prop := sets (space d) < sets (space d') ∨
  (sets (space d') = sets (space d) ∧ _admission_generation d' = _admission_generation d ∧
   ∀ size, no_room size d = true → no_room size d' = true).
Definition quiet_stays d d' : Prop := sets (message_ready d) < sets (message_ready d') ∨
  (sets (message_ready d') = sets (message_ready d) ∧ _stream_generation d' = _stream_generation d ∧ closed d' = closed d ∧
   (messages_queue d = [] → messages_queue d' = [])).

Lemma starved_stays d d' a t : room_stays d d' → starved d a t → starved d' a t.
Proof. intros [H | (H1 & H2 & H3)] [Ht Hs]; split; try lia. intros E. rewrite H2. destruct Hs; [lia |]. auto. Qed.
Lemma idle_stays d d' g t : quiet_stays d d' → idle d g t → idle d' g t.
Proof. intros [H | (H1 & H2 & H3 & H4)] [Ht Hs]; split; try lia. intros E. rewrite H2, H3. destruct Hs as (? & ? & ?); [lia |]. auto. Qed.

#[export] Instance room_stays_refl : Reflexive room_stays.
Proof. intros d. by right. Qed.
#[export] Instance quiet_stays_refl : Reflexive quiet_stays.
Proof. intros d. by right. Qed.

(** ** The books of the queue *)

Section books.
Context (max : Z) (max_bytes : option Z).

Record books d (com yie : list Message) (frc : list (Message * option Z)) : Prop := {
  b_mode : mode d = Iterator; b_max : max_iterator_messages d = max; b_bytes : max_iterator_bytes d = max_bytes;
  b_fifo : com = yie ++ (messages_queue d).*1;
  b_pending : pending_bytes d = sizes (messages_queue d);
  b_sizes : Forall (λ e, 0 ≤ default 0 e.2) (messages_queue d ++ frc);
  b_high : pending_bytes d ≤ pending_high_water_bytes d;
  b_count : 0 < max → len (messages_queue d) ≤ max + len frc;
  b_room : ∀ limit, max_bytes = Some limit → pending_bytes d ≤ Z.max 0 limit + sizes frc }.

(** Nothing the books speak of changed. *)
Record untouched d d' : Prop := {
  t_mode : mode d' = mode d; t_max : max_iterator_messages d' = max_iterator_messages d; t_bytes : max_iterator_bytes d' = max_iterator_bytes d;
  t_queue : messages_queue d' = messages_queue d; t_pending : pending_bytes d' = pending_bytes d; t_high : pending_high_water_bytes d' = pending_high_water_bytes d }.
Lemma books_untouched d d' com yie frc : untouched d d' → books d com yie frc → books d' com yie frc.
Proof. intros [] []. constructor; try congruence; rewrite ?t_queue0, ?t_pending0; auto. Qed.

(** An entry was put at the end. *)
Record pushed (e : Message * option Z) d d' : Prop := {
  p_mode : mode d' = mode d; p_max : max_iterator_messages d' = max_iterator_messages d; p_bytes : max_iterator_bytes d' = max_iterator_bytes d;
  p_queue : messages_queue d' = messages_queue d ++ [e]; p_pending : pending_bytes d' = pending_bytes d + default 0 e.2;
  p_high : pending_high_water_bytes d ≤ pending_high_water_bytes d' ∧ (pending_bytes d ≤ pending_high_water_bytes d → pending_bytes d' ≤ pending_high_water_bytes d');
  p_space : space d' = space d; p_waiters : waiters d' = waiters d; p_admission : _admission_generation d' = _admission_generation d;
  p_ready : sets (message_ready d') = sets (message_ready d) + 1 }.

Lemma enqueue_spec m size d : full d = false → ∃ d',
  match size with Some n => _enqueue_accounted m n d | None => _enqueue_unaccounted m d end = (d', Ok tt) ∧ pushed (m, size) d d'.
Proof.
  intros Hf. destruct size as [n |].
  - unfold _enqueue_accounted, put_nowait. replace (full (charge n d)) with (full d) by done. rewrite Hf.
    eexists. split; [reflexivity |]. constructor; simpl; try done; lia.
  - unfold _enqueue_unaccounted, put_nowait. rewrite Hf. eexists. split; [reflexivity |]. constructor; simpl; try done; lia.
Qed.

Lemma books_pushed e d d' com yie frc : pushed e d d' → full d = false → 0 ≤ default 0 e.2 →
  (∀ n limit, e.2 = Some n → max_iterator_bytes d = Some limit → pending_bytes d + n ≤ limit) →
  books d com yie frc → books d' (com ++ [e.1]) yie frc.
Proof.
  intros [] Hf He Hr []. constructor; try congruence.
  - rewrite b_fifo0, p_queue0, fmap_app, app_assoc. done.
  - rewrite p_queue0, queue_sizes_app, p_pending0, b_pending0. unfold sizes at 3. simpl. lia.
  - rewrite p_queue0. rewrite !Forall_app in *. split_and!; try done; try by destruct b_sizes0. repeat constructor. done.
  - destruct p_high0 as [_ H]. by apply H.
  - intros Hm. rewrite p_queue0, len_app. unfold full in Hf. rewrite b_max0 in Hf. pose proof (len_nonneg frc). unfold len at 2. simpl. bools. lia.
  - intros limit Hl. rewrite p_pending0. specialize (b_room0 limit Hl). destruct e as [m [n |]]; simpl in *; [| lia].
    specialize (Hr n limit eq_refl ltac:(congruence)). apply Forall_app in b_sizes0 as [_ Hs].
    assert (0 ≤ sizes frc) by (clear -Hs; induction Hs; unfold sizes in *; simpl; lia). lia.
Qed.

Lemma books_forced e d d' com yie frc : pushed e d d' → 0 ≤ default 0 e.2 → books d com yie frc → books d' (com ++ [e.1]) yie (frc ++ [e]).
Proof.
  intros [] He []. constructor; try congruence.
  - rewrite b_fifo0, p_queue0, fmap_app, app_assoc. done.
  - rewrite p_queue0, queue_sizes_app, p_pending0, b_pending0. unfold sizes at 3. simpl. lia.
  - rewrite p_queue0. rewrite !Forall_app in *. split_and!; try done; try by destruct b_sizes0. all: repeat constructor; done.
  - destruct p_high0 as [_ H]. by apply H.
  - intros Hm. rewrite p_queue0, !len_app. specialize (b_count0 Hm). unfold len in *. simpl. lia.
  - intros limit Hl. rewrite p_pending0, queue_sizes_app. specialize (b_room0 limit Hl). unfold sizes at 2. simpl. lia.
Qed.

(** The first entry was taken. *)
Lemma books_popped m size q d d' com yie frc : messages_queue d = (m, size) :: q → mode d' = mode d → max_iterator_messages d' = max_iterator_messages d →
  max_iterator_bytes d' = max_iterator_bytes d → messages_queue d' = q → pending_bytes d' = pending_bytes d - default 0 size →
  pending_high_water_bytes d' = pending_high_water_bytes d → books d com yie frc → books d' com (yie ++ [m]) frc.
Proof.
  intros Hq H1 H2 H3 H4 H5 H6 []. rewrite Hq in *. apply Forall_app in b_sizes0 as [[Hs Hss]%Forall_cons Hf]. simpl in Hs.
  constructor; try congruence.
  - rewrite b_fifo0, H4. simpl. by rewrite <- app_assoc.
  - rewrite H5, b_pending0, H4. unfold sizes. simpl. lia.
  - rewrite H4. by apply Forall_app.
  - lia.
  - intros Hm. rewrite H4. specialize (b_count0 Hm). rewrite len_cons in b_count0. lia.
  - intros limit Hl. specialize (b_room0 limit Hl). lia.
Qed.
End books.

(** ** Every operation, on the books and on the waiting tasks *)

Lemma wake_untouched d : untouched d (_wake_waiters d).
Proof. unfold _wake_waiters. case_match; by constructor. Qed.
Lemma wake_stays d : waiters d ≠ 0 → sets (space d) < sets (space (_wake_waiters d)).
Proof. intros H. unfold _wake_waiters. destruct (waiters d =? 0) eqn:E; bools; [done | simpl; lia]. Qed.
Lemma wake_quiet d : message_ready (_wake_waiters d) = message_ready d ∧ _stream_generation (_wake_waiters d) = _stream_generation d ∧
  closed (_wake_waiters d) = closed d ∧ waiters (_wake_waiters d) = waiters d ∧ _admission_generation (_wake_waiters d) = _admission_generation d ∧
  _waiting_generation (_wake_waiters d) = _waiting_generation d.
Proof. unfold _wake_waiters. by case_match. Qed.

Lemma pushed_room e d d' : pushed e d d' → 0 ≤ default 0 e.2 → room_stays d d'.
Proof.
  intros [] He. right. rewrite p_space0, p_admission0. split_and!; [done.. |]. intros size.
  assert (full d = true → full d' = true) as Hf.
  { unfold full. rewrite p_max0, p_queue0, len_app. intros H. pose proof (len_nonneg [e]). bools. apply andb_true_iff. split; bools; lia. }
  unfold no_room. rewrite p_bytes0, p_pending0. destruct size as [n |], (max_iterator_bytes d) as [limit |]; auto.
  rewrite !orb_true_iff, !Z.gtb_ltb, !Z.ltb_lt. intros [? | ?]; [left; lia | right; auto].
Qed.
Lemma pushed_quiet e d d' : pushed e d d' → quiet_stays d d'.
Proof. intros []. left. lia. Qed.

Definition fits (size : option Z) d : Prop := full d = false ∧ 0 ≤ default 0 size ∧
  ∀ n limit, size = Some n → max_iterator_bytes d = Some limit → pending_bytes d + n ≤ limit.
Lemma no_room_false size d : no_room size d = false → 0 ≤ default 0 size → fits size d.
Proof.
  unfold no_room, fits. destruct size as [n |], (max_iterator_bytes d) as [limit |]; intros H Hs; bools; split_and!; try done.
  intros n' limit' [= <-] [= <-]. lia.
Qed.

Lemma delivery_size_nonneg m pws d n : (∀ k, pws = Some k → 0 ≤ k) → logical_size m pws d = Ok n → 0 ≤ n.
Proof.
  unfold logical_size, publish_logical_size. intros Hp H. res_inv. pose proof (len_nonneg (m_payload m)).
  assert (0 ≤ v). { destruct (_is_v5 d && _); [| by injection Hv as <-]. destruct pws; [injection Hv as <-; auto |]. res_inv. apply len_nonneg. }
  assert (0 ≤ v0). { destruct (PyStr.isascii _); [injection Hv0 as <-; apply len_nonneg |]. destruct (PyStr.utf8_encode _); [injection Hv0 as <-; apply len_nonneg | done]. }
  lia.
Qed.

Section steps.
Context (behaviour : Z → Z → Message → called).

Lemma accept_spec m callback pws d d' r : mode d = Iterator → (∀ k, pws = Some k → 0 ≤ k) → accept behaviour m callback pws d = (d', r) →
  (r = Ok None ∧ ∃ size, pushed (m, size) d d' ∧ fits size d) ∨
  (d' = d ∧ ∃ size, r = Ok (Some (Waiting m size (_admission_generation d))) ∧ 0 ≤ default 0 size) ∨
  (d' = d ∧ ∃ x, r = Raise x).
Proof.
  intros Hm Hp. unfold accept. rewrite Hm. destruct (max_iterator_bytes d) as [limit |] eqn:El.
  - unfold _accept_iterator_accounted. destruct (logical_size m pws d) as [size | x] eqn:Es; [| intros [= <- <-]; right; right; eauto].
    apply delivery_size_nonneg in Es; [| done]. rewrite !Z.gtb_ltb. destruct (limit <? size); [intros [= <- <-]; right; right; eauto |].
    destruct ((limit <? pending_bytes d + size) || full d) eqn:Ef; [intros [= <- <-]; right; left; eauto |].
    apply orb_false_iff in Ef as [Eb Ef]. bools.
    destruct (enqueue_spec m (Some size) d Ef) as (d1 & -> & Hd). intros [= <- <-]. left. split; [done |]. exists (Some size).
    split; [done |]. split_and!; [done.. |]. intros n l [= <-] E. rewrite El in E. injection E as <-. lia.
  - unfold _accept_iterator_unaccounted. destruct (full d) eqn:Ef; [intros [= <- <-]; right; left; split; [done |]; exists None; done |].
    destruct (enqueue_spec m None d Ef) as (d1 & -> & Hd). intros [= <- <-]. left. split; [done |]. exists None. split; [done |]. split_and!; done.
Qed.

Lemma force_spec m callback pws d d' : mode d = Iterator → (∀ k, pws = Some k → 0 ≤ k) → deliver_acknowledged behaviour m callback pws d = (d', Ok tt) →
  ∃ size, pushed (m, size) d d' ∧ 0 ≤ default 0 size.
Proof.
  intros Hm Hp. unfold deliver_acknowledged. rewrite Hm. destruct (max_iterator_bytes d) as [limit |] eqn:El.
  - destruct (logical_size m pws d) as [size | x] eqn:Es; [| done]. apply delivery_size_nonneg in Es; [| done].
    intros [= <-]. exists (Some size). split; [| done]. constructor; simpl; try done; lia.
  - intros [= <-]. exists None. split; [| done]. constructor; simpl; try done; lia.
Qed.
End steps.

Lemma waiting_spec m size g d : 0 ≤ default 0 size →
  (_accept_waiting m size g d = (set_space (clear_event (space d)) (waiters d + 1) d, Sleeps (sets (space d))) ∧
     g = _admission_generation d ∧ no_room size d = true) ∨
  (_accept_waiting m size g d = (d, Done (Ok false)) ∧ g ≠ _admission_generation d) ∨
  (∃ d', _accept_waiting m size g d = (d', Done (Ok true)) ∧ pushed (m, size) d d' ∧ fits size d).
Proof.
  intros Hs. unfold _accept_waiting. destruct (g =? _admission_generation d) eqn:Eg; simpl; bools; [| right; left; done].
  destruct (no_room size d) eqn:En; [by left |]. right. right. apply no_room_false in En; [| done].
  destruct (enqueue_spec m size d) as (d' & -> & Hd); [apply En |]. eauto.
Qed.

Lemma next_spec g d : mode d = Iterator →
  (∃ m size q, messages_queue d = (m, size) :: q ∧ g = _stream_generation d ∧
     next_message g d = (_wake_waiters (set_pending (pending_bytes d - default 0 size) (pending_high_water_bytes d) (set_queue q d)), Done (Ok (Some m)))) ∨
  (∃ r, next_message g d = (d, Done r) ∧ (r = Ok None ∨ r = Raise MQTTError)) ∨
  (messages_queue d = [] ∧ closed d = false ∧ g = _stream_generation d ∧
     next_message g d = (set_ready (clear_event (message_ready d)) (set_waiting (Some g) d), Sleeps (sets (message_ready d)))).
Proof.
  intros Hm. unfold next_message. rewrite Hm. destruct (g =? _stream_generation d) eqn:Eg; simpl; bools; [| right; left; eauto].
  destruct (messages_queue d) as [| [m [size |]] q] eqn:Eq.
  - destruct (closed d) eqn:Ec; [right; left; eauto |]. unfold _wait_for_message. case_bool_decide; [right; left; eauto |].
    right. right. by subst.
  - left. exists m, (Some size), q. done.
  - left. exists m, None, q. split_and!; [done.. |]. simpl. rewrite Z.sub_0_r. by destruct d.
Qed.

(** ** The invariant *)

Section invariant.
Context (behaviour : Z → Z → Message → called) (max : Z) (max_bytes : option Z) (v5 : bool).

Record inv s : Prop := {
  i_books : books max max_bytes (delivery s) (committed s) (yielded s) (forced s);
  i_created : ∀ id a, created s !! id = Some a → 0 ≤ default 0 (a_size a) ∧ sleeping s !! id = None;
  i_sleeping : ∀ id a t, sleeping s !! id = Some (a, t) → 0 ≤ default 0 (a_size a) ∧ starved (delivery s) a t;
  i_waiters : waiters (delivery s) = Z.of_nat (size (sleeping s));
  i_reading : ∀ id g t, reading s !! id = Some (g, t) → idle (delivery s) g t }.

(** An operation that leaves the queue alone. *)
Lemma queue_untouched_inv s d : inv s → untouched (delivery s) d → waiters d = waiters (delivery s) →
  (waiters d ≠ 0 → room_stays (delivery s) d) → quiet_stays (delivery s) d → inv (with_delivery d s).
Proof.
  intros [] Hu Hw Hr Hq. constructor; simpl.
  - by eapply books_untouched.
  - done.
  - intros id a t Hid. destruct (i_sleeping0 id a t Hid) as [Ha Hs]. split; [done |]. eapply starved_stays; [| exact Hs]. apply Hr.
    rewrite Hw, i_waiters0. intros E. assert (size (sleeping s) = 0%nat) as E' by lia. apply map_size_empty_inv in E'. by rewrite E', lookup_empty in Hid.
  - congruence.
  - intros id g t Hid. eapply idle_stays; [exact Hq | by eapply i_reading0].
Qed.

Lemma queue_init_inv : inv (mkSystem (delivery_init Iterator v5 max max_bytes) ∅ ∅ ∅ [] [] []).
Proof.
  constructor; simpl; try done; [| set_solver..]. constructor; simpl; try done; unfold sizes; simpl; lia.
Qed.
(** What changes when an entry is put. *)
Lemma queue_pushed_inv s m size d fr : inv s → pushed (m, size) (delivery s) d → 0 ≤ default 0 size →
  books max max_bytes d (committed s ++ [m]) (yielded s) fr →
  inv (mkSystem d (created s) (sleeping s) (reading s) (committed s ++ [m]) (yielded s) fr).
Proof.
  intros [] Hp Hs Hb. constructor; simpl; try done.
  - intros id a t Hid. destruct (i_sleeping0 id a t Hid) as [Ha Hst]. split; [done |]. eapply starved_stays; [by eapply pushed_room | exact Hst].
  - rewrite (p_waiters _ _ _ Hp). done.
  - intros id g t Hid. eapply idle_stays; [by eapply pushed_quiet | by eapply i_reading0].
Qed.
Lemma queue_fits_inv s m size d : inv s → pushed (m, size) (delivery s) d → fits size (delivery s) →
  inv (mkSystem d (created s) (sleeping s) (reading s) (committed s ++ [m]) (yielded s) (forced s)).
Proof.
  intros Hi Hp (Hf & Hs & Hr). apply (queue_pushed_inv s m size); try done. apply (books_pushed _ _ (m, size) (delivery s)); try done. apply Hi.
Qed.

Lemma queue_accept_inv s id m callback pws : inv s → created s !! id = None → sleeping s !! id = None → (∀ n, pws = Some n → 0 ≤ n) →
  inv (accepted id m (accept behaviour m callback pws (delivery s)).2 (accept behaviour m callback pws (delivery s)).1 s).
Proof.
  intros Hi Hc Hs Hp. destruct (accept behaviour m callback pws (delivery s)) as [d r] eqn:E. simpl.
  apply accept_spec in E as [(-> & size & Hd & Hf) | [(-> & size & -> & Hn) | (-> & x & ->)]]; [| | | apply Hi | done].
  - by eapply queue_fits_inv.
  - destruct Hi. constructor; simpl; try done. intros id' a [[<- <-] | [? Hid]]%lookup_insert_Some; [done |]. by apply i_created0.
  - destruct s. apply Hi.
Qed.

(** Admission [id], taken out of the maps, runs. *)
Definition without (id : nat) d s : system :=
  mkSystem d (delete id (created s)) (delete id (sleeping s)) (reading s) (committed s) (yielded s) (forced s).
Lemma queue_admitted_inv s id a d : inv (without id d s) → 0 ≤ default 0 (a_size a) →
  let r := _accept_waiting (a_message a) (a_size a) (a_generation a) d in inv (admitted id a r.2 r.1 s).
Proof.
  intros Hi Hn. simpl. destruct (waiting_spec (a_message a) (a_size a) (a_generation a) d Hn) as [(-> & Hg & Hr) | [(-> & _) | (d' & -> & Hp & Hf)]]; simpl.
  - destruct Hi. simpl in *. constructor; simpl.
    + eapply books_untouched; [| exact i_books0]. by constructor.
    + intros id' a' Hid. destruct (i_created0 id' a' Hid) as [? Hs]. split; [done |].
      destruct (decide (id' = id)) as [-> | Hne]; [by rewrite lookup_delete_eq in Hid |]. rewrite lookup_insert_ne by done. by rewrite lookup_delete_ne in Hs.
    + intros id' a' t [[<- [= <- <-]] | [Hne Hid]]%lookup_insert_Some.
      * split; [done |]. split; simpl; [done |]. intros _. split; [done | exact Hr].
      * destruct (i_sleeping0 id' a' t) as [? Hs]; [by rewrite lookup_delete_ne |]. split; [done |]. eapply starved_stays; [| exact Hs]. by right.
    + rewrite <- insert_delete_eq, map_size_insert_None by apply lookup_delete_eq. lia.
    + intros id' g t Hid. by eapply i_reading0.
  - exact Hi.
  - by apply (queue_fits_inv (without id d s) (a_message a) (a_size a)).
Qed.

Lemma queue_start_inv s id a : inv s → created s !! id = Some a →
  let r := _accept_waiting (a_message a) (a_size a) (a_generation a) (delivery s) in inv (admitted id a r.2 r.1 s).
Proof.
  intros Hi Hid. apply queue_admitted_inv; [| by eapply i_created]. destruct (i_created _ Hi id a Hid) as [_ Hs]. destruct Hi. unfold without.
  constructor; simpl; try done; rewrite ?(delete_id (sleeping s)) by done; try done.
  intros id' a' [_ Hid']%lookup_delete_Some. by apply i_created0.
Qed.

Lemma queue_resume_inv s id a t w : inv s → sleeping s !! id = Some (a, t) →
  let r := resume_admission (a_message a) (a_size a) (a_generation a) w (delivery s) in inv (admitted id a r.2 r.1 s).
Proof.
  intros Hi Hid. destruct (i_sleeping _ Hi id a t Hid) as [Hn _].
  assert (inv (without id (set_space (space (delivery s)) (waiters (delivery s) - 1) (delivery s)) s)) as Hw.
  { destruct Hi. constructor; simpl.
    - eapply books_untouched; [| exact i_books0]. by constructor.
    - intros id' a' [Hne Hid']%lookup_delete_Some. rewrite lookup_delete_ne by done. by apply i_created0.
    - intros id' a' t' [Hne Hid']%lookup_delete_Some. destruct (i_sleeping0 id' a' t' Hid') as [? Hs]. split; [done |].
      eapply starved_stays; [| exact Hs]. by right.
    - rewrite map_size_delete, Hid. assert (size (sleeping s) ≠ 0%nat) by (intros E%map_size_empty_inv; rewrite E, lookup_empty in Hid; done). lia.
    - intros id' g t' Hid'. by eapply i_reading0. }
  unfold resume_admission. destruct w; [by apply queue_admitted_inv | exact Hw | exact Hw].
Qed.

(** Iterator [id], taken out of the map, runs. *)
Definition unread (id : nat) d s : system := mkSystem d (created s) (sleeping s) (delete id (reading s)) (committed s) (yielded s) (forced s).
Lemma queue_advanced_inv s id g d : inv (unread id d s) → let r := next_message g d in inv (advanced id g r.2 r.1 s).
Proof.
  intros Hi. simpl. pose proof (b_mode _ _ _ _ _ _ (i_books _ Hi)) as Hm. simpl in Hm.
  destruct (next_spec g d Hm) as [(m & size & q & Hq & Hg & ->) | [(r & -> & Hr) | (Hq & Hc & Hg & ->)]]; simpl.
  - set (d1 := set_pending _ _ _). destruct (wake_quiet d1) as (W1 & W2 & W3 & W4 & W5 & _). destruct (wake_untouched d1) as [U1 U2 U3 U4 U5 U6]. destruct Hi. simpl in *.
    constructor; simpl; try done.
    + by eapply books_popped.
    + intros id' a t Hid. destruct (i_sleeping0 id' a t Hid) as [? Hs]. split; [done |]. eapply starved_stays; [| exact Hs]. left.
      apply (wake_stays d1). simpl. intros E. rewrite i_waiters0 in E. assert (map_size (sleeping s) = 0%nat) as E' by (unfold base.size in E; lia).
      apply map_size_empty_inv in E'. by rewrite E', lookup_empty in Hid.
    + rewrite W4. done.
    + intros id' g' t Hid. eapply idle_stays; [| by eapply i_reading0]. right. rewrite W1, W2, W3. split_and!; [done.. |]. intros E. congruence.
  - destruct Hr as [-> | ->]; exact Hi.
  - destruct Hi. simpl in *. constructor; simpl; try done.
    + eapply books_untouched; [| exact i_books0]. by constructor.
    + intros id' g' t [[<- [= <- <-]] | [Hne Hid]]%lookup_insert_Some.
      * split; simpl; [done |]. intros _. done.
      * eapply idle_stays; [| eapply i_reading0; by rewrite lookup_delete_ne]. by right.
Qed.

Lemma queue_unread_inv s id : inv s → inv (unread id (delivery s) s).
Proof. intros []. constructor; simpl; try done. intros id' g t [_ Hid]%lookup_delete_Some. by eapply i_reading0. Qed.
Lemma queue_next_resume_inv s id g w : inv s → let r := resume_iterator g w (delivery s) in inv (advanced id g r.2 r.1 s).
Proof.
  intros Hi. cbv zeta. unfold resume_iterator. set (d := if bool_decide _ then _ else _).
  assert (inv (unread id d s)) as Hu.
  { apply (queue_untouched_inv (unread id (delivery s) s) d); [by apply queue_unread_inv |..]; unfold d; case_bool_decide; simpl; try done; try by constructor.
    all: try (intros _; by right); by right. }
  destruct w; [by apply queue_advanced_inv | exact Hu | exact Hu].
Qed.

Lemma reset_spec d : untouched d (reset_stream d) ∧ waiters (reset_stream d) = waiters d ∧ (waiters d ≠ 0 → room_stays d (reset_stream d)) ∧
  quiet_stays d (reset_stream d).
Proof.
  unfold reset_stream. destruct (closed d); simpl; [| split_and!; try done; by constructor].
  set (d1 := set_generations (_stream_generation d) (_waiting_generation d) (_admission_generation d + 1) d). destruct (wake_quiet d1) as (W1 & W2 & W3 & W4 & W5 & W6). destruct (wake_untouched d1) as [U1 U2 U3 U4 U5 U6].
  unfold invalidate_waiting_admissions. fold d1. rewrite carry_over_app. simpl. rewrite W1, W2, W5, W6.
  change (messages_queue d1) with (messages_queue d) in U4. rewrite U4.
  destruct (messages_queue d) as [| e q] eqn:Eq; (split; [constructor; simpl; done || congruence |]; split; [exact W4 |]; split;
    [intros Hw; left; simpl; by apply (wake_stays d1) | left; simpl; lia]).
Qed.

Lemma queue_same_inv s d : inv s → d = delivery s → inv (with_delivery d s).
Proof. intros Hi ->. destruct s. exact Hi. Qed.

Lemma queue_step_inv s s' : inv s → step behaviour s s' → inv s'.
Proof.
  intros Hi H. destruct H.
  - by apply queue_accept_inv.
  - by apply queue_start_inv.
  - by eapply queue_resume_inv.
  - apply queue_advanced_inv. by apply queue_unread_inv.
  - by apply queue_next_resume_inv.
  - apply queue_untouched_inv; try done; [intros _; by right |]. left. simpl. lia.
  - destruct Hi. constructor; simpl; try done; [eapply books_untouched; [| exact i_books0]; by constructor |].
    intros id g t Hid. destruct (i_reading0 id g t Hid) as [? Hs]. split; [done |]. simpl. intros E. by destruct (Hs E) as (? & ? & ?).
  - destruct (reset_spec (delivery s)) as (H1 & H2 & H3 & H4). apply queue_untouched_inv; try done. by rewrite H2.
  - unfold invalidate_waiting_admissions. set (d1 := set_generations _ _ _ _). destruct (wake_quiet d1) as (W1 & W2 & W3 & W4 & W5 & W6).
    destruct (wake_untouched d1) as [U1 U2 U3 U4 U5 U6].
    apply queue_untouched_inv; [done | by constructor | done | | right; by rewrite W1, W2, W3, U4]. rewrite W4. intros Hw. left. by apply (wake_stays d1).
  - pose proof (i_books _ Hi) as Hb. destruct (force_spec behaviour m callback size (delivery s) d) as (n & Hp & Hn); [by destruct Hb | done | done |].
    unfold over_bound. rewrite (p_queue _ _ _ Hp), drop_app_length. apply (queue_pushed_inv s m n); try done. by apply (books_forced _ _ (m, n) (delivery s)).
Qed.

Lemma reachable_delivery s : reachable behaviour max max_bytes v5 s → inv s.
Proof. induction 1 as [| s s' _ IH H]; [apply queue_init_inv | by eapply queue_step_inv]. Qed.
End invariant.

(** ** The properties *)

(** C18: every accepted message is delivered exactly once, in the order of acceptance,
    through any number of iterators, resets and reconnects.  At every moment the
    messages committed so far are those handed out followed by those queued; the bytes
    accounted are those of the queue; and the queue keeps its bounds on messages and
    on bytes, but for what [deliver_acknowledged] forces in. *)
Theorem delivery_exactly_once behaviour max max_bytes v5 s : reachable behaviour max max_bytes v5 s →
  let d := delivery s in
  committed s = yielded s ++ (messages_queue d).*1 ∧ pending_bytes d = sizes (messages_queue d) ∧ pending_bytes d ≤ pending_high_water_bytes d ∧
  (0 < max → len (messages_queue d) ≤ max + len (forced s)) ∧
  (∀ limit, max_bytes = Some limit → pending_bytes d ≤ Z.max 0 limit + sizes (forced s)).
Proof. intros H. by destruct (i_books _ _ _ (reachable_delivery _ _ _ _ s H)) as [_ _ _ ? ? _ ? ? ?]. Qed.

(** C19: no wakeup is lost between the two ends of the queue.  A task that waits to hand
    a message over has been woken, or there is still no room for it on its connection
    and stream; once woken with room it commits, and its message is the last of the
    queue.  An iterator that waits has been woken, or there is nothing queued, the
    stream is open and the iterator current; once woken it yields the first message.
    [waiters] is the number of waiting hand-overs. *)
Theorem delivery_no_lost_wakeup behaviour max max_bytes v5 s : reachable behaviour max max_bytes v5 s →
  let d := delivery s in
  waiters d = Z.of_nat (size (sleeping s)) ∧
  (∀ id a t, sleeping s !! id = Some (a, t) →
    (t < sets (space d) ∨ (a_generation a = _admission_generation d ∧ no_room (a_size a) d = true)) ∧
    (a_generation a = _admission_generation d → no_room (a_size a) d = false →
      t < sets (space d) ∧ ∃ d', resume_admission (a_message a) (a_size a) (a_generation a) Woken d = (d', Done (Ok true)) ∧
        messages_queue d' = messages_queue d ++ [(a_message a, a_size a)])) ∧
  (∀ id g t, reading s !! id = Some (g, t) →
    (t < sets (message_ready d) ∨ (messages_queue d = [] ∧ closed d = false ∧ g = _stream_generation d)) ∧
    (∀ m size q, messages_queue d = (m, size) :: q → g = _stream_generation d →
      t < sets (message_ready d) ∧ ∃ d', resume_iterator g Woken d = (d', Done (Ok (Some m))) ∧ messages_queue d' = q)).
Proof.
  intros H. cbv zeta. destruct (reachable_delivery _ _ _ _ s H). split; [done |]. split.
  - intros id a t Hid. destruct (i_sleeping0 id a t Hid) as [Hn [Ht Hs]].
    assert (t < sets (space (delivery s)) ∨ (a_generation a = _admission_generation (delivery s) ∧ no_room (a_size a) (delivery s) = true)) as Hor.
    { destruct (decide (t = sets (space (delivery s)))) as [E | E]; [right; auto | left; lia]. }
    split; [done |]. intros Hg Hr. split; [destruct Hor as [? | [_ E]]; [done | congruence] |].
    unfold resume_admission. set (d1 := set_space _ _ _).
    destruct (waiting_spec (a_message a) (a_size a) (a_generation a) d1 Hn) as [(_ & _ & E) | [(_ & E) | (d' & -> & Hp & _)]].
    + replace (no_room (a_size a) d1) with (no_room (a_size a) (delivery s)) in E by done. congruence.
    + done.
    + exists d'. split; [done |]. by rewrite (p_queue _ _ _ Hp).
  - intros id g t Hid. destruct (i_reading0 id g t Hid) as [Ht Hs].
    assert (t < sets (message_ready (delivery s)) ∨ (messages_queue (delivery s) = [] ∧ closed (delivery s) = false ∧ g = _stream_generation (delivery s))) as Hor.
    { destruct (decide (t = sets (message_ready (delivery s)))) as [E | E]; [right; auto | left; lia]. }
    split; [done |]. intros m size q Hq Hg. split; [destruct Hor as [? | (E & _)]; [done | congruence] |].
    unfold resume_iterator. set (d1 := if bool_decide _ then _ else _).
    assert (messages_queue d1 = messages_queue (delivery s) ∧ _stream_generation d1 = _stream_generation (delivery s) ∧ mode d1 = mode (delivery s)) as (E1 & E2 & E3)
      by (unfold d1; by case_bool_decide).
    destruct (next_spec g d1) as [(m' & size' & q' & Hq' & _ & ->) | [(r & E & Hr) | (E & _)]].
    + rewrite E3. by destruct i_books0.
    + rewrite E1, Hq in Hq'. injection Hq' as <- <- <-. eexists. split; [done |]. destruct (wake_untouched (set_pending (pending_bytes d1 - default 0 size) (pending_high_water_bytes d1) (set_queue q d1))) as [_ _ _ -> _ _]. done.
    + exfalso. revert E. unfold next_message. rewrite E3, E1, E2, Hq, Hg, Z.eqb_refl. destruct i_books0 as [-> _ _ _ _ _ _ _ _]. simpl. intros [= _ <-]. by destruct Hr.
    + congruence.
Qed.

(** *** Callbacks *)

Definition fails (c : called) : bool := match c with Returned false => false | _ => true end.
(** How many of the calls numbered from [n] fail. *)
Fixpoint failing (behaviour : Z → Z → Message → called) (n : Z) (fs : list Z) m : Z :=
  match fs with [] => 0 | f :: fs => (if fails (behaviour n f m) then 1 else 0) + failing behaviour (n + 1) fs m end.

Lemma invoke_all_spec behaviour m : (∀ n f, behaviour n f m ≠ Raised CancelledError true) → ∀ fs c, ∃ c', invoke_all behaviour fs m c = (c', Ok tt) ∧
  calls c' = calls c ++ ((λ f, (f, m)) <$> fs) ∧ invocations c' = invocations c + len fs ∧ failures c' = failures c + failing behaviour (invocations c) fs m ∧
  len (reports c') = len (reports c) + failing behaviour (invocations c) fs m ∧ since_yield c' = since_yield c + len fs ∧ unrouted c' = unrouted c.
Proof.
  intros Hb fs. induction fs as [| f fs IH]; intros c; simpl.
  { exists c. rewrite app_nil_r. unfold len. simpl. split_and!; (done || lia). }
  assert (∃ c1, invoke_sync_isolated behaviour f m c = (c1, Ok tt) ∧ calls c1 = calls c ++ [(f, m)] ∧ invocations c1 = invocations c + 1 ∧
    failures c1 = failures c + (if fails (behaviour (invocations c) f m) then 1 else 0) ∧
    len (reports c1) = len (reports c) + (if fails (behaviour (invocations c) f m) then 1 else 0) ∧ since_yield c1 = since_yield c + 1 ∧ unrouted c1 = unrouted c) as
    (c1 & -> & E1 & E2 & E3 & E4 & E5 & E6).
  { unfold invoke_sync_isolated. pose proof (Hb (invocations c) f) as Hnc. destruct (behaviour (invocations c) f m) as [[] | x b]; simpl.
    1,2: eexists; split; [done |]; simpl; rewrite ?len_app; unfold len; simpl; split_and!; (done || lia).
    destruct x, b; try done; eexists; (split; [reflexivity |]); simpl; rewrite ?len_app; unfold len; simpl; split_and!; (done || lia). }
  destruct (IH c1) as (c' & -> & F1 & F2 & F3 & F4 & F5 & F6). exists c'. rewrite F1, F2, F3, F4, F5, F6, E1, E2, E3, E4, E5, E6, len_cons.
  rewrite <- app_assoc. split_and!; (done || lia).
Qed.

(** C33: callbacks are isolated from each other and from the reader.  Unless the reader
    itself is being cancelled, a message goes to every callback its route selects,
    once, in order, whatever the others do; each failure is counted and reported and
    none is raised; and the reader is made to yield exactly when the calls since its
    last yield have reached the quantum, the excess being carried over. *)
Theorem callbacks_isolated behaviour m callback pws d d' r : mode d = Callback → 0 ≤ since_yield (callbacks d) →
  (∀ n f, behaviour n f m ≠ Raised CancelledError true) → accept behaviour m (Some callback) pws d = (d', r) →
  let fs := targets callback m in let c := callbacks d in let c' := callbacks d' in let n := since_yield c + len fs in
  let failed := failing behaviour (invocations c) fs m in
  calls c' = calls c ++ ((λ f, (f, m)) <$> fs) ∧ invocations c' = invocations c + len fs ∧
  failures c' = failures c + failed ∧ len (reports c') = len (reports c) + failed ∧
  r = Ok (if n <? _CALLBACK_QUANTUM then None else Some YieldNow) ∧
  since_yield c' = (if n <? _CALLBACK_QUANTUM then n else n mod _CALLBACK_QUANTUM) ∧ since_yield c' < _CALLBACK_QUANTUM ∧ messages_queue d' = messages_queue d.
Proof.
  intros Hm H0 Hb. unfold accept. rewrite Hm. destruct (invoke_all_spec behaviour m Hb (targets callback m) (callbacks d)) as (c1 & -> & F1 & F2 & F3 & F4 & F5 & F6).
  cbv zeta. rewrite <- F5, Z.geb_leb, Z.leb_antisym. destruct (since_yield c1 <? _CALLBACK_QUANTUM) eqn:E; simpl; intros [= <- <-]; simpl; bools; split_and!; try done.
  apply Z.mod_pos_bound. done.
Qed.

(** *** Examples *)

Definition demo_message (b : Z) : Message := _decoded_message [116] [b] AT_MOST_ONCE false false None None.
Definition demo_behaviour (n callback : Z) (m : Message) : called := if callback =? 7 then Raised ValueError false else Returned false.
Definition demo_accept (id : nat) (b : Z) s : system :=
  let r := accept demo_behaviour (demo_message b) None None (delivery s) in accepted id (demo_message b) r.2 r.1 s.

(** A queue of one takes a message, a second one waits, the iterator makes room. *)
Definition demo0 : system := mkSystem (delivery_init Iterator true 1 (Some 100)) ∅ ∅ ∅ [] [] [].
Definition demo1 : system := demo_accept 2 6 (demo_accept 1 5 demo0).
Definition demo2 : system := let r := _accept_waiting (demo_message 6) (Some 2) 0 (delivery demo1) in admitted 2 (mkAdmission (demo_message 6) (Some 2) 0) r.2 r.1 demo1.
Definition demo3 : system := let r := next_message 0 (delivery demo2) in advanced 9 0 r.2 r.1 demo2.

Lemma demo_reachable : reachable demo_behaviour 1 (Some 100) true demo3.
Proof.
  eapply reach_step; [eapply reach_step; [eapply reach_step; [eapply reach_step; [apply reach_init |] |] |] |].
  - by apply (s_accept demo_behaviour demo0 1 (demo_message 5) None None).
  - by apply (s_accept demo_behaviour (demo_accept 1 5 demo0) 2 (demo_message 6) None None).
  - by apply (s_start demo_behaviour demo1 2 (mkAdmission (demo_message 6) (Some 2) 0)).
  - by apply (s_next demo_behaviour demo2 9 0).
Qed.

Lemma delivery_exactly_once_witness : committed demo3 = [demo_message 5] ∧ yielded demo3 ++ (messages_queue (delivery demo3)).*1 = [demo_message 5].
Proof.
  destruct (delivery_exactly_once demo_behaviour 1 (Some 100) true demo3 demo_reachable) as (H & _). split; [vm_compute; reflexivity | rewrite <- H; vm_compute; reflexivity].
Defined.

Lemma delivery_no_lost_wakeup_witness : ∃ d', resume_admission (demo_message 6) (Some 2) 0 Woken (delivery demo3) = (d', Done (Ok true)) ∧
  messages_queue d' = [(demo_message 6, Some 2)].
Proof.
  destruct (delivery_no_lost_wakeup demo_behaviour 1 (Some 100) true demo3 demo_reachable) as (_ & H & _).
  destruct (H 2%nat (mkAdmission (demo_message 6) (Some 2) 0) 0 ltac:(vm_compute; reflexivity)) as [_ Hr].
  destruct (Hr ltac:(vm_compute; reflexivity) ltac:(vm_compute; reflexivity)) as (_ & d' & E & Hq). exists d'. split; [exact E | exact Hq].
Defined.

Lemma callbacks_isolated_witness :
  let d := delivery_init Callback true 1 None in
  let r := accept demo_behaviour (demo_message 5) (Some (MessageRoute (λ _, [7; 8]))) None d in
  calls (callbacks r.1) = [(7, demo_message 5); (8, demo_message 5)] ∧ failures (callbacks r.1) = 1 ∧ r.2 = Ok None.
Proof.
  destruct (callbacks_isolated demo_behaviour (demo_message 5) (MessageRoute (λ _, [7; 8])) None (delivery_init Callback true 1 None) _ _ eq_refl
    ltac:(simpl; lia) ltac:(intros n f; unfold demo_behaviour; by case_match) (surjective_pairing _)) as (H1 & _ & H2 & _ & H3 & _).
  split_and!; [exact H1 | exact H2 | exact H3].
Defined.
