(* ===== verification/Lane.v ===== *)
(** * The delivery lane

    [api/_delivery_lane.py]: the deliveries of each ingress lot, which the reader hands
    to the application outside the protocol's locks.  [drain] is cut where it awaits. *)

From S2P Require Import Prelude EngineState Tasks Delivery.

(** An effect object: [e_id] is its identity. *)
Record EngineEffect := mkEffect { e_id : Z; e_data : Effect.t }.
Implicit Types (effect : EngineEffect) (effects : list EngineEffect).

Definition survives_connection effect : bool :=
  match e_data effect with
  | Effect.MESSAGE _ requires_delivery_mark _ _ | Effect.DECODED_MESSAGE _ requires_delivery_mark _ _ => negb requires_delivery_mark
  | _ => false
  end.

Record DeliveryLane := mkLane {
  l_pending : list (Z * Z * list EngineEffect); carryover : list EngineEffect; pending_count : Z; active_count : Z;
  l_enqueued : Z; l_applied : Z; l_high_water : Z }.
Implicit Types (l : DeliveryLane).

Definition DeliveryLane_init : DeliveryLane := mkLane [] [] 0 0 0 0 0.

Definition collect effects (epoch protocol_target : Z) l : DeliveryLane :=
  let pending_count := pending_count l + len effects in
  mkLane (l_pending l ++ [(epoch, protocol_target, effects)]) (carryover l) pending_count (active_count l) (l_enqueued l + len effects)
    (l_applied l) (Z.max (l_high_water l) pending_count).

Definition outstanding l : Z := pending_count l + active_count l.

(** An effect of the lot in hand is done with. *)
Definition count_applied l : DeliveryLane :=
  mkLane (l_pending l) (carryover l) (pending_count l) (active_count l - 1) (l_enqueued l) (l_applied l + 1) (l_high_water l).

(** The [finally] of [drain], with what is left of the lot. *)
Definition unwind effects l : DeliveryLane :=
  let survivors := filter (λ effect, survives_connection effect = true) effects in
  let kept := len survivors in
  mkLane (l_pending l) (survivors ++ carryover l) (pending_count l + kept) 0 (l_enqueued l) (l_applied l + (active_count l - kept)) (l_high_water l).

(** What handing an effect to its destination came to: done, something to await, or
    an exception. *)
Inductive handed := Now | Later | Refused (x : exn).

(** Where [drain] is: it ended, it awaits the protocol effects that come before the
    lot, or it awaits the delivery of [effect] with the rest of the lot behind it. *)
Inductive draining :=
  | Drained (r : res unit)
  | AtPump (epoch target : Z) effects
  | AtEffect (epoch : Z) effect effects.

(** The fate of an effect. *)
Inductive fate := Delivered | Failed (x : exn) | Dropped.
Abbreviation fates := (list (EngineEffect * fate)).

(** The effects of a lot given up that no later connection owes the application. *)
Definition dropped effects : fates := (λ effect, (effect, Dropped)) <$> filter (λ effect, survives_connection effect = false) effects.

(** [hand effect] is the answer of [_apply_delivery_effect]; [current] the connection
    epoch; [released] what [_flush_released_completions] raises at the end of a lot, if
    anything.  The second component is the fates, in order. *)
Section drain.
Context (hand : EngineEffect → handed) (released : option exn) (current : Z).

Fixpoint run_effects (epoch : Z) effects l (log : fates) : DeliveryLane * fates * option draining :=
  match effects with
  | [] =>
      match released with
      | Some x => if epoch =? current then (unwind [] l, log, Some (Drained (Raise x))) else (unwind [] l, log, None)
      | None => (unwind [] l, log, None)
      end
  | effect :: effects =>
      if negb (epoch =? current) && negb (survives_connection effect) then run_effects epoch effects (count_applied l) (log ++ [(effect, Dropped)])
      else
        match hand effect with
        | Now => run_effects epoch effects (count_applied l) (log ++ [(effect, Delivered)])
        | Later => (l, log, Some (AtEffect epoch effect effects))
        | Refused x => (unwind effects l, log ++ (effect, Failed x) :: dropped effects, Some (Drained (Raise x)))
        end
  end.

(** A lot leaves the lane when the reader takes it. *)
Definition take_lot effects (lots : list (Z * Z * list EngineEffect)) l : DeliveryLane :=
  mkLane lots (carryover l) (pending_count l - len effects) (len effects) (l_enqueued l) (l_applied l) (l_high_water l).

(** The loop over the lots, from the lots that are there. *)
Fixpoint run_lots (lots : list (Z * Z * list EngineEffect)) l (log : fates) : DeliveryLane * fates * draining :=
  match lots with
  | [] => (l, log, Drained (Ok tt))
  | (epoch, target, effects) :: lots =>
      let l := take_lot effects lots l in
      if epoch =? current then (l, log, AtPump epoch target effects)
      else
        match run_effects epoch effects l log with
        | (l, log, Some d) => (l, log, d)
        | (l, log, None) => run_lots lots l log
        end
  end.
Definition drain l : DeliveryLane * fates * draining := run_lots (l_pending l) l [].

(** The rest of the lot in hand, then the other lots. *)
Definition go_on (epoch : Z) effects l (log : fates) : DeliveryLane * fates * draining :=
  match run_effects epoch effects l log with
  | (l, log, Some d) => (l, log, d)
  | (l, log, None) => run_lots (l_pending l) l log
  end.

(** An interrupted wait: in callback mode the message had been delivered before it. *)
Definition interrupted (mode : MessageDelivery) (x : exn) effect : fate :=
  match mode, e_data effect with
  | Callback, (Effect.MESSAGE _ _ _ _ | Effect.DECODED_MESSAGE _ _ _ _) => Delivered
  | _, _ => Failed x
  end.

Definition resume_drain (mode : MessageDelivery) (d : draining) (answer : res unit) l : DeliveryLane * fates * draining :=
  match d, answer with
  | Drained r, _ => (l, [], Drained r)
  | AtPump epoch _ effects, Ok _ => go_on epoch effects l []
  | AtPump _ _ effects, Raise x => (unwind effects l, dropped effects, Drained (Raise x))
  | AtEffect epoch effect effects, Ok _ => go_on epoch effects (count_applied l) [(effect, Delivered)]
  | AtEffect _ effect effects, Raise x =>
      if match x, mode with CancelledError, Iterator => survives_connection effect | _, _ => false end
      then (unwind (effect :: effects) l, dropped effects, Drained (Raise x))
      else (unwind effects l, (effect, interrupted mode x effect) :: dropped effects, Drained (Raise x))
  end.
End drain.

(** Retiring a connection. *)
Definition discard l : DeliveryLane :=
  let queued := mjoin (snd <$> l_pending l) in
  let survivors := filter (λ effect, survives_connection effect = true) queued in
  let kept := len survivors in
  mkLane [] (carryover l ++ survivors) (pending_count l - (len queued - kept)) (active_count l) (l_enqueued l)
    (l_applied l + (len queued - kept)) (l_high_water l).

Definition take_carryover l : list EngineEffect * DeliveryLane :=
  (carryover l, mkLane (l_pending l) [] (pending_count l - len (carryover l)) (active_count l) (l_enqueued l) (l_applied l + len (carryover l)) (l_high_water l)).

(** [_flush_delivery_carryover] of the client: when a message is refused, the others
    have left the lane. *)
Fixpoint deliver_carried (hand : EngineEffect → handed) effects : fates * res unit :=
  match effects with
  | [] => ([], Ok tt)
  | effect :: effects =>
      match hand effect with
      | Refused x => ((effect, Failed x) :: ((λ effect, (effect, Dropped)) <$> effects), Raise x)
      | _ => let '(log, r) := deliver_carried hand effects in ((effect, Delivered) :: log, r)
      end
  end.
Definition _flush_delivery_carryover (hand : EngineEffect → handed) l : DeliveryLane * fates * res unit :=
  let '(carried, l) := take_carryover l in
  let '(log, r) := deliver_carried hand carried in (l, log, r).
