(* ===== verification/LaneTheorems.v ===== *)
(** * Acknowledged messages are never dropped

    The reader's drains, retired connections and the carry-over, in any order. *)

From S2P Require Import Prelude Enums Types EngineState Tasks Delivery Lane.

Implicit Types (effect : EngineEffect) (effects : list EngineEffect) (l : DeliveryLane) (log : fates).

Abbreviation owed := (filter (λ effect, survives_connection effect = true)).
Definition queued l : list EngineEffect := mjoin (snd <$> l_pending l).
Definition in_hand (r : draining) : list EngineEffect :=
  match r with Drained _ => [] | AtPump _ _ effects => effects | AtEffect _ effect effects => effect :: effects end.

(** [reader]: where its drain is; [collected]: what the engine gave, in order;
    [settled]: what became of it. *)
Record system := mkSystem { lane : DeliveryLane; reader : draining; epoch : Z; collected : list EngineEffect; settled : fates }.
Implicit Types (s : system).

Definition ran (r : DeliveryLane * fates * draining) s : system := mkSystem r.1.1 r.2 (epoch s) (collected s) (settled s ++ r.1.2).
Definition ended (r : draining) : Prop := match r with Drained _ => True | _ => False end.
Definition idle s : Prop := ended (reader s).

(** Only the reader takes deliveries out of the engine: outside [drain], or within it
    for the replay of its own connection, before anything was carried over.  It starts
    to drain when the carry-over has been delivered. *)
Inductive step (mode : MessageDelivery) : system → system → Prop :=
  | s_collect s effects target : idle s ∨ carryover (lane s) = [] →
      step mode s (mkSystem (collect effects (epoch s) target (lane s)) (reader s) (epoch s) (collected s ++ effects) (settled s))
  | s_drain s hand released : idle s → carryover (lane s) = [] → step mode s (ran (drain hand released (epoch s) (lane s)) s)
  | s_resume s hand released answer : ¬ idle s → step mode s (ran (resume_drain hand released (epoch s) mode (reader s) answer (lane s)) s)
  | s_retire s : step mode s (mkSystem (discard (lane s)) (reader s) (epoch s + 1) (collected s) (settled s ++ dropped (queued (lane s))))
  | s_carry s hand l log : idle s → _flush_delivery_carryover hand (lane s) = (l, log, Ok tt) →
      step mode s (mkSystem l (reader s) (epoch s) (collected s) (settled s ++ log)).

Inductive reachable (mode : MessageDelivery) : system → Prop :=
  | reach_init : reachable mode (mkSystem DeliveryLane_init (Drained (Ok tt)) 0 [] [])
  | reach_step s s' : reachable mode s → step mode s s' → reachable mode s'.

(** ** The books *)

Definition kept log : Prop := ∀ effect f, (effect, f) ∈ log → survives_connection effect = true → f ≠ Dropped.

(** [col]: what was collected; [log]: what was settled; [h]: the lot in hand. *)
Record books (col : list EngineEffect) log (h : list EngineEffect) l : Prop := {
  b_order : owed col = owed log.*1 ++ owed h ++ carryover l ++ owed (queued l);
  b_all : col ≡ₚ log.*1 ++ h ++ carryover l ++ queued l;
  b_pending : pending_count l = len (carryover l) + len (queued l);
  b_active : active_count l = len h;
  b_enqueued : l_enqueued l = len col;
  b_applied : l_applied l = len log;
  b_carry : Forall (λ effect, survives_connection effect = true) (carryover l);
  b_kept : kept log }.

Lemma owed_all effects : Forall (λ effect, survives_connection effect = true) effects → owed effects = effects.
Proof. induction 1 as [| e es He _ IH]; [done |]. rewrite filter_cons_True by done. by rewrite IH. Qed.

Lemma dropped_owed effects : owed (dropped effects).*1 = [].
Proof.
  unfold dropped. rewrite <- list_fmap_compose. induction effects as [| e es IH]; [done |].
  rewrite filter_cons. case_decide; [| exact IH]. simpl. rewrite filter_cons_False by congruence. exact IH.
Qed.
Lemma dropped_split effects : effects ≡ₚ (dropped effects).*1 ++ owed effects.
Proof.
  unfold dropped. induction effects as [| e es IH]; [done |]. rewrite !filter_cons.
  destruct (survives_connection e) eqn:E; repeat case_decide; try congruence; simpl; rewrite IH at 1; [by rewrite Permutation_middle | done].
Qed.
Lemma dropped_len effects : len effects = len (dropped effects) + len (owed effects).
Proof. pose proof (Permutation_length (dropped_split effects)) as H. rewrite length_app, length_fmap in H. unfold len. lia. Qed.
Lemma kept_app log log' : kept log → kept log' → kept (log ++ log').
Proof. intros H H' e f [? | ?]%elem_of_app; eauto. Qed.
Lemma dropped_kept effects : kept (dropped effects).
Proof. intros e f (e' & [= -> ->] & [He _]%list_elem_of_filter)%list_elem_of_fmap Hs. congruence. Qed.
Lemma kept_one effect f : (survives_connection effect = true → f ≠ Dropped) → kept [(effect, f)].
Proof. intros H e f' [= -> ->]%list_elem_of_singleton. done. Qed.

Lemma books_unwind col log effects l : books col log effects l → books col (log ++ dropped effects) [] (unwind effects l).
Proof.
  intros []. constructor; simpl; try done.
  - rewrite b_order0, fmap_app, filter_app, dropped_owed. simpl. by rewrite app_nil_r, <- !app_assoc.
  - rewrite b_all0, fmap_app. simpl. rewrite (dropped_split effects) at 1. by rewrite <- !app_assoc.
  - rewrite len_app. unfold queued in *. simpl. lia.
  - rewrite b_applied0, b_active0, len_app. pose proof (dropped_len effects). lia.
  - apply Forall_app. split; [| done]. apply Forall_forall. intros e [? _]%list_elem_of_filter. done.
  - apply kept_app; [done | apply dropped_kept].
Qed.

Lemma books_settle col log effect f effects l : (survives_connection effect = true → f ≠ Dropped) → books col log (effect :: effects) l →
  books col (log ++ [(effect, f)]) effects (count_applied l).
Proof.
  intros Hf []. constructor; simpl; try done.
  - rewrite b_order0, fmap_app, filter_app, <- app_assoc. simpl. rewrite !(filter_cons _ effect). by case_decide.
  - rewrite b_all0, fmap_app, <- app_assoc. done.
  - rewrite b_active0, len_cons. lia.
  - rewrite b_applied0, len_app. unfold len at 3. simpl. lia.
  - apply kept_app; [done | by apply kept_one].
Qed.

Lemma books_fail col log effect f effects l : (survives_connection effect = true → f ≠ Dropped) → books col log (effect :: effects) l →
  books col (log ++ (effect, f) :: dropped effects) [] (unwind effects l).
Proof.
  intros Hf H. apply (books_settle _ _ _ f) in H; [| done]. apply books_unwind in H. rewrite <- app_assoc in H. simpl in H.
  destruct H. constructor; try done. simpl in *. lia.
Qed.

Lemma lane_books_take col log epoch target effects lots l : l_pending l = (epoch, target, effects) :: lots → carryover l = [] → books col log [] l →
  books col log effects (take_lot effects lots l).
Proof.
  intros Hl Hc []. assert (queued l = effects ++ queued (take_lot effects lots l)) as Hq by (unfold queued; by rewrite Hl).
  rewrite Hq, Hc in *. constructor; simpl; rewrite ?Hc; try done.
  - by rewrite b_order0, filter_app.
  - rewrite b_pending0, len_app. lia.
Qed.

Section drain.
Context (hand : EngineEffect → handed) (released : option exn) (current : Z) (col : list EngineEffect).

(** Where a stretch of [drain] ends: the books are kept, and while the reader is in
    the drain only one of the carry-over and the queue holds anything. *)
Definition well (r : DeliveryLane * fates * draining) (log : fates) : Prop :=
  books col (log ++ r.1.2) (in_hand r.2) r.1.1 ∧ (ended r.2 ∨ carryover r.1.1 = [] ∨ l_pending r.1.1 = []).

Lemma run_effects_books log0 epoch effects : ∀ l log, books col (log0 ++ log) effects l →
  match run_effects hand released current epoch effects l log with
  | (l', log', Some d) => books col (log0 ++ log') (in_hand d) l' ∧ l_pending l' = l_pending l ∧ (ended d ∨ carryover l' = carryover l)
  | (l', log', None) => books col (log0 ++ log') [] l' ∧ l_pending l' = l_pending l ∧ carryover l' = carryover l
  end.
Proof.
  induction effects as [| e es IH]; intros l log H; simpl.
  - apply books_unwind in H. unfold dropped in H. simpl in H. rewrite app_nil_r in H. destruct released as [x |], (epoch =? current); split_and!; done || by left.
  - destruct (negb (epoch =? current) && negb (survives_connection e)) eqn:Est.
    + apply andb_true_iff in Est as [_ Est]. bools. specialize (IH (count_applied l) (log ++ [(e, Dropped)])). rewrite app_assoc in IH.
      apply IH, books_settle; [congruence | done].
    + destruct (hand e) as [| | x] eqn:Eh.
      * specialize (IH (count_applied l) (log ++ [(e, Delivered)])). rewrite app_assoc in IH. apply IH, books_settle; done.
      * simpl. auto.
      * simpl. rewrite app_assoc. split; [by apply books_fail | auto].
Qed.

Lemma run_lots_books log0 : ∀ lots l log, lots = l_pending l → (carryover l = [] ∨ l_pending l = []) → books col (log0 ++ log) [] l →
  well (run_lots hand released current lots l log) log0.
Proof.
  induction lots as [| [[ep target] es] lots IH]; intros l log Hl Hc H; simpl; [split; simpl; auto |].
  destruct Hc as [Hc | Hc]; [| congruence]. apply (lane_books_take _ _ ep target es lots) in H; [| done | done].
  case_match; [split; simpl; auto |]. pose proof (run_effects_books log0 ep es _ _ H) as Hr.
  destruct (run_effects hand released current ep es (take_lot es lots l) log) as [[l' log'] [d |]].
  - destruct Hr as (Hb & Hp & Hd). split; [done |]. simpl. destruct Hd as [? | Hd]; [auto |]. right. left. by rewrite Hd.
  - destruct Hr as (Hb & Hp & Hd). apply IH; [by rewrite Hp | left; by rewrite Hd | done].
Qed.

Lemma go_on_books log0 epoch effects l log : (carryover l = [] ∨ l_pending l = []) → books col (log0 ++ log) effects l →
  well (go_on hand released current epoch effects l log) log0.
Proof.
  intros Hc H. unfold go_on. pose proof (run_effects_books log0 epoch effects l log H) as Hr.
  destruct (run_effects hand released current epoch effects l log) as [[l' log'] [d |]].
  - destruct Hr as (Hb & Hp & Hd). split; [done |]. simpl. rewrite Hp. destruct Hd as [? | ->]; tauto.
  - destruct Hr as (Hb & Hp & Hd). apply run_lots_books; [done | by rewrite Hp, Hd | done].
Qed.

Lemma resume_books log mode r answer l : (carryover l = [] ∨ l_pending l = []) → books col log (in_hand r) l →
  well (resume_drain hand released current mode r answer l) log.
Proof.
  intros Hc H. destruct r as [r | ep t es | ep e es], answer as [[] | x]; simpl in *.
  1,2: split; simpl; rewrite ?app_nil_r; auto.
  - apply go_on_books; [done | by rewrite app_nil_r].
  - split; simpl; [by apply books_unwind | auto].
  - apply go_on_books; [done |]. apply books_settle; done.
  - case_match eqn:Eb; (split; [| simpl; auto]); simpl.
    + assert (survives_connection e = true) as He by (destruct x, mode; done).
      apply books_unwind in H. unfold dropped in H. rewrite filter_cons_False in H by congruence. exact H.
    + apply books_fail; [| done]. intros _. unfold interrupted. repeat case_match; done.
Qed.
End drain.

(** ** The invariant *)

Definition inv s : Prop := books (collected s) (settled s) (in_hand (reader s)) (lane s) ∧
  (ended (reader s) ∨ carryover (lane s) = [] ∨ l_pending (lane s) = []).

Lemma ended_hand (r : draining) : ended r → in_hand r = [].
Proof. by destruct r. Qed.

Lemma deliver_carried_ok hand effects log : deliver_carried hand effects = (log, Ok tt) → log = (λ effect, (effect, Delivered)) <$> effects.
Proof.
  revert log. induction effects as [| e es IH]; intros log; simpl; [by intros [= <-] |].
  destruct (hand e); [| | done]; destruct (deliver_carried hand es) as [log' r]; intros [= <- ->]; by rewrite (IH log').
Qed.

Lemma fst_tagged effects (f : fate) : ((λ effect, (effect, f)) <$> effects).*1 = effects.
Proof. rewrite <- list_fmap_compose. apply list_fmap_id. Qed.

Lemma lane_books_discard col log h l : books col log h l → books col (log ++ dropped (queued l)) h (discard l).
Proof.
  intros []. assert (queued (discard l) = []) as Hq by done. constructor; rewrite ?Hq; simpl; try done.
  - by rewrite b_order0, fmap_app, filter_app, dropped_owed, !app_nil_r.
  - rewrite b_all0, fmap_app, app_nil_r, <- !app_assoc. f_equiv. rewrite (dropped_split (queued l)) at 1.
    by rewrite (Permutation_app_swap_app (carryover l)), (Permutation_app_swap_app h).
  - fold (queued l). rewrite len_app. pose proof (dropped_len (queued l)). change (len []) with 0. lia.
  - fold (queued l). rewrite b_applied0, len_app. pose proof (dropped_len (queued l)). lia.
  - apply Forall_app. split; [done |]. apply Forall_forall. intros e [? _]%list_elem_of_filter. done.
  - apply kept_app; [done | apply dropped_kept].
Qed.

Lemma books_collect col log h effects ep target l : books col log h l → h = [] ∨ carryover l = [] ∨ True → books (col ++ effects) log h (collect effects ep target l).
Proof.
  intros [] _. assert (queued (collect effects ep target l) = queued l ++ effects) as Hq.
  { unfold queued. simpl. rewrite fmap_app, join_app. simpl. by rewrite app_nil_r. }
  constructor; rewrite ?Hq; simpl; try done.
  - by rewrite !filter_app, b_order0, <- !app_assoc.
  - by rewrite b_all0, <- !app_assoc.
  - rewrite !len_app. lia.
  - rewrite !len_app. lia.
Qed.

Lemma books_carry col log l l' log' hand : books col log [] l → _flush_delivery_carryover hand l = (l', log', Ok tt) → books col (log ++ log') [] l'.
Proof.
  intros [] H. unfold _flush_delivery_carryover, take_carryover in H. destruct (deliver_carried hand (carryover l)) as [lg r] eqn:E.
  injection H as <- <- ->. apply deliver_carried_ok in E as ->.
  constructor; simpl; try done.
  - rewrite b_order0, fmap_app, filter_app, fst_tagged, (owed_all (carryover l)) by done. unfold queued. simpl. by rewrite <- app_assoc.
  - rewrite b_all0, fmap_app, fst_tagged. unfold queued. simpl. by rewrite <- app_assoc.
  - unfold queued in *. simpl. change (len []) with 0. lia.
  - rewrite b_applied0, len_app. unfold len at 4. rewrite length_fmap. unfold len. lia.
  - apply kept_app; [done |]. intros e f (e' & [= -> ->] & _)%list_elem_of_fmap _. done.
Qed.

Lemma inv_step mode s s' : inv s → step mode s s' → inv s'.
Proof.
  intros [Hb Hx] H. destruct H as [s effects target Hi | s hand released Hi Hc | s hand released answer Hi | s | s hand l log Hi Hf].
  - split; simpl; [by apply books_collect; auto |]. destruct Hi; [by left | by right; left].
  - apply run_lots_books; [done | by left |]. rewrite app_nil_r. by rewrite (ended_hand _ Hi) in Hb.
  - apply resume_books; [| done]. destruct Hx; [done | done].
  - split; simpl; [by apply lane_books_discard |]. right. by right.
  - rewrite (ended_hand _ Hi) in Hb. split; simpl; [| by left]. rewrite (ended_hand _ Hi). by eapply books_carry.
Qed.

Lemma reachable_lane mode s : reachable mode s → inv s.
Proof. induction 1 as [| s s' _ IH H]; [| by eapply inv_step]. split; [| by left]. constructor; simpl; try done. intros e f []%elem_of_nil. Qed.


(** *** An example

    An acknowledged message and one to be marked are interrupted with their
    connection while the first waits for room. *)
Definition demo_effect (id : Z) (mark : bool) : EngineEffect :=
  mkEffect id (Effect.MESSAGE (_decoded_message [116] [id] AT_MOST_ONCE false false None None) mark None None).
Definition demo1 : system := mkSystem (collect [demo_effect 1 false; demo_effect 2 true] 0 0 DeliveryLane_init) (Drained (Ok tt)) 0
  [demo_effect 1 false; demo_effect 2 true] [].
Definition demo2 : system := ran (drain (λ _, Later) None 0 (lane demo1)) demo1.
Definition demo3 : system := ran (resume_drain (λ _, Later) None 0 Iterator (reader demo2) (Ok tt) (lane demo2)) demo2.
Definition demo4 : system := mkSystem (discard (lane demo3)) (reader demo3) 1 (collected demo3) (settled demo3 ++ dropped (queued (lane demo3))).
Definition demo5 : system := ran (resume_drain (λ _, Later) None 1 Iterator (reader demo4) (Raise CancelledError) (lane demo4)) demo4.

Lemma lane_demo_reachable : reachable Iterator demo5.
Proof.
  eapply reach_step; [eapply reach_step; [eapply reach_step; [eapply reach_step; [eapply reach_step; [apply reach_init |] |] |] |] |].
  - apply (s_collect Iterator (mkSystem DeliveryLane_init (Drained (Ok tt)) 0 [] []) [demo_effect 1 false; demo_effect 2 true] 0). by left.
  - by apply (s_drain Iterator demo1 (λ _, Later) None).
  - apply (s_resume Iterator demo2 (λ _, Later) None (Ok tt)). intros H. exact H.
  - apply (s_retire Iterator demo3).
  - apply (s_resume Iterator demo4 (λ _, Later) None (Raise CancelledError)). intros H. exact H.
Qed.


(** The client empties the carry-over before it delivers it: when a callback raises
    [CancelledError] in a task that is itself being cancelled, which is how a retired
    reader runs this, the acknowledged messages behind it are lost. *)
Lemma carried_lost : ∃ l l' log, carryover l = [demo_effect 1 false; demo_effect 2 false] ∧
  _flush_delivery_carryover (λ effect, if e_id effect =? 1 then Refused CancelledError else Now) l = (l', log, Raise CancelledError) ∧
  carryover l' = [] ∧ (demo_effect 2 false, Dropped) ∈ log.
Proof.
  exists (mkLane [] [demo_effect 1 false; demo_effect 2 false] 2 0 2 0 2). eexists _, _. split_and!; [done | reflexivity | done |]. simpl. set_solver.
Qed.
