(* ===== verification/EffectPump.v ===== *)
(** * The effect pump

    [api/_effects.py]: the ordered lane between the protocol engine and the client,
    which applies effects at once where it can and leaves the others to a flusher
    task.  The flusher and the callers of [drain] are cut where they await. *)

From S2P Require Import Prelude EngineState Tasks Lane.

Implicit Types (effect : EngineEffect) (effects : list EngineEffect).

(** ** Kinds *)

Definition is_send effect : bool := match e_data effect with Effect.SEND _ | Effect.SEND_ACK _ => true | _ => false end.
Definition IMMEDIATE_EFFECTS effect : bool :=
  match e_data effect with
  | Effect.AUTH _ _ _ | Effect.CONNACK _ | Effect.PUBLISH_COMPLETE _ | Effect.PUBLISH_FAILED _ _ | Effect.SUBACK _ | Effect.UNSUBACK _ | Effect.PINGRESP => true
  | _ => false
  end.
Definition EARLY_OBSERVATIONS effect : bool :=
  match e_data effect with Effect.DISCONNECTED _ _ _ | Effect.PROTOCOL_ERROR _ => true | _ => false end.
Definition _DELIVERIES effect : bool :=
  match e_data effect with Effect.MESSAGE _ _ _ _ | Effect.DECODED_MESSAGE _ _ _ _ | Effect.CONTINUE_INBOUND_REPLAY => true | _ => false end.
Definition terminal_publish effect : bool :=
  match e_data effect with Effect.PUBLISH_COMPLETE _ | Effect.PUBLISH_FAILED _ _ => true | _ => false end.

Definition isnil {A} (l : list A) : bool := match l with [] => true | _ => false end.

(** The four lists and the flag of [_partition_effects], effect by effect. *)
Record partition := mkPartition { sends : list EngineEffect; others : list EngineEffect; deliveries : list EngineEffect; observed : list EngineEffect; reordered : bool }.
Definition partition_step (p : partition) effect : partition :=
  if is_send effect then
    mkPartition (sends p ++ [effect]) (others p) (deliveries p) (observed p)
      (if negb (isnil (others p)) || negb (isnil (deliveries p)) then true else reordered p)
  else if _DELIVERIES effect then mkPartition (sends p) (others p) (deliveries p ++ [effect]) (observed p) (reordered p)
  else if IMMEDIATE_EFFECTS effect then mkPartition (sends p) (others p) (deliveries p) (observed p ++ [effect]) (reordered p)
  else
    mkPartition (sends p) (others p ++ [effect]) (deliveries p)
      (if EARLY_OBSERVATIONS effect then observed p ++ [effect] else observed p) (reordered p).
Definition _partition_effects effects : list EngineEffect * list EngineEffect * list EngineEffect * bool :=
  let p := foldl partition_step (mkPartition [] [] [] [] false) effects in
  (if reordered p || negb (isnil (deliveries p)) || negb (isnil (observed p)) then sends p ++ others p else effects, deliveries p, observed p, reordered p).

(** ** State *)

Record Counters := mkCounters { batches : Z; multi_effect_batches : Z; reordered_batches : Z; inline_effects : Z; apply_suspensions : Z; observations : Z }.

(** What the flusher that holds the lock awaits: the client's [_apply_effect], or the
    end of the transport after a failure. *)
Inductive phase := Applying (effect : EngineEffect) | Closing.

(** The flusher tasks: those not yet started or waiting for the lock, the one that
    holds it, and those that ended and whose [_done] is still to be called. *)
Record Flushers := mkFlushers { next_task : nat; created : gset nat; holder : option (nat * phase); finished : gmap nat (res unit) }.

(** [owner_epoch] is the client's [_connection_epoch]; [task] the identity of the task
    in [self.task].  Nothing reads [log]: it records, in order, what became of the
    effects that were to be applied in order. *)
Inductive manner := Given | Discarded.
Record EffectPump := mkPump {
  pending : list EngineEffect; pending_epoch : Z; enqueued : Z; applied : Z; pending_high_water : Z; progress : Event; waiters : Z;
  error : option exn; _next_waiter_id : Z; _waiter_targets : gmap Z Z; _error_waiters : gset Z; task : option nat; flush_requested : bool;
  _failing_close : bool; counters : Counters; lane : DeliveryLane; owner_epoch : Z; flushers : Flushers; log : list (EngineEffect * manner) }.
Implicit Types (p : EffectPump).

Definition EffectPump_init (epoch : Z) : EffectPump :=
  mkPump [] epoch 0 0 0 new_event 0 None 0 ∅ ∅ None false false (mkCounters 0 0 0 0 0 0) DeliveryLane_init epoch (mkFlushers 0 ∅ None ∅) [].

Definition set_pending effects (epoch enq app : Z) p :=
  mkPump effects epoch enq app (pending_high_water p) (progress p) (waiters p) (error p) (_next_waiter_id p) (_waiter_targets p) (_error_waiters p)
    (task p) (flush_requested p) (_failing_close p) (counters p) (lane p) (owner_epoch p) (flushers p) (log p).
Definition set_progress (e : Event) p :=
  mkPump (pending p) (pending_epoch p) (enqueued p) (applied p) (pending_high_water p) e (waiters p) (error p) (_next_waiter_id p) (_waiter_targets p)
    (_error_waiters p) (task p) (flush_requested p) (_failing_close p) (counters p) (lane p) (owner_epoch p) (flushers p) (log p).
Definition set_waiters (n next : Z) (targets : gmap Z Z) p :=
  mkPump (pending p) (pending_epoch p) (enqueued p) (applied p) (pending_high_water p) (progress p) n (error p) next targets
    (_error_waiters p) (task p) (flush_requested p) (_failing_close p) (counters p) (lane p) (owner_epoch p) (flushers p) (log p).
Definition set_error (x : option exn) (owners : gset Z) p :=
  mkPump (pending p) (pending_epoch p) (enqueued p) (applied p) (pending_high_water p) (progress p) (waiters p) x (_next_waiter_id p) (_waiter_targets p)
    owners (task p) (flush_requested p) (_failing_close p) (counters p) (lane p) (owner_epoch p) (flushers p) (log p).
Definition set_tasks (t : option nat) (requested : bool) (f : Flushers) p :=
  mkPump (pending p) (pending_epoch p) (enqueued p) (applied p) (pending_high_water p) (progress p) (waiters p) (error p) (_next_waiter_id p) (_waiter_targets p)
    (_error_waiters p) t requested (_failing_close p) (counters p) (lane p) (owner_epoch p) f (log p).
Definition set_failing (b : bool) p :=
  mkPump (pending p) (pending_epoch p) (enqueued p) (applied p) (pending_high_water p) (progress p) (waiters p) (error p) (_next_waiter_id p) (_waiter_targets p)
    (_error_waiters p) (task p) (flush_requested p) b (counters p) (lane p) (owner_epoch p) (flushers p) (log p).
Definition set_counters (c : Counters) (high : Z) p :=
  mkPump (pending p) (pending_epoch p) (enqueued p) (applied p) high (progress p) (waiters p) (error p) (_next_waiter_id p) (_waiter_targets p)
    (_error_waiters p) (task p) (flush_requested p) (_failing_close p) c (lane p) (owner_epoch p) (flushers p) (log p).
Definition set_lane (l : DeliveryLane) (epoch : Z) p :=
  mkPump (pending p) (pending_epoch p) (enqueued p) (applied p) (pending_high_water p) (progress p) (waiters p) (error p) (_next_waiter_id p) (_waiter_targets p)
    (_error_waiters p) (task p) (flush_requested p) (_failing_close p) (counters p) l epoch (flushers p) (log p).
Definition record (how : manner) effects p :=
  mkPump (pending p) (pending_epoch p) (enqueued p) (applied p) (pending_high_water p) (progress p) (waiters p) (error p) (_next_waiter_id p) (_waiter_targets p)
    (_error_waiters p) (task p) (flush_requested p) (_failing_close p) (counters p) (lane p) (owner_epoch p) (flushers p)
    (log p ++ ((λ effect, (effect, how)) <$> effects)).

Definition count_batch (multi reordered : Z) p :=
  let c := counters p in
  set_counters (mkCounters (batches c) (multi_effect_batches c + multi) (reordered_batches c + reordered) (inline_effects c) (apply_suspensions c) (observations c))
    (pending_high_water p) p.
Definition count_inline p :=
  let c := counters p in
  set_counters (mkCounters (batches c) (multi_effect_batches c) (reordered_batches c) (inline_effects c + 1) (apply_suspensions c) (observations c))
    (pending_high_water p) p.
Definition count_observations (n : Z) p :=
  let c := counters p in
  set_counters (mkCounters (batches c) (multi_effect_batches c) (reordered_batches c) (inline_effects c) (apply_suspensions c) (observations c + n))
    (pending_high_water p) p.
Definition sample_high (n : Z) p := set_counters (counters p) (Z.max (pending_high_water p) n) p.

Definition wake p : EffectPump := if waiters p =? 0 then p else set_progress (set_event (progress p)) p.

(** [is]: the identity of two effect objects. *)
Definition same effect effect' : bool := e_id effect =? e_id effect'.

(** The queued effects that no flusher is applying. *)
Definition waiting p : list EngineEffect :=
  match holder (flushers p), pending p with
  | Some (_, Applying effect), head :: rest => if same head effect then rest else head :: rest
  | _, effects => effects
  end.

(** ** Discarding *)

Definition discard_connection_effects (settle_publish : bool) p : EffectPump :=
  let keep := λ effect, negb settle_publish && terminal_publish effect in
  let retained := filter (λ effect, keep effect = true) (pending p) in
  let discarded := len (pending p) - len retained in
  let gone := filter (λ effect, keep effect = false) (waiting p) in
  let p := record Discarded gone p in
  let p := set_pending retained (if isnil retained then pending_epoch p else owner_epoch p) (enqueued p) (applied p + discarded) p in
  wake p.

(** ** Scheduling *)

Definition live (i : nat) p : bool :=
  let f := flushers p in
  bool_decide (i ∈ created f) || match holder f with Some (j, _) => Nat.eqb i j | None => false end.

Definition schedule p : EffectPump :=
  let f := flushers p in
  if match task p with Some i => live i p | None => false end then set_tasks (task p) true f p
  else set_tasks (Some (next_task f)) true (mkFlushers (S (next_task f)) ({[next_task f]} ∪ created f) (holder f) (finished f)) p.

Definition locked p : bool := match holder (flushers p) with Some _ => true | None => false end.

(** ** Collecting *)

(** The answer of [_apply_effect_inline].  [_apply_observation] is done with the
    immediate effects, and with nothing else. *)
Inductive inlined := Applied | NotNow | Raising (x : exn).

Section owner.
Context (inline : EngineEffect → inlined).

Definition enqueue_effects effects (lot : list EngineEffect) p : EffectPump :=
  let epoch := if isnil (pending p) then owner_epoch p else pending_epoch p in
  let p := set_pending (pending p ++ effects) epoch (enqueued p + len effects) (applied p) p in
  let p := if isnil lot then p else set_lane (collect lot (owner_epoch p) (enqueued p) (lane p)) (owner_epoch p) p in
  sample_high (len (pending p) + outstanding (lane p)) p.

(** [None]: the effect is still to be queued. *)
Definition _collect_single effect p : option (res unit) * EffectPump :=
  if _DELIVERIES effect then
    let p := set_lane (collect [effect] (owner_epoch p) (enqueued p) (lane p)) (owner_epoch p) p in
    (Some (Ok tt), sample_high (len (pending p) + outstanding (lane p)) p)
  else
    let observe p :=
      if IMMEDIATE_EFFECTS effect || EARLY_OBSERVATIONS effect then
        let p := count_observations 1 p in
        if IMMEDIATE_EFFECTS effect then (Some (Ok tt), p) else (None, p)
      else (None, p) in
    if isnil (pending p) then
      match inline effect with
      | Applied => (Some (Ok tt), record Given [effect] (count_inline p))
      | Raising x => (Some (Raise x), record Given [effect] p)
      | NotNow => observe p
      end
    else observe p.

Definition collect_from_engine effects p : res unit * EffectPump :=
  match effects with
  | [] => (Ok tt, p)
  | _ =>
      let epoch := owner_epoch p in
      let c := counters p in
      let p := set_counters (mkCounters (batches c + 1) (multi_effect_batches c) (reordered_batches c) (inline_effects c) (apply_suspensions c) (observations c))
                 (pending_high_water p) p in
      let p := if negb (isnil (pending p)) && negb (pending_epoch p =? epoch) then discard_connection_effects false p else p in
      if _failing_close p then
        let p := set_pending (pending p ++ effects) (if isnil (pending p) then epoch else pending_epoch p) (enqueued p + len effects) (applied p) p in
        let p := sample_high (len (pending p)) p in
        (Ok tt, discard_connection_effects true p)
      else
        match effects with
        | [effect] =>
            match _collect_single effect p with
            | (Some r, p) => (r, p)
            | (None, p) => (Ok tt, enqueue_effects [effect] [] p)
            end
        | _ =>
            let '(effects, lot, observed, reordered) := _partition_effects effects in
            let p := count_batch 1 (if reordered then 1 else 0) p in
            let p := count_observations (len observed) p in
            if negb (isnil observed) && isnil effects && isnil lot then (Ok tt, p)
            else (Ok tt, enqueue_effects effects lot p)
        end
  end.

Definition _complete p : EffectPump := wake (set_pending (pending p) (pending_epoch p) (enqueued p) (applied p + 1) p).
Definition popleft p : EffectPump := set_pending (tail (pending p)) (pending_epoch p) (enqueued p) (applied p) p.

(** The loop of [drain_inline], from the effects that are queued. *)
Fixpoint inline_loop effects (target : option Z) p : res unit * EffectPump :=
  match effects with
  | [] => (Ok tt, p)
  | effect :: effects =>
      if match target with Some t => applied p <? t | None => true end then
        match inline effect with
        | Applied => inline_loop effects target (_complete (count_inline (popleft (record Given [effect] p))))
        | NotNow => (Ok tt, p)
        | Raising x => (Raise x, p)
        end
      else (Ok tt, p)
  end.

Definition drain_inline (target : option Z) p : res unit * EffectPump :=
  if locked p || isnil (pending p) then (Ok tt, p)
  else
    let p := if negb (pending_epoch p =? owner_epoch p) then discard_connection_effects false p else p in
    if isnil (pending p) then (Ok tt, p)
    else
      let '(r, p) := inline_loop (pending p) target p in
      match r with
      | Ok _ => (Ok tt, if isnil (pending p) then p else schedule p)
      | Raise x => (Raise x, p)
      end.

(** ** The flusher *)

Definition set_flushers (f : Flushers) p : EffectPump := set_tasks (task p) (flush_requested p) f p.
Definition hold (i : nat) (ph : phase) p : EffectPump :=
  let f := flushers p in set_flushers (mkFlushers (next_task f) (created f) (Some (i, ph)) (finished f)) p.
Definition finish (i : nat) (r : res unit) p : EffectPump :=
  let f := flushers p in set_flushers (mkFlushers (next_task f) (created f) None (<[i := r]> (finished f))) p.

Definition apply_head (i : nat) p : EffectPump :=
  match pending p with
  | [] => finish i (Ok tt) (set_tasks (task p) false (flushers p) p)
  | effect :: _ => hold i (Applying effect) (record Given [effect] p)
  end.
(** From the top of the inner loop to its next await or to the end of the task. *)
Definition flush_loop (i : nat) p : EffectPump :=
  if negb (isnil (pending p)) && negb (pending_epoch p =? owner_epoch p) then apply_head i (discard_connection_effects false p) else apply_head i p.

(** The task has the lock. *)
Definition start_flush (i : nat) p : EffectPump :=
  let f := flushers p in
  flush_loop i (set_tasks (task p) false (mkFlushers (next_task f) (created f ∖ {[i]}) None (finished f)) p).

(** How [_apply_effect] ended: [AFailed] for an exception, a dependency's cancellation
    included; [ACancelled] when the flusher itself was cancelled. *)
Inductive application := AOk | AStale | AFailed (x : exn) | ACancelled.

Definition _fail_connection (x : exn) p : EffectPump :=
  let failure_at := applied p in
  let owners := dom (filter (λ w, failure_at ≤ w.2) (_waiter_targets p)) in
  let p := if bool_decide (owners = ∅) then p else set_progress (set_event (progress p)) (set_error (Some x) owners p) in
  discard_connection_effects true (set_failing true p).

(** From the end of the await to the next one.  The lock stays with the flusher in
    between, where nobody else runs: [release] only says that the await is over. *)
Definition effect_applied (i : nat) effect (a : application) p : EffectPump :=
  let f := flushers p in
  let release p := set_flushers (mkFlushers (next_task f) (created f) None (finished f)) p in
  match a with
  | ACancelled => finish i (Raise CancelledError) p
  | _ =>
      let p := match pending p with
               | head :: _ => if same head effect then _complete (popleft (release p)) else release p
               | [] => release p
               end in
      match a with
      | AFailed x => hold i Closing (_fail_connection x p)
      | _ => flush_loop i p
      end
  end.

(** The transport was closed, or closing it raised. *)
Definition connection_failed (i : nat) (r : res unit) p : EffectPump :=
  let p := if isnil (pending p) then p else discard_connection_effects true p in
  finish i r (set_failing false p).

Definition _done (i : nat) (r : res unit) p : EffectPump :=
  let owned := bool_decide (task p = Some i) in
  let f := flushers p in
  let p := set_tasks (if owned then None else task p) (flush_requested p) (mkFlushers (next_task f) (created f) (holder f) (delete i (finished f))) p in
  let p := match r with
           | Raise CancelledError | Ok _ => p
           | Raise _ => if isnil (pending p) && bool_decide (_error_waiters p = ∅) then set_error None ∅ p else p
           end in
  if owned && flush_requested p && negb (isnil (pending p)) then schedule p else p.

(** ** Waiting for the pump *)

Definition settled (target : option Z) p : bool := isnil (pending p) && (applied p >=? match target with Some t => t | None => enqueued p end).

(** A caller of [drain] ended, sleeps on [progress], or yields once before it raises. *)
Inductive drained := Ended (r : res unit) | Asleep (ticket : Z) | Napping.

Definition leave (id : Z) p : EffectPump :=
  let p := set_waiters (waiters p - 1) (_next_waiter_id p) (delete id (_waiter_targets p)) p in
  let owners := _error_waiters p ∖ {[id]} in
  set_error (if bool_decide (owners = ∅) then None else error p) owners p.

Definition wait_loop (id target : Z) p : drained * EffectPump :=
  if bool_decide (id ∈ _error_waiters p) then (Ended (match error p with Some x => Raise x | None => Raise AssertionError end), leave id p)
  else if applied p >=? target then (Ended (Ok tt), leave id p)
  else let p := schedule (set_progress (clear_event (progress p)) p) in (Asleep (sets (progress p)), p).

Definition drain (nowait : bool) (target : option Z) p : drained * EffectPump :=
  match drain_inline target p with
  | (Raise x, p) => (Ended (Raise x), p)
  | (Ok _, p) =>
      if nowait then (Ended (Ok tt), if isnil (pending p) then p else schedule p)
      else
        let target := match target with Some t => t | None => enqueued p end in
        if applied p >=? target then (Ended (Ok tt), p)
        else
          let id := _next_waiter_id p in
          let p := set_waiters (waiters p + 1) (id + 1) (<[id := target]> (_waiter_targets p)) p in
          let c := counters p in
          let p := set_counters (mkCounters (batches c) (multi_effect_batches c) (reordered_batches c) (inline_effects c) (apply_suspensions c + 1) (observations c))
                     (pending_high_water p) p in
          wait_loop id target p
  end.

Definition resume_drain (id target : Z) (w : drained) (cancelled : bool) p : drained * EffectPump :=
  if cancelled then (Ended (Raise CancelledError), leave id p)
  else
    match w with
    | Asleep _ => if bool_decide (id ∈ _error_waiters p) then (Napping, p) else wait_loop id target p
    | _ => wait_loop id target p
    end.
End owner.

(** A flusher that was cancelled before it had the lock. *)
Definition cancel_flusher (i : nat) p : EffectPump :=
  let f := flushers p in set_flushers (mkFlushers (next_task f) (created f ∖ {[i]}) (holder f) (<[i := Raise CancelledError]> (finished f))) p.

(** [_force_close] forgets the flusher it has stopped. *)
Definition forget_flusher p : EffectPump := set_tasks None false (flushers p) p.

(** [_retire_connection_epoch], as far as the pump and the lane are concerned. *)
Definition retire_epoch p : EffectPump := set_lane (discard (lane p)) (owner_epoch p + 1) p.
