(* ===== verification/EffectTheorems.v ===== *)
(** * Effects leave in order, and whoever waits for them is told

    Collections, inline drains, flusher tasks, failures, retired connections and
    callers of [drain], in any interleaving. *)

From S2P Require Import Prelude EngineState Tasks Lane EffectPump.

Implicit Types (effect : EngineEffect) (effects : list EngineEffect) (p : EffectPump).

Abbreviation sent := (filter (λ effect, is_send effect = true)).
Abbreviation ids l := (e_id <$> l).

(** ** Partition *)

Definition unsent (q : partition) : Prop := sent (others q) = [] ∧ sent (deliveries q) = [].
Abbreviation all q := (sends q ++ others q ++ deliveries q).

Lemma sent_snoc effects e : sent (effects ++ [e]) = sent effects ++ (if is_send e then [e] else []).
Proof. rewrite filter_app, filter_cons. destruct (is_send e); by case_decide. Qed.

Lemma partition_step_spec q e : let q' := partition_step q e in
  sends q' = sends q ++ (if is_send e then [e] else []) ∧ (unsent q → unsent q') ∧ all q' ⊆+ all q ++ [e].
Proof.
  unfold partition_step, unsent. destruct (is_send e) eqn:Es; simpl.
  - split_and!; [done | done |]. rewrite <- app_assoc. simpl. rewrite <- !app_assoc. apply submseteq_skips_l. solve_submseteq.
  - rewrite app_nil_r. destruct (_DELIVERIES e) eqn:Ed; [| destruct (IMMEDIATE_EFFECTS e)]; simpl; rewrite ?sent_snoc, ?Es, ?app_nil_r; (split; [done |]); (split; [done |]);
      rewrite <- ?app_assoc; solve_submseteq.
Qed.

Lemma partition_spec effects : ∀ q, let q' := foldl partition_step q effects in
  sends q' = sends q ++ sent effects ∧ (unsent q → unsent q') ∧ all q' ⊆+ all q ++ effects.
Proof.
  induction effects as [| e es IH]; intros q; simpl; [by rewrite !app_nil_r |].
  destruct (IH (partition_step q e)) as (H1 & H2 & H3), (partition_step_spec q e) as (S1 & S2 & S3). split_and!.
  - rewrite H1, S1, filter_cons, <- app_assoc. destruct (is_send e); by case_decide.
  - auto.
  - etrans; [exact H3 |]. etrans; [by apply submseteq_skips_r |]. by rewrite <- app_assoc.
Qed.

Lemma sent_sent effects : sent (sent effects) = sent effects.
Proof. rewrite list_filter_filter. apply list_filter_iff. tauto. Qed.

Lemma partition_result effects : let '(q, _, _, _) := _partition_effects effects in sent q = sent effects ∧ q ⊆+ effects.
Proof.
  unfold _partition_effects. destruct (partition_spec effects (mkPartition [] [] [] [] false)) as (H1 & H2 & H3). simpl in *.
  destruct H2 as [H2 _]; [done |]. set (q := foldl _ _ _) in *. case_match; [| done]. split.
  - by rewrite filter_app, H1, H2, app_nil_r, sent_sent.
  - etrans; [| exact H3]. apply submseteq_skips_l, submseteq_inserts_r. done.
Qed.

(** ** The books *)

(** [col]: what the engine gave so far. *)
Record books (col : list EngineEffect) p : Prop := {
  k_count : applied p + len (pending p) = enqueued p;
  k_nodup : NoDup (ids ((log p).*1 ++ waiting p));
  k_seen : ids ((log p).*1 ++ waiting p) ⊆ ids col;
  k_sends : sent col = sent (log p).*1 ++ sent (waiting p);
  k_flight : ∀ i e, holder (flushers p) = Some (i, Applying e) → e_id e ∈ ids (log p).*1 }.

Definition unchanged p p' : Prop :=
  pending p' = pending p ∧ applied p' = applied p ∧ enqueued p' = enqueued p ∧ log p' = log p ∧ holder (flushers p') = holder (flushers p).
Lemma waiting_eq p p' : pending p' = pending p → holder (flushers p') = holder (flushers p) → waiting p' = waiting p.
Proof. unfold waiting. by intros -> ->. Qed.
Lemma books_unchanged col p p' : unchanged p p' → books col p → books col p'.
Proof.
  intros (H1 & H2 & H3 & H4 & H5) []. pose proof (waiting_eq p p' H1 H5) as Hw.
  constructor; rewrite ?H1, ?H2, ?H3, ?H4, ?H5, ?Hw; done.
Qed.
Lemma wake_unchanged p : unchanged p (wake p).
Proof. unfold wake. by case_match. Qed.

(** What is queued is waiting, but for the effect in flight. *)
Lemma waiting_cases p : (waiting p = pending p) ∨ (∃ i e h rest, holder (flushers p) = Some (i, Applying e) ∧ pending p = h :: rest ∧
  same h e = true ∧ waiting p = rest).
Proof.
  unfold waiting. destruct (holder (flushers p)) as [[i [e |]] |] eqn:Eh; [| by left | by left].
  destruct (pending p) as [| h rest] eqn:Ep; [by left |]. destruct (same h e) eqn:Es; [| by left]. right. eauto 10.
Qed.

Lemma flight_waiting col p i e x : books col p → holder (flushers p) = Some (i, Applying e) → x ∈ waiting p → same x e = false.
Proof.
  intros [] Hh Hx. unfold same. apply Z.eqb_neq. intros E. pose proof (k_flight0 i e Hh) as Hl. rewrite fmap_app in k_nodup0.
  apply NoDup_app in k_nodup0 as (_ & H & _). apply (H (e_id e)); [done |]. rewrite <- E. by apply list_elem_of_fmap_2.
Qed.

Lemma waiting_filter (P : EngineEffect → Prop) `{!∀ x, Decision (P x)} col p p' : books col p → pending p' = filter P (pending p) →
  holder (flushers p') = holder (flushers p) → waiting p' = filter P (waiting p).
Proof.
  intros Hb Hp Hh. destruct (waiting_cases p) as [Hw | (i & e & h & rest & He & Hr & Hs & Hw)]; rewrite Hw.
  - unfold waiting. rewrite Hh, Hp, <- Hw. destruct (holder (flushers p)) as [[i [e |]] |] eqn:Eh; try done.
    destruct (filter P (waiting p)) as [| h rest] eqn:Ef; [done |].
    rewrite (flight_waiting col p i e h Hb Eh); [done |]. apply (list_elem_of_filter P). rewrite Ef. by left.
  - unfold waiting. rewrite Hh, He, Hp, Hr, filter_cons. case_decide; [by rewrite Hs |].
    destruct (filter P rest) as [| h' rest'] eqn:Ef; [done |].
    rewrite (flight_waiting col p i e h' Hb He); [done |]. rewrite Hw. apply (list_elem_of_filter P). rewrite Ef. by left.
Qed.

Lemma fst_tagged_effects effects (f : manner) : ((λ effect, (effect, f)) <$> effects).*1 = effects.
Proof. rewrite <- list_fmap_compose. apply list_fmap_id. Qed.

Lemma filter_split (f : EngineEffect → bool) effects : effects ≡ₚ filter (λ e, f e = false) effects ++ filter (λ e, f e = true) effects.
Proof.
  induction effects as [| e es IH]; [done |]. rewrite !filter_cons. destruct (f e) eqn:E; repeat case_decide; try congruence; simpl; rewrite IH at 1;
    [apply Permutation_middle | done].
Qed.

Lemma terminal_not_sent (b : bool) effects : sent (filter (λ e, (b && terminal_publish e) = true) effects) = [] ∧
  sent (filter (λ e, (b && terminal_publish e) = false) effects) = sent effects.
Proof.
  induction effects as [| e es [IH1 IH2]]; [done |]. rewrite !filter_cons.
  destruct (is_send e) eqn:Es.
  - assert (b && terminal_publish e = false) as Hf by (destruct e as [? []], b; done). rewrite Hf. repeat case_decide; try done. rewrite filter_cons_True by done. by rewrite IH2.
  - destruct (b && terminal_publish e); repeat case_decide; try done; rewrite filter_cons_False by congruence; done.
Qed.

Lemma effects_discard col settle p : books col p → books col (discard_connection_effects settle p).
Proof.
  intros Hb. unfold discard_connection_effects. eapply books_unchanged; [apply wake_unchanged |].
  match goal with |- books _ ?q => assert (waiting q = filter (λ e, (negb settle && terminal_publish e) = true) (waiting p)) as Hw by
    (apply (waiting_filter _ col); done) end.
  destruct (terminal_not_sent (negb settle) (waiting p)) as [T1 T2]. destruct Hb.
  constructor; rewrite ?Hw; simpl; rewrite ?fmap_app, ?fst_tagged_effects, ?filter_app, ?fmap_app in *.
  - lia.
  - rewrite <- app_assoc, <- fmap_app, <- filter_split. done.
  - rewrite <- app_assoc, <- (fmap_app _ (filter _ _)), <- filter_split. done.
  - by rewrite T1, T2, app_nil_r.
  - intros i e He. apply elem_of_app. left. by eapply k_flight0.
Qed.

(** New effects: their identities are new. *)
Record fresh (col effects : list EngineEffect) : Prop := {
  f_nodup : NoDup (ids effects); f_new : ∀ x, x ∈ ids effects → x ∉ ids col }.

Lemma books_skip col effects p : books col p → sent effects = [] → books (col ++ effects) p.
Proof.
  intros [] He. constructor; try done.
  - rewrite fmap_app. set_solver.
  - by rewrite filter_app, He, app_nil_r.
Qed.

Lemma books_enqueue col effects q p p' : books col p → fresh col effects → sent q = sent effects → q ⊆+ effects →
  pending p' = pending p ++ q → applied p' = applied p → enqueued p' = enqueued p + len q → log p' = log p → flushers p' = flushers p →
  books (col ++ effects) p'.
Proof.
  intros Hb [Fn Fx] Hs Hq H1 H2 H3 H4 H5.
  assert (∀ x, x ∈ q → e_id x ∈ ids effects) as Hin.
  { intros x Hx. apply list_elem_of_fmap_2. by eapply elem_of_submseteq. }
  assert (waiting p' = waiting p ++ q) as Hw.
  { unfold waiting. rewrite H1, H5. destruct (holder (flushers p)) as [[i [e |]] |] eqn:Eh; try done.
    destruct (pending p) as [| h rest] eqn:Ep; simpl; [| by destruct (same h e)]. destruct q as [| h rest] eqn:Eq; [done |].
    destruct (same h e) eqn:Es; [| done]. exfalso. unfold same in Es. apply Z.eqb_eq in Es. destruct Hb.
    apply (Fx (e_id h)); [apply Hin; by left |]. apply k_seen0. rewrite Es, fmap_app. apply elem_of_app. left. by eapply k_flight0. }
  destruct Hb. constructor; rewrite ?Hw, ?H1, ?H2, ?H3, ?H4, ?H5.
  - rewrite len_app. lia.
  - rewrite app_assoc, fmap_app. apply NoDup_app. split_and!; [done | |
      destruct (submseteq_Permutation _ _ Hq) as [k Hk]; rewrite Hk, fmap_app in Fn; by apply NoDup_app in Fn as (? & _ & _)].
    intros x Hx (y & -> & Hy)%list_elem_of_fmap. apply (Fx (e_id y)); [by apply Hin |]. by apply k_seen0.
  - rewrite app_assoc, !fmap_app. intros x [Hx | (y & -> & Hy)%list_elem_of_fmap]%elem_of_app; apply elem_of_app; [left | right; by apply Hin].
    apply k_seen0. by rewrite fmap_app.
  - by rewrite !filter_app, k_sends0, Hs, <- !app_assoc.
  - done.
Qed.

(** An effect that never waits. *)
Lemma books_inline col effect p p' : books col p → fresh col [effect] → pending p = [] → pending p' = [] → applied p' = applied p → enqueued p' = enqueued p →
  log p' = log p ++ [(effect, Given)] → flushers p' = flushers p → books (col ++ [effect]) p'.
Proof.
  intros [] [_ Fx] Hp H1 H2 H3 H4 H5.
  assert (waiting p = [] ∧ waiting p' = []) as [Hw Hw'] by (unfold waiting; rewrite Hp, H1; by repeat case_match).
  rewrite Hw, app_nil_r in *. constructor; rewrite ?Hw', ?H1, ?H2, ?H3, ?H4, ?H5, ?app_nil_r.
  - by rewrite Hp in k_count0.
  - rewrite !fmap_app. apply NoDup_app. split_and!; [done | | apply NoDup_singleton]. simpl.
    intros x Hx ->%list_elem_of_singleton. apply (Fx (e_id effect)); [by left | by apply k_seen0].
  - rewrite !fmap_app. intros x [Hx | Hx]%elem_of_app; apply elem_of_app; [left; by apply k_seen0 | by right].
  - rewrite fmap_app, !filter_app, k_sends0. simpl. try rewrite app_nil_r. done.
  - intros i e He. rewrite !fmap_app. apply elem_of_app. left. by eapply k_flight0.
Qed.

Lemma unchanged_enqueue effects lot p : let p' := enqueue_effects effects lot p in
  pending p' = pending p ++ effects ∧ applied p' = applied p ∧ enqueued p' = enqueued p + len effects ∧ log p' = log p ∧ flushers p' = flushers p.
Proof. unfold enqueue_effects. destruct lot; done. Qed.

Lemma collect_single_books inline col effect p : books col p → fresh col [effect] →
  match _collect_single inline effect p with
  | (Some _, p') => books (col ++ [effect]) p'
  | (None, p') => unchanged p p' ∧ flushers p' = flushers p
  end.
Proof.
  intros Hb Hf. unfold _collect_single.
  assert (is_send effect = false → sent [effect] = []) as Hs by (intros E; by rewrite filter_cons_False by congruence).
  destruct (_DELIVERIES effect) eqn:Ed.
  { apply books_skip; [by eapply books_unchanged; [| exact Hb] | apply Hs; by destruct effect as [? []]]. }
  assert (∀ q, unchanged p q → flushers q = flushers p →
    match (if IMMEDIATE_EFFECTS effect || EARLY_OBSERVATIONS effect then
             if IMMEDIATE_EFFECTS effect then (Some (Ok tt), count_observations 1 q) else (None, count_observations 1 q) else (None, q)) with
    | (Some _, p') => books (col ++ [effect]) p' | (None, p') => unchanged p p' ∧ flushers p' = flushers p end) as Hob.
  { intros q Hq Hfq. destruct (IMMEDIATE_EFFECTS effect) eqn:Ei; simpl; [| by destruct (EARLY_OBSERVATIONS effect)].
    apply books_skip; [by eapply books_unchanged; [| exact Hb] | apply Hs; by destruct effect as [? []]]. }
  destruct (isnil (pending p)) eqn:En; [| by apply Hob].
  assert (pending p = []) as Hp by (by destruct (pending p)).
  destruct (inline effect); [| by apply Hob |]; by apply (books_inline col effect p).
Qed.

Lemma collect_books inline col effects p : books col p → fresh col effects → books (col ++ effects) (collect_from_engine inline effects p).2.
Proof.
  intros Hb Hf. unfold collect_from_engine. destruct effects as [| e es]; [by rewrite app_nil_r |].
  set (p1 := set_counters _ _ p). assert (books col p1) as Hb1 by (by eapply books_unchanged; [| exact Hb]).
  set (p2 := if negb (isnil (pending p1)) && _ then _ else p1). assert (books col p2) as Hb2 by (unfold p2; case_match; [by apply effects_discard | done]).
  clearbody p2. destruct (_failing_close p2).
  { simpl. apply effects_discard. by apply (books_enqueue col (e :: es) (e :: es) p2). }
  destruct es as [| e2 es].
  - pose proof (collect_single_books inline col e p2 Hb2 Hf) as Hc. destruct (_collect_single inline e p2) as [[r |] p3]; simpl; [exact Hc |].
    destruct Hc as [Hu Hfl]. destruct (unchanged_enqueue [e] [] p3) as (U1 & U2 & U3 & U4 & U5). destruct Hu as (V1 & V2 & V3 & V4 & V5).
    apply (books_enqueue col [e] [e] p2); try done; try congruence.
  - pose proof (partition_result (e :: e2 :: es)) as Hp. destruct (_partition_effects (e :: e2 :: es)) as [[[q lot] obs] ro]. destruct Hp as [Hs Hq].
    set (p3 := count_observations _ _). assert (unchanged p2 p3 ∧ flushers p3 = flushers p2) as [(V1 & V2 & V3 & V4 & V5) Vf] by done. clearbody p3.
    destruct (negb (isnil obs) && isnil q && isnil lot) eqn:Eq; simpl.
    + assert (q = []) as -> by (destruct q; [done | by rewrite andb_false_r in Eq]). apply books_skip; [by eapply books_unchanged; [| exact Hb2] | by rewrite <- Hs].
    + destruct (unchanged_enqueue q lot p3) as (U1 & U2 & U3 & U4 & U5). apply (books_enqueue col (e :: e2 :: es) q p2); try done; congruence.
Qed.

(** ** The pump between two awaits *)

Record sound (col : list EngineEffect) p : Prop := {
  s_books : books col p;
  s_plain : Forall (λ effect, terminal_publish effect = false) (pending p);
  s_failing : _failing_close p = true → pending p = [];
  s_closing : ∀ i, holder (flushers p) = Some (i, Closing) → _failing_close p = true }.

(** Callers that sleep stay as they are, or are woken. *)
Record quiet p p' : Prop := {
  u_waiters : waiters p' = waiters p; u_next : _next_waiter_id p' = _next_waiter_id p; u_targets : _waiter_targets p' = _waiter_targets p;
  u_owners : _error_waiters p' = _error_waiters p; u_error : error p' = error p; u_enqueued : enqueued p ≤ enqueued p';
  u_sets : sets (progress p) ≤ sets (progress p');
  u_applied : applied p' = applied p ∨ waiters p = 0 ∨ sets (progress p) < sets (progress p') }.
Global Instance quiet_po : PreOrder quiet.
Proof.
  split; [intros p; by split; auto |]. intros p q r [] []. split; try congruence; try lia.
Qed.

Lemma quiet_wake p n pend epoch : applied p ≤ n → quiet p (wake (set_pending pend epoch (enqueued p) n p)).
Proof.
  intros Hn. unfold wake. simpl. destruct (waiters p =? 0) eqn:E; simpl; split; simpl; try done; lia.
Qed.

Lemma discard_quiet settle p : quiet p (discard_connection_effects settle p).
Proof.
  unfold discard_connection_effects. etrans; [| apply quiet_wake]; [by apply (Build_quiet p); auto |]. simpl.
  unfold len. pose proof (length_filter (λ e, (negb settle && terminal_publish e) = true) (pending p)). lia.
Qed.

Lemma quiet_plain p p' : waiters p' = waiters p → _next_waiter_id p' = _next_waiter_id p → _waiter_targets p' = _waiter_targets p →
  _error_waiters p' = _error_waiters p → error p' = error p → enqueued p ≤ enqueued p' → progress p' = progress p → applied p' = applied p → quiet p p'.
Proof. intros. split; try done; [rewrite H5; lia | by left]. Qed.

Lemma effects_discard_spec settle p : let p' := discard_connection_effects settle p in
  holder (flushers p') = holder (flushers p) ∧ created (flushers p') = created (flushers p) ∧ task p' = task p ∧ _failing_close p' = _failing_close p ∧
  pending p' = filter (λ effect, (negb settle && terminal_publish effect) = true) (pending p) ∧
  (waiters p ≠ 0 → sets (progress p) < sets (progress p')) ∧ finished (flushers p') = finished (flushers p) ∧ flush_requested p' = flush_requested p.
Proof. unfold discard_connection_effects, wake. simpl. destruct (waiters p =? 0) eqn:E; simpl; split_and!; try done; intros; lia. Qed.

Lemma plain_empty settle effects : Forall (λ effect, terminal_publish effect = false) effects →
  filter (λ effect, (negb settle && terminal_publish effect) = true) effects = [].
Proof. induction 1 as [| e es He _ IH]; [done |]. rewrite filter_cons_False; [done |]. by rewrite He, andb_false_r. Qed.

Lemma discard_empties settle p : Forall (λ effect, terminal_publish effect = false) (pending p) → pending (discard_connection_effects settle p) = [].
Proof. intros H. destruct (effects_discard_spec settle p) as (_ & _ & _ & _ & -> & _). by apply plain_empty. Qed.

Lemma discard_all p : pending (discard_connection_effects true p) = [].
Proof.
  destruct (effects_discard_spec true p) as (_ & _ & _ & _ & -> & _). induction (pending p) as [| e es IH]; [done |].
  by rewrite filter_cons_False.
Qed.

Lemma discard_sound col settle p : sound col p → sound col (discard_connection_effects settle p).
Proof.
  intros []. destruct (effects_discard_spec settle p) as (Hh & _ & _ & Hf & _). pose proof (discard_empties settle p s_plain0) as He.
  constructor; [by apply effects_discard | by rewrite He | done |]. rewrite Hh, Hf. done.
Qed.

Definition busy p : Prop := created (flushers p) ≠ ∅ ∨ ∃ i effect, holder (flushers p) = Some (i, Applying effect).

Lemma schedule_spec p : unchanged p (schedule p) ∧ quiet p (schedule p) ∧ _failing_close (schedule p) = _failing_close p ∧ progress (schedule p) = progress p ∧
  (created (flushers p) ⊆ created (flushers (schedule p))) ∧ (_failing_close p = false → (∀ i, holder (flushers p) = Some (i, Closing) → _failing_close p = true) → busy (schedule p)).
Proof.
  unfold schedule, unchanged. assert (created (mkFlushers (S (next_task (flushers p))) ({[next_task (flushers p)]} ∪ created (flushers p)) (holder (flushers p)) (finished (flushers p))) ≠ ∅) as Hn by (simpl; set_solver).
  destruct (task p) as [i |] eqn:Et.
  - destruct (live i p) eqn:El; simpl; split_and!; try done; try (apply quiet_plain; simpl; done || lia); try set_solver.
    + intros Hf Hc. unfold busy. simpl. unfold live in El. apply orb_prop in El as [El%bool_decide_eq_true | El]; [left; set_solver |]. right.
      destruct (holder (flushers p)) as [[j [e |]] |] eqn:Eh; [by eauto | | done]. rewrite (Hc j) in Hf; done.
    + intros _ _. by left.
  - simpl; split_and!; try done; try (apply quiet_plain; simpl; done || lia); try set_solver. intros _ _. by left.
Qed.
Lemma schedule_sound col p : sound col p → sound col (schedule p).
Proof.
  intros []. destruct (schedule_spec p) as ((H1 & H2 & H3 & H4 & H5) & _ & Hf & _).
  constructor; rewrite ?H1, ?Hf, ?H5; try done. by eapply books_unchanged.
Qed.

(** *** Collecting *)

Abbreviation plain := (Forall (λ effect, terminal_publish effect = false)).

Lemma partition_step_plain q e : plain (sends q ++ others q) → let q' := partition_step q e in
  plain (sends q' ++ others q') ∧ (observed q' = [] → observed q = [] ∧ terminal_publish e = false).
Proof.
  rewrite Forall_app. intros [Hs Ho]. unfold partition_step.
  assert (terminal_publish e = true → is_send e = false ∧ _DELIVERIES e = false ∧ IMMEDIATE_EFFECTS e = true) as Ht by (by destruct e as [? []]).
  assert (terminal_publish e = false ∨ terminal_publish e = true) as [E | E] by (destruct (terminal_publish e); auto).
  - destruct (is_send e); [| destruct (_DELIVERIES e); [| destruct (IMMEDIATE_EFFECTS e); [| destruct (EARLY_OBSERVATIONS e)]]]; simpl;
      rewrite Forall_app, ?Forall_app, ?Forall_singleton; split_and!; try done; by intros []%app_nil.
  - destruct (Ht E) as (-> & -> & ->). simpl. rewrite Forall_app. split_and!; try done; by intros []%app_nil.
Qed.

Lemma partition_plain effects : ∀ q, plain (sends q ++ others q) → let q' := foldl partition_step q effects in
  plain (sends q' ++ others q') ∧ (observed q' = [] → observed q = [] ∧ plain effects).
Proof.
  induction effects as [| e es IH]; intros q Hq; simpl; [auto |].
  destruct (partition_step_plain q e Hq) as [H1 H2]. destruct (IH _ H1) as [H3 H4]. split; [done |]. intros Ho.
  destruct (H4 Ho) as [H5 H6]. destruct (H2 H5). auto.
Qed.

Lemma partition_result_plain effects : plain (_partition_effects effects).1.1.1.
Proof.
  unfold _partition_effects. destruct (partition_plain effects (mkPartition [] [] [] [] false)) as [H1 H2]; [constructor |]. simpl in *.
  set (q := foldl _ _ _) in *. destruct (observed q); [| by rewrite orb_true_r]. destruct (H2 eq_refl). by case_match.
Qed.

Definition same_flushers p p' : Prop := flushers p' = flushers p ∧ _failing_close p' = _failing_close p.

Lemma collect_single_kept inline effect p : let r := _collect_single inline effect p in
  pending r.2 = pending p ∧ quiet p r.2 ∧ same_flushers p r.2 ∧ (r.1 = None → terminal_publish effect = false).
Proof.
  unfold _collect_single.
  assert (terminal_publish effect = true → IMMEDIATE_EFFECTS effect = true ∧ _DELIVERIES effect = false) as Ht by (by destruct effect as [? []]).
  assert (IMMEDIATE_EFFECTS effect = false → terminal_publish effect = false) as Hi by (by destruct effect as [? []]).
  destruct (_DELIVERIES effect); [split_and!; try done; apply quiet_plain; simpl; done || lia |].
  destruct (isnil (pending p)); [destruct (inline effect) |]; try destruct (IMMEDIATE_EFFECTS effect), (EARLY_OBSERVATIONS effect);
    simpl; split_and!; try done; try (apply quiet_plain; simpl; done || lia); auto.
Qed.

Lemma enqueue_kept effects lot p : let p' := enqueue_effects effects lot p in
  quiet p p' ∧ same_flushers p p'.
Proof. unfold enqueue_effects. destruct lot; simpl; (split; [apply quiet_plain; simpl; done || (unfold len; lia) | done]). Qed.

Lemma collect_pump inline col effects p : sound col p → fresh col effects → let p' := (collect_from_engine inline effects p).2 in
  sound (col ++ effects) p' ∧ quiet p p' ∧ same_flushers p p'.
Proof.
  intros Hs Hf. pose proof (collect_books inline col effects p (s_books _ _ Hs) Hf) as Hb. 
  assert (let p' := (collect_from_engine inline effects p).2 in quiet p p' ∧ same_flushers p p' ∧ plain (pending p') ∧ (_failing_close p' = true → pending p' = [])) as (H1 & H2 & H3 & H4).
  { clear Hb. unfold collect_from_engine. destruct effects as [| e es]; [destruct Hs; split_and!; done |].
    set (p1 := set_counters _ _ p). set (p2 := if negb (isnil (pending p1)) && _ then _ else p1).
    assert (quiet p p2 ∧ same_flushers p p2 ∧ plain (pending p2) ∧ (_failing_close p2 = true → pending p2 = [])) as (Q2 & [F2 G2] & L2 & Z2).
    { assert (quiet p p1) as Q1 by (apply quiet_plain; simpl; done || lia). destruct Hs. unfold p2. case_match; [| by split_and!].
      destruct (discard_sound col false p1) as [? ? ? ?]; [by constructor; [by eapply books_unchanged; [| exact s_books0] | ..] |].
      split_and!; try done; [by etrans; [| apply discard_quiet] |].
      destruct (effects_discard_spec false p1) as (Dh & Dc & Dt & Df & _). split; [| done]. unfold discard_connection_effects. unfold wake. by case_match. }
    clearbody p2. destruct (_failing_close p2) eqn:Ef.
    { simpl. match goal with |- context [discard_connection_effects true ?q] => set (p3 := q) end. assert (quiet p2 p3) as Q3 by (apply quiet_plain; simpl; done || (unfold len; lia)).
      pose proof (effects_discard_spec true p3) as (Dh & Dc & Dt & Df & _).
      assert (pending (discard_connection_effects true p3) = []) as He by apply discard_all.
      split_and!; [etrans; [exact Q2 |]; etrans; [exact Q3 | apply discard_quiet] | | by rewrite He | done].
      split; [| by rewrite Df; simpl; congruence]. rewrite <- F2. unfold discard_connection_effects, wake. by case_match. }
    destruct es as [| e2 es].
    - pose proof (collect_single_kept inline e p2) as (C1 & C2 & [C3 C4] & C5). destruct (_collect_single inline e p2) as [[r |] p3]; cbn [fst snd] in *.
      + split_and!; [by etrans | split; congruence | by rewrite C1 | congruence].
      + destruct (enqueue_kept [e] [] p3) as (E1 & E2 & E3), (unchanged_enqueue [e] [] p3) as (U1 & _).
        split_and!; [etrans; [exact Q2 |]; by etrans | split; congruence | | congruence].
        rewrite U1, C1. apply Forall_app. split; [done |]. constructor; auto.
    - pose proof (partition_result_plain (e :: e2 :: es)) as Hq. destruct (_partition_effects (e :: e2 :: es)) as [[[q lot] obs] ro]. simpl in Hq.
      set (p3 := count_observations _ _). assert (quiet p2 p3) as Q3 by (apply quiet_plain; simpl; done || lia).
      assert (same_flushers p2 p3 ∧ pending p3 = pending p2) as [[F3 G3] P3] by done. clearbody p3.
      destruct (negb (isnil obs) && isnil q && isnil lot); cbn [snd].
      + split_and!; [by etrans | split; congruence | by rewrite P3 | congruence].
      + destruct (enqueue_kept q lot p3) as (E1 & E2 & E3), (unchanged_enqueue q lot p3) as (U1 & _).
        split_and!; [etrans; [exact Q2 |]; by etrans | split; congruence | | congruence].
        rewrite U1, P3. by apply Forall_app. }
  split_and!; [| done | done]. destruct H2 as [F G]. constructor; try done. rewrite F, G. apply Hs.
Qed.

(** *** Inline *)

Definition unheld p : Prop := ∀ i effect, holder (flushers p) ≠ Some (i, Applying effect).
Lemma unheld_waiting p : unheld p → waiting p = pending p.
Proof. unfold unheld, waiting. intros H. destruct (holder (flushers p)) as [[i [e |]] |] eqn:E; [by destruct (H i e) | done | done]. Qed.

Lemma effects_take col effect rest p p' : books col p → unheld p → pending p = effect :: rest → pending p' = rest → applied p' = applied p + 1 →
  enqueued p' = enqueued p → log p' = log p ++ [(effect, Given)] → flushers p' = flushers p → books col p'.
Proof.
  intros [] Hu Hp H1 H2 H3 H4 H5. assert (waiting p' = rest) as Hw by (rewrite <- H1; apply unheld_waiting; unfold unheld; by rewrite H5).
  rewrite (unheld_waiting p Hu), Hp in *. constructor; rewrite ?Hw, ?H1, ?H2, ?H3, ?H4, ?H5, ?fmap_app; simpl.
  - unfold len in *. simpl in k_count0. lia.
  - rewrite fmap_app in k_nodup0. by rewrite <- app_assoc.
  - rewrite fmap_app in k_seen0. by rewrite <- app_assoc.
  - by rewrite k_sends0, filter_app, <- app_assoc, <- (filter_app _ [effect] rest).
  - intros i e He. by destruct (Hu i e).
Qed.

Lemma inline_step effect rest p : pending p = effect :: rest → let p' := _complete (count_inline (popleft (record Given [effect] p))) in
  pending p' = rest ∧ applied p' = applied p + 1 ∧ enqueued p' = enqueued p ∧ log p' = log p ++ [(effect, Given)] ∧ same_flushers p p' ∧ quiet p p'.
Proof.
  intros Hp. unfold _complete. set (q := count_inline _).
  assert (quiet p q) as Hq by (apply quiet_plain; simpl; done || lia).
  split_and!; try (unfold wake; simpl; case_match; simpl; by rewrite ?Hp).
  etrans; [exact Hq |]. apply quiet_wake. lia.
Qed.

Lemma inline_loop_pump inline col target effects : ∀ p, sound col p → unheld p → pending p = effects → let p' := (inline_loop inline effects target p).2 in
  sound col p' ∧ quiet p p' ∧ same_flushers p p'.
Proof.
  induction effects as [| e es IH]; intros p Hs Hu Hp; simpl; [done |]. destruct (match target with Some t => _ | None => true end); [| done].
  destruct (inline e); [| done | done]. destruct (inline_step e es p Hp) as (H1 & H2 & H3 & H4 & [H5 H6] & H7).
  set (q := _complete _) in *. clearbody q. destruct (IH q) as (I1 & I2 & [I3 I4]); [| unfold unheld; by rewrite H5 | done |].
  - destruct Hs. constructor; [by apply (effects_take col e es p) | | | by rewrite H5, H6].
    + rewrite H1, Hp in *. by inv s_plain0.
    + rewrite H6, H1. intros Hf. specialize (s_failing0 Hf). congruence.
  - split_and!; [done | by etrans |]. split; congruence.
Qed.

Definition more_busy p p' : Prop := holder (flushers p') = holder (flushers p) ∧ created (flushers p) ⊆ created (flushers p') ∧ _failing_close p' = _failing_close p.
Lemma same_more p p' : same_flushers p p' → more_busy p p'.
Proof. intros [H1 H2]. split_and!; congruence || by rewrite H1. Qed.
Lemma more_trans p q r : more_busy p q → more_busy q r → more_busy p r.
Proof. intros (A & B & C) (D & E & F). split_and!; try congruence. by etrans. Qed.
Lemma schedule_more p : more_busy p (schedule p).
Proof. destruct (schedule_spec p) as ((_ & _ & _ & _ & H) & _ & Hf & _ & Hc & _). done. Qed.
Lemma more_still_busy p p' : more_busy p p' → busy p → busy p'.
Proof. intros (A & B & _) [H | H]; [left | right; by rewrite A]. intros E. apply H. set_solver. Qed.

Lemma discard_same settle p : same_flushers p (discard_connection_effects settle p).
Proof. unfold same_flushers, discard_connection_effects, wake. by case_match. Qed.

Lemma drain_inline_pump inline target col p : sound col p → let p' := (drain_inline inline target p).2 in
  sound col p' ∧ quiet p p' ∧ more_busy p p'.
Proof.
  intros Hs. unfold drain_inline, locked. destruct (holder (flushers p)) as [[i ph] |] eqn:Eh; [done |]. cbn [orb].
  destruct (isnil (pending p)); [done |].
  set (q := if negb (pending_epoch p =? owner_epoch p) then _ else p).
  assert (sound col q ∧ quiet p q ∧ same_flushers p q) as (Q1 & Q2 & Q3).
  { unfold q. case_match; [| done]. split_and!; [by apply discard_sound | apply discard_quiet | apply discard_same]. }
  clearbody q. destruct (isnil (pending q)); [split_and!; try done; by apply same_more |].
  destruct (inline_loop_pump inline col target (pending q) q Q1) as (I1 & I2 & I3); [intros i e; destruct Q3 as [-> _]; by rewrite Eh | done |].
  destruct (inline_loop inline (pending q) target q) as [r p3]. cbn [snd] in *.
  assert (quiet p p3) as Q4 by (by etrans). assert (more_busy p p3) as Q5 by (eapply more_trans; by apply same_more).
  destruct r; [| done]. cbn [snd]. destruct (isnil (pending p3)); [done |].
  split_and!; [by apply schedule_sound | | by eapply more_trans; [| apply schedule_more]].
  etrans; [exact Q4 | apply schedule_spec].
Qed.

(** *** The flusher *)

(** Where a flusher is when it next waits: it has an effect in hand, or nothing is
    queued. *)
Definition parked i p' : Prop := pending p' = [] ∧ holder (flushers p') = None ∨ ∃ effect, holder (flushers p') = Some (i, Applying effect).

Lemma apply_head_pump col i p : sound col p → holder (flushers p) = None → let p' := apply_head i p in
  sound col p' ∧ quiet p p' ∧ parked i p' ∧ created (flushers p') = created (flushers p).
Proof.
  intros [] Hh. unfold apply_head. destruct (pending p) as [| e es] eqn:Ep; simpl.
  - split_and!; [| apply quiet_plain; simpl; done || lia | by left | done].
    assert (waiting (finish i (Ok tt) (set_tasks (task p) false (flushers p) p)) = waiting p) as Hw by (unfold waiting; simpl; rewrite Ep; by repeat case_match).
    constructor; simpl; [| by rewrite Ep | done | done]. destruct s_books0. constructor; rewrite ?Hw; simpl; done.
  - split_and!; [| apply quiet_plain; simpl; done || lia | right; eauto | done].
    assert (waiting (hold i (Applying e) (record Given [e] p)) = es) as Hw by (unfold waiting; simpl; rewrite Ep; unfold same; by rewrite Z.eqb_refl).
    constructor; simpl; rewrite ?Ep; try done. destruct s_books0. constructor; rewrite ?Hw; simpl; try done;
      rewrite (unheld_waiting p), Ep in * by (unfold unheld; by rewrite Hh); rewrite ?fmap_app in *; simpl.
    + by rewrite <- app_assoc.
    + by rewrite <- app_assoc.
    + by rewrite k_sends0, filter_app, <- app_assoc, <- (filter_app _ [e] es).
    + intros ? ? [= <- <-]. apply elem_of_app. right. by left.
Qed.

Lemma flush_loop_pump col i p : sound col p → holder (flushers p) = None → let p' := flush_loop i p in
  sound col p' ∧ quiet p p' ∧ parked i p' ∧ created (flushers p') = created (flushers p).
Proof.
  intros Hs Hh. unfold flush_loop. case_match; [| by apply apply_head_pump].
  destruct (discard_same false p) as [Hf _].
  destruct (apply_head_pump col i (discard_connection_effects false p)) as (H1 & H2 & H3 & H4); [by apply discard_sound | by rewrite Hf |].
  split_and!; [done | etrans; [apply discard_quiet | done] | done | by rewrite H4, Hf].
Qed.

(** Tasks and locks move; what is queued does not. *)
Lemma sound_tasks col p t b f : sound col p → unheld p → (∀ i ph, holder f = Some (i, ph) → ph = Closing ∧ _failing_close p = true) → sound col (set_tasks t b f p).
Proof.
  intros [] Hu Hf. assert (waiting (set_tasks t b f p) = waiting p) as Hw.
  { rewrite (unheld_waiting p Hu). apply (unheld_waiting (set_tasks t b f p)). intros i e He. by destruct (Hf _ _ He). }
  constructor; simpl; try done; [| intros i Hi; by destruct (Hf _ _ Hi)]. destruct s_books0. constructor; rewrite ?Hw; simpl; try done.
  intros i e He. by destruct (Hf _ _ He).
Qed.

Lemma start_flush_pump col i p : sound col p → holder (flushers p) = None → let p' := start_flush i p in
  sound col p' ∧ quiet p p' ∧ parked i p' ∧ created (flushers p') = created (flushers p) ∖ {[i]}.
Proof.
  intros Hs Hh. unfold start_flush. set (q := set_tasks _ _ _ p).
  assert (sound col q) as Hq by (apply sound_tasks; [done | unfold unheld; by rewrite Hh | done]).
  destruct (flush_loop_pump col i q Hq) as (H1 & H2 & H3 & H4); [done |]. split_and!; [done | | done | by rewrite H4].
  etrans; [| exact H2]. apply quiet_plain; simpl; done || lia.
Qed.

Lemma wake_sound col p : sound col p → sound col (wake p).
Proof. intros []. unfold wake. case_match; [done |]. constructor; try done. by eapply books_unchanged; [| exact s_books0]. Qed.

(** The await is over and the effect has left the queue. *)
Definition released effect p : EffectPump :=
  let f := flushers p in
  let release p := set_flushers (mkFlushers (next_task f) (created f) None (finished f)) p in
  match pending p with
  | head :: _ => if same head effect then _complete (popleft (release p)) else release p
  | [] => release p
  end.

Lemma released_pump col i effect p : sound col p → holder (flushers p) = Some (i, Applying effect) → let p' := released effect p in
  sound col p' ∧ quiet p p' ∧ holder (flushers p') = None ∧ created (flushers p') = created (flushers p) ∧ _failing_close p' = _failing_close p.
Proof.
  intros [] Hh. pose proof (flight_waiting col p i effect) as Hfw. unfold released.
  set (q := set_flushers _ p). assert (quiet p q) as Hq by (apply quiet_plain; simpl; done || lia).
  assert (∀ r, holder (flushers r) = None → waiting r = pending r) as Hn by (intros r Hr; apply unheld_waiting; unfold unheld; by rewrite Hr).
  assert (waiting p = pending p → sound col q) as Hsame.
  { intros Hw. constructor; simpl; try done. destruct s_books0. constructor; rewrite ?(Hn q) by done; simpl; rewrite <- ?Hw; done || by rewrite Hw. }
  destruct (pending p) as [| h rest] eqn:Ep; [split_and!; try done; apply Hsame; unfold waiting; by rewrite Hh, Ep |].
  destruct (same h effect) eqn:Es.
  - unfold _complete. change (applied (popleft q)) with (applied p). 
    assert (waiting p = rest) as Hw by (unfold waiting; by rewrite Hh, Ep, Es).
    assert (sound col (set_pending (pending (popleft q)) (pending_epoch (popleft q)) (enqueued (popleft q)) (applied p + 1) (popleft q))) as Hs.
    { constructor; simpl; rewrite ?Ep; simpl; try done; [| by inv s_plain0 | intros Hf; by specialize (s_failing0 Hf)].
      destruct s_books0. constructor; simpl; rewrite ?Hn by done; simpl; rewrite ?Ep; simpl; rewrite <- ?Hw; try done.
      rewrite Ep in k_count0. unfold len in *. simpl in k_count0. rewrite Hw. lia. }
    split_and!; try (unfold wake; by case_match); [by apply wake_sound |]. etrans; [exact Hq |].
    etrans; [| apply (quiet_wake (popleft q)); simpl; lia]. apply quiet_plain; simpl; done || lia.
  - split_and!; try done. apply Hsame. unfold waiting. by rewrite Hh, Ep, Es.
Qed.

Lemma sound_eq col p p' : unchanged p p' → _failing_close p' = _failing_close p → sound col p → sound col p'.
Proof. intros (H1 & H2 & H3 & H4 & H5) H6 []. constructor; rewrite ?H1, ?H5, ?H6; try done. by eapply books_unchanged. Qed.

(** Like [quiet], but a failure may have been given to its owners. *)
Record told p p' : Prop := {
  t_waiters : waiters p' = waiters p; t_next : _next_waiter_id p' = _next_waiter_id p; t_targets : _waiter_targets p' = _waiter_targets p;
  t_enqueued : enqueued p ≤ enqueued p'; t_sets : sets (progress p) ≤ sets (progress p');
  t_error : (_error_waiters p' = _error_waiters p ∧ error p' = error p) ∨ (_error_waiters p' = ∅ ∧ _error_waiters p = ∅ ∧ error p' = None) ∨
    (_error_waiters p' ⊆ dom (_waiter_targets p) ∧ _error_waiters p' ≠ ∅ ∧ is_Some (error p'));
  t_asleep : applied p' = applied p ∧ _error_waiters p' = _error_waiters p ∨ waiters p = 0 ∨ sets (progress p) < sets (progress p') }.
Lemma quiet_told p p' : quiet p p' → told p p'.
Proof. intros []. split; try done; [by left | naive_solver]. Qed.

Lemma quiet_told_trans p q r : quiet p q → told q r → told p r.
Proof.
  intros [] []. split; try congruence; try lia.
  rewrite u_waiters0, u_owners0 in t_asleep0. destruct t_asleep0 as [[H1 H2] | [H1 | H1]]; [| by auto | right; right; lia].
  destruct u_applied0 as [H | [H | H]]; [left; split; congruence | auto | right; right; lia].
Qed.

Lemma told_quiet_trans p q r : told p q → quiet q r → told p r.
Proof.
  intros [] []. split; [congruence | congruence | congruence | lia | lia | by rewrite u_owners0, u_error0 |].
  rewrite u_owners0. destruct t_asleep0 as [[A B] | [A | A]]; [| by auto | right; right; lia].
  destruct u_applied0 as [H | [H | H]]; [left; split; congruence | right; left; congruence | right; right; lia].
Qed.

Lemma fail_pump col i x p : sound col p → holder (flushers p) = None → let p' := hold i Closing (_fail_connection x p) in
  sound col p' ∧ told p p' ∧ pending p' = [] ∧ created (flushers p') = created (flushers p).
Proof.
  intros Hs Hh. unfold _fail_connection. set (owners := dom _). set (q := if bool_decide (owners = ∅) then p else _).
  destruct (effects_discard_spec true (set_failing true q)) as (D1 & D2 & D3 & D4 & D5 & D6 & _). pose proof (discard_quiet true (set_failing true q)) as [].
  pose proof (discard_all (set_failing true q)) as He.
  assert (unchanged p q ∧ flushers q = flushers p ∧ waiters q = waiters p ∧ _next_waiter_id q = _next_waiter_id p ∧ _waiter_targets q = _waiter_targets p) as (Hu & Hf & E1 & E2 & E3) by (unfold q, unchanged; by case_match).
  assert (books col (discard_connection_effects true (set_failing true q))) as Hb by (apply effects_discard; eapply books_unchanged; [| apply Hs]; exact Hu).
  simpl in *. rewrite Hf in D1, D2. set (r := discard_connection_effects true (set_failing true q)) in *.
  split_and!; [| | done | by rewrite D2].
  - constructor; simpl; [| by rewrite He | done | by rewrite D4].
    assert (waiting (hold i Closing r) = waiting r) as Hw by (rewrite (unheld_waiting r) by (unfold unheld; by rewrite D1, Hh); done).
    destruct Hb. constructor; rewrite ?Hw; simpl; try done.
  - destruct Hu as (_ & H2 & H3 & _). split; simpl; rewrite ?u_waiters0, ?u_next0, ?u_targets0, ?u_owners0, ?u_error0; try done; try lia.
    + unfold q in *. case_match; simpl in *; lia.
    + unfold q. case_bool_decide as Ho; [by left | right; right]. simpl. split_and!; [| done | by eexists]. apply dom_filter_subseteq.
    + unfold q in *. case_bool_decide as Ho; simpl in *; [| right; right; lia].
      destruct (decide (waiters p = 0)) as [-> | Hn]; [auto |]. right. right. by apply D6.
Qed.

Lemma effect_applied_pump col i effect a p : sound col p → holder (flushers p) = Some (i, Applying effect) → (a = ACancelled → waiting p = pending p) →
  let p' := effect_applied i effect a p in
  sound col p' ∧ told p p' ∧ created (flushers p') = created (flushers p) ∧
  (parked i p' ∨ (pending p' = [] ∧ holder (flushers p') = Some (i, Closing)) ∨ a = ACancelled ∧ holder (flushers p') = None).
Proof.
  intros Hs Hh Ha. destruct (released_pump col i effect p Hs Hh) as (R1 & R2 & R3 & R4 & R5).
  destruct a.
  1, 2: destruct (flush_loop_pump col i (released effect p) R1 R3) as (F1 & F2 & F3 & F4); split_and!; [done | apply quiet_told; etrans; [exact R2 | exact F2] | etrans; [exact F4 | exact R4] | by left].
  - destruct (fail_pump col i x (released effect p) R1 R3) as (F1 & F2 & F3 & F4).
    split_and!; [done | | etrans; [exact F4 | exact R4] | right; left; split; [done |]].
    + by eapply quiet_told_trans.
    + done.
  - specialize (Ha eq_refl). simpl. split_and!; [| apply quiet_told, quiet_plain; simpl; done || lia | done | by right; right].
    destruct Hs. constructor; simpl; try done. destruct s_books0.
    assert (waiting (finish i (Raise CancelledError) p) = waiting p) as Hw by (rewrite Ha; apply (unheld_waiting (finish i (Raise CancelledError) p)); done).
    constructor; rewrite ?Hw; simpl; done.
Qed.

Lemma connection_failed_pump col i r p : sound col p → holder (flushers p) = Some (i, Closing) → let p' := connection_failed i r p in
  sound col p' ∧ quiet p p' ∧ pending p' = [] ∧ holder (flushers p') = None ∧ created (flushers p') = created (flushers p).
Proof.
  intros [] Hh. pose proof (s_failing0 (s_closing0 i Hh)) as Hp. unfold connection_failed. rewrite Hp. simpl. split_and!; try done; [| apply quiet_plain; simpl; done || lia].
  assert (unheld p) as Hu by (unfold unheld; by rewrite Hh).
  assert (waiting (finish i r (set_failing false p)) = waiting p) as Hw by (rewrite (unheld_waiting p Hu); done).
  constructor; simpl; try done. destruct s_books0. constructor; rewrite ?Hw; simpl; done.
Qed.

(** ** Who waits *)

Implicit Types (ds : gmap Z (Z * drained)).

Record waits ds p : Prop := {
  w_count : waiters p = Z.of_nat (size ds);
  w_targets : _waiter_targets p = fst <$> ds;
  w_ids : ∀ id, is_Some (ds !! id) → id < _next_waiter_id p;
  w_owners : _error_waiters p ⊆ dom ds;
  w_error : is_Some (error p) ↔ _error_waiters p ≠ ∅;
  w_asleep : ∀ id t w, ds !! id = Some (t, w) → t ≤ enqueued p ∧
    match w with
    | Asleep k => k ≤ sets (progress p) ∧ (k = sets (progress p) → applied p < t ∧ id ∉ _error_waiters p)
    | Napping => True
    | Ended _ => False
    end }.

Lemma waits_told ds p p' : told p p' → waits ds p → waits ds p'.
Proof.
  intros [] []. constructor; try congruence.
  - intros id Hi. rewrite t_next0. by apply w_ids0.
  - destruct t_error0 as [[-> _] | [(-> & _) | (H & _)]]; [done | set_solver | etrans; [exact H |]]. by rewrite w_targets0, dom_fmap_L.
  - destruct t_error0 as [[-> ->] | [(-> & _ & ->) | (_ & H2 & H3)]]; [done | | tauto]. split; [by intros [] | done].
  - intros id t w Hi. destruct (w_asleep0 id t w Hi) as [Ht Hw]. split; [lia |]. destruct w as [r | k |]; try done.
    destruct Hw as [Hk Hw]. split; [lia |]. intros ->. destruct t_asleep0 as [[-> ->] | [H | H]]; [apply Hw; lia | | lia].
    exfalso. assert (size ds = 0%nat) as E by lia. apply map_size_empty_iff in E. subst. done.
Qed.

Lemma waits_size ds id tw : ds !! id = Some tw → Z.of_nat (size ds) = Z.of_nat (size (delete id ds)) + 1.
Proof. intros H. rewrite <- (insert_delete_id ds id tw H) at 1. rewrite map_size_insert_None by apply lookup_delete_eq. lia. Qed.

Lemma leave_waits ds id tw p : waits ds p → ds !! id = Some tw → waits (delete id ds) (leave id p).
Proof.
  intros [] Hi. unfold leave. constructor; simpl.
  - rewrite w_count0, (waits_size ds id tw Hi). lia.
  - by rewrite w_targets0, fmap_delete.
  - intros j [x Hj]. apply w_ids0. apply lookup_delete_Some in Hj as [_ Hj]. by eexists.
  - rewrite dom_delete_L. set_solver.
  - case_bool_decide as Ho; [split; [by intros [] | done] |]. rewrite w_error0. split; [done |]. intros _ E. apply Ho. set_solver.
  - intros j t w Hj. apply lookup_delete_Some in Hj as [_ Hj]. destruct (w_asleep0 j t w Hj) as [Ht Hw]. split; [done |].
    destruct w as [| k |]; try done. destruct Hw as [Hk Hw]. split; [done |]. intros E. destruct (Hw E). split; [done | set_solver].
Qed.
Lemma leave_quiet id p : unchanged p (leave id p) ∧ same_flushers p (leave id p) ∧ enqueued (leave id p) = enqueued p ∧ sets (progress (leave id p)) = sets (progress p).
Proof. done. Qed.

(** What a caller ends with: its target was reached, or the failure that was given to
    it; the assertion never fails. *)
Definition answered (target : Z) p (r : res unit) : Prop :=
  match r with Ok _ => target ≤ applied p | Raise x => error p = Some x end.

Lemma wait_loop_spec col ds id target w0 p : sound col p → waits ds p → ds !! id = Some (target, w0) → let r := wait_loop id target p in
  sound col r.2 ∧ more_busy p r.2 ∧ applied r.2 = applied p ∧
  match r.1 with
  | Ended x => waits (delete id ds) r.2 ∧ answered target p x ∧ progress r.2 = progress p
  | Asleep k => waits (<[id := (target, Asleep k)]> ds) r.2 ∧ k = sets (progress r.2) ∧ busy r.2 ∧ progress r.2 = clear_event (progress p)
  | Napping => False
  end.
Proof.
  intros Hs Hw Hi. unfold wait_loop.
  assert (sound col (leave id p)) as Hl by (by eapply sound_eq; [..| exact Hs]).
  case_bool_decide as Ho; simpl.
  - split_and!; try done; [by eapply leave_waits |]. destruct Hw. destruct (error p) eqn:Ee; [done |]. exfalso.
    destruct w_error0 as [_ H]. destruct H; [set_solver | done].
  - destruct (applied p >=? target) eqn:Ea; simpl; [split_and!; try done; [by eapply leave_waits | lia] |].
    set (q := set_progress (clear_event (progress p)) p).
    assert (sound col q) as Hq by (by eapply sound_eq; [..| exact Hs]).
    destruct (schedule_spec q) as (S1 & S2 & S3 & S4 & S5 & S6).
    split_and!; [by apply schedule_sound | by eapply more_trans; [| apply schedule_more] | apply S1 | | done | | by rewrite S4].
    + eapply waits_told; [by apply quiet_told |]. destruct Hw. constructor; simpl.
      * rewrite w_count0. f_equal. symmetry. apply map_size_insert_Some. by eexists.
      * rewrite w_targets0, fmap_insert, insert_id; [done |]. by rewrite lookup_fmap, Hi.
      * intros j [x Hj]. apply w_ids0. apply lookup_insert_Some in Hj as [[<- _] | [_ Hj]]; by eexists.
      * rewrite dom_insert_L. set_solver.
      * done.
      * destruct (w_asleep0 id target w0 Hi) as [Ht _]. rewrite S4. simpl.
        intros j t w [[<- [= <- <-]] | [_ Hj]]%lookup_insert_Some; [split; [done |]; split; [done |]; intros _; split; [lia | done] | by apply (w_asleep0 j t w)].
    + apply S6; [| apply Hq]. destruct (_failing_close q) eqn:Ef; [| done]. exfalso. pose proof (s_failing _ _ Hq Ef) as Hp. simpl in Hp.
      destruct Hs, s_books0, Hw. destruct (w_asleep0 id target w0 Hi). rewrite Hp in k_count0. unfold len in k_count0. simpl in k_count0. lia.
Qed.

Lemma wait_loop_error id target p : match (wait_loop id target p).1 with
  | Ended (Raise _) => id ∈ _error_waiters p | Asleep _ => applied p < target ∧ id ∉ _error_waiters p | _ => True end.
Proof. unfold wait_loop. case_bool_decide; simpl; [by destruct (error p) |]. destruct (applied p >=? target) eqn:E; simpl; [done |]. split; [lia | done]. Qed.

(** Calling [drain]. *)
Lemma drain_spec col ds inline nowait target p : sound col p → waits ds p → (∀ t, target = Some t → t ≤ enqueued p) → let r := drain inline nowait target p in
  ∃ t, match target with Some t' => t = t' | None => enqueued p ≤ t end ∧
  sound col r.2 ∧ more_busy p r.2 ∧ sets (progress p) ≤ sets (progress r.2) ∧
  match r.1 with
  | Ended x => waits ds r.2 ∧ (x = Ok tt → nowait = false → t ≤ applied r.2)
  | Asleep k => waits (<[_next_waiter_id p := (t, Asleep k)]> ds) r.2 ∧ _waiter_targets r.2 !! _next_waiter_id p = Some t ∧ ds !! _next_waiter_id p = None ∧ k = sets (progress r.2) ∧ busy r.2
  | Napping => False
  end.
Proof.
  intros Hs Hw Ht. unfold drain. destruct (drain_inline_pump inline target col p Hs) as (I1 & I2 & I3).
  destruct (drain_inline inline target p) as [[r | x] q]; cbn [snd fst] in *.
  2: { exists (match target with Some t => t | None => enqueued p end). split; [by destruct target |].
       split_and!; [done | done | apply I2 | by eapply waits_told; [apply quiet_told |] | done]. }
  exists (match target with Some t => t | None => enqueued q end). split; [destruct target; [done | apply I2] |].
  pose proof (waits_told ds p q (quiet_told _ _ I2) Hw) as Hwq.
  destruct nowait.
  { cbn [snd fst]. destruct (isnil (pending q)); [split_and!; try done; apply I2 |]. destruct (schedule_spec q) as (_ & S2 & _ & S4 & _).
    split_and!; [by apply schedule_sound | by eapply more_trans; [| apply schedule_more] | rewrite S4; apply I2 | by eapply waits_told; [apply quiet_told |] | done]. }
  assert (match target with Some t => t | None => enqueued q end ≤ enqueued q) as Hle by (destruct target as [t |]; [pose proof (Ht t eq_refl); destruct I2; lia | lia]).
  revert Hle. generalize (match target with Some t => t | None => enqueued q end) as goal. intros goal Hle.
  destruct (applied q >=? goal) eqn:Eg; [cbn [fst snd]; split_and!; try done; [apply I2 | lia] |].
  assert (_next_waiter_id q = _next_waiter_id p) as En by apply I2. rewrite En.
  set (id := _next_waiter_id p) in *. match goal with |- context [wait_loop id goal ?x] => set (q2 := x) end.
  assert (ds !! id = None) as Hi.
  { destruct (ds !! id) as [tw |] eqn:E; [| done]. destruct Hw. assert (id < _next_waiter_id p) by (apply w_ids0; by eexists). unfold id in *. lia. }
  assert (sound col q2) as Hs2 by (by eapply sound_eq; [..| exact I1]).
  assert (waits (<[id := (goal, Napping)]> ds) q2) as Hw2.
  { destruct Hwq. constructor; simpl.
    - rewrite w_count0, map_size_insert_None by done. lia.
    - by rewrite w_targets0, fmap_insert.
    - intros j [x Hj]. apply lookup_insert_Some in Hj as [[<- _] | [_ Hj]]; [lia |]. assert (j < _next_waiter_id q) by (apply w_ids0; by eexists). lia.
    - rewrite dom_insert_L. set_solver.
    - done.
    - intros j t w [[<- [= <- <-]] | [_ Hj]]%lookup_insert_Some; [done | by apply (w_asleep0 j t w)]. }
  destruct (wait_loop_spec col _ id goal Napping q2 Hs2 Hw2) as (L1 & L2 & L3 & L4); [by rewrite lookup_insert_eq |].
  assert (more_busy p q2) as M2 by (destruct I3 as (? & ? & ?); by split_and!).
  destruct (wait_loop id goal q2) as [w p']; cbn [fst snd] in *. split_and!; [done | by eapply more_trans | |].
  - destruct I2. destruct w; [destruct L4 as (_ & _ & ->) | destruct L4 as (_ & _ & _ & ->) | done]; done.
  - destruct w as [x | k |]; [| | done].
    + destruct L4 as (W1 & W2 & W3). split; [by rewrite delete_insert_id in W1 |]. intros -> _. simpl in *. lia.
    + destruct L4 as (W1 & W2 & W3 & _). rewrite insert_insert_eq in W1. split_and!; try done. destruct W1. by rewrite w_targets0, lookup_fmap, lookup_insert_eq.
Qed.

(** Going on after a wait. *)
Lemma resume_spec col ds id target w c p : sound col p → waits ds p → ds !! id = Some (target, w) → let r := resume_drain id target w c p in
  sound col r.2 ∧ more_busy p r.2 ∧ sets (progress r.2) = sets (progress p) ∧
  match r.1 with
  | Ended x => waits (delete id ds) r.2 ∧ (x = Ok tt → target ≤ applied r.2) ∧ (c = false → answered target p x)
  | Asleep k => waits (<[id := (target, Asleep k)]> ds) r.2 ∧ k = sets (progress r.2) ∧ busy r.2
  | Napping => waits (<[id := (target, Napping)]> ds) r.2 ∧ id ∈ _error_waiters p
  end.
Proof.
  intros Hs Hw Hi. unfold resume_drain. destruct c.
  { cbn [fst snd]. split_and!; try done; [by eapply sound_eq; [..| exact Hs] | by eapply leave_waits]. }
  assert (match w with Asleep _ => bool_decide (id ∈ _error_waiters p) | _ => false end = false → sound col (wait_loop id target p).2 ∧ more_busy p (wait_loop id target p).2 ∧
    sets (progress (wait_loop id target p).2) = sets (progress p) ∧ match (wait_loop id target p).1 with
    | Ended x => waits (delete id ds) (wait_loop id target p).2 ∧ (x = Ok tt → target ≤ applied (wait_loop id target p).2) ∧ (false = false → answered target p x)
    | Asleep k => waits (<[id := (target, Asleep k)]> ds) (wait_loop id target p).2 ∧ k = sets (progress (wait_loop id target p).2) ∧ busy (wait_loop id target p).2
    | Napping => waits (<[id := (target, Napping)]> ds) (wait_loop id target p).2 ∧ id ∈ _error_waiters p
    end) as Hl.
  { intros _. destruct (wait_loop_spec col ds id target w p Hs Hw Hi) as (L1 & L2 & L3 & L4). split_and!; try done.
    - by destruct (wait_loop id target p).1; [destruct L4 as (_ & _ & ->) | destruct L4 as (_ & _ & _ & ->) |].
    - destruct (wait_loop id target p).1 as [x | k |]; [| naive_solver | done]. destruct L4 as (W1 & W2 & _). split_and!; try done.
      intros ->. simpl in W2. lia. }
  destruct w; try by apply Hl. case_bool_decide as Ho; [| by apply Hl]. cbn [fst snd]. split_and!; try done.
  destruct Hw. constructor.
  - rewrite w_count0. f_equal. symmetry. apply map_size_insert_Some. by eexists.
  - rewrite w_targets0, fmap_insert, insert_id; [done |]. by rewrite lookup_fmap, Hi.
  - intros j [x Hj]. apply w_ids0. apply lookup_insert_Some in Hj as [[<- _] | [_ Hj]]; by eexists.
  - rewrite dom_insert_L. set_solver.
  - done.
  - destruct (w_asleep0 _ _ _ Hi) as [Ht _]. intros j t w [[<- [= <- <-]] | [_ Hj]]%lookup_insert_Some; [done | by apply (w_asleep0 j t w)].
Qed.

(** ** Every interleaving *)

(** [drains]: the callers of [drain] that wait, each with its target.  [cancels]: the
    flushers whose cancellation is on its way.  [closing]: the flusher each running
    [_force_close] waits for, between its two discards. *)
Record Pumping := mkPumping { pump : EffectPump; drains : gmap Z (Z * drained); collected : list EngineEffect; cancels : gset nat; closing : list nat }.
Implicit Types (s : Pumping).
Definition with_pump p s : Pumping := mkPumping p (drains s) (collected s) (cancels s) (closing s).
Definition with_cancels (c : gset nat) s : Pumping := mkPumping (pump s) (drains s) (collected s) c (closing s).
Definition with_drains ds s : Pumping := mkPumping (pump s) ds (collected s) (cancels s) (closing s).

Definition asleep_after (id : Z) (r : drained * EffectPump) ds : gmap Z (Z * drained) :=
  match r.1 with Ended _ => delete id ds | w => <[id := (default 0 (_waiter_targets r.2 !! id), w)]> ds end.

Inductive pump_step : Pumping → Pumping → Prop :=
  | pump_collect s inline effects : fresh (collected s) effects →
      pump_step s (mkPumping (collect_from_engine inline effects (pump s)).2 (drains s) (collected s ++ effects) (cancels s) (closing s))
  | pump_inline s inline target : pump_step s (with_pump (drain_inline inline target (pump s)).2 s)
  | pump_schedule s : pump_step s (with_pump (schedule (pump s)) s)
  | pump_start s i : i ∈ created (flushers (pump s)) → i ∉ cancels s → holder (flushers (pump s)) = None → pump_step s (with_pump (start_flush i (pump s)) s)
  | pump_applied s i effect a : holder (flushers (pump s)) = Some (i, Applying effect) → (a = ACancelled → i ∈ cancels s) →
      pump_step s (with_cancels (cancels s ∖ {[i]}) (with_pump (effect_applied i effect a (pump s)) s))
  | pump_failed s i r : holder (flushers (pump s)) = Some (i, Closing) →
      pump_step s (with_cancels (cancels s ∖ {[i]}) (with_pump (connection_failed i r (pump s)) s))
  | pump_cancelled s i : i ∈ created (flushers (pump s)) → i ∈ cancels s →
      pump_step s (with_cancels (cancels s ∖ {[i]}) (with_pump (cancel_flusher i (pump s)) s))
  | pump_done s i r : finished (flushers (pump s)) !! i = Some r → pump_step s (with_pump (_done i r (pump s)) s)
  | pump_drain s inline nowait target : (∀ t, target = Some t → t ≤ enqueued (pump s)) →
      let r := drain inline nowait target (pump s) in
      pump_step s (with_drains (asleep_after (_next_waiter_id (pump s)) r (drains s)) (with_pump r.2 s))
  | pump_resume s id t w cancelled : drains s !! id = Some (t, w) →
      (cancelled = false → match w with Asleep k => k < sets (progress (pump s)) | _ => True end) →
      let r := resume_drain id t w cancelled (pump s) in
      pump_step s (with_drains (asleep_after id r (drains s)) (with_pump r.2 s))
  | pump_discard s settle : pump_step s (with_pump (discard_connection_effects settle (pump s)) s)
  | pump_begin_close s i : task (pump s) = Some i → live i (pump s) = true →
      pump_step s (mkPumping (discard_connection_effects false (pump s)) (drains s) (collected s) ({[i]} ∪ cancels s) (i :: closing s))
  | pump_settle s i l1 l2 : closing s = l1 ++ i :: l2 → live i (pump s) = false →
      pump_step s (mkPumping (discard_connection_effects true (pump s)) (drains s) (collected s) (cancels s) (l1 ++ l2))
  | pump_forget s : pump_step s (with_pump (forget_flusher (pump s)) s)
  | pump_retire s : pump_step s (with_pump (retire_epoch (pump s)) s).

Definition unwoken s : Prop := ∃ id t, drains s !! id = Some (t, Asleep (sets (progress (pump s)))).

Record pumped s : Prop := {
  q_sound : sound (collected s) (pump s);
  q_waits : waits (drains s) (pump s);
  q_served : unwoken s → busy (pump s) ∨ closing s ≠ [];
  q_cancels : ∀ i, i ∈ cancels s → i ∈ closing s ∧ (i ∈ created (flushers (pump s)) ∨ ∃ ph, holder (flushers (pump s)) = Some (i, ph));
  q_flight : ∀ i effect, i ∈ cancels s → holder (flushers (pump s)) = Some (i, Applying effect) → waiting (pump s) = pending (pump s) }.

Lemma empty_awake s : sound (collected s) (pump s) → waits (drains s) (pump s) → pending (pump s) = [] → ¬ unwoken s.
Proof.
  intros [[] _ _ _] [] Hp (id & t & Hi). destruct (w_asleep0 id t _ Hi) as (Ht & _ & H). destruct (H eq_refl). rewrite Hp in k_count0.
  unfold len in k_count0. simpl in k_count0. lia.
Qed.

Lemma told_unwoken s s' : drains s' = drains s → waits (drains s) (pump s) → told (pump s) (pump s') → unwoken s' → unwoken s.
Proof.
  intros Hd [] [] (id & t & Hi). exists id, t. rewrite Hd in Hi. destruct (w_asleep0 id t _ Hi) as (_ & Hk & _).
  replace (sets (progress (pump s))) with (sets (progress (pump s'))) by lia. done.
Qed.

Lemma more_live i p p' : more_busy p p' → (i ∈ created (flushers p) ∨ ∃ ph, holder (flushers p) = Some (i, ph)) →
  i ∈ created (flushers p') ∨ ∃ ph, holder (flushers p') = Some (i, ph).
Proof. intros (A & B & _) [H | H]; [left; set_solver | right; by rewrite A]. Qed.

(** A step of the pump that keeps its flushers. *)
Lemma pumped_kept s p' effects : pumped s → sound (collected s ++ effects) p' → told (pump s) p' → more_busy (pump s) p' →
  (∀ i effect, i ∈ cancels s → holder (flushers (pump s)) = Some (i, Applying effect) → waiting p' = pending p') →
  pumped (mkPumping p' (drains s) (collected s ++ effects) (cancels s) (closing s)).
Proof.
  intros [] Hs Ht Hm Hf. set (s' := mkPumping _ _ _ _ _). constructor; simpl; try done.
  - by eapply waits_told.
  - intros Hu. destruct q_served0 as [H | H]; [by eapply (told_unwoken s s') | left; by eapply more_still_busy | by right].
  - intros i Hi. destruct (q_cancels0 i Hi) as [H1 H2]. split; [done |]. by eapply more_live.
  - intros i e Hi He. eapply Hf; [done |]. destruct Hm as (<- & _). done.
Qed.

(** What a cancelled flusher had in hand does not come back. *)
Lemma flight_kept col effects p p' i effect : sound col p → fresh col effects → holder (flushers p) = Some (i, Applying effect) → waiting p = pending p →
  holder (flushers p') = holder (flushers p) → (∀ e, e ∈ pending p' → e ∈ pending p ∨ e ∈ effects) → waiting p' = pending p'.
Proof.
  intros [] [_ Hf] Hh Hw Hh' Hp. unfold waiting. rewrite Hh', Hh. destruct (pending p') as [| h rest] eqn:Ep; [done |].
  destruct (same h effect) eqn:Es; [| done]. exfalso. destruct (Hp h) as [H | H]; [by left | |].
  - rewrite <- Hw in H. by rewrite (flight_waiting col p i effect h) in Es.
  - unfold same in Es. apply Z.eqb_eq in Es. apply (Hf (e_id h)); [by apply list_elem_of_fmap_2 |]. rewrite Es. destruct s_books0.
    apply k_seen0. rewrite fmap_app. apply elem_of_app. left. by eapply k_flight0.
Qed.

Lemma collect_pending inline effects p e : e ∈ pending (collect_from_engine inline effects p).2 → e ∈ pending p ∨ e ∈ effects.
Proof.
  unfold collect_from_engine. destruct effects as [| e1 es]; [by left |].
  set (p1 := set_counters _ _ p). set (p2 := if negb (isnil (pending p1)) && _ then _ else p1).
  assert (∀ x, x ∈ pending p2 → x ∈ pending p) as H2.
  { intros x. unfold p2. case_match; [| done]. destruct (effects_discard_spec false p1) as (_ & _ & _ & _ & -> & _). intros Hx. by apply list_elem_of_filter in Hx as [_ Hx]. }
  clearbody p2. destruct (_failing_close p2); [cbn [snd]; rewrite discard_all; by intros ?%elem_of_nil |].
  destruct es as [| e2 es].
  - pose proof (collect_single_kept inline e1 p2) as (C1 & _). destruct (_collect_single inline e1 p2) as [[r |] p3]; cbn [fst snd] in *.
    + rewrite C1. auto.
    + destruct (unchanged_enqueue [e1] [] p3) as (-> & _). rewrite C1. intros [H | H]%elem_of_app; auto.
  - pose proof (partition_result (e1 :: e2 :: es)) as Hp. destruct (_partition_effects (e1 :: e2 :: es)) as [[[q lot] obs] ro]. destruct Hp as [_ Hp].
    set (p3 := count_observations _ _). assert (pending p3 = pending p2) as P3 by done. clearbody p3.
    destruct (negb (isnil obs) && isnil q && isnil lot); cbn [snd]; [rewrite P3; auto |].
    destruct (unchanged_enqueue q lot p3) as (-> & _). rewrite P3. intros [H | H]%elem_of_app; [auto | right]. by eapply elem_of_submseteq.
Qed.

Lemma wait_loop_unchanged id target p : unchanged p (wait_loop id target p).2.
Proof.
  unfold wait_loop. case_bool_decide; [done |]. case_match; [done |]. cbn [snd].
  destruct (schedule_spec (set_progress (clear_event (progress p)) p)) as ((A & B & C & D & E) & _). done.
Qed.
Lemma drain_inline_locked inline target p i ph : holder (flushers p) = Some (i, ph) → drain_inline inline target p = (Ok tt, p).
Proof. intros H. unfold drain_inline, locked. by rewrite H. Qed.
Lemma drain_locked inline nowait target p i ph : holder (flushers p) = Some (i, ph) → unchanged p (drain inline nowait target p).2.
Proof.
  intros H. unfold drain. rewrite (drain_inline_locked _ _ _ _ _ H). destruct nowait; cbn [snd].
  - destruct (isnil (pending p)); [done | apply schedule_spec].
  - destruct (applied p >=? _); [done |]. match goal with |- context [wait_loop ?a ?b ?c] => pose proof (wait_loop_unchanged a b c) as Hu end. exact Hu.
Qed.
Lemma resume_unchanged id target w c p : unchanged p (resume_drain id target w c p).2.
Proof. unfold resume_drain. destruct c; [done |]. destruct w; try apply wait_loop_unchanged. case_bool_decide; [done | apply wait_loop_unchanged]. Qed.

Lemma pumped_same s p' : pumped s → sound (collected s) p' → told (pump s) p' → more_busy (pump s) p' →
  (∀ i effect, holder (flushers (pump s)) = Some (i, Applying effect) → waiting (pump s) = pending (pump s) → ∀ e, e ∈ pending p' → e ∈ pending (pump s)) →
  pumped (with_pump p' s).
Proof.
  intros Hp Hs Ht Hm Hf. rewrite <- (app_nil_r (collected s)) in Hs.
  replace (with_pump p' s) with (mkPumping p' (drains s) (collected s ++ []) (cancels s) (closing s)) by (unfold with_pump; by rewrite app_nil_r).
  apply pumped_kept; try done. intros i e Hi He. pose proof (q_flight s Hp i e Hi He) as Hw.
  apply (flight_kept (collected s) [] (pump s) p' i e); try done; [apply Hp | split; [constructor | by intros ? ?%elem_of_nil] | by destruct Hm as (-> & _) | left; by eapply Hf].
Qed.

Lemma pumped_drains s p' ds' : pumped s → sound (collected s) p' → waits ds' p' → more_busy (pump s) p' →
  (∀ i effect, holder (flushers (pump s)) = Some (i, Applying effect) → unchanged (pump s) p') →
  (unwoken (with_drains ds' (with_pump p' s)) → unwoken s ∨ busy p') → pumped (with_drains ds' (with_pump p' s)).
Proof.
  intros [] Hs Hw Hm Hf Hu. constructor; simpl; try done.
  - intros H. destruct (Hu H) as [H' | H']; [| by left]. destruct (q_served0 H') as [? | ?]; [left; by eapply more_still_busy | by right].
  - intros i Hi. destruct (q_cancels0 i Hi) as [H1 H2]. split; [done |]. by eapply more_live.
  - intros i e Hi He. destruct Hm as (Hh & _). rewrite Hh in He. destruct (Hf i e He) as (U1 & _ & _ & _ & U5).
    rewrite (waiting_eq (pump s) p'), U1 by done. by eapply q_flight0.
Qed.

(** A step of a flusher. *)
Lemma pumped_flusher s p' c' : pumped s → sound (collected s) p' → told (pump s) p' → c' ⊆ cancels s →
  (pending p' = [] ∨ busy p' ∨ closing s ≠ []) →
  (∀ i, i ∈ c' → i ∈ created (flushers p')) → (∀ i effect, i ∈ c' → holder (flushers p') ≠ Some (i, Applying effect)) →
  pumped (with_cancels c' (with_pump p' s)).
Proof.
  intros [] Hs Ht Hc Hb Hl Hn. pose proof (waits_told _ _ _ Ht q_waits0) as Hw. constructor; simpl; try done.
  - intros Hu. destruct Hb as [Hp | Hb]; [| done]. by destruct (empty_awake (with_cancels c' (with_pump p' s)) Hs Hw Hp).
  - intros i Hi. split; [apply q_cancels0; set_solver | left; by apply Hl].
  - intros i e Hi He. by destruct (Hn i e Hi).
Qed.

Lemma asleep_after_eq ds id r t : waits (<[id := (t, match r.1 with Ended x => Napping | w => w end)]> ds) r.2 → 
  match r.1 with Ended _ => False | _ => True end → asleep_after id r ds = <[id := (t, match r.1 with Ended x => Napping | w => w end)]> ds.
Proof.
  intros [] Hr. unfold asleep_after. destruct r as [w p]; simpl in *. rewrite w_targets0, lookup_fmap, lookup_insert_eq. by destruct w.
Qed.

Lemma sleeping_before s ds' p' id : waits (drains s) (pump s) → sets (progress (pump s)) ≤ sets (progress p') →
  (∀ j w, j ≠ id → ds' !! j = Some w → drains s !! j = Some w) → (∀ t k, ds' !! id ≠ Some (t, Asleep k)) →
  unwoken (with_drains ds' (with_pump p' s)) → unwoken s.
Proof.
  intros [] Hle Hd Hn (j & t & Hj). simpl in Hj. destruct (decide (j = id)) as [-> | Hne]; [by destruct (Hn t (sets (progress p'))) |].
  exists j, t. apply Hd in Hj; [| done]. destruct (w_asleep0 j t _ Hj) as (_ & Hk & _). replace (sets (progress (pump s))) with (sets (progress p')) by lia. done.
Qed.

Lemma pump_drain_kept s inline nowait target : pumped s → (∀ t, target = Some t → t ≤ enqueued (pump s)) → let r := drain inline nowait target (pump s) in
  pumped (with_drains (asleep_after (_next_waiter_id (pump s)) r (drains s)) (with_pump r.2 s)).
Proof.
  intros Hp Ht. pose proof (q_sound s Hp) as Hs. pose proof (q_waits s Hp) as Hw. 
  destruct (drain_spec (collected s) (drains s) inline nowait target (pump s) Hs Hw Ht) as (t & _ & D1 & D2 & D3 & D4).
  cbv zeta. assert (∀ i e, holder (flushers (pump s)) = Some (i, Applying e) → unchanged (pump s) (drain inline nowait target (pump s)).2) as Hl by (intros; by eapply drain_locked).
  destruct (drain inline nowait target (pump s)) as [[x | k |] p'] eqn:Ed; cbn [fst snd] in *; [| | done].
  - assert (drains s !! _next_waiter_id (pump s) = None) as Hi.
    { destruct (drains s !! _) eqn:E; [| done]. destruct Hw. specialize (w_ids0 (_next_waiter_id (pump s))). rewrite E in w_ids0. 
      assert (_next_waiter_id (pump s) < _next_waiter_id (pump s)) by (apply w_ids0; by eexists). lia. }
    unfold asleep_after. simpl. rewrite delete_id by done. apply pumped_drains; try done; [apply D4 |].
    intros Hu. left. eapply (sleeping_before s (drains s) p' (_next_waiter_id (pump s))); try done. rewrite Hi. done.
  - destruct D4 as (W1 & W2 & W3 & W4 & W5). unfold asleep_after. simpl. rewrite W2. simpl. apply pumped_drains; try done. by right.
Qed.

Lemma pump_resume_kept s id t w c : pumped s → drains s !! id = Some (t, w) → let r := resume_drain id t w c (pump s) in
  pumped (with_drains (asleep_after id r (drains s)) (with_pump r.2 s)).
Proof.
  intros Hp Hi. pose proof (q_sound s Hp) as Hs. pose proof (q_waits s Hp) as Hw.
  destruct (resume_spec (collected s) (drains s) id t w c (pump s) Hs Hw Hi) as (D1 & D2 & D3 & D4).
  cbv zeta. pose proof (resume_unchanged id t w c (pump s)) as Hl.
  destruct (resume_drain id t w c (pump s)) as [[x | k |] p'] eqn:Ed; cbn [fst snd] in *.
  - unfold asleep_after. simpl. apply pumped_drains; try done; [apply D4 |]. intros Hu. left.
    eapply (sleeping_before s (delete id (drains s)) p' id); try done; [lia | | ]; [intros j x' Hj; by rewrite lookup_delete_ne | intros; by rewrite lookup_delete_eq].
  - destruct D4 as (W1 & W2 & W3). rewrite (asleep_after_eq (drains s) id (Asleep k, p') t) by done. apply pumped_drains; try done. by right.
  - destruct D4 as (W1 & W2). rewrite (asleep_after_eq (drains s) id (Napping, p') t) by done. apply pumped_drains; try done. intros Hu. left.
    eapply (sleeping_before s (<[id := (t, Napping)]> (drains s)) p' id); try done; [lia | |]; [intros j x' Hj; by rewrite lookup_insert_ne | intros ? ?; by rewrite lookup_insert_eq].
Qed.

Lemma done_kept s i r : pumped s → pumped (with_pump (_done i r (pump s)) s).
Proof.
  intros Hp. unfold _done. set (f := mkFlushers _ _ _ _). set (q := set_tasks _ _ f (pump s)).
  set (q2 := match r with Ok _ | Raise CancelledError => q | Raise _ => _ end).
  assert (unchanged (pump s) q2 ∧ _failing_close q2 = _failing_close (pump s) ∧ told (pump s) q2 ∧ more_busy (pump s) q2) as (H1 & H2 & H3 & H4).
  { assert (unchanged (pump s) q ∧ _failing_close q = _failing_close (pump s) ∧ told (pump s) q ∧ more_busy (pump s) q) as Hq
      by (split_and!; try done; apply quiet_told, quiet_plain; simpl; done || lia).
    unfold q2. destruct r as [| []]; try done; case_match eqn:E; try done; (split_and!; try done); apply andb_prop in E as [_ E%bool_decide_eq_true];
      (split; simpl; try done; [right; left; by split_and! | by left]). }
  clearbody q2. assert (sound (collected s) q2) as H5 by (eapply sound_eq; [.. | apply Hp]; done).
  case_match; [| apply pumped_same; try done; intros; by destruct H1 as (<- & _)].
  destruct (schedule_spec q2) as ((S1 & _) & S2 & _). apply pumped_same; try done; [by apply schedule_sound | | | ].
  - by eapply told_quiet_trans.
  - eapply more_trans; [exact H4 | apply schedule_more].
  - intros _ _ _ _ e. rewrite S1. by destruct H1 as (-> & _).
Qed.

Lemma pumped_step s s' : pump_step s s' → pumped s → pumped s'.
Proof.
  intros Hstep Hp. pose proof (q_sound s Hp) as Hs. destruct Hstep as
    [s inline effects Hf | s inline target | s | s i H1 H2 H3 | s i effect a H1 H2 | s i r H1 | s i H1 H2 | s i r H1 | s inline nowait target Ht |
     s id t w c H1 _ | s settle | s i H1 H2 | s i l1 l2 H1 H2 | s | s].
  - destruct (collect_pump inline (collected s) effects (pump s) Hs Hf) as (C1 & C2 & C3). apply pumped_kept; try done; [by apply quiet_told | by apply same_more |].
    intros i e Hi He. eapply (flight_kept _ effects (pump s)); try done; [by eapply q_flight | by destruct C3 as [-> _] | apply collect_pending].
  - destruct (drain_inline_pump inline target (collected s) (pump s) Hs) as (C1 & C2 & C3). apply pumped_same; try done; [by apply quiet_told |].
    intros i e He _. by rewrite (drain_inline_locked _ _ _ _ _ He).
  - destruct (schedule_spec (pump s)) as ((S1 & _) & S2 & _). apply pumped_same; try done; [by apply schedule_sound | by apply quiet_told | apply schedule_more |].
    intros _ _ _ _. by rewrite S1.
  - destruct (start_flush_pump (collected s) i (pump s) Hs H3) as (C1 & C2 & C3 & C4).
    replace (with_pump _ s) with (with_cancels (cancels s) (with_pump (start_flush i (pump s)) s)) by done.
    apply pumped_flusher; try done; [by apply quiet_told | | | ].
    + destruct C3 as [[? _] | ?]; [by left | right; left; right; by eauto].
    + intros j Hj. destruct (q_cancels s Hp j Hj) as [_ [H | [ph H]]]; [rewrite C4; set_solver | congruence].
    + intros j e Hj He. destruct C3 as [[_ C3] | [e' C3]]; congruence.
  - destruct (effect_applied_pump (collected s) i effect a (pump s) Hs H1) as (C1 & C2 & C3 & C4); [intros Ha; eapply q_flight; [done | by apply H2 | done] |].
    apply pumped_flusher; try done; [set_solver | | |].
    + destruct C4 as [[[? _] | ?] | [[? _] | [Ha _]]]; [by left | right; left; right; by eauto | by left | right; right].
      destruct (q_cancels s Hp i (H2 Ha)) as [Hc _]. intros E. rewrite E in Hc. by apply elem_of_nil in Hc.
    + intros j Hj. rewrite C3. destruct (q_cancels s Hp j) as [_ [H | [ph H]]]; [set_solver | done | set_solver].
    + intros j e Hj He. destruct C4 as [[[_ C4] | [e' C4]] | [[_ C4] | [_ C4]]]; rewrite C4 in He; try done. set_solver.
  - destruct (connection_failed_pump (collected s) i r (pump s) Hs H1) as (C1 & C2 & C3 & C4 & C5).
    apply pumped_flusher; try done; [by apply quiet_told | set_solver | by left |].
    intros j Hj. rewrite C5. destruct (q_cancels s Hp j) as [_ [H | [ph H]]]; [set_solver | done | set_solver].
  - destruct (q_cancels s Hp i H2) as [Hc _].
    assert (told (pump s) (cancel_flusher i (pump s))) as Ht by (apply quiet_told, quiet_plain; simpl; done || lia).
    destruct Hp as [_ Hw _ Hl Hfl]. constructor; simpl.
    + by eapply sound_eq; [.. | exact Hs].
    + by eapply waits_told.
    + intros _. right. intros E. rewrite E in Hc. by apply elem_of_nil in Hc.
    + intros j Hj. destruct (Hl j) as [Hjc [H | H]]; [set_solver | split; [done | left; set_solver] | split; [done | by right]].
    + intros j e Hj He. rewrite (waiting_eq (pump s) (cancel_flusher i (pump s))) by done. apply (Hfl j e); [set_solver | done].
  - by apply done_kept.
  - by apply pump_drain_kept.
  - by apply pump_resume_kept.
  - apply pumped_same; try done; [by apply discard_sound | by apply quiet_told, discard_quiet | apply same_more, discard_same |].
    intros _ _ _ _ e. destruct (effects_discard_spec settle (pump s)) as (_ & _ & _ & _ & -> & _). intros He. by apply list_elem_of_filter in He as [_ He].
  - pose proof (discard_empties false (pump s) (s_plain _ _ Hs)) as He. destruct (discard_same false (pump s)) as [Hf _].
    destruct Hp as [_ Hw _ Hl _]. pose proof (waits_told _ _ _ (quiet_told _ _ (discard_quiet false (pump s))) Hw) as Hw'.
    pose proof (discard_sound _ false _ Hs) as Hs'. constructor; simpl; try done.
    + intros Hu. by destruct (empty_awake (with_pump (discard_connection_effects false (pump s)) s) Hs' Hw' He).
    + intros j Hj. rewrite Hf. destruct (decide (j = i)) as [-> | Hn]; [| destruct (Hl j) as [Hjc Hjl]; [set_solver | split; [by right | done]]].
      split; [by left |]. unfold live in H2. apply orb_prop in H2 as [H2%bool_decide_eq_true | H2]; [by left | right].
      destruct (holder (flushers (pump s))) as [[j ph] |]; [| done]. apply Nat.eqb_eq in H2 as ->. by eexists.
    + intros j e _ He'. unfold waiting. rewrite He. by repeat case_match.
  - pose proof (discard_empties true (pump s) (s_plain _ _ Hs)) as He. destruct (discard_same true (pump s)) as [Hf _].
    destruct Hp as [_ Hw _ Hl _]. pose proof (waits_told _ _ _ (quiet_told _ _ (discard_quiet true (pump s))) Hw) as Hw'.
    pose proof (discard_sound _ true _ Hs) as Hs'. constructor; simpl; try done.
    + intros Hu. by destruct (empty_awake (with_pump (discard_connection_effects true (pump s)) s) Hs' Hw' He).
    + intros j Hj. rewrite Hf. destruct (Hl j Hj) as [Hjc Hjl]. split; [| done]. rewrite H1 in Hjc. apply elem_of_app. 
      apply elem_of_app in Hjc as [? | [-> | ?]%elem_of_cons]; [by left | | by right]. exfalso.
      unfold live in H2. apply orb_false_elim in H2 as [A%bool_decide_eq_false B]. destruct Hjl as [? | [ph E]]; [done |]. rewrite E in B. by rewrite Nat.eqb_refl in B.
    + intros j e _ He'. unfold waiting. rewrite He. by repeat case_match.
  - apply pumped_same; try done; [by eapply sound_eq; [.. | exact Hs] | apply quiet_told, quiet_plain; simpl; done || lia].
  - apply pumped_same; try done; [by eapply sound_eq; [.. | exact Hs] | apply quiet_told, quiet_plain; simpl; done || lia].
Qed.

Definition new_client (epoch : Z) : Pumping := mkPumping (EffectPump_init epoch) ∅ [] ∅ [].
Definition pumping (epoch : Z) s : Prop := rtc pump_step (new_client epoch) s.

Lemma new_client_pumped epoch : pumped (new_client epoch).
Proof.
  constructor; try done.
  - constructor; try done. constructor; try done. constructor.
  - constructor; try done; [by intros id [] | simpl; split; [by intros [] | done]].
  - intros (id & t & Hi). done.
Qed.
Lemma pumping_pumped epoch s : pumping epoch s → pumped s.
Proof. unfold pumping. intros Hr. assert (pumped (new_client epoch)) as H by apply new_client_pumped. revert H. induction Hr; eauto using pumped_step. Qed.


(** C22: whoever waits for the pump is served.  A caller of [drain] that sleeps was
    woken, or there is work for it and someone who will do it: a flusher that is about
    to run or applies an effect, or a teardown, whose discard wakes every sleeper.  A
    caller that goes on returns only when its target was reached, raises only the
    failure that was kept for it, and never fails its assertion; and a failure is kept
    only as long as one of its owners waits. *)
Theorem drain_served epoch s : pumping epoch s → let p := pump s in
  (∀ id t k, drains s !! id = Some (t, Asleep k) → k < sets (progress p) ∨
     applied p < t ≤ enqueued p ∧ pending p ≠ [] ∧ (busy p ∨ closing s ≠ [])) ∧
  (∀ id t k settle, drains s !! id = Some (t, Asleep k) → k < sets (progress (discard_connection_effects settle p))) ∧
  (∀ id t w, drains s !! id = Some (t, w) →
     match (resume_drain id t w false p).1 with
     | Ended (Ok _) => t ≤ applied p
     | Ended (Raise x) => error p = Some x ∧ id ∈ _error_waiters p
     | Asleep _ => applied p < t ∧ id ∉ _error_waiters p
     | Napping => id ∈ _error_waiters p
     end) ∧
  (is_Some (error p) ↔ ∃ id, id ∈ _error_waiters p ∧ is_Some (drains s !! id)).
Proof.
  intros Hr. pose proof (pumping_pumped epoch s Hr) as Hp. pose proof (q_waits s Hp) as Hw. cbv zeta. split_and!.
  - intros id t k Hi. destruct Hw. destruct (w_asleep0 id t _ Hi) as (Ht & Hk & H). destruct (decide (k = sets (progress (pump s)))) as [-> | Hn]; [right | left; lia].
    destruct (H eq_refl) as [Ha _]. split; [done |]. split; [| apply (q_served s Hp); by exists id, t].
    intros E. pose proof (k_count _ _ (s_books _ _ (q_sound s Hp))) as Hc. rewrite E in Hc. unfold len in Hc. simpl in Hc. lia.
  - intros id t k settle Hi. destruct Hw. destruct (w_asleep0 id t _ Hi) as (_ & Hk & _). destruct (effects_discard_spec settle (pump s)) as (_ & _ & _ & _ & _ & H & _).
    assert (waiters (pump s) ≠ 0) as Hn; [| specialize (H Hn); lia]. rewrite w_count0, (waits_size _ _ _ Hi). lia.
  - intros id t w Hi. destruct (resume_spec _ _ _ _ _ false _ (q_sound s Hp) Hw Hi) as (_ & _ & _ & H). pose proof (wait_loop_error id t (pump s)) as He.
    revert H. unfold resume_drain. assert (∀ r, r = (wait_loop id t (pump s)).1 → match r with
      | Ended x => waits (delete id (drains s)) (wait_loop id t (pump s)).2 ∧ (x = Ok tt → t ≤ applied (wait_loop id t (pump s)).2) ∧ (false = false → answered t (pump s) x)
      | Asleep k => waits (<[id := (t, Asleep k)]> (drains s)) (wait_loop id t (pump s)).2 ∧ k = sets (progress (wait_loop id t (pump s)).2) ∧ busy (wait_loop id t (pump s)).2
      | Napping => waits (<[id := (t, Napping)]> (drains s)) (wait_loop id t (pump s)).2 ∧ id ∈ _error_waiters (pump s)
      end → match r with
      | Ended (Ok _) => t ≤ applied (pump s) | Ended (Raise x) => error (pump s) = Some x ∧ id ∈ _error_waiters (pump s)
      | Asleep _ => applied (pump s) < t ∧ id ∉ _error_waiters (pump s) | Napping => id ∈ _error_waiters (pump s) end) as Hl.
    { intros r ->. revert He. destruct (wait_loop id t (pump s)).1 as [[x | x] | k |]; [intros _ (_ & _ & H); by apply H | intros He (_ & _ & H); split; [by apply H | done] | by intros He _ | by intros _ [_ H]]. }
    destruct w; try (by apply Hl). case_bool_decide; [done | by apply Hl].
  - destruct Hw. rewrite w_error0. split; [| intros (id & Hi & _); set_solver]. intros Hn. apply set_choose_L in Hn as [id Hi].
    exists id. split; [done |]. apply elem_of_dom. by apply w_owners0.
Qed.

(** *** An example

    Two packets are given at once; neither can be sent at once.  A caller waits for
    both, the flusher sends the first and fails on the second. *)
Definition pumped_effect (id : Z) : EngineEffect := mkEffect id (Effect.SEND_ACK [64; 2; 0; id]).
Definition never : EngineEffect → inlined := λ _, NotNow.
Definition pumped_run : list (Pumping → Pumping) :=
  [λ s, mkPumping (collect_from_engine never [pumped_effect 1; pumped_effect 2] (pump s)).2 (drains s) (collected s ++ [pumped_effect 1; pumped_effect 2]) (cancels s) (closing s);
   λ s, with_drains (asleep_after (_next_waiter_id (pump s)) (drain never false None (pump s)) (drains s)) (with_pump (drain never false None (pump s)).2 s);
   λ s, with_pump (start_flush 0 (pump s)) s;
   λ s, with_cancels (cancels s ∖ {[0%nat]}) (with_pump (effect_applied 0 (pumped_effect 1) AOk (pump s)) s);
   λ s, with_cancels (cancels s ∖ {[0%nat]}) (with_pump (effect_applied 0 (pumped_effect 2) (AFailed ConnectionError) (pump s)) s)].
Definition pumped_at (n : nat) : Pumping := foldl (λ s f, f s) (new_client 7) (take n pumped_run).

Lemma pumped_at_S n f : pumped_run !! n = Some f → pumped_at (S n) = f (pumped_at n).
Proof. intros H. unfold pumped_at. by rewrite (take_S_r _ _ _ H), foldl_app. Qed.
Lemma pumped_at_pumping : pumping 7 (pumped_at 4) ∧ pumping 7 (pumped_at 5).
Proof.
  assert (pumping 7 (pumped_at 4)) as H4; [| split; [exact H4 |]].
  - apply (rtc_r _ (pumped_at 3)); [apply (rtc_r _ (pumped_at 2)); [apply (rtc_r _ (pumped_at 1)); [apply rtc_once |] |] |].
    + rewrite (pumped_at_S 0 _ eq_refl). apply (pump_collect _ never [pumped_effect 1; pumped_effect 2]).
      split; [apply (bool_decide_unpack _); vm_compute; done | by intros ? _ ?%elem_of_nil].
    + rewrite (pumped_at_S 1 _ eq_refl). by apply (pump_drain _ never false None).
    + rewrite (pumped_at_S 2 _ eq_refl). apply (pump_start _ 0); vm_compute; done.
    + rewrite (pumped_at_S 3 _ eq_refl). apply (pump_applied _ 0 (pumped_effect 1) AOk); vm_compute; done.
  - apply (rtc_r _ (pumped_at 4)); [exact H4 |]. rewrite (pumped_at_S 4 _ eq_refl). apply (pump_applied _ 0 (pumped_effect 2) (AFailed ConnectionError)); vm_compute; done.
Qed.


Lemma drain_served_witness : pumping 7 (pumped_at 5) ∧ drains (pumped_at 5) !! 0 = Some (2, Asleep 0) ∧
  0 < sets (progress (pump (pumped_at 5))) ∧ (resume_drain 0 2 Napping false (pump (pumped_at 5))).1 = Ended (Raise ConnectionError).
Proof.
  destruct pumped_at_pumping as [_ Hr].
  destruct (drain_served 7 (pumped_at 5) Hr) as (H & _). split; [exact Hr |]. split; [reflexivity |]. split; [| reflexivity].
  destruct (H 0 2 0) as [H1 | [[H1 _] _]]; [reflexivity | exact H1 | exfalso; revert H1; vm_compute; discriminate].
Defined.
