(* ===== verification/Receipts.v ===== *)
(** * Receipts of publications

    [api/models.py] and the part of [api/async_client.py] that settles publications
    and parks their producers: what [publish] and [publish_many] return, the registry
    that finds a receipt by its packet identifier, and the futures that are waited
    for.  A task that waits is cut at its wait. *)

From S2P Require Import Prelude Enums Tasks.

(** An [asyncio.Future] that never carries a value, by its identity. *)
Inductive future := Waiting | Resolved | Withdrawn.
#[export] Instance future_eq_dec : EqDecision future.
Proof. solve_decision. Defined.
Abbreviation futures := (gmap Z future).
Definition future_done (fs : futures) (f : Z) : bool := match fs !! f with Some Waiting | None => false | _ => true end.
Definition resolve (f : Z) (fs : futures) : futures := if future_done fs f then fs else <[f := Resolved]> fs.

(** ** [PublishReceipt] *)

Record PublishReceipt := mkReceipt { r_mid : option Z; r_qos : QoS; r_waiters : option (list Z); r_error : option exn; r_settled : bool }.
Implicit Types (r : PublishReceipt).

Definition PublishReceipt_init (mid : option Z) (qos : QoS) : PublishReceipt := mkReceipt mid qos None None false.
Definition at_most_once r : bool := match r_qos r with AT_MOST_ONCE => true | _ => false end.
Definition is_done r : bool := at_most_once r || r_settled r.

Definition _settle r (fs : futures) : PublishReceipt * futures :=
  (mkReceipt (r_mid r) (r_qos r) None (r_error r) true, match r_waiters r with Some l => foldl (λ fs f, resolve f fs) fs l | None => fs end).
Definition fail_receipt (x : exn) r : PublishReceipt := mkReceipt (r_mid r) (r_qos r) (r_waiters r) (Some x) (r_settled r).
Definition set_waiters (l : option (list Z)) r : PublishReceipt := mkReceipt (r_mid r) (r_qos r) l (r_error r) (r_settled r).

(** How [wait] and [exception] report. *)
Definition outcome r : res unit := match r_error r with Some x => Raise x | None => Ok tt end.

Definition add_waiter (f : Z) r : PublishReceipt := set_waiters (Some (match r_waiters r with Some l => l ++ [f] | None => [f] end)) r.
(** [wait], with a future that nobody has yet: [None] when it sleeps on it. *)
Definition receipt_wait (f : Z) r : PublishReceipt * option (res unit) :=
  if negb (at_most_once r) && negb (r_settled r) then (add_waiter f r, None) else (r, Some (outcome r)).
Definition list_remove (f : Z) (l : list Z) : list Z := match list_find (f =.) l with Some (i, _) => delete i l | None => l end.
Definition resume_receipt_wait (f : Z) (cancelled : bool) r : PublishReceipt * res unit :=
  if cancelled then
    (match r_waiters r with
     | Some l => set_waiters (match list_remove f l with [] => None | l => Some l end) r
     | None => r
     end, Raise CancelledError)
  else (r, outcome r).
(** [add_done_callback]: [true] when the callback is scheduled at once. *)
Definition add_done_callback (f : Z) r : PublishReceipt * bool :=
  if r_settled r || at_most_once r then (r, true) else (add_waiter f r, false).
Definition receipt_exception r : res (option exn) := if is_done r then Ok (r_error r) else Raise InvalidStateError.

(** ** [PublishBatchReceipt] *)

(** [type(error).__name__] *)
Definition type_name (x : exn) : string :=
  match x with
  | MalformedPacketError => "MalformedPacketError" | ProtocolError => "ProtocolError" | PublishRejectedError _ _ _ => "PublishRejectedError"
  | PacketTooLargeError => "PacketTooLargeError" | MandatoryResponseTooLargeError => "MandatoryResponseTooLargeError" | SessionReplayError => "SessionReplayError"
  | FlowControlError => "FlowControlError" | NotConnectedError => "NotConnectedError" | SessionDiscardedError => "SessionDiscardedError"
  | ValueError => "ValueError" | OverflowError => "OverflowError" | TypeError => "TypeError" | IndexError => "IndexError" | KeyError => "KeyError"
  | UnicodeError => "UnicodeError" | StructError => "error" | AssertionError => "AssertionError" | RuntimeError => "RuntimeError" | StoreError => "StoreError"
  | StaleConnectionEffect => "StaleConnectionEffect" | MessageDeliveryError => "MessageDeliveryError" | CancelledError => "CancelledError"
  | DependencyCancelledError => "DependencyCancelledError" | OSError => "OSError" | ConnectionError => "ConnectionError" | TimeoutError => "TimeoutError"
  | MQTTError => "MQTTError" | MQTTTimeoutError => "MQTTTimeoutError" | BrokerDisconnectError => "BrokerDisconnectError" | PublishBatchError => "PublishBatchError"
  | QueueFull => "QueueFull" | InvalidStateError => "InvalidStateError"
  end%string.

(** [_pending]: from packet identifier to input index, in insertion order. *)
Record PublishBatchReceipt := mkBatch {
  b_pending : list (Z * Z); b_failures : list (Z * exn); b_failure_counts : list (string * Z); b_max_failure_details : Z; b_done : bool; b_progress : Event;
  b_sealed : bool; b_submitted : Z; b_fatal : option exn }.
Implicit Types (b : PublishBatchReceipt).

Definition PublishBatchReceipt_init (max_failure_details : Z) : res PublishBatchReceipt :=
  if max_failure_details <? 0 then Raise ValueError else Ok (mkBatch [] [] [] max_failure_details false new_event false 0 None).

Definition set_b_pending (l : list (Z * Z)) b : PublishBatchReceipt :=
  mkBatch l (b_failures b) (b_failure_counts b) (b_max_failure_details b) (b_done b) (b_progress b) (b_sealed b) (b_submitted b) (b_fatal b).
Definition set_b_progress (e : Event) b : PublishBatchReceipt :=
  mkBatch (b_pending b) (b_failures b) (b_failure_counts b) (b_max_failure_details b) (b_done b) e (b_sealed b) (b_submitted b) (b_fatal b).
Definition set_b_end (finished sealed : bool) (fatal : option exn) b : PublishBatchReceipt :=
  mkBatch (b_pending b) (b_failures b) (b_failure_counts b) (b_max_failure_details b) finished (b_progress b) sealed (b_submitted b) fatal.
Definition set_b_submitted (n : Z) b : PublishBatchReceipt :=
  mkBatch (b_pending b) (b_failures b) (b_failure_counts b) (b_max_failure_details b) (b_done b) (b_progress b) (b_sealed b) n (b_fatal b).

Definition failure_count b : Z := foldr (λ p n, p.2 + n) 0 (b_failure_counts b).

Definition _register (mid : option Z) b : PublishBatchReceipt :=
  let index := b_submitted b in
  let b := set_b_submitted (index + 1) b in
  match mid with Some mid => set_b_pending (dset mid index (b_pending b)) b | None => b end.
Definition _rollback_qos0_registration b : res PublishBatchReceipt :=
  if negb (b_sealed b) && (0 <? b_submitted b) then Ok (set_b_submitted (b_submitted b - 1) b) else Raise AssertionError.

Definition _record_failure (index : Z) (x : exn) b : PublishBatchReceipt :=
  let name := type_name x in
  mkBatch (b_pending b) (if len (b_failures b) <? b_max_failure_details b then dset index x (b_failures b) else b_failures b)
    (dset name (default 0 (dget name (b_failure_counts b)) + 1) (b_failure_counts b))
    (b_max_failure_details b) (b_done b) (b_progress b) (b_sealed b) (b_submitted b) (b_fatal b).
Definition _finish_if_ready b : PublishBatchReceipt :=
  if b_sealed b && match b_pending b with [] => true | _ => false end then set_b_end true (b_sealed b) (b_fatal b) b else b.
Definition _complete (mid : Z) (x : option exn) b : PublishBatchReceipt :=
  match dget mid (b_pending b) with
  | None => b
  | Some index =>
      let b := set_b_pending (ddel mid (b_pending b)) b in
      let b := match x with Some x => _record_failure index x b | None => b end in
      _finish_if_ready (set_b_progress (set_event (b_progress b)) b)
  end.
Definition _seal b : PublishBatchReceipt := _finish_if_ready (set_b_end (b_done b) true (b_fatal b) b).
Definition _fail_remaining (x : exn) b : PublishBatchReceipt :=
  let b := set_b_end (b_done b) (b_sealed b) (Some x) b in
  let b := foldl (λ b p, _record_failure p.2 x b) b (b_pending b) in
  let b := set_b_pending [] b in
  set_b_end true true (b_fatal b) (set_b_progress (set_event (b_progress b)) b).

(** [wait], once [_done] is set. *)
Definition batch_outcome b : res unit :=
  match b_fatal b, b_failure_counts b with Some _, _ => Raise PublishBatchError | None, [] => Ok tt | None, _ => Raise PublishBatchError end.
Definition _wait_pending_at_most (limit : Z) b : PublishBatchReceipt * turn unit :=
  if len (b_pending b) <=? limit then (b, Done (Ok tt))
  else let b := set_b_progress (clear_event (b_progress b)) b in (b, Sleeps (sets (b_progress b))).

(** ** The registry *)

(** A deque in the registry is never empty: its first entry is apart. *)
Inductive entry := Entry (x : Z) | Deque (x : Z) (rest : list Z).
Abbreviation registry := (list (Z * entry)).
Definition entries (e : entry) : list Z := match e with Entry x => [x] | Deque x rest => x :: rest end.

Definition _fifo_register (reg : registry) (mid x : Z) : registry :=
  match dget mid reg with
  | None => dset mid (Entry x) reg
  | Some (Deque y rest) => dset mid (Deque y (rest ++ [x])) reg
  | Some (Entry y) => dset mid (Deque y [x]) reg
  end.
Definition _fifo_pop (reg : registry) (mid : Z) : option Z * registry :=
  match dget mid reg with
  | None => (None, reg)
  | Some (Entry x) => (Some x, ddel mid reg)
  | Some (Deque x rest) =>
      let reg := ddel mid reg in
      (Some x, match rest with [] => reg | [y] => dset mid (Entry y) reg | y :: rest => dset mid (Deque y rest) reg end)
  end.

(** ** The client *)

(** Receipts, batches and futures are objects known by their identity. *)
Record Publications := mkPublications {
  _receipts : registry; _batch_receipts : registry; receipt_objects : gmap Z PublishReceipt; batch_objects : gmap Z PublishBatchReceipt; futs : futures;
  _publish_waiters : Z; _publish_waiter_futs : list Z; _publish_wakeups : Z; _publish_wait_retries : Z; _teardown_final : bool;
  _local_terminal_failure : option exn }.
Implicit Types (c : Publications).

Definition Publications_init : Publications := mkPublications [] [] ∅ ∅ ∅ 0 [] 0 0 false None.

Definition set_registries (rs bs : registry) c : Publications :=
  mkPublications rs bs (receipt_objects c) (batch_objects c) (futs c) (_publish_waiters c) (_publish_waiter_futs c) (_publish_wakeups c) (_publish_wait_retries c)
    (_teardown_final c) (_local_terminal_failure c).
Definition set_objects (rs : gmap Z PublishReceipt) (bs : gmap Z PublishBatchReceipt) (fs : futures) c : Publications :=
  mkPublications (_receipts c) (_batch_receipts c) rs bs fs (_publish_waiters c) (_publish_waiter_futs c) (_publish_wakeups c) (_publish_wait_retries c)
    (_teardown_final c) (_local_terminal_failure c).
Definition set_parked (n : Z) (l : list Z) (wakeups retries : Z) c : Publications :=
  mkPublications (_receipts c) (_batch_receipts c) (receipt_objects c) (batch_objects c) (futs c) n l wakeups retries (_teardown_final c) (_local_terminal_failure c).
Definition set_terminal (final : bool) (failure : option exn) c : Publications :=
  mkPublications (_receipts c) (_batch_receipts c) (receipt_objects c) (batch_objects c) (futs c) (_publish_waiters c) (_publish_waiter_futs c) (_publish_wakeups c)
    (_publish_wait_retries c) final failure.
Definition with_receipt (id : Z) (r : PublishReceipt) c : Publications := set_objects (<[id := r]> (receipt_objects c)) (batch_objects c) (futs c) c.
Definition with_batch (id : Z) (b : PublishBatchReceipt) c : Publications := set_objects (receipt_objects c) (<[id := b]> (batch_objects c)) (futs c) c.

Definition _latch_local_failure (x : exn) c : Publications :=
  match _local_terminal_failure c with None => set_terminal (_teardown_final c) (Some x) c | Some _ => c end.

(** *** Producers that wait for room *)

Fixpoint wake_loop (remaining : nat) (waiters : list Z) (fs : futures) (wakeups : Z) : list Z * futures * Z :=
  match waiters with
  | [] => ([], fs, wakeups)
  | f :: rest =>
      match remaining with
      | O => (waiters, fs, wakeups)
      | S n => if future_done fs f then wake_loop remaining rest fs wakeups else wake_loop n rest (resolve f fs) (wakeups + 1)
      end
  end.
Definition _wake_publish_waiters (n : nat) c : Publications :=
  let '(l, fs, wakeups) := wake_loop n (_publish_waiter_futs c) (futs c) (_publish_wakeups c) in
  set_parked (_publish_waiters c) l wakeups (_publish_wait_retries c) (set_objects (receipt_objects c) (batch_objects c) fs c).
Definition _notify_publish_space c : Publications := _wake_publish_waiters (length (_publish_waiter_futs c)) c.

Definition _register_publish_waiter (f : Z) c : Publications :=
  set_parked (_publish_waiters c + 1) (_publish_waiter_futs c ++ [f]) (_publish_wakeups c) (_publish_wait_retries c)
    (set_objects (receipt_objects c) (batch_objects c) (<[f := Waiting]> (futs c)) c).
Definition _discard_publish_waiter (f : Z) c : Publications :=
  match futs c !! f with
  | Some Resolved => c
  | _ => set_parked (_publish_waiters c) (list_remove f (_publish_waiter_futs c)) (_publish_wakeups c) (_publish_wait_retries c) c
  end.
Definition leave_queue c : Publications := set_parked (_publish_waiters c - 1) (_publish_waiter_futs c) (_publish_wakeups c) (_publish_wait_retries c) c.
(** The wait of [_wait_publish_space] is over. *)
Definition _wait_publish_space (f : Z) (cancelled : bool) c : Publications * res unit :=
  if cancelled then
    (leave_queue (match futs c !! f with Some Resolved => _wake_publish_waiters 1 c | _ => _discard_publish_waiter f c end), Raise CancelledError)
  else
    (leave_queue (set_parked (_publish_waiters c) (_publish_waiter_futs c) (_publish_wakeups c) (_publish_wait_retries c + 1) c), Ok tt).

(** *** Waiting for a receipt *)

(** [receipt.wait()] and [receipt.add_done_callback()], whose future [f] is new. *)
Definition add_future (id f : Z) (waiting : bool) (r : PublishReceipt) c : Publications :=
  set_objects (<[id := r]> (receipt_objects c)) (batch_objects c) (if waiting then <[f := Waiting]> (futs c) else futs c) c.
Definition wait_on (id f : Z) c : option (res unit) * Publications :=
  match receipt_objects c !! id with
  | None => (Some (Raise KeyError), c)
  | Some r => let '(r, result) := receipt_wait f r in (result, add_future id f (match result with None => true | Some _ => false end) r c)
  end.
Definition when_done (id f : Z) c : bool * Publications :=
  match receipt_objects c !! id with
  | None => (true, c)
  | Some r => let '(r, now) := add_done_callback f r in (now, add_future id f (negb now) r c)
  end.
Definition resume_wait_on (id f : Z) (cancelled : bool) c : res unit * Publications :=
  match receipt_objects c !! id with
  | None => (Raise KeyError, c)
  | Some r => let '(r, result) := resume_receipt_wait f cancelled r in (result, with_receipt id r c)
  end.

(** *** Settling *)

Definition settle_receipt (id : Z) (reason : option exn) c : Publications :=
  match receipt_objects c !! id with
  | None => c
  | Some r =>
      let r := match reason with Some x => fail_receipt x r | None => r end in
      let '(r, fs) := _settle r (futs c) in set_objects (<[id := r]> (receipt_objects c)) (batch_objects c) fs c
  end.
Definition complete_batch (mid id : Z) (reason : option exn) c : Publications :=
  match batch_objects c !! id with None => c | Some b => with_batch id (_complete mid reason b) c end.

Definition settle_batch (mid : Z) (reason : option exn) c : Publications :=
  match _batch_receipts c with
  | [] => c
  | _ =>
      let '(batch, bs) := _fifo_pop (_batch_receipts c) mid in
      let c := set_registries (_receipts c) bs c in
      match batch with Some id => complete_batch mid id reason c | None => c end
  end.

Definition settle_entries (mid : Z) (reason : option exn) c : Publications :=
  let '(receipt, rs) := _fifo_pop (_receipts c) mid in
  let c := set_registries rs (_batch_receipts c) c in
  settle_batch mid reason (match receipt with Some id => settle_receipt id reason c | None => c end).
Definition _settle_publish (mid : option Z) (reason : option exn) c : Publications :=
  let c := match mid with Some mid => settle_entries mid reason c | None => c end in
  if _publish_waiters c =? 0 then c else _wake_publish_waiters 1 c.

(** [sealed]: what [seal_publications] of the engine answers. *)
Definition _fail_pending (x : exn) (sealed : list Z → res unit) c : Publications :=
  let abandoned := dkeys (_receipts c) ++ dkeys (_batch_receipts c) in
  let c := foldl (λ c id, settle_receipt id (Some x) c) c (mjoin (entries <$> (snd <$> _receipts c))) in
  let c := set_registries [] (_batch_receipts c) c in
  let batches := remove_dups (mjoin (entries <$> (snd <$> _batch_receipts c))) in
  let c := set_registries [] [] c in
  let c := foldl (λ c id, match batch_objects c !! id with Some b => with_batch id (_fail_remaining x b) c | None => c end) c batches in
  let c :=
    match abandoned with
    | [] => c
    | _ => match sealed abandoned with Ok _ => c | Raise store_exc => _latch_local_failure store_exc c end
    end in
  _notify_publish_space (set_terminal true (_local_terminal_failure c) c).

(** ** Publishing *)

(** [admitted]: the handle [queue_publish] gives, or what it raises.  [id]: the receipt
    object, if one is made. *)
Definition _commit_publish (qos : QoS) (disconnected connection_pending : bool) (admitted : res (option Z * QoS)) (batch : option Z) (id : Z) c :
    res (option Z) * Publications :=
  let refused :=
    match qos with
    | AT_MOST_ONCE => None
    | _ =>
        match _local_terminal_failure c with
        | Some _ => Some MQTTError
        | None => if disconnected && negb connection_pending then Some NotConnectedError else None
        end
    end in
  match refused, admitted with
  | Some x, _ | None, Raise x => (Raise x, c)
  | None, Ok (mid, handle_qos) =>
      match batch with
      | Some batch =>
          let c := match batch_objects c !! batch with Some b => with_batch batch (_register mid b) c | None => c end in
          (Ok None, match mid with Some mid => set_registries (_receipts c) (_fifo_register (_batch_receipts c) mid batch) c | None => c end)
      | None =>
          let c := with_receipt id (PublishReceipt_init mid handle_qos) c in
          (Ok (Some id), match mid with Some mid => set_registries (_fifo_register (_receipts c) mid id) (_batch_receipts c) c | None => c end)
      end
  end.

(** [_publish_wait_failure] *)
Definition _publish_wait_failure (will_reconnect : bool) (disconnect_exc : option exn) c : option exn :=
  if negb (_teardown_final c) || will_reconnect then None else Some (default MQTTError disconnect_exc).

(** What [_publish_one] finds under the engine's lock. *)
Record admission := mkAdmission {
  dirty : bool; disconnected : bool; connection_pending : bool; admitted : res (option Z * QoS); can_ever_admit : bool; will_reconnect : bool; disconnect_exc : option exn }.
(** Under the lock: a result, another round, or a place in the queue of producers. *)
Inductive attempt := Published (r : res (option Z)) | Again | Parked (f : Z).
Definition publish_attempt (qos : QoS) (a : admission) (batch : option Z) (id f : Z) c : attempt * Publications :=
  if dirty a then (Again, c)
  else
    match _commit_publish qos (disconnected a) (connection_pending a) (admitted a) batch id c with
    | (Raise FlowControlError, c) =>
        if negb (can_ever_admit a) then (Published (Raise FlowControlError), c)
        else
          match _publish_wait_failure (will_reconnect a) (disconnect_exc a) c with
          | Some x => (Published (Raise x), c)
          | None => (Parked f, _register_publish_waiter f c)
          end
    | (r, c) => (Published r, c)
    end.
(** A parked producer goes on: it raises or tries again. *)
Definition resume_publish (f : Z) (cancelled will_reconnect : bool) (disconnect_exc : option exn) c : attempt * Publications :=
  match _wait_publish_space f cancelled c with
  | (c, Raise x) => (Published (Raise x), c)
  | (c, Ok _) => match _publish_wait_failure will_reconnect disconnect_exc c with Some x => (Published (Raise x), c) | None => (Again, c) end
  end.

(** [receipts] of [stats]: publications and batches that are registered. *)
Definition receipt_stats c : Z * Z * Z :=
  (len (mjoin (entries <$> (snd <$> _receipts c))), len (remove_dups (mjoin (entries <$> (snd <$> _batch_receipts c)))), _publish_waiters c).
