(* ===== verification/ReceiptsTheorems.v ===== *)
(** * Every publication has one outcome, and its receipt says which

    Publications, settlements, teardowns, waits and cancellations in any interleaving,
    against a ledger that numbers nothing: which publication has which identifier, and
    what became of it. *)

From S2P Require Import Prelude Enums Tasks Receipts.

Implicit Types (r : PublishReceipt) (b : PublishBatchReceipt) (c : Publications) (reg : registry).

(** ** The registry is a queue per identifier *)

Definition queue reg (mid : Z) : list Z := match dget mid reg with Some e => entries e | None => [] end.

Lemma fifo_register_queue reg mid x m : queue (_fifo_register reg mid x) m = if decide (m = mid) then queue reg m ++ [x] else queue reg m.
Proof.
  unfold queue, _fifo_register. destruct (dget mid reg) as [[y | y rest] |] eqn:E; rewrite dget_dset; case_decide as Hm; subst; rewrite ?E; done.
Qed.
Lemma fifo_pop_queue reg mid m : NoDup (dkeys reg) → let q := _fifo_pop reg mid in
  q.1 = head (queue reg mid) ∧ queue q.2 m = (if decide (m = mid) then tail (queue reg m) else queue reg m) ∧ NoDup (dkeys q.2).
Proof.
  intros Hn. unfold queue, _fifo_pop. destruct (dget mid reg) as [[y | y [| z [| z' rest]]] |] eqn:E; simpl; (split; [done |]);
    (split; [| eauto using NoDup_dset, NoDup_ddel]); rewrite ?dget_dset, ?dget_ddel by done; case_decide; subst; rewrite ?E; done.
Qed.

(** The receipts of one identifier are settled first in, first out.  For any
    registrations and settlements, on any identifiers, each registry is a queue of
    receipts per identifier. *)
Theorem fifo_refines (moves : list (Z * option Z)) mid :
  let run := foldl (λ (s : registry * list (option Z)) (m : Z * option Z),
    match m with
    | (mid, Some x) => (_fifo_register s.1 mid x, s.2)
    | (mid', None) => ((_fifo_pop s.1 mid').2, if decide (mid' = mid) then s.2 ++ [(_fifo_pop s.1 mid').1] else s.2)
    end) ([], []) moves in
  let spec := foldl (λ (s : list Z * list (option Z)) (m : Z * option Z),
    if decide (m.1 = mid) then match m.2 with Some x => (s.1 ++ [x], s.2) | None => (tail s.1, s.2 ++ [head s.1]) end else s) ([], []) moves in
  queue run.1 mid = spec.1 ∧ run.2 = spec.2 ∧ NoDup (dkeys run.1).
Proof.
  cbv zeta. induction moves as [| m moves IH] using rev_ind; [split_and!; try done; constructor |].
  rewrite !foldl_app. simpl. set (run := foldl _ ([], []) moves) in *. set (spec := foldl (λ (s : list Z * list (option Z)) m, _) ([], []) moves) in *.
  destruct IH as (H1 & H2 & H3). destruct m as [k [x |]]; simpl.
  - rewrite fifo_register_queue. assert (NoDup (dkeys (_fifo_register run.1 k x))) as Hn by (unfold _fifo_register; by destruct (dget k run.1) as [[] |]; apply NoDup_dset).
    destruct (decide (mid = k)) as [<- | Hk]; [rewrite !decide_True by done | rewrite !decide_False by congruence]; simpl; split_and!; congruence.
  - destruct (fifo_pop_queue run.1 k mid H3) as (P1 & P2 & P3). destruct (decide (mid = k)) as [<- | Hk].
    + rewrite !decide_True by done. simpl. split_and!; congruence.
    + rewrite !decide_False by congruence. split_and!; congruence.
Qed.

(** ** The ledger *)

(** A publication, by where its outcome goes. *)
Inductive target := ToReceipt (id : Z) | ToBatch (id index : Z).
#[export] Instance target_eq_dec : EqDecision target.
Proof. solve_decision. Defined.

Definition receipt_of (p : Z * target) : option (Z * entry) := match p with (mid, ToReceipt id) => Some (mid, Entry id) | _ => None end.
Definition batch_of (p : Z * target) : option (Z * entry) := match p with (mid, ToBatch id _) => Some (mid, Entry id) | _ => None end.
Definition in_batch (id : Z) (p : Z * target) : option (Z * Z) := match p with (mid, ToBatch id' i) => if decide (id = id') then Some (mid, i) else None | _ => None end.

Lemma ddel_not_key {A} (l : list (Z * A)) k : k ∉ dkeys l → ddel k l = l.
Proof. unfold dkeys. induction l as [| [k' w] l IH]; [done |]. simpl. intros [H1 H2]%not_elem_of_cons. case_decide; [done |]. by rewrite IH. Qed.
Lemma dkeys_omap {A B} (f : Z * A → option (Z * B)) (l : list (Z * A)) : (∀ p q, f p = Some q → q.1 = p.1) → NoDup (dkeys l) → NoDup (dkeys (omap f l)).
Proof.
  intros Hf. unfold dkeys. induction l as [| p l IH]; [constructor |]. rewrite fmap_cons, NoDup_cons. intros [Hp Hl].
  simpl. destruct (f p) as [q |] eqn:E; simpl; [| by apply IH]. apply NoDup_cons. split; [| by apply IH]. rewrite (Hf p q E).
  intros (x & E' & Hx)%list_elem_of_fmap. apply list_elem_of_omap in Hx as (y & Hy & Ey). apply Hp. rewrite E', (Hf y x Ey). by apply list_elem_of_fmap_2.
Qed.
Lemma dget_omap {A B} (f : Z * A → option (Z * B)) (l : list (Z * A)) k : (∀ p q, f p = Some q → q.1 = p.1) → NoDup (dkeys l) →
  dget k (omap f l) = dget k l ≫= λ v, snd <$> f (k, v).
Proof.
  intros Hf. unfold dkeys. induction l as [| [k' v] l IH]; [done |]. simpl. rewrite NoDup_cons. intros [Hp Hl].
  destruct (f (k', v)) as [[k2 w] |] eqn:E; simpl; [pose proof (Hf _ _ E) as Hk; simpl in Hk; subst k2 |]; (case_decide; [subst; simpl; rewrite ?E; simpl |]).
  - done.
  - by apply IH.
  - etrans; [apply (IH Hl) |]. destruct (dget k' l) eqn:Eg; [by apply dget_Some_key in Eg | done].
  - by apply IH.
Qed.
Lemma ddel_omap {A B} (f : Z * A → option (Z * B)) (l : list (Z * A)) k : (∀ p q, f p = Some q → q.1 = p.1) → NoDup (dkeys l) →
  ddel k (omap f l) = omap f (ddel k l).
Proof.
  intros Hf. unfold dkeys. induction l as [| [k' v] l IH]; [done |]. simpl. rewrite NoDup_cons. intros [Hp Hl].
  destruct (f (k', v)) as [[k2 w] |] eqn:E; simpl; [pose proof (Hf _ _ E) as Hk; simpl in Hk; subst k2 |].
  - case_decide; [done |]. simpl. rewrite E. f_equal. by apply IH.
  - case_decide; simpl; rewrite ?E; [| by apply IH]. subst. etrans; [by apply IH |]. by rewrite ddel_not_key.
Qed.
Lemma elem_ddel {A} (l : list (Z * A)) k p : NoDup (dkeys l) → p ∈ ddel k l ↔ p ∈ l ∧ p.1 ≠ k.
Proof.
  unfold dkeys. induction l as [| [k' w] l IH]; [simpl; rewrite elem_of_nil; tauto |]. simpl. rewrite NoDup_cons. intros [Hp Hl]. case_decide.
  - subst. rewrite elem_of_cons. split; [intros H; split; [by right |]; intros E; apply Hp; rewrite <- E; by apply list_elem_of_fmap_2 |].
    intros [[-> | H] Hk]; done.
  - rewrite !elem_of_cons, IH by done. naive_solver.
Qed.

Record world := mkWorld {
  pub : Publications; opened : list (Z * target); outcomes : list (target * option exn); asleep : gmap Z Z; parked : gset Z; passed : Z }.
Implicit Types (s : world).
Definition with_pub c s : world := mkWorld c (opened s) (outcomes s) (asleep s) (parked s) (passed s).

(** *** Steps *)

Definition destination (batch : option Z) (id : Z) c : target :=
  match batch with Some b => ToBatch b (match batch_objects c !! b with Some r => b_submitted r | None => 0 end) | None => ToReceipt id end.
Definition published (a : admission) (batch : option Z) (id : Z) (p : attempt * Publications) s : world :=
  mkWorld p.2 (match p.1, admitted a with Published (Ok _), Ok (Some mid, _) => opened s ++ [(mid, destination batch id (pub s))] | _, _ => opened s end)
    (outcomes s) (asleep s) (match p.1 with Parked f => {[f]} ∪ parked s | _ => parked s end) (passed s).
Definition settled (mid : option Z) (reason : option exn) s : world :=
  let c := _settle_publish mid reason (pub s) in
  match mid ≫= λ m, (λ t, (m, t)) <$> dget m (opened s) with
  | Some (m, t) => mkWorld c (ddel m (opened s)) (outcomes s ++ [(t, reason)]) (asleep s) (parked s) (passed s)
  | None => with_pub c s
  end.
Definition receipt_id (p : Z * target) : option Z := match p.2 with ToReceipt id => Some id | ToBatch _ _ => None end.
Definition to_batch (p : Z * target) : bool := match p.2 with ToBatch _ _ => true | ToReceipt _ => false end.
Definition failed (x : exn) (answer : list Z → res unit) s : world :=
  mkWorld (_fail_pending x answer (pub s)) []
    (outcomes s ++ ((λ id, (ToReceipt id, Some x)) <$> omap receipt_id (opened s)) ++ ((λ p, (p.2, Some x)) <$> filter (λ p, to_batch p = true) (opened s)))
    (asleep s) (parked s) (passed s).

Inductive receipts_step : world → world → Prop :=
  | rs_publish s qos a batch id f : receipt_objects (pub s) !! id = None → futs (pub s) !! f = None → (∀ id, batch = Some id → ∃ b, batch_objects (pub s) !! id = Some b ∧ (b_sealed b = false ∨ is_Some (b_fatal b))) →
      (∀ mid q, admitted a = Ok (mid, q) → match mid with Some m => m ∉ dkeys (opened s) ∧ q ≠ AT_MOST_ONCE | None => q = AT_MOST_ONCE end) →
      receipts_step s (published a batch id (publish_attempt qos a batch id f (pub s)) s)
  | rs_settle s mid reason : receipts_step s (settled mid reason s)
  | rs_fail s x answer : receipts_step s (failed x answer s)
  | rs_batch s id n b : batch_objects (pub s) !! id = None → PublishBatchReceipt_init n = Ok b → receipts_step s (with_pub (with_batch id b (pub s)) s)
  | rs_seal s id b : batch_objects (pub s) !! id = Some b → receipts_step s (with_pub (with_batch id (_seal b) (pub s)) s)
  | rs_wait s id f : is_Some (receipt_objects (pub s) !! id) → futs (pub s) !! f = None → let p := wait_on id f (pub s) in
      receipts_step s (mkWorld p.2 (opened s) (outcomes s) (match p.1 with None => <[f := id]> (asleep s) | Some _ => asleep s end) (parked s) (passed s))
  | rs_callback s id f : is_Some (receipt_objects (pub s) !! id) → futs (pub s) !! f = None → let p := when_done id f (pub s) in
      receipts_step s (mkWorld p.2 (opened s) (outcomes s) (if p.1 then asleep s else <[f := id]> (asleep s)) (parked s) (passed s))
  | rs_withdraw s f : futs (pub s) !! f = Some Waiting →
      receipts_step s (with_pub (set_objects (receipt_objects (pub s)) (batch_objects (pub s)) (<[f := Withdrawn]> (futs (pub s))) (pub s)) s)
  | rs_resume s f id cancelled : asleep s !! f = Some id → futs (pub s) !! f ≠ Some Waiting → (cancelled = false → futs (pub s) !! f = Some Resolved) →
      receipts_step s (mkWorld (resume_wait_on id f cancelled (pub s)).2 (opened s) (outcomes s) (delete f (asleep s)) (parked s) (passed s))
  | rs_unpark s f cancelled will_reconnect cause : f ∈ parked s → futs (pub s) !! f ≠ Some Waiting → (cancelled = false → futs (pub s) !! f = Some Resolved) →
      receipts_step s (mkWorld (resume_publish f cancelled will_reconnect cause (pub s)).2 (opened s) (outcomes s) (asleep s) (parked s ∖ {[f]})
        (passed s + match cancelled, futs (pub s) !! f with true, Some Resolved => 1 | _, _ => 0 end))
  | rs_notify s final : receipts_step s (with_pub (_notify_publish_space (set_terminal final (_local_terminal_failure (pub s)) (pub s))) s)
  | rs_connect s : receipts_step s (with_pub (set_terminal false (_local_terminal_failure (pub s)) (pub s)) s).

(** ** Futures *)

Definition resolve_all (l : list Z) (fs : futures) : futures := foldl (λ fs f, resolve f fs) fs l.
Lemma resolve_lookup f g fs : resolve f fs !! g = if decide (g = f) then match fs !! g with Some Withdrawn => Some Withdrawn | _ => Some Resolved end else fs !! g.
Proof.
  unfold resolve, future_done. case_decide as E; [subst |].
  - destruct (fs !! f) as [[] |] eqn:E; rewrite ?lookup_insert_eq; done.
  - case_match; [done | by rewrite lookup_insert_ne].
Qed.
Lemma resolve_all_lookup l g : ∀ fs, resolve_all l fs !! g = if decide (g ∈ l) then match fs !! g with Some Withdrawn => Some Withdrawn | _ => Some Resolved end else fs !! g.
Proof.
  unfold resolve_all. induction l as [| f l IH]; intros fs; [done |]. simpl.
  rewrite IH, resolve_lookup. destruct (decide (g = f)) as [-> | Hn].
  - rewrite (decide_True (P := f ∈ f :: l)) by (by left). destruct (fs !! f) as [[] |]; by case_decide.
  - destruct (decide (g ∈ l)) as [Hl | Hl]; [by rewrite decide_True by (by right) |]. rewrite decide_False; [done |]. by intros [? | ?]%elem_of_cons.
Qed.

(** Tasks asleep on receipts. *)
Record asleep_ok (objs : gmap Z PublishReceipt) (fs : futures) (asl : gmap Z Z) : Prop := {
  a_wait : ∀ f id, asl !! f = Some id → is_Some (fs !! f) ∧ ∃ r, objs !! id = Some r ∧ (fs !! f = Some Waiting → r_settled r = false ∧ ∃ l, r_waiters r = Some l ∧ f ∈ l);
  a_own : ∀ id r l f, objs !! id = Some r → r_waiters r = Some l → f ∈ l → asl !! f = Some id ∧ fs !! f ≠ Some Resolved;
  a_dup : ∀ id r l, objs !! id = Some r → r_waiters r = Some l → NoDup l }.

Lemma asleep_frame objs fs fs' asl : (∀ f id, asl !! f = Some id → fs' !! f = fs !! f) → asleep_ok objs fs asl → asleep_ok objs fs' asl.
Proof.
  intros H []. constructor; try done; [intros f id Hf; rewrite (H f id Hf); by apply a_wait0 |].
  intros id r l f Hr Hl Hf. destruct (a_own0 id r l f Hr Hl Hf) as [H1 H2]. split; [done |]. by rewrite (H f id H1).
Qed.

(** Producers parked for room. *)
Record parked_ok (fs : futures) (l : list Z) (n wakeups retries : Z) (pk : gset Z) (ps : Z) : Prop := {
  p_dup : NoDup l;
  p_queue : ∀ f, f ∈ l → f ∈ pk ∧ (fs !! f = Some Waiting ∨ fs !! f = Some Withdrawn);
  p_waiting : ∀ f, f ∈ pk → is_Some (fs !! f) ∧ (fs !! f = Some Waiting → f ∈ l);
  p_count : n = Z.of_nat (size pk);
  p_tokens : wakeups = retries + Z.of_nat (size (filter (λ f, fs !! f = Some Resolved) pk)) + ps }.

Lemma parked_frame fs fs' l n w t pk ps : (∀ f, f ∈ pk → fs' !! f = fs !! f) → parked_ok fs l n w t pk ps → parked_ok fs' l n w t pk ps.
Proof.
  intros H []. constructor; try done.
  - intros f Hf. destruct (p_queue0 f Hf) as [Hp Hs]. by rewrite (H f Hp).
  - intros f Hf. rewrite (H f Hf). by apply p_waiting0.
  - assert (filter (λ f, fs' !! f = Some Resolved) pk = filter (λ f, fs !! f = Some Resolved) pk) as ->; [| done].
    apply set_eq. intros f. rewrite !elem_of_filter. split; intros [H1 H2]; (split; [| done]); [by rewrite <- H | by rewrite H].
Qed.

Lemma wake_loop_0 l fs w : wake_loop 0 l fs w = (l, fs, w).
Proof. by destruct l. Qed.
Lemma filter_same (P Q : Z → Prop) `{!∀ x, Decision (P x)} `{!∀ x, Decision (Q x)} (l : list Z) : (∀ x, x ∈ l → P x ↔ Q x) → filter P l = filter Q l.
Proof.
  induction l as [| x l IH]; intros Hpq; [done |]. rewrite !filter_cons. pose proof (Hpq x (list_elem_of_here _ _)) as Hx.
  rewrite IH by (intros y Hy; apply Hpq; by right). destruct (decide (P x)), (decide (Q x)); tauto || done.
Qed.

(** Waking: a prefix of the queue is resolved. *)
Lemma wake_loop_spec n l : ∀ fs w, NoDup l → (∀ f, f ∈ l → is_Some (fs !! f)) → let '(l', fs', w') := wake_loop n l fs w in
  ∃ gone, l = gone ++ l' ∧ fs' = resolve_all gone fs ∧ w' = w + len (filter (λ f, fs !! f = Some Waiting) gone) ∧
    (∀ pre f post, n ≠ O → l = pre ++ f :: post → fs !! f = Some Waiting → (∀ g, g ∈ pre → fs !! g ≠ Some Waiting) → f ∈ gone ∧ (n = 1%nat → l' = post)).
Proof.
  revert n. induction l as [| f l IH]; intros n fs w Hd Hs; simpl.
  { exists []. split_and!; try done; [unfold len; simpl; lia |]. intros [] ? ? _ E; done. }
  destruct n as [| n].
  { exists []. split_and!; try done; unfold len; simpl; lia. }
  apply NoDup_cons in Hd as [Hf Hd]. destruct (Hs f) as [v Hv]; [by left |].
  assert (future_done fs f = bool_decide (v ≠ Waiting)) as Hfd by (unfold future_done; rewrite Hv; by destruct v).
  destruct (future_done fs f) eqn:Ed.
  - specialize (IH (S n) fs w Hd). destruct (wake_loop (S n) l fs w) as [[l' fs'] w']. destruct IH as (gone & -> & -> & -> & Hw); [intros g Hg; apply Hs; by right |].
    symmetry in Hfd. apply bool_decide_eq_true in Hfd. assert (resolve f fs = fs) as Hr by (unfold resolve; by rewrite Ed).
    exists (f :: gone). split_and!; [done | simpl; by rewrite Hr | rewrite filter_cons_False by congruence; done |].
    intros pre g post _ E Hg Hpre. destruct pre as [| h pre]; [by simplify_eq/= |]. simplify_eq/=.
    destruct (Hw pre g post) as [H1 H2]; [done | done | done | intros x Hx; apply Hpre; by right |]. split; [by right | done].
  - symmetry in Hfd. apply bool_decide_eq_false in Hfd. assert (v = Waiting) as -> by (destruct v; [done | exfalso; by apply Hfd | exfalso; by apply Hfd]).
    specialize (IH n (resolve f fs) (w + 1) Hd). destruct (wake_loop n l (resolve f fs) (w + 1)) as [[l' fs'] w'] eqn:Ew.
    assert (∀ g, g ∈ l → resolve f fs !! g = fs !! g) as Hsame by (intros g Hg; rewrite resolve_lookup, decide_False; [done | by intros ->]).
    destruct IH as (gone & -> & -> & -> & Hw); [intros g Hg; rewrite Hsame by done; apply Hs; by right |].
    exists (f :: gone). split_and!; [done | done | |].
    + rewrite filter_cons_True by done. assert (filter (λ g, resolve f fs !! g = Some Waiting) gone = filter (λ g, fs !! g = Some Waiting) gone) as ->; [| unfold len; simpl; lia].
      apply filter_same. intros g Hg. rewrite Hsame; [done |]. apply elem_of_app. by left.
    + intros pre g post _ E Hg Hpre. destruct pre as [| h pre]; [| simplify_eq/=; exfalso; by apply (Hpre h); [left |]]. simplify_eq/=.
      split; [by left |]. intros [= ->]. rewrite wake_loop_0 in Ew. by simplify_eq.
Qed.

Definition parking c pk ps : Prop := parked_ok (futs c) (_publish_waiter_futs c) (_publish_waiters c) (_publish_wakeups c) (_publish_wait_retries c) pk ps.
(** What waking producers leaves alone. *)
Definition unmoved c c' : Prop :=
  _receipts c' = _receipts c ∧ _batch_receipts c' = _batch_receipts c ∧ receipt_objects c' = receipt_objects c ∧ batch_objects c' = batch_objects c ∧
  _teardown_final c' = _teardown_final c ∧ _local_terminal_failure c' = _local_terminal_failure c.
Definition first_waiting c f : Prop := ∃ pre post, _publish_waiter_futs c = pre ++ f :: post ∧ futs c !! f = Some Waiting ∧ ∀ g, g ∈ pre → futs c !! g ≠ Some Waiting.

Lemma resolved_size (fs : futures) (pk : gset Z) (gone : list Z) : NoDup gone → (∀ f, f ∈ gone → f ∈ pk ∧ (fs !! f = Some Waiting ∨ fs !! f = Some Withdrawn)) →
  Z.of_nat (size (filter (λ f, resolve_all gone fs !! f = Some Resolved) pk)) =
  Z.of_nat (size (filter (λ f, fs !! f = Some Resolved) pk)) + len (filter (λ f, fs !! f = Some Waiting) gone).
Proof.
  intros Hd Hg. assert (filter (λ f, resolve_all gone fs !! f = Some Resolved) pk =
    filter (λ f, fs !! f = Some Resolved) pk ∪ list_to_set (filter (λ f, fs !! f = Some Waiting) gone)) as ->.
  { apply set_eq. intros f. rewrite elem_of_union, !elem_of_filter, elem_of_list_to_set, list_elem_of_filter, resolve_all_lookup.
    case_decide as Hf; [destruct (Hg f Hf) as [Hp [E | E]]; rewrite E; naive_solver | naive_solver]. }
  rewrite size_union, size_list_to_set by (by apply NoDup_filter || (intros f; rewrite elem_of_filter, elem_of_list_to_set, list_elem_of_filter; intros [H1 _] [H2 _]; congruence)).
  unfold len. lia.
Qed.

Lemma wake_parking n c pk ps : parking c pk ps → let c' := _wake_publish_waiters n c in
  parking c' pk ps ∧ unmoved c c' ∧ (∀ f, f ∉ pk ∨ futs c !! f = Some Resolved → futs c' !! f = futs c !! f) ∧ _publish_wait_retries c' = _publish_wait_retries c ∧
  _publish_waiters c' = _publish_waiters c ∧ (∀ f, n ≠ O → first_waiting c f → futs c' !! f = Some Resolved).
Proof.
  intros [Hd Hq Hw Hc Ht]. unfold _wake_publish_waiters.
  pose proof (wake_loop_spec n (_publish_waiter_futs c) (futs c) (_publish_wakeups c) Hd) as Hl.
  destruct (wake_loop n _ _ _) as [[l' fs'] w']. destruct Hl as (gone & El & -> & -> & Hg); [intros f Hf; apply Hw, Hq, Hf |].
  rewrite El in Hd. pose proof (NoDup_app gone l') as [Hnd _]. destruct (Hnd Hd) as (D1 & D2 & D3).
  assert (∀ f, f ∈ gone → f ∈ pk ∧ (futs c !! f = Some Waiting ∨ futs c !! f = Some Withdrawn)) as Hgp by (intros f Hf; apply Hq; rewrite El; apply elem_of_app; by left).
  split_and!; try done.
  - constructor; simpl; try done.
    + intros f Hf. destruct (Hq f) as [H1 H2]; [rewrite El; apply elem_of_app; by right |]. split; [done |]. rewrite resolve_all_lookup, decide_False; [done |]. intros Hf'. by apply (D2 f).
    + intros f Hf. destruct (Hw f Hf) as [[v Hv] H2]. rewrite resolve_all_lookup. case_decide as Hi; [rewrite Hv; split; [destruct v; by eexists | by destruct v] |].
      split; [by eexists |]. intros E. specialize (H2 E). rewrite El in H2. by apply elem_of_app in H2 as [? | ?].
    + rewrite resolved_size by done. rewrite Ht. lia.
  - simpl. intros f [Hf | Hf]; rewrite resolve_all_lookup; (case_decide as Hi; [| done]); destruct (Hgp f Hi) as [H1 [H2 | H2]]; congruence || done.
  - simpl. intros f Hn (pre & post & E & Hf & Hpre). destruct (Hg pre f post Hn E Hf Hpre) as [Hi _]. rewrite resolve_all_lookup, decide_True by done. by rewrite Hf.
Qed.

Lemma unpark_ok fs l n w t pk ps f v t' ps' : parked_ok fs l n w t pk ps → f ∈ pk → f ∉ l → fs !! f = Some v → v ≠ Waiting →
  t' + ps' = t + ps + (if decide (v = Resolved) then 1 else 0) → parked_ok fs l (n - 1) w t' (pk ∖ {[f]}) ps'.
Proof.
  intros [] Hf Hl Hv Hn Hs. constructor; try done.
  - intros g Hg. destruct (p_queue0 g Hg). split; [| done]. apply elem_of_difference. split; [done |]. intros ->%elem_of_singleton. done.
  - intros g Hg. apply p_waiting0. set_solver.
  - rewrite size_difference, size_singleton by set_solver. assert (size pk ≠ 0%nat); [| lia]. apply size_non_empty_iff. set_solver.
  - case_decide as Hr.
    + subst v. assert (filter (λ f, fs !! f = Some Resolved) pk = filter (λ f, fs !! f = Some Resolved) (pk ∖ {[f]}) ∪ {[f]}) as E by (apply set_eq; intros g; rewrite elem_of_union, !elem_of_filter; destruct (decide (g = f)) as [-> | ?]; set_solver).
      rewrite E, size_union, size_singleton in p_tokens0 by (intros g; rewrite elem_of_filter; set_solver). lia.
    + assert (filter (λ f, fs !! f = Some Resolved) (pk ∖ {[f]}) = filter (λ f, fs !! f = Some Resolved) pk) as ->; [| lia].
      apply set_eq. intros g. rewrite !elem_of_filter. destruct (decide (g = f)) as [-> | ?]; [| set_solver]. split; [set_solver |]. intros [E _]. congruence.
Qed.

Lemma list_remove_spec f (l : list Z) : NoDup l → NoDup (list_remove f l) ∧ (∀ g, g ∈ list_remove f l ↔ g ∈ l ∧ g ≠ f).
Proof.
  intros Hd. unfold list_remove. destruct (list_find (f =.) l) as [[i x] |] eqn:E.
  - apply list_find_Some in E as (Hi & <- & _). rewrite (delete_take_drop l i). pose proof (take_drop_middle l i f Hi) as Hm. rewrite <- Hm in Hd.
    apply NoDup_app in Hd as (H1 & H2 & [H3 H4]%NoDup_cons). split; [apply NoDup_app; split_and!; try done; intros x Hx ?; apply (H2 x Hx); by right |].
    intros g. rewrite <- Hm at 3. rewrite !elem_of_app, elem_of_cons. split; [| naive_solver]. intros [Hg | Hg].
    + split; [by left |]. intros ->. apply (H2 f Hg). by left.
    + split; [by right; right |]. intros ->. done.
  - split; [done |]. intros g. apply list_find_None in E. rewrite Forall_forall in E. split; [| tauto]. intros Hg. split; [done |]. intros ->. by apply (E f Hg).
Qed.

Definition carried_on (cancelled : bool) c f : Z := match cancelled, futs c !! f with true, Some Resolved => 1 | _, _ => 0 end.
Lemma space_parking f cancelled c pk ps : parking c pk ps → f ∈ pk → futs c !! f ≠ Some Waiting → (cancelled = false → futs c !! f = Some Resolved) →
  let c' := (_wait_publish_space f cancelled c).1 in
  parking c' (pk ∖ {[f]}) (ps + carried_on cancelled c f) ∧ unmoved c c' ∧ (∀ g, g ∉ pk → futs c' !! g = futs c !! g).
Proof.
  intros Hp Hf Hn Hc. destruct (p_waiting _ _ _ _ _ _ _ Hp f Hf) as [[v Hv] _]. unfold _wait_publish_space, carried_on.
  assert (futs c !! f = Some Resolved → f ∉ _publish_waiter_futs c) as Hq by (intros Hr Hi; destruct (p_queue _ _ _ _ _ _ _ Hp f Hi) as [_ [? | ?]]; congruence).
  destruct cancelled; simpl.
  - rewrite Hv. destruct v; [done | |].
    + destruct (wake_parking 1 c pk ps Hp) as (W1 & W2 & W3 & W4 & W5 & _). split_and!; [| done | intros g Hg; apply W3; by left].
      unfold parking in *. simpl. eapply (unpark_ok _ _ _ _ _ _ _ f Resolved); [exact W1 | done | | rewrite W3; [done | by right] | done | simpl; lia].
      intros Hi. destruct (p_queue _ _ _ _ _ _ _ W1 f Hi) as [_ H]. rewrite W3 in H by (by right). rewrite Hv in H. naive_solver.
    + unfold _discard_publish_waiter. rewrite Hv. split_and!; try done. unfold parking in *. simpl.
      destruct (list_remove_spec f (_publish_waiter_futs c)) as [L1 L2]; [apply Hp |].
      eapply (unpark_ok _ _ _ _ (_publish_wait_retries c) pk ps f Withdrawn); [| done | rewrite L2; naive_solver | done | done | case_decide; [done | simpl; lia]].
      destruct Hp. constructor; try done; [intros g Hg; apply p_queue0; by apply L2 |].
      intros g Hg. destruct (p_waiting0 g Hg) as [H1 H2]. split; [done |]. intros E. apply L2. split; [by apply H2 |]. intros ->. congruence.
  - specialize (Hc eq_refl). rewrite Hc in *. simplify_eq. split_and!; try done. unfold parking in *. simpl.
    eapply (unpark_ok _ _ _ _ _ _ _ f Resolved); [exact Hp | done | by apply Hq | done | done | simpl; lia].
Qed.

(** ** The books *)

Record ledger c (op : list (Z * target)) (out : list (target * option exn)) : Prop := {
  g_keys : NoDup (dkeys op);
  g_once : NoDup (op.*2 ++ out.*1);
  g_receipts : _receipts c = omap receipt_of op;
  g_batches : _batch_receipts c = omap batch_of op;
  g_open : ∀ mid id, (mid, ToReceipt id) ∈ op → ∃ r, receipt_objects c !! id = Some r ∧ r_mid r = Some mid ∧ r_settled r = false ∧ r_error r = None ∧ at_most_once r = false;
  g_closed : ∀ id o, (ToReceipt id, o) ∈ out → ∃ r, receipt_objects c !! id = Some r ∧ r_settled r = true ∧ r_error r = o ∧ r_waiters r = None ∧ at_most_once r = false;
  g_all : ∀ id r, receipt_objects c !! id = Some r → at_most_once r = true ∧ r_waiters r = None ∧ r_error r = None ∨ ToReceipt id ∈ op.*2 ++ out.*1;
  g_known : ∀ id i, ToBatch id i ∈ op.*2 ++ out.*1 → is_Some (batch_objects c !! id) }.

(** What the ledger says of a batch. *)
Definition failed_in (id : Z) (o : target * option exn) : option (Z * exn) := match o with (ToBatch id' i, Some x) => if decide (id = id') then Some (i, x) else None | _ => None end.
Record failure_tally (fs : list (Z * exn)) b : Prop := {
  t_count : failure_count b = len fs;
  t_detail : b_failures b = take (Z.to_nat (b_max_failure_details b)) fs;
  t_pos : ∀ name n, (name, n) ∈ b_failure_counts b → 0 < n;
  t_max : 0 ≤ b_max_failure_details b }.
Record batch_ok (op : list (Z * target)) (out : list (target * option exn)) (id : Z) b : Prop := {
  b_open : b_pending b = omap (in_batch id) op;
  b_range : ∀ i, ToBatch id i ∈ op.*2 ++ out.*1 → 0 ≤ i < b_submitted b;
  b_tally : failure_tally (omap (failed_in id) out) b;
  b_zero : 0 ≤ b_submitted b;
  b_end : b_done b = true ↔ b_sealed b = true ∧ (b_pending b = [] ∨ is_Some (b_fatal b));
  b_cause : is_Some (b_fatal b) → b_sealed b = true }.
Definition batches_ok c op out : Prop := ∀ id b, batch_objects c !! id = Some b → batch_ok op out id b.

Lemma batch_of_fst p q : batch_of p = Some q → q.1 = p.1.
Proof. destruct p as [m []]; simpl; [done |]. by intros [= <-]. Qed.
Lemma receipt_of_fst p q : receipt_of p = Some q → q.1 = p.1.
Proof. destruct p as [m []]; simpl; [| done]. by intros [= <-]. Qed.
Lemma in_batch_fst id p q : in_batch id p = Some q → q.1 = p.1.
Proof. destruct p as [m [|]]; simpl; [done |]. case_decide; [by intros [= <-] | done]. Qed.

(** *** One failure is recorded *)
Definition count_of (l : list (string * Z)) : Z := foldr (λ p n, p.2 + n) 0 l.
Lemma count_dset name (l : list (string * Z)) : count_of (dset name (default 0 (dget name l) + 1) l) = count_of l + 1.
Proof. induction l as [| [k n] l IH]; simpl; [lia |]. case_decide; simpl; [lia |]. rewrite IH. lia. Qed.
Lemma count_pos (l : list (string * Z)) : (∀ name n, (name, n) ∈ l → 0 < n) → 0 ≤ count_of l ∧ (count_of l = 0 → l = []).
Proof.
  induction l as [| [k n] l IH]; intros H; simpl; [done |]. destruct IH as [H1 _]; [intros; eapply H; by right |]. assert (0 < n) by (eapply H; by left).
  split; [lia |]. lia.
Qed.
Lemma dset_pos name v (l : list (string * Z)) : 0 < v → (∀ k n, (k, n) ∈ l → 0 < n) → ∀ k n, (k, n) ∈ dset name v l → 0 < n.
Proof.
  intros Hv. induction l as [| [k' n'] l IH]; intros H k n; simpl; [by intros [= _ ->]%list_elem_of_singleton |].
  case_decide; intros [Hi | Hi]%elem_of_cons; [by simplify_eq | eapply H; by right | simplify_eq; eapply H; by left | eapply IH; [| exact Hi]; intros; eapply H; by right].
Qed.


Lemma record_tally fs i x b : failure_tally fs b → i ∉ fs.*1 → failure_tally (fs ++ [(i, x)]) (_record_failure i x b).
Proof.
  intros [] Hi. unfold _record_failure. assert (∀ name, 0 < default 0 (dget name (b_failure_counts b)) + 1) as Hd.
  { intros name. destruct (dget name (b_failure_counts b)) as [n |] eqn:E; simpl; [| lia]. apply dget_Some_elem, t_pos0 in E. lia. }
  constructor; simpl; try done.
  - unfold failure_count in *. simpl. change (foldr _ 0 ?l) with (count_of l) in *. rewrite count_dset. unfold len in *. rewrite length_app. simpl. lia.
  - set (k := Z.to_nat (b_max_failure_details b)) in *. unfold len. destruct (Z.of_nat (length (b_failures b)) <? b_max_failure_details b) eqn:E; rewrite t_detail0, length_take in E.
    + apply Z.ltb_lt in E. assert (length fs < k)%nat by (clear Hd t_pos0; subst k; lia). assert (b_failures b = fs) as -> by (rewrite t_detail0; apply take_ge; lia).
      rewrite dset_new, take_ge; [done | rewrite length_app; simpl; lia | done].
    + apply Z.ltb_ge in E. rewrite take_app_le by (clear Hd t_pos0; subst k; lia). done.
  - by apply dset_pos.
Qed.

(** *** A publication gets its outcome *)

Lemma omap_ddel {B} (f : Z * target → option (Z * B)) op mid t : (∀ p q, f p = Some q → q.1 = p.1) → NoDup (dkeys op) → dget mid op = Some t → f (mid, t) = None →
  omap f (ddel mid op) = omap f op.
Proof.
  intros Hf Hn Hd Ht. rewrite <- ddel_omap by done. apply ddel_not_key. apply dget_None. rewrite dget_omap by done. rewrite Hd. simpl. by rewrite Ht.
Qed.
Lemma ddel_perm {A} (mid : Z) (t : A) op : dget mid op = Some t → op ≡ₚ (mid, t) :: ddel mid op.
Proof.
  induction op as [| [k v] op IH]; simpl; [done |]. case_decide; [by intros [= ->]; subst |]. intros H'. rewrite (IH H') at 1. apply Permutation_swap.
Qed.
Lemma settle_perm (op : list (Z * target)) (out : list (target * option exn)) mid t o : dget mid op = Some t → (ddel mid op).*2 ++ (out ++ [(t, o)]).*1 ≡ₚ op.*2 ++ out.*1.
Proof. intros H. rewrite (ddel_perm mid t op H) at 2. rewrite fmap_app. simpl. rewrite app_assoc. by rewrite Permutation_app_comm. Qed.

Lemma fifo_pop_ledger (f : Z * target → option (Z * entry)) op mid : (∀ p q, f p = Some q → q.1 = p.1 ∧ ∃ x, q.2 = Entry x) → NoDup (dkeys op) →
  _fifo_pop (omap f op) mid = (match dget mid op with Some t => match f (mid, t) with Some (_, Entry x) => Some x | _ => None end | None => None end, omap f (ddel mid op)).
Proof.
  intros Hf Hn. assert (∀ p q, f p = Some q → q.1 = p.1) as Hk by (intros p q H; by apply Hf). unfold _fifo_pop. rewrite dget_omap by done.
  destruct (dget mid op) as [t |] eqn:E; simpl.
  - destruct (f (mid, t)) as [[k e] |] eqn:Ef; simpl; [destruct (Hf _ _ Ef) as [Hk' [x Hx]]; simpl in *; subst; by rewrite ddel_omap |].
    by rewrite (omap_ddel f op mid t).
  - by rewrite ddel_not_key by (by apply dget_None).
Qed.

Lemma omap_snoc {A B} (f : A → option B) l x : omap f (l ++ [x]) = omap f l ++ match f x with Some y => [y] | None => [] end.
Proof. rewrite omap_app. done. Qed.

Lemma settle_batch_ok op out id b mid t o : NoDup (dkeys op) → NoDup (op.*2 ++ out.*1) → batch_ok op out id b → dget mid op = Some t →
  batch_ok (ddel mid op) (out ++ [(t, o)]) id (match t with ToBatch id' _ => if decide (id = id') then _complete mid o b else b | _ => b end).
Proof.
  intros Hk Ho [] Ht.
  assert (∀ i, ToBatch id i ∈ (ddel mid op).*2 ++ (out ++ [(t, o)]).*1 → 0 ≤ i < b_submitted b) as Hr by (intros i; rewrite (settle_perm op out mid t o Ht); apply b_range0).
  assert (in_batch id (mid, t) = None → failed_in id (t, o) = None → batch_ok (ddel mid op) (out ++ [(t, o)]) id b) as Hother.
  { intros Hi Hf. constructor; try done.
    - rewrite b_open0. symmetry. apply (omap_ddel _ op mid t); try done. apply in_batch_fst.
    - by rewrite omap_snoc, Hf, app_nil_r. }
  destruct t as [id' | id' i]; [by apply Hother |]. case_decide as Hd; [subst id' | apply Hother; simpl; [by rewrite decide_False | destruct o; by rewrite ?decide_False]].
  unfold _complete. assert (dget mid (b_pending b) = Some i) as Hi by (rewrite b_open0, dget_omap by (done || apply in_batch_fst); rewrite Ht; simpl; by rewrite decide_True).
  rewrite Hi. set (b1 := set_b_pending _ b). set (b2 := match o with Some x => _ | None => b1 end). set (b3 := set_b_progress _ b2).
  assert (failure_tally (omap (failed_in id) (out ++ [(ToBatch id i, o)])) b3 ∧ b_pending b3 = omap (in_batch id) (ddel mid op) ∧ b_submitted b3 = b_submitted b ∧ b_done b3 = b_done b ∧
    b_sealed b3 = b_sealed b ∧ b_fatal b3 = b_fatal b) as (H1 & H2 & H3 & H4 & H5 & H6).
  { assert (b_pending b1 = omap (in_batch id) (ddel mid op)) as Hp by (simpl; rewrite b_open0, ddel_omap by (done || apply in_batch_fst); done).
    rewrite omap_snoc. unfold b3, b2. destruct o as [x |]; simpl.
    - rewrite decide_True by done. split_and!; try done.
      assert (failure_tally (omap (failed_in id) out) b1) as Ht1 by (by destruct b_tally0).
      assert (i ∉ (omap (failed_in id) out).*1) as Hn.
      { intros (p & Hp1 & Hp2)%list_elem_of_fmap. apply list_elem_of_omap in Hp2 as ([[id1 | id1 j] [y |]] & Hy & Ey); simpl in Ey; try done. case_decide; [| done]. simplify_eq/=.
        apply NoDup_app in Ho as (_ & Hdis & _). apply (Hdis (ToBatch id1 j)); [apply dget_Some_elem in Ht; change (ToBatch id1 j) with (mid, ToBatch id1 j).2; by apply list_elem_of_fmap_2 |].
        change (ToBatch id1 j) with (ToBatch id1 j, Some y).1. by apply list_elem_of_fmap_2. }
      by destruct (record_tally _ i x b1 Ht1 Hn).
    - rewrite app_nil_r. split_and!; try done. by destruct b_tally0. }
  clearbody b3. unfold _finish_if_ready. rewrite H5. destruct (b_sealed b && match b_pending b3 with [] => true | _ => false end) eqn:Ef.
  - apply andb_prop in Ef as [Es Ep]. assert (b_pending b3 = []) as Hp by (by destruct (b_pending b3)). constructor; simpl; rewrite ?H3; try done; [by destruct H1 |]. split; [intros _; split; [done | by left] | done].
  - constructor; rewrite ?H3, ?H4, ?H5, ?H6; try done. rewrite b_end0. split; intros [Hs Hp]; (split; [done |]); rewrite Hs in Ef; simpl in Ef;
      (destruct Hp as [Hp | Hp]; [| by right]); [rewrite Hp in Hi; done | rewrite Hp in Ef; done].
Qed.

Record world_ok s : Prop := {
  o_ledger : ledger (pub s) (opened s) (outcomes s);
  o_batches : batches_ok (pub s) (opened s) (outcomes s);
  o_asleep : asleep_ok (receipt_objects (pub s)) (futs (pub s)) (asleep s);
  o_parked : parking (pub s) (parked s) (passed s);
  o_apart : ∀ f id, asleep s !! f = Some id → f ∉ parked s }.

Lemma ledger_frame c c' op out : _receipts c' = _receipts c → _batch_receipts c' = _batch_receipts c → receipt_objects c' = receipt_objects c →
  (∀ id, is_Some (batch_objects c !! id) → is_Some (batch_objects c' !! id)) → ledger c op out → ledger c' op out.
Proof. intros H1 H2 H3 H4 []. constructor; rewrite ?H1, ?H2, ?H3; try done. intros id i H. by eapply H4, g_known0. Qed.

(** Only producers moved. *)
Lemma parking_moved s c' pk ps : world_ok s → unmoved (pub s) c' → parking c' pk ps → (∀ f, f ∉ parked s → futs c' !! f = futs (pub s) !! f) → pk ⊆ parked s →
  world_ok (mkWorld c' (opened s) (outcomes s) (asleep s) pk ps).
Proof.
  intros [] (H1 & H2 & H3 & H4 & _) Hp Hf Hs. constructor; simpl; try done.
  - eapply ledger_frame; [done | done | done | | exact o_ledger0]. by rewrite H4.
  - unfold batches_ok. by rewrite H4.
  - rewrite H3. eapply asleep_frame; [| exact o_asleep0]. intros f id Ha. apply Hf. by eapply o_apart0.
  - intros f id Ha. apply o_apart0 in Ha. set_solver.
Qed.
Lemma wake_ok n s : world_ok s → world_ok (with_pub (_wake_publish_waiters n (pub s)) s).
Proof.
  intros Hw. destruct (wake_parking n (pub s) (parked s) (passed s) (o_parked s Hw)) as (W1 & W2 & W3 & _).
  apply parking_moved; try done. intros f Hf. apply W3. by left.
Qed.

Lemma settle_open_receipt s mid id reason : world_ok s → dget mid (opened s) = Some (ToReceipt id) →
  let c := settle_receipt id reason (set_registries (omap receipt_of (ddel mid (opened s))) (omap batch_of (ddel mid (opened s))) (pub s)) in
  world_ok (mkWorld c (ddel mid (opened s)) (outcomes s ++ [(ToReceipt id, reason)]) (asleep s) (parked s) (passed s)).
Proof.
  intros [[] Hb [] Hp Ha] Hm. pose proof (dget_Some_elem _ _ _ Hm) as Hin. destruct (g_open0 mid id Hin) as (r & Hr & R1 & R2 & R3 & R4).
  unfold settle_receipt. simpl. rewrite Hr. unfold _settle. set (r' := match reason with Some x => fail_receipt x r | None => r end).
  assert (r_mid r' = Some mid ∧ r_waiters r' = r_waiters r ∧ r_error r' = reason ∧ at_most_once r' = false) as (S1 & S2 & S3 & S4) by (unfold r'; by destruct reason).
  pose proof (settle_perm (opened s) (outcomes s) mid (ToReceipt id) reason Hm) as Hperm.
  assert (∀ id', id' ≠ id → ∀ o, (ToReceipt id', o) ∈ outcomes s ++ [(ToReceipt id, reason)] → (ToReceipt id', o) ∈ outcomes s) as Hold
    by (intros id' Hn o [H | H%list_elem_of_singleton]%elem_of_app; [done | congruence]).
  assert (NoDup ((ddel mid (opened s)).*2 ++ (outcomes s ++ [(ToReceipt id, reason)]).*1)) as Hnd by (by rewrite Hperm).
  set (fs' := match r_waiters r' with Some l => _ | None => _ end).
  assert (∀ f, fs' !! f = match r_waiters r with Some l => resolve_all l (futs (pub s)) !! f | None => futs (pub s) !! f end) as Hfs by (intros f; unfold fs'; rewrite S2; by destruct (r_waiters r)).
  clearbody fs'. constructor; simpl.
  - constructor; simpl; try done.
    + by apply NoDup_ddel.
    + intros m' id' [H1 H2]%elem_ddel; [| done]. destruct (decide (id' = id)) as [-> | Hn]; [| rewrite lookup_insert_ne by done; by apply g_open0].
      exfalso. apply NoDup_app in Hnd as (_ & Hdis & _). apply (Hdis (ToReceipt id)).
      * change (ToReceipt id) with (m', ToReceipt id).2. apply list_elem_of_fmap_2. by apply elem_ddel.
      * rewrite fmap_app. apply elem_of_app. right. by left.
    + intros id' o Hi. destruct (decide (id' = id)) as [-> | Hn]; [| rewrite lookup_insert_ne by done; by apply g_closed0, Hold].
      rewrite lookup_insert_eq. eexists. split; [done |]. simpl. split_and!; try done. rewrite S3. apply elem_of_app in Hi as [Hi | Hi%list_elem_of_singleton]; [| congruence].
      apply NoDup_app in g_once0 as (_ & Hdis & _). exfalso. apply (Hdis (ToReceipt id)); [by apply (list_elem_of_fmap_2 snd) in Hin | by apply (list_elem_of_fmap_2 fst) in Hi].
    + intros id' r2 [[<- <-] | [Hn H]]%lookup_insert_Some.
      * right. rewrite Hperm. apply elem_of_app. left. by apply (list_elem_of_fmap_2 snd) in Hin.
      * rewrite Hperm. by apply g_all0.
    + intros id' i. rewrite Hperm. apply g_known0.
  - intros id' b Hi. specialize (Hb id' b Hi). exact (settle_batch_ok _ _ id' b mid (ToReceipt id) reason g_keys0 g_once0 Hb Hm).
  - constructor.
    + intros f id' Hf. destruct (a_wait0 f id' Hf) as [Hs (r2 & E2 & Hw)]. rewrite Hfs. destruct (r_waiters r) as [l |] eqn:El.
      * rewrite resolve_all_lookup. split; [case_decide; [by repeat case_match | done] |]. destruct (decide (id' = id)) as [-> | Hn].
        -- simplify_eq. rewrite lookup_insert_eq. eexists. split; [done |]. intros Hwt. exfalso. case_decide as Hil; [by repeat case_match |].
           destruct (Hw Hwt) as (_ & l' & El' & Hl'). congruence.
        -- rewrite lookup_insert_ne by done. exists r2. split; [done |]. case_decide as Hil; [by repeat case_match | done].
      * split; [done |]. destruct (decide (id' = id)) as [-> | Hn]; [| rewrite lookup_insert_ne by done; by exists r2].
        simplify_eq. rewrite lookup_insert_eq. eexists. split; [done |]. intros Hwt. destruct (Hw Hwt) as (_ & l' & El' & _). congruence.
    + intros id' r2 l f [[<- <-] | [Hn H]]%lookup_insert_Some; [done |].
      intros Hl2 Hfl. destruct (a_own0 id' r2 l f H Hl2 Hfl) as [H1 H2]. split; [done |]. rewrite Hfs. destruct (r_waiters r) as [l2 |] eqn:El; [| done].
      rewrite resolve_all_lookup, decide_False; [done |]. intros Hf2. destruct (a_own0 id r l2 f Hr El Hf2). congruence.
    + intros id' r2 l [[<- <-] | [Hn H]]%lookup_insert_Some; [done | by eapply a_dup0].
  - unfold parking in *. simpl. eapply parked_frame; [| exact Hp]. intros f Hf. rewrite Hfs. destruct (r_waiters r) as [l |] eqn:El; [| done].
    rewrite resolve_all_lookup, decide_False; [done |]. intros Hl. destruct (a_own0 id r l f Hr El Hl) as [H1 _]. by apply (Ha f id).
  - done.
Qed.

Lemma settle_open_batch s mid id i reason : world_ok s → dget mid (opened s) = Some (ToBatch id i) →
  let c := complete_batch mid id reason (set_registries (omap receipt_of (ddel mid (opened s))) (omap batch_of (ddel mid (opened s))) (pub s)) in
  world_ok (mkWorld c (ddel mid (opened s)) (outcomes s ++ [(ToBatch id i, reason)]) (asleep s) (parked s) (passed s)).
Proof.
  intros [[] Hb Hs Hp Ha] Hm. pose proof (dget_Some_elem _ _ _ Hm) as Hin.
  pose proof (settle_perm (opened s) (outcomes s) mid (ToBatch id i) reason Hm) as Hperm.
  destruct (g_known0 id i) as [b Hbi]; [apply elem_of_app; left; by apply (list_elem_of_fmap_2 snd) in Hin |].
  unfold complete_batch. simpl. rewrite Hbi. constructor; simpl; try done.
  - constructor; simpl; try done.
    + by apply NoDup_ddel.
    + by rewrite Hperm.
    + intros m' id' [H1 H2]%elem_ddel; [| done]. by apply g_open0.
    + intros id' o [H | H%list_elem_of_singleton]%elem_of_app; [by apply g_closed0 | congruence].
    + intros id' r Hr. rewrite Hperm. by apply g_all0.
    + intros id' j. rewrite Hperm. intros Hj. destruct (decide (id' = id)) as [-> | Hn]; [rewrite lookup_insert_eq; by eexists |].
      rewrite lookup_insert_ne by done. by eapply g_known0.
  - intros id' b'. simpl. intros [[<- <-] | [Hn H]]%lookup_insert_Some.
    + pose proof (settle_batch_ok _ _ id b mid (ToBatch id i) reason g_keys0 g_once0 (Hb id b Hbi) Hm) as H. simpl in H. by rewrite decide_True in H.
    + pose proof (settle_batch_ok _ _ id' b' mid (ToBatch id i) reason g_keys0 g_once0 (Hb id' b' H) Hm) as H'. simpl in H'. by rewrite decide_False in H'.
Qed.

Lemma receipt_entry p q : receipt_of p = Some q → q.1 = p.1 ∧ ∃ x, q.2 = Entry x.
Proof. destruct p as [m []]; simpl; [| done]. intros [= <-]. by eauto. Qed.
Lemma batch_entry p q : batch_of p = Some q → q.1 = p.1 ∧ ∃ x, q.2 = Entry x.
Proof. destruct p as [m []]; simpl; [done |]. intros [= <-]. by eauto. Qed.

Definition settled_world (mid : Z) (reason : option exn) c s : world :=
  match dget mid (opened s) with
  | Some t => mkWorld c (ddel mid (opened s)) (outcomes s ++ [(t, reason)]) (asleep s) (parked s) (passed s)
  | None => with_pub c s
  end.
Lemma entries_ok s mid reason : world_ok s → world_ok (settled_world mid reason (settle_entries mid reason (pub s)) s).
Proof.
  intros Hw. unfold settled_world, settle_entries. pose proof (o_ledger s Hw) as [Hk _ Hr Hb _ _ _ _].
  rewrite Hr, (fifo_pop_ledger receipt_of), Hb by (done || apply receipt_entry). cbn [fst snd].
  destruct (dget mid (opened s)) as [t |] eqn:Et.
  - set (c0 := set_registries (omap receipt_of (ddel mid (opened s))) (omap batch_of (opened s)) (pub s)).
    assert (∀ c, _batch_receipts c = omap batch_of (opened s) → settle_batch mid reason c =
      match t with ToBatch id _ => complete_batch mid id reason (set_registries (_receipts c) (omap batch_of (ddel mid (opened s))) c)
        | _ => set_registries (_receipts c) (omap batch_of (ddel mid (opened s))) c end) as Hpop.
    { intros c Hc. unfold settle_batch. rewrite Hc. destruct (omap batch_of (opened s)) as [| x l] eqn:El.
      - rewrite <- ddel_omap, El by (done || apply batch_of_fst). simpl. destruct t as [id | id i]; [by destruct c; simpl in *; subst |].
        exfalso. pose proof (dget_omap batch_of (opened s) mid batch_of_fst Hk) as H. rewrite Et, El in H. done.
      - rewrite <- El, (fifo_pop_ledger batch_of) by (done || apply batch_entry). rewrite Et. by destruct t. }
    destruct t as [id | id i]; simpl.
    + rewrite Hpop by (unfold settle_receipt; by repeat case_match).
      pose proof (settle_open_receipt s mid id reason Hw Et) as H. simpl in H.
      assert (settle_receipt id reason (set_registries (omap receipt_of (ddel mid (opened s))) (omap batch_of (ddel mid (opened s))) (pub s)) =
        set_registries (_receipts (settle_receipt id reason c0)) (omap batch_of (ddel mid (opened s))) (settle_receipt id reason c0)) as <-; [| done].
      unfold settle_receipt. simpl. destruct (receipt_objects (pub s) !! id); [| done]. unfold _settle. done.
    + rewrite Hpop by done. apply (settle_open_batch s mid id i reason Hw Et).
  - rewrite ddel_not_key by (by apply dget_None).
    assert (settle_batch mid reason (set_registries (omap receipt_of (opened s)) (omap batch_of (opened s)) (pub s)) = pub s) as ->; [| by destruct s].
    assert (set_registries (omap receipt_of (opened s)) (omap batch_of (opened s)) (pub s) = pub s) as -> by (rewrite <- Hr, <- Hb; by destruct (pub s)).
    unfold settle_batch. rewrite Hb, (fifo_pop_ledger batch_of), Et, ddel_not_key by (done || apply batch_entry || by apply dget_None).
    assert (set_registries (_receipts (pub s)) (omap batch_of (opened s)) (pub s) = pub s) as -> by (rewrite <- Hb; by destruct (pub s)).
    by destruct (omap batch_of (opened s)).
Qed.

(** Settling leaves the producers alone. *)
Lemma entries_producers s mid reason : world_ok s → let c := settle_entries mid reason (pub s) in
  _publish_waiter_futs c = _publish_waiter_futs (pub s) ∧ _publish_waiters c = _publish_waiters (pub s) ∧ ∀ f, f ∈ parked s → futs c !! f = futs (pub s) !! f.
Proof.
  intros Hw. pose proof (o_ledger s Hw) as [Hk _ Hr _ _ _ _ _]. unfold settle_entries.
  rewrite Hr, (fifo_pop_ledger receipt_of) by (done || apply receipt_entry). cbn [fst snd].
  set (c1 := match _ with Some id => settle_receipt _ _ _ | None => _ end).
  assert (_publish_waiter_futs c1 = _publish_waiter_futs (pub s) ∧ _publish_waiters c1 = _publish_waiters (pub s) ∧ ∀ f, f ∈ parked s → futs c1 !! f = futs (pub s) !! f) as (H1 & H2 & H3).
  { unfold c1, settle_receipt. destruct (dget mid (opened s)) as [[id | id i] |]; simpl; try done. destruct (receipt_objects (pub s) !! id) as [r |] eqn:E; simpl; [| done].
    split_and!; try done. intros f Hf. replace (r_waiters match reason with Some x => fail_receipt x r | None => r end) with (r_waiters r) by (by destruct reason).
    destruct (r_waiters r) as [l |] eqn:El; [| done]. change (foldl _ (futs (pub s)) l) with (resolve_all l (futs (pub s))). rewrite resolve_all_lookup, decide_False; [done |].
    intros Hl. destruct (a_own _ _ _ (o_asleep s Hw) id r l f E El Hl) as [Ha _]. by apply (o_apart s Hw f id). }
  clearbody c1. unfold settle_batch, complete_batch. repeat case_match; simpl; done.
Qed.

Lemma settle_ok s mid reason : world_ok s → world_ok (settled mid reason s).
Proof.
  intros Hw.
  assert (∀ c op out, world_ok (mkWorld c op out (asleep s) (parked s) (passed s)) →
    world_ok (mkWorld (if _publish_waiters c =? 0 then c else _wake_publish_waiters 1 c) op out (asleep s) (parked s) (passed s))) as Hwake
    by (intros c op out Hc; case_match; [done | by apply (wake_ok 1 (mkWorld c op out (asleep s) (parked s) (passed s)))]).
  unfold settled, _settle_publish. destruct mid as [mid |]; simpl; [| by apply (Hwake (pub s) (opened s) (outcomes s)); destruct s].
  pose proof (entries_ok s mid reason Hw) as He. unfold settled_world in He. destruct (dget mid (opened s)); by apply Hwake.
Qed.

(** *** Everything fails *)

Lemma terminal_ok s f x : world_ok s → world_ok (with_pub (set_terminal f x (pub s)) s).
Proof. intros []. constructor; simpl; try done. by eapply ledger_frame; [.. | exact o_ledger0]. Qed.

Lemma settle_registries rs bs id o c : settle_receipt id o (set_registries rs bs c) = set_registries rs bs (settle_receipt id o c).
Proof. unfold settle_receipt. simpl. destruct (receipt_objects c !! id); [| done]. unfold _settle. done. Qed.

Lemma first_receipt op id ids : NoDup (dkeys op) → omap receipt_id op = id :: ids →
  ∃ mid, dget mid op = Some (ToReceipt id) ∧ omap receipt_id (ddel mid op) = ids ∧ filter (λ p, to_batch p = true) (ddel mid op) = filter (λ p, to_batch p = true) op.
Proof.
  induction op as [| [m [i | i j]] op IH]; [done | |]; intros [Hn Hk]%NoDup_cons H.
  - simpl in H. simplify_eq. exists m. simpl. rewrite !decide_True by done. split_and!; try done.
  - destruct IH as (mid & H1 & H2 & H3); [done | done |]. exists mid. assert (mid ≠ m) as Hm by (intros ->; by apply dget_Some_key in H1).
    simpl. rewrite !decide_False by done. simpl. split_and!; [done | done |]. rewrite !filter_cons_True by done. by rewrite H3.
Qed.

Lemma fail_receipts x : ∀ ids s, world_ok s → omap receipt_id (opened s) = ids → let op := filter (λ p, to_batch p = true) (opened s) in
  world_ok (mkWorld (set_registries (omap receipt_of op) (omap batch_of op) (foldl (λ c id, settle_receipt id (Some x) c) (pub s) ids)) op
    (outcomes s ++ ((λ id, (ToReceipt id, Some x)) <$> ids)) (asleep s) (parked s) (passed s)).
Proof.
  induction ids as [| id ids IH]; intros s Hw Hi; simpl.
  - rewrite app_nil_r. assert (filter (λ p, to_batch p = true) (opened s) = opened s) as ->.
    { clear Hw. induction (opened s) as [| [m [i | i j]] op IH]; simpl in Hi; [done | done |]. rewrite filter_cons_True by done. f_equal. by apply IH. }
    destruct (o_ledger s Hw) as [_ _ <- <- _ _ _ _]. replace (set_registries _ _ (pub s)) with (pub s) by (by destruct (pub s)). by destruct s.
  - destruct (first_receipt (opened s) id ids (g_keys _ _ _ (o_ledger s Hw)) Hi) as (mid & H1 & H2 & H3).
    specialize (IH _ (settle_open_receipt s mid id (Some x) Hw H1)). simpl in IH. rewrite H3 in IH. specialize (IH H2).
    assert (∀ l c rs bs, foldl (λ c id, settle_receipt id (Some x) c) (set_registries rs bs c) l = set_registries rs bs (foldl (λ c id, settle_receipt id (Some x) c) c l)) as Hf.
    { induction l as [| y l IHl]; intros c rs bs; simpl; [done |]. by rewrite settle_registries, IHl. }
    rewrite settle_registries, Hf in IH. rewrite <- app_assoc in IH. exact IH.
Qed.

Lemma record_all x : ∀ (l : list (Z * Z)) fs b, failure_tally fs b → NoDup (fs.*1 ++ l.*2) → let b' := foldl (λ b p, _record_failure p.2 x b) b l in
  failure_tally (fs ++ ((λ p, (p.2, x)) <$> l)) b' ∧ b_submitted b' = b_submitted b ∧ b_fatal b' = b_fatal b.
Proof.
  induction l as [| [m i] l IH]; intros fs b Ht Hn; simpl; [by rewrite app_nil_r |].
  destruct (IH (fs ++ [(i, x)]) (_record_failure i x b)) as (H1 & H2 & H3).
  - apply record_tally; [done |]. intros Hi. apply NoDup_app in Hn as (_ & H & _). apply (H i Hi). by left.
  - rewrite fmap_app, <- app_assoc. done.
  - split_and!; try done. by rewrite <- app_assoc in H1.
Qed.

Definition index_in (id : Z) (t : target) : option Z := match t with ToBatch id' i => if decide (id = id') then Some i else None | _ => None end.
Lemma in_batch_targets id (op : list (Z * target)) : (omap (in_batch id) op).*2 = omap (index_in id) op.*2.
Proof. induction op as [| [m [i | i j]] op IH]; simpl; [done | done |]. case_decide; simpl; [f_equal |]; exact IH. Qed.
Lemma failed_in_batch id x (op : list (Z * target)) : omap (failed_in id) ((λ p, (p.2, Some x)) <$> op) = (λ p, (p.2, x)) <$> omap (in_batch id) op.
Proof. induction op as [| [m [i | i j]] op IH]; simpl; [done | exact IH |]. case_decide; simpl; [f_equal |]; exact IH. Qed.
Lemma failed_in_targets id (out : list (target * option exn)) : (omap (failed_in id) out).*1 `sublist_of` omap (index_in id) out.*1.
Proof.
  induction out as [| [[i | i j] [x |]] out IH]; simpl; try done; case_decide; simpl; try done; [by apply sublist_skip | by apply sublist_cons].
Qed.
Lemma NoDup_index id (l : list target) : NoDup l → NoDup (omap (index_in id) l).
Proof.
  induction 1 as [| t l Ht _ IH]; [constructor |]. simpl. destruct (index_in id t) as [i |] eqn:E; [| done]. apply NoDup_cons. split; [| done].
  intros (t' & Ht' & E')%list_elem_of_omap. destruct t as [| id1 i1], t' as [| id2 i2]; simpl in *; try done. repeat case_decide; simplify_eq. done.
Qed.

Lemma fail_batch_ok x op out id b : NoDup (op.*2 ++ out.*1) → batch_ok op out id b → batch_ok [] (out ++ ((λ p, (p.2, Some x)) <$> op)) id (_fail_remaining x b).
Proof.
  intros Hn []. unfold _fail_remaining. set (b0 := set_b_end _ _ _ b).
  assert (NoDup ((omap (failed_in id) out).*1 ++ (b_pending b0).*2)) as Hd.
  { simpl. rewrite b_open0, in_batch_targets. apply (NoDup_index id) in Hn. rewrite omap_app, Permutation_app_comm in Hn.
    eapply sublist_NoDup; [exact Hn |]. apply sublist_app; [apply failed_in_targets | done]. }
  assert (failure_tally (omap (failed_in id) out) b0) as Ht by (by destruct b_tally0).
  destruct (record_all x (b_pending b0) _ b0 Ht Hd) as (H1 & H2 & H3). set (b1 := foldl _ b0 _) in *. clearbody b1.
  constructor; simpl.
  - done.
  - rewrite H2. intros i. rewrite fmap_app, <- list_fmap_compose. intros Hi. apply b_range0. revert Hi. simpl. by rewrite Permutation_app_comm.
  - rewrite omap_app, failed_in_batch. simpl in H1. rewrite b_open0 in H1. by destruct H1.
  - by rewrite H2.
  - split; [intros _ | done]. split; [done | by left].
  - done.
Qed.

(** A batch none of whose publications is open. *)
Lemma idle_batch_ok x op out id b : (∀ i, ToBatch id i ∉ op.*2) → batch_ok op out id b → batch_ok [] (out ++ ((λ p, (p.2, Some x)) <$> op)) id b.
Proof.
  intros Hi []. assert (omap (in_batch id) op = []) as Hp.
  { clear -Hi. induction op as [| [m [j | j k]] op IH]; simpl; [done | apply IH; intros i H; apply (Hi i); by right |]. case_decide; [subst; exfalso; apply (Hi k); by left |].
    apply IH. intros i H'. apply (Hi i). by right. }
  constructor; try done; [by rewrite b_open0 | | by rewrite omap_app, failed_in_batch, Hp, app_nil_r].
  intros i H. apply b_range0. revert H. rewrite fmap_app, <- list_fmap_compose. simpl. by rewrite Permutation_app_comm.
Qed.

Definition fail_batches x (l : list Z) c : Publications := foldl (λ c id, match batch_objects c !! id with Some b => with_batch id (_fail_remaining x b) c | None => c end) c l.
Lemma fail_batches_spec x l : ∀ c, NoDup l → let c' := fail_batches x l c in
  (∀ id, batch_objects c' !! id = if decide (id ∈ l) then _fail_remaining x <$> batch_objects c !! id else batch_objects c !! id) ∧
  c' = set_objects (receipt_objects c) (batch_objects c') (futs c) c.
Proof.
  unfold fail_batches. induction l as [| id l IH]; intros c Hn; [split; [done | by destruct c] |]. simpl.
  apply NoDup_cons in Hn as [Hid Hn]. set (c1 := match batch_objects c !! id with Some b => _ | None => c end). destruct (IH c1 Hn) as [I1 I2].
  assert (∀ j, batch_objects c1 !! j = if decide (j = id) then _fail_remaining x <$> batch_objects c !! j else batch_objects c !! j) as H1.
  { intros j. unfold c1. destruct (batch_objects c !! id) eqn:E; simpl; case_decide; subst; rewrite ?lookup_insert_eq, ?lookup_insert_ne, ?E by done; done. }
  split.
  - intros j. rewrite I1, H1. destruct (decide (j = id)) as [-> | Hj]; [rewrite decide_False by done; by rewrite decide_True by (by left) |].
    destruct (decide (j ∈ l)); [by rewrite decide_True by (by right) |]. rewrite decide_False; [done |]. by intros [? | ?]%elem_of_cons.
  - rewrite I2. unfold c1. by destruct (batch_objects c !! id).
Qed.

Lemma fail_ok s x answer : world_ok s → world_ok (failed x answer s).
Proof.
  intros Hw. pose proof (fail_receipts x _ s Hw eq_refl) as H1. cbv zeta in H1. unfold failed, _fail_pending.
  set (op := filter (λ p, to_batch p = true) (opened s)) in *.
  assert (mjoin (entries <$> (snd <$> _receipts (pub s))) = omap receipt_id (opened s)) as ->.
  { rewrite (g_receipts _ _ _ (o_ledger s Hw)). clear. induction (opened s) as [| [m [i | i j]] l IH]; simpl; [done | f_equal; exact IH | exact IH]. }
  assert (∀ c, _batch_receipts (foldl (λ c id, settle_receipt id (Some x) c) c (omap receipt_id (opened s))) = _batch_receipts c) as Hbr.
  { clear. induction (omap receipt_id (opened s)) as [| i l IH]; intros c; simpl; [done |]. rewrite IH. unfold settle_receipt. by repeat case_match. }
  set (c1 := foldl _ (pub s) _) in *. specialize (Hbr (pub s)). fold c1 in Hbr.
  assert (omap batch_of op = omap batch_of (opened s)) as Hop.
  { unfold op. clear. induction (opened s) as [| [m [i | i j]] l IH]; [done | |]; rewrite filter_cons; case_decide as E; try done. simpl. f_equal. exact IH. }
  set (ids := remove_dups _). cbv zeta.
  assert (∀ id, id ∈ ids ↔ ∃ i, ToBatch id i ∈ op.*2) as Hids.
  { intros id. unfold ids. rewrite elem_of_remove_dups. simpl. rewrite Hbr, (g_batches _ _ _ (o_ledger s Hw)), <- Hop. unfold op. clear.
    induction (opened s) as [| [m [i | i j]] l IH]; [split; [by intros ?%elem_of_nil | by intros [? ?%elem_of_nil]] | |]; rewrite filter_cons; case_decide as E; try done.
    simpl. rewrite elem_of_cons. etrans; [apply or_iff_compat_l; exact IH |]. setoid_rewrite elem_of_cons. split; [intros [-> | [k Hk]]; eauto | intros [k [Hk | Hk]]; [left; congruence | eauto]]. }
  change (foldl (λ c id, match batch_objects c !! id with Some b => with_batch id (_fail_remaining x b) c | None => c end) ?c ?l) with (fail_batches x l c).
  destruct (fail_batches_spec x ids (set_registries [] [] (set_registries [] (_batch_receipts c1) c1)) (NoDup_remove_dups _)) as [F1 F2]. simpl in F1, F2.
  set (c2 := fail_batches x ids _) in *. clearbody c2.
  match goal with |- world_ok (mkWorld ?c _ ?o _ _ _) => set (out := o); set (c5 := c) end.
  assert (world_ok (mkWorld c2 [] out (asleep s) (parked s) (passed s))) as H2.
  { destruct H1 as [[] Hb Ha Hp Hd]. simpl in *.
    assert ([] ++ out.*1 ≡ₚ op.*2 ++ (outcomes s ++ ((λ id, (ToReceipt id, Some x)) <$> omap receipt_id (opened s))).*1) as Hperm.
    { unfold out. simpl. rewrite app_assoc, (fmap_app _ _ (_ <$> op)), <- list_fmap_compose. simpl. by rewrite Permutation_app_comm. }
    assert (receipt_objects c2 = receipt_objects c1 ∧ futs c2 = futs c1) as [E1 E2] by (by rewrite F2).
    assert (∀ id o, (ToReceipt id, o) ∈ out → (ToReceipt id, o) ∈ outcomes s ++ ((λ id, (ToReceipt id, Some x)) <$> omap receipt_id (opened s))) as Hold.
    { intros id o. unfold out. rewrite app_assoc. intros [H | (p & Hp1 & Hp2)%list_elem_of_fmap]%elem_of_app; [done |]. apply list_elem_of_filter in Hp2 as [Hp2 _]. destruct p as [m []]; simplify_eq/=. }
    constructor; simpl.
    - constructor; simpl; [constructor | by rewrite Hperm | by rewrite F2 | by rewrite F2 | by intros ? ? ?%elem_of_nil | | |].
      + intros id o Hi. rewrite E1. by apply g_closed0, Hold.
      + intros id r Hr. rewrite E1 in Hr. rewrite <- (app_nil_l out.*1), Hperm. by apply g_all0.
      + intros id i Hi. rewrite <- (app_nil_l out.*1), Hperm in Hi. specialize (g_known0 id i Hi). rewrite F1. case_decide; [by apply fmap_is_Some | done].
    - intros id b. simpl. rewrite F1. unfold out. rewrite app_assoc. case_decide as Hi.
      + intros (b0 & H & ->)%fmap_Some_1. by apply fail_batch_ok; [| apply Hb].
      + intros H. apply idle_batch_ok; [| by apply Hb]. intros i Hx. apply Hi, Hids. by eexists.
    - by rewrite E1, E2.
    - rewrite F2. exact Hp.
    - done. }
  assert (world_ok (mkWorld (match dkeys (_receipts (pub s)) ++ dkeys (_batch_receipts (pub s)) with [] => c2
    | _ => match answer (dkeys (_receipts (pub s)) ++ dkeys (_batch_receipts (pub s))) with Ok _ => c2 | Raise y => _latch_local_failure y c2 end end)
    [] out (asleep s) (parked s) (passed s))) as H3.
  { case_match; [done |]. case_match; [done |]. unfold _latch_local_failure. case_match; [done |]. exact (terminal_ok _ _ _ H2). }
  unfold c5, _notify_publish_space. eapply (wake_ok _ (mkWorld (set_terminal _ _ _) [] out (asleep s) (parked s) (passed s))).
  exact (terminal_ok _ true _ H3).
Qed.

(** *** Admission *)

Lemma targets_snoc (op : list (Z * target)) (out : list (target * option exn)) mid t : NoDup (op.*2 ++ out.*1) → t ∉ op.*2 ++ out.*1 → NoDup ((op ++ [(mid, t)]).*2 ++ out.*1).
Proof.
  intros Hn Ht. rewrite fmap_app. simpl. rewrite <- app_assoc, Permutation_app_comm, <- app_assoc. simpl. apply NoDup_cons. split; [set_solver |].
  by rewrite Permutation_app_comm.
Qed.
Lemma keys_snoc (op : list (Z * target)) mid (t : target) : NoDup (dkeys op) → mid ∉ dkeys op → NoDup (dkeys (op ++ [(mid, t)])).
Proof. intros Hn Hm. unfold dkeys in *. rewrite fmap_app. apply NoDup_app. split_and!; [done | | apply NoDup_singleton]. intros x Hx ->%list_elem_of_singleton. done. Qed.
Lemma register_new (f : Z * target → option (Z * entry)) (op : list (Z * target)) mid x : (∀ p q, f p = Some q → q.1 = p.1) → mid ∉ dkeys op →
  _fifo_register (omap f op) mid x = omap f op ++ [(mid, Entry x)].
Proof.
  intros Hf Hm. assert (mid ∉ dkeys (omap f op)) as Hm'.
  { unfold dkeys in *. intros (q & -> & Hq)%list_elem_of_fmap. apply list_elem_of_omap in Hq as (p & Hp & E). apply Hm. rewrite (Hf p q E). by apply list_elem_of_fmap_2. }
  unfold _fifo_register. apply dget_None in Hm' as E. rewrite E. by apply dset_new.
Qed.

Lemma asleep_new objs fs asl id r : asleep_ok objs fs asl → objs !! id = None → r_waiters r = None → asleep_ok (<[id := r]> objs) fs asl.
Proof.
  intros [] Hi Hr. constructor.
  - intros f id' Hf. destruct (a_wait0 f id' Hf) as [H1 (r2 & E & H2)]. split; [done |]. exists r2. rewrite lookup_insert_ne by congruence. done.
  - intros id' r2 l f [[<- <-] | [Hn H]]%lookup_insert_Some Hl; [congruence | by eapply a_own0].
  - intros id' r2 l [[<- <-] | [Hn H]]%lookup_insert_Some Hl; [congruence | by eapply a_dup0].
Qed.

Lemma batch_ok_other op out id b mid t : batch_ok op out id b → in_batch id (mid, t) = None → batch_ok (op ++ [(mid, t)]) out id b.
Proof.
  intros [] Ht. constructor; try done.
  - by rewrite omap_snoc, Ht, app_nil_r.
  - intros i. rewrite fmap_app. simpl. rewrite <- app_assoc, !elem_of_app. intros [H | [H%list_elem_of_singleton | H]]; [| subst; simpl in Ht; by rewrite decide_True in Ht |];
      apply b_range0; apply elem_of_app; auto.
Qed.

Lemma new_receipt_ok s id mid qos : world_ok s → receipt_objects (pub s) !! id = None →
  match mid with Some m => m ∉ dkeys (opened s) ∧ qos ≠ AT_MOST_ONCE | None => qos = AT_MOST_ONCE end →
  let c := with_receipt id (PublishReceipt_init mid qos) (pub s) in
  world_ok (mkWorld (match mid with Some m => set_registries (_fifo_register (_receipts c) m id) (_batch_receipts c) c | None => c end)
    (match mid with Some m => opened s ++ [(m, ToReceipt id)] | None => opened s end) (outcomes s) (asleep s) (parked s) (passed s)).
Proof.
  intros [[] Hb Ha Hp Hd] Hi Hm. pose proof (asleep_new _ _ _ id (PublishReceipt_init mid qos) Ha Hi eq_refl) as Ha'.
  assert (ToReceipt id ∉ (opened s).*2 ++ (outcomes s).*1) as Hn.
  { intros [(p & E & H)%list_elem_of_fmap | (p & E & H)%list_elem_of_fmap]%elem_of_app; destruct p as [x y]; simpl in E; subst.
    - destruct (g_open0 x id H) as (r & E & _). congruence.
    - destruct (g_closed0 id y H) as (r & E & _). congruence. }
  destruct mid as [m |]; simpl.
  - destruct Hm as [Hm Hq]. constructor; simpl; try done.
    + constructor; simpl; [by apply keys_snoc | by apply targets_snoc | | | | | |].
      * rewrite g_receipts0, register_new, omap_snoc by (done || apply receipt_of_fst). done.
      * by rewrite g_batches0, omap_snoc, app_nil_r.
      * intros m' id' [H | [= -> ->]%list_elem_of_singleton]%elem_of_app.
        -- rewrite lookup_insert_ne; [by apply g_open0 |]. intros <-. destruct (g_open0 m' id H) as (r & E & _). congruence.
        -- rewrite lookup_insert_eq. eexists. split; [done |]. split_and!; try done. unfold at_most_once. simpl. by destruct qos.
      * intros id' o H. rewrite lookup_insert_ne; [by apply g_closed0 |]. intros <-. destruct (g_closed0 id o H) as (r & E & _). congruence.
      * intros id' r. rewrite fmap_app, <- app_assoc, !elem_of_app. intros [[<- <-] | [_ H]]%lookup_insert_Some; [right; right; left; by left |].
        destruct (g_all0 id' r H) as [? | H']; [by left | right]. apply elem_of_app in H' as [? | ?]; auto.
      * intros id' i. rewrite fmap_app, <- app_assoc, !elem_of_app. intros [H | [H%list_elem_of_singleton | H]]; [| done |]; eapply (g_known0 id' i), elem_of_app; auto.
    + intros id' b' H. by apply batch_ok_other; [apply Hb |].
  - subst qos. constructor; simpl; try done. constructor; simpl; try done.
    + intros m' id' H. rewrite lookup_insert_ne; [by apply g_open0 |]. intros <-. destruct (g_open0 m' id H) as (r & E & _). congruence.
    + intros id' o H. rewrite lookup_insert_ne; [by apply g_closed0 |]. intros <-. destruct (g_closed0 id o H) as (r & E & _). congruence.
    + intros id' r [[<- <-] | [_ H]]%lookup_insert_Some; [by left | by apply g_all0].
Qed.

Lemma new_batch_item_ok s id b mid : world_ok s → batch_objects (pub s) !! id = Some b → (b_sealed b = false ∨ is_Some (b_fatal b)) →
  match mid with Some m => m ∉ dkeys (opened s) | None => True end →
  let c := with_batch id (_register mid b) (pub s) in
  world_ok (mkWorld (match mid with Some m => set_registries (_receipts c) (_fifo_register (_batch_receipts c) m id) c | None => c end)
    (match mid with Some m => opened s ++ [(m, ToBatch id (b_submitted b))] | None => opened s end) (outcomes s) (asleep s) (parked s) (passed s)).
Proof.
  intros [[] Hb Ha Hp Hd] Hi Hs Hm. pose proof (Hb id b Hi) as [].
  assert (∀ id', is_Some (batch_objects (pub s) !! id') → is_Some (<[id := _register mid b]> (batch_objects (pub s)) !! id')) as Hk by (intros id' H; destruct (decide (id' = id)) as [-> | ?]; [rewrite lookup_insert_eq; by eexists | by rewrite lookup_insert_ne]).
  assert (ToBatch id (b_submitted b) ∉ (opened s).*2 ++ (outcomes s).*1) as Hn by (intros H; apply b_range0 in H; lia).
  destruct mid as [m |]; simpl.
  - assert (m ∉ dkeys (b_pending b)) as Hmb by (rewrite b_open0; apply dget_None; rewrite dget_omap by (done || apply in_batch_fst); apply dget_None in Hm; by rewrite Hm).
    constructor; simpl; try done.
    + constructor; simpl; [by apply keys_snoc | by apply targets_snoc | | | | done | |].
      * by rewrite g_receipts0, omap_snoc, app_nil_r.
      * rewrite g_batches0, register_new, omap_snoc by (done || apply batch_of_fst). done.
      * intros m' id' [H | H%list_elem_of_singleton]%elem_of_app; [by apply g_open0 | done].
      * intros id' r H. rewrite fmap_app, <- app_assoc, !elem_of_app. destruct (g_all0 id' r H) as [? | H']; [by left | right]. apply elem_of_app in H' as [? | ?]; auto.
      * intros id' i. rewrite fmap_app, <- app_assoc, !elem_of_app. intros H. apply Hk.
        destruct H as [H | [[= -> _]%list_elem_of_singleton | H]]; [| by eexists |]; eapply (g_known0 id' i), elem_of_app; auto.
    + intros id' b'. simpl. intros [[<- <-] | [Hn' H]]%lookup_insert_Some; [| by apply batch_ok_other; [apply Hb | simpl; rewrite decide_False]].
      constructor; simpl; try done.
      * rewrite dset_new, b_open0, omap_snoc by done. simpl. by rewrite decide_True.
      * intros i. rewrite fmap_app, <- app_assoc, !elem_of_app. intros [H | [[= ->]%list_elem_of_singleton | H]]; [| lia |];
          (assert (0 ≤ i < b_submitted b); [apply b_range0, elem_of_app; auto | lia]).
      * by destruct b_tally0.
      * lia.
      * rewrite b_end0. destruct Hs as [-> | Hf]; [naive_solver |]. split; [intros [? _]; auto | intros [? _]; auto].
  - constructor; simpl; try done.
    + eapply ledger_frame; [.. | by constructor]; try done.
    + intros id' b'. simpl. intros [[<- <-] | [Hn' H]]%lookup_insert_Some; [| by apply Hb]. constructor; simpl; try done; [intros i H; apply b_range0 in H; lia | by destruct b_tally0 | lia].
Qed.

Lemma park_ok s f : world_ok s → futs (pub s) !! f = None →
  world_ok (mkWorld (_register_publish_waiter f (pub s)) (opened s) (outcomes s) (asleep s) ({[f]} ∪ parked s) (passed s)).
Proof.
  intros [Hl Hb Ha Hp Hd] Hf. destruct Hp. assert (f ∉ parked s) as Hn by (intros H; destruct (p_waiting0 f H) as [[? ?] _]; congruence).
  assert (f ∉ _publish_waiter_futs (pub s)) as Hq by (intros H; by apply Hn, p_queue0).
  constructor; simpl; try done.
  - eapply ledger_frame; [.. | exact Hl]; done.
  - eapply asleep_frame; [| exact Ha]. intros g id Hg. rewrite lookup_insert_ne; [done |]. intros <-. destruct (a_wait _ _ _ Ha f id Hg) as [[? ?] _]. congruence.
  - constructor; simpl.
    + apply NoDup_app. split_and!; [done | | apply NoDup_singleton]. intros x Hx ->%list_elem_of_singleton. done.
    + intros g [Hg | ->%list_elem_of_singleton]%elem_of_app; [| rewrite lookup_insert_eq; split; [set_solver | by left]].
      rewrite lookup_insert_ne by (intros ->; done). destruct (p_queue0 g Hg). split; [set_solver | done].
    + intros g [->%elem_of_singleton | Hg]%elem_of_union; [rewrite lookup_insert_eq; split; [by eexists | intros _; apply elem_of_app; right; by left] |].
      rewrite lookup_insert_ne by (intros ->; done). destruct (p_waiting0 g Hg). split; [done |]. intros. apply elem_of_app. left. auto.
    + rewrite size_union, size_singleton by set_solver. lia.
    + assert (filter (λ g, <[f := Waiting]> (futs (pub s)) !! g = Some Resolved) ({[f]} ∪ parked s) = filter (λ g, futs (pub s) !! g = Some Resolved) (parked s)) as ->; [| done].
      apply set_eq. intros g. rewrite !elem_of_filter, elem_of_union, elem_of_singleton. destruct (decide (g = f)) as [-> | Hg]; [rewrite lookup_insert_eq; naive_solver | rewrite lookup_insert_ne by done; naive_solver].
  - intros g id Hg. specialize (Hd g id Hg). intros [->%elem_of_singleton | H]%elem_of_union; [| done]. destruct (a_wait _ _ _ Ha f id Hg) as [[? ?] _]. congruence.
Qed.

(** *** Waiting *)

(** The waiters of an open receipt change. *)
Lemma ledger_waiters c op out id r w fs : ledger c op out → receipt_objects c !! id = Some r → r_settled r = false → at_most_once r = false →
  ledger (set_objects (<[id := set_waiters w r]> (receipt_objects c)) (batch_objects c) fs c) op out.
Proof.
  intros [] Hr Hs Hq. constructor; simpl; try done.
  - intros mid id' H. destruct (decide (id' = id)) as [-> | Hn]; [rewrite lookup_insert_eq | rewrite lookup_insert_ne by done; by apply g_open0].
    destruct (g_open0 mid id H) as (r2 & E & H1 & H2 & H3 & H4). simplify_eq. eexists. split; [done |]. by split_and!.
  - intros id' o H. destruct (decide (id' = id)) as [-> | Hn]; [| rewrite lookup_insert_ne by done; by apply g_closed0].
    destruct (g_closed0 id o H) as (r2 & E & H1 & _). congruence.
  - intros id' r2 [[<- <-] | [_ H]]%lookup_insert_Some; [| by apply g_all0]. destruct (g_all0 id r Hr) as [[H _] | H]; [congruence | by right].
Qed.

Lemma add_waiter_ok s id f r : world_ok s → receipt_objects (pub s) !! id = Some r → r_settled r = false → at_most_once r = false → futs (pub s) !! f = None →
  world_ok (mkWorld (add_future id f true (add_waiter f r) (pub s)) (opened s) (outcomes s) (<[f := id]> (asleep s)) (parked s) (passed s)).
Proof.
  intros [Hl Hb [] Hp Hd] Hr Hs Hq Hf.
  assert (∀ g id', asleep s !! g = Some id' → g ≠ f) as Hg by (intros g id' H ->; destruct (a_wait0 f id' H) as [[? ?] _]; congruence).
  assert (f ∉ parked s) as Hn by (intros H; destruct (p_waiting _ _ _ _ _ _ _ Hp f H) as [[? ?] _]; congruence).
  unfold add_waiter. set (l0 := match r_waiters r with Some l => l | None => [] end).
  replace (Some match r_waiters r with Some l => l ++ [f] | None => [f] end) with (Some (l0 ++ [f])) by (unfold l0; by destruct (r_waiters r)).
  assert (∀ g, g ∈ l0 → asleep s !! g = Some id ∧ futs (pub s) !! g ≠ Some Resolved) as H0 by (unfold l0; intros g; destruct (r_waiters r) eqn:E; [intros H; by eapply a_own0 | by intros ?%elem_of_nil]).
  constructor; simpl; try done.
  - by apply (ledger_waiters (pub s)).
  - constructor.
    + intros g id' [[<- <-] | [Hne H]]%lookup_insert_Some.
      * rewrite !lookup_insert_eq. split; [by eexists |]. eexists. split; [done |]. simpl. intros _. split; [done |]. eexists. split; [done |]. apply elem_of_app. right. by left.
      * rewrite lookup_insert_ne by done. destruct (a_wait0 g id' H) as [H1 (r2 & E & H2)]. split; [done |]. destruct (decide (id' = id)) as [-> | Hi]; [| rewrite lookup_insert_ne by done; by exists r2].
        rewrite lookup_insert_eq. simplify_eq. eexists. split; [done |]. intros Hwt. destruct (H2 Hwt) as (_ & l & El & Hgl). split; [done |]. simpl. eexists. split; [done |].
        unfold l0. rewrite El. apply elem_of_app. by left.
    + intros id' r2 l g [[<- <-] | [Hne H]]%lookup_insert_Some Hl2 Hgl.
      * simpl in Hl2. injection Hl2 as <-. apply elem_of_app in Hgl as [Hgl | ->%list_elem_of_singleton]; [| rewrite !lookup_insert_eq; done].
        destruct (H0 g Hgl) as [H1 H2]. rewrite !lookup_insert_ne by (intros <-; by eapply Hg). done.
      * destruct (a_own0 id' r2 l g H Hl2 Hgl) as [H1 H2]. rewrite !lookup_insert_ne by (intros <-; by eapply Hg). done.
    + intros id' r2 l [[<- <-] | [Hne H]]%lookup_insert_Some Hl2; [| by eapply a_dup0]. simpl in Hl2. injection Hl2 as <-.
      apply NoDup_app. split_and!; [unfold l0; destruct (r_waiters r) eqn:E; [by eapply a_dup0 | constructor] | | apply NoDup_singleton].
      intros g Hgl ->%list_elem_of_singleton. destruct (H0 f Hgl) as [H1 _]. by apply (Hg f id).
  - unfold parking in *. simpl. eapply parked_frame; [| exact Hp]. intros g Hgp. rewrite lookup_insert_ne; [done |]. by intros <-.
  - intros g id' [[<- _] | [_ H]]%lookup_insert_Some; [done | by eapply Hd].
Qed.

Lemma set_same s id r : receipt_objects (pub s) !! id = Some r → world_ok s →
  world_ok (with_pub (set_objects (<[id := r]> (receipt_objects (pub s))) (batch_objects (pub s)) (futs (pub s)) (pub s)) s).
Proof. intros Hr Hw. rewrite insert_id by done. replace (set_objects _ _ _ (pub s)) with (pub s) by (by destruct (pub s)). by destruct s. Qed.

Lemma withdraw_ok s f : world_ok s → futs (pub s) !! f = Some Waiting →
  world_ok (with_pub (set_objects (receipt_objects (pub s)) (batch_objects (pub s)) (<[f := Withdrawn]> (futs (pub s))) (pub s)) s).
Proof.
  intros [Hl Hb [] [] Hd] Hf. constructor; simpl; try done.
  - eapply ledger_frame; [.. | exact Hl]; done.
  - constructor; [| | by intros; eapply a_dup0].
    + intros g id Hg. destruct (a_wait0 g id Hg) as [H1 (r & E & H2)]. destruct (decide (g = f)) as [-> | Hn].
      * rewrite lookup_insert_eq. split; [by eexists |]. by exists r.
      * rewrite lookup_insert_ne by done. split; [done |]. by exists r.
    + intros id r l g Hr Hl' Hg. destruct (a_own0 id r l g Hr Hl' Hg). split; [done |].
      destruct (decide (g = f)) as [-> | Hn]; [by rewrite lookup_insert_eq | by rewrite lookup_insert_ne].
  - constructor; simpl; try done.
    + intros g Hg. destruct (p_queue0 g Hg) as [H1 H2]. split; [done |]. destruct (decide (g = f)) as [-> | Hn]; [rewrite lookup_insert_eq; by right | by rewrite lookup_insert_ne].
    + intros g Hg. destruct (p_waiting0 g Hg) as [H1 H2]. destruct (decide (g = f)) as [-> | Hn]; [rewrite lookup_insert_eq; split; [by eexists | done] | by rewrite lookup_insert_ne].
    + rewrite p_tokens0. do 2 f_equal. f_equal. f_equal. apply set_eq. intros g. rewrite !elem_of_filter.
      destruct (decide (g = f)) as [-> | Hn]; [rewrite lookup_insert_eq; naive_solver | by rewrite lookup_insert_ne].
Qed.

Lemma resume_ok s f id cancelled : world_ok s → asleep s !! f = Some id → futs (pub s) !! f ≠ Some Waiting → (cancelled = false → futs (pub s) !! f = Some Resolved) →
  world_ok (mkWorld (resume_wait_on id f cancelled (pub s)).2 (opened s) (outcomes s) (delete f (asleep s)) (parked s) (passed s)).
Proof.
  intros [Hl Hb [] Hp Hd] Hf Hw Hc. destruct (a_wait0 f id Hf) as [_ (r & Hr & _)]. unfold resume_wait_on. rewrite Hr.
  destruct (resume_receipt_wait f cancelled r) as [r' res] eqn:Er. simpl.
  assert (ledger (with_receipt id r' (pub s)) (opened s) (outcomes s) ∧ r_settled r' = r_settled r ∧
    (∀ l, r_waiters r' = Some l → ∃ l0, r_waiters r = Some l0 ∧ NoDup l ∧ ∀ g, g ∈ l ↔ g ∈ l0 ∧ g ≠ f) ∧
    (∀ l0 g, r_waiters r = Some l0 → g ∈ l0 → g ≠ f → ∃ l, r_waiters r' = Some l ∧ g ∈ l)) as (L1 & L2 & L3 & L4).
  { unfold resume_receipt_wait in Er. destruct cancelled; simplify_eq.
    - destruct (r_waiters r) as [l0 |] eqn:El; [| split_and!; [| done | by rewrite El | by rewrite El]; unfold with_receipt; rewrite insert_id by done; by destruct (pub s)].
      destruct (list_remove_spec f l0) as [R1 R2]; [by eapply a_dup0 |].
      assert (r_settled r = false ∧ at_most_once r = false) as [S1 S2].
      { destruct (g_all _ _ _ Hl id r Hr) as [(_ & H & _) | H]; [congruence |]. apply elem_of_app in H as [(p & E & Hi)%list_elem_of_fmap | (p & E & Hi)%list_elem_of_fmap]; destruct p as [x y]; simpl in E; subst.
        - destruct (g_open _ _ _ Hl x id Hi) as (r2 & E & _ & H1 & _ & H2). by simplify_eq.
        - destruct (g_closed _ _ _ Hl id y Hi) as (r2 & E & _ & _ & H2 & _). congruence. }
      split_and!; [by apply ledger_waiters | done | |].
      + intros l. simpl. destruct (list_remove f l0) as [| x xs] eqn:Ex; [done |]. intros [= <-]. exists l0. done.
      + intros l1 g [= <-] Hg Hn. simpl. assert (g ∈ list_remove f l0) as Hi by (by apply R2). destruct (list_remove f l0) as [| x xs]; [by apply elem_of_nil in Hi |]. by eexists.
    - specialize (Hc eq_refl). split_and!; [unfold with_receipt; rewrite insert_id by done; by destruct (pub s) | done | | by eauto].
      intros l El. exists l. split_and!; [done | by eapply a_dup0 |]. intros g. split; [| tauto]. intros Hg. split; [done |]. intros ->. by destruct (a_own0 id r' l f Hr El Hg). }
  constructor; simpl; try done.
  - constructor.
    + intros g id' [Hn Hg]%lookup_delete_Some. destruct (a_wait0 g id' Hg) as [H1 (r2 & E & H2)]. split; [done |].
      destruct (decide (id' = id)) as [-> | Hi]; [| rewrite lookup_insert_ne by done; by exists r2]. rewrite lookup_insert_eq. simplify_eq. eexists. split; [done |].
      intros Hwt. destruct (H2 Hwt) as (S & l & El & Hgl). split; [congruence |]. by eapply L4.
    + intros id' r2 l g [[<- <-] | [Hne H]]%lookup_insert_Some Hl2 Hgl.
      * destruct (L3 l Hl2) as (l0 & El0 & _ & Hin). destruct (proj1 (Hin g) Hgl) as [Hgl' Hn]. rewrite lookup_delete_ne by done. by eapply a_own0.
      * destruct (a_own0 id' r2 l g H Hl2 Hgl) as [H1 H2]. split; [| done]. rewrite lookup_delete_ne; [done |]. intros <-. congruence.
    + intros id' r2 l [[<- <-] | [Hne H]]%lookup_insert_Some Hl2; [by destruct (L3 l Hl2) as (l0 & _ & ? & _) | by eapply a_dup0].
  - intros g id' [_ H]%lookup_delete_Some. by eapply Hd.
Qed.

Lemma new_batch_ok s id n b : world_ok s → batch_objects (pub s) !! id = None → PublishBatchReceipt_init n = Ok b → world_ok (with_pub (with_batch id b (pub s)) s).
Proof.
  intros [Hl Hb Ha Hp Hd] Hi Hn. unfold PublishBatchReceipt_init in Hn. destruct (n <? 0) eqn:E; simplify_eq.
  assert (∀ i, ToBatch id i ∉ (opened s).*2 ++ (outcomes s).*1) as Hno by (intros i H; destruct (g_known _ _ _ Hl id i H); congruence).
  constructor; simpl; try done.
  - eapply ledger_frame; [.. | exact Hl]; try done. intros id' H. simpl. rewrite lookup_insert_ne; [done |]. intros <-. rewrite Hi in H. by destruct H.
  - intros id' b'. simpl. intros [[<- <-] | [_ H]]%lookup_insert_Some; [| by apply Hb].
    assert (omap (in_batch id) (opened s) = []) as Ho.
    { assert (∀ i, ToBatch id i ∉ (opened s).*2) as H by (intros i H; apply (Hno i), elem_of_app; by left). clear -H.
      induction (opened s) as [| [m [j | j k]] op IH]; simpl; [done | apply IH; intros i Hi; apply (H i); by right |]. case_decide; [subst; exfalso; apply (H k); by left |].
      apply IH. intros i Hi. apply (H i). by right. }
    assert (omap (failed_in id) (outcomes s) = []) as Hf.
    { destruct (omap (failed_in id) (outcomes s)) as [| p l] eqn:Ef; [done |]. exfalso. assert (p ∈ omap (failed_in id) (outcomes s)) as Hp' by (rewrite Ef; by left).
      apply list_elem_of_omap in Hp' as ([[j | j k] [x |]] & Hx & Ex); simpl in Ex; try done. case_decide; [subst | done]. apply (Hno k), elem_of_app. right. by apply (list_elem_of_fmap_2 fst) in Hx. }
    constructor; simpl; try done; [intros i H; by destruct (Hno i) | rewrite Hf; constructor; simpl; try done; [by rewrite take_nil | by intros ? ? ?%elem_of_nil | lia] |].
    split; [done | by intros [? _]].
Qed.

Lemma seal_ok s id b : world_ok s → batch_objects (pub s) !! id = Some b → world_ok (with_pub (with_batch id (_seal b) (pub s)) s).
Proof.
  intros [Hl Hb Ha Hp Hd] Hi. constructor; simpl; try done.
  - eapply ledger_frame; [.. | exact Hl]; try done. intros id' H. simpl. destruct (decide (id' = id)) as [-> | ?]; [rewrite lookup_insert_eq; by eexists | by rewrite lookup_insert_ne].
  - intros id' b'. simpl. intros [[<- <-] | [_ H]]%lookup_insert_Some; [| by apply Hb]. destruct (Hb id b Hi) as [].
    unfold _seal, _finish_if_ready. simpl. destruct (b_pending b) as [| p l] eqn:Ep; (constructor; simpl; try done; [by rewrite Ep | by destruct b_tally0 |]).
    + split; [intros _; split; [done | by left] | done].
    + rewrite b_end0, Ep. split; [intros [_ [? | ?]]; [done | auto] |]. intros [_ [? | Hf]]; [done | auto].
Qed.

(** *** All steps *)

Lemma commit_cases qos disc pend adm batch id c : let r := _commit_publish qos disc pend adm batch id c in
  (∃ x, r = (Raise x, c)) ∨
  (∃ mid q, adm = Ok (mid, q) ∧ match batch with
    | Some b => r = (Ok None, let c := match batch_objects c !! b with Some o => with_batch b (_register mid o) c | None => c end in
        match mid with Some m => set_registries (_receipts c) (_fifo_register (_batch_receipts c) m b) c | None => c end)
    | None => r = (Ok (Some id), let c := with_receipt id (PublishReceipt_init mid q) c in
        match mid with Some m => set_registries (_fifo_register (_receipts c) m id) (_batch_receipts c) c | None => c end)
    end).
Proof.
  unfold _commit_publish. destruct (match qos with AT_MOST_ONCE => None | _ => _ end) as [x |]; [left; by eexists |].
  destruct adm as [[mid q] | x]; [right | left; by eexists]. exists mid, q. split; [done |]. by destruct batch.
Qed.

Lemma publish_ok s qos a batch id f : world_ok s → receipt_objects (pub s) !! id = None → futs (pub s) !! f = None →
  (∀ id, batch = Some id → ∃ b, batch_objects (pub s) !! id = Some b ∧ (b_sealed b = false ∨ is_Some (b_fatal b))) →
  (∀ mid q, admitted a = Ok (mid, q) → match mid with Some m => m ∉ dkeys (opened s) ∧ q ≠ AT_MOST_ONCE | None => q = AT_MOST_ONCE end) →
  world_ok (published a batch id (publish_attempt qos a batch id f (pub s)) s).
Proof.
  intros Hw Hi Hf Hb Ha. assert (∀ x, world_ok (published a batch id (Published (Raise x), pub s) s)) as Hraise by (intros x; unfold published; simpl; by destruct s).
  unfold publish_attempt. destruct (dirty a); [unfold published; simpl; by destruct s |].
  destruct (commit_cases qos (disconnected a) (connection_pending a) (admitted a) batch id (pub s)) as [[x ->] | (mid & q & Hq & H)].
  - destruct x; try apply Hraise. destruct (can_ever_admit a); [| apply Hraise]. simpl. destruct (_publish_wait_failure _ _ _); [apply Hraise |].
    by apply park_ok.
  - specialize (Ha mid q Hq). destruct batch as [bid |]; rewrite H; unfold published; simpl; rewrite Hq.
    + destruct (Hb bid eq_refl) as (b & Hbi & Hs). rewrite Hbi.
      pose proof (new_batch_item_ok s bid b mid Hw Hbi Hs) as Hn. destruct mid as [m |]; simpl; simpl in Hn; rewrite ?Hbi; apply Hn; [by destruct Ha | done].
    + pose proof (new_receipt_ok s id mid q Hw Hi Ha) as Hn. by destruct mid.
Qed.

Lemma receipts_step_ok s s' : receipts_step s s' → world_ok s → world_ok s'.
Proof.
  intros Hstep Hw. destruct Hstep as [s qos a batch id f H1 H2 H3 H4 | s mid reason | s x answer | s id n b H1 H2 | s id b H1 | s id f [r Hr] Hf | s id f [r Hr] Hf |
    s f Hf | s f id cancelled H1 H2 H3 | s f cancelled wr cause H1 H2 H3 | s final | s].
  - by apply publish_ok.
  - by apply settle_ok.
  - by apply fail_ok.
  - by eapply new_batch_ok.
  - by apply seal_ok.
  - subst p. unfold wait_on. rewrite Hr. unfold receipt_wait. destruct (at_most_once r) eqn:Eq, (r_settled r) eqn:Es; simpl; try exact (set_same s id r Hr Hw). by apply add_waiter_ok.
  - subst p. unfold when_done. rewrite Hr. unfold add_done_callback. destruct (r_settled r) eqn:Es, (at_most_once r) eqn:Eq; simpl; try exact (set_same s id r Hr Hw). by apply add_waiter_ok.
  - by apply withdraw_ok.
  - by apply resume_ok.
  - destruct (space_parking f cancelled (pub s) (parked s) (passed s) (o_parked s Hw) H1 H2 H3) as (P1 & P2 & P3). unfold carried_on in P1.
    assert ((resume_publish f cancelled wr cause (pub s)).2 = (_wait_publish_space f cancelled (pub s)).1) as ->.
    { unfold resume_publish. destruct (_wait_publish_space f cancelled (pub s)) as [c [r | x]]; [| done]. by destruct (_publish_wait_failure wr cause c). }
    apply parking_moved; try done. set_solver.
  - unfold _notify_publish_space. apply (wake_ok _ (with_pub (set_terminal final _ (pub s)) s)). by apply terminal_ok.
  - by apply terminal_ok.
Qed.

Definition new_world : world := mkWorld Publications_init [] [] ∅ ∅ 0.
Definition publishing s : Prop := rtc receipts_step new_world s.
Lemma publishing_ok s : publishing s → world_ok s.
Proof.
  intros H. assert (world_ok new_world) as H0.
  { constructor; simpl; try done.
    - constructor; simpl; try done; try constructor; try (by intros ? ? ?%elem_of_nil).
    - constructor; simpl; [constructor | by intros f ?%elem_of_nil | by intros f ?%elem_of_empty | done |]. done. }
  unfold publishing in H. induction H; eauto using receipts_step_ok.
Qed.

(** C23: every publication has one outcome, and its receipt reports that one.  While
    publications are admitted, settled, abandoned in a final teardown, waited for and
    no longer waited for, in any order: no publication gets two outcomes; a receipt is
    done when its publication has one, and not before, and reports exactly it; and a
    task that waits for a receipt sleeps only as long as the publication is open. *)
Theorem receipts_settled_once s : publishing s →
  NoDup ((opened s).*2 ++ (outcomes s).*1) ∧
  (∀ id r, receipt_objects (pub s) !! id = Some r → at_most_once r = false →
    (is_done r = true ↔ ∃ o, (ToReceipt id, o) ∈ outcomes s) ∧ (is_done r = false ↔ ∃ mid, (mid, ToReceipt id) ∈ opened s) ∧
    (∀ o, (ToReceipt id, o) ∈ outcomes s → receipt_exception r = Ok o ∧ outcome r = match o with Some x => Raise x | None => Ok tt end)) ∧
  (∀ f id, asleep s !! f = Some id → ∃ r, receipt_objects (pub s) !! id = Some r ∧ (futs (pub s) !! f = Some Waiting → is_done r = false) ∧
    (futs (pub s) !! f ≠ Some Waiting → (resume_wait_on id f false (pub s)).1 = outcome r)).
Proof.
  intros H. destruct (publishing_ok s H) as [[] Hb [] Hp Hd]. split_and!; [done | |].
  - intros id r Hr Hq. unfold is_done, receipt_exception, is_done, outcome. rewrite Hq. simpl.
    assert (∀ o, (ToReceipt id, o) ∈ outcomes s → r_settled r = true ∧ r_error r = o) as Hc by (intros o Ho; destruct (g_closed0 id o Ho) as (r2 & E & ? & ? & _); by simplify_eq).
    assert (∀ mid, (mid, ToReceipt id) ∈ opened s → r_settled r = false) as Ho by (intros mid Ho; destruct (g_open0 mid id Ho) as (r2 & E & _ & ? & _); by simplify_eq).
    assert ((∃ mid, (mid, ToReceipt id) ∈ opened s) ∨ ∃ o, (ToReceipt id, o) ∈ outcomes s) as Hall.
    { destruct (g_all0 id r Hr) as [[? _] | Hi]; [congruence |]. apply elem_of_app in Hi as [([m t] & E & Hi)%list_elem_of_fmap | ([t o] & E & Hi)%list_elem_of_fmap]; simpl in E; subst; eauto. }
    split_and!.
    + split; [intros Hs; destruct Hall as [[mid Hm] | ?]; [by rewrite (Ho mid Hm) in Hs | done] | intros [o Hi]; by apply (Hc o)].
    + split; [intros Hs; destruct Hall as [? | [o Hi]]; [done | destruct (Hc o Hi); congruence] | intros [m Hi]; by apply (Ho m)].
    + intros o Hi. destruct (Hc o Hi) as [-> ->]. done.
  - intros f id Hf. destruct (a_wait0 f id Hf) as [_ (r & Hr & Hw)]. exists r. split; [done |]. split.
    + intros Hx. destruct (Hw Hx) as (Hs & l & El & _). unfold is_done. rewrite Hs, orb_false_r. destruct (at_most_once r) eqn:Eq; [| done].
      destruct (g_all0 id r Hr) as [(_ & H1 & _) | Hi]; [congruence |]. apply elem_of_app in Hi as [([m t] & E & Hi)%list_elem_of_fmap | ([t o] & E & Hi)%list_elem_of_fmap]; simpl in E; subst.
      * destruct (g_open0 m id Hi) as (r2 & E & _ & _ & _ & ?). congruence.
      * destruct (g_closed0 id o Hi) as (r2 & E & _ & _ & _ & ?). congruence.
    + intros _. unfold resume_wait_on. by rewrite Hr.
Qed.

(** C24: a batch counts its publications.  Whatever happens to them: what a batch has
    pending are its open publications; it counts every failure and keeps the first
    ones, in order, as many as its limit; it is done when it is sealed and nothing is
    open, or when the client gave up on it; and a batch that is done without that
    succeeds exactly when none of its publications failed. *)
Theorem batch_books s id b : publishing s → batch_objects (pub s) !! id = Some b →
  let failures := omap (failed_in id) (outcomes s) in
  b_pending b = omap (in_batch id) (opened s) ∧ failure_count b = len failures ∧ b_failures b = take (Z.to_nat (b_max_failure_details b)) failures ∧
  (∀ i, ToBatch id i ∈ (opened s).*2 ++ (outcomes s).*1 → 0 ≤ i < b_submitted b) ∧
  (b_done b = true ↔ b_sealed b = true ∧ (omap (in_batch id) (opened s) = [] ∨ is_Some (b_fatal b))) ∧
  (b_fatal b = None → (batch_outcome b = Ok tt ↔ failures = [])).
Proof.
  intros H Hi. pose proof (publishing_ok s H) as Hw. destruct (o_batches s Hw id b Hi) as [H1 H2 [T1 T2 T3 T4] H4 H5 H6]. cbv zeta. rewrite <- H1. split_and!; try done.
  intros Hf. unfold batch_outcome. rewrite Hf. unfold failure_count in T1. change (foldr _ 0 _) with (count_of (b_failure_counts b)) in T1.
  destruct (count_pos (b_failure_counts b) T3) as [C1 C2]. destruct (b_failure_counts b) as [| p l] eqn:El.
  - split; [intros _ | done]. simpl in T1. unfold len in T1. by destruct (omap (failed_in id) (outcomes s)).
  - split; [done |]. intros E. rewrite E in T1. unfold len in T1. simpl length in T1. assert (p :: l = []) by (apply C2; lia). done.
Qed.


(** *** An example

    Two publications and a batch; the second producer is refused and parks. *)
Definition free_room (mid : Z) : admission := mkAdmission false false false (Ok (Some mid, AT_LEAST_ONCE)) true false None.
Definition no_room_left : admission := mkAdmission false false false (Raise FlowControlError) true false None.
Definition example_batch : PublishBatchReceipt := match PublishBatchReceipt_init 1 with Ok b => b | Raise _ => mkBatch [] [] [] 0 false new_event false 0 None end.
Definition receipts_run : list (world → world) :=
  [λ s, published (free_room 7) None 1 (publish_attempt AT_LEAST_ONCE (free_room 7) None 1 100 (pub s)) s;
   λ s, with_pub (with_batch 5 example_batch (pub s)) s;
   λ s, published (free_room 8) (Some 5) 2 (publish_attempt AT_LEAST_ONCE (free_room 8) (Some 5) 2 101 (pub s)) s;
   λ s, published no_room_left None 2 (publish_attempt AT_LEAST_ONCE no_room_left None 2 102 (pub s)) s;
   λ s, published no_room_left None 2 (publish_attempt AT_LEAST_ONCE no_room_left None 2 103 (pub s)) s;
   λ s, settled (Some 8) (Some ProtocolError) s;
   λ s, settled (Some 7) None s].
Definition receipts_at (n : nat) : world := foldl (λ s f, f s) new_world (take n receipts_run).
Lemma receipts_at_S n f : receipts_run !! n = Some f → receipts_at (S n) = f (receipts_at n).
Proof. intros H. unfold receipts_at. by rewrite (take_S_r _ _ _ H), foldl_app. Qed.

Ltac admitted_here := let m := fresh in let q := fresh in intros m q [= <- <-]; vm_compute; split; [intros H'; repeat (apply elem_of_cons in H' as [H' | H']; [discriminate |]); by apply elem_of_nil in H' | discriminate].
Lemma receipts_at_publishing : publishing (receipts_at 4) ∧ publishing (receipts_at 7).
Proof.
  assert (receipts_step (receipts_at 0) (receipts_at 1)) as S0 by (rewrite (receipts_at_S 0 _ eq_refl); apply rs_publish; [done | done | done | admitted_here]).
  assert (receipts_step (receipts_at 1) (receipts_at 2)) as S1 by (rewrite (receipts_at_S 1 _ eq_refl); apply (rs_batch _ 5 1); reflexivity).
  assert (receipts_step (receipts_at 2) (receipts_at 3)) as S2 by (rewrite (receipts_at_S 2 _ eq_refl); apply rs_publish; [done | done | intros ? [= <-]; eexists; split; [reflexivity | by left] | admitted_here]).
  assert (receipts_step (receipts_at 3) (receipts_at 4)) as S3 by (rewrite (receipts_at_S 3 _ eq_refl); apply rs_publish; done).
  assert (receipts_step (receipts_at 4) (receipts_at 5)) as S4 by (rewrite (receipts_at_S 4 _ eq_refl); apply rs_publish; done).
  assert (receipts_step (receipts_at 5) (receipts_at 6)) as S5 by (rewrite (receipts_at_S 5 _ eq_refl); apply rs_settle).
  assert (receipts_step (receipts_at 6) (receipts_at 7)) as S6 by (rewrite (receipts_at_S 6 _ eq_refl); apply rs_settle).
  assert (publishing (receipts_at 4)) as H4 by (eapply rtc_l; [exact S0 |]; eapply rtc_l; [exact S1 |]; eapply rtc_l; [exact S2 |]; by apply rtc_once).
  split; [exact H4 |]. unfold publishing in *. etrans; [exact H4 |]. eapply rtc_l; [exact S4 |]; eapply rtc_l; [exact S5 |]; by apply rtc_once.
Qed.

Lemma receipts_settled_once_witness : publishing (receipts_at 7) ∧ outcomes (receipts_at 7) = [(ToBatch 5 0, Some ProtocolError); (ToReceipt 1, None)] ∧
  ∃ r, receipt_objects (pub (receipts_at 7)) !! 1 = Some r ∧ receipt_exception r = Ok None.
Proof.
  destruct receipts_at_publishing as [_ H]. destruct (receipts_settled_once (receipts_at 7) H) as (_ & H2 & _).
  split; [exact H |]. split; [reflexivity |]. eexists. split; [reflexivity |].
  apply (H2 1 (mkReceipt (Some 7) AT_LEAST_ONCE None None true)); [reflexivity | reflexivity |]. change (outcomes (receipts_at 7)) with [(ToBatch 5 0, Some ProtocolError); (ToReceipt 1, None)].
  right. left.
Defined.

Lemma batch_books_witness : publishing (receipts_at 7) ∧ ∃ b, batch_objects (pub (receipts_at 7)) !! 5 = Some b ∧ failure_count b = 1 ∧ b_failures b = [(0, ProtocolError)].
Proof.
  destruct receipts_at_publishing as [_ H]. split; [exact H |]. eexists. split; [reflexivity |].
  destruct (batch_books (receipts_at 7) 5 _ H eq_refl) as (_ & H2 & H3 & _). split; [exact H2 | exact H3].
Defined.


(** A producer that was woken and is cancelled before it tries again, while it awaits
    the pump or the engine's lock, takes its wakeup with it: nothing is open, no wakeup
    is on its way, and the producer behind it sleeps. *)
Lemma wakeup_lost : ∃ s, publishing s ∧ opened s = [] ∧ parked s = {[103]} ∧ _publish_waiter_futs (pub s) = [103] ∧ futs (pub s) !! 103 = Some Waiting ∧
  _publish_wakeups (pub s) = _publish_wait_retries (pub s).
Proof.
  set (park := λ f s, published no_room_left None 2 (publish_attempt AT_LEAST_ONCE no_room_left None 2 f (pub s)) s).
  set (s1 := receipts_at 1). set (s2 := park 102 s1). set (s3 := park 103 s2). set (s4 := settled (Some 7) None s3).
  set (s5 := mkWorld (resume_publish 102 false false None (pub s4)).2 (opened s4) (outcomes s4) (asleep s4) (parked s4 ∖ {[102]}) (passed s4 + 0)).
  exists s5. split; [| vm_compute; split_and!; reflexivity].
  apply (rtc_l _ _ s1); [unfold s1; rewrite (receipts_at_S 0 _ eq_refl); apply rs_publish; [done | done | done | admitted_here] |].
  apply (rtc_l _ _ s2); [apply rs_publish; done |]. apply (rtc_l _ _ s3); [apply rs_publish; done |]. apply (rtc_l _ _ s4); [apply rs_settle |].
  apply rtc_once. apply (rs_unpark s4 102 false false None); vm_compute; done.
Qed.
