(* ===== verification/Auth.v ===== *)
(** * Enhanced authentication

    [api/_auth.py]: the queue of AUTH challenges and the one task that hands them to
    the application's handler.  The task is cut at its awaits. *)

From S2P Require Import Prelude.

(** A challenge: the AUTH packet and the engine's token by their identities, and the
    connection they came on. *)
Record challenge := mkChallenge { ch_packet : Z; ch_token : Z; ch_epoch : Z }.

(** How a call of the handler ends under [asyncio.timeout]; [HandlerCancelled] is a
    [CancelledError], whoever caused it. *)
Inductive handler_end :=
  | Responded (reason_code : Z) (properties : option propmap)
  | Declined
  | HandlerRaised (x : exn)
  | HandlerTimedOut
  | HandlerCancelled.

(** What the task awaits. *)
Inductive auth_phase := Starting | Asking (c : challenge) | Locking (c : challenge) (reason_code : Z) (properties : option propmap) | Failing (x : exn).

(** [task]: what the task awaits and whether it was asked to cancel; [None] when there
    is none or it is done. *)
Record AuthExchange := mkAuth { a_pending : list challenge; a_task : option (auth_phase * bool) }.
Definition AuthExchange_init : AuthExchange := mkAuth [] None.

Definition hand_off (c : challenge) (a : AuthExchange) : AuthExchange :=
  mkAuth (a_pending a ++ [c]) (match a_task a with None => Some (Starting, false) | Some t => Some t end).

(** [by_handler]: the caller is the task itself. *)
Definition retire (by_handler : bool) (a : AuthExchange) : AuthExchange :=
  mkAuth [] (match a_task a with Some (ph, c) => Some (ph, if by_handler then c else true) | None => None end).

(** The outcome of a stretch of the task. *)
Definition ended (a : AuthExchange) : AuthExchange := mkAuth (a_pending a) None.
Definition awaits (ph : auth_phase) (cancelling : bool) (pending : list challenge) : AuthExchange := mkAuth pending (Some (ph, cancelling)).

(** [_run] from the top of its loop; [handler] is whether the client has one. *)
Fixpoint run_loop (handler : bool) (current : Z) (cancelling : bool) (pending : list challenge) : AuthExchange :=
  match pending with
  | [] => mkAuth [] None
  | c :: rest =>
      if negb (ch_epoch c =? current) then run_loop handler current cancelling rest
      else if handler then awaits (Asking c) cancelling rest
      else awaits (Failing MQTTError) cancelling []
  end.

(** What [_answer] returned. *)
Definition after_answer (handler : bool) (current : Z) (cancelling : bool) (c : challenge) (failure : option exn) (pending : list challenge) : AuthExchange :=
  match failure with
  | Some x => if ch_epoch c =? current then awaits (Failing x) cancelling [] else run_loop handler current cancelling pending
  | None => run_loop handler current cancelling pending
  end.

Definition started (handler : bool) (current : Z) (cancelling : bool) (a : AuthExchange) : AuthExchange :=
  if cancelling then ended a else run_loop handler current cancelling (a_pending a).

Definition handler_ended (handler : bool) (current : Z) (cancelling : bool) (c : challenge) (e : handler_end) (a : AuthExchange) : AuthExchange :=
  let return_ failure := after_answer handler current cancelling c failure (a_pending a) in
  match e with
  | HandlerTimedOut => return_ (Some MQTTTimeoutError)
  | HandlerCancelled => if cancelling then ended a else return_ (Some DependencyCancelledError)
  | HandlerRaised x => return_ (Some x)
  | Declined => return_ None
  | Responded reason_code properties =>
      if negb (ch_epoch c =? current) then return_ None else awaits (Locking c reason_code properties) cancelling (a_pending a)
  end.

(** The engine's lock is held, unless the task was cancelled while it waited.
    [answer]: what [respond_auth] and the collection of its effects raise, if anything;
    [drained]: what [drain_inline] raises. *)
Definition lock_acquired (handler : bool) (current : Z) (cancelling : bool) (c : challenge) (answer drained : res unit) (a : AuthExchange) : AuthExchange :=
  if cancelling then ended a
  else
    match answer, drained with
    | Raise x, _ => after_answer handler current cancelling c (Some x) (a_pending a)
    | Ok _, Raise x => ended a
    | Ok _, Ok _ => after_answer handler current cancelling c None (a_pending a)
    end.
