(* ===== verification/AuthTheorems.v ===== *)
(** * Challenges are answered in turn, on their own connection

    Challenges arrive, connections are retired and the handler ends as it likes. *)

From S2P Require Import Prelude Auth.

(** What the handler was asked, what it was told to answer, and the failures given to
    the client, each with the connection of the moment. *)
Inductive auth_event := Asked (c : challenge) (current : Z) | Answered (c : challenge) (current : Z) | Ended (c : challenge) (x : exn) (current : Z).

Record auth_exchange := mkExchange { auth : AuthExchange; current : Z; arrived : list challenge; events : list auth_event }.
Implicit Types (s : auth_exchange) (a : AuthExchange) (c : challenge).

Definition asked_now a (current : Z) : list auth_event := match a_task a with Some (Asking c, _) => [Asked c current] | _ => [] end.
(** The failure of a challenge: the handler's or the engine's. *)
Definition failed_now a c (current : Z) : list auth_event := match a_task a with Some (Failing x, _) => [Ended c x current] | _ => [] end.

(** A stretch of the task for [c], after [before] happened. *)
Definition went_on (before : list auth_event) c a s : auth_exchange :=
  mkExchange a (current s) (arrived s) (events s ++ before ++ failed_now a c (current s) ++ asked_now a (current s)).

(** The client has a handler, which is fixed when it is made; a task that starts has
    no challenge in hand. *)
Definition no_challenge : challenge := mkChallenge 0 0 0.

Inductive auth_step : auth_exchange → auth_exchange → Prop :=
  | as_hand_off s c : ch_epoch c = current s → auth_step s (mkExchange (hand_off c (auth s)) (current s) (arrived s ++ [c]) (events s))
  | as_retire s by_handler : auth_step s (mkExchange (retire by_handler (auth s)) (current s) (arrived s) (events s))
  | as_connect s : auth_step s (mkExchange (auth s) (current s + 1) (arrived s) (events s))
  | as_started s cancelling : a_task (auth s) = Some (Starting, cancelling) →
      auth_step s (went_on [] no_challenge (started true (current s) cancelling (auth s)) s)
  | as_handler s c cancelling e : a_task (auth s) = Some (Asking c, cancelling) →
      auth_step s (went_on [] c (handler_ended true (current s) cancelling c e (auth s)) s)
  | as_locked s c rc ps cancelling answer drained : a_task (auth s) = Some (Locking c rc ps, cancelling) →
      auth_step s (went_on (if cancelling then [] else [Answered c (current s)]) c (lock_acquired true (current s) cancelling c answer drained (auth s)) s)
  | as_failed s x cancelling : a_task (auth s) = Some (Failing x, cancelling) → auth_step s (mkExchange (ended (auth s)) (current s) (arrived s) (events s)).

Definition exchanging s : Prop := rtc auth_step (mkExchange AuthExchange_init 0 [] []) s.

Definition asked (l : list auth_event) : list challenge := omap (λ e, match e with Asked c _ => Some c | _ => None end) l.
Definition answered (l : list auth_event) : list challenge := omap (λ e, match e with Answered c _ => Some c | _ => None end) l.

Record auth_ok s : Prop := {
  au_order : (asked (events s) ++ a_pending (auth s)) `sublist_of` arrived s;
  au_answers : (answered (events s)) ++ (match a_task (auth s) with Some (Asking c, _) | Some (Locking c _ _, _) => [c] | _ => [] end) `sublist_of` asked (events s);
  au_asked : ∀ c n, Asked c n ∈ events s → ch_epoch c = n;
  au_ended : ∀ c x n, Ended c x n ∈ events s → ch_epoch c = n }.

Lemma run_loop_spec current cancelling pending : let a := run_loop true current cancelling pending in
  match a_task a with
  | Some (Asking c, b) => (c :: a_pending a) `sublist_of` pending ∧ ch_epoch c = current ∧ b = cancelling
  | None => a_pending a = []
  | _ => False
  end.
Proof.
  induction pending as [| c l IH]; simpl; [done |]. destruct (ch_epoch c =? current) eqn:E; simpl; [split_and!; [done | lia | done] |].
  cbv zeta in IH. revert IH. destruct (a_task (run_loop true current cancelling l)) as [[ph b] |]; [| done]. destruct ph; try done. intros (H1 & H2 & H3). split_and!; try done. by apply sublist_cons.
Qed.

Lemma asked_app l l' : asked (l ++ l') = asked l ++ asked l'.
Proof. apply omap_app. Qed.
Lemma answered_app l l' : answered (l ++ l') = answered l ++ answered l'.
Proof. apply omap_app. Qed.

(** The task takes the next challenge, or ends. *)
Lemma loop_ok s before c0 cancelling pending : asked before = [] →
  (asked (events s) ++ pending) `sublist_of` arrived s → (answered (events s ++ before)) `sublist_of` asked (events s) →
  (∀ c n, Asked c n ∈ events s → ch_epoch c = n) → (∀ c x n, Ended c x n ∈ events s ++ before → ch_epoch c = n) →
  auth_ok (went_on before c0 (run_loop true (current s) cancelling pending) s).
Proof.
  intros Hb Ho Ha Hk He. pose proof (run_loop_spec (current s) cancelling pending) as Hr. cbv zeta in Hr. unfold went_on, failed_now, asked_now.
  destruct (run_loop true (current s) cancelling pending) as [rest t]. simpl in *. destruct t as [[ph b] |]; [destruct ph; try done |]; simpl.
  - destruct Hr as (H1 & H2 & _). constructor; simpl.
    + rewrite !asked_app, Hb. simpl. rewrite <- app_assoc. simpl. etrans; [| exact Ho]. by apply sublist_app.
    + rewrite !asked_app, app_assoc, answered_app, Hb. simpl. rewrite app_nil_r. by apply sublist_app.
    + intros c' n. rewrite !elem_of_app. intros [H | [H | H%list_elem_of_singleton]]; [by apply Hk | | congruence].
      exfalso. assert (c' ∈ asked before) as Hi by (apply list_elem_of_omap; by eexists (Asked c' n)). rewrite Hb in Hi. by apply elem_of_nil in Hi.
    + intros c' x n. rewrite app_assoc, elem_of_app. intros [H | H%list_elem_of_singleton]; [by eapply He | done].
  - subst rest. rewrite !app_nil_r. constructor; simpl.
    + rewrite asked_app, Hb, !app_nil_r. etrans; [| exact Ho]. by apply sublist_inserts_r.
    + by rewrite asked_app, Hb, !app_nil_r.
    + intros c' n. rewrite elem_of_app. intros [H | H]; [by apply Hk |]. exfalso. assert (c' ∈ asked before) as Hi by (apply list_elem_of_omap; by eexists (Asked c' n)). rewrite Hb in Hi. by apply elem_of_nil in Hi.
    + done.
Qed.

(** The task is done with [c]. *)
Lemma after_answer_ok s before c cancelling failure pending : asked before = [] →
  (asked (events s) ++ pending) `sublist_of` arrived s → (answered (events s ++ before)) `sublist_of` asked (events s) →
  (∀ c n, Asked c n ∈ events s → ch_epoch c = n) → (∀ c x n, Ended c x n ∈ events s ++ before → ch_epoch c = n) →
  auth_ok (went_on before c (after_answer true (current s) cancelling c failure pending) s).
Proof.
  intros Hb Ho Ha Hk He. unfold after_answer. destruct failure as [x |]; [| by apply loop_ok]. destruct (ch_epoch c =? current s) eqn:E; [| by apply loop_ok].
  unfold went_on, awaits, failed_now, asked_now. simpl. rewrite ?app_nil_r. constructor; simpl; rewrite ?asked_app, ?answered_app, ?Hb; simpl; rewrite ?app_nil_r.
  - etrans; [| exact Ho]. by apply sublist_inserts_r.
  - rewrite answered_app in Ha. done.
  - intros c' n. rewrite !elem_of_app. intros [H | [H | H%list_elem_of_singleton]]; [by apply Hk | | done].
    exfalso. assert (c' ∈ asked before) as Hi by (apply list_elem_of_omap; by eexists (Asked c' n)). rewrite Hb in Hi. by apply elem_of_nil in Hi.
  - intros c' y n. rewrite app_assoc, elem_of_app. intros [H | H%list_elem_of_singleton]; [by eapply He |]. injection H as -> -> ->. lia.
Qed.

Lemma auth_step_ok s s' : auth_step s s' → auth_ok s → auth_ok s'.
Proof.
  intros Hstep [Ho Ha Hk He]. destruct Hstep as [s c Hc | s by_handler | s | s cancelling Ht | s c cancelling e Ht | s c rc ps cancelling answer drained Ht | s x cancelling Ht].
  - constructor; simpl; try done; [rewrite app_assoc; by apply sublist_app | by destruct (a_task (auth s)) as [[[] ?] |]].
  - constructor; simpl; try done; [rewrite app_nil_r; etrans; [| exact Ho]; by apply sublist_inserts_r | by destruct (a_task (auth s)) as [[[] ?] |]].
  - by constructor.
  - rewrite Ht, app_nil_r in Ha. unfold started. destruct cancelling; [| apply loop_ok; rewrite ?app_nil_r; done].
    unfold went_on, ended, failed_now, asked_now. simpl. rewrite app_nil_r. constructor; simpl; try done. by rewrite app_nil_r.
  - rewrite Ht in Ha.
    assert (answered (events s) `sublist_of` asked (events s)) as Ha' by (etrans; [| exact Ha]; by apply sublist_inserts_r).
    assert (∀ failure, auth_ok (went_on [] c (after_answer true (current s) cancelling c failure (a_pending (auth s))) s)) as Hr
      by (intros failure; apply after_answer_ok; rewrite ?app_nil_r; done).
    unfold handler_ended. destruct e; try apply Hr.
    + destruct (ch_epoch c =? current s); simpl; [| exact (Hr None)]. unfold went_on, awaits, failed_now, asked_now. simpl. rewrite app_nil_r. by constructor.
    + destruct cancelling; [| apply Hr]. unfold went_on, ended, failed_now, asked_now. simpl. rewrite app_nil_r. constructor; simpl; try done. by rewrite app_nil_r.
  - rewrite Ht in Ha. unfold lock_acquired. destruct cancelling.
    + unfold went_on, ended, failed_now, asked_now. simpl. rewrite app_nil_r. constructor; simpl; try done. rewrite app_nil_r. etrans; [| exact Ha]. by apply sublist_inserts_r.
    + assert (answered (events s ++ [Answered c (current s)]) `sublist_of` asked (events s)) as Ha' by (by rewrite answered_app).
      assert (∀ c' x n, Ended c' x n ∈ events s ++ [Answered c (current s)] → ch_epoch c' = n) as He' by (intros c' x n [H | H%list_elem_of_singleton]%elem_of_app; [by eapply He | done]).
      destruct answer as [? | x]; [destruct drained as [? | x] |]; try (by apply after_answer_ok).
      unfold went_on, ended, failed_now, asked_now. simpl. constructor; simpl; rewrite ?asked_app, ?app_nil_r; try done.
      intros c' n [H | H%list_elem_of_singleton]%elem_of_app; [by apply Hk | done].
  - rewrite Ht, app_nil_r in Ha. constructor; simpl; try done. by rewrite app_nil_r.
Qed.

(** C27: challenges reach the application's handler in turn, one at a time, on the
    connection they came on.  Connections are retired and replaced at any moment and the
    handler may answer, refuse, raise, take too long or be cancelled: the challenges it
    was asked and those that wait are, in order of arrival, among those that arrived;
    the ones answered to the engine are, in order, among those asked, each at most
    once; and nothing is asked, and no failure ends a connection, for a challenge of
    another connection. *)
Theorem auth_in_turn s : exchanging s →
  (asked (events s) ++ a_pending (auth s)) `sublist_of` arrived s ∧ answered (events s) `sublist_of` asked (events s) ∧
  (∀ c n, Asked c n ∈ events s → ch_epoch c = n) ∧ (∀ c x n, Ended c x n ∈ events s → ch_epoch c = n).
Proof.
  intros H. assert (auth_ok s) as [Ho Ha Hk He].
  { assert (auth_ok (mkExchange AuthExchange_init 0 [] [])) as H0 by (constructor; simpl; try done; by intros ? ? ?%elem_of_nil || by intros ? ? ? ?%elem_of_nil).
    unfold exchanging in H. induction H; eauto using auth_step_ok. }
  split_and!; try done. etrans; [| exact Ha]. by apply sublist_inserts_r.
Qed.

(** *** Examples *)

Definition auth_run1 : auth_exchange := mkExchange (hand_off (mkChallenge 1 1 0) AuthExchange_init) 0 [mkChallenge 1 1 0] [].
Definition auth_run2 : auth_exchange := went_on [] no_challenge (started true 0 false (auth auth_run1)) auth_run1.
Lemma auth_run2_exchanging : exchanging auth_run2.
Proof.
  eapply rtc_l; [by apply (as_hand_off _ (mkChallenge 1 1 0)) |]. eapply rtc_l; [by apply (as_started auth_run1 false) |]. apply rtc_refl.
Qed.
Lemma auth_in_turn_witness : exchanging auth_run2 ∧ asked (events auth_run2) = [mkChallenge 1 1 0] ∧ asked (events auth_run2) ++ a_pending (auth auth_run2) `sublist_of` [mkChallenge 1 1 0].
Proof. split; [exact auth_run2_exchanging |]. split; [reflexivity |]. exact (proj1 (auth_in_turn auth_run2 auth_run2_exchanging)). Defined.

(** A challenge that arrives while the handler of a retired connection is still being
    cancelled is left behind: [hand_off] starts no task because that one is not done,
    and it ends by the cancellation. *)
Lemma challenge_stranded : ∃ s, exchanging s ∧ a_pending (auth s) = [mkChallenge 2 2 1] ∧ current s = 1 ∧ a_task (auth s) = None.
Proof.
  set (s3 := mkExchange (auth auth_run2) 1 (arrived auth_run2) (events auth_run2)).
  set (s4 := mkExchange (retire false (auth s3)) 1 (arrived s3) (events s3)).
  set (s5 := mkExchange (hand_off (mkChallenge 2 2 1) (auth s4)) 1 (arrived s4 ++ [mkChallenge 2 2 1]) (events s4)).
  exists (went_on [] (mkChallenge 1 1 0) (handler_ended true 1 true (mkChallenge 1 1 0) HandlerCancelled (auth s5)) s5). split; [| done].
  unfold exchanging. etrans; [exact auth_run2_exchanging |]. apply (rtc_l _ _ s3); [apply as_connect |]. apply (rtc_l _ _ s4); [apply as_retire |].
  apply (rtc_l _ _ s5); [by apply as_hand_off |]. apply rtc_once. by apply (as_handler s5 (mkChallenge 1 1 0) true HandlerCancelled).
Qed.
