(* ===== verification/Lifecycle.v ===== *)
(** * Lifecycle notifications

    [api/_lifecycle.py]: the supervisor that runs [on_connect] and [on_disconnect], one
    at a time, and holds automatic reconnection back until the application is told that
    the connection is gone.  Its two tasks are cut at their awaits. *)

From S2P Require Import Prelude.

(** [n_callback]: whether there is a hook to call. *)
Record notification := mkNotification { n_token : Z; n_connected : bool; n_callback : bool; n_error : option exn }.
Implicit Types (n : notification).

(** The supervisor sleeps once when it is created, waits for the holds, waits for the
    lifecycle lock, or waits for the hook. *)
Inductive worker_phase := WorkerCreated | WorkerHeld | WorkerLock | WorkerHook n.
(** The task of a hook, with whether it was asked to cancel. *)
Inductive hook_phase := HookCreated | HookHeld | HookLock | HookRunning | HookDone.

Record LifecycleHooks := mkHooks {
  token : Z; worker : option worker_phase; hook_task : option (hook_phase * bool); pending : option notification; last_disconnect_error : option exn;
  _holds : Z; _released : bool; _reconnect_ready : bool }.
Implicit Types (h : LifecycleHooks).

Definition LifecycleHooks_init : LifecycleHooks := mkHooks 0 None None None None 0 true true.

Definition set_pending (p : option notification) h := mkHooks (token h) (worker h) (hook_task h) p (last_disconnect_error h) (_holds h) (_released h) (_reconnect_ready h).
Definition set_ready (b : bool) h := mkHooks (token h) (worker h) (hook_task h) (pending h) (last_disconnect_error h) (_holds h) (_released h) b.
Definition set_worker (w : option worker_phase) h := mkHooks (token h) w (hook_task h) (pending h) (last_disconnect_error h) (_holds h) (_released h) (_reconnect_ready h).
Definition set_hook (t : option (hook_phase * bool)) h := mkHooks (token h) (worker h) t (pending h) (last_disconnect_error h) (_holds h) (_released h) (_reconnect_ready h).
Definition set_token (z : Z) h := mkHooks z (worker h) (hook_task h) (pending h) (last_disconnect_error h) (_holds h) (_released h) (_reconnect_ready h).
Definition set_last_error (x : option exn) h := mkHooks (token h) (worker h) (hook_task h) (pending h) x (_holds h) (_released h) (_reconnect_ready h).

(** [spared]: the running hook is [origin]. *)
Definition _cancel_obsolete (spared : bool) h : LifecycleHooks :=
  match hook_task h with
  | Some (ph, cancelling) => if negb spared && negb (match ph with HookDone => true | _ => false end) && negb cancelling then set_hook (Some (ph, true)) h else h
  | None => h
  end.

(** [by_hook]: the caller is the hook that runs. *)
Definition begin_operation (replace_connection preserve_hook by_hook : bool) h : LifecycleHooks :=
  let h := if replace_connection then set_token (token h + 1) h else h in
  let h := set_ready true (set_pending None h) in
  if preserve_hook then h else _cancel_obsolete by_hook h.

Definition hold h : LifecycleHooks :=
  mkHooks (token h) (worker h) (hook_task h) (pending h) (last_disconnect_error h) (_holds h + 1) false (_reconnect_ready h).
Definition release h : res LifecycleHooks :=
  let holds := _holds h - 1 in
  if holds <? 0 then Raise AssertionError
  else Ok (mkHooks (token h) (worker h) (hook_task h) (pending h) (last_disconnect_error h) holds (if holds =? 0 then true else _released h) (_reconnect_ready h)).

Definition _ensure_worker h : LifecycleHooks := match worker h with None => set_worker (Some WorkerCreated) h | Some _ => h end.

(** [on_connect]: whether the hook is set. *)
Definition connected (on_connect : bool) (reason_code tok : Z) h : LifecycleHooks :=
  if negb (tok =? token h) || negb (reason_code =? 0) then h
  else _ensure_worker (set_pending (Some (mkNotification tok true on_connect None)) (set_ready true h)).
Definition disconnected (on_disconnect : bool) (x : option exn) (tok : Z) (spared : bool) h : LifecycleHooks :=
  if negb (tok =? token h) then h
  else _ensure_worker (set_pending (Some (mkNotification tok false on_disconnect x)) (set_ready false (_cancel_obsolete spared (set_last_error x h)))).
Definition retiring (tok : Z) (spared : bool) h : LifecycleHooks :=
  if tok =? token h then _cancel_obsolete spared (set_ready false (set_pending None h)) else h.

(** ** The supervisor *)

(** The top of the loop of [_run]; when it ends, [task] is forgotten. *)
Definition worker_top h : LifecycleHooks := match pending h with None => set_worker None h | Some _ => set_worker (Some WorkerHeld) h end.
(** After the hook, if there was one. *)
Definition worker_after n h : LifecycleHooks :=
  let h := if negb (n_connected n) && (n_token n =? token h) && match pending h with None => true | Some _ => false end then set_ready true h else h in
  worker_top h.
(** From the lock to the next await. *)
Definition worker_notify h : LifecycleHooks :=
  if negb (_holds h =? 0) then worker_top h
  else
    match pending h with
    | None => worker_top h
    | Some n =>
        let h := set_pending None h in
        if negb (n_token n =? token h) then worker_top h
        else if n_callback n then set_worker (Some (WorkerHook n)) (set_hook (Some (HookCreated, false)) h)
        else worker_after n h
    end.
(** One step of the supervisor, [None] while it must wait. *)
Definition worker_step h : option LifecycleHooks :=
  match worker h with
  | None => None
  | Some WorkerCreated => Some (worker_top h)
  | Some WorkerHeld => if _released h then Some (set_worker (Some WorkerLock) h) else None
  | Some WorkerLock => Some (worker_notify h)
  | Some (WorkerHook n) => match hook_task h with Some (HookDone, _) | None => Some (worker_after n (set_hook None h)) | _ => None end
  end.

(** ** The hook *)

(** One step of [_invoke] for [n]; [HookRunning] ends when the hook does, however it
    does.  The flag says whether the hook was called. *)
Definition hook_step n h : option (LifecycleHooks * bool) :=
  match hook_task h with
  | None | Some (HookDone, _) => None
  | Some (HookRunning, cancelling) => Some (set_hook (Some (HookDone, cancelling)) h, false)
  | Some (_, true) => Some (set_hook (Some (HookDone, true)) h, false)
  | Some (HookCreated, false) => Some (set_hook (Some (HookHeld, false)) h, false)
  | Some (HookHeld, false) => if _released h then Some (set_hook (Some (HookLock, false)) h, false) else None
  | Some (HookLock, false) =>
      if negb (n_token n =? token h) then Some (set_hook (Some (HookDone, false)) h, false)
      else Some (set_hook (Some (HookRunning, false)) (if n_connected n then h else set_ready true h), true)
  end.
