(* ===== verification/LifecycleTheorems.v ===== *)
(** * Reconnection is held back and let go

    Operations of the client, the supervisor and the hooks in any interleaving. *)

From S2P Require Import Prelude Lifecycle.

Implicit Types (h : LifecycleHooks) (n : notification).

(** [closing]: the connection is being retired and its end not yet notified.
    [invoked]: the hooks called, each with the token of the moment. *)
Record supervised := mkSupervised { hooks : LifecycleHooks; closing : bool; invoked : list (notification * Z) }.
Implicit Types (s : supervised).

Inductive own_step : supervised → supervised → Prop :=
  | own_worker s h : worker_step (hooks s) = Some h → own_step s (mkSupervised h (closing s) (invoked s))
  | own_hook s n h called : worker (hooks s) = Some (WorkerHook n) → hook_step n (hooks s) = Some (h, called) →
      own_step s (mkSupervised h (closing s) (invoked s ++ (if called : bool then [(n, token h)] else []))).
Inductive lifecycle_step : supervised → supervised → Prop :=
  | ls_own s s' : own_step s s' → lifecycle_step s s'
  | ls_begin s replace preserve by_hook : lifecycle_step s (mkSupervised (begin_operation replace preserve by_hook (hooks s)) false (invoked s))
  | ls_hold s : lifecycle_step s (mkSupervised (hold (hooks s)) (closing s) (invoked s))
  | ls_release s h : release (hooks s) = Ok h → lifecycle_step s (mkSupervised h (closing s) (invoked s))
  | ls_connected s cb rc tok : lifecycle_step s (mkSupervised (connected cb rc tok (hooks s)) (if (tok =? token (hooks s)) && (rc =? 0) then false else closing s) (invoked s))
  | ls_disconnected s cb x tok spared : lifecycle_step s (mkSupervised (disconnected cb x tok spared (hooks s)) (if tok =? token (hooks s) then false else closing s) (invoked s))
  | ls_retiring s tok spared : lifecycle_step s (mkSupervised (retiring tok spared (hooks s)) (if tok =? token (hooks s) then true else closing s) (invoked s)).
Definition supervising s : Prop := rtc lifecycle_step (mkSupervised LifecycleHooks_init false []) s.

(** Who will let reconnection go. *)
Definition due h : Prop :=
  (∃ n, pending h = Some n ∧ n_connected n = false) ∨
  ∃ n ph c, worker h = Some (WorkerHook n) ∧ n_connected n = false ∧ n_token n = token h ∧ hook_task h = Some (ph, c) ∧ ph ≠ HookRunning.
Record hooks_ok (closing : bool) h : Prop := {
  ho_pending : ∀ n, pending h = Some n → n_token n = token h ∧ worker h ≠ None;
  ho_hook : (∃ n, worker h = Some (WorkerHook n)) ↔ is_Some (hook_task h);
  ho_holds : 0 ≤ _holds h ∧ (_released h = true ↔ _holds h = 0);
  ho_ready : _reconnect_ready h = false → closing = true ∨ due h }.

Lemma cancel_hook spared h : let h' := _cancel_obsolete spared h in
  token h' = token h ∧ worker h' = worker h ∧ pending h' = pending h ∧ _holds h' = _holds h ∧ _released h' = _released h ∧ _reconnect_ready h' = _reconnect_ready h ∧
  match hook_task h with Some (ph, _) => ∃ c, hook_task h' = Some (ph, c) | None => hook_task h' = None end.
Proof. unfold _cancel_obsolete. destruct (hook_task h) as [[ph c] |] eqn:E; [case_match; simpl; split_and!; try done; [by eexists | rewrite E; by eexists] | done]. Qed.

Lemma top_ok cl h : (∀ n, pending h = Some n → n_token n = token h ∧ (n_connected n = true → _reconnect_ready h = true)) → hook_task h = None → 0 ≤ _holds h ∧ (_released h = true ↔ _holds h = 0) →
  (_reconnect_ready h = false → cl = true ∨ is_Some (pending h)) → hooks_ok cl (worker_top h).
Proof.
  intros Hp Hh Hr Hd. unfold worker_top. destruct (pending h) as [n |] eqn:E; constructor; simpl; rewrite ?Hh, ?E; try done.
  - intros n' [= <-]. destruct (Hp n eq_refl) as [H _]. done.
  - split; [by intros [? ?] | by intros [? ?]].
  - intros Hf. right. left. exists n. simpl. split; [done |]. destruct (n_connected n) eqn:Ec; [| done]. destruct (Hp n eq_refl) as [_ H]. rewrite H in Hf; done.
  - split; [by intros [? ?] | by intros [? ?]].
  - intros Hf. left. destruct (Hd Hf) as [? | [? ?]]; done.
Qed.

Definition pending_ready h : Prop := ∀ n, pending h = Some n → n_connected n = true → _reconnect_ready h = true.

Lemma after_ok cl n h c : hooks_ok cl h → pending_ready h → worker h = Some (WorkerHook n) → hook_task h = Some (HookDone, c) → hooks_ok cl (worker_after n (set_hook None h)).
Proof.
  intros [Hp Hh Hr Hd] Hc Hw Ht. unfold worker_after. simpl.
  destruct (negb (n_connected n) && (n_token n =? token h) && match pending h with None => true | Some _ => false end) eqn:E; apply top_ok; simpl; try done.
  - intros n' H. by destruct (Hp n' H).
  - intros n' H. destruct (Hp n' H). split; [done |]. by apply Hc.
  - intros Hf. destruct (pending h) as [p |] eqn:Ep; [right; by eexists |]. rewrite andb_true_r in E.
    destruct (Hd Hf) as [? | [(p & Hp' & _) | (n' & ph & c' & Hw' & Hn & Htk & _)]]; [by left | congruence |]. simplify_eq. rewrite Hn in E. simpl in E. lia.
Qed.
(** A notification without a hook. *)
Lemma unheard_ok cl n h : hook_task h = None → pending h = None → n_token n = token h → 0 ≤ _holds h ∧ (_released h = true ↔ _holds h = 0) →
  (n_connected n = true → _reconnect_ready h = true) → hooks_ok cl (worker_after n h) ∧ pending_ready (worker_after n h).
Proof.
  intros Hh Hp Ht Hr Hc. unfold worker_after, worker_top. rewrite Hp, Ht, Z.eqb_refl.
  destruct (n_connected n) eqn:En; simpl; rewrite Hp; (split; [constructor; simpl; rewrite ?Hp, ?Hh; try done | intros n' H; simpl in H; congruence]).
  all: try by split; intros [? ?]. by rewrite Hc.
Qed.

Definition supervised_ok s : Prop := hooks_ok (closing s) (hooks s) ∧ pending_ready (hooks s).

Lemma worker_top_ready h : pending_ready h → pending_ready (worker_top h).
Proof. intros H n. unfold worker_top. destruct (pending h) eqn:E; simpl; rewrite E; [intros [= <-]; by apply H | done]. Qed.
Lemma worker_after_ready n h : pending_ready h → pending_ready (worker_after n (set_hook None h)).
Proof. intros H. unfold worker_after. apply worker_top_ready. case_match; [by intros ? ? ? | done]. Qed.

Lemma own_ok s s' : own_step s s' → supervised_ok s → supervised_ok s'.
Proof.
  intros Hstep [Ho Hc]. pose proof Ho as [Hp Hh Hr Hd]. destruct Hstep as [s h Hw | s n h called Hw Hs].
  - unfold worker_step in Hw. destruct (worker (hooks s)) as [[| | | n] |] eqn:Ew; [| | | | done].
    + assert (hook_task (hooks s) = None) as Hn by (destruct (hook_task (hooks s)) eqn:E; [destruct (proj2 Hh) as [? ?]; [by eexists | done] | done]).
      injection Hw as <-. split; [| by apply worker_top_ready]. apply top_ok; try done; [intros n H; split; [by apply Hp | by apply Hc] |].
      intros Hf. destruct (Hd Hf) as [? | [(n & H & _) | (n & ph & c & H & _)]]; [by left | right; by eexists | congruence].
    + destruct (_released (hooks s)) eqn:Er; [| done]. injection Hw as <-. split; [| done]. constructor; simpl; rewrite ?Er; try done; [intros n H; by destruct (Hp n H) | | ].
      * split; [by intros [? ?] |]. intros H. apply Hh in H as [? ?]. done.
      * intros Hf. destruct (Hd Hf) as [? | [H | (n & ph & c & H & _)]]; [by left | right; by left | congruence].
    + injection Hw as <-. assert (hook_task (hooks s) = None) as Hn by (destruct (hook_task (hooks s)) eqn:E; [destruct (proj2 Hh) as [? ?]; [by eexists | done] | done]).
      unfold worker_notify. assert (hooks_ok (closing s) (worker_top (hooks s)) ∧ pending_ready (worker_top (hooks s))) as Htop.
      { split; [| by apply worker_top_ready]. apply top_ok; try done; [intros n H; split; [by apply Hp | by apply Hc] |].
        intros Hf. destruct (Hd Hf) as [? | [(n & H & _) | (n & ph & c & H & _)]]; [by left | right; by eexists | congruence]. }
      destruct (negb (_holds (hooks s) =? 0)); [exact Htop |]. destruct (pending (hooks s)) as [n |] eqn:Ep; [| exact Htop].
      destruct (Hp n eq_refl) as [Htok _]. cbn [token set_pending]. rewrite Htok, Z.eqb_refl. cbn [negb]. destruct (n_callback n).
      * split; [| done]. constructor; simpl; try done; [split; eauto |]. intros Hf. destruct (Hd Hf) as [? | [(n2 & H & Hn2) | (n2 & ph & c & H & _)]]; [by left | | congruence].
        right. right. rewrite Ep in H. injection H as <-. exists n, HookCreated, false. done.
      * apply unheard_ok; try done. by apply Hc.
    + destruct (hook_task (hooks s)) as [[ph c] |] eqn:Et; [| destruct (proj1 Hh) as [? ?]; [by eexists | done]].
      destruct ph; try done. injection Hw as <-. split; [by eapply after_ok | by apply worker_after_ready].
  - unfold hook_step in Hs. destruct (hook_task (hooks s)) as [[ph c] |] eqn:Et; [| done].
    assert (∀ ph2 c2, ph ≠ HookRunning → ph2 ≠ HookRunning → hooks_ok (closing s) (set_hook (Some (ph2, c2)) (hooks s))) as Hmove.
    { intros ph2 c2 Hne Hne2. constructor; simpl; try done; [split; [by eexists | eauto] |]. intros Hf. destruct (Hd Hf) as [? | [H | (n2 & ph' & c' & H1 & H2 & H3 & H4 & _)]]; [by left | right; by left |].
      right. right. exists n2, ph2, c2. done. }
    destruct ph, c; try done; try (injection Hs as <- <-; split; [by apply Hmove | done]).
    + destruct (_released (hooks s)); [| done]. injection Hs as <- <-. split; [by apply Hmove | done].
    + destruct (n_token n =? token (hooks s)) eqn:Ek; simpl in Hs; [| injection Hs as <- <-; split; [by apply Hmove | done]].
      injection Hs as <- <-. split; [| destruct (n_connected n); [done | by intros ? ? ?]].
      destruct (n_connected n) eqn:En; (constructor; simpl; [done | split; [by eexists | eauto] | done | try done]).
      intros Hf. destruct (Hd Hf) as [? | [H | (n2 & ph' & c' & H1 & H2 & _)]]; [by left | right; by left | congruence].
    + injection Hs as <- <-. split; [| done]. constructor; simpl; try done; [split; [by eexists | eauto] |].
      intros Hf. destruct (Hd Hf) as [? | [H | (n2 & ph' & c' & H1 & H2 & H3 & H4 & H5)]]; [by left | right; by left | congruence].
    + injection Hs as <- <-. split; [| done]. constructor; simpl; try done; [split; [by eexists | eauto] |].
      intros Hf. destruct (Hd Hf) as [? | [H | (n2 & ph' & c' & H1 & H2 & H3 & H4 & H5)]]; [by left | right; by left | congruence].
Qed.

Lemma lifecycle_step_ok s s' : lifecycle_step s s' → supervised_ok s → supervised_ok s'.
Proof.
  intros Hstep Hok. destruct Hstep as [s s' H | s replace preserve by_hook | s | s h Hr | s cb rc tok | s cb x tok spared | s tok spared]; [exact (own_ok _ _ H Hok) | | | | | |];
    destruct Hok as [Ho Hc]; pose proof Ho as [Hp Hh Hr' Hd].
  - unfold begin_operation. set (h0 := set_ready true (set_pending None (if replace then _ else _))).
    assert (hooks_ok false h0 ∧ pending_ready h0) as [H1 H2] by (unfold h0; destruct replace; split; done || (constructor; simpl; done)).
    destruct preserve; [by split |]. destruct (cancel_hook by_hook h0) as (C1 & C2 & C3 & C4 & C5 & C6 & C7). split; simpl.
    + constructor; rewrite ?C1, ?C2, ?C3, ?C4, ?C5, ?C6; try apply H1; [| intros Hf; unfold h0 in Hf; by destruct replace].
      rewrite (ho_hook _ _ H1). destruct (hook_task h0) as [[? ?] |]; [destruct C7 as [? ->]; by split; eauto | by rewrite C7].
    + intros n H. rewrite C3 in H. rewrite C6. by apply H2.
  - split; [| done]. constructor; simpl; try done. split; [lia | split; [done | lia]].
  - unfold release in Hr. destruct (_holds (hooks s) - 1 <? 0) eqn:E; [done |]. injection Hr as <-. split; [| done]. constructor; simpl; try done. split; [lia |].
    destruct Hr' as [H0 H1]. destruct (_holds (hooks s) - 1 =? 0) eqn:Ez; [split; [lia | done] |]. rewrite H1. lia.
  - unfold connected. destruct (tok =? token (hooks s)) eqn:Et; [destruct (rc =? 0) eqn:Er |]; simpl; try done.
    unfold _ensure_worker. simpl. destruct (worker (hooks s)) as [w |] eqn:Ew; (split; [| by intros n [= <-]]); constructor; simpl; try done.
    + intros n [= <-]. rewrite Ew. split; [simpl; lia | done].
    + by rewrite Ew.
    + intros n [= <-]. split; [simpl; lia | done].
    + split; [by intros [? ?] |]. intros H. apply Hh in H as [? ?]. done.
  - unfold disconnected. destruct (tok =? token (hooks s)) eqn:Et; simpl; [| done].
    destruct (cancel_hook spared (set_last_error x (hooks s))) as (C1 & C2 & C3 & C4 & C5 & C6 & C7). simpl in C1, C2, C3, C4, C5, C6, C7. set (h1 := _cancel_obsolete _ _) in *.
    assert (is_Some (hook_task h1) ↔ is_Some (hook_task (hooks s))) as Hk by (destruct (hook_task (hooks s)) as [[? ?] |]; [destruct C7 as [? ->]; split; intros; by eexists | by rewrite C7]).
    unfold _ensure_worker. simpl. rewrite C2. destruct (worker (hooks s)) as [w |] eqn:Ew; (split; [| by intros n [= <-]]); constructor; simpl; rewrite ?C1, ?C2, ?C4, ?C5, ?Hk; try done.
    all: try (intros _; right; left; by eexists). all: try (intros n [= <-]; split; [simpl; lia | done]).
    split; [by intros [? ?] |]. intros H. apply Hh in H as [? ?]. congruence.
  - unfold retiring. destruct (tok =? token (hooks s)) eqn:Et; simpl; [| done].
    set (h0 := set_ready false (set_pending None (hooks s))). destruct (cancel_hook spared h0) as (C1 & C2 & C3 & C4 & C5 & C6 & C7). split; simpl.
    + constructor; rewrite ?C1, ?C2, ?C3, ?C4, ?C5, ?C6; try done; [| by left]. simpl. rewrite Hh. simpl in C7. destruct (hook_task (hooks s)) as [[? ?] |]; [destruct C7 as [? ->]; by split; eauto | by rewrite C7].
    + intros n H. by rewrite C3 in H.
Qed.

Lemma supervising_ok s : supervising s → supervised_ok s.
Proof.
  assert (∀ a b, rtc lifecycle_step a b → supervised_ok a → supervised_ok b) as H by (induction 1; eauto using lifecycle_step_ok).
  intros Hs. eapply H; [exact Hs |]. split; [| done]. constructor; simpl; try done. by split; intros [? ?].
Qed.

(** ** The supervisor and its hook come to rest *)

Definition hook_left (t : option (hook_phase * bool)) : nat :=
  match t with Some (HookCreated, _) => 5 | Some (HookHeld, _) => 4 | Some (HookLock, _) => 3 | Some (HookRunning, _) => 2 | _ => 1 end.
Definition work_left h : nat :=
  (match pending h with Some _ => 20 | None => 0 end) +
  match worker h with None => 0 | Some WorkerLock => if _released h then 1 else 3 | Some WorkerHeld => 2 | Some WorkerCreated => 4 | Some (WorkerHook _) => 4 + hook_left (hook_task h) end.

Lemma work_left_bound h : (work_left h ≤ 29)%nat.
Proof. unfold work_left, hook_left. repeat case_match; lia. Qed.
Lemma top_left h : (work_left (worker_top h) ≤ (match pending h with Some _ => 22 | None => 0 end))%nat.
Proof. unfold worker_top. destruct (pending h) eqn:E; unfold work_left; simpl; rewrite E; lia. Qed.
Lemma after_left n h : (work_left (worker_after n h) ≤ (match pending h with Some _ => 22 | None => 0 end))%nat.
Proof. unfold worker_after. case_match; (etrans; [apply top_left | done]). Qed.

Lemma worker_step_left h h' : (_released h = true ↔ _holds h = 0) → worker_step h = Some h' → (work_left h' < work_left h)%nat.
Proof.
  intros Hr. unfold worker_step. destruct (worker h) as [[| | | n] |] eqn:Ew; [| | | | done].
  - intros [= <-]. pose proof (top_left h). unfold work_left at 2. rewrite Ew. case_match; lia.
  - destruct (_released h) eqn:E; [| done]. intros [= <-]. unfold work_left. rewrite Ew. simpl. rewrite E. lia.
  - intros [= <-]. unfold work_left at 2. rewrite Ew. unfold worker_notify. pose proof (top_left h).
    destruct (negb (_holds h =? 0)) eqn:E; [destruct (_released h); [lia |]; case_match; lia |]. assert (_released h = true) as -> by (apply Hr; lia). destruct (pending h) as [n |] eqn:Ep; [| lia].
    pose proof (top_left (set_pending None h)) as H2. pose proof (after_left n (set_pending None h)) as H3. simpl in H2, H3.
    case_match; [lia |]. case_match; [| lia]. unfold work_left, hook_left. simpl. lia.
  - intros H. assert (h' = worker_after n (set_hook None h)) as -> by (repeat case_match; congruence).
    pose proof (after_left n (set_hook None h)) as H3. simpl in H3. unfold work_left at 2. rewrite Ew. case_match; lia.
Qed.
Lemma hook_step_left n m h h' called : worker h = Some (WorkerHook m) → hook_step n h = Some (h', called) → (work_left h' < work_left h)%nat.
Proof.
  intros Hw. unfold hook_step. destruct (hook_task h) as [[[] []] |] eqn:Et; intros H; repeat case_match; simplify_eq;
    unfold work_left, hook_left; simpl; rewrite ?Hw, ?Et; lia.
Qed.
Lemma own_left s s' : own_step s s' → supervised_ok s → (work_left (hooks s') < work_left (hooks s))%nat.
Proof. intros [? h H | ? n h called Hw H] [Ho _]; simpl; [eapply worker_step_left; [apply Ho | done] | by eapply hook_step_left]. Qed.

Lemma top_frame h : _holds (worker_top h) = _holds h ∧ token (worker_top h) = token h.
Proof. unfold worker_top. by case_match. Qed.
Lemma after_frame n h : _holds (worker_after n h) = _holds h ∧ token (worker_after n h) = token h.
Proof. unfold worker_after. case_match; by destruct (top_frame (set_ready true h)), (top_frame h). Qed.
Lemma worker_frame h h' : worker_step h = Some h' → _holds h' = _holds h ∧ token h' = token h.
Proof.
  unfold worker_step, worker_notify. intros H. repeat case_match; simplify_eq; try apply top_frame; try done; try apply after_frame; try apply (top_frame (set_pending None h)); try apply (after_frame _ (set_pending None h)); apply (after_frame _ (set_hook None h)).
Qed.
Lemma hook_frame n h h' called : hook_step n h = Some (h', called) → _holds h' = _holds h ∧ token h' = token h ∧ (called = true → n_token n = token h).
Proof. unfold hook_step. intros H. repeat case_match; simplify_eq; simpl; split_and!; done || lia. Qed.
Lemma own_frame s s' : own_step s s' → _holds (hooks s') = _holds (hooks s) ∧ closing s' = closing s.
Proof. intros [? h H | ? n h called Hw H]; simpl; [apply worker_frame in H | apply hook_frame in H]; naive_solver. Qed.

(** Nothing waits for anything but the holds. *)
Lemma own_progress s : supervised_ok s → _holds (hooks s) = 0 → worker (hooks s) ≠ None → ∃ s', own_step s s'.
Proof.
  intros [[Hp Hh Hr Hd] _] H0 Hw. assert (_released (hooks s) = true) as Hrel by (by apply Hr).
  destruct (worker (hooks s)) as [w |] eqn:Ew; [| done]. clear Hw.
  assert (∀ h, worker_step (hooks s) = Some h → ∃ s', own_step s s') as Hws by (intros h E; eexists; by eapply own_worker).
  destruct w as [| | | n]; try (eapply Hws; unfold worker_step; by rewrite Ew, ?Hrel).
  destruct (proj1 Hh) as [[ph c] Ht]; [eauto |].
  assert (ph = HookDone ∨ ph ≠ HookDone) as [-> | Hne] by (destruct ph; auto); [eapply Hws; unfold worker_step; by rewrite Ew, Ht |].
  assert (∃ h b, hook_step n (hooks s) = Some (h, b)) as (h & b & E) by (unfold hook_step; rewrite Ht, Hrel; destruct ph, c; try done; eauto; case_match; eauto).
  eexists. by eapply own_hook.
Qed.

Definition called_current s : Prop := Forall (λ p, n_token p.1 = p.2) (invoked s).
Lemma called_step s s' : lifecycle_step s s' → called_current s → called_current s'.
Proof.
  intros [? ? [? h H | ? n h called Hw H] | | | | | |] Hc; try done. unfold called_current. simpl. apply Forall_app_2; [done |].
  destruct called; [| by constructor]. apply hook_frame in H as (_ & Ht & Hn). constructor; [| done]. simpl. rewrite Ht. by apply Hn.
Qed.
Lemma supervising_called s : supervising s → called_current s.
Proof.
  assert (∀ a b, rtc lifecycle_step a b → called_current a → called_current b) as H by (induction 1; eauto using called_step).
  intros Hs. eapply H; [exact Hs | constructor].
Qed.

Lemma own_runs k s s' : nsteps own_step k s s' → supervised_ok s → supervised_ok s' ∧ (k + work_left (hooks s') ≤ work_left (hooks s))%nat ∧ _holds (hooks s') = _holds (hooks s) ∧ closing s' = closing s.
Proof.
  induction 1 as [s | k s s1 s' H1 H2 IH]; intros Hok; [done |]. destruct (IH (own_ok _ _ H1 Hok)) as (? & ? & ? & ?).
  pose proof (own_left _ _ H1 Hok). destruct (own_frame _ _ H1). split_and!; [done | lia | congruence | congruence].
Qed.

(** C26: whatever the client does — connects, loses connections, replaces them, disconnects,
    holds and releases notifications, in any interleaving with the supervisor and the hooks —
    a hook is only ever called for the connection of the moment, and automatic reconnection is
    never held back for good: it waits only while the connection is being retired, or for a
    notification that is due.  Left to themselves, the supervisor and its hook come to
    rest within 29 steps under every schedule, the end of the hook among them; with nothing held, they stop only with
    reconnection let go. *)
Theorem reconnect_released s k s' : supervising s → nsteps own_step k s s' →
  called_current s' ∧ (k ≤ 29)%nat ∧
  (_reconnect_ready (hooks s') = false → closing s' = true ∨ due (hooks s')) ∧
  (_holds (hooks s) = 0 → closing s = false → _reconnect_ready (hooks s') = true ∨ ∃ s'', own_step s' s'').
Proof.
  intros Hs Hk. pose proof (supervising_ok s Hs) as Hok. destruct (own_runs k s s' Hk Hok) as (Hok' & Hleft & Hholds & Hcl).
  split; [| split; [| split]].
  - apply supervising_called. unfold supervising in *; etrans; [exact Hs |]. apply (rtc_subrel own_step _ s s'); [intros a b H; by constructor |]. apply rtc_nsteps. by exists k.
  - pose proof (work_left_bound (hooks s)). lia.
  - apply Hok'.
  - intros H0 Hc. destruct (_reconnect_ready (hooks s')) eqn:Er; [by left | right]. rewrite H0 in Hholds. rewrite Hc in Hcl.
    apply own_progress; [done | done |]. destruct Hok' as [[Hp Hh Hr Hd] _].
    destruct (Hd Er) as [? | [(n & Hn & _) | (n & ph & c & Hw & _)]]; [congruence | by destruct (Hp n Hn) | by rewrite Hw].
Qed.

Definition lost : supervised := mkSupervised (disconnected true (Some AssertionError) 0 false LifecycleHooks_init) false [].
Lemma reconnect_released_witness : supervising lost ∧ _reconnect_ready (hooks lost) = false ∧
  (_reconnect_ready (hooks lost) = true ∨ ∃ s'', own_step lost s'').
Proof.
  assert (supervising lost) as H by (apply rtc_once; exact (ls_disconnected (mkSupervised LifecycleHooks_init false []) true (Some AssertionError) 0 false)).
  split; [exact H | split; [reflexivity |]]. destruct (reconnect_released lost 0 lost H (nsteps_O _ _)) as (_ & _ & _ & Hp). by apply Hp.
Defined.
